(* ===== verification/_CoqProject ===== *)
-Q . S2P
Prelude.v
CppString.v
Number.v
Endian.v
ByteArray.v
ByteArraySpec.v
Codec.v
CodecSpec.v
StringUtil.v
StringUtilSpec.v
HashUtil.v
HashUtilSpec.v
Stream.v
StreamSpec.v
WebSocket.v
WebSocketSpec.v
ZlibStream.v
ZlibStreamSpec.v
Rock.v
RockSpec.v
Bitmap.v
BitmapRuns.v
BitmapSpec.v
Shards.v
LruCache.v
LruCacheSpec.v
OrderedSet.v
Timer.v
TimerSpec.v
TimedLruCache.v
TimedLruCacheSpec.v
TimedCache.v
TimedCacheSpec.v
HashMap.v
HashMapSpec.v
Multimap.v
Dict.v
SortedArray.v
LoadBalance.v
LoadBalanceSpec.v
ServiceBalance.v
ThreadPool.v
ThreadPoolSpec.v
Scheduler.v
SchedulerSpec.v
Semaphore.v
IOManager.v
IOManagerSpec.v
NameService.v
NameServiceSpec.v
RequestStream.v
RequestStreamSpec.v
MemPool.v
MemPoolSpec.v
Http.v
HttpSpec.v
HttpStream.v
HttpParser.v
HttpParserSpec.v
HttpStreamSpec.v
HttpServer.v
HttpServerSpec.v
HttpPool.v
HttpPoolSpec.v
Hook.v
HookSpec.v
Password.v
PasswordSpec.v
Json.v
Crypto.v
Auth.v
AuthSpec.v
Gateway.v
GatewaySpec.v
Address.v
AddressSpec.v
LogFile.v
LogFileSpec.v
Log.v
LogSpec.v
