(* ===== verification/Prelude.v ===== *)
(** * CIM: a verification library

    CIM is a C++ server framework in the manner of a coroutine runtime: workers run
    coroutines, an event manager on epoll wakes them, byte arrays and streams carry the
    protocols, and containers and balancers serve the layers above. This library models
    its core in Rocq and proves what makes each part correct. A mistake of the code is
    modelled as it is, and the theorem says what it does.

    ** Conventions

    A call that can fail returns in [res]: [Ok], [Throw] of a C++ exception, or [Crash],
    which stands for undefined behaviour and failed assertions and names the kind ([ub]).
    State is passed explicitly, by the monad [st] where an exception leaves a changed object. Integers are in Z
    with the wrap-around of their width written out ([u8] to [u64], [s32], [s64]); bytes
    are [Byte.byte]. A pointer that matters (nodes of a list, timers, contexts) is a number
    that a heap or a list of nodes is looked up with. Operations under a lock are one
    step each; threads that share state are sequences of such steps in any order.
    Code outside the repository is a parameter with laws: the kernel's [recv] and [send]
    ([Kernel]), files ([FileSystem]), zlib ([Zlib]), the digests of OpenSSL, the hash functors of the containers;
    each set of laws has an instance that meets it.

    ** Parts

    Text and hashing. [CppString]: the members of std::string that are called. [Number]:
    what the C library prints and scans. [StringUtil], [StringUtilSpec]:
    src/util/string_utils.cpp. [HashUtil], [HashUtilSpec]: src/util/hash_util.cpp.
    Percent-encoding and base64 round trip, splitting agrees with one reference
    ([segments]), both MurmurHash3 entry points compute the reference hash.

    Byte arrays. [Endian]: include/base/endian.hpp. [ByteArray], [ByteArraySpec]:
    src/net/byte_array.cpp, the chain of blocks with its cursor; it refines one flat string,
    and every reachable array is well formed. [Codec], [CodecSpec]: the typed readers and
    writers of the same file, written against the class [Buffer] and proved against
    [BufferLaws], of which the chain is an instance.

    Streams and protocols. [Stream], [StreamSpec]: include/net/stream.hpp,
    src/net/stream.cpp, src/streams/socket_stream.cpp, src/net/socket.cpp, over any kernel
    that makes short transfers. [ZlibStream], [ZlibStreamSpec]: src/streams/zlib_stream.cpp.
    [WebSocket], [WebSocketSpec]: the frames of src/http/ws_session.cpp. [Rock],
    [RockSpec]: src/other/protocol.cpp and src/rock/rock_protocol.cpp, on top of [Buffer],
    [Stream] and [ZlibStream]. What one side sends the other receives, exactly its bytes
    are consumed, malformed input is refused, the loops end. [RequestStream],
    [RequestStreamSpec]: src/streams/async_socket_stream.cpp and src/rock/rock_stream.cpp,
    the coroutines that share one connection as processes: a request is woken once, with its
    own response, the timeout or the error of the connection, and always can be.

    HTTP. [Http], [HttpSpec]: src/http/http.cpp and the dispatch of src/http/http_servlet.cpp.
    [HttpStream], [HttpStreamSpec]: the callbacks of src/http/http_parser.cpp, sessions and
    the receiving half of connections, over the classes of the two state machines.
    [HttpParser], [HttpParserSpec]: the machine of requests, src/http/http11_parser.rl and
    what ragel made of it, as a table with its actions, the marks that every call forgets
    among them: the text of a request, cut into pieces between its lines, gives its events,
    and one that is cut inside a line may be refused. That of responses is a parameter.
    [HttpServer], [HttpServerSpec]: src/http/http_server.cpp, ws_server.cpp, the handshake
    of ws_session.cpp, and the clients. [HttpPool], [HttpPoolSpec]: the pool of connections,
    on a heap, as threads that take and give back.

    The application. [Password], [PasswordSpec]: src/util/password.cpp. [Crypto]: RSA in src/util/crypto_util.cpp and src/other/crypto_module.cpp. [Json]:
    src/util/json_util.cpp and the bodies of src/common/common.cpp. [Auth], [AuthSpec]:
    src/dao/user_dao.cpp, src/app/auth_service.cpp, the tokens of common.cpp and the handlers
    of src/api/auth_api_module.cpp. The database is the class [UserTable] with the laws
    [UserTableLaws]: over every instance the service is a table of accounts with passwords.
    [Gateway], [GatewaySpec]: src/api/ws_gateway_module.cpp; its table holds the sessions
    that are connected, and the token that a login answers with opens it.

    Addresses. [Address], [AddressSpec]: src/net/address.cpp. Prefixes of IPv4 divide the
    addresses into blocks, the text of IPv6 is read back where the code has it right, the
    order is that of bytes; what the prefixes of IPv6 do instead is stated as it is.

    Logging. [LogFile], [LogFileSpec]: src/log/log_file.cpp and log_file_manager.cpp over any
    file system that keeps the rules of [FileSystemLaws]: rotation loses nothing but what the name of an archive held. [Log],
    [LogSpec]: patterns, loggers, appenders, the manager and the listener of the
    configuration (src/log): where an event goes, and what a configuration leaves.

    The name service. [NameService], [NameServiceSpec]: src/ns/ns_protocol.cpp and
    src/ns/name_server_module.cpp: a query names what the sessions have registered.

    Bitmaps. [Bitmap], [BitmapRuns], [BitmapSpec]: src/ds/bitmap.cpp. Compression and its
    inverse, the operations with a compressed operand, the enumeration of bits.

    Memory. [MemPool], [MemPoolSpec]: src/other/memory_pool.cpp over a heap: what is handed
    out lies in live memory apart from everything else, and is freed once.

    Caches and tables. [OrderedSet]: std::set as an ordered list. [LruCache],
    [TimedLruCache], [TimedCache] with their Spec files: include/ds/lru_cache.hpp,
    timed_lru_cache.hpp, timed_cache.hpp, each node and iterator in its place; they refine
    lists of items. [Shards]: what their sharded forms have in common, once, against the
    classes [CacheOps] and [CacheLaws]. [HashMap], [HashMapSpec]: include/ds/hash_map.hpp,
    which refines a finite map through its rehash; on it [Multimap]:
    include/ds/hash_multimap.hpp, a map to sets, and [Dict]: include/ds/dich.hpp, arrays
    and strings under their hash. [SortedArray]: include/ds/array.hpp and
    src/ds/ds_util.cpp: the binary search finds what a linear one does.

    The runtime. [Timer], [TimerSpec]: src/io/timer.cpp: what expires, when, and that a
    sleeper is notified. [Scheduler], [SchedulerSpec]: src/io/scheduler.cpp with the states
    of src/io/coroutine.cpp; [worker_step] is the loop of [Scheduler::run] cut at the
    accesses that other threads can see, any number of workers interleave, and coroutine
    bodies are any sequence of actions. Clients that keep a discipline ([disciplined]: a
    coroutine that is queued or with a worker is not scheduled again) are safe, and no
    task is lost. [Semaphore]: the coroutine semaphore of src/io/lock.cpp;
    its permits add up, and its [wait] breaks the discipline of the scheduler: a race, as
    a run of two workers. [IOManager], [IOManagerSpec]: src/io/iomanager.cpp, its table of
    contexts with the interest set of epoll, which refines a table of one reader and one
    writer per descriptor; it hands the scheduler what it wakes. [Timer] gives the timeout
    of its [epoll_wait]. [Hook], [HookSpec]: src/net/hook.cpp and src/net/fd_manager.cpp, a
    blocking call as a process on top of [IOManager]: a coroutine that waits is registered or
    scheduled, never both and never twice, what the call returns has its cause, and a step
    fails only on a report of epoll of which the context has one event and not the other
    ([torn]).

    Threads. [ThreadPool], [ThreadPoolSpec]: include/io/thread_pool.hpp, its threads, clients
    and destructor as steps: every task that is accepted is done, once and in order, and the
    threads come to rest.

    Balancing. [LoadBalance], [LoadBalanceSpec]: src/streams/load_balance.cpp: the window
    of statistics, round robin and weighted choice among the registered items.
    [ServiceBalance]: its balancers of services, which follow what a discovery reports, as
    threads that go on by the parts of [get] and [onServiceChange] while streams connect and
    are closed; only reports make balancers, those of one service one at a time.

    This file holds the notations, the machine integers, [res] and [st], and the lemmas and
    tactics that the others share.

    ** Loops

    Loops over data are structural. Where the code loops until a condition, the fixpoint
    takes fuel or a measure that is computed from its input (the bytes left, the blocks of
    a chain, the size of a frame), and a theorem says that it is enough: the receive loop of
    WebSocket ends on every input, the transfers of a stream end because each moves at
    least a byte or fails, the scans of compressed bitmaps consume a word at each turn. The
    statistics window is bounded by its size. The loops of the workers do not end; they
    are steps, and what is proved holds in every state they reach.

    ** Not modelled

    System calls and the state of the process: threads and machine contexts, DNS,
    daemonisation, dynamic libraries. Clients of other libraries: MySQL, SQLite,
    Redis, zookeeper, mail; what OpenSSL, jsoncpp, jwt-cpp and zlib compute is a parameter.
    YAML configuration. Generated code: the ragel parser of responses, protobuf classes. The
    vendored roaring bitmaps. Request handlers that answer with constants. Floating point is
    only carried as words, and the fair weight of the balancer is an argument. Within the
    parts above: status strings and dumps, the iterators of the bitmap, the root coroutine
    of a scheduler that uses the caller's thread, wide-character conversions, the sleeps of
    the hooks beside their durations, groups of workers, the accept loop of the TCP server,
    the text that the ORM generator writes, and the files that the containers of include/ds
    write and read with functions that the repository does not have. *)
From Stdlib Require Export Init.Byte Strings.Byte ZArith Lia ZifyBool.
From stdpp Require Export base gmap sets list strings numbers countable.

Declare Scope cim_scope.
Delimit Scope cim_scope with cim.
#[global] Open Scope Z_scope.

(** * Bytes: [uint8_t], and the [char]s of a [std::string] *)

Abbreviation byte := Byte.byte.

#[global] Instance byte_eq_dec : EqDecision byte := Byte.byte_eq_dec.

(** The value of an [unsigned char]. *)
Definition b2z (b : byte) : Z := Z.of_N (Byte.to_N b).

(** The conversion of an integer to [unsigned char]: modulo 256. *)
Definition z2b (z : Z) : byte :=
  match Byte.of_N (Z.to_N (z mod 256)) with Some b => b | None => x00 end.

(** The value of a (signed) [char] on the platforms the code targets. *)
Definition b2s (b : byte) : Z := if b2z b <? 128 then b2z b else b2z b - 256.

Lemma b2z_range b : 0 <= b2z b < 256.
Proof. destruct b; vm_compute; split; congruence. Qed.

Lemma z2b_b2z b : z2b (b2z b) = b.
Proof. destruct b; reflexivity. Qed.

Lemma b2z_z2b z : b2z (z2b z) = z mod 256.
Proof.
  unfold z2b, b2z. pose proof (Z.mod_pos_bound z 256 ltac:(lia)).
  destruct (Byte.of_N (Z.to_N (z mod 256))) as [b|] eqn:E.
  - apply Byte.to_of_N in E. rewrite E. lia.
  - apply Byte.of_N_None_iff in E. lia.
Qed.

Lemma b2z_z2b_small z : 0 <= z < 256 -> b2z (z2b z) = z.
Proof. intros. rewrite b2z_z2b. by apply Z.mod_small. Qed.

Lemma b2z_inj b c : b2z b = b2z c -> b = c.
Proof. intros E. by rewrite <- (z2b_b2z b), E, z2b_b2z. Qed.

#[global] Instance b2z_Inj : Inj (=) (=) b2z := b2z_inj.

#[global] Program Instance byte_countable : Countable byte :=
  inj_countable' b2z z2b z2b_b2z.

(** A property of every byte value, decided by enumeration. *)
Definition all_bytes : list byte := map (fun n => z2b (Z.of_nat n)) (seq 0 256).

Lemma elem_of_all_bytes b : b ∈ all_bytes.
Proof. rewrite <- (z2b_b2z b). pose proof (b2z_range b).
  apply list_elem_of_fmap. exists (Z.to_nat (b2z b)). split; [f_equal; lia|].
  apply elem_of_seq. lia. Qed.

Lemma byte_forall (P : byte -> bool) : forallb P all_bytes = true -> forall b, P b = true.
Proof. intros H b. rewrite List.forallb_forall in H. apply H, list_elem_of_In, elem_of_all_bytes. Qed.

(** A C string literal as the bytes of a [std::string]. *)
Definition bstr (s : string) : list byte := String.list_byte_of_string s.

(** * Machine integers: unsigned and two's-complement wrap-around *)

Definition u8 (z : Z) : Z := z mod 2 ^ 8.
Definition u16 (z : Z) : Z := z mod 2 ^ 16.
Definition u32 (z : Z) : Z := z mod 2 ^ 32.
Definition u64 (z : Z) : Z := z mod 2 ^ 64.

(** Conversion to the [w]-bit signed type. *)
Definition sint (w z : Z) : Z := (z + 2 ^ (w - 1)) mod 2 ^ w - 2 ^ (w - 1).
Definition s32 (z : Z) : Z := sint 32 z.
Definition s64 (z : Z) : Z := sint 64 z.

Lemma u8_range z : 0 <= u8 z < 2 ^ 8. Proof. by apply Z.mod_pos_bound. Qed.
Lemma u16_range z : 0 <= u16 z < 2 ^ 16. Proof. by apply Z.mod_pos_bound. Qed.
Lemma u32_range z : 0 <= u32 z < 2 ^ 32. Proof. by apply Z.mod_pos_bound. Qed.
Lemma u64_range z : 0 <= u64 z < 2 ^ 64. Proof. by apply Z.mod_pos_bound. Qed.
Lemma u8_small z : 0 <= z < 2 ^ 8 -> u8 z = z. Proof. apply Z.mod_small. Qed.
Lemma u16_small z : 0 <= z < 2 ^ 16 -> u16 z = z. Proof. apply Z.mod_small. Qed.
Lemma u32_small z : 0 <= z < 2 ^ 32 -> u32 z = z. Proof. apply Z.mod_small. Qed.
Lemma u64_small z : 0 <= z < 2 ^ 64 -> u64 z = z. Proof. apply Z.mod_small. Qed.

Lemma sint_small w z : 0 < w -> - 2 ^ (w - 1) <= z < 2 ^ (w - 1) -> sint w z = z.
Proof.
  intros Hw Hz. unfold sint. assert (2 ^ w = 2 * 2 ^ (w - 1)) as E.
  { rewrite <- Z.pow_succ_r by lia. f_equal. lia. }
  rewrite Z.mod_small; lia.
Qed.

Lemma s32_small z : - 2 ^ 31 <= z < 2 ^ 31 -> s32 z = z. Proof. apply (sint_small 32). done. Qed.
Lemma s64_small z : - 2 ^ 63 <= z < 2 ^ 63 -> s64 z = z. Proof. apply (sint_small 64). done. Qed.

Lemma sint_mod w z : 0 < w -> sint w (z mod 2 ^ w) = sint w z.
Proof. intros Hw. unfold sint. by rewrite Z.add_mod_idemp_l by (apply Z.pow_nonzero; lia). Qed.

Lemma sint_range w z : 0 < w -> - 2 ^ (w - 1) <= sint w z < 2 ^ (w - 1).
Proof.
  intros Hw. unfold sint. assert (2 ^ w = 2 * 2 ^ (w - 1)) as E.
  { rewrite <- Z.pow_succ_r by lia. f_equal. lia. }
  pose proof (Z.mod_pos_bound (z + 2 ^ (w - 1)) (2 ^ w)). lia.
Qed.

(** ** Bit operations as arithmetic *)

Lemma lor_shiftl_add a b i : 0 <= i -> 0 <= a < 2 ^ i -> Z.lor a (Z.shiftl b i) = a + b * 2 ^ i.
Proof.
  intros Hi Ha. rewrite <- Z.add_nocarry_lor.
  - by rewrite Z.shiftl_mul_pow2.
  - apply Z.bits_inj'. intros n Hn. rewrite Z.land_spec, Z.bits_0.
    destruct (Z.lt_ge_cases n i) as [H|H].
    + by rewrite Z.shiftl_spec_low, andb_false_r.
    + rewrite <- (Z.mod_small a (2 ^ i)) by done. by rewrite Z.mod_pow2_bits_high by lia.
Qed.

Lemma lxor_range n a b : 0 <= n -> 0 <= a < 2 ^ n -> 0 <= b < 2 ^ n -> 0 <= Z.lxor a b < 2 ^ n.
Proof.
  intros Hn Ha Hb. assert (Z.lxor a b = Z.lxor a b mod 2 ^ n) as ->.
  { apply Z.bits_inj'. intros i Hi. destruct (Z.lt_ge_cases i n) as [H|H].
    - by rewrite Z.mod_pow2_bits_low.
    - rewrite Z.mod_pow2_bits_high, Z.lxor_spec by lia.
      rewrite <- (Z.mod_small a (2 ^ n)), <- (Z.mod_small b (2 ^ n)) by done.
      by rewrite !Z.mod_pow2_bits_high by lia. }
  apply Z.mod_pos_bound, Z.pow_pos_nonneg; lia.
Qed.

Lemma shiftr_range n a i : 0 <= i -> 0 <= a < 2 ^ n -> 0 <= Z.shiftr a i < 2 ^ n.
Proof.
  intros Hi Ha. rewrite Z.shiftr_div_pow2 by done. pose proof (Z.pow_pos_nonneg 2 i ltac:(lia) Hi).
  split; [apply Z.div_pos; lia|]. eapply Z.le_lt_trans; [|apply Ha].
  apply Z.div_le_upper_bound; nia.
Qed.

Lemma land_127 a : Z.land a 0x7F = a mod 128.
Proof. apply (Z.land_ones a 7). lia. Qed.

Lemma lor_128 a : 0 <= a < 128 -> Z.lor a 0x80 = a + 128.
Proof. intros Ha. apply (lor_shiftl_add a 1 7); [lia|done]. Qed.

(** * Outcomes: a value, a C++ exception, or the end of the program: undefined
    behaviour, a failed assertion ([CIM_ASSERT] aborts) or a loop without end *)

Inductive exn :=
  | out_of_range
  | logic_error
  | invalid_argument
  | length_error
  | bad_array_new_length.

Inductive ub :=
  | null_deref
  | out_of_bounds
  | division_by_zero
  | signed_overflow
  | assertion_failed
  | bad_shift
  | missing_return
  | data_race
  | bad_free
  | use_after_free
  | nontermination.

Inductive res (A : Type) :=
  | Ok (a : A)
  | Throw (e : exn)
  | Crash (u : ub).
Arguments Ok {A} a.
Arguments Throw {A} e.
Arguments Crash {A} u.

#[global] Instance exn_eq_dec : EqDecision exn.
Proof. solve_decision. Defined.
#[global] Instance ub_eq_dec : EqDecision ub.
Proof. solve_decision. Defined.

Definition rbind {A B} (r : res A) (k : A -> res B) : res B :=
  match r with Ok a => k a | Throw e => Throw e | Crash u => Crash u end.

Notation "'let!' x := r 'in' k" := (rbind r (fun x => k))
  (at level 10, x pattern, r at level 100, k at level 200) : cim_scope.
#[global] Open Scope cim_scope.

(** A dereference of a pointer whose target may be missing. *)
Definition deref {A} (o : option A) : res A :=
  match o with Some a => Ok a | None => Crash null_deref end.

Definition is_ok {A} (r : res A) : bool := match r with Ok _ => true | _ => false end.

Lemma rbind_ok {A B} (r : res A) (k : A -> res B) b :
  rbind r k = Ok b -> exists a, r = Ok a /\ k a = Ok b.
Proof. destruct r; simpl; [eauto | discriminate | discriminate]. Qed.

Lemma rbind_assoc {A B C} (r : res A) (k : A -> res B) (l : B -> res C) :
  rbind (rbind r k) l = rbind r (fun a => rbind (k a) l).
Proof. by destruct r. Qed.

(** * Lists indexed by machine integers *)

Definition len {A} (l : list A) : Z := Z.of_nat (length l).

(** Overwrite [length x] elements of [l] from index [p] ([memcpy] into the middle). *)
Definition splice {A} (p : nat) (x l : list A) : list A :=
  take p l ++ x ++ drop (p + length x) l.

(** The [n] elements from index [p] ([memcpy] out of the middle). *)
Definition slice {A} (p n : nat) (l : list A) : list A := take n (drop p l).

Lemma length_splice {A} p (x l : list A) :
  (p + length x <= length l)%nat -> length (splice p x l) = length l.
Proof. intros. unfold splice. rewrite !length_app, length_take, length_drop. lia. Qed.

Lemma length_slice {A} p n (l : list A) :
  (p + n <= length l)%nat -> length (slice p n l) = n.
Proof. intros. unfold slice. rewrite length_take, length_drop. lia. Qed.

Lemma splice_nil {A} p (l : list A) : splice p [] l = l.
Proof. unfold splice. simpl. rewrite Nat.add_0_r. apply take_drop. Qed.

Lemma splice_0_all {A} (x l : list A) : length x = length l -> splice 0 x l = x.
Proof. intros E. unfold splice. simpl. rewrite drop_ge by lia. apply app_nil_r. Qed.

Lemma splice_splice {A} p (x y l : list A) :
  (p + length x + length y <= length l)%nat ->
  splice (p + length x) y (splice p x l) = splice p (x ++ y) l.
Proof.
  intros H. unfold splice at 1 3. rewrite length_app. unfold splice.
  assert (length (take p l) = p) as Hp by (rewrite length_take; lia).
  rewrite (take_app_ge (take p l)) by lia. rewrite Hp.
  replace (p + length x - p)%nat with (length x) by lia.
  rewrite take_app_length, (drop_app_ge (take p l)) by lia. rewrite Hp.
  replace (p + length x + length y - p)%nat with (length x + length y)%nat by lia.
  rewrite drop_app_ge by lia. rewrite drop_drop.
  rewrite <- !app_assoc. do 4 f_equal. lia.
Qed.

Lemma splice_app_l {A} p (x l k : list A) :
  (p + length x <= length l)%nat -> splice p x (l ++ k) = splice p x l ++ k.
Proof.
  intros. unfold splice. rewrite take_app_le, drop_app_le by lia. by rewrite <- !app_assoc.
Qed.

Lemma splice_app_r {A} p (x l k : list A) :
  splice (length l + p) x (l ++ k) = l ++ splice p x k.
Proof.
  unfold splice. rewrite take_app_add, <- app_assoc. do 3 f_equal.
  rewrite <- Nat.add_assoc. apply drop_app_add.
Qed.

Lemma slice_app_l {A} p n (l k : list A) :
  (p + n <= length l)%nat -> slice p n (l ++ k) = slice p n l.
Proof. intros. unfold slice. rewrite drop_app_le by lia. apply take_app_le. rewrite length_drop. lia. Qed.

Lemma slice_app_r {A} p n (l k : list A) : slice (length l + p) n (l ++ k) = slice p n k.
Proof. unfold slice. by rewrite drop_app_add. Qed.

Lemma slice_slice {A} p n m (l : list A) :
  slice p n l ++ slice (p + n) m l = slice p (n + m) l.
Proof. unfold slice. by rewrite <- drop_drop, take_take_drop. Qed.

Lemma take_slice {A} p n m (l : list A) : (p + n <= m)%nat -> slice p n (take m l) = slice p n l.
Proof.
  intros. unfold slice. rewrite !take_drop_commute, take_take. do 2 f_equal. lia.
Qed.

(** Reading back what a splice wrote. *)
Lemma slice_splice {A} p (x l : list A) :
  (p + length x <= length l)%nat -> slice p (length x) (splice p x l) = x.
Proof.
  intros. unfold slice, splice.
  rewrite drop_app_ge by (rewrite length_take; lia).
  rewrite length_take. replace (p - p `min` length l)%nat with 0%nat by lia.
  simpl. apply take_app_length.
Qed.

(** A splice that may extend the prefix it lands in. *)
Lemma take_splice {A} p d (x l : list A) :
  (p <= d)%nat -> (p + length x <= length l)%nat ->
  take (d `max` (p + length x)) (splice p x l) = splice p x (take d l).
Proof.
  intros Hp Hl. unfold splice. rewrite (take_take l p d).
  replace (p `min` d)%nat with p by lia.
  rewrite take_app_ge by (rewrite length_take; lia). f_equal.
  rewrite length_take. replace (p `min` length l)%nat with p by lia.
  rewrite take_app_ge by lia. f_equal. rewrite skipn_firstn_comm. f_equal. lia.
Qed.

Lemma Forall_elem {A} (P : A -> Prop) l x : Forall P l -> x ∈ l -> P x.
Proof. intros H Hx%list_elem_of_In. rewrite List.Forall_forall in H. auto. Qed.

(** * Automation *)

Create HintDb cim discriminated.
Create Rewrite HintDb cim_len.
#[export] Hint Rewrite @length_app @length_take @length_drop @length_replicate @length_map
  @length_insert : cim_len.
#[export] Hint Resolve b2z_range u8_range u16_range u32_range u64_range : cim.

(** Normalise list lengths and finish by linear arithmetic. *)
Ltac len_lia := unfold len in *; autorewrite with cim_len in *; lia.

(** Remove wrap-arounds whose argument is in range. *)
Ltac unwrap :=
  repeat match goal with
  | |- context [u64 ?e] => rewrite (u64_small e) by lia
  | |- context [u32 ?e] => rewrite (u32_small e) by lia
  | |- context [u16 ?e] => rewrite (u16_small e) by lia
  | |- context [u8 ?e] => rewrite (u8_small e) by lia
  end.

Ltac unwrap_in H :=
  repeat match type of H with
  | context [u64 ?e] => rewrite (u64_small e) in H by lia
  | context [u32 ?e] => rewrite (u32_small e) in H by lia
  end.

(** Take a successful computation in the [res] monad apart. *)
Ltac res_inv :=
  repeat match goal with
  | H : rbind _ _ = Ok _ |- _ =>
      let a := fresh "a" in let E := fresh "E" in
      apply rbind_ok in H as (a & E & H); simpl in H
  | H : Ok _ = Ok _ |- _ => injection H as H
  | H : Throw _ = Ok _ |- _ => discriminate H
  | H : Crash _ = Ok _ |- _ => discriminate H
  end.

(** * Stateful code: a state that survives an exception

    A method that mutates its object and may throw is a function from the
    object to the outcome and the object after the call: what was changed
    before the [throw] stays changed. *)

Definition st (S A : Type) : Type := S -> res A * S.

Definition sret {S A} (a : A) : st S A := fun s => (Ok a, s).
Definition sthrow {S A} (e : exn) : st S A := fun s => (Throw e, s).
Definition scrash {S A} (u : ub) : st S A := fun s => (Crash u, s).

Definition sbind {S A B} (m : st S A) (k : A -> st S B) : st S B :=
  fun s => match m s with
           | (Ok a, s') => k a s'
           | (Throw e, s') => (Throw e, s')
           | (Crash u, s') => (Crash u, s')
           end.

Notation "'let*' x := m 'in' k" := (sbind m (fun x => k))
  (at level 10, x pattern, m at level 100, k at level 200) : cim_scope.

Lemma sbind_ok {S A B} (m : st S A) (k : A -> st S B) s a s' :
  m s = (Ok a, s') -> sbind m k s = k a s'.
Proof. intros E. unfold sbind. by rewrite E. Qed.

Lemma sbind_throw {S A B} (m : st S A) (k : A -> st S B) s e s' :
  m s = (Throw e, s') -> sbind m k s = (Throw e, s').
Proof. intros E. unfold sbind. by rewrite E. Qed.
