(* ===== verification/CppString.v ===== *)
(** The members of [std::string] that the utilities call, on byte lists.

    A position is a [nat], [std::string::npos] is [None]: the sizes stay below
    [max_size], so the code's [pos + 1] and [end - begin + 1] never wrap around.
    [segments] is the reference splitting that the split and replace routines of
    StringUtil and HashUtil are proved against. *)
From S2P Require Import Prelude.

Definition is_empty (s : list byte) : bool := match s with [] => true | _ => false end.

(** ** Searching *)

(** The first position whose byte satisfies [p]. *)
Fixpoint find_if (p : byte -> bool) (s : list byte) : option nat :=
  match s with
  | [] => None
  | c :: t => if p c then Some 0%nat else S <$> find_if p t
  end.

(** The last position whose byte satisfies [p]. *)
Fixpoint find_last_if (p : byte -> bool) (s : list byte) : option nat :=
  match s with
  | [] => None
  | c :: t => match find_last_if p t with
              | Some i => Some (S i)
              | None => if p c then Some 0%nat else None
              end
  end.

Definition has_prefix (sub s : list byte) : bool := bool_decide (take (length sub) s = sub).

(** The first position at which [sub] occurs. *)
Fixpoint find_sub (sub s : list byte) : option nat :=
  if has_prefix sub s then Some 0%nat
  else match s with [] => None | _ :: t => S <$> find_sub sub t end.

(** A search that starts at a position, as [find (.., pos)] does. *)
Definition from (search : list byte -> option nat) (s : list byte) (pos : nat) : option nat :=
  if (pos <=? length s)%nat then (fun i => pos + i)%nat <$> search (drop pos s) else None.

Definition is_char (c : byte) (b : byte) : bool := bool_decide (b = c).
Definition in_set (l : list byte) (b : byte) : bool := bool_decide (b ∈ l).

Definition find_char (c : byte) := find_if (is_char c).
Definition find_first_of (l : list byte) := find_if (in_set l).
Definition find_first_not_of (l : list byte) := find_if (fun b => negb (in_set l b)).
Definition find_last_of (l : list byte) := find_last_if (in_set l).
Definition find_last_not_of (l : list byte) := find_last_if (fun b => negb (in_set l b)).

(** ** Sub-strings and comparison *)

(** The characters up to the first NUL. *)
Fixpoint c_str (s : list byte) : list byte :=
  match s with [] => [] | c :: s => if b2z c =? 0 then [] else c :: c_str s end.

(** [std::string::compare]: as bytes, a prefix first. *)
Fixpoint key_compare (a b : list byte) : comparison :=
  match a, b with
  | [], [] => Eq
  | [], _ => Lt
  | _, [] => Gt
  | x :: a, y :: b => match b2z x ?= b2z y with Eq => key_compare a b | c => c end
  end.

(** [substr(pos, n)]; a position past the end throws. *)
Definition substr (s : list byte) (pos n : nat) : res (list byte) :=
  if (pos <=? length s)%nat then Ok (slice pos n s) else Throw out_of_range.

(** [substr(pos)]. *)
Definition substr_from (s : list byte) (pos : nat) : res (list byte) :=
  if (pos <=? length s)%nat then Ok (drop pos s) else Throw out_of_range.

(** [compare(pos, n, sub) == 0]. *)
Definition compare_eq (s : list byte) (pos n : nat) (sub : list byte) : res bool :=
  let! x := substr s pos n in Ok (bool_decide (x = sub)).

(** ** What the searches find *)

Lemma find_if_some p s i :
  find_if p s = Some i ->
  exists a c b, s = a ++ c :: b /\ length a = i /\ p c = true /\ Forall (fun x => p x = false) a.
Proof.
  revert i. induction s as [|c t IH]; intros i; simpl; [done|].
  destruct (p c) eqn:Ec.
  - intros [= <-]. exists [], c, t. done.
  - intros (j & Ej & ->)%fmap_Some. destruct (IH j Ej) as (a & d & b & -> & <- & Hd & Ha).
    exists (c :: a), d, b. split_and!; [done|done|done|by constructor].
Qed.

Lemma find_if_none p s : find_if p s = None <-> Forall (fun x => p x = false) s.
Proof.
  induction s as [|c t IH]; simpl; [by split; constructor|].
  destruct (p c) eqn:Ec; [split; [done|inversion 1; congruence]|].
  rewrite fmap_None, IH. split; [by constructor|by inversion 1].
Qed.

Lemma find_last_if_none p s : find_last_if p s = None <-> Forall (fun x => p x = false) s.
Proof.
  induction s as [|c t IH]; simpl; [by split; constructor|].
  destruct (find_last_if p t) eqn:E.
  - split; [done|]. intros H. inversion H; subst. by apply IH in H3.
  - destruct (p c) eqn:Ec; [split; [done|inversion 1; congruence]|].
    split; [constructor; [done|by apply IH]|done].
Qed.

Lemma find_last_if_some p s i :
  find_last_if p s = Some i ->
  exists a c b, s = a ++ c :: b /\ length a = i /\ p c = true /\ Forall (fun x => p x = false) b.
Proof.
  revert i. induction s as [|c t IH]; intros i; simpl; [done|].
  destruct (find_last_if p t) as [j|] eqn:E.
  - intros [= <-]. destruct (IH j eq_refl) as (a & d & b & -> & <- & Hd & Hb).
    exists (c :: a), d, b. done.
  - destruct (p c) eqn:Ec; [|done]. intros [= <-]. exists [], c, t.
    split_and!; [done|done|done|by apply find_last_if_none].
Qed.

Lemma find_last_if_lt p s i : find_last_if p s = Some i -> (i < length s)%nat.
Proof. intros (a & c & b & -> & <- & _)%find_last_if_some. rewrite length_app. simpl. lia. Qed.

Lemma has_prefix_app sub s : has_prefix sub (sub ++ s) = true.
Proof. unfold has_prefix. rewrite take_app_length. by apply bool_decide_eq_true. Qed.

Lemma has_prefix_true sub s : has_prefix sub s = true -> s = sub ++ drop (length sub) s.
Proof. intros E%bool_decide_eq_true. rewrite <- (take_drop (length sub) s) at 1. by rewrite E. Qed.

Lemma find_sub_some sub s i :
  find_sub sub s = Some i -> s = take i s ++ sub ++ drop (i + length sub) s /\ (i <= length s)%nat.
Proof.
  revert i. induction s as [|c t IH]; intros i; cbn [find_sub].
  - destruct (has_prefix sub []) eqn:E; [|done]. intros [= <-]. by apply has_prefix_true in E.
  - destruct (has_prefix sub (c :: t)) eqn:E.
    + intros [= <-]. apply has_prefix_true in E. simpl. split; [done|lia].
    + intros (j & Ej & ->)%fmap_Some. destruct (IH j Ej) as [H1 H2].
      simpl. split; [by f_equal|lia].
Qed.

(** No occurrence: no way to write the string around [sub]. *)
Lemma find_sub_none sub s : find_sub sub s = None -> forall a b, s <> a ++ sub ++ b.
Proof.
  induction s as [|c t IH]; cbn [find_sub]; intros H a b E.
  - destruct a, sub; try discriminate E. done.
  - destruct (has_prefix sub (c :: t)) eqn:P; [done|]. apply fmap_None in H.
    destruct a as [|x a].
    + rewrite E in P. simpl in P. by rewrite has_prefix_app in P.
    + injection E as -> E. by apply (IH H a b).
Qed.

Lemma find_sub_nil s : find_sub [] s = Some 0%nat.
Proof. by destruct s. Qed.

Lemma substr_ok s pos n : (pos <= length s)%nat -> substr s pos n = Ok (slice pos n s).
Proof. intros H%Nat.leb_le. unfold substr. by rewrite H. Qed.

Lemma substr_from_ok s pos : (pos <= length s)%nat -> substr_from s pos = Ok (drop pos s).
Proof. intros H%Nat.leb_le. unfold substr_from. by rewrite H. Qed.

Lemma compare_eq_ok s pos n sub :
  (pos <= length s)%nat -> compare_eq s pos n sub = Ok (bool_decide (slice pos n s = sub)).
Proof. intros H. unfold compare_eq. by rewrite substr_ok. Qed.

Lemma from_ok f s pos : (pos <= length s)%nat ->
  from f s pos = (fun i => pos + i)%nat <$> f (drop pos s).
Proof. intros H%Nat.leb_le. unfold from. by rewrite H. Qed.

Lemma from_0 f s : from f s 0 = f s.
Proof. rewrite from_ok by lia. simpl. rewrite drop_0. by destruct (f s). Qed.

(** ** Reference splitting *)

(** A separator: a search that finds it, and the width of what it finds. *)
Record sep := mkSep {
  sep_search : list byte -> option nat;
  sep_width : nat;
  sep_fits : forall s i, sep_search s = Some i -> (i + sep_width <= length s)%nat;
  sep_pos : (0 < sep_width)%nat;
}.

Inductive segments (d : sep) : list byte -> list (list byte) -> Prop :=
  | seg_last s : sep_search d s = None -> segments d s [s]
  | seg_next s i l :
      sep_search d s = Some i -> segments d (drop (i + sep_width d) s) l ->
      segments d s (take i s :: l).

Lemma segments_total d s : exists l, segments d s l.
Proof.
  remember (length s) as n eqn:E. revert s E.
  induction n as [n IH] using lt_wf_ind. intros s ->.
  destruct (sep_search d s) as [i|] eqn:F; [|eexists; by constructor].
  pose proof (sep_fits d s i F). pose proof (sep_pos d).
  destruct (IH (length (drop (i + sep_width d) s))) with (s := drop (i + sep_width d) s) as [l Hl].
  - rewrite length_drop. lia.
  - done.
  - eexists. by eapply seg_next.
Qed.

Lemma segments_det d s l1 l2 : segments d s l1 -> segments d s l2 -> l1 = l2.
Proof.
  intros H. revert l2. induction H as [s F|s i l F _ IH]; intros l2 G; inversion G; subst; try congruence.
  rewrite F in *. simplify_eq. f_equal. by apply IH.
Qed.

Lemma segments_nonempty d s l : segments d s l -> l <> [].
Proof. by inversion 1. Qed.

Program Definition char_sep (p : byte -> bool) : sep := mkSep (find_if p) 1 _ _.
Next Obligation.
  intros p s i (a & c & b & -> & <- & _)%find_if_some. rewrite length_app. simpl. lia.
Qed.
Next Obligation. intros. lia. Qed.

Program Definition string_sep (d : list byte) (H : d <> []) : sep := mkSep (find_sub d) (length d) _ _.
Next Obligation.
  intros d H s i [E L]%find_sub_some. apply (f_equal length) in E.
  rewrite !length_app, length_take, length_drop in E. lia.
Qed.
Next Obligation. intros d H. destruct d; [done|]. simpl. lia. Qed.

(** [l] joined by [d]. *)
Fixpoint join (d : list byte) (l : list (list byte)) : list byte :=
  match l with
  | [] => []
  | [x] => x
  | x :: t => x ++ d ++ join d t
  end.

Lemma join_cons d x l : l <> [] -> join d (x :: l) = x ++ d ++ join d l.
Proof. by destruct l. Qed.

(** The segments joined by the separator are the string again. *)
Lemma join_string_segments d H s l : segments (string_sep d H) s l -> join d l = s.
Proof.
  induction 1 as [s|s i l F G IH]; [done|].
  rewrite join_cons by (by eapply segments_nonempty). rewrite IH.
  symmetry. by apply find_sub_some in F as [F _].
Qed.

Lemma join_char_segments c s l : segments (char_sep (is_char c)) s l -> join [c] l = s.
Proof.
  induction 1 as [s|s i l F G IH]; [done|].
  rewrite join_cons by (by eapply segments_nonempty). rewrite IH.
  apply find_if_some in F as (a & b & t & -> & <- & Hc & _).
  apply bool_decide_eq_true in Hc as ->. simpl.
  rewrite take_app_length, Nat.add_comm. simpl. f_equal. f_equal.
  rewrite (drop_app_ge a) by lia. by replace (S (length a) - length a)%nat with 1%nat by lia.
Qed.

(** No segment holds the separator. *)
Lemma segments_free_char p s l :
  segments (char_sep p) s l -> Forall (Forall (fun x => p x = false)) l.
Proof.
  induction 1 as [s F|s i l F G IH]; constructor; try done.
  - by apply find_if_none.
  - apply find_if_some in F as (a & c & b & -> & <- & _ & Ha). by rewrite take_app_length.
Qed.

(** ** C strings and the order of strings *)

(** A text without a NUL. *)
Definition no_nul (s : list byte) : Prop := Forall (fun c => 0 < b2z c) s.

Lemma c_str_no_nul s : no_nul (c_str s).
Proof.
  induction s as [|c s IH]; cbn; [constructor|]. destruct (Z.eqb_spec (b2z c) 0); [constructor|]. constructor; [|done].
  pose proof (b2z_range c). lia.
Qed.

Lemma c_str_app s t : no_nul s -> c_str (s ++ x00 :: t) = s.
Proof. induction 1 as [|c s Hc _ IH]; cbn; [done|]. rewrite (proj2 (Z.eqb_neq _ 0)) by lia. by rewrite IH. Qed.

Lemma c_str_id s : no_nul s -> c_str s = s.
Proof. induction 1 as [|c s Hc _ IH]; cbn; [done|]. rewrite (proj2 (Z.eqb_neq _ 0)) by lia. by rewrite IH. Qed.

Lemma key_compare_refl a : key_compare a a = Eq.
Proof. induction a as [|x a IH]; [done|]. cbn. by rewrite Z.compare_refl. Qed.

Lemma key_compare_eq a b : key_compare a b = Eq -> a = b.
Proof.
  revert b. induction a as [|x a IH]; intros [|y b]; cbn; try done. destruct (Z.compare_spec (b2z x) (b2z y)) as [E| |]; try done.
  intros H%IH. by rewrite (b2z_inj _ _ E), H.
Qed.

Lemma key_compare_antisym a b : key_compare b a = CompOpp (key_compare a b).
Proof.
  revert b. induction a as [|x a IH]; intros [|y b]; cbn; try done. rewrite (Z.compare_antisym (b2z x)).
  destruct (b2z x ?= b2z y); cbn; [apply IH|done|done].
Qed.

Lemma key_compare_trans a b c : key_compare a b = Lt -> key_compare b c = Lt -> key_compare a c = Lt.
Proof.
  revert b c. induction a as [|x a IH]; intros [|y b] [|z c]; cbn; try done.
  destruct (Z.compare_spec (b2z x) (b2z y)), (Z.compare_spec (b2z y) (b2z z)), (Z.compare_spec (b2z x) (b2z z)); try done; try lia. apply IH.
Qed.
