(* ===== verification/Number.v ===== *)
(** Numbers as text: what the C and C++ libraries print and scan, in decimal and, for two
    characters, in hexadecimal. *)
From S2P Require Import Prelude CppString.

(** ** Printing *)

(** The decimal digits of a number, the last first, in at most [fuel] digits. *)
Fixpoint dec_digits (fuel : nat) (n : Z) : list byte :=
  match fuel with
  | O => []
  | S fuel => z2b (48 + n mod 10) :: (if n / 10 =? 0 then [] else dec_digits fuel (n / 10))
  end.

(** [os << n] of an unsigned number of at most 64 bits: twenty digits are enough. *)
Definition dec (n : Z) : list byte := rev (dec_digits 20 n).

(** The hexadecimal digits of a number, the last first, in at most [fuel] digits. *)
Fixpoint hex_digits (fuel : nat) (n : Z) : list byte :=
  match fuel with
  | O => []
  | S fuel => z2b ((if n mod 16 <? 10 then 48 else 87) + n mod 16) :: (if n / 16 =? 0 then [] else hex_digits fuel (n / 16))
  end.

(** [os << std::hex << n] of a number of at most 64 bits that is not negative. *)
Definition hex (n : Z) : list byte := rev (hex_digits 16 n).

(** ** Scanning *)

Definition is_space (c : byte) : bool := (b2z c =? 32) || ((9 <=? b2z c) && (b2z c <=? 13)).
Definition is_digit (c : byte) : bool := (48 <=? b2z c) && (b2z c <=? 57).

Fixpoint leading_digits (n : Z) (s : list byte) : Z :=
  match s with c :: s => if is_digit c then leading_digits (10 * n + (b2z c - 48)) s else n | [] => n end.

Fixpoint skip_space (s : list byte) : list byte := match s with c :: s' => if is_space c then skip_space s' else s | [] => [] end.

(** The sign in front of a number: whether it is a minus, and what follows. *)
Definition take_sign (s : list byte) : bool * list byte :=
  match s with c :: s' => if b2z c =? 45 then (true, s') else if b2z c =? 43 then (false, s') else (false, s) | [] => (false, []) end.

(** [atoi]: white space, a sign and digits, the conversion of a [long] that stays at its
    bounds. *)
Definition atoi (s : list byte) : Z :=
  let (neg, s) := take_sign (skip_space s) in
  s32 (if neg then Z.max (- 2 ^ 63) (- leading_digits 0 s) else Z.min (2 ^ 63 - 1) (leading_digits 0 s)).

(** [std::stoul] and [std::stoull], where [unsigned long] has 64 bits: what follows the
    digits is left alone, and a minus negates modulo 2^64. *)
Definition stoul (s : list byte) : res Z :=
  let (neg, s) := take_sign (skip_space s) in
  match s with
  | c :: _ =>
      if is_digit c then
        let n := leading_digits 0 s in
        if n <? 2 ^ 64 then Ok (if neg then u64 (- n) else n) else Throw out_of_range
      else Throw invalid_argument
  | [] => Throw invalid_argument
  end.

(** [strtoull] with base ten: nothing to scan is 0, too much is the greatest. *)
Definition strtoull (s : list byte) : Z := match stoul s with Ok n => n | Throw out_of_range => 2 ^ 64 - 1 | _ => 0 end.

Definition hex_digit (c : byte) : option Z :=
  let z := b2z c in
  if (48 <=? z) && (z <=? 57) then Some (z - 48)
  else if (97 <=? z) && (z <=? 102) then Some (z - 87)
  else if (65 <=? z) && (z <=? 70) then Some (z - 55)
  else None.

(** The hexadecimal digits at the beginning of at most [n] characters. *)
Fixpoint leading_hex (n : nat) (acc : option Z) (s : list byte) : option Z :=
  match n, s with
  | S n, c :: s => match hex_digit c with Some v => leading_hex n (Some (16 * default 0 acc + v)) s | None => acc end
  | _, _ => acc
  end.

(** [sscanf(s, "%02x", &v)], when it returns 1: white space, then at most two characters of
    a sign, [0x] and digits. Two characters do not hold a prefix and a digit. *)
Definition scan_02x (s : list byte) : option Z :=
  match skip_space s with
  | c :: d :: s' =>
      if (b2z c =? 45) || (b2z c =? 43) then
        match hex_digit d with Some v => Some (if b2z c =? 45 then u32 (- v) else v) | None => None end
      else if (b2z c =? 48) && ((b2z d =? 120) || (b2z d =? 88)) then None
      else leading_hex 2 None (c :: d :: s')
  | s => leading_hex 2 None s
  end.

(** ** What is printed is scanned *)

Lemma digit_z2b n : 0 <= n < 10 -> is_digit (z2b (48 + n)) = true /\ b2z (z2b (48 + n)) - 48 = n.
Proof. intros H. unfold is_digit. rewrite b2z_z2b_small by lia. lia. Qed.

Lemma dec_digits_value fuel n : 0 <= n < 10 ^ Z.of_nat fuel ->
  forallb is_digit (dec_digits fuel n) = true /\ fold_right (fun c n => 10 * n + (b2z c - 48)) 0 (dec_digits fuel n) = n.
Proof.
  revert n. induction fuel as [|fuel IH]; intros n H; [cbn in *; lia|]. cbn [dec_digits forallb fold_right].
  pose proof (Z.mod_pos_bound n 10 ltac:(lia)) as M. destruct (digit_z2b (n mod 10) M) as [-> ->]. pose proof (Z.div_mod n 10 ltac:(lia)).
  destruct (Z.eqb_spec (n / 10) 0) as [E|N]; cbn [andb forallb fold_right]; [split; [done|lia]|].
  destruct (IH (n / 10)) as [F V]; [|split; [done|rewrite V; lia]]. split; [apply Z.div_pos; lia|].
  apply Z.div_lt_upper_bound; [lia|]. rewrite Nat2Z.inj_succ, Z.pow_succ_r in H by lia. lia.
Qed.

Lemma dec_nonempty n : is_empty (dec n) = false.
Proof. unfold dec. cbn [dec_digits rev]. destruct (rev _); done. Qed.

Lemma dec_is_digits n : 0 <= n < 2 ^ 64 -> forallb is_digit (dec n) = true.
Proof.
  intros H. destruct (dec_digits_value 20 n) as [F _]; [lia|]. apply forallb_forall. intros c Hc%in_rev.
  rewrite forallb_forall in F. by apply F.
Qed.

Lemma dec_value n : 0 <= n < 2 ^ 64 -> fold_left (fun n c => 10 * n + (b2z c - 48)) (dec n) 0 = n.
Proof. intros H. destruct (dec_digits_value 20 n) as [_ V]; [lia|]. unfold dec. by rewrite <- fold_left_rev_right, rev_involutive. Qed.

Lemma length_dec_digits fuel : forall n k, 0 <= n < 10 ^ Z.of_nat k -> (1 <= k)%nat -> (length (dec_digits fuel n) <= k)%nat.
Proof.
  induction fuel as [|fuel IH]; intros n k H K; cbn [dec_digits length]; [lia|]. destruct (Z.eqb_spec (n / 10) 0) as [|N]; [cbn; lia|].
  destruct k as [|[|k]]; [lia| |].
  - exfalso. apply N. apply Z.div_small. cbn in H. lia.
  - apply le_n_S, IH; [|lia]. split; [apply Z.div_pos; lia|]. apply Z.div_lt_upper_bound; [lia|]. rewrite Nat2Z.inj_succ, Z.pow_succ_r in H by lia. lia.
Qed.

Lemma length_dec n k : 0 <= n < 10 ^ Z.of_nat k -> (1 <= k)%nat -> (length (dec n) <= k)%nat.
Proof. intros H K. unfold dec. rewrite length_rev. by apply length_dec_digits. Qed.

Lemma leading_digits_all s r n : forallb is_digit s = true -> (forall c r', r = c :: r' -> is_digit c = false) ->
  leading_digits n (s ++ r) = fold_left (fun n c => 10 * n + (b2z c - 48)) s n.
Proof.
  revert n. induction s as [|c s IH]; intros n F R; cbn [app].
  - destruct r as [|c r]; [done|]. cbn. by rewrite (R c r).
  - cbn in F. apply andb_prop in F as [Fc F]. cbn [leading_digits fold_left]. rewrite Fc. by apply IH.
Qed.

Lemma digit_not_space c : is_digit c = true -> is_space c = false /\ (b2z c =? 45) = false /\ (b2z c =? 43) = false.
Proof. unfold is_digit, is_space. intros H. lia. Qed.

Lemma digits_scanned s : forallb is_digit s = true -> s <> [] -> take_sign (skip_space s) = (false, s).
Proof.
  destruct s as [|c s]; [done|]. cbn. intros [D _]%andb_prop _. destruct (digit_not_space c D) as (-> & N1 & N2). cbn. by rewrite N1, N2.
Qed.

Lemma stoul_dec n : 0 <= n < 2 ^ 64 -> stoul (dec n) = Ok n.
Proof.
  intros H. pose proof (dec_is_digits n H) as F. pose proof (dec_value n H) as V. pose proof (dec_nonempty n) as E. unfold stoul.
  rewrite digits_scanned by (try done; by destruct (dec n)). pose proof (leading_digits_all (dec n) [] 0 F) as L. rewrite app_nil_r in L.
  destruct (dec n) as [|c s]; [done|]. cbn in F. apply andb_prop in F as [Fc _]. rewrite Fc, L, V by done. by rewrite (proj2 (Z.ltb_lt n (2 ^ 64))) by lia.
Qed.

(** Two digits are scanned as they are. *)
Lemma scan_02x_digits c d hi lo s : hex_digit c = Some hi -> hex_digit d = Some lo -> scan_02x (c :: d :: s) = Some (16 * hi + lo).
Proof.
  intros Hc Hd. unfold scan_02x.
  assert (S : is_space c = false) by (revert Hc; unfold hex_digit, is_space; repeat case_match; intros; try done; lia).
  assert (N : (b2z c =? 45) || (b2z c =? 43) = false) by (revert Hc; unfold hex_digit; repeat case_match; intros; try done; lia).
  assert (X : (b2z d =? 120) || (b2z d =? 88) = false) by (revert Hd; unfold hex_digit; repeat case_match; intros; try done; lia).
  cbn [skip_space]. rewrite S, N, X, andb_false_r. cbn [leading_hex]. rewrite Hc, Hd. by cbn.
Qed.

Lemma scan_02x_range s v : scan_02x s = Some v -> 0 <= v < 2 ^ 32.
Proof.
  assert (D : forall c h, hex_digit c = Some h -> 0 <= h < 16) by (intros c h; unfold hex_digit; repeat case_match; intros [= <-] || intros; try done; lia).
  assert (L : forall s w, leading_hex 2 None s = Some w -> 0 <= w < 256).
  { intros [|c [|d t]] w; cbn; [done| |]; destruct (hex_digit c) eqn:Ec; try done; [intros [= <-]; apply D in Ec; lia|].
    apply D in Ec. destruct (hex_digit d) eqn:Ed; intros [= <-]; [apply D in Ed|]; cbn; lia. }
  unfold scan_02x. destruct (skip_space s) as [|c [|d t]]; [intros H%L; lia|intros H%L; lia|].
  destruct (_ || _); [destruct (hex_digit d) eqn:Ed; [|done]; apply D in Ed|destruct (_ && _); [done|intros H%L; lia]].
  destruct (b2z c =? 45); intros [= <-]; [apply u32_range|lia].
Qed.

(** Hexadecimal digits hold the number. *)
Lemma hex_digit_value v : 0 <= v < 16 -> hex_digit (z2b ((if v <? 10 then 48 else 87) + v)) = Some v.
Proof.
  intros H. unfold hex_digit. destruct (Z.ltb_spec v 10); rewrite b2z_z2b_small by lia; repeat case_match; try lia; f_equal; lia.
Qed.

Lemma hex_digits_value fuel n : 0 <= n < 16 ^ Z.of_nat fuel ->
  Forall (fun c => is_Some (hex_digit c)) (hex_digits fuel n)
  /\ fold_right (fun c n => 16 * n + default 0 (hex_digit c)) 0 (hex_digits fuel n) = n.
Proof.
  revert n. induction fuel as [|fuel IH]; intros n H; [cbn in *; split; [constructor|lia]|]. cbn [hex_digits fold_right].
  pose proof (Z.mod_pos_bound n 16 ltac:(lia)) as M. pose proof (Z.div_mod n 16 ltac:(lia)). pose proof (hex_digit_value _ M) as V.
  destruct (Z.eqb_spec (n / 16) 0) as [E|N]; cbn [fold_right]; [split; [repeat constructor; by rewrite V|rewrite V; cbn; lia]|].
  destruct (IH (n / 16)) as [F W]; [|split; [constructor; [by rewrite V|done]|rewrite W, V; cbn; lia]]. split; [apply Z.div_pos; lia|].
  apply Z.div_lt_upper_bound; [lia|]. rewrite Nat2Z.inj_succ, Z.pow_succ_r in H by lia. lia.
Qed.

Lemma hex_nonempty n : hex n <> [].
Proof. unfold hex. cbn [hex_digits rev]. by destruct (rev _). Qed.

Lemma hex_is_digits n : 0 <= n < 2 ^ 64 -> Forall (fun c => is_Some (hex_digit c)) (hex n).
Proof. intros H. destruct (hex_digits_value 16 n) as [F _]; [lia|]. unfold hex. by apply List.Forall_rev. Qed.

Lemma hex_value n : 0 <= n < 2 ^ 64 -> fold_left (fun n c => 16 * n + default 0 (hex_digit c)) (hex n) 0 = n.
Proof. intros H. destruct (hex_digits_value 16 n) as [_ V]; [lia|]. unfold hex. by rewrite <- fold_left_rev_right, rev_involutive. Qed.
