(* ===== verification/Endian.v ===== *)
(** Byte order (include/base/endian.hpp): the memory representation of an
    integer on the host, [byteswap], [ntoh]/[hton], and the fact that a value
    swapped when host and wire disagree has a host-independent wire form. *)
From S2P Require Import Prelude.

(** [CIM_LITTLE_ENDIAN] and [CIM_BIG_ENDIAN]. *)
Inductive endian := CIM_LITTLE_ENDIAN | CIM_BIG_ENDIAN.

#[global] Instance endian_eq_dec : EqDecision endian.
Proof. solve_decision. Defined.

(** The host's byte order, fixed by the preprocessor. *)
Class Host := CIM_BYTE_ORDER : endian.

(** The order of the hosts the code is built for. *)
Definition x86_host : Host := CIM_LITTLE_ENDIAN.

(** Little-endian bytes of an [n]-byte integer, and back. *)
Fixpoint le_bytes (n : nat) (v : Z) : list byte :=
  match n with
  | O => []
  | S n' => z2b v :: le_bytes n' (v / 256)
  end.

Fixpoint of_le (l : list byte) : Z :=
  match l with
  | [] => 0
  | b :: l' => b2z b + 256 * of_le l'
  end.

Definition wire_bytes (e : endian) (n : nat) (v : Z) : list byte :=
  match e with CIM_LITTLE_ENDIAN => le_bytes n v | CIM_BIG_ENDIAN => rev (le_bytes n v) end.

Definition of_wire (e : endian) (l : list byte) : Z :=
  match e with CIM_LITTLE_ENDIAN => of_le l | CIM_BIG_ENDIAN => of_le (rev l) end.

Section endian.
Context `{Host}.

(** The object representation of an [n]-byte integer on this host. *)
Definition to_mem (n : nat) (v : Z) : list byte := wire_bytes CIM_BYTE_ORDER n v.
Definition of_mem (l : list byte) : Z := of_wire CIM_BYTE_ORDER l.

(** [byteswap] at [n] bytes: [bswap_16], [bswap_32], [bswap_64] on the value
    converted to the unsigned type. *)
Definition byteswap (n : nat) (value : Z) : Z := of_le (rev (le_bytes n value)).

Definition ntoh (n : nat) (v : Z) : Z :=
  match CIM_BYTE_ORDER with
  | CIM_BIG_ENDIAN => v
  | CIM_LITTLE_ENDIAN => byteswap n v
  end.

Definition hton (n : nat) (v : Z) : Z :=
  match CIM_BYTE_ORDER with
  | CIM_BIG_ENDIAN => v
  | CIM_LITTLE_ENDIAN => byteswap n v
  end.
End endian.

Lemma length_le_bytes n v : length (le_bytes n v) = n.
Proof. revert v. induction n; intros; simpl; auto. Qed.

Lemma length_wire_bytes e n v : length (wire_bytes e n v) = n.
Proof. destruct e; simpl; rewrite ?length_rev; apply length_le_bytes. Qed.

Lemma le_bytes_mod n v : le_bytes n (v mod 2 ^ (8 * Z.of_nat n)) = le_bytes n v.
Proof.
  revert v. induction n as [|n IH]; intros v; [done|]. cbn [le_bytes].
  replace (2 ^ (8 * Z.of_nat (S n))) with (256 * 2 ^ (8 * Z.of_nat n))
    by (rewrite Nat2Z.inj_succ; replace (8 * Z.succ (Z.of_nat n)) with (8 + 8 * Z.of_nat n) by lia;
        by rewrite Z.pow_add_r by lia).
  pose proof (Z.pow_pos_nonneg 2 (8 * Z.of_nat n) ltac:(lia) ltac:(lia)).
  f_equal.
  - apply b2z_inj. rewrite !b2z_z2b. rewrite Z.rem_mul_r by lia.
    rewrite Z.mul_comm, Z.mod_add by lia. by rewrite Z.mod_mod by lia.
  - rewrite <- (IH (v / 256)). f_equal. rewrite Z.rem_mul_r by lia.
    rewrite Z.mul_comm, Z.div_add by lia. rewrite Z.div_small; [lia|].
    apply Z.mod_pos_bound. lia.
Qed.

Lemma of_le_le_bytes n v : of_le (le_bytes n v) = v mod 2 ^ (8 * Z.of_nat n).
Proof.
  revert v. induction n as [|n IH]; intros v; cbn [le_bytes of_le]; [by rewrite Z.mod_1_r|].
  rewrite IH, b2z_z2b.
  replace (2 ^ (8 * Z.of_nat (S n))) with (256 * 2 ^ (8 * Z.of_nat n))
    by (rewrite Nat2Z.inj_succ; replace (8 * Z.succ (Z.of_nat n)) with (8 + 8 * Z.of_nat n) by lia;
        by rewrite Z.pow_add_r by lia).
  pose proof (Z.pow_pos_nonneg 2 (8 * Z.of_nat n) ltac:(lia) ltac:(lia)).
  rewrite Z.rem_mul_r by lia. lia.
Qed.

Lemma of_le_range l : 0 <= of_le l < 2 ^ (8 * len l).
Proof.
  induction l as [|b l IH]; cbn [of_le]; [done|]. unfold len in *. cbn [length].
  rewrite Nat2Z.inj_succ. replace (8 * Z.succ (Z.of_nat (length l))) with (8 + 8 * Z.of_nat (length l)) by lia.
  rewrite Z.pow_add_r by lia. pose proof (b2z_range b). lia.
Qed.

Lemma le_bytes_of_le l : le_bytes (length l) (of_le l) = l.
Proof.
  induction l as [|b l IH]; cbn [length of_le le_bytes]; [done|].
  pose proof (b2z_range b). f_equal.
  - apply b2z_inj. rewrite b2z_z2b, Z.mul_comm, Z.mod_add by lia. by apply Z.mod_small.
  - rewrite Z.mul_comm, Z.div_add by lia. rewrite Z.div_small by done. by rewrite Z.add_0_l.
Qed.

Lemma of_wire_wire_bytes e n v : of_wire e (wire_bytes e n v) = v mod 2 ^ (8 * Z.of_nat n).
Proof. destruct e; simpl; rewrite ?rev_involutive; apply of_le_le_bytes. Qed.

Lemma wire_bytes_of_wire e l : wire_bytes e (length l) (of_wire e l) = l.
Proof.
  destruct e; simpl; [apply le_bytes_of_le|].
  rewrite <- (length_rev l), le_bytes_of_le. apply rev_involutive.
Qed.

Lemma of_wire_range e l : 0 <= of_wire e l < 2 ^ (8 * len l).
Proof.
  destruct e; simpl; [apply of_le_range|]. pose proof (of_le_range (rev l)) as R.
  unfold len in *. by rewrite length_rev in R.
Qed.

Section facts.
Context `{Host}.

Lemma byteswap_range n v : 0 <= byteswap n v < 2 ^ (8 * Z.of_nat n).
Proof.
  unfold byteswap. pose proof (of_le_range (rev (le_bytes n v))) as R.
  unfold len in R. by rewrite length_rev, length_le_bytes in R.
Qed.

Lemma le_bytes_byteswap n v : le_bytes n (byteswap n v) = rev (le_bytes n v).
Proof.
  unfold byteswap. pose proof (le_bytes_of_le (rev (le_bytes n v))) as E.
  by rewrite length_rev, length_le_bytes in E.
Qed.

Lemma byteswap_involutive n v : byteswap n (byteswap n v) = v mod 2 ^ (8 * Z.of_nat n).
Proof.
  unfold byteswap at 1. rewrite le_bytes_byteswap, rev_involutive. apply of_le_le_bytes.
Qed.

(** Swapping when the orders disagree yields the wire order. *)
Lemma to_mem_swapped e n v :
  to_mem n (if decide (CIM_BYTE_ORDER = e) then v else byteswap n v) = wire_bytes e n v.
Proof.
  unfold to_mem. destruct CIM_BYTE_ORDER, e; case_decide; try done; simpl;
    rewrite le_bytes_byteswap; [done | apply rev_involutive].
Qed.

Lemma of_mem_swapped e l :
  (if decide (CIM_BYTE_ORDER = e) then of_mem l else byteswap (length l) (of_mem l)) = of_wire e l.
Proof.
  unfold of_mem, byteswap. destruct CIM_BYTE_ORDER, e; case_decide; try done; simpl.
  - by rewrite le_bytes_of_le.
  - rewrite <- (length_rev l), le_bytes_of_le. by rewrite rev_involutive.
Qed.

Lemma to_mem_hton n v : to_mem n (hton n v) = wire_bytes CIM_BIG_ENDIAN n v.
Proof.
  unfold to_mem, hton. destruct CIM_BYTE_ORDER; [|done]. simpl. apply le_bytes_byteswap.
Qed.

Lemma ntoh_of_mem l : ntoh (length l) (of_mem l) = of_wire CIM_BIG_ENDIAN l.
Proof.
  unfold of_mem, ntoh. destruct CIM_BYTE_ORDER; [|done]. simpl. unfold byteswap.
  by rewrite le_bytes_of_le.
Qed.
End facts.
