(* ===== verification/ByteArray.v ===== *)
(** [CIM::ByteArray] (include/net/byte_array.hpp, src/net/byte_array.cpp): the
    chain of equally sized memory blocks, its cursor, and the operations that
    move raw bytes, positions and [iovec] lists.  The typed readers and
    writers built on [read] and [write] are in [Codec]. *)
From S2P Require Import Prelude Endian.

(** What [operator new char[]] leaves in a fresh block: byte [o] of the [i]-th
    block of a chain.  Fresh memory is indeterminate, so nothing is assumed. *)
Class Heap := fresh : nat -> nat -> byte.

(** A heap whose fresh memory happens to be zero. *)
Definition zero_heap : Heap := fun _ _ => x00.

(** ** Data *)

Record Node := mkNode { ptr : list byte; size : Z }.

(** The chain is the list [m_nodes] (the root first, [next] is the successor in
    the list); a [Node *] is [Some i] for the [i]-th block and [None] for
    [nullptr]. *)
Record ByteArray := mkByteArray {
  m_base_size : Z;
  m_position : Z;
  m_capacity : Z;
  m_data_size : Z;
  m_endian : endian;
  m_nodes : list Node;
  m_cur_node : option nat;
}.

Record iovec := mkIovec { iov_node : nat; iov_off : Z; iov_len : Z }.

Definition set_position (v : Z) (b : ByteArray) : ByteArray :=
  mkByteArray (m_base_size b) v (m_capacity b) (m_data_size b) (m_endian b) (m_nodes b) (m_cur_node b).
Definition set_capacity (v : Z) (b : ByteArray) : ByteArray :=
  mkByteArray (m_base_size b) (m_position b) v (m_data_size b) (m_endian b) (m_nodes b) (m_cur_node b).
Definition set_data_size (v : Z) (b : ByteArray) : ByteArray :=
  mkByteArray (m_base_size b) (m_position b) (m_capacity b) v (m_endian b) (m_nodes b) (m_cur_node b).
Definition set_endian (v : endian) (b : ByteArray) : ByteArray :=
  mkByteArray (m_base_size b) (m_position b) (m_capacity b) (m_data_size b) v (m_nodes b) (m_cur_node b).
Definition set_nodes (v : list Node) (b : ByteArray) : ByteArray :=
  mkByteArray (m_base_size b) (m_position b) (m_capacity b) (m_data_size b) (m_endian b) v (m_cur_node b).
Definition set_cur_node (v : option nat) (b : ByteArray) : ByteArray :=
  mkByteArray (m_base_size b) (m_position b) (m_capacity b) (m_data_size b) (m_endian b) (m_nodes b) v.

(** [node->next] of the [i]-th block of [ns]. *)
Definition next (ns : list Node) (i : nat) : option nat :=
  if (S i <? length ns)%nat then Some (S i) else None.

(** The block a pointer designates; dereferencing [nullptr] is undefined. *)
Definition node_at (ns : list Node) (p : option nat) : res (nat * Node) :=
  let! i := deref p in let! n := deref (ns !! i) in Ok (i, n).

(** [memcpy] of [x] to [node->ptr + o]. *)
Definition copy_in (ns : list Node) (i : nat) (o : Z) (x : list byte) : res (list Node) :=
  let! n := deref (ns !! i) in
  if (0 <=? o) && (o + len x <=? len (ptr n))
  then Ok (<[i := mkNode (splice (Z.to_nat o) x (ptr n)) (size n)]> ns)
  else Crash out_of_bounds.

(** [memcpy] of [l] bytes from [node->ptr + o]. *)
Definition copy_out (ns : list Node) (i : nat) (o l : Z) : res (list byte) :=
  let! n := deref (ns !! i) in
  if (0 <=? o) && (o + l <=? len (ptr n))
  then Ok (slice (Z.to_nat o) (Z.to_nat l) (ptr n))
  else Crash out_of_bounds.

Section byte_array.
Context `{Host} `{Heap}.

(** [Node(size_t s)], as the [i]-th block of its chain. *)
Definition new_Node (i : nat) (s : Z) : Node :=
  mkNode (map (fresh i) (seq 0 (Z.to_nat s))) s.

(** [ByteArray(size_t base_size)]. *)
Definition new_ByteArray (base_size : Z) : ByteArray :=
  mkByteArray base_size 0 base_size 0 CIM_BIG_ENDIAN [new_Node 0 base_size] (Some 0%nat).

Definition getPosition (b : ByteArray) : Z := m_position b.
Definition getDataSize (b : ByteArray) : Z := m_data_size b.
Definition getBaseSize (b : ByteArray) : Z := m_base_size b.
Definition getRemainingCapacity (b : ByteArray) : Z := u64 (m_capacity b - m_position b).
Definition getReadSize (b : ByteArray) : Z := u64 (m_data_size b - m_position b).
Definition isLittleEndian (b : ByteArray) : bool := bool_decide (m_endian b = CIM_LITTLE_ENDIAN).
Definition setIsLittleEndian (val : bool) (b : ByteArray) : ByteArray :=
  set_endian (if val then CIM_LITTLE_ENDIAN else CIM_BIG_ENDIAN) b.

(** [clear()]: every block but the root is freed. *)
Definition clear (b : ByteArray) : ByteArray :=
  mkByteArray (m_base_size b) 0 (m_base_size b) 0 (m_endian b) (take 1 (m_nodes b)) (Some 0%nat).

(** The loop of [addCapacity]: [count] blocks appended after the last one. *)
Fixpoint append_nodes (count : nat) (b : ByteArray) : ByteArray :=
  match count with
  | O => b
  | S c =>
      append_nodes c
        (set_capacity (u64 (m_capacity b + m_base_size b))
           (set_nodes (m_nodes b ++ [new_Node (length (m_nodes b)) (m_base_size b)]) b))
  end.

(** [addCapacity(size)]. *)
Definition addCapacity (size : Z) (b : ByteArray) : res ByteArray :=
  if size =? 0 then Ok b
  else
    let old_size := getRemainingCapacity b in
    if size <=? old_size then Ok b
    else
      let size := u64 (size - old_size) in
      if m_base_size b =? 0 then Crash division_by_zero
      else
        let count := size / m_base_size b + (if 0 <? size mod m_base_size b then 1 else 0) in
        let first := if 0 <? count then Some (length (m_nodes b)) else None in
        let b' := append_nodes (Z.to_nat count) b in
        Ok (if old_size =? 0 then set_cur_node first b' else b').

(** The copy loop of [write]: [buf] is what is left to write, [npos] the offset
    in the current block and [ncap] what that block can still take.  Every
    iteration but the last leaves a block behind, so the fuel
    [S (length (m_nodes b))] outlasts the chain. *)
Fixpoint write_loop (fuel : nat) (buf : list byte) (npos ncap : Z) (b : ByteArray) : res ByteArray :=
  match fuel with
  | O => Crash nontermination
  | S fuel =>
      match buf with
      | [] => Ok b
      | _ =>
          let! (i, n) := node_at (m_nodes b) (m_cur_node b) in
          let sz := len buf in
          if sz <=? ncap then
            let! ns := copy_in (m_nodes b) i npos buf in
            let cur := if size n =? u64 (npos + sz) then next ns i else Some i in
            Ok (set_position (u64 (m_position b + sz)) (set_cur_node cur (set_nodes ns b)))
          else
            let! ns := copy_in (m_nodes b) i npos (take (Z.to_nat ncap) buf) in
            let b' := set_position (u64 (m_position b + ncap))
                        (set_cur_node (next ns i) (set_nodes ns b)) in
            let! (_, n') := node_at (m_nodes b') (m_cur_node b') in
            write_loop fuel (drop (Z.to_nat ncap) buf) 0 (size n') b'
      end
  end.

(** [write(buf, size)]. *)
Definition write (buf : list byte) (b : ByteArray) : res ByteArray :=
  if len buf =? 0 then Ok b
  else
    let! b := addCapacity (len buf) b in
    if m_base_size b =? 0 then Crash division_by_zero
    else
      let npos := m_position b mod m_base_size b in
      let! (_, n) := node_at (m_nodes b) (m_cur_node b) in
      let ncap := u64 (size n - npos) in
      let! b := write_loop (S (length (m_nodes b))) buf npos ncap b in
      Ok (if m_data_size b <? m_position b then set_data_size (m_position b) b else b).

(** The copy loop of both [read]s: [cur] and [position] advance with the bytes
    copied; it returns them with the bytes. *)
Fixpoint read_loop (fuel : nat) (ns : list Node) (sz npos ncap : Z)
    (cur : option nat) (position : Z) (acc : list byte) : res (list byte * option nat * Z) :=
  match fuel with
  | O => Crash nontermination
  | S fuel =>
      if sz =? 0 then Ok (acc, cur, position)
      else
        let! (i, n) := node_at ns cur in
        if sz <=? ncap then
          let! x := copy_out ns i npos sz in
          let cur := if size n =? u64 (npos + sz) then next ns i else Some i in
          Ok (acc ++ x, cur, u64 (position + sz))
        else
          let! x := copy_out ns i npos ncap in
          let! (_, n') := node_at ns (next ns i) in
          read_loop fuel ns (u64 (sz - ncap)) 0 (size n') (next ns i)
            (u64 (position + ncap)) (acc ++ x)
  end.

(** [read(buf, size)]: the bytes delivered into [buf]. *)
Definition read (sz : Z) : st ByteArray (list byte) := fun b =>
  if sz =? 0 then (Ok [], b)
  else if getReadSize b <? sz then (Throw out_of_range, b)
  else if m_base_size b =? 0 then (Crash division_by_zero, b)
  else
    let npos := m_position b mod m_base_size b in
    match
      (let! (_, n) := node_at (m_nodes b) (m_cur_node b) in
       read_loop (S (length (m_nodes b))) (m_nodes b) sz npos (u64 (size n - npos))
         (m_cur_node b) (m_position b) [])
    with
    | Ok (x, cur, position) => (Ok x, set_position position (set_cur_node cur b))
    | Throw e => (Throw e, b)
    | Crash u => (Crash u, b)
    end.

(** [cur] moved [count] times along [next] from the root. *)
Fixpoint walk (ns : list Node) (count : nat) (cur : option nat) : res (option nat) :=
  match count with
  | O => Ok cur
  | S c => let! (i, _) := node_at ns cur in walk ns c (next ns i)
  end.

(** [read(buf, size, position) const]. *)
Definition read_at (sz position : Z) (b : ByteArray) : res (list byte) :=
  if sz =? 0 then Ok []
  else if u64 (m_data_size b - position) <? sz then Throw out_of_range
  else if m_base_size b =? 0 then Crash division_by_zero
  else
    let! cur := walk (m_nodes b) (Z.to_nat (position / m_base_size b)) (Some 0%nat) in
    let npos := position mod m_base_size b in
    let! (_, n) := node_at (m_nodes b) cur in
    let! (x, _, _) := read_loop (S (length (m_nodes b))) (m_nodes b) sz npos (u64 (size n - npos))
                        cur position [] in
    Ok x.

(** The search of [setPosition]: [while (v >= m_cur_node->size)]. *)
Fixpoint seek (fuel : nat) (ns : list Node) (v : Z) (cur : option nat) : res (Z * option nat) :=
  match fuel with
  | O => Crash nontermination
  | S fuel =>
      let! (i, n) := node_at ns cur in
      if size n <=? v then seek fuel ns (v - size n) (next ns i) else Ok (v, cur)
  end.

(** [setPosition(v)]. *)
Definition setPosition (v : Z) (b : ByteArray) : res ByteArray :=
  if m_capacity b <? v then Throw out_of_range
  else
    let b := set_position v b in
    let b := if m_data_size b <? m_position b then set_data_size (m_position b) b else b in
    let! (v, cur) := seek (S (length (m_nodes b))) (m_nodes b) v (Some 0%nat) in
    let! (i, n) := node_at (m_nodes b) cur in
    let cur := if (v =? size n) && bool_decide (is_Some (next (m_nodes b) i))
               then next (m_nodes b) i else cur in
    Ok (set_cur_node cur b).

(** [toString()]. *)
Definition toString (b : ByteArray) : res (list byte) :=
  let n := getReadSize b in
  if n =? 0 then Ok [] else read_at n (m_position b) b.

(** The loop that cuts a range of the chain into [iovec]s, the same in
    [getReadBuffers] (twice) and [getWriteBuffers]. *)
Fixpoint iovec_loop (fuel : nat) (ns : list Node) (l npos ncap : Z) (cur : option nat) : res (list iovec) :=
  match fuel with
  | O => Crash nontermination
  | S fuel =>
      if l =? 0 then Ok []
      else
        let! (i, _) := node_at ns cur in
        if l <=? ncap then Ok [mkIovec i npos l]
        else
          let! (_, n') := node_at ns (next ns i) in
          let! rest := iovec_loop fuel ns (u64 (l - ncap)) 0 (size n') (next ns i) in
          Ok (mkIovec i npos ncap :: rest)
  end.

(** [getReadBuffers(buffer, len)]: the size returned and the vectors pushed. *)
Definition getReadBuffers (l : Z) (b : ByteArray) : res (Z * list iovec) :=
  let l := if getReadSize b <? l then getReadSize b else l in
  if l =? 0 then Ok (0, [])
  else if m_base_size b =? 0 then Crash division_by_zero
  else
    let npos := m_position b mod m_base_size b in
    let! (_, n) := node_at (m_nodes b) (m_cur_node b) in
    let! iovs := iovec_loop (S (length (m_nodes b))) (m_nodes b) l npos (u64 (size n - npos)) (m_cur_node b) in
    Ok (l, iovs).

(** [getReadBuffers(buffer, len, position) const]. *)
Definition getReadBuffers_at (l position : Z) (b : ByteArray) : res (Z * list iovec) :=
  let l := if getReadSize b <? l then getReadSize b else l in
  if l =? 0 then Ok (0, [])
  else if m_base_size b =? 0 then Crash division_by_zero
  else
    let npos := position mod m_base_size b in
    let! cur := walk (m_nodes b) (Z.to_nat (position / m_base_size b)) (Some 0%nat) in
    let! (_, n) := node_at (m_nodes b) cur in
    let! iovs := iovec_loop (S (length (m_nodes b))) (m_nodes b) l npos (u64 (size n - npos)) cur in
    Ok (l, iovs).

(** [getWriteBuffers(buffer, len)]. *)
Definition getWriteBuffers (l : Z) (b : ByteArray) : res (Z * list iovec * ByteArray) :=
  if l =? 0 then Ok (0, [], b)
  else
    let! b := addCapacity l b in
    if m_base_size b =? 0 then Crash division_by_zero
    else
      let npos := m_position b mod m_base_size b in
      let! (_, n) := node_at (m_nodes b) (m_cur_node b) in
      let! iovs := iovec_loop (S (length (m_nodes b))) (m_nodes b) l npos (u64 (size n - npos)) (m_cur_node b) in
      Ok (l, iovs, b).

(** The write loop of [writeToFile]: the bytes given to [ofs.write]. *)
Fixpoint file_loop (fuel : nat) (b : ByteArray) (read_size pos : Z) (cur : option nat) : res (list byte) :=
  match fuel with
  | O => Crash nontermination
  | S fuel =>
      if read_size <=? 0 then Ok []
      else
        let diff := s32 (u64 pos mod m_base_size b) in
        let l := Z.min (m_base_size b - diff) read_size in
        let! (i, _) := node_at (m_nodes b) cur in
        let! x := copy_out (m_nodes b) i diff l in
        let! rest := file_loop fuel b (read_size - l) (pos + l) (next (m_nodes b) i) in
        Ok (x ++ rest)
  end.

(** [writeToFile(path)], where [opened] is whether [ofs.open] succeeded: the
    result and the content of the file. *)
Definition writeToFile (opened : bool) (b : ByteArray) : res (bool * list byte) :=
  if negb opened then Ok (false, [])
  else if (0 <? getReadSize b) && (m_base_size b =? 0) then Crash division_by_zero
  else
    let! x := file_loop (S (S (length (m_nodes b)))) b (s64 (getReadSize b)) (s64 (m_position b)) (m_cur_node b) in
    Ok (true, x).

(** The loop of [readFromFile]: at most [m_base_size] bytes per [ifs.read],
    end of file once a read comes up short. *)
Fixpoint slurp (fuel : nat) (file : list byte) (b : ByteArray) : res ByteArray :=
  match fuel with
  | O => Crash nontermination
  | S fuel =>
      let chunk := take (Z.to_nat (m_base_size b)) file in
      let! b' := write chunk b in
      if len chunk <? m_base_size b then Ok b'
      else slurp fuel (drop (Z.to_nat (m_base_size b)) file) b'
  end.

(** [readFromFile(path)]: [None] when the file does not open. *)
Definition readFromFile (file : option (list byte)) (b : ByteArray) : res (bool * ByteArray) :=
  match file with
  | None => Ok (false, b)
  | Some f => let! b' := slurp (S (length f)) f b in Ok (true, b')
  end.
End byte_array.

(** What [recv] does with the vectors of [getWriteBuffers]: [x] is stored into
    them in order. *)
Fixpoint scatter (vs : list iovec) (x : list byte) (ns : list Node) : res (list Node) :=
  match vs with
  | [] => Ok ns
  | v :: vs' =>
      let! ns' := copy_in ns (iov_node v) (iov_off v) (take (Z.to_nat (iov_len v)) x) in
      scatter vs' (drop (Z.to_nat (iov_len v)) x) ns'
  end.

(** What [send] does with the vectors of [getReadBuffers]: the bytes they cover. *)
Fixpoint gather (vs : list iovec) (ns : list Node) : res (list byte) :=
  match vs with
  | [] => Ok []
  | v :: vs' =>
      let! x := copy_out ns (iov_node v) (iov_off v) (iov_len v) in
      let! rest := gather vs' ns in
      Ok (x ++ rest)
  end.

(** What the vectors hold together: the room the system call sees. *)
Definition iov_total (vs : list iovec) : Z := foldr (fun v a => iov_len v + a) 0 vs.

(** One hexadecimal digit of [std::hex]. *)
Definition hex_digit (v : Z) : byte :=
  if v <? 10 then z2b (48 + v) else z2b (87 + v).

(** The loop of [toHexString]: two digits and a blank per byte, a newline before
    every 32nd byte but the first. *)
Fixpoint hex_lines (i : nat) (s : list byte) : list byte :=
  match s with
  | [] => []
  | c :: s' =>
      (if (0 <? i)%nat && (i mod 32 =? 0)%nat then [x0a] else []) ++ [hex_digit (b2z c / 16); hex_digit (b2z c mod 16)] ++ bstr " " ++ hex_lines (S i) s'
  end.

Definition toHexString (b : ByteArray) : res (list byte) :=
  let! s := toString b in Ok (hex_lines 0 s).
