(* ===== verification/ByteArraySpec.v ===== *)
(** What a [ByteArray] promises: the chain of blocks behaves like one flat
    byte string with a cursor.  [wf] is the representation invariant, [content]
    the flat string, and each operation is shown to act on the flat string. *)
From S2P Require Import Prelude Endian ByteArray.

(** ** Chains of equally sized blocks *)

Definition flat (ns : list Node) : list byte := concat (map ptr ns).
#[global] Arguments flat : simpl never.

Definition uniform (B : nat) (ns : list Node) : Prop :=
  Forall (fun n => size n = Z.of_nat B /\ length (ptr n) = B) ns.

(** The cursor that a position determines in a chain of [N] blocks of [B] bytes. *)
Definition cur_of (B N p : nat) : option nat :=
  if (p <? N * B)%nat then Some (p / B)%nat else None.

Lemma flat_app ns ms : flat (ns ++ ms) = flat ns ++ flat ms.
Proof. unfold flat. by rewrite map_app, concat_app. Qed.

Lemma flat_length B ns : uniform B ns -> length (flat ns) = (length ns * B)%nat.
Proof.
  induction 1 as [|n ns [_ Hn] _ IH]; [done|].
  unfold flat in *. simpl. rewrite length_app, IH, Hn. lia.
Qed.

Lemma uniform_lookup B ns i n : uniform B ns -> ns !! i = Some n -> size n = Z.of_nat B /\ length (ptr n) = B.
Proof. unfold uniform. rewrite Forall_lookup. eauto. Qed.

Lemma flat_split B ns i n :
  uniform B ns -> ns !! i = Some n ->
  exists l r, flat ns = l ++ ptr n ++ r /\ length l = (i * B)%nat /\
    (forall m, flat (<[i:=m]> ns) = l ++ ptr m ++ r).
Proof.
  intros U Hi. pose proof (lookup_lt_Some _ _ _ Hi) as Lt.
  exists (flat (take i ns)), (flat (drop (S i) ns)). split_and!.
  - rewrite <- (take_drop_middle ns i n Hi) at 1. by rewrite flat_app.
  - rewrite (flat_length B); [rewrite length_take; f_equal; lia|]. by apply Forall_take.
  - intros m. rewrite insert_take_drop by done. by rewrite flat_app.
Qed.

Lemma copy_in_flat B ns i n o x :
  uniform B ns -> ns !! i = Some n -> (o + length x <= B)%nat ->
  exists ns', copy_in ns i (Z.of_nat o) x = Ok ns' /\ uniform B ns' /\ length ns' = length ns /\
    flat ns' = splice (i * B + o) x (flat ns).
Proof.
  intros U Hi Ho. pose proof (uniform_lookup B ns i n U Hi) as [Hs Hl].
  unfold copy_in. rewrite Hi. simpl.
  replace (_ && _) with true by (unfold len; lia). eexists. split_and!; [done| | |].
  - apply Forall_insert; [done|]. simpl. rewrite Nat2Z.id, length_splice; lia.
  - by rewrite length_insert.
  - destruct (flat_split B ns i n U Hi) as (l & r & E & Ll & F). rewrite F, E. simpl.
    rewrite Nat2Z.id, <- Ll, splice_app_r, splice_app_l by lia. done.
Qed.

Lemma copy_out_flat B ns i n o l :
  uniform B ns -> ns !! i = Some n -> (o + l <= B)%nat ->
  copy_out ns i (Z.of_nat o) (Z.of_nat l) = Ok (slice (i * B + o) l (flat ns)).
Proof.
  intros U Hi Ho. pose proof (uniform_lookup B ns i n U Hi) as [Hs Hl].
  unfold copy_out. rewrite Hi. simpl.
  replace (_ && _) with true by (unfold len; lia). rewrite !Nat2Z.id.
  destruct (flat_split B ns i n U Hi) as (a & r & E & La & _).
  rewrite E, <- La, slice_app_r, slice_app_l by lia. done.
Qed.

Lemma node_at_Some ns i n : ns !! i = Some n -> node_at ns (Some i) = Ok (i, n).
Proof. intros E. unfold node_at. simpl. by rewrite E. Qed.

Lemma next_Some ns i : (S i < length ns)%nat -> next ns i = Some (S i).
Proof. intros. unfold next. by replace (S i <? length ns)%nat with true by lia. Qed.

(** The cursor after the block [i] is filled up to [p]. *)
Lemma cur_of_end B ns i p :
  (0 < B)%nat -> p = (S i * B)%nat -> (i < length ns)%nat -> next ns i = cur_of B (length ns) p.
Proof.
  intros HB -> Hi. unfold next, cur_of. rewrite Nat.div_mul by lia.
  repeat case_match; try done; nia.
Qed.

Lemma cur_of_inside B N i o :
  (o < B)%nat -> (i < N)%nat -> cur_of B N (i * B + o) = Some i.
Proof.
  intros Ho Hi. unfold cur_of. replace (i * B + o <? N * B)%nat with true by nia.
  f_equal. rewrite Nat.div_add_l by lia. rewrite Nat.div_small by lia. lia.
Qed.

(** ** The copy loops on the flat string *)

Section loops.
Context (B : nat) (HB : (0 < B)%nat).

Lemma write_loop_flat fuel : forall buf i o b,
  uniform B (m_nodes b) -> m_cur_node b = Some i -> (i < length (m_nodes b))%nat ->
  (o < B)%nat -> m_position b = Z.of_nat (i * B + o) -> buf <> [] ->
  (i * B + o + length buf <= length (m_nodes b) * B)%nat ->
  Z.of_nat (length (m_nodes b) * B) < 2 ^ 64 -> (length (m_nodes b) < fuel + i)%nat ->
  exists ns, uniform B ns /\ length ns = length (m_nodes b) /\
    flat ns = splice (i * B + o) buf (flat (m_nodes b)) /\
    write_loop fuel buf (Z.of_nat o) (Z.of_nat (B - o)) b =
      Ok (set_position (Z.of_nat (i * B + o + length buf))
           (set_cur_node (cur_of B (length ns) (i * B + o + length buf)) (set_nodes ns b))).
Proof using HB.
  induction fuel as [|fuel IH]; intros buf i o b U Hc Hi Ho Hp Hne Hroom Hlim Hf; [lia|].
  destruct (lookup_lt_is_Some_2 _ _ Hi) as [n Hn].
  destruct (uniform_lookup _ _ _ _ U Hn) as [Hs Hl].
  cbn [write_loop]. destruct buf as [|c buf']; [done|]. assert (Hbuf : (0 < length (c :: buf'))%nat) by (simpl; lia).
  remember (c :: buf') as buf eqn:Eb. clear Eb.
  rewrite Hc, (node_at_Some _ _ _ Hn). cbn [rbind]. unfold len.
  destruct (Z.leb_spec (Z.of_nat (length buf)) (Z.of_nat (B - o))) as [Hle|Hgt].
  - destruct (copy_in_flat B _ i n o buf U Hn ltac:(lia)) as (ns & -> & Un & Ln & Fn).
    exists ns. split_and!; try done. cbn [rbind]. rewrite Hp, Hs. unwrap.
    do 2 f_equal; [lia|]. f_equal. case_match eqn:E.
    + apply cur_of_end; lia.
    + symmetry. rewrite <- Nat.add_assoc. apply cur_of_inside; lia.
  - rewrite Nat2Z.id.
    destruct (copy_in_flat B _ i n o (take (B - o) buf) U Hn) as (ns & -> & Un & Ln & Fn).
    { rewrite length_take. lia. }
    assert (S i < length ns)%nat as Hi' by nia.
    cbn [rbind m_nodes m_cur_node set_position set_cur_node set_nodes].
    rewrite next_Some by done.
    destruct (lookup_lt_is_Some_2 _ _ Hi') as [n' Hn'].
    destruct (uniform_lookup _ _ _ _ Un Hn') as [Hs' Hl'].
    rewrite (node_at_Some _ _ _ Hn'). cbn [rbind]. rewrite Hs', Hp. unwrap.
    destruct (IH (drop (B - o) buf) (S i) 0%nat
      (set_position (Z.of_nat (i * B + o) + Z.of_nat (B - o)) (set_cur_node (Some (S i)) (set_nodes ns b))))
      as (ns' & Un' & Ln' & Fn' & E'); simpl in *; try done; try lia.
    { intros E. apply (f_equal length) in E. rewrite length_drop in E. simpl in E. lia. }
    { rewrite length_drop, Ln. lia. }
    exists ns'. split_and!; try done; [lia| |].
    + rewrite Fn', Fn. transitivity (splice (i * B + o) (take (B - o) buf ++ drop (B - o) buf) (flat (m_nodes b))).
      * rewrite <- splice_splice.
        -- f_equal. rewrite length_take. lia.
        -- rewrite (flat_length B) by done. rewrite length_take, length_drop. lia.
      * by rewrite take_drop.
    + rewrite Nat.sub_0_r in E'. change (Z.of_nat 0) with 0 in E'. rewrite E'. unfold set_position, set_cur_node, set_nodes; simpl.
      assert (length (drop (B - o) buf) = (length buf - (B - o))%nat) as -> by apply length_drop.
      by replace (B + i * B + 0 + (length buf - (B - o)))%nat with (i * B + o + length buf)%nat by lia.
Qed.

Lemma read_loop_flat fuel : forall ns l i o acc,
  uniform B ns -> (i < length ns)%nat -> (o < B)%nat -> (0 < l)%nat ->
  (i * B + o + l <= length ns * B)%nat ->
  Z.of_nat (length ns * B) < 2 ^ 64 -> (length ns < fuel + i)%nat ->
  read_loop fuel ns (Z.of_nat l) (Z.of_nat o) (Z.of_nat (B - o)) (Some i) (Z.of_nat (i * B + o)) acc =
    Ok (acc ++ slice (i * B + o) l (flat ns), cur_of B (length ns) (i * B + o + l),
        Z.of_nat (i * B + o + l)).
Proof using HB.
  induction fuel as [|fuel IH]; intros ns l i o acc U Hi Ho Hl Hroom Hlim Hf; [lia|].
  destruct (lookup_lt_is_Some_2 _ _ Hi) as [n Hn].
  destruct (uniform_lookup _ _ _ _ U Hn) as [Hs Hln].
  cbn [read_loop]. replace (Z.of_nat l =? 0) with false by lia.
  rewrite (node_at_Some _ _ _ Hn). cbn [rbind].
  destruct (Z.leb_spec (Z.of_nat l) (Z.of_nat (B - o))) as [Hle|Hgt].
  - rewrite (copy_out_flat B _ i n) by (done || lia). cbn [rbind]. unwrap. rewrite Hs.
    repeat f_equal; [|lia]. case_match eqn:E.
    + apply cur_of_end; lia.
    + symmetry. rewrite <- Nat.add_assoc. apply cur_of_inside; lia.
  - rewrite (copy_out_flat B _ i n) by (done || lia). cbn [rbind].
    assert (S i < length ns)%nat as Hi' by nia. rewrite next_Some by done.
    destruct (lookup_lt_is_Some_2 _ _ Hi') as [n' Hn'].
    destruct (uniform_lookup _ _ _ _ U Hn') as [Hs' _].
    rewrite (node_at_Some _ _ _ Hn'). cbn [rbind]. unwrap. rewrite Hs'.
    replace (Z.of_nat l - Z.of_nat (B - o)) with (Z.of_nat (l - (B - o))) by lia.
    replace (Z.of_nat (i * B + o) + Z.of_nat (B - o)) with (Z.of_nat (S i * B + 0)) by lia.
    pose proof (IH ns (l - (B - o))%nat (S i) 0%nat (acc ++ slice (i * B + o) (B - o) (flat ns))) as E'.
    rewrite Nat.sub_0_r in E'. change (Z.of_nat 0) with 0 in E'. rewrite E' by (done || lia).
    rewrite <- app_assoc.
    replace (S i * B + 0)%nat with (i * B + o + (B - o))%nat by lia.
    rewrite slice_slice. do 3 f_equal; [do 2 f_equal; lia|f_equal; lia|lia].
Qed.

Lemma walk_flat c : forall ns i,
  (i + c < length ns)%nat -> walk ns c (Some i) = Ok (Some (i + c)%nat).
Proof using Type. clear HB B.
  induction c as [|c IH]; intros ns i Hi; cbn [walk]; [by rewrite Nat.add_0_r|].
  destruct (lookup_lt_is_Some_2 ns i ltac:(lia)) as [n Hn].
  rewrite (node_at_Some _ _ _ Hn). cbn [rbind]. rewrite next_Some by lia.
  rewrite IH by lia. do 2 f_equal. lia.
Qed.

Definition iov_ok (ns : list Node) (v : iovec) : Prop :=
  (iov_node v < length ns)%nat /\ 0 <= iov_off v /\ 0 < iov_len v /\
  iov_off v + iov_len v <= Z.of_nat B.


(** The vectors cut from [l] bytes at offset [i * B + o]: gathering them reads
    the range, scattering into them overwrites it. *)
Lemma iovec_loop_flat fuel : forall ns l i o,
  uniform B ns -> (i < length ns)%nat -> (o < B)%nat -> (0 < l)%nat ->
  (i * B + o + l <= length ns * B)%nat ->
  Z.of_nat (length ns * B) < 2 ^ 64 -> (length ns < fuel + i)%nat ->
  exists vs, iovec_loop fuel ns (Z.of_nat l) (Z.of_nat o) (Z.of_nat (B - o)) (Some i) = Ok vs /\
    gather vs ns = Ok (slice (i * B + o) l (flat ns)) /\
    Forall (iov_ok ns) vs /\ iov_total vs = Z.of_nat l /\
    (forall x ms, uniform B ms -> length ms = length ns -> (length x <= l)%nat ->
      exists ms', scatter vs x ms = Ok ms' /\ uniform B ms' /\ length ms' = length ms /\
        flat ms' = splice (i * B + o) x (flat ms)).
Proof using HB.
  induction fuel as [|fuel IH]; intros ns l i o U Hi Ho Hl Hroom Hlim Hf; [lia|].
  destruct (lookup_lt_is_Some_2 _ _ Hi) as [n Hn].
  cbn [iovec_loop]. replace (Z.of_nat l =? 0) with false by lia.
  rewrite (node_at_Some _ _ _ Hn). cbn [rbind].
  destruct (Z.leb_spec (Z.of_nat l) (Z.of_nat (B - o))) as [Hle|Hgt].
  - eexists. split_and!; [done| | | |].
    + simpl. rewrite (copy_out_flat B _ _ n) by (done || lia). simpl. by rewrite app_nil_r.
    + repeat constructor; simpl; lia.
    + simpl. lia.
    + intros x ms Um Lm Lx. simpl. rewrite Nat2Z.id, take_ge by done.
      destruct (lookup_lt_is_Some_2 ms i ltac:(lia)) as [m Hm].
      destruct (copy_in_flat B ms i m o x) as (ms' & -> & ?); try done; [lia|].
      simpl. eauto.
  - assert (S i < length ns)%nat as Hi' by nia. rewrite next_Some by done.
    destruct (lookup_lt_is_Some_2 _ _ Hi') as [n' Hn'].
    destruct (uniform_lookup _ _ _ _ U Hn') as [Hs' _].
    rewrite (node_at_Some _ _ _ Hn'). cbn [rbind]. unwrap. rewrite Hs'.
    replace (Z.of_nat l - Z.of_nat (B - o)) with (Z.of_nat (l - (B - o))) by lia.
    destruct (IH ns (l - (B - o))%nat (S i) 0%nat) as (vs & E & C & F & T & Sc); try (done || lia).
    rewrite Nat.sub_0_r in E. change (Z.of_nat 0) with 0 in E. rewrite E. cbn [rbind].
    replace (S i * B + 0)%nat with (i * B + o + (B - o))%nat in C, Sc by lia.
    eexists. split_and!; [done| | | |].
    + cbn [gather iov_node iov_off iov_len].
      rewrite (copy_out_flat B _ _ n), C by (done || lia). simpl.
      rewrite slice_slice. do 2 f_equal. lia.
    + constructor; [|done]. repeat constructor; simpl; lia.
    + simpl. lia.
    + intros x ms Um Lm Lx. cbn [scatter iov_node iov_off iov_len]. rewrite Nat2Z.id.
      destruct (lookup_lt_is_Some_2 ms i ltac:(lia)) as [m Hm].
      destruct (copy_in_flat B ms i m o (take (B - o) x)) as (ms1 & -> & U1 & L1 & F1); try done.
      { rewrite length_take. lia. }
      cbn [rbind].
      destruct (Sc (drop (B - o) x) ms1) as (ms2 & -> & U2 & L2 & F2); [done|lia|rewrite length_drop; lia|].
      exists ms2. split_and!; [done|done|lia|]. rewrite F2, F1.
      destruct (decide (length x <= B - o)%nat) as [Hx|Hx].
      * rewrite drop_ge, take_ge by done. by rewrite splice_nil.
      * replace (i * B + o + (B - o))%nat with (i * B + o + length (take (B - o) x))%nat
          by (rewrite length_take; lia).
        rewrite splice_splice, take_drop; [done|].
        rewrite (flat_length B) by done. rewrite length_take, length_drop. lia.
Qed.

Lemma seek_inside fuel : forall ns i v,
  uniform B ns -> 0 <= v < Z.of_nat ((length ns - i) * B) -> (length ns < fuel + i)%nat ->
  seek fuel ns v (Some i) = Ok (v mod Z.of_nat B, Some (i + Z.to_nat (v / Z.of_nat B))%nat).
Proof using HB.
  induction fuel as [|fuel IH]; intros ns i v U Hv Hf; [lia|].
  assert (i < length ns)%nat as Hi by nia.
  destruct (lookup_lt_is_Some_2 _ _ Hi) as [n Hn].
  destruct (uniform_lookup _ _ _ _ U Hn) as [Hs _].
  cbn [seek]. rewrite (node_at_Some _ _ _ Hn). cbn [rbind]. rewrite Hs.
  destruct (Z.leb_spec (Z.of_nat B) v) as [Hle|Hgt].
  - rewrite next_Some by nia. rewrite IH by (done || nia).
    replace v with (v - Z.of_nat B + 1 * Z.of_nat B) at 3 4 by lia.
    rewrite Z.mod_add, Z.div_add by lia. do 3 f_equal.
    pose proof (Z.div_pos (v - Z.of_nat B) (Z.of_nat B)). lia.
  - rewrite Z.mod_small, Z.div_small by lia. do 3 f_equal. simpl. lia.
Qed.

(** Seeking the end of the chain walks off it. *)
Lemma seek_end fuel : forall ns i,
  uniform B ns -> (i < length ns)%nat -> (length ns < fuel + i)%nat ->
  seek fuel ns (Z.of_nat ((length ns - i) * B)) (Some i) = Crash null_deref.
Proof using HB.
  induction fuel as [|fuel IH]; intros ns i U Hi Hf; [lia|].
  destruct (lookup_lt_is_Some_2 _ _ Hi) as [n Hn].
  destruct (uniform_lookup _ _ _ _ U Hn) as [Hs _].
  cbn [seek]. rewrite (node_at_Some _ _ _ Hn). cbn [rbind]. rewrite Hs.
  replace (Z.of_nat B <=? _) with true by nia.
  replace (Z.of_nat ((length ns - i) * B) - Z.of_nat B) with (Z.of_nat ((length ns - S i) * B)) by nia.
  destruct (decide (S i < length ns)%nat) as [Hi'|Hi'].
  - rewrite next_Some by done. apply IH; [done|done|lia].
  - unfold next. replace (S i <? length ns)%nat with false by lia.
    destruct fuel; [lia|]. done.
Qed.

Lemma walk_end c : forall ns i,
  (i < length ns)%nat -> (length ns <= i + c)%nat ->
  (let! cur := walk ns c (Some i) in node_at ns cur) = Crash null_deref.
Proof using Type. clear HB B.
  induction c as [|c IH]; intros ns i Hi Hc; [lia|].
  destruct (lookup_lt_is_Some_2 _ _ Hi) as [n Hn].
  cbn [walk]. rewrite (node_at_Some _ _ _ Hn). cbn [rbind].
  destruct (decide (S i < length ns)%nat) as [Hi'|Hi'].
  - rewrite next_Some by done. apply IH; lia.
  - unfold next. replace (S i <? length ns)%nat with false by lia. by destruct c.
Qed.
End loops.

(** ** The representation invariant *)

Definition Bn (b : ByteArray) : nat := Z.to_nat (m_base_size b).

Record wf (b : ByteArray) : Prop := {
  wf_base : 0 < m_base_size b;
  wf_uniform : uniform (Bn b) (m_nodes b);
  wf_nonempty : (0 < length (m_nodes b))%nat;
  wf_capacity : m_capacity b = Z.of_nat (length (m_nodes b) * Bn b);
  wf_limit : m_capacity b < 2 ^ 64;
  wf_position : 0 <= m_position b <= m_data_size b;
  wf_data_size : m_data_size b <= m_capacity b;
  wf_cursor : m_cur_node b = cur_of (Bn b) (length (m_nodes b)) (Z.to_nat (m_position b));
}.

(** The flat string the array stands for. *)
Definition content (b : ByteArray) : list byte := take (Z.to_nat (m_data_size b)) (flat (m_nodes b)).

(** What is left to read from the cursor. *)
Definition unread (b : ByteArray) : list byte := drop (Z.to_nat (m_position b)) (content b).

(** The largest position a write may reach: beyond it the capacity could wrap. *)
Definition room (b : ByteArray) : Z := 2 ^ 64 - m_base_size b.

Lemma wf_Bn b : wf b -> Z.of_nat (Bn b) = m_base_size b /\ (0 < Bn b)%nat.
Proof. intros []. unfold Bn. lia. Qed.

Lemma wf_base_small b : wf b -> m_base_size b < 2 ^ 64.
Proof. intros W. pose proof (wf_Bn b W) as [HB HB0]. destruct W. rewrite <- HB in *. nia. Qed.

Lemma wf_flat_length b : wf b -> Z.of_nat (length (flat (m_nodes b))) = m_capacity b.
Proof. intros W. rewrite (flat_length (Bn b)), (wf_capacity b W) by apply W. done. Qed.

Lemma wf_content_length b : wf b -> len (content b) = m_data_size b.
Proof.
  intros W. pose proof (wf_flat_length b W). destruct W.
  unfold content, len. rewrite length_take. lia.
Qed.

Lemma wf_unread_length b : wf b -> len (unread b) = getReadSize b.
Proof.
  intros W. pose proof (wf_content_length b W) as E. unfold unread, getReadSize, len in *.
  rewrite length_drop. destruct W. unwrap. lia.
Qed.

(** Position and block: the quotient and remainder the code computes. *)
Lemma wf_split b :
  wf b -> m_position b < m_capacity b ->
  exists i o, (i < length (m_nodes b))%nat /\ (o < Bn b)%nat /\
    m_position b = Z.of_nat (i * Bn b + o) /\ m_cur_node b = Some i /\
    m_position b mod m_base_size b = Z.of_nat o.
Proof.
  intros W Hp. pose proof (wf_Bn b W) as [HB HB0]. destruct W.
  pose proof (Z.div_mod (m_position b) (m_base_size b) ltac:(lia)) as D.
  pose proof (Z.mod_pos_bound (m_position b) (m_base_size b) ltac:(lia)).
  pose proof (Z.div_pos (m_position b) (m_base_size b) ltac:(lia) ltac:(lia)).
  set (q := m_position b / m_base_size b) in *. set (r := m_position b mod m_base_size b) in *.
  exists (Z.to_nat q), (Z.to_nat r).
  assert (m_position b = Z.of_nat (Z.to_nat q * Bn b + Z.to_nat r)) as E by nia.
  assert (Z.to_nat q < length (m_nodes b))%nat by nia.
  split_and!; try done; try lia. rewrite wf_cursor0, E, Nat2Z.id. apply cur_of_inside; lia.
Qed.

Section operations.
Context `{Host} `{Heap}.

Lemma new_Node_uniform i B : uniform B [new_Node i (Z.of_nat B)].
Proof. repeat constructor. simpl. by rewrite Nat2Z.id, length_map, length_seq. Qed.

Lemma wf_new base : 0 < base < 2 ^ 64 -> wf (new_ByteArray base).
Proof.
  intros Hb. constructor; unfold Bn; simpl; try lia.
  - pose proof (new_Node_uniform 0 (Z.to_nat base)) as U. by rewrite Z2Nat.id in U by lia.
  - unfold cur_of. simpl. case_match; [|lia]. by rewrite Nat.Div0.div_0_l.
Qed.

(** *** Growing the chain *)
Lemma append_nodes_spec c : forall b,
  0 < m_base_size b -> uniform (Bn b) (m_nodes b) ->
  m_capacity b = Z.of_nat (length (m_nodes b) * Bn b) ->
  Z.of_nat ((length (m_nodes b) + c) * Bn b) < 2 ^ 64 ->
  exists ms, length ms = c /\ uniform (Bn b) ms /\
    append_nodes c b = set_capacity (Z.of_nat ((length (m_nodes b) + c) * Bn b))
                         (set_nodes (m_nodes b ++ ms) b).
Proof.
  induction c as [|c IH]; intros b Hb U Hc Hl; cbn [append_nodes].
  - exists []. split_and!; [done|constructor|]. rewrite app_nil_r, Nat.add_0_r, <- Hc.
    by destruct b.
  - set (n := new_Node (length (m_nodes b)) (m_base_size b)).
    assert (uniform (Bn b) [n]) as Un.
    { unfold n. pose proof (new_Node_uniform (length (m_nodes b)) (Bn b)) as Un.
      unfold Bn in Un at 2. by rewrite Z2Nat.id in Un by lia. }
    set (b1 := set_capacity _ _).
    assert (Bn b1 = Bn b) as Eb by done.
    assert (length (m_nodes b1) = S (length (m_nodes b))) as E1.
    { simpl. rewrite length_app. simpl. lia. }
    assert (Z.of_nat (Bn b) = m_base_size b) as Ebz by (unfold Bn; lia).
    destruct (IH b1) as (ms & L & Um & E); rewrite ?Eb, ?E1; try done.
    + apply Forall_app. done.
    + simpl. rewrite Hc. rewrite u64_small; nia.
    + nia.
    + exists (n :: ms). split_and!; [by simpl; rewrite L|apply Forall_app_2 with (l1 := [n]); done|].
      rewrite E, Eb, E1. unfold b1, set_capacity, set_nodes. simpl. rewrite <- app_assoc.
      f_equal. f_equal. lia.
Qed.

(** The chain after [addCapacity] has [size] more bytes than the cursor; the
    bytes it had are where they were. *)
Lemma addCapacity_spec n b :
  wf b -> 0 < n -> m_position b + n <= room b ->
  exists ms cap cur, let b' := set_cur_node cur (set_capacity cap (set_nodes (m_nodes b ++ ms) b)) in
    addCapacity n b = Ok b' /\ wf b' /\ m_position b + n <= m_capacity b' /\
    m_capacity b <= m_capacity b' <= Z.max (m_capacity b) (m_position b + n + m_base_size b - 1).
Proof.
  intros W Hn Hr. pose proof (wf_Bn b W) as [HB HB0]. pose proof W as [].
  unfold addCapacity, getRemainingCapacity, room in *. unwrap.
  replace (n =? 0) with false by lia.
  destruct (Z.leb_spec n (m_capacity b - m_position b)) as [Hle|Hgt].
  { exists [], (m_capacity b), (m_cur_node b). simpl. rewrite app_nil_r.
    destruct b; simpl in *. split_and!; [done|done|lia|lia|lia]. }
  unwrap. replace (m_base_size b =? 0) with false by lia.
  set (need := n - (m_capacity b - m_position b)).
  set (count := need / m_base_size b + _).
  pose proof (Z.div_mod need (m_base_size b) ltac:(lia)) as D.
  pose proof (Z.mod_pos_bound need (m_base_size b) ltac:(lia)) as M.
  pose proof (Z.div_pos need (m_base_size b) ltac:(lia) ltac:(lia)) as Q.
  assert (need <= count * m_base_size b < need + m_base_size b) as Hc.
  { unfold count. case_match; nia. }
  assert (0 < count) as Hc0 by nia.
  destruct (append_nodes_spec (Z.to_nat count) b) as (ms & L & Um & E); try done; [nia|].
  set (cap := Z.of_nat _) in E.
  assert (cap = m_capacity b + count * m_base_size b) as Ecap.
  { unfold cap. rewrite wf_capacity0, <- HB. rewrite Nat.mul_add_distr_r, Nat2Z.inj_add, !Nat2Z.inj_mul. lia. }
  exists ms, cap, (if m_capacity b - m_position b =? 0 then Some (length (m_nodes b)) else m_cur_node b).
  cbv zeta. split; [|split; [|split]].
  - rewrite E. replace (0 <? count) with true by lia. by case_match.
  - constructor; cbn -[Z.mul]; try done; try lia.
    + apply Forall_app. done.
    + rewrite length_app. lia.
    + rewrite length_app, L. reflexivity.
    + rewrite length_app, L. unfold Bn; cbn; fold (Bn b). rewrite wf_cursor0. unfold cur_of.
      unfold cap in Ecap. set (k := Z.to_nat count) in *.
      replace (Z.to_nat (m_position b) <? (length (m_nodes b) + k) * Bn b)%nat with true by lia.
      destruct (Z.eqb_spec (m_capacity b - m_position b) 0) as [E0|E0].
      * replace (Z.to_nat (m_position b)) with (length (m_nodes b) * Bn b)%nat by lia.
        rewrite Nat.div_mul by lia. done.
      * by replace (Z.to_nat (m_position b) <? length (m_nodes b) * Bn b)%nat with true by lia.
  - cbn. lia.
  - cbn. lia.
Qed.

(** *** [write] *)
Lemma write_spec buf b :
  wf b -> m_position b + len buf <= room b ->
  exists b', write buf b = Ok b' /\ wf b' /\
    m_position b' = m_position b + len buf /\
    m_data_size b' = Z.max (m_data_size b) (m_position b + len buf) /\
    content b' = splice (Z.to_nat (m_position b)) buf (content b) /\
    m_endian b' = m_endian b /\ m_base_size b' = m_base_size b.
Proof.
  intros W Hr. unfold write. destruct (Z.eqb_spec (len buf) 0) as [Hz|Hz].
  { exists b. pose proof W as []. split_and!; try done; try lia.
    assert (buf = []) as -> by (destruct buf; done). by rewrite splice_nil. }
  assert (buf <> []) as Hne by (intros ->; done).
  destruct (addCapacity_spec (len buf) b W ltac:(unfold len in *; lia) Hr) as (ms & cap & cur & E & W1 & Hcap & Hcap').
  rewrite E. cbn [rbind]. set (b1 := set_cur_node _ _) in *.
  assert (m_position b1 < m_capacity b1) as Hlt by (cbn in *; unfold len in *; lia).
  destruct (wf_split b1 W1 Hlt) as (i & o & Hi & Ho & Hp & Hcur & Hmod).
  pose proof (wf_Bn b1 W1) as [HB HB0]. pose proof (wf_base_small b1 W1).
  replace (m_base_size b1 =? 0) with false by lia. rewrite Hmod, Hcur.
  destruct (lookup_lt_is_Some_2 _ _ Hi) as [n Hn].
  destruct (uniform_lookup _ _ _ _ (wf_uniform b1 W1) Hn) as [Hs _].
  rewrite (node_at_Some _ _ _ Hn). cbn [rbind]. rewrite Hs.
  pose proof W1 as [].
  replace (u64 (Z.of_nat (Bn b1) - Z.of_nat o)) with (Z.of_nat (Bn b1 - o)) by (rewrite u64_small; lia).
  destruct (write_loop_flat (Bn b1) HB0 (S (length (m_nodes b1))) buf i o b1) as (ns & Un & Ln & Fn & ->);
    try done; try (unfold len in *; cbn in *; lia).
  cbn [rbind].
  assert (m_position b = Z.of_nat (i * Bn b1 + o)) as Hpb by exact Hp.
  assert (len buf = Z.of_nat (length buf)) as Hl by done.
  set (p' := Z.of_nat (i * Bn b1 + o + length buf)).
  assert (p' = m_position b + len buf) as Ep by (unfold p'; lia).
  set (b2 := set_position _ _).
  assert (m_data_size b2 = m_data_size b) as Ed by done.
  eexists. split; [reflexivity|].
  assert (forall ds, ds = Z.max (m_data_size b) p' -> wf (set_data_size ds b2)) as Wf.
  { intros ds Hds. constructor; unfold b2; cbn -[Z.mul] in *; try done; try lia.
    - by rewrite Ln.
    - unfold p'. rewrite Nat2Z.id. done. }
  assert (set_data_size (Z.max (m_data_size b) p')  b2 =
          (if m_data_size b2 <? m_position b2 then set_data_size (m_position b2) b2 else b2)) as Eb.
  { destruct (Z.ltb_spec (m_data_size b2) (m_position b2)) as [Hd|Hd]; cbn in Hd; fold p' in Hd.
    - unfold set_data_size, b2. cbn. f_equal. lia.
    - replace (m_data_size b `max` p') with (m_data_size b2) by (rewrite Ed; lia). done. }
  rewrite <- Eb. split_and!; try done.
  - by apply Wf.
  - cbn. rewrite Ep. done.
  - unfold content. cbn. rewrite Fn. fold p'. cbn. rewrite flat_app.
    replace (Z.to_nat (m_data_size b `max` p'))
      with (Z.to_nat (m_data_size b) `max` (i * Bn b1 + o + length buf))%nat by lia.
    pose proof W as []. pose proof (wf_flat_length b W) as Fl.
    pose proof (flat_length (Bn b1) (m_nodes b1) wf_uniform0) as Fl1.
    change (m_nodes b1) with (m_nodes b ++ ms) in Fl1. rewrite flat_app in Fl1.
    rewrite take_splice by (cbn in *; lia).
    rewrite (take_app_le (flat (m_nodes b))) by lia. f_equal. lia.
Qed.

(** *** [read] *)
Lemma read_spec sz b :
  wf b -> 0 <= sz <= getReadSize b ->
  exists b', read sz b = (Ok (take (Z.to_nat sz) (unread b)), b') /\ wf b' /\
    m_position b' = m_position b + sz /\ content b' = content b /\
    m_data_size b' = m_data_size b /\ m_endian b' = m_endian b /\ m_base_size b' = m_base_size b.
Proof.
  intros W Hs. unfold read. destruct (Z.eqb_spec sz 0) as [->|Hz].
  { exists b. split_and!; try done. lia. }
  pose proof W as []. unfold getReadSize in *. unwrap. unwrap_in Hs.
  replace (m_data_size b - m_position b <? sz) with false by lia.
  destruct (wf_split b W ltac:(lia)) as (i & o & Hi & Ho & Hp & Hcur & Hmod).
  pose proof (wf_Bn b W) as [HB HB0]. pose proof (wf_base_small b W).
  replace (m_base_size b =? 0) with false by lia. rewrite Hmod, Hcur.
  destruct (lookup_lt_is_Some_2 _ _ Hi) as [n Hn].
  destruct (uniform_lookup _ _ _ _ wf_uniform0 Hn) as [Hns _].
  rewrite (node_at_Some _ _ _ Hn). cbn [rbind]. rewrite Hns, Hp.
  replace (u64 (Z.of_nat (Bn b) - Z.of_nat o)) with (Z.of_nat (Bn b - o)) by (rewrite u64_small; lia).
  pose proof (read_loop_flat (Bn b) HB0 (S (length (m_nodes b))) (m_nodes b) (Z.to_nat sz) i o []) as E.
  rewrite Z2Nat.id in E by lia. rewrite E by (done || lia). clear E.
  assert (slice (i * Bn b + o) (Z.to_nat sz) (flat (m_nodes b)) = take (Z.to_nat sz) (unread b)) as ->.
  { unfold unread, content, slice. rewrite skipn_firstn_comm, take_take, Hp, Nat2Z.id. f_equal. lia. }
  eexists. split; [reflexivity|]. split_and!; try done.
  - constructor; cbn -[Z.mul]; try done; try lia. by rewrite Nat2Z.id.
  - cbn. lia.
Qed.

Lemma read_short sz b : getReadSize b < sz -> 0 < sz -> read sz b = (Throw out_of_range, b).
Proof.
  intros H1 H2. unfold read. replace (sz =? 0) with false by lia.
  by replace (getReadSize b <? sz) with true by lia.
Qed.

(** *** [read] at a position *)
Lemma slice_content b p n :
  (p + n <= Z.to_nat (m_data_size b))%nat -> slice p n (content b) = slice p n (flat (m_nodes b)).
Proof. apply take_slice. Qed.

(** Walking to the block of a position inside the chain. *)
Lemma walk_to b p :
  wf b -> 0 <= p < m_capacity b ->
  exists i o n, walk (m_nodes b) (Z.to_nat (p / m_base_size b)) (Some 0%nat) = Ok (Some i) /\
    m_nodes b !! i = Some n /\ (o < Bn b)%nat /\ p = Z.of_nat (i * Bn b + o) /\
    p mod m_base_size b = Z.of_nat o /\ (i < length (m_nodes b))%nat /\
    u64 (size n - Z.of_nat o) = Z.of_nat (Bn b - o).
Proof.
  intros W Hp. pose proof (wf_Bn b W) as [HB HB0]. pose proof (wf_base_small b W). pose proof W as [].
  pose proof (Z.div_mod p (m_base_size b) ltac:(lia)) as D.
  pose proof (Z.mod_pos_bound p (m_base_size b) ltac:(lia)).
  pose proof (Z.div_pos p (m_base_size b) ltac:(lia) ltac:(lia)).
  set (q := p / m_base_size b) in *. set (r := p mod m_base_size b) in *.
  assert (p = Z.of_nat (Z.to_nat q * Bn b + Z.to_nat r)) as E by nia.
  assert (Z.to_nat q < length (m_nodes b))%nat as Hq by nia.
  destruct (lookup_lt_is_Some_2 _ _ Hq) as [n Hn].
  destruct (uniform_lookup _ _ _ _ wf_uniform0 Hn) as [Hs _].
  exists (Z.to_nat q), (Z.to_nat r), n. split_and!; try done; try lia.
  - rewrite walk_flat by lia. done.
  - rewrite Hs. rewrite u64_small; lia.
Qed.

Lemma read_at_spec sz position b :
  wf b -> 0 <= position -> 0 <= sz -> position + sz <= m_data_size b ->
  read_at sz position b = Ok (slice (Z.to_nat position) (Z.to_nat sz) (content b)).
Proof.
  intros W Hp Hs Hr. unfold read_at. destruct (Z.eqb_spec sz 0) as [->|Hz]; [done|].
  pose proof (wf_Bn b W) as [HB HB0]. pose proof W as []. unwrap.
  replace (m_data_size b - position <? sz) with false by lia.
  replace (m_base_size b =? 0) with false by lia.
  destruct (walk_to b position W ltac:(lia)) as (i & o & n & -> & Hn & Ho & Ep & -> & Hi & Hu).
  cbn [rbind]. rewrite (node_at_Some _ _ _ Hn). cbn [rbind]. rewrite Hu, Ep.
  pose proof (read_loop_flat (Bn b) HB0 (S (length (m_nodes b))) (m_nodes b) (Z.to_nat sz) i o []) as E.
  rewrite Z2Nat.id in E by lia. rewrite E by (done || lia). cbn [rbind app].
  rewrite Nat2Z.id. rewrite slice_content by lia. done.
Qed.

(** *** [setPosition] *)
Lemma setPosition_spec v b :
  wf b -> 0 <= v < m_capacity b ->
  exists b', setPosition v b = Ok b' /\ wf b' /\ m_position b' = v /\
    m_data_size b' = Z.max (m_data_size b) v /\ m_nodes b' = m_nodes b /\
    m_endian b' = m_endian b /\ m_base_size b' = m_base_size b /\ m_capacity b' = m_capacity b.
Proof.
  intros W Hv. pose proof (wf_Bn b W) as [HB HB0]. pose proof W as [].
  unfold setPosition. replace (m_capacity b <? v) with false by lia.
  set (b1 := if _ <? _ then _ else _).
  assert (b1 = set_data_size (Z.max (m_data_size b) v) (set_position v b)) as Eb.
  { unfold b1. cbn. destruct (Z.ltb_spec (m_data_size b) v); unfold set_data_size, set_position; cbn;
      f_equal; lia. }
  rewrite Eb. clear b1 Eb. cbn [m_nodes set_data_size set_position].
  rewrite (seek_inside (Bn b) HB0); [|done|rewrite Nat.sub_0_r; lia|lia]. cbn [rbind].
  pose proof (Z.mod_pos_bound v (Z.of_nat (Bn b)) ltac:(lia)).
  pose proof (Z.div_mod v (Z.of_nat (Bn b)) ltac:(lia)).
  pose proof (Z.div_pos v (Z.of_nat (Bn b)) ltac:(lia) ltac:(lia)).
  assert (Z.to_nat (v / Z.of_nat (Bn b)) < length (m_nodes b))%nat as Hq by nia.
  rewrite Nat.add_0_l. destruct (lookup_lt_is_Some_2 _ _ Hq) as [n Hn].
  destruct (uniform_lookup _ _ _ _ wf_uniform0 Hn) as [Hs _].
  rewrite (node_at_Some _ _ _ Hn). cbn [rbind]. rewrite Hs.
  replace (v mod Z.of_nat (Bn b) =? Z.of_nat (Bn b)) with false by lia. cbn [andb].
  eexists. split; [reflexivity|]. split_and!; try done.
  constructor; cbn -[Z.mul]; try done; try lia.
  change (Bn (set_cur_node _ _)) with (Bn b). symmetry.
  replace (Z.to_nat v) with (Z.to_nat (v / Z.of_nat (Bn b)) * Bn b + Z.to_nat (v mod Z.of_nat (Bn b)))%nat by nia.
  apply cur_of_inside; lia.
Qed.

Lemma setPosition_end b : wf b -> setPosition (m_capacity b) b = Crash null_deref.
Proof.
  intros W. pose proof (wf_Bn b W) as [HB HB0]. pose proof W as [].
  unfold setPosition. replace (m_capacity b <? m_capacity b) with false by lia.
  set (b1 := if _ <? _ then _ else _).
  assert (m_nodes b1 = m_nodes b) as -> by (unfold b1; by case_match).
  pose proof (seek_end (Bn b) HB0 (S (length (m_nodes b))) (m_nodes b) 0 wf_uniform0 wf_nonempty0 ltac:(lia)) as E.
  rewrite Nat.sub_0_r, <- wf_capacity0 in E. by rewrite E.
Qed.

Lemma content_setPosition v b b' :
  wf b -> wf b' -> m_nodes b' = m_nodes b -> m_data_size b' = Z.max (m_data_size b) v ->
  content b `prefix_of` content b'.
Proof.
  intros W W' En Ed. unfold content. rewrite En, Ed. pose proof W as [].
  exists (drop (Z.to_nat (m_data_size b)) (take (Z.to_nat (m_data_size b `max` v)) (flat (m_nodes b)))).
  rewrite <- (take_drop (Z.to_nat (m_data_size b)) (take (Z.to_nat (m_data_size b `max` v)) _)) at 1.
  f_equal. rewrite take_take. f_equal. lia.
Qed.

(** *** Buffers *)
Lemma getReadBuffers_spec l b :
  wf b -> 0 <= l -> let k := Z.min l (getReadSize b) in
  exists vs, getReadBuffers l b = Ok (k, vs) /\
    gather vs (m_nodes b) = Ok (take (Z.to_nat k) (unread b)) /\
    Forall (iov_ok (Bn b) (m_nodes b)) vs /\ iov_total vs = k.
Proof.
  intros W Hl k. pose proof (wf_Bn b W) as [HB HB0]. pose proof (wf_base_small b W). pose proof W as [].
  assert (getReadSize b = m_data_size b - m_position b) as Er by (unfold getReadSize; unwrap; done).
  unfold getReadBuffers. replace (if _ <? l then _ else _) with k by (unfold k; case_match; lia).
  destruct (Z.eqb_spec k 0) as [->|Hk]; [by exists []|].
  replace (m_base_size b =? 0) with false by lia.
  destruct (wf_split b W ltac:(lia)) as (i & o & Hi & Ho & Hp & Hcur & Hmod).
  rewrite Hmod, Hcur. destruct (lookup_lt_is_Some_2 _ _ Hi) as [n Hn].
  destruct (uniform_lookup _ _ _ _ wf_uniform0 Hn) as [Hns _].
  rewrite (node_at_Some _ _ _ Hn). cbn [rbind]. rewrite Hns.
  replace (u64 (Z.of_nat (Bn b) - Z.of_nat o)) with (Z.of_nat (Bn b - o)) by (rewrite u64_small; lia).
  destruct (iovec_loop_flat (Bn b) HB0 (S (length (m_nodes b))) (m_nodes b) (Z.to_nat k) i o)
    as (vs & E & G & F & T & _); try (done || lia).
  rewrite Z2Nat.id in E, T by lia. rewrite E. cbn [rbind]. exists vs. split_and!; try done.
  rewrite G. f_equal. unfold unread, content, slice.
  rewrite skipn_firstn_comm, take_take, Hp, Nat2Z.id. f_equal. lia.
Qed.

Lemma getReadBuffers_at_spec l position b :
  wf b -> 0 <= l -> 0 <= position -> let k := Z.min l (getReadSize b) in
  position + k <= m_data_size b ->
  exists vs, getReadBuffers_at l position b = Ok (k, vs) /\
    gather vs (m_nodes b) = Ok (slice (Z.to_nat position) (Z.to_nat k) (content b)) /\
    Forall (iov_ok (Bn b) (m_nodes b)) vs /\ iov_total vs = k.
Proof.
  intros W Hl Hp k Hk. pose proof (wf_Bn b W) as [HB HB0]. pose proof W as [].
  assert (getReadSize b = m_data_size b - m_position b) as Er by (unfold getReadSize; unwrap; done).
  unfold getReadBuffers_at. replace (if _ <? l then _ else _) with k by (unfold k; case_match; lia).
  destruct (Z.eqb_spec k 0) as [->|Hk0]; [by exists []|].
  replace (m_base_size b =? 0) with false by lia.
  destruct (walk_to b position W ltac:(lia)) as (i & o & n & -> & Hn & Ho & Ep & -> & Hi & Hu).
  cbn [rbind]. rewrite (node_at_Some _ _ _ Hn). cbn [rbind]. rewrite Hu.
  destruct (iovec_loop_flat (Bn b) HB0 (S (length (m_nodes b))) (m_nodes b) (Z.to_nat k) i o)
    as (vs & E & G & F & T & _); try (done || lia).
  rewrite Z2Nat.id in E, T by lia. rewrite E. cbn [rbind]. exists vs. split_and!; try done.
  rewrite G, slice_content by lia. do 2 f_equal. lia.
Qed.

(** What [recv] stores through the vectors of [getWriteBuffers] lands at the
    cursor. *)
Lemma getWriteBuffers_spec l b :
  wf b -> 0 < l -> m_position b + l <= room b ->
  exists vs b', getWriteBuffers l b = Ok (l, vs, b') /\ wf b' /\
    m_position b' = m_position b /\ m_data_size b' = m_data_size b /\ content b' = content b /\
    m_endian b' = m_endian b /\ m_base_size b' = m_base_size b /\ m_position b + l <= m_capacity b' /\
    m_capacity b <= m_capacity b' <= Z.max (m_capacity b) (m_position b + l + m_base_size b - 1) /\
    Forall (iov_ok (Bn b') (m_nodes b')) vs /\ iov_total vs = l /\
    forall x, len x <= l -> exists ns, scatter vs x (m_nodes b') = Ok ns /\ wf (set_nodes ns b') /\
      flat ns = splice (Z.to_nat (m_position b)) x (flat (m_nodes b')).
Proof.
  intros W Hl Hr. unfold getWriteBuffers. replace (l =? 0) with false by lia.
  destruct (addCapacity_spec l b W Hl Hr) as (ms & cap & cur & E & W1 & Hcap & Hcap').
  rewrite E. cbn [rbind]. set (b1 := set_cur_node _ _) in *.
  assert (m_position b1 = m_position b) as Epos by done.
  pose proof (wf_Bn b1 W1) as [HB HB0]. pose proof (wf_base_small b1 W1). pose proof W1 as [].
  replace (m_base_size b1 =? 0) with false by lia.
  destruct (wf_split b1 W1 ltac:(lia)) as (i & o & Hi & Ho & Hp & Hcur & Hmod).
  rewrite Hmod, Hcur. destruct (lookup_lt_is_Some_2 _ _ Hi) as [n Hn].
  destruct (uniform_lookup _ _ _ _ wf_uniform0 Hn) as [Hns _].
  rewrite (node_at_Some _ _ _ Hn). cbn [rbind]. rewrite Hns.
  replace (u64 (Z.of_nat (Bn b1) - Z.of_nat o)) with (Z.of_nat (Bn b1 - o)) by (rewrite u64_small; lia).
  destruct (iovec_loop_flat (Bn b1) HB0 (S (length (m_nodes b1))) (m_nodes b1) (Z.to_nat l) i o)
    as (vs & El & G & F & T & Sc); try (done || lia).
  rewrite Z2Nat.id in El, T by lia. rewrite El. cbn [rbind].
  exists vs, b1. split_and!; try done; try lia.
  - unfold content. change (m_nodes b1) with (m_nodes b ++ ms). rewrite flat_app.
    pose proof (wf_flat_length b W). destruct W. apply take_app_le.
    change (m_data_size b1) with (m_data_size b). lia.
  - intros x Lx. destruct (Sc x (m_nodes b1)) as (ns & E' & U & L & Fl); try done; [unfold len in *; lia|].
    exists ns. split_and!; [done| |rewrite Fl; do 2 f_equal; lia].
    constructor; cbn -[Z.mul]; rewrite ?L; try done.
Qed.

(** *** [clear], [toString], files *)
Lemma clear_spec b : wf b -> wf (clear b) /\ content (clear b) = [] /\ getReadSize (clear b) = 0.
Proof.
  intros W. pose proof (wf_Bn b W) as [HB HB0]. pose proof (wf_base_small b W). pose proof W as [].
  split_and!; [|done|done].
  assert (length (take 1 (m_nodes b)) = 1%nat) as L1 by (rewrite length_take; lia).
  constructor; cbn -[Z.mul take]; try lia.
  - by apply Forall_take.
  - rewrite L1. change (Bn (clear b)) with (Bn b). lia.
  - rewrite L1. change (Bn (clear b)) with (Bn b). unfold cur_of.
    replace (Z.to_nat 0 <? 1 * Bn b)%nat with true by lia. by rewrite Nat.Div0.div_0_l.
Qed.

Lemma toString_spec b : wf b -> toString b = Ok (unread b).
Proof.
  intros W. unfold toString. pose proof (wf_unread_length b W) as L. pose proof W as [].
  assert (getReadSize b = m_data_size b - m_position b) as Er by (unfold getReadSize; unwrap; done).
  destruct (Z.eqb_spec (getReadSize b) 0) as [E|E].
  - destruct (unread b); [done|]. unfold len in L. simpl in L. lia.
  - rewrite read_at_spec by (done || lia). f_equal. unfold slice.
    change (drop (Z.to_nat (m_position b)) (content b)) with (unread b).
    apply take_ge. unfold len in L. lia.
Qed.

Lemma file_loop_spec fuel : forall b k i o,
  wf b -> m_base_size b <= 2 ^ 31 -> (i < length (m_nodes b))%nat -> (o < Bn b)%nat ->
  (i * Bn b + o + k <= length (m_nodes b) * Bn b)%nat -> (S (length (m_nodes b)) < fuel + i)%nat ->
  file_loop fuel b (Z.of_nat k) (Z.of_nat (i * Bn b + o)) (Some i) =
    Ok (slice (i * Bn b + o) k (flat (m_nodes b))).
Proof.
  induction fuel as [|fuel IH]; intros b k i o W H31 Hi Ho Hr Hf; [lia|].
  pose proof (wf_Bn b W) as [HB HB0]. pose proof W as [].
  cbn [file_loop]. destruct (Z.leb_spec (Z.of_nat k) 0) as [Hk|Hk].
  { assert (k = 0%nat) as -> by lia. done. }
  destruct (lookup_lt_is_Some_2 _ _ Hi) as [n Hn]. rewrite (node_at_Some _ _ _ Hn). cbn [rbind].
  unwrap. rewrite <- HB.
  replace (Z.of_nat (i * Bn b + o) mod Z.of_nat (Bn b)) with (Z.of_nat o).
  2:{ rewrite <- Nat2Z.inj_mod. f_equal. rewrite Nat.add_comm, Nat.Div0.mod_add, Nat.mod_small; lia. }
  replace (s32 (Z.of_nat o)) with (Z.of_nat o) by (symmetry; apply sint_small; cbn; lia).
  destruct (decide (k <= Bn b - o)%nat) as [Hle|Hgt].
  - replace (Z.min (Z.of_nat (Bn b) - Z.of_nat o) (Z.of_nat k)) with (Z.of_nat k) by lia.
    rewrite (copy_out_flat (Bn b) _ _ n) by (done || lia). cbn [rbind].
    rewrite Z.sub_diag. destruct fuel; [lia|]. cbn. by rewrite app_nil_r.
  - replace (Z.min (Z.of_nat (Bn b) - Z.of_nat o) (Z.of_nat k)) with (Z.of_nat (Bn b - o)) by lia.
    rewrite (copy_out_flat (Bn b) _ _ n) by (done || lia). cbn [rbind].
    assert (S i < length (m_nodes b))%nat as Hi' by nia. rewrite next_Some by done.
    replace (Z.of_nat k - Z.of_nat (Bn b - o)) with (Z.of_nat (k - (Bn b - o))) by lia.
    replace (Z.of_nat (i * Bn b + o) + Z.of_nat (Bn b - o)) with (Z.of_nat (S i * Bn b + 0)) by lia.
    specialize (IH b (k - (Bn b - o))%nat (S i) 0%nat). rewrite IH by (done || lia). cbn [rbind].
    replace (S i * Bn b + 0)%nat with (i * Bn b + o + (Bn b - o))%nat by lia.
    rewrite slice_slice. do 2 f_equal. lia.
Qed.

Lemma writeToFile_spec b :
  wf b -> m_base_size b <= 2 ^ 31 -> m_capacity b < 2 ^ 63 ->
  writeToFile true b = Ok (true, unread b).
Proof.
  intros W H31 H63. pose proof (wf_unread_length b W) as L. pose proof W as [].
  pose proof (wf_Bn b W) as [HB HB0].
  assert (getReadSize b = m_data_size b - m_position b) as Er by (unfold getReadSize; unwrap; done).
  unfold writeToFile. cbn [negb]. replace (m_base_size b =? 0) with false by lia. rewrite andb_false_r.
  replace (s64 (getReadSize b)) with (getReadSize b) by (symmetry; apply sint_small; cbn; lia).
  replace (s64 (m_position b)) with (m_position b) by (symmetry; apply sint_small; cbn; lia).
  destruct (decide (m_position b = m_data_size b)) as [E|E].
  - replace (getReadSize b) with 0 by lia. cbn. destruct (unread b); [done|].
    unfold len in L. simpl in L. lia.
  - destruct (wf_split b W ltac:(lia)) as (i & o & Hi & Ho & Hp & Hcur & _).
    rewrite Hcur, Hp, Er. replace (m_data_size b - m_position b) with (Z.of_nat (Z.to_nat (m_data_size b - m_position b))) by lia.
    rewrite file_loop_spec by (done || lia). cbn [rbind]. do 2 f_equal.
    unfold unread, content, slice. rewrite skipn_firstn_comm, Hp, Nat2Z.id. f_equal. lia.
Qed.

Lemma slurp_spec fuel : forall f b,
  wf b -> m_position b = m_data_size b -> m_position b + len f <= room b -> (length f < fuel)%nat ->
  exists b', slurp fuel f b = Ok b' /\ wf b' /\ content b' = content b ++ f /\
    m_position b' = m_data_size b'.
Proof.
  induction fuel as [|fuel IH]; intros f b W Hp Hr Hf; [lia|]. cbn [slurp].
  pose proof (wf_base b W). set (chunk := take _ f).
  assert (len chunk = Z.min (m_base_size b) (len f)) as Lc.
  { unfold chunk, len. rewrite length_take. lia. }
  destruct (write_spec chunk b W ltac:(lia)) as (b' & E & W' & Hp' & Hd' & Hc' & _ & Hb').
  rewrite E. cbn [rbind].
  assert (content b' = content b ++ chunk) as Hc.
  { rewrite Hc', Hp. pose proof (wf_content_length b W) as L. unfold splice.
    rewrite take_ge, drop_ge by (unfold len in L; lia). by rewrite app_nil_r. }
  assert (m_position b' = m_data_size b') as Hpd by (unfold len in *; lia).
  destruct (Z.ltb_spec (len chunk) (m_base_size b)) as [Hlt|Hge].
  - exists b'. split_and!; try done. rewrite Hc. f_equal. apply take_ge. unfold len in *. lia.
  - destruct (IH (drop (Z.to_nat (m_base_size b)) f) b') as (b2 & E2 & W2 & C2 & P2).
    + done.
    + done.
    + unfold room in *. rewrite Hb'. unfold len in *. rewrite length_drop. lia.
    + rewrite length_drop. unfold len in *. lia.
    + exists b2. split_and!; try done. rewrite C2, Hc, <- app_assoc. unfold chunk. by rewrite take_drop.
Qed.

Lemma wf_content_eq b : wf b -> content b = take (Z.to_nat (m_position b)) (content b) ++ unread b.
Proof. intros. unfold unread. by rewrite take_drop. Qed.
End operations.

(** ** The contract of [ByteArray] *)

Section contract.
Context `{Host} `{Heap}.

(** C21: [write] overwrites the flat content at the cursor (extending it past the
    end), advances the cursor by the length written, keeps the representation
    invariant, and never walks off the chain. *)
Theorem ByteArray_write_refines (b : ByteArray) (buf : list byte)
    (W : wf b) (R : m_position b + len buf <= room b) :
  exists b', write buf b = Ok b' /\ wf b' /\
    content b' = splice (Z.to_nat (m_position b)) buf (content b) /\
    m_position b' = m_position b + len buf /\
    m_data_size b' = Z.max (m_data_size b) (m_position b + len buf) /\
    m_endian b' = m_endian b.
Proof. destruct (write_spec buf b W R) as (b' & ? & ? & ? & ? & ? & ? & ?). eauto 10. Qed.

(** C22: [read] returns exactly the bytes at the cursor and advances past them; when
    fewer are left it throws [out_of_range] and leaves the array as it was. *)
Theorem ByteArray_read_refines (b : ByteArray) (sz : Z) (W : wf b) (P : 0 <= sz) :
  if sz <=? getReadSize b
  then exists b', read sz b = (Ok (slice (Z.to_nat (m_position b)) (Z.to_nat sz) (content b)), b') /\
         wf b' /\ content b' = content b /\ m_position b' = m_position b + sz
  else read sz b = (Throw out_of_range, b).
Proof.
  destruct (Z.leb_spec sz (getReadSize b)).
  - destruct (read_spec sz b W ltac:(done)) as (b' & ? & ? & ? & ? & _). eauto 10.
  - apply read_short; [done|]. pose proof (wf_unread_length b W). unfold len in *. lia.
Qed.

(** what was written at a position is read back from it, through the cursor
    moved back by [setPosition] and through the positioned [read], however the
    bytes straddle the blocks. *)
Theorem ByteArray_write_read_back (b : ByteArray) (buf : list byte)
    (W : wf b) (N : buf <> []) (R : m_position b + len buf <= room b) :
  exists b1 b2, write buf b = Ok b1 /\ read_at (len buf) (m_position b) b1 = Ok buf /\
    setPosition (m_position b) b1 = Ok b2 /\ fst (read (len buf) b2) = Ok buf.
Proof.
  assert (0 < len buf) by (destruct buf; [done|unfold len; simpl; lia]).
  destruct (write_spec buf b W R) as (b1 & E1 & W1 & P1 & D1 & C1 & _).
  pose proof (wf_position b W) as Pb. pose proof (wf_content_length b W) as Lc.
  pose proof (wf_data_size b1 W1).
  assert (slice (Z.to_nat (m_position b)) (Z.to_nat (len buf)) (content b1) = buf) as S.
  { rewrite C1. unfold slice, splice, len in *. rewrite Nat2Z.id.
    rewrite drop_app_length' by (rewrite length_take; lia). apply take_app_length. }
  destruct (setPosition_spec (m_position b) b1 W1) as (b2 & E2 & W2 & P2 & D2 & N2 & _); [lia|].
  assert (content b2 = content b1) as C2.
  { unfold content. rewrite N2, D2. do 2 f_equal. lia. }
  destruct (read_spec (len buf) b2 W2) as (b3 & E3 & _).
  { rewrite <- (wf_unread_length b2 W2). unfold unread. rewrite C2, P2.
    pose proof (wf_content_length b1 W1). unfold len in *. rewrite length_drop. lia. }
  exists b1, b2. split_and!; [done| |done|].
  - rewrite read_at_spec; [by rewrite S|done|lia..].
  - rewrite E3. simpl. f_equal. unfold unread. by rewrite C2, P2.
Qed.

(** [setPosition] on its three ranges: inside the chain it moves the cursor and
    keeps the data (growing the data size over indeterminate bytes when needed);
    beyond the capacity it throws [out_of_range]; exactly at the capacity, which
    the guard accepts, it dereferences the null [next] of the last block. *)
Theorem ByteArray_setPosition (b : ByteArray) (v : Z) (W : wf b) (P : 0 <= v) :
  (v < m_capacity b -> exists b', setPosition v b = Ok b' /\ wf b' /\ m_position b' = v /\
    m_data_size b' = Z.max (m_data_size b) v /\ content b `prefix_of` content b') /\
  (v = m_capacity b -> setPosition v b = Crash null_deref) /\
  (m_capacity b < v -> setPosition v b = Throw out_of_range).
Proof.
  split_and!.
  - intros Hv. destruct (setPosition_spec v b W ltac:(lia)) as (b' & E & W' & P' & D' & N' & _).
    exists b'. split_and!; try done. by eapply content_setPosition.
  - intros ->. by apply setPosition_end.
  - intros Hv. unfold setPosition. by replace (m_capacity b <? v) with true by lia.
Qed.

(** the vectors of [getReadBuffers] lie inside the blocks, add up to the size
    returned, and gather exactly the next bytes to read. *)
Theorem ByteArray_getReadBuffers (b : ByteArray) (l : Z) (W : wf b) (P : 0 <= l) :
  exists k vs, getReadBuffers l b = Ok (k, vs) /\ k = Z.min l (getReadSize b) /\
    Forall (iov_ok (Bn b) (m_nodes b)) vs /\ iov_total vs = k /\
    gather vs (m_nodes b) = Ok (take (Z.to_nat l) (unread b)).
Proof.
  destruct (getReadBuffers_spec l b W P) as (vs & E & G & F & T).
  do 2 eexists. split_and!; try done. rewrite G. f_equal.
  pose proof (wf_unread_length b W) as L. unfold len in L.
  destruct (decide (l <= getReadSize b)); [f_equal; lia|].
  rewrite !take_ge by lia. done.
Qed.

(** the positioned [read] does not check that [position] is inside the data:
    past the capacity its size test underflows and the walk runs off the chain,
    where the documentation promises [out_of_range]. *)
Theorem ByteArray_read_at_past_end (b : ByteArray) (sz position : Z)
    (W : wf b) (P : m_capacity b <= position < 2 ^ 64)
    (S : 0 < sz <= 2 ^ 64 - (position - m_data_size b)) (D : m_data_size b < position) :
  read_at sz position b = Crash null_deref.
Proof.
  pose proof (wf_Bn b W) as [HB HB0]. pose proof W as [].
  unfold read_at. replace (sz =? 0) with false by lia.
  replace (u64 (m_data_size b - position)) with (2 ^ 64 + (m_data_size b - position)).
  2:{ unfold u64. rewrite <- (Z.mod_add (m_data_size b - position) 1 (2 ^ 64)) by lia.
      rewrite Z.mod_small; lia. }
  replace (_ <? sz) with false by lia. replace (m_base_size b =? 0) with false by lia.
  assert (Z.of_nat (length (m_nodes b)) <= position / m_base_size b) as Hq.
  { apply Z.div_le_lower_bound; [lia|]. rewrite <- HB. lia. }
  pose proof (walk_end (Z.to_nat (position / m_base_size b)) (m_nodes b) 0 wf_nonempty0 ltac:(lia)) as E.
  destruct (walk _ _ _) as [cur| |]; simpl in *; [|done|congruence]. by rewrite E.
Qed.

(** a file written from an array and read into an empty one reproduces the
    unread bytes, in whatever pieces the two block sizes cut them. *)
Theorem ByteArray_file_roundtrip (b : ByteArray) (base : Z)
    (W : wf b) (S : m_base_size b <= 2 ^ 31) (C : m_capacity b < 2 ^ 63)
    (Q : 0 < base <= 2 ^ 31) :
  exists file b', writeToFile true b = Ok (true, file) /\
    readFromFile (Some file) (new_ByteArray base) = Ok (true, b') /\
    content b' = unread b.
Proof.
  exists (unread b). rewrite writeToFile_spec by done.
  destruct (slurp_spec (Datatypes.S (length (unread b))) (unread b) (new_ByteArray base)) as (b' & E & _ & C' & _).
  - apply wf_new. lia.
  - done.
  - rewrite (wf_unread_length b W). pose proof W as []. unfold getReadSize. unwrap.
    unfold room. cbn [m_position m_base_size new_ByteArray]. lia.
  - lia.
  - exists b'. split_and!; [done|unfold readFromFile; by rewrite E|by rewrite C'].
Qed.
End contract.

(** ** Histories of an array *)

Section histories.
Context `{Host} `{Heap}.

(** The operations a client performs: each step is one call that returns. *)
Inductive step (b : ByteArray) : ByteArray -> Prop :=
  | step_write buf b' :
      m_position b + len buf <= room b -> write buf b = Ok b' -> step b b'
  | step_read sz x b' : 0 <= sz -> read sz b = (x, b') -> step b b'
  | step_setPosition v b' : 0 <= v -> setPosition v b = Ok b' -> step b b'
  | step_clear : step b (clear b)
  | step_endian val : step b (setIsLittleEndian val b)
  | step_recv l k vs b' x ns :
      0 <= l -> m_position b + l <= room b -> getWriteBuffers l b = Ok (k, vs, b') ->
      len x <= k -> scatter vs x (m_nodes b') = Ok ns -> step b (set_nodes ns b').

Inductive reachable (base : Z) : ByteArray -> Prop :=
  | reachable_new : reachable base (new_ByteArray base)
  | reachable_step b b' : reachable base b -> step b b' -> reachable base b'.

Lemma step_wf b b' : wf b -> step b b' -> wf b'.
Proof.
  intros W [buf b'' R E|sz x b'' P E|v b'' P E| |val|l k vs b'' x ns P R E L Sc].
  - destruct (write_spec buf b W R) as (? & E' & ? & _). congruence.
  - destruct (decide (sz <= getReadSize b)) as [Hle|Hgt].
    + destruct (read_spec sz b W ltac:(done)) as (? & E' & ? & _). congruence.
    + pose proof (wf_unread_length b W). unfold len in *.
      rewrite read_short in E by lia. congruence.
  - destruct (decide (v < m_capacity b)) as [Hv|Hv].
    + destruct (setPosition_spec v b W ltac:(done)) as (? & E' & ? & _). congruence.
    + destruct (decide (v = m_capacity b)) as [->|].
      * by rewrite setPosition_end in E.
      * unfold setPosition in E. by replace (m_capacity b <? v) with true in E by lia.
  - by apply clear_spec.
  - destruct W. by constructor.
  - destruct (decide (l = 0)) as [->|Hl].
    + cbn in E. injection E as <- <- <-. cbn in Sc. injection Sc as <-. by destruct b, W.
    + destruct (getWriteBuffers_spec l b W ltac:(lia) R) as (vs' & b1 & E' & W1 & _ & _ & _ & _ & _ & _ & _ & _ & _ & Hs).
      rewrite E in E'. injection E' as -> -> ->. destruct (Hs x L) as (ns' & Sc' & W' & _).
      rewrite Sc in Sc'. by injection Sc' as ->.
Qed.

(** C23: every array a client can reach from the constructor satisfies the
    representation invariant. *)
Theorem ByteArray_reachable_wf (base : Z) (b : ByteArray) (P : 0 < base < 2 ^ 64) (R : reachable base b) :
  wf b.
Proof. induction R; [by apply wf_new|by eapply step_wf]. Qed.
End histories.

(** ** The theorems at concrete arrays: blocks of four bytes *)

Section witnesses.
#[local] Existing Instance zero_heap.

Let b4 : ByteArray := new_ByteArray 4.
Let ten : list byte := bstr "0123456789".

Lemma b4_wf : wf b4.
Proof. apply wf_new. lia. Qed.

Lemma b4_filled : exists b, write ten b4 = Ok b /\ wf b /\ content b = ten /\ m_position b = 10 /\
  m_capacity b = 12 /\ m_data_size b = 10.
Proof.
  destruct (write_spec ten b4 b4_wf ltac:(vm_compute; congruence)) as (b & E & W & P & D & C & _).
  exists b. split_and!; try done.
  assert (write ten b4 = Ok b) as E' by done. vm_compute in E'. injection E' as <-. reflexivity.
Qed.

Lemma ByteArray_write_refines_witness :
  exists b', write ten b4 = Ok b' /\ content b' = ten /\ m_position b' = 10.
Proof.
  destruct (ByteArray_write_refines b4 ten b4_wf ltac:(vm_compute; congruence))
    as (b' & E & _ & C & P & _).
  exists b'. split_and!; [exact E | exact C | exact P].
Defined.

Lemma ByteArray_read_refines_witness :
  read 1 b4 = (Throw out_of_range, b4).
Proof. exact (ByteArray_read_refines b4 1 b4_wf ltac:(lia)). Defined.

Lemma ByteArray_write_read_back_witness :
  exists b1 b2, write ten b4 = Ok b1 /\ read_at 10 0 b1 = Ok ten /\
    setPosition 0 b1 = Ok b2 /\ fst (read 10 b2) = Ok ten.
Proof. exact (ByteArray_write_read_back b4 ten b4_wf ltac:(discriminate) ltac:(vm_compute; congruence)). Defined.

Lemma ByteArray_setPosition_witness :
  setPosition 4 b4 = Crash null_deref /\ setPosition 5 b4 = Throw out_of_range.
Proof.
  split.
  - apply (ByteArray_setPosition b4 4 b4_wf ltac:(lia)). reflexivity.
  - apply (ByteArray_setPosition b4 5 b4_wf ltac:(lia)). reflexivity.
Defined.

Lemma ByteArray_getReadBuffers_witness :
  exists k vs, getReadBuffers 7 b4 = Ok (k, vs) /\ k = 0.
Proof.
  destruct (ByteArray_getReadBuffers b4 7 b4_wf ltac:(lia)) as (k & vs & E & K & _).
  exists k, vs. split; [exact E | exact K].
Defined.

Lemma ByteArray_read_at_past_end_witness : read_at 1 4 b4 = Crash null_deref.
Proof.
  apply (ByteArray_read_at_past_end b4 1 4 b4_wf); vm_compute; intuition congruence.
Defined.

Lemma ByteArray_file_roundtrip_witness :
  exists b file b', write ten b4 = Ok b /\ writeToFile true b = Ok (true, file) /\
    readFromFile (Some file) (new_ByteArray 3) = Ok (true, b').
Proof.
  destruct b4_filled as (b & E & W & _ & _ & C & _).
  assert (m_base_size b = 4) as B by (vm_compute in E; by injection E as <-).
  destruct (ByteArray_file_roundtrip b 3 W ltac:(rewrite B; lia) ltac:(rewrite C; lia) ltac:(lia))
    as (file & b' & F & R & _).
  exists b, file, b'. split_and!; [exact E | exact F | exact R].
Defined.

Lemma ByteArray_reachable_wf_witness : wf (clear b4).
Proof.
  apply (ByteArray_reachable_wf 4); [lia|]. eapply reachable_step; [apply reachable_new|apply step_clear].
Defined.
End witnesses.
