(* ===== verification/Codec.v ===== *)
(** The typed readers and writers of [ByteArray] (src/net/byte_array.cpp):
    fixed-width integers in either byte order, zigzag and variable-length
    integers, floating-point words and length-prefixed strings.

    They are written against the interface [Buffer], the part of [ByteArray]
    they use, and proved against its laws [BufferLaws]; the instance at the end
    discharges the laws for the chain of blocks. *)
From S2P Require Import Prelude Endian ByteArray ByteArraySpec.

(** ** The interface *)

Class Buffer (B : Type) := {
  buf_write : list byte -> st B unit;
  buf_read : Z -> st B (list byte);
  buf_endian : B -> endian;
}.

(** The abstract state: what precedes the cursor, what follows it, the byte
    order, and the bound on the position. *)
Record view := mkView { v_before : list byte; v_rest : list byte; v_endian : endian; v_limit : Z }.

Definition view_write (x : list byte) (v : view) : view :=
  mkView (v_before v ++ x) (drop (length x) (v_rest v)) (v_endian v) (v_limit v).

Definition view_skip (n : nat) (v : view) : view :=
  mkView (v_before v ++ take n (v_rest v)) (drop n (v_rest v)) (v_endian v) (v_limit v).

Class BufferLaws (B : Type) `{Buffer B} := {
  buf_view : B -> view -> Prop;
  buf_endian_law b v : buf_view b v -> buf_endian b = v_endian v;
  buf_write_law x b v :
    buf_view b v -> len (v_before v) + len x <= v_limit v ->
    exists b', buf_write x b = (Ok tt, b') /\ buf_view b' (view_write x v);
  buf_read_law n b v :
    buf_view b v -> 0 <= n <= len (v_rest v) ->
    exists b', buf_read n b = (Ok (take (Z.to_nat n) (v_rest v)), b') /\ buf_view b' (view_skip (Z.to_nat n) v);
  buf_short_law n b v :
    buf_view b v -> len (v_rest v) < n -> buf_read n b = (Throw out_of_range, b);
}.

(** ** Pure encodings *)

(** [EncodeZigzag32]: negating [INT32_MIN] overflows [int32_t]. *)
Definition EncodeZigzag32 (v : Z) : res Z :=
  if v <? 0 then
    if v =? - 2 ^ 31 then Crash signed_overflow else Ok (u32 (u32 (- v) * 2 - 1))
  else Ok (u32 (u32 v * 2)).

Definition EncodeZigzag64 (v : Z) : res Z :=
  if v <? 0 then
    if v =? - 2 ^ 63 then Crash signed_overflow else Ok (u64 (u64 (- v) * 2 - 1))
  else Ok (u64 (u64 v * 2)).

Definition DecodeZigzag32 (v : Z) : Z := s32 (Z.lxor (Z.shiftr v 1) (u32 (- Z.land v 1))).
Definition DecodeZigzag64 (v : Z) : Z := s64 (Z.lxor (Z.shiftr v 1) (u64 (- Z.land v 1))).

(** The bytes [writeUint32] and [writeUint64] collect in [tmp]; [slots] is the
    room left in that array, past which the code would write out of bounds. *)
Fixpoint varint_tmp (slots : nat) (value : Z) : res (list byte) :=
  match slots with
  | O => Crash out_of_bounds
  | S slots =>
      if 0x80 <=? value then
        let! l := varint_tmp slots (Z.shiftr value 7) in
        Ok (z2b (Z.lor (Z.land value 0x7F) 0x80) :: l)
      else Ok [z2b value]
  end.

(** libstdc++'s bound on the size of a [std::string]: [resize] beyond it throws. *)
Definition string_max_size : Z := 2 ^ 62 - 1.

(** ** Writers *)

Section writers.
Context `{Host} {B : Type} `{Buffer B}.

Definition writeFint8 (value : Z) : st B unit := buf_write (to_mem 1 value).
Definition writeFuint8 (value : Z) : st B unit := buf_write (to_mem 1 value).

(** The macro [XX] of the fixed-width writers, at [n] bytes. *)
Definition write_fixed (n : nat) (value : Z) : st B unit := fun b =>
  buf_write (to_mem n (if decide (CIM_BYTE_ORDER = buf_endian b) then value else byteswap n value)) b.

Definition writeFint16 (value : Z) : st B unit := write_fixed 2 value.
Definition writeFuint16 (value : Z) : st B unit := write_fixed 2 value.
Definition writeFint32 (value : Z) : st B unit := write_fixed 4 value.
Definition writeFuint32 (value : Z) : st B unit := write_fixed 4 value.
Definition writeFint64 (value : Z) : st B unit := write_fixed 8 value.
Definition writeFuint64 (value : Z) : st B unit := write_fixed 8 value.

(** A computation without effect on the buffer. *)
Definition spure {S A} (r : res A) : st S A := fun s => (r, s).

Definition writeUint32 (value : Z) : st B unit :=
  let* tmp := spure (varint_tmp 5 value) in buf_write tmp.
Definition writeUint64 (value : Z) : st B unit :=
  let* tmp := spure (varint_tmp 10 value) in buf_write tmp.
Definition writeInt32 (value : Z) : st B unit :=
  let* v := spure (EncodeZigzag32 value) in writeUint32 v.
Definition writeInt64 (value : Z) : st B unit :=
  let* v := spure (EncodeZigzag64 value) in writeUint64 v.

(** A [float] or [double] is given by its bit pattern. *)
Definition writeFloat (bits : Z) : st B unit := writeFuint32 bits.
Definition writeDouble (bits : Z) : st B unit := writeFuint64 bits.

Definition writeStringF16 (value : list byte) : st B unit :=
  let* _ := writeFuint16 (u16 (len value)) in buf_write value.
Definition writeStringF32 (value : list byte) : st B unit :=
  let* _ := writeFuint32 (u32 (len value)) in buf_write value.
Definition writeStringF64 (value : list byte) : st B unit :=
  let* _ := writeFuint64 (len value) in buf_write value.
Definition writeStringVint (value : list byte) : st B unit :=
  let* _ := writeUint64 (len value) in buf_write value.
Definition writeStringWithoutLength (value : list byte) : st B unit := buf_write value.
End writers.

(** ** Readers *)

Section readers.
Context `{Host} {B : Type} `{Buffer B}.

Definition readFuint8 : st B Z := let* x := buf_read 1 in sret (of_mem x).
Definition readFint8 : st B Z := let* x := buf_read 1 in sret (sint 8 (of_mem x)).

(** The macro [XX] of the fixed-width readers, at [n] bytes; [conv] converts
    the object representation to the type. *)
Definition read_fixed (n : nat) (conv : Z -> Z) : st B Z := fun b =>
  (let* x := buf_read (Z.of_nat n) in
   sret (conv (if decide (CIM_BYTE_ORDER = buf_endian b) then of_mem x else byteswap n (of_mem x)))) b.

Definition readFint16 : st B Z := read_fixed 2 (sint 16).
Definition readFuint16 : st B Z := read_fixed 2 u16.
Definition readFint32 : st B Z := read_fixed 4 (sint 32).
Definition readFuint32 : st B Z := read_fixed 4 u32.
Definition readFint64 : st B Z := read_fixed 8 (sint 64).
Definition readFuint64 : st B Z := read_fixed 8 u64.

(** The loop of [readUint32] ([w] = 32) and [readUint64] ([w] = 64). *)
Fixpoint readUint_loop (fuel : nat) (w i result : Z) : st B Z :=
  match fuel with
  | O => spure (Crash nontermination)
  | S fuel =>
      if i <? w then
        let* b := readFuint8 in
        if b <? 0x80 then sret (Z.lor result (Z.shiftl b i mod 2 ^ w))
        else readUint_loop fuel w (i + 7) (Z.lor result (Z.shiftl (Z.land b 0x7F) i mod 2 ^ w))
      else sret result
  end.

Definition readUint32 : st B Z := readUint_loop 6 32 0 0.
Definition readUint64 : st B Z := readUint_loop 11 64 0 0.
Definition readInt32 : st B Z := let* v := readUint32 in sret (DecodeZigzag32 v).
Definition readInt64 : st B Z := let* v := readUint64 in sret (DecodeZigzag64 v).

Definition readFloat : st B Z := readFuint32.
Definition readDouble : st B Z := readFuint64.

(** [buffer.resize(len); read(&buffer[0], len)]. *)
Definition read_sized (l : Z) : st B (list byte) :=
  if string_max_size <? l then sthrow length_error else buf_read l.

Definition readString16 : st B (list byte) := let* l := readFuint16 in read_sized l.
Definition readString32 : st B (list byte) := let* l := readFuint32 in read_sized l.
Definition readString64 : st B (list byte) := let* l := readFuint64 in read_sized l.
Definition readStringVint : st B (list byte) := let* l := readUint64 in read_sized l.
End readers.
