(* ===== verification/CodecSpec.v ===== *)
(** Round trips of the typed readers and writers against [BufferLaws], and the
    instance of the laws for the chain of blocks. *)
From S2P Require Import Prelude Endian ByteArray ByteArraySpec Codec.

(** ** Specifications of buffer programs *)

Section specs.
Context `{BufferLaws B}.

(** [m] appends the bytes [f e] at the cursor of a buffer of byte order [e]. *)
Definition writes (m : st B unit) (f : endian -> list byte) : Prop :=
  forall b v, buf_view b v -> len (v_before v) + len (f (v_endian v)) <= v_limit v ->
  exists b', m b = (Ok tt, b') /\ buf_view b' (view_write (f (v_endian v)) v).

(** [m] consumes the bytes [f e] from the cursor and returns [a]. *)
Definition reads {A} (m : st B A) (f : endian -> list byte) (a : A) : Prop :=
  forall b v r, buf_view b v -> v_rest v = f (v_endian v) ++ r ->
  exists b', m b = (Ok a, b') /\
    buf_view b' (mkView (v_before v ++ f (v_endian v)) r (v_endian v) (v_limit v)).

Lemma writes_ext m m' f : (forall b, m b = m' b) -> writes m f -> writes m' f.
Proof. intros E W b v V L. rewrite <- E. eauto. Qed.

Lemma reads_eq {A} (m : st B A) f a a' : a = a' -> reads m f a -> reads m f a'.
Proof. by intros ->. Qed.

Lemma writes_raw x : writes (buf_write x) (fun _ => x).
Proof. intros b v V L. by apply buf_write_law. Qed.

Lemma writes_seq m k f g :
  writes m f -> writes k g -> writes (let* _ := m in k) (fun e => f e ++ g e).
Proof.
  intros Wm Wk b v V L. assert (len (f (v_endian v) ++ g (v_endian v)) =
    len (f (v_endian v)) + len (g (v_endian v))) as E by len_lia. rewrite E in L.
  pose proof (Nat2Z.is_nonneg (length (g (v_endian v)))).
  destruct (Wm b v V ltac:(unfold len in *; lia)) as (b1 & E1 & V1).
  destruct (Wk b1 _ V1) as (b2 & E2 & V2).
  { simpl. len_lia. }
  exists b2. rewrite (sbind_ok _ _ _ _ _ E1). split; [done|].
  unfold view_write in *. simpl in *. rewrite <- app_assoc, drop_drop in V2.
  by rewrite length_app.
Qed.

Lemma writes_pure (r : res (list byte)) x :
  r = Ok x -> writes (let* t := spure r in buf_write t) (fun _ => x).
Proof. intros -> b v V L. by apply buf_write_law. Qed.

Lemma reads_ret {A} (a : A) : reads (sret a) (fun _ => []) a.
Proof.
  intros b [bf r0 e l] r V E. simpl in *. subst. exists b. split; [done|]. by rewrite app_nil_r.
Qed.

Lemma reads_bind {A C} (m : st B A) (k : A -> st B C) f g a c :
  reads m f a -> reads (k a) g c -> reads (let* x := m in k x) (fun e => f e ++ g e) c.
Proof.
  intros Rm Rk b v r V E. rewrite <- app_assoc in E.
  destruct (Rm b v _ V E) as (b1 & E1 & V1).
  destruct (Rk b1 _ r V1 eq_refl) as (b2 & E2 & V2).
  exists b2. rewrite (sbind_ok _ _ _ _ _ E1). split; [done|]. simpl in V2.
  by rewrite app_assoc.
Qed.

Lemma reads_map {A C} (m : st B A) (k : A -> C) f a :
  reads m f a -> reads (let* x := m in sret (k x)) f (k a).
Proof.
  intros Rm b v r V E. destruct (Rm b v _ V E) as (b1 & E1 & V1).
  exists b1. by rewrite (sbind_ok _ _ _ _ _ E1).
Qed.

Lemma reads_raw n x : n = len x -> reads (buf_read n) (fun _ => x) x.
Proof.
  intros -> b v r V E. destruct (buf_read_law (len x) b v V) as (b' & E' & V').
  { rewrite E. len_lia. }
  unfold view_skip in V'. rewrite E in E', V'. unfold len in *.
  rewrite Nat2Z.id, take_app_length in E'. rewrite Nat2Z.id, take_app_length, drop_app_length in V'.
  eauto.
Qed.

(** Reading past the data leaves the buffer as it is. *)
Lemma reads_short n b v :
  buf_view b v -> len (v_rest v) < n -> buf_read n b = (Throw out_of_range, b).
Proof. apply buf_short_law. Qed.
End specs.

#[export] Hint Resolve writes_raw writes_seq reads_ret reads_raw : cim.

(** ** Zigzag *)

Lemma zigzag32_enc v : - 2 ^ 31 < v < 2 ^ 31 ->
  EncodeZigzag32 v = Ok (if v <? 0 then -2 * v - 1 else 2 * v).
Proof.
  intros Hv. unfold EncodeZigzag32. destruct (Z.ltb_spec v 0).
  - replace (v =? - 2 ^ 31) with false by lia. unwrap. f_equal. lia.
  - unwrap. f_equal. lia.
Qed.

Lemma zigzag64_enc v : - 2 ^ 63 < v < 2 ^ 63 ->
  EncodeZigzag64 v = Ok (if v <? 0 then -2 * v - 1 else 2 * v).
Proof.
  intros Hv. unfold EncodeZigzag64. destruct (Z.ltb_spec v 0).
  - replace (v =? - 2 ^ 63) with false by lia. unwrap. f_equal. lia.
  - unwrap. f_equal. lia.
Qed.

(** [x ^ 0...0] and [x ^ 1...1] at [w] bits. *)
Lemma lxor_ones w x : 0 <= w -> 0 <= x < 2 ^ w -> Z.lxor x (2 ^ w - 1) = 2 ^ w - 1 - x.
Proof.
  intros Hw Hx. replace (2 ^ w - 1) with (Z.ones w) by (rewrite Z.ones_equiv; lia).
  replace x with (Z.land x (Z.ones w)) at 1 by (rewrite Z.land_ones by lia; by apply Z.mod_small).
  assert (Z.lxor (Z.land x (Z.ones w)) (Z.ones w) = Z.land (Z.lnot x) (Z.ones w)) as ->.
  { apply Z.bits_inj'. intros n Hn. rewrite Z.lxor_spec, !Z.land_spec, Z.lnot_spec by done.
    destruct (Z.testbit x n), (Z.testbit (Z.ones w) n); done. }
  rewrite Z.land_ones by done. rewrite Z.ones_equiv.
  replace (Z.lnot x) with (2 ^ w - 1 - x + (-1) * 2 ^ w) by (unfold Z.lnot; lia).
  rewrite Z.mod_add by lia. rewrite Z.mod_small; lia.
Qed.

Lemma zigzag_dec_core w z :
  0 < w -> 0 <= z < 2 ^ w ->
  sint w (Z.lxor (Z.shiftr z 1) ((- Z.land z 1) mod 2 ^ w)) =
    if Z.odd z then - ((z + 1) / 2) else z / 2.
Proof.
  intros Hw Hz. rewrite Z.shiftr_div_pow2 by lia. change (2 ^ 1) with 2.
  assert (2 ^ w = 2 * 2 ^ (w - 1)) as E2. { rewrite <- Z.pow_succ_r by lia. f_equal. lia. }
  change (Z.land z 1) with (Z.land z (Z.ones 1)). rewrite Z.land_ones by lia.
  change (2 ^ 1) with 2. rewrite Zmod_odd.
  pose proof (Zdiv.Z_div_mod_eq_full z 2) as D. rewrite Zmod_odd in D.
  destruct (Z.odd z).
  - replace ((- (1)) mod 2 ^ w) with (2 ^ w - 1).
    2:{ rewrite <- (Z.mod_small (2 ^ w - 1) (2 ^ w)) by lia.
        replace (- (1)) with (2 ^ w - 1 + (-1) * 2 ^ w) by lia. by rewrite Z.mod_add by lia. }
    rewrite lxor_ones by lia. rewrite <- sint_mod by lia.
    replace (2 ^ w - 1 - z / 2) with (- (z / 2 + 1) + 1 * 2 ^ w) by lia.
    rewrite Z.mod_add, sint_mod by lia. rewrite sint_small by lia.
    replace (z + 1) with ((z / 2 + 1) * 2) by lia. by rewrite Z.div_mul by lia.
  - change (- (0)) with 0. rewrite Z.mod_0_l, Z.lxor_0_r by lia. apply sint_small; lia.
Qed.

Lemma zigzag_value v (z := if v <? 0 then -2 * v - 1 else 2 * v) :
  (if Z.odd z then - ((z + 1) / 2) else z / 2) = v.
Proof.
  unfold z. destruct (v <? 0).
  - replace (-2 * v - 1) with (1 + 2 * (- v - 1)) by lia.
    rewrite Z.odd_add_mul_2. simpl Z.odd. cbv match.
    replace (1 + 2 * (- v - 1) + 1) with ((- v) * 2) by lia. rewrite Z.div_mul by lia. lia.
  - rewrite Z.mul_comm, Z.div_mul by lia. rewrite Z.mul_comm. by rewrite Z.odd_mul.
Qed.

Lemma zigzag32_range v : - 2 ^ 31 < v < 2 ^ 31 -> 0 <= (if v <? 0 then -2 * v - 1 else 2 * v) < 2 ^ 32.
Proof. intros. destruct (Z.ltb_spec v 0); lia. Qed.

Lemma zigzag64_range v : - 2 ^ 63 < v < 2 ^ 63 -> 0 <= (if v <? 0 then -2 * v - 1 else 2 * v) < 2 ^ 64.
Proof. intros. destruct (Z.ltb_spec v 0); lia. Qed.

Lemma zigzag32_roundtrip v z : - 2 ^ 31 < v < 2 ^ 31 -> EncodeZigzag32 v = Ok z -> DecodeZigzag32 z = v.
Proof.
  intros Hv E. rewrite zigzag32_enc in E by done. injection E as <-.
  unfold DecodeZigzag32, s32, u32. rewrite zigzag_dec_core by (lia || by apply zigzag32_range).
  apply zigzag_value.
Qed.

Lemma zigzag64_roundtrip v z : - 2 ^ 63 < v < 2 ^ 63 -> EncodeZigzag64 v = Ok z -> DecodeZigzag64 z = v.
Proof.
  intros Hv E. rewrite zigzag64_enc in E by done. injection E as <-.
  unfold DecodeZigzag64, s64, u64. rewrite zigzag_dec_core by (lia || by apply zigzag64_range).
  apply zigzag_value.
Qed.

(** ** Variable-length integers *)

(** The encoding of [v], whatever the number of slots that hold it. *)
Definition varint (v : Z) : list byte := match varint_tmp 10 v with Ok l => l | _ => [] end.

Lemma varint_tmp_ok n : forall v, 0 <= v < 2 ^ (7 + 7 * Z.of_nat n) ->
  exists l, varint_tmp (S n) v = Ok l /\ (0 < length l <= S n)%nat.
Proof.
  induction n as [|n IH]; intros v Hv; cbn [varint_tmp]; destruct (Z.leb_spec 0x80 v);
    try (eexists; split; [done|]; simpl; lia).
  - change (2 ^ (7 + 7 * Z.of_nat 0)) with 128 in Hv. lia.
  - destruct (IH (Z.shiftr v 7)) as (l & E & Hl).
    { replace (7 + 7 * Z.of_nat (S n)) with (7 + (7 + 7 * Z.of_nat n)) in Hv by lia.
      rewrite Z.pow_add_r in Hv by lia. change (2 ^ 7) with 128 in Hv.
      rewrite Z.shiftr_div_pow2 by lia. change (2 ^ 7) with 128.
      split; [apply Z.div_pos; lia|]. apply Z.div_lt_upper_bound; lia. }
    cbn [varint_tmp] in E. rewrite E. eexists. split; [done|]. simpl. lia.
Qed.

Lemma varint_tmp_mono n : forall m v l, (n <= m)%nat -> varint_tmp n v = Ok l -> varint_tmp m v = Ok l.
Proof.
  induction n as [|n IH]; intros m v l Hm E; [done|]. destruct m as [|m]; [lia|].
  cbn [varint_tmp] in *. destruct (0x80 <=? v); [|done].
  apply rbind_ok in E as (l' & E & E'). by rewrite (IH m _ _ ltac:(lia) E).
Qed.

Lemma varint_tmp_32 v : 0 <= v < 2 ^ 32 -> varint_tmp 5 v = Ok (varint v).
Proof.
  intros Hv. destruct (varint_tmp_ok 4 v) as (l & E & _); [simpl; lia|].
  unfold varint. by rewrite E, (varint_tmp_mono 5 10 v l ltac:(lia) E).
Qed.

Lemma varint_tmp_64 v : 0 <= v < 2 ^ 64 -> varint_tmp 10 v = Ok (varint v).
Proof.
  intros Hv. destruct (varint_tmp_ok 9 v) as (l & E & _); [simpl; lia|]. unfold varint. by rewrite E.
Qed.

Section varint.
Context `{Host} `{BufferLaws B}.

Lemma of_mem_1 c : of_mem [c] = b2z c.
Proof. unfold of_mem. destruct CIM_BYTE_ORDER; simpl; lia. Qed.

Lemma to_mem_1 v : to_mem 1 v = [z2b v].
Proof. unfold to_mem. by destruct CIM_BYTE_ORDER. Qed.

Lemma reads_u8 c : reads readFuint8 (fun _ => [c]) (b2z c).
Proof.
  unfold readFuint8. rewrite <- of_mem_1. apply (reads_map (buf_read 1) of_mem).
  by apply reads_raw.
Qed.

(** The decoding loop entered at bit [i] with the low bits decoded. *)
Lemma reads_varint_loop n : forall fuel w i result v l,
  varint_tmp n v = Ok l -> (n < fuel)%nat -> 0 <= i -> 0 <= result < 2 ^ i ->
  0 <= v -> result + v * 2 ^ i < 2 ^ w -> i < w -> i + 7 * (Z.of_nat n - 1) < w ->
  reads (readUint_loop fuel w i result) (fun _ => l) (result + v * 2 ^ i).
Proof.
  induction n as [|n IH]; intros fuel w i result v l E Hf Hi Hr Hv Hw Hiw Hn; [done|].
  destruct fuel as [|fuel]; [lia|]. cbn [varint_tmp readUint_loop] in *.
  replace (i <? w) with true by lia.
  assert (0 < 2 ^ i) by (apply Z.pow_pos_nonneg; lia).
  destruct (Z.leb_spec 0x80 v) as [Hbig|Hsmall].
  - apply rbind_ok in E as (l' & E & E'). injection E' as <-.
    rewrite Z.shiftr_div_pow2 in E by lia. change (2 ^ 7) with 128 in E.
    set (c := z2b _).
    pose proof (Z.div_mod v 128 ltac:(lia)) as D. pose proof (Z.mod_pos_bound v 128 ltac:(lia)) as M.
    assert (b2z c = v mod 128 + 128) as Ec.
    { unfold c. rewrite land_127, lor_128 by lia. rewrite b2z_z2b_small; lia. }
    change (c :: l') with ([c] ++ l').
    apply (reads_bind readFuint8 _ (fun _ => [c]) (fun _ => l') (b2z c)); [apply reads_u8|].
    rewrite Ec. replace (v mod 128 + 128 <? 0x80) with false by lia.
    rewrite land_127. replace ((v mod 128 + 128) mod 128) with (v mod 128)
      by (symmetry; rewrite <- (Z.mul_1_l 128) at 2; rewrite Z.mod_add by lia; by apply Z.mod_small).
    rewrite Z.mod_small by (rewrite Z.shiftl_mul_pow2 by done; nia).
    rewrite lor_shiftl_add by done.
    assert (2 ^ (i + 7) = 2 ^ i * 128) as P7 by (by rewrite Z.pow_add_r by lia).
    assert (0 < v / 128) by (apply Z.div_str_pos; lia).
    destruct n as [|n']; [done|].
    replace (result + v * 2 ^ i) with (result + v mod 128 * 2 ^ i + v / 128 * 2 ^ (i + 7)).
    2:{ rewrite P7. rewrite D at 3. lia. }
    apply (IH fuel w (i + 7)); try done; try lia. rewrite P7. nia.
  - injection E as <-.
    apply (reads_bind readFuint8 _ (fun _ => [z2b v]) (fun _ => []) v).
    { pose proof (reads_u8 (z2b v)) as R. by rewrite b2z_z2b_small in R by lia. }
    replace (v <? 0x80) with true by lia.
    rewrite Z.mod_small by (rewrite Z.shiftl_mul_pow2 by done; nia).
    rewrite lor_shiftl_add by done. apply reads_ret.
Qed.
End varint.

(** ** The typed operations *)

Section typed.
Context `{Host} `{BufferLaws B}.

Lemma writes_fixed n value : writes (write_fixed n value) (fun e => wire_bytes e n value).
Proof.
  intros b v V L. unfold write_fixed. rewrite (buf_endian_law b v V), to_mem_swapped.
  by apply buf_write_law.
Qed.

Lemma reads_fixed n conv value :
  reads (read_fixed n conv) (fun e => wire_bytes e n value) (conv (value mod 2 ^ (8 * Z.of_nat n))).
Proof.
  intros b v r V E. unfold read_fixed. rewrite (buf_endian_law b v V).
  pose proof (length_wire_bytes (v_endian v) n value) as L.
  destruct (reads_raw (Z.of_nat n) (wire_bytes (v_endian v) n value) ltac:(by unfold len; rewrite L) b v r V E)
    as (b' & E' & V'). exists b'. split; [|done].
  rewrite (sbind_ok _ _ _ _ _ E'). unfold sret. do 3 f_equal.
  pose proof (of_mem_swapped (v_endian v) (wire_bytes (v_endian v) n value)) as S.
  rewrite L in S. by rewrite S, of_wire_wire_bytes.
Qed.

Lemma writes_Fuint8 value : writes (writeFuint8 value) (fun _ => [z2b value]).
Proof. unfold writeFuint8. rewrite to_mem_1. apply writes_raw. Qed.

Lemma reads_Fuint8 value : reads readFuint8 (fun _ => [z2b value]) (u8 value).
Proof. eapply reads_eq; [|apply reads_u8]. apply b2z_z2b. Qed.

Lemma reads_Fint8 value : - 2 ^ 7 <= value < 2 ^ 7 -> reads readFint8 (fun _ => [z2b value]) value.
Proof.
  intros Hv. apply (reads_eq _ _ (sint 8 (of_mem [z2b value]))).
  - rewrite of_mem_1, b2z_z2b. change 256 with (2 ^ 8). rewrite sint_mod by lia. by apply sint_small.
  - apply (reads_map (buf_read 1) (fun x => sint 8 (of_mem x))). by apply reads_raw.
Qed.

Lemma writes_Uint32 v : 0 <= v < 2 ^ 32 -> writes (writeUint32 v) (fun _ => varint v).
Proof. intros Hv. apply writes_pure. by apply varint_tmp_32. Qed.

Lemma writes_Uint64 v : 0 <= v < 2 ^ 64 -> writes (writeUint64 v) (fun _ => varint v).
Proof. intros Hv. apply writes_pure. by apply varint_tmp_64. Qed.

Lemma reads_Uint32 v : 0 <= v < 2 ^ 32 -> reads readUint32 (fun _ => varint v) v.
Proof.
  intros Hv. eapply reads_eq; [|apply (reads_varint_loop 5 6 32 0 0 v)];
    rewrite ?varint_tmp_32; cbn; try done; lia.
Qed.

Lemma reads_Uint64 v : 0 <= v < 2 ^ 64 -> reads readUint64 (fun _ => varint v) v.
Proof.
  intros Hv. eapply reads_eq; [|apply (reads_varint_loop 10 11 64 0 0 v)];
    rewrite ?varint_tmp_64; cbn; try done; lia.
Qed.

Lemma writes_String (n : st B unit) f x :
  writes n f -> writes (let* _ := n in buf_write x) (fun e => f e ++ x).
Proof. intros W. apply writes_seq; [done|apply writes_raw]. Qed.

Lemma reads_String (n : st B Z) f x :
  len x <= string_max_size -> reads n f (len x) ->
  reads (let* l := n in read_sized l) (fun e => f e ++ x) x.
Proof.
  intros L R. apply (reads_bind _ _ _ (fun _ => x) (len x)); [done|].
  unfold read_sized. replace (string_max_size <? len x) with false by lia. by apply reads_raw.
Qed.

Lemma writes_StringVint x : len x < 2 ^ 64 -> writes (writeStringVint x) (fun _ => varint (len x) ++ x).
Proof. intros L. apply writes_String, writes_Uint64. unfold len in *. lia. Qed.

Lemma reads_StringVint x : len x <= string_max_size -> reads readStringVint (fun _ => varint (len x) ++ x) x.
Proof.
  intros L. apply (reads_String readUint64 (fun _ => varint (len x))); [done|].
  apply reads_Uint64. unfold string_max_size, len in *. lia.
Qed.
End typed.

#[export] Hint Resolve writes_fixed writes_Fuint8 reads_Fuint8 writes_Uint32 writes_Uint64
  reads_Uint32 reads_Uint64 writes_StringVint reads_StringVint : cim.

(** ** The chain of blocks satisfies the interface *)

Section instance.
Context `{Host} `{Heap}.

#[export] Instance ByteArray_Buffer : Buffer ByteArray := {
  buf_write x b := match write x b with
                   | Ok b' => (Ok tt, b')
                   | Throw e => (Throw e, b)
                   | Crash u => (Crash u, b)
                   end;
  buf_read := read;
  buf_endian := m_endian;
}.

Definition ByteArray_view (b : ByteArray) (v : view) : Prop :=
  wf b /\ v_before v = take (Z.to_nat (m_position b)) (content b) /\ v_rest v = unread b /\
  v_endian v = m_endian b /\ v_limit v = room b.

(** The position is the length of what precedes the cursor. *)
Lemma ByteArray_view_before b v : ByteArray_view b v -> len (v_before v) = m_position b.
Proof.
  intros (W & E & _). rewrite E. pose proof (wf_content_length b W). destruct W.
  unfold len in *. rewrite length_take. lia.
Qed.

#[export] Program Instance ByteArray_BufferLaws : BufferLaws ByteArray := {
  buf_view := ByteArray_view;
}.
Next Obligation. intros b v (W & _ & _ & E & _). by rewrite E. Qed.
Next Obligation.
  intros x b v V L. pose proof (ByteArray_view_before b v V) as Lb.
  destruct V as (W & E1 & E2 & E3 & E4). rewrite Lb, E4 in L.
  destruct (write_spec x b W L) as (b' & E & W' & P' & D' & C' & N' & S').
  exists b'. cbn [buf_write ByteArray_Buffer]. rewrite E. split; [done|].
  assert (length (take (Z.to_nat (m_position b)) (content b)) = Z.to_nat (m_position b)) as Lt.
  { rewrite <- E1. unfold len in Lb. lia. }
  assert (Z.to_nat (m_position b') = (Z.to_nat (m_position b) + length x)%nat) as Np.
  { rewrite P'. pose proof (wf_position b W). unfold len. lia. }
  split_and!; [done| | |by rewrite N'|unfold room; by rewrite S'].
  - simpl. rewrite E1, C', Np. unfold splice. rewrite app_assoc.
    rewrite take_app_length' by (rewrite length_app; lia). done.
  - simpl. rewrite E2. unfold unread. rewrite drop_drop, C', Np. unfold splice. rewrite app_assoc.
    by rewrite drop_app_length' by (rewrite length_app; lia).
Qed.
Next Obligation.
  intros n b v (W & E1 & E2 & E3 & E4) L. rewrite E2, (wf_unread_length b W) in L.
  destruct (read_spec n b W L) as (b' & E & W' & P' & C' & D' & N' & S').
  exists b'. rewrite E2. split; [done|].
  pose proof (wf_position b W).
  assert (Z.to_nat (m_position b') = (Z.to_nat (m_position b) + Z.to_nat n)%nat) as Np by lia.
  split_and!; [done| | |by rewrite N'|unfold room; by rewrite S'].
  - simpl. rewrite E1, E2, C', Np. unfold unread. by rewrite take_take_drop.
  - simpl. rewrite E2. unfold unread. rewrite C', Np, drop_drop. done.
Qed.
Next Obligation.
  intros n b v (W & E1 & E2 & E3 & E4) L. rewrite E2, (wf_unread_length b W) in L.
  apply read_short; [done|]. pose proof (wf_unread_length b W). unfold len in *. lia.
Qed.

Lemma ByteArray_view_of (b : ByteArray) :
  wf b -> buf_view b (mkView (take (Z.to_nat (m_position b)) (content b)) (unread b) (m_endian b) (room b)).
Proof. done. Qed.
End instance.

(** ** The contract of the typed operations *)

(** The encoding uses exactly as many bytes as seven-bit groups are needed. *)
Lemma varint_tmp_length n : forall k v l, varint_tmp n v = Ok l -> 0 <= k ->
  2 ^ (7 * k) <= v < 2 ^ (7 + 7 * k) -> len l = k + 1.
Proof.
  induction n as [|n IH]; intros k v l E Hk Hv; [done|]. cbn [varint_tmp] in E.
  destruct (decide (k = 0)) as [->|Hk0].
  - change (2 ^ (7 + 7 * 0)) with 128 in Hv. replace (0x80 <=? v) with false in E by lia.
    by injection E as <-.
  - replace (7 * k) with (7 + 7 * (k - 1)) in Hv at 1 by lia.
    replace (7 + 7 * k) with (7 + (7 + 7 * (k - 1))) in Hv by lia.
    rewrite !(Z.pow_add_r 2 7) in Hv by lia. change (2 ^ 7) with 128 in Hv.
    pose proof (Z.pow_pos_nonneg 2 (7 * (k - 1)) ltac:(lia) ltac:(lia)).
    replace (0x80 <=? v) with true in E by lia. apply rbind_ok in E as (l' & E & E'). injection E' as <-.
    pose proof (IH (k - 1) _ l' E ltac:(lia)) as L. unfold len in *. simpl. rewrite Nat2Z.inj_succ, L; [lia|].
    rewrite Z.shiftr_div_pow2 by lia. rewrite (Z.pow_add_r 2 7) by lia. change (2 ^ 7) with 128.
    split; [apply Z.div_le_lower_bound; lia|apply Z.div_lt_upper_bound; lia].
Qed.

Section contract.
Context `{BufferLaws B}.

(** [readUint32] inverts [writeUint32] on every 32-bit value and [readUint64]
    inverts [writeUint64] on every 64-bit value, on any host and any buffer; the two
    share one encoding, which never overruns [tmp] and takes [k] bytes exactly for
    the values of [k] seven-bit groups. *)
Theorem Varint_roundtrip (h : Host) (v : Z) (R : 0 <= v < 2 ^ 64) :
  exists x, 0 < len x <= 10 /\
    (forall k, 0 < k -> 2 ^ (7 * k) <= v < 2 ^ (7 + 7 * k) -> len x = k + 1) /\
    writes (writeUint64 v) (fun _ => x) /\ reads readUint64 (fun _ => x) v /\
    (v < 2 ^ 32 -> len x <= 5 /\ writes (writeUint32 v) (fun _ => x) /\ reads readUint32 (fun _ => x) v).
Proof.
  exists (varint v). destruct (varint_tmp_ok 9 v) as (l & E & Hl); [simpl; lia|].
  assert (varint v = l) as El by (unfold varint; by rewrite E).
  split_and!.
  - rewrite El. unfold len. lia.
  - rewrite El. unfold len. lia.
  - intros k Hk Hv. apply (varint_tmp_length 10 k v); [by rewrite varint_tmp_64|lia|done].
  - by apply writes_Uint64.
  - by apply reads_Uint64.
  - intros H32. destruct (varint_tmp_ok 4 v) as (l' & E' & Hl'); [simpl; lia|].
    rewrite varint_tmp_32 in E' by lia. injection E' as <-. split_and!.
    + unfold len. lia.
    + apply writes_Uint32. lia.
    + apply reads_Uint32. lia.
Qed.

(** [readInt32] and [readInt64] invert [writeInt32] and [writeInt64] on every
    value but the least one, whose negation in the zigzag encoder overflows. *)
Theorem Zigzag_roundtrip (h : Host) (v : Z) :
  (- 2 ^ 31 < v < 2 ^ 31 -> exists x, len x <= 5 /\ writes (writeInt32 v) (fun _ => x) /\
     reads readInt32 (fun _ => x) v) /\
  (- 2 ^ 63 < v < 2 ^ 63 -> exists x, len x <= 10 /\ writes (writeInt64 v) (fun _ => x) /\
     reads readInt64 (fun _ => x) v) /\
  (v = - 2 ^ 31 -> forall b : B, writeInt32 v b = (Crash signed_overflow, b)) /\
  (v = - 2 ^ 63 -> forall b : B, writeInt64 v b = (Crash signed_overflow, b)).
Proof.
  split_and!.
  - intros Hv. pose proof (zigzag32_range v Hv) as Hz. pose proof (zigzag32_enc v Hv) as E.
    set (z := if v <? 0 then _ else _) in *. exists (varint z). split_and!.
    + destruct (varint_tmp_ok 4 z) as (l & El & Hl); [simpl; lia|].
      rewrite varint_tmp_32 in El by done. injection El as <-. unfold len. lia.
    + apply (writes_ext (writeUint32 z)); [|by apply writes_Uint32].
      intros b. unfold writeInt32, sbind, spure. by rewrite E.
    + eapply reads_eq; [apply (zigzag32_roundtrip v z Hv E)|].
      apply (reads_map readUint32 DecodeZigzag32). by apply reads_Uint32.
  - intros Hv. pose proof (zigzag64_range v Hv) as Hz. pose proof (zigzag64_enc v Hv) as E.
    set (z := if v <? 0 then _ else _) in *. exists (varint z). split_and!.
    + destruct (varint_tmp_ok 9 z) as (l & El & Hl); [simpl; lia|].
      rewrite varint_tmp_64 in El by done. injection El as <-. unfold len. lia.
    + apply (writes_ext (writeUint64 z)); [|by apply writes_Uint64].
      intros b. unfold writeInt64, sbind, spure. by rewrite E.
    + eapply reads_eq; [apply (zigzag64_roundtrip v z Hv E)|].
      apply (reads_map readUint64 DecodeZigzag64). by apply reads_Uint64.
  - by intros ->.
  - by intros ->.
Qed.

(** the fixed-width integers have a wire form that depends on the buffer's byte
    order only: what a host of one order writes, a host of the other reads back, at
    every width, signed or unsigned. *)
Theorem Fixed_roundtrip (h1 h2 : Host) (v : Z) :
  (writes (@writeFuint16 h1 B _ v) (fun e => wire_bytes e 2 v) /\
   reads (@readFuint16 h2 B _) (fun e => wire_bytes e 2 v) (u16 v)) /\
  (writes (@writeFuint32 h1 B _ v) (fun e => wire_bytes e 4 v) /\
   reads (@readFuint32 h2 B _) (fun e => wire_bytes e 4 v) (u32 v)) /\
  (writes (@writeFuint64 h1 B _ v) (fun e => wire_bytes e 8 v) /\
   reads (@readFuint64 h2 B _) (fun e => wire_bytes e 8 v) (u64 v)) /\
  reads (@readFint16 h2 B _) (fun e => wire_bytes e 2 v) (sint 16 v) /\
  reads (@readFint32 h2 B _) (fun e => wire_bytes e 4 v) (sint 32 v) /\
  reads (@readFint64 h2 B _) (fun e => wire_bytes e 8 v) (sint 64 v).
Proof.
  split_and!; try apply writes_fixed; (eapply reads_eq; [|apply reads_fixed]);
    first [by apply Z.mod_mod | by apply (sint_mod 16) | by apply (sint_mod 32) | by apply (sint_mod 64)].
Qed.

(** a string written with a variable-length prefix is read back whole; one
    written by [writeStringF16] is read back modulo its 16-bit length, so a string of
    65536 bytes or more comes back truncated and the rest stays in the stream. *)
Theorem String_roundtrip (h : Host) (x : list byte) (L : len x <= string_max_size) :
  (exists p, writes (writeStringVint x) (fun _ => p ++ x) /\
     reads readStringVint (fun _ => p ++ x) x) /\
  (writes (writeStringF16 x) (fun e => wire_bytes e 2 (u16 (len x)) ++ x) /\
   let k := Z.to_nat (u16 (len x)) in
   reads readString16 (fun e => wire_bytes e 2 (u16 (len x)) ++ take k x) (take k x)).
Proof.
  assert (len x < 2 ^ 64) by (unfold string_max_size in *; lia). split.
  - exists (varint (len x)). split; [by apply writes_StringVint|by apply reads_StringVint].
  - pose proof (u16_range (len x)). split; [apply writes_String, writes_fixed|].
    intros k. assert (len (take k x) = u16 (len x)) as Lk.
    { assert (u16 (len x) <= len x) by (apply Z.mod_le; unfold len; lia).
      unfold k, len in *. rewrite length_take. lia. }
    apply (reads_String readFuint16 (fun e => wire_bytes e 2 (u16 (len x)))).
    + rewrite Lk. unfold string_max_size. lia.
    + rewrite Lk. eapply reads_eq; [|apply reads_fixed]. unfold u16. by rewrite !Z.mod_mod by lia.
Qed.

(** A run of continuation bytes that ends with the data. *)
Lemma varint_loop_truncated h fuel : forall w i result l b v,
  buf_view b v -> v_rest v = l -> Forall (fun c => 0x80 <= b2z c) l ->
  i + 7 * len l < w -> (length l < fuel)%nat ->
  exists b', @readUint_loop h B _ fuel w i result b = (Throw out_of_range, b') /\
    buf_view b' (mkView (v_before v ++ l) [] (v_endian v) (v_limit v)).
Proof.
  induction fuel as [|fuel IH]; intros w i result l b v V E F Hw Hf; [lia|].
  cbn [readUint_loop]. unfold len in *. replace (i <? w) with true by lia.
  destruct F as [|c l Hc F].
  - exists b. split.
    + apply sbind_throw. unfold readFuint8. apply sbind_throw. apply (buf_short_law 1 b v V). by rewrite E.
    + rewrite app_nil_r, <- E. by destruct v.
  - destruct (reads_u8 c b v l V E) as (b1 & E1 & V1). rewrite (sbind_ok _ _ _ _ _ E1).
    replace (b2z c <? 0x80) with false by lia. simpl in Hw, Hf.
    destruct (IH w (i + 7) (Z.lor result (Z.shiftl (Z.land (b2z c) 0x7F) i mod 2 ^ w)) l b1 _ V1) as (b2 & E2 & V2);
      try done; try lia.
    exists b2. split; [done|]. simpl in V2. by rewrite <- app_assoc in V2.
Qed.

(** a variable-length integer cut off by the end of the data makes
    [readUint32] and [readUint64] throw [out_of_range], the bytes they saw consumed. *)
Theorem Varint_truncated (h : Host) (b : B) (v : view) (V : buf_view b v)
    (F : Forall (fun c => 0x80 <= b2z c) (v_rest v)) :
  let v' := mkView (v_before v ++ v_rest v) [] (v_endian v) (v_limit v) in
  (len (v_rest v) < 5 -> exists b', readUint32 b = (Throw out_of_range, b') /\ buf_view b' v') /\
  (len (v_rest v) < 10 -> exists b', readUint64 b = (Throw out_of_range, b') /\ buf_view b' v').
Proof.
  split; intros L; eapply varint_loop_truncated; try done; unfold len in *; lia.
Qed.
End contract.

(** ** The theorems at concrete buffers *)

Section witnesses.
#[local] Existing Instance zero_heap.

Lemma Varint_roundtrip_witness :
  exists x, reads (B := ByteArray) (@readUint64 x86_host ByteArray _) (fun _ => x) 300.
Proof.
  destruct (Varint_roundtrip (B := ByteArray) x86_host 300 ltac:(lia)) as (x & _ & _ & _ & R & _).
  exists x. exact R.
Defined.

Lemma String_roundtrip_witness :
  exists p, reads (B := ByteArray) (@readStringVint x86_host ByteArray _) (fun _ => p ++ bstr "hello") (bstr "hello").
Proof.
  destruct (String_roundtrip (B := ByteArray) x86_host (bstr "hello") ltac:(vm_compute; congruence)) as [(p & _ & R) _].
  exists p. exact R.
Defined.

Lemma Zigzag_roundtrip_witness :
  exists x, reads (B := ByteArray) (@readInt32 x86_host ByteArray _) (fun _ => x) (-3).
Proof.
  destruct (Zigzag_roundtrip (B := ByteArray) x86_host (-3)) as [Z32 _].
  destruct (Z32 ltac:(lia)) as (x & _ & _ & R). exists x. exact R.
Defined.

(** A little-endian host's [0x1234] read by a big-endian host. *)
Lemma Fixed_roundtrip_witness :
  reads (B := ByteArray) (@readFuint16 (CIM_BIG_ENDIAN : Host) ByteArray _)
    (fun e => wire_bytes e 2 0x1234) 0x1234.
Proof.
  destruct (Fixed_roundtrip (B := ByteArray) x86_host (CIM_BIG_ENDIAN : Host) 0x1234) as [[_ R] _].
  exact R.
Defined.

Lemma Varint_truncated_witness :
  exists b', @readUint32 x86_host ByteArray _ (new_ByteArray 4) = (Throw out_of_range, b').
Proof.
  destruct (Varint_truncated (B := ByteArray) x86_host (new_ByteArray 4) _ (ByteArray_view_of _ (wf_new 4 ltac:(lia))))
    as [T _]; [constructor|].
  destruct (T ltac:(reflexivity)) as (b' & E & _). exists b'. exact E.
Defined.
End witnesses.
