(* ===== verification/StringUtil.v ===== *)
(** The string utilities ([include/util/string_util.hpp], [src/util/string_utils.cpp]):
    prefixes and suffixes, file names, splitting, percent-encoding and trimming.

    A call of [substr] or [compare] with a position past the end throws, so the
    functions that make one return in [res]; [StringUtilSpec] proves that none of
    them does. [isxdigit] is the classification of the "C" locale. *)
From S2P Require Import Prelude CppString.

(** ** Prefixes and suffixes *)

Definition StartsWith (str sub : list byte) : res bool :=
  if is_empty sub then Ok true
  else
    let strLen := length str in
    let subLen := length sub in
    if is_empty str || (strLen <? subLen)%nat then Ok false
    else compare_eq str 0 subLen sub.

Definition EndsWith (str sub : list byte) : res bool :=
  if is_empty sub then Ok true
  else
    let strLen := length str in
    let subLen := length sub in
    if is_empty str || (strLen <? subLen)%nat then Ok false
    else compare_eq str (strLen - subLen) subLen sub.

(** ** File names *)

(** The separators of both kinds of path, a slash and a backslash. *)
Definition path_separators : list byte := [x2f; x5c].

Definition FilePath (path : list byte) : res (list byte) :=
  match find_last_of path_separators path with
  | Some pos => substr path 0 (pos + 1)
  | None => Ok (bstr "./")
  end.

Definition FileNameExt (path : list byte) : res (list byte) :=
  match find_last_of path_separators path with
  | Some pos => if (pos + 1 <? length path)%nat then substr_from path (pos + 1) else Ok path
  | None => Ok path
  end.

Definition FileName (path : list byte) : res (list byte) :=
  let! file_name := FileNameExt path in
  match find_last_of (bstr ".") file_name with
  | Some pos => if negb (pos =? 0)%nat then substr file_name 0 pos else Ok file_name
  | None => Ok file_name
  end.

Definition Extension (path : list byte) : res (list byte) :=
  let! file_name := FileNameExt path in
  match find_last_of (bstr ".") file_name with
  | Some pos =>
      if negb (pos =? 0)%nat && (pos + 1 <? length path)%nat then substr_from file_name pos else Ok []
  | None => Ok []
  end.

(** ** Splitting *)

(** The loop of [SplitString]; the fuel bounds its iterations, each of which
    consumes a delimiter. *)
Fixpoint SplitString_loop (fuel : nat) (str delimiter : list byte) (last : nat)
    (result : list (list byte)) : res (list (list byte)) :=
  match fuel with
  | O => Crash nontermination
  | S fuel =>
      match from (find_sub delimiter) str last with
      | Some next =>
          let! result :=
            if (last <? next)%nat
            then let! piece := substr str last (next - last) in Ok (result ++ [piece])
            else Ok result in
          SplitString_loop fuel str delimiter (next + length delimiter) result
      | None =>
          if (last <? length str)%nat
          then let! piece := substr_from str last in Ok (result ++ [piece])
          else Ok result
      end
  end.

Definition SplitString (str delimiter : list byte) : res (list (list byte)) :=
  if is_empty delimiter then Ok []
  else SplitString_loop (S (length str)) str delimiter 0 [].

(** ** Percent-encoding *)

(** 1 for the characters that need no escape. *)
Definition uri_chars : list Z :=
   [0; 0; 0; 0; 0; 0; 0; 0; 0; 0; 0; 0; 0; 0; 0; 0; 0; 0; 0; 0; 0; 0; 0; 0; 0; 0; 0; 0; 0; 0; 0; 0;
    0; 0; 0; 0; 0; 0; 0; 0; 0; 0; 0; 0; 0; 1; 1; 0; 1; 1; 1; 1; 1; 1; 1; 1; 1; 1; 0; 0; 0; 1; 0; 0;
    0; 1; 1; 1; 1; 1; 1; 1; 1; 1; 1; 1; 1; 1; 1; 1; 1; 1; 1; 1; 1; 1; 1; 1; 1; 1; 1; 0; 0; 0; 0; 1;
    0; 1; 1; 1; 1; 1; 1; 1; 1; 1; 1; 1; 1; 1; 1; 1; 1; 1; 1; 1; 1; 1; 1; 1; 1; 1; 1; 0; 0; 0; 1; 0;
    0; 0; 0; 0; 0; 0; 0; 0; 0; 0; 0; 0; 0; 0; 0; 0; 0; 0; 0; 0; 0; 0; 0; 0; 0; 0; 0; 0; 0; 0; 0; 0;
    0; 0; 0; 0; 0; 0; 0; 0; 0; 0; 0; 0; 0; 0; 0; 0; 0; 0; 0; 0; 0; 0; 0; 0; 0; 0; 0; 0; 0; 0; 0; 0;
    0; 0; 0; 0; 0; 0; 0; 0; 0; 0; 0; 0; 0; 0; 0; 0; 0; 0; 0; 0; 0; 0; 0; 0; 0; 0; 0; 0; 0; 0; 0; 0;
    0; 0; 0; 0; 0; 0; 0; 0; 0; 0; 0; 0; 0; 0; 0; 0; 0; 0; 0; 0; 0; 0; 0; 0; 0; 0; 0; 0; 0; 0; 0; 0].

(** The value of a hexadecimal digit. *)
Definition xdigit_chars : list Z :=
   [0; 0; 0; 0; 0; 0; 0; 0; 0; 0; 0; 0; 0; 0; 0; 0; 0; 0; 0; 0; 0; 0; 0; 0; 0; 0; 0; 0; 0; 0; 0; 0;
    0; 0; 0; 0; 0; 0; 0; 0; 0; 0; 0; 0; 0; 0; 0; 0; 0; 1; 2; 3; 4; 5; 6; 7; 8; 9; 0; 0; 0; 0; 0; 0;
    0; 10; 11; 12; 13; 14; 15; 0; 0; 0; 0; 0; 0; 0; 0; 0; 0; 0; 0; 0; 0; 0; 0; 0; 0; 0; 0; 0; 0; 0; 0; 0;
    0; 10; 11; 12; 13; 14; 15; 0; 0; 0; 0; 0; 0; 0; 0; 0; 0; 0; 0; 0; 0; 0; 0; 0; 0; 0; 0; 0; 0; 0; 0; 0;
    0; 0; 0; 0; 0; 0; 0; 0; 0; 0; 0; 0; 0; 0; 0; 0; 0; 0; 0; 0; 0; 0; 0; 0; 0; 0; 0; 0; 0; 0; 0; 0;
    0; 0; 0; 0; 0; 0; 0; 0; 0; 0; 0; 0; 0; 0; 0; 0; 0; 0; 0; 0; 0; 0; 0; 0; 0; 0; 0; 0; 0; 0; 0; 0;
    0; 0; 0; 0; 0; 0; 0; 0; 0; 0; 0; 0; 0; 0; 0; 0; 0; 0; 0; 0; 0; 0; 0; 0; 0; 0; 0; 0; 0; 0; 0; 0;
    0; 0; 0; 0; 0; 0; 0; 0; 0; 0; 0; 0; 0; 0; 0; 0; 0; 0; 0; 0; 0; 0; 0; 0; 0; 0; 0; 0; 0; 0; 0; 0].

Definition CHAR_IS_UNRESERVED (c : byte) : bool :=
  negb (nth (Z.to_nat (b2z c)) uri_chars 0 =? 0).

Definition hexdigits : list byte := bstr "0123456789ABCDEF".

Definition isxdigit (c : byte) : bool :=
  let z := b2z c in
  (0x30 <=? z) && (z <=? 0x39) || (0x41 <=? z) && (z <=? 0x46) || (0x61 <=? z) && (z <=? 0x66).

(** The buffer the first escaped character allocates and fills with what precedes it. *)
Definition alloc_copy (ss : option (list byte)) (str : list byte) (i : nat) : list byte :=
  match ss with Some x => x | None => take i str end.

(** [rest] is what follows the pointer [c], at offset [i] of [str]. *)
Fixpoint UrlEncode_loop (str : list byte) (space_as_plus : bool) (i : nat) (rest : list byte)
    (ss : option (list byte)) : option (list byte) :=
  match rest with
  | [] => ss
  | c :: rest =>
      let ss' :=
        if negb (CHAR_IS_UNRESERVED c) then
          let out := alloc_copy ss str i in
          Some (if bool_decide (c = x20) && space_as_plus then out ++ [x2b]
                else out ++ [x25] ++ [nth (Z.to_nat (Z.shiftr (b2z c) 4)) hexdigits x00]
                         ++ [nth (Z.to_nat (Z.land (b2s c) 0xf)) hexdigits x00])
        else option_map (fun out => out ++ [c]) ss in
      UrlEncode_loop str space_as_plus (S i) rest ss'
  end.

Definition UrlEncode (str : list byte) (space_as_plus : bool) : list byte :=
  match UrlEncode_loop str space_as_plus 0 str None with
  | None => str
  | Some ss => ss
  end.

Fixpoint UrlDecode_loop (str : list byte) (space_as_plus : bool) (i : nat) (rest : list byte)
    (ss : option (list byte)) : option (list byte) :=
  match rest with
  | [] => ss
  | c :: rest1 =>
      if bool_decide (c = x2b) && space_as_plus then
        UrlDecode_loop str space_as_plus (S i) rest1 (Some (alloc_copy ss str i ++ [x20]))
      else
        let other := option_map (fun out => out ++ [c]) ss in
        match rest1 with
        | d1 :: d2 :: rest2 =>
            if bool_decide (c = x25) && isxdigit d1 && isxdigit d2 then
              let v := Z.lor (Z.shiftl (nth (Z.to_nat (b2s d1)) xdigit_chars 0) 4)
                             (nth (Z.to_nat (b2s d2)) xdigit_chars 0) in
              UrlDecode_loop str space_as_plus (i + 3) rest2 (Some (alloc_copy ss str i ++ [z2b v]))
            else UrlDecode_loop str space_as_plus (S i) rest1 other
        | _ => UrlDecode_loop str space_as_plus (S i) rest1 other
        end
  end.

Definition UrlDecode (str : list byte) (space_as_plus : bool) : list byte :=
  match UrlDecode_loop str space_as_plus 0 str None with
  | None => str
  | Some ss => ss
  end.

(** ** Trimming *)

Definition Trim (str delimit : list byte) : res (list byte) :=
  match find_first_not_of delimit str with
  | None => Ok []
  | Some begin =>
      match find_last_not_of delimit str with
      | Some last => substr str begin (last - begin + 1)
      | None => (* [npos - begin + 1], which is 0 modulo 2^64 when [begin] is 0 *)
          substr str begin (if (begin =? 0)%nat then 0 else length str)
      end
  end.

Definition TrimLeft (str delimit : list byte) : res (list byte) :=
  match find_first_not_of delimit str with
  | None => Ok []
  | Some begin => substr_from str begin
  end.

Definition TrimRight (str delimit : list byte) : res (list byte) :=
  match find_last_not_of delimit str with
  | None => Ok []
  | Some last => substr str 0 last
  end.
