(* ===== verification/StringUtilSpec.v ===== *)
(** What the string utilities compute: percent-encoding and its inverse, splitting
    against the reference [segments], trimming, and the parts of a path. *)
From S2P Require Import Prelude CppString StringUtil.

(** ** Percent-encoding *)

(** The characters [uri_chars] marks. *)
Definition unreserved : list byte :=
  bstr "-.0123456789ABCDEFGHIJKLMNOPQRSTUVWXYZ_abcdefghijklmnopqrstuvwxyz~=".

(** The reference encoding of a byte. *)
Definition url_enc (plus : bool) (c : byte) : list byte :=
  if CHAR_IS_UNRESERVED c then [c]
  else if bool_decide (c = x20) && plus then [x2b]
  else [x25; nth (Z.to_nat (b2z c / 16)) hexdigits x00; nth (Z.to_nat (b2z c mod 16)) hexdigits x00].

(** The reference decoding. *)
Fixpoint url_dec (plus : bool) (s : list byte) : list byte :=
  match s with
  | [] => []
  | c :: t =>
      if bool_decide (c = x2b) && plus then x20 :: url_dec plus t
      else match t with
           | d1 :: d2 :: u =>
               if bool_decide (c = x25) && isxdigit d1 && isxdigit d2
               then z2b (16 * nth (Z.to_nat (b2z d1)) xdigit_chars 0 + nth (Z.to_nat (b2z d2)) xdigit_chars 0)
                      :: url_dec plus u
               else c :: url_dec plus t
           | _ => c :: url_dec plus t
           end
  end.

Lemma unreserved_spec c : CHAR_IS_UNRESERVED c = bool_decide (c ∈ unreserved).
Proof. by destruct c. Qed.

Lemma url_enc_unreserved plus c : CHAR_IS_UNRESERVED c = true -> url_enc plus c = [c].
Proof. intros H. unfold url_enc. by rewrite H. Qed.

(** One escaped character, as the loop appends it. *)
Lemma url_enc_step plus c out :
  CHAR_IS_UNRESERVED c = false ->
  (if bool_decide (c = x20) && plus then out ++ [x2b]
   else out ++ [x25] ++ [nth (Z.to_nat (Z.shiftr (b2z c) 4)) hexdigits x00]
            ++ [nth (Z.to_nat (Z.land (b2s c) 0xf)) hexdigits x00]) = out ++ url_enc plus c.
Proof.
  intros H. unfold url_enc. rewrite H.
  destruct (bool_decide (c = x20) && plus); [done|]. f_equal. by destruct c.
Qed.

Lemma UrlEncode_loop_spec plus rest pre ss :
  (ss = None -> concat (map (url_enc plus) pre) = pre) ->
  (forall out, ss = Some out -> out = concat (map (url_enc plus) pre)) ->
  match UrlEncode_loop (pre ++ rest) plus (length pre) rest ss with
  | None => pre ++ rest | Some out => out end
  = concat (map (url_enc plus) (pre ++ rest)).
Proof.
  revert pre ss. induction rest as [|c rest IH]; intros pre ss HN HS; cbn [UrlEncode_loop].
  - rewrite app_nil_r. destruct ss; [by apply HS|by rewrite HN].
  - assert (E : pre ++ c :: rest = (pre ++ [c]) ++ rest) by (by rewrite <- app_assoc).
    assert (L : S (length pre) = length (pre ++ [c])) by (rewrite length_app; simpl; lia).
    assert (X : concat (map (url_enc plus) (pre ++ [c])) = concat (map (url_enc plus) pre) ++ url_enc plus c)
      by (by rewrite map_app, concat_app; simpl; rewrite app_nil_r).
    assert (A : alloc_copy ss (pre ++ c :: rest) (length pre) = concat (map (url_enc plus) pre)).
    { destruct ss; simpl; [by apply HS|]. rewrite take_app_length. by rewrite HN. }
    cbv zeta. destruct (CHAR_IS_UNRESERVED c) eqn:U; cbn [negb].
    + pose proof (url_enc_unreserved plus c U) as Ec. rewrite E, L. apply IH.
      * intros En. destruct ss; [done|]. by rewrite X, HN, Ec.
      * intros out Eo. destruct ss as [x|]; [|done]. injection Eo as <-. by rewrite X, (HS x), Ec.
    + rewrite A, url_enc_step, E, L by done. apply IH; [done|]. intros out [= <-]. done.
Qed.

Lemma UrlEncode_spec str plus : UrlEncode str plus = concat (map (url_enc plus) str).
Proof. apply (UrlEncode_loop_spec plus str [] None); [done|congruence]. Qed.

Lemma xdigit_value d1 d2 :
  isxdigit d1 = true -> isxdigit d2 = true ->
  z2b (Z.lor (Z.shiftl (nth (Z.to_nat (b2s d1)) xdigit_chars 0) 4) (nth (Z.to_nat (b2s d2)) xdigit_chars 0))
  = z2b (16 * nth (Z.to_nat (b2z d1)) xdigit_chars 0 + nth (Z.to_nat (b2z d2)) xdigit_chars 0).
Proof.
  intros H1 H2.
  assert (forall d, isxdigit d = true ->
    nth (Z.to_nat (b2s d)) xdigit_chars 0 = nth (Z.to_nat (b2z d)) xdigit_chars 0 /\
    0 <= nth (Z.to_nat (b2z d)) xdigit_chars 0 < 2 ^ 4) as K
    by (intros d Hd; destruct d; try discriminate Hd; vm_compute; repeat split; congruence).
  destruct (K d1 H1) as [-> R1], (K d2 H2) as [-> R2].
  rewrite Z.lor_comm, lor_shiftl_add by lia. f_equal. lia.
Qed.

Lemma UrlDecode_loop_spec plus rest n pre ss out0 :
  (length rest <= n)%nat ->
  alloc_copy ss (pre ++ rest) (length pre) = out0 ->
  match UrlDecode_loop (pre ++ rest) plus (length pre) rest ss with
  | None => pre ++ rest | Some out => out end
  = out0 ++ url_dec plus rest.
Proof.
  revert rest pre ss out0. induction n as [|n IH]; intros rest pre ss out0 Hn <-.
  { destruct rest; [|simpl in Hn; lia]. simpl. destruct ss; simpl; by rewrite !app_nil_r, ?take_ge by len_lia. }
  destruct rest as [|c rest].
  { simpl. destruct ss; simpl; rewrite !app_nil_r; [done|]. by rewrite take_ge. }
  simpl in Hn.
  assert (E : pre ++ c :: rest = (pre ++ [c]) ++ rest) by (by rewrite <- app_assoc).
  assert (L : S (length pre) = length (pre ++ [c])) by (rewrite length_app; simpl; lia).
  assert (O : match UrlDecode_loop (pre ++ c :: rest) plus (S (length pre)) rest
      (option_map (fun out => out ++ [c]) ss) with None => pre ++ c :: rest | Some out => out end
    = alloc_copy ss (pre ++ c :: rest) (length pre) ++ c :: url_dec plus rest).
  { pose proof (IH rest (pre ++ [c]) (option_map (fun out => out ++ [c]) ss) _ ltac:(lia) eq_refl) as K.
    rewrite <- E, <- L in K. rewrite K. change (c :: url_dec plus rest) with ([c] ++ url_dec plus rest).
    rewrite app_assoc. f_equal. destruct ss; simpl; [done|].
    rewrite take_app_length, E, L. apply take_app_length. }
  cbn [UrlDecode_loop url_dec].
  destruct (bool_decide (c = x2b) && plus).
  - pose proof (fun ss => IH rest (pre ++ [c]) (Some ss) _ ltac:(lia) eq_refl) as K.
    rewrite <- E, <- L in K. rewrite K. simpl. by rewrite <- app_assoc.
  - destruct rest as [|d1 [|d2 rest]]; [exact O|exact O|].
    destruct (bool_decide (c = x25) && isxdigit d1 && isxdigit d2) eqn:D; [|exact O].
    apply andb_prop in D as [[_ H1]%andb_prop H2]. cbv zeta.
    assert (E3 : pre ++ c :: d1 :: d2 :: rest = (pre ++ [c; d1; d2]) ++ rest) by (by rewrite <- app_assoc).
    assert (L3 : (length pre + 3)%nat = length (pre ++ [c; d1; d2])) by (by rewrite length_app).
    pose proof (fun ss => IH rest (pre ++ [c; d1; d2]) (Some ss) _ ltac:(simpl in Hn; lia) eq_refl) as K.
    rewrite <- E3, <- L3 in K. rewrite K. cbn [alloc_copy]. by rewrite <- app_assoc, xdigit_value.
Qed.

Lemma UrlDecode_spec str plus : UrlDecode str plus = url_dec plus str.
Proof.
  apply (UrlDecode_loop_spec plus str (length str) [] None []); [lia|done].
Qed.

Lemma url_dec_enc p q c t : url_dec (p || q) (url_enc p c ++ t) = c :: url_dec (p || q) t.
Proof. destruct t as [|d1 [|d2 t]], p, q, c; reflexivity. Qed.

Lemma url_enc_length p s : (length s <= length (concat (map (url_enc p) s)))%nat.
Proof.
  induction s as [|c s IH]; simpl; [lia|]. rewrite length_app.
  assert (0 < length (url_enc p c))%nat by (by destruct p, c; apply Nat.ltb_lt). lia.
Qed.

Lemma url_enc_alphabet p c :
  Forall (fun d => d ∈ unreserved ++ [x25; x2b]) (url_enc p c).
Proof.
  apply (List.Forall_forall (fun d => d ∈ unreserved ++ [x25; x2b])). intros d Hd.
  apply (bool_decide_eq_true (d ∈ unreserved ++ [x25; x2b])).
  revert d Hd. apply List.forallb_forall. destruct p, c; reflexivity.
Qed.

(** ** Splitting *)

Lemma SplitString_loop_spec d (D : d <> []) fuel str last result l :
  (last <= length str)%nat -> (length str - last < fuel)%nat ->
  segments (string_sep d D) (drop last str) l ->
  SplitString_loop fuel str d last result = Ok (result ++ filter (fun x => x <> []) l).
Proof.
  revert last result l. induction fuel as [|fuel IH]; intros last result l Hl Hf G; [lia|].
  cbn [SplitString_loop]. rewrite from_ok by done.
  inversion G as [s F E1 E2|s i l' F G' E1 E2]; subst; simpl in F.
  - rewrite F. simpl. destruct (Nat.ltb_spec last (length str)).
    + rewrite substr_from_ok by lia. simpl.
      rewrite filter_cons_True; [done|]. intros K%(f_equal length). rewrite length_drop in K. simpl in K. lia.
    + rewrite drop_ge by lia. simpl. by rewrite app_nil_r.
  - rewrite F. cbn [fmap option_fmap option_map].
    pose proof (sep_fits (string_sep d D) _ _ F) as B. simpl in B. rewrite length_drop in B.
    assert (0 < length d)%nat by (destruct d; [done|simpl; lia]).
    assert (Hd : drop (last + i + length d) str = drop (i + length d) (drop last str))
      by (rewrite drop_drop; f_equal; lia).
    destruct (Nat.ltb_spec last (last + i)).
    + rewrite substr_ok by lia. cbn [rbind].
      rewrite (IH _ _ l'); [|lia|lia|by rewrite Hd].
      replace (last + i - last)%nat with i by lia. rewrite <- app_assoc.
      f_equal. f_equal. cbn [app]. rewrite filter_cons_True; [done|].
      intros K%(f_equal length). rewrite length_take, length_drop in K. simpl in K. lia.
    + cbn [rbind]. rewrite (IH _ _ l'); [|lia|lia|by rewrite Hd].
      replace i with 0%nat by lia. f_equal.
Qed.

(** ** Trimming *)

(** Splitting a string at the bytes of a set: a prefix and a suffix inside the set
    around a middle that neither begins nor ends in it. *)
Lemma trim_shape P (str : list byte) :
  exists a m b, str = a ++ m ++ b /\
    Forall (fun c => P c = true) a /\ Forall (fun c => P c = true) b /\
    (m = [] -> b = []) /\
    (forall c, m !! 0%nat = Some c -> P c = false) /\ (forall c, m !! (length m - 1)%nat = Some c -> P c = false) /\
    find_if (fun c => negb (P c)) str = (if is_empty m then None else Some (length a)) /\
    find_last_if (fun c => negb (P c)) str =
      (if is_empty m then None else Some (length a + length m - 1)%nat).
Proof.
  destruct (find_if (fun c => negb (P c)) str) as [i|] eqn:F.
  - destruct (find_last_if (fun c => negb (P c)) str) as [j|] eqn:G.
    2:{ apply find_last_if_none, find_if_none in G. congruence. }
    apply find_if_some in F as (a & c & r & -> & <- & Hc & Ha).
    assert (exists r1 d r2, c :: r = r1 ++ d :: r2 /\ P d = false /\ Forall (fun c => P c = true) r2 /\
              j = (length a + length r1)%nat) as (r1 & d & r2 & E & Hd & Hr & ->).
    { apply find_last_if_some in G as (u & d & v & E & <- & Hd & Hv).
      assert (length a <= length u)%nat as Hl.
      { destruct (Nat.lt_ge_cases (length u) (length a)); [|lia]. exfalso.
        apply (f_equal (fun l => l !! length u)) in E.
        rewrite lookup_app_l, lookup_app_r, Nat.sub_diag in E by lia. simpl in E.
        rewrite Forall_lookup in Ha. specialize (Ha _ _ E). simpl in Ha. rewrite Ha in Hd. done. }
      exists (drop (length a) u), d, v. split_and!.
      - apply (f_equal (drop (length a))) in E. rewrite drop_app_length in E. rewrite E.
        by rewrite drop_app_le.
      - by destruct (P d).
      - eapply Forall_impl; [|exact Hv]. intros x. simpl. by destruct (P x).
      - rewrite length_drop. lia. }
    exists a, (r1 ++ [d]), r2. rewrite <- app_assoc. simpl. rewrite E.
    split_and!; try done.
    + eapply Forall_impl; [|exact Ha]. intros x. simpl. by destruct (P x).
    + intros K%(f_equal length). rewrite length_app in K. simpl in K. lia.
    + intros x Hx. destruct r1; simpl in *; simplify_eq; [done|]. by destruct (P _).
    + intros x. rewrite length_app. simpl. rewrite Nat.add_sub, lookup_app_r, Nat.sub_diag by lia.
      by intros [= <-].
    + by destruct r1.
    + destruct r1; simpl; f_equal; rewrite ?length_app; simpl; lia.
  - exists str, [], []. rewrite !app_nil_r. split_and!; try done.
    + apply find_if_none in F. eapply Forall_impl; [|exact F]. intros x. simpl. by destruct (P x).
    + by apply find_last_if_none, find_if_none.
Qed.

(** ** The parts of a path *)

Lemma in_set_true l b : in_set l b = true <-> b ∈ l.
Proof. apply bool_decide_eq_true. Qed.

(** The last byte of a set, found or not. *)
Lemma find_last_of_split l s :
  match find_last_of l s with
  | None => Forall (fun c => c ∉ l) s
  | Some i => exists a c b, s = a ++ c :: b /\ length a = i /\ c ∈ l /\ Forall (fun c => c ∉ l) b
  end.
Proof.
  assert (N : forall x, in_set l x = false -> x ∉ l) by (intros x H; by apply bool_decide_eq_false in H).
  destruct (find_last_of l s) as [i|] eqn:F; unfold find_last_of in F.
  - apply find_last_if_some in F as (a & c & b & -> & E & Hc & Hb).
    exists a, c, b. split_and!; [done|done|by apply in_set_true|eapply Forall_impl; [apply N|exact Hb]].
  - apply find_last_if_none in F. eapply Forall_impl; [apply N|exact F].
Qed.

Lemma dir_and_name (path : list byte) :
  exists dir name, FilePath path = Ok dir /\ FileNameExt path = Ok name /\
    (length name <= length path)%nat /\ (length name = length path -> name = path) /\
    ((Forall (fun c => c ∉ path_separators) path /\ dir = bstr "./" /\ name = path) \/
     (exists d s n, path = d ++ s :: n /\ s ∈ path_separators /\ Forall (fun c => c ∉ path_separators) n /\
        dir = d ++ [s] /\ name = (if is_empty n then path else n))).
Proof.
  unfold FilePath, FileNameExt. pose proof (find_last_of_split path_separators path) as F.
  destruct (find_last_of path_separators path) as [i|].
  - destruct F as (d & s & n & -> & <- & Hs & Hn).
    assert (X : d ++ s :: n = (d ++ [s]) ++ n) by (by rewrite <- app_assoc).
    assert (Y : (length d + 1)%nat = length (d ++ [s])) by (by rewrite length_app).
    exists (d ++ [s]), (if is_empty n then d ++ s :: n else n).
    rewrite substr_ok, Y by (rewrite length_app; simpl; lia).
    split_and!; [unfold slice; rewrite drop_0, X; by rewrite take_app_length| | | |].
    + rewrite X. destruct (Nat.ltb_spec (length (d ++ [s])) (length ((d ++ [s]) ++ n))) as [K|K].
      * rewrite substr_from_ok by lia. rewrite drop_app_length. destruct n; [|done].
        rewrite app_nil_r in K. lia.
      * rewrite length_app in K. destruct n; [done|]. simpl in K. lia.
    + destruct n; simpl; [done|]. rewrite length_app. simpl. lia.
    + destruct n; simpl; [done|]. rewrite length_app. simpl. lia.
    + right. eauto 8.
  - exists (bstr "./"), path. split_and!; try done. by left.
Qed.

(** * The theorems *)

(** [UrlDecode] inverts [UrlEncode] on every string, whether or not spaces are
    written as pluses (a decoder that knows pluses also reads an encoding without
    them); the encoding holds only unreserved characters, escapes and pluses, and
    the unreserved ones are those of the source's comment and the equals sign. *)
Theorem Url_roundtrip (str : list byte) (p q : bool) :
  UrlDecode (UrlEncode str p) (p || q) = str /\
  Forall (fun c => c ∈ unreserved ++ [x25; x2b]) (UrlEncode str p) /\
  (Forall (fun c => c ∈ unreserved) str <-> UrlEncode str p = str).
Proof.
  rewrite UrlDecode_spec, UrlEncode_spec. induction str as [|c str (IH1 & IH2 & IH3)]; [done|].
  simpl. split_and!.
  - rewrite url_dec_enc. by rewrite IH1.
  - apply Forall_app. split; [apply url_enc_alphabet|done].
  - pose proof (unreserved_spec c) as U. destruct (CHAR_IS_UNRESERVED c) eqn:Ec.
    + symmetry in U. apply bool_decide_eq_true in U. rewrite url_enc_unreserved by done. simpl.
      rewrite Forall_cons_iff, IH3. split; [by intros [_ ->]|intros E; by injection E].
    + symmetry in U. apply bool_decide_eq_false in U. split; [by inversion 1|].
      intros E. exfalso. unfold url_enc at 1 in E. rewrite Ec in E.
      destruct (bool_decide (c = x20) && p) eqn:Ep; injection E as E E1.
      * apply andb_prop in Ep as [Ep%bool_decide_eq_true _]. congruence.
      * apply (f_equal length) in E1. simpl in E1. pose proof (url_enc_length p str). lia.
Qed.

(** [SplitString] on a non-empty delimiter returns, in order, the non-empty ones
    of the pieces between its leftmost occurrences; the pieces joined by the
    delimiter are the string, so the result does not throw, loop or lose a byte. *)
Theorem SplitString_segments (str d : list byte) (D : d <> []) :
  exists pieces, segments (string_sep d D) str pieces /\ join d pieces = str /\
    SplitString str d = Ok (filter (fun x => x <> []) pieces).
Proof.
  destruct (segments_total (string_sep d D) str) as [l G]. exists l.
  split_and!; [done|by eapply join_string_segments|].
  unfold SplitString. destruct d as [|c d]; [done|]. simpl is_empty. cbv iota.
  rewrite (SplitString_loop_spec _ D _ _ _ _ l); [done|lia|lia|by rewrite drop_0].
Qed.

(** every string is a middle between two runs of [delimit]; [Trim] returns the
    middle, [TrimLeft] removes the first run, and [TrimRight], whose [substr(0, end)]
    stops before the character it found, loses the last byte of the middle too. *)
Theorem Trim_parts (str delimit : list byte) :
  exists a m b, str = a ++ m ++ b /\
    Forall (fun c => c ∈ delimit) a /\ Forall (fun c => c ∈ delimit) b /\
    (forall c, m !! 0%nat = Some c \/ m !! (length m - 1)%nat = Some c -> c ∉ delimit) /\
    Trim str delimit = Ok m /\
    TrimLeft str delimit = Ok (m ++ b) /\
    TrimRight str delimit = Ok (if is_empty m then [] else take (length a + length m - 1) str).
Proof.
  destruct (trim_shape (in_set delimit) str) as (a & m & b & E & Ha & Hb & Hm & H0 & H1 & F & G).
  exists a, m, b. split_and!.
  - done.
  - eapply Forall_impl; [|exact Ha]. intros x. apply in_set_true.
  - eapply Forall_impl; [|exact Hb]. intros x. apply in_set_true.
  - intros c [K|K]; intros X%in_set_true; [rewrite (H0 c K) in X|rewrite (H1 c K) in X]; done.
  - unfold Trim, find_first_not_of, find_last_not_of. rewrite F, G.
    destruct m as [|c m]; [done|]. simpl is_empty. cbv iota. subst str.
    rewrite substr_ok by (rewrite length_app; lia). f_equal. simpl length.
    replace (length a + S (length m) - 1 - length a + 1)%nat with (length (c :: m)) by (simpl; lia).
    replace (length a) with (length a + 0)%nat by lia. rewrite slice_app_r.
    unfold slice. rewrite drop_0. apply take_app_length.
  - unfold TrimLeft, find_first_not_of. rewrite F. destruct m as [|c m]; [by rewrite Hm|].
    simpl is_empty. cbv iota. subst str. rewrite substr_from_ok by (rewrite length_app; lia).
    by rewrite drop_app_length.
  - unfold TrimRight, find_last_not_of. rewrite G. destruct m as [|c m]; [done|].
    simpl is_empty. cbv iota. by rewrite substr_ok by lia.
Qed.

(** the parts of a path, on every path: the directory ends with the last
    separator ("./" when there is none), the name follows it (the whole path when
    nothing does), and the stem and the extension split the name at its last dot
    unless that is its first character or there is none. *)
Theorem Path_parts (path : list byte) :
  exists dir name stem ext,
    FilePath path = Ok dir /\ FileNameExt path = Ok name /\
    FileName path = Ok stem /\ Extension path = Ok ext /\
    ((Forall (fun c => c ∉ path_separators) path /\ dir = bstr "./" /\ name = path) \/
     (exists d s n, path = d ++ s :: n /\ s ∈ path_separators /\ Forall (fun c => c ∉ path_separators) n /\
        dir = d ++ [s] /\ name = (if is_empty n then path else n))) /\
    (((x2e ∉ name \/ (exists t, name = x2e :: t /\ x2e ∉ t)) /\ stem = name /\ ext = []) \/
     (exists a b, name = a ++ x2e :: b /\ a <> [] /\ (x2e ∉ b) /\ stem = a /\
        ext = (if is_empty b && bool_decide (name = path) then [] else x2e :: b))).
Proof.
  destruct (dir_and_name path) as (dir & name & E1 & E2 & L & LE & HD).
  exists dir, name. unfold FileName, Extension. rewrite E2. cbn [rbind].
  pose proof (find_last_of_split (bstr ".") name) as F.
  destruct (find_last_of (bstr ".") name) as [i|].
  - destruct F as (a & c & b & -> & <- & Hc & Hb).
    assert (c = x2e) as -> by (by apply list_elem_of_singleton in Hc).
    assert (Nb : x2e ∉ b).
    { intros K. apply (Forall_elem _ _ _ Hb K). by apply list_elem_of_singleton. }
    destruct a as [|x a].
    + eexists _, _. split_and!; [done|done|done|done|done|]. left. split; [right; eauto|done].
    + eexists (x :: a), (if is_empty b && bool_decide ((x :: a) ++ x2e :: b = path) then [] else x2e :: b).
      cbn [length Nat.eqb negb andb]. split_and!; [done|done| | |done|right; exists (x :: a), b; done].
      * rewrite substr_ok by (rewrite length_app; simpl; lia). f_equal. unfold slice.
        rewrite drop_0. apply (take_app_length (x :: a)).
      * rewrite length_app in L, LE. cbn [length] in L, LE.
        destruct (Nat.ltb_spec (S (length a) + 1) (length path)) as [K|K].
        -- rewrite substr_from_ok by (rewrite length_app; simpl; lia). f_equal.
           change (S (length a)) with (length (x :: a)). rewrite drop_app_length.
           destruct b; [|done]. simpl is_empty. rewrite bool_decide_eq_false_2; [done|].
           intros Q. rewrite <- Q, length_app in K. simpl in K. lia.
        -- destruct b; [|simpl in L; lia]. rewrite bool_decide_eq_true_2; [done|].
           apply LE. simpl in *. lia.
  - exists name, []. split_and!; try done. left. split; [left|done].
    intros K. apply (Forall_elem _ _ _ F K). by apply list_elem_of_singleton.
Qed.

(** ** The theorems at concrete strings *)

Lemma SplitString_segments_witness : exists pieces, SplitString (bstr "a--b---") (bstr "--") = Ok pieces.
Proof.
  destruct (SplitString_segments (bstr "a--b---") (bstr "--") ltac:(discriminate)) as (l & _ & _ & E).
  eexists. exact E.
Defined.

Example TrimRight_drops : TrimRight (bstr "abc  ") (bstr " ") = Ok (bstr "ab").
Proof. reflexivity. Qed.
