(* ===== verification/HashUtil.v ===== *)
(** The hashing and text-coding utilities ([include/util/hash_util.hpp],
    [src/util/hash_util.cpp]): MurmurHash3 and the multiplicative hash, base64,
    hexadecimal, HMAC, replacing and splitting.

    A pointer is an option, the memory it points to a list of bytes, and a read
    outside it a [Crash]. [murmur3_hash] loads 32-bit words in the host's order. The
    digests of OpenSSL are parameters. [reserve] has no effect and is left out. *)
From S2P Require Import Prelude Endian CppString.

(** ** Hashes *)

Definition ROTL (x r : Z) : Z := Z.lor (u32 (Z.shiftl x r)) (Z.shiftr x (32 - r)).

Definition fmix32 (h : Z) : Z :=
  let h := Z.lxor h (Z.shiftr h 16) in
  let h := u32 (h * 0x85ebca6b) in
  let h := Z.lxor h (Z.shiftr h 13) in
  let h := u32 (h * 0xc2b2ae35) in
  Z.lxor h (Z.shiftr h 16).

Definition seed1 : Z := 0xcc9e2d51.
Definition seed2 : Z := 0x1b873593.

Section murmur.
Context {host : Host}.

(** [ptr[i]], a load of four bytes. *)
Definition load32 (mem : list byte) (i : Z) : res Z :=
  if (0 <=? 4 * i) && (4 * i + 4 <=? len mem)
  then Ok (of_mem (slice (Z.to_nat (4 * i)) 4 mem)) else Crash out_of_bounds.

Definition load8 (mem : list byte) (i : Z) : res Z :=
  if (0 <=? i) && (i <? len mem) then Ok (b2z (nth (Z.to_nat i) mem x00)) else Crash out_of_bounds.

Definition mix_word (s : Z) : Z :=
  let s := u32 (s * seed1) in
  let s := ROTL s 15 in
  u32 (s * seed2).

(** The loop over the whole words, [i] of them still to come. *)
Fixpoint murmur3_blocks (mem : list byte) (blk : nat) (i : Z) (h : Z) : res Z :=
  match blk with
  | O => Ok h
  | S blk =>
      let! s := load32 mem i in
      let h := Z.lxor h (mix_word s) in
      let h := ROTL h 13 in
      let h := u32 (h * 5) in
      let h := u32 (h + 0xe6546b64) in
      murmur3_blocks mem blk (i + 1) h
  end.

(** The switch over the remaining bytes, its cases falling through. *)
Definition murmur3_tail (mem : list byte) (tail : Z) (n : Z) (h : Z) : res Z :=
  let! s := if n =? 3 then let! t := load8 mem (tail + 2) in Ok (Z.shiftl t 16) else Ok 0 in
  let! s := if 2 <=? n then let! t := load8 mem (tail + 1) in Ok (Z.lor s (Z.shiftl t 8)) else Ok s in
  if 1 <=? n then
    let! t := load8 mem tail in
    Ok (Z.lxor h (mix_word (Z.lor s t)))
  else Ok h.

Definition murmur3_body (mem : list byte) (len seed : Z) : res Z :=
  let blk := Z.quot len 4 in
  let! h := murmur3_blocks mem (Z.to_nat blk) 0 seed in
  let! h := murmur3_tail mem (blk * 4) (Z.land len 3) h in
  Ok (fmix32 (Z.lxor h (u32 len))).

(** [murmur3_hash(const void *, size, seed)]. *)
Definition murmur3_hash (data : option (list byte)) (size seed : Z) : res Z :=
  match data with
  | None => Ok 0
  | Some mem => murmur3_body mem (s32 size) seed
  end.

(** [strlen]: the terminator must be inside the memory. *)
Definition strlen (mem : list byte) : res Z :=
  match find_char x00 mem with Some n => Ok (Z.of_nat n) | None => Crash out_of_bounds end.

(** [murmur3_hash(const char *, seed)]. *)
Definition murmur3_hash_str (str : option (list byte)) (seed : Z) : res Z :=
  match str with
  | None => Ok 0
  | Some mem => let! n := strlen mem in murmur3_body mem (s32 n) seed
  end.

Definition murmur3_hash64 (data : option (list byte)) (size seed seed2 : Z) : res Z :=
  let! a := murmur3_hash data size seed in
  let! b := murmur3_hash data size seed2 in
  Ok (Z.lor (u64 (Z.shiftl a 32)) b).

Definition murmur3_hash64_str (str : option (list byte)) (seed seed2 : Z) : res Z :=
  let! a := murmur3_hash_str str seed in
  let! b := murmur3_hash_str str seed2 in
  Ok (Z.lor (u64 (Z.shiftl a 32)) b).
End murmur.

(** [quick_hash] of a C string: up to the terminator. *)
Fixpoint quick_hash_loop (str : list byte) (h : Z) : res Z :=
  match str with
  | [] => Crash out_of_bounds
  | c :: t => if bool_decide (c = x00) then Ok h else quick_hash_loop t (u32 (31 * h + b2s c))
  end.

Definition quick_hash (str : list byte) : res Z := quick_hash_loop str 0.

(** [quick_hash] of [size] bytes, whose pointer never moves. *)
Fixpoint quick_hash_void_loop (str : list byte) (n : nat) (h : Z) : res Z :=
  match n with
  | O => Ok h
  | S n => match str with
           | [] => Crash out_of_bounds
           | c :: _ => quick_hash_void_loop str n (u32 (31 * h + b2s c))
           end
  end.

Definition quick_hash_void (tmp : list byte) (size : Z) : res Z :=
  quick_hash_void_loop tmp (Z.to_nat size) 0.

(** ** Base64 *)

Definition base64_table : list byte :=
  bstr "ABCDEFGHIJKLMNOPQRSTUVWXYZabcdefghijklmnopqrstuvwxyz0123456789+/".

(** Pack up to [n] more bytes; returns [packed], [i] and the advanced pointer. *)
Fixpoint encode_pack (n : nat) (packed : Z) (i : nat) (ptr : list byte) : Z * nat * list byte :=
  match n, ptr with
  | S n, c :: ptr => encode_pack n (Z.lor (u32 (Z.shiftl packed 8)) (b2z c)) (S i) ptr
  | _, _ => (packed, i, ptr)
  end.

(** Shift in the missing bytes of the last group. *)
Fixpoint encode_shift (n : nat) (packed : Z) : Z :=
  match n with O => packed | S n => encode_shift n (u32 (Z.shiftl packed 8)) end.

Definition base64_char (packed shift : Z) : byte :=
  nth (Z.to_nat (Z.land (Z.shiftr packed shift) 0x3f)) base64_table x00.

Fixpoint base64encode_loop (fuel : nat) (ptr : list byte) (ret : list byte) : res (list byte) :=
  match ptr, fuel with
  | [], _ => Ok ret
  | _, O => Crash nontermination
  | _, S fuel =>
      let '(packed, i, ptr) := encode_pack 3 0 0 ptr in
      let padding := if (i =? 2)%nat then 1%nat else if (i =? 1)%nat then 2%nat else 0%nat in
      let packed := encode_shift (3 - i) packed in
      let ret := ret ++ [nth (Z.to_nat (Z.shiftr packed 18)) base64_table x00] in
      let ret := ret ++ [base64_char packed 12] in
      let ret := if negb (padding =? 2)%nat then ret ++ [base64_char packed 6] else ret in
      let ret := if (padding =? 0)%nat then ret ++ [base64_char packed 0] else ret in
      base64encode_loop fuel ptr (ret ++ replicate padding x3d)
  end.

Definition base64encode (data : list byte) : res (list byte) :=
  base64encode_loop (length data) data [].

(** The value of a character; [None] for an invalid one. *)
Definition base64_val (c : byte) : option Z :=
  let z := b2s c in
  if (0x41 <=? z) && (z <=? 0x5a) then Some (z - 0x41)
  else if (0x61 <=? z) && (z <=? 0x7a) then Some (z - 0x61 + 26)
  else if (0x30 <=? z) && (z <=? 0x39) then Some (z - 0x30 + 52)
  else if z =? 0x2b then Some 62
  else if z =? 0x2f then Some 63
  else None.

(** One group: up to [n] more characters; [None] is the code's [return ""]. *)
Fixpoint decode_pack (n : nat) (i : nat) (padding packed : Z) (ptr : list byte) :
    option (nat * Z * Z * list byte) :=
  match n, ptr with
  | S n, c :: ptr =>
      if bool_decide (c = x3d) then decode_pack n (S i) (padding + 1) (Z.shiftl packed 6) ptr
      else if 0 <? padding then None
      else match base64_val c with
           | None => None
           | Some val => decode_pack n (S i) padding (Z.lor (Z.shiftl packed 6) val) ptr
           end
  | _, _ => Some (i, padding, packed, ptr)
  end.

(** [*writeBuf++ = c] into the buffer of [cap] bytes. *)
Definition put (cap : nat) (out : list byte) (c : byte) : res (list byte) :=
  if (length out <? cap)%nat then Ok (out ++ [c]) else Crash out_of_bounds.

Fixpoint base64decode_loop (fuel cap : nat) (ptr : list byte) (out : list byte) : res (list byte) :=
  match ptr, fuel with
  | [], _ => Ok out
  | _, O => Crash nontermination
  | _, S fuel =>
      match decode_pack 4 0 0 0 ptr with
      | None => Ok []
      | Some (i, padding, packed, ptr) =>
          if negb (i =? 4)%nat then Ok []
          else if (0 <? padding) && negb (is_empty ptr) then Ok []
          else if 2 <? padding then Ok []
          else
            let! out := put cap out (z2b (Z.land (Z.shiftr packed 16) 0xff)) in
            let! out := if negb (padding =? 2) then put cap out (z2b (Z.land (Z.shiftr packed 8) 0xff)) else Ok out in
            let! out := if padding =? 0 then put cap out (z2b (Z.land packed 0xff)) else Ok out in
            base64decode_loop fuel cap ptr out
      end
  end.

Definition base64decode (src : list byte) : res (list byte) :=
  base64decode_loop (length src) (length src * 3 / 4) src [].

(** ** Hexadecimal *)

Definition hex_char (c : Z) : byte := z2b (if 9 <? c then c + 0x61 - 10 else c + 0x30).

Fixpoint hex_loop (buf : list byte) (output : list byte) : list byte :=
  match buf with
  | [] => output
  | b :: buf =>
      let output := output ++ [hex_char (Z.land (Z.shiftr (b2z b) 4) 0xf)] in
      hex_loop buf (output ++ [hex_char (Z.land (b2z b) 0xf)])
  end.

Definition hexstring_from_data (data : list byte) : list byte :=
  if is_empty data then [] else hex_loop data [].

(** The cases of the two switches; [None] is their default. *)
Definition hex_val (c : byte) : option Z :=
  let z := b2z c in
  if (0x61 <=? z) && (z <=? 0x66) then Some (z - 0x61 + 10)
  else if (0x41 <=? z) && (z <=? 0x46) then Some (z - 0x41 + 10)
  else if (0x30 <=? z) && (z <=? 0x39) then Some (z - 0x30)
  else None.

(** The loop of the pointer version, the characters two by two. *)
Fixpoint unhex_loop (hexstring : list byte) (output : list byte) : res (list byte) :=
  match hexstring with
  | [] => Ok output
  | c :: rest =>
      match hex_val c with
      | None => Throw invalid_argument
      | Some hi =>
          let byte := u8 (Z.shiftl hi 4) in
          match rest with
          | [] => Crash out_of_bounds
          | d :: rest =>
              match hex_val d with
              | None => Throw invalid_argument
              | Some lo => unhex_loop rest (output ++ [z2b (Z.lor byte lo)])
              end
          end
      end
  end.

Definition data_from_hexstring (hexstring : list byte) : res (list byte) :=
  if negb (length hexstring mod 2 =? 0)%nat then Throw invalid_argument
  else if (length hexstring =? 0)%nat then Ok []
  else unhex_loop hexstring [].

(** ** HMAC *)

Section hmac.
(** The hash over the concatenated updates, its block size and its output size. *)
Variables (digest : list byte -> list byte) (B L : nat).

Definition xorStruct (m_value : Z) (c : byte) : byte := z2b (Z.lxor (b2z c) m_value).

(** [Final] writes the digest over the string resized to [L]. *)
Definition hmac (text key : list byte) : res (list byte) :=
  let keyLocal := if (B <? length key)%nat then digest key else key in
  if (B <? length keyLocal)%nat then Throw length_error (* append of 2^64 - n bytes *)
  else
    let keyLocal := keyLocal ++ replicate (B - length keyLocal) x00 in
    let ipad := map (xorStruct 0x36) keyLocal in
    let opad := map (xorStruct 0x5c) keyLocal in
    let result := digest (take B ipad ++ text) in
    Ok (digest (take B opad ++ take L result)).
End hmac.

(** ** Replacing *)

(** A character by a character; the fuel bounds the occurrences. *)
Fixpoint replace_char_loop (fuel : nat) (find replaceWith : byte) (str : list byte) (index : option nat) :
    res (list byte) :=
  match index, fuel with
  | None, _ => Ok str
  | _, O => Crash nontermination
  | Some index, S fuel =>
      let str := <[index := replaceWith]> str in
      replace_char_loop fuel find replaceWith str (from (find_char find) str (index + 1))
  end.

Definition replace_char (str1 : list byte) (find replaceWith : byte) : res (list byte) :=
  replace_char_loop (S (length str1)) find replaceWith str1 (find_char find str1).

(** A match of [width] bytes, found by [search], by a string. *)
Fixpoint replace_loop (fuel : nat) (search : list byte -> option nat) (width : nat) (replaceWith : list byte)
    (str : list byte) (index : option nat) : res (list byte) :=
  match index, fuel with
  | None, _ => Ok str
  | _, O => Crash nontermination
  | Some index, S fuel =>
      let! pre := substr str 0 index in
      let! post := substr_from str (index + width) in
      let str := pre ++ replaceWith ++ post in
      replace_loop fuel search width replaceWith str (from search str (index + length replaceWith))
  end.

Definition replace_char_string (str1 : list byte) (find : byte) (replaceWith : list byte) : res (list byte) :=
  replace_loop (S (length str1)) (find_char find) 1 replaceWith str1 (find_char find str1).

(** With the fuel as an argument: nothing bounds the iterations when [find] is empty. *)
Definition replace_string_fuel (fuel : nat) (str1 find replaceWith : list byte) : res (list byte) :=
  replace_loop fuel (find_sub find) (length find) replaceWith str1 (find_sub find str1).

Definition replace_string (str1 find replaceWith : list byte) : res (list byte) :=
  replace_string_fuel (S (length str1)) str1 find replaceWith.

(** ** Splitting *)

(** The loop of both versions; [max] is a [size_t] that [--max] may wrap around. *)
Fixpoint split_loop (fuel : nat) (search : list byte -> option nat) (str : list byte) (last : nat)
    (pos : option nat) (max : Z) (result : list (list byte)) : res (list (list byte)) :=
  match pos, fuel with
  | None, _ => let! piece := substr_from str last in Ok (result ++ [piece])
  | _, O => Crash nontermination
  | Some pos, S fuel =>
      let! piece := substr str last (pos - last) in
      let result := result ++ [piece] in
      let last := (pos + 1)%nat in
      let max := u64 (max - 1) in
      if max =? 1 then let! piece := substr_from str last in Ok (result ++ [piece])
      else split_loop fuel search str last (from search str last) max result
  end.

(** [max] when the caller gives none: [~0]. *)
Definition split_default : Z := 2 ^ 64 - 1.

Definition split_search (search : list byte -> option nat) (str : list byte) (max : Z) : res (list (list byte)) :=
  if is_empty str then Ok [] else split_loop (S (length str)) search str 0 (search str) max [].

Definition split (str : list byte) (delim : byte) (max : Z) : res (list (list byte)) :=
  split_search (find_char delim) str max.

Definition split_set (str delims : list byte) (max : Z) : res (list (list byte)) :=
  split_search (find_first_of delims) str max.

(** ** Random strings *)

(** [rand] gives the successive values of the C library's generator. *)
Definition random_string (rand : nat -> Z) (n : nat) (chars : list byte) : list byte :=
  if (n =? 0)%nat || is_empty chars then []
  else
    let count := s32 (len chars) in
    map (fun i => nth (Z.to_nat (Z.rem (rand i) count)) chars x00) (seq 0 n).
