(* ===== verification/HashUtilSpec.v ===== *)
(** What the hashing and coding utilities compute: base64 and hexadecimal round
    trips, the two MurmurHash3 entry points, the hash whose pointer stands still, and
    replacing and splitting against the reference [segments]. *)
From S2P Require Import Prelude Endian CppString HashUtil.

(** ** Base64 *)

Definition tbl (k : Z) : byte := nth (Z.to_nat k) base64_table x00.

Lemma tbl_val k : 0 <= k < 64 -> base64_val (tbl k) = Some k /\ tbl k <> x3d.
Proof.
  intros Hk.
  assert (forallb (fun n => bool_decide (base64_val (tbl (Z.of_nat n)) = Some (Z.of_nat n))
            && bool_decide (tbl (Z.of_nat n) <> x3d)) (seq 0 64) = true) as H by (vm_compute; reflexivity).
  rewrite List.forallb_forall in H. specialize (H (Z.to_nat k)). rewrite Z2Nat.id in H by lia.
  rewrite andb_true_iff, !bool_decide_eq_true in H. apply H. apply in_seq. lia.
Qed.

(** The 24-bit number of a group and its four digits. *)
Definition group (a b c : byte) : Z := b2z a * 65536 + b2z b * 256 + b2z c.
Definition digit (n sh : Z) : byte := tbl (n / 2 ^ sh mod 64).

Lemma group_range a b c : 0 <= group a b c < 2 ^ 24.
Proof. pose proof (b2z_range a). pose proof (b2z_range b). pose proof (b2z_range c). unfold group. lia. Qed.

(** The reference encoding. *)
Fixpoint b64 (l : list byte) : list byte :=
  match l with
  | [] => []
  | [a] => let n := group a x00 x00 in [digit n 18; digit n 12; x3d; x3d]
  | [a; b] => let n := group a b x00 in [digit n 18; digit n 12; digit n 6; x3d]
  | a :: b :: c :: l => let n := group a b c in [digit n 18; digit n 12; digit n 6; digit n 0] ++ b64 l
  end.

Lemma list_ind3 {A} (P : list A -> Prop) :
  P [] -> (forall a, P [a]) -> (forall a b, P [a; b]) ->
  (forall a b c l, P l -> P (a :: b :: c :: l)) -> forall l, P l.
Proof.
  intros H0 H1 H2 H3. fix IH 1. intros [|a [|b [|c l]]]; [exact H0|apply H1|apply H2|].
  apply H3, IH.
Qed.

Lemma push_byte p c : 0 <= p < 2 ^ 16 -> Z.lor (u32 (Z.shiftl p 8)) (b2z c) = p * 256 + b2z c.
Proof.
  intros Hp. pose proof (b2z_range c). rewrite Z.shiftl_mul_pow2, u32_small by lia.
  rewrite Z.lor_comm, <- Z.shiftl_mul_pow2, lor_shiftl_add by lia. lia.
Qed.

Lemma base64_char_digit n sh : 0 <= sh -> base64_char n sh = digit n sh.
Proof.
  intros H. unfold base64_char, digit, tbl. rewrite Z.shiftr_div_pow2 by done.
  by rewrite (Z.land_ones _ 6) by lia.
Qed.

Lemma top_digit n : 0 <= n < 2 ^ 24 -> nth (Z.to_nat (Z.shiftr n 18)) base64_table x00 = digit n 18.
Proof.
  intros H. unfold digit, tbl. rewrite Z.shiftr_div_pow2 by lia. rewrite (Z.mod_small (n / 2 ^ 18)); [done|].
  split; [apply Z.div_pos; lia|apply Z.div_lt_upper_bound; lia].
Qed.

Lemma encode_group ptr : ptr <> [] ->
  encode_pack 3 0 0 ptr =
    match ptr with
    | [a] => (b2z a, 1%nat, [])
    | [a; b] => (b2z a * 256 + b2z b, 2%nat, [])
    | a :: b :: c :: r => (group a b c, 3%nat, r)
    | [] => (0, 0%nat, [])
    end.
Proof.
  pose proof (push_byte 0) as P0. pose proof b2z_range as R.
  destruct ptr as [|a [|b [|c r]]]; intros H; [done|..]; cbn [encode_pack].
  - by rewrite P0 by lia.
  - rewrite P0 by lia. pose proof (R a). by rewrite push_byte by lia.
  - rewrite P0 by lia. pose proof (R a). rewrite (push_byte _ b) by lia. pose proof (R b).
    rewrite (push_byte _ c) by lia. unfold group. do 2 f_equal. lia.
Qed.

Lemma base64encode_loop_spec l : forall fuel ret, (length l <= fuel)%nat ->
  base64encode_loop fuel l ret = Ok (ret ++ b64 l).
Proof.
  pose proof b2z_range as R.
  induction l as [|a|a b|a b c l IH] using list_ind3; intros fuel ret Hf;
    [by destruct fuel; simpl; rewrite app_nil_r|..];
    (destruct fuel; [simpl in Hf; lia|]); cbn [base64encode_loop].
  - rewrite encode_group by done. cbn [encode_shift Nat.sub Nat.eqb negb replicate].
    pose proof (R a). rewrite !Z.shiftl_mul_pow2, !u32_small by (rewrite ?u32_small; lia).
    assert (b2z a * 2 ^ 8 * 2 ^ 8 = group a x00 x00) as -> by (unfold group; change (b2z x00) with 0; lia).
    rewrite top_digit by apply group_range. rewrite !base64_char_digit by lia.
    destruct fuel; simpl; by rewrite <- !app_assoc.
  - rewrite encode_group by done. cbn [encode_shift Nat.sub Nat.eqb negb replicate].
    pose proof (R a). pose proof (R b). rewrite !Z.shiftl_mul_pow2, !u32_small by lia.
    assert ((b2z a * 256 + b2z b) * 2 ^ 8 = group a b x00) as -> by (unfold group; change (b2z x00) with 0; lia).
    rewrite top_digit by apply group_range. rewrite !base64_char_digit by lia.
    destruct fuel; simpl; by rewrite <- !app_assoc.
  - rewrite encode_group by done. cbn [encode_shift Nat.sub Nat.eqb negb replicate].
    rewrite top_digit by apply group_range. rewrite !base64_char_digit by lia.
    rewrite IH by (simpl in Hf; lia). rewrite app_nil_r, <- !app_assoc. done.
Qed.

Lemma base64encode_spec l : base64encode l = Ok (b64 l).
Proof. by apply base64encode_loop_spec. Qed.

Lemma length_b64 l : Z.of_nat (length (b64 l)) = 4 * ((Z.of_nat (length l) + 2) / 3).
Proof.
  induction l as [|a|a b|a b c l IH] using list_ind3; [done|done|done|].
  cbn [b64]. rewrite length_app, Nat2Z.inj_add, IH. cbn [length].
  replace (Z.of_nat (S (S (S (length l)))) + 2) with ((Z.of_nat (length l) + 2) + 1 * 3) by lia.
  rewrite Z.div_add by lia. lia.
Qed.

(** *** Decoding *)

Lemma decode_char n i packed k ptr : 0 <= k < 64 -> 0 <= packed ->
  decode_pack (S n) i 0 packed (tbl k :: ptr) = decode_pack n (S i) 0 (packed * 64 + k) ptr.
Proof.
  intros Hk Hp. destruct (tbl_val k Hk) as [V NE]. cbn [decode_pack].
  rewrite bool_decide_eq_false_2, V by done. cbn. f_equal.
  rewrite Z.lor_comm, lor_shiftl_add by lia. lia.
Qed.

Lemma decode_pad n i p packed ptr :
  decode_pack (S n) i p packed (x3d :: ptr) = decode_pack n (S i) (p + 1) (packed * 64) ptr.
Proof. cbn [decode_pack]. rewrite bool_decide_eq_true_2 by done. by rewrite Z.shiftl_mul_pow2. Qed.

Lemma digit_range n sh : 0 <= n / 2 ^ sh mod 64 < 64.
Proof. apply Z.mod_pos_bound. lia. Qed.

(** Four digits rebuild the number. *)
Lemma digits_sum n : 0 <= n < 2 ^ 24 ->
  (((0 * 64 + n / 2 ^ 18 mod 64) * 64 + n / 2 ^ 12 mod 64) * 64 + n / 2 ^ 6 mod 64) * 64 + n / 2 ^ 0 mod 64 = n.
Proof.
  change (2 ^ 24) with 16777216. change (2 ^ 18) with 262144. change (2 ^ 12) with 4096.
  change (2 ^ 6) with 64. change (2 ^ 0) with 1. intros H.
  Z.to_euclidean_division_equations. lia.
Qed.

Lemma digits_sum_low n sh : 0 <= sh -> n mod 2 ^ (6 + sh) = 0 -> n / 2 ^ sh mod 64 = 0.
Proof.
  intros Hs H. rewrite Z.pow_add_r, Z.mul_comm in H by lia.
  pose proof (Z.pow_pos_nonneg 2 sh ltac:(lia) Hs).
  apply Z.div_exact in H; [|lia]. rewrite H.
  rewrite <- Z.mul_assoc, (Z.mul_comm (2 ^ sh)), Z.div_mul by lia.
  rewrite Z.mul_comm. apply Z.mod_mul. lia.
Qed.

Lemma group_bytes a b c :
  z2b (Z.land (Z.shiftr (group a b c) 16) 0xff) = a /\
  z2b (Z.land (Z.shiftr (group a b c) 8) 0xff) = b /\
  z2b (Z.land (group a b c) 0xff) = c.
Proof.
  pose proof (b2z_range a). pose proof (b2z_range b). pose proof (b2z_range c).
  rewrite !Z.shiftr_div_pow2, !(Z.land_ones _ 8) by lia.
  assert (forall z d, z mod 2 ^ 8 = b2z d -> z2b (z mod 2 ^ 8) = d) as K by (intros z d ->; apply z2b_b2z).
  unfold group. split_and!; apply K.
  - change (2 ^ 16) with 65536. change (2 ^ 8) with 256. Z.to_euclidean_division_equations. lia.
  - change (2 ^ 8) with 256. Z.to_euclidean_division_equations. lia.
  - change (2 ^ 8) with 256. Z.to_euclidean_division_equations. lia.
Qed.

Lemma put_ok cap out c : (length out < cap)%nat -> put cap out c = Ok (out ++ [c]).
Proof. intros H%Nat.ltb_lt. unfold put. by rewrite H. Qed.

Lemma put_length cap out c out' : put cap out c = Ok out' -> length out' = S (length out).
Proof. unfold put. case_match; [|done]. intros [= <-]. rewrite length_app. simpl. lia. Qed.

Lemma decode_full n rest : 0 <= n < 2 ^ 24 ->
  decode_pack 4 0 0 0 (digit n 18 :: digit n 12 :: digit n 6 :: digit n 0 :: rest) = Some (4%nat, 0, n, rest).
Proof.
  intros H. pose proof (digit_range n 18). pose proof (digit_range n 12).
  pose proof (digit_range n 6). pose proof (digit_range n 0). unfold digit.
  rewrite !decode_char by lia. simpl decode_pack. by rewrite digits_sum.
Qed.

Lemma decode_pad1 a b : let n := group a b x00 in
  decode_pack 4 0 0 0 [digit n 18; digit n 12; digit n 6; x3d] = Some (4%nat, 1, n, []).
Proof.
  intros n. pose proof (digit_range n 18). pose proof (digit_range n 12).
  pose proof (digit_range n 6). pose proof (digit_range n 0). unfold digit.
  rewrite !decode_char, decode_pad by lia. simpl decode_pack.
  rewrite <- (digits_sum n) at 4 by apply group_range.
  rewrite (digits_sum_low n 0); [by rewrite Z.add_0_r|lia|].
  unfold n, group. change (b2z x00) with 0. change (2 ^ (6 + 0)) with 64.
  Z.to_euclidean_division_equations. lia.
Qed.

Lemma decode_pad2 a : let n := group a x00 x00 in
  decode_pack 4 0 0 0 [digit n 18; digit n 12; x3d; x3d] = Some (4%nat, 2, n, []).
Proof.
  intros n. pose proof (digit_range n 18). pose proof (digit_range n 12).
  pose proof (digit_range n 6). pose proof (digit_range n 0). unfold digit.
  rewrite !decode_char, !decode_pad by lia. simpl decode_pack.
  rewrite <- (digits_sum n) at 3 by apply group_range.
  rewrite (digits_sum_low n 0), (digits_sum_low n 6); [by rewrite !Z.add_0_r|lia| |lia|];
    unfold n, group; change (b2z x00) with 0.
  - change (2 ^ (6 + 6)) with 4096. Z.to_euclidean_division_equations. lia.
  - change (2 ^ (6 + 0)) with 64. Z.to_euclidean_division_equations. lia.
Qed.

Lemma base64decode_loop_b64 l : forall fuel cap out,
  (length (b64 l) <= fuel)%nat -> (length out + length l <= cap)%nat ->
  base64decode_loop fuel cap (b64 l) out = Ok (out ++ l).
Proof.
  induction l as [|a|a b|a b c l IH] using list_ind3; intros fuel cap out Hf Hc;
    [by destruct fuel; simpl; rewrite app_nil_r|..];
    (destruct fuel; [simpl in Hf; lia|]); cbn [length] in Hc; cbn [b64]; cbv zeta.
  - cbn [base64decode_loop]. rewrite decode_pad2.
    destruct (group_bytes a x00 x00) as (Ea & Eb & Ec). simpl (negb _). cbv iota.
    simpl (_ && _). simpl (2 <? 2). cbv iota. rewrite put_ok, Ea by lia. cbn [rbind].
    by destruct fuel.
  - cbn [base64decode_loop]. rewrite decode_pad1.
    destruct (group_bytes a b x00) as (Ea & Eb & Ec). simpl (negb _). cbv iota.
    simpl (_ && _). simpl (2 <? 1). cbv iota. rewrite put_ok, Ea by lia. cbn [rbind].
    rewrite put_ok, Eb by (rewrite length_app; simpl; lia). cbn [rbind].
    rewrite <- app_assoc. by destruct fuel.
  - cbn [base64decode_loop app]. rewrite decode_full by apply group_range.
    destruct (group_bytes a b c) as (Ea & Eb & Ec). simpl (negb _). cbv iota.
    simpl (_ && _). simpl (2 <? 0). cbv iota. rewrite put_ok, Ea by lia. cbn [rbind].
    rewrite put_ok, Eb by (rewrite length_app; simpl; lia). cbn [rbind].
    rewrite put_ok, Ec by (rewrite !length_app; simpl; lia). cbn [rbind].
    change (2 <? 0) with false. change (0 =? 0) with true. cbn [rbind].
    rewrite IH; [by rewrite <- !app_assoc|cbn [b64 app length] in Hf; lia|rewrite !length_app; simpl; lia].
Qed.

Lemma decode_pack_consumes n : forall i p k ptr i' p' k' ptr',
  decode_pack n i p k ptr = Some (i', p', k', ptr') ->
  (length ptr = (i' - i) + length ptr')%nat /\ (i <= i' <= i + n)%nat /\ (i' = i + n \/ ptr' = [])%nat.
Proof.
  induction n as [|n IH]; intros i p k ptr i' p' k' ptr'; cbn [decode_pack].
  { intros [= <- <- <- <-]. split_and!; first [lia|left; lia]. }
  destruct ptr as [|c ptr].
  { intros [= <- <- <- <-]. split_and!; [simpl|..]; first [lia|by right]. }
  destruct (bool_decide (c = x3d)); [|destruct (0 <? p); [done|destruct (base64_val c); [|done]]];
    intros (H1 & H2 & H3)%IH; cbn [length]; (split_and!; [lia|lia|lia|]);
    (destruct H3; [left; lia|by right]).
Qed.

(** Whatever the input, the decoder returns and stays inside its buffer; an input
    that is not made of whole groups gives the empty string. *)
Lemma base64decode_loop_total fuel : forall cap ptr out,
  (length ptr <= fuel)%nat -> (length out + 3 * (length ptr / 4) <= cap)%nat ->
  exists d, base64decode_loop fuel cap ptr out = Ok d /\ (length d <= cap)%nat /\
    (length ptr mod 4 <> 0 -> d = [])%nat.
Proof.
  induction fuel as [|fuel IH]; intros cap ptr out Hf Hc.
  { destruct ptr; [|simpl in Hf; lia]. exists out. simpl in Hc. split_and!; [done|lia|]. done. }
  destruct ptr as [|c ptr0]; [exists out; simpl in Hc; split_and!; [done|lia|done]|].
  remember (c :: ptr0) as ptr eqn:Ep.
  assert (exists d : list byte, Ok (@nil byte) = Ok d /\ (length d <= cap)%nat /\
    (length ptr mod 4 <> 0 -> d = [])%nat) as Z by (exists []; split_and!; [done|simpl; lia|done]).
  replace (base64decode_loop (S fuel) cap ptr out) with
    (match decode_pack 4 0 0 0 ptr with
      | None => Ok []
      | Some (i, padding, packed, ptr) =>
          if negb (i =? 4)%nat then Ok []
          else if (0 <? padding) && negb (is_empty ptr) then Ok []
          else if 2 <? padding then Ok []
          else
            let! out := put cap out (z2b (Z.land (Z.shiftr packed 16) 0xff)) in
            let! out := if negb (padding =? 2) then put cap out (z2b (Z.land (Z.shiftr packed 8) 0xff)) else Ok out in
            let! out := if padding =? 0 then put cap out (z2b (Z.land packed 0xff)) else Ok out in
            base64decode_loop fuel cap ptr out
      end) by (by rewrite Ep).
  destruct (decode_pack 4 0 0 0 ptr) as [[[[i p] k] r]|] eqn:E; [|exact Z].
  apply decode_pack_consumes in E as (E1 & E2 & E3).
  destruct (Nat.eqb_spec i 4) as [->|]; cbn [negb]; [|exact Z].
  destruct ((0 <? p) && negb (is_empty r)); [exact Z|]. destruct (2 <? p); [exact Z|].
  assert (length ptr = length r + 1 * 4)%nat as EL by lia. rewrite EL in Hc |- *.
  rewrite Nat.div_add in Hc by lia. rewrite Nat.Div0.mod_add.
  rewrite put_ok by lia. cbn [rbind].
  assert (forall c, length (out ++ [c]) = S (length out)) as L1 by (intros; rewrite length_app; simpl; lia).
  destruct (negb (p =? 2)); cbn [rbind]; [rewrite put_ok by (rewrite L1; lia); cbn [rbind]|];
    (destruct (p =? 0); cbn [rbind]; [rewrite put_ok by (rewrite !length_app; cbn [length]; lia); cbn [rbind]|]);
    (apply IH; [lia|rewrite !length_app; cbn [length]; lia]).
Qed.

(** ** Hexadecimal *)

Definition hex_of (b : byte) : list byte :=
  [hex_char (Z.land (Z.shiftr (b2z b) 4) 0xf); hex_char (Z.land (b2z b) 0xf)].

Lemma hex_loop_spec l : forall out, hex_loop l out = out ++ concat (map hex_of l).
Proof.
  induction l as [|b l IH]; intros out; simpl; [by rewrite app_nil_r|].
  rewrite IH, <- !app_assoc. done.
Qed.

Lemma hexstring_spec l : hexstring_from_data l = concat (map hex_of l).
Proof. unfold hexstring_from_data. rewrite hex_loop_spec. by destruct l. Qed.

Lemma length_hex l : length (concat (map hex_of l)) = (2 * length l)%nat.
Proof. induction l; simpl in *; lia. Qed.

Lemma unhex_hex b rest out : unhex_loop (hex_of b ++ rest) out = unhex_loop rest (out ++ [b]).
Proof. by destruct b. Qed.

Lemma unhex_loop_hex l : forall out, unhex_loop (concat (map hex_of l)) out = Ok (out ++ l).
Proof.
  induction l as [|b l IH]; intros out; [by simpl; rewrite app_nil_r|].
  cbn [map concat]. rewrite unhex_hex, IH, <- app_assoc. done.
Qed.

(** The lower-case form of a hexadecimal digit. *)
Definition lower (c : byte) : byte :=
  if (0x41 <=? b2z c) && (b2z c <=? 0x46) then z2b (b2z c + 32) else c.

Lemma hex_val_range c v : hex_val c = Some v -> 0 <= v < 16.
Proof. unfold hex_val. repeat case_match; intros [= <-]; lia. Qed.

Lemma hex_val_lower c v : hex_val c = Some v -> hex_char v = lower c.
Proof. destruct c; try discriminate; vm_compute; by intros [= <-]. Qed.

Lemma hex_of_pair v w : 0 <= v < 16 -> 0 <= w < 16 ->
  hex_of (z2b (Z.lor (u8 (Z.shiftl v 4)) w)) = [hex_char v; hex_char w].
Proof.
  intros Hv Hw. rewrite u8_small by (rewrite Z.shiftl_mul_pow2; lia).
  rewrite Z.lor_comm, lor_shiftl_add by lia. unfold hex_of. rewrite b2z_z2b_small by lia.
  rewrite Z.shiftr_div_pow2, !(Z.land_ones _ 4) by lia. change (2 ^ 4) with 16.
  repeat f_equal; Z.to_euclidean_division_equations; lia.
Qed.

(** Decoding succeeds exactly on pairs of digits, and encoding then gives them back
    in lower case. *)
Lemma unhex_loop_spec n : forall l out, (length l <= n)%nat -> (length l mod 2 = 0)%nat ->
  (Forall (fun c => is_Some (hex_val c)) l ->
     exists d, unhex_loop l out = Ok (out ++ d) /\ concat (map hex_of d) = map lower l) /\
  (~ Forall (fun c => is_Some (hex_val c)) l -> unhex_loop l out = Throw invalid_argument).
Proof.
  induction n as [|n IH]; intros l out Hl Hm.
  { destruct l; [|simpl in Hl; lia]. split; [exists []; simpl; by rewrite app_nil_r|by intros []]. }
  destruct l as [|c [|d l]].
  - split; [exists []; simpl; by rewrite app_nil_r|by intros []].
  - done.
  - assert (length l mod 2 = 0)%nat as Hm'.
    { replace (length (c :: d :: l)) with (length l + 1 * 2)%nat in Hm by (simpl; lia).
      by rewrite Nat.Div0.mod_add in Hm. }
    cbn [unhex_loop]. rewrite !Forall_cons_iff.
    destruct (hex_val c) as [v|] eqn:Ec; [|split; [by intros ([? [=]] & _)|done]].
    destruct (hex_val d) as [w|] eqn:Ed; [|split; [by intros (_ & [? [=]] & _)|done]].
    destruct (IH l (out ++ [z2b (Z.lor (u8 (Z.shiftl v 4)) w)]) ltac:(simpl in Hl; lia) Hm') as [I1 I2].
    split.
    + intros (_ & _ & F). destruct (I1 F) as (x & -> & Ex).
      exists (z2b (Z.lor (u8 (Z.shiftl v 4)) w) :: x). rewrite <- app_assoc. split; [done|].
      cbn [map concat]. rewrite hex_of_pair by (by eapply hex_val_range). rewrite Ex.
      by rewrite (hex_val_lower c v), (hex_val_lower d w).
    + intros F. apply I2. intros K. apply F. eauto.
Qed.

(** ** MurmurHash3 *)

Section murmur.
Context {host : Host}.

Definition murmur_step (h s : Z) : Z := u32 (u32 (ROTL (Z.lxor h (mix_word s)) 13 * 5) + 0xe6546b64).

(** The reference: the words in order, then the last bytes. *)
Fixpoint murmur_ref (l : list byte) (h : Z) : Z :=
  match l with
  | a :: b :: c :: d :: r => murmur_ref r (murmur_step h (of_mem [a; b; c; d]))
  | [] => h
  | l => Z.lxor h (mix_word (of_le l))
  end.

Definition murmur3 (l : list byte) (seed : Z) : Z := fmix32 (Z.lxor (murmur_ref l seed) (len l)).

Lemma murmur_ref_words l : forall rest h, (length l mod 4 = 0)%nat ->
  murmur_ref (l ++ rest) h = murmur_ref rest (murmur_ref l h).
Proof.
  remember (length l) as n eqn:E. revert l E. induction n as [n IH] using lt_wf_ind. intros l -> rest h Hm.
  destruct l as [|a [|b [|c [|d l]]]]; try discriminate Hm; [done|].
  cbn [app murmur_ref]. apply (IH (length l)); [simpl; lia|done|].
  replace (length (a :: b :: c :: d :: l)) with (length l + 1 * 4)%nat in Hm by (simpl; lia).
  by rewrite Nat.Div0.mod_add in Hm.
Qed.

Lemma load32_ok mem i : 0 <= i -> 4 * i + 4 <= len mem ->
  load32 mem i = Ok (of_mem (slice (Z.to_nat (4 * i)) 4 mem)).
Proof. intros H1 H2. unfold load32. by rewrite !(proj2 (Z.leb_le _ _)) by lia. Qed.

Lemma load8_ok mem i : 0 <= i < len mem -> load8 mem i = Ok (b2z (nth (Z.to_nat i) mem x00)).
Proof. intros H. unfold load8. by rewrite (proj2 (Z.leb_le _ _)), (proj2 (Z.ltb_lt _ _)) by lia. Qed.

(** The loop over the words of [l], with [pre] before them and [post] behind. *)
Lemma murmur3_blocks_spec pre l post h blk :
  length l = (4 * blk)%nat -> (length pre mod 4 = 0)%nat ->
  murmur3_blocks (pre ++ l ++ post) blk (len pre / 4) h = Ok (murmur_ref l h).
Proof.
  revert pre l h. induction blk as [|blk IH]; intros pre l h Hl Hp.
  { by destruct l. }
  assert (4 * (len pre / 4) = len pre) as E4.
  { apply Nat.Div0.div_exact in Hp. unfold len. change 4 with (Z.of_nat 4).
    rewrite <- Nat2Z.inj_div. lia. }
  destruct l as [|a [|b [|c [|d l]]]]; try (simpl in Hl; lia).
  cbn [murmur3_blocks]. rewrite load32_ok; [|unfold len in *; lia|unfold len in *; rewrite !length_app; cbn [length]; lia].
  rewrite E4. unfold len at 1. rewrite Nat2Z.id. cbn [rbind].
  replace (slice (length pre) 4 (pre ++ (a :: b :: c :: d :: l) ++ post)) with [a; b; c; d]
    by (unfold slice; by rewrite drop_app_length).
  replace (pre ++ (a :: b :: c :: d :: l) ++ post) with ((pre ++ [a; b; c; d]) ++ l ++ post)
    by (by rewrite <- app_assoc).
  replace (len pre / 4 + 1) with (len (pre ++ [a; b; c; d]) / 4)
    by (unfold len; rewrite length_app, Nat2Z.inj_add; change (Z.of_nat (length [a; b; c; d])) with (1 * 4);
        by rewrite Z.div_add by lia).
  rewrite IH; [done|simpl in Hl; lia|].
  rewrite length_app. change (length [a; b; c; d]) with (1 * 4)%nat. by rewrite Nat.Div0.mod_add.
Qed.

Lemma murmur3_tail_spec pre l post h :
  (length l < 4)%nat -> (length pre mod 4 = 0)%nat ->
  murmur3_tail (pre ++ l ++ post) (len pre) (len l) h = Ok (murmur_ref l h).
Proof.
  intros Hl _. pose proof b2z_range as R.
  assert (B : forall k, (k < length l)%nat ->
    load8 (pre ++ l ++ post) (len pre + Z.of_nat k) = Ok (b2z (nth k l x00))).
  { intros k Hk. rewrite load8_ok by (unfold len; rewrite !length_app; lia). f_equal. f_equal.
    replace (Z.to_nat (len pre + Z.of_nat k)) with (length pre + k)%nat by (unfold len; lia).
    rewrite app_nth2_plus. by apply app_nth1. }
  pose proof (B 0%nat) as B0. pose proof (B 1%nat) as B1. pose proof (B 2%nat) as B2.
  change (Z.of_nat 1) with 1 in B1. change (Z.of_nat 2) with 2 in B2.
  rewrite Z.add_0_r in B0. unfold murmur3_tail.
  destruct l as [|a [|b [|c [|d l]]]]; [done|..|simpl in Hl; lia]; cbn [length nth] in *;
    change (len [_]) with 1; change (len [_; _]) with 2; change (len [_; _; _]) with 3; cbn [Z.leb Z.eqb Z.compare Pos.compare Pos.compare_cont Pos.eqb].
  - rewrite B0 by lia. cbn [rbind murmur_ref of_le]. do 3 f_equal. rewrite Z.lor_0_l. lia.
  - rewrite B1 by lia. cbn [rbind]. rewrite B0 by lia. cbn [rbind murmur_ref of_le]. do 3 f_equal.
    pose proof (R a). rewrite Z.lor_0_l, Z.lor_comm, lor_shiftl_add by lia. lia.
  - rewrite B2 by lia. cbn [rbind]. rewrite B1 by lia. cbn [rbind]. rewrite B0 by lia. cbn [rbind murmur_ref of_le].
    do 3 f_equal. pose proof (R a). pose proof (R b). pose proof (R c).
    rewrite (Z.shiftl_mul_pow2 (b2z b)), (Z.lor_comm (Z.shiftl _ _)), lor_shiftl_add by lia.
    replace (b2z b * 2 ^ 8 + b2z c * 2 ^ 16) with ((b2z b + b2z c * 2 ^ 8) * 2 ^ 8) by lia.
    rewrite <- Z.shiftl_mul_pow2, Z.lor_comm, lor_shiftl_add by lia. lia.
Qed.

Lemma murmur3_body_spec l post seed : len l < 2 ^ 31 ->
  murmur3_body (l ++ post) (len l) seed = Ok (murmur3 l seed).
Proof.
  intros Hl. unfold murmur3_body. set (k := (length l / 4)%nat).
  assert (Q : Z.quot (len l) 4 = Z.of_nat k) by (unfold len, k; rewrite Z.quot_div_nonneg by lia; by rewrite Nat2Z.inj_div).
  pose proof (Nat.div_mod_eq (length l) 4) as D. fold k in D.
  pose proof (Nat.mod_upper_bound (length l) 4 ltac:(lia)) as U.
  rewrite Q, Nat2Z.id, (Z.land_ones _ 2) by lia.
  pose proof (take_drop (4 * k) l) as T.
  assert (L1 : length (take (4 * k) l) = (4 * k)%nat) by (rewrite length_take; lia).
  assert (L2 : length (drop (4 * k) l) = (length l mod 4)%nat) by (rewrite length_drop; lia).
  assert (M : (length (take (4 * k) l) mod 4 = 0)%nat) by (rewrite L1, Nat.mul_comm; apply Nat.Div0.mod_mul).
  pose proof (murmur3_blocks_spec [] (take (4 * k) l) (drop (4 * k) l ++ post) seed k L1 eq_refl) as B.
  rewrite app_nil_l, app_assoc, T in B. change (len [] / 4) with 0 in B. rewrite B. cbn [rbind].
  pose proof (murmur3_tail_spec (take (4 * k) l) (drop (4 * k) l) post (murmur_ref (take (4 * k) l) seed)
    ltac:(lia) M) as C.
  rewrite app_assoc, T in C. replace (len (take (4 * k) l)) with (Z.of_nat k * 4) in C by (unfold len; lia).
  replace (len (drop (4 * k) l)) with (len l mod 2 ^ 2) in C
    by (unfold len; rewrite L2, Nat2Z.inj_mod; done).
  rewrite C. cbn [rbind]. unfold murmur3. rewrite u32_small by (unfold len in *; lia).
  by rewrite <- murmur_ref_words, T.
Qed.

Lemma fmix32_range h : 0 <= h < 2 ^ 32 -> 0 <= fmix32 h < 2 ^ 32.
Proof.
  intros H. unfold fmix32. apply lxor_range; [lia|apply u32_range|].
  apply shiftr_range; [lia|apply u32_range].
Qed.

Lemma mix_word_range s : 0 <= mix_word s < 2 ^ 32.
Proof. apply u32_range. Qed.

Lemma murmur_ref_range l : forall h, 0 <= h < 2 ^ 32 -> 0 <= murmur_ref l h < 2 ^ 32.
Proof.
  remember (length l) as n eqn:E. revert l E. induction n as [n IH] using lt_wf_ind. intros l -> h Hh.
  destruct l as [|a [|b [|c [|d l]]]]; cbn [murmur_ref]; try done;
    try (apply lxor_range; [lia|done|apply mix_word_range]).
  apply (IH (length l)); [simpl; lia|done|apply u32_range].
Qed.

Lemma murmur3_range l seed : 0 <= seed < 2 ^ 32 -> len l < 2 ^ 31 -> 0 <= murmur3 l seed < 2 ^ 32.
Proof.
  intros Hs Hl. apply fmix32_range, lxor_range; [lia|by apply murmur_ref_range|unfold len in *; lia].
Qed.

Lemma strlen_ok l post : x00 ∉ l -> strlen (l ++ x00 :: post) = Ok (len l).
Proof.
  intros H. unfold strlen.
  assert (find_char x00 (l ++ x00 :: post) = Some (length l)) as ->; [|done].
  unfold find_char. induction l as [|c l IH]; [done|]. apply not_elem_of_cons in H as [H1 H2].
  cbn [app find_if length]. unfold is_char at 1. rewrite bool_decide_eq_false_2 by done.
  rewrite IH by done. done.
Qed.
End murmur.

(** ** Replacing and splitting *)

Lemma replace_loop_spec (d : sep) w fuel pre s l :
  (length s < fuel)%nat -> segments d s l ->
  replace_loop fuel (sep_search d) (sep_width d) w (pre ++ s) (from (sep_search d) (pre ++ s) (length pre))
  = Ok (pre ++ join w l).
Proof.
  revert pre s l. induction fuel as [|fuel IH]; intros pre s l Hf G; [lia|].
  rewrite from_ok, drop_app_length by (rewrite length_app; lia).
  inversion G as [s0 F E1 E2|s0 i l' F G' E1 E2]; subst; rewrite F; cbn [fmap option_fmap option_map].
  - done.
  - cbn [replace_loop]. pose proof (sep_fits d s i F). pose proof (sep_pos d).
    rewrite substr_ok, substr_from_ok by (rewrite length_app; lia). cbn [rbind].
    unfold slice. rewrite drop_0, take_app_add, <- Nat.add_assoc, drop_app_add.
    replace (length pre + i + length w)%nat with (length ((pre ++ take i s) ++ w))
      by (rewrite !length_app, length_take; lia).
    replace ((pre ++ take i s) ++ w ++ drop (i + sep_width d) s)
      with (((pre ++ take i s) ++ w) ++ drop (i + sep_width d) s) by (by rewrite <- !app_assoc).
    rewrite (IH _ _ l'); [|rewrite length_drop; lia|done].
    rewrite join_cons by (by eapply segments_nonempty). by rewrite <- !app_assoc.
Qed.

Lemma replace_spec (d : sep) w s l : segments d s l ->
  replace_loop (S (length s)) (sep_search d) (sep_width d) w s (sep_search d s) = Ok (join w l).
Proof.
  intros G. pose proof (replace_loop_spec d w (S (length s)) [] s l ltac:(lia) G) as H.
  simpl app in H. simpl (length []) in H. by rewrite from_0 in H.
Qed.

(** Without a delimiter the search succeeds at every turn. *)
Lemma replace_empty_loops w fuel : forall pre s,
  replace_loop fuel (find_sub []) 0 w (pre ++ s) (Some (length pre)) = Crash nontermination.
Proof.
  induction fuel as [|fuel IH]; intros pre s; [done|]. cbn [replace_loop].
  rewrite substr_ok, substr_from_ok by (rewrite length_app; lia). cbn [rbind].
  unfold slice. rewrite Nat.add_0_r, drop_0, take_app_length, drop_app_length.
  rewrite from_ok by (rewrite !length_app; lia). rewrite find_sub_nil. cbn [fmap option_fmap option_map].
  rewrite Nat.add_0_r, app_assoc, <- length_app. apply IH.
Qed.

Lemma replace_char_loop_spec c r fuel pre s l :
  (length s < fuel)%nat -> segments (char_sep (is_char c)) s l ->
  replace_char_loop fuel c r (pre ++ s) (from (find_char c) (pre ++ s) (length pre)) = Ok (pre ++ join [r] l).
Proof.
  revert pre s l. induction fuel as [|fuel IH]; intros pre s l Hf G; [lia|].
  rewrite from_ok, drop_app_length by (rewrite length_app; lia).
  inversion G as [s0 F E1 E2|s0 i l' F G' E1 E2]; subst; simpl in F;
    unfold find_char; rewrite F; cbn [fmap option_fmap option_map]; [done|].
  cbn [replace_char_loop]. apply find_if_some in F as (a & b & t & -> & <- & _).
  assert (<[(length pre + length a)%nat := r]> (pre ++ a ++ b :: t) = (pre ++ a ++ [r]) ++ t) as ->.
  { rewrite insert_app_r, <- !app_assoc. f_equal.
    replace (length a) with (length a + 0)%nat by lia. by rewrite insert_app_r. }
  replace (length pre + length a + 1)%nat with (length (pre ++ a ++ [r])) by (rewrite !length_app; simpl; lia).
  rewrite drop_app_add in G'. change (drop (sep_width _) (b :: t)) with t in G'.
  rewrite (IH _ _ l'); [|rewrite length_app in Hf; simpl in Hf; lia|done].
  rewrite join_cons by (by eapply segments_nonempty). rewrite take_app_length. by rewrite <- !app_assoc.
Qed.

(** The separators [split_loop] consumes before it stops: [max - 1], which wraps
    around when [max] is 0 or 1. *)
Definition split_limit (max : Z) : Z := if max <=? 1 then 2 ^ 64 + max - 1 else max - 1.

(** What the first pieces and the separators behind them occupy. *)
Definition offset (l : list (list byte)) : nat := sum_list (map (fun x => S (length x)) l).

Lemma split_limit_step max : 0 <= max < 2 ^ 64 ->
  (u64 (max - 1) = 1 <-> split_limit max = 1) /\
  (split_limit max <> 1 -> split_limit (u64 (max - 1)) = split_limit max - 1) /\ 1 <= split_limit max.
Proof.
  intros H. assert (u64 (max - 1) = if max =? 0 then 2 ^ 64 - 1 else max - 1) as ->.
  { destruct (Z.eqb_spec max 0) as [->|]; [done|]. apply u64_small. lia. }
  unfold split_limit. destruct (Z.eqb_spec max 0);
    repeat match goal with |- context [?a <=? ?b] => destruct (Z.leb_spec a b) end; lia.
Qed.

(** The result: every piece, or the first ones and the rest of the string. *)
Definition split_result (max : Z) (str : list byte) (l : list (list byte)) : list (list byte) :=
  let n := split_limit max in
  if len l <=? n then l else take (Z.to_nat n) l ++ [drop (offset (take (Z.to_nat n) l)) str].

Lemma split_loop_spec p str l s : segments (char_sep p) s l -> forall last fuel max result,
  s = drop last str -> (last <= length str)%nat -> (length s < fuel)%nat -> 0 <= max < 2 ^ 64 ->
  split_loop fuel (find_if p) str last (from (find_if p) str last) max result
  = Ok (result ++ split_result max s l).
Proof.
  induction 1 as [s F|s i l F G IH]; intros last fuel max result -> Hl Hf Hm.
  - simpl in F. rewrite from_ok, F by done. destruct (split_limit_step max Hm) as (_ & _ & L).
    unfold split_result. change (len [drop last str]) with 1. rewrite (proj2 (Z.leb_le _ _)) by done.
    destruct fuel; [lia|]. cbn [fmap option_fmap option_map split_loop]. by rewrite substr_from_ok.
  - destruct (split_limit_step max Hm) as (L1 & L2 & L3).
    pose proof (sep_fits (char_sep p) _ _ F) as Fit. simpl in F, Fit. rewrite length_drop in Fit.
    rewrite from_ok, F by done. cbn [fmap option_fmap option_map].
    destruct fuel as [|fuel]; [lia|]. cbn [split_loop].
    assert (D : drop (i + sep_width (char_sep p)) (drop last str) = drop (last + i + 1) str)
      by (rewrite drop_drop; f_equal; simpl; lia).
    assert (P : slice last (last + i - last) str = take i (drop last str)) by (unfold slice; f_equal; lia).
    rewrite substr_ok, P by lia. cbn [rbind].
    unfold split_result. set (n := split_limit max) in *.
    assert (Ln : 0 < len l) by (apply segments_nonempty in G; unfold len; destruct l; [done|simpl; lia]).
    assert (L : len (take i (drop last str) :: l) = len l + 1) by (unfold len; simpl; lia). rewrite L.
    assert (Li : length (take i (drop last str)) = i) by (rewrite length_take, length_drop; lia).
    destruct (Z.eqb_spec (u64 (max - 1)) 1) as [E|E].
    + apply L1 in E. rewrite E, substr_from_ok by lia. cbn [rbind]. rewrite <- app_assoc. f_equal. f_equal.
      rewrite (proj2 (Z.leb_gt _ _)) by lia. change (Z.to_nat 1) with 1%nat. cbn [take].
      unfold offset. cbn [map sum_list]. rewrite Li, Nat.add_0_r. simpl app. do 2 f_equal.
      rewrite drop_drop. f_equal. lia.
    + assert (n <> 1) as N1 by (intros K; apply E, L1, K). rewrite (IH (last + i + 1)%nat);
        [|done|lia|rewrite length_drop, length_drop in *; simpl; lia|apply u64_range].
      unfold split_result. rewrite L2 by done. rewrite <- app_assoc. f_equal. f_equal.
      replace (len l + 1 <=? n) with (len l <=? n - 1) by lia. destruct (len l <=? n - 1); [done|].
      replace (Z.to_nat n) with (S (Z.to_nat (n - 1))) by lia. cbn [take app]. do 3 f_equal.
      unfold offset. cbn [map sum_list]. rewrite Li, !drop_drop. f_equal. simpl. lia.
Qed.

Lemma split_search_spec p str max l : 0 <= max < 2 ^ 64 -> str <> [] ->
  segments (char_sep p) str l -> split_search (find_if p) str max = Ok (split_result max str l).
Proof.
  intros Hm Hs G. unfold split_search. destruct str as [|c str]; [done|]. simpl is_empty. cbv iota.
  rewrite <- (from_0 (find_if p)). by rewrite (split_loop_spec p _ l _ G) by (auto; lia).
Qed.

(** For a single character the rest is the remaining pieces joined again. *)
Lemma drop_offset c s l : segments (char_sep (is_char c)) s l -> forall k, (k < length l)%nat ->
  drop (offset (take k l)) s = join [c] (drop k l).
Proof.
  induction 1 as [s F|s i l F G IH]; intros k Hk.
  - simpl in Hk. destruct k; [done|lia].
  - pose proof (sep_fits (char_sep (is_char c)) _ _ F) as Fit. simpl in Fit. destruct k as [|k].
    + simpl take. unfold offset. simpl sum_list. rewrite !drop_0. symmetry. eapply join_char_segments.
      by eapply seg_next.
    + cbn [take drop]. rewrite <- IH by (simpl in Hk; lia). unfold offset. cbn [map sum_list].
      rewrite drop_drop, length_take. f_equal. simpl. lia.
Qed.

Lemma join_join c (l : list (list byte)) : forall n, (n < length l)%nat ->
  join [c] (take n l ++ [join [c] (drop n l)]) = join [c] l.
Proof.
  induction l as [|x l IH]; intros n Hn; [simpl in Hn; lia|].
  destruct n as [|n]; [done|]. cbn [take drop app]. simpl in Hn.
  rewrite join_cons by (by destruct (take n l)). rewrite IH by lia.
  rewrite join_cons; [done|]. destruct l; [simpl in Hn; lia|done].
Qed.

Lemma segments_length d s l : segments d s l -> (length l <= S (length s))%nat.
Proof.
  induction 1 as [s F|s i l F G IH]; [simpl; lia|]. pose proof (sep_fits d s i F). pose proof (sep_pos d).
  rewrite length_drop in IH. simpl. lia.
Qed.

(** * The theorems *)

(** [base64decode] inverts [base64encode] on every byte string; on any other
    input it returns as well, inside its buffer, and refuses one that is not made of
    groups of four by the empty string. *)
Theorem Base64_roundtrip (data src : list byte) :
  (exists x, base64encode data = Ok x /\ len x = 4 * ((len data + 2) / 3) /\ base64decode x = Ok data) /\
  (exists d, base64decode src = Ok d /\ (length d <= length src * 3 / 4)%nat /\
     (length src mod 4 <> 0 -> d = [])%nat).
Proof.
  split.
  - exists (b64 data). split_and!; [apply base64encode_spec|apply length_b64|].
    unfold base64decode. rewrite base64decode_loop_b64; [done|done|]. simpl length.
    apply Nat.div_le_lower_bound; [done|]. pose proof (length_b64 data) as L.
    pose proof (Z.div_mod (Z.of_nat (length data) + 2) 3 ltac:(lia)).
    pose proof (Z.mod_pos_bound (Z.of_nat (length data) + 2) 3 ltac:(lia)). lia.
  - apply base64decode_loop_total; [done|]. simpl length.
    apply Nat.div_le_lower_bound; [done|].
    pose proof (Nat.Div0.mul_div_le (length src) 4). lia.
Qed.

(** [data_from_hexstring] inverts [hexstring_from_data]; on any string it
    succeeds exactly when the length is even and every character is a hexadecimal
    digit, the encoding of its result is then the string in lower case, and it throws
    [invalid_argument] otherwise. *)
Theorem Hex_roundtrip (data s : list byte) :
  data_from_hexstring (hexstring_from_data data) = Ok data /\
  ((length s mod 2 = 0)%nat /\ Forall (fun c => is_Some (hex_val c)) s ->
     exists d, data_from_hexstring s = Ok d /\ hexstring_from_data d = map lower s) /\
  (~ ((length s mod 2 = 0)%nat /\ Forall (fun c => is_Some (hex_val c)) s) ->
     data_from_hexstring s = Throw invalid_argument).
Proof.
  unfold data_from_hexstring. split_and!.
  - rewrite hexstring_spec, length_hex. rewrite Nat.mul_comm, Nat.Div0.mod_mul. simpl (negb _). cbv iota.
    destruct data as [|b data]; [done|]. destruct (Nat.eqb_spec (length (b :: data) * 2) 0); [simpl in *; lia|].
    apply unhex_loop_hex.
  - intros [E F]. rewrite E. simpl (negb _). cbv iota.
    destruct (unhex_loop_spec _ s [] (le_n _) E) as [H _]. destruct (H F) as (d & Hd & Hl).
    exists d. rewrite hexstring_spec. split; [|done].
    destruct (Nat.eqb_spec (length s) 0) as [Z|Z]; [|done].
    apply nil_length_inv in Z as ->. by simpl in Hd.
  - intros N. destruct (Nat.eqb_spec (length s mod 2) 0) as [E|E]; [|done]. simpl (negb _). cbv iota.
    destruct (Nat.eqb_spec (length s) 0) as [Z|Z].
    + apply nil_length_inv in Z as ->. exfalso. by apply N.
    + apply (unhex_loop_spec _ s [] (le_n _) E). intros F. by apply N.
Qed.

(** both entry points of MurmurHash3 compute the reference hash of the bytes
    and stay inside them, on hosts of either byte order: the sized one on the first
    [size] bytes, the other on a string up to its terminator; the 64-bit version
    packs two of them. A size of 2^31 or more turns negative, and when it is a
    multiple of four the data is ignored. *)
Theorem Murmur3_reference (h : Host) (l post : list byte) (seed seed2 : Z)
    (S1 : 0 <= seed < 2 ^ 32) (S2 : 0 <= seed2 < 2 ^ 32) (L : len l < 2 ^ 31) :
  murmur3_hash (Some (l ++ post)) (len l) seed = Ok (murmur3 l seed) /\
  0 <= murmur3 l seed < 2 ^ 32 /\
  murmur3_hash64 (Some (l ++ post)) (len l) seed seed2 = Ok (murmur3 l seed * 2 ^ 32 + murmur3 l seed2) /\
  (x00 ∉ l -> murmur3_hash_str (Some (l ++ x00 :: post)) seed = Ok (murmur3 l seed)) /\
  (forall size, 2 ^ 31 <= size < 2 ^ 32 -> size mod 4 = 0 ->
     murmur3_hash (Some l) size seed = Ok (fmix32 (Z.lxor seed size))).
Proof.
  assert (E : s32 (len l) = len l) by (apply sint_small; unfold len in *; lia).
  assert (H : forall post s, murmur3_hash (Some (l ++ post)) (len l) s = Ok (murmur3 l s))
    by (intros p s; unfold murmur3_hash; rewrite E; by apply murmur3_body_spec).
  pose proof (murmur3_range l seed S1 L). pose proof (murmur3_range l seed2 S2 L).
  split_and!; try lia.
  - apply H.
  - unfold murmur3_hash64. rewrite !H. cbn [rbind].
    rewrite u64_small by (rewrite Z.shiftl_mul_pow2; lia).
    rewrite Z.lor_comm, lor_shiftl_add by lia. f_equal. lia.
  - intros N. unfold murmur3_hash_str. rewrite strlen_ok by done. cbn [rbind]. rewrite E.
    by apply murmur3_body_spec.
  - intros size R M. unfold murmur3_hash, murmur3_body.
    assert (s32 size = size - 2 ^ 32) as ->.
    { unfold s32. rewrite <- (sint_small 32 (size - 2 ^ 32)) by lia.
      rewrite <- (sint_mod 32 size), <- (sint_mod 32 (size - 2 ^ 32)) by lia. f_equal.
      rewrite <- (Z.mod_add (size - 2 ^ 32) 1) by lia. f_equal. lia. }
    replace (Z.to_nat (Z.quot (size - 2 ^ 32) 4)) with 0%nat
      by (Z.to_euclidean_division_equations; lia).
    replace (Z.land (size - 2 ^ 32) 3) with 0
      by (rewrite (Z.land_ones _ 2) by lia; change (2 ^ 2) with 4; Z.to_euclidean_division_equations; lia).
    cbn. do 3 f_equal. unfold u32. rewrite <- (Z.mod_add _ 1) by lia. rewrite Z.mod_small; lia.
Qed.

(** replacing a string by another joins the pieces between its leftmost
    occurrences with the replacement, whatever the replacement holds, and so do the
    two versions that replace a character; an empty string to find makes the loop
    endless, whatever the fuel. *)
Theorem Replace_segments (str find w : list byte) (c r : byte) :
  (forall D : find <> [], exists l, segments (string_sep find D) str l /\ join find l = str /\
     replace_string str find w = Ok (join w l)) /\
  (exists l, segments (char_sep (is_char c)) str l /\ join [c] l = str /\
     replace_char_string str c w = Ok (join w l) /\ replace_char str c r = Ok (join [r] l)) /\
  (forall fuel, replace_string_fuel fuel str [] w = Crash nontermination).
Proof.
  split_and!.
  - intros D. destruct (segments_total (string_sep find D) str) as [l G]. exists l.
    split_and!; [done|by eapply join_string_segments|exact (replace_spec (string_sep find D) w str l G)].
  - destruct (segments_total (char_sep (is_char c)) str) as [l G]. exists l.
    split_and!; [done|by apply join_char_segments|exact (replace_spec (char_sep (is_char c)) w str l G)|].
    unfold replace_char. rewrite <- (from_0 (find_char c)).
    apply (replace_char_loop_spec c r (S (length str)) [] str l); [lia|done].
  - intros fuel. unfold replace_string_fuel. rewrite find_sub_nil. apply (replace_empty_loops w fuel [] str).
Qed.

(** [split] returns the pieces between the delimiters, and with a [max] of two
    or more at most that many, the last one being the rest of the string; for a
    single delimiter the result joined again is the string. A [max] of 0 or 1 wraps
    around and does not limit anything. *)
Theorem Split_segments (str delims : list byte) (c : byte) (max : Z) (Hm : 0 <= max < 2 ^ 64) (Hs : str <> []) :
  (exists l, segments (char_sep (is_char c)) str l /\
     exists out, split str c max = Ok out /\ join [c] out = str /\
       (2 <= max -> len out <= max) /\
       (max <= 1 -> len str < 2 ^ 64 - 1 -> out = l) /\ (len l <= max -> out = l)) /\
  (exists l, segments (char_sep (in_set delims)) str l /\
     split_set str delims max = Ok (split_result max str l)).
Proof.
  split.
  2:{ destruct (segments_total (char_sep (in_set delims)) str) as [l G]. exists l. split; [done|].
      by apply split_search_spec. }
  destruct (segments_total (char_sep (is_char c)) str) as [l G]. exists l. split; [done|].
  exists (split_result max str l). split; [by apply split_search_spec|].
  destruct (split_limit_step max Hm) as (_ & _ & L). unfold split_result.
  destruct (Z.leb_spec (len l) (split_limit max)) as [B|B].
  - split_and!; [by apply join_char_segments| |done|done]. unfold split_limit in B.
    destruct (Z.leb_spec max 1); lia.
  - pose proof (segments_length _ _ _ G) as SL. unfold len in *.
    rewrite (drop_offset c str l G) by lia. set (n := Z.to_nat (split_limit max)) in *.
    assert (length (take n l) = n) as Ln by (rewrite length_take; lia). split_and!.
    + rewrite join_join by lia. by apply join_char_segments.
    + intros M. rewrite length_app, Ln. unfold n, split_limit. cbn [length].
      destruct (Z.leb_spec max 1); lia.
    + intros M K. unfold split_limit in B. destruct (Z.leb_spec max 1); lia.
    + intros K. assert (length l = S n) as EL
        by (unfold n in *; unfold split_limit in *; destruct (Z.leb_spec max 1); lia).
      rewrite <- (take_drop n l) at 3. f_equal.
      assert (length (drop n l) = 1)%nat as D1 by (rewrite length_drop; lia).
      by destruct (drop n l) as [|x [|y t]].
Qed.

(** [quick_hash] of a sized block reads its first byte over and over. *)
Lemma quick_hash_void_first (c : byte) (t t' : list byte) (size : Z) :
  quick_hash_void (c :: t) size = quick_hash_void (c :: t') size /\
  exists h, quick_hash_void (c :: t) size = Ok h.
Proof.
  unfold quick_hash_void. generalize 0, (Z.to_nat size). intros h n. revert h.
  induction n as [|n IH]; intros h; simpl; [eauto|apply IH].
Qed.

(** ** The theorems at concrete inputs *)

Lemma Hex_roundtrip_witness :
  exists d, data_from_hexstring (bstr "0aFf") = Ok d /\ hexstring_from_data d = bstr "0aff".
Proof.
  destruct (Hex_roundtrip [] (bstr "0aFf")) as (_ & H & _).
  destruct H as (d & E & L).
  - split; [reflexivity|]. repeat constructor; vm_compute; eauto.
  - exists d. split; [exact E|exact L].
Defined.

Lemma Murmur3_reference_witness :
  @murmur3_hash_str x86_host (Some (bstr "hello" ++ [x00])) 0 = Ok 0x248bfa47.
Proof.
  destruct (Murmur3_reference x86_host (bstr "hello") [] 0 0 ltac:(lia) ltac:(lia) ltac:(reflexivity))
    as (_ & _ & _ & H & _).
  exact (H ltac:(by apply (bool_decide_unpack _))).
Defined.

Lemma Replace_segments_witness : exists l, replace_string (bstr "a.b.c") (bstr ".") (bstr "::") = Ok (join (bstr "::") l).
Proof.
  destruct (Replace_segments (bstr "a.b.c") (bstr ".") (bstr "::") x2e x2e) as [H _].
  destruct (H ltac:(discriminate)) as (l & _ & _ & E). exists l. exact E.
Defined.

Lemma Split_segments_witness : exists out, split (bstr "a,b,c") x2c 2 = Ok out /\ len out <= 2.
Proof.
  destruct (Split_segments (bstr "a,b,c") [] x2c 2 ltac:(lia) ltac:(discriminate))
    as [(l & _ & out & E & _ & L & _) _].
  exists out. split; [exact E|apply L; lia].
Defined.
