(* ===== verification/Stream.v ===== *)
(** Byte streams: the interface [CIM::Stream] (include/net/stream.hpp), its
    fixed-size reads and writes (src/net/stream.cpp), and its implementation over a
    socket, [CIM::SocketStream] (src/streams/socket_stream.cpp), down to the
    [recv], [send] and [close] of [CIM::Socket] (src/net/socket.cpp) and the
    system calls under them, which are the parameter [Kernel]. *)
From S2P Require Import Prelude Endian ByteArray.

(** ** The interface

    The virtual functions of [Stream]. A read returns its [int] and the bytes it
    stored; the overloads on a [ByteArray] take and return it. *)
Class Stream (S : Type) := {
  stream_read : Z -> st S (Z * list byte);
  stream_read_ba : Z -> ByteArray -> st S (Z * ByteArray);
  stream_write : list byte -> st S Z;
  stream_write_ba : Z -> ByteArray -> st S (Z * ByteArray);
  stream_close : st S unit;
}.

(** ** [readFixSize] and [writeFixSize]

    Every turn moves at least one byte, so the length bounds the turns. The result
    is an [int]: what the last call returned when it failed, the length otherwise. *)
Section fix_size.
Context {S : Type} `{Stream S}.

Fixpoint readFixSize_loop (fuel : nat) (length left : Z) (acc : list byte) : st S (Z * list byte) :=
  if negb (0 <? left) then sret (s32 length, acc)
  else match fuel with
       | O => fun s => (Crash nontermination, s)
       | Datatypes.S fuel =>
           let* (l, x) := stream_read (u64 left) in
           if l <=? 0 then sret (s32 l, acc)
           else readFixSize_loop fuel length (left - l) (acc ++ x)
       end.

(** [readFixSize(void *, length)] *)
Definition readFixSize (length : Z) : st S (Z * list byte) :=
  readFixSize_loop (Z.to_nat (s64 length)) length (s64 length) [].

Fixpoint readFixSize_ba_loop (fuel : nat) (length left : Z) (ba : ByteArray) : st S (Z * ByteArray) :=
  if negb (0 <? left) then sret (s32 length, ba)
  else match fuel with
       | O => fun s => (Crash nontermination, s)
       | Datatypes.S fuel =>
           let* (l, ba) := stream_read_ba (u64 left) ba in
           if l <=? 0 then sret (s32 l, ba)
           else readFixSize_ba_loop fuel length (left - l) ba
       end.

(** [readFixSize(ByteArray::ptr, length)] *)
Definition readFixSize_ba (ba : ByteArray) (length : Z) : st S (Z * ByteArray) :=
  readFixSize_ba_loop (Z.to_nat (s64 length)) length (s64 length) ba.

(** [rest] is the buffer from [offset] on. *)
Fixpoint writeFixSize_loop (fuel : nat) (length left : Z) (rest : list byte) : st S Z :=
  if negb (0 <? left) then sret (s32 length)
  else match fuel with
       | O => fun s => (Crash nontermination, s)
       | Datatypes.S fuel =>
           let* l := stream_write rest in
           if l <=? 0 then sret (s32 l)
           else writeFixSize_loop fuel length (left - l) (drop (Z.to_nat l) rest)
       end.

(** [writeFixSize(const void *, length)], the length being that of the buffer. *)
Definition writeFixSize (buffer : list byte) : st S Z :=
  writeFixSize_loop (length buffer) (len buffer) (s64 (len buffer)) buffer.

Fixpoint writeFixSize_ba_loop (fuel : nat) (length left : Z) (ba : ByteArray) : st S (Z * ByteArray) :=
  if negb (0 <? left) then sret (s32 length, ba)
  else match fuel with
       | O => fun s => (Crash nontermination, s)
       | Datatypes.S fuel =>
           let* (l, ba) := stream_write_ba (u64 left) ba in
           if l <=? 0 then sret (s32 l, ba)
           else writeFixSize_ba_loop fuel length (left - l) ba
       end.

(** [writeFixSize(ByteArray::ptr, length)] *)
Definition writeFixSize_ba (ba : ByteArray) (length : Z) : st S (Z * ByteArray) :=
  writeFixSize_ba_loop (Z.to_nat (s64 length)) length (s64 length) ba.
End fix_size.

(** ** Sockets *)

(** The system calls on a connected descriptor: what [recv] returns and stores (at
    most the length asked for), what [send] returns. *)
Class Kernel (K : Type) := {
  sys_recv : Z -> K -> Z * list byte * K;
  sys_send : list byte -> K -> Z * K;
}.

Record Socket (K : Type) := mkSocket { m_isConnected : bool; m_sock : option K }.
Arguments mkSocket {K}.
Arguments m_isConnected {K}.
Arguments m_sock {K}.

Section socket.
Context {K : Type} `{Kernel K}.

Definition new_Socket (k : K) : Socket K := mkSocket true (Some k).

(** A call on the descriptor; [-1] when it is closed. *)
Definition Socket_recv (length : Z) (s : Socket K) : Z * list byte * Socket K :=
  match m_isConnected s, m_sock s with
  | true, Some k => let '(rt, x, k) := sys_recv length k in (s32 rt, x, mkSocket true (Some k))
  | _, _ => (-1, [], s)
  end.

Definition Socket_send (buffer : list byte) (s : Socket K) : Z * Socket K :=
  match m_isConnected s, m_sock s with
  | true, Some k => let '(rt, k) := sys_send buffer k in (s32 rt, mkSocket true (Some k))
  | _, _ => (-1, s)
  end.

Definition Socket_close (s : Socket K) : bool * Socket K :=
  match m_isConnected s, m_sock s with
  | false, None => (true, s)
  | _, _ => (false, mkSocket false None)
  end.
End socket.

(** ** [SocketStream] *)

Record SocketStream (K : Type) := mkSocketStream { m_socket : option (Socket K); m_owner : bool }.
Arguments mkSocketStream {K}.
Arguments m_socket {K}.
Arguments m_owner {K}.

Section socket_stream.
Context {K : Type} `{Kernel K} {heap : Heap}.

Definition set_socket (s : Socket K) (ss : SocketStream K) : SocketStream K :=
  mkSocketStream (Some s) (m_owner ss).

(** [isConnected()], with the socket it tested. *)
Definition connected (ss : SocketStream K) : option (Socket K) :=
  match m_socket ss with
  | Some s => if m_isConnected s then Some s else None
  | None => None
  end.

Definition SocketStream_read (length : Z) : st (SocketStream K) (Z * list byte) := fun ss =>
  match connected ss with
  | None => (Ok (-1, []), ss)
  | Some sock =>
      let '(rt, x, sock) := Socket_recv length sock in
      (Ok (rt, x), set_socket sock ss)
  end.

(** [read(ByteArray::ptr, length)]: the bytes land in the vectors of
    [getWriteBuffers], then the cursor moves behind them. *)
Definition SocketStream_read_ba (length : Z) (ba : ByteArray) : st (SocketStream K) (Z * ByteArray) := fun ss =>
  match connected ss with
  | None => (Ok (-1, ba), ss)
  | Some sock =>
      match getWriteBuffers length ba with
      | Ok (_, iovs, ba) =>
          let '(rt, x, sock) := Socket_recv (iov_total iovs) sock in
          (let! ns := scatter iovs x (m_nodes ba) in
           let ba := set_nodes ns ba in
           if 0 <? rt then let! ba := setPosition (u64 (getPosition ba + rt)) ba in Ok (rt, ba)
           else Ok (rt, ba),
           set_socket sock ss)
      | Throw e => (Throw e, ss)
      | Crash u => (Crash u, ss)
      end
  end.

Definition SocketStream_write (buffer : list byte) : st (SocketStream K) Z := fun ss =>
  match connected ss with
  | None => (Ok (-1), ss)
  | Some sock => let '(rt, sock) := Socket_send buffer sock in (Ok rt, set_socket sock ss)
  end.

Definition SocketStream_write_ba (length : Z) (ba : ByteArray) : st (SocketStream K) (Z * ByteArray) := fun ss =>
  match connected ss with
  | None => (Ok (-1, ba), ss)
  | Some sock =>
      match (let! (_, iovs) := getReadBuffers length ba in gather iovs (m_nodes ba)) with
      | Ok x =>
          let '(rt, sock) := Socket_send x sock in
          (if 0 <? rt then let! ba := setPosition (u64 (getPosition ba + rt)) ba in Ok (rt, ba)
           else Ok (rt, ba),
           set_socket sock ss)
      | Throw e => (Throw e, ss)
      | Crash u => (Crash u, ss)
      end
  end.

Definition SocketStream_close : st (SocketStream K) unit := fun ss =>
  match m_socket ss with
  | Some sock => (Ok tt, set_socket (snd (Socket_close sock)) ss)
  | None => (Ok tt, ss)
  end.

#[global] Instance SocketStream_Stream : Stream (SocketStream K) := {
  stream_read := SocketStream_read;
  stream_read_ba := SocketStream_read_ba;
  stream_write := SocketStream_write;
  stream_write_ba := SocketStream_write_ba;
  stream_close := SocketStream_close;
}.
End socket_stream.
