(* ===== verification/StreamSpec.v ===== *)
(** What a stream promises ([StreamLaws]), what [readFixSize] and [writeFixSize]
    make of it, and the proof that [SocketStream] keeps the promise over any kernel
    that behaves as documented ([KernelLaws]). A kernel held in memory shows that the
    laws can be met. *)
From S2P Require Import Prelude Endian ByteArray ByteArraySpec Stream.

(** ** The laws *)

(** A connection seen from one end: the bytes that will still arrive, the bytes
    sent, and how many more the peer takes before the connection breaks. *)
Record sview := mkSview { sv_in : list byte; sv_out : list byte; sv_room : Z }.

Definition sv_recv (m : Z) (v : sview) : sview := mkSview (drop (Z.to_nat m) (sv_in v)) (sv_out v) (sv_room v).
Definition sv_send (x : list byte) (v : sview) : sview := mkSview (sv_in v) (sv_out v ++ x) (sv_room v - len x).

(** [m] is a number of bytes moved out of at most [n]; [recv] and [send] move less
    than 2^31 at a time. *)
Definition moved (m n : Z) : Prop := 0 < m /\ m <= n /\ m < 2 ^ 31.
Definition failed (r : Z) : Prop := - 2 ^ 31 <= r <= 0.

Class KernelLaws (K : Type) `{Kernel K} := {
  kernel_view : K -> sview -> Prop;
  kernel_recv n k v : kernel_view k v -> 0 < n -> sv_in v <> [] ->
    exists m k', moved m n /\ m <= len (sv_in v) /\
      sys_recv n k = (m, take (Z.to_nat m) (sv_in v), k') /\ kernel_view k' (sv_recv m v);
  kernel_eof n k v : kernel_view k v -> 0 < n -> sv_in v = [] ->
    exists r k', failed r /\ sys_recv n k = (r, [], k') /\ kernel_view k' v;
  kernel_send x k v : kernel_view k v -> x <> [] -> 0 < sv_room v ->
    exists m k', moved m (len x) /\ m <= sv_room v /\
      sys_send x k = (m, k') /\ kernel_view k' (sv_send (take (Z.to_nat m) x) v);
  kernel_broken x k v : kernel_view k v -> x <> [] -> sv_room v <= 0 ->
    exists r k', failed r /\ sys_send x k = (r, k') /\ kernel_view k' v;
}.

(** The capacity of an array once [n] more bytes fit behind its cursor. *)
Definition cap_after (b : ByteArray) (n : Z) : Z :=
  Z.max (m_capacity b) (m_base_size b * ((m_position b + n + m_base_size b - 1) / m_base_size b)).

(** An array being filled: well formed, the cursor at the end of the data. *)
Definition filling (b : ByteArray) : Prop := wf b /\ m_position b = m_data_size b.

(** [b'] is [b] with [x] received behind the cursor, [n] bytes having been asked. *)
Definition filled (b b' : ByteArray) (n : Z) (x : list byte) : Prop :=
  filling b' /\ content b' = content b ++ x /\ m_position b' = m_position b + len x /\
  m_endian b' = m_endian b /\ m_base_size b' = m_base_size b /\ m_capacity b' = cap_after b n.

(** [b'] is [b] with the cursor [m] bytes further. *)
Definition advanced (b b' : ByteArray) (m : Z) : Prop :=
  wf b' /\ content b' = content b /\ m_position b' = m_position b + m /\
  m_data_size b' = m_data_size b /\ m_capacity b' = m_capacity b /\
  m_endian b' = m_endian b /\ m_base_size b' = m_base_size b.

(** The promise of a stream. The overloads on a [ByteArray] move the cursor with
    [setPosition]: a cursor that lands on the capacity is a null dereference. *)
Class StreamLaws (S : Type) `{Stream S} := {
  stream_view : S -> sview -> Prop;
  law_read n s v : stream_view s v -> 0 < n -> sv_in v <> [] ->
    exists m s', moved m n /\ m <= len (sv_in v) /\
      stream_read n s = (Ok (m, take (Z.to_nat m) (sv_in v)), s') /\ stream_view s' (sv_recv m v);
  law_eof n s v : stream_view s v -> 0 < n -> sv_in v = [] ->
    exists r s', failed r /\ stream_read n s = (Ok (r, []), s') /\ stream_view s' v;
  law_write x s v : stream_view s v -> x <> [] -> 0 < sv_room v ->
    exists m s', moved m (len x) /\ m <= sv_room v /\
      stream_write x s = (Ok m, s') /\ stream_view s' (sv_send (take (Z.to_nat m) x) v);
  law_broken x s v : stream_view s v -> x <> [] -> sv_room v <= 0 ->
    exists r s', failed r /\ stream_write x s = (Ok r, s') /\ stream_view s' v;
  law_read_ba n b s v :
    stream_view s v -> filling b -> 0 < n -> m_position b + n <= room b -> sv_in v <> [] ->
    exists m s', moved m n /\ m <= len (sv_in v) /\ stream_view s' (sv_recv m v) /\
      (if m_position b + m <? cap_after b n
       then exists b', stream_read_ba n b s = (Ok (m, b'), s') /\ filled b b' n (take (Z.to_nat m) (sv_in v))
       else stream_read_ba n b s = (Crash null_deref, s'));
  law_eof_ba n b s v :
    stream_view s v -> filling b -> 0 < n -> m_position b + n <= room b -> sv_in v = [] ->
    exists r s' b', failed r /\ stream_read_ba n b s = (Ok (r, b'), s') /\ stream_view s' v;
  law_write_ba n b s v :
    stream_view s v -> wf b -> 0 < n <= getReadSize b -> 0 < sv_room v ->
    exists m s', moved m n /\ m <= sv_room v /\ stream_view s' (sv_send (take (Z.to_nat m) (unread b)) v) /\
      (if m_position b + m <? m_capacity b
       then exists b', stream_write_ba n b s = (Ok (m, b'), s') /\ advanced b b' m
       else stream_write_ba n b s = (Crash null_deref, s'));
  law_broken_ba n b s v :
    stream_view s v -> wf b -> 0 < n <= getReadSize b -> sv_room v <= 0 ->
    exists r s', failed r /\ stream_write_ba n b s = (Ok (r, b), s') /\ stream_view s' v;
  law_close s v : stream_view s v ->
    exists s', stream_close s = (Ok tt, s') /\ stream_view s' (mkSview [] (sv_out v) 0);
}.

Lemma s32_failed r : failed r -> s32 r = r.
Proof. intros H. apply sint_small; [lia|]. unfold failed in H. lia. Qed.

Lemma s32_moved m n : moved m n -> s32 m = m.
Proof. intros (H1 & H2 & H3). apply sint_small; lia. Qed.

Lemma len_take {A} n (l : list A) : 0 <= n <= len l -> len (take (Z.to_nat n) l) = n.
Proof. intros H. unfold len in *. rewrite length_take. lia. Qed.

Lemma len_drop {A} n (l : list A) : 0 <= n <= len l -> len (drop (Z.to_nat n) l) = len l - n.
Proof. intros H. unfold len in *. rewrite length_drop. lia. Qed.

Lemma len_nonempty {A} (l : list A) : 0 < len l -> l <> [].
Proof. by destruct l. Qed.

Lemma len_empty {A} (l : list A) : len l <= 0 -> l = [].
Proof. destruct l; unfold len; simpl; [done|lia]. Qed.

Lemma len_app {A} (l k : list A) : len (l ++ k) = len l + len k.
Proof. unfold len. rewrite length_app. lia. Qed.

Lemma len_nonneg {A} (l : list A) : 0 <= len l.
Proof. unfold len. lia. Qed.

Lemma take_take_drop' {A} m n (l : list A) : 0 <= m <= n ->
  take (Z.to_nat m) l ++ take (Z.to_nat (n - m)) (drop (Z.to_nat m) l) = take (Z.to_nat n) l.
Proof. intros H. rewrite take_take_drop. f_equal. lia. Qed.

Lemma drop_drop' {A} m n (l : list A) : 0 <= m <= n ->
  drop (Z.to_nat (n - m)) (drop (Z.to_nat m) l) = drop (Z.to_nat n) l.
Proof. intros H. rewrite drop_drop. f_equal. lia. Qed.

(** ** Fixed-size reads and writes *)

Section fix_size.
Context {S : Type} `{StreamLaws S}.

Lemma readFixSize_loop_ok fuel : forall length left acc s v,
  stream_view s v -> 0 <= left <= len (sv_in v) -> left < 2 ^ 31 -> (Z.to_nat left <= fuel)%nat ->
  exists s', readFixSize_loop fuel length left acc s = (Ok (s32 length, acc ++ take (Z.to_nat left) (sv_in v)), s') /\
    stream_view s' (sv_recv left v).
Proof.
  induction fuel as [|fuel IH]; intros length left acc s v V Hl Hb Hf; cbn [readFixSize_loop].
  - replace left with 0 by lia. simpl. rewrite app_nil_r. exists s. split; [done|]. by destruct v.
  - destruct (Z.ltb_spec 0 left) as [Hp|Hp]; cbn [negb].
    2:{ replace left with 0 by lia. simpl. rewrite app_nil_r. exists s. split; [done|]. by destruct v. }
    rewrite u64_small by lia.
    destruct (law_read left s v V Hp) as (m & s1 & M & Hm & E & V1); [apply len_nonempty; lia|].
    rewrite (sbind_ok _ _ _ _ _ E). destruct M as (M1 & M2 & M3). replace (m <=? 0) with false by lia.
    destruct (IH length (left - m) (acc ++ take (Z.to_nat m) (sv_in v)) s1 _ V1) as (s' & E' & V');
      [cbn; rewrite len_drop; lia|lia|lia|].
    exists s'. rewrite E'. cbn. rewrite <- app_assoc, take_take_drop' by lia. split; [done|].
    unfold sv_recv in *. cbn in V'. by rewrite drop_drop' in V' by lia.
Qed.

Lemma readFixSize_loop_short fuel : forall length left acc s v,
  stream_view s v -> len (sv_in v) < left < 2 ^ 31 -> (Z.to_nat left <= fuel)%nat ->
  exists r s', failed r /\ readFixSize_loop fuel length left acc s = (Ok (r, acc ++ sv_in v), s') /\
    stream_view s' (mkSview [] (sv_out v) (sv_room v)).
Proof.
  induction fuel as [|fuel IH]; intros length left acc s v V Hl Hf; cbn [readFixSize_loop];
    pose proof (len_nonneg (sv_in v)); [lia|].
  replace (0 <? left) with true by lia. cbn [negb]. rewrite u64_small by lia.
  destruct (decide (sv_in v = [])) as [E0|E0].
  - destruct (law_eof left s v V ltac:(lia) E0) as (r & s1 & F & E & V1).
    rewrite (sbind_ok _ _ _ _ _ E). rewrite (s32_failed r F). destruct (F).
    replace (r <=? 0) with true by lia. exists r, s1. rewrite E0, app_nil_r. split_and!; [done..|].
    destruct v; cbn in *. by subst.
  - destruct (law_read left s v V ltac:(lia) E0) as (m & s1 & M & Hm & E & V1).
    rewrite (sbind_ok _ _ _ _ _ E). destruct M as (M1 & M2 & M3). replace (m <=? 0) with false by lia.
    destruct (IH length (left - m) (acc ++ take (Z.to_nat m) (sv_in v)) s1 _ V1) as (r & s' & F & E' & V');
      [cbn; rewrite len_drop; lia|lia|].
    exists r, s'. split; [done|]. rewrite E'. cbn. by rewrite <- app_assoc, take_drop.
Qed.

(** The bytes asked for, or a failure once the input has run dry. *)
Lemma readFixSize_ok n s v : stream_view s v -> 0 <= n <= len (sv_in v) -> n < 2 ^ 31 ->
  exists s', readFixSize n s = (Ok (n, take (Z.to_nat n) (sv_in v)), s') /\ stream_view s' (sv_recv n v).
Proof.
  intros V Hn Hb. unfold readFixSize. rewrite s64_small by lia.
  destruct (readFixSize_loop_ok (Z.to_nat n) n n [] s v V Hn Hb ltac:(lia)) as (s' & E & V').
  rewrite s32_small in E by lia. eauto.
Qed.

Lemma readFixSize_short n s v : stream_view s v -> len (sv_in v) < n < 2 ^ 31 ->
  exists r s', failed r /\ readFixSize n s = (Ok (r, sv_in v), s') /\
    stream_view s' (mkSview [] (sv_out v) (sv_room v)).
Proof.
  intros V Hn. pose proof (len_nonneg (sv_in v)). unfold readFixSize. rewrite s64_small by lia.
  apply (readFixSize_loop_short (Z.to_nat n) n n [] s v V Hn ltac:(lia)).
Qed.

Lemma writeFixSize_loop_ok fuel : forall L left rest s v,
  stream_view s v -> left = len rest -> left <= sv_room v -> (Z.to_nat left <= fuel)%nat ->
  exists s', writeFixSize_loop fuel L left rest s = (Ok (s32 L), s') /\ stream_view s' (sv_send rest v).
Proof.
  induction fuel as [|fuel IH]; intros L left rest s v V Hl Hr Hf; cbn [writeFixSize_loop];
    pose proof (len_nonneg rest).
  - replace (0 <? left) with false by lia. exists s. split; [done|].
    rewrite (len_empty rest) by lia. unfold sv_send. rewrite app_nil_r, Z.sub_0_r. by destruct v.
  - destruct (Z.ltb_spec 0 left) as [Hp|Hp]; cbn [negb].
    2:{ exists s. split; [done|]. rewrite (len_empty rest) by lia. unfold sv_send.
        rewrite app_nil_r, Z.sub_0_r. by destruct v. }
    destruct (law_write rest s v V) as (m & s1 & (M1 & M2 & M3) & Hm & E & V1);
      [apply len_nonempty; lia|lia|].
    rewrite (sbind_ok _ _ _ _ _ E). replace (m <=? 0) with false by lia.
    destruct (IH L (left - m) (drop (Z.to_nat m) rest) s1 _ V1) as (s' & E' & V');
      [rewrite len_drop; lia|cbn; rewrite len_take; lia|lia|].
    exists s'. split; [done|]. unfold sv_send in *. cbn in V'.
    rewrite <- app_assoc, take_drop, len_take, len_drop in V' by lia.
    by replace (sv_room v - m - (len rest - m)) with (sv_room v - len rest) in V' by lia.
Qed.

Lemma writeFixSize_loop_broken fuel : forall L left rest s v,
  stream_view s v -> left = len rest -> 0 <= sv_room v < left -> (Z.to_nat left <= fuel)%nat ->
  exists r s', failed r /\ writeFixSize_loop fuel L left rest s = (Ok r, s') /\
    stream_view s' (sv_send (take (Z.to_nat (sv_room v)) rest) v).
Proof.
  induction fuel as [|fuel IH]; intros L left rest s v V Hl Hr Hf; cbn [writeFixSize_loop]; [lia|].
  replace (0 <? left) with true by lia. cbn [negb].
  destruct (Z.lt_ge_cases 0 (sv_room v)) as [Hp|Hp].
  - destruct (law_write rest s v V) as (m & s1 & (M1 & M2 & M3) & Hm & E & V1);
      [apply len_nonempty; lia|lia|].
    rewrite (sbind_ok _ _ _ _ _ E). replace (m <=? 0) with false by lia.
    assert (Hr1 : sv_room (sv_send (take (Z.to_nat m) rest) v) = sv_room v - m) by (cbn; rewrite len_take; lia).
    destruct (IH L (left - m) (drop (Z.to_nat m) rest) s1 _ V1) as (r & s' & F & E' & V');
      [rewrite len_drop; lia|rewrite Hr1; lia|lia|].
    exists r, s'. split_and!; [done|done|]. rewrite Hr1 in V'. unfold sv_send in *. cbn in V'.
    rewrite <- app_assoc, take_take_drop', !len_take in V' by (rewrite ?len_drop; lia).
    rewrite len_take by lia. by replace (sv_room v - m - (sv_room v - m)) with (sv_room v - sv_room v) in V' by lia.
  - destruct (law_broken rest s v V) as (r & s1 & F & E & V1); [apply len_nonempty; lia|lia|].
    rewrite (sbind_ok _ _ _ _ _ E). rewrite (s32_failed r F). destruct (F).
    replace (r <=? 0) with true by lia. exists r, s1. split_and!; [done|done|].
    replace (sv_room v) with 0 by lia. unfold sv_send. cbn. rewrite app_nil_r, Z.sub_0_r. by destruct v.
Qed.

Lemma writeFixSize_ok x s v : stream_view s v -> len x <= sv_room v -> len x < 2 ^ 31 ->
  exists s', writeFixSize x s = (Ok (len x), s') /\ stream_view s' (sv_send x v).
Proof.
  intros V Hr Hb. pose proof (len_nonneg x). unfold writeFixSize. rewrite s64_small by lia.
  destruct (writeFixSize_loop_ok (length x) (len x) (len x) x s v V eq_refl Hr) as (s' & E & V');
    [unfold len; lia|]. rewrite s32_small in E by lia. eauto.
Qed.

Lemma writeFixSize_broken x s v : stream_view s v -> 0 <= sv_room v < len x -> len x < 2 ^ 31 ->
  exists r s', failed r /\ writeFixSize x s = (Ok r, s') /\
    stream_view s' (sv_send (take (Z.to_nat (sv_room v)) x) v).
Proof.
  intros V Hr Hb. unfold writeFixSize. rewrite s64_small by lia.
  apply (writeFixSize_loop_broken (length x) (len x) (len x) x s v V eq_refl Hr).
  unfold len. lia.
Qed.
End fix_size.

(** ** Fixed-size transfers of a [ByteArray] *)

Section fix_size_ba.
Context {S : Type} `{StreamLaws S}.

(** Receiving [left] bytes behind the cursor of [b], the whole of which ends before
    the capacity. *)
Lemma readFixSize_ba_loop_ok fuel : forall L left b s v,
  stream_view s v -> filling b -> 0 <= left <= len (sv_in v) -> left < 2 ^ 31 ->
  m_position b + left < cap_after b left -> m_position b + left <= room b -> (Z.to_nat left <= fuel)%nat ->
  exists s' b', readFixSize_ba_loop fuel L left b s = (Ok (s32 L, b'), s') /\
    stream_view s' (sv_recv left v) /\ filling b' /\
    content b' = content b ++ take (Z.to_nat left) (sv_in v) /\
    m_position b' = m_position b + left /\ m_endian b' = m_endian b /\ m_base_size b' = m_base_size b.
Proof.
  induction fuel as [|fuel IH]; intros L left b s v V B Hl Hb Hc Hr Hf; cbn [readFixSize_ba_loop];
    (destruct (Z.ltb_spec 0 left) as [Hp|Hp]; cbn [negb];
     [|replace left with 0 by lia; exists s, b; simpl; rewrite app_nil_r; split_and!; try done; [by destruct v|lia]]).
  - lia.
  - rewrite u64_small by lia.
    destruct (law_read_ba left b s v V B Hp Hr) as (m & s1 & (M1 & M2 & M3) & Hm & V1 & C);
      [apply len_nonempty; lia|].
    replace (m_position b + m <? cap_after b left) with true in C by lia.
    destruct C as (b1 & E & B1 & C1 & P1 & E1 & S1 & K1).
    rewrite len_take in P1 by lia.
    rewrite (sbind_ok _ _ _ _ _ E). replace (m <=? 0) with false by lia.
    assert (K2 : cap_after b1 (left - m) = cap_after b left).
    { unfold cap_after in *. rewrite K1, P1, S1.
      replace (m_position b + m + (left - m)) with (m_position b + left) by lia. lia. }
    destruct (IH L (left - m) b1 s1 _ V1 B1) as (s' & b' & E' & V' & B' & C' & P' & E1' & S1');
      [cbn; rewrite len_drop; lia|lia|lia|unfold room in *; lia|lia|].
    exists s', b'. split_and!; try done; try congruence; try lia.
    + unfold sv_recv in *. cbn in V'. by rewrite drop_drop' in V' by lia.
    + rewrite C', C1, <- app_assoc. cbn. by rewrite take_take_drop' by lia.
Qed.

(** When the last byte lands on the capacity, the cursor runs off the chain. *)
Lemma readFixSize_ba_loop_crash fuel : forall L left b s v,
  stream_view s v -> filling b -> 0 < left <= len (sv_in v) -> left < 2 ^ 31 ->
  m_position b + left = cap_after b left -> m_position b + left <= room b -> (Z.to_nat left <= fuel)%nat ->
  exists s', readFixSize_ba_loop fuel L left b s = (Crash null_deref, s').
Proof.
  induction fuel as [|fuel IH]; intros L left b s v V B Hl Hb Hc Hr Hf; cbn [readFixSize_ba_loop]; [lia|].
  replace (0 <? left) with true by lia. cbn [negb]. rewrite u64_small by lia.
  destruct (law_read_ba left b s v V B ltac:(lia) Hr) as (m & s1 & (M1 & M2 & M3) & Hm & V1 & C);
    [apply len_nonempty; lia|].
  destruct (Z.ltb_spec (m_position b + m) (cap_after b left)).
  - destruct C as (b1 & E & B1 & C1 & P1 & E1 & S1 & K1). rewrite len_take in P1 by lia.
    rewrite (sbind_ok _ _ _ _ _ E). replace (m <=? 0) with false by lia.
    assert (K2 : cap_after b1 (left - m) = cap_after b left).
    { unfold cap_after in *. rewrite K1, P1, S1.
      replace (m_position b + m + (left - m)) with (m_position b + left) by lia. lia. }
    apply (IH L (left - m) b1 s1 _ V1 B1);
      [cbn; rewrite len_drop; lia|lia|lia|unfold room in *; lia|lia].
  - exists s1. unfold sbind. by rewrite C.
Qed.

(** A connection that ends first: what was received stays in the array, and the
    failing call's result is the call's own. *)
Lemma readFixSize_ba_loop_short fuel : forall L left b s v,
  stream_view s v -> filling b -> len (sv_in v) < left < 2 ^ 31 ->
  m_position b + left <= cap_after b left -> m_position b + left <= room b -> (Z.to_nat left <= fuel)%nat ->
  exists r s' b', failed r /\ readFixSize_ba_loop fuel L left b s = (Ok (r, b'), s') /\
    stream_view s' (mkSview [] (sv_out v) (sv_room v)).
Proof.
  induction fuel as [|fuel IH]; intros L left b s v V B Hl Hc Hr Hf; cbn [readFixSize_ba_loop];
    pose proof (len_nonneg (sv_in v)); [lia|].
  replace (0 <? left) with true by lia. cbn [negb]. rewrite u64_small by lia.
  destruct (decide (sv_in v = [])) as [E0|E0].
  - destruct (law_eof_ba left b s v V B ltac:(lia) Hr E0) as (r & s1 & b1 & F & E & V1).
    rewrite (sbind_ok _ _ _ _ _ E), (s32_failed r F). unfold failed in F.
    replace (r <=? 0) with true by lia. exists r, s1, b1. split_and!; [done|done|].
    rewrite <- E0. by destruct v.
  - destruct (law_read_ba left b s v V B ltac:(lia) Hr E0) as (m & s1 & (M1 & M2 & M3) & Hm & V1 & C).
    replace (m_position b + m <? cap_after b left) with true in C by lia.
    destruct C as (b1 & E & B1 & C1 & P1 & E1 & S1 & K1). rewrite len_take in P1 by lia.
    rewrite (sbind_ok _ _ _ _ _ E). replace (m <=? 0) with false by lia.
    assert (K2 : cap_after b1 (left - m) = cap_after b left).
    { unfold cap_after in *. rewrite K1, P1, S1.
      replace (m_position b + m + (left - m)) with (m_position b + left) by lia. lia. }
    apply (IH L (left - m) b1 s1 _ V1 B1); [cbn; rewrite len_drop; lia|lia|unfold room in *; lia|lia].
Qed.

(** Sending the unread bytes, which end before the capacity. *)
Lemma writeFixSize_ba_loop_ok fuel : forall L left b s v,
  stream_view s v -> wf b -> left = getReadSize b -> 0 <= left <= sv_room v -> left < 2 ^ 31 ->
  m_data_size b < m_capacity b -> (Z.to_nat left <= fuel)%nat ->
  exists s' b', writeFixSize_ba_loop fuel L left b s = (Ok (s32 L, b'), s') /\
    stream_view s' (sv_send (unread b) v) /\ advanced b b' left.
Proof.
  induction fuel as [|fuel IH]; intros L left b s v V W -> Hl Hb Hc Hf; cbn [writeFixSize_ba_loop];
    pose proof (wf_unread_length b W) as Lu;
    (destruct (Z.ltb_spec 0 (getReadSize b)) as [Hp|Hp]; cbn [negb];
     [|exists s, b; rewrite (len_empty (unread b)) by lia; split_and!; [done| |split_and!; try done; lia];
       unfold sv_send; rewrite app_nil_r, Z.sub_0_r; by destruct v]).
  - lia.
  - rewrite u64_small by lia.
    destruct (law_write_ba (getReadSize b) b s v V W) as (m & s1 & (M1 & M2 & M3) & Hm & V1 & C); [lia|lia|].
    assert (getReadSize b = m_data_size b - m_position b) as Er
      by (destruct W; unfold getReadSize; by rewrite u64_small by lia).
    replace (m_position b + m <? m_capacity b) with true in C by lia.
    destruct C as (b1 & E & W1 & C1 & P1 & D1 & K1 & E1 & S1).
    rewrite (sbind_ok _ _ _ _ _ E). replace (m <=? 0) with false by lia.
    assert (getReadSize b1 = getReadSize b - m) as Er1
      by (destruct W1; unfold getReadSize at 1; rewrite u64_small by lia; lia).
    assert (U1 : unread b1 = drop (Z.to_nat m) (unread b)).
    { unfold unread. rewrite C1, P1, drop_drop. f_equal. destruct W. lia. }
    destruct (IH L (getReadSize b - m) b1 s1 _ V1 W1) as (s' & b' & E' & V' & A);
      [lia|cbn; rewrite len_take; lia|lia|lia|lia|].
    exists s', b'. split_and!; [done| |].
    + rewrite U1 in V'. unfold sv_send in *. cbn in V'.
      rewrite <- app_assoc, take_drop, len_take, len_drop in V' by lia.
      by replace (sv_room v - m - (len (unread b) - m)) with (sv_room v - len (unread b)) in V' by lia.
    + destruct A as (A1 & A2 & A3 & A4 & A5 & A6 & A7). split_and!; try congruence; try done; lia.
Qed.

(** An array that is full to its capacity is sent whole, and the cursor then runs
    off the chain. *)
Lemma writeFixSize_ba_loop_crash fuel : forall L left b s v,
  stream_view s v -> wf b -> left = getReadSize b -> 0 < left <= sv_room v -> left < 2 ^ 31 ->
  m_data_size b = m_capacity b -> (Z.to_nat left <= fuel)%nat ->
  exists s', writeFixSize_ba_loop fuel L left b s = (Crash null_deref, s') /\
    stream_view s' (sv_send (unread b) v).
Proof.
  induction fuel as [|fuel IH]; intros L left b s v V W -> Hl Hb Hc Hf; cbn [writeFixSize_ba_loop];
    pose proof (wf_unread_length b W) as Lu; [lia|].
  replace (0 <? getReadSize b) with true by lia. cbn [negb]. rewrite u64_small by lia.
  destruct (law_write_ba (getReadSize b) b s v V W) as (m & s1 & (M1 & M2 & M3) & Hm & V1 & C); [lia|lia|].
  assert (getReadSize b = m_data_size b - m_position b) as Er
    by (destruct W; unfold getReadSize; by rewrite u64_small by lia).
  destruct (Z.ltb_spec (m_position b + m) (m_capacity b)).
  - destruct C as (b1 & E & W1 & C1 & P1 & D1 & K1 & E1 & S1).
    rewrite (sbind_ok _ _ _ _ _ E). replace (m <=? 0) with false by lia.
    assert (getReadSize b1 = getReadSize b - m) as Er1
      by (destruct W1; unfold getReadSize at 1; rewrite u64_small by lia; lia).
    assert (U1 : unread b1 = drop (Z.to_nat m) (unread b)).
    { unfold unread. rewrite C1, P1, drop_drop. f_equal. destruct W. lia. }
    destruct (IH L (getReadSize b - m) b1 s1 _ V1 W1) as (s' & E' & V');
      [lia|cbn; rewrite len_take; lia|lia|lia|lia|].
    exists s'. split; [done|]. rewrite U1 in V'. unfold sv_send in *. cbn in V'.
    rewrite <- app_assoc, take_drop, len_take, len_drop in V' by lia.
    by replace (sv_room v - m - (len (unread b) - m)) with (sv_room v - len (unread b)) in V' by lia.
  - exists s1. split; [unfold sbind; by rewrite C|].
    rewrite take_ge in V1 by (unfold len in Lu; lia). exact V1.
Qed.
End fix_size_ba.

(** ** [SocketStream] keeps the promise *)

Section socket_stream.
Context {K : Type} `{KernelLaws K} {heap : Heap}.

Definition socket_view (ss : SocketStream K) (v : sview) : Prop :=
  (exists k, m_socket ss = Some (mkSocket true (Some k)) /\ kernel_view k v) \/
  (connected ss = None /\ sv_in v = [] /\ sv_room v <= 0).

Lemma connected_some (ss : SocketStream K) (k : K) : m_socket ss = Some (mkSocket true (Some k)) ->
  connected ss = Some (mkSocket true (Some k)).
Proof. intros E. unfold connected. by rewrite E. Qed.

Lemma Socket_recv_ok n k v : kernel_view k v -> 0 < n -> sv_in v <> [] ->
  exists m k', moved m n /\ m <= len (sv_in v) /\
    Socket_recv n (mkSocket true (Some k)) = (m, take (Z.to_nat m) (sv_in v), mkSocket true (Some k')) /\
    kernel_view k' (sv_recv m v).
Proof.
  intros V Hn Hi. destruct (kernel_recv n k v V Hn Hi) as (m & k' & M & L & E & V').
  exists m, k'. split; [done|]. split; [done|]. split; [|done].
  unfold Socket_recv. cbn. by rewrite E, (s32_moved m n).
Qed.

Lemma Socket_recv_eof n k v : kernel_view k v -> 0 < n -> sv_in v = [] ->
  exists r k', failed r /\ Socket_recv n (mkSocket true (Some k)) = (r, [], mkSocket true (Some k')) /\ kernel_view k' v.
Proof.
  intros V Hn Hi. destruct (kernel_eof n k v V Hn Hi) as (r & k' & F & E & V').
  exists r, k'. split; [done|]. split; [|done]. unfold Socket_recv. cbn. by rewrite E, s32_failed.
Qed.

Lemma Socket_send_ok x k v : kernel_view k v -> x <> [] -> 0 < sv_room v ->
  exists m k', moved m (len x) /\ m <= sv_room v /\
    Socket_send x (mkSocket true (Some k)) = (m, mkSocket true (Some k')) /\
    kernel_view k' (sv_send (take (Z.to_nat m) x) v).
Proof.
  intros V Hx Hr. destruct (kernel_send x k v V Hx Hr) as (m & k' & M & L & E & V').
  exists m, k'. split; [done|]. split; [done|]. split; [|done].
  unfold Socket_send. cbn. by rewrite E, (s32_moved m (len x)).
Qed.

Lemma Socket_send_broken x k v : kernel_view k v -> x <> [] -> sv_room v <= 0 ->
  exists r k', failed r /\ Socket_send x (mkSocket true (Some k)) = (r, mkSocket true (Some k')) /\ kernel_view k' v.
Proof.
  intros V Hx Hr. destruct (kernel_broken x k v V Hx Hr) as (r & k' & F & E & V').
  exists r, k'. split; [done|]. split; [|done]. unfold Socket_send. cbn. by rewrite E, s32_failed.
Qed.

(** The grown capacity is a whole number of blocks, the least that fits. *)
Lemma grown_capacity b b' n : wf b -> wf b' -> 0 < n -> m_base_size b' = m_base_size b ->
  m_position b + n <= m_capacity b' ->
  m_capacity b <= m_capacity b' <= Z.max (m_capacity b) (m_position b + n + m_base_size b - 1) ->
  m_capacity b' = cap_after b n.
Proof.
  intros W W' Hn Eb H1 H2. unfold cap_after.
  pose proof (wf_Bn b W) as [HB _]. pose proof (wf_Bn b' W') as [HB' _].
  pose proof (wf_base b W). pose proof (wf_capacity b W) as C. pose proof (wf_capacity b' W') as C'.
  rewrite Nat2Z.inj_mul, HB in C. rewrite Nat2Z.inj_mul, HB', Eb in C'.
  set (B := m_base_size b) in *. set (k := Z.of_nat (length (m_nodes b))) in *.
  set (k' := Z.of_nat (length (m_nodes b'))) in *. set (p := m_position b + n) in *.
  replace (m_position b + n + B - 1) with (p + B - 1) by (unfold p; lia).
  pose proof (Z.div_mod (p + B - 1) B ltac:(lia)) as D.
  pose proof (Z.mod_pos_bound (p + B - 1) B ltac:(lia)) as M.
  set (q := (p + B - 1) / B) in *.
  assert (k <= k') by nia. assert (q <= k') by nia.
  destruct (Z.le_gt_cases k' k); [assert (k' = k) by lia; nia|].
  assert (k' * B <= p + B - 1) by nia. assert (k' <= q) by nia. assert (k' = q) by lia. nia.
Qed.

Lemma setPosition_advanced b m : wf b -> 0 <= m <= getReadSize b -> m_position b + m < m_capacity b ->
  exists b', setPosition (u64 (getPosition b + m)) b = Ok b' /\ advanced b b' m.
Proof.
  intros W Hm Hc. pose proof W as []. unfold getPosition.
  assert (getReadSize b = m_data_size b - m_position b) as Er by (unfold getReadSize; by rewrite u64_small by lia).
  rewrite u64_small by lia.
  destruct (setPosition_spec (m_position b + m) b W ltac:(lia)) as (b' & E & W' & P & D & N & E1 & S1 & K1).
  rewrite Z.max_l in D by lia. exists b'. split; [done|]. split_and!; try done.
  unfold content. by rewrite N, D.
Qed.

(** Bytes scattered behind the cursor, then the cursor moved over them. *)
Lemma received_filled b b1 n x ns : filling b -> 0 < len x -> wf b1 ->
  m_position b1 = m_position b -> m_data_size b1 = m_data_size b -> content b1 = content b ->
  m_endian b1 = m_endian b -> m_base_size b1 = m_base_size b -> m_capacity b1 = cap_after b n ->
  wf (set_nodes ns b1) -> flat ns = splice (Z.to_nat (m_position b)) x (flat (m_nodes b1)) ->
  m_position b + len x < m_capacity b1 ->
  exists b', setPosition (m_position b + len x) (set_nodes ns b1) = Ok b' /\ filled b b' n x.
Proof.
  intros [W Ep] Hx W1 P1 D1 C1 E1 S1 K1 W2 F Hc. pose proof (wf_position b W). pose proof (wf_position b1 W1).
  destruct (setPosition_spec (m_position b + len x) (set_nodes ns b1) W2) as
    (b' & E & W' & P & D & N & En & Sn & Kn); [split; [unfold len; lia|exact Hc]|].
  exists b'. split; [done|]. cbn in D, N, En, Sn, Kn. rewrite D1 in D.
  rewrite Z.max_r in D by lia.
  assert (content b' = content b ++ x) as Ec.
  { unfold content at 1. rewrite D, N, F, <- C1. unfold content. rewrite D1, <- Ep.
    pose proof (wf_flat_length b1 W1) as LF. pose proof (wf_data_size b1 W1). pose proof (wf_capacity b1 W1).
    replace (Z.to_nat (m_position b + len x)) with
      (Nat.max (Z.to_nat (m_position b)) (Z.to_nat (m_position b) + length x))
      by (unfold len; lia).
    rewrite take_splice by (try lia; unfold len in *; lia).
    unfold splice. rewrite take_take, Nat.min_id, drop_ge, app_nil_r; [done|].
    rewrite length_take. lia. }
  unfold filled, filling. split_and!; try done; try lia; congruence.
Qed.

Lemma socket_read_ba n b (ss : SocketStream K) v :
  socket_view ss v -> filling b -> 0 < n -> m_position b + n <= room b -> sv_in v <> [] ->
  exists m s', moved m n /\ m <= len (sv_in v) /\ socket_view s' (sv_recv m v) /\
    (if m_position b + m <? cap_after b n
     then exists b', SocketStream_read_ba n b ss = (Ok (m, b'), s') /\ filled b b' n (take (Z.to_nat m) (sv_in v))
     else SocketStream_read_ba n b ss = (Crash null_deref, s')).
Proof.
  intros [(k & Es & V)|(_ & Ei & _)] B Hn Hr Hi; [|done]. destruct (B) as [W Ep].
  destruct (getWriteBuffers_spec n b W Hn Hr) as
    (vs & b1 & E & W1 & P1 & D1 & C1 & E1 & S1 & G1 & G2 & _ & T & Sc).
  pose proof (grown_capacity b b1 n W W1 Hn S1 G1 G2) as Kc.
  destruct (Socket_recv_ok n k v V Hn Hi) as (m & k' & M & L & Er & V').
  set (x := take (Z.to_nat m) (sv_in v)) in *. destruct (M) as (M1 & M2 & M3).
  assert (Lx : len x = m) by (apply len_take; lia).
  destruct (Sc x ltac:(lia)) as (ns & Esc & W2 & F).
  exists m, (set_socket (mkSocket true (Some k')) ss). split; [done|]. split; [done|].
  split; [left; exists k'; done|].
  assert (R : SocketStream_read_ba n b ss =
    (let! ba := setPosition (m_position b + m) (set_nodes ns b1) in Ok (m, ba),
     set_socket (mkSocket true (Some k')) ss)).
  { unfold SocketStream_read_ba. rewrite (connected_some ss k Es), E, T, Er, Esc. cbn [rbind].
    replace (0 <? m) with true by lia. unfold getPosition. cbn [m_position set_nodes].
    rewrite P1, u64_small; [done|]. destruct W1, W. lia. }
  rewrite R. destruct (Z.ltb_spec (m_position b + m) (cap_after b n)) as [Hc|Hc].
  - destruct (received_filled b b1 n x ns) as (b' & E' & F'); try done; try lia.
    exists b'. rewrite Lx in E'. by rewrite E'.
  - replace (m_position b + m) with (m_capacity (set_nodes ns b1)) by (cbn; lia).
    by rewrite setPosition_end.
Qed.

Lemma socket_eof_ba n b (ss : SocketStream K) v :
  socket_view ss v -> filling b -> 0 < n -> m_position b + n <= room b -> sv_in v = [] ->
  exists r s' b', failed r /\ SocketStream_read_ba n b ss = (Ok (r, b'), s') /\ socket_view s' v.
Proof.
  intros Vs B Hn Hr Hi. destruct (B) as [W Ep]. destruct Vs as [(k & Es & V)|(Ec & X)].
  - destruct (getWriteBuffers_spec n b W Hn Hr) as
      (vs & b1 & E & W1 & P1 & D1 & C1 & E1 & S1 & G1 & G2 & _ & T & Sc).
    destruct (Socket_recv_eof n k v V Hn Hi) as (r & k' & F & Er & V').
    destruct (Sc [] ltac:(unfold len; simpl; lia)) as (ns & Esc & _).
    exists r, (set_socket (mkSocket true (Some k')) ss), (set_nodes ns b1). split; [done|]. split.
    + unfold SocketStream_read_ba. rewrite (connected_some ss k Es), E, T, Er, Esc. cbn [rbind].
      destruct F. by replace (0 <? r) with false by lia.
    + left. exists k'. done.
  - exists (-1), ss, b. split; [done|]. split; [|by right].
    unfold SocketStream_read_ba. by rewrite Ec.
Qed.

Lemma gather_unread n b : wf b -> 0 < n <= getReadSize b ->
  (let! (_, iovs) := getReadBuffers n b in gather iovs (m_nodes b)) = Ok (take (Z.to_nat n) (unread b)).
Proof.
  intros W Hn. destruct (getReadBuffers_spec n b W ltac:(lia)) as (vs & E & G & _).
  rewrite Z.min_l in E, G by lia. rewrite E. cbn [rbind]. exact G.
Qed.

Lemma socket_write_ba n b (ss : SocketStream K) v :
  socket_view ss v -> wf b -> 0 < n <= getReadSize b -> 0 < sv_room v ->
  exists m s', moved m n /\ m <= sv_room v /\ socket_view s' (sv_send (take (Z.to_nat m) (unread b)) v) /\
    (if m_position b + m <? m_capacity b
     then exists b', SocketStream_write_ba n b ss = (Ok (m, b'), s') /\ advanced b b' m
     else SocketStream_write_ba n b ss = (Crash null_deref, s')).
Proof.
  intros [(k & Es & V)|(_ & _ & Ro)] W Hn Hr; [|lia]. pose proof (wf_unread_length b W) as Lu.
  assert (Lx : len (take (Z.to_nat n) (unread b)) = n) by (apply len_take; lia).
  destruct (Socket_send_ok (take (Z.to_nat n) (unread b)) k v V) as (m & k' & M & L & Er & V');
    [apply len_nonempty; lia|done|].
  rewrite Lx in M. destruct (M) as (M1 & M2 & M3).
  exists m, (set_socket (mkSocket true (Some k')) ss). split; [done|]. split; [done|]. split.
  { left. exists k'. split; [done|]. rewrite take_take in V'.
    by replace (Z.to_nat m `min` Z.to_nat n)%nat with (Z.to_nat m) in V' by lia. }
  assert (R : SocketStream_write_ba n b ss =
    (let! ba := setPosition (u64 (getPosition b + m)) b in Ok (m, ba), set_socket (mkSocket true (Some k')) ss)).
  { unfold SocketStream_write_ba. rewrite (connected_some ss k Es), gather_unread, Er by done.
    by replace (0 <? m) with true by lia. }
  rewrite R. destruct (Z.ltb_spec (m_position b + m) (m_capacity b)) as [Hc|Hc].
  - destruct (setPosition_advanced b m W ltac:(lia) Hc) as (b' & E' & A). exists b'. by rewrite E'.
  - pose proof W as []. unfold getPosition.
    assert (getReadSize b = m_data_size b - m_position b) as Er' by (unfold getReadSize; by rewrite u64_small by lia).
    rewrite u64_small by lia. replace (m_position b + m) with (m_capacity b) by lia.
    by rewrite setPosition_end.
Qed.

Lemma socket_broken_ba n b (ss : SocketStream K) v :
  socket_view ss v -> wf b -> 0 < n <= getReadSize b -> sv_room v <= 0 ->
  exists r s', failed r /\ SocketStream_write_ba n b ss = (Ok (r, b), s') /\ socket_view s' v.
Proof.
  intros Vs W Hn Hr. pose proof (wf_unread_length b W) as Lu. destruct Vs as [(k & Es & V)|(Ec & X)].
  - destruct (Socket_send_broken (take (Z.to_nat n) (unread b)) k v V) as (r & k' & F & Er & V');
      [apply len_nonempty; rewrite len_take; lia|done|].
    exists r, (set_socket (mkSocket true (Some k')) ss). split; [done|]. split; [|left; exists k'; done].
    unfold SocketStream_write_ba. rewrite (connected_some ss k Es), gather_unread, Er by done.
    destruct F. by replace (0 <? r) with false by lia.
  - exists (-1), ss. split; [done|]. split; [|by right]. unfold SocketStream_write_ba. by rewrite Ec.
Qed.

#[global] Program Instance SocketStream_laws : StreamLaws (SocketStream K) := {
  stream_view := socket_view;
  law_read_ba := socket_read_ba;
  law_eof_ba := socket_eof_ba;
  law_write_ba := socket_write_ba;
  law_broken_ba := socket_broken_ba;
}.
Next Obligation.
  intros n ss v [(k & Es & V)|(_ & Ei & _)] Hn Hi; [|done].
  destruct (Socket_recv_ok n k v V Hn Hi) as (m & k' & M & L & E & V').
  exists m, (set_socket (mkSocket true (Some k')) ss). split; [done|]. split; [done|].
  split; [|left; exists k'; done].
  cbn. unfold SocketStream_read. by rewrite (connected_some ss k Es), E.
Qed.
Next Obligation.
  intros n ss v [(k & Es & V)|(Ec & X)] Hn Hi.
  - destruct (Socket_recv_eof n k v V Hn Hi) as (r & k' & F & E & V').
    exists r, (set_socket (mkSocket true (Some k')) ss). split; [done|]. split; [|left; exists k'; done].
    cbn. unfold SocketStream_read. by rewrite (connected_some ss k Es), E.
  - exists (-1), ss. split; [done|]. split; [|by right]. cbn. unfold SocketStream_read. by rewrite Ec.
Qed.
Next Obligation.
  intros x ss v [(k & Es & V)|(_ & _ & Ro)] Hx Hr; [|lia].
  destruct (Socket_send_ok x k v V Hx Hr) as (m & k' & M & L & E & V').
  exists m, (set_socket (mkSocket true (Some k')) ss). split; [done|]. split; [done|].
  split; [|left; exists k'; done].
  cbn. unfold SocketStream_write. by rewrite (connected_some ss k Es), E.
Qed.
Next Obligation.
  intros x ss v [(k & Es & V)|(Ec & X)] Hx Hr.
  - destruct (Socket_send_broken x k v V Hx Hr) as (r & k' & F & E & V').
    exists r, (set_socket (mkSocket true (Some k')) ss). split; [done|]. split; [|left; exists k'; done].
    cbn. unfold SocketStream_write. by rewrite (connected_some ss k Es), E.
  - exists (-1), ss. split; [done|]. split; [|by right]. cbn. unfold SocketStream_write. by rewrite Ec.
Qed.
Next Obligation.
  intros ss v _. cbn. unfold SocketStream_close. destruct (m_socket ss) as [sock|] eqn:Es.
  - eexists. split; [done|]. right. split; [|done]. unfold connected. cbn.
    destruct sock as [[] []]; done.
  - exists ss. split; [done|]. right. split; [|done]. unfold connected. by rewrite Es.
Qed.
End socket_stream.

(** ** A kernel in memory *)

(** It delivers and accepts at most [mk_max] bytes a call. *)
Record MemKernel := mkMemKernel { mk_view : sview; mk_max : Z }.

Definition mem_step (mk : MemKernel) : Z := Z.max 1 (Z.min (mk_max mk) (2 ^ 31 - 1)).

#[global] Instance MemKernel_Kernel : Kernel MemKernel := {
  sys_recv n mk :=
    let v := mk_view mk in
    let m := Z.min n (Z.min (len (sv_in v)) (mem_step mk)) in
    (m, take (Z.to_nat m) (sv_in v), mkMemKernel (sv_recv m v) (mk_max mk));
  sys_send x mk :=
    let v := mk_view mk in
    if 0 <? sv_room v then
      let m := Z.min (len x) (Z.min (sv_room v) (mem_step mk)) in
      (m, mkMemKernel (sv_send (take (Z.to_nat m) x) v) (mk_max mk))
    else (-1, mk);
}.

#[global] Program Instance MemKernel_laws : KernelLaws MemKernel := {
  kernel_view mk v := mk_view mk = v;
}.
Next Obligation.
  intros n mk v <- Hn Hi. assert (0 < len (sv_in (mk_view mk))) by (destruct (sv_in (mk_view mk)); [done|unfold len; simpl; lia]).
  eexists _, _. split; [|split; [|split; [reflexivity|reflexivity]]]; unfold moved, mem_step; lia.
Qed.
Next Obligation.
  intros n mk v <- Hn Hi. cbn. rewrite Hi. change (len []) with 0.
  replace (Z.min n (Z.min 0 (mem_step mk))) with 0 by (unfold mem_step; lia).
  exists 0, (mkMemKernel (mk_view mk) (mk_max mk)). split; [done|]. split; [|done].
  simpl. do 2 f_equal. unfold sv_recv. rewrite Hi. destruct (mk_view mk). cbn in *. by subst.
Qed.
Next Obligation.
  intros x mk v <- Hx Hr. cbn. replace (0 <? sv_room (mk_view mk)) with true by lia.
  assert (0 < len x) by (destruct x; [done|unfold len; simpl; lia]).
  eexists _, _. split; [|split; [|split; [reflexivity|reflexivity]]]; unfold moved, mem_step; lia.
Qed.
Next Obligation.
  intros x mk v <- Hx Hr. cbn. replace (0 <? sv_room (mk_view mk)) with false by lia.
  exists (-1), mk. done.
Qed.

(** A connected stream over it. *)
Definition mem_stream (v : sview) (max : Z) : SocketStream MemKernel :=
  mkSocketStream (Some (new_Socket (mkMemKernel v max))) true.

Lemma mem_stream_view {heap : Heap} v max : stream_view (mem_stream v max) v.
Proof. left. eexists. split; [reflexivity|done]. Qed.

(** * The theorems *)

Section theorems.
Context {S : Type} `{StreamLaws S}.

(** whatever the sizes of the pieces the transport moves, [readFixSize] returns
    exactly the bytes asked for and consumes no more, or a result that is not
    positive once the input has ended; [writeFixSize] sends the whole buffer in
    order, or the part the peer took before it broke and a result that is not
    positive. A length of 0 gives 0, the result of a closed connection. *)
Theorem Stream_fix_size (s : S) (v : sview) (n : Z) (x : list byte)
    (V : stream_view s v) (Hn : 0 <= n < 2 ^ 31) (Hx : len x < 2 ^ 31) (Hr : 0 <= sv_room v) :
  (n <= len (sv_in v) -> exists s', readFixSize n s = (Ok (n, take (Z.to_nat n) (sv_in v)), s') /\
     stream_view s' (sv_recv n v)) /\
  (len (sv_in v) < n -> exists r s', failed r /\ readFixSize n s = (Ok (r, sv_in v), s') /\
     stream_view s' (mkSview [] (sv_out v) (sv_room v))) /\
  (len x <= sv_room v -> exists s', writeFixSize x s = (Ok (len x), s') /\ stream_view s' (sv_send x v)) /\
  (sv_room v < len x -> exists r s', failed r /\ writeFixSize x s = (Ok r, s') /\
     stream_view s' (sv_send (take (Z.to_nat (sv_room v)) x) v)).
Proof.
  split_and!; intros L.
  - apply readFixSize_ok; [done|lia|lia].
  - apply readFixSize_short; [done|lia].
  - by apply writeFixSize_ok.
  - apply writeFixSize_broken; [done|lia|done].
Qed.

(** reading [n] bytes into a fresh array of [base]-byte blocks stores them in
    order whatever the pieces they arrive in, unless they fill its blocks exactly:
    then the cursor is moved to the capacity and the call dereferences a null
    pointer. Writing the unread bytes of an array sends them all, and ends the same
    way when the data fill its blocks. *)
Theorem Stream_ByteArray_fix_size {host : Host} {heap : Heap} (s : S) (v : sview) (base n : Z)
    (V : stream_view s v) (Hb : 0 < base < 2 ^ 63) (Hn : 0 < n < 2 ^ 31) (Hi : n <= len (sv_in v)) :
  (n mod base <> 0 -> exists s' b', readFixSize_ba (new_ByteArray base) n s = (Ok (n, b'), s') /\
     stream_view s' (sv_recv n v) /\ wf b' /\ content b' = take (Z.to_nat n) (sv_in v)) /\
  (n mod base = 0 -> exists s', readFixSize_ba (new_ByteArray base) n s = (Crash null_deref, s')) /\
  (forall b, wf b -> 0 < getReadSize b < 2 ^ 31 -> getReadSize b <= sv_room v ->
     if m_data_size b <? m_capacity b
     then exists s' b', writeFixSize_ba b (getReadSize b) s = (Ok (getReadSize b, b'), s') /\
            stream_view s' (sv_send (unread b) v) /\ wf b' /\ unread b' = []
     else exists s', writeFixSize_ba b (getReadSize b) s = (Crash null_deref, s') /\
            stream_view s' (sv_send (unread b) v)).
Proof.
  assert (B : filling (new_ByteArray base)) by (split; [apply wf_new; lia|done]).
  assert (C0 : content (new_ByteArray base) = []) by done.
  assert (Cap : cap_after (new_ByteArray base) n = base * ((n + base - 1) / base)).
  { unfold cap_after. cbn. apply Z.max_r. assert (1 <= (n + base - 1) / base) by (apply Z.div_le_lower_bound; lia). nia. }
  pose proof (Z.div_mod n base ltac:(lia)) as D. pose proof (Z.mod_pos_bound n base ltac:(lia)) as M.
  unfold readFixSize_ba, writeFixSize_ba. rewrite !s64_small by lia. split; [|split].
  - intros N. assert (n < cap_after (new_ByteArray base) n).
    { rewrite Cap. replace (n + base - 1) with (n mod base - 1 + (n / base + 1) * base) by lia.
      rewrite Z.div_add, Z.div_small by lia. lia. }
    destruct (readFixSize_ba_loop_ok (Z.to_nat n) n n (new_ByteArray base) s v V B)
      as (s' & b' & E & V' & [W' _] & C' & _); try (cbn; unfold room; cbn; lia).
    rewrite s32_small in E by lia. exists s', b'. by rewrite C', C0.
  - intros Z0. apply (readFixSize_ba_loop_crash (Z.to_nat n) n n (new_ByteArray base) s v V B);
      try (cbn; unfold room; cbn; lia).
    rewrite Cap. replace (n + base - 1) with (base - 1 + n / base * base) by lia.
    rewrite Z.div_add, Z.div_small by lia. cbn. lia.
  - intros b W Hs Hr. rewrite s64_small by lia. destruct (Z.ltb_spec (m_data_size b) (m_capacity b)) as [Hc|Hc].
    + destruct (writeFixSize_ba_loop_ok (Z.to_nat (getReadSize b)) (getReadSize b) (getReadSize b) b s v V W)
        as (s' & b' & E & V' & A); try (done || lia).
      rewrite s32_small in E by lia. exists s', b'. destruct A as (A1 & A2 & A3 & A4 & A5 & _).
      split_and!; [done|done|done|]. unfold unread. rewrite A2, A3.
      pose proof (wf_content_length b W) as LC. unfold getReadSize in *. destruct W.
      rewrite u64_small by lia. apply drop_ge. unfold len in LC. lia.
    + destruct (writeFixSize_ba_loop_crash (Z.to_nat (getReadSize b)) (getReadSize b) (getReadSize b) b s v V W)
        as (s' & E & V'); try (done || lia); [|eauto]. destruct W. lia.
Qed.
End theorems.

Section witnesses.
#[local] Existing Instance zero_heap.
#[local] Existing Instance x86_host.

Definition demo_view : sview := mkSview (bstr "hello, world") [] 100.

Lemma Stream_fix_size_witness : exists s',
  readFixSize 5 (mem_stream demo_view 2) = (Ok (5, bstr "hello"), s').
Proof.
  destruct (Stream_fix_size (mem_stream demo_view 2) demo_view 5 [] (mem_stream_view _ _)
    ltac:(lia) ltac:(reflexivity) ltac:(vm_compute; congruence)) as (R & _).
  destruct (R ltac:(vm_compute; congruence)) as (s' & E & _). exists s'. exact E.
Defined.

(** A body of four bytes into an array of four-byte blocks. *)
Lemma Stream_ByteArray_fix_size_witness : exists s',
  readFixSize_ba (new_ByteArray 4) 4 (mem_stream demo_view 3) = (Crash null_deref, s').
Proof.
  destruct (Stream_ByteArray_fix_size (mem_stream demo_view 3) demo_view 4 4
    (mem_stream_view _ _) ltac:(lia) ltac:(lia) ltac:(vm_compute; congruence)) as (_ & C & _).
  exact (C eq_refl).
Defined.
End witnesses.
