(* ===== verification/WebSocket.v ===== *)
(** WebSocket framing (include/http/ws_session.hpp, src/http/ws_session.cpp):
    [WSRecvMessage], [WSSendMessage], [WSPing] and [WSPong], over any [Stream]; the
    same functions serve [WSSession] (the server's side) and [WSConnection]
    (src/http/ws_connection.cpp, the client's).

    The limit [websocket.message.max_size] and the value of [rand] are arguments.
    A [break] out of the code's [do] loop is [None], after which the stream is closed. *)
From S2P Require Import Prelude Endian ByteArray Stream.

(** ** Data *)

Definition CONTINUE : Z := 0.
Definition TEXT_FRAME : Z := 1.
Definition BIN_FRAME : Z := 2.
Definition CLOSE : Z := 8.
Definition PING : Z := 0x9.
Definition PONG : Z := 0xA.

Record WSFrameHead := mkWSFrameHead {
  fin : bool; rsv1 : bool; rsv2 : bool; rsv3 : bool; opcode : Z;
  mask : bool; payload : Z;
}.

Record WSFrameMessage := mkWSFrameMessage { m_opcode : Z; m_data : list byte }.

(** The two bytes of a head, as [WSRecvMessage] takes them apart. *)
Definition ws_head (b1 b2 : Z) : WSFrameHead :=
  mkWSFrameHead
    (negb (Z.land b1 0x80 =? 0)) (negb (Z.land b1 0x40 =? 0))
    (negb (Z.land b1 0x20 =? 0)) (negb (Z.land b1 0x10 =? 0))
    (Z.land b1 0x0F)
    (negb (Z.land b2 0x80 =? 0)) (Z.land b2 0x7F).

(** [std::string::resize] to a length that is in memory. *)
Definition resize (data : list byte) (n : nat) : list byte := take n data ++ replicate (n - length data) x00.

(** [x[i] ^= key[i % 4]] from the [i]-th byte on. *)
Fixpoint xor_mask (key : list byte) (i : nat) (x : list byte) : list byte :=
  match x with
  | [] => []
  | c :: x => z2b (Z.lxor (b2z c) (b2z (nth (i mod 4) key x00))) :: xor_mask key (S i) x
  end.

Section web_socket.
Context {S : Type} `{Stream S} {host : Host}.

(** [if (stream->readFixSize(..) <= 0) break;] and the same for a write. *)
Definition read_or_break {A} (n : Z) (k : list byte -> st S (option A)) : st S (option A) :=
  let* (r, x) := readFixSize n in if r <=? 0 then sret None else k x.

Definition or_break {A} (m : st S Z) (k : st S (option A)) : st S (option A) :=
  let* r := m in if r <=? 0 then sret None else k.

(** The bodies of [WSPing] and [WSPong]: two writes, closing the stream when one fails. *)
Definition ws_control (b1 : Z) : st S Z :=
  let* r := writeFixSize [z2b b1] in
  if r <=? 0 then let* _ := stream_close in sret (-1)
  else
    let* r := writeFixSize [x00] in
    if r <=? 0 then let* _ := stream_close in sret (-1) else sret 2.

Definition WSPing : st S Z := ws_control (Z.lor 0x80 PING).
Definition WSPong : st S Z := ws_control (Z.lor 0x80 PONG).

(** The length of a payload: in the head, or in the 2 or 8 bytes that follow it. *)
Definition ws_length {A} (h : WSFrameHead) (k : Z -> st S (option A)) : st S (option A) :=
  if payload h =? 126 then read_or_break 2 (fun x => k (byteswap 2 (of_mem x)))
  else if payload h =? 127 then read_or_break 8 (fun x => k (byteswap 8 (of_mem x)))
  else k (payload h).

(** The masking key, zero when the frame has none. *)
Definition ws_mask_key {A} (h : WSFrameHead) (k : list byte -> st S (option A)) : st S (option A) :=
  if mask h then read_or_break 4 k else k [x00; x00; x00; x00].

(** The loop of [WSRecvMessage], one frame a turn; [opcode], [data] and [cur_len] are
    its variables. *)
Fixpoint ws_recv_loop (fuel : nat) (max_size : Z) (client : bool)
    (op : Z) (data : list byte) (cur_len : Z) : st S (option WSFrameMessage) :=
  match fuel with
  | O => fun s => (Crash nontermination, s)
  | Datatypes.S fuel =>
      read_or_break 1 (fun x1 =>
      read_or_break 1 (fun x2 =>
      let h := ws_head (b2z (nth 0 x1 x00)) (b2z (nth 0 x2 x00)) in
      if opcode h =? PING then
        or_break WSPong (ws_recv_loop fuel max_size client op data cur_len)
      else if opcode h =? PONG then ws_recv_loop fuel max_size client op data cur_len
      else if (opcode h =? CONTINUE) || (opcode h =? TEXT_FRAME) || (opcode h =? BIN_FRAME) then
        if negb client && negb (mask h) then sret None
        else
          ws_length h (fun length =>
          let total := u64 (cur_len + length) in
          if max_size <=? total then sret None
          else
            ws_mask_key h (fun mask_key =>
            let data := resize data (Z.to_nat total) in
            (* [&data[cur_len]] *)
            if len data <? cur_len then (fun s => (Crash out_of_bounds, s))
            else
              read_or_break length (fun x =>
              let x := if mask h then xor_mask mask_key 0 x else x in
              let data := take (Z.to_nat cur_len) data ++ x in
              let cur_len := s32 total in
              let op := if (op =? 0) && negb (opcode h =? CONTINUE) then opcode h else op in
              if fin h then sret (Some (mkWSFrameMessage op data))
              else ws_recv_loop fuel max_size client op data cur_len)))
      else ws_recv_loop fuel max_size client op data cur_len))
  end.

Definition WSRecvMessage (fuel : nat) (max_size : Z) (client : bool) : st S (option WSFrameMessage) :=
  let* msg := ws_recv_loop fuel max_size client 0 [] 0 in
  match msg with
  | Some m => sret (Some m)
  | None => let* _ := stream_close in sret None
  end.

(** ** Sending *)

Definition len_indicator (size : Z) : Z :=
  if size <? 126 then size else if size <? 65536 then 126 else 127.

(** The extended length, written in the host's order after [byteswap]. *)
Definition ws_ext (size : Z) : list byte :=
  if len_indicator size =? 126 then to_mem 2 (byteswap 2 (u16 size))
  else if len_indicator size =? 127 then to_mem 8 (byteswap 8 size)
  else [].

(** The bytes of it the result counts. *)
Definition ext_size (size : Z) : Z :=
  if len_indicator size =? 126 then 2 else if len_indicator size =? 127 then 8 else 0.

Definition ws_b1 (msg : WSFrameMessage) (fin : bool) : Z :=
  Z.lor (if fin then 0x80 else 0) (Z.land (m_opcode msg) 0x0F).

Definition ws_b2 (size : Z) (client : bool) : Z :=
  Z.lor (if client then 0x80 else 0) (Z.land (len_indicator size) 0x7F).

Definition WSSendMessage (rand_value : Z) (msg : WSFrameMessage) (client fin : bool) : st S Z :=
  let size := len (m_data msg) in
  let* r :=
    or_break (writeFixSize [z2b (ws_b1 msg fin)])
    (or_break (writeFixSize [z2b (ws_b2 size client)])
    (let rest :=
       if client then
         let mask := to_mem 4 rand_value in
         or_break (writeFixSize mask)
         (let masked := xor_mask mask 0 (m_data msg) in
          or_break (writeFixSize masked) (sret (Some (s32 (2 + ext_size size + 4 + len masked)))))
       else or_break (writeFixSize (m_data msg)) (sret (Some (s32 (2 + ext_size size + size)))) in
     if (len_indicator size =? 126) || (len_indicator size =? 127)
     then or_break (writeFixSize (ws_ext size)) rest else rest)) in
  match r with
  | Some n => sret n
  | None => let* _ := stream_close in sret (-1)
  end.
End web_socket.
