(* ===== verification/WebSocketSpec.v ===== *)
(** WebSocket framing against the frames of the protocol: what is sent, what is
    received from it by the other side, what is refused, how control frames are
    treated, and termination, over any stream that keeps [StreamLaws]. *)
From S2P Require Import Prelude Endian ByteArray ByteArraySpec Stream StreamSpec WebSocket.

(** ** Masks *)

Lemma z2b_lxor_twice c k : z2b (Z.lxor (b2z (z2b (Z.lxor (b2z c) k))) k) = c.
Proof.
  destruct (decide (0 <= k < 2 ^ 8)) as [Hk|Hk].
  - rewrite b2z_z2b_small by (apply (lxor_range 8); [lia|apply b2z_range|done]).
    by rewrite Z.lxor_assoc, Z.lxor_nilpotent, Z.lxor_0_r, z2b_b2z.
  - apply b2z_inj. rewrite !b2z_z2b, <- !(Z.land_ones _ 8) by lia. apply Z.bits_inj'. intros i Hi.
    pose proof (b2z_range c). rewrite !Z.land_spec, !Z.lxor_spec, Z.land_spec, Z.lxor_spec.
    destruct (Z.lt_ge_cases i 8).
    + rewrite Z.ones_spec_low by lia. destruct (Z.testbit (b2z c) i), (Z.testbit k i); done.
    + rewrite Z.ones_spec_high by lia. rewrite andb_false_r.
      rewrite <- (Z.mod_small (b2z c) (2 ^ 8)) by lia. by rewrite Z.mod_pow2_bits_high by lia.
Qed.

Lemma xor_mask_involutive key : forall x i, xor_mask key i (xor_mask key i x) = x.
Proof. induction x as [|c x IH]; intros i; [done|]. cbn [xor_mask]. by rewrite IH, z2b_lxor_twice. Qed.

Lemma length_xor_mask key : forall x i, length (xor_mask key i x) = length x.
Proof. induction x as [|c x IH]; intros i; [done|]. cbn. by rewrite IH. Qed.

Lemma len_xor_mask key x i : len (xor_mask key i x) = len x.
Proof. unfold len. by rewrite length_xor_mask. Qed.

(** ** Heads *)

Definition ws_parse (b1 b2 : byte) : WSFrameHead := ws_head (b2z b1) (b2z b2).

(** The first byte, from its fields. *)
Lemma parse_b1 op fn : 0 <= op < 16 ->
  let b := b2z (z2b (Z.lor (if fn : bool then 0x80 else 0) op)) in
  Z.land b 0x0F = op /\ negb (Z.land b 0x80 =? 0) = fn.
Proof.
  intros H.
  assert (forallb (fun n => forallb (fun fn : bool =>
      let b := b2z (z2b (Z.lor (if fn then 0x80 else 0) (Z.of_nat n))) in
      (Z.land b 0x0F =? Z.of_nat n) && Bool.eqb (negb (Z.land b 0x80 =? 0)) fn) [true; false])
    (seq 0 16) = true) as F by (vm_compute; reflexivity).
  rewrite List.forallb_forall in F. specialize (F (Z.to_nat op) ltac:(apply in_seq; lia)).
  rewrite Z2Nat.id in F by lia. simpl in F. rewrite !andb_true_iff in F.
  destruct fn; [destruct F as [[F1 F2] _]|destruct F as [_ [[F1 F2] _]]];
    apply Z.eqb_eq in F1; apply Bool.eqb_prop in F2; done.
Qed.

Lemma parse_b2 i mk : 0 <= i < 128 ->
  let b := b2z (z2b (Z.lor (if mk : bool then 0x80 else 0) (Z.land i 0x7F))) in
  Z.land b 0x7F = i /\ negb (Z.land b 0x80 =? 0) = mk.
Proof.
  intros H.
  assert (forallb (fun n => forallb (fun mk : bool =>
      let b := b2z (z2b (Z.lor (if mk then 0x80 else 0) (Z.land (Z.of_nat n) 0x7F))) in
      (Z.land b 0x7F =? Z.of_nat n) && Bool.eqb (negb (Z.land b 0x80 =? 0)) mk) [true; false])
    (seq 0 128) = true) as F by (vm_compute; reflexivity).
  rewrite List.forallb_forall in F. specialize (F (Z.to_nat i) ltac:(apply in_seq; lia)).
  rewrite Z2Nat.id in F by lia. cbn [forallb] in F. rewrite !andb_true_iff in F.
  destruct mk; [destruct F as [[F1 F2] _]|destruct F as [_ [[F1 F2] _]]];
    apply Z.eqb_eq in F1; apply Bool.eqb_prop in F2; done.
Qed.

Lemma len_indicator_range size : 0 <= size -> 0 <= len_indicator size < 128.
Proof. intros. unfold len_indicator. destruct (size <? 126) eqn:E, (size <? 65536); lia. Qed.

(** ** Steps on a stream *)

Section steps.
Context {S : Type} `{StreamLaws S}.

Lemma read_or_break_ok {A} x (k : list byte -> st S (option A)) s v rest :
  stream_view s v -> sv_in v = x ++ rest -> 0 < len x < 2 ^ 31 ->
  exists s', read_or_break (len x) k s = k x s' /\ stream_view s' (mkSview rest (sv_out v) (sv_room v)).
Proof.
  intros V Ei Hx. destruct (readFixSize_ok (len x) s v V) as (s' & E & V');
    [rewrite Ei; unfold len; rewrite length_app; lia|lia|].
  exists s'. unfold read_or_break. rewrite (sbind_ok _ _ _ _ _ E). replace (len x <=? 0) with false by lia.
  unfold sv_recv in V'. rewrite Ei in V' |- *. unfold len in V' |- *.
  rewrite Nat2Z.id in V' |- *. rewrite take_app_length. rewrite drop_app_length in V'. done.
Qed.

Lemma read_or_break_short {A} n (k : list byte -> st S (option A)) s v :
  stream_view s v -> len (sv_in v) < n < 2 ^ 31 ->
  exists s', read_or_break n k s = (Ok None, s') /\ stream_view s' (mkSview [] (sv_out v) (sv_room v)).
Proof.
  intros V Hn. destruct (readFixSize_short n s v V Hn) as (r & s' & F & E & V').
  exists s'. unfold read_or_break. rewrite (sbind_ok _ _ _ _ _ E). destruct F.
  by replace (r <=? 0) with true by lia.
Qed.

Lemma read_or_break_0 {A} (k : list byte -> st S (option A)) s : read_or_break 0 k s = (Ok None, s).
Proof. reflexivity. Qed.

Lemma write_or_break_ok {A} x (k : st S (option A)) s v :
  stream_view s v -> 0 < len x <= sv_room v -> len x < 2 ^ 31 ->
  exists s', or_break (writeFixSize x) k s = k s' /\ stream_view s' (sv_send x v).
Proof.
  intros V Hx Hb. destruct (writeFixSize_ok x s v V ltac:(lia) Hb) as (s' & E & V').
  exists s'. unfold or_break. rewrite (sbind_ok _ _ _ _ _ E). by replace (len x <=? 0) with false by lia.
Qed.

Lemma write_or_break_0 {A} (k : st S (option A)) s : or_break (writeFixSize []) k s = (Ok None, s).
Proof. reflexivity. Qed.

Lemma sv_send_app x y v : sv_send y (sv_send x v) = sv_send (x ++ y) v.
Proof. unfold sv_send. cbn. rewrite <- app_assoc, len_app. f_equal. lia. Qed.

(** The length of a payload and the key, read back from what precedes the data. *)
Context {host : Host}.

Lemma len_to_mem n v : len (to_mem n v) = Z.of_nat n.
Proof. unfold len, to_mem. by rewrite length_wire_bytes. Qed.

Lemma of_mem_to_mem n v : of_mem (to_mem n v) = v mod 2 ^ (8 * Z.of_nat n).
Proof. apply of_wire_wire_bytes. Qed.

Lemma swapped_length n v : byteswap n (of_mem (to_mem n (byteswap n v))) = v mod 2 ^ (8 * Z.of_nat n).
Proof.
  rewrite of_mem_to_mem, Z.mod_small by apply byteswap_range. apply byteswap_involutive.
Qed.

Lemma ws_length_ok {A} h size (k : Z -> st S (option A)) s v rest :
  stream_view s v -> 0 <= size < 2 ^ 64 -> payload h = len_indicator size -> sv_in v = ws_ext size ++ rest ->
  exists s', ws_length h k s = k size s' /\ stream_view s' (mkSview rest (sv_out v) (sv_room v)).
Proof.
  intros V Hs Hp Ei. unfold ws_length, ws_ext in *. rewrite Hp.
  destruct (Z.eqb_spec (len_indicator size) 126) as [E|E].
  - pose proof (len_to_mem 2 (byteswap 2 (u16 size))) as L.
    destruct (read_or_break_ok (to_mem 2 (byteswap 2 (u16 size))) (fun x => k (byteswap 2 (of_mem x))) s v rest V Ei)
      as (s' & E' & V'); [rewrite L; lia|].
    rewrite L in E'. change (Z.of_nat 2) with 2 in E'. exists s'. split; [|done]. rewrite E', swapped_length.
    unfold len_indicator in E. assert (0 <= size < 65536) by (destruct (size <? 126) eqn:?, (size <? 65536) eqn:?; lia).
    change (2 ^ (8 * Z.of_nat 2)) with 65536. unfold u16. by rewrite !Z.mod_small by (rewrite ?Z.mod_small; lia).
  - destruct (Z.eqb_spec (len_indicator size) 127) as [E1|E1].
    + pose proof (len_to_mem 8 (byteswap 8 size)) as L.
      destruct (read_or_break_ok (to_mem 8 (byteswap 8 size)) (fun x => k (byteswap 8 (of_mem x))) s v rest V Ei)
        as (s' & E' & V'); [rewrite L; lia|].
      rewrite L in E'. change (Z.of_nat 8) with 8 in E'. exists s'. split; [|done]. rewrite E', swapped_length.
      by rewrite Z.mod_small.
    + exists s. split; [|destruct v; cbn in *; by subst].
      f_equal. unfold len_indicator in *. destruct (size <? 126) eqn:?, (size <? 65536) eqn:?; lia.
Qed.

(** ** Frames *)

(** What [WSSendMessage] puts on the wire. *)
Definition ws_frame (rand : Z) (msg : WSFrameMessage) (client fn : bool) : list byte :=
  let size := len (m_data msg) in
  [z2b (ws_b1 msg fn)] ++ [z2b (ws_b2 size client)] ++ ws_ext size ++
  (if client then to_mem 4 rand ++ xor_mask (to_mem 4 rand) 0 (m_data msg) else m_data msg).

Lemma ws_b1_head msg fn : 
  let b := b2z (z2b (ws_b1 msg fn)) in Z.land b 0x0F = Z.land (m_opcode msg) 0x0F /\ negb (Z.land b 0x80 =? 0) = fn.
Proof.
  apply parse_b1. rewrite (Z.land_ones _ 4) by lia. apply Z.mod_pos_bound. lia.
Qed.

Lemma ws_parse_frame msg client fn :
  let h := ws_parse (z2b (ws_b1 msg fn)) (z2b (ws_b2 (len (m_data msg)) client)) in
  fin h = fn /\ opcode h = Z.land (m_opcode msg) 0x0F /\ mask h = client /\ payload h = len_indicator (len (m_data msg)).
Proof.
  destruct (ws_b1_head msg fn) as [P1 P2].
  destruct (parse_b2 (len_indicator (len (m_data msg))) client) as [P3 P4];
    [apply len_indicator_range, len_nonneg|].
  cbn zeta. unfold ws_parse, ws_head. cbn [fin opcode mask payload]. fold (ws_b2 (len (m_data msg)) client) in P3, P4.
  by rewrite P1, P2, P3, P4.
Qed.

Definition is_data_op (op : Z) : bool := (op =? CONTINUE) || (op =? TEXT_FRAME) || (op =? BIN_FRAME).

Lemma len1 (b : byte) : len [b] = 1.
Proof. done. Qed.

(** The loop after a head that is in the input. *)
Lemma recv_head fuel max client op data cur s v b1 b2 rest :
  stream_view s v -> sv_in v = b1 :: b2 :: rest ->
  exists s', stream_view s' (mkSview rest (sv_out v) (sv_room v)) /\
    ws_recv_loop (Datatypes.S fuel) max client op data cur s =
    let h := ws_parse b1 b2 in
    (if opcode h =? PING then or_break WSPong (ws_recv_loop fuel max client op data cur)
     else if opcode h =? PONG then ws_recv_loop fuel max client op data cur
     else if is_data_op (opcode h) then
       if negb client && negb (mask h) then sret None
       else
         ws_length h (fun length =>
         let total := u64 (cur + length) in
         if max <=? total then sret None
         else
           ws_mask_key h (fun mask_key =>
           let data := resize data (Z.to_nat total) in
           if len data <? cur then (fun s => (Crash out_of_bounds, s))
           else
             read_or_break length (fun x =>
             let x := if mask h then xor_mask mask_key 0 x else x in
             let data := take (Z.to_nat cur) data ++ x in
             let cur := s32 total in
             let op := if (op =? 0) && negb (opcode h =? CONTINUE) then opcode h else op in
             if fin h then sret (Some (mkWSFrameMessage op data))
             else ws_recv_loop fuel max client op data cur)))
     else ws_recv_loop fuel max client op data cur) s'.
Proof.
  intros V Ei. cbn [ws_recv_loop].
  match goal with |- context [read_or_break 1 ?k s] => set (K1 := k) end.
  destruct (read_or_break_ok [b1] K1 s v (b2 :: rest) V Ei ltac:(rewrite len1; lia)) as (s1 & E1 & V1).
  rewrite len1 in E1. rewrite E1. unfold K1. clear K1 E1. cbv beta.
  match goal with |- context [read_or_break 1 ?k s1] => set (K2 := k) end.
  destruct (read_or_break_ok [b2] K2 s1 _ rest V1 eq_refl ltac:(rewrite len1; lia)) as (s2 & E2 & V2).
  rewrite len1 in E2. exists s2. split; [done|]. rewrite E2. done.
Qed.

Lemma length_resize d n : length (resize d n) = n.
Proof. unfold resize. rewrite length_app, length_take, length_replicate. lia. Qed.

Lemma take_resize d n : (length d <= n)%nat -> take (length d) (resize d n) = d.
Proof. intros Hn. unfold resize. rewrite (take_ge d) by done. apply take_app_length. Qed.

Definition masked (client : bool) (rand : Z) (d : list byte) : list byte :=
  if client then xor_mask (to_mem 4 rand) 0 d else d.

Lemma len_masked client rand d : len (masked client rand d) = len d.
Proof. destruct client; [apply len_xor_mask|done]. Qed.

Lemma ws_mask_key_ok {A} h client rand (k : list byte -> st S (option A)) s v rest :
  stream_view s v -> mask h = client -> sv_in v = (if client then to_mem 4 rand else []) ++ rest ->
  exists s' key, ws_mask_key h k s = k key s' /\ (client = true -> key = to_mem 4 rand) /\
    stream_view s' (mkSview rest (sv_out v) (sv_room v)).
Proof.
  intros V Hm Ei. unfold ws_mask_key. rewrite Hm. destruct client.
  - pose proof (len_to_mem 4 rand) as L.
    destruct (read_or_break_ok (to_mem 4 rand) k s v rest V Ei ltac:(rewrite L; lia)) as (s' & E & V').
    rewrite L in E. change (Z.of_nat 4) with 4 in E. exists s', (to_mem 4 rand). by rewrite E.
  - exists s, [x00; x00; x00; x00]. split_and!; [done|done|]. destruct v; cbn in *; by subst.
Qed.

(** The opcode of the message after a frame. *)
Definition next_op (op fop : Z) : Z := if (op =? 0) && negb (fop =? CONTINUE) then fop else op.

(** One data frame, from head to payload. *)
Lemma recv_frame fuel max client rand msg fn op data s v rest :
  stream_view s v -> sv_in v = ws_frame rand msg client fn ++ rest ->
  is_data_op (Z.land (m_opcode msg) 0x0F) = true -> 0 < len (m_data msg) ->
  len data + len (m_data msg) < max -> max <= 2 ^ 31 ->
  exists s', stream_view s' (mkSview rest (sv_out v) (sv_room v)) /\
    ws_recv_loop (Datatypes.S fuel) max (negb client) op data (len data) s =
    (if fn then sret (Some (mkWSFrameMessage (next_op op (Z.land (m_opcode msg) 0x0F)) (data ++ m_data msg)))
     else ws_recv_loop fuel max (negb client) (next_op op (Z.land (m_opcode msg) 0x0F)) (data ++ m_data msg)
            (len data + len (m_data msg))) s'.
Proof.
  intros V Ei Hop Hd Hmax Hm. pose proof (len_nonneg data).
  destruct (ws_parse_frame msg client fn) as (P1 & P2 & P3 & P4).
  set (d := m_data msg) in *. set (fop := Z.land (m_opcode msg) 0x0F) in *.
  unfold ws_frame in Ei. fold d in Ei. cbn [app] in Ei.
  destruct (recv_head fuel max (negb client) op data (len data) s v _ _ _ V Ei) as (s1 & V1 & E).
  rewrite E. clear E. cbv zeta. set (h := ws_parse _ _) in *. rewrite P2, P3.
  assert ((fop =? PING) = false /\ (fop =? PONG) = false) as [-> ->]
    by (unfold is_data_op, CONTINUE, TEXT_FRAME, BIN_FRAME, PING, PONG in *; lia).
  rewrite Hop. replace (negb (negb client) && negb client) with false by (by destruct client).
  match goal with |- context [ws_length h ?k s1] => set (K := k) end.
  destruct (ws_length_ok h (len d) K s1 _ ((if client then to_mem 4 rand else []) ++ masked client rand d ++ rest)
    V1 ltac:(lia) P4) as (s2 & E2 & V2).
  { cbn. unfold masked. rewrite <- !app_assoc. destruct client; cbn; by rewrite <- ?app_assoc. }
  rewrite E2. unfold K. clear K E2. cbv beta zeta.
  rewrite u64_small by lia. replace (max <=? len data + len d) with false by lia.
  match goal with |- context [ws_mask_key h ?k s2] => set (K := k) end.
  destruct (ws_mask_key_ok h client rand K s2 _ (masked client rand d ++ rest) V2 P3 eq_refl)
    as (s3 & key & E3 & Kk & V3).
  rewrite E3. unfold K. clear K E3. cbv beta zeta.
  assert (L : len (resize data (Z.to_nat (len data + len d))) = len data + len d)
    by (unfold len; rewrite length_resize; lia).
  rewrite L. replace (len data + len d <? len data) with false by lia.
  match goal with |- context [read_or_break (len d) ?k s3] => set (K := k) end.
  destruct (read_or_break_ok (masked client rand d) K s3 _ rest V3 eq_refl) as (s4 & E4 & V4);
    [rewrite len_masked; lia|].
  rewrite len_masked in E4. rewrite E4. unfold K. clear K E4. cbv beta zeta.
  exists s4. split; [exact V4|]. rewrite s32_small by lia. rewrite P1.
  assert ((if client then xor_mask key 0 (masked client rand d) else masked client rand d) = d) as ->.
  { unfold masked. destruct client; [rewrite Kk by done; apply xor_mask_involutive|done]. }
  replace (take (Z.to_nat (len data)) (resize data (Z.to_nat (len data + len d)))) with data
    by (unfold len; rewrite Nat2Z.id; symmetry; apply take_resize; lia).
  fold (next_op op fop). by destruct fn.
Qed.

(** A message in fragments, the first with its opcode, the others continuing it. *)
Fixpoint ws_fragments (client : bool) (op : Z) (l : list (Z * list byte)) : list byte :=
  match l with
  | [] => []
  | (rand, d) :: l =>
      ws_frame rand (mkWSFrameMessage op d) client (match l with [] => true | _ => false end) ++
      ws_fragments client CONTINUE l
  end.

Definition ws_payload (l : list (Z * list byte)) : list byte := concat (map snd l).

Lemma recv_fragments max client l : forall fuel op fop data s v rest,
  stream_view s v -> l <> [] -> sv_in v = ws_fragments client fop l ++ rest ->
  is_data_op fop = true -> Forall (fun p => 0 < len (snd p)) l ->
  len data + len (ws_payload l) < max -> max <= 2 ^ 31 -> (length l <= fuel)%nat ->
  exists s', ws_recv_loop fuel max (negb client) op data (len data) s =
    (Ok (Some (mkWSFrameMessage (next_op op fop) (data ++ ws_payload l))), s') /\
    stream_view s' (mkSview rest (sv_out v) (sv_room v)).
Proof.
  induction l as [|[rand d] l IH]; intros fuel op fop data s v rest V Hl Ei Hop Hd Hmax Hm Hf; [done|].
  destruct fuel as [|fuel]; [simpl in Hf; lia|].
  apply Forall_cons_iff in Hd as [Hd Hds]. cbn [snd] in Hd.
  unfold ws_payload in Hmax |- *. cbn [map concat snd] in Hmax |- *. fold (ws_payload l) in Hmax |- *.
  rewrite len_app in Hmax. pose proof (len_nonneg (ws_payload l)). pose proof (len_nonneg data).
  assert (O : Z.land fop 0x0F = fop)
    by (unfold is_data_op, CONTINUE, TEXT_FRAME, BIN_FRAME in Hop;
        assert (fop = 0 \/ fop = 1 \/ fop = 2) as [-> | [-> | ->]] by lia; done).
  cbn [ws_fragments] in Ei. rewrite <- app_assoc in Ei.
  destruct (recv_frame fuel max client rand (mkWSFrameMessage fop d) (match l with [] => true | _ => false end)
    op data s v _ V Ei) as (s1 & V1 & E); cbn [m_data m_opcode] in *; rewrite ?O in *; try done; try lia.
  rewrite E. destruct l as [|p l].
  - exists s1. split; [|exact V1]. unfold ws_payload. cbn. by rewrite app_nil_r.
  - rewrite <- len_app. edestruct (IH fuel (next_op op fop) CONTINUE (data ++ d) s1 _ rest V1) as (s2 & E2 & V2);
      try done; [rewrite len_app; lia|simpl in Hf |- *; lia|].
    exists s2. split; [|exact V2]. rewrite E2, <- app_assoc. do 4 f_equal.
    unfold next_op. by destruct ((op =? 0) && negb (fop =? CONTINUE)); simpl; rewrite ?andb_false_r.
Qed.

(** ** Sending *)

Lemma send_step {A} x (k : st S (option A)) s v :
  stream_view s v -> 0 < len x <= sv_room v -> len x < 2 ^ 31 ->
  exists s', or_break (writeFixSize x) k s = k s' /\ stream_view s' (sv_send x v).
Proof. apply write_or_break_ok. Qed.

Lemma len_ws_ext size : len (ws_ext size) = ext_size size.
Proof. unfold ws_ext, ext_size. repeat case_match; try apply len_to_mem. done. Qed.

Lemma len_ws_frame rand msg client fn :
  len (ws_frame rand msg client fn) = 2 + ext_size (len (m_data msg)) + (if client then 4 else 0) + len (m_data msg).
Proof.
  unfold ws_frame. rewrite !len_app, len_ws_ext, !len1.
  destruct client; [rewrite len_app, len_to_mem, len_xor_mask|]; lia.
Qed.

(** Everything before the payload, whatever follows it. *)
Lemma send_header {A} size client fn msg (k : st S (option A)) s v :
  stream_view s v -> 2 + ext_size size <= sv_room v ->
  exists s', or_break (writeFixSize [z2b (ws_b1 msg fn)])
    (or_break (writeFixSize [z2b (ws_b2 size client)])
    (if (len_indicator size =? 126) || (len_indicator size =? 127)
     then or_break (writeFixSize (ws_ext size)) k else k)) s = k s' /\
    stream_view s' (sv_send ([z2b (ws_b1 msg fn)] ++ [z2b (ws_b2 size client)] ++ ws_ext size) v).
Proof.
  intros V Hr. assert (0 <= ext_size size) by (rewrite <- len_ws_ext; apply len_nonneg).
  match goal with |- context [or_break _ ?k s] => set (K1 := k) end.
  destruct (send_step [z2b (ws_b1 msg fn)] K1 s v V ltac:(rewrite len1; lia) ltac:(rewrite len1; lia)) as (s1 & E1 & V1).
  rewrite E1. unfold K1. clear K1 E1.
  match goal with |- context [or_break _ ?k s1] => set (K2 := k) end.
  destruct (send_step [z2b (ws_b2 size client)] K2 s1 _ V1) as (s2 & E2 & V2);
    [rewrite len1; cbn [sv_room sv_send]; rewrite len1; lia|rewrite len1; lia|].
  rewrite E2. unfold K2. clear K2 E2. rewrite sv_send_app in V2.
  destruct ((len_indicator size =? 126) || (len_indicator size =? 127)) eqn:Ei.
  - assert (0 < ext_size size <= 8)
      by (unfold ext_size; destruct (len_indicator size =? 126), (len_indicator size =? 127); try done; lia).
    destruct (send_step (ws_ext size) k s2 _ V2) as (s3 & E3 & V3);
      [rewrite len_ws_ext; cbn [sv_room sv_send]; rewrite len_app, !len1; lia|rewrite len_ws_ext; lia|].
    exists s3. split; [done|]. by rewrite sv_send_app, <- app_assoc in V3.
  - exists s2. split; [done|]. replace (ws_ext size) with (@nil byte); [by rewrite app_nil_r|].
    unfold ws_ext. by destruct (len_indicator size =? 126), (len_indicator size =? 127).
Qed.

Lemma send_message rand msg client fn s v :
  stream_view s v -> 0 < len (m_data msg) ->
  len (ws_frame rand msg client fn) <= sv_room v -> len (ws_frame rand msg client fn) < 2 ^ 31 ->
  exists s', WSSendMessage rand msg client fn s = (Ok (len (ws_frame rand msg client fn)), s') /\
    stream_view s' (sv_send (ws_frame rand msg client fn) v).
Proof.
  intros V Hd. rewrite len_ws_frame. intros Hr Hb. unfold WSSendMessage. set (d := m_data msg) in *.
  assert (0 <= ext_size (len d)) by (rewrite <- len_ws_ext; apply len_nonneg).
  match goal with |- context [(if (len_indicator _ =? 126) || _ then or_break _ ?r else ?r)] => set (K := r) end.
  destruct (send_header (len d) client fn msg K s v V ltac:(destruct client; lia)) as (s1 & E1 & V1).
  unfold sbind. rewrite E1. clear E1. unfold ws_frame. fold d. subst K. cbv zeta. destruct client.
  - match goal with |- context [or_break _ ?k s1] => set (K2 := k) end.
    destruct (send_step (to_mem 4 rand) K2 s1 _ V1) as (s2 & E2 & V2);
      [rewrite len_to_mem; cbn [sv_room sv_send]; rewrite !len_app, !len1, len_ws_ext; lia|rewrite len_to_mem; lia|].
    rewrite E2. subst K2. rewrite sv_send_app in V2.
    match goal with |- context [or_break _ ?k s2] => set (K3 := k) end.
    destruct (send_step (xor_mask (to_mem 4 rand) 0 d) K3 s2 _ V2) as (s3 & E3 & V3);
      [rewrite len_xor_mask; cbn [sv_room sv_send]; rewrite !len_app, !len1, len_ws_ext, len_to_mem; lia|
       rewrite len_xor_mask; lia|].
    rewrite E3. subst K3. cbn [sret]. exists s3. rewrite len_xor_mask, s32_small by lia. split; [done|].
    rewrite sv_send_app in V3. rewrite <- !app_assoc in V3. by rewrite <- ?app_assoc.
  - match goal with |- context [or_break _ ?k s1] => set (K2 := k) end.
    destruct (send_step d K2 s1 _ V1) as (s2 & E2 & V2);
      [cbn [sv_room sv_send]; rewrite !len_app, !len1, len_ws_ext; lia|lia|].
    rewrite E2. subst K2. cbn [sret]. exists s2. rewrite s32_small by lia.
    split; [unfold sret; by rewrite Z.add_0_r|]. rewrite sv_send_app in V2. rewrite <- !app_assoc in V2. exact V2.
Qed.
(** An empty payload: the head and the key go out, then the stream is closed. *)
Lemma len_empty_send rand msg client fn s v :
  stream_view s v -> len (ws_frame rand msg client fn) <= sv_room v -> len (m_data msg) = 0 ->
  exists s', WSSendMessage rand msg client fn s = (Ok (-1), s') /\
    stream_view s' (mkSview [] (sv_out v ++ ws_frame rand msg client fn) 0).
Proof.
  intros V. rewrite len_ws_frame. intros Hr Hs. pose proof (len_empty (m_data msg) ltac:(lia)) as Ed.
  unfold WSSendMessage, ws_frame. rewrite Ed. change (len []) with 0 in *. rewrite Hs in Hr.
  change (ext_size 0) with 0 in Hr.
  match goal with |- context [(if (len_indicator _ =? 126) || _ then or_break _ ?r else ?r)] => set (K := r) end.
  destruct (send_header 0 client fn msg K s v V) as (s1 & E1 & V1);
    [change (ext_size 0) with 0; destruct client; lia|].
  unfold sbind at 1. rewrite E1. clear E1. subst K. cbv zeta. destruct client.
  - match goal with |- context [or_break _ ?k s1] => set (K2 := k) end.
    destruct (send_step (to_mem 4 rand) K2 s1 _ V1) as (s2 & E2 & V2);
      [rewrite len_to_mem; cbn [sv_room sv_send]; rewrite !len_app, !len1, len_ws_ext;
       change (ext_size 0) with 0; lia|rewrite len_to_mem; lia|].
    rewrite E2. subst K2. rewrite sv_send_app in V2. rewrite write_or_break_0.
    destruct (law_close s2 _ V2) as (s3 & E3 & V3). exists s3. rewrite (sbind_ok _ _ _ _ _ E3).
    split; [done|]. cbn [sv_out sv_send] in V3. rewrite <- !app_assoc in V3. cbn [xor_mask]. rewrite app_nil_r. exact V3.
  - rewrite write_or_break_0. destruct (law_close s1 _ V1) as (s3 & E3 & V3). exists s3.
    rewrite (sbind_ok _ _ _ _ _ E3). split; [done|]. cbn [sv_out sv_send] in V3. rewrite app_nil_r. exact V3.
Qed.
End steps.

(** ** Refusals, control frames, termination *)

Section outcomes.
Context {S : Type} `{StreamLaws S} {host : Host}.

Lemma recv_len n v : 0 <= n <= len (sv_in v) -> len (sv_in (sv_recv n v)) = len (sv_in v) - n.
Proof. intros Hn. unfold sv_recv. cbn. by apply len_drop. Qed.

(** A [break] closes the stream and returns no message. *)
Lemma recv_close fuel max client s s1 v :
  ws_recv_loop fuel max client 0 [] 0 s = (Ok None, s1) -> stream_view s1 v ->
  exists s', WSRecvMessage fuel max client s = (Ok None, s') /\ stream_view s' (mkSview [] (sv_out v) 0).
Proof.
  intros E V. destruct (law_close s1 v V) as (s' & Ec & V'). exists s'. split; [|done].
  unfold WSRecvMessage. rewrite (sbind_ok _ _ _ _ _ E). by rewrite (sbind_ok _ _ _ _ _ Ec).
Qed.

(** A data frame up to its length, for any payload length. *)
Lemma recv_length fuel max client op data cur s v b1 b2 size rest :
  stream_view s v -> sv_in v = b1 :: b2 :: ws_ext size ++ rest -> 0 <= size < 2 ^ 64 ->
  payload (ws_parse b1 b2) = len_indicator size -> is_data_op (opcode (ws_parse b1 b2)) = true ->
  client || mask (ws_parse b1 b2) = true ->
  exists s', stream_view s' (mkSview rest (sv_out v) (sv_room v)) /\
    ws_recv_loop (Datatypes.S fuel) max client op data cur s =
    let h := ws_parse b1 b2 in
    let total := u64 (cur + size) in
    (if max <=? total then sret None
     else
       ws_mask_key h (fun mask_key =>
       let data := resize data (Z.to_nat total) in
       if len data <? cur then (fun s => (Crash out_of_bounds, s))
       else
         read_or_break size (fun x =>
         let x := if mask h then xor_mask mask_key 0 x else x in
         let data := take (Z.to_nat cur) data ++ x in
         let cur := s32 total in
         let op := if (op =? 0) && negb (opcode h =? CONTINUE) then opcode h else op in
         if fin h then sret (Some (mkWSFrameMessage op data))
         else ws_recv_loop fuel max client op data cur))) s'.
Proof.
  intros V Ei Hs Hp Ho Hc.
  destruct (recv_head fuel max client op data cur s v b1 b2 _ V Ei) as (s1 & V1 & E). rewrite E. clear E.
  cbv zeta. set (h := ws_parse b1 b2) in *.
  assert ((opcode h =? PING) = false /\ (opcode h =? PONG) = false) as [-> ->]
    by (unfold is_data_op, CONTINUE, TEXT_FRAME, BIN_FRAME, PING, PONG in *; lia).
  rewrite Ho. replace (negb client && negb (mask h)) with false by (destruct client, (mask h); done).
  match goal with |- context [ws_length h ?k s1] => set (K := k) end.
  destruct (ws_length_ok h size K s1 _ rest V1 Hs Hp eq_refl) as (s2 & E2 & V2).
  exists s2. split; [exact V2|]. rewrite E2. unfold K. reflexivity.
Qed.

(** Input that ends inside a head. *)
Lemma recv_dry fuel max client op data cur s v : stream_view s v -> len (sv_in v) < 2 ->
  exists s', ws_recv_loop (Datatypes.S fuel) max client op data cur s = (Ok None, s') /\
    stream_view s' (mkSview [] (sv_out v) (sv_room v)).
Proof.
  intros V L. cbn [ws_recv_loop].
  match goal with |- context [read_or_break 1 ?k s] => set (K1 := k) end.
  destruct (sv_in v) as [|b1 [|b2 r]] eqn:Ei; [| |unfold len in L; simpl in L; lia].
  - apply (read_or_break_short 1 K1 s v V). rewrite Ei. done.
  - destruct (read_or_break_ok [b1] K1 s v [] V Ei ltac:(rewrite len1; lia)) as (s1 & E & V1).
    rewrite len1 in E. rewrite E. subst K1. cbv beta.
    match goal with |- context [read_or_break 1 ?k s1] => set (K2 := k) end.
    apply (read_or_break_short 1 K2 s1 _ V1). done.
Qed.

(** Where a prefix [a] of [x ++ y] ends: inside [x], or behind it. *)
Lemma cut_app {A} (a b x y : list A) : a ++ b = x ++ y ->
  (length a < length x)%nat \/ exists a', a = x ++ a' /\ a' ++ b = y.
Proof.
  intros E. destruct (decide (length a < length x)%nat); [by left|right].
  exists (drop (length x) a). pose proof (f_equal (take (length x)) E) as T.
  pose proof (f_equal (drop (length x)) E) as D.
  rewrite take_app_le, take_app_length in T by lia. rewrite drop_app_le, drop_app_length in D by lia.
  split; [|done]. rewrite <- (take_drop (length x) a) at 1. by rewrite T.
Qed.

(** A frame that the input holds only a part of, wherever it is cut: in the head, the
    length, the key or the payload. *)
Lemma recv_cut fuel max client rand msg fn op data s v b :
  stream_view s v -> sv_in v ++ b = ws_frame rand msg client fn -> b <> [] ->
  is_data_op (Z.land (m_opcode msg) 0x0F) = true ->
  len data + len (m_data msg) < max -> max <= 2 ^ 31 ->
  exists s', ws_recv_loop (Datatypes.S fuel) max (negb client) op data (len data) s = (Ok None, s') /\
    stream_view s' (mkSview [] (sv_out v) (sv_room v)).
Proof.
  intros V Ei Nb Hop Hmax Hm. pose proof (len_nonneg data). pose proof (len_nonneg (m_data msg)).
  destruct (decide (len (sv_in v) < 2)) as [L|L]; [by apply recv_dry|].
  destruct (ws_parse_frame msg client fn) as (P1 & P2 & P3 & P4). unfold ws_frame in Ei. cbn [app] in Ei.
  destruct (sv_in v) as [|b1 [|b2 a]] eqn:Ev; [unfold len in L; simpl in L; lia..|].
  cbn [app] in Ei. injection Ei as -> -> Ei.
  assert (Short : forall {A} n (k : list byte -> st S (option A)) s1 r, 0 < n < 2 ^ 31 -> len r < n ->
    stream_view s1 (mkSview r (sv_out v) (sv_room v)) ->
    exists s', read_or_break n k s1 = (Ok None, s') /\ stream_view s' (mkSview [] (sv_out v) (sv_room v))).
  { intros A n k s1 r Hn Hr V1. destruct (read_or_break_short n k s1 _ V1) as (s' & E' & V'); [cbn; lia|]. eauto. }
  destruct (cut_app _ _ _ _ Ei) as [Hc|(a2 & -> & Ei2)].
  { destruct (recv_head fuel max (negb client) op data (len data) s v _ _ _ V Ev) as (s1 & V1 & E).
    rewrite E. clear E. cbv zeta. set (h := ws_parse _ _) in *. rewrite P2, P3.
    assert ((Z.land (m_opcode msg) 0x0F =? PING) = false /\ (Z.land (m_opcode msg) 0x0F =? PONG) = false) as [-> ->]
      by (unfold is_data_op, CONTINUE, TEXT_FRAME, BIN_FRAME, PING, PONG in *; lia).
    rewrite Hop. replace (negb (negb client) && negb client) with false by (by destruct client).
    unfold ws_length. rewrite P4. unfold ws_ext in Hc. clear Ei.
    destruct (len_indicator _ =? 126); [|destruct (len_indicator _ =? 127)]; try (simpl in Hc; lia);
      (eapply Short; [lia| |exact V1]); unfold len in *.
    - pose proof (len_to_mem 2 (byteswap 2 (u16 (len (m_data msg))))) as L2. unfold len in L2 |- *. lia.
    - pose proof (len_to_mem 8 (byteswap 8 (len (m_data msg)))) as L8. unfold len in L8 |- *. lia. }
  destruct (recv_length fuel max (negb client) op data (len data) s v _ _ (len (m_data msg)) a2 V Ev)
    as (s1 & V1 & E); [lia|exact P4|by rewrite P2|rewrite P3; by destruct client|].
  rewrite E. clear E. cbv zeta. set (h := ws_parse _ _) in *. rewrite u64_small by lia.
  replace (max <=? len data + len (m_data msg)) with false by lia.
  match goal with |- context [ws_mask_key h ?k s1] => set (K := k) end.
  assert (Payload : forall key s2 r, r ++ b = masked client rand (m_data msg) ->
    stream_view s2 (mkSview r (sv_out v) (sv_room v)) ->
    exists s', K key s2 = (Ok None, s') /\ stream_view s' (mkSview [] (sv_out v) (sv_room v))).
  { intros key s2 r Er V2. subst K. cbv beta zeta.
    replace (len (resize data _)) with (len data + len (m_data msg)) by (unfold len; rewrite length_resize; lia).
    replace (len data + len (m_data msg) <? len data) with false by lia.
    apply (f_equal len) in Er. rewrite len_app, len_masked in Er.
    assert (0 < len b) by (unfold len; destruct b; [done|simpl; lia]).
    pose proof (len_nonneg r). apply (Short _ _ _ _ r); [lia|lia|exact V2]. }
  unfold ws_mask_key. rewrite P3. unfold masked in Payload. destruct client; [|by eapply Payload].
  destruct (cut_app _ _ _ _ Ei2) as [Hc|(a3 & -> & Ei3)].
  { eapply Short; [lia| |exact V1]. pose proof (len_to_mem 4 rand). unfold len in *. lia. }
  pose proof (len_to_mem 4 rand) as L4.
  destruct (read_or_break_ok (to_mem 4 rand) K s1 _ a3 V1 eq_refl ltac:(rewrite L4; lia)) as (s2 & E & V2).
  rewrite L4 in E. change (Z.of_nat 4) with 4 in E. rewrite E. by eapply Payload.
Qed.

(** A message in fragments of which the input holds only a part. *)
Lemma recv_fragments_cut max client l : forall fuel op fop data s v b,
  stream_view s v -> sv_in v ++ b = ws_fragments client fop l -> b <> [] ->
  is_data_op fop = true -> Forall (fun p => 0 < len (snd p)) l ->
  len data + len (ws_payload l) < max -> max <= 2 ^ 31 -> (length l <= fuel)%nat ->
  exists s', ws_recv_loop fuel max (negb client) op data (len data) s = (Ok None, s') /\
    stream_view s' (mkSview [] (sv_out v) (sv_room v)).
Proof.
  induction l as [|[rand d] l IH]; intros fuel op fop data s v b V Ei Nb Hop Hd Hmax Hm Hf.
  { cbn in Ei. apply app_eq_nil in Ei as [_ ->]. done. }
  destruct fuel as [|fuel]; [simpl in Hf; lia|].
  apply Forall_cons_iff in Hd as [Hd Hds]. cbn [snd] in Hd.
  unfold ws_payload in Hmax. cbn [map concat snd] in Hmax. fold (ws_payload l) in Hmax.
  rewrite len_app in Hmax. pose proof (len_nonneg (ws_payload l)). pose proof (len_nonneg data).
  assert (O : Z.land fop 0x0F = fop)
    by (unfold is_data_op, CONTINUE, TEXT_FRAME, BIN_FRAME in Hop;
        assert (fop = 0 \/ fop = 1 \/ fop = 2) as [-> | [-> | ->]] by lia; done).
  cbn [ws_fragments] in Ei. set (fn := match l with [] => true | _ => false end) in *.
  set (f := ws_frame rand (mkWSFrameMessage fop d) client fn) in *.
  destruct (cut_app _ _ _ _ Ei) as [Hc|(a' & Ea & Ei')].
  - apply (recv_cut fuel max client rand (mkWSFrameMessage fop d) fn op data s v (drop (length (sv_in v)) f));
      cbn [m_data m_opcode]; rewrite ?O; try done; try lia.
    + fold f. apply (f_equal (take (length (sv_in v)))) in Ei.
      rewrite take_app_length, take_app_le in Ei by (apply Nat.lt_le_incl, Hc).
      rewrite Ei at 1. apply take_drop.
    + intros E0. apply (f_equal length) in E0. rewrite length_drop in E0.
      apply Nat.sub_0_le in E0. by apply Nat.lt_nge in Hc.
  - destruct (recv_frame fuel max client rand (mkWSFrameMessage fop d) fn op data s v _ V Ea) as (s1 & V1 & E);
      cbn [m_data m_opcode] in *; rewrite ?O in *; try done; try lia.
    rewrite E. unfold fn. destruct l as [|p l].
    + cbn in Ei'. apply app_eq_nil in Ei' as [_ ->]. done.
    + rewrite <- len_app. apply (IH fuel (next_op op fop) CONTINUE (data ++ d) s1 _ b V1 Ei' Nb);
        try done; [rewrite len_app; lia|simpl in Hf |- *; lia].
Qed.

Lemma read_or_break_any {A} n (k : list byte -> st S (option A)) s v :
  stream_view s v -> 0 <= n < 2 ^ 31 ->
  (exists s' v', read_or_break n k s = (Ok None, s') /\ stream_view s' v' /\ len (sv_in v') <= len (sv_in v)) \/
  (exists s' x, read_or_break n k s = k x s' /\ n <= len (sv_in v) /\ stream_view s' (sv_recv n v)).
Proof.
  intros V Hn. destruct (Z.le_gt_cases n (len (sv_in v))) as [L|L].
  - destruct (readFixSize_ok n s v V ltac:(lia) ltac:(lia)) as (s' & E & V').
    unfold read_or_break. rewrite (sbind_ok _ _ _ _ _ E). destruct (Z.leb_spec n 0).
    + left. exists s', (sv_recv n v). split; [done|]. split; [done|].
      unfold sv_recv. cbn. unfold len. rewrite length_drop. lia.
    + right. eauto.
  - destruct (read_or_break_short n k s v V ltac:(lia)) as (s' & E & V'). left. eexists _, _.
    split; [exact E|]. split; [exact V'|]. cbn. apply len_nonneg.
Qed.

Lemma control_any b1 s v : stream_view s v -> 0 <= sv_room v ->
  exists r s' v', ws_control b1 s = (Ok r, s') /\ stream_view s' v' /\ 0 <= sv_room v' /\
    len (sv_in v') <= len (sv_in v) /\
    (2 <= sv_room v -> r = 2 /\ v' = sv_send [z2b b1; x00] v).
Proof.
  intros V Hr. pose proof (len_nonneg (sv_in v)). unfold ws_control.
  assert (C : forall s v1, stream_view s v1 -> exists s', (let* _ := stream_close in sret (-1)) s = (Ok (-1), s') /\
    stream_view s' (mkSview [] (sv_out v1) 0)).
  { intros t v1 Vt. destruct (law_close t v1 Vt) as (s' & E & V'). exists s'. by rewrite (sbind_ok _ _ _ _ _ E). }
  assert (F : forall s x v1, stream_view s v1 -> len x = 1 -> sv_room v1 = 0 ->
    exists r s' v', failed r /\ writeFixSize x s = (Ok r, s') /\ stream_view s' v').
  { intros t x v1 Vt L R. destruct (writeFixSize_broken x t v1 Vt) as (r & s' & Fr & E & V'); [lia|lia|]. eauto 6. }
  destruct (Z.eq_dec (sv_room v) 0) as [R0|R0].
  { destruct (F s [z2b b1] v V (len1 _) R0) as (r & s1 & v1 & Fr & E & V1). rewrite (sbind_ok _ _ _ _ _ E).
    destruct Fr. replace (r <=? 0) with true by lia. destruct (C s1 v1 V1) as (s2 & E2 & V2).
    eexists _, s2, _. split; [exact E2|]. split; [exact V2|]. cbn. split; [lia|]. split; [done|]. intros; exfalso; lia. }
  destruct (writeFixSize_ok [z2b b1] s v V) as (s1 & E & V1); [rewrite len1; lia|done|].
  rewrite (sbind_ok _ _ _ _ _ E). rewrite len1. replace (1 <=? 0) with false by lia.
  destruct (Z.eq_dec (sv_room v) 1) as [R1|R1].
  { destruct (F s1 [x00] _ V1 (len1 _)) as (r & s2 & v2 & Fr & E2 & V2); [cbn; rewrite len1; lia|].
    rewrite (sbind_ok _ _ _ _ _ E2). destruct Fr. replace (r <=? 0) with true by lia.
    destruct (C s2 v2 V2) as (s3 & E3 & V3).
    eexists _, s3, _. split; [exact E3|]. split; [exact V3|]. cbn. split; [lia|]. split; [done|]. intros; exfalso; lia. }
  destruct (writeFixSize_ok [x00] s1 _ V1) as (s2 & E2 & V2); [cbn; rewrite !len1; lia|done|].
  rewrite (sbind_ok _ _ _ _ _ E2). rewrite len1. replace (1 <=? 0) with false by lia.
  rewrite sv_send_app in V2. eexists 2, s2, _. split; [done|]. split; [exact V2|].
  cbn. unfold len; cbn. split; [lia|]. split; [lia|]. done.
Qed.

Lemma control_or_break {A} b1 (k : st S (option A)) s v :
  stream_view s v -> 0 <= sv_room v ->
  exists s' v', stream_view s' v' /\ 0 <= sv_room v' /\ len (sv_in v') <= len (sv_in v) /\
    (or_break (ws_control b1) k s = (Ok None, s') \/ or_break (ws_control b1) k s = k s').
Proof.
  intros V Hr. destruct (control_any b1 s v V Hr) as (r & s' & v' & E & V' & R' & L' & _).
  exists s', v'. split_and!; try done. unfold or_break. rewrite (sbind_ok _ _ _ _ _ E).
  destruct (r <=? 0); [by left|by right].
Qed.

(** What the loop ends with: a message, a [break], or the unchecked [data[cur_len]]. *)
Definition recv_ends (r : res (option WSFrameMessage) * S) : Prop :=
  fst r <> Crash nontermination /\
  (fst r = Ok None -> exists v', stream_view (snd r) v').

Lemma recv_ends_none s v : stream_view s v -> recv_ends (Ok None, s).
Proof. intros V. split; [done|]. eauto. Qed.

(** Two bytes of input at least go with every turn. *)
Lemma recv_loop_ends fuel : forall max client op data cur s v,
  stream_view s v -> 0 <= sv_room v -> len (sv_in v) < Z.of_nat fuel -> max <= 2 ^ 31 -> 0 <= cur < 2 ^ 31 ->
  recv_ends (ws_recv_loop fuel max client op data cur s).
Proof.
  induction fuel as [|fuel IH]; intros max client op data cur s v V Hr Hl Hm Hc;
    pose proof (len_nonneg (sv_in v)); [lia|]. cbn [ws_recv_loop].
  match goal with |- context [read_or_break 1 ?k s] => set (K1 := k) end.
  destruct (read_or_break_any 1 K1 s v V ltac:(lia)) as [(s1 & v1 & E & V1 & _)|(s1 & x1 & E & L1 & V1)];
    rewrite E; [by eapply recv_ends_none|]. subst K1. cbv beta.
  match goal with |- context [read_or_break 1 ?k s1] => set (K2 := k) end.
  destruct (read_or_break_any 1 K2 s1 _ V1 ltac:(lia)) as [(s2 & v2 & E2 & V2 & _)|(s2 & x2 & E2 & L2 & V2)];
    rewrite E2; [by eapply recv_ends_none|]. subst K2. cbv beta zeta. set (h := ws_head _ _).
  set (v2 := sv_recv 1 (sv_recv 1 v)) in *.
  assert (Lv : len (sv_in v2) < Z.of_nat fuel).
  { unfold v2, sv_recv. cbn. unfold len in *. rewrite !length_drop. lia. }
  assert (Rv : 0 <= sv_room v2) by done.
  destruct (opcode h =? PING).
  { destruct (control_or_break (Z.lor 0x80 PONG) (ws_recv_loop fuel max client op data cur) s2 v2 V2 Rv)
      as (s3 & v3 & V3 & R3 & L3 & [E3|E3]); unfold WSPong; rewrite E3; [by eapply recv_ends_none|].
    apply (IH _ _ _ _ _ _ v3); try done; lia. }
  destruct (opcode h =? PONG); [by apply (IH _ _ _ _ _ _ v2)|].
  destruct ((opcode h =? CONTINUE) || _ || _); [|by apply (IH _ _ _ _ _ _ v2)].
  destruct (negb client && negb (mask h)); [by eapply recv_ends_none|].
  (* the rest of the frame, for whatever length was read *)
  match goal with |- context [ws_length h ?k] => set (K3 := k) end.
  assert (R3 : forall length s v, stream_view s v -> 0 <= sv_room v -> 0 <= length < 2 ^ 64 ->
    len (sv_in v) < Z.of_nat fuel -> recv_ends (K3 length s)).
  { clear -IH Hm Hc. intros length s v V Hr Hl L. unfold K3. cbv zeta.
    destruct (Z.leb_spec max (u64 (cur + length))) as [G|G]; [by eapply recv_ends_none|].
    unfold ws_mask_key.
    match goal with |- context [if mask h then read_or_break 4 ?k else _] => set (K4 := k) end.
    assert (R4 : forall key s v, stream_view s v -> 0 <= sv_room v -> len (sv_in v) < Z.of_nat fuel ->
      recv_ends (K4 key s)).
    { clear -IH Hm Hc Hl G. intros key s v V Hr L. unfold K4.
      assert (Lr : len (resize data (Z.to_nat (u64 (cur + length)))) = u64 (cur + length)).
      { pose proof (u64_range (cur + length)). unfold len. rewrite length_resize. lia. }
      rewrite Lr. destruct (Z.ltb_spec (u64 (cur + length)) cur) as [G1|G1]; [by split|].
      assert (u64 (cur + length) = cur + length) as Eu.
      { unfold u64 in *. destruct (Z.lt_ge_cases (cur + length) (2 ^ 64)); [by apply Z.mod_small; lia|].
        rewrite <- (Z.mod_add _ (-1)) in G1 by lia. rewrite Z.mod_small in G1 by lia. lia. }
      match goal with |- context [read_or_break length ?k s] => set (K5 := k) end.
      destruct (read_or_break_any length K5 s v V ltac:(lia)) as [(s' & v' & E & V' & _)|(s' & x & E & L' & V')];
        rewrite E; [by eapply recv_ends_none|]. subst K5. cbv beta zeta.
      destruct (fin h); [by split|]. rewrite Eu, s32_small by lia.
      apply (IH _ _ _ _ _ _ (sv_recv length v)); try done; try lia.
      unfold sv_recv. cbn. unfold len in *. rewrite length_drop. lia. }
    destruct (mask h); [|by apply (R4 [x00; x00; x00; x00] s v)].
    destruct (read_or_break_any 4 K4 s v V ltac:(lia)) as [(s' & v' & E & V' & _)|(s' & x & E & L' & V')];
      rewrite E; [by eapply recv_ends_none|]. apply (R4 x s' (sv_recv 4 v)); try done.
    unfold sv_recv. cbn. unfold len in *. rewrite length_drop. lia. }
  assert (Rw : forall n (g : list byte -> Z), 0 < n < 2 ^ 31 -> (forall x, 0 <= g x < 2 ^ 64) ->
    recv_ends (read_or_break n (fun x => K3 (g x)) s2)).
  { intros n g Hn Hg.
    destruct (read_or_break_any n (fun x => K3 (g x)) s2 v2 V2 ltac:(lia)) as [(s' & v' & E3 & V' & _)|(s' & x & E3 & L' & V')];
      rewrite E3; [by eapply recv_ends_none|]. apply (R3 _ _ (sv_recv n v2)); [done|done|apply Hg|].
    rewrite recv_len by lia. lia. }
  unfold ws_length. destruct (payload h =? 126); [|destruct (payload h =? 127)].
  - apply (Rw 2 (fun x => byteswap 2 (of_mem x))); [lia|]. intros x.
    pose proof (byteswap_range 2 (of_mem x)). lia.
  - apply (Rw 8 (fun x => byteswap 8 (of_mem x))); [lia|]. intros x. apply byteswap_range.
  - apply (R3 _ _ v2); try done. unfold h, ws_head. cbn.
    rewrite (Z.land_ones _ 7) by lia. pose proof (Z.mod_pos_bound (b2z (nth 0 x2 x00)) (2 ^ 7)). lia.
Qed.
End outcomes.

(** * The theorems *)

Section theorems.
Context {S : Type} `{StreamLaws S}.

(** [WSSendMessage] puts one frame on the wire and returns its length: the head,
    the length in its shortest form and in network order, the key and the masked
    payload of a client or the payload of a server. An empty message has its head
    (and key) sent, and then, the payload's [writeFixSize] returning 0, is taken for
    a failure: the connection is closed and the result is -1. *)
Theorem WS_send (host : Host) (s : S) (v : sview) (rand : Z) (msg : WSFrameMessage) (client fn : bool)
    (V : stream_view s v) (R : len (ws_frame rand msg client fn) <= sv_room v)
    (B : len (ws_frame rand msg client fn) < 2 ^ 31) :
  let size := len (m_data msg) in
  (0 < size -> exists s', WSSendMessage rand msg client fn s = (Ok (len (ws_frame rand msg client fn)), s') /\
     stream_view s' (sv_send (ws_frame rand msg client fn) v)) /\
  (size = 0 -> exists s', WSSendMessage rand msg client fn s = (Ok (-1), s') /\
     stream_view s' (mkSview [] (sv_out v ++ ws_frame rand msg client fn) 0)) /\
  (host = CIM_LITTLE_ENDIAN -> 0 <= size < 2 ^ 64 ->
     ws_ext size = if size <? 126 then [] else
                   if size <? 65536 then wire_bytes CIM_BIG_ENDIAN 2 size else wire_bytes CIM_BIG_ENDIAN 8 size).
Proof.
  intros size. split_and!.
  - intros Hs. by apply send_message.
  - intros Hs. apply len_empty_send; [done|done|exact Hs].
  - intros -> Hs. unfold ws_ext, len_indicator.
    assert (T : forall n z, @to_mem CIM_LITTLE_ENDIAN n (byteswap n z) = wire_bytes CIM_BIG_ENDIAN n z)
      by (intros n z; apply (@to_mem_hton CIM_LITTLE_ENDIAN)).
    destruct (Z.ltb_spec size 126) as [L|L].
    + replace (size =? 126) with false by lia. by replace (size =? 127) with false by lia.
    + destruct (Z.ltb_spec size 65536) as [L'|L'].
      * change (126 =? 126) with true. cbv iota. by rewrite T, u16_small by lia.
      * change (127 =? 126) with false. change (127 =? 127) with true. cbv iota. apply T.
Qed.

(** C25: a message sent in any number of non-empty fragments by one side, each under
    its own mask, is received whole by the other as one message with the opcode of
    the first, and exactly its bytes are consumed. *)
Theorem WS_roundtrip (host : Host) (s : S) (v : sview) (client : bool) (op : Z) (l : list (Z * list byte))
    (rest : list byte) (max : Z) (fuel : nat)
    (V : stream_view s v) (N : l <> []) (I : sv_in v = ws_fragments client op l ++ rest)
    (O : op = TEXT_FRAME \/ op = BIN_FRAME) (D : Forall (fun p => 0 < len (snd p)) l)
    (M : len (ws_payload l) < max <= 2 ^ 31) (F : (length l <= fuel)%nat) :
  exists s', WSRecvMessage fuel max (negb client) s = (Ok (Some (mkWSFrameMessage op (ws_payload l))), s') /\
    stream_view s' (mkSview rest (sv_out v) (sv_room v)).
Proof.
  destruct (recv_fragments max client l fuel 0 op [] s v rest V N I) as (s' & E & V');
    [by destruct O as [-> | ->]|done|change (len []) with 0; lia|lia|done|].
  exists s'. split; [|exact V']. change (len []) with 0 in E. unfold WSRecvMessage.
  rewrite (sbind_ok _ _ _ _ _ E). by destruct O as [-> | ->].
Qed.

(** C26: what makes the receiver close the connection and return no message, with
    nothing sent and nothing left to read: an unmasked data frame from a client, a
    first frame that announces a length of the limit or more, a first frame without
    payload (since [readFixSize] of nothing returns 0), and a message of one or more
    fragments that the input holds only a part of, wherever it is cut: in the head of
    a frame, in the extended length, in the key, in the payload, or between two
    frames. *)
Theorem WS_rejects (host : Host) (s : S) (v : sview) (client : bool) (max : Z) (fuel : nat)
    (V : stream_view s v) (M : 0 < max < 2 ^ 32) (F : (0 < fuel)%nat) :
  let closed := exists s', WSRecvMessage fuel max client s = (Ok None, s') /\
                  stream_view s' (mkSview [] (sv_out v) 0) in
  (forall b1 b2 rest, sv_in v = b1 :: b2 :: rest -> is_data_op (opcode (ws_parse b1 b2)) = true ->
     client = false -> mask (ws_parse b1 b2) = false -> closed) /\
  (forall b1 b2 size rest, sv_in v = b1 :: b2 :: ws_ext size ++ rest -> max <= size < 2 ^ 64 ->
     payload (ws_parse b1 b2) = len_indicator size -> is_data_op (opcode (ws_parse b1 b2)) = true -> closed) /\
  (len (sv_in v) < 2 -> closed) /\
  (forall rand op fn rest, op = TEXT_FRAME \/ op = BIN_FRAME ->
     sv_in v = ws_frame rand (mkWSFrameMessage op []) (negb client) fn ++ rest -> closed) /\
  (forall op l b, op = TEXT_FRAME \/ op = BIN_FRAME -> Forall (fun p => 0 < len (snd p)) l ->
     len (ws_payload l) < max <= 2 ^ 31 -> (length l <= fuel)%nat ->
     sv_in v ++ b = ws_fragments (negb client) op l -> b <> [] -> closed).
Proof.
  intros closed. destruct fuel as [|fuel]; [lia|].
  assert (C : forall s1 v1, ws_recv_loop (Datatypes.S fuel) max client 0 [] 0 s = (Ok None, s1) ->
    stream_view s1 v1 -> sv_out v1 = sv_out v -> closed).
  { intros s1 v1 E V1 Eo. destruct (recv_close _ max client s s1 v1 E V1) as (s' & E' & V').
    exists s'. by rewrite <- Eo. }
  assert (Unmasked : forall b1 b2 rest, sv_in v = b1 :: b2 :: rest -> is_data_op (opcode (ws_parse b1 b2)) = true ->
     client = false -> mask (ws_parse b1 b2) = false -> closed).
  { intros b1 b2 rest I O -> Hm.
    destruct (recv_head fuel max false 0 [] 0 s v b1 b2 rest V I) as (s1 & V1 & E).
    eapply C; [rewrite E; cbv zeta|exact V1|done]. set (h := ws_parse b1 b2) in *.
    assert ((opcode h =? PING) = false /\ (opcode h =? PONG) = false) as [-> ->]
      by (unfold is_data_op, CONTINUE, TEXT_FRAME, BIN_FRAME, PING, PONG in *; lia).
    by rewrite O, Hm. }
  split_and!.
  - exact Unmasked.
  - intros b1 b2 size rest I L P O. destruct (client || mask (ws_parse b1 b2)) eqn:Hc.
    2:{ apply orb_false_iff in Hc as [-> Hc]. by eapply Unmasked. }
    destruct (recv_length fuel max client 0 [] 0 s v b1 b2 size rest V I ltac:(lia) P O Hc) as (s1 & V1 & E).
    eapply C; [rewrite E; cbv zeta|exact V1|done]. rewrite u64_small by lia.
    by replace (max <=? 0 + size) with true by lia.
  - intros L. destruct (recv_dry fuel max client 0 [] 0 s v V L) as (s1 & E & V1).
    by eapply C.
  - intros rand op fn rest O I. unfold ws_frame in I. cbn [app] in I.
    destruct (ws_parse_frame (mkWSFrameMessage op []) (negb client) fn) as (P1 & P2 & P3 & P4).
    cbn [m_data m_opcode] in *. change (len []) with 0 in *.
    assert (P2' : is_data_op (opcode (ws_parse (z2b (ws_b1 (mkWSFrameMessage op []) fn)) (z2b (ws_b2 0 (negb client))))) = true)
      by (rewrite P2; by destruct O as [-> | ->]).
    rewrite <- app_assoc in I.
    destruct (recv_length fuel max client 0 [] 0 s v _ _ 0 _ V I ltac:(lia) P4 P2' ltac:(rewrite P3; by destruct client))
      as (s1 & V1 & E).
    cbv zeta in E. set (h := ws_parse _ _) in *. rewrite u64_small in E by lia.
    replace (max <=? 0 + 0) with false in E by lia.
    match type of E with context [ws_mask_key h ?k s1] => set (K := k) in * end.
    destruct (ws_mask_key_ok h (negb client) rand K s1 _ rest V1 P3) as (s2 & key & E2 & _ & V2).
    { cbn. by destruct client; simpl; rewrite ?app_nil_r, <- ?app_assoc. }
    eapply C; [rewrite E, E2; reflexivity|exact V2|done].
  - intros op l b O D L Fu I Nb.
    destruct (recv_fragments_cut max (negb client) l (Datatypes.S fuel) 0 op [] s v b V I Nb) as (s1 & E & V1);
      [by destruct O as [-> | ->]|done|change (len []) with 0; lia|lia|done|].
    rewrite negb_involutive in E. by eapply C.
Qed.

(** a control frame costs its two head bytes only: a ping is answered by a pong
    and every other opcode that is not one of data, the closing one included, is
    skipped, and the receiver goes on right behind the head, where the key and the
    payload that a client's frame carries are taken for the next head. *)
Theorem WS_control_frames (host : Host) (s : S) (v : sview) (client : bool) (max : Z) (fuel : nat)
    (b1 b2 : byte) (rest : list byte)
    (V : stream_view s v) (I : sv_in v = b1 :: b2 :: rest) (R : 2 <= sv_room v) :
  let op := opcode (ws_parse b1 b2) in
  is_data_op op = false ->
  exists s', WSRecvMessage (Datatypes.S fuel) max client s = WSRecvMessage fuel max client s' /\
    stream_view s' (sv_send (if op =? PING then [x8a; x00] else []) (mkSview rest (sv_out v) (sv_room v))).
Proof.
  intros op O. destruct (recv_head fuel max client 0 [] 0 s v b1 b2 rest V I) as (s1 & V1 & E).
  cbv zeta in E. fold op in E. rewrite O in E. unfold WSRecvMessage, sbind. rewrite E.
  destruct (op =? PING).
  - destruct (control_any (Z.lor 0x80 PONG) s1 _ V1) as (r & s2 & v2 & Er & V2 & _ & _ & K); [cbn; lia|].
    destruct (K ltac:(cbn; lia)) as [-> ->]. exists s2. split; [|exact V2].
    unfold or_break, WSPong. by rewrite (sbind_ok _ _ _ _ _ Er).
  - exists s1. split; [by destruct (op =? PONG)|]. unfold sv_send. rewrite app_nil_r, Z.sub_0_r. exact V1.
Qed.

(** the size test adds the announced length to the bytes already received in 64
    bits. After a first fragment of [n] bytes a frame that announces 2^64 - n bytes
    or more passes it, the buffer is shrunk below [n], and [data[n]] is outside. *)
Theorem WS_length_wrap (host : Host) (s : S) (v : sview) (rand op L : Z) (d key rest : list byte) (max : Z) (fuel : nat)
    (V : stream_view s v) (O : op = TEXT_FRAME \/ op = BIN_FRAME) (D : 0 < len d < max) (M : max <= 2 ^ 31)
    (HL : 2 ^ 64 - len d <= L < 2 ^ 64) (K : len key = 4)
    (I : sv_in v = ws_frame rand (mkWSFrameMessage op d) true false ++
                   [x80; xff] ++ to_mem 8 (byteswap 8 L) ++ key ++ rest) :
  exists s', WSRecvMessage (2 + fuel) max false s = (Crash out_of_bounds, s').
Proof.
  assert (Hop : is_data_op (Z.land op 0x0F) = true) by (by destruct O as [-> | ->]).
  destruct (recv_frame (Datatypes.S fuel) max true rand (mkWSFrameMessage op d) false 0 [] s v _ V I Hop)
    as (s1 & V1 & E); [cbn [m_data]; lia|cbn [m_data]; change (len []) with 0; lia|done|].
  cbn [negb m_data m_opcode] in E. change (len []) with 0 in E. cbn [app] in E. rewrite Z.add_0_l in E.
  assert (X : to_mem 8 (byteswap 8 L) = ws_ext L).
  { unfold ws_ext, len_indicator. replace (L <? 126) with false by lia. by replace (L <? 65536) with false by lia. }
  rewrite X in V1. cbn [app] in V1.
  destruct (recv_length fuel max false (next_op 0 (Z.land op 15)) d (len d) s1 _ x80 xff L (key ++ rest) V1 eq_refl
    ltac:(lia)) as (s2 & V2 & E2); [|done|done|].
  { unfold len_indicator. replace (L <? 126) with false by lia. by replace (L <? 65536) with false by lia. }
  cbv zeta in E2. set (h := ws_parse x80 xff) in *.
  assert (u64 (len d + L) = len d + L - 2 ^ 64) as Eu.
  { unfold u64. rewrite <- (Z.mod_add _ (-1)) by lia. apply Z.mod_small. lia. }
  rewrite Eu in E2. replace (max <=? len d + L - 2 ^ 64) with false in E2 by lia.
  match type of E2 with context [ws_mask_key h ?k s2] => set (KK := k) in * end.
  assert (Em : mask h = true) by reflexivity.
  destruct (read_or_break_ok key KK s2 _ rest V2 eq_refl ltac:(lia)) as (s3 & E3 & V3).
  rewrite K in E3. exists s3. unfold WSRecvMessage, sbind. cbn [Nat.add]. rewrite E, E2.
  unfold ws_mask_key. rewrite Em, E3. unfold KK. cbv zeta.
  assert (len (resize d (Z.to_nat (len d + L - 2 ^ 64))) = len d + L - 2 ^ 64) as ->
    by (unfold len at 1; rewrite length_resize; lia).
  by replace (len d + L - 2 ^ 64 <? len d) with true by lia.
Qed.

(** C27: the receive loop terminates on every input: each turn consumes two bytes,
    so a fuel above the bytes that will arrive is enough; and when no message is
    returned the connection has been closed. *)
Theorem WS_recv_terminates (host : Host) (s : S) (v : sview) (client : bool) (max : Z) (fuel : nat)
    (V : stream_view s v) (R : 0 <= sv_room v) (M : max <= 2 ^ 31) (F : len (sv_in v) < Z.of_nat fuel) :
  exists r s', WSRecvMessage fuel max client s = (r, s') /\ r <> Crash nontermination /\
    (r = Ok None -> exists out, stream_view s' (mkSview [] out 0)).
Proof.
  destruct (recv_loop_ends fuel max client 0 [] 0 s v V R F M ltac:(lia)) as [N C].
  unfold WSRecvMessage, sbind. destruct (ws_recv_loop fuel max client 0 [] 0 s) as [r s1].
  cbn [fst snd] in *. destruct r as [[m|]|e|u].
  - exists (Ok (Some m)), s1. done.
  - destruct (C eq_refl) as (v1 & V1). destruct (law_close s1 v1 V1) as (s2 & E & V2).
    exists (Ok None), s2. rewrite E. split_and!; [done|done|]. eauto.
  - exists (Throw e), s1. done.
  - exists (Crash u), s1. split_and!; [done|done|done].
Qed.
End theorems.

(** ** The theorems over an in-memory kernel that moves three bytes at a time *)

Section witnesses.
#[local] Existing Instance zero_heap.
#[local] Existing Instance x86_host.

Definition stream_of (x : list byte) : SocketStream MemKernel := mem_stream (mkSview x [] 1000) 3.

Lemma stream_of_view x : stream_view (stream_of x) (mkSview x [] 1000).
Proof. apply mem_stream_view. Qed.

Definition hello : WSFrameMessage := mkWSFrameMessage TEXT_FRAME (bstr "hello").

Lemma WS_send_witness : exists s', WSSendMessage 7 hello true true (stream_of []) = (Ok 11, s').
Proof.
  destruct (WS_send x86_host (stream_of []) _ 7 hello true true (stream_of_view []) ltac:(vm_compute; congruence)
    ltac:(vm_compute; congruence)) as (E & _).
  destruct (E ltac:(vm_compute; congruence)) as (s' & E' & _). exists s'. exact E'.
Defined.

Lemma WS_roundtrip_witness : exists s',
  WSRecvMessage 2 4096 false (stream_of (ws_fragments true TEXT_FRAME [(1, bstr "hel"); (2, bstr "lo")])) = (Ok (Some hello), s').
Proof.
  destruct (WS_roundtrip x86_host (stream_of (ws_fragments true TEXT_FRAME [(1, bstr "hel"); (2, bstr "lo")])) _ true TEXT_FRAME
    [(1, bstr "hel"); (2, bstr "lo")] [] 4096 2 (stream_of_view _) ltac:(discriminate)) as (s' & E & _).
  - symmetry. apply app_nil_r.
  - left. reflexivity.
  - repeat constructor.
  - vm_compute. split; congruence.
  - simpl. lia.
  - exists s'. exact E.
Defined.

(** An unmasked frame of a client, and the first fragment of a masked message with all
    but the last byte of the second. *)
Lemma WS_rejects_witness :
  (exists s', WSRecvMessage 1 4096 false (stream_of [x81; x01; x61]) = (Ok None, s')) /\
  (exists s', WSRecvMessage 2 4096 false
     (stream_of (take 20 (ws_fragments true TEXT_FRAME [(7, bstr "hello"); (9, bstr "world")]))) = (Ok None, s')).
Proof.
  split.
  - destruct (WS_rejects x86_host (stream_of [x81; x01; x61]) _ false 4096 1 (stream_of_view _) ltac:(lia) ltac:(lia))
      as (U & _).
    destruct (U x81 x01 [x61] eq_refl eq_refl eq_refl eq_refl) as (s' & E & _). exists s'. exact E.
  - destruct (WS_rejects x86_host (stream_of (take 20 (ws_fragments true TEXT_FRAME [(7, bstr "hello"); (9, bstr "world")])))
      _ false 4096 2 (stream_of_view _) ltac:(lia) ltac:(lia)) as (_ & _ & _ & _ & T).
    destruct (T TEXT_FRAME [(7, bstr "hello"); (9, bstr "world")]
      (drop 20 (ws_fragments true TEXT_FRAME [(7, bstr "hello"); (9, bstr "world")]))) as (s' & E & _).
    + by left.
    + repeat constructor.
    + vm_compute. split; congruence.
    + simpl. lia.
    + apply take_drop.
    + by vm_compute.
    + exists s'. exact E.
Defined.

(** A client's ping with its key: the pong goes out, the key is read as a head. *)
Lemma WS_control_frames_witness : exists s',
  WSRecvMessage 2 4096 false (stream_of [x89; x80; x01; x02; x03; x04]) = WSRecvMessage 1 4096 false s' /\
  stream_view s' (mkSview [x01; x02; x03; x04] [x8a; x00] 998).
Proof.
  destruct (WS_control_frames x86_host (stream_of [x89; x80; x01; x02; x03; x04]) _ false 4096 1 x89 x80 [x01; x02; x03; x04]
    (stream_of_view _) eq_refl ltac:(vm_compute; congruence) eq_refl) as (s' & E & V').
  exists s'. split; [exact E|exact V'].
Defined.

Definition wrap_input : list byte :=
  ws_frame 1 (mkWSFrameMessage TEXT_FRAME (bstr "ab")) true false ++
  [x80; xff] ++ to_mem 8 (byteswap 8 (2 ^ 64 - 1)) ++ [x00; x00; x00; x00] ++ [].

Lemma WS_length_wrap_witness : exists s', WSRecvMessage (2 + 0) 4096 false (stream_of wrap_input) = (Crash out_of_bounds, s').
Proof.
  apply (WS_length_wrap x86_host (stream_of wrap_input) _ 1 TEXT_FRAME (2 ^ 64 - 1) (bstr "ab") [x00; x00; x00; x00] [] 4096 0
    (stream_of_view _)).
  - left. reflexivity.
  - vm_compute. split; congruence.
  - lia.
  - vm_compute. split; congruence.
  - reflexivity.
  - reflexivity.
Defined.

Lemma WS_recv_terminates_witness : exists r s',
  WSRecvMessage 5 4096 true (stream_of [x88; x00; x8a; x00]) = (r, s') /\ r <> Crash nontermination.
Proof.
  destruct (WS_recv_terminates x86_host (stream_of [x88; x00; x8a; x00]) _ true 4096 5 (stream_of_view _)
    ltac:(vm_compute; congruence) ltac:(lia) ltac:(reflexivity)) as (r & s' & E & N & _).
  exists r, s'. split; [exact E|exact N].
Defined.
End witnesses.
