(* ===== verification/ZlibStream.v ===== *)
(** [CIM::ZlibStream] (include/streams/zlib_stream.hpp, src/streams/zlib_stream.cpp):
    the stream whose writes go through zlib into a list of fixed-size buffers.

    zlib itself is the parameter [Zlib]. [deflate] and [inflate] take the flush mode,
    the input left ([next_in], [avail_in]) and the output space ([avail_out]), and give
    their result, the input they left, the bytes they produced and the next state. *)
From S2P Require Import Prelude Endian ByteArray.

Definition Z_OK : Z := 0.
Definition Z_STREAM_ERROR : Z := -2.
Definition Z_NO_FLUSH : Z := 0.
Definition Z_FINISH : Z := 4.

Class Zlib (Zs : Type) := {
  deflateInit2 : Z -> Z -> Z -> Z -> Z * Zs;
  inflateInit2 : Z -> Z * Zs;
  deflate : Z -> list byte -> Z -> Zs -> Z * list byte * list byte * Zs;
  inflate : Z -> list byte -> Z -> Zs -> Z * list byte * list byte * Zs;
  deflateEnd : Zs -> Zs;
  inflateEnd : Zs -> Zs;
}.

Inductive Type_ := ZLIB | DEFLATE | GZIP.

(** [m_buffs] is the list of the buffers' used parts; each is of [m_buffSize] bytes. *)
Record ZlibStream (Zs : Type) := mkZlibStream {
  m_zstream : Zs;
  m_buffSize : Z;
  m_encode : bool;
  m_buffs : list (list byte);
}.
Arguments mkZlibStream {Zs}.
Arguments m_zstream {Zs}.
Arguments m_buffSize {Zs}.
Arguments m_encode {Zs}.
Arguments m_buffs {Zs}.

Section zlib_stream.
Context {Zs : Type} `{Zlib Zs} {host : Host} {heap : Heap}.
Abbreviation stream := (ZlibStream Zs).

Definition set_zstream (z : Zs) (s : stream) : stream :=
  mkZlibStream z (m_buffSize s) (m_encode s) (m_buffs s).
Definition set_buffs (l : list (list byte)) (s : stream) : stream :=
  mkZlibStream (m_zstream s) (m_buffSize s) (m_encode s) l.

(** [init]: the assertions, the window bits of the three formats, and zlib's
    initialiser. *)
Definition init (encode : bool) (type : Type_) (level window_bits memlevel strategy : Z) : res (Z * Zs) :=
  if negb ((0 <=? level) && (level <=? 9) || (level =? -1)) then Crash assertion_failed
  else if negb ((8 <=? window_bits) && (window_bits <=? 15)) then Crash assertion_failed
  else if negb ((1 <=? memlevel) && (memlevel <=? 9)) then Crash assertion_failed
  else
    let window_bits :=
      match type with DEFLATE => - window_bits | GZIP => window_bits + 16 | ZLIB => window_bits end in
    Ok (if encode then deflateInit2 level window_bits memlevel strategy else inflateInit2 window_bits).

(** [Create]: [None] is the null pointer. *)
Definition Create (encode : bool) (buff_size : Z) (type : Type_) (level window_bits memlevel strategy : Z) :
    res (option stream) :=
  let! (r, z) := init encode type level window_bits memlevel strategy in
  Ok (if r =? Z_OK then Some (mkZlibStream z buff_size encode []) else None).

(** With the default arguments of the header. *)
Definition CreateGzip (encode : bool) (buff_size : Z) : res (option stream) := Create encode buff_size GZIP (-1) 15 8 0.
Definition CreateZlib (encode : bool) (buff_size : Z) : res (option stream) := Create encode buff_size ZLIB (-1) 15 8 0.
Definition CreateDeflate (encode : bool) (buff_size : Z) : res (option stream) := Create encode buff_size DEFLATE (-1) 15 8 0.

(** The buffers before the one to fill, and that one: the last if it has room, a
    fresh one otherwise. *)
Definition open_buffer (n : Z) (buffs : list (list byte)) : list (list byte) * list byte :=
  match rev buffs with
  | b :: r => if len b =? n then (buffs, []) else (rev r, b)
  | [] => ([], [])
  end.

(** The [do] loop over one input vector, the same in [encode] and [decode]; [Some]
    is a return out of the function. *)
Fixpoint codec_loop (fuel : nat) (flush : Z) (input : list byte) : st stream (option Z) := fun s =>
  match fuel with
  | O => (Crash nontermination, s)
  | S fuel =>
      let '(before, ivc) := open_buffer (m_buffSize s) (m_buffs s) in
      let avail_out := u32 (m_buffSize s - len ivc) in
      let '(ret, rest, out, z) :=
        (if m_encode s then deflate else inflate) flush input avail_out (m_zstream s) in
      if ret =? Z_STREAM_ERROR then (Ok (Some ret), set_zstream z (set_buffs (before ++ [ivc]) s))
      else
        let s := set_zstream z (set_buffs (before ++ [ivc ++ out]) s) in
        if avail_out - len out =? 0 then codec_loop fuel flush rest s else (Ok None, s)
  end.

(** The loop over the vectors; [flush] is the mode of the last one run. *)
Fixpoint codec_vectors (fuel : nat) (finish : bool) (v : list (list byte)) (flush : Z) : st stream (option Z * Z) :=
  match v with
  | [] => sret (None, flush)
  | input :: v =>
      let flush := if finish && (match v with [] => true | _ => false end) then Z_FINISH else Z_NO_FLUSH in
      (* [avail_in] is of 32 bits *)
      let* r := codec_loop fuel flush (take (Z.to_nat (u32 (len input))) input) in
      match r with
      | Some ret => sret (Some ret, flush)
      | None => codec_vectors fuel finish v flush
      end
  end.

(** [encode] and [decode], by the direction of the stream. *)
Definition codec (fuel : nat) (v : list (list byte)) (finish : bool) : st stream Z :=
  let* (r, flush) := codec_vectors fuel finish v 0 in
  match r with
  | Some ret => sret ret
  | None => fun s =>
      (Ok Z_OK,
       if flush =? Z_FINISH
       then set_zstream ((if m_encode s then deflateEnd else inflateEnd) (m_zstream s)) s else s)
  end.

(** [write(const void *, length)] *)
Definition ZlibStream_write (fuel : nat) (buffer : list byte) : st stream Z := codec fuel [buffer] false.

(** The contents of the vectors of an array. *)
Fixpoint iov_chunks (vs : list iovec) (ns : list Node) : res (list (list byte)) :=
  match vs with
  | [] => Ok []
  | v :: vs =>
      let! x := copy_out ns (iov_node v) (iov_off v) (iov_len v) in
      let! rest := iov_chunks vs ns in
      Ok (x :: rest)
  end.

(** [write(ByteArray::ptr, length)]: the cursor of the array does not move. *)
Definition ZlibStream_write_ba (fuel : nat) (ba : ByteArray) (length : Z) : st stream Z := fun s =>
  match (let! (_, iovs) := getReadBuffers length ba in iov_chunks iovs (m_nodes ba)) with
  | Ok v => codec fuel v false s
  | Throw e => (Throw e, s)
  | Crash u => (Crash u, s)
  end.

(** [flush()]: an empty vector, finishing. *)
Definition ZlibStream_flush (fuel : nat) : st stream Z := codec fuel [[]] true.

(** [close()] drops the result. *)
Definition ZlibStream_close (fuel : nat) : st stream unit :=
  let* _ := ZlibStream_flush fuel in sret tt.

(** [read] is not supported. *)
Definition ZlibStream_read (length : Z) : st stream Z := sthrow logic_error.

Definition getResult (s : stream) : list byte := concat (m_buffs s).

(** [getByteArray()]: the buffers written to a fresh array, rewound. *)
Fixpoint write_all (l : list (list byte)) (ba : ByteArray) : res ByteArray :=
  match l with
  | [] => Ok ba
  | x :: l => let! ba := write x ba in write_all l ba
  end.

Definition getByteArray (s : stream) : res ByteArray :=
  let! ba := write_all (m_buffs s) (new_ByteArray 4096) in
  setPosition 0 ba.
End zlib_stream.
