(* ===== verification/ZlibStreamSpec.v ===== *)
(** [ZlibStream] against the contract of zlib ([ZlibLaws]): what is written and then
    flushed comes out of [getByteArray] compressed, and decompressed by a stream of
    the other direction. The identity coding shows that the laws can be met. *)
From S2P Require Import Prelude Endian ByteArray ByteArraySpec StreamSpec ZlibStream.

(** ** The contract of zlib

    [z_view e fi z x y]: the state [z] of a compressor ([e] true) or decompressor has
    consumed [x] and produced [y]; [fi] is what was left of the input of the last call
    if that was one with [Z_FINISH]. A call consumes some of its input and produces
    some output; when output space is left over, the input is consumed, and the output
    is complete if the stream is. As zlib's manual asks, nothing is promised of a call
    after one with [Z_FINISH] unless it has [Z_FINISH] again and the input that was
    left. [z_left] bounds the output still to come. *)
Definition z_done (compress : list byte -> list byte) (e : bool) (flush : Z) (x y : list byte) : Prop :=
  if e then flush = Z_FINISH -> y = compress x else forall w, x = compress w -> y = w.

(** What the next call may be after [fi]. *)
Definition z_next (fi : option (list byte)) (flush : Z) (inp : list byte) : Prop :=
  match fi with Some rest => flush = Z_FINISH /\ inp = rest | None => flush = Z_NO_FLUSH \/ flush = Z_FINISH end.

Definition z_after (flush : Z) (rem : list byte) : option (list byte) :=
  if flush =? Z_FINISH then Some rem else None.

Class ZlibLaws (Zs : Type) `{Zlib Zs} := {
  compress : list byte -> list byte;
  z_view : bool -> option (list byte) -> Zs -> list byte -> list byte -> Prop;
  z_left : bool -> Zs -> Z -> list byte -> nat;
  z_deflate_init : exists z, deflateInit2 (-1) 31 8 0 = (Z_OK, z) /\ z_view true None z [] [];
  z_inflate_init : exists z, inflateInit2 31 = (Z_OK, z) /\ z_view false None z [] [];
  z_step (e : bool) fi z x y flush inp avail :
    z_view e fi z x y -> 0 < avail -> z_next fi flush inp ->
    (e = false -> exists w, (x ++ inp) `prefix_of` compress w) ->
    exists ret c rem out z',
      (if e then deflate else inflate) flush inp avail z = (ret, rem, out, z') /\
      ret <> Z_STREAM_ERROR /\ inp = c ++ rem /\ len out <= avail /\ z_view e (z_after flush rem) z' (x ++ c) (y ++ out) /\
      (len out = avail -> (z_left e z' flush rem < z_left e z flush inp)%nat) /\
      (len out < avail -> rem = [] /\ z_done compress e flush (x ++ c) (y ++ out));
}.

Section laws.
Context {Zs : Type} `{ZlibLaws Zs} {host : Host} {heap : Heap}.
Abbreviation stream := (ZlibStream Zs).

(** The stream has consumed [x] and holds [y] in buffers of its size. *)
Record holds (e : bool) (fi : option (list byte)) (s : stream) (x y : list byte) : Prop := {
  h_encode : m_encode s = e;
  h_size : 0 < m_buffSize s < 2 ^ 32;
  h_buffs : Forall (fun b => len b <= m_buffSize s) (m_buffs s);
  h_result : getResult s = y;
  h_view : z_view e fi (m_zstream s) x y;
}.

Definition valid_input (e : bool) (x : list byte) : Prop := e = false -> exists w, x `prefix_of` compress w.

Lemma open_buffer_spec n (l : list (list byte)) : 0 < n -> Forall (fun b => len b <= n) l ->
  exists before b, open_buffer n l = (before, b) /\ concat (before ++ [b]) = concat l /\ len b < n /\
    Forall (fun b => len b <= n) before.
Proof.
  intros Hn F. unfold open_buffer. destruct l as [|b l _] using rev_ind.
  - exists [], []. split_and!; try done.
  - rewrite rev_app_distr. cbn [rev app]. apply Forall_app in F as [F1 F2].
    apply Forall_cons_iff in F2 as [F2 _]. destruct (Z.eqb_spec (len b) n) as [E|E].
    + exists (l ++ [b]), []. split_and!; [done|by rewrite concat_app, app_nil_r|done|].
      apply Forall_app. split; [done|by constructor].
    + exists l, b. rewrite rev_involutive. split_and!; [done|done|lia|done].
Qed.

Lemma codec_loop_mono fuel : forall flush input (s : stream) fuel',
  fst (codec_loop fuel flush input s) <> Crash nontermination -> (fuel <= fuel')%nat ->
  codec_loop fuel' flush input s = codec_loop fuel flush input s.
Proof.
  induction fuel as [|fuel IH]; intros flush input s fuel' N L; [done|].
  destruct fuel' as [|fuel']; [lia|]. cbn [codec_loop] in *.
  destruct (open_buffer _ _) as [before ivc].
  destruct ((if m_encode s then deflate else inflate) _ _ _ _) as [[[ret rest] out] z].
  destruct (ret =? Z_STREAM_ERROR); [done|]. destruct (_ =? 0); [|done]. apply IH; [done|lia].
Qed.

Lemma z_next_flush fi flush inp : z_next fi flush inp -> flush = Z_NO_FLUSH \/ flush = Z_FINISH.
Proof. destruct fi; [by intros [-> _]; right|done]. Qed.

Lemma codec_loop_ok e flush fuel : forall fi input (s : stream) x y,
  holds e fi s x y -> z_next fi flush input -> valid_input e (x ++ input) ->
  (z_left e (m_zstream s) flush input < fuel)%nat ->
  exists s' y', codec_loop fuel flush input s = (Ok None, s') /\ holds e (z_after flush []) s' (x ++ input) y' /\
    z_done compress e flush (x ++ input) y' /\ m_buffSize s' = m_buffSize s.
Proof.
  induction fuel as [|fuel IH]; intros fi input s x y [He Hs Hb Hr Hv] Hf Hi Hl; [lia|]. cbn [codec_loop].
  destruct (open_buffer_spec (m_buffSize s) (m_buffs s) ltac:(lia) Hb) as (before & b & -> & C & Lb & Fb).
  pose proof (len_nonneg b). rewrite u32_small by lia. rewrite He.
  destruct (z_step e fi (m_zstream s) x y flush input (m_buffSize s - len b) Hv ltac:(lia) Hf Hi)
    as (ret & c & rem & out & z & -> & Nr & Ei & Lo & Hv' & Hdec & Hdone).
  destruct (Z.eqb_spec ret Z_STREAM_ERROR) as [Er|_]; [done|].
  set (s1 := set_zstream z (set_buffs (before ++ [b ++ out]) s)).
  assert (Hh1 : holds e (z_after flush rem) s1 (x ++ c) (y ++ out)).
  { constructor; cbn; try done.
    - apply Forall_app. split; [done|]. constructor; [rewrite len_app; lia|done].
    - unfold getResult in *. cbn. rewrite concat_app in *. cbn in *. rewrite app_nil_r in *.
      by rewrite app_assoc, C, Hr. }
  destruct (Z.eqb_spec (m_buffSize s - len b - len out) 0) as [E0|E0].
  - destruct (IH _ rem s1 (x ++ c) (y ++ out) Hh1) as (s' & y' & E & H' & D & S').
    + by destruct (z_next_flush _ _ _ Hf) as [-> | ->]; [left|].
    + by rewrite <- app_assoc, <- Ei.
    + specialize (Hdec ltac:(lia)). cbn. lia.
    + exists s', y'. rewrite <- app_assoc, <- Ei in H', D. done.
  - destruct (Hdone ltac:(lia)) as [-> D]. rewrite app_nil_r in Ei. subst c.
    exists s1, (y ++ out). done.
Qed.

(** The vectors one after the other: with enough fuel the result does not depend on it. *)
Lemma codec_vectors_ok e finish v : forall (s : stream) x y flush0,
  holds e None s x y -> valid_input e (x ++ concat v) -> Forall (fun c => len c < 2 ^ 32) v ->
  exists N s' y' flush, (forall fuel, (N <= fuel)%nat -> codec_vectors fuel finish v flush0 s = (Ok (None, flush), s')) /\
    (finish = false -> holds e None s' (x ++ concat v) y') /\ getResult s' = y' /\ (v <> [] -> z_done compress e flush (x ++ concat v) y') /\
    (v <> [] -> flush = if finish then Z_FINISH else Z_NO_FLUSH) /\ (v = [] -> flush = flush0 /\ y' = y).
Proof.
  induction v as [|c v IH]; intros s x y flush0 Hs Hi Hc; cbn [concat] in *.
  - exists 0%nat, s, y, flush0. rewrite app_nil_r. split_and!; try done. apply Hs.
  - apply Forall_cons_iff in Hc as [Lc Hc]. pose proof (len_nonneg c).
    set (flush := if finish && (match v with [] => true | _ => false end) then Z_FINISH else Z_NO_FLUSH).
    assert (Hf : flush = Z_NO_FLUSH \/ flush = Z_FINISH) by (unfold flush; destruct (finish && _); auto).
    rewrite app_assoc in Hi.
    assert (Hi1 : valid_input e (x ++ c)).
    { intros K. destruct (Hi K) as [w Hw]. exists w. etrans; [|exact Hw]. by apply prefix_app_r. }
    destruct (codec_loop_ok e flush (S (z_left e (m_zstream s) flush c)) None c s x y Hs Hf Hi1 ltac:(lia))
      as (s1 & y1 & E1 & Hh1 & D1 & _).
    assert (finish = true /\ v = [] \/ flush = Z_NO_FLUSH) as [[Ef ->]|Ef]
      by (unfold flush; destruct finish, v; auto).
    { exists (S (z_left e (m_zstream s) flush c)), s1, y1, flush. cbn [concat]. rewrite app_nil_r.
      split_and!; [|by rewrite Ef|apply Hh1|done|intros _; unfold flush; by rewrite Ef|done].
      intros fuel Hl. cbn [codec_vectors]. fold flush. rewrite u32_small by lia.
      unfold len at 1. rewrite Nat2Z.id, firstn_all.
      rewrite (sbind_ok _ _ s None s1); [done|].
      rewrite <- E1. apply codec_loop_mono; [by rewrite E1|lia]. }
    rewrite Ef in Hh1. change (z_after Z_NO_FLUSH []) with (@None (list byte)) in Hh1.
    destruct (IH s1 (x ++ c) y1 flush Hh1 Hi Hc) as (N & s' & y' & fl & E & H' & R' & D & F1 & F2).
    exists (Nat.max N (S (z_left e (m_zstream s) flush c))), s', y', fl. split_and!.
    + intros fuel Hl. cbn [codec_vectors]. fold flush. rewrite u32_small by lia.
      unfold len at 1. rewrite Nat2Z.id, firstn_all.
      rewrite (sbind_ok _ _ s None s1); [apply E; lia|].
      rewrite <- E1. apply codec_loop_mono; [by rewrite E1|lia].
    + by rewrite app_assoc.
    + done.
    + intros _. rewrite app_assoc. destruct v as [|c2 v]; [|by apply D].
      destruct (F2 eq_refl) as [-> ->]. cbn [concat]. by rewrite app_nil_r.
    + intros _. destruct v as [|c2 v]; [|by apply F1]. destruct (F2 eq_refl) as [-> _]. unfold flush. by destruct finish.
    + done.
Qed.

Lemma codec_ok e finish v (s : stream) x y :
  holds e None s x y -> valid_input e (x ++ concat v) -> Forall (fun c => len c < 2 ^ 32) v ->
  exists N s' y', (forall fuel, (N <= fuel)%nat -> codec fuel v finish s = (Ok Z_OK, s')) /\ getResult s' = y' /\
    (v <> [] -> z_done compress e (if finish then Z_FINISH else Z_NO_FLUSH) (x ++ concat v) y') /\
    (finish = false -> holds e None s' (x ++ concat v) y').
Proof.
  intros Hs Hi Hc. destruct (codec_vectors_ok e finish v s x y 0 Hs Hi Hc) as (N & s' & y' & fl & E & H' & R' & D & F1 & F2).
  set (s2 := if fl =? Z_FINISH
             then set_zstream ((if m_encode s' then deflateEnd else inflateEnd) (m_zstream s')) s' else s').
  exists N, s2, y'. split_and!.
  - intros fuel Hl. unfold codec. by rewrite (sbind_ok _ _ _ _ _ (E fuel Hl)).
  - unfold s2. destruct (fl =? Z_FINISH); exact R'.
  - intros Hv. rewrite <- (F1 Hv). by apply D.
  - intros ->. assert (fl = 0) as Ef by (destruct v; [by destruct (F2 eq_refl)|by rewrite F1]).
    unfold s2. rewrite Ef. by apply H'.
Qed.

(** ** Arrays in and out *)

Lemma gather_chunks vs ns x : gather vs ns = Ok x ->
  exists l, iov_chunks vs ns = Ok l /\ concat l = x /\ Forall2 (fun c v => len c = Z.max 0 (iov_len v)) l vs.
Proof.
  revert x. induction vs as [|v vs IH]; intros x; cbn [gather iov_chunks].
  - intros [= <-]. exists []. done.
  - intros E. apply rbind_ok in E as (c & Ec & E). apply rbind_ok in E as (r & Er & E). injection E as <-.
    destruct (IH r Er) as (l & El & Cl & Fl). rewrite Ec, El. cbn [rbind]. exists (c :: l).
    split_and!; [done|by cbn; rewrite Cl|]. constructor; [|done].
    unfold copy_out in Ec. apply rbind_ok in Ec as (n & En & Ec).
    destruct (Z.leb_spec 0 (iov_off v)), (Z.leb_spec (iov_off v + iov_len v) (len (ptr n))); try discriminate Ec.
    injection Ec as <-. unfold len in *. unfold slice. rewrite length_take, length_drop. lia.
Qed.

Lemma unread_chunks ba : wf ba -> m_base_size ba < 2 ^ 32 ->
  exists v, (let! (_, iovs) := getReadBuffers (2 ^ 64 - 1) ba in iov_chunks iovs (m_nodes ba)) = Ok v /\
    concat v = unread ba /\ Forall (fun c => len c < 2 ^ 32) v.
Proof.
  intros W Hb. destruct (getReadBuffers_spec (2 ^ 64 - 1) ba W ltac:(lia)) as (vs & E & G & F & _).
  assert (Hk : getReadSize ba <= 2 ^ 64 - 1) by (unfold getReadSize; pose proof (u64_range (m_data_size ba - m_position ba)); lia).
  rewrite Z.min_r in E, G by lia. rewrite take_ge in G
    by (pose proof (wf_unread_length ba W) as L; unfold len in L; lia).
  destruct (gather_chunks _ _ _ G) as (v & Ev & Cv & Fv). exists v. rewrite E. cbn [rbind].
  split_and!; [done|done|]. pose proof (wf_Bn ba W) as [HB _]. clear -F Fv HB Hb.
  induction Fv as [|c v l vs L Fv IH]; [constructor|]. apply Forall_cons_iff in F as [F1 F].
  constructor; [|by apply IH]. destruct F1 as (_ & O & P & B). rewrite L. lia.
Qed.

Lemma write_all_ok l : forall b, filling b -> m_position b + len (concat l) <= room b ->
  exists b', write_all l b = Ok b' /\ filling b' /\ content b' = content b ++ concat l /\ m_base_size b' = m_base_size b.
Proof.
  induction l as [|x l IH]; intros b [W Ep] Hr; cbn [write_all concat] in *.
  - exists b. rewrite app_nil_r. done.
  - rewrite len_app in Hr. pose proof (len_nonneg (concat l)). pose proof (len_nonneg x).
    destruct (write_spec x b W ltac:(lia)) as (b1 & E & W1 & P1 & D1 & C1 & En1 & B1).
    rewrite E. cbn [rbind]. pose proof (wf_position b W). pose proof (wf_content_length b W) as Lc.
    assert (content b1 = content b ++ x) as Ec.
    { rewrite C1. unfold splice. unfold len in Lc. rewrite take_ge, drop_ge by lia. by rewrite app_nil_r. }
    destruct (IH b1) as (b' & E' & F' & C' & B'); [split; [done|lia]|unfold room in *; lia|].
    exists b'. split_and!; [done|done|by rewrite C', Ec, <- app_assoc|congruence].
Qed.

Lemma getByteArray_ok (s : stream) : len (getResult s) < 2 ^ 62 ->
  exists out, getByteArray s = Ok out /\ wf out /\ m_position out = 0 /\ content out = getResult s /\
    m_base_size out = 4096.
Proof.
  intros L. unfold getByteArray.
  destruct (write_all_ok (m_buffs s) (new_ByteArray 4096)) as (b & E & [W P] & C & B).
  - split; [by apply wf_new|done].
  - unfold room. cbn. unfold getResult in L. lia.
  - rewrite E. cbn [rbind]. pose proof (wf_position b W).
    assert (0 < m_capacity b).
    { rewrite (wf_capacity b W). pose proof (wf_Bn b W) as [_ ?]. pose proof (wf_nonempty b W). nia. }
    destruct (setPosition_spec 0 b W ltac:(lia)) as (b' & E' & W' & P' & D' & N' & _ & B' & _).
    exists b'. split_and!; try done; [|by rewrite B', B]. unfold content. rewrite N', D'.
    replace (Z.max (m_data_size b) 0) with (m_data_size b) by lia. fold (content b). by rewrite C.
Qed.

Lemma CreateGzip_ok e : exists s : stream, CreateGzip e 4096 = Ok (Some s) /\ holds e None s [] [].
Proof.
  unfold CreateGzip, Create, init. cbn [rbind].
  destruct e; [destruct z_deflate_init as (z & E & V)|destruct z_inflate_init as (z & E & V)];
    (eexists; split; [cbn; change (15 + 16) with 31; rewrite E; reflexivity|];
     constructor; [done|done|by constructor|done|exact V]).
Qed.

(** A gzip stream, from its creation to its result. *)
Lemma gzip_run e ba : wf ba -> m_base_size ba < 2 ^ 32 -> valid_input e (unread ba) ->
  exists (s : stream) N s1 s2, CreateGzip e 4096 = Ok (Some s) /\
    (forall fuel, (N <= fuel)%nat -> ZlibStream_write_ba fuel ba (2 ^ 64 - 1) s = (Ok Z_OK, s1) /\
       ZlibStream_flush fuel s1 = (Ok Z_OK, s2)) /\
    z_done compress e Z_FINISH (unread ba) (getResult s2).
Proof.
  intros W Hb Hv. destruct (CreateGzip_ok e) as (s & Ec & Hs).
  destruct (unread_chunks ba W Hb) as (v & Ev & Cv & Fv).
  destruct (codec_ok e false v s [] [] Hs ltac:(cbn; by rewrite Cv) Fv) as (N1 & s1 & y1 & E1 & R1 & _ & H1).
  specialize (H1 eq_refl). cbn [app] in H1. rewrite Cv in H1.
  destruct (codec_ok e true [[]] s1 (unread ba) y1 H1 ltac:(cbn; by rewrite app_nil_r)
    ltac:(constructor; [done|constructor])) as (N2 & s2 & y2 & E2 & R2 & D2 & _).
  exists s, (Nat.max N1 N2), s1, s2. split; [done|]. split.
  - intros fuel Hl. split; [|apply E2; lia]. unfold ZlibStream_write_ba. rewrite Ev. apply E1. lia.
  - specialize (D2 ltac:(done)). cbn [concat] in D2. rewrite !app_nil_r in D2. by rewrite R2.
Qed.
End laws.

(** ** The identity coding *)

#[global] Instance stored : Zlib unit := {
  deflateInit2 _ _ _ _ := (Z_OK, tt);
  inflateInit2 _ := (Z_OK, tt);
  deflate _ inp avail z := (0, drop (Z.to_nat avail) inp, take (Z.to_nat avail) inp, z);
  inflate _ inp avail z := (0, drop (Z.to_nat avail) inp, take (Z.to_nat avail) inp, z);
  deflateEnd z := z;
  inflateEnd z := z;
}.

#[global] Program Instance stored_laws : ZlibLaws unit := {
  compress x := x;
  z_view _ _ _ x y := y = x;
  z_left _ _ _ inp := length inp;
}.
Next Obligation. by exists tt. Qed.
Next Obligation. by exists tt. Qed.
Next Obligation.
  intros e fi z x y flush inp avail -> Ha _ _.
  exists 0, (take (Z.to_nat avail) inp), (drop (Z.to_nat avail) inp), (take (Z.to_nat avail) inp), z.
  split; [by destruct e|]. unfold len. rewrite !length_take, !length_drop.
  split; [done|]. split; [by rewrite take_drop|]. split; [lia|]. split; [done|]. split; [lia|].
  intros L. assert (drop (Z.to_nat avail) inp = []) as -> by (apply drop_ge; lia).
  split; [done|]. unfold z_done. destruct e; [done|]. by intros w ->.
Qed.

(** * The theorem *)

(** what an array holds behind its cursor, written to a gzip stream that is then
    flushed, comes out of [getByteArray] compressed as one rewound array; and the
    compressed form of [w] written to a decompressing stream comes out as [w],
    whatever the blocks the data are cut into and the buffers the output needs. *)
Theorem ZlibStream_roundtrip {Zs : Type} `{ZlibLaws Zs} (host : Host) (heap : Heap) (ba : ByteArray) (e : bool) (w : list byte)
    (W : wf ba) (B : m_base_size ba < 2 ^ 32)
    (I : unread ba = if e then w else compress w) (L : len (if e then compress w else w) < 2 ^ 62) :
  exists (s : ZlibStream Zs) N s1 s2 out, CreateGzip e 4096 = Ok (Some s) /\
    (forall fuel, (N <= fuel)%nat -> ZlibStream_write_ba fuel ba (2 ^ 64 - 1) s = (Ok Z_OK, s1) /\
       ZlibStream_flush fuel s1 = (Ok Z_OK, s2)) /\
    getByteArray s2 = Ok out /\ wf out /\ m_position out = 0 /\ content out = (if e then compress w else w).
Proof.
  destruct (gzip_run e ba W B) as (s & N & s1 & s2 & E1 & E2 & D).
  { intros ->. exists w. by rewrite I. }
  assert (R : getResult s2 = if e then compress w else w).
  { rewrite I in D. unfold z_done in D. destruct e; [by apply D|by apply D]. }
  destruct (getByteArray_ok s2 ltac:(by rewrite R)) as (out & E3 & W3 & P3 & C3 & _).
  exists s, N, s1, s2, out. by rewrite C3, R.
Qed.

Section witness.
#[local] Existing Instance zero_heap.
#[local] Existing Instance x86_host.

Lemma ZlibStream_roundtrip_witness : exists ba (s : ZlibStream unit) out,
  write (bstr "hello") (new_ByteArray 4) = Ok ba /\ CreateGzip true 4096 = Ok (Some s) /\ content out = [] ++ unread ba.
Proof.
  destruct (write_spec (bstr "hello") (new_ByteArray 4) (wf_new 4 ltac:(lia)) ltac:(vm_compute; congruence))
    as (ba & Ew & W & _ & _ & _ & _ & B).
  injection Ew as <-.
  destruct (ZlibStream_roundtrip x86_host zero_heap _ true _ W ltac:(reflexivity)
    eq_refl ltac:(vm_compute; congruence)) as (s & N & s1 & s2 & out & E & _ & _ & _ & _ & C).
  eexists _, s, out. split; [reflexivity|]. split; [exact E|]. rewrite C. reflexivity.
Defined.
End witness.
