(* ===== verification/Rock.v ===== *)
(** The Rock protocol: messages (include/other/protocol.hpp, src/other/protocol.cpp),
    their bodies and the framing of [RockMessageDecoder] (include/rock/rock_protocol.hpp,
    src/rock/rock_protocol.cpp). Messages are written through the interface [Buffer]
    of [Codec], frames through the interface [Stream], compressed with [ZlibStream].

    The limits [rock.protocol.max_length] and [rock.protocol.gzip_min_length] are
    arguments, as is the fuel of the compression loops. *)
From S2P Require Import Prelude Endian ByteArray Codec Stream ZlibStream.

(** ** Messages *)

Definition REQUEST : Z := 1.
Definition RESPONSE : Z := 2.
Definition NOTIFY : Z := 3.

Record Request := mkRequest { req_sn : Z; req_cmd : Z }.
Record Response := mkResponse { rsp_sn : Z; rsp_cmd : Z; rsp_result : Z; rsp_resultStr : list byte }.
Record Notify := mkNotify { nty_notify : Z }.

(** The three classes that derive from one of these and from [RockBody]. *)
Inductive Message :=
  | RockRequest (r : Request) (m_body : list byte)
  | RockResponse (r : Response) (m_body : list byte)
  | RockNotify (n : Notify) (m_body : list byte).

Definition getType (m : Message) : Z :=
  match m with RockRequest _ _ => REQUEST | RockResponse _ _ => RESPONSE | RockNotify _ _ => NOTIFY end.

(** [createResponse()]: a default response with the request's number and command. *)
Definition createResponse (r : Request) : Message :=
  RockResponse (mkResponse (req_sn r) (req_cmd r) 404 (bstr "unhandle")) [].

(** [try { .. } catch (...) { .. return v; }] *)
Definition catch_all {S A} (v : A) (m : st S A) : st S A := fun s =>
  match m s with
  | (Throw _, s) => (Ok v, s)
  | r => r
  end.

Section messages.
Context {host : Host} {B : Type} `{Buffer B}.

Definition Request_serialize (type : Z) (r : Request) : st B bool :=
  let* _ := writeFuint8 type in
  let* _ := writeUint32 (req_sn r) in
  let* _ := writeUint32 (req_cmd r) in
  sret true.

Definition Request_parse : st B Request :=
  let* sn := readUint32 in
  let* cmd := readUint32 in
  sret (mkRequest sn cmd).

Definition Response_serialize (type : Z) (r : Response) : st B bool :=
  let* _ := writeFuint8 type in
  let* _ := writeUint32 (rsp_sn r) in
  let* _ := writeUint32 (rsp_cmd r) in
  let* _ := writeUint32 (rsp_result r) in
  let* _ := writeStringVint (rsp_resultStr r) in
  sret true.

Definition Response_parse : st B Response :=
  let* sn := readUint32 in
  let* cmd := readUint32 in
  let* result := readUint32 in
  let* resultStr := readStringVint in
  sret (mkResponse sn cmd result resultStr).

Definition Notify_serialize (type : Z) (n : Notify) : st B bool :=
  let* _ := writeFuint8 type in
  let* _ := writeUint32 (nty_notify n) in
  sret true.

Definition Notify_parse : st B Notify :=
  let* notify := readUint32 in sret (mkNotify notify).

Definition RockBody_serialize (body : list byte) : st B bool :=
  let* _ := writeStringVint body in sret true.

Definition RockBody_parse : st B (list byte) := readStringVint.

(** [serializeToByteArray] of the three classes. *)
Definition serializeToByteArray (m : Message) : st B bool :=
  catch_all false
    match m with
    | RockRequest r body =>
        let* v := Request_serialize REQUEST r in
        let* w := RockBody_serialize body in sret (v && w)
    | RockResponse r body =>
        let* v := Response_serialize RESPONSE r in
        let* w := RockBody_serialize body in sret (v && w)
    | RockNotify n body =>
        let* v := Notify_serialize NOTIFY n in
        let* w := RockBody_serialize body in sret (v && w)
    end.

(** [parseFromByteArray] of the class the type byte selects; [None] is [false]. *)
Definition RockRequest_parse : st B (option Message) :=
  catch_all None (let* r := Request_parse in let* body := RockBody_parse in sret (Some (RockRequest r body))).
Definition RockResponse_parse : st B (option Message) :=
  catch_all None (let* r := Response_parse in let* body := RockBody_parse in sret (Some (RockResponse r body))).
Definition RockNotify_parse : st B (option Message) :=
  catch_all None (let* n := Notify_parse in let* body := RockBody_parse in sret (Some (RockNotify n body))).

(** The type byte and the message behind it; an unknown type is [None] as well. *)
Definition parse_message : st B (option Message) :=
  let* type := readFuint8 in
  if type =? REQUEST then RockRequest_parse
  else if type =? RESPONSE then RockResponse_parse
  else if type =? NOTIFY then RockNotify_parse
  else sret None.
End messages.

(** ** Frames *)

Definition s_rock_magic : list byte := [xab; xcd].

Section decoder.
Context {host : Host} {heap : Heap} `{Buffer ByteArray} {S : Type} `{Stream S} {Zs : Type} `{Zlib Zs}.

(** The object representation of a [RockMsgHeader]. *)
Definition RockMsgHeader (flag length : Z) : list byte :=
  s_rock_magic ++ [x01; z2b flag] ++ to_mem 4 length.

(** [Message::toByteArray()]; [None] is the null pointer. *)
Definition toByteArray (m : Message) : res (option ByteArray) :=
  let '(r, ba) := serializeToByteArray m (new_ByteArray 4096) in
  let! ok := r in Ok (if ok : bool then Some ba else None).

(** A gzip stream created, written, flushed and read out: the codes of the two steps
    that may fail, or the resulting array. *)
Inductive gzip_result := gzip_write_failed | gzip_flush_failed | gzip_done (ba : ByteArray).

Definition gzip (fuel : nat) (encode : bool) (ba : ByteArray) : res gzip_result :=
  let! o := CreateGzip encode 4096 in
  let! zs := deref (o : option (ZlibStream Zs)) in
  let '(r, zs) := ZlibStream_write_ba fuel ba (2 ^ 64 - 1) zs in
  let! r := r in
  if negb (r =? Z_OK) then Ok gzip_write_failed
  else
    let '(r, zs) := ZlibStream_flush fuel zs in
    let! r := r in
    if negb (r =? Z_OK) then Ok gzip_flush_failed
    else let! ba := getByteArray zs in Ok (gzip_done ba).

(** The part of [parseFrom] behind the body: rewinding, decompressing, parsing. *)
Definition decode_body (fuel : nat) (flag : Z) (ba : ByteArray) : res (option Message) :=
  let! ba := setPosition 0 ba in
  let! o :=
    if negb (Z.land flag 1 =? 0) then
      let! r := gzip fuel false ba in
      Ok match r with gzip_done ba => Some ba | _ => None end
    else Ok (Some ba) in
  match o with
  | None => Ok None
  | Some ba => fst (parse_message ba)
  end.

(** [RockMessageDecoder::parseFrom] *)
Definition parseFrom (fuel : nat) (max_length : Z) : st S (option Message) :=
  catch_all None
    (let* (r, header) := readFixSize 8 in
     if r <=? 0 then sret None
     else if negb (bool_decide (take 2 header = s_rock_magic)) then sret None
     else if negb (b2z (nth 2 header x00) =? 1) then sret None
     else
       let flag := b2z (nth 3 header x00) in
       let length := s32 (ntoh 4 (of_mem (slice 4 4 header))) in
       if max_length <=? u32 length then sret None
       else
         let* (r, ba) := readFixSize_ba (new_ByteArray 4096) (u64 length) in
         if r <=? 0 then sret None
         else fun s => (decode_body fuel flag ba, s)).

(** [RockMessageDecoder::serializeTo] *)
Definition serializeTo (fuel : nat) (gzip_min_length : Z) (msg : Message) : st S Z :=
  let* ba := fun s => (let! o := toByteArray msg in let! ba := deref o in setPosition 0 ba, s) in
  let length := s32 (getDataSize ba) in
  let* packed := fun s =>
    (if gzip_min_length <=? u32 length then
       let! r := gzip fuel true ba in
       Ok match r with
          | gzip_write_failed => inl (-1)
          | gzip_flush_failed => inl (-2)
          | gzip_done ba => inr (ba, 1, s32 (getDataSize ba))
          end
     else Ok (inr (ba, 0, length)), s) in
  match packed with
  | inl code => sret code
  | inr (ba, flag, length) =>
      let* r := writeFixSize (RockMsgHeader flag (ntoh 4 length)) in
      if r <=? 0 then sret (-3)
      else
        let* (r, ba) := writeFixSize_ba ba (getReadSize ba) in
        if r <=? 0 then sret (-4) else sret (s32 (8 + getDataSize ba))
  end.
End decoder.
