(* ===== verification/RockSpec.v ===== *)
(** The Rock protocol: messages come back from what they are written to, frames from
    what is sent, compressed or not; malformed frames are refused; and a body that
    fills its blocks exactly crashes the receiver. *)
From S2P Require Import Prelude Endian ByteArray ByteArraySpec Codec CodecSpec Stream StreamSpec ZlibStream ZlibStreamSpec Rock.

(** ** Messages *)

(** The bytes of a message. *)
Definition enc_string (x : list byte) : list byte := varint (len x) ++ x.

Definition enc_message (m : Message) : list byte :=
  [z2b (getType m)] ++
  match m with
  | RockRequest r body => varint (req_sn r) ++ varint (req_cmd r) ++ enc_string body
  | RockResponse r body =>
      varint (rsp_sn r) ++ varint (rsp_cmd r) ++ varint (rsp_result r) ++ enc_string (rsp_resultStr r) ++ enc_string body
  | RockNotify n body => varint (nty_notify n) ++ enc_string body
  end.

Definition in32 (z : Z) : Prop := 0 <= z < 2 ^ 32.
Definition short_string (x : list byte) : Prop := len x <= string_max_size.

(** The fields fit the types of the source. *)
Definition valid_message (m : Message) : Prop :=
  match m with
  | RockRequest r body => in32 (req_sn r) /\ in32 (req_cmd r) /\ short_string body
  | RockResponse r body =>
      in32 (rsp_sn r) /\ in32 (rsp_cmd r) /\ in32 (rsp_result r) /\ short_string (rsp_resultStr r) /\ short_string body
  | RockNotify n body => in32 (nty_notify n) /\ short_string body
  end.

Section messages.
Context {host : Host} {B : Type} `{BufferLaws B}.

(** [m] appends the bytes [f e] and returns [a]. *)
Definition wrote {A} (m : st B A) (f : endian -> list byte) (a : A) : Prop :=
  forall b v, buf_view b v -> len (v_before v) + len (f (v_endian v)) <= v_limit v ->
  exists b', m b = (Ok a, b') /\ buf_view b' (view_write (f (v_endian v)) v).

Lemma wrote_ret {A} (a : A) : wrote (sret a) (fun _ => []) a.
Proof.
  intros b v V L. exists b. split; [done|]. unfold view_write. cbn. rewrite app_nil_r.
  rewrite drop_0. by destruct v.
Qed.

Lemma wrote_seq {A} m (k : st B A) f g a : writes m f -> wrote k g a ->
  wrote (let* _ := m in k) (fun e => f e ++ g e) a.
Proof.
  intros Wm Wk b v V L. rewrite len_app in L. pose proof (len_nonneg (g (v_endian v))).
  destruct (Wm b v V ltac:(lia)) as (b1 & E1 & V1).
  destruct (Wk b1 _ V1) as (b2 & E2 & V2).
  { cbn. rewrite len_app. cbn in *. lia. }
  exists b2. rewrite (sbind_ok _ _ _ _ _ E1). split; [done|]. unfold view_write in *. cbn in *.
  rewrite <- app_assoc, drop_drop in V2. rewrite length_app. exact V2.
Qed.

Lemma wrote_bind {A C} (m : st B A) (k : A -> st B C) f g a c : wrote m f a -> wrote (k a) g c ->
  wrote (let* x := m in k x) (fun e => f e ++ g e) c.
Proof.
  intros Wm Wk b v V L. rewrite len_app in L. pose proof (len_nonneg (g (v_endian v))).
  destruct (Wm b v V ltac:(lia)) as (b1 & E1 & V1).
  destruct (Wk b1 _ V1) as (b2 & E2 & V2).
  { cbn. rewrite len_app. cbn in *. lia. }
  exists b2. rewrite (sbind_ok _ _ _ _ _ E1). split; [done|]. unfold view_write in *. cbn in *.
  rewrite <- app_assoc, drop_drop in V2. rewrite length_app. exact V2.
Qed.

Lemma wrote_catch {A} (x : A) m f a : wrote m f a -> wrote (catch_all x m) f a.
Proof.
  intros W b v V L. destruct (W b v V L) as (b' & E & V'). exists b'. unfold catch_all. by rewrite E.
Qed.

Lemma wrote_eq {A} (m : st B A) f g a : (forall e, f e = g e) -> wrote m f a -> wrote m g a.
Proof. intros E W b v V L. rewrite <- E in L |- *. by apply W. Qed.

Lemma reads_catch {A} (x : A) (m : st B A) f a : reads m f a -> reads (catch_all x m) f a.
Proof.
  intros R b v r V E. destruct (R b v r V E) as (b' & E' & V'). exists b'. unfold catch_all. by rewrite E'.
Qed.

Lemma reads_bytes {A} (m : st B A) f g a : (forall e, f e = g e) -> reads m f a -> reads m g a.
Proof. intros E R b v r V Er. rewrite <- E in *. by apply R. Qed.

Lemma writes_string x : short_string x -> writes (writeStringVint x) (fun _ => enc_string x).
Proof. intros L. apply writes_StringVint. unfold short_string, string_max_size in L. lia. Qed.

Lemma reads_string x : short_string x -> reads readStringVint (fun _ => enc_string x) x.
Proof. apply reads_StringVint. Qed.

Ltac wrote_steps := repeat first
  [ apply wrote_ret | apply writes_Fuint8 | by apply writes_Uint32 | by apply writes_string | eapply wrote_seq ].

Lemma serialize_wrote m : valid_message m -> wrote (serializeToByteArray m) (fun _ => enc_message m) true.
Proof.
  intros V. unfold serializeToByteArray. apply wrote_catch.
  destruct m as [r body|r body|n body]; simpl in V; destruct_and? V;
    unfold Request_serialize, Response_serialize, Notify_serialize, RockBody_serialize;
    (eapply wrote_eq; cycle 1;
     [eapply wrote_bind; [wrote_steps|eapply wrote_bind; [wrote_steps|apply wrote_ret]]|]);
    intros e; unfold enc_message; cbn; by rewrite ?app_nil_r, <- ?app_assoc.
Qed.

Lemma Request_reads r : in32 (req_sn r) -> in32 (req_cmd r) ->
  reads Request_parse (fun _ => varint (req_sn r) ++ varint (req_cmd r) ++ []) r.
Proof.
  intros H1 H2. destruct r as [sn cmd]. apply (reads_bind _ _ _ _ sn); [by apply reads_Uint32|].
  apply (reads_bind _ _ _ _ cmd); [by apply reads_Uint32|apply reads_ret].
Qed.

Lemma Response_reads r : in32 (rsp_sn r) -> in32 (rsp_cmd r) -> in32 (rsp_result r) -> short_string (rsp_resultStr r) ->
  reads Response_parse (fun _ => varint (rsp_sn r) ++ varint (rsp_cmd r) ++ varint (rsp_result r) ++
                                 enc_string (rsp_resultStr r) ++ []) r.
Proof.
  intros H1 H2 H3 H4. destruct r as [sn cmd result str]. apply (reads_bind _ _ _ _ sn); [by apply reads_Uint32|].
  apply (reads_bind _ _ _ _ cmd); [by apply reads_Uint32|].
  apply (reads_bind _ _ _ _ result); [by apply reads_Uint32|].
  apply (reads_bind _ _ _ _ str); [by apply reads_string|apply reads_ret].
Qed.

Lemma Notify_reads n : in32 (nty_notify n) ->
  reads Notify_parse (fun _ => varint (nty_notify n) ++ []) n.
Proof.
  intros H1. destruct n as [notify]. apply (reads_bind _ _ _ _ notify); [by apply reads_Uint32|apply reads_ret].
Qed.

(** A header of the message and its body. *)
Lemma message_reads {A} (parse : st B A) (mk : A -> list byte -> Message) f a body :
  reads parse f a -> short_string body ->
  reads (catch_all None (let* r := parse in let* body := RockBody_parse in sret (Some (mk r body))))
    (fun e => f e ++ enc_string body ++ []) (Some (mk a body)).
Proof.
  intros R S. apply reads_catch. apply (reads_bind _ _ _ _ a); [done|].
  apply (reads_bind _ _ _ _ body); [by apply reads_string|apply reads_ret].
Qed.

Lemma parse_reads m : valid_message m -> reads parse_message (fun _ => enc_message m) (Some m).
Proof.
  intros V. unfold parse_message.
  apply (reads_bytes _ (fun e => [z2b (getType m)] ++ drop 1 (enc_message m))); [done|].
  apply (reads_bind _ _ (fun _ => [z2b (getType m)]) (fun _ => drop 1 (enc_message m)) (u8 (getType m)));
    [apply reads_Fuint8|].
  destruct m as [r body|r body|n body]; simpl in V; destruct_and? V; simpl.
  - eapply reads_bytes; [|apply message_reads; [by apply Request_reads|done]].
    intros e. simpl. by rewrite !app_nil_r, <- !app_assoc.
  - eapply reads_bytes; [|apply message_reads; [by apply Response_reads|done]].
    intros e. simpl. by rewrite !app_nil_r, <- !app_assoc.
  - eapply reads_bytes; [|apply message_reads; [by apply Notify_reads|done]].
    intros e. simpl. by rewrite !app_nil_r, <- ?app_assoc.
Qed.
End messages.

(** ** Arrays *)

Section arrays.
Context {host : Host} {heap : Heap}.

Lemma view_content b v : ByteArray_view b v -> content b = v_before v ++ v_rest v.
Proof. intros (W & E1 & E2 & _). rewrite E1, E2. unfold unread. by rewrite take_drop. Qed.

Lemma toByteArray_ok m : valid_message m -> len (enc_message m) < 2 ^ 62 ->
  exists ba, toByteArray m = Ok (Some ba) /\ wf ba /\ content ba = enc_message m /\ m_base_size ba = 4096.
Proof.
  intros V L. assert (W0 : wf (new_ByteArray 4096)) by (by apply wf_new).
  destruct (serialize_wrote (B := ByteArray) m V (new_ByteArray 4096) _ (ByteArray_view_of _ W0)) as (ba & E & V').
  - change (len (@nil byte) + len (enc_message m) <= 2 ^ 64 - 4096). change (len (@nil byte)) with 0. lia.
  - exists ba. unfold toByteArray. rewrite E. split; [done|].
    pose proof (view_content _ _ V') as C. destruct V' as (W & _ & _ & _ & R). cbn in R. unfold room in R. cbn in R.
    assert (content ba = ([] ++ enc_message m) ++ drop (length (enc_message m)) []) as C' by exact C. rewrite drop_nil, app_nil_r in C'.
    split_and!; [done|exact C'|lia].
Qed.

(** An array is never empty of blocks, so its start is a position. *)
Lemma rewind_ok ba : wf ba -> exists b', setPosition 0 ba = Ok b' /\ wf b' /\ m_position b' = 0 /\
  content b' = content ba /\ unread b' = content ba /\ m_base_size b' = m_base_size ba /\
  m_data_size b' = m_data_size ba.
Proof.
  intros W. pose proof (wf_position ba W).
  assert (0 < m_capacity ba).
  { rewrite (wf_capacity ba W). pose proof (wf_Bn ba W) as [_ ?]. pose proof (wf_nonempty ba W). nia. }
  destruct (setPosition_spec 0 ba W ltac:(lia)) as (b' & E & W' & P & D & N & _ & B & _).
  exists b'. assert (C : content b' = content ba).
  { unfold content. rewrite N, D. do 2 f_equal. lia. }
  split_and!; try done; [|lia]. unfold unread. rewrite P, C. apply drop_0.
Qed.

Lemma parse_array m ba rest : wf ba -> m_position ba = 0 -> valid_message m -> content ba = enc_message m ++ rest ->
  fst (parse_message ba) = Ok (Some m).
Proof.
  intros W P V C. destruct (parse_reads (B := ByteArray) m V ba _ rest (ByteArray_view_of ba W)) as (b' & E & _).
  - cbn. unfold unread. by rewrite P, drop_0, C.
  - by rewrite E.
Qed.

Context {Zs : Type} `{ZlibLaws Zs}.

Lemma gzip_ok (e : bool) ba w : wf ba -> m_base_size ba < 2 ^ 32 -> unread ba = (if e then w else compress w) ->
  len (if e then compress w else w) < 2 ^ 62 ->
  exists N out, (forall fuel, (N <= fuel)%nat -> gzip fuel e ba = Ok (gzip_done out)) /\
    wf out /\ m_position out = 0 /\ content out = (if e then compress w else w) /\ m_base_size out = 4096.
Proof.
  intros W B U L. destruct (gzip_run e ba W B) as (s & N & s1 & s2 & E1 & E2 & D).
  { intros ->. exists w. by rewrite U. }
  assert (R : getResult s2 = if e then compress w else w)
    by (rewrite U in D; unfold z_done in D; destruct e; by apply D).
  destruct (getByteArray_ok s2 ltac:(by rewrite R)) as (out & E3 & W3 & P3 & C3 & B3).
  exists N, out. split_and!; [|done|done|by rewrite C3|done].
  intros fuel Hf. destruct (E2 fuel Hf) as [Ew Ef]. unfold gzip. rewrite E1. cbn [rbind deref].
  rewrite Ew. cbn [rbind]. change (negb (Z_OK =? Z_OK)) with false. cbv iota. rewrite Ef. cbn [rbind].
  change (negb (Z_OK =? Z_OK)) with false. cbv iota. by rewrite E3.
Qed.

(** ** Frames *)

(** What a message is sent as, and the flag that says so. *)
Definition rock_body (gzip_min : Z) (m : Message) : list byte :=
  if gzip_min <=? len (enc_message m) then compress (enc_message m) else enc_message m.
Definition rock_flag (gzip_min : Z) (m : Message) : Z := if gzip_min <=? len (enc_message m) then 1 else 0.

Definition rock_frame (gzip_min : Z) (m : Message) : list byte :=
  RockMsgHeader (rock_flag gzip_min m) (ntoh 4 (len (rock_body gzip_min m))) ++ rock_body gzip_min m.

Lemma header_length flag n : 0 <= n < 2 ^ 31 ->
  let h := RockMsgHeader flag (ntoh 4 n) in
  len h = 8 /\ take 2 h = s_rock_magic /\ nth 2 h x00 = x01 /\ nth 3 h x00 = z2b flag /\
  s32 (ntoh 4 (of_mem (slice 4 4 h))) = n.
Proof.
  intros Hn h. assert (L : length (to_mem 4 (ntoh 4 n)) = 4%nat) by apply length_wire_bytes.
  assert (Eh : slice 4 4 h = to_mem 4 (ntoh 4 n)) by (change (slice 4 4 h) with (take 4 (to_mem 4 (ntoh 4 n))); apply take_ge; lia).
  split_and!; try done.
  - change (len h) with (Z.of_nat (4 + length (to_mem 4 (ntoh 4 n)))). by rewrite L.
  - rewrite Eh. unfold of_mem, to_mem. rewrite of_wire_wire_bytes. change (2 ^ (8 * Z.of_nat 4)) with (2 ^ 32).
    assert (ntoh 4 (ntoh 4 n mod 2 ^ 32) = n) as ->; [|apply s32_small; lia].
    unfold ntoh. destruct CIM_BYTE_ORDER.
    + change (2 ^ 32) with (2 ^ (8 * Z.of_nat 4)).
      rewrite (Z.mod_small (byteswap 4 n)) by apply byteswap_range.
      rewrite byteswap_involutive. apply Z.mod_small. lia.
    + apply Z.mod_small. lia.
Qed.

(** The body of a valid message, decompressed and parsed. *)
Lemma decode_body_ok gzip_min m ba : valid_message m -> len (enc_message m) < 2 ^ 31 -> wf ba -> m_base_size ba = 4096 ->
  content ba = rock_body gzip_min m ->
  exists N, forall fuel, (N <= fuel)%nat -> decode_body fuel (rock_flag gzip_min m) ba = Ok (Some m).
Proof.
  intros V L W B C. destruct (rewind_ok ba W) as (b1 & E1 & W1 & P1 & C1 & U1 & B1 & _).
  unfold decode_body, rock_flag, rock_body in *. rewrite E1. cbn [rbind]. destruct (gzip_min <=? len (enc_message m)).
  - destruct (gzip_ok false b1 (enc_message m) W1 ltac:(lia) ltac:(by rewrite U1, C)) as (N & out & G & W2 & P2 & C2 & _); [lia|].
    exists N. intros fuel Hf. change (negb (Z.land 1 1 =? 0)) with true. cbv iota. rewrite (G fuel Hf). cbn [rbind].
    apply (parse_array m out []); [done|done|done|by rewrite app_nil_r].
  - exists 0%nat. intros fuel _. change (negb (Z.land 0 1 =? 0)) with false. cbv iota. cbn [rbind].
    apply (parse_array m b1 []); [done|done|done|by rewrite app_nil_r, C1].
Qed.

(** What is put behind the header. *)
Lemma encode_body_ok gzip_min m ba : wf ba -> m_position ba = 0 -> content ba = enc_message m ->
  m_base_size ba = 4096 -> len (enc_message m) < 2 ^ 31 -> len (rock_body gzip_min m) < 2 ^ 31 ->
  exists N out, wf out /\ m_position out = 0 /\ content out = rock_body gzip_min m /\ m_base_size out = 4096 /\
    forall fuel, (N <= fuel)%nat ->
    (if gzip_min <=? u32 (s32 (getDataSize ba)) then
       let! r := gzip fuel true ba in
       Ok match r with
          | gzip_write_failed => inl (-1)
          | gzip_flush_failed => inl (-2)
          | gzip_done ba => inr (ba, 1, s32 (getDataSize ba))
          end
     else Ok (inr (ba, 0, s32 (getDataSize ba)))) =
    Ok (inr (out, rock_flag gzip_min m, len (rock_body gzip_min m)) : Z + (ByteArray * Z * Z)).
Proof.
  intros W P C B L Lb. unfold getDataSize. pose proof (wf_content_length ba W) as D. rewrite C in D.
  pose proof (len_nonneg (enc_message m)). rewrite <- D, s32_small, u32_small by lia.
  unfold rock_body, rock_flag in *. destruct (gzip_min <=? len (enc_message m)).
  - destruct (gzip_ok true ba (enc_message m) W ltac:(lia)) as (N & out & G & W' & P' & C' & B');
      [unfold unread; by rewrite P, C|lia|].
    exists N, out. split_and!; try done. intros fuel Hf. rewrite (G fuel Hf). cbn [rbind].
    pose proof (wf_content_length out W') as D'. rewrite C' in D'. rewrite <- D', s32_small; [done|].
    pose proof (len_nonneg (compress (enc_message m))). lia.
  - exists 0%nat, ba. done.
Qed.
End arrays.

Section frames.
Context {host : Host} {heap : Heap} {S : Type} `{StreamLaws S} {Zs : Type} `{ZlibLaws Zs}.

Lemma rock_flag_byte gzip_min m : b2z (z2b (rock_flag gzip_min m)) = rock_flag gzip_min m.
Proof. unfold rock_flag. by destruct (_ <=? _). Qed.

(** The decoder up to the body. *)
Lemma parseFrom_header max s v flag n rest :
  stream_view s v -> sv_in v = RockMsgHeader flag (ntoh 4 n) ++ rest -> 0 <= n < max -> max <= 2 ^ 31 ->
  exists s', stream_view s' (mkSview rest (sv_out v) (sv_room v)) /\
    forall fuel, parseFrom fuel max s =
    catch_all None
      (let* (r, ba) := readFixSize_ba (new_ByteArray 4096) n in
       if r <=? 0 then sret None else fun s => (decode_body fuel (b2z (z2b flag)) ba, s)) s'.
Proof.
  intros V Ei Hn Hm. destruct (header_length flag n ltac:(lia)) as (L & T & N2 & N3 & E).
  destruct (readFixSize_ok 8 s v V) as (s' & E' & V'); [rewrite Ei, len_app, L; pose proof (len_nonneg rest); lia|lia|].
  assert (X : take (Z.to_nat 8) (sv_in v) = RockMsgHeader flag (ntoh 4 n)).
  { rewrite Ei. replace (Z.to_nat 8) with (length (RockMsgHeader flag (ntoh 4 n))) by (unfold len in L; lia).
    apply take_app_length. }
  exists s'. split.
  - unfold sv_recv in V'. rewrite Ei in V'.
    replace (Z.to_nat 8) with (length (RockMsgHeader flag (ntoh 4 n))) in V' by (unfold len in L; lia).
    by rewrite drop_app_length in V'.
  - intros fuel. unfold parseFrom, catch_all at 1. rewrite (sbind_ok _ _ _ _ _ E'). change (8 <=? 0) with false. cbv iota.
    rewrite X, T, N2, N3, E. rewrite bool_decide_eq_true_2 by done. change (b2z x01) with 1.
    cbn [negb]. change (negb (1 =? 1)) with false. cbv iota. rewrite u32_small, u64_small by lia.
    by replace (max <=? n) with false by lia.
Qed.

Lemma block_multiple n : 0 < n -> cap_after (new_ByteArray 4096) n = 4096 * ((n + 4095) / 4096).
Proof.
  intros Hn. unfold cap_after. cbn. replace (0 + n + 4096 - 1) with (n + 4095) by lia. apply Z.max_r.
  assert (1 <= (n + 4095) / 4096) by (apply Z.div_le_lower_bound; lia). lia.
Qed.

Lemma block_room n : 0 < n -> n < cap_after (new_ByteArray 4096) n <-> n mod 4096 <> 0.
Proof.
  intros Hn. rewrite block_multiple by done. pose proof (Z.div_mod n 4096 ltac:(lia)).
  pose proof (Z.mod_pos_bound n 4096 ltac:(lia)). destruct (Z.eq_dec (n mod 4096) 0) as [E|E].
  - replace (n + 4095) with (4095 + n / 4096 * 4096) by lia. rewrite Z.div_add, Z.div_small by lia. lia.
  - replace (n + 4095) with (n mod 4096 - 1 + (n / 4096 + 1) * 4096) by lia.
    rewrite Z.div_add, Z.div_small by lia. lia.
Qed.

Lemma filling_new : filling (new_ByteArray 4096).
Proof. split; [by apply wf_new|done]. Qed.


(** Reading a body into the fresh array of the decoder. *)
Lemma read_body s v body rest : stream_view s v -> sv_in v = body ++ rest -> 0 < len body < 2 ^ 31 ->
  len body mod 4096 <> 0 ->
  exists s' ba, readFixSize_ba (new_ByteArray 4096) (len body) s = (Ok (len body, ba), s') /\
    stream_view s' (mkSview rest (sv_out v) (sv_room v)) /\ wf ba /\ content ba = body /\ m_base_size ba = 4096.
Proof.
  intros V Ei Hn Hm. apply block_room in Hm; [|lia]. unfold readFixSize_ba. rewrite s64_small by lia.
  assert (Li : len body <= len (sv_in v)) by (rewrite Ei, len_app; pose proof (len_nonneg rest); lia).
  destruct (readFixSize_ba_loop_ok (Z.to_nat (len body)) (len body) (len body) (new_ByteArray 4096) s v V filling_new)
    as (s' & b' & E & V' & [W' _] & C' & _ & _ & B'); try (cbn; unfold room; cbn; lia).
  rewrite s32_small in E by lia. exists s', b'. unfold sv_recv in V'. rewrite Ei in V', C'.
  replace (Z.to_nat (len body)) with (length body) in V', C' by (unfold len; lia).
  rewrite drop_app_length in V'. rewrite take_app_length in C'. done.
Qed.

Lemma parseFrom_ok gzip_min max m s v rest : valid_message m -> len (enc_message m) < 2 ^ 31 ->
  stream_view s v -> sv_in v = rock_frame gzip_min m ++ rest ->
  0 < len (rock_body gzip_min m) < max -> max <= 2 ^ 31 -> len (rock_body gzip_min m) mod 4096 <> 0 ->
  exists s' N, stream_view s' (mkSview rest (sv_out v) (sv_room v)) /\
    forall fuel, (N <= fuel)%nat -> parseFrom fuel max s = (Ok (Some m), s').
Proof.
  intros Vm Lm V Ei Hn Hm Hb. unfold rock_frame in Ei. rewrite <- app_assoc in Ei.
  destruct (parseFrom_header max s v _ _ _ V Ei ltac:(lia) Hm) as (s1 & V1 & E1).
  destruct (read_body s1 _ _ rest V1 eq_refl ltac:(lia) Hb) as (s2 & ba & E2 & V2 & W & C & B).
  destruct (decode_body_ok gzip_min m ba Vm Lm W B C) as (N & D).
  exists s2, N. split; [exact V2|]. intros fuel Hf. rewrite E1. unfold catch_all.
  rewrite (sbind_ok _ _ _ _ _ E2). replace (len (rock_body gzip_min m) <=? 0) with false by lia.
  by rewrite rock_flag_byte, D.
Qed.

(** The same when the body fills its blocks: the cursor lands on the capacity. *)
Lemma parseFrom_crash max s v flag n rest : stream_view s v -> sv_in v = RockMsgHeader flag (ntoh 4 n) ++ rest ->
  0 < n < max -> max <= 2 ^ 31 -> n <= len rest -> n mod 4096 = 0 ->
  exists s', forall fuel, parseFrom fuel max s = (Crash null_deref, s').
Proof.
  intros V Ei Hn Hm Hr Hb. destruct (parseFrom_header max s v _ _ _ V Ei ltac:(lia) Hm) as (s1 & V1 & E1).
  pose proof (block_room n ltac:(lia)) as R. pose proof (block_multiple n ltac:(lia)) as M.
  destruct (readFixSize_ba_loop_crash (Z.to_nat n) n n (new_ByteArray 4096) s1 _ V1 filling_new) as (s' & E);
    try (cbn; unfold room; cbn; lia).
  - rewrite M. pose proof (Z.div_mod n 4096 ltac:(lia)).
    replace (n + 4095) with (4095 + n / 4096 * 4096) by lia. rewrite Z.div_add, Z.div_small by lia. cbn. lia.
  - exists s'. intros fuel. rewrite E1. unfold catch_all, readFixSize_ba, sbind. rewrite s64_small by lia. by rewrite E.
Qed.

(** A rewound array whose data do not fill its blocks is sent whole. *)
Lemma send_body ba s v : wf ba -> m_position ba = 0 -> m_base_size ba = 4096 -> stream_view s v ->
  len (content ba) mod 4096 <> 0 -> len (content ba) < 2 ^ 31 -> len (content ba) <= sv_room v ->
  exists s' b', writeFixSize_ba ba (getReadSize ba) s = (Ok (len (content ba), b'), s') /\
    stream_view s' (sv_send (content ba) v) /\ getDataSize b' = len (content ba).
Proof.
  intros W P B V Hm L R. pose proof (wf_content_length ba W) as D. pose proof (wf_unread_length ba W) as U.
  assert (Eu : unread ba = content ba) by (unfold unread; by rewrite P, drop_0). rewrite Eu in U.
  pose proof (len_nonneg (content ba)).
  assert (m_data_size ba < m_capacity ba) as Hc.
  { pose proof (wf_data_size ba W). destruct (Z.eq_dec (m_data_size ba) (m_capacity ba)) as [E|]; [|lia].
    rewrite (wf_capacity ba W) in E. pose proof (wf_Bn ba W) as [Hb _]. rewrite B in Hb.
    rewrite D, E, Nat2Z.inj_mul, Hb, Z.mod_mul in Hm by lia. done. }
  unfold writeFixSize_ba. rewrite <- U, s64_small by lia.
  destruct (writeFixSize_ba_loop_ok (Z.to_nat (len (content ba))) (len (content ba)) (len (content ba)) ba s v V W)
    as (s' & b' & E & V' & A); try (done || lia).
  rewrite s32_small in E by lia. rewrite Eu in V'. exists s', b'. split_and!; [done|done|].
  destruct A as (_ & _ & _ & A & _). unfold getDataSize. lia.
Qed.

Lemma serializeTo_ok gzip_min m s v : valid_message m -> len (enc_message m) < 2 ^ 31 ->
  stream_view s v -> len (rock_frame gzip_min m) <= sv_room v -> len (rock_frame gzip_min m) < 2 ^ 31 ->
  len (rock_body gzip_min m) mod 4096 <> 0 ->
  exists s' N, stream_view s' (sv_send (rock_frame gzip_min m) v) /\
    forall fuel, (N <= fuel)%nat -> serializeTo fuel gzip_min m s = (Ok (len (rock_frame gzip_min m)), s').
Proof.
  intros Vm Lm V R Lf Hb. unfold rock_frame in *. set (body := rock_body gzip_min m) in *.
  pose proof (len_nonneg body). pose proof (len_nonneg (enc_message m)).
  assert (body <> []) as Nb by (intros E; by rewrite E in Hb).
  rewrite len_app in R, Lf |- *.
  assert (L8 : len (RockMsgHeader (rock_flag gzip_min m) (ntoh 4 (len body))) = 8).
  { assert (length (to_mem 4 (ntoh 4 (len body))) = 4%nat) as L4 by apply length_wire_bytes.
    unfold len at 1. unfold RockMsgHeader. rewrite !length_app, L4. done. }
  rewrite L8 in *.
  destruct (toByteArray_ok m Vm ltac:(lia)) as (ba & E1 & W1 & C1 & B1).
  destruct (rewind_ok ba W1) as (b2 & E2 & W2 & P2 & C2 & U2 & B2 & D2).
  destruct (encode_body_ok gzip_min m b2 W2 P2) as (N & out & W3 & P3 & C3 & B3 & E3);
    [congruence|lia|lia|unfold body in *; lia|].
  destruct (writeFixSize_ok (RockMsgHeader (rock_flag gzip_min m) (ntoh 4 (len body))) s v V) as (s1 & E4 & V1); [lia|lia|].
  destruct (send_body out s1 _ W3 P3 B3 V1) as (s2 & b' & E5 & V2 & D5);
    try (rewrite C3; fold body; cbn [sv_send sv_room]; lia).
  exists s2, N. split.
  - rewrite C3 in V2. fold body in V2. unfold sv_send in *. cbn [sv_in sv_out sv_room] in V2 |- *.
    rewrite <- app_assoc in V2. rewrite len_app, L8. rewrite L8 in V2.
    by replace (sv_room v - (8 + len body)) with (sv_room v - 8 - len body) by lia.
  - intros fuel Hf. unfold serializeTo.
    erewrite (sbind_ok _ _ s) by (rewrite E1; cbn [rbind deref]; by rewrite E2).
    erewrite (sbind_ok _ _ s) by (cbv beta zeta; by rewrite (E3 fuel Hf)). fold body. cbv iota beta.
    rewrite (sbind_ok _ _ _ _ _ E4), L8. cbv iota. change (8 <=? 0) with false. cbv iota.
    rewrite (sbind_ok _ _ _ _ _ E5), C3, D5, C3. fold body.
    assert (0 < len body) by (unfold len; destruct body; [done|cbn; lia]).
    replace (len body <=? 0) with false by lia. unfold sret. by rewrite s32_small by lia.
Qed.
End frames.

(** ** Refused frames *)

Section rejects.
Context {host : Host} {heap : Heap} {S : Type} `{StreamLaws S} {Zs : Type} `{ZlibLaws Zs}.

Definition header_rejected (max : Z) (h : list byte) : Prop :=
  take 2 h <> s_rock_magic \/ nth 2 h x00 <> x01 \/ max <= u32 (s32 (ntoh 4 (of_mem (slice 4 4 h)))).

Lemma parseFrom_bad_header fuel max s v h rest : stream_view s v -> sv_in v = h ++ rest -> len h = 8 ->
  header_rejected max h ->
  exists s', parseFrom fuel max s = (Ok None, s') /\ stream_view s' (mkSview rest (sv_out v) (sv_room v)).
Proof.
  intros V Ei L R. destruct (readFixSize_ok 8 s v V) as (s' & E' & V');
    [rewrite Ei, len_app, L; pose proof (len_nonneg rest); lia|lia|].
  unfold sv_recv in V'. rewrite Ei in V', E'.
  replace (Z.to_nat 8) with (length h) in V', E' by (unfold len in L; lia).
  rewrite drop_app_length in V'. rewrite take_app_length in E'. exists s'. split; [|done].
  unfold parseFrom, catch_all. rewrite (sbind_ok _ _ _ _ _ E'). change (8 <=? 0) with false. cbv iota.
  destruct (bool_decide_reflect (take 2 h = s_rock_magic)) as [T|T]; [|done]. cbn [negb].
  destruct (Z.eqb_spec (b2z (nth 2 h x00)) 1) as [N|N]; [|done]. cbn [negb]. cbv zeta.
  destruct R as [R|[R|R]]; [done| |].
  - destruct R. by apply (inj b2z).
  - by replace (max <=? u32 (s32 (ntoh 4 (of_mem (slice 4 4 h))))) with true by lia.
Qed.

Lemma parseFrom_short_body fuel max s v flag n rest : stream_view s v ->
  sv_in v = RockMsgHeader flag (ntoh 4 n) ++ rest -> n = 0 \/ len rest < n -> 0 <= n < max -> max <= 2 ^ 31 ->
  exists s', parseFrom fuel max s = (Ok None, s').
Proof.
  intros V Ei R Hn Hm. destruct (parseFrom_header max s v _ _ _ V Ei Hn Hm) as (s1 & V1 & E1).
  rewrite E1. unfold catch_all, readFixSize_ba. rewrite s64_small by lia.
  destruct (Z.eq_dec n 0) as [->|N0]; [by exists s1|]. destruct R as [?|R]; [done|].
  pose proof (block_multiple n ltac:(lia)) as M. pose proof (Z.div_mod (n + 4095) 4096 ltac:(lia)) as D.
  pose proof (Z.mod_pos_bound (n + 4095) 4096 ltac:(lia)).
  destruct (readFixSize_ba_loop_short (Z.to_nat n) n n (new_ByteArray 4096) s1 _ V1 filling_new)
    as (r & s2 & b & F & E & V2); try (cbn; unfold room; cbn; lia).
  rewrite (sbind_ok _ _ _ _ _ E). unfold failed in F. replace (r <=? 0) with true by lia. by exists s2.
Qed.

(** A body that opens with a byte that names no class. *)
Lemma parseFrom_unknown fuel max s v t x rest : stream_view s v ->
  sv_in v = RockMsgHeader 0 (ntoh 4 (len (t :: x))) ++ (t :: x) ++ rest ->
  b2z t <> REQUEST -> b2z t <> RESPONSE -> b2z t <> NOTIFY ->
  len (t :: x) < max -> max <= 2 ^ 31 -> len (t :: x) mod 4096 <> 0 ->
  exists s', parseFrom fuel max s = (Ok None, s') /\ stream_view s' (mkSview rest (sv_out v) (sv_room v)).
Proof.
  intros V Ei T1 T2 T3 Hn Hm Hb. assert (0 < len (t :: x)) as L by (unfold len; cbn; lia).
  destruct (parseFrom_header max s v _ _ _ V Ei ltac:(lia) Hm) as (s1 & V1 & E1).
  destruct (read_body s1 _ _ rest V1 eq_refl ltac:(lia) Hb) as (s2 & ba & E2 & V2 & W & C & B).
  exists s2. split; [|exact V2]. rewrite E1. unfold catch_all. rewrite (sbind_ok _ _ _ _ _ E2).
  replace (len (t :: x) <=? 0) with false by lia. unfold decode_body.
  destruct (rewind_ok ba W) as (b1 & -> & W1 & P1 & C1 & _). cbn [rbind].
  change (negb (Z.land (b2z (z2b 0)) 1 =? 0)) with false. cbv iota. cbn [rbind].
  destruct (reads_u8 (B := ByteArray) t b1 _ x (ByteArray_view_of b1 W1)) as (b2 & E3 & _).
  { cbn. unfold unread. by rewrite P1, drop_0, C1, C. }
  unfold parse_message. rewrite (sbind_ok _ _ _ _ _ E3).
  replace (b2z t =? REQUEST) with false by lia. replace (b2z t =? RESPONSE) with false by lia.
  by replace (b2z t =? NOTIFY) with false by lia.
Qed.
End rejects.

(** * The theorems *)

(** in any buffer, [serializeToByteArray] of a request, response or notification
    whose fields fit their types appends its bytes and returns [true]; reading the
    type byte and parsing the class it selects gives the same message back and
    consumes those bytes only. *)
Theorem Rock_message_roundtrip {host : Host} {B : Type} `{BufferLaws B} (m : Message) (V : valid_message m) :
  (forall b v, buf_view b v -> len (v_before v) + len (enc_message m) <= v_limit v ->
     exists b', serializeToByteArray m b = (Ok true, b') /\ buf_view b' (view_write (enc_message m) v)) /\
  (forall b v r, buf_view b v -> v_rest v = enc_message m ++ r ->
     exists b', parse_message b = (Ok (Some m), b') /\
       buf_view b' (mkView (v_before v ++ enc_message m) r (v_endian v) (v_limit v))).
Proof. split; [exact (serialize_wrote m V)|exact (parse_reads m V)]. Qed.

(** C28: over any stream and any compression that keep their laws: a message within the
    limits of length whose body, as it is or compressed from [gzip_min] bytes on, is not a
    whole number of blocks of 4096 bytes is sent by [serializeTo] as one frame, whose length
    is returned, and [parseFrom] on that frame followed by anything returns the message and
    leaves what follows. When the body is a positive number of whole blocks the
    frame is a null dereference of the receiver. *)
Theorem Rock_roundtrip {host : Host} {heap : Heap} {S : Type} `{StreamLaws S} {Zs : Type} `{ZlibLaws Zs}
    (gzip_min max : Z) (m : Message) (s : S) (v : sview) (V : valid_message m) (Vs : stream_view s v)
    (Lm : len (enc_message m) < 2 ^ 31) (Lf : len (rock_frame gzip_min m) < 2 ^ 31)
    (Hm : len (rock_body gzip_min m) < max <= 2 ^ 31) :
  let whole_blocks := len (rock_body gzip_min m) mod 4096 = 0 in
  (~ whole_blocks -> len (rock_frame gzip_min m) <= sv_room v ->
     exists s' N, stream_view s' (sv_send (rock_frame gzip_min m) v) /\
       forall fuel, (N <= fuel)%nat -> serializeTo fuel gzip_min m s = (Ok (len (rock_frame gzip_min m)), s')) /\
  (forall rest, sv_in v = rock_frame gzip_min m ++ rest ->
     (~ whole_blocks -> exists s' N, stream_view s' (mkSview rest (sv_out v) (sv_room v)) /\
        forall fuel, (N <= fuel)%nat -> parseFrom fuel max s = (Ok (Some m), s')) /\
     (whole_blocks -> 0 < len (rock_body gzip_min m) ->
        exists s', forall fuel, parseFrom fuel max s = (Crash null_deref, s'))).
Proof.
  intros B. split; [intros Nb R; by apply serializeTo_ok|]. intros rest Ei.
  pose proof (len_nonneg (rock_body gzip_min m)). split.
  - intros Nb. apply (parseFrom_ok gzip_min); try done; [|lia]. split; [|lia].
    destruct (Z.eq_dec (len (rock_body gzip_min m)) 0) as [E|]; [|lia]. unfold B in Nb. by rewrite E in Nb.
  - intros Hb L. unfold rock_frame in Ei. rewrite <- app_assoc in Ei.
    eapply parseFrom_crash; [exact Vs|exact Ei|lia|lia| |exact Hb]. rewrite len_app. pose proof (len_nonneg rest). lia.
Qed.

(** a frame whose length is a positive multiple of the block size 4096 and whose
    body arrives crashes the receiver, whatever the body holds: the cursor is moved
    to the capacity of the array it was read into. *)
Theorem Rock_block_crash {host : Host} {heap : Heap} {S : Type} `{StreamLaws S} {Zs : Type} `{ZlibLaws Zs}
    (max flag n : Z) (s : S) (v : sview) (rest : list byte) (Vs : stream_view s v)
    (Ei : sv_in v = RockMsgHeader flag (ntoh 4 n) ++ rest) (Hn : 0 < n < max) (Hm : max <= 2 ^ 31)
    (Hr : n <= len rest) (Hb : n mod 4096 = 0) :
  exists s', forall fuel, parseFrom fuel max s = (Crash null_deref, s').
Proof. by apply (parseFrom_crash max s v flag n rest). Qed.

(** [parseFrom] returns the null pointer, never an exception, on a header with
    another magic, another version or too long a body (having consumed the header
    only), on a body that is empty or ends early, and on a type byte that names no
    class (having consumed the frame). *)
Theorem Rock_rejects {host : Host} {heap : Heap} {S : Type} `{StreamLaws S} {Zs : Type} `{ZlibLaws Zs}
    (fuel : nat) (max : Z) (s : S) (v : sview) (Vs : stream_view s v) (Hm : max <= 2 ^ 31) :
  (forall e s', parseFrom fuel max s <> (Throw e, s')) /\
  (len (sv_in v) < 8 -> exists s', parseFrom fuel max s = (Ok None, s')) /\
  (forall h rest, sv_in v = h ++ rest -> len h = 8 -> header_rejected max h ->
     exists s', parseFrom fuel max s = (Ok None, s') /\ stream_view s' (mkSview rest (sv_out v) (sv_room v))) /\
  (forall flag n rest, sv_in v = RockMsgHeader flag (ntoh 4 n) ++ rest -> n = 0 \/ len rest < n -> 0 <= n < max ->
     exists s', parseFrom fuel max s = (Ok None, s')) /\
  (forall t x rest, sv_in v = RockMsgHeader 0 (ntoh 4 (len (t :: x))) ++ (t :: x) ++ rest ->
     b2z t <> REQUEST -> b2z t <> RESPONSE -> b2z t <> NOTIFY -> len (t :: x) < max -> len (t :: x) mod 4096 <> 0 ->
     exists s', parseFrom fuel max s = (Ok None, s') /\ stream_view s' (mkSview rest (sv_out v) (sv_room v))).
Proof.
  split_and!.
  - intros e s'. unfold parseFrom, catch_all. by destruct (sbind _ _ s) as [[]].
  - intros L. destruct (readFixSize_short 8 s v Vs ltac:(lia)) as (r & s' & F & E & _). exists s'.
    unfold parseFrom, catch_all. rewrite (sbind_ok _ _ _ _ _ E). unfold failed in F.
    by replace (r <=? 0) with true by lia.
  - intros. by eapply parseFrom_bad_header.
  - intros. by eapply parseFrom_short_body.
  - intros. by eapply parseFrom_unknown.
Qed.

Section witnesses.
#[local] Existing Instance zero_heap.
#[local] Existing Instance x86_host.

Definition demo_message : Message := RockRequest (mkRequest 7 300) (bstr "hello").

Lemma demo_valid : valid_message demo_message.
Proof. repeat split; vm_compute; congruence. Qed.

Lemma Rock_message_roundtrip_witness : exists ba,
  serializeToByteArray demo_message (new_ByteArray 4) = (Ok true, ba).
Proof.
  destruct (Rock_message_roundtrip (B := ByteArray) demo_message demo_valid) as [R _].
  destruct (R (new_ByteArray 4) _ (ByteArray_view_of _ (wf_new 4 ltac:(lia))) ltac:(vm_compute; congruence))
    as (b' & E & _).
  exists b'. exact E.
Defined.

Definition demo_rock : SocketStream MemKernel := mem_stream (mkSview (rock_frame (Zs := unit) 4 demo_message ++ [x2a]) [] 100) 3.

(** Sent and received three bytes at a time, through the identity coding. *)
Lemma Rock_roundtrip_witness : exists s1 s2 N1 N2,
  serializeTo (Zs := unit) N1 4 demo_message demo_rock = (Ok 18, s1) /\
  parseFrom (Zs := unit) N2 1000 demo_rock = (Ok (Some demo_message), s2).
Proof.
  destruct (Rock_roundtrip (Zs := unit) 4 1000 demo_message demo_rock _ demo_valid (mem_stream_view _ _)
    ltac:(reflexivity) ltac:(reflexivity) ltac:(vm_compute; split; congruence)) as [R1 R2].
  destruct (R1 ltac:(vm_compute; congruence) ltac:(vm_compute; congruence)) as (s1 & N1 & _ & E1).
  destruct (R2 [x2a] eq_refl) as [R3 _]. destruct (R3 ltac:(vm_compute; congruence)) as (s2 & N2 & _ & E2).
  exists s1, s2, N1, N2. split; [exact (E1 N1 (le_n N1))|exact (E2 N2 (le_n N2))].
Defined.

Definition full_block : sview := mkSview (RockMsgHeader 0 (ntoh 4 4096) ++ replicate 4096 x00) [] 0.

Lemma Rock_block_crash_witness : exists s', forall fuel,
  parseFrom (Zs := unit) fuel 10000 (mem_stream full_block 4096) = (Crash null_deref, s').
Proof.
  exact (Rock_block_crash (Zs := unit) 10000 0 4096 (mem_stream full_block 4096) full_block (replicate 4096 x00)
    (mem_stream_view _ _) eq_refl ltac:(lia) ltac:(lia) ltac:(vm_compute; congruence) eq_refl).
Defined.

Definition bad_magic : sview := mkSview (bstr "GET / HTTP/1.1") [] 0.

Lemma Rock_rejects_witness : exists s',
  parseFrom (Zs := unit) 0 10000 (mem_stream bad_magic 5) = (Ok None, s').
Proof.
  destruct (Rock_rejects (Zs := unit) 0 10000 (mem_stream bad_magic 5) bad_magic (mem_stream_view _ _) ltac:(lia))
    as (_ & _ & R & _).
  destruct (R (bstr "GET / HT") (bstr "TP/1.1") eq_refl eq_refl ltac:(left; vm_compute; congruence)) as (s' & E & _).
  exists s'. exact E.
Defined.
End witnesses.
