(* ===== verification/Bitmap.v ===== *)
(** Bitmaps (include/ds/bitmap.hpp, src/ds/bitmap.cpp): fourteen bits to a 16-bit
    word, the two high bits of which tell runs from literals in the compressed form.

    [m_data] is the allocation, [None] the null pointer; it may be longer than the
    [m_dataSize] words in use. A 64-bit access reads or writes the four words it
    covers. [base_type] is [uint16_t], the default of [BITMAP_TYPE]. *)
From S2P Require Import Prelude Endian ByteArray Codec.

Definition VALUE_SIZE : Z := 14.
Definition COMPRESS_MASK : Z := 0x8000.
Definition VALUE_MASK : Z := 0x4000.
Definition COUNT_MASK : Z := 0x3FFF.
Definition NOT_VALUE_MASK : Z := 0xBFFF.
Definition U64_DIV_BASE : Z := 4.
Definition U64_VALUE_SIZE : Z := 56.

(** The tables of [Bitmap::init]. *)
Definition POS (i : Z) : Z := u16 (Z.shiftl 1 i).
Definition NPOS (i : Z) : Z := u16 (Z.lnot (POS i)).
Definition MASK (i : Z) : Z := u16 (POS i - 1).

(** A test of a word in a condition. *)
Definition nonzero (v : Z) : bool := negb (v =? 0).

Record Bitmap := mkBitmap {
  m_compress : bool;
  m_size : Z;
  m_dataSize : Z;
  m_data : option (list Z);
}.

Definition words (b : Bitmap) : list Z := default [] (m_data b).
Definition set_words (ws : list Z) (b : Bitmap) : Bitmap :=
  mkBitmap (m_compress b) (m_size b) (m_dataSize b) (Some ws).

(** [m_data[i]] read and written. *)
Definition word (ws : list Z) (i : Z) : res Z :=
  match ws !! Z.to_nat i with Some w => Ok w | None => Crash out_of_bounds end.
Definition put_word (ws : list Z) (i w : Z) : res (list Z) :=
  if i <? len ws then Ok (<[Z.to_nat i := w]> ws) else Crash out_of_bounds.

(** [n] words from [i] on, each replaced by a function of its index and value. *)
Fixpoint update_from (f : Z -> Z -> res Z) (n : nat) (i : Z) (ws : list Z) : res (list Z) :=
  match n with
  | O => Ok ws
  | S n =>
      let! x := word ws i in
      let! y := f i x in
      let! ws := put_word ws i y in
      update_from f n (i + 1) ws
  end.

(** [ceil(size * 1.0 / VALUE_SIZE)]: a [double] holds the quotient of a 32-bit size
    closely enough for [ceil] to be exact. *)
Definition words_for (size : Z) : Z := (size + 13) / 14.

(** ** Construction *)

(** [Bitmap(size, def)]; [memset] fills both bytes of a word. *)
Definition new_Bitmap (size def : Z) : Bitmap :=
  let n := words_for size in
  mkBitmap false size n (if n =? 0 then None else Some (replicate (Z.to_nat n) (def * 257))).

Definition empty_Bitmap : Bitmap := mkBitmap true 0 0 None.

(** The words in use. *)
Definition used (b : Bitmap) : res (list Z) :=
  if len (words b) <? m_dataSize b then Crash out_of_bounds
  else Ok (take (Z.to_nat (m_dataSize b)) (words b)).

(** The copy constructor and the assignment: the words in use are copied. *)
Definition copy_Bitmap (b : Bitmap) : res Bitmap :=
  let! ws := used b in Ok (mkBitmap (m_compress b) (m_size b) (m_dataSize b) (Some ws)).

Section serialization.
Context {host : Host} {heap : Heap} {B : Type} `{Buffer B}.

Definition bool_to_Z (b : bool) : Z := if b then 1 else 0.

(** The words as they lie in memory. *)
Definition words_mem (ws : list Z) : list byte := concat (map (to_mem 2) ws).

Fixpoint mem_words (n : nat) (x : list byte) : list Z :=
  match n with
  | O => []
  | S n => of_mem (take 2 x) :: mem_words n (drop 2 x)
  end.

Definition writeTo (b : Bitmap) : st B unit :=
  let* _ := writeFuint8 (bool_to_Z (m_compress b)) in
  let* _ := writeFuint32 (m_size b) in
  let* _ := writeFuint32 (m_dataSize b) in
  let* ws := spure (used b) in
  buf_write (words_mem ws).

(** [readFrom]: whether it succeeded, and the bitmap it left, whose fields are those
    read before a failure and whose words are then those of a fresh allocation. *)
Definition readFrom (b : Bitmap) : st B (bool * Bitmap) := fun s =>
  match readFuint8 s with
  | (Ok compress, s) =>
      let b := mkBitmap (nonzero compress) (m_size b) (m_dataSize b) (m_data b) in
      match readFuint32 s with
      | (Ok size, s) =>
          let b := mkBitmap (m_compress b) size (m_dataSize b) (m_data b) in
          match readFuint32 s with
          | (Ok dataSize, s) =>
              let n := Z.to_nat dataSize in
              let b := mkBitmap (m_compress b) size dataSize
                         (Some (mem_words n (map (fresh 0) (seq 0 (2 * n))))) in
              match buf_read (dataSize * 2) s with
              | (Ok x, s) => (Ok (true, set_words (mem_words n x) b), s)
              | (Throw _, s) => (Ok (false, b), s)
              | (Crash u, s) => (Crash u, s)
              end
          | (Throw _, s) => (Ok (false, b), s)
          | (Crash u, s) => (Crash u, s)
          end
      | (Throw _, s) => (Ok (false, b), s)
      | (Crash u, s) => (Crash u, s)
      end
  | (Throw _, s) => (Ok (false, b), s)
  | (Crash u, s) => (Crash u, s)
  end.
End serialization.

(** ** Bits and ranges *)

Definition get (idx : Z) (b : Bitmap) : res bool :=
  let! w := word (words b) (idx / VALUE_SIZE) in
  Ok (nonzero (Z.land w (POS (idx mod VALUE_SIZE)))).

Definition set (idx : Z) (v : bool) (b : Bitmap) : res Bitmap :=
  let cur := idx / VALUE_SIZE in
  let pos := idx mod VALUE_SIZE in
  let! w := word (words b) cur in
  let! ws := put_word (words b) cur (if v then Z.lor w (POS pos) else Z.land w (NPOS pos)) in
  Ok (set_words ws b).

(** [set(from, size, v)] and [get(from, size, v)] work on whole words. *)
Definition set_range (from size : Z) (v : bool) (ws : list Z) : res (list Z) :=
  if size =? 0 then Ok ws
  else
    let cur_from := from / VALUE_SIZE in
    let cur_to := u32 (from + size) / VALUE_SIZE in
    if negb (from mod VALUE_SIZE =? 0) then Crash assertion_failed
    else if negb (u32 (from + size) mod VALUE_SIZE =? 0) then Crash assertion_failed
    else update_from (fun _ _ => Ok (if v then COUNT_MASK else 0)) (Z.to_nat (cur_to - cur_from)) cur_from ws.

Fixpoint get_range_loop (n : nat) (i : Z) (v : bool) (ws : list Z) : res bool :=
  match n with
  | O => Ok false
  | S n =>
      let! w := word ws i in
      if eqb (nonzero (Z.land w COUNT_MASK)) v then Ok true else get_range_loop n (i + 1) v ws
  end.

Definition get_range (from size : Z) (v : bool) (ws : list Z) : res bool :=
  if size =? 0 then Ok false
  else
    let cur_from := from / VALUE_SIZE in
    let cur_to := u32 (from + size) / VALUE_SIZE in
    if negb (from mod VALUE_SIZE =? 0) then Crash assertion_failed
    else if negb (u32 (from + size) mod VALUE_SIZE =? 0) then Crash assertion_failed
    else get_range_loop (Z.to_nat (cur_to - cur_from)) cur_from v ws.

(** ** Compression *)

(** [__builtin_popcount] of the low [n] bits. *)
Fixpoint popcount (n : nat) (v : Z) : Z :=
  match n with
  | O => 0
  | S n => Z.land v 1 + popcount n (Z.shiftr v 1)
  end.

(** [data[dst_cur_pos++] = w] into [m_dataSize] words. *)
Definition emit (cap : Z) (out : list Z) (w : Z) : res (list Z) :=
  if len out <? cap then Ok (out ++ [w]) else Crash out_of_bounds.

(** [while (cur_count)]: the run's count in groups of fourteen bits, the low first. *)
Fixpoint run_chunks (fuel : nat) (cap : Z) (cur_value : bool) (cur_count : Z) (out : list Z) : res (list Z) :=
  if cur_count =? 0 then Ok out
  else match fuel with
       | O => Crash nontermination
       | S fuel =>
           let head := if cur_value then Z.lor COMPRESS_MASK VALUE_MASK else COMPRESS_MASK in
           let! out := emit cap out (Z.lor head (Z.land cur_count COUNT_MASK)) in
           run_chunks fuel cap cur_value (Z.shiftr cur_count VALUE_SIZE) out
       end.

(** The run so far, written out: a run of one word as that word. *)
Definition flush_run (cap : Z) (cur_value : bool) (cur_count : Z) (out : list Z) : res (list Z) :=
  if 1 <? cur_count / VALUE_SIZE then
    if negb (cur_count mod VALUE_SIZE =? 0) then Crash assertion_failed
    else run_chunks 5 cap cur_value cur_count out
  else if nonzero cur_count then emit cap out (if cur_value then COUNT_MASK else 0)
  else Ok out.

Fixpoint compress_loop (cap : Z) (ws : list Z) (cur_value : bool) (cur_count : Z) (out : list Z) : res (list Z) :=
  match ws with
  | [] => flush_run cap cur_value cur_count out
  | cur :: ws =>
      let c := popcount 14 (Z.land cur COUNT_MASK) in
      if (c =? 0) && negb cur_value || (c =? VALUE_SIZE) && cur_value
      then compress_loop cap ws cur_value (u64 (cur_count + VALUE_SIZE)) out
      else
        let! out := flush_run cap cur_value cur_count out in
        if (c =? 0) || (c =? VALUE_SIZE)
        then compress_loop cap ws (c =? VALUE_SIZE) VALUE_SIZE out
        else
          let! out := emit cap out cur in
          compress_loop cap ws cur_value 0 out
  end.

Definition compress (b : Bitmap) : res Bitmap :=
  if m_compress b then copy_Bitmap b
  else
    let! src := used b in
    let! out := compress_loop (m_dataSize b) src false 0 [] in
    Ok (mkBitmap true (m_size b) (len out) (Some out)).

(** The inner loop of every reader of the compressed form: the words of the same
    value behind a run's first word are the higher bits of its count. *)
Fixpoint merge_run (v : bool) (k count : Z) (ws : list Z) : res (Z * list Z) :=
  match ws with
  | w :: ws' =>
      if nonzero (Z.land w COMPRESS_MASK) && eqb v (nonzero (Z.land w VALUE_MASK)) then
        if 32 <=? VALUE_SIZE * k then Crash bad_shift
        else merge_run v (k + 1) (Z.lor (u32 (Z.shiftl (Z.land w COUNT_MASK) (VALUE_SIZE * k))) count) ws'
      else Ok (count, ws)
  | [] => Ok (count, [])
  end.

(** The outer loop: what to do with a run of [count] bits of value [v] at [cur_pos],
    and with a word of fourteen bits. *)
Fixpoint runs_loop (on_run : Z -> Z -> bool -> list Z -> res (list Z))
    (on_word : Z -> Z -> list Z -> res (list Z)) (fuel : nat) (src : list Z) (cur_pos : Z) (ws : list Z) : res (list Z) :=
  match src, fuel with
  | [], _ => Ok ws
  | _, O => Crash nontermination
  | cur :: src, S fuel =>
      if nonzero (Z.land cur COMPRESS_MASK) then
        let v := nonzero (Z.land cur VALUE_MASK) in
        let! (count, src) := merge_run v 1 (Z.land cur COUNT_MASK) src in
        let! ws := on_run cur_pos count v ws in
        runs_loop on_run on_word fuel src (u32 (cur_pos + count)) ws
      else
        let! ws := on_word cur_pos (Z.land cur COUNT_MASK) ws in
        runs_loop on_run on_word fuel src (u32 (cur_pos + VALUE_SIZE)) ws
  end.

Definition combine_word (f : Z -> Z -> Z) (cur_pos count : Z) (ws : list Z) : res (list Z) :=
  let! x := word ws (cur_pos / VALUE_SIZE) in
  put_word ws (cur_pos / VALUE_SIZE) (f x count).

Definition uncompress (b : Bitmap) : res Bitmap :=
  if negb (m_compress b) then copy_Bitmap b
  else
    let r := new_Bitmap (m_size b) 0 in
    let! src := used b in
    let! ws := runs_loop set_range (combine_word (fun _ count => count)) (length src) src 0 (words r) in
    Ok (set_words ws r).

(** ** Set operations *)

(** The plain case of [&=] and [|=]: by 64-bit words, then by words. *)
Definition combine_plain (f : Z -> Z -> Z) (a b : Bitmap) : res (list Z) :=
  let step i x := let! y := word (words b) i in Ok (f x y) in
  let n := U64_DIV_BASE * (m_size a / U64_VALUE_SIZE) in
  let! ws := update_from step (Z.to_nat n) 0 (words a) in
  update_from step (Z.to_nat (m_dataSize a - n)) n ws.

(** [operator&=] *)
Definition and_assign (a b : Bitmap) : res Bitmap :=
  if negb (m_size a =? m_size b) then Throw logic_error
  else if negb (m_compress a) && negb (m_compress b) then
    let! ws := combine_plain Z.land a b in Ok (set_words ws a)
  else if negb (eqb (m_compress a) (m_compress b)) then
    if m_compress a then Throw logic_error
    else
      let! src := used b in
      let! ws := runs_loop (fun pos count v ws => if negb v then set_range pos count false ws else Ok ws)
                   (combine_word Z.land) (length src) src 0 (words a) in
      Ok (set_words ws a)
  else Throw logic_error.

(** [operator|=] *)
Definition or_assign (a b : Bitmap) : res Bitmap :=
  if negb (m_size a =? m_size b) then Throw logic_error
  else if negb (m_compress a) && negb (m_compress b) then
    let! ws := combine_plain Z.lor a b in Ok (set_words ws a)
  else if negb (eqb (m_compress a) (m_compress b)) then
    if m_compress a then Throw logic_error
    else
      let! src := used b in
      let! ws := runs_loop (fun pos count v ws => if v then set_range pos count true ws else Ok ws)
                   (combine_word Z.lor) (length src) src 0 (words a) in
      Ok (set_words ws a)
  else Throw logic_error.

(** [operator~], which changes its operand. *)
Definition complement (b : Bitmap) : res Bitmap :=
  if negb (m_compress b) then
    let step (_ x : Z) := Ok (u16 (Z.lnot x)) in
    let n := U64_DIV_BASE * (m_size b / U64_VALUE_SIZE) in
    let! ws := update_from step (Z.to_nat n) 0 (words b) in
    let! ws := update_from step (Z.to_nat (m_dataSize b - n)) n ws in
    Ok (set_words ws b)
  else
    let step (_ cur : Z) :=
      Ok (if nonzero (Z.land cur COMPRESS_MASK) then
            if nonzero (Z.land cur VALUE_MASK) then Z.land cur NOT_VALUE_MASK else Z.lor cur VALUE_MASK
          else Z.land (Z.lnot cur) COUNT_MASK) in
    let! ws := update_from step (Z.to_nat (m_dataSize b)) 0 (words b) in
    Ok (set_words ws b).

(** [operator==] of two objects. *)
Definition equal (a b : Bitmap) : res bool :=
  if negb (eqb (m_compress a) (m_compress b)) || negb (m_size a =? m_size b) || negb (m_dataSize a =? m_dataSize b)
  then Ok false
  else
    let! x := used a in
    let! y := used b in
    if negb (bool_decide (x = y)) then Ok false
    else
      let left := m_size a mod VALUE_SIZE in
      if nonzero left then
        let! v := word (words a) (u32 (m_dataSize a - 1)) in
        let! w := word (words b) (u32 (m_dataSize b - 1)) in
        Ok (Z.land v (MASK left) =? Z.land w (MASK left))
      else Ok true.

(** [normalCross]: by 64-bit words, then by words. *)
Fixpoint cross_words (n : nat) (i : Z) (xs ys : list Z) : res bool :=
  match n with
  | O => Ok false
  | S n =>
      let! x := word xs i in
      let! y := word ys i in
      if nonzero (Z.land x y) then Ok true else cross_words n (i + 1) xs ys
  end.

Definition word64 (ws : list Z) (i : Z) : res (list Z) :=
  let! a := word ws (4 * i) in
  let! b := word ws (4 * i + 1) in
  let! c := word ws (4 * i + 2) in
  let! d := word ws (4 * i + 3) in
  Ok [a; b; c; d].

Fixpoint cross_blocks (n : nat) (i : Z) (xs ys : list Z) : res bool :=
  match n with
  | O => Ok false
  | S n =>
      let! x := word64 xs i in
      if existsb nonzero x then
        let! y := word64 ys i in
        if existsb nonzero (zip_with Z.land x y) then Ok true else cross_blocks n (i + 1) xs ys
      else cross_blocks n (i + 1) xs ys
  end.

Definition normalCross (a b : Bitmap) : res bool :=
  let max_size := m_size a / U64_VALUE_SIZE in
  let! r := cross_blocks (Z.to_nat max_size) 0 (words a) (words b) in
  if (r : bool) then Ok true
  else cross_words (Z.to_nat (m_dataSize a - U64_DIV_BASE * max_size)) (U64_DIV_BASE * max_size) (words a) (words b).

Fixpoint compressCross_loop (fuel : nat) (src : list Z) (cur_pos : Z) (ws : list Z) : res bool :=
  match src, fuel with
  | [], _ => Ok false
  | _, O => Crash nontermination
  | cur :: src, S fuel =>
      if nonzero (Z.land cur COMPRESS_MASK) then
        let v := nonzero (Z.land cur VALUE_MASK) in
        let! (count, src) := merge_run v 1 (Z.land cur COUNT_MASK) src in
        let! r := if v then get_range cur_pos count true ws else Ok false in
        if (r : bool) then Ok true else compressCross_loop fuel src (u32 (cur_pos + count)) ws
      else
        let! x := word ws (cur_pos / VALUE_SIZE) in
        if nonzero (Z.land x (Z.land cur COUNT_MASK)) then Ok true
        else compressCross_loop fuel src (u32 (cur_pos + VALUE_SIZE)) ws
  end.

Definition compressCross (a b : Bitmap) : res bool :=
  let! src := used b in compressCross_loop (length src) src 0 (words a).

Definition cross (a b : Bitmap) : res bool :=
  if negb (m_compress a) && m_compress b then compressCross a b
  else if negb (m_compress a) && negb (m_compress b) then normalCross a b
  else Ok false.

(** ** [any], [resize] and [getCount] *)

Fixpoint any_loop (n : nat) (i : Z) (ws : list Z) : res bool :=
  match n with
  | O => Ok false
  | S n => let! w := word ws i in if nonzero w then Ok true else any_loop n (i + 1) ws
  end.

(** The loop over a compressed bitmap copies each word into a [uint8_t] first. *)
Fixpoint any_compressed (src : list Z) : bool :=
  match src with
  | [] => false
  | w :: src =>
      let cur := u8 w in
      if nonzero (Z.land cur COMPRESS_MASK)
      then nonzero (Z.land cur VALUE_MASK) || any_compressed src
      else nonzero cur || any_compressed src
  end.

Definition any (b : Bitmap) : res bool :=
  match m_data b with
  | None => Ok false
  | Some ws =>
      if negb (m_compress b) then
        let last := u32 (m_dataSize b - 1) in
        let! r := any_loop (Z.to_nat last) 0 ws in
        if (r : bool) then Ok true
        else let! w := word ws last in Ok (nonzero (Z.land w (MASK (m_size b mod VALUE_SIZE))))
      else let! src := used b in Ok (any_compressed src)
  end.

Definition resize (size : Z) (v : bool) (b : Bitmap) : res Bitmap :=
  if m_compress b then Throw logic_error
  else
    let n := words_for size in
    if m_dataSize b <? n then
      let! old := used b in
      let data := old ++ replicate (Z.to_nat (n - m_dataSize b)) (if v then 0xFFFF else 0) in
      let left := m_size b mod VALUE_SIZE in
      let last := u32 (m_dataSize b - 1) in
      let! w := word data last in
      let! data := put_word data last (if v then Z.lor w (MASK left) else Z.land w (MASK left)) in
      Ok (mkBitmap false size n (Some data))
    else Ok (mkBitmap false size n (m_data b)).

(** ** Enumeration *)

Section foreach.
Context {A : Type} (size : Z) (cb : Z -> A -> bool * A).

(** The bits of one word: whether to go on, the position and the callback's state. *)
Fixpoint each_bit (n : nat) (x cur_pos tmp : Z) (a : A) : bool * Z * A :=
  match n with
  | O => (true, cur_pos, a)
  | S n =>
      if negb (cur_pos <? size) then (true, cur_pos, a)
      else if nonzero (Z.land tmp (POS x)) then
        let '(c, a) := cb cur_pos a in
        if c : bool then each_bit n (x + 1) (u32 (cur_pos + 1)) tmp a else (false, cur_pos, a)
      else each_bit n (x + 1) (u32 (cur_pos + 1)) tmp a
  end.

(** The words of a block that is not zero. *)
Fixpoint each_word (ws : list Z) (cur_pos : Z) (a : A) : bool * Z * A :=
  match ws with
  | [] => (true, cur_pos, a)
  | tmp :: ws =>
      let '(c, cur_pos, a) := each_bit 14 0 cur_pos tmp a in
      if c : bool then each_word ws cur_pos a else (false, cur_pos, a)
  end.

Fixpoint each_block (n : nat) (i : Z) (ws : list Z) (cur_pos : Z) (a : A) : res (bool * Z * A) :=
  match n with
  | O => Ok (true, cur_pos, a)
  | S n =>
      let! tmp := word64 ws i in
      if negb (existsb nonzero tmp) then each_block n (i + 1) ws (u32 (cur_pos + U64_VALUE_SIZE)) a
      else
        let '(c, cur_pos, a) := each_word tmp cur_pos a in
        if c : bool then each_block n (i + 1) ws cur_pos a else Ok (false, cur_pos, a)
  end.

(** The words behind the blocks. *)
Fixpoint each_rest (n : nat) (i : Z) (ws : list Z) (cur_pos : Z) (a : A) : res (bool * Z * A) :=
  match n with
  | O => Ok (true, cur_pos, a)
  | S n =>
      let! tmp := word ws i in
      if negb (nonzero tmp) then each_rest n (i + 1) ws (u32 (cur_pos + VALUE_SIZE)) a
      else
        let '(c, cur_pos, a) := each_bit 14 0 cur_pos tmp a in
        if c : bool then each_rest n (i + 1) ws cur_pos a else Ok (false, cur_pos, a)
  end.
End foreach.

Definition foreach {A} (cb : Z -> A -> bool * A) (b : Bitmap) (a : A) : res A :=
  let max_size := m_size b / U64_VALUE_SIZE in
  let! (c, cur_pos, a) := each_block (m_size b) cb (Z.to_nat max_size) 0 (words b) 0 a in
  if negb c then Ok a
  else
    let! (_, _, a) := each_rest (m_size b) cb (Z.to_nat (m_dataSize b - U64_DIV_BASE * max_size))
                        (U64_DIV_BASE * max_size) (words b) cur_pos a in
    Ok a.

(** [listPosAsc(pos)], the same loops with [push_back] for the callback. *)
Definition listPosAsc (b : Bitmap) (pos : list Z) : res (list Z) :=
  foreach (fun p pos => (true, pos ++ [p])) b pos.

(** [getCount()]: whole 64-bit words first, then bit by bit below [m_size]. *)
Fixpoint count_blocks (n : nat) (i : Z) (ws : list Z) (count : Z) : res Z :=
  match n with
  | O => Ok count
  | S n =>
      let! tmp := word64 ws i in
      count_blocks n (i + 1) ws (u32 (count + foldr (fun w c => popcount 16 w + c) 0 tmp))
  end.

Definition getCount (b : Bitmap) : res Z :=
  if negb (m_compress b) then
    let n := m_dataSize b / U64_DIV_BASE in
    let! count := count_blocks (Z.to_nat n) 0 (words b) 0 in
    let! (_, _, count) := each_rest (m_size b) (fun _ c => (true, u32 (c + 1)))
        (Z.to_nat (m_dataSize b - n * U64_DIV_BASE)) (n * U64_DIV_BASE) (words b) (u32 (n * U64_VALUE_SIZE)) count in
    Ok count
  else
    let! src := used b in
    Ok (foldl (fun count tmp =>
          if nonzero (Z.land tmp COMPRESS_MASK)
          then if nonzero (Z.land tmp VALUE_MASK) then u32 (count + Z.land tmp COUNT_MASK) else count
          else u32 (count + popcount 16 tmp)) 0 src).
