(* ===== verification/BitmapRuns.v ===== *)
(** The compressed form of bitmaps as a list of segments: what [compress] writes, and
    what every reader of it ([uncompress], [&=], [|=], [cross]) makes of it. *)
From S2P Require Import Prelude Endian ByteArray Codec Bitmap.

(** ** Words of fourteen bits *)

Definition clean (w : Z) : Prop := 0 <= w < 2 ^ 14.

Definition value (v : bool) : Z := if v then COUNT_MASK else 0.
Definition run_head (v : bool) : Z := if v then Z.lor COMPRESS_MASK VALUE_MASK else COMPRESS_MASK.

Lemma nonzero_true x : nonzero x = true <-> x <> 0.
Proof. unfold nonzero. rewrite negb_true_iff. apply Z.eqb_neq. Qed.

Lemma clean_mask w : clean w -> Z.land w COUNT_MASK = w.
Proof. intros W. change COUNT_MASK with (Z.ones 14). rewrite Z.land_ones by lia. apply Z.mod_small, W. Qed.

Lemma mask_mod w : Z.land w COUNT_MASK = w mod 2 ^ 14.
Proof. change COUNT_MASK with (Z.ones 14). apply Z.land_ones. lia. Qed.

Lemma mask_clean w : clean (Z.land w COUNT_MASK).
Proof. rewrite mask_mod. apply Z.mod_pos_bound. lia. Qed.

Lemma value_clean v : clean (value v).
Proof. by destruct v. Qed.

(** A clean word has no bit in a mask of high bits. *)
Lemma clean_high w M : clean w -> Z.land COUNT_MASK M = 0 -> Z.land w M = 0.
Proof. intros W E. by rewrite <- (clean_mask w W), <- Z.land_assoc, E, Z.land_0_r. Qed.

(** The two kinds of words of the compressed form. *)
Lemma literal_word w : clean w -> nonzero (Z.land w COMPRESS_MASK) = false.
Proof. intros W. by rewrite (clean_high w COMPRESS_MASK W). Qed.

Lemma run_word_ok v w : clean w -> let x := Z.lor (run_head v) w in
  nonzero (Z.land x COMPRESS_MASK) = true /\ nonzero (Z.land x VALUE_MASK) = v /\ Z.land x COUNT_MASK = w.
Proof.
  intros W x. unfold x. rewrite !Z.land_lor_distr_l, (clean_mask w W), !(clean_high w _ W) by done. by destruct v.
Qed.

(** Zero and full words are told by the number of their bits. *)
Lemma popcount_spec n : forall w, 0 <= w < 2 ^ Z.of_nat n ->
  0 <= popcount n w <= Z.of_nat n /\ (popcount n w = 0 <-> w = 0) /\ (popcount n w = Z.of_nat n <-> w = 2 ^ Z.of_nat n - 1).
Proof.
  induction n as [|n IH]; intros w Hw; [cbn in *; lia|]. rewrite Nat2Z.inj_succ, Z.pow_succ_r in * by lia.
  cbn [popcount]. assert (Z.land w 1 = w mod 2) as -> by (apply (Z.land_ones w 1); lia). rewrite Z.shiftr_div_pow2 by lia. change (2 ^ 1) with 2.
  pose proof (Z.div_mod w 2 ltac:(lia)) as D. pose proof (Z.mod_pos_bound w 2 ltac:(lia)) as M.
  destruct (IH (w / 2)) as (I1 & I2 & I3); [|lia]. split; [apply Z.div_pos; lia|apply Z.div_lt_upper_bound; lia].
Qed.

Lemma popcount_clean w : clean w -> (popcount 14 w =? 0) = (w =? 0) /\ (popcount 14 w =? VALUE_SIZE) = (w =? COUNT_MASK).
Proof.
  intros W. destruct (popcount_spec 14 w W) as (_ & P0 & P1).
  change (2 ^ Z.of_nat 14 - 1) with COUNT_MASK in P1. change (Z.of_nat 14) with VALUE_SIZE in P1. lia.
Qed.

(** ** Segments

    The compressed form is a list of segments: runs of [n] equal words, and words. *)
Inductive seg := SRun (v : bool) (n : Z) | SWord (w : Z).

Definition expand (s : seg) : list Z :=
  match s with SRun v n => replicate (Z.to_nat n) (value v) | SWord w => [w] end.
Definition expands (l : list seg) : list Z := concat (map expand l).

(** The groups of fourteen bits of a count. *)
Fixpoint chunks (fuel : nat) (v : bool) (c : Z) : list Z :=
  match fuel with
  | O => []
  | S fuel => if c =? 0 then [] else Z.lor (run_head v) (Z.land c COUNT_MASK) :: chunks fuel v (Z.shiftr c VALUE_SIZE)
  end.

Definition enc (s : seg) : list Z :=
  match s with SRun v n => chunks 5 v (14 * n) | SWord w => [w] end.
Definition encs (l : list seg) : list Z := concat (map enc l).

Definition seg_ok (s : seg) : Prop :=
  match s with SRun v n => 1 < n /\ 14 * n < 2 ^ 32 | SWord w => clean w end.

(** Two runs of the same value never touch. *)
Fixpoint alternating (l : list seg) : Prop :=
  match l with
  | SRun v _ :: ((SRun w _ :: _) as r) => v <> w /\ alternating r
  | _ :: r => alternating r
  | [] => True
  end.

Definition no_tail (v : bool) (l : list seg) : Prop := forall l' n, l <> l' ++ [SRun v n].

Lemma alternating_snoc l s : alternating l -> (forall v n, s = SRun v n -> no_tail v l) -> alternating (l ++ [s]).
Proof.
  induction l as [|x l IH]; intros A N; [by destruct s|].
  assert (N' : forall v n, s = SRun v n -> no_tail v l).
  { intros v n -> l' m ->. apply (N v n eq_refl (x :: l') m). done. }
  destruct x as [v n|w]; [|apply IH; done]. destruct l as [|[w m|w] l]; cbn [app alternating] in *.
  - destruct s as [w m|w]; [|done]. split; [|done]. intros <-. by apply (N v m eq_refl [] n).
  - destruct A. split; [done|]. by apply IH.
  - by apply IH.
Qed.

Lemma no_tail_word v l w : no_tail v (l ++ [SWord w]).
Proof. intros l' n E. apply app_inj_tail in E as [_ E]. done. Qed.

Lemma no_tail_other v l n : no_tail v (l ++ [SRun (negb v) n]).
Proof. intros l' m E. apply app_inj_tail in E as [_ E]. by destruct v. Qed.

Lemma length_chunks fuel v c : 0 <= c -> len (chunks fuel v c) <= c.
Proof.
  revert c. induction fuel as [|fuel IH]; intros c Hc; cbn [chunks]; [unfold len; cbn; lia|].
  destruct (Z.eqb_spec c 0) as [->|]; [unfold len; cbn; lia|].
  change VALUE_SIZE with 14. rewrite Z.shiftr_div_pow2 by lia.
  assert (c / 2 ^ 14 < c) by (apply Z.div_lt; lia). pose proof (Z.div_pos c (2 ^ 14) ltac:(lia) ltac:(lia)).
  specialize (IH (c / 2 ^ 14) ltac:(done)). unfold len in *. cbn [length]. lia.
Qed.

(** A run takes no more words than it stands for. *)
Lemma length_chunks_run v n : 1 < n -> len (chunks 5 v (14 * n)) <= n.
Proof.
  intros Hn. change (chunks 5 v (14 * n)) with
    (if 14 * n =? 0 then [] else Z.lor (run_head v) (Z.land (14 * n) COUNT_MASK) :: chunks 4 v (Z.shiftr (14 * n) VALUE_SIZE)).
  destruct (Z.eqb_spec (14 * n) 0); [lia|].
  change VALUE_SIZE with 14. rewrite Z.shiftr_div_pow2 by lia.
  pose proof (Z.div_pos (14 * n) (2 ^ 14) ltac:(lia) ltac:(lia)).
  pose proof (length_chunks 4 v (14 * n / 2 ^ 14) ltac:(lia)).
  assert (14 * n / 2 ^ 14 <= n / 2) by (apply Z.div_le_lower_bound; [lia|]; pose proof (Z.mul_div_le (14 * n) (2 ^ 14) ltac:(lia)); lia).
  pose proof (Z.mul_div_le n 2 ltac:(lia)). unfold len in *. cbn [length]. lia.
Qed.

Lemma length_encs l : Forall seg_ok l -> len (encs l) <= len (expands l).
Proof.
  intros F. induction F as [|s l S F IH]; [done|]. unfold encs, expands in *. cbn [map concat].
  unfold len in *. rewrite !length_app. destruct s as [v n|w]; cbn [enc expand seg_ok] in *; [|cbn [length] in *; lia].
  pose proof (length_chunks_run v n ltac:(lia)) as L. unfold len in L. rewrite length_replicate. lia.
Qed.

(** ** Reading segments *)

Definition starts_run (v : bool) (src : list Z) : Prop :=
  match src with
  | w :: _ => nonzero (Z.land w COMPRESS_MASK) = true /\ nonzero (Z.land w VALUE_MASK) = v
  | [] => False
  end.

Lemma merge_run_stop v k count src : ~ starts_run v src -> merge_run v k count src = Ok (count, src).
Proof.
  intros N. destruct src as [|w src]; [done|]. cbn [merge_run starts_run] in *.
  destruct (nonzero (Z.land w COMPRESS_MASK)); [|done]. destruct (eqb v _) eqn:E; [|done].
  apply eqb_prop in E. by destruct N.
Qed.

Lemma merge_run_chunks fuel : forall v k count c rest, ~ starts_run v rest -> 0 < k -> 0 <= c ->
  c < 2 ^ (14 * Z.of_nat fuel) -> 0 <= count < 2 ^ (14 * k) -> c * 2 ^ (14 * k) + count < 2 ^ 32 ->
  merge_run v k count (chunks fuel v c ++ rest) = Ok (c * 2 ^ (14 * k) + count, rest).
Proof.
  induction fuel as [|fuel IH]; intros v k count c rest N Hk Hc Hf Hn Hb.
  - replace c with 0 by lia. cbn [chunks app]. by rewrite (merge_run_stop v k count rest N).
  - cbn [chunks]. destruct (Z.eqb_spec c 0) as [->|C0]; [cbn [app]; by rewrite (merge_run_stop v k count rest N)|].
    cbn [app merge_run]. destruct (run_word_ok v _ (mask_clean c)) as (-> & E2 & ->). rewrite E2, eqb_reflx.
    cbn [andb]. change VALUE_SIZE with 14. assert (0 < 2 ^ (14 * k)) as P by (apply Z.pow_pos_nonneg; lia).
    assert (14 * k < 32) as K.
    { apply (Z.pow_lt_mono_r_iff 2); [lia|lia|]. nia. }
    replace (32 <=? 14 * k) with false by lia.
    rewrite mask_mod, Z.shiftl_mul_pow2, Z.shiftr_div_pow2 by lia.
    pose proof (Z.div_mod c (2 ^ 14) ltac:(lia)) as D. pose proof (Z.mod_pos_bound c (2 ^ 14) ltac:(lia)) as M.
    pose proof (Z.div_pos c (2 ^ 14) ltac:(lia) ltac:(lia)) as Q.
    assert (2 ^ (14 * (k + 1)) = 2 ^ 14 * 2 ^ (14 * k)) as PK by (rewrite <- Z.pow_add_r by lia; f_equal; lia).
    set (p := 2 ^ (14 * k)) in *.
    assert (c mod 2 ^ 14 * p <= c * p) by (apply Z.mul_le_mono_nonneg_r; lia).
    assert (0 <= c mod 2 ^ 14 * p) by (apply Z.mul_nonneg_nonneg; lia).
    rewrite u32_small by lia.
    replace (Z.lor (c mod 2 ^ 14 * p) count) with (c mod 2 ^ 14 * p + count).
    2:{ rewrite Z.lor_comm. unfold p. rewrite <- Z.shiftl_mul_pow2, lor_shiftl_add by (fold p; lia).
        rewrite Z.shiftl_mul_pow2 by lia. fold p. lia. }
    rewrite IH; try done; try lia.
    + rewrite PK. f_equal. f_equal. rewrite D at 3. ring.
    + apply Z.div_lt_upper_bound; [lia|]. rewrite <- Z.pow_add_r by lia.
      by replace (14 + 14 * Z.of_nat fuel) with (14 * Z.of_nat (S fuel)) by lia.
    + rewrite PK. assert ((c mod 2 ^ 14 + 1) * p <= 2 ^ 14 * p) by (apply Z.mul_le_mono_nonneg_r; lia). lia.
Qed.

Lemma starts_run_encs v l : Forall seg_ok l ->
  (match l with SRun w _ :: _ => w <> v | _ => True end) -> ~ starts_run v (encs l).
Proof.
  intros F A. destruct l as [|[w n|w] l]; [by intros []| |]; apply Forall_cons_iff in F as [S F]; cbn [seg_ok] in S.
  - intros St. apply A. unfold encs in St. cbn [map concat enc chunks] in St.
    destruct (Z.eqb_spec (14 * n) 0); [lia|]. cbn [app starts_run] in St. destruct St as [_ St].
    by destruct (run_word_ok w _ (mask_clean (14 * n))) as (_ & <- & _).
  - cbn. rewrite (literal_word w S). by intros [].
Qed.

Section fold.
Context (on_run : Z -> Z -> bool -> list Z -> res (list Z)) (on_word : Z -> Z -> list Z -> res (list Z)).

(** What [runs_loop] makes of a list of segments. *)
Fixpoint seg_fold (l : list seg) (pos : Z) (ws : list Z) : res (list Z) :=
  match l with
  | [] => Ok ws
  | SRun v n :: l => let! ws := on_run pos (14 * n) v ws in seg_fold l (u32 (pos + 14 * n)) ws
  | SWord w :: l => let! ws := on_word pos w ws in seg_fold l (u32 (pos + 14)) ws
  end.

Lemma enc_run_split v n : 1 < n -> 14 * n < 2 ^ 32 ->
  enc (SRun v n) = Z.lor (run_head v) (Z.land (14 * n) COUNT_MASK) :: chunks 4 v (14 * n / 2 ^ 14).
Proof.
  intros H1 H2. cbn [enc]. change (chunks 5 v (14 * n)) with
    (if 14 * n =? 0 then [] else Z.lor (run_head v) (Z.land (14 * n) COUNT_MASK) :: chunks 4 v (Z.shiftr (14 * n) VALUE_SIZE)).
  destruct (Z.eqb_spec (14 * n) 0); [lia|]. change VALUE_SIZE with 14. by rewrite Z.shiftr_div_pow2 by lia.
Qed.

Lemma merge_run_tail v n rest : 1 < n -> 14 * n < 2 ^ 32 -> ~ starts_run v rest ->
  merge_run v 1 (Z.land (14 * n) COUNT_MASK) (chunks 4 v (14 * n / 2 ^ 14) ++ rest) = Ok (14 * n, rest).
Proof.
  intros H1 H2 N. pose proof (Z.div_mod (14 * n) (2 ^ 14) ltac:(lia)) as D.
  pose proof (Z.mod_pos_bound (14 * n) (2 ^ 14) ltac:(lia)) as M.
  rewrite mask_mod, merge_run_chunks; try done; try lia. f_equal. f_equal. lia.
Qed.

Lemma runs_loop_segs l : forall fuel pos ws, Forall seg_ok l -> alternating l -> (length (encs l) <= fuel)%nat ->
  runs_loop on_run on_word fuel (encs l) pos ws = seg_fold l pos ws.
Proof.
  induction l as [|s l IH]; intros fuel pos ws F A Hf; [by destruct fuel|].
  apply Forall_cons_iff in F as [S F]. unfold encs in *. cbn [map concat] in *. fold (encs l) in *.
  destruct s as [v n|w]; cbn [seg_ok] in S.
  - rewrite enc_run_split in * by lia. cbn [app length] in *. destruct fuel as [|fuel]; [lia|]. cbn [runs_loop seg_fold].
    destruct (run_word_ok v _ (mask_clean (14 * n))) as (-> & -> & ->).
    assert (N : ~ starts_run v (encs l)).
    { apply starts_run_encs; [done|]. destruct l as [|[w m|w] l]; try done. destruct A as [A _]. congruence. }
    rewrite merge_run_tail by (done || lia). cbn [rbind]. destruct (on_run pos (14 * n) v ws); [|done|done]. cbn [rbind].
    apply IH; [done| |rewrite length_app in Hf; lia]. destruct l as [|[] l]; [done|by destruct A|done].
  - cbn [enc app length] in *. destruct fuel as [|fuel]; [lia|]. cbn [runs_loop seg_fold].
    rewrite (literal_word w S), (clean_mask w S). destruct (on_word pos w ws); [|done|done]. cbn [rbind].
    change VALUE_SIZE with 14. apply IH; [done|by destruct l|lia].
Qed.
End fold.

(** ** Overlays

    [ys] combined with the words from [p] on. *)
Section overlay.
Context (g : Z -> Z -> Z).

Fixpoint overlay (p : nat) (ws ys : list Z) {struct ws} : list Z :=
  match ws with
  | [] => []
  | x :: ws =>
      match p with
      | S p => x :: overlay p ws ys
      | O => match ys with [] => x :: ws | y :: ys => g x y :: overlay O ws ys end
      end
  end.

Lemma overlay_nil p ws : overlay p ws [] = ws.
Proof. revert p. induction ws as [|x ws IH]; intros [|p]; cbn [overlay]; by rewrite ?IH. Qed.

Lemma overlay_0_nil ws : overlay 0 ws [] = ws.
Proof. by destruct ws. Qed.

Lemma length_overlay ws : forall p ys, length (overlay p ws ys) = length ws.
Proof. induction ws as [|x ws IH]; intros [|p] [|y ys]; cbn [overlay length]; by rewrite ?IH. Qed.

Lemma overlay_app ws : forall p ys zs, overlay (p + length ys) (overlay p ws ys) zs = overlay p ws (ys ++ zs).
Proof.
  induction ws as [|x ws IH]; intros [|p] [|y ys] zs; try done; cbn [overlay Nat.add length app].
  - f_equal. apply (IH 0%nat ys zs).
  - f_equal. rewrite overlay_nil, Nat.add_0_r. done.
  - f_equal. apply (IH p (y :: ys) zs).
Qed.

Lemma overlay_whole ws : forall ys, length ys = length ws -> overlay 0 ws ys = zip_with g ws ys.
Proof. induction ws as [|x ws IH]; intros [|y ys] L; try done. cbn in *. f_equal. apply IH. lia. Qed.

Lemma overlay_one p ws x y : ws !! p = Some x -> overlay p ws [y] = <[p := g x y]> ws.
Proof.
  revert p. induction ws as [|w ws IH]; intros [|p] E; try done; cbn in *.
  - injection E as ->. by rewrite overlay_0_nil.
  - f_equal. by apply IH.
Qed.

Lemma overlay_skip p ws ys : (forall x y, x ∈ ws -> y ∈ ys -> g x y = x) -> overlay p ws ys = ws.
Proof.
  revert p ys. induction ws as [|x ws IH]; intros [|p] [|y ys] E; try done; cbn [overlay]; f_equal.
  - apply E; left.
  - apply IH. intros. apply E; by right.
  - apply IH. intros a b A. inversion 1.
  - apply IH. intros. apply E; [by right|done].
Qed.

Lemma overlay_take p n ws ys : (p + length ys <= n)%nat -> take n (overlay p ws ys) = overlay p (take n ws) ys.
Proof.
  revert p n ys. induction ws as [|x ws IH]; intros [|p] [|n] [|y ys] L; try done; cbn in *; try lia.
  - by rewrite IH by (cbn; lia).
  - by rewrite IH by (cbn; lia).
  - by rewrite IH by (cbn; lia).
Qed.
End overlay.

Lemma len_nat {A} (l : list A) : len l = Z.of_nat (length l).
Proof. done. Qed.

Lemma word_ok ws i x : ws !! Z.to_nat i = Some x -> word ws i = Ok x.
Proof. intros E. unfold word. by rewrite E. Qed.

Lemma put_word_ok ws i x : 0 <= i < len ws -> put_word ws i x = Ok (<[Z.to_nat i := x]> ws).
Proof. intros L. unfold put_word. by replace (i <? len ws) with true by lia. Qed.

(** A loop over [n] words, each combined with one of [ys]. *)
Lemma update_from_overlay f g ys : forall i ws, 0 <= i -> i + len ys <= len ws ->
  (forall k x y, (k < length ys)%nat -> ws !! (Z.to_nat i + k)%nat = Some x -> ys !! k = Some y ->
    f (i + Z.of_nat k) x = Ok (g x y)) ->
  update_from f (length ys) i ws = Ok (overlay g (Z.to_nat i) ws ys).
Proof.
  induction ys as [|y ys IH]; intros i ws Hi L F; [by rewrite overlay_nil|].
  unfold len in L. cbn [length] in *. destruct (lookup_lt_is_Some_2 ws (Z.to_nat i)) as [x E]; [lia|].
  cbn [update_from]. rewrite (word_ok _ _ _ E). cbn [rbind].
  assert (E0 : f i x = Ok (g x y)).
  { rewrite <- (F 0%nat x y); [f_equal; lia|lia|by rewrite Nat.add_0_r|done]. }
  rewrite E0. cbn [rbind].
  rewrite put_word_ok by (unfold len; lia). cbn [rbind]. rewrite <- (overlay_one g _ _ _ _ E).
  rewrite IH; [|lia|unfold len; rewrite length_overlay; lia|].
  - f_equal. replace (Z.to_nat (i + 1)) with (Z.to_nat i + length [y])%nat by (cbn; lia).
    by rewrite overlay_app.
  - intros k a b Hk Ea Eb. rewrite (overlay_one g _ _ x y E), list_lookup_insert_ne in Ea by lia.
    replace (i + 1 + Z.of_nat k) with (i + Z.of_nat (S k)) by lia. apply F; [lia| |done].
    by replace (Z.to_nat i + S k)%nat with (Z.to_nat (i + 1) + k)%nat by lia.
Qed.

Definition all_clean (ws : list Z) : Prop := Forall clean ws.

Lemma zip_clean g ws : (forall x y, clean x -> clean y -> clean (g x y)) -> all_clean ws ->
  forall p ys, all_clean ys -> all_clean (overlay g p ws ys).
Proof.
  unfold all_clean. intros G W. induction W as [|x ws X W IH]; intros p ys Y; [constructor|].
  destruct p as [|p]; cbn [overlay]; [|by constructor; [|apply IH]].
  destruct Y as [|y ys Cy Y]; [by constructor|]. constructor; [by apply G|by apply IH].
Qed.

Lemma one_clean w : clean w -> all_clean [w].
Proof. intros W. apply Forall_cons_iff. split; [done|constructor]. Qed.

Lemma one_ok s : seg_ok s -> Forall seg_ok [s].
Proof. intros W. apply Forall_cons_iff. split; [done|constructor]. Qed.

Lemma replicate_clean n v : all_clean (replicate n (value v)).
Proof. apply Forall_replicate, value_clean. Qed.

Lemma expands_clean l : Forall seg_ok l -> all_clean (expands l).
Proof.
  intros F. unfold expands, all_clean. induction F as [|s l S F IH]; [constructor|]. cbn [map concat].
  apply Forall_app_2; [|done]. destruct s as [v n|w]; cbn [expand]; [apply replicate_clean|by apply one_clean].
Qed.

Lemma set_range_ok p n v ws : 0 < n -> Z.of_nat p + n <= len ws -> 14 * len ws < 2 ^ 32 ->
  set_range (14 * Z.of_nat p) (14 * n) v ws = Ok (overlay (fun _ y => y) p ws (replicate (Z.to_nat n) (value v))).
Proof.
  intros Hn L B. unfold set_range. replace (14 * n =? 0) with false by lia. change VALUE_SIZE with 14.
  rewrite u32_small by lia. replace (14 * Z.of_nat p + 14 * n) with ((Z.of_nat p + n) * 14) by lia.
  rewrite Z.mod_mul, (Z.mul_comm 14), Z.mod_mul, !Z.div_mul by lia. cbn [negb Z.eqb].
  replace (Z.of_nat p + n - Z.of_nat p) with n by lia.
  rewrite <- (length_replicate (Z.to_nat n) (value v)) at 1.
  rewrite (update_from_overlay _ (fun _ y => y)); [by rewrite Nat2Z.id|lia|rewrite (len_nat (replicate _ _)), length_replicate; lia|].
  intros k x y Hk _ E. apply lookup_replicate in E as [-> _]. done.
Qed.

Lemma combine_word_ok f p w ws : Z.of_nat p < len ws ->
  combine_word f (14 * Z.of_nat p) w ws = Ok (overlay f p ws [w]).
Proof.
  intros L. unfold combine_word. change VALUE_SIZE with 14. rewrite (Z.mul_comm 14), Z.div_mul by lia.
  destruct (lookup_lt_is_Some_2 ws p) as [x E]; [unfold len in L; lia|].
  rewrite (word_ok _ _ x) by (by rewrite Nat2Z.id). cbn [rbind]. rewrite put_word_ok by lia.
  by rewrite Nat2Z.id, (overlay_one f _ _ x).
Qed.

Section reading.
Context (g : Z -> Z -> Z) (on_run : Z -> Z -> bool -> list Z -> res (list Z)).
Context (G : forall x y, clean x -> clean y -> clean (g x y)).
Context (R : forall p n v ws, all_clean ws -> 0 < n -> Z.of_nat p + n <= len ws -> 14 * len ws < 2 ^ 32 ->
  on_run (14 * Z.of_nat p) (14 * n) v ws = Ok (overlay g p ws (replicate (Z.to_nat n) (value v)))).

Lemma seg_fold_overlay l : forall p ws, all_clean ws -> Forall seg_ok l ->
  Z.of_nat p + len (expands l) <= len ws -> 14 * len ws < 2 ^ 32 - 14 ->
  seg_fold on_run (combine_word g) l (14 * Z.of_nat p) ws = Ok (overlay g p ws (expands l)).
Proof.
  induction l as [|s l IH]; intros p ws W F L B; [by rewrite overlay_nil|].
  apply Forall_cons_iff in F as [S F]. unfold expands in *. cbn [map concat] in *. fold (expands l) in *.
  rewrite len_nat, length_app in L. destruct s as [v n|w]; cbn [seg_fold expand seg_ok] in *.
  - rewrite length_replicate in L. rewrite R by (done || lia). cbn [rbind]. rewrite u32_small by lia.
    replace (14 * Z.of_nat p + 14 * n) with (14 * Z.of_nat (p + length (replicate (Z.to_nat n) (value v))))
      by (rewrite length_replicate; lia).
    rewrite IH; [by rewrite overlay_app|apply zip_clean; [done|done|apply replicate_clean]|done| |];
      rewrite (len_nat (overlay _ _ _ _)), length_overlay, ?length_replicate; unfold len in *; lia.
  - cbn [length] in L. rewrite combine_word_ok by lia. cbn [rbind]. rewrite u32_small by lia.
    replace (14 * Z.of_nat p + 14) with (14 * Z.of_nat (p + length [w])) by (cbn; lia).
    rewrite IH; [by rewrite overlay_app|apply zip_clean; [done|done|by apply one_clean]|done| |];
      rewrite (len_nat (overlay _ _ _ _)), length_overlay; cbn; unfold len in *; lia.
Qed.

(** Every reader of the compressed form of [xs] that starts at the first word. *)
Lemma runs_loop_overlay l ws : Forall seg_ok l -> alternating l -> all_clean ws ->
  len (expands l) <= len ws -> 14 * len ws < 2 ^ 32 - 14 ->
  runs_loop on_run (combine_word g) (length (encs l)) (encs l) 0 ws = Ok (overlay g 0 ws (expands l)).
Proof. intros F A W L B. rewrite runs_loop_segs by done. apply (seg_fold_overlay l 0 ws); [done..|lia|done]. Qed.
End reading.

(** ** Writing segments *)

Definition flushed (v : bool) (n : Z) : list seg :=
  if n =? 0 then [] else if n =? 1 then [SWord (value v)] else [SRun v n].

Lemma run_chunks_ok cap v fuel : forall c out, 0 <= c < 2 ^ (14 * Z.of_nat fuel) ->
  len out + len (chunks fuel v c) <= cap -> run_chunks fuel cap v c out = Ok (out ++ chunks fuel v c).
Proof.
  induction fuel as [|fuel IH]; intros c out Hc L.
  - replace c with 0 by (cbn in Hc; lia). cbn. by rewrite app_nil_r.
  - cbn [run_chunks chunks] in *. destruct (Z.eqb_spec c 0) as [->|N]; [by rewrite app_nil_r|].
    unfold len in L. cbn [length] in L. fold (run_head v). unfold emit, len.
    replace (Z.of_nat (length out) <? cap) with true by lia. cbn [rbind].
    rewrite IH; [by rewrite <- app_assoc|split|unfold len; rewrite length_app; cbn; lia].
    + apply Z.shiftr_nonneg; lia.
    + change VALUE_SIZE with 14. rewrite Z.shiftr_div_pow2 by lia. apply Z.div_lt_upper_bound; [lia|].
      rewrite <- Z.pow_add_r by lia. replace (14 + 14 * Z.of_nat fuel) with (14 * Z.of_nat (S fuel)) by lia. apply Hc.
Qed.

Lemma flush_run_ok cap v n out : 0 <= n -> 14 * n < 2 ^ 32 -> len out + len (encs (flushed v n)) <= cap ->
  flush_run cap v (14 * n) out = Ok (out ++ encs (flushed v n)).
Proof.
  intros Hn Hb L. unfold flush_run, flushed in *. change VALUE_SIZE with 14. rewrite (Z.mul_comm 14), Z.div_mul, Z.mod_mul by lia.
  destruct (Z.eqb_spec n 0) as [->|N0]; [cbn; by rewrite app_nil_r|].
  destruct (Z.eqb_spec n 1) as [->|N1].
  - change (1 <? 1) with false. change (nonzero (1 * 14)) with true. cbv iota. unfold emit.
    replace (len out <? cap) with true by (unfold len, encs in *; cbn in L; lia). done.
  - replace (1 <? n) with true by lia. cbn [negb Z.eqb]. unfold encs in *. cbn [map concat enc] in *.
    rewrite app_nil_r in *. rewrite (Z.mul_comm n). apply run_chunks_ok; [|done]. lia.
Qed.

Lemma flushed_ok v n : 0 <= n -> 14 * n < 2 ^ 32 -> Forall seg_ok (flushed v n) /\
  expands (flushed v n) = replicate (Z.to_nat n) (value v).
Proof.
  intros Hn Hb. unfold flushed, expands. destruct (Z.eqb_spec n 0) as [->|]; [by split|].
  destruct (Z.eqb_spec n 1) as [->|]; [split; [apply one_ok, value_clean|done]|].
  split; [apply one_ok; cbn; lia|]. cbn. apply app_nil_r.
Qed.

Lemma encs_app l k : encs (l ++ k) = encs l ++ encs k.
Proof. unfold encs. by rewrite map_app, concat_app. Qed.
Lemma expands_app l k : expands (l ++ k) = expands l ++ expands k.
Proof. unfold expands. by rewrite map_app, concat_app. Qed.

Lemma alternating_flushed v n l : alternating l -> no_tail v l -> alternating (l ++ flushed v n).
Proof.
  intros A N. unfold flushed. destruct (n =? 0); [by rewrite app_nil_r|]. destruct (n =? 1); apply alternating_snoc; try done.
  intros w m E. by injection E as -> ->.
Qed.

Lemma no_tail_flushed v n l : no_tail (negb v) l \/ n <> 0 -> no_tail (negb v) (l ++ flushed v n).
Proof.
  intros N. unfold flushed. destruct (Z.eqb_spec n 0) as [->|N0]; [rewrite app_nil_r; by destruct N|].
  destruct (n =? 1); [apply no_tail_word|]. rewrite <- (negb_involutive v) at 2. apply no_tail_other.
Qed.

(** The state of the loop: the segments written, and [n] words of value [v] held back. *)
Lemma compress_loop_ok cap ws : forall v n l, all_clean ws -> 0 <= n ->
  Forall seg_ok l -> alternating l -> no_tail v l -> (n = 0 -> no_tail (negb v) l) ->
  len (expands l) + n + len ws <= cap -> 14 * cap < 2 ^ 32 ->
  exists l', compress_loop cap ws v (14 * n) (encs l) = Ok (encs l') /\ Forall seg_ok l' /\ alternating l' /\
    expands l' = expands l ++ replicate (Z.to_nat n) (value v) ++ ws.
Proof.
  induction ws as [|w ws IH]; intros v n l W Hn F A N N0 L B; cbn [compress_loop].
  all: pose proof (length_encs l F) as Le.
  all: assert (len (expands l) + n <= cap /\ 0 <= len (expands l)) as [Lc Lp] by (unfold len in *; cbn in *; lia).
  all: destruct (flushed_ok v n Hn ltac:(lia)) as [Ff Ef].
  all: assert (Fl : flush_run cap v (14 * n) (encs l) = Ok (encs (l ++ flushed v n)))
         by (rewrite encs_app; apply flush_run_ok; [done|lia|]; pose proof (length_encs _ Ff) as Lf; rewrite Ef in Lf;
             unfold len in *; rewrite length_replicate in Lf; lia).
  all: assert (Fa : Forall seg_ok (l ++ flushed v n)) by (by apply Forall_app_2).
  all: pose proof (alternating_flushed v n l A N) as Af.
  all: assert (Ex : expands (l ++ flushed v n) = expands l ++ replicate (Z.to_nat n) (value v)) by (by rewrite expands_app, Ef).
  - exists (l ++ flushed v n). rewrite app_nil_r. done.
  - apply Forall_cons_iff in W as [Cw W]. rewrite (clean_mask w Cw). destruct (popcount_clean w Cw) as [-> ->].
    change VALUE_SIZE with 14. unfold len in L. cbn [length] in L.
    destruct ((w =? 0) && negb v || (w =? COUNT_MASK) && v) eqn:Ew.
    + assert (w = value v) as -> by (destruct v; unfold value; cbn in Ew; lia).
      rewrite u64_small by lia. replace (14 * n + 14) with (14 * (n + 1)) by lia.
      destruct (IH v (n + 1) l W ltac:(lia) F A N ltac:(lia)) as (l' & E' & F' & A' & X'); [unfold len in *; lia|done|].
      exists l'. split_and!; [done..|]. rewrite X'. f_equal.
      replace (Z.to_nat (n + 1)) with (Z.to_nat n + 1)%nat by lia. rewrite replicate_add, <- app_assoc. done.
    + rewrite Fl. cbn [rbind]. destruct ((w =? 0) || (w =? COUNT_MASK)) eqn:Ez.
      * assert (w = value (negb v) /\ (w =? COUNT_MASK) = negb v) as [-> ->].
        { destruct v; unfold value, COUNT_MASK in *; cbn in Ew, Ez |- *; lia. }
        change 14 with (14 * 1) at 1.
        destruct (IH (negb v) 1 (l ++ flushed v n) W ltac:(lia) Fa Af) as (l' & E' & F' & A' & X');
          [apply no_tail_flushed; destruct (Z.eq_dec n 0); auto|done| |done|].
        { rewrite Ex. unfold len in *. rewrite length_app, length_replicate. lia. }
        exists l'. split_and!; [done..|]. rewrite X', Ex, <- !app_assoc. done.
      * assert (Ln : len (expands (l ++ flushed v n)) = len (expands l) + n)
          by (rewrite Ex; unfold len; rewrite length_app, length_replicate; lia).
        pose proof (length_encs _ Fa) as Lf. unfold emit. replace (len (encs (l ++ flushed v n)) <? cap) with true by (unfold len in *; lia).
        cbn [rbind].
        assert (Ee : encs (l ++ flushed v n) ++ [w] = encs ((l ++ flushed v n) ++ [SWord w])) by (by rewrite (encs_app (l ++ flushed v n))).
        assert (Ex' : expands ((l ++ flushed v n) ++ [SWord w]) = expands l ++ replicate (Z.to_nat n) (value v) ++ [w])
          by (rewrite (expands_app (l ++ flushed v n)), Ex, <- app_assoc; done).
        rewrite Ee. destruct (IH v 0 ((l ++ flushed v n) ++ [SWord w]) W ltac:(lia)) as (l' & E' & F' & A' & X').
        -- apply Forall_app_2; [done|]. by apply one_ok.
        -- by apply alternating_snoc.
        -- apply no_tail_word.
        -- intros _. apply no_tail_word.
        -- rewrite Ex'. unfold len in *. rewrite !length_app, length_replicate. cbn [length]. lia.
        -- done.
        -- exists l'. split_and!; [done..|]. rewrite X', Ex', <- !app_assoc. done.
Qed.
