(* ===== verification/BitmapSpec.v ===== *)
(** Bitmaps in use: compression and its inverse, the set operations with a compressed
    operand, the enumeration of the bits, and growing. *)
From S2P Require Import Prelude Endian ByteArray Codec Bitmap BitmapRuns.

(** ** Bitmaps in use *)

(** A plain bitmap: enough words for its bits, none with a stray high bit, and few
    enough for positions to stay below 2^32. *)
Record plain (b : Bitmap) : Prop := {
  plain_compress : m_compress b = false;
  plain_size : 0 <= m_size b;
  plain_dataSize : m_dataSize b = words_for (m_size b);
  plain_alloc : m_dataSize b <= len (words b);
  plain_clean : all_clean (words b);
  plain_limit : 14 * len (words b) < 2 ^ 32 - 14;
}.

Definition uw (b : Bitmap) : list Z := take (Z.to_nat (m_dataSize b)) (words b).

Lemma words_for_bounds n : 0 <= n -> 0 <= words_for n /\ 14 * words_for n - 14 < n <= 14 * words_for n.
Proof.
  intros Hn. unfold words_for. pose proof (Z.div_mod (n + 13) 14 ltac:(lia)).
  pose proof (Z.mod_pos_bound (n + 13) 14 ltac:(lia)). pose proof (Z.div_pos (n + 13) 14 ltac:(lia) ltac:(lia)). lia.
Qed.

Lemma used_ok b : plain b -> used b = Ok (uw b).
Proof. intros P. pose proof (plain_alloc b P). unfold used. by replace (len (words b) <? m_dataSize b) with false by lia. Qed.

Lemma plain_bounds b : plain b -> 0 <= m_dataSize b /\ 14 * m_dataSize b - 14 < m_size b <= 14 * m_dataSize b.
Proof. intros P. rewrite (plain_dataSize b P). apply words_for_bounds, P. Qed.

Lemma length_uw b : plain b -> Z.of_nat (length (uw b)) = m_dataSize b.
Proof.
  intros P. pose proof (plain_alloc b P). pose proof (plain_bounds b P).
  unfold uw, len in *. rewrite length_take. lia.
Qed.

Lemma uw_clean b : plain b -> all_clean (uw b).
Proof. intros P. apply Forall_take, P. Qed.

Lemma words_set ws b : words (set_words ws b) = ws.
Proof. done. Qed.

Lemma plain_set_words ws b : plain b -> length ws = length (words b) -> all_clean ws -> plain (set_words ws b).
Proof. intros [] L C. constructor; try done; rewrite words_set; unfold len in *; cbn [set_words m_dataSize]; by rewrite L. Qed.

(** What [compress] makes of a plain bitmap. *)
Definition compressed (b c : Bitmap) : Prop := exists l,
  c = mkBitmap true (m_size b) (len (encs l)) (Some (encs l)) /\
  Forall seg_ok l /\ alternating l /\ expands l = uw b.

Lemma compress_ok b : plain b -> exists c, compress b = Ok c /\ compressed b c /\ m_dataSize c <= m_dataSize b.
Proof.
  intros P. pose proof (length_uw b P) as L. pose proof (plain_alloc b P). pose proof (plain_limit b P).
  unfold compress. rewrite (plain_compress b P), (used_ok b P). cbn [rbind].
  destruct (compress_loop_ok (m_dataSize b) (uw b) false 0 []) as (l & E & F & A & X); try done.
  - by apply uw_clean.
  - unfold no_tail. intros l' n. by destruct l'.
  - unfold no_tail. intros _ l' n. by destruct l'.
  - unfold len. cbn. lia.
  - lia.
  - change (14 * 0) with 0 in E. change (encs []) with (@nil Z) in E. rewrite E. cbn [rbind]. eexists. split; [done|].
    split; [by exists l|]. cbn. pose proof (length_encs l F) as Le. change (expands l = uw b) in X. rewrite X in Le.
    rewrite (len_nat (uw b)), L in Le. exact Le.
Qed.

Lemma used_compressed b c : compressed b c -> exists l, used c = Ok (encs l) /\ words c = encs l /\
  Forall seg_ok l /\ alternating l /\ expands l = uw b /\ m_size c = m_size b /\ m_compress c = true.
Proof.
  intros (l & -> & F & A & X). exists l. split_and!; try done. unfold used.
  change (words _) with (encs l). cbn [m_dataSize]. rewrite Z.ltb_irrefl, take_ge; [done|]. unfold len. lia.
Qed.

Lemma zip_second (ws ys : list Z) : length ys = length ws -> zip_with (fun _ y => y) ws ys = ys.
Proof. revert ys. induction ws as [|x ws IH]; intros [|y ys] L; try done. cbn. f_equal. apply IH. cbn in L. lia. Qed.

Lemma uncompress_ok b c : plain b -> compressed b c ->
  uncompress c = Ok (mkBitmap false (m_size b) (m_dataSize b) (Some (uw b))).
Proof.
  intros P C. destruct (used_compressed b c C) as (l & U & W & F & A & X & Sz & Cp).
  pose proof (length_uw b P) as L. pose proof (plain_bounds b P). pose proof (plain_limit b P). pose proof (plain_alloc b P).
  unfold uncompress. rewrite Cp. cbn [negb]. rewrite U. cbn [rbind].
  assert (Wn : words (new_Bitmap (m_size c) 0) = replicate (length (uw b)) 0).
  { rewrite Sz. unfold new_Bitmap, words. rewrite <- (plain_dataSize b P). cbn [m_data].
    replace (length (uw b)) with (Z.to_nat (m_dataSize b)) by lia. by destruct (Z.eqb_spec (m_dataSize b) 0) as [->|]. }
  rewrite Wn, (runs_loop_overlay (fun _ count => count)); try done.
  - cbn [rbind]. rewrite overlay_whole, zip_second by (rewrite X, length_replicate; done).
    unfold set_words, new_Bitmap. cbn [m_compress m_size m_dataSize]. by rewrite Sz, X, <- (plain_dataSize b P).
  - intros p n v ws _ Hn Hp Hl. apply set_range_ok; [done|done|lia].
  - apply (replicate_clean _ false).
  - unfold len. by rewrite X, length_replicate.
  - unfold len in *. rewrite length_replicate. lia.
Qed.

(** ** Set operations *)

Lemma overlay_ext g h p ws ys : (forall x y, x ∈ ws -> y ∈ ys -> g x y = h x y) -> overlay g p ws ys = overlay h p ws ys.
Proof.
  revert p ys. induction ws as [|x ws IH]; intros [|p] ys E; cbn [overlay]; [done..| |].
  - destruct ys as [|y ys]; [done|]. f_equal; [apply E; left|]. apply IH. intros. apply E; by right.
  - f_equal. apply IH. intros. apply E; [by right|done].
Qed.

Lemma update_from_app f n m : forall i ws, 
  update_from f (n + m) i ws = (let! ws := update_from f n i ws in update_from f m (i + Z.of_nat n) ws).
Proof.
  induction n as [|n IH]; intros i ws; cbn [update_from Nat.add]; [cbn; by rewrite Z.add_0_r|].
  destruct (word ws i); [|done..]. cbn [rbind]. destruct (f i a); [|done..]. cbn [rbind].
  destruct (put_word ws i a0); [|done..]. cbn [rbind]. rewrite IH. by replace (i + 1 + Z.of_nat n) with (i + Z.of_nat (S n)) by lia.
Qed.

(** The blocks of four words lie within the words in use. *)
Lemma blocks_bound b : plain b -> 0 <= U64_DIV_BASE * (m_size b / U64_VALUE_SIZE) <= m_dataSize b.
Proof.
  intros P. pose proof (plain_bounds b P). pose proof (plain_size b P). change U64_DIV_BASE with 4. change U64_VALUE_SIZE with 56.
  pose proof (Z.mul_div_le (m_size b) 56 ltac:(lia)). pose proof (Z.div_pos (m_size b) 56 ltac:(lia) ltac:(lia)). lia.
Qed.

Lemma combine_plain_ok f a b : plain a -> plain b -> m_size a = m_size b ->
  combine_plain f a b = Ok (overlay f 0 (words a) (uw b)).
Proof.
  intros Pa Pb Sz. pose proof (blocks_bound a Pa) as Bd. pose proof (plain_alloc a Pa). pose proof (plain_alloc b Pb).
  assert (D : m_dataSize b = m_dataSize a) by (by rewrite (plain_dataSize a Pa), (plain_dataSize b Pb), Sz).
  unfold combine_plain. set (n := U64_DIV_BASE * _) in *. cbv zeta.
  match goal with |- context [update_from ?f _ 0 _] => set (step := f) end.
  assert (En : 0 + Z.of_nat (Z.to_nat n) = n) by lia.
  transitivity (update_from step (Z.to_nat n + Z.to_nat (m_dataSize a - n)) 0 (words a));
    [by rewrite update_from_app, En|].
  pose proof (length_uw b Pb) as L. replace (Z.to_nat n + Z.to_nat (m_dataSize a - n))%nat with (length (uw b)) by lia.
  apply update_from_overlay; [lia|unfold len in *; lia|]. intros k x y Hk _ Ey. cbn [Z.to_nat Nat.add] in *.
  unfold uw in Ey. apply lookup_take_Some in Ey as [Ey _]. unfold step. rewrite Z.add_0_l, (word_ok _ _ y); [done|]. by rewrite Nat2Z.id.
Qed.

Lemma and_run p n (v : bool) ws : all_clean ws -> 0 < n -> Z.of_nat p + n <= len ws -> 14 * len ws < 2 ^ 32 ->
  (if negb v then set_range (14 * Z.of_nat p) (14 * n) false ws else Ok ws) =
  Ok (overlay Z.land p ws (replicate (Z.to_nat n) (value v))).
Proof.
  intros C Hn Hp Hl. destruct v; cbn [negb].
  - rewrite overlay_skip; [done|]. intros x y Hx Hy. apply elem_of_replicate in Hy as [-> _].
    apply clean_mask. by eapply Forall_elem.
  - rewrite set_range_ok by done. f_equal. apply overlay_ext. intros x y _ Hy.
    apply elem_of_replicate in Hy as [-> _]. cbn. by rewrite Z.land_0_r.
Qed.

Lemma or_full x : clean x -> Z.lor x COUNT_MASK = COUNT_MASK.
Proof.
  intros C. rewrite <- (clean_mask x C). apply Z.bits_inj'. intros i _. rewrite Z.lor_spec, Z.land_spec.
  by destruct (Z.testbit x i), (Z.testbit COUNT_MASK i).
Qed.

Lemma or_run p n (v : bool) ws : all_clean ws -> 0 < n -> Z.of_nat p + n <= len ws -> 14 * len ws < 2 ^ 32 ->
  (if v then set_range (14 * Z.of_nat p) (14 * n) true ws else Ok ws) =
  Ok (overlay Z.lor p ws (replicate (Z.to_nat n) (value v))).
Proof.
  intros C Hn Hp Hl. destruct v.
  - rewrite set_range_ok by done. f_equal. apply overlay_ext. intros x y Hx Hy.
    apply elem_of_replicate in Hy as [-> _]. symmetry. apply or_full. by eapply Forall_elem.
  - rewrite overlay_skip; [done|]. intros x y _ Hy. apply elem_of_replicate in Hy as [-> _]. apply Z.lor_0_r.
Qed.

Lemma and_clean x y : clean x -> clean y -> clean (Z.land x y).
Proof.
  intros Hx Hy. rewrite <- (clean_mask y Hy), Z.land_assoc. apply mask_clean.
Qed.

Lemma or_clean x y : clean x -> clean y -> clean (Z.lor x y).
Proof.
  intros Hx Hy. rewrite <- (clean_mask x Hx), <- (clean_mask y Hy), <- Z.land_lor_distr_l. apply mask_clean.
Qed.

Lemma assign_compressed f on_run a b c : (forall x y, clean x -> clean y -> clean (f x y)) ->
  (forall p n v ws, all_clean ws -> 0 < n -> Z.of_nat p + n <= len ws -> 14 * len ws < 2 ^ 32 ->
     on_run (14 * Z.of_nat p) (14 * n) v ws = Ok (overlay f p ws (replicate (Z.to_nat n) (value v)))) ->
  plain a -> plain b -> m_size a = m_size b -> compressed b c ->
  exists src, used c = Ok src /\
    runs_loop on_run (combine_word f) (length src) src 0 (words a) = Ok (overlay f 0 (words a) (uw b)).
Proof.
  intros Cl R Pa Pb Sz C. destruct (used_compressed b c C) as (l & U & W & F & A & X & _).
  exists (encs l). split; [done|]. rewrite <- X. apply runs_loop_overlay; try done; [by apply Pa| |apply Pa].
  rewrite X. unfold len. rewrite (length_uw b Pb), (plain_dataSize b Pb), <- Sz, <- (plain_dataSize a Pa).
  apply (plain_alloc a Pa).
Qed.

(** ** Crossing *)

Definition meets (xs ys : list Z) : bool := existsb nonzero (zip_with Z.land xs ys).

Lemma meets_app xs ys xs' ys' : length xs = length ys -> meets (xs ++ xs') (ys ++ ys') = meets xs ys || meets xs' ys'.
Proof. intros L. unfold meets. by rewrite zip_with_app, existsb_app. Qed.

Lemma drop_cons (ws : list Z) i x : ws !! i = Some x -> drop i ws = x :: drop (S i) ws.
Proof. intros E. by apply drop_S. Qed.

Lemma get_range_loop_ok n : forall i ws, all_clean ws -> 0 <= i -> i + Z.of_nat n <= len ws ->
  get_range_loop n i true ws = Ok (meets (take n (drop (Z.to_nat i) ws)) (replicate n COUNT_MASK)).
Proof.
  induction n as [|n IH]; intros i ws C Hi L; [done|]. cbn [get_range_loop].
  destruct (lookup_lt_is_Some_2 ws (Z.to_nat i)) as [x E]; [unfold len in L; lia|].
  rewrite (word_ok _ _ _ E), (drop_cons _ _ _ E). cbn [rbind take replicate]. unfold meets. cbn [zip_with existsb].
  destruct (nonzero (Z.land x COUNT_MASK)); [done|]. cbn [orb eqb]. rewrite IH by (done || lia).
  by replace (Z.to_nat (i + 1)) with (S (Z.to_nat i)) by lia.
Qed.

Lemma meets_zeros xs n : meets xs (replicate n 0) = false.
Proof.
  revert xs. induction n as [|n IH]; intros [|x xs]; try done. unfold meets in *. cbn. rewrite Z.land_0_r. apply IH.
Qed.

Lemma get_range_ok p n ws : all_clean ws -> 0 < n -> Z.of_nat p + n <= len ws -> 14 * len ws < 2 ^ 32 ->
  get_range (14 * Z.of_nat p) (14 * n) true ws = Ok (meets (take (Z.to_nat n) (drop p ws)) (replicate (Z.to_nat n) COUNT_MASK)).
Proof.
  intros C Hn L B. unfold get_range. replace (14 * n =? 0) with false by lia. change VALUE_SIZE with 14.
  rewrite u32_small by lia. replace (14 * Z.of_nat p + 14 * n) with ((Z.of_nat p + n) * 14) by lia.
  rewrite Z.mod_mul, (Z.mul_comm 14), Z.mod_mul, !Z.div_mul by lia. cbn [negb Z.eqb].
  replace (Z.of_nat p + n - Z.of_nat p) with n by lia. rewrite get_range_loop_ok by (done || lia). by rewrite Nat2Z.id.
Qed.

Lemma compressCross_segs l : forall fuel p ws, Forall seg_ok l -> alternating l -> (length (encs l) <= fuel)%nat ->
  all_clean ws -> Z.of_nat p + len (expands l) <= len ws -> 14 * len ws < 2 ^ 32 - 14 ->
  compressCross_loop fuel (encs l) (14 * Z.of_nat p) ws = Ok (meets (take (length (expands l)) (drop p ws)) (expands l)).
Proof.
  induction l as [|s l IH]; intros fuel p ws F A Hf C L B; [by destruct fuel|].
  apply Forall_cons_iff in F as [S F]. unfold encs, expands in *. cbn [map concat] in *. fold (encs l) (expands l) in *.
  rewrite len_nat, length_app in L.
  assert (Split : take (length (expand s ++ expands l)) (drop p ws) =
    take (length (expand s)) (drop p ws) ++ take (length (expands l)) (drop (p + length (expand s)) ws)).
  { rewrite length_app, <- drop_drop. by rewrite take_take_drop. }
  rewrite Split, meets_app by (rewrite length_take, length_drop; unfold len in L; lia). clear Split.
  destruct s as [v n|w]; cbn [seg_ok] in S.
  - rewrite enc_run_split in * by lia. cbn [app length] in *. destruct fuel as [|fuel]; [lia|]. cbn [compressCross_loop].
    destruct (run_word_ok v _ (mask_clean (14 * n))) as (-> & -> & ->).
    assert (N : ~ starts_run v (encs l)).
    { apply starts_run_encs; [done|]. destruct l as [|[w m|w] l]; try done. destruct A as [A _]. congruence. }
    rewrite merge_run_tail by (done || lia). cbn [rbind expand] in *. rewrite length_replicate in *.
    assert (Z.of_nat p + n <= len ws) by (unfold len in *; lia).
    assert (Tail : compressCross_loop fuel (encs l) (14 * Z.of_nat (p + Z.to_nat n)) ws =
      Ok (meets (take (length (expands l)) (drop (p + Z.to_nat n) ws)) (expands l))).
    { apply IH; try done; [by destruct l as [|[] l]; [|destruct A|]|rewrite length_app in Hf; lia|unfold len in *; lia]. }
    rewrite u32_small by lia. replace (14 * Z.of_nat p + 14 * n) with (14 * Z.of_nat (p + Z.to_nat n)) by lia.
    destruct v; cbn [value].
    + rewrite get_range_ok by (done || lia). cbn [rbind]. destruct (meets _ (replicate _ _)); [done|]. apply Tail.
    + rewrite meets_zeros. cbn [rbind orb]. apply Tail.
  - cbn [enc expand app length] in *. destruct fuel as [|fuel]; [lia|]. cbn [compressCross_loop].
    rewrite (literal_word w S), (clean_mask w S). change VALUE_SIZE with 14.
    rewrite (Z.mul_comm 14), Z.div_mul by lia.
    destruct (lookup_lt_is_Some_2 ws p) as [x E]; [unfold len in L; lia|].
    rewrite (word_ok _ _ x), (drop_cons _ _ _ E) by (by rewrite Nat2Z.id). cbn [rbind take].
    unfold meets at 1. cbn [zip_with existsb]. rewrite orb_false_r. destruct (nonzero (Z.land x w)); [done|]. cbn [orb].
    rewrite u32_small by lia. replace (Z.of_nat p * 14 + 14) with (14 * Z.of_nat (p + 1)) by lia.
    apply IH; try done; unfold len in *; lia.
Qed.

Lemma cross_words_ok n : forall i xs ys, 0 <= i -> i + Z.of_nat n <= len xs -> i + Z.of_nat n <= len ys ->
  cross_words n i xs ys = Ok (meets (take n (drop (Z.to_nat i) xs)) (take n (drop (Z.to_nat i) ys))).
Proof.
  induction n as [|n IH]; intros i xs ys Hi Lx Ly; [done|]. cbn [cross_words].
  destruct (lookup_lt_is_Some_2 xs (Z.to_nat i)) as [x Ex]; [unfold len in Lx; lia|].
  destruct (lookup_lt_is_Some_2 ys (Z.to_nat i)) as [y Ey]; [unfold len in Ly; lia|].
  rewrite (word_ok _ _ _ Ex), (word_ok _ _ _ Ey), (drop_cons _ _ _ Ex), (drop_cons _ _ _ Ey). cbn [rbind take].
  unfold meets. cbn [zip_with existsb]. destruct (nonzero (Z.land x y)); [done|]. cbn [orb].
  rewrite IH by lia. by replace (Z.to_nat (i + 1)) with (S (Z.to_nat i)) by lia.
Qed.

Lemma word64_ok ws i : 0 <= i -> 4 * i + 4 <= len ws -> word64 ws i = Ok (take 4 (drop (Z.to_nat (4 * i)) ws)).
Proof.
  intros Hi L. unfold word64. unfold len in L. set (k := Z.to_nat (4 * i)).
  assert (D : exists a b c d, drop k ws = a :: b :: c :: d :: drop (4 + k) ws).
  { assert (H : (4 <= length (drop k ws))%nat) by (rewrite length_drop; unfold k; lia).
    rewrite Nat.add_comm, <- drop_drop. destruct (drop k ws) as [|a [|b [|c [|d r]]]]; cbn in H; try lia. by exists a, b, c, d. }
  destruct D as (a & b & c & d & D). rewrite D. cbn [take].
  assert (X : forall j x, (a :: b :: c :: d :: drop (4 + k) ws) !! j = Some x -> word ws (4 * i + Z.of_nat j) = Ok x).
  { intros j x E. apply word_ok. rewrite <- D, lookup_drop in E. rewrite <- E. f_equal. unfold k. lia. }
  pose proof (X 0%nat a eq_refl) as X0. cbn [Z.of_nat] in X0. rewrite Z.add_0_r in X0.
  by rewrite X0, (X 1%nat b eq_refl : word ws (4 * i + 1) = _), (X 2%nat c eq_refl : word ws (4 * i + 2) = _),
    (X 3%nat d eq_refl : word ws (4 * i + 3) = _).
Qed.

Lemma meets_none xs ys : existsb nonzero xs = false -> meets xs ys = false.
Proof.
  revert ys. induction xs as [|x xs IH]; intros [|y ys] E; try done. cbn in E. apply orb_false_iff in E as [E1 E2].
  unfold meets. cbn. unfold nonzero in E1. apply negb_false_iff, Z.eqb_eq in E1 as ->. by apply IH.
Qed.

Lemma cross_blocks_ok n : forall i xs ys, 0 <= i -> 4 * (i + Z.of_nat n) <= len xs -> 4 * (i + Z.of_nat n) <= len ys ->
  cross_blocks n i xs ys =
  Ok (meets (take (4 * n) (drop (Z.to_nat (4 * i)) xs)) (take (4 * n) (drop (Z.to_nat (4 * i)) ys))).
Proof.
  induction n as [|n IH]; intros i xs ys Hi Lx Ly; [done|]. cbn [cross_blocks].
  replace (4 * S n)%nat with (4 + 4 * n)%nat by lia. set (k := Z.to_nat (4 * i)).
  assert (Sp : forall ws : list Z, take (4 + 4 * n) (drop k ws) = take 4 (drop k ws) ++ take (4 * n) (drop (Z.to_nat (4 * (i + 1))) ws)).
  { intros ws. replace (Z.to_nat (4 * (i + 1))) with (k + 4)%nat by (unfold k; lia). rewrite <- drop_drop.
    by rewrite take_take_drop. }
  rewrite !Sp, meets_app by (rewrite !length_take, !length_drop; unfold len in *; lia). clear Sp.
  rewrite word64_ok by lia. cbn [rbind]. fold k.
  destruct (existsb nonzero (take 4 (drop k xs))) eqn:E.
  - rewrite word64_ok by lia. cbn [rbind]. fold k. fold (meets (take 4 (drop k xs)) (take 4 (drop k ys))).
    destruct (meets (take 4 _) _); [done|]. cbn [orb]. apply IH; lia.
  - rewrite (meets_none _ _ E). cbn [orb]. apply IH; lia.
Qed.

Lemma normalCross_ok a b : plain a -> plain b -> m_size a = m_size b -> normalCross a b = Ok (meets (uw a) (uw b)).
Proof.
  intros Pa Pb Sz. pose proof (blocks_bound a Pa) as Bd. pose proof (plain_alloc a Pa). pose proof (plain_alloc b Pb).
  assert (D : m_dataSize b = m_dataSize a) by (by rewrite (plain_dataSize a Pa), (plain_dataSize b Pb), Sz).
  unfold normalCross. change U64_DIV_BASE with 4 in *. set (m := m_size a / U64_VALUE_SIZE) in *.
  rewrite cross_blocks_ok by lia. cbn [rbind]. rewrite Z.mul_0_r, !drop_0.
  assert (Sp : forall c, m_dataSize c = m_dataSize a -> uw c = take (4 * Z.to_nat m) (words c) ++
    take (Z.to_nat (m_dataSize a - 4 * m)) (drop (Z.to_nat (4 * m)) (words c))).
  { intros c Dc. unfold uw. rewrite Dc. replace (Z.to_nat (4 * m)) with (4 * Z.to_nat m)%nat by lia.
    rewrite take_take_drop. f_equal. lia. }
  rewrite (Sp a eq_refl), (Sp b D), meets_app by (rewrite !length_take; unfold len in *; lia).
  destruct (meets (take _ (words a)) _); [done|]. rewrite cross_words_ok by lia. done.
Qed.

Lemma compressCross_ok a b c : plain a -> plain b -> m_size a = m_size b -> compressed b c ->
  compressCross a c = Ok (meets (uw a) (uw b)).
Proof.
  intros Pa Pb Sz C. destruct (used_compressed b c C) as (l & U & W & F & A & X & _).
  assert (D : m_dataSize b = m_dataSize a) by (by rewrite (plain_dataSize a Pa), (plain_dataSize b Pb), Sz).
  pose proof (length_uw b Pb) as L. pose proof (plain_alloc a Pa).
  unfold compressCross. rewrite U. cbn [rbind].
  rewrite (compressCross_segs l _ 0) by (first [done | apply Pa | rewrite X; unfold len in *; lia]).
  rewrite drop_0, X. by assert (length (uw b) = Z.to_nat (m_dataSize a)) as -> by lia.
Qed.

(** ** Bits *)

Definition bit (ws : list Z) (p : Z) : bool :=
  match ws !! Z.to_nat (p / 14) with Some w => Z.testbit w (p mod 14) | None => false end.

Lemma POS_pow x : 0 <= x < 14 -> POS x = 2 ^ x.
Proof.
  intros Hx. unfold POS. rewrite Z.shiftl_mul_pow2, Z.mul_1_l by lia. apply u16_small.
  pose proof (Z.pow_pos_nonneg 2 x ltac:(lia) ltac:(lia)). pose proof (Z.pow_lt_mono_r 2 x 16 ltac:(lia) ltac:(lia) ltac:(lia)). lia.
Qed.

Lemma land_pow a x : 0 <= x -> Z.land a (2 ^ x) = if Z.testbit a x then 2 ^ x else 0.
Proof.
  intros Hx. apply Z.bits_inj'. intros i Hi. rewrite Z.land_spec, Z.pow2_bits_eqb by lia.
  destruct (Z.eqb_spec x i) as [->|N].
  - destruct (Z.testbit a i) eqn:E; [by rewrite Z.pow2_bits_true|by rewrite Z.bits_0].
  - rewrite andb_false_r. destruct (Z.testbit a x); [by rewrite Z.pow2_bits_false by lia|by rewrite Z.bits_0].
Qed.

Lemma test_POS w x : 0 <= x < 14 -> nonzero (Z.land w (POS x)) = Z.testbit w x.
Proof.
  intros Hx. rewrite POS_pow, land_pow by lia. pose proof (Z.pow_pos_nonneg 2 x ltac:(lia) ltac:(lia)).
  unfold nonzero. destruct (Z.testbit w x); lia.
Qed.

Lemma mod14 p : 0 <= p mod 14 < 14.
Proof. apply Z.mod_pos_bound. lia. Qed.

Lemma bit_index i k : 0 <= i -> 0 <= k < 14 -> (14 * i + k) / 14 = i /\ (14 * i + k) mod 14 = k.
Proof.
  intros Hi Hk. rewrite Z.add_comm, (Z.mul_comm 14), Z.div_add, Z.mod_add, Z.div_small, Z.mod_small by lia. lia.
Qed.

Lemma index_bound b p : plain b -> 0 <= p < m_size b -> 0 <= p / 14 < m_dataSize b.
Proof.
  intros P Hp. pose proof (plain_bounds b P). pose proof (Z.div_mod p 14 ltac:(lia)). pose proof (mod14 p).
  pose proof (Z.div_pos p 14 ltac:(lia) ltac:(lia)). lia.
Qed.

Lemma get_ok b p : plain b -> 0 <= p < m_size b -> get p b = Ok (bit (words b) p).
Proof.
  intros P Hp. pose proof (index_bound b p P Hp). pose proof (plain_alloc b P). unfold get, bit. change VALUE_SIZE with 14.
  destruct (lookup_lt_is_Some_2 (words b) (Z.to_nat (p / 14))) as [w E]; [unfold len in *; lia|].
  rewrite (word_ok _ _ _ E), E. cbn [rbind]. by rewrite test_POS by apply mod14.
Qed.

Lemma NPOS_bit x i : 0 <= x < 14 -> 0 <= i < 16 -> Z.testbit (NPOS x) i = negb (x =? i).
Proof.
  intros Hx Hi. unfold NPOS, u16. rewrite Z.mod_pow2_bits_low, Z.lnot_spec, POS_pow, Z.pow2_bits_eqb by lia. done.
Qed.

Definition set_bit (w x : Z) (v : bool) : Z := if v then Z.lor w (POS x) else Z.land w (NPOS x).

Lemma set_bit_clean w x v : clean w -> 0 <= x < 14 -> clean (set_bit w x v).
Proof.
  intros W Hx. destruct v; unfold set_bit.
  - apply or_clean; [done|]. rewrite POS_pow by done. split; [apply Z.pow_nonneg; lia|apply Z.pow_lt_mono_r; lia].
  - rewrite <- (clean_mask w W), <- Z.land_assoc, (Z.land_comm COUNT_MASK), Z.land_assoc. apply mask_clean.
Qed.

Lemma set_bit_spec w x v i : 0 <= x < 14 -> 0 <= i < 14 ->
  Z.testbit (set_bit w x v) i = if x =? i then v else Z.testbit w i.
Proof.
  intros Hx Hi. destruct v; unfold set_bit.
  - rewrite Z.lor_spec, POS_pow, Z.pow2_bits_eqb by lia. destruct (x =? i); [apply orb_true_r|apply orb_false_r].
  - rewrite Z.land_spec, NPOS_bit by lia. destruct (x =? i); [apply andb_false_r|apply andb_true_r].
Qed.

Lemma set_ok b i v : plain b -> 0 <= i < m_size b ->
  exists b', set i v b = Ok b' /\ plain b' /\ m_size b' = m_size b /\
    forall p, 0 <= p -> bit (words b') p = if i =? p then v else bit (words b) p.
Proof.
  intros P Hi. pose proof (index_bound b i P Hi). pose proof (plain_alloc b P). unfold set. change VALUE_SIZE with 14.
  destruct (lookup_lt_is_Some_2 (words b) (Z.to_nat (i / 14))) as [w E]; [unfold len in *; lia|].
  rewrite (word_ok _ _ _ E). cbn [rbind]. rewrite put_word_ok by lia. cbn [rbind]. fold (set_bit w (i mod 14) v).
  pose proof (Forall_lookup_1 _ _ _ _ (plain_clean b P) E) as W. cbn beta in W.
  eexists. split; [done|]. split_and!; [|done|].
  - apply plain_set_words; [done|by rewrite length_insert|]. apply Forall_insert; [apply P|]. by apply set_bit_clean, mod14.
  - intros p Hp. unfold bit. rewrite words_set. pose proof (Z.div_mod i 14 ltac:(lia)). pose proof (Z.div_mod p 14 ltac:(lia)).
    pose proof (Z.div_pos p 14 ltac:(lia) ltac:(lia)). pose proof (mod14 p). pose proof (mod14 i).
    destruct (Z.eq_dec (i / 14) (p / 14)) as [Eq|N].
    + rewrite <- Eq, list_lookup_insert_eq by (unfold len in *; lia). rewrite E, set_bit_spec by done.
      replace (i mod 14 =? p mod 14) with (i =? p) by lia. done.
    + rewrite list_lookup_insert_ne by lia. by replace (i =? p) with false by lia.
Qed.

(** ** Enumeration *)

Definition positions (ws : list Z) (a b : Z) : list Z := filter (fun p => bit ws p = true) (seqZ a (b - a)).

Lemma positions_app ws a b c : a <= b <= c -> positions ws a c = positions ws a b ++ positions ws b c.
Proof.
  intros H. unfold positions. replace (c - a) with ((b - a) + (c - b)) by lia.
  rewrite seqZ_app, list.filter_app by lia. by replace (a + (b - a)) with b by lia.
Qed.

Lemma filter_ext_in {A} (P Q : A -> Prop) `{!forall x, Decision (P x)} `{!forall x, Decision (Q x)} (l : list A) :
  (forall x, x ∈ l -> P x <-> Q x) -> filter P l = filter Q l.
Proof.
  induction l as [|x l IH]; intros E; [done|]. rewrite !filter_cons, IH by (intros y Hy; apply E; by right).
  pose proof (E x ltac:(left)) as [E1 E2]. destruct (decide (P x)), (decide (Q x)); tauto.
Qed.

Section visit.
Context {A : Type} (size : Z) (cb : Z -> A -> bool * A).

(** The callback on each position in turn, until it returns [false]. *)
Fixpoint visit (l : list Z) (a : A) : bool * A :=
  match l with
  | [] => (true, a)
  | p :: l => let '(c, a) := cb p a in if c then visit l a else (false, a)
  end.

Lemma visit_app l k a : visit (l ++ k) a = let '(c, a) := visit l a in if c then visit k a else (false, a).
Proof. revert a. induction l as [|p l IH]; intros a; [done|]. cbn. destruct (cb p a) as [[] a']; [apply IH|done]. Qed.

(** A loop that visits [l] and, when it is not stopped, ends at position [q]. *)
Definition visits (r : bool * Z * A) (l : list Z) (q : Z) (a : A) : Prop :=
  exists q', r = (fst (visit l a), q', snd (visit l a)) /\ (fst (visit l a) = true -> q' = q).

Lemma each_bit_visits tmp o n : forall x pos a, x = pos + o -> 0 <= x -> x + Z.of_nat n <= 14 -> 0 <= pos ->
  pos + Z.of_nat n < 2 ^ 32 ->
  visits (each_bit size cb n x pos tmp a)
    (filter (fun p => Z.testbit tmp (p + o) = true) (seqZ pos (Z.min (Z.of_nat n) (size - pos))))
    (Z.max pos (Z.min (pos + Z.of_nat n) size)) a.
Proof.
  induction n as [|n IH]; intros x pos a Ex Hx Hn Hp Hb; cbn [each_bit].
  - rewrite seqZ_nil by lia. exists pos. split; [done|]. intros _. lia.
  - destruct (Z.ltb_spec pos size) as [L|L]; cbn [negb].
    2:{ rewrite seqZ_nil by lia. exists pos. split; [done|]. intros _. lia. }
    rewrite test_POS, u32_small by lia. rewrite seqZ_cons, filter_cons by lia.
    replace (Z.pred (Z.min (Z.of_nat (S n)) (size - pos))) with (Z.min (Z.of_nat n) (size - (pos + 1))) by lia.
    assert (Eq : Z.max pos (Z.min (pos + Z.of_nat (S n)) size) = Z.max (pos + 1) (Z.min (pos + 1 + Z.of_nat n) size)) by lia.
    rewrite Eq. change (Z.succ pos) with (pos + 1). rewrite Ex.
    destruct (decide (Z.testbit tmp (pos + o) = true)) as [T|T].
    + rewrite T. unfold visits. cbn [visit]. destruct (cb pos a) as [c a']. destruct c; [|by exists pos].
      apply IH; lia.
    + apply not_true_is_false in T. rewrite T. apply IH; lia.
Qed.

Context (ws : list Z) (B : 14 * len ws < 2 ^ 32 - 14).

Lemma word_positions i tmp e : 0 <= i -> ws !! Z.to_nat i = Some tmp -> e <= 14 * i + 14 ->
  filter (fun p => Z.testbit tmp (p + - (14 * i)) = true) (seqZ (14 * i) (e - 14 * i)) = positions ws (14 * i) e.
Proof.
  intros Hi E He. apply filter_ext_in. intros p Hp. apply elem_of_seqZ in Hp.
  destruct (bit_index i (p - 14 * i) Hi ltac:(lia)) as [D M]. replace (14 * i + (p - 14 * i)) with p in D, M by lia.
  unfold bit. by rewrite D, M, E.
Qed.

Lemma word_visits i tmp a : 0 <= i -> ws !! Z.to_nat i = Some tmp -> 14 * i <= size ->
  visits (each_bit size cb 14 0 (14 * i) tmp a) (positions ws (14 * i) (Z.min (14 * i + 14) size))
    (Z.min (14 * i + 14) size) a.
Proof.
  intros Hi E Hs. apply lookup_lt_Some in E as L.
  rewrite <- (word_positions i tmp) by (done || lia).
  pose proof (each_bit_visits tmp (- (14 * i)) 14 0 (14 * i) a) as V.
  replace (Z.min (14 * i + 14) size - 14 * i) with (Z.min (Z.of_nat 14) (size - 14 * i)) by lia.
  replace (Z.min (14 * i + 14) size) with (Z.max (14 * i) (Z.min (14 * i + Z.of_nat 14) size)) by lia.
  apply V; unfold len in B; lia.
Qed.

Lemma zero_positions i e : 0 <= i -> ws !! Z.to_nat i = Some 0 -> e <= 14 * i + 14 -> positions ws (14 * i) e = [].
Proof.
  intros Hi E He. rewrite <- (word_positions i 0) by done.
  induction (seqZ (14 * i) (e - 14 * i)) as [|p l IH]; [done|].
  rewrite filter_cons_False; [done|]. by rewrite Z.bits_0.
Qed.

(** Visiting [l] and then, unless stopped, [k]. *)
Lemma visits_seq r l q k q2 a (f : Z -> A -> bool * Z * A) : visits r l q a ->
  (forall a, visits (f q a) k q2 a) ->
  visits (let '(c, p, a) := r in if c : bool then f p a else (false, p, a)) (l ++ k) q2 a.
Proof.
  intros (q' & -> & Q) F. unfold visits. rewrite visit_app. destruct (visit l a) as [c a'] eqn:V. cbn [fst snd] in *.
  destruct c; [rewrite Q by done; apply F|]. by exists q'.
Qed.

Lemma each_word_visits k : forall i a, 0 <= i -> i + Z.of_nat k <= len ws -> 14 * (i + Z.of_nat k) <= size ->
  visits (each_word size cb (take k (drop (Z.to_nat i) ws)) (14 * i) a)
    (positions ws (14 * i) (14 * (i + Z.of_nat k))) (14 * (i + Z.of_nat k)) a.
Proof.
  induction k as [|k IH]; intros i a Hi L Hs.
  - replace (14 * (i + Z.of_nat 0)) with (14 * i) by lia. unfold positions. rewrite Z.sub_diag. by exists (14 * i).
  - destruct (lookup_lt_is_Some_2 ws (Z.to_nat i)) as [w E]; [unfold len in L; lia|].
    rewrite (drop_cons _ _ _ E). cbn [take each_word].
    rewrite (positions_app ws (14 * i) (14 * (i + 1))) by lia.
    apply visits_seq with (q := 14 * (i + 1)) (f := each_word size cb (take k (drop (S (Z.to_nat i)) ws))).
    + pose proof (word_visits i w a Hi E ltac:(lia)) as V.
      by replace (Z.min (14 * i + 14) size) with (14 * (i + 1)) in V by lia.
    + intros a'. replace (S (Z.to_nat i)) with (Z.to_nat (i + 1)) by lia.
      replace (i + Z.of_nat (S k)) with (i + 1 + Z.of_nat k) in * by lia. by apply IH; lia.
Qed.

Lemma zero_words k : forall i, 0 <= i -> i + Z.of_nat k <= len ws ->
  existsb nonzero (take k (drop (Z.to_nat i) ws)) = false -> positions ws (14 * i) (14 * (i + Z.of_nat k)) = [].
Proof.
  induction k as [|k IH]; intros i Hi L Z0.
  - replace (14 * (i + Z.of_nat 0)) with (14 * i) by lia. unfold positions. by rewrite Z.sub_diag.
  - destruct (lookup_lt_is_Some_2 ws (Z.to_nat i)) as [w E]; [unfold len in L; lia|].
    rewrite (drop_cons _ _ _ E) in Z0. cbn [take existsb] in Z0. apply orb_false_iff in Z0 as [W Z0].
    apply negb_false_iff, Z.eqb_eq in W as ->. rewrite (positions_app ws (14 * i) (14 * (i + 1))) by lia.
    rewrite zero_positions by (done || lia). cbn [app].
    replace (i + Z.of_nat (S k)) with (i + 1 + Z.of_nat k) in * by lia. apply IH; [lia|lia|].
    by replace (Z.to_nat (i + 1)) with (S (Z.to_nat i)) by lia.
Qed.

Lemma each_block_visits n : forall i a, 0 <= i -> 4 * (i + Z.of_nat n) <= len ws -> 56 * (i + Z.of_nat n) <= size ->
  exists r, each_block size cb n i ws (56 * i) a = Ok r /\
    visits r (positions ws (56 * i) (56 * (i + Z.of_nat n))) (56 * (i + Z.of_nat n)) a.
Proof.
  induction n as [|n IH]; intros i a Hi L Hs; cbn [each_block].
  - eexists. split; [done|]. replace (56 * (i + Z.of_nat 0)) with (56 * i) by lia. unfold positions. rewrite Z.sub_diag.
    by exists (56 * i).
  - rewrite word64_ok by lia. cbn [rbind].
    rewrite (positions_app ws (56 * i) (56 * (i + 1))) by lia.
    replace (i + Z.of_nat (S n)) with (i + 1 + Z.of_nat n) in * by lia.
    assert (P4 : positions ws (56 * i) (56 * (i + 1)) = positions ws (14 * (4 * i)) (14 * (4 * i + Z.of_nat 4)))
      by (f_equal; lia).
    destruct (existsb nonzero (take 4 (drop (Z.to_nat (4 * i)) ws))) eqn:E; cbn [negb].
    + pose proof (each_word_visits 4 (4 * i) a ltac:(lia) ltac:(lia) ltac:(lia)) as V.
      rewrite <- P4 in V. replace (14 * (4 * i)) with (56 * i) in V by lia.
      replace (14 * (4 * i + Z.of_nat 4)) with (56 * (i + 1)) in V by lia.
      destruct V as (q' & -> & Q). destruct (visit (positions ws (56 * i) (56 * (i + 1))) a) as [c a'] eqn:Vi. cbn [fst snd] in *.
      destruct c.
      * rewrite Q by done. destruct (IH (i + 1) a') as (r & Er & Vr); [lia|lia|lia|]. exists r. split; [done|].
        unfold visits in *. by rewrite visit_app, Vi.
      * eexists. split; [done|]. exists q'. by rewrite visit_app, Vi.
    + apply (zero_words 4) in E; [|lia|lia]. rewrite P4, E. change U64_VALUE_SIZE with 56. rewrite u32_small by lia.
      replace (56 * i + 56) with (56 * (i + 1)) by lia. apply IH; lia.
Qed.

Lemma each_rest_visits n : forall i a, 0 <= i -> i + Z.of_nat n <= len ws -> 14 * (i + Z.of_nat n - 1) < size ->
  14 * i <= size ->
  exists q, each_rest size cb n i ws (14 * i) a =
    (let l := positions ws (14 * i) (Z.min (14 * (i + Z.of_nat n)) size) in Ok (fst (visit l a), q, snd (visit l a))).
Proof.
  induction n as [|n IH]; intros i a Hi L Hs Hp; cbn [each_rest].
  - exists (14 * i). cbv zeta. unfold positions. rewrite seqZ_nil by lia. done.
  - destruct (lookup_lt_is_Some_2 ws (Z.to_nat i)) as [w E]; [unfold len in L; lia|].
    rewrite (word_ok _ _ _ E). cbn [rbind]. cbv zeta.
    rewrite (positions_app ws (14 * i) (Z.min (14 * i + 14) size)) by lia.
    assert (Tail : forall a, exists q, each_rest size cb n (i + 1) ws (14 * i + 14) a =
      (let l := positions ws (Z.min (14 * i + 14) size) (Z.min (14 * (i + Z.of_nat (S n))) size) in
       Ok (fst (visit l a), q, snd (visit l a)))).
    { intros a'. destruct n as [|n].
      - exists (14 * i + 14). cbv zeta. unfold positions. rewrite seqZ_nil by lia. done.
      - replace (Z.min (14 * i + 14) size) with (14 * (i + 1)) by lia.
        replace (i + Z.of_nat (S (S n))) with (i + 1 + Z.of_nat (S n)) by lia.
        replace (14 * i + 14) with (14 * (i + 1)) by lia. apply IH; lia. }
    rewrite visit_app. destruct (nonzero w) eqn:W; cbn [negb].
    + destruct (word_visits i w a Hi E Hp) as (q' & -> & Q). destruct (visit _ a) as [c a'] eqn:Vi. cbn [fst snd] in *.
      destruct c; [|by exists q']. rewrite Q by done. destruct n as [|n].
      * eexists. cbn [each_rest]. unfold positions. rewrite seqZ_nil by lia. done.
      * replace (Z.min (14 * i + 14) size) with (14 * i + 14) by lia.
        destruct (Tail a') as (q & Eq). exists q. rewrite Eq. by replace (Z.min (14 * i + 14) size) with (14 * i + 14) by lia.
    + apply negb_false_iff, Z.eqb_eq in W as ->. rewrite zero_positions by (done || lia). cbn [visit].
      change VALUE_SIZE with 14. rewrite u32_small by (unfold len in *; lia). apply Tail.
Qed.
End visit.

Lemma foreach_ok {A} (cb : Z -> A -> bool * A) b a : plain b ->
  foreach cb b a = Ok (snd (visit cb (positions (words b) 0 (m_size b)) a)).
Proof.
  intros P. pose proof (plain_bounds b P). pose proof (plain_alloc b P). pose proof (plain_size b P). pose proof (blocks_bound b P) as Bb.
  unfold foreach. change U64_DIV_BASE with 4 in *. change U64_VALUE_SIZE with 56 in *. set (m := m_size b / 56) in *.
  pose proof (Z.mul_div_le (m_size b) 56 ltac:(lia)) as Hm. fold m in Hm.
  destruct (each_block_visits (m_size b) cb (words b) (plain_limit b P) (Z.to_nat m) 0 a)
    as (r & E & q & -> & Q); [lia|lia|lia|].
  change (56 * 0) with 0 in *. rewrite E. cbn [rbind].
  rewrite (positions_app (words b) 0 (56 * (0 + Z.of_nat (Z.to_nat m))) (m_size b)), visit_app by lia.
  destruct (visit cb (positions (words b) 0 _) a) as [c a'] eqn:V. cbn [fst snd] in *. destruct c; [|done]. cbn [negb].
  rewrite Q by done. replace (56 * (0 + Z.of_nat (Z.to_nat m))) with (14 * (4 * m)) in * by lia.
  destruct (each_rest_visits (m_size b) cb (words b) (plain_limit b P) (Z.to_nat (m_dataSize b - 4 * m)) (4 * m) a')
    as (q2 & E2); [lia|lia|lia|lia|].
  rewrite E2. cbn [rbind].
  replace (4 * m + Z.of_nat (Z.to_nat (m_dataSize b - 4 * m))) with (m_dataSize b) by lia.
  by replace (Z.min (14 * m_dataSize b) (m_size b)) with (m_size b) by lia.
Qed.

Lemma visit_push l pos : visit (fun p pos => (true, pos ++ [p])) l pos = (true, pos ++ l).
Proof.
  revert pos. induction l as [|p l IH]; intros pos; cbn [visit]; [by rewrite app_nil_r|]. rewrite IH, <- app_assoc. done.
Qed.

(** ** Bits of overlays *)

Lemma overlay_lookup g ws : forall ys i, overlay g 0 ws ys !! i =
  match ws !! i, ys !! i with Some x, Some y => Some (g x y) | w, _ => w end.
Proof.
  induction ws as [|x ws IH]; intros ys i; [done|]. destruct ys as [|y ys]; cbn [overlay].
  - by destruct ((x :: ws) !! i).
  - destruct i as [|i]; [done|exact (IH ys i)].
Qed.

Lemma overlay_bit g h ws ys p : (forall x y i, 0 <= i -> Z.testbit (g x y) i = h (Z.testbit x i) (Z.testbit y i)) ->
  0 <= p -> (Z.to_nat (p / 14) < length ws)%nat -> (Z.to_nat (p / 14) < length ys)%nat ->
  bit (overlay g 0 ws ys) p = h (bit ws p) (bit ys p).
Proof.
  intros G Hp Lx Ly. destruct (lookup_lt_is_Some_2 ws _ Lx) as [x Ex]. destruct (lookup_lt_is_Some_2 ys _ Ly) as [y Ey].
  unfold bit. rewrite overlay_lookup, Ex, Ey. apply G, mod14.
Qed.

Lemma bit_uw b p : plain b -> 0 <= p < m_size b -> bit (uw b) p = bit (words b) p.
Proof.
  intros P Hp. pose proof (index_bound b p P Hp). unfold bit, uw. by rewrite lookup_take_lt by lia.
Qed.

Lemma assigned_bit g h a b p : (forall x y i, 0 <= i -> Z.testbit (g x y) i = h (Z.testbit x i) (Z.testbit y i)) ->
  plain a -> plain b -> m_size a = m_size b -> 0 <= p < m_size a ->
  bit (overlay g 0 (words a) (uw b)) p = h (bit (words a) p) (bit (words b) p).
Proof.
  intros G Pa Pb Sz Hp. pose proof (index_bound a p Pa Hp). pose proof (index_bound b p Pb ltac:(lia)).
  pose proof (plain_alloc a Pa). pose proof (length_uw b Pb).
  rewrite (overlay_bit g h) by (done || unfold len in *; lia). by rewrite bit_uw by (done || lia).
Qed.

(** ** Growing *)

Lemma used_grown b n (v : bool) : plain b -> m_dataSize b < n ->
  length (uw b ++ replicate (Z.to_nat (n - m_dataSize b)) (if v then 0xFFFF else 0)) = Z.to_nat n.
Proof. intros P L. pose proof (length_uw b P). rewrite length_app, length_replicate. lia. Qed.

Lemma MASK_bit k i : 0 <= k < 14 -> 0 <= i -> Z.testbit (MASK k) i = (i <? k).
Proof.
  intros Hk Hi. unfold MASK. rewrite POS_pow by done. pose proof (Z.pow_pos_nonneg 2 k ltac:(lia) ltac:(lia)).
  pose proof (Z.pow_lt_mono_r 2 k 16 ltac:(lia) ltac:(lia) ltac:(lia)). rewrite u16_small by lia.
  replace (2 ^ k - 1) with (Z.ones k) by (rewrite Z.ones_equiv; lia). apply Z.testbit_ones_nonneg; lia.
Qed.

(** * The theorems *)

(** C29: compressing a plain bitmap succeeds and takes no more words, and
    decompressing gives the words back, whatever the runs and their lengths. *)
Theorem Bitmap_compress_roundtrip (b : Bitmap) (P : plain b) :
  exists c, compress b = Ok c /\ m_compress c = true /\ m_size c = m_size b /\ m_dataSize c <= m_dataSize b /\
    uncompress c = Ok (mkBitmap false (m_size b) (m_dataSize b) (Some (uw b))).
Proof.
  destruct (compress_ok b P) as (c & E & C & L). exists c.
  destruct (used_compressed b c C) as (l & _ & _ & _ & _ & _ & Sz & Cp).
  split_and!; try done. by apply uncompress_ok.
Qed.

(** C30: [&=], [|=] and [cross] with a compressed operand are [&=], [|=] and [cross]
    with the bitmap it was compressed from, and are intersection, union and
    non-empty intersection of the bits. *)
Theorem Bitmap_compressed_operand (a b : Bitmap) (Pa : plain a) (Pb : plain b) (Sz : m_size a = m_size b) :
  exists c x y, compress b = Ok c /\
    and_assign a c = Ok x /\ and_assign a b = Ok x /\ or_assign a c = Ok y /\ or_assign a b = Ok y /\
    (forall p, 0 <= p < m_size a -> bit (words x) p = bit (words a) p && bit (words b) p /\
       bit (words y) p = bit (words a) p || bit (words b) p) /\
    cross a c = cross a b /\ cross a b = Ok (existsb nonzero (zip_with Z.land (uw a) (uw b))).
Proof.
  destruct (compress_ok b Pb) as (c & E & C & _). destruct (used_compressed b c C) as (l & _ & _ & _ & _ & _ & Sc & Cp).
  destruct (assign_compressed Z.land (fun pos count v ws => if negb v then set_range pos count false ws else Ok ws)
    a b c and_clean and_run Pa Pb Sz C) as (src & U & Ra).
  destruct (assign_compressed Z.lor (fun pos count (v : bool) ws => if v then set_range pos count true ws else Ok ws)
    a b c or_clean or_run Pa Pb Sz C) as (src' & U' & Ro).
  rewrite U in U'. injection U' as <-.
  exists c, (set_words (overlay Z.land 0 (words a) (uw b)) a), (set_words (overlay Z.lor 0 (words a) (uw b)) a).
  unfold and_assign, or_assign, cross. rewrite Sc, <- Sz, Z.eqb_refl, Cp, (plain_compress a Pa), (plain_compress b Pb).
  cbn [negb andb eqb]. rewrite U. cbn [rbind]. rewrite Ra, Ro, !combine_plain_ok by done. cbn [rbind].
  rewrite (compressCross_ok a b c), normalCross_ok by done. split_and!; try done.
  intros p Hp. rewrite !words_set. split; [apply (assigned_bit _ andb)|apply (assigned_bit _ orb)]; try done;
    intros; [apply Z.land_spec|apply Z.lor_spec].
Qed.

(** [set] changes the one bit and keeps the bitmap plain, [get] reads it, and
    [foreach] calls back on the bits set below the size, in ascending order, until
    it is told to stop; [listPosAsc] appends them all. *)
Theorem Bitmap_bits (b : Bitmap) (P : plain b) :
  (forall i v, 0 <= i < m_size b -> exists b', set i v b = Ok b' /\ plain b' /\ m_size b' = m_size b /\
     forall p, 0 <= p < m_size b -> get p b' = if i =? p then Ok v else get p b) /\
  (forall (A : Type) (cb : Z -> A -> bool * A) (a : A),
     foreach cb b a = Ok (snd (visit cb (positions (words b) 0 (m_size b)) a))) /\
  (forall pos, listPosAsc b pos = Ok (pos ++ positions (words b) 0 (m_size b))).
Proof.
  split_and!.
  - intros i v Hi. destruct (set_ok b i v P Hi) as (b' & E & P' & Sz & Bt). exists b'. split_and!; try done.
    intros p Hp. rewrite !get_ok, Bt by (done || lia). by destruct (i =? p).
  - intros. by apply foreach_ok.
  - intros pos. unfold listPosAsc. by rewrite foreach_ok, visit_push by done.
Qed.

(** growing keeps the bits of all words but the last one in use, and masks that
    one with the bits below the size, of which a size that fills its words has none:
    then growing by zeros clears the last fourteen bits, and growing by ones sets
    the bits that were there rather than the new ones of that word. *)
Theorem Bitmap_resize (b : Bitmap) (size : Z) (v : bool) (P : plain b) (Hn : m_dataSize b < words_for size) (H0 : 0 < m_size b) :
  exists b', resize size v b = Ok b' /\ m_size b' = size /\ m_dataSize b' = words_for size /\
    forall p, 0 <= p < size ->
      let i := p / 14 in
      let masked := p mod 14 <? m_size b mod 14 in
      bit (words b') p =
        if i <? m_dataSize b - 1 then bit (words b) p
        else if i =? m_dataSize b - 1 then (if v then bit (words b) p || masked else bit (words b) p && masked)
        else v.
Proof.
  pose proof (plain_bounds b P). pose proof (length_uw b P) as L. pose proof (plain_alloc b P). pose proof (plain_limit b P).
  unfold resize. rewrite (plain_compress b P). replace (m_dataSize b <? words_for size) with true by lia.
  rewrite (used_ok b P). cbn [rbind]. set (data := uw b ++ _). change VALUE_SIZE with 14.
  pose proof (used_grown b (words_for size) v P Hn) as Ld. fold data in Ld.
  destruct (lookup_lt_is_Some_2 data (Z.to_nat (m_dataSize b - 1))) as [w E]; [lia|].
  assert (Ew : words b !! Z.to_nat (m_dataSize b - 1) = Some w).
  { unfold data in E. rewrite lookup_app_l in E by lia. unfold uw in E. by apply lookup_take_Some in E as [E _]. }
  rewrite u32_small by (unfold len in *; lia). rewrite (word_ok _ _ _ E). cbn [rbind]. rewrite put_word_ok by (unfold len; lia).
  cbn [rbind]. eexists. split; [done|]. split; [done|]. split; [done|]. intros p Hp. cbv zeta.
  unfold bit at 1. unfold words at 1. cbn [m_data default id].
  pose proof (mod14 p) as Mp. pose proof (mod14 (m_size b)) as Ms. pose proof (Z.div_pos p 14 ltac:(lia) ltac:(lia)) as Dp.
  pose proof (words_for_bounds size ltac:(lia)) as Bs. pose proof (Z.div_mod p 14 ltac:(lia)).
  destruct (Z.ltb_spec (p / 14) (m_dataSize b - 1)) as [Lt|Ge].
  - rewrite list_lookup_insert_ne by lia. unfold data, bit. rewrite lookup_app_l by lia. unfold uw. by rewrite lookup_take_lt by lia.
  - destruct (Z.eqb_spec (p / 14) (m_dataSize b - 1)) as [Eq|Ne].
    + rewrite Eq, list_lookup_insert_eq by lia. unfold bit. rewrite Eq, Ew.
      destruct v; [rewrite Z.lor_spec|rewrite Z.land_spec]; by rewrite MASK_bit by lia.
    + rewrite list_lookup_insert_ne by lia. unfold data. rewrite lookup_app_r by lia. rewrite lookup_replicate_2 by lia.
      destruct v; [|apply Z.bits_0]. change 0xFFFF with (Z.ones 16). rewrite Z.testbit_ones_nonneg by lia. lia.
Qed.

(** Words with stray high bits, as [~] leaves them, do not survive compression: the
    partial word is taken for a run. *)
Example complement_compress :
  (let! b := set 0 true (new_Bitmap 28 0) in let! b := complement b in let! c := compress b in uncompress c) =
  Crash assertion_failed.
Proof. vm_compute. reflexivity. Qed.

(** [any] does not look at the last word of a size that fills its words, and takes the
    count of a run of zeros for set bits in the compressed form. *)
Example any_misses : (let! b := set 13 true (new_Bitmap 14 0) in any b) = Ok false.
Proof. vm_compute. reflexivity. Qed.

Example any_compressed_zeros : (let! c := compress (new_Bitmap 28 0) in any c) = Ok true.
Proof. vm_compute. reflexivity. Qed.

(** A run of more than 2^14 bits is miscounted in the compressed form. *)
Example getCount_long_run :
  getCount (mkBitmap true 16394 2 (Some [0xC00A; 0xC001])) = Ok 11.
Proof. vm_compute. reflexivity. Qed.

(** ** Witnesses *)

Definition plainb (b : Bitmap) : bool :=
  negb (m_compress b) && (0 <=? m_size b) && (m_dataSize b =? words_for (m_size b)) && (m_dataSize b <=? len (words b)) &&
  forallb (fun w => (0 <=? w) && (w <? 2 ^ 14)) (words b) && (14 * len (words b) <? 2 ^ 32 - 14).

Lemma plainb_ok b : plainb b = true -> plain b.
Proof.
  unfold plainb. rewrite !andb_true_iff, negb_true_iff. intros (((((E1 & E2) & E3) & E4) & E5) & E6).
  constructor; [done|lia|lia|lia| |lia]. apply List.Forall_forall. intros w W. rewrite forallb_forall in E5.
  specialize (E5 w W). cbn beta in E5. unfold clean. lia.
Qed.

(** Three runs and two literals. *)
Definition demo_bits : Bitmap :=
  mkBitmap false 110 8 (Some [0; 0; 0; COUNT_MASK; COUNT_MASK; 0x1234; 0; 5]).

Lemma Bitmap_compress_roundtrip_witness : exists c, compress demo_bits = Ok c /\ uncompress c = Ok demo_bits.
Proof.
  destruct (Bitmap_compress_roundtrip demo_bits (plainb_ok demo_bits eq_refl)) as (c & E & _ & _ & _ & U).
  exists c. split; [exact E|exact U].
Defined.

Lemma Bitmap_compressed_operand_witness : exists c x, compress demo_bits = Ok c /\ and_assign demo_bits c = Ok x.
Proof.
  destruct (Bitmap_compressed_operand demo_bits demo_bits (plainb_ok demo_bits eq_refl) (plainb_ok demo_bits eq_refl) eq_refl)
    as (c & x & y & E & X & _).
  exists c, x. split; [exact E|exact X].
Defined.

Lemma Bitmap_bits_witness : listPosAsc demo_bits [] = Ok (positions (words demo_bits) 0 110).
Proof. destruct (Bitmap_bits demo_bits (plainb_ok demo_bits eq_refl)) as (_ & _ & L). exact (L []). Defined.

(** Growing a full bitmap of 28 bits by zeros. *)
Definition full_bits : Bitmap := mkBitmap false 28 2 (Some [COUNT_MASK; COUNT_MASK]).

Lemma Bitmap_resize_witness : exists b', resize 30 false full_bits = Ok b' /\ bit (words b') 20 = false.
Proof.
  destruct (Bitmap_resize full_bits 30 false (plainb_ok full_bits eq_refl) ltac:(reflexivity) ltac:(reflexivity)) as (b' & E & _ & _ & B).
  exists b'. split; [exact E|]. exact (B 20 ltac:(lia)).
Defined.
