(* ===== verification/Shards.v ===== *)
(** A cache split over buckets: what [HashLruCache], [HashTimedLruCache] and
    [HashTimedCache] (include/ds/lru_cache.hpp, timed_lru_cache.hpp, timed_cache.hpp) have
    in common. The three templates repeat one another; here the bucket array is written
    once, over the interface [CacheOps] that the cache of a bucket implements, and the
    theorems of the bucket array are proved once, against [CacheLaws]. *)
From stdpp Require Import gmap.
From S2P Require Import Prelude.

(** What the bucket array calls on a bucket; [E] is what the buckets share. *)
Class CacheOps (C E : Type) := {
  cache_new : Z -> Z -> C;
  cache_size : C -> Z;
  cache_empty : C -> bool;
  cache_clear : C -> C;
  cache_setMaxSize : Z -> C -> C;
  cache_setElasticity : Z -> C -> C;
  cache_setPruneCallback : bool -> C -> C;
}.

Record Sharded (C E : Type) := mkSharded {
  m_datas : list C;
  h_maxSize : Z;
  m_bucket : Z;
  h_elasticity : Z;
  h_env : E;
}.
Arguments mkSharded {C E}.
Arguments m_datas {C E}.
Arguments h_maxSize {C E}.
Arguments m_bucket {C E}.
Arguments h_elasticity {C E}.
Arguments h_env {C E}.

(** [std::ceil(n * 1.0 / bucket)], exact in a [double] for the sizes below 2^52 that a
    cache can have. *)
Definition per_bucket (n bucket : Z) : Z := (n + bucket - 1) / bucket.

Section shards.
Context {C E : Type} `{CacheOps C E}.

(** No buckets: the quotient is not finite, and its conversion undefined. *)
Definition new_Sharded (env : E) (bucket max_size elasticity : Z) : res (Sharded C E) :=
  if bucket =? 0 then Crash division_by_zero else
  let pre_max_size := per_bucket max_size bucket in
  let pre_elasticity := per_bucket elasticity bucket in
  Ok (mkSharded (replicate (Z.to_nat bucket) (cache_new pre_max_size pre_elasticity))
        (u64 (pre_max_size * bucket)) bucket (u64 (pre_elasticity * bucket)) env).

Definition put_shard (i : nat) (c : C) (e : E) (h : Sharded C E) : Sharded C E :=
  mkSharded (<[i := c]> (m_datas h)) (h_maxSize h) (m_bucket h) (h_elasticity h) e.

(** [m_datas[m_hash(k) % m_bucket]->op(...)] *)
Definition on_shard {K A} (m_hash : K -> Z) (k : K) (op : C -> E -> res (A * C * E)) (h : Sharded C E) : res (A * Sharded C E) :=
  if m_bucket h =? 0 then Crash division_by_zero
  else
    let i := Z.to_nat (m_hash k mod m_bucket h) in
    match m_datas h !! i with
    | Some c => let! (a, c, e) := op c (h_env h) in Ok (a, put_shard i c e h)
    | None => Crash out_of_bounds
    end.

Definition sharded_size (h : Sharded C E) : Z := foldl (fun total c => u64 (total + cache_size c)) 0 (m_datas h).
Definition sharded_empty (h : Sharded C E) : bool := forallb cache_empty (m_datas h).

Definition map_shards (f : C -> C) (h : Sharded C E) : Sharded C E :=
  mkSharded (map f (m_datas h)) (h_maxSize h) (m_bucket h) (h_elasticity h) (h_env h).

Definition sharded_clear : Sharded C E -> Sharded C E := map_shards cache_clear.
Definition sharded_getMaxAllowedSize (h : Sharded C E) : Z := u64 (h_maxSize h + h_elasticity h).

Definition sharded_setMaxSize (v : Z) (h : Sharded C E) : Sharded C E :=
  let n := per_bucket v (m_bucket h) in
  let h := map_shards (cache_setMaxSize n) h in
  mkSharded (m_datas h) (u64 (n * m_bucket h)) (m_bucket h) (h_elasticity h) (h_env h).

Definition sharded_setElasticity (v : Z) (h : Sharded C E) : Sharded C E :=
  let n := per_bucket v (m_bucket h) in
  let h := map_shards (cache_setElasticity n) h in
  mkSharded (m_datas h) (h_maxSize h) (m_bucket h) (u64 (n * m_bucket h)) (h_env h).

Definition sharded_setPruneCallback (cb : bool) : Sharded C E -> Sharded C E := map_shards (cache_setPruneCallback cb).

(** [checkTimeout] of every shard in turn. *)
Fixpoint each_shard (op : C -> E -> res (Z * C * E)) (cs : list C) (size : Z) (e : E) : res (Z * list C * E) :=
  match cs with
  | [] => Ok (size, [], e)
  | c :: cs =>
      let! (n, c, e) := op c e in
      let! (size, cs, e) := each_shard op cs (u64 (size + n)) e in
      Ok (size, c :: cs, e)
  end.

Definition sharded_checkTimeout (op : C -> E -> res (Z * C * E)) (h : Sharded C E) : res (Z * Sharded C E) :=
  let! (size, cs, e) := each_shard op (m_datas h) 0 (h_env h) in
  Ok (size, mkSharded cs (h_maxSize h) (m_bucket h) (h_elasticity h) e).
End shards.

(** ** The laws *)

(** A cache stands for a list of items, each under its key; [crel] is the invariant and the
    abstraction of a bucket whose limits are [p] and [q]. *)
Class CacheLaws (C E K X : Type) `{CacheOps C E} := {
  crel : Z -> Z -> C -> list (K * X) -> Prop;
  crel_new p q : 0 <= p -> 0 <= q -> p + q < 2 ^ 64 -> crel p q (cache_new p q) [];
  crel_size p q c l : crel p q c l -> cache_size c = len l;
  crel_keys p q c l : crel p q c l -> NoDup (l.*1);
  crel_clear p q c l : crel p q c l -> crel p q (cache_clear c) [];
}.

Section laws.
Context {C E K X : Type} `{CacheLaws C E K X} (hash : K -> Z).

Definition shard_index (bucket : Z) (k : K) : nat := Z.to_nat (hash k mod bucket).

(** Every key is in the shard it hashes to. *)
Definition placed (bucket : Z) (ls : list (list (K * X))) : Prop :=
  forall i l k, ls !! i = Some l -> k ∈ l.*1 -> shard_index bucket k = i.

Record hrel (p q : Z) (h : Sharded C E) (ls : list (list (K * X))) : Prop := {
  hrel_shards : Forall2 (fun c l => crel p q c l) (m_datas h) ls;
  hrel_bucket : m_bucket h = Z.of_nat (length ls);
  hrel_some : 0 < m_bucket h;
  hrel_placed : placed (m_bucket h) ls;
}.

(** What an operation on [k] promises of the bucket it acts on: from the items [l] to [l']. *)
Definition op_ok {A} (p q : Z) (k : K) (op : C -> E -> res (A * C * E)) (l : list (K * X)) (r : A) (l' : list (K * X)) : Prop :=
  (forall c e, crel p q c l -> exists c' e', op c e = Ok (r, c', e') /\ crel p q c' l') /\
  (forall k', k' ∈ l'.*1 -> k' = k \/ k' ∈ l.*1).

Definition items_at (bucket : Z) (k : K) (ls : list (list (K * X))) : list (K * X) :=
  default [] (ls !! shard_index bucket k).

Lemma shard_ok p q h ls k : hrel p q h ls -> exists c,
  ls !! shard_index (m_bucket h) k = Some (items_at (m_bucket h) k ls) /\
  m_datas h !! shard_index (m_bucket h) k = Some c /\ crel p q c (items_at (m_bucket h) k ls).
Proof.
  intros R. pose proof (hrel_some p q h ls R) as B. pose proof (hrel_bucket p q h ls R) as Eb.
  pose proof (Z.mod_pos_bound (hash k) (m_bucket h) B) as M.
  destruct (lookup_lt_is_Some_2 ls (shard_index (m_bucket h) k)) as [l El]; [unfold shard_index; lia|].
  unfold items_at. rewrite El. destruct (Forall2_lookup_r _ _ _ _ _ (hrel_shards p q h ls R) El) as (c & Ec & Rc). by exists c.
Qed.

(** An operation acts on the shard of its key as it acts on a cache, and on no other. *)
Lemma on_shard_ok {A} p q h ls k (op : C -> E -> res (A * C * E)) r l' :
  hrel p q h ls -> op_ok p q k op (items_at (m_bucket h) k ls) r l' ->
  exists h', on_shard hash k op h = Ok (r, h') /\ hrel p q h' (<[shard_index (m_bucket h) k := l']> ls) /\ m_bucket h' = m_bucket h /\
    items_at (m_bucket h) k (<[shard_index (m_bucket h) k := l']> ls) = l'.
Proof.
  intros R [Op Ks]. destruct (shard_ok p q h ls k R) as (c & El & Ec & Rc). destruct (Op c (h_env h) Rc) as (c' & e' & Eo & Rc').
  unfold on_shard. pose proof (hrel_some p q h ls R) as B. replace (m_bucket h =? 0) with false by lia. cbv zeta.
  fold (shard_index (m_bucket h) k). rewrite Ec, Eo. cbn [rbind]. eexists. split; [done|].
  assert (Lt : (shard_index (m_bucket h) k < length ls)%nat) by (by eapply lookup_lt_Some).
  split_and!; [|done|unfold items_at; by rewrite list_lookup_insert_eq]. destruct R as [R1 R2 R3 R4]. constructor; cbn; try done.
  - by apply Forall2_insert.
  - by rewrite length_insert.
  - intros i l k' E' I. apply list_lookup_insert_Some in E' as [(<- & <- & _)|[_ E']]; [|by eapply R4].
    apply Ks in I as [->|I]; [done|]. by apply (R4 _ (items_at (m_bucket h) k ls)).
Qed.

Lemma sharded_size_ok p q h ls : hrel p q h ls -> len (concat ls) < 2 ^ 64 -> sharded_size h = len (concat ls).
Proof.
  intros R L. pose proof (hrel_shards p q h ls R) as F. unfold sharded_size.
  assert (G : forall n, 0 <= n -> n + len (concat ls) < 2 ^ 64 ->
    foldl (fun total c => u64 (total + cache_size c)) n (m_datas h) = n + len (concat ls)); [|by apply G].
  clear R L. induction F as [|c l cs ls R F IH]; intros n Hn L; cbn [foldl concat] in *; [unfold len; cbn; lia|].
  unfold len in L. rewrite length_app in L. rewrite (crel_size p q c l R), u64_small by (unfold len; lia).
  rewrite IH by (unfold len; lia). unfold len. rewrite length_app. lia.
Qed.

(** No key is in two shards. *)
Lemma sharded_keys p q h ls : hrel p q h ls -> NoDup ((concat ls).*1).
Proof.
  intros R. pose proof (hrel_placed p q h ls R) as P. pose proof (hrel_shards p q h ls R) as F.
  assert (G : forall off, (forall i l k, ls !! i = Some l -> k ∈ l.*1 -> shard_index (m_bucket h) k = (off + i)%nat) ->
    NoDup ((concat ls).*1)); [|by apply (G 0%nat)].
  clear R P. induction F as [|c l cs ls Rc F IH]; intros off P; [constructor|]. cbn. rewrite fmap_app. apply list.NoDup_app.
  split_and!; [by eapply crel_keys| |apply (IH (S off)); intros i l' k E' I; rewrite (P (S i) l' k E' I); lia].
  intros k I J. pose proof (P 0%nat l k eq_refl I) as E0. apply list_elem_of_fmap in J as (x & -> & J).
  apply list_elem_of_In, in_concat in J as (l' & Hl & J). apply list_elem_of_In, list_elem_of_lookup in Hl as [i Hl].
  assert (x.1 ∈ l'.*1) as I' by (apply list_elem_of_fmap; exists x; by rewrite list_elem_of_In).
  pose proof (P (S i) l' x.1 Hl I'). lia.
Qed.

Lemma new_sharded env bucket max_size elasticity : 0 < bucket -> 0 <= max_size -> 0 <= elasticity ->
  per_bucket max_size bucket + per_bucket elasticity bucket < 2 ^ 64 ->
  exists h, new_Sharded env bucket max_size elasticity = Ok h /\ m_bucket h = bucket /\
    hrel (per_bucket max_size bucket) (per_bucket elasticity bucket) h (replicate (Z.to_nat bucket) []).
Proof.
  intros B Hm He L. unfold new_Sharded. replace (bucket =? 0) with false by lia. eexists. split; [done|]. split; [done|].
  assert (0 <= per_bucket max_size bucket /\ 0 <= per_bucket elasticity bucket) as [P Q] by (unfold per_bucket; split; apply Z.div_pos; lia).
  constructor; cbn; [|rewrite length_replicate; lia|done|].
  - induction (Z.to_nat bucket); constructor; [by apply crel_new|done].
  - intros i l k E' I. apply lookup_replicate in E' as [-> _]. by apply not_elem_of_nil in I.
Qed.
End laws.
