(* ===== verification/LruCache.v ===== *)
(** The least-recently-used cache [CIM::ds::LruCache] and its sharded form
    [HashLruCache] (include/ds/lru_cache.hpp), with the counters of
    [CIM::ds::CacheStatus] (include/ds/cache_status.hpp).

    [m_keys] is the list of nodes, each under the number that stands for its address;
    [m_cache] maps a key to such a number, as the code maps it to an iterator. The
    counters and the calls of the prune callback are the [Env] an operation runs in,
    since shards share them. An operation runs under the mutex from beginning to end
    (the hit counter apart, which is atomic), so it is one step. *)
From stdpp Require Import gmap.
From S2P Require Import Prelude Shards.

(** ** Counters *)

Record CacheStatus := mkCacheStatus {
  m_get : Z; m_set : Z; m_del : Z; m_timeout : Z; m_prune : Z; m_hit : Z;
}.

Definition new_CacheStatus : CacheStatus := mkCacheStatus 0 0 0 0 0 0.

(** [Atomic::addFetch] on an [int64_t]. *)
Definition incGet (v : Z) (s : CacheStatus) : CacheStatus :=
  mkCacheStatus (s64 (m_get s + v)) (m_set s) (m_del s) (m_timeout s) (m_prune s) (m_hit s).
Definition incSet (v : Z) (s : CacheStatus) : CacheStatus :=
  mkCacheStatus (m_get s) (s64 (m_set s + v)) (m_del s) (m_timeout s) (m_prune s) (m_hit s).
Definition incDel (v : Z) (s : CacheStatus) : CacheStatus :=
  mkCacheStatus (m_get s) (m_set s) (s64 (m_del s + v)) (m_timeout s) (m_prune s) (m_hit s).
Definition incPrune (v : Z) (s : CacheStatus) : CacheStatus :=
  mkCacheStatus (m_get s) (m_set s) (m_del s) (m_timeout s) (s64 (m_prune s + v)) (m_hit s).
Definition incHit (v : Z) (s : CacheStatus) : CacheStatus :=
  mkCacheStatus (m_get s) (m_set s) (m_del s) (m_timeout s) (m_prune s) (s64 (m_hit s + v)).

(** [merge]: a plain signed addition, whose overflow is undefined. *)
Definition add_counter (a b : Z) : res Z :=
  let n := a + b in if (- 2 ^ 63 <=? n) && (n <? 2 ^ 63) then Ok n else Crash signed_overflow.
Definition merge (o s : CacheStatus) : res CacheStatus :=
  let! a := add_counter (m_get s) (m_get o) in
  let! b := add_counter (m_set s) (m_set o) in
  let! c := add_counter (m_del s) (m_del o) in
  let! d := add_counter (m_timeout s) (m_timeout o) in
  let! e := add_counter (m_prune s) (m_prune o) in
  let! f := add_counter (m_hit s) (m_hit o) in
  Ok (mkCacheStatus a b c d e f).

Section cache.
Context {K V : Type} `{Countable K} `{Inhabited V}.

(** What an operation may change outside its cache. *)
Record Env := mkEnv { env_status : CacheStatus; env_pruned : list (K * V) }.

Definition count (f : CacheStatus -> CacheStatus) (e : Env) : Env := mkEnv (f (env_status e)) (env_pruned e).

Record LruCache := mkLruCache {
  m_cache : gmap K nat;
  m_keys : list (nat * (K * V));
  m_maxSize : Z;
  m_elasticity : Z;
  m_cb : bool;
  next_node : nat;
}.

Definition new_LruCache (max_size elasticity : Z) : LruCache := mkLruCache empty [] max_size elasticity false 0.

Definition set_maps (cache : gmap K nat) (keys : list (nat * (K * V))) (c : LruCache) : LruCache :=
  mkLruCache cache keys (m_maxSize c) (m_elasticity c) (m_cb c) (next_node c).
Definition setMaxSize (v : Z) (c : LruCache) : LruCache :=
  mkLruCache (m_cache c) (m_keys c) v (m_elasticity c) (m_cb c) (next_node c).
Definition setElasticity (v : Z) (c : LruCache) : LruCache :=
  mkLruCache (m_cache c) (m_keys c) (m_maxSize c) v (m_cb c) (next_node c).
Definition setPruneCallback (cb : bool) (c : LruCache) : LruCache :=
  mkLruCache (m_cache c) (m_keys c) (m_maxSize c) (m_elasticity c) cb (next_node c).
Definition getMaxAllowedSize (c : LruCache) : Z := u64 (m_maxSize c + m_elasticity c).

(** The node an iterator points to. *)
Definition node_index (it : nat) (keys : list (nat * (K * V))) : res (nat * (K * V)) :=
  match list_find (fun n => n.1 = it) keys with
  | Some (i, (_, item)) => Ok (i, item)
  | None => Crash null_deref
  end.

(** [it->second->second = v] *)
Definition assign (it : nat) (v : V) (keys : list (nat * (K * V))) : res (list (nat * (K * V))) :=
  let! (i, item) := node_index it keys in Ok (<[i := (it, (item.1, v))]> keys).

(** [m_keys.splice(m_keys.begin(), m_keys, it)] *)
Definition splice_front (it : nat) (keys : list (nat * (K * V))) : res (list (nat * (K * V))) :=
  let! (i, item) := node_index it keys in Ok ((it, item) :: delete i keys).

(** [m_keys.erase(it)] *)
Definition erase (it : nat) (keys : list (nat * (K * V))) : res (list (nat * (K * V))) :=
  let! (i, _) := node_index it keys in Ok (delete i keys).

Definition map_size (m : gmap K nat) : Z := Z.of_nat (size m).

(** [while (m_cache.size() > m_maxSize)]: every turn drops the last node; [back()] of
    an empty list is undefined. *)
Fixpoint prune_loop (fuel : nat) (c : LruCache) (n : Z) (e : Env) : res (Z * LruCache * Env) :=
  if negb (m_maxSize c <? map_size (m_cache c)) then Ok (n, c, e)
  else match fuel with
       | O => Crash nontermination
       | S fuel =>
           match m_keys c !! (length (m_keys c) - 1)%nat with
           | None => Crash null_deref
           | Some (_, item) =>
               let e := if m_cb c then mkEnv (env_status e) (env_pruned e ++ [item]) else e in
               let c := set_maps (delete item.1 (m_cache c)) (take (length (m_keys c) - 1) (m_keys c)) c in
               prune_loop fuel c (n + 1) e
           end
       end.

Definition prune (c : LruCache) (e : Env) : res (Z * LruCache * Env) :=
  if (m_maxSize c =? 0) || (map_size (m_cache c) <? getMaxAllowedSize c) then Ok (0, c, e)
  else
    let! (n, c, e) := prune_loop (length (m_keys c)) c 0 e in
    Ok (n, c, count (incPrune (s64 n)) e).

Definition set (k : K) (v : V) (c : LruCache) (e : Env) : res (LruCache * Env) :=
  let e := count (incSet 1) e in
  match m_cache c !! k with
  | Some it =>
      let! keys := assign it v (m_keys c) in
      let! keys := splice_front it keys in
      Ok (set_maps (m_cache c) keys c, e)
  | None =>
      let it := next_node c in
      let c := mkLruCache (<[k := it]> (m_cache c)) ((it, (k, v)) :: m_keys c) (m_maxSize c) (m_elasticity c) (m_cb c) (S it) in
      let! (_, c, e) := prune c e in
      Ok (c, e)
  end.

(** [get(k, v)]: whether it is there, and the value stored to [v]. *)
Definition get (k : K) (c : LruCache) (e : Env) : res (option V * LruCache * Env) :=
  let e := count (incGet 1) e in
  match m_cache c !! k with
  | None => Ok (None, c, e)
  | Some it =>
      let! keys := splice_front it (m_keys c) in
      let! (_, item) := node_index it keys in
      Ok (Some item.2, set_maps (m_cache c) keys c, count (incHit 1) e)
  end.

(** [get(k)]: [V()] when it is not there. *)
Definition get_or_default (k : K) (c : LruCache) (e : Env) : res (V * LruCache * Env) :=
  let! (v, c, e) := get k c e in Ok (default inhabitant v, c, e).

Definition del (k : K) (c : LruCache) (e : Env) : res (bool * LruCache * Env) :=
  let e := count (incDel 1) e in
  match m_cache c !! k with
  | None => Ok (false, c, e)
  | Some it =>
      let! keys := erase it (m_keys c) in
      Ok (true, set_maps (delete k (m_cache c)) keys c, e)
  end.

Definition exists_ (k : K) (c : LruCache) : bool := bool_decide (is_Some (m_cache c !! k)).
Definition size_ (c : LruCache) : Z := map_size (m_cache c).
Definition empty_ (c : LruCache) : bool := bool_decide (m_cache c = empty).
Definition clear (c : LruCache) : bool * LruCache := (true, set_maps empty [] c).

(** [foreach]: every key with its value, in the order of the map. *)
Definition foreach (c : LruCache) : res (list (K * V)) :=
  foldr (fun kit r => let! l := r in let! (_, item) := node_index kit.2 (m_keys c) in Ok ((kit.1, item.2) :: l))
    (Ok []) (map_to_list (m_cache c)).

(** ** Shards *)

#[export] Instance LruCache_ops : CacheOps LruCache Env := {|
  cache_new := new_LruCache;
  cache_size := size_;
  cache_empty := empty_;
  cache_clear c := snd (clear c);
  cache_setMaxSize := setMaxSize;
  cache_setElasticity := setElasticity;
  cache_setPruneCallback := setPruneCallback;
|}.

Definition HashLruCache : Type := Sharded LruCache Env.

Definition new_HashLruCache : Z -> Z -> Z -> res HashLruCache := new_Sharded (mkEnv new_CacheStatus []).

Section shards.
Context (m_hash : K -> Z).

Definition hash_set (k : K) (v : V) : HashLruCache -> res (unit * HashLruCache) :=
  on_shard m_hash k (fun c e => let! (c, e) := set k v c e in Ok (tt, c, e)).
Definition hash_get (k : K) : HashLruCache -> res (option V * HashLruCache) := on_shard m_hash k (get k).
Definition hash_get_or_default (k : K) : HashLruCache -> res (V * HashLruCache) := on_shard m_hash k (get_or_default k).
Definition hash_del (k : K) : HashLruCache -> res (bool * HashLruCache) := on_shard m_hash k (del k).
Definition hash_exists (k : K) : HashLruCache -> res (bool * HashLruCache) :=
  on_shard m_hash k (fun c e => Ok (exists_ k c, c, e)).
End shards.
End cache.
Arguments Env : clear implicits.
Arguments LruCache K V {_ _}.
Arguments HashLruCache K V {_ _}.
