(* ===== verification/LruCacheSpec.v ===== *)
(** The caches against their specification: a list of items, the most recent first. *)
From stdpp Require Import gmap.
From S2P Require Import Prelude Shards LruCache.

Section spec.
Context {K V : Type} `{Countable K}.

(** ** The specification *)

Fixpoint find (k : K) (l : list (K * V)) : option V :=
  match l with
  | [] => None
  | x :: l => if decide (x.1 = k) then Some x.2 else find k l
  end.

Fixpoint remove (k : K) (l : list (K * V)) : list (K * V) :=
  match l with
  | [] => []
  | x :: l => if decide (x.1 = k) then l else x :: remove k l
  end.

(** The items kept and those dropped, the oldest first. *)
Definition trim (max allowed : Z) (l : list (K * V)) : list (K * V) * list (K * V) :=
  if (max =? 0) || (len l <? allowed) then (l, [])
  else (take (Z.to_nat max) l, reverse (drop (Z.to_nat max) l)).

Definition spec_set (max allowed : Z) (k : K) (v : V) (l : list (K * V)) : list (K * V) * list (K * V) :=
  match find k l with
  | Some _ => ((k, v) :: remove k l, [])
  | None => trim max allowed ((k, v) :: l)
  end.

Definition spec_get (k : K) (l : list (K * V)) : option V * list (K * V) :=
  match find k l with
  | Some v => (Some v, (k, v) :: remove k l)
  | None => (None, l)
  end.

(** ** Lists *)

Lemma find_split k l : match find k l with
  | Some v => exists l1 l2, l = l1 ++ (k, v) :: l2 /\ k ∉ l1.*1
  | None => k ∉ l.*1
  end.
Proof.
  induction l as [|[k' v'] l IH]; cbn; [by apply not_elem_of_nil|]. destruct (decide (k' = k)) as [->|N].
  - exists [], l. split; [done|]. by apply not_elem_of_nil.
  - destruct (find k l) as [v|].
    + destruct IH as (l1 & l2 & -> & I). exists ((k', v') :: l1), l2. split; [done|]. by apply not_elem_of_cons.
    + by apply not_elem_of_cons.
Qed.

Lemma find_middle k v l1 l2 : k ∉ l1.*1 -> find k (l1 ++ ((k, v) :: l2)) = Some v /\
  remove k (l1 ++ (k, v) :: l2) = l1 ++ l2.
Proof.
  induction l1 as [|[k' v'] l1 IH]; intros N; cbn; [by destruct (decide (k = k))|].
  apply not_elem_of_cons in N as [N1 N]. destruct (decide (k' = k)) as [->|]; [done|].
  destruct (IH N) as [E1 E2]. split; [exact E1|]. f_equal. exact E2.
Qed.

Lemma NoDup_middle k v l1 l2 : NoDup (((l1 ++ (k, v) :: l2) : list (K * V)).*1) ->
  (k ∉ l1.*1) /\ (k ∉ (l1 ++ l2).*1) /\ NoDup ((l1 ++ l2).*1).
Proof.
  rewrite !fmap_app. cbn. intros N. apply list.NoDup_app in N as (N1 & N2 & N3). apply list.NoDup_cons in N3 as [N3 N4].
  assert (k ∉ l1.*1) as I by (intros I; apply (N2 _ I); left).
  split_and!; [done|by rewrite elem_of_app; intros []|]. apply list.NoDup_app. split_and!; [done| |done].
  intros x Hx. specialize (N2 x Hx). by apply not_elem_of_cons in N2 as [_ N2].
Qed.

(** ** The representation *)

Definition index (n : nat * (K * V)) : K * nat := (n.2.1, n.1).

Record rel (c : LruCache K V) (l : list (K * V)) : Prop := {
  rel_items : (m_keys c).*2 = l;
  rel_keys : NoDup (l.*1);
  rel_nodes : NoDup ((m_keys c).*1);
  rel_map : m_cache c = list_to_map (map index (m_keys c));
  rel_fresh : forall it, it ∈ (m_keys c).*1 -> (it < next_node c)%nat;
}.

(** The limits and the callback, which the operations leave alone. *)
Definition conf (c : LruCache K V) : Z * Z * bool := (m_maxSize c, m_elasticity c, m_cb c).

Lemma index_keys (ks : list (nat * (K * V))) : (map index ks).*1 = (ks.*2).*1.
Proof. induction ks as [|[it [k v]] ks IH]; [done|]. cbn. by f_equal. Qed.

Lemma rel_index_keys c l : rel c l -> NoDup ((map index (m_keys c)).*1).
Proof. intros R. rewrite index_keys, (rel_items c l R). apply R. Qed.

Lemma rel_size c l : rel c l -> map_size (m_cache c) = len l.
Proof.
  intros R. unfold map_size, len. rewrite (rel_map c l R), map_size_list_to_map by (by apply (rel_index_keys c l)).
  rewrite <- (rel_items c l R), length_map, length_fmap. done.
Qed.

(** A node of its own number. *)
Lemma node_index_middle it item k1 k2 : it ∉ k1.*1 ->
  node_index it (k1 ++ (it, item) :: k2 : list (nat * (K * V))) = Ok (length k1, item).
Proof.
  intros N. unfold node_index.
  assert (F : list_find (fun n : nat * (K * V) => n.1 = it) (k1 ++ (it, item) :: k2) = Some (length k1, (it, item))).
  { apply list_find_Some. split_and!; [by rewrite lookup_app_r, Nat.sub_diag by lia|done|].
    intros j y Hj Hl Ey. apply N. rewrite lookup_app_l in Hj by done. apply list_elem_of_fmap.
    exists y. split; [by rewrite Ey|]. by eapply list_elem_of_lookup_2. }
  by rewrite F.
Qed.

Lemma rel_lookup c l k : rel c l -> match m_cache c !! k with
  | Some it => exists k1 k2 v, m_keys c = k1 ++ (it, (k, v)) :: k2 /\ (it ∉ k1.*1) /\ (k ∉ (k1.*2).*1) /\
      find k l = Some v /\ remove k l = k1.*2 ++ k2.*2
  | None => find k l = None
  end.
Proof.
  intros R. rewrite (rel_map c l R). pose proof (rel_index_keys c l R) as N. pose proof (rel_keys c l R) as Nk.
  destruct (list_to_map (map index (m_keys c)) !! k) as [it|] eqn:E.
  - apply elem_of_list_to_map_2 in E. apply list_elem_of_fmap in E as ([it' [k' v]] & E & I). injection E as -> ->.
    apply list_elem_of_split in I as (k1 & k2 & Ek). pose proof (rel_nodes c l R) as Nn. rewrite Ek in Nn.
    rewrite fmap_app in Nn. cbn in Nn. apply list.NoDup_app in Nn as (_ & Nn & _).
    pose proof (rel_items c l R) as El. rewrite Ek, fmap_app in El. cbn in El. rewrite <- El in Nk |- *.
    destruct (NoDup_middle k' v (k1.*2) (k2.*2) Nk) as (N1 & _).
    destruct (find_middle k' v (k1.*2) (k2.*2) N1) as [F1 F2].
    exists k1, k2, v. split_and!; try done. intros I. apply (Nn _ I). left.
  - apply not_elem_of_list_to_map_2 in E. rewrite index_keys, (rel_items c l R) in E.
    pose proof (find_split k l) as F. destruct (find k l) as [v|]; [|done].
    destruct F as (l1 & l2 & -> & _). destruct E. rewrite fmap_app. apply elem_of_app. right. left.
Qed.

(** The nodes in another order. *)
Lemma rel_permute c l ks : rel c l -> ks ≡ₚ m_keys c -> rel (set_maps (m_cache c) ks c) (ks.*2).
Proof.
  intros R P. constructor; cbn; [done| | | |].
  - rewrite P, (rel_items c l R). apply R.
  - rewrite P. apply R.
  - rewrite (rel_map c l R). apply list_to_map_proper; [by apply (rel_index_keys c l)|]. by apply Permutation_map.
  - intros it. rewrite P. apply R.
Qed.

(** A node less. *)
Lemma rel_erase c l it k v k1 k2 : rel c l -> m_keys c = k1 ++ (it, (k, v)) :: k2 ->
  rel (set_maps (delete k (m_cache c)) (k1 ++ k2) c) (k1.*2 ++ k2.*2).
Proof.
  intros R E. pose proof (rel_keys c l R) as N. rewrite <- (rel_items c l R), E, fmap_app in N. cbn in N.
  destruct (NoDup_middle k v _ _ N) as (_ & I & N').
  assert (P : m_keys c ≡ₚ (it, (k, v)) :: k1 ++ k2) by (by rewrite E, Permutation_middle).
  constructor; cbn.
  - by rewrite fmap_app.
  - done.
  - pose proof (rel_nodes c l R) as Nn. rewrite P in Nn. cbn in Nn. by apply list.NoDup_cons in Nn as [_ Nn].
  - rewrite (rel_map c l R).
    rewrite (list_to_map_proper _ (index (it, (k, v)) :: map index (k1 ++ k2)));
      [|by apply (rel_index_keys c l)|by rewrite P].
    cbn. rewrite delete_insert_id; [done|]. apply not_elem_of_list_to_map_1. by rewrite index_keys, fmap_app.
  - intros j Hj. apply (rel_fresh c l R). rewrite P. right. done.
Qed.

(** ** The operations *)

Lemma set_maps_id (c : LruCache K V) : set_maps (m_cache c) (m_keys c) c = c.
Proof. by destruct c. Qed.

Lemma conf_set_maps m ks (c : LruCache K V) : conf (set_maps m ks c) = conf c.
Proof. done. Qed.

Lemma splice_ok it item k1 k2 : it ∉ k1.*1 ->
  splice_front it (k1 ++ (it, item) :: k2 : list (nat * (K * V))) = Ok ((it, item) :: k1 ++ k2).
Proof. intros N. unfold splice_front. rewrite node_index_middle by done. cbn [rbind]. by rewrite delete_middle. Qed.

(** Moving a node to the front, with a value of its own. *)
Lemma rel_front c l it k v v' k1 k2 : rel c l -> m_keys c = k1 ++ (it, (k, v)) :: k2 ->
  rel (set_maps (m_cache c) ((it, (k, v')) :: k1 ++ k2) c) ((k, v') :: k1.*2 ++ k2.*2).
Proof.
  intros R E. assert (P : m_keys c ≡ₚ (it, (k, v)) :: k1 ++ k2) by (by rewrite E, Permutation_middle).
  pose proof (rel_keys c l R) as N. rewrite <- (rel_items c l R), P in N.
  constructor; cbn.
  - by rewrite fmap_app.
  - cbn in N. by rewrite fmap_app in N.
  - pose proof (rel_nodes c l R) as Nn. by rewrite P in Nn.
  - rewrite (rel_map c l R).
    change (list_to_map (map index (m_keys c)) = (list_to_map (map index ((it, (k, v)) :: k1 ++ k2)) : gmap K nat)).
    apply list_to_map_proper; [by apply (rel_index_keys c l)|by rewrite P].
  - intros j Hj. apply (rel_fresh c l R). by rewrite P.
Qed.

Lemma cache_get_ok c l e k : rel c l ->
  exists c' e', get k c e = Ok (fst (spec_get k l), c', e') /\ conf c' = conf c /\ rel c' (snd (spec_get k l)) /\
    env_pruned e' = env_pruned e.
Proof.
  intros R. pose proof (rel_lookup c l k R) as L. unfold get, spec_get. destruct (m_cache c !! k) as [it|].
  - destruct L as (k1 & k2 & v & E & N & _ & F & Rm). rewrite E, splice_ok by done. cbn [rbind]. rewrite F, Rm.
    rewrite (node_index_middle it (k, v) [] (k1 ++ k2) (not_elem_of_nil _) : node_index it ((it, (k, v)) :: k1 ++ k2) = _). cbn [rbind].
    eexists _, _. split; [done|]. split; [done|]. split; [by apply (rel_front c l it k v)|done].
  - rewrite L. by eexists _, _.
Qed.

Lemma del_ok c l e k : rel c l ->
  exists c' e', del k c e = Ok (bool_decide (is_Some (find k l)), c', e') /\ conf c' = conf c /\ rel c' (remove k l) /\
    env_pruned e' = env_pruned e.
Proof.
  intros R. pose proof (rel_lookup c l k R) as L. unfold del. destruct (m_cache c !! k) as [it|].
  - destruct L as (k1 & k2 & v & E & N & _ & F & Rm). unfold erase. rewrite E, node_index_middle by done. cbn [rbind].
    rewrite delete_middle, F, Rm. eexists _, _. split; [by rewrite bool_decide_eq_true_2|].
    split; [done|]. split; [by apply (rel_erase c l it k v)|done].
  - rewrite L. eexists c, _. split; [done|]. split; [done|]. split; [|done].
    pose proof (find_split k l) as Fs. rewrite L in Fs.
    assert (remove k l = l) as ->; [|done]. clear -Fs. induction l as [|[k' v'] l IH]; [done|]. cbn in *.
    apply not_elem_of_cons in Fs as [N Fs]. destruct (decide (k' = k)) as [->|]; [done|]. f_equal. by apply IH.
Qed.

(** Dropping the last node. *)
Lemma prune_loop_ok fuel : forall c l n e, rel c l -> 0 <= m_maxSize c -> len l - m_maxSize c <= Z.of_nat fuel ->
  exists c' n' e', prune_loop fuel c n e = Ok (n', c', e') /\ conf c' = conf c /\
    rel c' (take (Z.to_nat (m_maxSize c)) l) /\
    env_pruned e' = env_pruned e ++ (if m_cb c then reverse (drop (Z.to_nat (m_maxSize c)) l) else []).
Proof.
  induction fuel as [|fuel IH]; intros c l n e R Hm Hf; cbn [prune_loop]; rewrite (rel_size c l R);
    (destruct (Z.ltb_spec (m_maxSize c) (len l)) as [L|L]; cbn [negb];
     [|eexists c, n, e; split; [done|]; rewrite take_ge, drop_ge by (unfold len in L; lia);
       split; [done|]; split; [done|]; destruct (m_cb c); by rewrite app_nil_r]); [lia|].
  pose proof (rel_items c l R) as El. assert (Ll : length (m_keys c) = length l) by (by rewrite <- El, length_fmap).
  destruct (exists_last (l := m_keys c)) as (ks & [it [k v]] & E); [intros E; rewrite E in Ll; unfold len in L; cbn in Ll; lia|].
  assert (Ek : l = ks.*2 ++ [(k, v)]) by (by rewrite <- El, E, fmap_app).
  pose proof (rel_erase c l it k v ks [] R E) as R1. rewrite !app_nil_r in R1.
  rewrite E, length_app. cbn [length].
  rewrite lookup_app_r by lia. replace (length ks + 1 - 1 - length ks)%nat with 0%nat by lia. cbn [lookup list_lookup].
  replace (length ks + 1 - 1)%nat with (length ks) by lia. rewrite take_app_length. cbn [fst].
  assert (Hl : len l = Z.of_nat (length (ks.*2)) + 1) by (rewrite Ek; unfold len; rewrite length_app; cbn; lia).
  destruct (IH _ _ (n + 1) (if m_cb c then mkEnv (env_status e) (env_pruned e ++ [(k, v)]) else e) R1)
    as (c' & n' & e' & E' & Cf & R' & P'); [done|unfold len in *; cbn; lia|].
  exists c', n', e'. split; [exact E'|]. split; [done|]. cbn [set_maps m_maxSize m_cb] in *.
  assert (Z.to_nat (m_maxSize c) <= length (ks.*2))%nat as Lm by lia. split.
  - by rewrite Ek, take_app_le.
  - rewrite P', Ek, drop_app_le, reverse_snoc by done. destruct (m_cb c); [|done]. cbn. by rewrite <- app_assoc.
Qed.

Lemma prune_ok c l e : rel c l -> 0 <= m_maxSize c ->
  exists c' n e', prune c e = Ok (n, c', e') /\ conf c' = conf c /\
    rel c' (fst (trim (m_maxSize c) (getMaxAllowedSize c) l)) /\
    env_pruned e' = env_pruned e ++ (if m_cb c then snd (trim (m_maxSize c) (getMaxAllowedSize c) l) else []).
Proof.
  intros R Hm. unfold prune, trim. rewrite (rel_size c l R).
  destruct (_ || _).
  - exists c, 0, e. split; [done|]. split; [done|]. split; [done|]. destruct (m_cb c); by rewrite app_nil_r.
  - assert (Ll : length (m_keys c) = length l) by (by rewrite <- (rel_items c l R), length_fmap).
    destruct (prune_loop_ok (length (m_keys c)) c l 0 e R Hm) as (c' & n' & e' & E & Cf & R' & P'); [unfold len; lia|].
    rewrite E. cbn [rbind]. eexists _, _, _. split; [done|]. done.
Qed.

Lemma cache_set_any c l e k v : rel c l -> 0 <= m_maxSize c ->
  let r := spec_set (m_maxSize c) (getMaxAllowedSize c) k v l in
  exists c' e', set k v c e = Ok (c', e') /\ conf c' = conf c /\ rel c' (fst r) /\
    env_pruned e' = env_pruned e ++ (if m_cb c then snd r else []).
Proof.
  intros R Hm. cbv zeta. pose proof (rel_lookup c l k R) as L. unfold set, spec_set. destruct (m_cache c !! k) as [it|] eqn:Ec.
  - destruct L as (k1 & k2 & w & E & N & _ & F & Rm). unfold assign. rewrite E, node_index_middle by done. cbn [rbind].
    rewrite insert_app_r_alt, Nat.sub_diag by done. cbn [insert list_insert fst].
    rewrite splice_ok by done. cbn [rbind]. rewrite F, Rm. eexists _, _. split; [done|]. split; [done|].
    split; [by apply (rel_front c l it k w)|]. destruct (m_cb c); by rewrite app_nil_r.
  - rewrite L. set (c1 := mkLruCache _ _ _ _ _ _). pose proof (find_split k l) as Fs. rewrite L in Fs.
    assert (R1 : rel c1 ((k, v) :: l)).
    { constructor; cbn.
      - by rewrite (rel_items c l R).
      - apply list.NoDup_cons. split; [done|apply R].
      - apply list.NoDup_cons. split; [|apply R]. intros I. apply (rel_fresh c l R) in I. lia.
      - by rewrite (rel_map c l R).
      - intros j Hj. apply elem_of_cons in Hj as [->|Hj]; [lia|]. apply (rel_fresh c l R) in Hj. lia. }
    destruct (prune_ok c1 _ (count (incSet 1) e) R1 Hm) as (c' & n & e' & E' & Cf & R' & P').
    rewrite E'. cbn [rbind]. eexists _, _. split; [done|]. done.
Qed.

(** Where the allowed size is in range. *)
Lemma cache_set_ok c l e k v : rel c l -> 0 <= m_maxSize c -> 0 <= m_elasticity c -> m_maxSize c + m_elasticity c < 2 ^ 64 ->
  let r := spec_set (m_maxSize c) (m_maxSize c + m_elasticity c) k v l in
  exists c' e', set k v c e = Ok (c', e') /\ conf c' = conf c /\ rel c' (fst r) /\
    env_pruned e' = env_pruned e ++ (if m_cb c then snd r else []).
Proof.
  intros R Hm He Hs. pose proof (cache_set_any c l e k v R Hm) as E. unfold getMaxAllowedSize in E. by rewrite u64_small in E by lia.
Qed.

(** ** The walk *)

Lemma foreach_nodes c ns : NoDup ((m_keys c).*1) -> (forall n, n ∈ ns -> n ∈ m_keys c) ->
  foldr (fun kit r => let! l := r in let! (_, item) := node_index kit.2 (m_keys c) in Ok ((kit.1, item.2) :: l))
    (Ok []) (map index ns) = Ok (ns.*2).
Proof.
  intros N. induction ns as [|[it [k v]] ns IH]; intros I; [done|]. cbn [map foldr]. rewrite IH by (intros n Hn; apply I; by right).
  cbn [rbind index fst snd]. destruct (list_elem_of_split (m_keys c) (it, (k, v))) as (k1 & k2 & E); [apply I; left|].
  rewrite E in N |- *. rewrite fmap_app in N. apply list.NoDup_app in N as (_ & N & _).
  rewrite node_index_middle; [done|]. intros J. apply (N _ J). left.
Qed.

(** [foreach] visits every item, and dereferences no iterator that dangles. *)
Lemma walk_ok c l : rel c l -> exists items, foreach c = Ok items /\ items ≡ₚ l.
Proof.
  intros R. assert (P : map_to_list (m_cache c) ≡ₚ map index (m_keys c))
    by (rewrite (rel_map c l R); apply map_to_list_to_map, (rel_index_keys c l R)).
  apply Permutation_map_inv in P as (ns & E & P). exists (ns.*2). unfold foreach. rewrite E. split.
  - apply foreach_nodes; [apply R|]. intros n Hn. by rewrite P.
  - by rewrite <- (rel_items c l R), P.
Qed.

(** ** What the specification keeps *)

(** The most items there can be after an insertion. *)
Definition most (max allowed : Z) : Z := Z.max max (allowed - 1).

Lemma trim_bound max allowed l : 0 <= max -> max <> 0 -> len (fst (trim max allowed l)) <= most max allowed.
Proof.
  intros Hm N. unfold trim, most. replace (max =? 0) with false by lia. cbn [orb].
  destruct (Z.ltb_spec (len l) allowed); cbn [fst]; [lia|]. unfold len. rewrite length_take. lia.
Qed.

Lemma length_remove k l v : find k l = Some v -> len (remove k l) = len l - 1.
Proof.
  intros F. pose proof (find_split k l) as S. rewrite F in S. destruct S as (l1 & l2 & -> & N).
  destruct (find_middle k v l1 l2 N) as [_ ->]. unfold len. rewrite !length_app. cbn. lia.
Qed.

Lemma remove_bound k l : len (remove k l) <= len l.
Proof.
  induction l as [|x l IH]; [done|]. cbn. destruct (decide _); unfold len in *; cbn in *; lia.
Qed.

Lemma set_bound max allowed k v l : 0 <= max ->
  (find k l = None -> max <> 0 -> len (fst (spec_set max allowed k v l)) <= most max allowed) /\
  (is_Some (find k l) -> len (fst (spec_set max allowed k v l)) = len l).
Proof.
  intros Hm. unfold spec_set. split.
  - intros ->. by apply trim_bound.
  - intros [w F]. rewrite F. cbn [fst]. apply length_remove in F. unfold len in *. cbn. lia.
Qed.

Lemma remove_len k l : len (remove k l) = len l - (if bool_decide (is_Some (find k l)) then 1 else 0).
Proof.
  destruct (find k l) as [v|] eqn:F; [rewrite bool_decide_true by done; by apply length_remove in F|].
  rewrite bool_decide_false by (by intros []). pose proof (find_split k l) as Fs. rewrite F in Fs.
  assert (remove k l = l) as ->; [|lia]. clear -Fs. induction l as [|[k' v'] l IH]; [done|]. cbn in *.
  apply not_elem_of_cons in Fs as [N Fs]. destruct (decide (k' = k)) as [->|]; [done|]. f_equal. by apply IH.
Qed.

Lemma get_bound k l : len (snd (spec_get k l)) = len l.
Proof.
  unfold spec_get. destruct (find k l) as [v|] eqn:F; [|done]. apply length_remove in F. unfold len in *. cbn. lia.
Qed.

(** The item just set is the most recent one, and stays. *)
Lemma find_set max allowed k v l : 0 <= max -> find k (fst (spec_set max allowed k v l)) = Some v.
Proof.
  intros Hm. unfold spec_set. destruct (find k l); cbn; [by destruct (decide (k = k))|].
  unfold trim. destruct (_ || _) eqn:E; cbn; [by destruct (decide (k = k))|].
  apply orb_false_iff in E as [E _]. replace (Z.to_nat max) with (S (Z.to_nat (max - 1))) by lia.
  cbn. by destruct (decide (k = k)).
Qed.
End spec.

Section clear.
Context {K V : Type} `{Countable K}.

Lemma clear_rel (c : LruCache K V) : rel (snd (clear c)) [].
Proof. constructor; cbn; [done|constructor|constructor|done|]. intros it I. by apply not_elem_of_nil in I. Qed.

Lemma new_rel max elastic : rel (new_LruCache max elastic : LruCache K V) [].
Proof. constructor; cbn; [done|constructor|constructor|done|]. intros it I. by apply not_elem_of_nil in I. Qed.

(** ** Reachable caches

    Any sequence of operations, the setters of the limits (of 64 bits) among them. *)

Inductive step : LruCache K V -> LruCache K V -> Prop :=
  | step_set k v e c c' e' : set k v c e = Ok (c', e') -> step c c'
  | step_get k e c v c' e' : get k c e = Ok (v, c', e') -> step c c'
  | step_del k e c r c' e' : del k c e = Ok (r, c', e') -> step c c'
  | step_clear c : step c (snd (clear c))
  | step_callback cb c : step c (setPruneCallback cb c)
  | step_maxSize v c : 0 <= v < 2 ^ 64 -> step c (setMaxSize v c)
  | step_elasticity v c : 0 <= v < 2 ^ 64 -> step c (setElasticity v c).

(** What a cache may hold by its limits. *)
Definition cap (c : LruCache K V) : Z := most (m_maxSize c) (getMaxAllowedSize c).

(** A cache that was reached, with the limits of the caches it was: each a maximum and what
    may be held by it. *)
Inductive reachable : list (Z * Z) -> LruCache K V -> Prop :=
  | reach_new max elastic : 0 <= max < 2 ^ 64 -> 0 <= elastic < 2 ^ 64 ->
      reachable [(max, cap (new_LruCache max elastic))] (new_LruCache max elastic)
  | reach_step past c c' : reachable past c -> step c c' -> reachable ((m_maxSize c', cap c') :: past) c'.

(** Limits as a cache may be given them so that the allowed size is not taken modulo 2^64. *)
Definition limits (max elastic : Z) : Prop := 0 <= max /\ 0 <= elastic /\ max + elastic < 2 ^ 64.

(** Within one of the limits there were. *)
Definition within (past : list (Z * Z)) (n : Z) : Prop := exists p, p ∈ past /\ (p.1 = 0 \/ n <= p.2).

Lemma within_cons p past n m : within past n -> m <= n -> within (p :: past) m.
Proof. intros (q & I & B) L. exists q. split; [by right|]. destruct B; [by left|right; lia]. Qed.

Lemma cache_step_inv past c c' l : rel c l -> 0 <= m_maxSize c < 2 ^ 64 -> within past (len l) -> step c c' ->
  exists l', rel c' l' /\ 0 <= m_maxSize c' < 2 ^ 64 /\ within ((m_maxSize c', cap c') :: past) (len l').
Proof.
  intros R M W St. destruct St as [k v e c c' e' E|k e c v c' e' E|k e c r c' e' E|c|cb c|v c Hv|v c Hv].
  - destruct (cache_set_any c l e k v R ltac:(lia)) as (c2 & e2 & E2 & Cf & R2 & _). rewrite E in E2. injection E2 as <- <-.
    injection Cf as Cm Ce _. eexists. split; [exact R2|]. split; [by rewrite Cm|].
    destruct (set_bound (m_maxSize c) (getMaxAllowedSize c) k v l ltac:(lia)) as [B1 B2].
    destruct (find k l) as [w|]; [rewrite B2 by done; by apply within_cons with (n := len l)|].
    exists (m_maxSize c', cap c'). split; [left|]. cbn. unfold cap, getMaxAllowedSize. rewrite Cm, Ce.
    destruct (Z.eq_dec (m_maxSize c) 0); [by left|right; by apply B1].
  - destruct (cache_get_ok c l e k R) as (c2 & e2 & E2 & Cf & R2 & _). rewrite E in E2. injection E2 as _ <- <-.
    injection Cf as Cm Ce _. eexists. split; [exact R2|]. split; [by rewrite Cm|]. rewrite get_bound. by eapply within_cons.
  - destruct (del_ok c l e k R) as (c2 & e2 & E2 & Cf & R2 & _). rewrite E in E2. injection E2 as _ <- <-.
    injection Cf as Cm Ce _. eexists. split; [exact R2|]. split; [by rewrite Cm|]. eapply within_cons; [exact W|]. apply remove_bound.
  - exists []. split; [apply clear_rel|]. split; [done|]. eapply within_cons; [exact W|]. change (len []) with 0. unfold len. lia.
  - exists l. split; [by destruct R|]. split; [done|]. by eapply within_cons.
  - exists l. split; [by destruct R|]. split; [done|]. by eapply within_cons.
  - exists l. split; [by destruct R|]. split; [done|]. by eapply within_cons.
Qed.

Lemma reachable_inv past c : reachable past c -> exists l, rel c l /\ 0 <= m_maxSize c < 2 ^ 64 /\ within past (len l).
Proof.
  intros R. induction R as [max elastic Hm He|past c c' R (l & Rl & M & W) St].
  - exists []. split; [apply new_rel|]. split; [done|]. eexists. split; [left|]. right. change (len []) with 0. unfold cap, most. cbn. lia.
  - by apply (cache_step_inv past c c' l).
Qed.
End clear.

(** ** Shards *)

Section shards.
Context {K V : Type} `{Countable K} `{Inhabited V}.
Implicit Types (c : LruCache K V) (l : list (K * V)).

(** What the bucket array may rely on. *)
Definition lru_rel (p q : Z) c l : Prop := rel c l /\ m_maxSize c = p /\ m_elasticity c = q /\ limits p q.

#[export] Program Instance LruCache_laws : CacheLaws (LruCache K V) (Env K V) K V := {| crel := lru_rel |}.
Next Obligation. intros p q Hp Hq Hs. split_and!; [apply new_rel|done|done|by split_and!]. Qed.
Next Obligation. intros p q c l (R & _). by apply (rel_size c l). Qed.
Next Obligation. intros p q c l (R & _). apply R. Qed.
Next Obligation. intros p q c l (R & Em & Ee & L). split_and!; [apply clear_rel|done|done|apply L..]. Qed.

Lemma find_elem (k : K) l v : find k l = Some v -> k ∈ l.*1.
Proof.
  intros F. pose proof (find_split k l) as S. rewrite F in S. destruct S as (l1 & l2 & -> & _).
  rewrite fmap_app. apply elem_of_app. right. left.
Qed.

Lemma remove_elem (k k' : K) l : k' ∈ (remove k l).*1 -> k' ∈ l.*1.
Proof.
  induction l as [|[k1 v1] l IH]; [done|]. cbn. destruct (decide (k1 = k)); [by right|]. cbn.
  intros I. apply elem_of_cons in I as [->|I]; [left|right; by apply IH].
Qed.

Lemma set_elem max allowed (k k' : K) v l : k' ∈ (fst (spec_set max allowed k v l)).*1 -> k' = k \/ k' ∈ l.*1.
Proof.
  unfold spec_set. destruct (find k l).
  - cbn. intros I. apply elem_of_cons in I as [->|I]; [by left|]. right. by eapply remove_elem.
  - assert (k' ∈ ((k, v) :: l).*1 -> k' = k \/ k' ∈ l.*1) as W by (cbn; intros I; by apply elem_of_cons in I).
    unfold trim. destruct (_ || _); cbn [fst]; [exact W|]. intros I. apply W. apply list_elem_of_fmap in I as (x & -> & I).
    apply list_elem_of_fmap. exists x. split; [done|]. apply list_elem_of_lookup in I as [j I]. apply lookup_take_Some in I as [I _].
    by eapply list_elem_of_lookup_2.
Qed.

Lemma get_elem (k k' : K) l : k' ∈ (snd (spec_get k l)).*1 -> k' ∈ l.*1.
Proof.
  unfold spec_get. destruct (find k l) as [v|] eqn:F; [|done]. cbn. intros I. apply elem_of_cons in I as [->|I].
  - by eapply find_elem.
  - by eapply remove_elem.
Qed.

(** The operations as the bucket array sees them. *)
Lemma set_op p q k v l : 0 <= p -> 0 <= q -> p + q < 2 ^ 64 ->
  op_ok p q k (fun (c : LruCache K V) e => let! (c, e) := set k v c e in Ok (tt, c, e)) l tt (fst (spec_set p (p + q) k v l)).
Proof.
  intros Hp Hq Hs. split; [|intros k'; apply set_elem]. intros c e (R & <- & <- & L).
  destruct (cache_set_ok c l e k v R Hp Hq Hs) as (c' & e' & E & Cf & R' & _). injection Cf as Cm Ce _.
  exists c', e'. rewrite E. split; [done|]. by split_and!.
Qed.

Lemma get_op p q (k : K) l : op_ok p q k (get k) l (find k l) (snd (spec_get k l)).
Proof.
  split; [|intros k' I; right; by eapply get_elem]. intros c e (R & Em & Ee & L).
  destruct (cache_get_ok c l e k R) as (c' & e' & E & Cf & R' & _). injection Cf as Cm Ce _.
  exists c', e'. rewrite E. split; [unfold spec_get; by destruct (find k l)|]. split_and!; [done|congruence|congruence|apply L..].
Qed.

Lemma del_op p q (k : K) l : op_ok p q k (del k) l (bool_decide (is_Some (find k l))) (remove k l).
Proof.
  split; [|intros k' I; right; by eapply remove_elem]. intros c e (R & Em & Ee & L).
  destruct (del_ok c l e k R) as (c' & e' & E & Cf & R' & _). injection Cf as Cm Ce _.
  exists c', e'. split; [done|]. split_and!; [done|congruence|congruence|apply L..].
Qed.
End shards.

(** * The theorems *)

(** C37: over the list of items with the most recent first, [set] puts the pair at the
    front and, when the key is new and the cache has reached its allowed size, drops
    the oldest items down to the maximum, telling the callback of each, the oldest
    first; [get] moves the pair to the front and returns its value; [del] removes it;
    [exists] and [size] are those of the list. No iterator dangles. *)
Theorem LruCache_refines {K V : Type} `{Countable K} `{Inhabited V} (c : LruCache K V) (e : Env K V) (l : list (K * V)) (k : K) (v : V)
    (R : rel c l) (L : limits (m_maxSize c) (m_elasticity c)) :
  (let r := spec_set (m_maxSize c) (m_maxSize c + m_elasticity c) k v l in
   exists c' e', set k v c e = Ok (c', e') /\ conf c' = conf c /\ rel c' (fst r) /\
     env_pruned e' = env_pruned e ++ (if m_cb c then snd r else [])) /\
  (exists c' e', get k c e = Ok (find k l, c', e') /\ get_or_default k c e = Ok (default inhabitant (find k l), c', e') /\
     conf c' = conf c /\ rel c' (snd (spec_get k l)) /\ env_pruned e' = env_pruned e) /\
  (exists c' e', del k c e = Ok (bool_decide (is_Some (find k l)), c', e') /\ conf c' = conf c /\ rel c' (remove k l) /\
     env_pruned e' = env_pruned e) /\
  exists_ k c = bool_decide (is_Some (find k l)) /\ size_ c = len l /\ rel (snd (clear c)) [].
Proof.
  destruct L as (Lm & Le & Ls). split; [by apply cache_set_ok|]. split; [|split; [by apply del_ok|]].
  - destruct (cache_get_ok c l e k R) as (c' & e' & E & Cf & R' & P').
    assert (fst (spec_get k l) = find k l) as Ef by (unfold spec_get; by destruct (find k l)). rewrite Ef in E.
    exists c', e'. unfold get_or_default. rewrite E. done.
  - split; [|split; [by apply (rel_size c l)|apply clear_rel]]. unfold exists_.
    pose proof (rel_lookup c l k R) as X. destruct (m_cache c !! k) as [it|].
    + destruct X as (k1 & k2 & w & _ & _ & _ & -> & _). by rewrite !bool_decide_eq_true_2.
    + rewrite X. done.
Qed.

(** C38: whatever the operations that led to it, the setters of the limits among them, a cache
    holds each key once in both of its containers, which agree, and no iterator dangles: the
    walk and the next operation of any kind do not crash. A new key leaves no more items than
    the limits allow, [max] or [max + elastic - 1] (modulo 2^64), unless [max] is 0; nothing
    else adds an item, so a cache that never had [max = 0] holds no more than one of the limits
    it has had allowed. (To lower a limit drops nothing before the next new key,
    [lowered_limit].) *)
Theorem LruCache_reachable {K V : Type} `{Countable K} `{Inhabited V} (past : list (Z * Z)) (c : LruCache K V) (k : K) (v : V)
    (e : Env K V) (R : reachable past c) :
  (exists l, rel c l /\ size_ c = len l /\ NoDup (l.*1) /\ exists items, foreach c = Ok items /\ items ≡ₚ l) /\
  ((forall p, p ∈ past -> p.1 <> 0) -> exists p, p ∈ past /\ size_ c <= p.2) /\
  (exists c' e', set k v c e = Ok (c', e') /\
     (exists_ k c = false -> m_maxSize c <> 0 -> size_ c' <= cap c) /\ (exists_ k c = true -> size_ c' = size_ c) /\
     exists c2 e2, get k c' e' = Ok (Some v, c2, e2)) /\
  (exists r c' e', get k c e = Ok (r, c', e') /\ bool_decide (is_Some r) = exists_ k c /\ size_ c' = size_ c) /\
  (exists r c' e', del k c e = Ok (r, c', e') /\ r = exists_ k c /\ size_ c' = size_ c - (if r then 1 else 0)).
Proof.
  destruct (reachable_inv past c R) as (l & Rl & M & W). pose proof (rel_size c l Rl) as Sz. fold (size_ c) in Sz.
  assert (X : exists_ k c = bool_decide (is_Some (find k l))).
  { unfold exists_. pose proof (rel_lookup c l k Rl) as L. destruct (m_cache c !! k); [|by rewrite L].
    destruct L as (? & ? & ? & _ & _ & _ & -> & _). by rewrite !bool_decide_true. }
  split_and!.
  - exists l. split_and!; [done|done|apply Rl|by apply walk_ok].
  - intros N. destruct W as (p & I & B). exists p. split; [done|]. rewrite Sz. destruct B as [B|]; [by apply N in I|done].
  - destruct (cache_set_any c l e k v Rl ltac:(lia)) as (c' & e' & E & _ & R' & _). exists c', e'. split; [done|].
    destruct (set_bound (m_maxSize c) (getMaxAllowedSize c) k v l ltac:(lia)) as [B1 B2].
    rewrite X, Sz. unfold size_. rewrite (rel_size c' _ R'). split_and!.
    + intros F%bool_decide_eq_false. apply B1. by apply eq_None_not_Some.
    + intros F%bool_decide_eq_true. by apply B2.
    + destruct (cache_get_ok c' _ e' k R') as (c2 & e2 & E2 & _). exists c2, e2. rewrite E2. unfold spec_get. by rewrite find_set by lia.
  - destruct (cache_get_ok c l e k Rl) as (c' & e' & E & _ & R' & _). do 3 eexists. split; [exact E|]. rewrite X, Sz. unfold size_.
    rewrite (rel_size c' _ R'), get_bound. split; [|done]. unfold spec_get. by destruct (find k l).
  - destruct (del_ok c l e k Rl) as (c' & e' & E & _ & R' & _). do 3 eexists. split; [exact E|]. rewrite X, Sz. unfold size_.
    by rewrite (rel_size c' _ R'), remove_len.
Qed.

(** a sharded cache is the union of its shards: every operation acts on the one
    shard the key hashes to as it acts on a cache and leaves the others as they are, no
    key is in two shards, what was set is read back, and [size] is the sum. *)
Theorem HashLruCache_refines {K V : Type} `{Countable K} `{Inhabited V} (hash : K -> Z) (p q : Z) (h : HashLruCache K V)
    (ls : list (list (K * V))) (k : K) (v : V) (R : hrel hash p q h ls) (L : limits p q) :
  let i := shard_index hash (m_bucket h) k in
  let l := items_at hash (m_bucket h) k ls in
  (exists h', hash_set hash k v h = Ok (tt, h') /\ hrel hash p q h' (<[i := fst (spec_set p (p + q) k v l)]> ls) /\
     exists h2, hash_get hash k h' = Ok (Some v, h2)) /\
  (exists h', hash_get hash k h = Ok (find k l, h') /\ hrel hash p q h' (<[i := snd (spec_get k l)]> ls)) /\
  (exists h', hash_del hash k h = Ok (bool_decide (is_Some (find k l)), h') /\ hrel hash p q h' (<[i := remove k l]> ls)) /\
  NoDup ((concat ls).*1) /\ (len (concat ls) < 2 ^ 64 -> sharded_size h = len (concat ls)).
Proof.
  intros i l. destruct L as (Lp & Lq & Ls). split_and!.
  - destruct (on_shard_ok hash p q h ls k _ _ _ R (set_op p q k v l Lp Lq Ls)) as (h' & E & R' & Eb & Ei). exists h'.
    split; [exact E|]. split; [exact R'|].
    destruct (on_shard_ok hash p q h' _ k _ _ _ R' (get_op p q k _)) as (h2 & E2 & _). rewrite Eb, Ei in E2. exists h2.
    by rewrite find_set in E2 by done.
  - destruct (on_shard_ok hash p q h ls k _ _ _ R (get_op p q k l)) as (h' & E & R' & _). by exists h'.
  - destruct (on_shard_ok hash p q h ls k _ _ _ R (del_op p q k l)) as (h' & E & R' & _). by exists h'.
  - by apply (sharded_keys hash p q h).
  - by apply (sharded_size_ok hash p q h).
Qed.

(** ** Witnesses *)

Definition demo_env : Env Z Z := mkEnv new_CacheStatus [].

Definition demo_step (k v : Z) (c : LruCache Z Z) : LruCache Z Z :=
  match set k v c demo_env with Ok (c, _) => c | _ => c end.

(** A cache of two items with a callback, full. *)
Definition demo_cache : LruCache Z Z := demo_step 2 20 (demo_step 1 10 (setPruneCallback true (new_LruCache 2 0))).

Lemma demo_step_reachable past k v c : reachable past c ->
  exists past', reachable past' (demo_step k v c) /\ forall p, p ∈ past' -> p ∈ past \/ p = (m_maxSize (demo_step k v c), cap (demo_step k v c)).
Proof.
  intros R. unfold demo_step. destruct (set k v c demo_env) as [[c' e']| |] eqn:E; [|by exists past; split; [|left]..].
  eexists. split; [eapply reach_step; [exact R|]; by eapply step_set|]. intros p I. apply elem_of_cons in I as [->|I]; [by right|by left].
Qed.

Lemma demo_reachable : exists past, reachable past demo_cache /\ forall p, p ∈ past -> p = (2, 2).
Proof.
  destruct (demo_step_reachable _ 1 10 _ (reach_step _ _ _ (reach_new 2 0 ltac:(lia) ltac:(lia)) (step_callback true _))) as (p1 & R1 & I1).
  destruct (demo_step_reachable p1 2 20 _ R1) as (p2 & R2 & I2). exists p2. split; [exact R2|].
  intros p [I%I1|E]%I2; [|exact E]. destruct I as [I|E]; [|exact E].
  apply elem_of_cons in I as [->|I]; [done|]. apply elem_of_cons in I as [->|I]; [done|]. by apply not_elem_of_nil in I.
Qed.

(** The maximum lowered to one below the items there are: they stay when a key that is there
    is set, and go when a new one is. *)
Example lowered_limit :
  let c := setMaxSize 1 demo_cache in
  size_ c = 2 /\ size_ (demo_step 1 11 c) = 2 /\ size_ (demo_step 3 30 c) = 1.
Proof. vm_compute. done. Qed.

(** The third key drops the first. *)
Lemma LruCache_refines_witness : exists l c' e',
  rel demo_cache l /\ set 3 30 demo_cache demo_env = Ok (c', e') /\ env_pruned e' = [(1, 10)].
Proof.
  destruct demo_reachable as (past & Rp & _). destruct (reachable_inv past demo_cache Rp) as (l & R & _).
  pose proof (rel_items _ _ R) as El. vm_compute in El.
  destruct (LruCache_refines demo_cache demo_env l 3 30 R ltac:(split_and!; vm_compute; congruence)) as ((c' & e' & E & _ & _ & P) & _).
  exists l, c', e'. split; [exact R|]. split; [exact E|]. rewrite P, <- El. vm_compute. reflexivity.
Defined.

Lemma LruCache_reachable_witness : size_ demo_cache <= 2.
Proof.
  destruct demo_reachable as (past & Rp & Ip).
  destruct (LruCache_reachable past demo_cache 3 30 demo_env Rp) as (_ & B & _).
  destruct B as (p & I & B); [by intros p ->%Ip|]. by rewrite (Ip p I) in B.
Defined.

Lemma HashLruCache_refines_witness : exists h h' h2, new_HashLruCache 2 4 0 = Ok h /\
  hash_set (fun k : Z => k) 7 70 h = Ok (tt, h') /\ hash_get (fun k : Z => k) 7 h' = Ok (Some 70, h2).
Proof.
  destruct (new_sharded (C := LruCache Z Z) (fun k : Z => k) (mkEnv new_CacheStatus []) 2 4 0) as (h & E & _ & R); [lia|lia|lia|reflexivity|].
  destruct (HashLruCache_refines (fun k : Z => k) (per_bucket 4 2) (per_bucket 0 2) h _ 7 70 R ltac:(split_and!; vm_compute; congruence))
    as ((h' & E' & _ & h2 & G) & _).
  exists h, h', h2. split; [exact E|]. split; [exact E'|exact G].
Defined.
