(* ===== verification/OrderedSet.v ===== *)
(** [std::set] with a comparator, as the list of its elements in order.

    A search compares the elements as they are when it runs, so the operations take the
    comparator of that moment; [find] and [insert] look at the place [lower_bound] gives,
    as the library documents. The laws of the order are asked of the elements that a
    predicate holds of: the comparators of this code dereference pointers, and order the
    objects that are there. *)
From stdpp Require Import sorting.
From S2P Require Import Prelude.

(** The place of the first element that is not below. *)
Fixpoint lower_bound {A} (below : A -> bool) (l : list A) : nat :=
  match l with
  | [] => 0
  | b :: l => if below b then S (lower_bound below l) else 0
  end.

Section ops.
Context {A : Type} (lt : A -> A -> bool).

Definition set_find (a : A) (l : list A) : option nat :=
  let i := lower_bound (fun b => lt b a) l in
  match l !! i with
  | Some b => if lt a b then None else Some i
  | None => None
  end.

(** The place of the element and the set with it; an equivalent element stays. *)
Definition set_insert (a : A) (l : list A) : nat * list A :=
  let i := lower_bound (fun b => lt b a) l in
  match l !! i with
  | Some b => if lt a b then (i, take i l ++ a :: drop i l) else (i, l)
  | None => (i, take i l ++ a :: drop i l)
  end.

(** Erasing by value. *)
Definition set_erase (a : A) (l : list A) : list A :=
  match set_find a l with Some i => delete i l | None => l end.
End ops.

(** ** The laws *)

Class StrictOn {A} (P : A -> Prop) (lt : A -> A -> bool) : Prop := {
  strict_irrefl a : P a -> lt a a = false;
  strict_trans a b c : P a -> P b -> P c -> lt a b = true -> lt b c = true -> lt a c = true;
  strict_total a b : P a -> P b -> a <> b -> lt a b = false -> lt b a = true;
}.

Section laws.
Context {A : Type} (P : A -> Prop) (lt : A -> A -> bool) `{!StrictOn P lt}.

Definition in_order (l : list A) : Prop := StronglySorted (fun a b => lt a b = true) l.
Definition all (l : list A) : Prop := forall a, a ∈ l -> P a.

Lemma all_cons a l : P a -> all l -> all (a :: l).
Proof. intros Pa F b I. apply elem_of_cons in I as [->|I]; [done|by apply F]. Qed.

Lemma all_inv a l : all (a :: l) -> P a /\ all l.
Proof. intros F. split; [apply F; left|intros b I; apply F; by right]. Qed.

Lemma strict_ne a b : P a -> lt a b = true -> a <> b.
Proof. intros Pa L ->. by rewrite (strict_irrefl b Pa) in L. Qed.

Lemma in_order_app l1 l2 : in_order (l1 ++ l2) <->
  in_order l1 /\ in_order l2 /\ forall a b, a ∈ l1 -> b ∈ l2 -> lt a b = true.
Proof. unfold in_order. rewrite StronglySorted_app. tauto. Qed.

Lemma in_order_cons a l : in_order (a :: l) <-> in_order l /\ forall b, b ∈ l -> lt a b = true.
Proof.
  split.
  - intros O. apply StronglySorted_inv in O as [O F]. split; [done|]. intros b I. apply (Forall_elem _ _ _ F I).
  - intros [O F]. constructor; [done|]. by apply list.Forall_forall.
Qed.

Lemma in_order_NoDup l : all l -> in_order l -> NoDup l.
Proof.
  intros F O. induction O as [|a l O IH Fa]; constructor.
  - intros I. apply all_inv in F as [Pa _]. apply (strict_ne a a Pa); [apply (Forall_elem _ _ _ Fa I)|done].
  - apply IH. by apply all_inv in F as [_ F].
Qed.

Lemma in_order_delete l i : in_order l -> in_order (delete i l).
Proof.
  rewrite delete_take_drop. intros O. destruct (Nat.lt_ge_cases i (length l)) as [L|L].
  - apply lookup_lt_is_Some_2 in L as [a E]. rewrite <- (take_drop_middle l i a E), in_order_app, in_order_cons in O.
    destruct O as (O1 & (O2 & _) & B). apply in_order_app. split_and!; [done|done|].
    intros x y Ix Iy. apply B; [done|by right].
  - rewrite drop_ge, app_nil_r, take_ge by lia. done.
Qed.

Lemma in_order_filter (Q : A -> Prop) `{forall x, Decision (Q x)} l : in_order l -> in_order (filter Q l).
Proof.
  induction l as [|a l IH]; [done|]. rewrite in_order_cons. intros [O F].
  destruct (decide (Q a)); [rewrite filter_cons_True by done|rewrite filter_cons_False by done; by apply IH].
  apply in_order_cons. split; [by apply IH|]. intros b I. apply list_elem_of_filter in I as [_ I]. by apply F.
Qed.

(** A set is determined by its elements. *)
Lemma in_order_unique l l' : all l -> in_order l -> in_order l' -> (forall a, a ∈ l <-> a ∈ l') -> l = l'.
Proof.
  intros F O O' E. assert (all l') as F' by (intros a I; apply F; by apply E).
  apply (StronglySorted_unique_strong (fun a b => lt a b = true)); [|done|done|].
  - intros a b Ia Ib L L'. exfalso. apply (strict_ne a a (F a Ia)); [|done]. by apply (strict_trans a b a); auto.
  - apply NoDup_Permutation; [by apply in_order_NoDup..|done].
Qed.

(** The order of the elements alone matters. *)
Lemma in_order_same (lt' : A -> A -> bool) l : (forall a b, a ∈ l -> b ∈ l -> lt a b = lt' a b) ->
  in_order l -> StronglySorted (fun a b => lt' a b = true) l.
Proof.
  intros E O. induction O as [|a l O IH F]; constructor.
  - apply IH. intros b c Ib Ic. by apply E; right.
  - apply list.Forall_forall. intros b I. rewrite <- E by (try left; by right). apply (Forall_elem _ _ _ F I).
Qed.

(** ** Places *)

Lemma lower_bound_app below (l1 l2 : list A) : (forall b, b ∈ l1 -> below b = true) ->
  (forall b, head l2 = Some b -> below b = false) -> lower_bound below (l1 ++ l2) = length l1.
Proof.
  intros B N. induction l1 as [|b l1 IH]; cbn [app lower_bound length].
  - destruct l2 as [|b l2]; [done|]. cbn. by rewrite N.
  - rewrite B by left. f_equal. apply IH. intros c I. apply B. by right.
Qed.

Lemma place a l : all (a :: l) -> in_order l -> a ∉ l -> exists l1 l2, l = l1 ++ l2 /\
  lower_bound (fun b => lt b a) l = length l1 /\ in_order (l1 ++ a :: l2) /\
  (forall b, l !! length l1 = Some b -> lt a b = true).
Proof.
  intros F O. induction l as [|b l IH]; intros N.
  - exists [], []. split_and!; [done|done|repeat constructor|done].
  - apply not_elem_of_cons in N as [Nb N]. apply all_inv in F as [Pa F]. apply all_inv in F as [Pb F].
    apply in_order_cons in O as [O Fb]. destruct (lt a b) eqn:E.
    + exists [], (b :: l). cbn. assert (lt b a = false) as Eb.
      { destruct (lt b a) eqn:Eb; [|done]. exfalso. apply (strict_ne a a Pa); [by eapply (strict_trans a b a)|done]. }
      rewrite Eb. split_and!; [done|done| |by intros c [= <-]]. apply in_order_cons. split; [by apply in_order_cons|].
      intros c I. apply elem_of_cons in I as [->|I]; [done|]. eapply (strict_trans a b c); auto.
    + apply strict_total in E; [|done|done|done].
      destruct IH as (l1 & l2 & -> & L & O' & H); [by apply all_cons|done|done|].
      exists (b :: l1), l2. cbn. rewrite E, L. split_and!; [done|done| |done].
      apply in_order_cons. split; [done|]. intros c. rewrite elem_of_app, elem_of_cons. intros [I|[->|I]]; [|done|];
        apply Fb; apply elem_of_app; tauto.
Qed.

Lemma insert_new a l : all (a :: l) -> in_order l -> a ∉ l -> exists l1 l2, l = l1 ++ l2 /\
  set_insert lt a l = (length l1, l1 ++ a :: l2) /\ in_order (l1 ++ a :: l2).
Proof.
  intros F O N. destruct (place a l F O N) as (l1 & l2 & -> & L & O' & H). exists l1, l2. split_and!; [done| |done].
  unfold set_insert. rewrite L, take_app_length, drop_app_length. destruct ((l1 ++ l2) !! length l1) as [b|]; [by rewrite H|done].
Qed.

Lemma find_not_in a l : all (a :: l) -> in_order l -> a ∉ l -> set_find lt a l = None.
Proof.
  intros F O N. destruct (place a l F O N) as (l1 & l2 & -> & L & O' & H). unfold set_find. rewrite L.
  destruct ((l1 ++ l2) !! length l1) as [b|]; [by rewrite H|done].
Qed.

Lemma lower_bound_in a l1 l2 : all (l1 ++ a :: l2) -> in_order (l1 ++ a :: l2) ->
  lower_bound (fun b => lt b a) (l1 ++ a :: l2) = length l1 /\ lt a a = false.
Proof.
  intros F O. apply in_order_app in O as (_ & _ & B). assert (P a) as Pa by (apply F, elem_of_app; right; left).
  split; [|by apply strict_irrefl]. apply lower_bound_app; [intros b I; apply B; [done|left]|]. intros b [= <-]. by apply strict_irrefl.
Qed.

Lemma find_in a l1 l2 : all (l1 ++ a :: l2) -> in_order (l1 ++ a :: l2) ->
  set_find lt a (l1 ++ a :: l2) = Some (length l1) /\ delete (length l1) (l1 ++ a :: l2) = l1 ++ l2.
Proof.
  intros F O. destruct (lower_bound_in a l1 l2 F O) as [L Ir]. unfold set_find.
  rewrite L, list_lookup_middle, Ir by done. split; [done|apply delete_middle].
Qed.

Lemma insert_present a l : all l -> in_order l -> a ∈ l -> snd (set_insert lt a l) = l.
Proof.
  intros F O I. apply list_elem_of_split in I as (l1 & l2 & ->). destruct (lower_bound_in a l1 l2 F O) as [L Ir].
  unfold set_insert. by rewrite L, list_lookup_middle, Ir.
Qed.

(** ** As sets *)

Context `{EqDecision A}.

Lemma set_insert_ok a l : all (a :: l) -> in_order l -> in_order (snd (set_insert lt a l)) /\
  forall b, b ∈ snd (set_insert lt a l) <-> b = a \/ b ∈ l.
Proof.
  intros F O. destruct (decide (a ∈ l)) as [I|N].
  - rewrite insert_present by (try done; by apply all_inv in F as [_ F]). split; [done|]. intros b. split; [tauto|]. by intros [->|].
  - destruct (insert_new a l F O N) as (l1 & l2 & -> & -> & O'). cbn. split; [done|].
    intros b. rewrite !elem_of_app, elem_of_cons. tauto.
Qed.

Lemma set_erase_ok a l : all (a :: l) -> in_order l -> in_order (set_erase lt a l) /\ forall b, b ∈ set_erase lt a l <-> b <> a /\ b ∈ l.
Proof.
  intros F O. unfold set_erase. destruct (decide (a ∈ l)) as [I|N].
  - apply all_inv in F as [_ F]. pose proof (in_order_NoDup l F O) as D.
    apply list_elem_of_split in I as (l1 & l2 & ->). destruct (find_in a l1 l2 F O) as [-> E].
    split; [by apply in_order_delete|]. rewrite E. intros b. apply list.NoDup_app in D as (_ & D & D').
    apply list.NoDup_cons in D' as [D' _]. rewrite !elem_of_app, elem_of_cons. split; [|tauto].
    intros I. split; [intros ->|tauto]. destruct I as [I|I]; [|done]. apply (D a I). left.
  - rewrite find_not_in by done. split; [done|]. intros b. split; [|tauto]. intros I. split; [by intros ->|done].
Qed.
End laws.
