(* ===== verification/Timer.v ===== *)
(** Timers: [CIM::Timer] and [CIM::TimerManager] (src/io/timer.cpp,
    include/io/timer.hpp).

    A timer object lives at an address, which is also what orders two timers that are
    due at the same time, so the model keeps the objects in a heap and the set as the
    list of the addresses in it, in the order of the comparator ([OrderedSet]). The clock ([TimeUtil::NowToMS]) and the allocator are arguments.
    Each operation runs under the lock of the manager, except for the test before the
    lock in [reset] and [listExpiredCb], whose locked parts are definitions of their own. *)
From S2P Require Import Prelude OrderedSet.

Section timer.
(** [std::function<void()>] given by the user; an empty one is [None]. *)
Context {C : Type}.

(** What a timer calls: the function, or [OnTimer] bound to a condition. *)
Inductive Callback := Call (cb : C) | BindOnTimer (weak_cond : Z) (cb : option C).

Record Timer := mkTimer {
  m_recurring : bool;
  m_ms : Z;
  m_next : Z;
  m_cb : option Callback;
}.

Definition new_Timer (ms : Z) (cb : option Callback) (recurring : bool) (now : Z) : Timer :=
  mkTimer recurring ms (u64 (now + ms)) cb.

(** [Timer(uint64_t next)]: only to search with. *)
Definition probe_Timer (next : Z) : Timer := mkTimer false 0 next None.

Definition set_next (v : Z) (t : Timer) : Timer := mkTimer (m_recurring t) (m_ms t) v (m_cb t).
Definition set_ms (v : Z) (t : Timer) : Timer := mkTimer (m_recurring t) v (m_next t) (m_cb t).
Definition clear_cb (t : Timer) : Timer := mkTimer (m_recurring t) (m_ms t) (m_next t) None.

Record TimerManager := mkTimerManager {
  heap : gmap Z Timer;
  m_timers : list Z;
  m_tickled : bool;
  m_previouseTime : Z;
}.

Definition new_TimerManager (now : Z) : TimerManager := mkTimerManager empty [] false now.

Definition put_timer (a : Z) (t : Timer) (m : TimerManager) : TimerManager :=
  mkTimerManager (<[a := t]> (heap m)) (m_timers m) (m_tickled m) (m_previouseTime m).
Definition set_timers (l : list Z) (m : TimerManager) : TimerManager :=
  mkTimerManager (heap m) l (m_tickled m) (m_previouseTime m).
Definition set_tickled (b : bool) (m : TimerManager) : TimerManager :=
  mkTimerManager (heap m) (m_timers m) b (m_previouseTime m).
Definition set_previous (now : Z) (m : TimerManager) : TimerManager :=
  mkTimerManager (heap m) (m_timers m) (m_tickled m) now.

(** ** The set *)

(** A [Timer::ptr]: the address with the object there, or null. *)
Definition ptr : Type := option (Z * Timer).
Definition ptr_of (h : gmap Z Timer) (a : Z) : ptr := t ← h !! a; Some (a, t).

Definition Comparator (lhs rhs : ptr) : bool :=
  match lhs, rhs with
  | None, None => false
  | None, Some _ => true
  | Some _, None => false
  | Some (a, l), Some (b, r) =>
      if m_next l <? m_next r then true
      else if m_next r <? m_next l then false
      else a <? b
  end.

Definition less (h : gmap Z Timer) (a b : Z) : bool := Comparator (ptr_of h a) (ptr_of h b).

(** [m_timers.find] and [m_timers.insert]. *)
Definition find (h : gmap Z Timer) (a : Z) (l : list Z) : option nat := set_find (less h) a l.
Definition insert (h : gmap Z Timer) (a : Z) (l : list Z) : nat * list Z := set_insert (less h) a l.

(** ** The timer *)

Definition cancel (a : Z) (m : TimerManager) : res (bool * TimerManager) :=
  let! t := deref (heap m !! a) in
  match m_cb t with
  | Some _ =>
      let m := put_timer a (clear_cb t) m in
      match find (heap m) a (m_timers m) with
      | Some i => Ok (true, set_timers (delete i (m_timers m)) m)
      | None => Ok (false, m)
      end
  | None => Ok (false, m)
  end.

Definition refresh (a now : Z) (m : TimerManager) : res (bool * TimerManager) :=
  let! t := deref (heap m !! a) in
  match m_cb t with
  | Some _ =>
      match find (heap m) a (m_timers m) with
      | Some i =>
          let m := set_timers (delete i (m_timers m)) m in
          let m := put_timer a (set_next (u64 (now + m_ms t)) t) m in
          Ok (true, set_timers (snd (insert (heap m) a (m_timers m))) m)
      | None => Ok (false, m)
      end
  | None => Ok (false, m)
  end.

(** [TimerManager::addTimer(val, lock)], and whether it calls [onTimerInsertedAtFront]. *)
Definition addTimer_locked (a : Z) (m : TimerManager) : bool * TimerManager :=
  let (it, l) := insert (heap m) a (m_timers m) in
  let m := set_timers l m in
  let at_front := (it =? 0)%nat && negb (m_tickled m) in
  let m := if at_front then set_tickled true m else m in
  (at_front, m).

(** [reset] from its lock on. *)
Definition reset_locked (a ms : Z) (from_now : bool) (now : Z) (m : TimerManager) : res (bool * bool * TimerManager) :=
  let! t := deref (heap m !! a) in
  match m_cb t with
  | None => Ok (false, false, m)
  | Some _ =>
      match find (heap m) a (m_timers m) with
      | None => Ok (false, false, m)
      | Some i =>
          let m := set_timers (delete i (m_timers m)) m in
          let start := if from_now then now else u64 (m_next t - m_ms t) in
          let m := put_timer a (set_next (u64 (start + ms)) (set_ms ms t)) m in
          let (front, m) := addTimer_locked a m in
          Ok (true, front, m)
      end
  end.

Definition reset (a ms : Z) (from_now : bool) (now : Z) (m : TimerManager) : res (bool * bool * TimerManager) :=
  let! t := deref (heap m !! a) in
  if (ms =? m_ms t) && negb from_now then Ok (true, false, m) else reset_locked a ms from_now now m.

(** ** The manager *)

(** [a]: the address the allocator gives to the timer. *)
Definition addTimer (a ms : Z) (cb : option Callback) (recurring : bool) (now : Z) (m : TimerManager) : bool * TimerManager :=
  addTimer_locked a (put_timer a (new_Timer ms cb recurring now) m).

Definition addConditionTimer (a ms : Z) (cb : option C) (weak_cond : Z) (recurring : bool) (now : Z)
    (m : TimerManager) : bool * TimerManager :=
  addTimer a ms (Some (BindOnTimer weak_cond cb)) recurring now m.

(** [OnTimer]: the function it goes on to call, when the object is still there. *)
Definition OnTimer (alive : Z -> bool) (weak_cond : Z) (cb : option C) : option (option C) :=
  if alive weak_cond then Some cb else None.

Definition getNextTimer (now : Z) (m : TimerManager) : res (Z * TimerManager) :=
  let m := set_tickled false m in
  match m_timers m with
  | [] => Ok (2 ^ 64 - 1, m)
  | a :: _ =>
      let! next := deref (heap m !! a) in
      Ok (if m_next next <=? now then 0 else m_next next - now, m)
  end.

Definition detectClockRollover (now_ms : Z) (m : TimerManager) : bool * TimerManager :=
  let rollover := (now_ms <? m_previouseTime m) && (now_ms <? u64 (m_previouseTime m - 60 * 60 * 1000)) in
  (rollover, set_previous now_ms m).

(** [while (it != m_timers.end() && (it->m_next == now_ms))]: how far it goes. *)
Fixpoint skip_equal (h : gmap Z Timer) (now_ms : Z) (l : list Z) : nat :=
  match l with
  | [] => 0
  | a :: l =>
      match h !! a with
      | Some t => if m_next t =? now_ms then S (skip_equal h now_ms l) else 0
      | None => 0
      end
  end.

(** The loop over [expired]. *)
Fixpoint fire_loop (now_ms : Z) (expired : list Z) (cbs : list (option Callback)) (m : TimerManager)
    : res (list (option Callback) * TimerManager) :=
  match expired with
  | [] => Ok (cbs, m)
  | a :: expired =>
      let! t := deref (heap m !! a) in
      let cbs := cbs ++ [m_cb t] in
      let m :=
        if m_recurring t then
          let m := put_timer a (set_next (u64 (now_ms + m_ms t)) t) m in
          set_timers (snd (insert (heap m) a (m_timers m))) m
        else put_timer a (clear_cb t) m in
      fire_loop now_ms expired cbs m
  end.

(** [listExpiredCb] from its write lock on; [p] is the address of [now_timer]. *)
Definition listExpired_locked (p now_ms : Z) (m : TimerManager) : res (list (option Callback) * TimerManager) :=
  match m_timers m with
  | [] => Ok ([], m)
  | first :: _ =>
      let (rollover, m) := detectClockRollover now_ms m in
      let! t := deref (heap m !! first) in
      if negb rollover && (now_ms <? m_next t) then Ok ([], m)
      else
        let it := if rollover then length (m_timers m)
                  else lower_bound (fun b => Comparator (ptr_of (heap m) b) (Some (p, probe_Timer now_ms))) (m_timers m) in
        let it := (it + skip_equal (heap m) now_ms (drop it (m_timers m)))%nat in
        let expired := take it (m_timers m) in
        fire_loop now_ms expired [] (set_timers (drop it (m_timers m)) m)
  end.

Definition listExpiredCb (p now_ms : Z) (m : TimerManager) : res (list (option Callback) * TimerManager) :=
  match m_timers m with [] => Ok ([], m) | _ => listExpired_locked p now_ms m end.

Definition hasTimer (m : TimerManager) : bool := negb (match m_timers m with [] => true | _ => false end).
End timer.
Arguments Callback : clear implicits.
Arguments Timer : clear implicits.
Arguments TimerManager : clear implicits.
