(* ===== verification/TimerSpec.v ===== *)
(** The timers: the set stays in order, and what fires. *)
From stdpp Require Import sorting.
From S2P Require Import Prelude OrderedSet Timer.

Section timers.
Context {C : Type}.
Abbreviation Timer := (Timer C).
Abbreviation TimerManager := (TimerManager C).
Implicit Types (h : gmap Z Timer) (m : TimerManager) (l : list Z) (a b p now : Z) (t : Timer).

(** ** The order *)

(** Two objects that are both there, in the order of the comparator. *)
Definition before h a b : Prop :=
  exists t u, h !! a = Some t /\ h !! b = Some u /\ (m_next t < m_next u \/ m_next t = m_next u /\ a < b).

Definition ordered h l : Prop := StronglySorted (before h) l.
Definition alive h l : Prop := forall a, a ∈ l -> is_Some (h !! a).

Lemma Comparator_before h a b : is_Some (h !! a) -> is_Some (h !! b) ->
  Comparator (ptr_of h a) (ptr_of h b) = true <-> before h a b.
Proof.
  intros [t Et] [u Eu]. unfold ptr_of, before. rewrite Et, Eu. cbn. split.
  - intros L. exists t, u. split_and!; try done. destruct (m_next t <? m_next u) eqn:E1; [lia|].
    destruct (m_next u <? m_next t) eqn:E2; [done|]. lia.
  - intros (t' & u' & [= <-] & [= <-] & L). destruct (m_next t <? m_next u) eqn:E1; [done|].
    destruct (m_next u <? m_next t) eqn:E2; lia.
Qed.

Lemma Comparator_not h a b : is_Some (h !! a) -> is_Some (h !! b) -> a <> b ->
  Comparator (ptr_of h a) (ptr_of h b) = false -> before h b a.
Proof.
  intros [t Et] [u Eu] N. unfold ptr_of, before. rewrite Et, Eu. cbn. intros L. exists u, t. split_and!; try done.
  destruct (m_next t <? m_next u) eqn:E1; [done|]. destruct (m_next u <? m_next t) eqn:E2; lia.
Qed.

Lemma before_trans h a b c : before h a b -> before h b c -> before h a c.
Proof.
  intros (t & u & Et & Eu & L) (u' & v & Eu' & Ev & L'). rewrite Eu in Eu'. injection Eu' as <-.
  exists t, v. split_and!; [done..|lia].
Qed.

Lemma before_ne h a b : before h a b -> a <> b.
Proof. intros (t & u & Et & Eu & L) ->. rewrite Et in Eu. injection Eu as <-. lia. Qed.

(** The order depends on the deadlines of the objects only. *)
Definition same_next h h' a : Prop := m_next <$> h !! a = m_next <$> h' !! a.

Lemma before_ext h h' a b : same_next h h' a -> same_next h h' b -> before h a b -> before h' a b.
Proof.
  unfold same_next. intros Sa Sb (t & u & Et & Eu & L). rewrite Et in Sa. rewrite Eu in Sb.
  destruct (h' !! a) as [t'|] eqn:Et', (h' !! b) as [u'|] eqn:Eu'; try done. cbn in Sa, Sb.
  injection Sa as Sa. injection Sb as Sb. exists t', u'. split_and!; [done..|lia].
Qed.

Lemma ordered_ext h h' l : (forall a, a ∈ l -> same_next h h' a) -> ordered h l -> ordered h' l.
Proof.
  intros S. induction 1 as [|a l O IH F]; constructor.
  - apply IH. intros b I. apply S. by right.
  - rewrite list.Forall_forall in F |- *. intros b I. eapply before_ext; [apply S..|by apply F]; [left|by right].
Qed.

Lemma ordered_NoDup h l : ordered h l -> NoDup l.
Proof.
  induction 1 as [|a l O IH F]; constructor; [|done]. intros I. by apply (before_ne h a a); [apply (Forall_elem _ _ _ F I)|].
Qed.

Lemma ordered_app h l1 l2 : ordered h (l1 ++ l2) <->
  ordered h l1 /\ ordered h l2 /\ forall a b, a ∈ l1 -> b ∈ l2 -> before h a b.
Proof. unfold ordered. rewrite StronglySorted_app. tauto. Qed.

#[local] Instance less_strict h : StrictOn (fun a => is_Some (h !! a)) (less h).
Proof.
  constructor; unfold less.
  - intros a A. destruct (Comparator _ _) eqn:E; [|done]. apply Comparator_before in E; [|done|done]. by apply before_ne in E.
  - intros a b c A B D. rewrite !Comparator_before by done. apply before_trans.
  - intros a b A B N E. apply Comparator_before; [done|done|]. by apply Comparator_not.
Qed.

Lemma ordered_set h l : alive h l -> ordered h l <-> in_order (less h) l.
Proof.
  induction l as [|a l IH]; intros A; [split; constructor|].
  assert (alive h l) as A' by (intros b I; apply A; by right). specialize (IH A').
  assert (forall b, b ∈ l -> before h a b <-> less h a b = true) as E.
  { intros b I. symmetry. apply Comparator_before; apply A; [left|by right]. }
  rewrite in_order_cons. split.
  - intros O. apply StronglySorted_inv in O as [O F]. split; [by apply IH|]. intros b I. apply E; [done|]. apply (Forall_elem _ _ _ F I).
  - intros [O F]. constructor; [by apply IH|]. apply list.Forall_forall. intros b I. apply E; [done|by apply F].
Qed.

Lemma ordered_delete h l i : alive h l -> ordered h l -> ordered h (delete i l).
Proof.
  intros A O. apply ordered_set; [|by apply in_order_delete, ordered_set].
  intros b I. apply A. apply list_elem_of_lookup in I as [j I]. rewrite list_lookup_delete in I. case_decide; by eapply list_elem_of_lookup_2.
Qed.

Lemma timers_insert_new h a l : alive h (a :: l) -> ordered h l -> a ∉ l -> exists l1 l2, l = l1 ++ l2 /\
  insert h a l = (length l1, l1 ++ a :: l2) /\ ordered h (l1 ++ a :: l2).
Proof.
  intros A O N. apply ordered_set in O; [|by apply (all_inv _ a)].
  destruct (OrderedSet.insert_new _ _ a l A O N) as (l1 & l2 & -> & E & O'). exists l1, l2. split_and!; [done|done|].
  apply ordered_set; [|done]. intros b. rewrite elem_of_app, elem_of_cons. intros I. apply A. rewrite elem_of_cons, elem_of_app. tauto.
Qed.

Lemma timers_find_in h a l1 l2 : alive h (l1 ++ a :: l2) -> ordered h (l1 ++ a :: l2) ->
  find h a (l1 ++ a :: l2) = Some (length l1) /\ delete (length l1) (l1 ++ a :: l2) = l1 ++ l2.
Proof. intros A O. apply (OrderedSet.find_in _ _ _ _ _ A). by apply ordered_set. Qed.

Lemma timers_find_not_in h a l : alive h (a :: l) -> ordered h l -> a ∉ l -> find h a l = None.
Proof. intros A O N. apply (OrderedSet.find_not_in _ _ _ _ A); [|done]. apply ordered_set; [|done]. by apply (all_inv _ a). Qed.

(** ** States *)

Record wf m : Prop := {
  wf_ordered : ordered (heap m) (m_timers m);
  wf_alive : alive (heap m) (m_timers m);
}.

(** A timer has its callback as long as it is in the set. *)
Definition armed m : Prop := forall a t, heap m !! a = Some t -> (m_cb t <> None <-> a ∈ m_timers m).

Lemma alive_cons h a l : is_Some (h !! a) -> alive h l -> alive h (a :: l).
Proof. intros A L b I. apply elem_of_cons in I as [->|I]; [done|by apply L]. Qed.

Lemma alive_insert h a t l : alive h l -> alive (<[a := t]> h) l.
Proof. intros A b I. apply lookup_insert_is_Some'. right. by apply A. Qed.

Lemma ordered_put h a t l : a ∉ l -> ordered h l -> ordered (<[a := t]> h) l.
Proof.
  intros N. apply ordered_ext. intros b I. unfold same_next. rewrite lookup_insert_ne by (by intros ->). done.
Qed.

Lemma put_wf m a t : wf m -> a ∉ m_timers m -> wf (put_timer a t m).
Proof. intros [O A] N. constructor; cbn; [by apply ordered_put|by apply alive_insert]. Qed.

(** A timer that is there and not in the set goes in. *)
Lemma insert_wf m a : wf m -> a ∉ m_timers m -> is_Some (heap m !! a) ->
  wf (set_timers (snd (insert (heap m) a (m_timers m))) m) /\
  (forall b, b ∈ snd (insert (heap m) a (m_timers m)) <-> b = a \/ b ∈ m_timers m) /\
  ((fst (insert (heap m) a (m_timers m)) = 0)%nat <-> forall b, b ∈ m_timers m -> before (heap m) a b).
Proof.
  intros [O A] N S. destruct (timers_insert_new (heap m) a (m_timers m)) as (l1 & l2 & E & -> & O'); [by apply alive_cons|done|done|].
  cbn. split_and!.
  - constructor; cbn; [done|]. intros b. rewrite elem_of_app, elem_of_cons. intros [I|[->|I]]; [|done|];
      apply A; rewrite E, elem_of_app; tauto.
  - intros b. rewrite E, !elem_of_app, elem_of_cons. tauto.
  - apply ordered_app in O' as (_ & O2 & B). rewrite E. split.
    + intros L b. apply nil_length_inv in L as ->. apply StronglySorted_inv in O2 as [_ F]. intros I. apply (Forall_elem _ _ _ F I).
    + intros F. destruct l1 as [|b l1]; [done|]. exfalso. apply (before_ne (heap m) a a); [|done].
      eapply before_trans; [apply F; left|]. apply B; left.
Qed.

Lemma wf_empty now : wf (new_TimerManager now).
Proof. constructor; [constructor|]. intros a I. by apply not_elem_of_nil in I. Qed.

(** A timer of the set, taken out of it. *)
Lemma erase_wf m a : wf m -> a ∈ m_timers m -> exists i, find (heap m) a (m_timers m) = Some i /\
  wf (set_timers (delete i (m_timers m)) m) /\ (forall b, b ∈ delete i (m_timers m) <-> b <> a /\ b ∈ m_timers m).
Proof.
  intros [O A] I. apply list_elem_of_split in I as (l1 & l2 & E). rewrite E in *.
  destruct (timers_find_in _ a l1 l2 A O) as [F D]. exists (length l1). pose proof (ordered_NoDup _ _ O) as N.
  rewrite D. split_and!; [done| |].
  - constructor; cbn; [rewrite <- D; by apply ordered_delete|]. intros b. rewrite elem_of_app. intros I. apply A. rewrite elem_of_app, elem_of_cons. tauto.
  - intros b. apply list.NoDup_app in N as (_ & N & N'). apply list.NoDup_cons in N' as [N' _]. rewrite !elem_of_app, elem_of_cons. split.
    + intros I. split; [intros ->|tauto]. destruct I as [I|I]; [|by apply N'].
      apply (N a I). left.
    + tauto.
Qed.

(** ** What is due *)

Definition due_at h now a : bool := match h !! a with Some t => m_next t <=? now | None => false end.
Definition rolled now m : bool := fst (detectClockRollover now m).

(** The timers that [listExpiredCb] takes out, in the order of the set. *)
Definition due now m : list Z := filter (fun a => rolled now m || due_at (heap m) now a = true) (m_timers m).

Lemma not_due_after h now a b : before h a b -> due_at h now a = false -> due_at h now b = false.
Proof. unfold due_at. intros (t & u & -> & -> & L). lia. Qed.

Lemma skip_equal_split h now l : ordered h l -> alive h l -> (forall a t, a ∈ l -> h !! a = Some t -> now <= m_next t) ->
  exists l1 l2, l = l1 ++ l2 /\ skip_equal h now l = length l1 /\
  Forall (fun a => due_at h now a = true) l1 /\ Forall (fun a => due_at h now a = false) l2.
Proof.
  intros O. induction O as [|a l O IH F]; intros A G; [by exists [], []|].
  destruct (A a ltac:(left)) as [t Et]. cbn. rewrite Et. pose proof (G a t ltac:(left) Et).
  destruct (m_next t =? now) eqn:E.
  - destruct IH as (l1 & l2 & -> & -> & F1 & F2); [intros b I; apply A; by right|intros b u I; apply G; by right|].
    exists (a :: l1), l2. split_and!; [done|done| |done]. constructor; [|done]. unfold due_at. rewrite Et. lia.
  - exists [], (a :: l). split_and!; [done|done|constructor|].
    assert (due_at h now a = false) as Da by (unfold due_at; rewrite Et; lia).
    constructor; [done|]. eapply list.Forall_impl; [exact F|]. intros b B. by eapply not_due_after.
Qed.

Lemma due_split h p now l : ordered h l -> alive h l ->
  let it := lower_bound (fun b => Comparator (ptr_of h b) (Some (p, probe_Timer now))) l in
  exists l1 l2, l = l1 ++ l2 /\ (it + skip_equal h now (drop it l))%nat = length l1 /\
  Forall (fun a => due_at h now a = true) l1 /\ Forall (fun a => due_at h now a = false) l2.
Proof.
  intros O. induction O as [|a l O IH F]; intros A; [by exists [], []|].
  destruct (A a ltac:(left)) as [t Et]. cbn [lower_bound].
  assert (ptr_of h a = Some (a, t)) as -> by (unfold ptr_of; by rewrite Et).
  destruct (Comparator _ _) eqn:E.
  - destruct IH as (l1 & l2 & -> & L & F1 & F2); [intros b I; apply A; by right|]. cbn zeta in *. cbn [drop Nat.add].
    exists (a :: l1), l2. split_and!; [done|cbn [length]; by rewrite <- L| |done]. constructor; [|done]. unfold due_at. rewrite Et.
    cbn in E. destruct (m_next t <? now) eqn:E1; [lia|]. destruct (now <? m_next t) eqn:E2; [done|lia].
  - cbn zeta. cbn [drop Nat.add]. apply skip_equal_split; [by constructor|done|].
    intros b u I Eu. cbn in E. destruct (m_next t <? now) eqn:E1; [done|]. apply elem_of_cons in I as [->|I].
    + rewrite Et in Eu. injection Eu as <-. lia.
    + apply (Forall_elem _ _ _ F) in I as (t' & u' & Et' & Eu' & L). rewrite Et in Et'. rewrite Eu in Eu'.
      injection Et' as <-. injection Eu' as <-. lia.
Qed.

Lemma filter_split {A} (P : A -> bool) (k1 k2 : list A) : Forall (fun x => P x = true) k1 -> Forall (fun x => P x = false) k2 ->
  filter (fun x => P x = true) (k1 ++ k2) = k1.
Proof.
  intros F1 F2. induction F1 as [|x k1 E F1 IH].
  - induction F2 as [|x k2 E F2 IH]; [done|]. cbn [app] in *. by rewrite filter_cons_False by congruence.
  - cbn [app]. rewrite filter_cons_True by done. by rewrite IH.
Qed.

(** ** Firing *)

(** What firing makes of a timer. *)
Definition after now t : Timer := if m_recurring t then set_next (u64 (now + m_ms t)) t else clear_cb t.
Definition cb_of h a : option (Callback C) := t ← h !! a; m_cb t.
Definition recurs h a : Prop := exists t, h !! a = Some t /\ m_recurring t = true.

(** The state with the timers [es] fired: each as [after] says, those that recur back in the set. *)
Record fired now (es : list Z) m m' : Prop := {
  fired_heap : forall a, heap m' !! a = if decide (a ∈ es) then after now <$> heap m !! a else heap m !! a;
  fired_timers : forall a, a ∈ m_timers m' <-> a ∈ m_timers m \/ a ∈ es /\ recurs (heap m) a;
  fired_tickled : m_tickled m' = m_tickled m;
  fired_previous : m_previouseTime m' = m_previouseTime m;
}.

Definition fire_one now a t m : TimerManager :=
  if m_recurring t then
    let m := put_timer a (set_next (u64 (now + m_ms t)) t) m in set_timers (snd (insert (heap m) a (m_timers m))) m
  else put_timer a (clear_cb t) m.

Lemma fire_one_ok now a t m : wf m -> a ∉ m_timers m -> heap m !! a = Some t ->
  wf (fire_one now a t m) /\ fired now [a] m (fire_one now a t m).
Proof.
  intros W N E. unfold fire_one, recurs.
  assert (H : forall b, <[a := after now t]> (heap m) !! b = if decide (b ∈ [a]) then after now <$> heap m !! b else heap m !! b).
  { intros b. destruct (decide (b ∈ [a])) as [I|I].
    - apply list_elem_of_singleton in I as ->. by rewrite lookup_insert_eq, E.
    - rewrite lookup_insert_ne; [done|]. intros ->. apply I. left. }
  unfold after in H at 1. destruct (m_recurring t) eqn:R; cbv zeta.
  - pose proof (put_wf m a (set_next (u64 (now + m_ms t)) t) W N) as W'.
    destruct (insert_wf (put_timer a (set_next (u64 (now + m_ms t)) t) m) a W' N) as (W2 & M & _).
    { cbn. rewrite lookup_insert_eq. by eexists. }
    split; [done|]. constructor; cbn; try done. intros b. etransitivity; [apply M|]. cbn.
    rewrite list_elem_of_singleton. unfold recurs. split; [|tauto]. intros [->|I]; [right; split; [done|by exists t]|by left].
  - split; [by apply put_wf|]. constructor; cbn; try done. intros b. rewrite list_elem_of_singleton. unfold recurs.
    split; [tauto|]. intros [I|(-> & u & Eu & Ru)]; [done|]. rewrite E in Eu. injection Eu as <-. congruence.
Qed.

Lemma fired_trans now a es m m1 m2 : a ∉ es -> fired now [a] m m1 -> fired now es m1 m2 -> fired now (a :: es) m m2.
Proof.
  intros N [H1 T1 K1 P1] [H2 T2 K2 P2]. constructor; [| |congruence|congruence].
  - intros b. rewrite H2, !H1. destruct (decide (b ∈ [a])) as [Ia|Ia]; rewrite list_elem_of_singleton in Ia.
    + subst b. rewrite decide_False by done. by rewrite decide_True by left.
    + destruct (decide (b ∈ es)) as [I|I]; [by rewrite decide_True by by right|].
      rewrite decide_False; [done|]. intros X. by apply elem_of_cons in X as [X|X].
  - intros b. assert (b ∈ a :: es <-> b = a \/ b ∈ es) as -> by apply elem_of_cons.
    rewrite T2, T1, list_elem_of_singleton. unfold recurs. rewrite H1.
    destruct (decide (b ∈ [a])) as [Ia|Ia]; rewrite list_elem_of_singleton in Ia; [subst b; tauto|tauto].
Qed.

Lemma fire_loop_ok now es m cbs : wf m -> NoDup es -> (forall a, a ∈ es -> a ∉ m_timers m) -> alive (heap m) es ->
  exists m', fire_loop now es cbs m = Ok (cbs ++ map (cb_of (heap m)) es, m') /\ wf m' /\ fired now es m m'.
Proof.
  revert m cbs. induction es as [|a es IH]; intros m cbs W N D A.
  - exists m. rewrite app_nil_r. split_and!; [done|done|]. constructor; try done.
    intros a. split; [tauto|]. intros [I|[I _]]; [done|]. by apply not_elem_of_nil in I.
  - apply list.NoDup_cons in N as [Na N]. destruct (A a ltac:(left)) as [t E].
    destruct (fire_one_ok now a t m W (D a ltac:(left)) E) as [W1 F1].
    destruct (IH (fire_one now a t m) (cbs ++ [m_cb t])) as (m' & E' & W' & F'); [done|done| | |].
    + intros b I. rewrite (fired_timers _ _ _ _ F1), list_elem_of_singleton. intros [J|[-> _]]; [|done].
      apply (D b); [by right|done].
    + intros b I. rewrite (fired_heap _ _ _ _ F1). destruct (decide (b ∈ [a])); [rewrite fmap_is_Some|]; apply A; by right.
    + exists m'. split; [|split; [done|by eapply fired_trans]].
      cbn [fire_loop]. rewrite E. cbn [deref rbind]. fold (fire_one now a t m). rewrite E'. do 2 f_equal.
      rewrite <- app_assoc. cbn. f_equal. unfold cb_of at 2. rewrite E. cbn. f_equal.
      apply map_ext_in. intros b I. apply list_elem_of_In in I. unfold cb_of. rewrite (fired_heap _ _ _ _ F1).
      rewrite decide_False; [done|]. rewrite list_elem_of_singleton. by intros ->.
Qed.

(** [listExpiredCb] in one equation: the state fires what is due. *)
Definition noted now m : TimerManager := match m_timers m with [] => m | _ => set_previous now m end.
Definition rest now m : list Z := filter (fun a => rolled now m || due_at (heap m) now a = false) (m_timers m).

Lemma split_at_due p now m : wf m -> m_timers m <> [] ->
  let it := if rolled now m then length (m_timers m) else lower_bound (fun b => Comparator (ptr_of (heap m) b) (Some (p, probe_Timer now))) (m_timers m) in
  let it := (it + skip_equal (heap m) now (drop it (m_timers m)))%nat in
  take it (m_timers m) = due now m /\ exists l2, m_timers m = due now m ++ l2 /\ drop it (m_timers m) = l2 /\
  Forall (fun a => rolled now m || due_at (heap m) now a = false) l2.
Proof.
  intros [O A] _. unfold due. destruct (rolled now m) eqn:R; cbn zeta.
  - rewrite drop_all. cbn. rewrite Nat.add_0_r, drop_all, take_ge by lia.
    assert (filter (fun a => true || due_at (heap m) now a = true) (m_timers m) = m_timers m) as E.
    { rewrite <- (app_nil_r (m_timers m)) at 1. apply (filter_split (fun a => true || due_at (heap m) now a)); [|constructor].
      apply list.Forall_forall. done. }
    cbn in E. rewrite E. split; [done|]. exists []. rewrite app_nil_r. split_and!; [done|done|constructor].
  - destruct (due_split (heap m) p now (m_timers m) O A) as (l1 & l2 & E & L & F1 & F2). cbn zeta in L. rewrite L.
    assert (filter (fun a => false || due_at (heap m) now a = true) (m_timers m) = l1) as Ed.
    { rewrite E. apply (filter_split (fun a => due_at (heap m) now a)); done. }
    cbn in Ed |- *. rewrite Ed, E, take_app_length, drop_app_length. split; [done|]. by exists l2.
Qed.

Lemma due_elem now m a : a ∈ due now m <-> a ∈ m_timers m /\ rolled now m || due_at (heap m) now a = true.
Proof. unfold due. rewrite list_elem_of_filter. tauto. Qed.

Record expired now m m' : Prop := {
  expired_heap : forall a, heap m' !! a = if decide (a ∈ due now m) then after now <$> heap m !! a else heap m !! a;
  expired_timers : forall a, a ∈ m_timers m' <-> a ∈ m_timers m /\ (a ∉ due now m \/ recurs (heap m) a);
  expired_tickled : m_tickled m' = m_tickled m;
  expired_previous : m_previouseTime m' = now \/ m_previouseTime m' = m_previouseTime m;
}.

Lemma nothing_due now m t l a : wf m -> m_timers m = a :: l -> heap m !! a = Some t -> rolled now m = false ->
  now < m_next t -> due now m = [].
Proof.
  intros [O A] E Et R L. unfold due. rewrite R, E in *. apply (filter_split (fun a => due_at (heap m) now a) []); [constructor|].
  assert (due_at (heap m) now a = false) as D by (unfold due_at; rewrite Et; lia). apply StronglySorted_inv in O as [_ F].
  constructor; [done|]. eapply list.Forall_impl; [exact F|]. intros b B. by eapply not_due_after.
Qed.

Lemma expired_nothing now m v : due now m = [] -> v = now \/ v = m_previouseTime m -> expired now m (set_previous v m).
Proof.
  intros D V. constructor; rewrite ?D; try done. intros a. split; [|tauto]. intros I. split; [done|]. left. by apply not_elem_of_nil.
Qed.

Lemma expire_ok p now m : wf m -> exists m',
  listExpired_locked p now m = Ok (map (cb_of (heap m)) (due now m), m') /\ wf m' /\ expired now m m'.
Proof.
  intros W. pose proof (wf_alive m W) as A. unfold listExpired_locked.
  destruct (m_timers m) as [|a l] eqn:E.
  - assert (due now m = []) as D by (unfold due; by rewrite E). exists m. rewrite D. split_and!; [done|done|].
    pose proof (expired_nothing now m (m_previouseTime m) D (or_intror eq_refl)) as X. by destruct m.
  - destruct (A a) as [t Et]; [left|]. unfold detectClockRollover. fold (rolled now m). cbn zeta.
    change ((now <? m_previouseTime m) && (now <? u64 (m_previouseTime m - 60 * 60 * 1000))) with (rolled now m).
    cbn [heap set_previous]. rewrite Et. cbn [deref rbind].
    destruct (negb (rolled now m) && (now <? m_next t)) eqn:Early.
    + apply andb_true_iff in Early as [R L]. apply negb_true_iff in R. apply Z.ltb_lt in L.
      pose proof (nothing_due now m t l a W E Et R L) as D. rewrite D. exists (set_previous now m).
      split_and!; [done|by destruct W|]. apply expired_nothing; [done|by left].
    + pose proof (split_at_due p now m W ltac:(congruence)) as S. cbn zeta in S. cbn [m_timers set_previous].
      destruct S as (-> & l2 & El & -> & F). pose proof (ordered_NoDup _ _ (wf_ordered m W)) as N. pose proof (wf_ordered m W) as O.
      pose proof (wf_alive m W) as A'. rewrite El in N, O, A'. apply ordered_app in O as (_ & O2 & _). apply list.NoDup_app in N as (N1 & N2 & N3).
      destruct (fire_loop_ok now (due now m) (set_timers l2 (set_previous now m)) []) as (m' & E' & W' & F').
      * constructor; cbn; [done|]. intros b I. apply A'. apply elem_of_app. by right.
      * done.
      * cbn. intros b I J. by apply (N2 b).
      * cbn. intros b I. apply A'. apply elem_of_app. by left.
      * exists m'. split; [exact E'|]. split; [done|]. destruct F' as [H T K P]. cbn in H, T, K, P.
        constructor; [done| |done|by left]. intros b. rewrite T, El, elem_of_app.
        split; [|intros [[I|I] [J|J]]; tauto].
        intros [I|[I Rc]]; [|tauto]. split; [by right|]. left. intros J. by apply (N2 b).
Qed.

(** ** The other operations *)

Lemma addTimer_locked_ok a m : wf m -> a ∉ m_timers m -> is_Some (heap m !! a) ->
  exists front m', addTimer_locked a m = (front, m') /\ wf m' /\ heap m' = heap m /\
  (forall b, b ∈ m_timers m' <-> b = a \/ b ∈ m_timers m) /\ m_tickled m' = m_tickled m || front /\
  m_previouseTime m' = m_previouseTime m /\
  (front = false -> m_tickled m = true \/ exists b, b ∈ m_timers m /\ before (heap m) b a).
Proof.
  intros W N S. destruct (insert_wf m a W N S) as (W' & M & F). unfold addTimer_locked.
  destruct (insert (heap m) a (m_timers m)) as [it l] eqn:E. cbn in W', M, F. cbn zeta. cbn [m_tickled set_timers].
  set (front := (it =? 0)%nat && negb (m_tickled m)). exists front, (if front then set_tickled true (set_timers l m) else set_timers l m).
  split; [done|]. split_and!; try (destruct front eqn:Ef; cbn; try done; by destruct (m_tickled m)).
  - by destruct front; destruct W'.
  - intros Ff. destruct (m_tickled m) eqn:K; [by left|]. right. subst front. rewrite andb_true_r in Ff. apply Nat.eqb_neq in Ff.
    destruct (timers_insert_new (heap m) a (m_timers m)) as (l1 & l2 & El & Ei & Oi); [by apply alive_cons; [|apply W]|apply W|done|].
    rewrite E in Ei. injection Ei as -> ->. destruct l1 as [|b l1]; [done|]. exists b. rewrite El. split; [left|].
    apply ordered_app in Oi as (_ & _ & B). apply B; left.
Qed.

Lemma addTimer_ok a ms cb recurring now m : wf m -> heap m !! a = None ->
  exists front m', addTimer a ms cb recurring now m = (front, m') /\ wf m' /\
  heap m' = <[a := new_Timer ms cb recurring now]> (heap m) /\
  (forall b, b ∈ m_timers m' <-> b = a \/ b ∈ m_timers m) /\ m_tickled m' = m_tickled m || front /\
  m_previouseTime m' = m_previouseTime m /\
  (front = false -> m_tickled m = true \/ exists b, b ∈ m_timers m /\ before (heap m') b a).
Proof.
  intros W E. assert (a ∉ m_timers m) as N by (intros I; apply (wf_alive m W) in I as [t Et]; congruence).
  pose proof (put_wf m a (new_Timer ms cb recurring now) W N) as W'.
  destruct (addTimer_locked_ok a _ W') as (front & m' & Em & W2 & Hh & R); [done|cbn; rewrite lookup_insert_eq; by eexists|].
  exists front, m'. split; [exact Em|]. split; [done|]. split; [done|]. rewrite Hh. exact R.
Qed.

(** A timer taken out, changed, and put back where it belongs. *)
Lemma move_wf m a i u : wf m -> a ∈ m_timers m -> find (heap m) a (m_timers m) = Some i ->
  let m1 := put_timer a u (set_timers (delete i (m_timers m)) m) in
  wf m1 /\ (a ∉ m_timers m1) /\ is_Some (heap m1 !! a) /\ (forall b, (b = a \/ b ∈ m_timers m1) <-> b ∈ m_timers m).
Proof.
  intros W I F. destruct (erase_wf m a W I) as (j & F' & W1 & M). rewrite F in F'. injection F' as <-. cbn.
  assert (a ∉ delete i (m_timers m)) as Na by (rewrite M; tauto).
  split_and!; [by apply (put_wf (set_timers (delete i (m_timers m)) m))|done|rewrite lookup_insert_eq; by eexists|].
  intros b. rewrite M. destruct (decide (b = a)) as [->|]; tauto.
Qed.

Lemma armed_pending m a t c : armed m -> heap m !! a = Some t -> m_cb t = Some c -> a ∈ m_timers m.
Proof. intros A E Ec. apply (A a t E). congruence. Qed.

Lemma armed_idle m a t : armed m -> heap m !! a = Some t -> m_cb t = None -> a ∉ m_timers m.
Proof. intros A E Ec I. by apply (A a t E) in I. Qed.

Lemma cancel_ok a t m : wf m -> armed m -> heap m !! a = Some t ->
  exists m', cancel a m = Ok (bool_decide (a ∈ m_timers m), m') /\ wf m' /\ heap m' = <[a := clear_cb t]> (heap m) /\
  (forall b, b ∈ m_timers m' <-> b <> a /\ b ∈ m_timers m) /\ m_tickled m' = m_tickled m /\ m_previouseTime m' = m_previouseTime m.
Proof.
  intros W Ar E. unfold cancel. rewrite E. cbn [deref rbind]. destruct (m_cb t) as [c|] eqn:Ec.
  - pose proof (armed_pending m a t c Ar E Ec) as I. rewrite bool_decide_eq_true_2 by done. cbn zeta.
    assert (W1 : wf (put_timer a (clear_cb t) m)).
    { destruct W as [O A]. constructor; cbn; [|by apply alive_insert]. eapply ordered_ext; [|exact O]. intros b _. unfold same_next.
      destruct (decide (b = a)) as [->|]; [by rewrite lookup_insert_eq, E|by rewrite lookup_insert_ne]. }
    destruct (erase_wf _ a W1 I) as (i & F & W2 & M). cbn in F, M |- *. rewrite F. eexists. by split_and!.
  - pose proof (armed_idle m a t Ar E Ec) as I. rewrite bool_decide_eq_false_2 by done. exists m. split_and!; try done.
    + assert (clear_cb t = t) as -> by (destruct t; cbn in *; by subst). by rewrite insert_id.
    + intros b. split; [|tauto]. intros Ib. split; [by intros ->|done].
Qed.

Lemma refresh_ok a t now m : wf m -> armed m -> heap m !! a = Some t ->
  exists m', refresh a now m = Ok (bool_decide (a ∈ m_timers m), m') /\ wf m' /\
  heap m' = (if bool_decide (a ∈ m_timers m) then <[a := set_next (u64 (now + m_ms t)) t]> (heap m) else heap m) /\
  (forall b, b ∈ m_timers m' <-> b ∈ m_timers m) /\ m_tickled m' = m_tickled m /\ m_previouseTime m' = m_previouseTime m.
Proof.
  intros W Ar E. unfold refresh. rewrite E. cbn [deref rbind]. destruct (m_cb t) as [c|] eqn:Ec.
  - pose proof (armed_pending m a t c Ar E Ec) as I. rewrite bool_decide_eq_true_2 by done. cbn zeta.
    destruct (erase_wf m a W I) as (i & F & _). rewrite F.
    destruct (move_wf m a i (set_next (u64 (now + m_ms t)) t) W I F) as (W1 & N & S & M). cbn zeta in *.
    destruct (insert_wf _ a W1 N S) as (W2 & M2 & _). eexists. split; [reflexivity|]. split_and!; [exact W2|done| |done|done].
    intros b. etransitivity; [apply M2|apply M].
  - pose proof (armed_idle m a t Ar E Ec) as I. rewrite bool_decide_eq_false_2 by done. by exists m.
Qed.

Definition restart ms (from_now : bool) now t : Timer :=
  set_next (u64 ((if from_now then now else u64 (m_next t - m_ms t)) + ms)) (set_ms ms t).

Lemma reset_ok a t ms from_now now m : wf m -> armed m -> heap m !! a = Some t ->
  exists front m', reset_locked a ms from_now now m = Ok (bool_decide (a ∈ m_timers m), front, m') /\ wf m' /\
  heap m' = (if bool_decide (a ∈ m_timers m) then <[a := restart ms from_now now t]> (heap m) else heap m) /\
  (forall b, b ∈ m_timers m' <-> b ∈ m_timers m) /\ m_tickled m' = m_tickled m || front /\
  m_previouseTime m' = m_previouseTime m /\
  (a ∈ m_timers m -> front = false -> m_tickled m = true \/ exists b, b ∈ m_timers m /\ b <> a /\ before (heap m') b a).
Proof.
  intros W Ar E. unfold reset_locked. rewrite E. cbn [deref rbind]. destruct (m_cb t) as [c|] eqn:Ec.
  - pose proof (armed_pending m a t c Ar E Ec) as I. rewrite bool_decide_eq_true_2 by done. cbn zeta.
    destruct (erase_wf m a W I) as (i & F & _). rewrite F. fold (restart ms from_now now t).
    destruct (move_wf m a i (restart ms from_now now t) W I F) as (W1 & N & S & M). cbn zeta in *.
    destruct (addTimer_locked_ok a _ W1 N S) as (front & m' & -> & W2 & Hh & M2 & K & P & Fr).
    exists front, m'. split_and!; [done|done|done| |done|done|].
    + intros b. rewrite M2. apply M.
    + intros _ Ff. destruct (Fr Ff) as [|(b & Ib & B)]; [by left|]. right. exists b. rewrite Hh. split_and!; [|by intros ->|done].
      apply M. by right.
  - pose proof (armed_idle m a t Ar E Ec) as I. rewrite bool_decide_eq_false_2 by done. exists false, m.
    rewrite orb_false_r. by split_and!.
Qed.

Lemma getNextTimer_ok now m : wf m -> exists d, getNextTimer now m = Ok (d, set_tickled false m) /\
  (m_timers m = [] -> d = 2 ^ 64 - 1) /\
  (forall a t, a ∈ m_timers m -> heap m !! a = Some t -> d <= Z.max 0 (m_next t - now)) /\
  (m_timers m <> [] -> exists a t, a ∈ m_timers m /\ heap m !! a = Some t /\ d = Z.max 0 (m_next t - now)).
Proof.
  intros [O A]. unfold getNextTimer. cbn. destruct (m_timers m) as [|a l] eqn:E.
  - eexists. split; [done|]. split_and!; [done| |done]. intros a t I. by apply not_elem_of_nil in I.
  - destruct (A a ltac:(left)) as [t Et]. rewrite Et. cbn. eexists. split; [done|]. split_and!; [done| |].
    + intros b u I Eu. apply StronglySorted_inv in O as [_ F]. apply elem_of_cons in I as [->|I].
      * rewrite Et in Eu. injection Eu as <-. destruct (m_next t <=? now) eqn:L; lia.
      * apply (Forall_elem _ _ _ F) in I as (t' & u' & Et' & Eu' & L). rewrite Et in Et'. rewrite Eu in Eu'.
        injection Et' as <-. injection Eu' as <-. destruct (m_next t <=? now) eqn:L'; lia.
    + intros _. exists a, t. split_and!; [left|done|]. destruct (m_next t <=? now) eqn:L; lia.
Qed.

(** ** Runs *)

(** What a thread may do under the lock, with the time its operation has read. The locked
    parts of [reset] and [listExpiredCb] run whatever their tests before the lock saw. *)
Inductive label :=
  | Add (a ms : Z) (front : bool)
  | Cancel (a : Z) (done : bool)
  | Refresh (a : Z) (done : bool)
  | Reset (a ms : Z) (done front : bool)
  | Poll (d : Z)
  | Expire (due_now : list Z) (cbs : list (option (Callback C)))
  | Release (a : Z).

Definition drop_timer a m : TimerManager := mkTimerManager (delete a (heap m)) (m_timers m) (m_tickled m) (m_previouseTime m).

Inductive step : Z -> label -> TimerManager -> TimerManager -> Prop :=
  | step_add now a ms cb recurring front m m' : heap m !! a = None ->
      addTimer a ms (Some cb) recurring now m = (front, m') -> step now (Add a ms front) m m'
  | step_cancel now a r m m' : cancel a m = Ok (r, m') -> step now (Cancel a r) m m'
  | step_refresh now a r m m' : refresh a now m = Ok (r, m') -> step now (Refresh a r) m m'
  | step_reset now a ms from_now r front m m' :
      reset_locked a ms from_now now m = Ok (r, front, m') -> step now (Reset a ms r front) m m'
  | step_poll now d m m' : getNextTimer now m = Ok (d, m') -> step now (Poll d) m m'
  | step_expire now p cbs m m' : listExpired_locked p now m = Ok (cbs, m') -> step now (Expire (due now m) cbs) m m'
  | step_release now a m : a ∉ m_timers m -> step now (Release a) m (drop_timer a m).

Inductive run : list (Z * label) -> TimerManager -> TimerManager -> Prop :=
  | run_nil m : run [] m m
  | run_cons now e evs m m1 m2 : step now e m m1 -> run evs m1 m2 -> run ((now, e) :: evs) m m2.

(** A change of the heap that leaves the callbacks as they are. *)
Lemma armed_ext m m' : armed m -> (forall b, b ∈ m_timers m' <-> b ∈ m_timers m) ->
  (forall b, m_cb <$> heap m' !! b = m_cb <$> heap m !! b) -> armed m'.
Proof.
  intros Ar T H b t E. rewrite T. specialize (H b). rewrite E in H. destruct (heap m !! b) as [u|] eqn:Eu; [|done].
  injection H as ->. by apply Ar.
Qed.

Lemma insert_cb m m' a t u : heap m !! a = Some t -> heap m' = <[a := u]> (heap m) -> m_cb u = m_cb t ->
  forall b, m_cb <$> heap m' !! b = m_cb <$> heap m !! b.
Proof.
  intros E -> Eu b. destruct (decide (b = a)) as [->|]; [|by rewrite lookup_insert_ne]. rewrite lookup_insert_eq, E. cbn. by rewrite Eu.
Qed.

Lemma armed_fired now m m' : wf m -> armed m -> expired now m m' -> armed m'.
Proof.
  intros W Ar [H T _ _] b t E. rewrite T. rewrite H in E. destruct (decide (b ∈ due now m)) as [I|I].
  - destruct (heap m !! b) as [u|] eqn:Eu; [|done]. injection E as <-. pose proof I as I'. apply due_elem in I as [I _].
    unfold after, recurs. destruct (m_recurring u) eqn:R; cbn.
    + rewrite (Ar b u Eu). split; [|done]. intros _. split; [done|]. right. by exists u.
    + split; [done|]. intros [_ [J|(u' & Eu' & R')]]; [done|]. congruence.
  - rewrite (Ar b t E). tauto.
Qed.

Lemma object_of_cancel a m r m' : cancel a m = Ok (r, m') -> exists t, heap m !! a = Some t.
Proof. unfold cancel. destruct (heap m !! a); [by eexists|done]. Qed.
Lemma object_of_refresh a now m r m' : refresh a now m = Ok (r, m') -> exists t, heap m !! a = Some t.
Proof. unfold refresh. destruct (heap m !! a); [by eexists|done]. Qed.
Lemma object_of_reset a ms f now m r m' : reset_locked a ms f now m = Ok (r, m') -> exists t, heap m !! a = Some t.
Proof. unfold reset_locked. destruct (heap m !! a); [by eexists|done]. Qed.

(** The cases of a step, each with what its operation does: to the heap [Hh], the set [T],
    the flag [K] and the time [P]; [x] is the timer it acts on. *)
Ltac step_cases W Ar S :=
  destruct S as [now x ms cb rec fr m m' E S|now x r m m' S|now x r m m' S|now x ms fn r fr m m' S|now d m m' S|now p cbs m m' S|now x m Nx];
  [ let E2 := fresh in let f2 := fresh in
    destruct (addTimer_ok x ms (Some cb) rec now m W E) as (f2 & m2 & E2 & W2 & Hh & T & K & P & Fr); rewrite E2 in S; injection S as <- <-
  | let E2 := fresh in
    destruct (object_of_cancel _ _ _ _ S) as [u Eu]; destruct (cancel_ok x u m W Ar Eu) as (m2 & E2 & W2 & Hh & T & K & P);
    rewrite E2 in S; injection S as _ <-
  | let E2 := fresh in
    destruct (object_of_refresh _ _ _ _ _ S) as [u Eu]; destruct (refresh_ok x u now m W Ar Eu) as (m2 & E2 & W2 & Hh & T & K & P);
    rewrite E2 in S; injection S as _ <-
  | let E2 := fresh in let f2 := fresh in
    destruct (object_of_reset _ _ _ _ _ _ _ S) as [u Eu];
    destruct (reset_ok x u ms fn now m W Ar Eu) as (f2 & m2 & E2 & W2 & Hh & T & K & P & Fr);
    rewrite E2 in S; injection S as _ <- <-
  | let E2 := fresh in let d2 := fresh in
    destruct (getNextTimer_ok now m W) as (d2 & E2 & _); rewrite E2 in S; injection S as _ <-
  | let E2 := fresh in
    destruct (expire_ok p now m W) as (m2 & E2 & W2 & X); rewrite E2 in S; injection S as _ <-
  | ].

Lemma step_inv now e m m' : wf m -> armed m -> step now e m m' -> wf m' /\ armed m'.
Proof.
  intros W Ar S. step_cases W Ar S.
  - split; [done|]. intros b t. rewrite Hh, T. destruct (decide (b = x)) as [->|Nb].
    + rewrite lookup_insert_eq. intros [= <-]. cbn. split; [by left|done].
    + rewrite lookup_insert_ne by done. intros Eb. rewrite (Ar b t Eb). tauto.
  - split; [done|]. intros b t. rewrite Hh, T. destruct (decide (b = x)) as [->|Nb].
    + rewrite lookup_insert_eq. intros [= <-]. cbn. tauto.
    + rewrite lookup_insert_ne by done. intros Eb. rewrite (Ar b t Eb). tauto.
  - split; [done|]. apply (armed_ext m); [done|done|]. destruct (bool_decide _); [by eapply insert_cb|by rewrite Hh].
  - split; [done|]. apply (armed_ext m); [done|done|]. destruct (bool_decide _); [by eapply insert_cb|by rewrite Hh].
  - by destruct W.
  - split; [done|]. exact (armed_fired now m m2 W Ar X).
  - destruct W as [O A]. assert (H : forall b, b ∈ m_timers m -> delete x (heap m) !! b = heap m !! b)
      by (intros b I; apply lookup_delete_ne; by intros ->).
    split; [constructor; cbn|].
    + eapply ordered_ext; [|exact O]. intros b I. unfold same_next. by rewrite H.
    + intros b I. cbn. rewrite H by done. by apply A.
    + intros b t. cbn. intros Eb. apply lookup_delete_Some in Eb as [_ Eb]. by apply Ar.
Qed.

Lemma run_inv evs m m' : wf m -> armed m -> run evs m m' -> wf m' /\ armed m'.
Proof. intros W Ar R. induction R as [|now e evs m m1 m2 S R IH]; [done|]. destruct (step_inv _ _ _ _ W Ar S). by apply IH. Qed.

Lemma run_app evs1 evs2 m m2 : run (evs1 ++ evs2) m m2 -> exists m1, run evs1 m m1 /\ run evs2 m1 m2.
Proof.
  revert m. induction evs1 as [|[now e] evs1 IH]; intros m R; [by exists m; split; [constructor|]|].
  inversion R; subst. destruct (IH _ ltac:(eassumption)) as (mx & R1 & R2). exists mx. split; [by econstructor|done].
Qed.

Lemma armed_new now : armed (new_TimerManager now).
Proof. intros a t E. cbn in E. by rewrite lookup_empty in E. Qed.

(** *** A timer that is over *)

Definition over m a : Prop := exists t, heap m !! a = Some t /\ m_cb t = None.

Lemma over_idle m a : armed m -> over m a -> a ∉ m_timers m.
Proof. intros Ar (t & E & N). by eapply armed_idle. Qed.

Lemma over_step now e m m' a : wf m -> armed m -> step now e m m' -> e <> Release a -> over m a -> over m' a.
Proof.
  intros W Ar S Ne (t & Et & N). pose proof (armed_idle m a t Ar Et N) as I.
  assert (Same : heap m' !! a = heap m !! a -> over m' a) by (intros Hh; exists t; by rewrite Hh).
  step_cases W Ar S.
  - apply Same. rewrite Hh, lookup_insert_ne; [done|]. intros ->. congruence.
  - destruct (decide (x = a)) as [->|Nx]; [exists (clear_cb u); by rewrite Hh, lookup_insert_eq|].
    apply Same. by rewrite Hh, lookup_insert_ne.
  - apply Same. rewrite Hh. destruct (bool_decide _) eqn:B; [|done]. apply bool_decide_eq_true in B.
    rewrite lookup_insert_ne; [done|]. by intros ->.
  - apply Same. rewrite Hh. destruct (bool_decide _) eqn:B; [|done]. apply bool_decide_eq_true in B.
    rewrite lookup_insert_ne; [done|]. by intros ->.
  - by apply Same.
  - apply Same. rewrite (expired_heap _ _ _ X), decide_False; [done|]. intros J. by apply due_elem in J as [J _].
  - apply Same. cbn. rewrite lookup_delete_ne; [done|]. by intros ->.
Qed.

Lemma over_run evs m m' a : wf m -> armed m -> run evs m m' -> Forall (fun e => e.2 <> Release a) evs -> over m a ->
  over m' a /\ Forall (fun e => match e.2 with Expire as_ _ => a ∉ as_ | _ => True end) evs.
Proof.
  intros W Ar R. induction R as [|now e evs m m1 m2 S R IH]; intros F O; [by split|].
  apply list.Forall_cons in F as [Fe F]. destruct (step_inv _ _ _ _ W Ar S) as [W1 A1].
  destruct (IH W1 A1 F (over_step _ _ _ _ _ W Ar S Fe O)) as [O2 F2]. split; [done|]. constructor; [|done].
  destruct S; try done. cbn. intros J. apply due_elem in J as [J _]. by apply (over_idle m a Ar O).
Qed.

(** *** A timer that waits *)

Definition waits m a n : Prop := exists t, heap m !! a = Some t /\ m_next t = n /\ a ∈ m_timers m.

(** The operations on the timer itself. *)
Definition touches a (e : label) : bool :=
  match e with Cancel b _ | Refresh b _ | Reset b _ _ _ => b =? a | _ => false end.
Definition fires a (e : label) : Prop := match e with Expire l _ => a ∈ l | _ => False end.

Lemma waits_step now e m m' a n : wf m -> armed m -> step now e m m' -> touches a e = false -> ~ fires a e ->
  waits m a n -> waits m' a n.
Proof.
  intros W Ar S Te Fe (t & Et & En & I).
  assert (Same : heap m' !! a = heap m !! a -> a ∈ m_timers m' -> waits m' a n) by (intros Hh Im; exists t; by rewrite Hh).
  step_cases W Ar S; cbn in Te.
  - apply Same; [|apply T; by right]. rewrite Hh, lookup_insert_ne; [done|]. intros ->. congruence.
  - apply Same; [rewrite Hh, lookup_insert_ne by lia; done|]. apply T. split; [lia|done].
  - apply Same; [|by apply T]. rewrite Hh. destruct (bool_decide _); [|done]. by rewrite lookup_insert_ne by lia.
  - apply Same; [|by apply T]. rewrite Hh. destruct (bool_decide _); [|done]. by rewrite lookup_insert_ne by lia.
  - by apply Same.
  - apply Same; [by rewrite (expired_heap _ _ _ X), decide_False|]. apply (expired_timers _ _ _ X). split; [done|by left].
  - apply Same; [|done]. cbn. rewrite lookup_delete_ne; [done|]. by intros ->.
Qed.

(** *** Time *)

(** Every deadline was set no later than [c]. *)
Record fair c m : Prop := {
  fair_clock : 0 <= m_previouseTime m <= c /\ c < 2 ^ 62;
  fair_timers : forall a t, heap m !! a = Some t -> 0 <= m_ms t < 2 ^ 62 /\ m_ms t <= m_next t <= c + m_ms t;
}.

Definition interval (e : label) : Z := match e with Add _ ms _ | Reset _ ms _ _ => ms | _ => 0 end.

(** The clock does not go back, and the intervals do not wrap around. *)
Fixpoint steady c (evs : list (Z * label)) : Prop :=
  match evs with
  | [] => True
  | (now, e) :: evs => c <= now < 2 ^ 62 /\ 0 <= interval e < 2 ^ 62 /\ steady now evs
  end.

Fixpoint last_time c (evs : list (Z * label)) : Z := match evs with [] => c | (now, _) :: evs => last_time now evs end.

Lemma fair_steady c m now : fair c m -> c <= now -> rolled now m = false.
Proof. intros [[F1 F2] _] L. unfold rolled, detectClockRollover. cbn. lia. Qed.

Lemma fair_put c now m m' x u : fair c m -> c <= now < 2 ^ 62 -> heap m' = <[x := u]> (heap m) -> m_previouseTime m' = m_previouseTime m ->
  0 <= m_ms u < 2 ^ 62 -> m_ms u <= m_next u <= now + m_ms u -> fair now m'.
Proof.
  intros [[F1 F2] Ft] L Hh P H1 H2. constructor; [rewrite P; lia|]. intros b t. rewrite Hh. destruct (decide (b = x)) as [->|N].
  - rewrite lookup_insert_eq. intros [= <-]. done.
  - rewrite lookup_insert_ne by done. intros E. apply Ft in E. lia.
Qed.

Lemma fair_later c now m m' : fair c m -> c <= now < 2 ^ 62 -> (forall b t, heap m' !! b = Some t -> heap m !! b = Some t) ->
  m_previouseTime m' = m_previouseTime m -> fair now m'.
Proof. intros [[F1 F2] Ft] L H P. constructor; [rewrite P; lia|]. intros b t E. apply H, Ft in E. lia. Qed.

Lemma fair_step c now e m m' : wf m -> armed m -> fair c m -> step now e m m' -> c <= now < 2 ^ 62 -> 0 <= interval e < 2 ^ 62 ->
  fair now m'.
Proof.
  intros W Ar F S L Le. pose proof (fair_timers c m F) as Ft. pose proof (fair_clock c m F) as Fc. step_cases W Ar S; cbn in Le.
  - eapply fair_put; [exact F|done|exact Hh|done|cbn; lia|]. cbn. rewrite u64_small by lia. lia.
  - eapply fair_put; [exact F|done|exact Hh|done|apply Ft in Eu; cbn; lia|]. apply Ft in Eu. cbn. lia.
  - destruct (bool_decide _); [|apply (fair_later c now m m2 F L); [by rewrite Hh|done]]. apply Ft in Eu.
    eapply fair_put; [exact F|done|exact Hh|done|cbn; lia|]. cbn. rewrite u64_small by lia. lia.
  - destruct (bool_decide _); [|apply (fair_later c now m m2 F L); [by rewrite Hh|done]]. apply Ft in Eu.
    eapply fair_put; [exact F|done|exact Hh|done|cbn; lia|]. cbn. destruct fn; [|rewrite (u64_small (m_next u - m_ms u)) by lia];
      rewrite u64_small by lia; lia.
  - by apply (fair_later c now m _ F L).
  - destruct X as [Hh T K P]. constructor; [lia|]. intros b t. rewrite Hh.
    destruct (decide _); [|intros E; apply Ft in E; lia]. destruct (heap m !! b) as [v|] eqn:Ev; [|done]. intros [= <-].
    apply Ft in Ev. unfold after. destruct (m_recurring v); cbn; [rewrite u64_small by lia|]; lia.
  - apply (fair_later c now m _ F L); [|done]. cbn. intros b t E. by apply lookup_delete_Some in E as [_ E].
Qed.

Lemma fair_run c evs m m' : wf m -> armed m -> fair c m -> run evs m m' -> steady c evs -> fair (last_time c evs) m'.
Proof.
  intros W Ar F R. revert c F. induction R as [|now e evs m m1 m2 S R IH]; intros c F St; [done|].
  destruct St as (L & Le & St). destruct (step_inv _ _ _ _ W Ar S) as [W1 A1]. cbn. apply IH; [done..| |done].
  by apply (fair_step c now e m m1).
Qed.

(** *** A thread that sleeps until [w] *)

Definition asleep w m : Prop := m_tickled m = false /\ forall a t, a ∈ m_timers m -> heap m !! a = Some t -> w <= m_next t.

(** No thread asks for the next timer, none is notified. *)
Definition quiet (e : label) : Prop := match e with Poll _ => False | Add _ _ front | Reset _ _ _ front => front = false | _ => True end.

Lemma asleep_put w m m' x u : asleep w m -> m_tickled m' = false -> heap m' = <[x := u]> (heap m) ->
  (forall b, b ∈ m_timers m' -> b = x \/ b ∈ m_timers m) -> (x ∈ m_timers m' -> w <= m_next u) -> asleep w m'.
Proof.
  intros [_ A] K Hh T H. split; [done|]. intros b t I. rewrite Hh. destruct (decide (b = x)) as [->|N].
  - rewrite lookup_insert_eq. intros [= <-]. by apply H.
  - rewrite lookup_insert_ne by done. intros E. destruct (T b I) as [->|J]; [done|by apply (A b)].
Qed.

(** What goes in behind another timer waits at least as long. *)
Lemma asleep_behind w m x u b : asleep w m -> b <> x -> b ∈ m_timers m -> before (<[x := u]> (heap m)) b x -> w <= m_next u.
Proof.
  intros [_ A] N I (t & v & Et & Ev & L). rewrite lookup_insert_ne in Et by done. rewrite lookup_insert_eq in Ev. injection Ev as <-.
  specialize (A b t I Et). lia.
Qed.

Lemma asleep_step c w now e m m' : wf m -> armed m -> fair c m -> step now e m m' -> c <= now < 2 ^ 62 -> 0 <= interval e < 2 ^ 62 ->
  quiet e -> asleep w m -> asleep w m'.
Proof.
  intros W Ar F S L Le Q Sl. pose proof (fair_timers c m F) as Ft. pose proof (fair_clock c m F) as Fc. pose proof Sl as [K0 A]. step_cases W Ar S; cbn in Q; try done.
  - subst. rewrite K0 in K. destruct (Fr eq_refl) as [|(b & Ib & B)]; [congruence|].
    eapply (asleep_put w m m2 x _ Sl K Hh (fun b => proj1 (T b))). intros _. rewrite Hh in B.
    apply (asleep_behind w m x _ b Sl); [|done|done]. intros ->. apply (wf_alive m W) in Ib as [v Ev]. congruence.
  - eapply (asleep_put w m m2 x _ Sl); [congruence|exact Hh|intros b I; right; by apply T|]. intros I. by apply T in I as [I _].
  - destruct (bool_decide _) eqn:B.
    + eapply (asleep_put w m m2 x _ Sl); [congruence|exact Hh|intros b I; right; by apply T|]. intros I. apply T in I.
      specialize (A x u I Eu). apply Ft in Eu. cbn. rewrite u64_small by lia. lia.
    + split; [congruence|]. intros b t. rewrite T, Hh. apply A.
  - subst. rewrite K0 in K. destruct (bool_decide _) eqn:B.
    + apply bool_decide_eq_true in B. destruct (Fr B eq_refl) as [|(b & Ib & Nb & Bb)]; [congruence|].
      eapply (asleep_put w m m2 x _ Sl K Hh); [intros y I; right; by apply T|]. intros _. rewrite Hh in Bb.
      by apply (asleep_behind w m x _ b Sl).
    + split; [done|]. intros b t. rewrite T, Hh. apply A.
  - destruct X as [Hh T K P]. split; [congruence|]. intros b t. rewrite T, Hh. intros [I J]. destruct (decide _) as [D|D]; [|by apply A].
    destruct J as [J|(v & Ev & Rv)]; [done|]. rewrite Ev. intros [= <-]. apply due_elem in D as [_ D].
    rewrite (fair_steady c m now F) in D by lia. unfold due_at in D. rewrite Ev in D. cbn in D.
    specialize (A b v I Ev). apply Ft in Ev. unfold after. rewrite Rv. cbn. rewrite u64_small by lia. lia.
  - split; [done|]. cbn. intros b t I E. apply lookup_delete_Some in E as [_ E]. by apply (A b).
Qed.

Lemma asleep_run c w evs m m' : wf m -> armed m -> fair c m -> run evs m m' -> steady c evs -> Forall (fun e => quiet e.2) evs ->
  asleep w m -> asleep w m'.
Proof.
  intros W Ar F R. revert c F. induction R as [|now e evs m m1 m2 S R IH]; intros c F St Q Sl; [done|].
  destruct St as (L & Le & St). apply list.Forall_cons in Q as [Qe Q]. destruct (step_inv _ _ _ _ W Ar S) as [W1 A1].
  eapply (IH W1 A1 now); [by apply (fair_step c now e m m1)|done|done|by apply (asleep_step c w now e m m1)].
Qed.

(** ** What the theorems need *)

Lemma ordered_filter h (P : Z -> Prop) `{forall x, Decision (P x)} l : ordered h l -> ordered h (filter P l).
Proof.
  induction 1 as [|a l O IH F]; [constructor|]. destruct (decide (P a)); [rewrite filter_cons_True by done|by rewrite filter_cons_False].
  constructor; [done|]. apply list.Forall_forall. intros b I. apply list_elem_of_filter in I as [_ I]. apply (Forall_elem _ _ _ F I).
Qed.

Lemma ordered_ext_eq h l l' : ordered h l -> ordered h l' -> (forall a, a ∈ l <-> a ∈ l') -> l = l'.
Proof.
  intros O O' E. apply (StronglySorted_unique_strong (before h)); [|done|done|].
  - intros a b _ _ B B'. exfalso. apply (before_ne h a a); [by eapply before_trans|done].
  - apply NoDup_Permutation; [by eapply ordered_NoDup..|done].
Qed.

Lemma cancel_list m a r m' : wf m -> armed m -> cancel a m = Ok (r, m') -> m_timers m' = filter (fun b => b <> a) (m_timers m).
Proof.
  intros W Ar E. destruct (object_of_cancel _ _ _ _ E) as [t Et]. destruct (cancel_ok a t m W Ar Et) as (m2 & E2 & W2 & H2 & T2 & _).
  rewrite E in E2. injection E2 as _ <-. apply (ordered_ext_eq (heap m)).
  - eapply ordered_ext; [|apply (wf_ordered m' W2)]. intros x I. apply T2 in I as [N _]. unfold same_next. by rewrite H2, lookup_insert_ne.
  - apply ordered_filter, W.
  - intros x. rewrite T2, list_elem_of_filter. done.
Qed.

Lemma over_after now e m m' a : wf m -> armed m -> step now e m m' ->
  e = Cancel a true \/ (fires a e /\ ~ recurs (heap m) a) -> over m' a.
Proof.
  intros W Ar S. step_cases W Ar S; intros [He|[He Hr]]; try done.
  - injection He as -> _. exists (clear_cb u). by rewrite Hh, lookup_insert_eq.
  - cbn in He. pose proof He as D. apply due_elem in D as [I _]. destruct (wf_alive m W a I) as [t Et]. exists (clear_cb t).
    split; [|done]. rewrite (expired_heap _ _ _ X), decide_True, Et by done. cbn. f_equal. unfold after.
    destruct (m_recurring t) eqn:R; [|done]. exfalso. apply Hr. by exists t.
Qed.

(** A waiting timer keeps its callback. *)
Lemma waits_cb_step now e m m' a n : wf m -> armed m -> step now e m m' -> touches a e = false -> ~ fires a e ->
  waits m a n -> cb_of (heap m') a = cb_of (heap m) a.
Proof.
  intros W Ar S Te Fe (t & Et & En & I). unfold cb_of. step_cases W Ar S; cbn in Te; try done.
  - rewrite Hh, lookup_insert_ne; [done|]. intros ->. congruence.
  - by rewrite Hh, lookup_insert_ne by lia.
  - rewrite Hh. destruct (bool_decide _); [|done]. by rewrite lookup_insert_ne by lia.
  - rewrite Hh. destruct (bool_decide _); [|done]. by rewrite lookup_insert_ne by lia.
  - by rewrite (expired_heap _ _ _ X), decide_False.
  - cbn. rewrite lookup_delete_ne; [done|]. by intros ->.
Qed.

Lemma fires_dec a e : fires a e \/ ~ fires a e.
Proof. destruct e; cbn; try (right; tauto). match goal with l : list Z |- _ => destruct (decide (a ∈ l)) end; tauto. Qed.

Lemma waits_cb evs m m' a n : wf m -> armed m -> run evs m m' -> Forall (fun e => touches a e.2 = false) evs ->
  waits m a n -> Exists (fun e => fires a e.2) evs \/ (waits m' a n /\ cb_of (heap m') a = cb_of (heap m) a).
Proof.
  intros W Ar R. induction R as [|now e evs m m1 m2 S R IH]; intros F Wa; [by right|].
  apply list.Forall_cons in F as [Fe F]. destruct (step_inv _ _ _ _ W Ar S) as [W1 A1].
  destruct (fires_dec a e) as [Y|N]; [left; by left|].
  destruct (IH W1 A1 F (waits_step _ _ _ _ _ _ W Ar S Fe N Wa)) as [Y|[Wn Ec]]; [left; by right|right].
  split; [done|]. rewrite Ec. by eapply waits_cb_step.
Qed.

Lemma asleep_poll c d m m1 : wf m -> getNextTimer c m = Ok (d, m1) -> d <> 0 -> asleep (c + d) m1.
Proof.
  intros W P N. destruct (getNextTimer_ok c m W) as (d' & E & _ & B & _). rewrite E in P. injection P as <- <-.
  split; [done|]. cbn. intros a t I Et. specialize (B a t I Et).
  destruct (m_timers m) as [|b l] eqn:El; [by apply not_elem_of_nil in I|].
  unfold getNextTimer in E. cbn in E. rewrite El in E. destruct (heap m !! b); [|done]. cbn in E. injection E as E.
  destruct (_ <=? _) eqn:L in E; lia.
Qed.
End timers.

(** * The theorems *)

(** [listExpiredCb] returns the callbacks of exactly the timers that are due, all of
    them when the clock has gone back by more than an hour, in the order of their
    deadlines and then of their addresses, whatever the address of the object it
    searches with; those that recur stay with a deadline counted from now, the others
    lose their callback and leave the set, every other timer stays as it was. *)
Theorem Timer_expire {C : Type} (p now : Z) (m : TimerManager C) (W : wf m) : exists m',
  listExpiredCb p now m = Ok (map (cb_of (heap m)) (due now m), m') /\
  ordered (heap m) (due now m) /\
  (forall a, a ∈ due now m <-> a ∈ m_timers m /\ (rolled now m || due_at (heap m) now a = true)) /\
  wf m' /\ expired now m m'.
Proof.
  destruct (expire_ok p now m W) as (m' & E & W' & X). exists m'. split_and!; [|by apply ordered_filter; apply W|apply due_elem|done|done].
  unfold listExpiredCb. destruct (m_timers m) eqn:Et; [|exact E]. unfold listExpired_locked in E. by rewrite Et in E.
Qed.

(** whatever the threads have done, the set is in the strict order of the comparator,
    holds exactly the timers that have a callback, and no operation on a timer that is
    there crashes; [cancel] and [refresh] say whether the timer was waiting. *)
Theorem Timer_reachable {C : Type} (t0 : Z) (evs : list (Z * label)) (m : TimerManager C) (R : run evs (new_TimerManager t0) m) :
  ordered (heap m) (m_timers m) /\ NoDup (m_timers m) /\
  (forall a t, heap m !! a = Some t -> (m_cb t <> None <-> a ∈ m_timers m) /\
    forall now ms from_now, exists m1 m2 r m3,
      cancel a m = Ok (bool_decide (a ∈ m_timers m), m1) /\ m_timers m1 = filter (fun b => b <> a) (m_timers m) /\
      refresh a now m = Ok (bool_decide (a ∈ m_timers m), m2) /\
      reset a ms from_now now m = Ok (r, m3)) /\
  (forall now, exists d, getNextTimer now m = Ok (d, set_tickled false m)).
Proof.
  destruct (run_inv _ _ _ (wf_empty t0) (armed_new t0) R) as [W Ar]. pose proof (wf_ordered m W) as O. split_and!; [done|by eapply ordered_NoDup| |].
  - intros a t E. split; [by apply Ar|]. intros now ms from_now.
    destruct (cancel_ok a t m W Ar E) as (m1 & E1 & W1 & H1 & T1 & _). destruct (refresh_ok a t now m W Ar E) as (m2 & E2 & _).
    destruct (reset_ok a t ms from_now now m W Ar E) as (f & m3 & E3 & _).
    assert (exists r m3, reset a ms from_now now m = Ok (r, m3)) as (r & m3' & Er).
    { unfold reset. rewrite E. cbn [deref rbind]. destruct (_ && _); [by eexists _, _|]. rewrite E3. by eexists _, _. }
    exists m1, m2, r, m3'. split_and!; [done| |done|done]. exact (cancel_list m a _ m1 W Ar E1).
  - intros now. destruct (getNextTimer_ok now m W) as (d & E & _). by exists d.
Qed.

(** a timer that was cancelled, or a one-shot timer that has fired, never fires again,
    whatever is done later, by its handle or otherwise, as long as its object lives; and
    its handle can no longer be cancelled or refreshed. *)
Theorem Timer_stops {C : Type} (t0 now : Z) (evs1 evs2 : list (Z * label)) (e : label) (a : Z) (m m1 m2 : TimerManager C)
    (R : run evs1 (new_TimerManager t0) m) (S : step now e m m1)
    (He : e = Cancel a true \/ (fires a e /\ ~ recurs (heap m) a))
    (R2 : run evs2 m1 m2) (Live : Forall (fun e => e.2 <> Release a) evs2) :
  Forall (fun e => ~ fires a e.2) evs2 /\ (a ∉ m_timers m2) /\
  cancel a m2 = Ok (false, m2) /\ refresh a now m2 = Ok (false, m2).
Proof.
  destruct (run_inv _ _ _ (wf_empty t0) (armed_new t0) R) as [W Ar]. destruct (step_inv _ _ _ _ W Ar S) as [W1 A1].
  pose proof (over_after now e m m1 a W Ar S He) as O. destruct (over_run _ _ _ a W1 A1 R2 Live O) as [O2 F].
  destruct (run_inv _ _ _ W1 A1 R2) as [W2 A2]. split_and!.
  - eapply list.Forall_impl; [exact F|]. intros [n2 e2]. destruct e2; cbn; tauto.
  - by apply over_idle.
  - destruct O2 as (t & E & N). unfold cancel. rewrite E. cbn. by rewrite N.
  - destruct O2 as (t & E & N). unfold refresh. rewrite E. cbn. by rewrite N.
Qed.

(** a timer that waits fires: whatever the threads do with the other timers, it is
    returned by the first expiry that reads a time at or past its deadline, if an earlier
    one (the clock gone back) has not returned it. *)
Theorem Timer_fires {C : Type} (t0 now n a : Z) (evs0 evs : list (Z * label)) (l : list Z) (cbs : list (option (Callback C)))
    (m m' : TimerManager C) (R0 : run evs0 (new_TimerManager t0) m) (Wa : waits m a n)
    (R : run (evs ++ [(now, Expire l cbs)]) m m') (U : Forall (fun e => touches a e.2 = false) evs) (L : n <= now) :
  Exists (fun e => fires a e.2) evs \/
  (a ∈ l /\ exists f, cb_of (heap m) a = Some f /\ Some f ∈ cbs).
Proof.
  destruct (run_inv _ _ _ (wf_empty t0) (armed_new t0) R0) as [W Ar]. apply run_app in R as (m1 & R1 & R2).
  destruct (waits_cb evs m m1 a n W Ar R1 U Wa) as [Y|(Wn & Ec)]; [by left|right].
  destruct (run_inv _ _ _ W Ar R1) as [W1 A1]. inversion R2 as [|? ? ? ? mx ? S R3]; subst. inversion S; subst.
  destruct (expire_ok p now m1 W1) as (mx' & E & _). match goal with H : listExpired_locked _ _ _ = _ |- _ => rewrite E in H; injection H as <- _ end.
  destruct Wn as (t & Et & En & I). assert (a ∈ due now m1) as D.
  { apply due_elem. split; [done|]. unfold due_at. rewrite Et. assert ((m_next t <=? now) = true) as -> by lia. by rewrite orb_true_r. }
  split; [done|]. destruct (m_cb t) as [f|] eqn:Ef; [|by apply (A1 a t Et) in I].
  assert (cb_of (heap m1) a = Some f) as Ec1 by (unfold cb_of; by rewrite Et). exists f. rewrite <- Ec. split; [done|].
  rewrite <- Ec1. by apply list_elem_of_fmap_2.
Qed.

(** no wake-up is lost: a thread that has asked for the next timer at time [c] and
    sleeps for the answer sleeps past no deadline, unless it is notified or another
    thread asks after it; with a clock that does not go back, whatever is added,
    restarted, refreshed, cancelled or fired in between. *)
Theorem Timer_wakeup {C : Type} (t0 d : Z) (evs0 evs : list (Z * label)) (m m1 m2 : TimerManager C) (T0 : 0 <= t0 < 2 ^ 62)
    (R0 : run evs0 (new_TimerManager t0) m) (S0 : steady t0 evs0)
    (P : getNextTimer (last_time t0 evs0) m = Ok (d, m1))
    (R : run evs m1 m2) (S : steady (last_time t0 evs0) evs) (Q : Forall (fun e => quiet e.2) evs) :
  forall a t, a ∈ m_timers m2 -> heap m2 !! a = Some t -> last_time t0 evs0 + d <= Z.max (last_time t0 evs0) (m_next t).
Proof.
  set (c := last_time t0 evs0) in *. destruct (run_inv _ _ _ (wf_empty t0) (armed_new t0) R0) as [W Ar].
  assert (F0 : fair t0 (new_TimerManager t0 : TimerManager C))
    by (constructor; cbn; [lia|]; intros a t E; by rewrite lookup_empty in E).
  pose proof (fair_run t0 evs0 _ _ (wf_empty t0) (armed_new t0) F0 R0 S0) as F. fold c in F.
  pose proof (asleep_poll c d m m1 W P) as Z1. assert (St : step c (Poll d) m m1) by (by apply step_poll).
  destruct (step_inv _ _ _ _ W Ar St) as [W1 A1]. pose proof (fair_clock c m F) as Fc.
  assert (F1 : fair c m1) by (apply (fair_step c c (Poll d) m m1 W Ar F St); cbn; lia).
  intros a t I E. destruct (Z.eq_dec d 0) as [->|Nd]; [lia|].
  destruct (asleep_run c (c + d) evs m1 m2 W1 A1 F1 R S Q (Z1 Nd)) as [_ A]. specialize (A a t I E). lia.
Qed.

(** ** Witnesses *)

(** Two timers at time 100: a one-shot at 110 and one that recurs every 5. *)
Definition demo_1 : TimerManager Z := snd (addTimer 1 10 (Some (Call 7)) false 100 (new_TimerManager 100)).
Definition demo_2 : TimerManager Z := snd (addTimer 2 5 (Some (Call 8)) true 100 demo_1).

Lemma demo_run : run [(100, Add 1 10 true); (100, Add 2 5 false)] (new_TimerManager 100) demo_2.
Proof.
  apply run_cons with demo_1; [by apply (step_add 100 1 10 (Call 7) false true)|].
  apply run_cons with demo_2; [by apply (step_add 100 2 5 (Call 8) true false)|constructor].
Qed.

Lemma demo_wf : wf demo_2 /\ armed demo_2.
Proof. exact (run_inv _ _ _ (wf_empty 100) (armed_new 100) demo_run). Qed.

Lemma Timer_expire_witness : exists m', listExpiredCb 9 107 demo_2 = Ok ([Some (Call 8)], m') /\ wf m'.
Proof.
  destruct (Timer_expire 9 107 demo_2 (proj1 demo_wf)) as (m' & E & _ & _ & W & _). exists m'. split; [exact E|exact W].
Defined.

Lemma Timer_reachable_witness : NoDup (m_timers demo_2) /\ m_timers demo_2 = [2; 1].
Proof.
  split; [|reflexivity]. destruct (Timer_reachable 100 _ demo_2 demo_run) as (_ & N & _). exact N.
Defined.

(** The state an operation leads to. *)
Definition state_of {A} (r : res (A * TimerManager Z)) : TimerManager Z := match r with Ok (_, m) => m | _ => demo_2 end.

Definition demo_cancelled : TimerManager Z := state_of (cancel 1 demo_2).
Definition demo_after : TimerManager Z := state_of (listExpired_locked 9 200 demo_cancelled).

(** The first timer is cancelled; a later expiry fires the other one. *)
Lemma Timer_stops_witness : step 101 (Cancel 1 true) demo_2 demo_cancelled /\ run [(200, Expire [2] [Some (Call 8)])] demo_cancelled demo_after /\ cancel 1 demo_after = Ok (false, demo_after).
Proof.
  assert (S : step 101 (Cancel 1 true) demo_2 demo_cancelled) by (apply step_cancel; vm_compute; reflexivity).
  assert (R : run [(200, Expire [2] [Some (Call 8)])] demo_cancelled demo_after).
  { apply run_cons with demo_after; [|constructor].
    change [2] with (due 200 demo_cancelled). apply (step_expire 200 9). vm_compute. reflexivity. }
  split; [exact S|]. split; [exact R|].
  destruct (Timer_stops 100 101 _ _ _ 1 _ _ _ demo_run S (or_introl eq_refl) R ltac:(repeat constructor; discriminate)) as (_ & _ & Ec & _).
  exact Ec.
Defined.

(** At 110 both fire. *)
Definition demo_fired : TimerManager Z := state_of (listExpired_locked 9 110 demo_2).

Lemma Timer_fires_witness : run ([] ++ [(110, Expire [2; 1] [Some (Call 8); Some (Call 7)])]) demo_2 demo_fired /\ waits demo_2 1 110 /\ 1 ∈ [2; 1].
Proof.
  assert (R : run ([] ++ [(110, Expire [2; 1] [Some (Call 8); Some (Call 7)])]) demo_2 demo_fired).
  { cbn [app]. apply run_cons with demo_fired; [|constructor].
    change [2; 1] with (due 110 demo_2). apply (step_expire 110 9). vm_compute. reflexivity. }
  assert (Wa : waits demo_2 1 110) by (exists (new_Timer 10 (Some (Call 7)) false 100); split_and!; [reflexivity|reflexivity|right; left]).
  split; [exact R|]. split; [exact Wa|].
  destruct (Timer_fires 100 110 110 1 _ [] _ _ _ _ demo_run Wa R ltac:(constructor) ltac:(lia)) as [X|[X _]]; [by inversion X|exact X].
Defined.

(** Asked at 100, the answer is 5; a timer that is refreshed does not shorten it. *)
Definition demo_polled : TimerManager Z := set_tickled false demo_2.
Definition demo_refreshed : TimerManager Z := state_of (refresh 1 103 demo_polled).

Lemma Timer_wakeup_witness : getNextTimer 100 demo_2 = Ok (5, demo_polled) /\ run [(103, Refresh 1 true)] demo_polled demo_refreshed /\ 105 <= Z.max 100 113.
Proof.
  assert (P : getNextTimer 100 demo_2 = Ok (5, demo_polled)) by reflexivity.
  assert (R : run [(103, Refresh 1 true)] demo_polled demo_refreshed).
  { apply run_cons with demo_refreshed; [|constructor]. apply step_refresh. vm_compute. reflexivity. }
  split; [exact P|]. split; [exact R|].
  exact (Timer_wakeup 100 5 _ [(103, Refresh 1 true)] _ _ _ ltac:(lia) demo_run ltac:(cbn; lia) P R ltac:(cbn; lia) ltac:(repeat constructor)
    1 (new_Timer 10 (Some (Call 7)) false 103) ltac:(right; left) ltac:(reflexivity)).
Defined.

(** [reset] answers before it looks whether the timer is still there: with its interval
    unchanged it reports success on a timer that was cancelled. *)
Example reset_cancelled : reset 1 10 false 150 demo_cancelled = Ok (true, false, demo_cancelled) /\ (1 ∉ m_timers demo_cancelled).
Proof.
  split; [vm_compute; reflexivity|]. intros I. vm_compute in I. apply elem_of_cons in I as [|I]; [done|]. by apply not_elem_of_nil in I.
Qed.
