(* ===== verification/TimedLruCache.v ===== *)
(** The cache with deadlines [CIM::ds::TimedLruCache] and its sharded form
    (include/ds/timed_lru_cache.hpp).

    An [Item] is a key, a value and the time [ts] it expires at; the nodes, the map and the
    limits are those of [LruCache], with pairs of a value and a time for values, and
    [m_timed] is the set of the nodes in the order of [ItemTimeOp]. The clock
    ([GetCurrentMS]) is an argument. A deadline is only acted upon by [checkTimeout]:
    until then [get] returns the item. *)
From stdpp Require Import gmap.
From S2P Require Import Prelude OrderedSet Shards LruCache.

Section cache.
Context {K V : Type} `{Countable K} `{Inhabited V} (key_lt : K -> K -> bool).

Record TimedLruCache := mkTimedLruCache {
  t_cache : LruCache K (V * Z);
  m_timed : list nat;
}.

Definition new_TimedLruCache (max_size elasticity : Z) : TimedLruCache :=
  mkTimedLruCache (new_LruCache max_size elasticity) [].

Abbreviation nodes := (list (nat * (K * (V * Z)))).

(** The item a node of [m_timed] points to. *)
Definition item_of (keys : nodes) (a : nat) : option (K * (V * Z)) :=
  match node_index a keys with Ok (_, item) => Some item | _ => None end.

Definition ItemTimeOp (keys : nodes) (a b : nat) : bool :=
  if decide (a = b) then false
  else match item_of keys a, item_of keys b with
       | Some (ka, (_, ta)), Some (kb, (_, tb)) => if negb (ta =? tb) then ta <? tb else key_lt ka kb
       | _, _ => false
       end.

(** [while (m_cache.size() > m_maxSize)]: the last node leaves the map, the deadlines and the list. *)
Fixpoint timed_prune_loop (fuel : nat) (c : TimedLruCache) (n : Z) (e : Env K V) : res (Z * TimedLruCache * Env K V) :=
  let lru := t_cache c in
  if negb (m_maxSize lru <? map_size (m_cache lru)) then Ok (n, c, e)
  else match fuel with
       | O => Crash nontermination
       | S fuel =>
           match m_keys lru !! (length (m_keys lru) - 1)%nat with
           | None => Crash null_deref
           | Some (it, (k, (v, _))) =>
               let e := if m_cb lru then mkEnv (env_status e) (env_pruned e ++ [(k, v)]) else e in
               let timed := set_erase (ItemTimeOp (m_keys lru)) it (m_timed c) in
               let lru := set_maps (delete k (m_cache lru)) (take (length (m_keys lru) - 1) (m_keys lru)) lru in
               timed_prune_loop fuel (mkTimedLruCache lru timed) (n + 1) e
           end
       end.

Definition timed_prune (c : TimedLruCache) (e : Env K V) : res (Z * TimedLruCache * Env K V) :=
  let lru := t_cache c in
  if (m_maxSize lru =? 0) || (map_size (m_cache lru) <? getMaxAllowedSize lru) then Ok (0, c, e)
  else
    let! (n, c, e) := timed_prune_loop (length (m_keys lru)) c 0 e in
    Ok (n, c, count (incPrune (s64 n)) e).

Definition timed_set (k : K) (v : V) (expired now : Z) (c : TimedLruCache) (e : Env K V) : res (TimedLruCache * Env K V) :=
  let e := count (incSet 1) e in
  let lru := t_cache c in
  let ts := u64 (expired + now) in
  match m_cache lru !! k with
  | Some it =>
      let! keys := splice_front it (m_keys lru) in
      let timed := set_erase (ItemTimeOp keys) it (m_timed c) in
      let! keys := assign it (v, ts) keys in
      let timed := snd (set_insert (ItemTimeOp keys) it timed) in
      Ok (mkTimedLruCache (set_maps (m_cache lru) keys lru) timed, e)
  | None =>
      let it := next_node lru in
      let keys := (it, (k, (v, ts))) :: m_keys lru in
      let lru := mkLruCache (<[k := it]> (m_cache lru)) keys (m_maxSize lru) (m_elasticity lru) (m_cb lru) (S it) in
      let! (_, c, e) := timed_prune (mkTimedLruCache lru (snd (set_insert (ItemTimeOp keys) it (m_timed c)))) e in
      Ok (c, e)
  end.

Definition timed_get (k : K) (c : TimedLruCache) (e : Env K V) : res (option V * TimedLruCache * Env K V) :=
  let e := count (incGet 1) e in
  let lru := t_cache c in
  match m_cache lru !! k with
  | None => Ok (None, c, e)
  | Some it =>
      let! keys := splice_front it (m_keys lru) in
      let! (_, item) := node_index it keys in
      Ok (Some item.2.1, mkTimedLruCache (set_maps (m_cache lru) keys lru) (m_timed c), count (incHit 1) e)
  end.

Definition timed_get_or_default (k : K) (c : TimedLruCache) (e : Env K V) : res (V * TimedLruCache * Env K V) :=
  let! (v, c, e) := timed_get k c e in Ok (default inhabitant v, c, e).

Definition timed_del (k : K) (c : TimedLruCache) (e : Env K V) : res (bool * TimedLruCache * Env K V) :=
  let e := count (incDel 1) e in
  let lru := t_cache c in
  match m_cache lru !! k with
  | None => Ok (false, c, e)
  | Some it =>
      let timed := set_erase (ItemTimeOp (m_keys lru)) it (m_timed c) in
      let! keys := erase it (m_keys lru) in
      Ok (true, mkTimedLruCache (set_maps (delete k (m_cache lru)) keys lru) timed, e)
  end.

Definition timed_exists (k : K) (c : TimedLruCache) : bool := exists_ k (t_cache c).
Definition timed_size (c : TimedLruCache) : Z := size_ (t_cache c).
Definition timed_empty (c : TimedLruCache) : bool := empty_ (t_cache c).
Definition timed_clear (c : TimedLruCache) : bool * TimedLruCache :=
  (true, mkTimedLruCache (set_maps empty [] (t_cache c)) []).

(** The loop of [checkTimeout] over [m_timed] from its begin. *)
Fixpoint timeout_loop (ts : Z) (timed : list nat) (lru : LruCache K (V * Z)) (n : Z) (e : Env K V)
    : res (Z * TimedLruCache * Env K V) :=
  match timed with
  | [] => Ok (n, mkTimedLruCache lru [], e)
  | it :: rest =>
      let! (_, item) := node_index it (m_keys lru) in
      let '(k, (v, t)) := item in
      if t <=? ts then
        let e := if m_cb lru then mkEnv (env_status e) (env_pruned e ++ [(k, v)]) else e in
        let! keys := erase it (m_keys lru) in
        timeout_loop ts rest (set_maps (delete k (m_cache lru)) keys lru) (n + 1) e
      else Ok (n, mkTimedLruCache lru timed, e)
  end.

Definition checkTimeout (ts : Z) (c : TimedLruCache) (e : Env K V) : res (Z * TimedLruCache * Env K V) :=
  timeout_loop ts (m_timed c) (t_cache c) 0 e.

Definition timed_setMaxSize (v : Z) (c : TimedLruCache) : TimedLruCache := mkTimedLruCache (setMaxSize v (t_cache c)) (m_timed c).
Definition timed_setElasticity (v : Z) (c : TimedLruCache) : TimedLruCache := mkTimedLruCache (setElasticity v (t_cache c)) (m_timed c).
Definition timed_setPruneCallback (cb : bool) (c : TimedLruCache) : TimedLruCache :=
  mkTimedLruCache (setPruneCallback cb (t_cache c)) (m_timed c).

(** ** Shards *)

#[export] Instance TimedLruCache_ops : CacheOps TimedLruCache (Env K V) := {|
  cache_new := new_TimedLruCache;
  cache_size := timed_size;
  cache_empty := timed_empty;
  cache_clear c := snd (timed_clear c);
  cache_setMaxSize := timed_setMaxSize;
  cache_setElasticity := timed_setElasticity;
  cache_setPruneCallback := timed_setPruneCallback;
|}.

Definition HashTimedLruCache : Type := Sharded TimedLruCache (Env K V).

Definition new_HashTimedLruCache : Z -> Z -> Z -> res HashTimedLruCache := new_Sharded (mkEnv new_CacheStatus []).

Section shards.
Context (m_hash : K -> Z).

Definition hash_timed_set (k : K) (v : V) (expired now : Z) : HashTimedLruCache -> res (unit * HashTimedLruCache) :=
  on_shard m_hash k (fun c e => let! (c, e) := timed_set k v expired now c e in Ok (tt, c, e)).
Definition hash_timed_get (k : K) : HashTimedLruCache -> res (option V * HashTimedLruCache) := on_shard m_hash k (timed_get k).
Definition hash_timed_get_or_default (k : K) : HashTimedLruCache -> res (V * HashTimedLruCache) :=
  on_shard m_hash k (timed_get_or_default k).
Definition hash_timed_del (k : K) : HashTimedLruCache -> res (bool * HashTimedLruCache) := on_shard m_hash k (timed_del k).
Definition hash_timed_exists (k : K) : HashTimedLruCache -> res (bool * HashTimedLruCache) :=
  on_shard m_hash k (fun c e => Ok (timed_exists k c, c, e)).
End shards.

Definition hash_checkTimeout (ts : Z) : HashTimedLruCache -> res (Z * HashTimedLruCache) := sharded_checkTimeout (checkTimeout ts).
End cache.
Arguments TimedLruCache K V {_ _}.
Arguments HashTimedLruCache K V {_ _}.
