(* ===== verification/TimedLruCacheSpec.v ===== *)
(** The cache with deadlines against its specification: the list of items of the LRU cache,
    each with its deadline. *)
From stdpp Require Import gmap sorting.
From S2P Require Import Prelude OrderedSet LruCache LruCacheSpec TimedLruCache.

Section spec.
Context {K V : Type} `{Countable K} `{Inhabited V} (key_lt : K -> K -> bool) `{KL : !StrictOn (fun _ : K => True) key_lt}.
Implicit Types (c : TimedLruCache K V) (l : list (K * (V * Z))) (ks : list (nat * (K * (V * Z)))) (e : Env K V).

(** ** The order of the deadlines *)

Definition item_lt (x y : K * (V * Z)) : bool := if negb (x.2.2 =? y.2.2) then x.2.2 <? y.2.2 else key_lt x.1 y.1.

Lemma item_of_elem ks a x : NoDup (ks.*1) -> (a, x) ∈ ks -> item_of ks a = Some x.
Proof.
  intros N I. apply list_elem_of_split in I as (k1 & k2 & ->). unfold item_of. rewrite node_index_middle; [done|].
  rewrite fmap_app in N. cbn in N. apply list.NoDup_app in N as (_ & N & _). intros I. apply (N _ I). left.
Qed.

Lemma ItemTimeOp_item ks a b x y : NoDup (ks.*1) -> (a, x) ∈ ks -> (b, y) ∈ ks -> a <> b -> ItemTimeOp key_lt ks a b = item_lt x y.
Proof.
  intros N Ia Ib D. unfold ItemTimeOp. rewrite decide_False by done. rewrite (item_of_elem ks a x), (item_of_elem ks b y) by done.
  by destruct x as [ka [va ta]], y as [kb [vb tb]].
Qed.

Lemma item_lt_trans x y z : item_lt x y = true -> item_lt y z = true -> item_lt x z = true.
Proof.
  unfold item_lt. destruct (Z.eqb_spec x.2.2 y.2.2) as [E1|E1], (Z.eqb_spec y.2.2 z.2.2) as [E2|E2], (Z.eqb_spec x.2.2 z.2.2) as [E3|E3];
    cbn; try lia. by apply (strict_trans (P := fun _ => True)).
Qed.

Lemma item_lt_total x y : x.1 <> y.1 -> item_lt x y = false -> item_lt y x = true.
Proof.
  unfold item_lt. intros N. destruct (Z.eqb_spec x.2.2 y.2.2) as [E1|E1], (Z.eqb_spec y.2.2 x.2.2) as [E2|E2]; cbn; try lia.
  by apply (strict_total (P := fun _ => True)).
Qed.

Lemma elem_fst ks a : a ∈ ks.*1 -> exists x, (a, x) ∈ ks.
Proof. intros I. apply list_elem_of_fmap in I as ([a' x] & -> & I). by exists x. Qed.

(** Two nodes of one key are one node. *)
Lemma same_key ks a b x y : NoDup ((ks.*2).*1) -> (a, x) ∈ ks -> (b, y) ∈ ks -> x.1 = y.1 -> a = b.
Proof.
  intros N Ia Ib E. apply list_elem_of_lookup in Ia as [i Ia]. apply list_elem_of_lookup in Ib as [j Ib].
  assert (i = j) as ->; [|congruence]. eapply (NoDup_lookup ((ks.*2).*1) i j x.1); [done| |];
    rewrite !list_lookup_fmap; [by rewrite Ia|rewrite Ib; cbn; by rewrite E].
Qed.

Lemma time_strict ks : NoDup (ks.*1) -> NoDup ((ks.*2).*1) -> StrictOn (fun a => a ∈ ks.*1) (ItemTimeOp key_lt ks).
Proof.
  intros N Nk. constructor.
  - intros a _. unfold ItemTimeOp. by rewrite decide_True.
  - intros a b d Ia Ib Id. destruct (elem_fst ks a Ia) as [x Ix], (elem_fst ks b Ib) as [y Iy], (elem_fst ks d Id) as [z Iz].
    intros L1 L2. destruct (decide (a = b)) as [->|D1]; [by unfold ItemTimeOp in L1; rewrite decide_True in L1|].
    destruct (decide (b = d)) as [->|D2]; [by unfold ItemTimeOp in L2; rewrite decide_True in L2|].
    rewrite (ItemTimeOp_item ks a b x y) in L1 by done. rewrite (ItemTimeOp_item ks b d y z) in L2 by done.
    pose proof (item_lt_trans x y z L1 L2) as L3. destruct (decide (a = d)) as [->|D3]; [|by rewrite (ItemTimeOp_item ks a d x z)].
    exfalso. assert (x = z) as -> by (pose proof (item_of_elem ks d x N Ix); pose proof (item_of_elem ks d z N Iz); congruence).
    unfold item_lt in L3. rewrite Z.eqb_refl in L3. cbn in L3. by rewrite (strict_irrefl (P := fun _ => True)) in L3.
  - intros a b Ia Ib D. destruct (elem_fst ks a Ia) as [x Ix], (elem_fst ks b Ib) as [y Iy].
    rewrite (ItemTimeOp_item ks a b x y), (ItemTimeOp_item ks b a y x) by done. apply item_lt_total.
    intros E. apply D. by apply (same_key ks a b x y).
Qed.

(** ** The representation *)

Record trel c l : Prop := {
  trel_lru : rel (t_cache c) l;
  trel_timed : forall a, a ∈ m_timed c <-> a ∈ (m_keys (t_cache c)).*1;
  trel_order : in_order (ItemTimeOp key_lt (m_keys (t_cache c))) (m_timed c);
}.

Lemma trel_keys c l : rel (t_cache c) l -> NoDup ((m_keys (t_cache c)).*2.*1).
Proof. intros R. rewrite (rel_items _ _ R). apply R. Qed.

(** Nodes whose items are the same keep their order. *)
Lemma order_same ks ks' (timed : list nat) : NoDup (ks.*1) -> NoDup (ks'.*1) ->
  (forall a, a ∈ timed -> exists x, (a, x) ∈ ks /\ (a, x) ∈ ks') ->
  in_order (ItemTimeOp key_lt ks) timed -> in_order (ItemTimeOp key_lt ks') timed.
Proof.
  intros N N' S. apply in_order_same. intros a b Ia Ib. destruct (S a Ia) as (x & X1 & X2), (S b Ib) as (y & Y1 & Y2).
  unfold ItemTimeOp. destruct (decide (a = b)); [done|]. by rewrite (item_of_elem ks a x), (item_of_elem ks b y), (item_of_elem ks' a x), (item_of_elem ks' b y).
Qed.

(** A node erased from the deadlines. *)
Lemma erase_timed ks it (timed : list nat) : NoDup (ks.*1) -> NoDup ((ks.*2).*1) -> (forall a, a ∈ timed <-> a ∈ ks.*1) -> it ∈ ks.*1 ->
  in_order (ItemTimeOp key_lt ks) timed ->
  in_order (ItemTimeOp key_lt ks) (set_erase (ItemTimeOp key_lt ks) it timed) /\
  forall a, a ∈ set_erase (ItemTimeOp key_lt ks) it timed <-> a <> it /\ a ∈ ks.*1.
Proof.
  intros N Nk T I O. pose proof (time_strict ks N Nk) as Str.
  destruct (set_erase_ok (fun a => a ∈ ks.*1) (ItemTimeOp key_lt ks) it timed) as [O' T']; [|done|].
  - apply all_cons; [done|]. intros a Ia. by apply T.
  - split; [done|]. intros a. rewrite T', T. done.
Qed.

(** A node that is new to the deadlines. *)
Lemma insert_timed ks it (timed : list nat) : NoDup (ks.*1) -> NoDup ((ks.*2).*1) -> it ∈ ks.*1 ->
  (forall a, a ∈ timed <-> a <> it /\ a ∈ ks.*1) -> in_order (ItemTimeOp key_lt ks) timed ->
  in_order (ItemTimeOp key_lt ks) (snd (set_insert (ItemTimeOp key_lt ks) it timed)) /\
  forall a, a ∈ snd (set_insert (ItemTimeOp key_lt ks) it timed) <-> a ∈ ks.*1.
Proof.
  intros N Nk I T O. pose proof (time_strict ks N Nk) as Str.
  destruct (set_insert_ok (fun a => a ∈ ks.*1) (ItemTimeOp key_lt ks) it timed) as [O' T']; [|done|].
  - apply all_cons; [done|]. intros a Ia. by apply T in Ia as [_ Ia].
  - split; [done|]. intros a. rewrite T', T. destruct (decide (a = it)) as [->|]; tauto.
Qed.

(** ** The operations *)

Definition strip (x : K * (V * Z)) : K * V := (x.1, x.2.1).

(** What the callback hears, when there is one. *)
Definition told c (l : list (K * V)) : list (K * V) := if m_cb (t_cache c) then l else [].

Lemma elem_middle ks it x k1 k2 a : ks = k1 ++ (it, x) :: k2 -> (a ∈ ks.*1 <-> a = it \/ a ∈ (k1 ++ k2).*1).
Proof. intros ->. rewrite !fmap_app. cbn. rewrite !elem_of_app, elem_of_cons. tauto. Qed.

(** The node [it] taken away, or given another value: the other nodes keep their items. *)
Lemma others_same ks it x k1 k2 a : NoDup (ks.*1) -> ks = k1 ++ (it, x) :: k2 -> a <> it -> a ∈ ks.*1 ->
  exists y, (a, y) ∈ ks /\ (a, y) ∈ k1 ++ k2.
Proof.
  intros N E D I. destruct (elem_fst ks a I) as [y Iy]. exists y. split; [done|]. subst ks.
  apply elem_of_app in Iy as [Iy|Iy]; [apply elem_of_app; by left|]. apply elem_of_cons in Iy as [[= -> ->]|Iy]; [done|].
  apply elem_of_app. by right.
Qed.

Lemma NoDup_others ks it x k1 k2 : NoDup (ks.*1) -> ks = k1 ++ (it, x) :: k2 -> NoDup ((k1 ++ k2).*1) /\ (it ∉ (k1 ++ k2).*1).
Proof.
  intros N ->. rewrite fmap_app in N |- *. cbn in N. rewrite <- Permutation_middle in N. apply list.NoDup_cons in N as [N1 N2].
  by rewrite <- fmap_app in *.
Qed.

(** A node erased from the list, the map and the deadlines. *)
Lemma erase_node c l it k v t k1 k2 : trel c l -> m_keys (t_cache c) = k1 ++ (it, (k, (v, t))) :: k2 ->
  trel (mkTimedLruCache (set_maps (delete k (m_cache (t_cache c))) (k1 ++ k2) (t_cache c))
          (set_erase (ItemTimeOp key_lt (m_keys (t_cache c))) it (m_timed c))) (k1.*2 ++ k2.*2).
Proof.
  intros [R T O] E. pose proof (rel_nodes _ _ R) as N. pose proof (trel_keys c l R) as Nk.
  destruct (NoDup_others _ _ _ _ _ N E) as [N2 Nit].
  assert (it ∈ (m_keys (t_cache c)).*1) as I by (apply (elem_middle _ _ _ _ _ _ E); by left).
  destruct (erase_timed _ it (m_timed c) N Nk T I O) as [O' T']. constructor; cbn.
  - by apply (rel_erase _ l it k (v, t)).
  - intros a. rewrite T'. rewrite (elem_middle _ _ _ _ _ a E). split; [tauto|]. intros Ia. split; [by intros ->|by right].
  - eapply order_same; [exact N|done| |exact O']. intros a Ia. apply T' in Ia as [D Ia]. by apply (others_same _ it (k, (v, t))).
Qed.

Lemma timed_get_ok c l e k : trel c l ->
  exists c' e', timed_get k c e = Ok (fst <$> fst (spec_get k l), c', e') /\ conf (t_cache c') = conf (t_cache c) /\
    trel c' (snd (spec_get k l)) /\ env_pruned e' = env_pruned e.
Proof.
  intros [R T O]. pose proof (rel_lookup _ l k R) as L. unfold timed_get, spec_get. destruct (m_cache (t_cache c) !! k) as [it|].
  - destruct L as (k1 & k2 & [v t] & E & N & _ & F & Rm). rewrite E, splice_ok by done. cbn [rbind]. rewrite F, Rm.
    rewrite (node_index_middle it (k, (v, t)) [] (k1 ++ k2) (not_elem_of_nil _) : node_index it ((it, (k, (v, t))) :: k1 ++ k2) = _). cbn [rbind].
    eexists _, _. split; [done|]. split; [done|]. split; [|done]. pose proof (rel_front _ l it k (v, t) (v, t) k1 k2 R E) as R'.
    pose proof (rel_nodes _ _ R) as Nn. pose proof (rel_nodes _ _ R') as Nn'. constructor; cbn; [done| |].
    + intros a. rewrite T, (elem_middle _ _ _ _ _ a E). by rewrite elem_of_cons.
    + eapply order_same; [exact Nn|exact Nn'| |exact O]. intros a Ia. apply T in Ia. destruct (elem_fst _ a Ia) as [x Ix]. exists x.
      split; [done|]. rewrite E in Ix. apply elem_of_app in Ix as [Ix|Ix]; [right; apply elem_of_app; by left|].
      apply elem_of_cons in Ix as [->|Ix]; [left|right; apply elem_of_app; by right].
  - rewrite L. by eexists _, _.
Qed.

Lemma remove_missing k l : find k l = None -> remove k l = l.
Proof.
  intros F. induction l as [|x l IH]; [done|]. cbn in *. destruct (decide (x.1 = k)); [done|]. f_equal. by apply IH.
Qed.

Lemma timed_del_ok c l e k : trel c l ->
  exists c' e', timed_del key_lt k c e = Ok (bool_decide (is_Some (find k l)), c', e') /\ conf (t_cache c') = conf (t_cache c) /\
    trel c' (remove k l) /\ env_pruned e' = env_pruned e.
Proof.
  intros R0. pose proof (trel_lru c l R0) as R. pose proof (rel_lookup _ l k R) as L. unfold timed_del.
  destruct (m_cache (t_cache c) !! k) as [it|].
  - destruct L as (k1 & k2 & [v t] & E & N & _ & F & Rm). cbv zeta.
    assert (erase it (m_keys (t_cache c)) = Ok (k1 ++ k2)) as ->.
    { unfold erase. rewrite E, node_index_middle by done. cbn [rbind]. by rewrite delete_middle. }
    cbn [rbind]. rewrite F, Rm. eexists _, _. split; [by rewrite bool_decide_eq_true_2|]. split; [done|]. split; [by apply (erase_node c l it k v t)|done].
  - rewrite L, remove_missing by done. by eexists c, _.
Qed.

(** Dropping the last node. *)
Lemma timed_prune_loop_ok fuel : forall c l n e, trel c l -> 0 <= m_maxSize (t_cache c) ->
  len l - m_maxSize (t_cache c) <= Z.of_nat fuel ->
  exists c' n' e', timed_prune_loop key_lt fuel c n e = Ok (n', c', e') /\ conf (t_cache c') = conf (t_cache c) /\
    trel c' (take (Z.to_nat (m_maxSize (t_cache c))) l) /\
    env_pruned e' = env_pruned e ++ told c (map strip (reverse (drop (Z.to_nat (m_maxSize (t_cache c))) l))).
Proof.
  induction fuel as [|fuel IH]; intros c l n e R0 Hm Hf; pose proof (trel_lru c l R0) as R; cbn [timed_prune_loop]; rewrite (rel_size _ l R);
    (destruct (Z.ltb_spec (m_maxSize (t_cache c)) (len l)) as [L|L]; cbn [negb];
     [|eexists c, n, e; split; [done|]; rewrite take_ge, drop_ge by (unfold len in L; lia);
       split; [done|]; split; [done|]; unfold told; destruct (m_cb _); by rewrite app_nil_r]); [lia|].
  pose proof (rel_items _ l R) as El. assert (Ll : length (m_keys (t_cache c)) = length l) by (by rewrite <- El, length_fmap).
  destruct (exists_last (l := m_keys (t_cache c))) as (ks & [it [k [v t]]] & E); [intros E; rewrite E in Ll; unfold len in L; cbn in Ll; lia|].
  assert (Ek : l = ks.*2 ++ [(k, (v, t))]) by (by rewrite <- El, E, fmap_app).
  pose proof (erase_node c l it k v t ks [] R0 E) as R1. rewrite !app_nil_r in R1.
  rewrite E in R1 |- *. rewrite length_app. cbn [length].
  rewrite lookup_app_r by lia. replace (length ks + 1 - 1 - length ks)%nat with 0%nat by lia. cbn [lookup list_lookup].
  replace (length ks + 1 - 1)%nat with (length ks) by lia. rewrite take_app_length.
  assert (Hl : len l = Z.of_nat (length (ks.*2)) + 1) by (rewrite Ek; unfold len; rewrite length_app; cbn; lia).
  destruct (IH _ _ (n + 1) (if m_cb (t_cache c) then mkEnv (env_status e) (env_pruned e ++ [(k, v)]) else e) R1)
    as (c' & n' & e' & E' & Cf & R' & P'); [done|unfold len in *; cbn; lia|].
  exists c', n', e'. split; [exact E'|]. split; [done|]. unfold told in *. cbn [t_cache set_maps m_maxSize m_cb] in *.
  assert (Z.to_nat (m_maxSize (t_cache c)) <= length (ks.*2))%nat as Lm by lia. split.
  - by rewrite Ek, take_app_le.
  - rewrite P', Ek, drop_app_le, reverse_snoc by done. destruct (m_cb (t_cache c)); [|done]. cbn. by rewrite <- app_assoc.
Qed.

Lemma timed_prune_ok c l e : trel c l -> limits (m_maxSize (t_cache c)) (m_elasticity (t_cache c)) ->
  let r := trim (m_maxSize (t_cache c)) (m_maxSize (t_cache c) + m_elasticity (t_cache c)) l in
  exists c' n e', timed_prune key_lt c e = Ok (n, c', e') /\ conf (t_cache c') = conf (t_cache c) /\ trel c' (fst r) /\
    env_pruned e' = env_pruned e ++ told c (map strip (snd r)).
Proof.
  intros R0 (Hm & He & Hs). pose proof (trel_lru c l R0) as R. cbv zeta. unfold timed_prune, trim. rewrite (rel_size _ l R).
  unfold getMaxAllowedSize. rewrite u64_small by lia. destruct (_ || _).
  - exists c, 0, e. split; [done|]. split; [done|]. split; [done|]. unfold told. destruct (m_cb _); by rewrite app_nil_r.
  - assert (Ll : length (m_keys (t_cache c)) = length l) by (by rewrite <- (rel_items _ l R), length_fmap).
    destruct (timed_prune_loop_ok (length (m_keys (t_cache c))) c l 0 e R0 Hm) as (c' & n' & e' & E & Cf & R' & P'); [unfold len; lia|].
    rewrite E. cbn [rbind]. by eexists _, _, _.
Qed.

(** The front node given a value and a deadline of its own. *)
Lemma restamp c l it k v0 t0 v t k1 k2 : trel c l -> m_keys (t_cache c) = k1 ++ (it, (k, (v0, t0))) :: k2 ->
  let ks1 := (it, (k, (v0, t0))) :: k1 ++ k2 in let ks2 := (it, (k, (v, t))) :: k1 ++ k2 in
  trel (mkTimedLruCache (set_maps (m_cache (t_cache c)) ks2 (t_cache c))
          (snd (set_insert (ItemTimeOp key_lt ks2) it (set_erase (ItemTimeOp key_lt ks1) it (m_timed c)))))
       ((k, (v, t)) :: k1.*2 ++ k2.*2).
Proof.
  intros [R T O] E ks1 ks2. pose proof (rel_nodes _ _ R) as N. destruct (NoDup_others _ _ _ _ _ N E) as [N2 Nit].
  pose proof (rel_front _ l it k (v0, t0) (v0, t0) k1 k2 R E) as R1. pose proof (rel_front _ l it k (v0, t0) (v, t) k1 k2 R E) as R2.
  pose proof (rel_nodes _ _ R1 : NoDup (ks1.*1)) as N1. pose proof (rel_nodes _ _ R2 : NoDup (ks2.*1)) as Nn2.
  assert (Nk1 : NoDup ((ks1.*2).*1)) by (rewrite (rel_items _ _ R1 : ks1.*2 = _); apply R1).
  assert (Nk2 : NoDup ((ks2.*2).*1)) by (rewrite (rel_items _ _ R2 : ks2.*2 = _); apply R2).
  assert (T1 : forall a, a ∈ m_timed c <-> a ∈ ks1.*1) by (intros a; rewrite T, (elem_middle _ _ _ _ _ a E); unfold ks1; cbn; by rewrite elem_of_cons).
  assert (Sub : forall a x, (a, x) ∈ m_keys (t_cache c) -> (a, x) ∈ ks1).
  { intros a x Ix. rewrite E in Ix. apply elem_of_app in Ix as [Ix|Ix]; [right; apply elem_of_app; by left|].
    apply elem_of_cons in Ix as [->|Ix]; [left|right; apply elem_of_app; by right]. }
  assert (O1 : in_order (ItemTimeOp key_lt ks1) (m_timed c)).
  { eapply order_same; [exact N|exact N1| |exact O]. intros a Ia. apply T in Ia. destruct (elem_fst _ a Ia) as [x Ix]. exists x. auto. }
  destruct (erase_timed ks1 it (m_timed c) N1 Nk1 T1 ltac:(left) O1) as [O2 T2].
  destruct (insert_timed ks2 it (set_erase (ItemTimeOp key_lt ks1) it (m_timed c)) Nn2 Nk2 ltac:(left) T2) as [O3 T3].
  { eapply order_same; [exact N1|exact Nn2| |exact O2]. intros a Ia. apply T2 in Ia as [D Ia]. cbn in Ia. apply elem_of_cons in Ia as [|Ia]; [done|].
    destruct (elem_fst _ a Ia) as [x Ix]. exists x. split; by right. }
  constructor; cbn; [exact R2|exact T3|exact O3].
Qed.

Lemma timed_set_ok c l e k v expired now : trel c l -> limits (m_maxSize (t_cache c)) (m_elasticity (t_cache c)) ->
  let r := spec_set (m_maxSize (t_cache c)) (m_maxSize (t_cache c) + m_elasticity (t_cache c)) k (v, u64 (expired + now)) l in
  exists c' e', timed_set key_lt k v expired now c e = Ok (c', e') /\ conf (t_cache c') = conf (t_cache c) /\ trel c' (fst r) /\
    env_pruned e' = env_pruned e ++ told c (map strip (snd r)).
Proof.
  intros R0 Lim. pose proof (trel_lru c l R0) as R. cbv zeta. pose proof (rel_lookup _ l k R) as L. unfold timed_set, spec_set.
  destruct (m_cache (t_cache c) !! k) as [it|] eqn:Ec.
  - destruct L as (k1 & k2 & [v0 t0] & E & N & _ & F & Rm). rewrite E, splice_ok by done. cbn [rbind]. unfold assign.
    rewrite (node_index_middle it (k, (v0, t0)) [] (k1 ++ k2) (not_elem_of_nil _) : node_index it ((it, (k, (v0, t0))) :: k1 ++ k2) = _).
    cbn [rbind fst insert list_insert length]. rewrite F, Rm. eexists _, _. split; [reflexivity|]. split; [done|].
    split; [by apply (restamp c l it k v0 t0)|]. unfold told. destruct (m_cb _); by rewrite app_nil_r.
  - rewrite L. destruct R0 as [_ T O]. set (it := next_node (t_cache c)). set (ks := (it, _) :: _). set (c1 := mkTimedLruCache _ _).
    pose proof (find_split k l) as Fs. rewrite L in Fs.
    assert (Nit : it ∉ (m_keys (t_cache c)).*1) by (intros I; apply (rel_fresh _ l R) in I; unfold it in I; lia).
    assert (R1 : rel (t_cache c1) ((k, (v, u64 (expired + now))) :: l)).
    { constructor; cbn.
      - by rewrite (rel_items _ l R).
      - apply list.NoDup_cons. split; [done|apply R].
      - apply list.NoDup_cons. split; [done|apply R].
      - by rewrite (rel_map _ l R).
      - intros j Hj. apply elem_of_cons in Hj as [->|Hj]; [lia|]. apply (rel_fresh _ l R) in Hj. lia. }
    pose proof (rel_nodes _ _ R1 : NoDup (ks.*1)) as N1. pose proof (trel_keys c1 _ R1 : NoDup ((ks.*2).*1)) as Nk1.
    destruct (insert_timed ks it (m_timed c) N1 Nk1 ltac:(left)) as [O1 T1].
    { intros a. rewrite T. cbn. rewrite elem_of_cons. split; [|tauto]. intros I. split; [by intros ->|tauto]. }
    { eapply order_same; [apply (rel_nodes _ _ R)|exact N1| |exact O]. intros a Ia. apply T in Ia. destruct (elem_fst _ a Ia) as [x Ix].
      exists x. split; [done|by right]. }
    destruct (timed_prune_ok c1 _ (count (incSet 1) e) ltac:(constructor; [exact R1|exact T1|exact O1]) Lim) as (c' & n & e' & E' & Cf & R' & P').
    rewrite E'. cbn [rbind]. by eexists _, _.
Qed.

(** ** Deadlines *)

(** The first node of the deadlines is before every other item. *)
Lemma first_deadline lru it x timed l a y : trel (mkTimedLruCache lru (it :: timed)) l -> (it, x) ∈ m_keys lru -> (a, y) ∈ m_keys lru ->
  a <> it -> item_lt x y = true.
Proof.
  intros [R T O] Ix Iy D. cbn in R, T, O. rewrite <- (ItemTimeOp_item (m_keys lru) it a x y) by (try done; apply R).
  apply in_order_cons in O as [_ O]. apply O. assert (a ∈ it :: timed) as I by (apply T, list_elem_of_fmap; by exists (a, y)).
  by apply elem_of_cons in I as [|I].
Qed.

Lemma item_lt_time x y : item_lt x y = true -> x.2.2 <= y.2.2.
Proof. unfold item_lt. destruct (Z.eqb_spec x.2.2 y.2.2); cbn; lia. Qed.

Lemma erase_first lru it timed l : trel (mkTimedLruCache lru (it :: timed)) l ->
  set_erase (ItemTimeOp key_lt (m_keys lru)) it (it :: timed) = timed.
Proof.
  intros R0. pose proof (trel_keys _ l (trel_lru _ l R0)) as Nk. destruct R0 as [R T O]. cbn in R, T, O, Nk.
  pose proof (time_strict (m_keys lru) (rel_nodes _ _ R) Nk) as Str. unfold set_erase.
  destruct (find_in (fun a => a ∈ (m_keys lru).*1) (ItemTimeOp key_lt (m_keys lru)) it [] timed) as [F _]; [by intros a; apply T|done|].
  cbn [app] in F. by rewrite F.
Qed.

Lemma timeout_loop_ok ts timed : forall lru l n e, trel (mkTimedLruCache lru timed) l -> exists c' e' p,
  timeout_loop ts timed lru n e = Ok (n + len p, c', e') /\ conf (t_cache c') = conf lru /\
  trel c' (filter (fun x => ts < x.2.2) l) /\ p ≡ₚ filter (fun x => x.2.2 <= ts) l /\
  StronglySorted (fun x y => item_lt x y = true) p /\
  env_pruned e' = env_pruned e ++ (if m_cb lru then map strip p else []).
Proof.
  induction timed as [|it timed IH]; intros lru l n e R0.
  - assert (l = []) as ->.
    { destruct R0 as [R T _]. cbn in R, T. rewrite <- (rel_items _ _ R). destruct (m_keys lru) as [|[a x] ks]; [done|].
      exfalso. apply (not_elem_of_nil a). apply T. left. }
    exists (mkTimedLruCache lru []), e, []. split; [cbn; do 3 f_equal; unfold len; cbn; lia|]. split_and!; [done|done|done|constructor|].
    destruct (m_cb lru); by rewrite app_nil_r.
  - pose proof R0 as [R T O]. cbn in R, T, O. assert (it ∈ (m_keys lru).*1) as I by (apply T; left).
    destruct (elem_fst _ it I) as [[k [v t]] Ix]. pose proof Ix as Is. apply list_elem_of_split in Is as (k1 & k2 & E).
    pose proof (rel_nodes _ _ R) as N. assert (N1 : it ∉ k1.*1).
    { rewrite E, fmap_app in N. apply list.NoDup_app in N as (_ & N & _). intros J. apply (N _ J). left. }
    pose proof (rel_items _ _ R) as El. rewrite E, fmap_app in El. cbn in El. cbn [timeout_loop].
    assert (node_index it (m_keys lru) = Ok (length k1, (k, (v, t)))) as -> by (by rewrite E, node_index_middle).
    cbn [rbind]. destruct (Z.leb_spec t ts) as [L|L].
    + assert (erase it (m_keys lru) = Ok (k1 ++ k2)) as ->.
      { unfold erase. rewrite E, node_index_middle by done. cbn [rbind]. by rewrite delete_middle. }
      cbn [rbind]. pose proof (erase_node _ l it k v t k1 k2 R0 E) as R1. cbn [t_cache m_timed] in R1. rewrite (erase_first lru it timed l R0) in R1.
      destruct (IH _ _ (n + 1) (if m_cb lru then mkEnv (env_status e) (env_pruned e ++ [(k, v)]) else e) R1)
        as (c' & e' & p & E' & Cf & R' & P & S & Pr).
      exists c', e', ((k, (v, t)) :: p). split_and!; [rewrite E'; do 3 f_equal; unfold len; cbn; lia|done| | | |].
      * rewrite <- El. rewrite !list.filter_app, filter_cons_False by (cbn; lia). by rewrite list.filter_app in R'.
      * rewrite <- El, list.filter_app, filter_cons_True by (cbn; lia). rewrite <- Permutation_middle. by rewrite <- list.filter_app, P.
      * constructor; [done|]. apply list.Forall_forall. intros y Iy. rewrite P in Iy. apply list_elem_of_filter in Iy as [_ Iy].
        assert (exists a, (a, y) ∈ k1 ++ k2) as [a Ia].
        { rewrite <- fmap_app in Iy. apply list_elem_of_fmap in Iy as ([a z] & -> & Iz). by exists a. }
        apply (first_deadline lru it (k, (v, t)) timed l a y R0 Ix).
        -- rewrite E. apply elem_of_app in Ia as [Ia|Ia]; apply elem_of_app; [by left|right; by right].
        -- intros ->. destruct (NoDup_others _ _ _ _ _ N E) as [_ Nit]. apply Nit. apply list_elem_of_fmap. by exists (it, y).
      * rewrite Pr. cbn [set_maps m_cb]. destruct (m_cb lru); [|done]. cbn. by rewrite <- app_assoc.
    + assert (F : forall y, y ∈ l -> ts < y.2.2).
      { intros y Iy. rewrite <- (rel_items _ _ R) in Iy. apply list_elem_of_fmap in Iy as ([a z] & -> & Iz). cbn.
        destruct (decide (a = it)) as [->|D].
        - pose proof (item_of_elem _ it z N Iz) as E1. rewrite (item_of_elem _ it _ N Ix) in E1. injection E1 as <-. done.
        - pose proof (item_lt_time _ _ (first_deadline lru it _ timed l a z R0 Ix Iz D)). cbn in *. lia. }
      assert (filter (fun x : K * (V * Z) => ts < x.2.2) l = l) as ->.
      { clear -F. induction l as [|y l IH]; [done|]. rewrite filter_cons_True by (apply F; left). f_equal. apply IH. intros z Iz. apply F. by right. }
      assert (filter (fun x : K * (V * Z) => x.2.2 <= ts) l = []) as ->.
      { clear -F. induction l as [|y l IH]; [done|]. rewrite filter_cons_False by (specialize (F y ltac:(left)); lia). apply IH. intros z Iz. apply F. by right. }
      exists (mkTimedLruCache lru (it :: timed)), e, []. split; [do 3 f_equal; unfold len; cbn; lia|]. split_and!; [done|done|done|constructor|].
      destruct (m_cb lru); by rewrite app_nil_r.
Qed.
End spec.

(** * The theorem *)

(** over the list of items with the most recent first, [set], [get] and [del] act as
    those of the LRU cache do, whether or not the deadline has passed; [checkTimeout]
    drops exactly the items whose deadline has come, leaves the others in their order of
    use, tells the callback of each in the order of the deadlines and then of the keys,
    and returns their number. The order of the keys is any strict order. *)
Theorem TimedLruCache_refines {K V : Type} `{Countable K} `{Inhabited V} (key_lt : K -> K -> bool)
    (KL : StrictOn (fun _ : K => True) key_lt) (c : TimedLruCache K V) (e : Env K V) (l : list (K * (V * Z))) (k : K) (v : V) (ttl now : Z)
    (R : trel key_lt c l) (L : limits (m_maxSize (t_cache c)) (m_elasticity (t_cache c))) :
  (let r := spec_set (m_maxSize (t_cache c)) (m_maxSize (t_cache c) + m_elasticity (t_cache c)) k (v, u64 (ttl + now)) l in
   exists c' e', timed_set key_lt k v ttl now c e = Ok (c', e') /\ trel key_lt c' (fst r) /\
     env_pruned e' = env_pruned e ++ told c (map strip (snd r))) /\
  (exists c' e', timed_get k c e = Ok (fst <$> find k l, c', e') /\ trel key_lt c' (snd (spec_get k l)) /\ env_pruned e' = env_pruned e) /\
  (exists c' e', timed_del key_lt k c e = Ok (bool_decide (is_Some (find k l)), c', e') /\ trel key_lt c' (remove k l) /\
     env_pruned e' = env_pruned e) /\
  (exists c' e' p, checkTimeout now c e = Ok (len p, c', e') /\ trel key_lt c' (filter (fun x => now < x.2.2) l) /\
     p ≡ₚ filter (fun x => x.2.2 <= now) l /\ StronglySorted (fun x y => item_lt key_lt x y = true) p /\
     env_pruned e' = env_pruned e ++ told c (map strip p)).
Proof.
  split_and!.
  - destruct (timed_set_ok key_lt c l e k v ttl now R L) as (c' & e' & E & _ & R' & P). by exists c', e'.
  - destruct (timed_get_ok key_lt c l e k R) as (c' & e' & E & _ & R' & P). exists c', e'. rewrite E. split_and!; [|done|done].
    unfold spec_get. by destruct (find k l).
  - destruct (timed_del_ok key_lt c l e k R) as (c' & e' & E & _ & R' & P). by exists c', e'.
  - destruct c as [lru timed]. destruct (timeout_loop_ok key_lt now timed lru l 0 e R) as (c' & e' & p & E & _ & R' & P & S & Pr).
    by exists c', e', p.
Qed.

(** ** Witness *)

#[local] Instance Z_strict : StrictOn (fun _ : Z => True) Z.ltb.
Proof. constructor; intros; lia. Qed.

Definition demo_timed : TimedLruCache Z Z := timed_setPruneCallback true (new_TimedLruCache 8 0).

Lemma demo_trel : trel Z.ltb demo_timed [].
Proof. constructor; [constructor; cbn; [done|constructor|constructor|done|by intros ? ?%not_elem_of_nil]|done|constructor]. Qed.

(** Two items, due at 105 and at 103, and a check at 104. *)
Lemma TimedLruCache_refines_witness : exists c1 e1 c2 e2 c3 e3,
  timed_set Z.ltb 1 10 5 100 demo_timed (mkEnv new_CacheStatus []) = Ok (c1, e1) /\
  timed_set Z.ltb 2 20 3 100 c1 e1 = Ok (c2, e2) /\ checkTimeout 104 c2 e2 = Ok (1, c3, e3) /\ env_pruned e3 = [(2, 20)].
Proof.
  assert (L : limits 8 0) by (split_and!; lia).
  destruct (TimedLruCache_refines Z.ltb Z_strict demo_timed (mkEnv new_CacheStatus []) [] 1 10 5 100 demo_trel L) as ((c1 & e1 & E1 & R1 & P1) & _).
  pose proof E1 as E1'. vm_compute in E1'. injection E1' as Ec1 Ee1.
  assert (L1 : limits (m_maxSize (t_cache c1)) (m_elasticity (t_cache c1))) by (subst c1; exact L).
  destruct (TimedLruCache_refines Z.ltb Z_strict c1 e1 _ 2 20 3 100 R1 L1) as ((c2 & e2 & E2 & R2 & P2) & _).
  pose proof E2 as E2'. rewrite <- Ec1, <- Ee1 in E2'. vm_compute in E2'. injection E2' as Ec2 Ee2.
  assert (L2 : limits (m_maxSize (t_cache c2)) (m_elasticity (t_cache c2))) by (subst c2; exact L).
  destruct (TimedLruCache_refines Z.ltb Z_strict c2 e2 _ 0 0 0 104 R2 L2) as (_ & _ & _ & c3 & e3 & p & E3 & _ & _ & _ & _).
  set (n := len p) in E3. clearbody n.
  pose proof E3 as E3'. rewrite <- Ec2, <- Ee2 in E3'. vm_compute in E3'. injection E3' as En Ec3 Ee3.
  exists c1, e1, c2, e2, c3, e3. split; [exact E1|]. split; [exact E2|]. split; [|by rewrite <- Ee3].
  rewrite En. exact E3.
Defined.
