(* ===== verification/TimedCache.v ===== *)
(** The cache that evicts by deadline, [CIM::ds::TimedCache], and its sharded form
    (include/ds/timed_cache.hpp).

    [m_timed] is the set of the items in the order of their times and then their keys, each
    under the number that stands for its node; [m_cache] maps a key to such a number, as
    the code maps it to an iterator. [set] on a key that is there replaces the iterator and
    leaves the old item in the set. *)
From stdpp Require Import gmap.
From S2P Require Import Prelude OrderedSet Shards LruCache.

Section cache.
Context {K V : Type} `{Countable K} `{Inhabited V} (key_lt : K -> K -> bool).

Record Item := mkItem { i_key : K; i_val : V; i_ts : Z }.

(** [Item::operator<] *)
Definition Item_lt (x y : Item) : bool := if negb (i_ts x =? i_ts y) then i_ts x <? i_ts y else key_lt (i_key x) (i_key y).

Record TimedCache := mkTimedCache {
  c_cache : gmap K nat;
  c_timed : list (nat * Item);
  c_maxSize : Z;
  c_elasticity : Z;
  c_cb : bool;
  c_next : nat;
}.

Definition new_TimedCache (max_size elasticity : Z) : TimedCache := mkTimedCache empty [] max_size elasticity false 0.

Definition set_items (cache : gmap K nat) (timed : list (nat * Item)) (c : TimedCache) : TimedCache :=
  mkTimedCache cache timed (c_maxSize c) (c_elasticity c) (c_cb c) (c_next c).
Definition items_setMaxSize (v : Z) (c : TimedCache) : TimedCache :=
  mkTimedCache (c_cache c) (c_timed c) v (c_elasticity c) (c_cb c) (c_next c).
Definition items_setElasticity (v : Z) (c : TimedCache) : TimedCache :=
  mkTimedCache (c_cache c) (c_timed c) (c_maxSize c) v (c_cb c) (c_next c).
Definition items_setPruneCallback (cb : bool) (c : TimedCache) : TimedCache :=
  mkTimedCache (c_cache c) (c_timed c) (c_maxSize c) (c_elasticity c) cb (c_next c).

(** The item an iterator points to, with its place. *)
Definition item_index (it : nat) (timed : list (nat * Item)) : res (nat * Item) :=
  match list_find (fun n => n.1 = it) timed with
  | Some (i, (_, item)) => Ok (i, item)
  | None => Crash null_deref
  end.

(** [m_timed.insert(item)]: the iterator it returns, to the new node or to the one of an
    equal item, which stays as it is. *)
Definition timed_insert (item : Item) (c : TimedCache) : nat * TimedCache :=
  let it := c_next c in
  let (i, timed) := set_insert (fun x y => Item_lt x.2 y.2) (it, item) (c_timed c) in
  let it := match timed !! i with Some n => n.1 | None => it end in
  (it, mkTimedCache (c_cache c) timed (c_maxSize c) (c_elasticity c) (c_cb c) (S (c_next c))).

Definition tell (item : Item) (c : TimedCache) (e : Env K V) : Env K V :=
  if c_cb c then mkEnv (env_status e) (env_pruned e ++ [(i_key item, i_val item)]) else e.

(** [while (m_cache.size() > m_maxSize)]: the first item of [m_timed] goes, and the key of it. *)
Fixpoint items_prune_loop (timed : list (nat * Item)) (c : TimedCache) (n : Z) (e : Env K V) : res (Z * TimedCache * Env K V) :=
  if negb (c_maxSize c <? map_size (c_cache c)) then Ok (n, set_items (c_cache c) timed c, e)
  else match timed with
       | [] => Crash null_deref
       | (_, item) :: rest => items_prune_loop rest (set_items (delete (i_key item) (c_cache c)) rest c) (n + 1) (tell item c e)
       end.

Definition items_prune (c : TimedCache) (e : Env K V) : res (Z * TimedCache * Env K V) :=
  if (c_maxSize c =? 0) || (map_size (c_cache c) <? u64 (c_maxSize c + c_elasticity c)) then Ok (0, c, e)
  else
    let! (n, c, e) := items_prune_loop (c_timed c) c 0 e in
    Ok (n, c, count (incPrune (s64 n)) e).

Definition items_set (k : K) (v : V) (expired now : Z) (c : TimedCache) (e : Env K V) : res (TimedCache * Env K V) :=
  let e := count (incSet 1) e in
  let c := set_items (delete k (c_cache c)) (c_timed c) c in
  let (it, c) := timed_insert (mkItem k v (u64 (expired + now))) c in
  let c := set_items (<[k := it]> (c_cache c)) (c_timed c) c in
  let! (_, c, e) := items_prune c e in
  Ok (c, e).

Definition items_get (k : K) (c : TimedCache) (e : Env K V) : res (option V * TimedCache * Env K V) :=
  let e := count (incGet 1) e in
  match c_cache c !! k with
  | None => Ok (None, c, e)
  | Some it =>
      let! (_, item) := item_index it (c_timed c) in
      Ok (Some (i_val item), c, count (incHit 1) e)
  end.

Definition items_get_or_default (k : K) (c : TimedCache) (e : Env K V) : res (V * TimedCache * Env K V) :=
  let! (v, c, e) := items_get k c e in Ok (default inhabitant v, c, e).

(** [del] has no [return] at its end: after it has erased the item the call is undefined. *)
Definition items_del (k : K) (c : TimedCache) (e : Env K V) : res (bool * TimedCache * Env K V) :=
  let e := count (incDel 1) e in
  match c_cache c !! k with
  | None => Ok (false, c, e)
  | Some it => let! _ := item_index it (c_timed c) in Crash missing_return
  end.

(** [expired]: the item goes out of the set and in again, as it was. *)
Definition items_expired (k : K) (ts now : Z) (c : TimedCache) : res (bool * TimedCache) :=
  match c_cache c !! k with
  | None => Ok (false, c)
  | Some it =>
      let tts := u64 (ts + now) in
      let! (i, item) := item_index it (c_timed c) in
      if i_ts item =? tts then Ok (true, c)
      else
        let (it, c) := timed_insert item (set_items (c_cache c) (delete i (c_timed c)) c) in
        Ok (true, set_items (<[k := it]> (c_cache c)) (c_timed c) c)
  end.

Definition items_exists (k : K) (c : TimedCache) : bool := bool_decide (is_Some (c_cache c !! k)).
Definition items_size (c : TimedCache) : Z := map_size (c_cache c).
Definition items_empty (c : TimedCache) : bool := bool_decide (c_cache c = empty).
Definition items_clear (c : TimedCache) : bool * TimedCache := (true, set_items empty [] c).

(** The loop of [checkTimeout] over [m_timed] from its begin. *)
Fixpoint items_timeout_loop (ts : Z) (timed : list (nat * Item)) (c : TimedCache) (n : Z) (e : Env K V) : Z * TimedCache * Env K V :=
  match timed with
  | [] => (n, set_items (c_cache c) [] c, e)
  | (it, item) :: rest =>
      if i_ts item <=? ts then
        items_timeout_loop ts rest (set_items (delete (i_key item) (c_cache c)) rest c) (n + 1) (tell item c e)
      else (n, set_items (c_cache c) timed c, e)
  end.

Definition items_checkTimeout (ts : Z) (c : TimedCache) (e : Env K V) : res (Z * TimedCache * Env K V) :=
  Ok (items_timeout_loop ts (c_timed c) c 0 e).

(** ** Shards *)

#[export] Instance TimedCache_ops : CacheOps TimedCache (Env K V) := {|
  cache_new := new_TimedCache;
  cache_size := items_size;
  cache_empty := items_empty;
  cache_clear c := snd (items_clear c);
  cache_setMaxSize := items_setMaxSize;
  cache_setElasticity := items_setElasticity;
  cache_setPruneCallback := items_setPruneCallback;
|}.

Definition HashTimedCache : Type := Sharded TimedCache (Env K V).

Definition new_HashTimedCache : Z -> Z -> Z -> res HashTimedCache := new_Sharded (mkEnv new_CacheStatus []).

Section shards.
Context (m_hash : K -> Z).

Definition hash_items_set (k : K) (v : V) (expired now : Z) : HashTimedCache -> res (unit * HashTimedCache) :=
  on_shard m_hash k (fun c e => let! (c, e) := items_set k v expired now c e in Ok (tt, c, e)).
Definition hash_items_get (k : K) : HashTimedCache -> res (option V * HashTimedCache) := on_shard m_hash k (items_get k).
Definition hash_items_del (k : K) : HashTimedCache -> res (bool * HashTimedCache) := on_shard m_hash k (items_del k).
Definition hash_items_expired (k : K) (ts now : Z) : HashTimedCache -> res (bool * HashTimedCache) :=
  on_shard m_hash k (fun c e => let! (r, c) := items_expired k ts now c in Ok (r, c, e)).
Definition hash_items_exists (k : K) : HashTimedCache -> res (bool * HashTimedCache) :=
  on_shard m_hash k (fun c e => Ok (items_exists k c, c, e)).
End shards.

Definition hash_items_checkTimeout (ts : Z) : HashTimedCache -> res (Z * HashTimedCache) := sharded_checkTimeout (items_checkTimeout ts).
End cache.
Arguments Item : clear implicits.
Arguments TimedCache K V {_ _}.
Arguments HashTimedCache K V {_ _}.
