(* ===== verification/TimedCacheSpec.v ===== *)
(** The cache that evicts by deadline: its iterators never dangle, but an item that [set]
    has replaced keeps its old deadline. *)
From stdpp Require Import gmap sorting.
From S2P Require Import Prelude OrderedSet Shards LruCache TimedCache.

Section spec.
Context {K V : Type} `{Countable K} `{Inhabited V} (key_lt : K -> K -> bool) `{KL : !StrictOn (fun _ : K => True) key_lt}.
Implicit Types (c : TimedCache K V) (e : Env K V) (x y : nat * Item K V).
Abbreviation nodes := (list (nat * Item K V)).

Definition node_lt x y : bool := Item_lt key_lt x.2 y.2.
Definition same_place (i j : Item K V) : Prop := i_ts i = i_ts j /\ i_key i = i_key j.

Lemma Item_lt_irrefl (i j : Item K V) : same_place i j -> Item_lt key_lt i j = false.
Proof. intros [E1 E2]. unfold Item_lt. rewrite E1, E2, Z.eqb_refl. by apply (strict_irrefl (P := fun _ => True)). Qed.

Lemma Item_lt_trans (i j k : Item K V) : Item_lt key_lt i j = true -> Item_lt key_lt j k = true -> Item_lt key_lt i k = true.
Proof.
  unfold Item_lt. destruct (Z.eqb_spec (i_ts i) (i_ts j)), (Z.eqb_spec (i_ts j) (i_ts k)), (Z.eqb_spec (i_ts i) (i_ts k)); cbn; try lia.
  by apply (strict_trans (P := fun _ => True)).
Qed.

Lemma Item_lt_total (i j : Item K V) : ~ same_place i j -> Item_lt key_lt i j = false -> Item_lt key_lt j i = true.
Proof.
  unfold Item_lt, same_place. intros N. destruct (Z.eqb_spec (i_ts i) (i_ts j)) as [E|], (Z.eqb_spec (i_ts j) (i_ts i)); cbn; try lia.
  apply (strict_total (P := fun _ => True)); [done|done|]. intros Ek. by apply N.
Qed.

(** Nodes at different places are strictly ordered. *)
Lemma nodes_strict (l : nodes) : (forall x y, x ∈ l -> y ∈ l -> x <> y -> ~ same_place x.2 y.2) -> StrictOn (fun x => x ∈ l) node_lt.
Proof.
  intros D. constructor; unfold node_lt.
  - intros x _. by apply Item_lt_irrefl.
  - intros x y z _ _ _. apply Item_lt_trans.
  - intros x y Ix Iy N. apply Item_lt_total. by apply D.
Qed.

Lemma ordered_places (l : nodes) x y : in_order node_lt l -> x ∈ l -> y ∈ l -> x <> y -> ~ same_place x.2 y.2.
Proof.
  intros O Ix Iy N S. assert (Item_lt key_lt x.2 y.2 = true \/ Item_lt key_lt y.2 x.2 = true) as [L|L].
  - induction O as [|z l O IH F]; [by apply not_elem_of_nil in Ix|].
    apply elem_of_cons in Ix as [->|Ix]; apply elem_of_cons in Iy as [->|Iy]; [done| | |by apply IH].
    + left. apply (Forall_elem _ _ _ F Iy).
    + right. apply (Forall_elem _ _ _ F Ix).
  - by rewrite Item_lt_irrefl in L.
  - rewrite Item_lt_irrefl in L; [done|]. destruct S. by split.
Qed.

(** ** The invariant *)

Record tinv c : Prop := {
  tinv_order : in_order node_lt (c_timed c);
  tinv_nodes : NoDup ((c_timed c).*1);
  tinv_fresh : forall it, it ∈ (c_timed c).*1 -> (it < c_next c)%nat;
  tinv_cache : forall k it, c_cache c !! k = Some it -> exists item, (it, item) ∈ c_timed c /\ i_key item = k;
}.

Definition settings c : Z * Z * bool := (c_maxSize c, c_elasticity c, c_cb c).

Lemma item_index_ok it item (l : nodes) : NoDup (l.*1) -> (it, item) ∈ l -> exists i, item_index it l = Ok (i, item) /\ l !! i = Some (it, item).
Proof.
  intros N I. apply list_elem_of_lookup in I as [i E]. exists i. split; [|done]. unfold item_index.
  assert (list_find (fun n : nat * Item K V => n.1 = it) l = Some (i, (it, item))) as ->; [|done].
  apply list_find_Some. split_and!; [done|done|]. intros j y Ej Lt Ey.
  assert (i = j); [|lia]. apply (NoDup_lookup (l.*1) i j it); [done| |]; rewrite list_lookup_fmap; [by rewrite E|rewrite Ej; cbn; by rewrite Ey].
Qed.

(** [m_timed.insert]: a new node, or the node of an item with the same time and key. *)
Lemma timed_insert_ok (item : Item K V) c : in_order node_lt (c_timed c) -> NoDup ((c_timed c).*1) ->
  (forall it, it ∈ (c_timed c).*1 -> (it < c_next c)%nat) ->
  exists it w c', timed_insert key_lt item c = (it, c') /\ c_cache c' = c_cache c /\ settings c' = settings c /\
    in_order node_lt (c_timed c') /\ NoDup ((c_timed c').*1) /\ (forall a, a ∈ (c_timed c').*1 -> (a < c_next c')%nat) /\
    (it, w) ∈ c_timed c' /\ same_place w item /\ (forall x, x ∈ c_timed c' <-> x = (it, w) \/ x ∈ c_timed c) /\
    ((it, w) ∈ c_timed c \/ w = item /\ forall x, x ∈ c_timed c -> ~ same_place x.2 item).
Proof.
  intros O N Fr. unfold timed_insert. set (it0 := c_next c). set (l := c_timed c) in *.
  change (fun x y : nat * Item K V => Item_lt key_lt x.2 y.2) with node_lt.
  destruct (decide (Exists (fun x => same_place x.2 item) l)) as [Ex|Nx].
  - apply list.Exists_exists in Ex as ([it w] & I & S). pose proof I as I'. apply list_elem_of_split in I' as (l1 & l2 & E).
    pose proof O as O'. rewrite E in O'. apply in_order_app in O' as (_ & _ & B). cbn in S.
    assert (L : lower_bound (fun b => node_lt b (it0, item)) l = length l1).
    { rewrite E. apply lower_bound_app.
      - intros b Ib. specialize (B b (it, w) Ib ltac:(left)). unfold node_lt, Item_lt in *. cbn in *. by rewrite <- (proj1 S), <- (proj2 S).
      - intros b [= <-]. by apply Item_lt_irrefl. }
    unfold set_insert. rewrite L, E, list_lookup_middle by done. unfold node_lt at 1. cbn [snd].
    rewrite (Item_lt_irrefl item w) by (destruct S; by split). rewrite list_lookup_middle by done. cbn [fst]. rewrite <- E.
    eexists it, w, _. split; [reflexivity|]. cbn. split_and!; try done.
    + intros a Ia. apply Fr in Ia. lia.
    + intros x. split; [tauto|]. by intros [->|].
    + by left.
  - assert (Nx' : forall x, x ∈ l -> ~ same_place x.2 item).
    { intros x Ix S. apply Nx. apply list.Exists_exists. by exists x. }
    assert (it0 ∉ l.*1) as Ni by (intros I; apply Fr in I; unfold it0 in I; lia).
    assert (Nit : (it0, item) ∉ l) by (intros I; apply (Nx' _ I); by split).
    assert (Str : StrictOn (fun x : nat * Item K V => x ∈ (it0, item) :: l) node_lt).
    { apply nodes_strict. intros x y Ix Iy D. apply elem_of_cons in Ix as [->|Ix]; apply elem_of_cons in Iy as [->|Iy]; [done| | |].
      - intros [S1 S2]. apply (Nx' y Iy). by split.
      - by apply Nx'.
      - by apply (ordered_places l). }
    destruct (OrderedSet.insert_new (fun x => x ∈ (it0, item) :: l) node_lt (it0, item) l (fun x I => I) O Nit) as (l1 & l2 & E & -> & O').
    rewrite list_lookup_middle by done. cbn [fst]. eexists it0, item, _. split; [reflexivity|]. cbn.
    assert (P : l1 ++ (it0, item) :: l2 ≡ₚ (it0, item) :: l) by (by rewrite E, Permutation_middle).
    split_and!; try done.
    + rewrite P. cbn. by apply list.NoDup_cons.
    + intros a. rewrite P. cbn. rewrite elem_of_cons. intros [->|Ia]; [unfold it0; lia|]. apply Fr in Ia. lia.
    + rewrite P. left.
    + intros x. rewrite P. apply elem_of_cons.
    + by right.
Qed.

(** ** The operations *)

(** The item the map gives for a key. *)
Definition holds c (k : K) (item : Item K V) : Prop := exists it, c_cache c !! k = Some it /\ (it, item) ∈ c_timed c.

Lemma node_unique (l : nodes) it i j : NoDup (l.*1) -> (it, i) ∈ l -> (it, j) ∈ l -> i = j.
Proof.
  intros N Ii Ij. destruct (item_index_ok it i l N Ii) as (a & E & _). destruct (item_index_ok it j l N Ij) as (b & E' & _). congruence.
Qed.

Lemma pop_inv c x rest : tinv c -> c_timed c = x :: rest -> tinv (set_items (delete (i_key x.2) (c_cache c)) rest c).
Proof.
  intros [O N F M] E. rewrite E in *. cbn in N. apply list.NoDup_cons in N as [Nx N]. apply in_order_cons in O as [O _].
  constructor; cbn; [done|done|intros it I; apply F; by right|]. intros k it Ec. apply lookup_delete_Some in Ec as [Nk Ec].
  destruct (M k it Ec) as (item & I & Ek). exists item. split; [|done]. apply elem_of_cons in I as [<-|I]; [|done]. by destruct Nk.
Qed.

Lemma set_items_id c : set_items (c_cache c) (c_timed c) c = c.
Proof. by destruct c. Qed.

Lemma items_prune_loop_ok timed : forall c n e, tinv c -> c_timed c = timed -> 0 <= c_maxSize c ->
  exists n' c' e', items_prune_loop timed c n e = Ok (n', c', e') /\ tinv c' /\ settings c' = settings c.
Proof.
  induction timed as [|[it item] rest IH]; intros c n e T E Hm; cbn [items_prune_loop];
    (destruct (Z.ltb_spec (c_maxSize c) (map_size (c_cache c))) as [L|L]; cbn [negb];
     [|rewrite <- E, set_items_id; by eexists _, _, _]).
  - exfalso. assert (c_cache c <> empty) as Ne by (intros X; rewrite X in L; unfold map_size in L; rewrite map_size_empty in L; lia).
    apply map_choose in Ne as (k & a & Ek). destruct (tinv_cache c T k a Ek) as (i & I & _). rewrite E in I. by apply not_elem_of_nil in I.
  - pose proof (pop_inv c (it, item) rest T E) as T'. cbn [snd] in T'.
    destruct (IH _ (n + 1) (tell item c e) T' eq_refl Hm) as (n' & c' & e' & E' & T2 & S). by exists n', c', e'.
Qed.

Lemma items_prune_ok c e : tinv c -> 0 <= c_maxSize c ->
  exists n c' e', items_prune c e = Ok (n, c', e') /\ tinv c' /\ settings c' = settings c /\ (c_maxSize c = 0 -> c' = c).
Proof.
  intros T Hm. unfold items_prune. destruct (_ || _) eqn:B; [by exists 0, c, e|].
  destruct (items_prune_loop_ok (c_timed c) c 0 e T eq_refl Hm) as (n & c' & e' & E & T' & S). rewrite E. cbn [rbind].
  eexists _, _, _. split_and!; [done|done|done|]. intros Z0. rewrite Z0 in B. done.
Qed.

Lemma items_set_ok c e k v ttl now : tinv c -> 0 <= c_maxSize c ->
  exists c' e', items_set key_lt k v ttl now c e = Ok (c', e') /\ tinv c' /\ settings c' = settings c /\
  (c_maxSize c = 0 -> (forall x, x ∈ c_timed c -> x ∈ c_timed c') /\
     (forall k' item, k' <> k -> holds c' k' item <-> holds c k' item) /\
     exists w, holds c' k w /\ i_ts w = u64 (ttl + now) /\
       (i_val w = v \/ exists it, (it, w) ∈ c_timed c /\ i_key w = k)).
Proof.
  intros T Hm. unfold items_set. destruct T as [O N F M].
  destruct (timed_insert_ok (mkItem k v (u64 (ttl + now))) (set_items (delete k (c_cache c)) (c_timed c) c) O N F)
    as (it & w & c1 & -> & Ec & S & O1 & N1 & F1 & Iw & [Pt Pk] & Ic & Old). cbn in Ec, Pt, Pk.
  set (c2 := set_items _ _ c1). assert (T2 : tinv c2).
  { constructor; cbn; [done|done|done|]. intros k' a. rewrite Ec. intros Ek. apply lookup_insert_Some in Ek as [[<- <-]|[Nk Ek]]; [by exists w|].
    rewrite lookup_delete_ne in Ek by done. destruct (M k' a Ek) as (i & I & Ei). exists i. split; [|done]. apply Ic. by right. }
  assert (S2 : settings c2 = settings c) by exact S. injection S2 as S2 _ _.
  destruct (items_prune_ok c2 (count (incSet 1) e) T2) as (n & c' & e' & E & T' & S' & Same); [change (0 <= c_maxSize c1); by rewrite S2|].
  rewrite E. cbn [rbind]. exists c', e'. split_and!; [done|done|by rewrite S'|]. intros Z0. rewrite Same by (change (c_maxSize c1 = 0); congruence). split_and!.
  - intros x Ix. apply Ic. by right.
  - intros k' i Nk. unfold holds. cbn. rewrite Ec, lookup_insert_ne, lookup_delete_ne by done. split; intros (a & Ea & Ia); exists a; (split; [done|]).
    + apply Ic in Ia as [Ia|Ia]; [|done]. exfalso. destruct (M k' a Ea) as (j & Ij & Ej). injection Ia as -> ->.
      assert (j = w) as -> by (apply (node_unique (c_timed c1) it); [done|apply Ic; by right|done]). congruence.
    + apply Ic. by right.
  - exists w. split_and!; [exists it; cbn; by rewrite Ec, lookup_insert_eq|done|]. destruct Old as [I|[-> _]]; [right; by exists it|by left].
Qed.

Lemma items_get_ok c e k : tinv c ->
  (forall item, holds c k item -> items_get k c e = Ok (Some (i_val item), c, count (incHit 1) (count (incGet 1) e))) /\
  (c_cache c !! k = None -> items_get k c e = Ok (None, c, count (incGet 1) e)).
Proof.
  intros T. split; unfold items_get.
  - intros item (it & -> & I). destruct (item_index_ok it item (c_timed c) (tinv_nodes c T) I) as (i & -> & _). done.
  - by intros ->.
Qed.

Lemma items_expired_ok c k it ts now : tinv c -> c_cache c !! k = Some it ->
  exists c', items_expired key_lt k ts now c = Ok (true, c') /\ tinv c' /\ forall k' item, holds c' k' item <-> holds c k' item.
Proof.
  intros T Ek. pose proof T as [O N F M]. destruct (M k it Ek) as (item & I & Ei). unfold items_expired. rewrite Ek. cbv zeta.
  destruct (item_index_ok it item (c_timed c) N I) as (i & -> & Li). cbn [rbind]. destruct (_ =? _); [by exists c|].
  assert (Pm : c_timed c ≡ₚ (it, item) :: delete i (c_timed c)) by (by apply delete_Permutation).
  assert (Nd : NoDup ((delete i (c_timed c)).*1)) by (rewrite Pm in N; by apply list.NoDup_cons in N as [_ N]).
  assert (Od : in_order node_lt (delete i (c_timed c))) by (by apply in_order_delete).
  destruct (timed_insert_ok item (set_items (c_cache c) (delete i (c_timed c)) c) Od Nd) as (it' & w & c1 & -> & Ec & S & O1 & N1 & F1 & Iw & Pw & Ic & Old).
  { intros a Ia. apply F. rewrite Pm. by right. }
  assert (w = item) as ->.
  { destruct Old as [I'|[-> _]]; [|done]. cbn in I'. exfalso. apply (ordered_places (c_timed c) (it', w) (it, item) O); [rewrite Pm; by right|done| |done].
    intros [= -> ->]. rewrite Pm in N. cbn in N. apply list.NoDup_cons in N as [N _]. apply N. apply list_elem_of_fmap. by exists (it, item). }
  assert (Hk : forall k' a, c_cache c !! k' = Some a -> k' <> k -> a <> it).
  { intros k' a Ea Nk ->. destruct (M k' it Ea) as (j & Ij & Ej). assert (j = item) as -> by (by apply (node_unique (c_timed c) it)). congruence. }
  eexists. split; [done|]. cbn in Ec. split.
  - constructor; cbn; [done|done|done|]. intros k' a. rewrite Ec. intros Ea. apply lookup_insert_Some in Ea as [[<- <-]|[Nk Ea]]; [by exists item|].
    destruct (M k' a Ea) as (j & Ij & Ej). exists j. split; [|done]. apply Ic. right. cbn. rewrite Pm in Ij.
    apply elem_of_cons in Ij as [[= -> ->]|Ij]; [|done]. by destruct (Hk k' it Ea).
  - intros k' j. unfold holds. cbn. rewrite Ec. destruct (decide (k' = k)) as [->|Nk].
    + rewrite lookup_insert_eq, Ek. split; intros (a & [= <-] & Ia); [exists it|exists it']; (split; [done|]).
      * assert (j = item) as -> by (by apply (node_unique (c_timed c1) it')). done.
      * assert (j = item) as -> by (by apply (node_unique (c_timed c) it)). done.
    + rewrite lookup_insert_ne by done. split; intros (a & Ea & Ia); exists a; (split; [done|]).
      * destruct (M k' a Ea) as (j' & Ij & Ej). assert ((a, j') ∈ c_timed c1) as Ij1.
        { apply Ic. right. cbn. rewrite Pm in Ij. apply elem_of_cons in Ij as [[= -> ->]|Ij]; [|done]. by destruct (Hk k' it Ea). }
        by rewrite (node_unique (c_timed c1) a j j').
      * apply Ic. right. cbn. rewrite Pm in Ia. apply elem_of_cons in Ia as [[= -> ->]|Ia]; [|done]. by destruct (Hk k' it Ea).
Qed.

(** A key survives [checkTimeout] when none of its items, the replaced ones included, is due. *)
Lemma items_timeout_ok ts timed : forall c n e, tinv c -> c_timed c = timed ->
  exists n' c' e', items_timeout_loop ts timed c n e = (n', c', e') /\ tinv c' /\
  (forall x, x ∈ c_timed c' <-> x ∈ timed /\ ts < i_ts x.2) /\
  (forall k item, holds c' k item <-> holds c k item /\ forall x, x ∈ timed -> i_key x.2 = k -> ts < i_ts x.2).
Proof.
  induction timed as [|[it item] rest IH]; intros c n e T E; cbn [items_timeout_loop].
  - rewrite <- E, set_items_id. exists n, c, e. split_and!; [done|done| |]; rewrite E.
    + intros x. split; [|tauto]. intros I. by apply not_elem_of_nil in I.
    + intros k i. split; [|tauto]. intros Hh. split; [done|]. intros x I. by apply not_elem_of_nil in I.
  - destruct (Z.leb_spec (i_ts item) ts) as [L|L].
    + pose proof (pop_inv c (it, item) rest T E) as T'. cbn [snd] in T'.
      destruct (IH _ (n + 1) (tell item c e) T' eq_refl) as (n' & c' & e' & E' & T2 & I2 & H2).
      exists n', c', e'. split_and!; [done|done| |].
      * intros x. rewrite I2, elem_of_cons. split; [tauto|]. intros [[->|I] Lx]; [cbn in Lx; lia|done].
      * intros k i. rewrite H2. unfold holds. cbn. split.
        -- intros ((a & Ea & Ia) & Hx). apply lookup_delete_Some in Ea as [Nk Ea]. split; [exists a; split; [done|rewrite E; by right]|].
           intros x Ix Ex. apply elem_of_cons in Ix as [->|Ix]; [by destruct Nk|by apply Hx].
        -- intros ((a & Ea & Ia) & Hx). assert (i_key item <> k) as Nk by (intros Ex; specialize (Hx (it, item) ltac:(left) Ex); cbn in Hx; lia).
           split; [exists a; split|intros x Ix; apply Hx; by right]; [by rewrite lookup_delete_ne|].
           rewrite E in Ia. apply elem_of_cons in Ia as [[= -> ->]|Ia]; [|done]. destruct (tinv_cache c T k it Ea) as (j & Ij & Ej).
           assert (j = item) as -> by (apply (node_unique (c_timed c) it); [apply T|done|rewrite E; left]). done.
    + assert (Hl : forall x, x ∈ (it, item) :: rest -> ts < i_ts x.2).
      { intros x Ix. apply elem_of_cons in Ix as [->|Ix]; [done|]. pose proof (tinv_order c T) as O. rewrite E in O. apply in_order_cons in O as [_ O].
        specialize (O x Ix). unfold node_lt, Item_lt in O. cbn in O. destruct (Z.eqb_spec (i_ts item) (i_ts x.2)); cbn in O; lia. }
      rewrite <- E, set_items_id. exists n, c, e. split_and!; [done|done| |]; rewrite E.
      * intros x. split; [|tauto]. intros I. split; [done|by apply Hl].
      * intros k i. split; [|tauto]. intros Hh. split; [done|]. intros x I _. by apply Hl.
Qed.
End spec.

(** * The theorem *)

(** no iterator of the map ever dangles, so [set], [get], [expired] and
    [checkTimeout] do not crash. Without a size limit [set] gives the key the time asked
    for and touches no other key, with the new value unless an item of that key and time
    is in the set already; it leaves the item it replaces in the set, so that
    [checkTimeout] keeps a key exactly when no item it was ever given is due; [expired]
    changes no deadline at all; [del] of a key that is there is undefined. *)
Theorem TimedCache_deadlines {K V : Type} `{Countable K} `{Inhabited V} (key_lt : K -> K -> bool)
    (KL : StrictOn (fun _ : K => True) key_lt) (c : TimedCache K V) (e : Env K V) (k : K) (v : V) (ttl now : Z)
    (T : tinv key_lt c) (L : 0 <= c_maxSize c) :
  (exists c' e', items_set key_lt k v ttl now c e = Ok (c', e') /\ tinv key_lt c' /\
     (c_maxSize c = 0 -> (forall x, x ∈ c_timed c -> x ∈ c_timed c') /\
        (forall k' item, k' <> k -> holds c' k' item <-> holds c k' item) /\
        exists w, holds c' k w /\ i_ts w = u64 (ttl + now) /\ (i_val w = v \/ exists it, (it, w) ∈ c_timed c /\ i_key w = k))) /\
  (forall item, holds c k item -> exists e', items_get k c e = Ok (Some (i_val item), c, e')) /\
  (forall it, c_cache c !! k = Some it ->
     (exists c', items_expired key_lt k ttl now c = Ok (true, c') /\ tinv key_lt c' /\ forall k' item, holds c' k' item <-> holds c k' item) /\
     items_del k c e = Crash missing_return) /\
  (exists n c' e', items_checkTimeout now c e = Ok (n, c', e') /\ tinv key_lt c' /\
     (forall x, x ∈ c_timed c' <-> x ∈ c_timed c /\ now < i_ts x.2) /\
     (forall k item, holds c' k item <-> holds c k item /\ forall x, x ∈ c_timed c -> i_key x.2 = k -> now < i_ts x.2)).
Proof.
  split_and!.
  - destruct (items_set_ok key_lt c e k v ttl now T L) as (c' & e' & E & T' & _ & R). by exists c', e'.
  - intros item Hh. eexists. by apply (items_get_ok key_lt).
  - intros it Ek. split; [by apply (items_expired_ok key_lt c k it)|]. unfold items_del. rewrite Ek.
    destruct (tinv_cache _ c T k it Ek) as (item & I & _). by destruct (item_index_ok it item (c_timed c) (tinv_nodes _ c T) I) as (i & -> & _).
  - unfold items_checkTimeout. destruct (items_timeout_ok key_lt now (c_timed c) c 0 e T eq_refl) as (n & c' & e' & E & T' & R).
    rewrite E. by exists n, c', e'.
Qed.

(** ** Witness *)

#[local] Instance Z_strict : StrictOn (fun _ : Z => True) Z.ltb.
Proof. constructor; intros; lia. Qed.

Definition demo_items : TimedCache Z Z := new_TimedCache 0 0.

Lemma demo_tinv : tinv Z.ltb demo_items.
Proof. constructor; cbn; [constructor|constructor|by intros ? ?%not_elem_of_nil|]. intros k it E. by rewrite lookup_empty in E. Qed.

(** A key set at 100 for 5 and again at 101 for 50 is gone at 105. *)
Lemma TimedCache_deadlines_witness : exists c1 e1 c2 e2 n c3 e3,
  items_set Z.ltb 1 10 5 100 demo_items (mkEnv new_CacheStatus []) = Ok (c1, e1) /\
  items_set Z.ltb 1 11 50 101 c1 e1 = Ok (c2, e2) /\ items_checkTimeout 105 c2 e2 = Ok (n, c3, e3) /\
  items_get 1 c3 e3 = Ok (None, c3, count (incGet 1) e3).
Proof.
  destruct (TimedCache_deadlines Z.ltb Z_strict demo_items (mkEnv new_CacheStatus []) 1 10 5 100 demo_tinv ltac:(vm_compute; congruence))
    as ((c1 & e1 & E1 & T1 & R1) & _).
  pose proof E1 as E1'. vm_compute in E1'. injection E1' as Ec1 Ee1.
  destruct (TimedCache_deadlines Z.ltb Z_strict c1 e1 1 11 50 101 T1 ltac:(rewrite <- Ec1; vm_compute; congruence)) as ((c2 & e2 & E2 & T2 & R2) & _).
  pose proof E2 as E2'. rewrite <- Ec1, <- Ee1 in E2'. vm_compute in E2'. injection E2' as Ec2 Ee2.
  destruct (TimedCache_deadlines Z.ltb Z_strict c2 e2 0 0 0 105 T2 ltac:(rewrite <- Ec2; vm_compute; congruence)) as (_ & _ & _ & n & c3 & e3 & E3 & _).
  pose proof E3 as E3'. rewrite <- Ec2, <- Ee2 in E3'. vm_compute in E3'. injection E3' as En Ec3 Ee3.
  exists c1, e1, c2, e2, n, c3, e3. split; [exact E1|]. split; [exact E2|]. split; [exact E3|].
  rewrite <- Ec3, <- Ee3. vm_compute. reflexivity.
Defined.
