(* ===== verification/HashMap.v ===== *)
(** The hash table [CIM::ds::HashMap] (include/ds/hash_map.hpp) with the helpers it takes
    from include/ds/ds_util.hpp.

    A bucket is a vector of nodes kept in the order of their keys. The table is the state
    of one call: the read-write locks let calls on different buckets run side by side and
    a rehash run alone, and each call reads and writes one bucket under its lock. *)
From S2P Require Import Prelude OrderedSet.

(** [basket]: [1 << min((int)(floor(log2(abs(n))) + 1), 30)]. Of 0 the logarithm is
    infinite, and its conversion to [int] and the shift by it are undefined. *)
Definition basket (n : Z) : res Z :=
  let n := s32 n in
  if n =? - 2 ^ 31 then Crash signed_overflow
  else if n =? 0 then Crash bad_shift
  else Ok (Z.shiftl 1 (Z.min (Z.log2 (Z.abs n) + 1) 30)).

Section util.
Context {A : Type} (lt : A -> A -> bool).

(** [BinarySearch]: where [std::lower_bound] points, when that is not above [v]. *)
Definition BinarySearch (below above : A -> bool) (l : list A) : option (nat * A) :=
  let i := lower_bound below l in
  match l !! i with
  | Some x => if above x then None else Some (i, x)
  | None => None
  end.

(** The loop of [SortLast] from [i = n - 1] down. *)
Fixpoint SortLast_loop (n : nat) (data : list A) : list A :=
  match n with
  | O => data
  | S i =>
      match data !! i, data !! S i with
      | Some x, Some y => if lt y x then SortLast_loop i (<[S i := x]> (<[i := y]> data)) else data
      | _, _ => data
      end
  end.

Definition SortLast (data : list A) : list A := SortLast_loop (length data - 1) data.

(** [std::sort]: the elements in order. *)
Fixpoint sort_insert (x : A) (l : list A) : list A :=
  match l with
  | [] => [x]
  | y :: l' => if lt y x then y :: sort_insert x l' else x :: l
  end.
Definition sort (l : list A) : list A := foldr sort_insert [] l.
End util.

Section table.
Context {K V : Type} (key_lt : K -> K -> bool) (m_posHash : K -> Z).

Abbreviation Node := (K * V)%type.
(** [Node::operator<] *)
Definition Node_lt (x y : Node) : bool := key_lt x.1 y.1.

Record HashMap := mkHashMap {
  m_size : Z;
  m_total : Z;
  m_datas : option (list (list Node));
}.

Definition new_HashMap (size : Z) : res HashMap :=
  let! n := basket size in Ok (mkHashMap n 0 (Some (replicate (Z.to_nat n) []))).

(** [getRate() > 16]: the [float] nearest to the quotient is above 16 when the quotient is
    above 16 by more than 2^-20, half of the distance to the next [float]. *)
Definition needRehash (h : HashMap) : bool := m_size h * (16 * 2 ^ 20 + 1) <? m_total h * 2 ^ 20.

(** [m_datas[pos]] for [pos = hashvalue % m_size]. *)
Definition bucket_of (k : K) (h : HashMap) : res (nat * list Node) :=
  if m_size h =? 0 then Crash division_by_zero
  else
    let pos := Z.to_nat (u32 (m_posHash k) mod m_size h) in
    let! datas := deref (m_datas h) in
    match datas !! pos with Some b => Ok (pos, b) | None => Crash out_of_bounds end.

Definition search (k : K) (b : list Node) : option (nat * Node) :=
  BinarySearch (fun x => key_lt x.1 k) (fun x => key_lt k x.1) b.

Definition put_bucket (pos : nat) (b : list Node) (total : Z) (h : HashMap) : HashMap :=
  mkHashMap (m_size h) total (fmap (M := option) (fun datas => <[pos := b]> datas) (m_datas h)).

Definition table_get (k : K) (h : HashMap) : res (option V) :=
  let! (_, b) := bucket_of k h in Ok (option_map (fun p => p.2.2) (search k b)).

Definition table_exists (k : K) (h : HashMap) : res bool :=
  let! (_, b) := bucket_of k h in Ok (match search k b with Some _ => true | None => false end).

(** [datas[m_posHash(n.key) % size].push_back(n)] *)
Definition push_node (size : Z) (n : Node) (datas : list (list Node)) : list (list Node) :=
  alter (fun b => b ++ [n]) (Z.to_nat (u32 (m_posHash n.1) mod size)) datas.

Definition rehashUnlock (h : HashMap) : res HashMap :=
  let! size := basket (m_total h) in
  if size =? m_size h then Ok h
  else
    let! old := deref (m_datas h) in
    let datas := foldl (fun ds n => push_node size n ds) (replicate (Z.to_nat size) []) (concat old) in
    Ok (mkHashMap size (m_total h) (Some (map (sort Node_lt) datas))).

Definition rehash (h : HashMap) : res HashMap := if needRehash h then rehashUnlock h else Ok h.

Definition table_set (k : K) (v : V) (h : HashMap) : res (bool * HashMap) :=
  let! h := if needRehash h then rehash h else Ok h in
  let! (pos, b) := bucket_of k h in
  match search k b with
  | None => Ok (true, put_bucket pos (SortLast Node_lt (b ++ [(k, v)])) (u64 (m_total h + 1)) h)
  | Some (i, n) => Ok (false, put_bucket pos (<[i := (n.1, v)]> b) (m_total h) h)
  end.

(** [std::swap] of the node with the last one, [resize(size() - 1)], [std::sort]. *)
Definition drop_node (i : nat) (n : Node) (b : list Node) : list Node :=
  let last := (length b - 1)%nat in
  let b := if (1 <? length b)%nat then match b !! last with Some z => <[last := n]> (<[i := z]> b) | None => b end else b in
  sort Node_lt (take last b).

Definition table_del (k : K) (h : HashMap) : res (bool * HashMap) :=
  let! (pos, b) := bucket_of k h in
  match search k b with
  | None => Ok (false, h)
  | Some (i, n) => Ok (true, put_bucket pos (drop_node i n b) (u64 (m_total h - 1)) h)
  end.

Definition table_clear (h : HashMap) : HashMap := mkHashMap 0 0 None.

(** Every node in the order of the buckets, until the callback says no; without buckets
    there is none. *)
Definition nodes_of (h : HashMap) : list Node := if m_size h =? 0 then [] else concat (default [] (m_datas h)).

Fixpoint rforeach_loop {S} (cb : K -> V -> S -> bool * S) (ns : list Node) (s : S) : S :=
  match ns with
  | [] => s
  | n :: ns => let (go, s) := cb n.1 n.2 s in if go then rforeach_loop cb ns s else s
  end.

Definition rforeach {S} (cb : K -> V -> S -> bool * S) (h : HashMap) (s : S) : S := rforeach_loop cb (nodes_of h) s.

(** [wforeach]: [for (auto n : m_datas[i])] gives the callback a copy of the node, which
    it may write to. *)
Fixpoint wforeach_loop {S} (cb : K -> V -> S -> bool * V * S) (ns : list Node) (s : S) : S :=
  match ns with
  | [] => s
  | n :: ns => let '(go, _, s) := cb n.1 n.2 s in if go then wforeach_loop cb ns s else s
  end.

Definition wforeach {S} (cb : K -> V -> S -> bool * V * S) (h : HashMap) (s : S) : S * HashMap :=
  (wforeach_loop cb (nodes_of h) s, h).

Definition table_swap (h oth : HashMap) : HashMap * HashMap := (oth, h).

(** [merge]: what [rforeach] collects from the other table is set here. *)
Fixpoint merge_loop (ns : list Node) (h : HashMap) : res HashMap :=
  match ns with
  | [] => Ok h
  | n :: ns => let! (_, h) := table_set n.1 n.2 h in merge_loop ns h
  end.

Definition table_merge (oth h : HashMap) : res HashMap :=
  merge_loop (rforeach (fun k v tmp => (true, tmp ++ [(k, v)])) oth []) h.
End table.

Arguments HashMap : clear implicits.
