(* ===== verification/HashMapSpec.v ===== *)
(** The hash table is a finite map. *)
From stdpp Require Import gmap sorting.
From S2P Require Import Prelude OrderedSet HashMap.

(** ** Sorting *)

Section sorting.
Context {A : Type} (lt : A -> A -> bool).

Lemma sort_insert_perm x l : sort_insert lt x l ≡ₚ x :: l.
Proof.
  induction l as [|y l IH]; [done|]. cbn. destruct (lt y x); [|done]. rewrite IH. apply Permutation_swap.
Qed.

Lemma sort_perm l : sort lt l ≡ₚ l.
Proof. induction l as [|x l IH]; [done|]. change (sort lt (x :: l)) with (sort_insert lt x (sort lt l)). by rewrite sort_insert_perm, IH. Qed.

Context (P : A -> Prop) `{!StrictOn P lt}.

Lemma sort_insert_order x l : all P (x :: l) -> in_order lt l -> x ∉ l -> in_order lt (sort_insert lt x l).
Proof.
  induction l as [|y l IH]; intros F O N; cbn; [repeat constructor|].
  apply all_inv in F as [Px F]. apply all_inv in F as [Py F]. apply not_elem_of_cons in N as [Nx N]. pose proof O as O0.
  apply in_order_cons in O as [O Fy]. destruct (lt y x) eqn:E.
  - apply in_order_cons. split; [apply IH; [by apply all_cons|done|done]|]. intros z. rewrite sort_insert_perm, elem_of_cons.
    intros [->|I]; [done|by apply Fy].
  - apply in_order_cons. split; [done|]. apply (strict_total (P := P)) in E; [|done|done|done].
    intros z I. apply elem_of_cons in I as [->|I]; [done|]. eapply (strict_trans (P := P) x y z); auto.
Qed.

Lemma sort_order l : all P l -> NoDup l -> in_order lt (sort lt l).
Proof.
  induction l as [|x l IH]; intros F N; [constructor|]. change (sort lt (x :: l)) with (sort_insert lt x (sort lt l)). apply all_inv in F as [Px F]. apply list.NoDup_cons in N as [Nx N].
  apply sort_insert_order; [|by apply IH|by rewrite sort_perm]. apply all_cons; [done|]. intros y. rewrite sort_perm. apply F.
Qed.

(** [SortLast] moves the last element to its place. *)
Lemma SortLast_loop_ok l1 : forall x suf l2, all P (x :: l1) -> in_order lt l1 -> x ∉ l1 -> l2 = suf ->
  exists k1 k2, l1 = k1 ++ k2 /\ SortLast_loop lt (length l1) (l1 ++ x :: l2) = k1 ++ x :: k2 ++ suf /\ in_order lt (k1 ++ x :: k2).
Proof.
  induction l1 as [|y l1 IH] using rev_ind; intros x suf l2 F O N ->.
  - exists [], []. split_and!; [done|done|repeat constructor].
  - rewrite length_app, Nat.add_comm. cbn [length Nat.add SortLast_loop].
    assert (E1 : ((l1 ++ [y]) ++ x :: suf) !! length l1 = Some y) by (rewrite <- app_assoc; by apply list_lookup_middle).
    assert (E2 : ((l1 ++ [y]) ++ x :: suf) !! S (length l1) = Some x).
    { apply list_lookup_middle. rewrite length_app. cbn. lia. }
    rewrite E1, E2. pose proof O as O0. apply in_order_app in O as (O & _ & B).
    apply all_inv in F as [Px F]. assert (all P l1 /\ P y) as [F1 Py].
    { split; [intros z I; apply F; apply elem_of_app; by left|apply F; apply elem_of_app; right; left]. }
    rewrite not_elem_of_app, list_elem_of_singleton in N. destruct N as [N Nx]. destruct (lt x y) eqn:E.
    + assert (<[S (length l1) := y]> (<[length l1 := x]> ((l1 ++ [y]) ++ x :: suf)) = l1 ++ x :: y :: suf) as ->.
      { rewrite <- app_assoc. cbn. rewrite insert_app_r_alt, Nat.sub_diag by done. cbn. rewrite insert_app_r_alt by lia.
        by replace (S (length l1) - length l1)%nat with 1%nat by lia. }
      destruct (IH x (y :: suf) (y :: suf)) as (k1 & k2 & -> & E' & O'); [by apply all_cons|done|done|done|].
      exists k1, (k2 ++ [y]). split_and!; [by rewrite <- app_assoc|by rewrite E', <- app_assoc|].
      assert (k1 ++ x :: k2 ++ [y] = (k1 ++ x :: k2) ++ [y]) as -> by (by rewrite <- app_assoc).
      apply in_order_app. split_and!; [done|repeat constructor|]. intros a b Ia Ib. apply list_elem_of_singleton in Ib as ->.
      rewrite elem_of_app, elem_of_cons in Ia. destruct Ia as [Ia|[->|Ia]]; [|done|];
        (apply B; [apply elem_of_app; tauto|left]).
    + apply (strict_total (P := P)) in E; [|done|done|done].
      exists (l1 ++ [y]), []. split_and!; [by rewrite app_nil_r|done|]. apply in_order_app. split_and!; [done|repeat constructor|].
      intros a b Ia Ib. apply list_elem_of_singleton in Ib as ->. apply elem_of_app in Ia as [Ia|Ia].
      * apply (strict_trans (P := P) a y x); auto. apply B; [done|left].
      * by apply list_elem_of_singleton in Ia as ->.
Qed.

Lemma SortLast_ok l x : all P (x :: l) -> in_order lt l -> x ∉ l ->
  SortLast lt (l ++ [x]) ≡ₚ x :: l /\ in_order lt (SortLast lt (l ++ [x])).
Proof.
  intros F O N. unfold SortLast. rewrite length_app. cbn [length]. replace (length l + 1 - 1)%nat with (length l) by lia.
  destruct (SortLast_loop_ok l x [] [] F O N eq_refl) as (k1 & k2 & E & -> & O'). rewrite app_nil_r. split; [|done].
  by rewrite E, Permutation_middle.
Qed.
End sorting.

(** ** Buckets *)

Section buckets.
Context {K V : Type} `{Countable K} (key_lt : K -> K -> bool) `{KL : !StrictOn (fun _ : K => True) key_lt}.
Implicit Types (b : list (K * V)) (k : K).

Abbreviation lt := (Node_lt (V := V) key_lt).

(** Nodes with keys of their own are strictly ordered. *)
Lemma Node_strict (l : list (K * V)) : NoDup (l.*1) -> StrictOn (fun x => x ∈ l) lt.
Proof.
  intros N. constructor; unfold Node_lt.
  - intros x _. by apply (strict_irrefl (P := fun _ => True)).
  - intros x y z _ _ _. by apply (strict_trans (P := fun _ => True)).
  - intros x y Ix Iy D. apply (strict_total (P := fun _ => True)); [done|done|]. intros E. apply D.
    apply list_elem_of_lookup in Ix as [i Ix]. apply list_elem_of_lookup in Iy as [j Iy].
    assert (i = j) as ->; [|congruence]. apply (NoDup_lookup (l.*1) i j x.1); [done| |]; rewrite list_lookup_fmap;
      [by rewrite Ix|rewrite Iy; cbn; by rewrite E].
Qed.

Lemma bucket_keys b : in_order lt b -> NoDup (b.*1).
Proof.
  intros O. induction O as [|x b O IH F]; constructor; [|done]. intros I. apply list_elem_of_fmap in I as (y & E & I).
  apply (Forall_elem _ _ _ F) in I. unfold Node_lt in I. rewrite E in I. by rewrite (strict_irrefl (P := fun _ => True)) in I.
Qed.

Lemma search_ok k b : in_order lt b -> match search key_lt k b with
  | Some (i, n) => exists b1 b2, b = b1 ++ n :: b2 /\ i = length b1 /\ n.1 = k
  | None => k ∉ b.*1
  end.
Proof.
  intros O. assert (exists b1 b2, b = b1 ++ b2 /\ (forall x, x ∈ b1 -> key_lt x.1 k = true) /\ (forall x, x ∈ b2 -> key_lt x.1 k = false))
    as (b1 & b2 & -> & F1 & F2).
  { induction O as [|x b O IH F]; [exists [], []; split_and!; [done|..]; by intros x ?%not_elem_of_nil|].
    destruct (key_lt x.1 k) eqn:E.
    - destruct IH as (b1 & b2 & -> & F1 & F2). exists (x :: b1), b2. split_and!; [done| |done].
      intros y I. apply elem_of_cons in I as [->|I]; [done|by apply F1].
    - exists [], (x :: b). split_and!; [done|by intros y ?%not_elem_of_nil|]. intros y I. apply elem_of_cons in I as [->|I]; [done|].
      destruct (key_lt y.1 k) eqn:Ey; [|done]. apply (Forall_elem _ _ _ F) in I. unfold Node_lt in I.
      by rewrite (strict_trans (P := fun _ => True) x.1 y.1 k) in E. }
  unfold search, BinarySearch. rewrite (lower_bound_app (fun x => key_lt x.1 k)); [|done|intros x E; apply F2; destruct b2; [done|injection E as ->; left]].
  rewrite lookup_app_r, Nat.sub_diag by lia. destruct b2 as [|x b2]; cbn.
  - rewrite app_nil_r. intros I. apply list_elem_of_fmap in I as (y & -> & I). apply F1 in I.
    by rewrite (strict_irrefl (P := fun _ => True)) in I.
  - destruct (key_lt k x.1) eqn:E.
    + intros I. apply list_elem_of_fmap in I as (y & -> & I). apply in_order_app in O as (_ & O & _). apply in_order_cons in O as [_ O].
      apply elem_of_app in I as [I|I]; [apply F1 in I; by rewrite (strict_irrefl (P := fun _ => True)) in I|].
      assert (key_lt y.1 y.1 = true) as Y; [|by rewrite (strict_irrefl (P := fun _ => True)) in Y].
      apply elem_of_cons in I as [->|I]; [done|]. apply (strict_trans (P := fun _ => True) y.1 x.1 y.1); [done..|by apply O].
    + exists b1, b2. split_and!; [done|done|]. destruct (decide (x.1 = k)) as [|N]; [done|].
      pose proof (F2 x ltac:(left)) as E'. by rewrite (strict_total (P := fun _ => True) k x.1) in E' by (done || congruence).
Qed.

(** Two changes of a bucket. *)
Lemma bucket_set b b1 b2 k v w : in_order lt b -> b = b1 ++ (k, w) :: b2 ->
  in_order lt (b1 ++ (k, v) :: b2) /\ <[length b1 := (k, v)]> b = b1 ++ (k, v) :: b2.
Proof.
  intros O ->. split; [|by rewrite insert_app_r_alt, Nat.sub_diag by done].
  apply in_order_app in O as (O1 & O2 & B). apply in_order_cons in O2 as [O2 F]. apply in_order_app. split_and!; [done| |].
  - by apply in_order_cons.
  - intros x y Ix Iy. apply elem_of_cons in Iy as [->|Iy]; [apply (B x (k, w) Ix); left|]. apply B; [done|by right].
Qed.

Lemma bucket_add b k v : in_order lt b -> k ∉ b.*1 ->
  SortLast lt (b ++ [(k, v)]) ≡ₚ (k, v) :: b /\ in_order lt (SortLast lt (b ++ [(k, v)])).
Proof.
  intros O N. assert (Nx : (k, v) ∉ b) by (intros I; apply N, list_elem_of_fmap; by exists (k, v)).
  assert (Str : StrictOn (fun x => x ∈ (k, v) :: b) lt) by (apply Node_strict; cbn; apply list.NoDup_cons; split; [done|by apply bucket_keys]).
  apply (SortLast_ok lt (fun x => x ∈ (k, v) :: b)); [exact (fun x I => I)|done|done].
Qed.

Lemma bucket_sort b : NoDup (b.*1) -> sort lt b ≡ₚ b /\ in_order lt (sort lt b).
Proof.
  intros N. split; [apply sort_perm|]. pose proof (Node_strict b N) as Str. apply (sort_order lt (fun x => x ∈ b)); [exact (fun x I => I)|].
  by apply NoDup_fmap_1 in N.
Qed.

(** The node [it] swapped with the last one, and the last one dropped. *)
Lemma swap_pop b b1 n b2 : b = b1 ++ n :: b2 ->
  let last := (length b - 1)%nat in
  take last (if (1 <? length b)%nat then match b !! last with Some z => <[last := n]> (<[length b1 := z]> b) | None => b end else b) ≡ₚ b1 ++ b2.
Proof.
  intros ->. cbv zeta. rewrite length_app. cbn [length]. destruct b2 as [|y b2 _] using rev_ind.
  - rewrite app_nil_r. cbn [length]. replace (length b1 + 1 - 1)%nat with (length b1) by lia. rewrite list_lookup_middle by done.
    assert (<[length b1 := n]> (b1 ++ [n]) = b1 ++ [n]) as E by (by rewrite insert_app_r_alt, Nat.sub_diag by done).
    rewrite E, E. destruct (_ <? _)%nat; by rewrite take_app_length.
  - rewrite length_app. cbn [length]. replace (length b1 + S (length b2 + 1) - 1)%nat with (length b1 + S (length b2))%nat by lia.
    replace (1 <? length b1 + S (length b2 + 1))%nat with true by lia.
    assert ((b1 ++ n :: b2 ++ [y]) !! (length b1 + S (length b2))%nat = Some y) as ->.
    { rewrite lookup_app_r by lia. replace (length b1 + S (length b2) - length b1)%nat with (S (length b2)) by lia. cbn. by apply list_lookup_middle. }
    assert (<[length b1 := y]> (b1 ++ n :: b2 ++ [y]) = (b1 ++ y :: b2) ++ [y]) as ->
      by (rewrite insert_app_r_alt, Nat.sub_diag by done; cbn; by rewrite <- app_assoc).
    assert (Ll : (length b1 + S (length b2))%nat = length (b1 ++ y :: b2)) by (rewrite length_app; cbn; lia).
    assert (<[(length b1 + S (length b2))%nat := n]> ((b1 ++ y :: b2) ++ [y]) = (b1 ++ y :: b2) ++ [n]) as ->
      by (rewrite Ll, insert_app_r_alt, Nat.sub_diag by done; done).
    rewrite Ll, take_app_length. by rewrite Permutation_cons_append.
Qed.
End buckets.

(** ** The table *)

Section table.
Context {K V : Type} `{Countable K} (key_lt : K -> K -> bool) `{KL : !StrictOn (fun _ : K => True) key_lt} (hash : K -> Z).
Implicit Types (h : HashMap K V) (ds : list (list (K * V))) (m : gmap K V).
Abbreviation lt := (Node_lt (V := V) key_lt).

Definition place_of (size : Z) (k : K) : nat := Z.to_nat (u32 (hash k) mod size).

Record table h ds : Prop := {
  table_datas : m_datas h = Some ds;
  table_size : m_size h = Z.of_nat (length ds);
  table_some : 0 < m_size h;
  table_order : forall i b, ds !! i = Some b -> in_order lt b;
  table_place : forall i b n, ds !! i = Some b -> n ∈ b -> place_of (m_size h) n.1 = i;
  table_total : m_total h = len (concat ds);
}.

(** The map a table stands for. *)
Definition view h m : Prop := exists ds, table h ds /\ forall k v, m !! k = Some v <-> (k, v) ∈ concat ds.

Lemma elem_concat {A} (x : A) (ls : list (list A)) : x ∈ concat ls <-> exists i l, ls !! i = Some l /\ x ∈ l.
Proof.
  rewrite list_elem_of_In, in_concat. split.
  - intros (l & Il & Ix). apply list_elem_of_In, list_elem_of_lookup in Il as [i E]. exists i, l. by rewrite list_elem_of_In.
  - intros (i & l & E & I). exists l. rewrite <- !list_elem_of_In. split; [by eapply list_elem_of_lookup_2|done].
Qed.

Lemma place_lt size k : 0 < size -> (place_of size k < Z.to_nat size)%nat.
Proof. intros L. unfold place_of. pose proof (Z.mod_pos_bound (u32 (hash k)) size L). lia. Qed.

Lemma table_bucket h ds k : table h ds -> exists b,
  bucket_of hash k h = Ok (place_of (m_size h) k, b) /\ ds !! place_of (m_size h) k = Some b /\
  forall v, (k, v) ∈ b <-> (k, v) ∈ concat ds.
Proof.
  intros T. pose proof (place_lt (m_size h) k (table_some _ _ T)) as L. pose proof (table_size _ _ T) as S.
  destruct (lookup_lt_is_Some_2 ds (place_of (m_size h) k)) as [b E]; [lia|]. exists b. split_and!; [|done|].
  - unfold bucket_of. pose proof (table_some _ _ T). replace (m_size h =? 0) with false by lia. rewrite (table_datas _ _ T).
    cbn [deref rbind]. fold (place_of (m_size h) k). by rewrite E.
  - intros v. rewrite elem_concat. split; [intros I; by exists (place_of (m_size h) k), b|]. intros (i & b' & E' & I).
    pose proof (table_place _ _ T i b' (k, v) E' I) as P. cbn in P. subst i. congruence.
Qed.

Lemma len_concat_insert {A} (ls : list (list A)) i l l' : ls !! i = Some l -> len (concat (<[i := l']> ls)) = len (concat ls) - len l + len l'.
Proof.
  intros E. rewrite <- (take_drop_middle ls i l E) at 2. rewrite insert_take_drop by (by eapply lookup_lt_Some).
  rewrite !concat_app. cbn. unfold len. rewrite !length_app. lia.
Qed.

(** A bucket replaced. *)
Lemma table_put h ds pos b b' total : table h ds -> ds !! pos = Some b -> in_order lt b' ->
  (forall n, n ∈ b' -> place_of (m_size h) n.1 = pos) -> total = m_total h - len b + len b' ->
  table (put_bucket pos b' total h) (<[pos := b']> ds).
Proof.
  intros [T1 T2 T3 T4 T5 T6] E O P Tot. constructor; cbn.
  - by rewrite T1.
  - by rewrite length_insert.
  - done.
  - intros i c Ec. apply list_lookup_insert_Some in Ec as [(_ & <- & _)|[_ Ec]]; [done|by eapply T4].
  - intros i c n Ec I. apply list_lookup_insert_Some in Ec as [(<- & <- & _)|[_ Ec]]; [by apply P|by eapply T5].
  - rewrite (len_concat_insert ds pos b) by done. lia.
Qed.

Lemma elem_put ds pos b b' (n : K * V) : ds !! pos = Some b ->
  n ∈ concat (<[pos := b']> ds) <-> n ∈ b' \/ exists i c, i <> pos /\ ds !! i = Some c /\ n ∈ c.
Proof.
  intros E. rewrite elem_concat. split.
  - intros (i & c & Ec & I). apply list_lookup_insert_Some in Ec as [(<- & <- & _)|[N Ec]]; [by left|right; by exists i, c].
  - intros [I|(i & c & N & Ec & I)].
    + exists pos, b'. split; [|done]. apply list_lookup_insert_eq. by eapply lookup_lt_Some.
    + exists i, c. by rewrite list_lookup_insert_ne.
Qed.

(** What stays in the other buckets has another key. *)
Lemma other_bucket h ds k i c (n : K * V) : table h ds -> ds !! i = Some c -> n ∈ c -> i <> place_of (m_size h) k -> n.1 <> k.
Proof. intros T E I N En. pose proof (table_place _ _ T i c n E I). congruence. Qed.

Lemma view_change h ds m m' pos b b' total k : table h ds -> (forall k v, m !! k = Some v <-> (k, v) ∈ concat ds) ->
  pos = place_of (m_size h) k -> ds !! pos = Some b -> in_order lt b' -> total = m_total h - len b + len b' ->
  (forall n, n ∈ b' -> n.1 = k \/ n ∈ b) -> (forall v, m' !! k = Some v <-> (k, v) ∈ b') ->
  (forall k', k' <> k -> m' !! k' = m !! k') -> (forall n, n.1 <> k -> n ∈ b -> n ∈ b') ->
  view (put_bucket pos b' total h) m'.
Proof.
  intros T M -> E O Tot Sub Mk Mo Keep. exists (<[place_of (m_size h) k := b']> ds). split.
  - apply (table_put h ds _ b); try done. intros n I. destruct (Sub n I) as [->|I']; [done|]. by apply (table_place _ _ T _ b).
  - intros k' v. rewrite (elem_put ds _ b b') by done. destruct (decide (k' = k)) as [->|N].
    + rewrite Mk. split; [by left|]. intros [I|(i & c & Ni & Ec & I)]; [done|].
      by destruct (other_bucket h ds k i c (k, v) T Ec I Ni).
    + rewrite Mo, M by done. rewrite elem_concat. split.
      * intros (i & c & Ec & I). destruct (decide (i = place_of (m_size h) k)) as [->|Ni]; [|right; by exists i, c].
        left. assert (c = b) as -> by congruence. by apply Keep.
      * intros [I|(i & c & Ni & Ec & I)]; [|by exists i, c]. destruct (Sub _ I) as [|I']; [done|]. by exists (place_of (m_size h) k), b.
Qed.

Lemma table_keys h ds : table h ds -> NoDup ((concat ds).*1).
Proof.
  intros T. assert (G : forall off ls, (forall i b, ls !! i = Some b -> in_order lt b) ->
    (forall i b n, ls !! i = Some b -> n ∈ b -> place_of (m_size h) n.1 = (off + i)%nat) -> NoDup ((concat ls).*1));
    [|apply (G 0%nat ds); [apply T|apply T]].
  clear T. intros off ls. revert off. induction ls as [|b ls IH]; intros off O P; [constructor|]. cbn. rewrite fmap_app. apply list.NoDup_app.
  split_and!; [apply (bucket_keys key_lt); by apply (O 0%nat)| |].
  - intros k I J. apply list_elem_of_fmap in I as (x & -> & I). pose proof (P 0%nat b x eq_refl I).
    apply list_elem_of_fmap in J as (y & Ey & J). apply elem_concat in J as (i & c & Ec & J). pose proof (P (S i) c y Ec J). rewrite <- Ey in *. lia.
  - apply (IH (S off)); [intros i c; apply (O (S i))|]. intros i c n Ec I. rewrite (P (S i) c n Ec I). lia.
Qed.

(** The table counts what it holds. *)
Lemma view_size h m : view h m -> m_total h = Z.of_nat (size m).
Proof.
  intros (ds & T & M). rewrite (table_total _ _ T). unfold len. f_equal. pose proof (table_keys h ds T) as N.
  transitivity (length (map_to_list m)); [|by rewrite length_map_to_list]. apply Permutation_length, NoDup_Permutation.
  - by apply NoDup_fmap_1 in N.
  - apply NoDup_map_to_list.
  - intros [k v]. by rewrite elem_of_map_to_list, M.
Qed.

(** ** Rehashing *)

Lemma basket_ok n : 0 < n < 2 ^ 31 -> exists s, basket n = Ok s /\ 0 < s <= 2 ^ 30.
Proof.
  intros L. unfold basket. assert (s32 n = n) as -> by (apply sint_small; lia). cbv zeta.
  replace (n =? -2 ^ 31) with false by lia. replace (n =? 0) with false by lia. eexists. split; [done|].
  pose proof (Z.log2_nonneg (Z.abs n)). rewrite Z.shiftl_mul_pow2, Z.mul_1_l by lia.
  split; [apply Z.pow_pos_nonneg; lia|]. apply Z.pow_le_mono_r; lia.
Qed.

Lemma push_nodes size (ns : list (K * V)) : forall ds, 0 < size -> length ds = Z.to_nat size ->
  let r := foldl (fun ds n => push_node hash size n ds) ds ns in
  length r = length ds /\ len (concat r) = len (concat ds) + len ns /\
  forall i b, ds !! i = Some b -> r !! i = Some (b ++ filter (fun n => place_of size n.1 = i) ns).
Proof.
  induction ns as [|n ns IH]; intros ds L Ld; cbv zeta; cbn [foldl].
  - split_and!; [done|unfold len; cbn; lia|]. intros i b E. by rewrite app_nil_r.
  - pose proof (place_lt size n.1 L) as Ln. set (ds1 := push_node hash size n ds).
    assert (A : ds1 = alter (fun b => b ++ [n]) (place_of size n.1) ds) by done. clearbody ds1.
    destruct (lookup_lt_is_Some_2 ds (place_of size n.1)) as [b0 E0]; [lia|].
    destruct (IH ds1 L ltac:(by rewrite A, length_alter)) as (E1 & E2 & E3).
    split_and!; [by rewrite E1, A, length_alter| |].
    + rewrite E2. assert (ds1 = <[place_of size n.1 := b0 ++ [n]]> ds) as ->.
      { rewrite A. apply list_eq. intros j. destruct (decide (j = place_of size n.1)) as [->|Nj].
        - rewrite list_lookup_alter_eq, E0, list_lookup_insert_eq by lia. done.
        - by rewrite list_lookup_alter_ne, list_lookup_insert_ne. }
      rewrite (len_concat_insert ds _ b0) by done. unfold len. rewrite length_app. cbn. lia.
    + intros i b E. destruct (decide (i = place_of size n.1)) as [->|Ni].
      * rewrite (E3 _ (b ++ [n])) by (rewrite A, list_lookup_alter_eq, E; done). rewrite filter_cons_True by done. by rewrite <- app_assoc.
      * rewrite (E3 _ b) by (by rewrite A, list_lookup_alter_ne). by rewrite filter_cons_False by congruence.
Qed.

Lemma rehashUnlock_ok h m : view h m -> 0 < m_total h < 2 ^ 31 ->
  exists h', rehashUnlock key_lt hash h = Ok h' /\ view h' m /\ m_total h' = m_total h.
Proof.
  intros (ds & T & M) L. unfold rehashUnlock. destruct (basket_ok _ L) as (s & -> & Ls). cbn [rbind].
  destruct (s =? m_size h); [exists h; split_and!; [done|by exists ds|done]|]. rewrite (table_datas _ _ T). cbn [deref rbind].
  destruct (push_nodes s (concat ds) (replicate (Z.to_nat s) [])) as (E1 & E2 & E3); [lia|by rewrite length_replicate|].
  set (r := foldl _ _ _) in *. rewrite length_replicate in E1.
  assert (R : forall i, (i < Z.to_nat s)%nat -> r !! i = Some (filter (fun n => place_of s n.1 = i) (concat ds))).
  { intros i Li. rewrite (E3 i []); [done|]. by apply lookup_replicate_2. }
  assert (B : forall i b, map (sort lt) r !! i = Some b -> b ≡ₚ filter (fun n => place_of s n.1 = i) (concat ds) /\ in_order lt b).
  { intros i b Eb. rewrite list_lookup_fmap in Eb. pose proof Eb as Eb'. apply fmap_Some in Eb as (b0 & E0 & ->).
    assert (i < Z.to_nat s)%nat as Li by (rewrite <- E1; by eapply lookup_lt_Some). rewrite (R i Li) in E0. injection E0 as <-.
    apply (bucket_sort key_lt (KL := KL)). pose proof (table_keys h ds T) as N. clear -N. revert N. generalize (concat ds) as l0. intros l0 N. induction l0 as [|x l IH]; [constructor|].
    cbn in N. apply list.NoDup_cons in N as [Nx N]. destruct (decide (place_of s x.1 = i)); [rewrite filter_cons_True by done|rewrite filter_cons_False by done; by apply IH].
    cbn. apply list.NoDup_cons. split; [|by apply IH]. intros I. apply Nx. apply list_elem_of_fmap in I as (y & E & I).
    apply list_elem_of_filter in I as [_ I]. rewrite E. apply list_elem_of_fmap. by exists y. }
  eexists. split; [done|]. split; [|done]. exists (map (sort lt) r). split.
  - constructor; cbn; [done|rewrite length_map; lia|lia| | |].
    + intros i b Eb. by apply (B i).
    + intros i b n Eb I. destruct (B i b Eb) as [P _]. rewrite P in I. by apply list_elem_of_filter in I as [<- _].
    + rewrite (table_total _ _ T). assert (len (concat (map (sort lt) r)) = len (concat r)) as ->.
      { unfold len. f_equal. clear. induction r as [|b r IH]; [done|]. cbn. by rewrite !length_app, IH, (Permutation_length (sort_perm lt b)). }
      rewrite E2. unfold len.
      assert (length (concat (replicate (Z.to_nat s) ([] : list (K * V)))) = 0%nat) as -> by (clear; induction (Z.to_nat s); [done|done]). lia.
  - intros k v. rewrite M, (elem_concat (k, v) (map _ _)). split.
    + intros I. pose proof (place_lt s k ltac:(lia)) as Lp. specialize (R _ Lp).
      exists (place_of s k), (sort lt (filter (fun n => place_of s n.1 = place_of s k) (concat ds))). split.
      * rewrite list_lookup_fmap, R. done.
      * rewrite sort_perm. by apply list_elem_of_filter.
    + intros (i & b & Eb & I). destruct (B i b Eb) as [P _]. rewrite P in I. by apply list_elem_of_filter in I as [_ I].
Qed.

Lemma rehash_ok h m : view h m -> m_total h < 2 ^ 31 ->
  exists h', (if needRehash h then rehash key_lt hash h else Ok h) = Ok h' /\ view h' m /\ m_total h' = m_total h.
Proof.
  intros Vw L. unfold rehash. destruct (needRehash h) eqn:E; [|by exists h]. apply rehashUnlock_ok; [done|].
  destruct Vw as (ds & T & _). pose proof (table_some _ _ T). unfold needRehash in E. lia.
Qed.

(** ** The operations *)

Lemma table_get_ok h m k : view h m ->
  table_get key_lt hash k h = Ok (m !! k) /\ table_exists key_lt hash k h = Ok (bool_decide (is_Some (m !! k))).
Proof.
  intros (ds & T & M). destruct (table_bucket h ds k T) as (b & Eb & El & Ib). unfold table_get, table_exists. rewrite Eb. cbn [rbind].
  pose proof (search_ok key_lt k b (table_order _ _ T _ _ El)) as S. destruct (search key_lt k b) as [[i [k' v]]|].
  - destruct S as (b1 & b2 & E & _ & Ek). cbn in Ek. subst k'.
    assert (m !! k = Some v) as -> by (apply M, Ib; rewrite E; apply elem_of_app; right; left). by rewrite bool_decide_eq_true_2.
  - assert (m !! k = None) as ->.
    { destruct (m !! k) as [v|] eqn:Em; [|done]. exfalso. apply S. apply M, Ib in Em. apply list_elem_of_fmap. by exists (k, v). }
    by rewrite bool_decide_eq_false_2 by (intros []; done).
Qed.

(** The bucket of a key: the node of the key can be given another value or dropped, a node
    of a new key can be added. *)
Lemma table_case h m k : view h m -> m_total h + 1 < 2 ^ 64 -> exists pos b, bucket_of hash k h = Ok (pos, b) /\
  match search key_lt k b with
  | Some (i, n) => m !! k = Some n.2 /\ n.1 = k /\
      (forall v, view (put_bucket pos (<[i := (k, v)]> b) (m_total h) h) (<[k := v]> m)) /\
      view (put_bucket pos (drop_node key_lt i n b) (u64 (m_total h - 1)) h) (delete k m)
  | None => m !! k = None /\
      forall v, view (put_bucket pos (SortLast lt (b ++ [(k, v)])) (u64 (m_total h + 1)) h) (<[k := v]> m)
  end.
Proof.
  intros (ds & T & M) L. destruct (table_bucket h ds k T) as (b & Eb & El & Ib). exists (place_of (m_size h) k), b. split; [done|].
  pose proof (table_order _ _ T _ _ El) as O. assert (Lt : 0 <= m_total h) by (rewrite (table_total _ _ T); unfold len; lia).
  pose proof (search_ok key_lt k b O) as S. destruct (search key_lt k b) as [[i [k' w]]|].
  - destruct S as (b1 & b2 & E & -> & Ek). cbn in Ek. subst k'. cbn [fst snd].
    assert (m !! k = Some w) as Em by (apply M, Ib; rewrite E; apply elem_of_app; right; left).
    pose proof (bucket_keys key_lt b O) as N. assert (N' : NoDup ((b1 ++ b2).*1) /\ k ∉ (b1 ++ b2).*1).
    { rewrite E, fmap_app in N. cbn in N. rewrite <- Permutation_middle in N. apply list.NoDup_cons in N as [N1 N2]. by rewrite fmap_app. }
    destruct N' as [N1 N2]. split_and!; [done|done| |].
    + intros v. destruct (bucket_set key_lt b b1 b2 k v w O E) as [O' ->].
      apply (view_change h ds m _ _ b _ _ k); try done.
      * rewrite E. unfold len. rewrite !length_app. cbn. lia.
      * intros n. rewrite E, !elem_of_app, !elem_of_cons. intros [I|[->|I]]; [tauto|by left|tauto].
      * intros u. rewrite lookup_insert_eq. split; [intros [= <-]; apply elem_of_app; right; left|]. intros I.
        rewrite <- Permutation_middle in I. apply elem_of_cons in I as [[= ->]|I]; [done|].
        exfalso. apply N2, list_elem_of_fmap. by exists (k, u).
      * intros k' Nk. by rewrite lookup_insert_ne.
      * intros n Nn. rewrite E, !elem_of_app, !elem_of_cons. intros [I|[->|I]]; [tauto|done|tauto].
    + unfold drop_node. cbv zeta. set (b' := take _ _). assert (P : b' ≡ₚ b1 ++ b2) by (by apply (swap_pop b b1 (k, w) b2)).
      destruct (bucket_sort key_lt b') as [P1 O']; [by rewrite P|]. assert (P' : sort lt b' ≡ₚ b1 ++ b2) by (by etransitivity).
      assert (1 <= m_total h) as L1.
      { rewrite (table_total _ _ T). rewrite <- (take_drop_middle ds _ b El), concat_app. cbn. unfold len. rewrite !length_app, E, length_app. cbn. lia. }
      apply (view_change h ds m _ _ b _ _ k); try done.
      * unfold len. rewrite (Permutation_length P'), E, !length_app. cbn. rewrite u64_small by lia. lia.
      * intros n. rewrite P', E, !elem_of_app, elem_of_cons. tauto.
      * intros u. rewrite lookup_delete_eq, P'. split; [done|]. intros I. exfalso. apply N2, list_elem_of_fmap. by exists (k, u).
      * intros k' Nk. by rewrite lookup_delete_ne.
      * intros n Nn. rewrite P', E, !elem_of_app, elem_of_cons. intros [I|[->|I]]; [tauto|done|tauto].
  - split.
    + destruct (m !! k) as [w|] eqn:Em; [|done]. exfalso. apply S. apply M, Ib in Em. apply list_elem_of_fmap. by exists (k, w).
    + intros v. destruct (bucket_add key_lt b k v O S) as [P O']. apply (view_change h ds m _ _ b _ _ k); try done.
      * unfold len. rewrite (Permutation_length P). cbn. rewrite u64_small by lia. lia.
      * intros n. rewrite P, elem_of_cons. intros [->|I]; [by left|by right].
      * intros u. rewrite lookup_insert_eq, P, elem_of_cons. split; [intros [= <-]; by left|]. intros [[= ->]|I]; [done|].
        exfalso. apply S, list_elem_of_fmap. by exists (k, u).
      * intros k' N. by rewrite lookup_insert_ne.
      * intros n N I. rewrite P. by right.
Qed.

Lemma table_set_ok h m k v : view h m -> m_total h < 2 ^ 31 ->
  exists h', table_set key_lt hash k v h = Ok (bool_decide (m !! k = None), h') /\ view h' (<[k := v]> m).
Proof.
  intros Vw L. unfold table_set. destruct (rehash_ok h m Vw L) as (h1 & -> & V1 & Tot). cbn [rbind].
  destruct (table_case h1 m k V1 ltac:(lia)) as (pos & b & -> & C). cbn [rbind].
  destruct (search key_lt k b) as [[i n]|]; [destruct C as (Em & <- & C & _)|destruct C as (Em & C)];
    rewrite Em; (eexists; split; [|apply C]); [by rewrite bool_decide_eq_false_2|by rewrite bool_decide_eq_true_2].
Qed.

Lemma table_del_ok h m k : view h m -> m_total h < 2 ^ 63 ->
  exists h', table_del key_lt hash k h = Ok (bool_decide (is_Some (m !! k)), h') /\ view h' (delete k m).
Proof.
  intros Vw L. unfold table_del. destruct (table_case h m k Vw ltac:(lia)) as (pos & b & -> & C). cbn [rbind].
  destruct (search key_lt k b) as [[i n]|].
  - destruct C as (Em & _ & _ & C). rewrite Em, bool_decide_eq_true_2 by done. by eexists.
  - destruct C as (Em & _). rewrite Em, bool_decide_eq_false_2 by (intros []; done). exists h. by rewrite delete_id.
Qed.

Lemma new_HashMap_ok size : 0 < size < 2 ^ 31 -> exists h, new_HashMap size = Ok h /\ view h (∅ : gmap K V).
Proof.
  intros L. unfold new_HashMap. destruct (basket_ok size L) as (s & -> & Ls). cbn [rbind]. eexists. split; [done|].
  exists (replicate (Z.to_nat s) []). assert (forall n, concat (replicate n ([] : list (K * V))) = []) as E by (induction n; [done|done]). split.
  - constructor; cbn; [done|rewrite length_replicate; lia|lia| | |by rewrite E].
    + intros i b Eb. apply lookup_replicate in Eb as [-> _]. constructor.
    + intros i b n Eb I. apply lookup_replicate in Eb as [-> _]. by apply not_elem_of_nil in I.
  - intros k v. rewrite E, lookup_empty. split; [done|]. intros I. by apply not_elem_of_nil in I.
Qed.

Lemma rforeach_all (ns tmp : list (K * V)) : rforeach_loop (fun k v tmp => (true, tmp ++ [(k, v)])) ns tmp = tmp ++ ns.
Proof.
  revert tmp. induction ns as [|[k v] ns IH]; intros tmp; cbn; [by rewrite app_nil_r|]. by rewrite IH, <- app_assoc.
Qed.

Lemma merge_loop_ok ns : forall h m, view h m -> NoDup (ns.*1) -> m_total h + len ns < 2 ^ 31 ->
  exists h', merge_loop key_lt hash ns h = Ok h' /\ view h' (list_to_map ns ∪ m).
Proof.
  induction ns as [|[k v] ns IH]; intros h m Vw N L; cbn [merge_loop fst snd].
  - exists h. split; [done|]. cbn. by rewrite map_empty_union.
  - cbn in N. apply list.NoDup_cons in N as [Nk N]. destruct (table_set_ok h m k v Vw) as (h1 & -> & V1); [unfold len in L; lia|]. cbn [rbind].
    assert (m_total h1 <= m_total h + 1) as L1.
    { rewrite (view_size _ _ V1), (view_size _ _ Vw). destruct (m !! k) as [w|] eqn:E.
      - rewrite map_size_insert_Some by done. lia.
      - rewrite map_size_insert_None by done. lia. }
    destruct (IH h1 _ V1 N) as (h' & E' & V'); [unfold len in *; cbn in L; lia|]. exists h'. split; [done|].
    cbn. assert (list_to_map ns ∪ <[k := v]> m = <[k := v]> (list_to_map ns) ∪ m) as <-; [|done].
    rewrite <- insert_union_l, insert_union_r; [done|]. by apply not_elem_of_list_to_map_1.
Qed.

Lemma table_merge_ok oth mo h m : view oth mo -> view h m -> m_total oth + m_total h < 2 ^ 31 ->
  exists h', table_merge key_lt hash oth h = Ok h' /\ view h' (mo ∪ m).
Proof.
  intros (ds & T & M) Vw L. unfold table_merge, rforeach. rewrite rforeach_all. cbn [app].
  unfold nodes_of. pose proof (table_some _ _ T). replace (m_size oth =? 0) with false by lia. rewrite (table_datas _ _ T). cbn [default from_option].
  pose proof (table_keys _ _ T) as N. pose proof (table_total _ _ T) as Tot.
  destruct (merge_loop_ok (concat ds) h m Vw N) as (h' & E & V'); [unfold len in *; lia|]. exists h'. split; [done|].
  assert (list_to_map (concat ds) = mo) as <-; [|done]. apply map_eq. intros k. apply option_eq. intros v.
  rewrite M. symmetry. apply elem_of_list_to_map. done.
Qed.
End table.

(** * The theorem *)

(** a table stands for a finite map: [get] and [exists] look up, [set] inserts or
    overwrites and says whether the key is new, [del] deletes and says whether it was
    there, [merge] lets the other table's values win, a rehash keeps every pair, the
    total is the number of keys, and no operation crashes, for any hash function and any
    strict order of the keys, below 2^31 pairs. *)
Theorem HashMap_refines {K V : Type} `{Countable K} (key_lt : K -> K -> bool) (KL : StrictOn (fun _ : K => True) key_lt) (hash : K -> Z)
    (h oth : HashMap K V) (m mo : gmap K V) (k : K) (v : V) (Vw : view key_lt hash h m) (Vo : view key_lt hash oth mo)
    (L : m_total oth + m_total h < 2 ^ 31) :
  table_get key_lt hash k h = Ok (m !! k) /\
  table_exists key_lt hash k h = Ok (bool_decide (is_Some (m !! k))) /\
  (exists h', table_set key_lt hash k v h = Ok (bool_decide (m !! k = None), h') /\ view key_lt hash h' (<[k := v]> m)) /\
  (exists h', table_del key_lt hash k h = Ok (bool_decide (is_Some (m !! k)), h') /\ view key_lt hash h' (delete k m)) /\
  (exists h', rehash key_lt hash h = Ok h' /\ view key_lt hash h' m) /\
  (exists h', table_merge key_lt hash oth h = Ok h' /\ view key_lt hash h' (mo ∪ m)) /\
  m_total h = Z.of_nat (size m).
Proof.
  destruct (table_get_ok key_lt hash h m k Vw) as [G X]. pose proof (view_size key_lt hash h m Vw) as Sh.
  pose proof (view_size key_lt hash oth mo Vo) as So. split_and!; [done|done| | | | |done].
  - apply table_set_ok; [done|done|lia].
  - apply table_del_ok; [done|done|lia].
  - destruct (rehash_ok key_lt hash h m Vw) as (h' & E & V' & _); [lia|]. exists h'. split; [|done].
    unfold rehash in *. by destruct (needRehash h).
  - by apply table_merge_ok.
Qed.

(** [clear] leaves a table without buckets: the next call divides by their number. The
    default size of the constructor has no logarithm, and [wforeach] writes to copies. *)
Example clear_crash {K V : Type} (key_lt : K -> K -> bool) (hash : K -> Z) (h : HashMap K V) (k : K) (v : V) :
  table_get key_lt hash k (table_clear h) = Crash division_by_zero /\ table_set key_lt hash k v (table_clear h) = Crash division_by_zero.
Proof. split; reflexivity. Qed.

Example default_size_crash : new_HashMap (K := Z) (V := Z) 0 = Crash bad_shift.
Proof. reflexivity. Qed.

Example wforeach_nothing {K V S : Type} (cb : K -> V -> S -> bool * V * S) (h : HashMap K V) (s : S) : snd (wforeach cb h s) = h.
Proof. reflexivity. Qed.

(** ** Witness *)

#[local] Instance Z_strict : StrictOn (fun _ : Z => True) Z.ltb.
Proof. constructor; intros; lia. Qed.

(** Two keys in one bucket. *)
Lemma HashMap_refines_witness : exists (h h1 h2 : HashMap Z Z),
  new_HashMap 1 = Ok h /\ table_set Z.ltb id 4 40 h = Ok (true, h1) /\ table_set Z.ltb id 2 20 h1 = Ok (true, h2) /\
  table_get Z.ltb id 2 h2 = Ok (Some 20).
Proof.
  destruct (new_HashMap_ok Z.ltb id 1 ltac:(lia) : exists h : HashMap Z Z, _) as (h & E & V0).
  pose proof (view_size _ _ h _ V0) as S0.
  destruct (HashMap_refines Z.ltb Z_strict id h h _ _ 4 40 V0 V0 ltac:(rewrite S0; vm_compute; congruence)) as (_ & _ & (h1 & E1 & V1) & _).
  pose proof (view_size _ _ h1 _ V1) as S1.
  destruct (HashMap_refines Z.ltb Z_strict id h1 h1 _ _ 2 20 V1 V1 ltac:(rewrite S1; vm_compute; congruence)) as (_ & _ & (h2 & E2 & V2) & _).
  pose proof (view_size _ _ h2 _ V2) as S2.
  destruct (HashMap_refines Z.ltb Z_strict id h2 h2 _ _ 2 0 V2 V2 ltac:(rewrite S2; vm_compute; congruence)) as (G & _).
  exists h, h1, h2. split; [exact E|]. split; [exact E1|]. split; [exact E2|exact G].
Defined.
