(* ===== verification/Multimap.v ===== *)
(** The multimap [CIM::ds::HashMultimap] (include/ds/hash_multimap.hpp): the table of
    [HashMap] whose nodes hold an array of values, kept in order.

    A node is its key with its values; [Node::size], an [int], is their number. The arrays
    that a node owns and those that lie in [m_values] differ only in who frees them.

    The theorems say that it stands for a finite map to finite sets. *)
From stdpp Require Import gmap sorting.
From S2P Require Import Prelude OrderedSet HashMap HashMapSpec.

Section multimap.
Context {K V : Type} (key_lt : K -> K -> bool) (val_lt : V -> V -> bool) (m_posHash : K -> Z).
(** [V()], the sizes of the objects, and the values that their bytes are when the nodes are
    read as an array of [V]: the layout that the compiler chooses. *)
Context (zero : V) (sizeof_V sizeof_Node : Z) (raw : list (K * list V) -> list V).

Abbreviation Node := (K * list V)%type.
Abbreviation search := (search key_lt).
Abbreviation bucket_of := (bucket_of m_posHash).
Abbreviation Node_lt := (Node_lt key_lt).

Record HashMultimap := mkHashMultimap {
  m_table : HashMap K (list V);
  m_elements : Z;
}.

Definition new_HashMultimap (size : Z) : res HashMultimap :=
  let! t := new_HashMap size in Ok (mkHashMultimap t 0).

(** [BinarySearch(it->val, it->val + it->size, v)] *)
Definition find_value (v : V) (vals : list V) : option (nat * V) :=
  BinarySearch (fun x => val_lt x v) (fun x => val_lt v x) vals.

(** [node.size = size; node.val = new V[node.size]()]: a size that is negative as an [int]
    is refused. *)
Definition new_values (vs : list V) : res (list V) :=
  if s32 (len vs) <? 0 then Throw bad_array_new_length else Ok vs.

(** [if (needRehash()) rehash();] *)
Definition make_room (h : HashMultimap) : res (HashMap K (list V)) :=
  if needRehash (m_table h) then rehash key_lt m_posHash (m_table h) else Ok (m_table h).

(** A new node at its place in the bucket: [push_back], [SortLast], [m_total]. *)
Definition add_node (pos : nat) (n : Node) (b : list Node) (t : HashMap K (list V)) : HashMap K (list V) :=
  put_bucket pos (SortLast Node_lt (b ++ [n])) (u64 (m_total t + 1)) t.

(** The values of a node that is there. *)
Definition put_values (pos i : nat) (k : K) (vals : list V) (b : list Node) (t : HashMap K (list V)) : HashMap K (list V) :=
  put_bucket pos (<[i := (k, vals)]> b) (m_total t) t.

(** [get]: the array of a key, a copy of it or the array itself. *)
Definition get_array (k : K) (h : HashMultimap) : res (option (list V)) :=
  let! (_, b) := bucket_of k (m_table h) in Ok (option_map (fun p => p.2.2) (search k b)).

(** [get] into a vector; when there is no such key an empty array is converted to [false]. *)
Definition get_vector (k : K) (v : list V) (h : HashMultimap) : res (bool * list V) :=
  let! (_, b) := bucket_of k (m_table h) in
  Ok (match search k b with None => (false, v) | Some (_, n) => (true, n.2) end).

(** [get] of the value that is equivalent to [v]. *)
Definition get_value (k : K) (v : V) (h : HashMultimap) : res (bool * V) :=
  let! (_, b) := bucket_of k (m_table h) in
  Ok (match search k b with
      | None => (false, v)
      | Some (_, n) => match find_value v n.2 with Some (_, w) => (true, w) | None => (false, v) end
      end).

Definition exists_key (k : K) (h : HashMultimap) : res bool :=
  let! (_, b) := bucket_of k (m_table h) in Ok (match search k b with Some _ => true | None => false end).

Definition exists_value (k : K) (v : V) (h : HashMultimap) : res bool :=
  let! (_, b) := bucket_of k (m_table h) in
  Ok (match search k b with
      | None => false
      | Some (_, n) => match find_value v n.2 with Some _ => true | None => false end
      end).

Definition insert_value (k : K) (v : V) (h : HashMultimap) : res (bool * HashMultimap) :=
  let! t := make_room h in
  let! (pos, b) := bucket_of k t in
  match search k b with
  | None => Ok (true, mkHashMultimap (add_node pos (k, [v]) b t) (u64 (m_elements h + 1)))
  | Some (i, n) =>
      match find_value v n.2 with
      | Some (j, _) => Ok (true, mkHashMultimap (put_values pos i n.1 (<[j := v]> n.2) b t) (m_elements h))
      | None =>
          if len n.2 =? 2 ^ 31 - 1 then Crash signed_overflow
          else Ok (true, mkHashMultimap (put_values pos i n.1 (SortLast val_lt (n.2 ++ [v])) b t) (u64 (m_elements h + 1)))
      end
  end.

(** The loop of [insert] over an array: what is there is overwritten, what is not is
    collected in a [std::set]. *)
Fixpoint collect_news (vs : list V) (vals news : list V) : list V * list V :=
  match vs with
  | [] => (vals, news)
  | v :: vs =>
      match find_value v vals with
      | None => collect_news vs vals (set_insert val_lt v news).2
      | Some (j, _) => collect_news vs (<[j := v]> vals) news
      end
  end.

Definition insert_array (k : K) (vs : list V) (h : HashMultimap) : res (bool * HashMultimap) :=
  let! t := make_room h in
  let! (pos, b) := bucket_of k t in
  match search k b with
  | None =>
      let! vals := new_values vs in
      Ok (true, mkHashMultimap (add_node pos (k, sort val_lt vals) b t) (u64 (m_elements h + len vs)))
  | Some (i, n) =>
      let (vals, news) := collect_news vs n.2 [] in
      if 2 ^ 31 <=? len vals + len news then Crash out_of_bounds
      else Ok (true, mkHashMultimap (put_values pos i n.1 (sort val_lt (vals ++ news)) b t) (u64 (m_elements h + len news)))
  end.

Definition set_array (k : K) (vs : list V) (h : HashMultimap) : res (bool * HashMultimap) :=
  let! t := make_room h in
  let! (pos, b) := bucket_of k t in
  match search k b with
  | None =>
      let! vals := new_values vs in
      Ok (true, mkHashMultimap (add_node pos (k, sort val_lt vals) b t) (u64 (m_elements h + len vs)))
  | Some (i, n) =>
      if 2 ^ 31 <=? len vs then Crash out_of_bounds
      else Ok (true, mkHashMultimap (put_values pos i n.1 (sort val_lt vs) b t) (u64 (m_elements h + len vs)))
  end.

Definition del_key (k : K) (h : HashMultimap) : res (bool * HashMultimap) :=
  let t := m_table h in
  let! (pos, b) := bucket_of k t in
  match search k b with
  | None => Ok (false, h)
  | Some (i, n) =>
      Ok (true, mkHashMultimap (put_bucket pos (drop_node key_lt i n b) (u64 (m_total t - 1)) t) (u64 (m_elements h - len n.2)))
  end.

(** What [memcpy(datas, it + 1, count * sizeof(V))] copies: the bytes of the nodes behind
    [it] in the vector. *)
Definition copy_behind (i : nat) (b : list Node) (count : Z) : res (list V) :=
  let behind := drop (S i) b in
  if len behind * sizeof_Node <? count * sizeof_V then Crash out_of_bounds
  else Ok (take (Z.to_nat count) (raw behind)).

Definition del_value (k : K) (v : V) (h : HashMultimap) : res (bool * HashMultimap) :=
  let t := m_table h in
  let! (pos, b) := bucket_of k t in
  match search k b with
  | None => Ok (false, h)
  | Some (i, n) =>
      match find_value v n.2 with
      | None => Ok (false, h)
      | Some (j, _) =>
          if len n.2 =? 1 then
            Ok (true, mkHashMultimap (put_bucket pos (drop_node key_lt i (n.1, []) b) (u64 (m_total t - 1)) t) (u64 (m_elements h - 1)))
          else
            let count := len n.2 - Z.of_nat j - 1 in
            let datas := take j n.2 ++ replicate (Z.to_nat count) zero in
            let! w := copy_behind i b count in
            Ok (true, mkHashMultimap (put_values pos i n.1 (w ++ drop (length w) datas) b t) (m_elements h))
      end
  end.

Definition rehash_multimap (h : HashMultimap) : res HashMultimap :=
  let! t := rehash key_lt m_posHash (m_table h) in Ok (mkHashMultimap t (m_elements h)).

(** Every node, until the callback says no. *)
Definition rforeach_values {S} (cb : K -> list V -> S -> bool * S) (h : HashMultimap) (s : S) : S :=
  rforeach cb (m_table h) s.

(** [wforeach]: the node is a copy but its pointer is not, so the values that the callback
    writes stay. *)
Fixpoint wforeach_bucket {S} (cb : K -> list V -> S -> bool * list V * S) (ns : list Node) (s : S) : bool * list Node * S :=
  match ns with
  | [] => (true, [], s)
  | n :: ns =>
      let '(go, vals, s) := cb n.1 n.2 s in
      if go then let '(go, ns, s) := wforeach_bucket cb ns s in (go, (n.1, vals) :: ns, s)
      else (false, (n.1, vals) :: ns, s)
  end.

Fixpoint wforeach_buckets {S} (cb : K -> list V -> S -> bool * list V * S) (ds : list (list Node)) (s : S) : list (list Node) * S :=
  match ds with
  | [] => ([], s)
  | b :: ds =>
      let '(go, b, s) := wforeach_bucket cb b s in
      if go then let (ds, s) := wforeach_buckets cb ds s in (b :: ds, s) else (b :: ds, s)
  end.

Definition wforeach_values {S} (cb : K -> list V -> S -> bool * list V * S) (h : HashMultimap) (s : S) : S * HashMultimap :=
  let t := m_table h in
  match m_datas t with
  | Some ds =>
      let (ds, s) := wforeach_buckets cb ds s in
      (s, mkHashMultimap (mkHashMap (m_size t) (m_total t) (Some ds)) (m_elements h))
  | None => (s, h)
  end.
End multimap.

Arguments HashMultimap : clear implicits.

(** * Theorems *)

(** ** The values of a node *)

Section values.
Context {V : Type} `{Countable V} (val_lt : V -> V -> bool) `{VL : !StrictOn (fun _ : V => True) val_lt}.
Implicit Types (l vs : list V) (v w : V).

Abbreviation sorted := (in_order val_lt).
Abbreviation find_value := (find_value val_lt).

Lemma all_true l : all (fun _ : V => True) l.
Proof. done. Qed.
#[local] Hint Resolve all_true : core.

Lemma sorted_NoDup l : sorted l -> NoDup l.
Proof. by apply (in_order_NoDup (fun _ => True) val_lt). Qed.

Lemma sorted_unique l1 l2 : sorted l1 -> sorted l2 -> (forall v, v ∈ l1 <-> v ∈ l2) -> l1 = l2.
Proof. intros O1 O2 E. by apply (in_order_unique (fun _ => True) val_lt). Qed.

Lemma sorted_size l : sorted l -> size (list_to_set (C := gset V) l) = length l.
Proof. intros O. by apply size_list_to_set, sorted_NoDup. Qed.

Lemma find_value_ok v l : sorted l -> match find_value v l with
  | Some (j, w) => w = v /\ exists l1 l2, l = l1 ++ v :: l2 /\ j = length l1
  | None => v ∉ l
  end.
Proof.
  intros O. unfold find_value, BinarySearch. destruct (decide (v ∈ l)) as [I|N].
  - apply list_elem_of_split in I as (l1 & l2 & ->). destruct (lower_bound_in (fun _ => True) val_lt v l1 l2 (all_true _) O) as [-> Ir].
    rewrite list_lookup_middle, Ir by done. split; [done|by exists l1, l2].
  - destruct (place (fun _ => True) val_lt v l (all_true _) O N) as (l1 & l2 & -> & -> & _ & Hl).
    destruct ((l1 ++ l2) !! length l1) as [b|]; [by rewrite Hl|done].
Qed.

Lemma find_value_mem v l : sorted l -> find_value v l = None <-> v ∉ l.
Proof.
  intros O. pose proof (find_value_ok v l O) as F. destruct (find_value v l) as [[j w]|]; [|done].
  destruct F as (-> & l1 & l2 & -> & _). split; [done|]. intros N. exfalso. apply N, elem_of_app. right. left.
Qed.

(** Writing a value over itself. *)
Lemma overwrite v l j w : sorted l -> find_value v l = Some (j, w) -> <[j := v]> l = l /\ v ∈ l.
Proof.
  intros O E. pose proof (find_value_ok v l O) as F. rewrite E in F. destruct F as (-> & l1 & l2 & -> & ->).
  split; [by rewrite insert_app_r_alt, Nat.sub_diag by done|]. apply elem_of_app. right. left.
Qed.

Lemma add_value v l : sorted l -> v ∉ l ->
  sorted (SortLast val_lt (l ++ [v])) /\ list_to_set (C := gset V) (SortLast val_lt (l ++ [v])) = {[v]} ∪ list_to_set l.
Proof.
  intros O N. destruct (SortLast_ok val_lt (fun _ => True) l v (all_true _) O N) as [P O']. split; [done|]. by rewrite P.
Qed.

Lemma sort_values l : NoDup l -> sorted (sort val_lt l) /\ list_to_set (C := gset V) (sort val_lt l) = list_to_set l.
Proof. intros N. split; [by apply (sort_order val_lt (fun _ => True))|]. by rewrite sort_perm. Qed.

Lemma news_insert v news : sorted news ->
  sorted (set_insert val_lt v news).2 /\ forall w, w ∈ (set_insert val_lt v news).2 <-> w = v \/ w ∈ news.
Proof.
  intros O. destruct (decide (v ∈ news)) as [I|N].
  - rewrite (insert_present (fun _ => True) val_lt) by done. split; [done|]. intros w. split; [tauto|by intros [->|]].
  - destruct (insert_new (fun _ => True) val_lt v news (all_true _) O N) as (l1 & l2 & -> & -> & O'). split; [done|].
    intros w. cbn. rewrite !elem_of_app, elem_of_cons. tauto.
Qed.

(** What the loop of [insert] collects: what is asked for and not there. *)
Lemma collect_news_ok vs l news : sorted l -> sorted news -> exists news',
  collect_news val_lt vs l news = (l, news') /\ sorted news' /\ forall v, v ∈ news' <-> v ∈ news \/ v ∈ vs /\ v ∉ l.
Proof.
  revert news. induction vs as [|v vs IH]; intros news O On; cbn [collect_news].
  - exists news. split_and!; [done|done|]. intros v. rewrite elem_of_nil. tauto.
  - destruct (find_value v l) as [[j w]|] eqn:F.
    + destruct (overwrite v l j w O F) as [-> I]. destruct (IH news O On) as (n' & -> & On' & E). exists n'. split_and!; [done|done|].
      intros u. rewrite E, elem_of_cons. naive_solver.
    + apply find_value_mem in F; [|done]. destruct (news_insert v news On) as [O1 E1].
      destruct (IH _ O O1) as (n' & -> & On' & E). exists n'. split_and!; [done|done|].
      intros u. rewrite E, E1, elem_of_cons. naive_solver.
Qed.

Lemma insert_values vs l : sorted l -> exists news, collect_news val_lt vs l [] = (l, news) /\ NoDup news /\
  list_to_set (C := gset V) news = list_to_set vs ∖ list_to_set l /\ sorted (sort val_lt (l ++ news)) /\
  list_to_set (C := gset V) (sort val_lt (l ++ news)) = list_to_set vs ∪ list_to_set l.
Proof.
  intros O. destruct (collect_news_ok vs l [] O) as (news & E & On & I); [constructor|]. exists news.
  assert (NoDup (l ++ news)) as N.
  { apply list.NoDup_app. split_and!; [by apply sorted_NoDup| |by apply sorted_NoDup].
    intros v Il In. apply I in In as [In|[_ In]]; [by apply not_elem_of_nil in In|done]. }
  destruct (sort_values (l ++ news) N) as [Os ->]. split_and!; [done|by apply sorted_NoDup| |done|].
  - apply set_eq. intros v. rewrite elem_of_difference, !elem_of_list_to_set, I, elem_of_nil. tauto.
  - apply set_eq. intros v. rewrite elem_of_union, !elem_of_list_to_set, elem_of_app, I, elem_of_nil. destruct (decide (v ∈ l)); tauto.
Qed.

(** The greatest value is the last. *)
Lemma greatest_last v l1 l2 : sorted (l1 ++ v :: l2) -> (forall w, w ∈ l1 ++ v :: l2 -> w = v \/ val_lt w v = true) -> l2 = [].
Proof.
  intros O G. destruct l2 as [|w l2]; [done|]. exfalso. apply in_order_app in O as (_ & O & _). apply in_order_cons in O as [_ O].
  assert (val_lt v w = true) as L by (apply O; left). assert (val_lt v v = true) as Lv.
  { destruct (G w) as [E|Lw]; [apply elem_of_app; right; right; left|by rewrite E in L|].
    by apply (strict_trans (P := fun _ => True) v w v). }
  by rewrite (strict_irrefl (P := fun _ => True)) in Lv.
Qed.
End values.

(** ** The table *)

Section table.
Context {K V : Type} `{Countable K} `{Countable V} (key_lt : K -> K -> bool) (val_lt : V -> V -> bool) (hash : K -> Z).
Context (KL : StrictOn (fun _ : K => True) key_lt) (VL : StrictOn (fun _ : V => True) val_lt).
Implicit Types (h : HashMultimap K V) (M : gmap K (gset V)) (m : gmap K (list V)).

Definition values_of M k : gset V := default ∅ (M !! k).

(** The sets of values, each kept as its sorted list. *)
Definition sorted_map m M : Prop :=
  (forall k l, m !! k = Some l -> in_order val_lt l) /\ forall k, M !! k = list_to_set <$> m !! k.

Definition multimap_view h M : Prop := exists m, view key_lt hash (m_table h) m /\ sorted_map m M.

Lemma sorted_insert m M k l S : sorted_map m M -> in_order val_lt l -> list_to_set l = S -> sorted_map (<[k := l]> m) (<[k := S]> M).
Proof.
  intros [O E] Ol <-. split; intros k'; destruct (decide (k = k')) as [<-|N].
  - intros l'. rewrite lookup_insert_eq. by intros [= <-].
  - intros l'. rewrite lookup_insert_ne by done. apply O.
  - by rewrite !lookup_insert_eq.
  - by rewrite !lookup_insert_ne.
Qed.

Lemma sorted_delete m M k : sorted_map m M -> sorted_map (delete k m) (delete k M).
Proof.
  intros [O E]. split; intros k'; destruct (decide (k = k')) as [<-|N].
  - intros l'. by rewrite lookup_delete_eq.
  - intros l'. rewrite lookup_delete_ne by done. apply O.
  - by rewrite !lookup_delete_eq.
  - by rewrite !lookup_delete_ne.
Qed.

Lemma new_HashMultimap_ok size : 0 < size < 2 ^ 31 -> exists h, new_HashMultimap size = Ok h /\ multimap_view h ∅ /\ m_elements h = 0.
Proof.
  intros L. unfold new_HashMultimap. destruct (new_HashMap_ok key_lt hash size L : exists t : HashMap K (list V), _) as (t & -> & Vt).
  cbn [rbind]. eexists. split; [done|]. split; [|done]. exists ∅. split; [done|]. split; intros k; [intros l; by rewrite lookup_empty|by rewrite !lookup_empty].
Qed.

(** A dropped node is written behind the end that is kept. *)
Lemma drop_node_any i (n n' : K * list V) b : drop_node key_lt i n b = drop_node key_lt i n' b.
Proof.
  unfold drop_node. cbv zeta. destruct (1 <? length b)%nat; [|done]. destruct (b !! (length b - 1)%nat) as [z|]; [|done].
  by rewrite (take_insert_ge _ _ _ n), (take_insert_ge _ _ _ n').
Qed.

(** Where a key is: its node with its values, or the place of a node that can be added. *)
Lemma multimap_case t m M k : view key_lt hash t m -> sorted_map m M -> m_total t + 1 < 2 ^ 64 ->
  exists pos b, bucket_of hash k t = Ok (pos, b) /\ match search key_lt k b with
  | Some (i, n) => n.1 = k /\ in_order val_lt n.2 /\ M !! k = Some (list_to_set n.2) /\
      (forall vals S e, in_order val_lt vals -> list_to_set vals = S ->
        multimap_view (mkHashMultimap (put_values pos i k vals b t) e) (<[k := S]> M)) /\
      (forall vals e, multimap_view (mkHashMultimap (put_bucket pos (drop_node key_lt i (k, vals) b) (u64 (m_total t - 1)) t) e) (delete k M))
  | None => M !! k = None /\
      forall vals S e, in_order val_lt vals -> list_to_set vals = S ->
        multimap_view (mkHashMultimap (add_node key_lt pos (k, vals) b t) e) (<[k := S]> M)
  end.
Proof.
  intros Vt SM L. destruct (table_case key_lt hash t m k Vt L) as (pos & b & E & C). exists pos, b. split; [done|].
  destruct SM as [O EM]. destruct (search key_lt k b) as [[i n]|].
  - destruct C as (Em & En & C1 & C2). split_and!; [done|by apply (O k)|by rewrite EM, Em| |].
    + intros vals S e Ov Es. exists (<[k := vals]> m). split; [apply C1|]. by apply sorted_insert.
    + intros vals e. exists (delete k m). split; [|by apply sorted_delete]. cbn [m_table].
      by rewrite (drop_node_any i (k, vals) n).
  - destruct C as (Em & C). split; [by rewrite EM, Em|]. intros vals S e Ov Es. exists (<[k := vals]> m). split; [apply C|]. by apply sorted_insert.
Qed.

(** The call that makes room first. *)
Lemma make_room_ok h M : multimap_view h M -> m_total (m_table h) < 2 ^ 31 -> exists t m,
  make_room key_lt hash h = Ok t /\ view key_lt hash t m /\ sorted_map m M /\ m_total t + 1 < 2 ^ 64.
Proof.
  intros (m & Vt & SM) L. destruct (rehash_ok key_lt hash _ m Vt L) as (t & E & V1 & Tot). exists t, m. split_and!; [done|done|done|lia].
Qed.

Lemma values_some M k l : M !! k = Some (list_to_set l) -> values_of M k = list_to_set l.
Proof. intros E. unfold values_of. by rewrite E. Qed.

Lemma values_none M k : M !! k = None -> values_of M k = ∅.
Proof. intros E. unfold values_of. by rewrite E. Qed.

(** ** The operations *)

Lemma get_array_ok h M k : multimap_view h M -> m_total (m_table h) < 2 ^ 31 -> exists r,
  get_array key_lt hash k h = Ok r /\ match r with
  | Some l => in_order val_lt l /\ M !! k = Some (list_to_set l)
  | None => M !! k = None
  end /\ exists_key key_lt hash k h = Ok (bool_decide (is_Some (M !! k))).
Proof.
  intros (m & Vt & SM) L. destruct (multimap_case _ m M k Vt SM ltac:(lia)) as (pos & b & E & C).
  unfold get_array, exists_key. rewrite E. cbn [rbind]. destruct (search key_lt k b) as [[i n]|]; (eexists; split; [done|]).
  - destruct C as (_ & O & E2 & _). rewrite E2, bool_decide_eq_true_2 by done. done.
  - destruct C as (E2 & _). rewrite E2, bool_decide_eq_false_2 by (intros []; done). done.
Qed.

Lemma get_value_ok h M k v : multimap_view h M -> m_total (m_table h) < 2 ^ 31 ->
  get_value key_lt val_lt hash k v h = Ok (bool_decide (v ∈ values_of M k), v) /\
  exists_value key_lt val_lt hash k v h = Ok (bool_decide (v ∈ values_of M k)).
Proof.
  intros (m & Vt & SM) L. destruct (multimap_case _ m M k Vt SM ltac:(lia)) as (pos & b & E & C).
  unfold get_value, exists_value. rewrite E. cbn [rbind]. destruct (search key_lt k b) as [[i n]|].
  - destruct C as (_ & O & E2 & _). rewrite (values_some _ _ _ E2). destruct (find_value val_lt v n.2) as [[j w]|] eqn:F.
    + pose proof (find_value_ok val_lt v n.2 O) as F'. rewrite F in F'. destruct F' as (-> & _). apply (overwrite val_lt) in F as [_ I]; [|done].
      by rewrite bool_decide_eq_true_2 by (by apply elem_of_list_to_set).
    + apply (find_value_mem val_lt) in F; [|done]. by rewrite bool_decide_eq_false_2 by (by rewrite elem_of_list_to_set).
  - destruct C as (E2 & _). rewrite (values_none _ _ E2). by rewrite bool_decide_eq_false_2 by set_solver.
Qed.

Lemma insert_value_ok h M k v : multimap_view h M -> m_total (m_table h) < 2 ^ 31 -> Z.of_nat (size (values_of M k)) + 1 < 2 ^ 31 ->
  0 <= m_elements h < 2 ^ 63 -> exists h', insert_value key_lt val_lt hash k v h = Ok (true, h') /\
  multimap_view h' (<[k := {[v]} ∪ values_of M k]> M) /\
  m_elements h' = m_elements h + (if bool_decide (v ∈ values_of M k) then 0 else 1).
Proof.
  intros Vh L Ls Le. destruct (make_room_ok h M Vh L) as (t & m & E & Vt & SM & Lt). unfold insert_value. rewrite E. cbn [rbind].
  destruct (multimap_case t m M k Vt SM Lt) as (pos & b & -> & C). cbn [rbind]. destruct (search key_lt k b) as [[i n]|].
  - destruct C as (En & O & E2 & C & _). rewrite (values_some _ _ _ E2) in *. rewrite (sorted_size val_lt) in Ls by done.
    destruct (find_value val_lt v n.2) as [[j w]|] eqn:F.
    + apply (overwrite val_lt) in F as [Ew I]; [|done]. rewrite Ew, En. eexists. split; [done|].
      rewrite bool_decide_eq_true_2 by (by apply elem_of_list_to_set). split; [apply C; set_solver|cbn; lia].
    + apply (find_value_mem val_lt) in F; [|done]. unfold len. replace (_ =? _) with false by lia. rewrite En. eexists. split; [done|].
      rewrite bool_decide_eq_false_2 by (by rewrite elem_of_list_to_set). destruct (add_value val_lt v n.2 O F) as [O' E'].
      split; [by apply C|cbn [m_elements]; rewrite u64_small by lia; lia].
  - destruct C as (E2 & C). rewrite (values_none _ _ E2). eexists. split; [done|]. rewrite bool_decide_eq_false_2 by set_solver.
    split; [apply C; [repeat constructor|set_solver]|cbn [m_elements]; rewrite u64_small by lia; lia].
Qed.

Lemma new_values_ok (vs : list V) : len vs < 2 ^ 31 -> new_values vs = Ok vs.
Proof. intros L. unfold new_values. unfold s32. rewrite sint_small by (unfold len in *; lia). by replace (len vs <? 0) with false by (unfold len; lia). Qed.

Lemma insert_array_ok h M k vs : multimap_view h M -> m_total (m_table h) < 2 ^ 31 -> NoDup vs ->
  Z.of_nat (size (values_of M k)) + len vs < 2 ^ 31 -> 0 <= m_elements h < 2 ^ 63 ->
  exists h', insert_array key_lt val_lt hash k vs h = Ok (true, h') /\
  multimap_view h' (<[k := list_to_set vs ∪ values_of M k]> M) /\
  m_elements h' = m_elements h + Z.of_nat (size (list_to_set (C := gset V) vs ∖ values_of M k)).
Proof.
  intros Vh L Nd Ls Le. destruct (make_room_ok h M Vh L) as (t & m & E & Vt & SM & Lt). unfold insert_array. rewrite E. cbn [rbind].
  destruct (multimap_case t m M k Vt SM Lt) as (pos & b & -> & C). cbn [rbind]. destruct (search key_lt k b) as [[i n]|].
  - destruct C as (En & O & E2 & C & _). rewrite (values_some _ _ _ E2) in *. rewrite (sorted_size val_lt) in Ls by done.
    destruct (insert_values val_lt vs n.2 O) as (news & -> & Nn & En' & Os & Es). rewrite <- En'.
    assert (length news <= length vs)%nat as Ln.
    { rewrite <- (size_list_to_set (C := gset V) news), <- (size_list_to_set (C := gset V) vs), En' by done. apply subseteq_size. set_solver. }
    rewrite (size_list_to_set news) by done. unfold len in *. replace (2 ^ 31 <=? _) with false by lia. rewrite En. eexists. split; [done|].
    split; [by apply C|cbn [m_elements]; rewrite u64_small by lia; lia].
  - destruct C as (E2 & C). rewrite (values_none _ _ E2) in *. rewrite new_values_ok by lia. cbn [rbind]. eexists. split; [done|].
    destruct (sort_values val_lt vs Nd) as [O' E']. split; [apply C; [done|]; rewrite E'; set_solver|].
    rewrite difference_empty_L, size_list_to_set by done. cbn [m_elements]. unfold len in *. rewrite u64_small by lia. lia.
Qed.

Lemma set_array_ok h M k vs : multimap_view h M -> m_total (m_table h) < 2 ^ 31 -> NoDup vs -> len vs < 2 ^ 31 -> 0 <= m_elements h < 2 ^ 63 ->
  exists h', set_array key_lt val_lt hash k vs h = Ok (true, h') /\
  multimap_view h' (<[k := list_to_set vs]> M) /\ m_elements h' = m_elements h + len vs.
Proof.
  intros Vh L Nd Ls Le. destruct (make_room_ok h M Vh L) as (t & m & E & Vt & SM & Lt). unfold set_array. rewrite E. cbn [rbind].
  destruct (sort_values val_lt vs Nd) as [O' E']. assert (u64 (m_elements h + len vs) = m_elements h + len vs) as Eu by (rewrite u64_small; unfold len in *; lia).
  destruct (multimap_case t m M k Vt SM Lt) as (pos & b & -> & C). cbn [rbind]. destruct (search key_lt k b) as [[i n]|].
  - destruct C as (En & O & E2 & C & _). replace (2 ^ 31 <=? len vs) with false by lia. rewrite En. eexists. split; [done|]. split; [by apply C|done].
  - destruct C as (E2 & C). rewrite new_values_ok by done. cbn [rbind]. eexists. split; [done|]. split; [by apply C|done].
Qed.

Lemma del_key_ok h M k : multimap_view h M -> m_total (m_table h) < 2 ^ 31 -> Z.of_nat (size (values_of M k)) <= m_elements h < 2 ^ 63 ->
  exists h', del_key key_lt hash k h = Ok (bool_decide (is_Some (M !! k)), h') /\
  multimap_view h' (delete k M) /\ m_elements h' = m_elements h - Z.of_nat (size (values_of M k)).
Proof.
  intros (m & Vt & SM) L Le. unfold del_key. destruct (multimap_case _ m M k Vt SM ltac:(lia)) as (pos & b & -> & C). cbn [rbind].
  destruct (search key_lt k b) as [[i n]|].
  - destruct C as (En & O & E2 & _ & C). rewrite (values_some _ _ _ E2) in *. rewrite (sorted_size val_lt) in * by done.
    rewrite E2, bool_decide_eq_true_2 by done. eexists. split; [done|]. destruct n as [k' vals]. cbn in En. subst k'.
    split; [apply C|cbn [m_elements snd] in *; unfold len; rewrite u64_small by lia; lia].
  - destruct C as (E2 & _). rewrite (values_none _ _ E2) in *. rewrite E2, bool_decide_eq_false_2 by (intros []; done). exists h. split; [done|].
    rewrite delete_id by done. split; [by exists m|]. rewrite size_empty. lia.
Qed.

(** Removing a value that is not there, the only one, or the greatest. *)
Context (zero : V) (sizeof_V sizeof_Node : Z) (raw : list (K * list V) -> list V) (Sz : 0 <= sizeof_Node).
Abbreviation del_value := (del_value key_lt val_lt hash zero sizeof_V sizeof_Node raw).

Lemma del_value_none h M k v : multimap_view h M -> m_total (m_table h) < 2 ^ 31 -> v ∉ values_of M k -> del_value k v h = Ok (false, h).
Proof.
  intros (m & Vt & SM) L Nv. unfold del_value. destruct (multimap_case _ m M k Vt SM ltac:(lia)) as (pos & b & -> & C). cbn [rbind].
  destruct (search key_lt k b) as [[i n]|]; [|done]. destruct C as (_ & O & E2 & _). rewrite (values_some _ _ _ E2), elem_of_list_to_set in Nv.
  by apply (find_value_mem val_lt) in Nv as ->.
Qed.

(** The node of a value that is there. *)
Lemma value_case t m M k v : view key_lt hash t m -> sorted_map m M -> m_total t + 1 < 2 ^ 64 -> v ∈ values_of M k ->
  exists pos b i n l1 l2, bucket_of hash k t = Ok (pos, b) /\ search key_lt k b = Some (i, n) /\
    find_value val_lt v n.2 = Some (length l1, v) /\ n = (k, l1 ++ v :: l2) /\ in_order val_lt n.2 /\ values_of M k = list_to_set n.2 /\
    (forall vals S e, in_order val_lt vals -> list_to_set vals = S ->
      multimap_view (mkHashMultimap (put_values pos i k vals b t) e) (<[k := S]> M)) /\
    (forall vals e, multimap_view (mkHashMultimap (put_bucket pos (drop_node key_lt i (k, vals) b) (u64 (m_total t - 1)) t) e) (delete k M)).
Proof.
  intros Vt SM L Iv. destruct (multimap_case _ m M k Vt SM L) as (pos & b & E & C). destruct (search key_lt k b) as [[i n]|] eqn:Es.
  - destruct C as (En & O & E2 & C1 & C2). rewrite (values_some _ _ _ E2) in Iv |- *. apply elem_of_list_to_set in Iv.
    pose proof (find_value_ok val_lt v n.2 O) as F. destruct (find_value val_lt v n.2) as [[j w]|] eqn:Ef; [|done].
    destruct F as (-> & l1 & l2 & El & ->). exists pos, b, i, n, l1, l2. destruct n as [k' vals]. cbn in *. by subst.
  - destruct C as (E2 & _). rewrite (values_none _ _ E2) in Iv. set_solver.
Qed.

Lemma del_value_only h M k v : multimap_view h M -> m_total (m_table h) < 2 ^ 31 -> 0 < m_elements h < 2 ^ 63 -> values_of M k = {[v]} ->
  exists h', del_value k v h = Ok (true, h') /\ multimap_view h' (delete k M) /\ m_elements h' = m_elements h - 1.
Proof.
  intros (m & Vt & SM) L Le E1.
  destruct (value_case _ m M k v Vt SM ltac:(lia) ltac:(rewrite E1; set_solver)) as (pos & b & i & n & l1 & l2 & Eb & Es & Ef & En & O & Ev & _ & C).
  unfold del_value. rewrite Eb. cbn [rbind]. rewrite Es, Ef.
  pose proof (sorted_size val_lt n.2 O) as S1. rewrite <- Ev, E1, size_singleton in S1. unfold len. rewrite <- S1.
  change (Z.of_nat 1 =? 1) with true. cbv iota. eexists. split; [done|]. rewrite En. split; [apply C|cbn [m_elements]; rewrite u64_small by lia; lia].
Qed.

Lemma del_value_greatest h M k v w : multimap_view h M -> m_total (m_table h) < 2 ^ 31 ->
  v ∈ values_of M k -> w ∈ values_of M k -> w <> v -> (forall u, u ∈ values_of M k -> u = v \/ val_lt u v = true) ->
  exists h', del_value k v h = Ok (true, h') /\ multimap_view h' (<[k := values_of M k ∖ {[v]}]> M) /\ m_elements h' = m_elements h.
Proof.
  intros (m & Vt & SM) L Iv Iw Nw G.
  destruct (value_case _ m M k v Vt SM ltac:(lia) Iv) as (pos & b & i & n & l1 & l2 & Eb & Es & Ef & En & O & Ev & C & _).
  unfold del_value. rewrite Eb. cbn [rbind]. rewrite Es, Ef. rewrite Ev in *. subst n. cbn [fst snd] in *.
  assert (l2 = []) as ->. { apply (greatest_last val_lt v l1 l2 O). intros u I. by apply G, elem_of_list_to_set. }
  assert ((len (l1 ++ [v]) =? 1) = false) as ->.
  { rewrite elem_of_list_to_set in Iw. destruct l1; [cbn in Iw; by apply list_elem_of_singleton in Iw|unfold len; rewrite length_app; cbn; lia]. }
  unfold len at 1 2. rewrite length_app. cbn [length]. replace (Z.of_nat (length l1 + 1) - Z.of_nat (length l1) - 1) with 0 by lia.
  unfold copy_behind. replace (len (drop (S i) b) * sizeof_Node <? 0 * sizeof_V) with false.
  2: { unfold len. pose proof (Z.mul_nonneg_nonneg (Z.of_nat (length (drop (S i) b))) sizeof_Node). lia. }
  change (Z.to_nat 0) with 0%nat. cbn [rbind replicate]. rewrite take_0. cbn [app length drop]. rewrite take_app_length, app_nil_r.
  eexists. split; [done|]. split; [|done]. apply C; [by apply in_order_app in O as [? _]|]. apply set_eq. intros u.
  rewrite elem_of_difference, !elem_of_list_to_set, elem_of_app, elem_of_cons, elem_of_nil, elem_of_singleton.
  apply (sorted_NoDup val_lt) in O. rewrite <- Permutation_cons_append in O. apply list.NoDup_cons in O as [O _]. naive_solver.
Qed.
(** Removing a value that is not the greatest: what lies behind the node in its vector is
    copied over the values, from the first on, and the place of the others is zero. *)
Lemma del_value_smaller h M k v w : multimap_view h M -> m_total (m_table h) < 2 ^ 31 ->
  v ∈ values_of M k -> w ∈ values_of M k -> val_lt v w = true ->
  exists m l1 l2 pos b i n, view key_lt hash (m_table h) m /\ sorted_map m M /\ m !! k = Some (l1 ++ v :: l2) /\ l2 <> [] /\
    bucket_of hash k (m_table h) = Ok (pos, b) /\ search key_lt k b = Some (i, n) /\
    let behind := drop (S i) b in let bytes := take (length l2) (raw behind) in
    if len behind * sizeof_Node <? len l2 * sizeof_V then del_value k v h = Crash out_of_bounds
    else exists h', del_value k v h = Ok (true, h') /\ m_elements h' = m_elements h /\
      view key_lt hash (m_table h') (<[k := bytes ++ drop (length bytes) (l1 ++ replicate (length l2) zero)]> m).
Proof.
  intros (m & Vt & SM) L Iv Iw Lt. unfold del_value.
  destruct (table_case key_lt hash _ m k Vt ltac:(lia)) as (pos & b & E & C). rewrite E. cbn [rbind]. destruct SM as [O EM].
  destruct (search key_lt k b) as [[i n]|] eqn:Es.
  2: { destruct C as (Em & _). unfold values_of in Iv. rewrite EM, Em in Iv. cbn in Iv. set_solver. }
  destruct C as (Em & En & C1 & _). unfold values_of in Iv, Iw. rewrite EM, Em in Iv, Iw. cbn in Iv, Iw.
  rewrite elem_of_list_to_set in Iv, Iw. pose proof (O k _ Em) as Ov.
  pose proof (find_value_ok val_lt v n.2 Ov) as F. destruct (find_value val_lt v n.2) as [[j u]|]; [|done].
  destruct F as (-> & l1 & l2 & El & ->). rewrite El in *.
  assert (l2 <> []) as Nl.
  { intros ->. apply elem_of_app in Iw as [I|I].
    - apply in_order_app in Ov as (_ & _ & Ov). assert (val_lt w v = true) as Lw by (apply Ov; [done|left]).
      assert (val_lt v v = true) as Lv by (by apply (strict_trans (P := fun _ => True) v w v)).
      by rewrite (strict_irrefl (P := fun _ => True)) in Lv.
    - apply list_elem_of_singleton in I as ->. by rewrite (strict_irrefl (P := fun _ => True)) in Lt. }
  exists m, l1, l2, pos, b, i, n. split_and!; try done. cbv zeta.
  assert (len (l1 ++ v :: l2) = Z.of_nat (length l1) + 1 + len l2) as Ll by (unfold len; rewrite length_app; cbn; lia).
  assert (0 < len l2) as L2 by (unfold len; destruct l2; [done|cbn; lia]).
  replace (len (l1 ++ v :: l2) =? 1) with false by lia. unfold copy_behind.
  replace (len (l1 ++ v :: l2) - Z.of_nat (length l1) - 1) with (len l2) by lia.
  destruct (_ <? _); cbn [rbind]; [done|]. eexists. split; [done|]. split; [done|]. cbn [m_table].
  rewrite take_app_length, En. unfold len. rewrite Nat2Z.id. apply C1.
Qed.
End table.

(** * The theorem *)

(** C39: a multimap stands for a finite map to finite sets, whose values [get] gives in
    order. [insert] of a value or of an array adds to the set of the key and to the number
    of elements what was not there; [set] replaces the set, and adds all it is given to the
    number without taking off what it replaces; [del] of a key removes it with its elements.
    [del] of a value that is not there changes nothing, of the only one removes the key with
    its element; of the greatest of several it keeps the others, and the number of elements;
    of any other it is an access out of bounds where there are too few nodes behind in the
    vector, and otherwise puts their bytes in the place of the values, from the first on, and
    zeros in that of those that are left. Nothing else fails, for any hash function, strict
    orders of keys and values and layout of the nodes, below 2^31 keys and values of a key. *)
Theorem Multimap_refines {K V : Type} `{Countable K} `{Countable V} (key_lt : K -> K -> bool) (val_lt : V -> V -> bool) (hash : K -> Z)
    (zero : V) (sizeof_V sizeof_Node : Z) (raw : list (K * list V) -> list V)
    (KL : StrictOn (fun _ : K => True) key_lt) (VL : StrictOn (fun _ : V => True) val_lt) (Sz : 0 <= sizeof_Node)
    (h : HashMultimap K V) (M : gmap K (gset V)) (k : K) (v : V) (vs : list V) (Vh : multimap_view key_lt val_lt hash h M) (Nd : NoDup vs)
    (Lt : m_total (m_table h) < 2 ^ 31) (Lv : Z.of_nat (size (values_of M k)) + 1 + len vs < 2 ^ 31)
    (Le : Z.of_nat (size (values_of M k)) <= m_elements h < 2 ^ 63) :
  let S := values_of M k in let view := multimap_view key_lt val_lt hash in
  let del := del_value key_lt val_lt hash zero sizeof_V sizeof_Node raw k v h in
  (exists r, get_array key_lt hash k h = Ok r /\
    match r with Some l => in_order val_lt l /\ M !! k = Some (list_to_set l) | None => M !! k = None end) /\
  get_value key_lt val_lt hash k v h = Ok (bool_decide (v ∈ S), v) /\
  exists_value key_lt val_lt hash k v h = Ok (bool_decide (v ∈ S)) /\
  (exists h', insert_value key_lt val_lt hash k v h = Ok (true, h') /\ view h' (<[k := {[v]} ∪ S]> M) /\
    m_elements h' = m_elements h + (if bool_decide (v ∈ S) then 0 else 1)) /\
  (exists h', insert_array key_lt val_lt hash k vs h = Ok (true, h') /\ view h' (<[k := list_to_set vs ∪ S]> M) /\
    m_elements h' = m_elements h + Z.of_nat (size (list_to_set (C := gset V) vs ∖ S))) /\
  (exists h', set_array key_lt val_lt hash k vs h = Ok (true, h') /\ view h' (<[k := list_to_set vs]> M) /\
    m_elements h' = m_elements h + len vs) /\
  (exists h', del_key key_lt hash k h = Ok (bool_decide (is_Some (M !! k)), h') /\ view h' (delete k M) /\
    m_elements h' = m_elements h - Z.of_nat (size S)) /\
  (v ∉ S -> del = Ok (false, h)) /\
  (S = {[v]} -> exists h', del = Ok (true, h') /\ view h' (delete k M) /\ m_elements h' = m_elements h - 1) /\
  (forall w, v ∈ S -> w ∈ S -> w <> v -> (forall u, u ∈ S -> u = v \/ val_lt u v = true) ->
    exists h', del = Ok (true, h') /\ view h' (<[k := S ∖ {[v]}]> M) /\ m_elements h' = m_elements h) /\
  (forall w, v ∈ S -> w ∈ S -> val_lt v w = true ->
    exists m l1 l2 pos b i n, HashMapSpec.view key_lt hash (m_table h) m /\ sorted_map val_lt m M /\
      m !! k = Some (l1 ++ v :: l2) /\ l2 <> [] /\ bucket_of hash k (m_table h) = Ok (pos, b) /\ search key_lt k b = Some (i, n) /\
      let behind := drop (Datatypes.S i) b in let bytes := take (length l2) (raw behind) in
      if len behind * sizeof_Node <? len l2 * sizeof_V then del = Crash out_of_bounds
      else exists h', del = Ok (true, h') /\ m_elements h' = m_elements h /\
        HashMapSpec.view key_lt hash (m_table h') (<[k := bytes ++ drop (length bytes) (l1 ++ replicate (length l2) zero)]> m)).
Proof.
  cbv zeta. assert (0 <= len vs) as Ln by (unfold len; lia). destruct (get_value_ok key_lt val_lt hash KL VL h M k v Vh Lt). split_and!.
  - destruct (get_array_ok key_lt val_lt hash KL h M k Vh Lt) as (r & E & C & _). by exists r.
  - done.
  - done.
  - apply insert_value_ok; [done..|lia|lia].
  - apply insert_array_ok; [done..|lia|lia].
  - apply set_array_ok; [done..|lia|lia].
  - by apply del_key_ok.
  - intros N. by apply (del_value_none _ _ _ KL VL _ _ _ _ h M).
  - intros E. apply del_value_only; [done..| |done]. rewrite E, size_singleton in Le. lia.
  - intros w Iv Iw Nw G. by apply (del_value_greatest key_lt val_lt hash KL VL zero sizeof_V sizeof_Node raw Sz h M k v w).
  - intros w Iv Iw Lw. by apply (del_value_smaller key_lt val_lt hash KL VL zero sizeof_V sizeof_Node raw Sz h M k v w).
Qed.

(** Cases of it: a smaller value among several is removed with the bytes of the next node in
    the place of the values, or is out of bounds; it still counts; [set] counts what it
    replaces. What the theorem leaves out: an array for a new key keeps its duplicates. *)
Definition Z_multimap (size : Z) : res (HashMultimap Z Z) := new_HashMultimap size.
Definition Z_del := del_value Z.ltb Z.ltb id 0 4 16 (fun ns => flat_map (fun n => [n.1; 0; 0; 0]) ns).

Example removes_past_end : exists h, rbind (Z_multimap 1) (fun h => insert_array Z.ltb Z.ltb id 1 [10; 20; 30] h) = Ok (true, h) /\
  Z_del 1 20 h = Crash out_of_bounds.
Proof. eexists. split; reflexivity. Qed.

Example removes_into_garbage : exists h1 h2 h3,
  rbind (Z_multimap 1) (fun h => insert_array Z.ltb Z.ltb id 2 [10; 20; 30] h) = Ok (true, h1) /\
  insert_value Z.ltb Z.ltb id 4 99 h1 = Ok (true, h2) /\ Z_del 2 20 h2 = Ok (true, h3) /\
  get_array Z.ltb id 2 h3 = Ok (Some [4; 0]) /\ m_elements h3 = 4.
Proof. do 3 eexists. split; [reflexivity|]. split; [reflexivity|]. split; [reflexivity|]. split; reflexivity. Qed.

Example set_counts_twice : exists h1 h2, rbind (Z_multimap 1) (fun h => set_array Z.ltb Z.ltb id 1 [10; 20] h) = Ok (true, h1) /\
  set_array Z.ltb Z.ltb id 1 [30] h1 = Ok (true, h2) /\ get_array Z.ltb id 1 h2 = Ok (Some [30]) /\ m_elements h2 = 3.
Proof. do 2 eexists. split; [reflexivity|]. split; [reflexivity|]. split; reflexivity. Qed.

Example duplicates_of_new_key : exists h, rbind (Z_multimap 1) (fun h => insert_array Z.ltb Z.ltb id 1 [20; 10; 20] h) = Ok (true, h) /\
  get_array Z.ltb id 1 h = Ok (Some [10; 20; 20]).
Proof. eexists. split; reflexivity. Qed.

(** ** Witness *)

(** Two insertions at one key, the greater value first. *)
Lemma Multimap_refines_witness : exists h h1 h2 : HashMultimap Z Z,
  Z_multimap 1 = Ok h /\ insert_value Z.ltb Z.ltb id 4 40 h = Ok (true, h1) /\ insert_value Z.ltb Z.ltb id 4 20 h1 = Ok (true, h2) /\
  get_value Z.ltb Z.ltb id 4 20 h2 = Ok (true, 20) /\ m_elements h2 = 2.
Proof.
  destruct (new_HashMultimap_ok Z.ltb Z.ltb id 1 ltac:(lia) : exists h : HashMultimap Z Z, _) as (h & E & V0 & Z0).
  pose proof E as E'. vm_compute in E'. injection E' as <-.
  destruct (Multimap_refines Z.ltb Z.ltb id 0 4 16 (fun _ => []) Z_strict Z_strict ltac:(lia) _ _ 4 40 [] V0 NoDup_nil_2
    ltac:(vm_compute; congruence) ltac:(vm_compute; congruence) ltac:(vm_compute; split; congruence)) as (_ & _ & _ & (h1 & E1 & V1 & _) & _).
  pose proof E1 as E1'. vm_compute in E1'. injection E1' as <-.
  destruct (Multimap_refines Z.ltb Z.ltb id 0 4 16 (fun _ => []) Z_strict Z_strict ltac:(lia) _ _ 4 20 [] V1 NoDup_nil_2
    ltac:(vm_compute; congruence) ltac:(vm_compute; congruence) ltac:(vm_compute; split; congruence)) as (_ & _ & _ & (h2 & E2 & V2 & _) & _).
  pose proof E2 as E2'. vm_compute in E2'. injection E2' as <-.
  destruct (Multimap_refines Z.ltb Z.ltb id 0 4 16 (fun _ => []) Z_strict Z_strict ltac:(lia) _ _ 4 20 [] V2 NoDup_nil_2
    ltac:(vm_compute; congruence) ltac:(vm_compute; congruence) ltac:(vm_compute; split; congruence)) as (_ & G & _ & _).
  eexists _, _, _. split; [exact E|]. split; [exact E1|]. split; [exact E2|]. split; [exact G|reflexivity].
Defined.
