(* ===== verification/Dict.v ===== *)
(** The dictionaries [CIM::ds::Dict] and [CIM::ds::StringDict] (include/ds/dich.hpp): the
    table of [HashMap] whose nodes hold an array of values, and strings under their hash.

    [Node::size] is an [int]: of an array of 2^31 values or more it is negative.

    The dictionary is a finite map to arrays, and the dictionary of strings gives back
    under an identity the last string that has it. *)
From stdpp Require Import gmap.
From S2P Require Import Prelude Endian CppString HashUtil HashUtilSpec OrderedSet HashMap HashMapSpec.

Section dict.
Context {K V : Type} (key_lt : K -> K -> bool) (m_posHash : K -> Z).

Abbreviation Node := (K * list V)%type.
Abbreviation Dict := (HashMap K (list V)).
Abbreviation search := (search key_lt).
Abbreviation bucket_of := (bucket_of m_posHash).
Abbreviation Node_lt := (Node_lt key_lt).

Definition new_Dict (size : Z) : res Dict := new_HashMap size.

(** The [size] of a node. *)
Definition node_size (vals : list V) : Z := s32 (len vals).

(** [get]: a copy of the array, or the array itself with its size as a [uint64_t]. *)
Definition dict_get (k : K) (duplicate : bool) (h : Dict) : res (option (Z * list V)) :=
  let! (_, b) := bucket_of k h in
  match search k b with
  | None => Ok None
  | Some (_, n) =>
      if duplicate && (node_size n.2 <? 0) then Throw bad_array_new_length
      else Ok (Some (u64 (node_size n.2), n.2))
  end.

Definition dict_get_vector (k : K) (v : list V) (h : Dict) : res (bool * list V) :=
  let! (_, b) := bucket_of k h in
  match search k b with
  | None => Ok (false, v)
  | Some (_, n) => if node_size n.2 <? 0 then Throw length_error else Ok (true, n.2)
  end.

Definition dict_exists (k : K) (h : Dict) : res bool :=
  let! (_, b) := bucket_of k h in Ok (match search k b with Some _ => true | None => false end).

(** [insert]: an array of the same size is copied into the one that is there, another one
    replaces it. *)
Definition dict_insert (k : K) (v : list V) (h : Dict) : res (bool * Dict) :=
  if len v =? 0 then Ok (true, h)
  else
    let! h := if needRehash h then rehash key_lt m_posHash h else Ok h in
    let! (pos, b) := bucket_of k h in
    match search k b with
    | None =>
        if node_size v <? 0 then Throw bad_array_new_length
        else Ok (true, put_bucket pos (SortLast Node_lt (b ++ [(k, v)])) (u64 (m_total h + 1)) h)
    | Some (i, n) =>
        let val := if node_size n.2 =? node_size v then v ++ drop (length v) n.2 else v in
        Ok (true, put_bucket pos (<[i := (n.1, val)]> b) (m_total h) h)
    end.

Definition dict_del (k : K) (h : Dict) : res (bool * Dict) :=
  let! (pos, b) := bucket_of k h in
  match search k b with
  | None => Ok (false, h)
  | Some (i, n) => Ok (true, put_bucket pos (drop_node key_lt i n b) (u64 (m_total h - 1)) h)
  end.

(** [foreach]: the callback that says no leaves its bucket only. *)
Fixpoint foreach_bucket {S} (cb : K -> list V -> S -> bool * S) (b : list Node) (s : S) : S :=
  match b with
  | [] => s
  | n :: b => let (go, s) := cb n.1 n.2 s in if go then foreach_bucket cb b s else s
  end.

Definition dict_foreach {S} (cb : K -> list V -> S -> bool * S) (h : Dict) (s : S) : S :=
  foldl (fun s b => foreach_bucket cb b s) s (default [] (m_datas h)).
End dict.

(** [getString] of a dictionary of [char]. *)
Definition getString {K} (key_lt : K -> K -> bool) (m_posHash : K -> Z) (k : K) (h : HashMap K (list byte)) : res (list byte) :=
  let! (_, b) := bucket_of m_posHash k h in
  match search key_lt k b with
  | None => Ok []
  | Some (_, n) => if node_size n.2 <? 0 then Throw length_error else Ok n.2
  end.

(** ** Strings under their hash *)

Module StringDict.
Section strings.
Context {host : Host}.

Abbreviation StringDict := (HashMap Z (list byte)).

(** [Murmur3Hash<uint64_t>]: the low half of the key. *)
Definition pos_hash (id : Z) : Z := u32 id.

(** [Dict<uint64_t, char> m_dict] with the default size of its constructor. *)
Definition new_StringDict : res StringDict := new_Dict 0.

Definition GetID_sized (str : option (list byte)) (size : Z) : res Z :=
  if size =? 0 then Ok 0 else murmur3_hash64 str size 1060627423 1050126127.

Definition GetID_string (str : list byte) : res Z :=
  if len str =? 0 then Ok 0 else murmur3_hash64 (Some (str ++ [x00])) (u32 (len str)) 1060627423 1050126127.

Definition GetID_ptr (str : option (list byte)) : res Z :=
  match str with
  | None => Ok 0
  | Some _ => murmur3_hash64_str str 1060627423 1050126127
  end.

(** [update] of a pointer and a size: [insert] copies as many bytes. *)
Definition update_sized (str : option (list byte)) (size : Z) (d : StringDict) : res (Z * StringDict) :=
  let! id := GetID_sized str size in
  if id =? 0 then Ok (0, d)
  else
    let! mem := deref str in
    if len mem <? size then Crash out_of_bounds
    else let! (_, d) := dict_insert Z.ltb pos_hash id (take (Z.to_nat size) mem) d in Ok (id, d).

Definition update (str : list byte) (d : StringDict) : res (Z * StringDict) :=
  update_sized (Some (str ++ [x00])) (u32 (len str)) d.

Definition update_ptr (str : option (list byte)) (d : StringDict) : res (Z * StringDict) :=
  let! id := GetID_ptr str in
  if id =? 0 then Ok (0, d)
  else
    let! mem := deref str in
    let! n := strlen mem in
    let! (_, d) := dict_insert Z.ltb pos_hash id (take (Z.to_nat (u32 n)) mem) d in Ok (id, d).

Definition get (id : Z) (d : StringDict) : res (list byte) := getString Z.ltb pos_hash id d.

Definition getRaw (id : Z) (duplicate : bool) (d : StringDict) : res (option (Z * list byte)) := dict_get Z.ltb pos_hash id duplicate d.

Definition foreach {S} (cb : Z -> list byte -> S -> bool * S) (d : StringDict) (s : S) : S := dict_foreach cb d s.

Definition getTotal (d : StringDict) : Z := m_total d.
End strings.
End StringDict.

(** * Theorems *)

Section dict.
Context {K V : Type} `{Countable K} (key_lt : K -> K -> bool) (hash : K -> Z) (KL : StrictOn (fun _ : K => True) key_lt).
Implicit Types (h : HashMap K (list V)) (m : gmap K (list V)).

(** A table of arrays that have an [int] as size. *)
Definition dict_view h m : Prop := view key_lt hash h m /\ forall k l, m !! k = Some l -> len l < 2 ^ 31.

Lemma node_size_len (l : list V) : len l < 2 ^ 31 -> node_size l = len l.
Proof. intros L. unfold node_size. apply sint_small; [done|]. unfold len in *. lia. Qed.

Lemma new_Dict_ok size : 0 < size < 2 ^ 31 -> exists h, new_Dict size = Ok h /\ dict_view h ∅.
Proof.
  intros L. destruct (new_HashMap_ok key_lt hash size L : exists h : HashMap K (list V), _) as (h & E & Vh). exists h. split; [done|].
  split; [done|]. intros k l. by rewrite lookup_empty.
Qed.

Lemma dict_get_ok h m k : dict_view h m -> m_total h < 2 ^ 31 ->
  (forall dup, dict_get key_lt hash k dup h = Ok ((fun l => (len l, l)) <$> m !! k)) /\
  (forall v, dict_get_vector key_lt hash k v h = Ok (match m !! k with Some l => (true, l) | None => (false, v) end)) /\
  dict_exists key_lt hash k h = Ok (bool_decide (is_Some (m !! k))).
Proof.
  intros [Vh Lm] L. destruct (table_case key_lt hash h m k Vh ltac:(lia)) as (pos & b & E & C).
  unfold dict_get, dict_get_vector, dict_exists. rewrite E. cbn [rbind]. destruct (search key_lt k b) as [[i n]|].
  - destruct C as (Em & _). pose proof (Lm k _ Em) as Ln. rewrite node_size_len by done. rewrite Em. unfold len in *.
    replace (Z.of_nat (length n.2) <? 0) with false by lia. split_and!; [|done|by rewrite bool_decide_eq_true_2].
    intros dup. rewrite andb_false_r, u64_small by lia. done.
  - destruct C as (Em & _). rewrite Em. split_and!; [done|done|]. by rewrite bool_decide_eq_false_2 by (intros []; done).
Qed.

Lemma dict_insert_ok h m k v : dict_view h m -> m_total h < 2 ^ 31 -> len v < 2 ^ 31 ->
  (v = [] -> dict_insert key_lt hash k v h = Ok (true, h)) /\
  (v <> [] -> exists h', dict_insert key_lt hash k v h = Ok (true, h') /\ dict_view h' (<[k := v]> m)).
Proof.
  intros [Vh Lm] L Lv. split; [by intros ->|]. intros N. unfold dict_insert.
  replace (len v =? 0) with false by (destruct v; [done|unfold len; cbn; lia]).
  destruct (rehash_ok key_lt hash h m Vh L) as (h1 & -> & V1 & Tot). cbn [rbind].
  assert (forall k' l, <[k := v]> m !! k' = Some l -> len l < 2 ^ 31) as Lm'.
  { intros k' l E. apply lookup_insert_Some in E as [[_ <-]|[_ E]]; [done|by eapply Lm]. }
  destruct (table_case key_lt hash h1 m k V1 ltac:(lia)) as (pos & b & -> & C). cbn [rbind]. destruct (search key_lt k b) as [[i n]|].
  - destruct C as (Em & En & C & _). pose proof (Lm k _ Em) as Ln. rewrite !node_size_len by done.
    assert ((if len n.2 =? len v then v ++ drop (length v) n.2 else v) = v) as ->.
    { destruct (Z.eqb_spec (len n.2) (len v)) as [E|]; [|done]. unfold len in E. rewrite drop_ge by lia. apply app_nil_r. }
    rewrite En. eexists. split; [done|]. split; [apply C|done].
  - destruct C as (Em & C). rewrite node_size_len by done. replace (len v <? 0) with false by (unfold len; lia).
    eexists. split; [done|]. split; [apply C|done].
Qed.

Lemma dict_del_ok h m k : dict_view h m -> m_total h < 2 ^ 31 ->
  exists h', dict_del key_lt hash k h = Ok (bool_decide (is_Some (m !! k)), h') /\ dict_view h' (delete k m).
Proof.
  intros [Vh Lm] L. unfold dict_del. destruct (table_case key_lt hash h m k Vh ltac:(lia)) as (pos & b & -> & C). cbn [rbind].
  assert (forall k' l, delete k m !! k' = Some l -> len l < 2 ^ 31) as Lm'.
  { intros k' l E. apply lookup_delete_Some in E as [_ E]. by eapply Lm. }
  destruct (search key_lt k b) as [[i n]|].
  - destruct C as (Em & _ & _ & C). rewrite Em, bool_decide_eq_true_2 by done. by eexists.
  - destruct C as (Em & _). rewrite Em, bool_decide_eq_false_2 by (intros []; done). exists h. split; [done|]. by rewrite delete_id in *.
Qed.
End dict.

Lemma getString_ok {K} `{Countable K} (key_lt : K -> K -> bool) (hash : K -> Z) (KL : StrictOn (fun _ : K => True) key_lt)
    (h : HashMap K (list byte)) m k : dict_view key_lt hash h m -> m_total h < 2 ^ 31 ->
  getString key_lt hash k h = Ok (default [] (m !! k)).
Proof.
  intros [Vh Lm] L. destruct (table_case key_lt hash h m k Vh ltac:(lia)) as (pos & b & E & C).
  unfold getString. rewrite E. cbn [rbind]. destruct (search key_lt k b) as [[i n]|].
  - destruct C as (Em & _). pose proof (Lm k _ Em) as Ln. rewrite node_size_len, Em by done.
    by replace (len n.2 <? 0) with false by (unfold len; lia).
  - destruct C as (Em & _). by rewrite Em.
Qed.

(** ** Strings *)

Section strings.
Context {host : Host}.
Import StringDict.

(** The identity of a string. *)
Definition string_id (s : list byte) : Z := if len s =? 0 then 0 else murmur3 s 1060627423 * 2 ^ 32 + murmur3 s 1050126127.

Lemma murmur3_hash64_ok s post seed seed2 : 0 <= seed < 2 ^ 32 -> 0 <= seed2 < 2 ^ 32 -> len s < 2 ^ 31 ->
  murmur3_hash64 (Some (s ++ post)) (len s) seed seed2 = Ok (murmur3 s seed * 2 ^ 32 + murmur3 s seed2).
Proof.
  intros S1 S2 L. assert (E : s32 (len s) = len s) by (apply sint_small; unfold len in *; lia).
  pose proof (murmur3_range s seed S1 L). pose proof (murmur3_range s seed2 S2 L).
  unfold murmur3_hash64, murmur3_hash. rewrite E, !murmur3_body_spec by done. cbn [rbind].
  rewrite u64_small by (rewrite Z.shiftl_mul_pow2; lia). rewrite Z.lor_comm, lor_shiftl_add by lia. f_equal. lia.
Qed.

Lemma string_id_range s : len s < 2 ^ 31 -> 0 <= string_id s < 2 ^ 64.
Proof.
  intros L. unfold string_id. destruct (len s =? 0); [lia|].
  pose proof (murmur3_range s 1060627423 ltac:(lia) L). pose proof (murmur3_range s 1050126127 ltac:(lia) L). lia.
Qed.

Lemma GetID_sized_ok s post : len s < 2 ^ 31 -> GetID_sized (Some (s ++ post)) (len s) = Ok (string_id s).
Proof.
  intros L. unfold GetID_sized, string_id. destruct (len s =? 0); [done|]. by apply murmur3_hash64_ok.
Qed.

Lemma GetID_ok s : len s < 2 ^ 31 -> GetID_string s = Ok (string_id s).
Proof.
  intros L. unfold GetID_string, string_id. rewrite u32_small by (unfold len in *; lia). destruct (len s =? 0); [done|]. by apply murmur3_hash64_ok.
Qed.

(** The map after a string has been given. *)
Definition told (m : gmap Z (list byte)) (s : list byte) : gmap Z (list byte) :=
  if string_id s =? 0 then m else <[string_id s := s]> m.

Abbreviation dview := (dict_view Z.ltb pos_hash).

#[local] Instance Z_strict : StrictOn (fun _ : Z => True) Z.ltb.
Proof. constructor; intros; lia. Qed.

Lemma update_ok d m s : dview d m -> m_total d < 2 ^ 31 -> len s < 2 ^ 31 ->
  exists d', update s d = Ok (string_id s, d') /\ dview d' (told m s).
Proof.
  intros Vd L Ls. unfold update, update_sized, told. rewrite u32_small by (unfold len in *; lia). rewrite GetID_sized_ok by done. cbn [rbind].
  destruct (Z.eqb_spec (string_id s) 0) as [E|N]; [rewrite E; by exists d|]. cbn [deref rbind].
  replace (len (s ++ [x00]) <? len s) with false by (unfold len; rewrite length_app; lia).
  replace (Z.to_nat (len s)) with (length s) by (unfold len; lia). rewrite take_app_length.
  destruct (dict_insert_ok Z.ltb pos_hash Z_strict d m (string_id s) s Vd L Ls) as [_ C].
  destruct C as (d' & -> & V'); [intros ->; by apply N|]. by exists d'.
Qed.

(** A sequence of calls of [update], with what they return. *)
Fixpoint updates (ss : list (list byte)) (d : HashMap Z (list byte)) : res (list Z * HashMap Z (list byte)) :=
  match ss with
  | [] => Ok ([], d)
  | s :: ss => let! (id, d) := update s d in let! (ids, d) := updates ss d in Ok (id :: ids, d)
  end.

Lemma told_size m s : (size (told m s) <= size m + 1)%nat.
Proof.
  unfold told. destruct (string_id s =? 0); [lia|]. destruct (m !! string_id s) eqn:E;
    [rewrite map_size_insert_Some by done; lia|rewrite map_size_insert_None by done; lia].
Qed.

Lemma updates_ok ss : forall d m, dview d m -> m_total d + len ss < 2 ^ 31 -> Forall (fun s => len s < 2 ^ 31) ss ->
  exists d', updates ss d = Ok (map string_id ss, d') /\ dview d' (foldl told m ss) /\ m_total d' <= m_total d + len ss.
Proof.
  induction ss as [|s ss IH]; intros d m Vd L F; cbn [updates map foldl].
  - exists d. split_and!; [done|done|unfold len; cbn; lia].
  - apply list.Forall_cons in F as [Ls F]. destruct (update_ok d m s Vd) as (d1 & -> & V1); [unfold len in L; lia|done|]. cbn [rbind].
    pose proof (told_size m s) as Sz. pose proof (view_size _ _ _ _ (proj1 V1)) as T1. pose proof (view_size _ _ _ _ (proj1 Vd)) as T0.
    unfold len in L |- *. cbn [length] in L |- *. destruct (IH d1 _ V1) as (d' & -> & V' & T'); [unfold len; lia|done|]. cbn [rbind].
    exists d'. split_and!; [done|done|unfold len in T'; lia].
Qed.

(** The last string with an identity. *)
Lemma told_last ss : forall m id, id <> 0 ->
  foldl told m ss !! id = match list.last (filter (fun s => string_id s = id) ss) with Some s => Some s | None => m !! id end.
Proof.
  induction ss as [|s ss IH] using rev_ind; intros m id N; [done|]. rewrite foldl_app, list.filter_app. cbn [foldl].
  unfold told at 1. destruct (decide (string_id s = id)) as [E|Ne].
  - rewrite filter_cons_True by done. rewrite E. replace (id =? 0) with false by lia. rewrite lookup_insert_eq. cbn. by rewrite last_snoc.
  - rewrite filter_cons_False by done. cbn. rewrite app_nil_r. destruct (string_id s =? 0); [by apply IH|].
    rewrite lookup_insert_ne by done. by apply IH.
Qed.

Lemma told_zero ss : forall m, foldl told m ss !! 0 = m !! 0.
Proof.
  induction ss as [|s ss IH]; intros m; [done|]. cbn [foldl]. rewrite IH. unfold told.
  destruct (Z.eqb_spec (string_id s) 0); [done|]. by rewrite lookup_insert_ne.
Qed.

Lemma last_in {A} (l : list A) (a : A) : a ∈ l -> exists b, list.last l = Some b /\ b ∈ l.
Proof.
  intros I. destruct (list.last l) as [b|] eqn:E; [|apply last_None in E as ->; by apply not_elem_of_nil in I].
  exists b. split; [done|]. apply last_Some in E as (l' & ->). apply elem_of_app. right. left.
Qed.

(** whatever strings a dictionary with buckets is given, each call returns the identity
    of its string, [get] of any number returns the last string that has it as identity and
    the empty string where there is none, and so every string whose identity no other one
    has is given back. No call fails, below 2^31 strings of less than 2^31 bytes. *)
Theorem StringDict_recalls (ss : list (list byte)) (d0 : HashMap Z (list byte)) (Vd : dict_view Z.ltb pos_hash d0 ∅)
    (L : len ss < 2 ^ 31 - 1) (F : Forall (fun s => len s < 2 ^ 31) ss) :
  exists d, updates ss d0 = Ok (map string_id ss, d) /\
  (forall id, get id d = Ok (if id =? 0 then [] else default [] (list.last (filter (fun s => string_id s = id) ss)))) /\
  (forall s, s ∈ ss -> (forall s', s' ∈ ss -> string_id s' = string_id s -> s' = s) -> (string_id s = 0 -> s = []) ->
    get (string_id s) d = Ok s) /\
  getTotal d <= len ss.
Proof.
  pose proof (view_size _ _ _ _ (proj1 Vd)) as T0. rewrite map_size_empty in T0.
  destruct (updates_ok ss d0 ∅ Vd ltac:(lia) F) as (d & E & V' & T'). exists d.
  assert (forall id, get id d = Ok (if id =? 0 then [] else default [] (list.last (filter (fun s => string_id s = id) ss)))) as G.
  { intros id. unfold get. rewrite (getString_ok _ _ Z_strict d _ _ V') by lia. destruct (Z.eqb_spec id 0) as [->|N].
    - by rewrite told_zero.
    - rewrite told_last by done. by destruct (list.last _). }
  split_and!; [done|done| |unfold getTotal; lia]. intros s I U Z. rewrite G. destruct (Z.eqb_spec (string_id s) 0) as [E0|N]; [by rewrite Z|].
  destruct (last_in (filter (fun s' => string_id s' = string_id s) ss) s) as (b & -> & Ib); [by apply list_elem_of_filter|].
  apply list_elem_of_filter in Ib as [Eb Ib]. by rewrite (U b).
Qed.

(** ** Witnesses *)

(** Two strings and the empty one. *)
Lemma StringDict_recalls_witness : exists d0 d, new_Dict 1 = Ok d0 /\
  updates [bstr "a"; []; bstr "b"] d0 = Ok (map string_id [bstr "a"; []; bstr "b"], d) /\ get 0 d = Ok [].
Proof.
  destruct (new_Dict_ok Z.ltb pos_hash 1 ltac:(lia) : exists d : HashMap Z (list byte), _) as (d0 & E0 & V0).
  destruct (StringDict_recalls [bstr "a"; []; bstr "b"] d0 V0 ltac:(vm_compute; congruence) ltac:(repeat constructor)) as (d & E & G & _).
  exists d0, d. split; [exact E0|]. split; [exact E|]. rewrite (G 0). reflexivity.
Defined.
End strings.

(** The dictionary that the constructor of [StringDict] asks for has no number of buckets,
    and a callback of [foreach] that says no is called again in the next bucket. *)
Example StringDict_default : StringDict.new_StringDict = Crash bad_shift.
Proof. reflexivity. Qed.

Example foreach_goes_on : dict_foreach (fun (k : Z) (v : list Z) ks => (false, ks ++ [k])) (mkHashMap 2 2 (Some [[(2, [5])]; [(1, [6])]])) [] = [2; 1].
Proof. reflexivity. Qed.

(** What [update] of a size does with a string that has zeros, [update] of a pointer cuts. *)
Example update_cuts `{Host} : exists s, StringDict.GetID_ptr (Some (s ++ [x00])) = StringDict.GetID_string (c_str s) /\ len (c_str s) < len s.
Proof. exists [x61; x00; x62]. split; reflexivity. Qed.
