(* ===== verification/SortedArray.v ===== *)
(** The array [CIM::ds::Array] (include/ds/array.hpp), which is kept in order by its
    [insert], and the prime numbers and random strings of src/ds/ds_util.cpp.

    [m_data] and [m_size] are a list and its length.

    The array in order is searched as a linear scan would and stays in order. *)
From stdpp Require Import gmap sorting.
From S2P Require Import Prelude OrderedSet HashMap HashMapSpec.

Section array.
Context {T : Type} (lt : T -> T -> bool) (zero : T).
Implicit Types (m_data : list T) (v : T).

(** [Array(size)]: [calloc]; the copying constructor: [memcpy]. *)
Definition new_Array (size : Z) : list T := replicate (Z.to_nat size) zero.
Definition copy_Array (data : list T) (size : Z) : res (list T) :=
  if len data <? size then Crash out_of_bounds else Ok (take (Z.to_nat size) data).

(** [at], [operator[]] and [get]; [set]. *)
Definition at_ (idx : Z) m_data : res T :=
  if 0 <=? idx then match m_data !! Z.to_nat idx with Some v => Ok v | None => Crash out_of_bounds end else Crash out_of_bounds.
Definition set (idx : Z) v m_data : res (list T) :=
  if (0 <=? idx) && (idx <? len m_data) then Ok (<[Z.to_nat idx := v]> m_data) else Crash out_of_bounds.

(** The loop of [isSorted] from [i] on. *)
Fixpoint isSorted_loop (n : nat) (i : Z) m_data : res bool :=
  match n with
  | O => Ok true
  | S n =>
      if i =? len m_data - 1 then Ok true
      else
        let! y := at_ (i + 1) m_data in
        let! x := at_ i m_data in
        if negb (lt y x) then isSorted_loop n (i + 1) m_data else Ok false
  end.
Definition isSorted m_data : res bool := isSorted_loop (length m_data) 0 m_data.

Definition sort_array m_data : list T := sort lt m_data.

(** The binary search: the place of an equivalent element, or [-place - 1] of where one
    goes. Each turn leaves less between [begin] and [end]. *)
Fixpoint exists_loop (fuel : nat) v m_data (begin last : Z) : res Z :=
  match fuel with
  | O => Crash nontermination
  | S fuel =>
      if begin <=? last then
        let m := Z.quot (begin + last) 2 in
        let! x := at_ m m_data in
        if lt v x then exists_loop fuel v m_data begin (m - 1)
        else if lt x v then exists_loop fuel v m_data (m + 1) last
        else Ok m
      else Ok (- begin - 1)
  end.
Definition exists_at v m_data : res Z := exists_loop (S (length m_data)) v m_data 0 (len m_data - 1).

(** With a comparator, [end == m - 1;] is a comparison and [end] stays: a turn that comes
    there is repeated for ever. The others raise [begin], at most as often as there are
    elements. *)
Fixpoint exists_cmp_loop (fuel : nat) v m_data (begin last : Z) : res Z :=
  match fuel with
  | O => Crash nontermination
  | S fuel =>
      if begin <=? last then
        let m := Z.quot (begin + last) 2 in
        let! x := at_ m m_data in
        if lt v x then exists_cmp_loop fuel v m_data begin last
        else if lt x v then exists_cmp_loop fuel v m_data (m + 1) last
        else Ok m
      else Ok (- begin - 1)
  end.
Definition exists_cmp v m_data : res Z := exists_cmp_loop (S (length m_data)) v m_data 0 (len m_data - 1).

(** [realloc], [memmove] of what is at the place and behind, the element. *)
Definition insert_at (idx : Z) v m_data : res (bool * list T) :=
  let idx := - idx - 1 in
  if (0 <=? idx) && (idx <=? len m_data)
  then Ok (true, take (Z.to_nat idx) m_data ++ v :: drop (Z.to_nat idx) m_data)
  else Crash out_of_bounds.

(** What both forms of [insert] do with the place that their search gives. *)
Definition insert_found (search : T -> list T -> res Z) v m_data : res (bool * list T) :=
  let! idx := search v m_data in
  if 0 <=? idx then let! m_data := set idx v m_data in Ok (false, m_data) else insert_at idx v m_data.

Definition insert v m_data : res (bool * list T) := insert_found exists_at v m_data.
Definition insert_cmp v m_data : res (bool * list T) := insert_found exists_cmp v m_data.

Definition erase (idx : Z) m_data : res (bool * list T) :=
  if (0 <=? idx) && (idx <? len m_data) then Ok (true, delete (Z.to_nat idx) m_data) else Crash out_of_bounds.

Definition append v m_data : list T := m_data ++ [v].
End array.

(** ** [PrimeGenerator] *)

Module Primes.
Definition s_prime_size : Z := 1250.

Definition s_prime_list : list Z := [
  103; 211; 313; 419; 521; 631; 733; 839; 941; 1049; 1151; 1259; 1361; 1471; 1579; 1693; 1801; 1907; 2011; 2113;
  2221; 2333; 2437; 2539; 2647; 2749; 2851; 2953; 3061; 3163; 3271; 3373; 3491; 3593; 3697; 3803; 3907; 4013;
  4127; 4229; 4337; 4441; 4547; 4649; 4751; 4861; 4967; 5077; 5179; 5281; 5387; 5501; 5623; 5737; 5839; 5953;
  6067; 6173; 6277; 6379; 6481; 6599; 6701; 6803; 6907; 7013; 7121; 7229; 7331; 7433; 7537; 7639; 7741; 7853;
  7963; 8069; 8171; 8273; 8377; 8501; 8609; 8713; 8819; 8923; 9029; 9133; 9239; 9341; 9461; 9587; 9689; 9791;
  9901; 10007; 10111; 10223; 10331; 10453; 10559; 10667; 10781; 10889; 11003; 11117; 11239; 11353; 11467; 11587;
  11717; 11839; 11959; 12097; 12227; 12373; 12497; 12637; 12781; 12911; 13043; 13177; 13309; 13451; 13591;
  13729; 13873; 14029; 14173; 14321; 14479; 14627; 14779; 14929; 15083; 15241; 15401; 15559; 15727; 15887;
  16057; 16223; 16411; 16603; 16787; 16963; 17137; 17317; 17491; 17669; 17851; 18041; 18223; 18413; 18617;
  18839; 19031; 19231; 19427; 19661; 19861; 20063; 20269; 20477; 20693; 20903; 21121; 21341; 21557; 21773;
  21991; 22229; 22453; 22679; 22907; 23143; 23399; 23633; 23873; 24113; 24359; 24611; 24859; 25111; 25367;
  25621; 25889; 26153; 26417; 26683; 26951; 27239; 27527; 27803; 28087; 28387; 28687; 28979; 29269; 29567;
  29863; 30169; 30491; 30803; 31121; 31469; 31793; 32117; 32441; 32771; 33107; 33457; 33797; 34141; 34483;
  34841; 35201; 35569; 35933; 36293; 36671; 37039; 37423; 37799; 38177; 38561; 38953; 39343; 39749; 40151;
  40559; 40973; 41387; 41801; 42221; 42649; 43093; 43541; 43987; 44449; 44909; 45361; 45817; 46279; 46747;
  47221; 47699; 48179; 48661; 49157; 49663; 50177; 50683; 51193; 51713; 52237; 52769; 53299; 53849; 54401;
  54949; 55501; 56081; 56659; 57241; 57829; 58411; 58997; 59611; 60209; 60821; 61441; 62057; 62683; 63311;
  63949; 64591; 65239; 65899; 66569; 67247; 67927; 68611; 69313; 70009; 70717; 71429; 72161; 72883; 73613;
  74353; 75109; 75869; 76631; 77417; 78193; 78977; 79769; 80567; 81373; 82189; 83023; 83857; 84697; 85549;
  86413; 87281; 88169; 89051; 89959; 90863; 91781; 92699; 93629; 94573; 95527; 96487; 97453; 98429; 99431;
  100447; 101467; 102497; 103529; 104579; 105649; 106721; 107791; 108869; 109961; 111091; 112207; 113341;
  114479; 115631; 116789; 117959; 119159; 120371; 121577; 122819; 124067; 125311; 126583; 127849; 129169;
  130469; 131777; 133097; 134437; 135787; 137147; 138547; 139939; 141353; 142771; 144203; 145661; 147137;
  148609; 150097; 151603; 153133; 154667; 156217; 157793; 159389; 160997; 162611; 164239; 165883; 167543;
  169219; 170921; 172633; 174367; 176123; 177887; 179671; 181499; 183317; 185153; 187009; 188891; 190783;
  192697; 194647; 196597; 198571; 200569; 202577; 204613; 206699; 208787; 210901; 213019; 215153; 217307;
  219491; 221707; 223939; 226183; 228451; 230743; 233069; 235439; 237821; 240203; 242617; 245071; 247529;
  250007; 252509; 255043; 257611; 260189; 262807; 265451; 268123; 270821; 273551; 276293; 279073; 281867;
  284689; 287537; 290419; 293329; 296269; 299239; 302261; 305297; 308359; 311447; 314569; 317717; 320899;
  324113; 327401; 330679; 333989; 337339; 340723; 344153; 347609; 351097; 354619; 358181; 361763; 365411;
  369067; 372763; 376501; 380267; 384079; 387953; 391847; 395767; 399727; 403729; 407783; 411883; 416011;
  420191; 424397; 428657; 432959; 437293; 441667; 446087; 450557; 455093; 459647; 464251; 468899; 473597;
  478339; 483127; 487973; 492853; 497801; 502781; 507809; 512891; 518047; 523261; 528509; 533801; 539141;
  544543; 550007; 555521; 561079; 566693; 572387; 578117; 583903; 589751; 595687; 601651; 607669; 613747;
  619897; 626113; 632381; 638717; 645131; 651587; 658111; 664693; 671353; 678077; 684869; 691721; 698641;
  705631; 712693; 719821; 727021; 734303; 741661; 749081; 756593; 764171; 771853; 779573; 787427; 795307;
  803269; 811337; 819457; 827677; 835957; 844321; 852769; 861299; 869927; 878629; 887423; 896299; 905269;
  914327; 923471; 932749; 942079; 951553; 961069; 970687; 980401; 990211; 1000117; 1010129; 1020233; 1030439;
  1040747; 1051157; 1061677; 1072301; 1083031; 1093871; 1104811; 1115879; 1127039; 1138363; 1149749; 1161263;
  1172893; 1184653; 1196501; 1208507; 1220599; 1232809; 1245149; 1257611; 1270193; 1282903; 1295737; 1308707;
  1321813; 1335043; 1348409; 1361903; 1375531; 1389301; 1403239; 1417279; 1431461; 1445797; 1460267; 1474873;
  1489627; 1504537; 1519591; 1534787; 1550141; 1565651; 1581311; 1597129; 1613123; 1629259; 1645559; 1662029;
  1678657; 1695457; 1712437; 1729591; 1746893; 1764377; 1782043; 1799867; 1817873; 1836053; 1854439; 1873013;
  1891753; 1910677; 1929793; 1949111; 1968611; 1988299; 2008189; 2028277; 2048569; 2069069; 2089781; 2110679;
  2131793; 2153111; 2174647; 2196401; 2218367; 2240551; 2262959; 2285597; 2308463; 2331557; 2354873; 2378423;
  2402209; 2426233; 2450531; 2475061; 2499821; 2524859; 2550133; 2575663; 2601437; 2627473; 2653753; 2680297;
  2707109; 2734181; 2761529; 2789161; 2817077; 2845279; 2873743; 2902483; 2931527; 2960861; 2990497; 3020431;
  3050681; 3081203; 3112069; 3143197; 3174641; 3206393; 3238463; 3270863; 3303607; 3336649; 3370043; 3403783;
  3437827; 3472211; 3506939; 3542009; 3577459; 3613237; 3649397; 3685949; 3722809; 3760039; 3797641; 3835621;
  3873983; 3912749; 3951881; 3991441; 4031369; 4071701; 4112431; 4153561; 4195117; 4237069; 4279453; 4322287;
  4365511; 4409183; 4453291; 4497839; 4542829; 4588271; 4634173; 4680527; 4727339; 4774613; 4822361; 4870589;
  4919323; 4968517; 5018203; 5068411; 5119097; 5170289; 5222011; 5274257; 5327017; 5380303; 5434109; 5488459;
  5543387; 5598823; 5654813; 5711399; 5768513; 5826251; 5884523; 5943373; 6002849; 6062891; 6123563; 6184799;
  6246671; 6309143; 6372253; 6435983; 6500369; 6565379; 6631033; 6697357; 6764333; 6831991; 6900337; 6969343;
  7039093; 7109497; 7180597; 7252409; 7324939; 7398191; 7472177; 7546901; 7622371; 7698619; 7775623; 7853383;
  7931921; 8011247; 8091361; 8172293; 8254019; 8336569; 8419967; 8504183; 8589241; 8675137; 8761889; 8849521;
  8938019; 9027407; 9117697; 9208879; 9300983; 9394001; 9487949; 9582829; 9678667; 9775457; 9873223; 9971957;
  10071679; 10172399; 10274129; 10376881; 10480661; 10585483; 10691353; 10798267; 10906253; 11015339; 11125547;
  11236831; 11349203; 11462699; 11577329; 11693111; 11810059; 11928173; 12047473; 12167951; 12289631; 12412541;
  12536669; 12662047; 12788669; 12916559; 13045729; 13176187; 13307951; 13441031; 13575449; 13711249; 13848379;
  13986887; 14126767; 14268043; 14410729; 14554847; 14700401; 14847433; 14995913; 15145909; 15297371; 15450353;
  15604867; 15760931; 15918541; 16077727; 16238507; 16400927; 16564963; 16730617; 16897963; 17066981; 17237651;
  17410039; 17584141; 17759983; 17937583; 18116963; 18298139; 18481157; 18665981; 18852641; 19041203; 19231627;
  19423951; 19618199; 19814381; 20012543; 20212691; 20414819; 20618981; 20825177; 21033433; 21243769; 21456221;
  21670787; 21887507; 22106387; 22327463; 22550743; 22776251; 23004017; 23234077; 23466419; 23701103; 23938133;
  24177523; 24419341; 24663557; 24910211; 25159333; 25410943; 25665071; 25921723; 26180953; 26442817; 26707249;
  26974397; 27244141; 27516607; 27791833; 28069757; 28350521; 28634027; 28920371; 29209601; 29501723; 29796743;
  30094717; 30395669; 30699629; 31006627; 31316699; 31629883; 31946209; 32265683; 32588351; 32914237; 33243383;
  33575827; 33911587; 34250717; 34593227; 34939169; 35288569; 35641477; 35997893; 36357877; 36721483; 37088729;
  37459649; 37834253; 38212607; 38594741; 38980691; 39370501; 39764237; 40161881; 40563517; 40969171; 41378873;
  41792669; 42210601; 42632729; 43059067; 43489679; 43924579; 44363861; 44807507; 45255593; 45708149; 46165241;
  46626917; 47093219; 47564177; 48039839; 48520247; 49005457; 49495553; 49990511; 50490449; 50995363; 51505319;
  52020377; 52540589; 53066011; 53596703; 54132703; 54674041; 55220791; 55773017; 56330767; 56894077; 57463031;
  58037669; 58618067; 59204269; 59796353; 60394333; 60998293; 61608299; 62224391; 62846669; 63475177; 64109939;
  64751041; 65398577; 66052577; 66713107; 67380259; 68054087; 68734667; 69422069; 70116301; 70817477; 71525677;
  72240947; 72963377; 73693019; 74429951; 75174257; 75926027; 76685321; 77452181; 78226711; 79008983; 79799081;
  80597087; 81403061; 82217143; 83039323; 83869733; 84708431; 85555523; 86411093; 87275207; 88147967; 89029471;
  89919769; 90818983; 91727173; 92644457; 93570943; 94506653; 95451721; 96406253; 97370327; 98344033; 99327479;
  100320793; 101324009; 102337289; 103360679; 104394289; 105438247; 106492667; 107557601; 108633193; 109719529;
  110816731; 111924899; 113044157; 114174611; 115316359; 116469527; 117634241; 118810597; 119998717; 121198709;
  122410697; 123634813; 124871167; 126119897; 127381123; 128654983; 129941543; 131240983; 132553397; 133878937;
  135217727; 136569913; 137935613; 139314977; 140708131; 142115249; 143536409; 144971789; 146421521; 147885739;
  149364623; 150858283; 152366933; 153890609; 155429537; 156983839; 158553779; 160139327; 161740721; 163358141;
  164991767; 166641703; 168308123; 169991219; 171691139; 173408083; 175142173; 176893597; 178662541; 180449167;
  182253689; 184076227; 185917003; 187776179; 189653983; 191550563; 193466089; 195400763; 197354791; 199328341;
  201321689; 203334907; 205368257; 207421957; 209496179; 211591141; 213707057; 215844149; 218002619; 220182731;
  222384563; 224608427; 226854557; 229123117; 231414371; 233728543; 236065831; 238426501; 240810767; 243218891;
  245651101; 248107619; 250588697; 253094593; 255625543; 258181811; 260763631; 263371271; 266004989; 268665041;
  271351699; 274065221; 276805901; 279573971; 282369719; 285193427; 288045389; 290925863; 293835131; 296773507;
  299741243; 302738659; 305766079; 308823743; 311912059; 315031181; 318181511; 321363331; 324576991; 327822763;
  331100999; 334412011; 337756163; 341133761; 344545121; 347990579; 351470489; 354985217; 358535081; 362120471;
  365741683; 369399101; 373093093; 376824043; 380592307; 384398239; 388242223; 392124701; 396045961; 400006421;
  404006503; 408046571; 412127047; 416248369; 420410917; 424615027; 428861183; 433149809; 437481337; 441856157;
  446274721; 450737471; 455244899; 459797357; 464395333; 469039297; 473729699; 478467019; 483251693; 488084221;
  492965087; 497894741; 502873729; 507902513; 512981549; 518111381; 523292519; 528525457; 533810723; 539148859;
  544540357; 549985763; 555485629; 561040489; 566650897; 572317423; 578040611; 583821061; 589659283; 595555879;
  601511447; 607526593; 613601887; 619737931; 625935311; 632194711; 638516677; 644901871; 651350897; 657864407;
  664443061; 671087519; 677798413; 684576463; 691422229; 698336461; 705319859; 712373119; 719496851; 726691897;
  733958831; 741298423; 748711423; 756198571; 763760593; 771398213; 779112197; 786903353; 794772437; 802720187;
  810747389; 818854867; 827043433; 835313873; 843667021; 852103741; 860624797; 869231081; 877923421; 886702679;
  895569739; 904525441; 913570717; 922706429; 931933511; 941252849; 950665379; 960172033; 969773767; 979471513;
  989266231; 999158921; 1009150517; 1019242027; 1029434479; 1039728829; 1050126127; 1060627423; 1071233701].

(** [m_cur], as an index; that of [s_prime_end] is [s_prime_size]. *)
Definition PrimeGenerator : Z := 0.

Definition value_at (m_cur : Z) : res Z := at_ m_cur s_prime_list.

Definition getIndex (m_cur : Z) : Z := u32 m_cur.
Definition setIndex (idx : Z) : Z := idx.

(** [upperValue], with the new [m_cur]. *)
Definition upperValue (v skip : Z) : res (Z * Z) :=
  let m_cur := Z.of_nat (lower_bound (fun p => p <=? v) s_prime_list) in
  let m_cur :=
    if m_cur =? s_prime_size then s_prime_size - 1
    else if s_prime_size <=? m_cur + skip then s_prime_size - 1 else m_cur + skip in
  let! p := value_at m_cur in Ok (p, m_cur).

Definition getValue (m_cur : Z) : res Z := if m_cur =? s_prime_size then Ok 0 else value_at m_cur.

Definition nextValue (m_cur : Z) : res (Z * Z) :=
  if m_cur =? s_prime_size then Ok (0, m_cur)
  else if m_cur + 1 =? s_prime_size then Ok (0, m_cur + 1)
  else let! p := value_at (m_cur + 1) in Ok (p, m_cur + 1).

Definition prevValue (m_cur : Z) : res (Z * Z) :=
  if m_cur =? 0 then Ok (0, m_cur) else let! p := value_at (m_cur - 1) in Ok (p, m_cur - 1).

Definition hasNext (m_cur : Z) : bool := negb (m_cur =? s_prime_size).
Definition hasNext_dist (dist m_cur : Z) : bool := m_cur + dist <? s_prime_size.
Definition hasPrev (m_cur : Z) : bool := negb (m_cur =? 0).
End Primes.

(** ** [RandomStringGenerator] *)

Definition TEXT : list byte := bstr "abcdefghijklmnopqrstuvwxyzABCDEFGHIJKLMNOPQRSTUVWXYZ0123456789".

(** [Gen]: [rand] is what the calls of [rand()] return, the first ones first. *)
Fixpoint Gen (size : nat) (rand : nat -> Z) : res (list byte) :=
  match size with
  | O => Ok []
  | S size =>
      let! c := at_ (u32 (rand O) mod len TEXT) TEXT in
      let! rt := Gen size (fun i => rand (S i)) in Ok (c :: rt)
  end.

(** * Theorems *)

Section array.
Context {T : Type} `{EqDecision T} (lt : T -> T -> bool).
Implicit Types (l : list T) (v x y : T).

Lemma at_ok l i : (i < length l)%nat -> exists x, at_ (Z.of_nat i) l = Ok x /\ l !! i = Some x.
Proof.
  intros L. destruct (lookup_lt_is_Some_2 l i L) as [x E]. exists x. unfold at_. rewrite Nat2Z.id, E.
  by replace (0 <=? Z.of_nat i) with true by lia.
Qed.

Lemma array_set_ok l i v : (i < length l)%nat -> set (Z.of_nat i) v l = Ok (<[i := v]> l).
Proof. intros L. unfold set. rewrite Nat2Z.id. unfold len. by replace ((0 <=? Z.of_nat i) && (Z.of_nat i <? Z.of_nat (length l))) with true by lia. Qed.

Lemma insert_at_ok l1 l2 v : insert_at (- Z.of_nat (length l1) - 1) v (l1 ++ l2) = Ok (true, l1 ++ v :: l2).
Proof.
  unfold insert_at. replace (- (- Z.of_nat (length l1) - 1) - 1) with (Z.of_nat (length l1)) by lia. rewrite Nat2Z.id. unfold len.
  rewrite length_app. replace ((0 <=? _) && (_ <=? _)) with true by lia. by rewrite take_app_length, drop_app_length.
Qed.

Lemma erase_ok l1 v l2 : erase (Z.of_nat (length l1)) (l1 ++ v :: l2) = Ok (true, l1 ++ l2).
Proof.
  unfold erase, len. rewrite Nat2Z.id, length_app. cbn [length]. replace ((0 <=? _) && (_ <? _)) with true by lia. by rewrite delete_middle.
Qed.

(** [isSorted]: no element is below the one before it. *)
Definition ascending (i : nat) l : Prop := forall j x y, (i <= j)%nat -> l !! j = Some x -> l !! S j = Some y -> lt y x = false.

Lemma isSorted_loop_ok n : forall i l, (i + n = length l)%nat ->
  exists b, isSorted_loop lt n (Z.of_nat i) l = Ok b /\ (b = true <-> ascending i l).
Proof.
  induction n as [|n IH]; intros i l E; cbn [isSorted_loop].
  - exists true. split; [done|]. split; [|done]. intros _ j x y Lj Ex. apply lookup_lt_Some in Ex. lia.
  - unfold len. destruct (Z.eqb_spec (Z.of_nat i) (Z.of_nat (length l) - 1)) as [El|Ne].
    + exists true. split; [done|]. split; [|done]. intros _ j x y Lj Ex Ey. apply lookup_lt_Some in Ey. lia.
    + replace (Z.of_nat i + 1) with (Z.of_nat (S i)) by lia.
      destruct (at_ok l (S i)) as (y & -> & Ey); [lia|]. destruct (at_ok l i) as (x & -> & Ex); [lia|]. cbn [rbind].
      destruct (lt y x) eqn:Lt; cbn [negb].
      * exists false. split; [done|]. split; [done|]. intros F. by rewrite (F i x y (le_n _) Ex Ey) in Lt.
      * destruct (IH (S i) l ltac:(lia)) as (b & -> & B). exists b. split; [done|]. rewrite B. split; intros F j x' y' Lj Ex' Ey'.
        -- destruct (decide (j = i)) as [->|]; [congruence|]. apply (F j); [lia|done|done].
        -- apply (F j); [lia|done|done].
Qed.

Context (LT : StrictOn (fun _ : T => True) lt).

Lemma ascending_order l : in_order lt l <-> ascending 0 l /\ NoDup l.
Proof.
  split.
  - intros O. split; [|by apply (in_order_NoDup (fun _ => True) lt)]. intros j x y _ Ex Ey.
    rewrite <- (take_drop_middle l (S j) y Ey) in O. apply in_order_app in O as (_ & _ & B).
    assert (lt x y = true) as L by (apply B; [apply (list_elem_of_lookup_2 _ j); by rewrite lookup_take_lt by lia|left]).
    destruct (lt y x) eqn:L'; [|done]. by rewrite <- (strict_irrefl (P := fun _ => True) (lt := lt) x), (strict_trans (P := fun _ => True) (lt := lt) x y x).
  - intros [A N]. induction l as [|x l IH]; [constructor|]. apply list.NoDup_cons in N as [Nx N].
    assert (in_order lt l) as O by (apply IH; [intros j a b Lj Ea Eb; by apply (A (S j) a b); [lia|..]|done]).
    apply in_order_cons. split; [done|]. destruct l as [|y l]; [by intros b ?%not_elem_of_nil|].
    assert (lt x y = true) as L.
    { apply (strict_total (P := fun _ => True) y x); [done|done| |by apply (A 0%nat x y)]. intros ->. apply Nx. left. }
    apply in_order_cons in O as [_ O]. intros b I. apply elem_of_cons in I as [->|I]; [done|].
    apply (strict_trans (P := fun _ => True) x y b); [done..|by apply O].
Qed.

(** ** The search *)

(** The answer of a linear scan: where the element is, or where it would be. *)
Definition linear_scan v l : Z :=
  let p := lower_bound (fun b => lt b v) l in
  match l !! p with
  | Some b => if lt v b then - Z.of_nat p - 1 else Z.of_nat p
  | None => - Z.of_nat p - 1
  end.

Lemma linear_scan_in v l1 l2 : in_order lt (l1 ++ v :: l2) -> linear_scan v (l1 ++ v :: l2) = Z.of_nat (length l1).
Proof.
  intros O. unfold linear_scan. destruct (lower_bound_in (fun _ => True) lt v l1 l2) as [-> I]; [done|done|].
  by rewrite list_lookup_middle, I.
Qed.

Lemma scan_between v l1 l2 : (forall x, x ∈ l1 -> lt x v = true) -> (forall x, x ∈ l2 -> lt v x = true) ->
  linear_scan v (l1 ++ l2) = - Z.of_nat (length l1) - 1.
Proof.
  intros B1 B2. unfold linear_scan. assert (E : lower_bound (fun b => lt b v) (l1 ++ l2) = length l1).
  { apply lower_bound_app; [done|]. intros x Ex. assert (lt v x = true) as L by (apply B2; destruct l2; [done|injection Ex as ->; left]).
    destruct (lt x v) eqn:L'; [|done]. by rewrite <- (strict_irrefl (P := fun _ => True) (lt := lt) v), (strict_trans (P := fun _ => True) (lt := lt) v x v). }
  rewrite E, lookup_app_r, Nat.sub_diag by lia. destruct l2 as [|x l2]; [done|]. cbn. by rewrite B2 by left.
Qed.

Lemma lt_eq v x : lt v x = false -> lt x v = false -> x = v.
Proof.
  intros Lv Lx. destruct (decide (x = v)) as [|N]; [done|]. by rewrite (strict_total (P := fun _ => True) v x) in Lx.
Qed.

(** What a turn leaves: the elements before [begin] are below, those behind [last] above. *)
Definition narrowed v l (begin last : Z) : Prop :=
  0 <= begin /\ last < len l /\ begin <= last + 1 /\
  (forall x, x ∈ take (Z.to_nat begin) l -> lt x v = true) /\ (forall x, x ∈ drop (Z.to_nat (last + 1)) l -> lt v x = true).

Lemma narrow_case v l begin last : in_order lt l -> narrowed v l begin last ->
  if begin <=? last then
    let m := Z.quot (begin + last) 2 in exists x, at_ m l = Ok x /\ begin <= m <= last /\
      (lt v x = true -> narrowed v l begin (m - 1)) /\ (lt x v = true -> narrowed v l (m + 1) last) /\
      (lt v x = false -> lt x v = false -> linear_scan v l = m)
  else linear_scan v l = - begin - 1.
Proof.
  intros O (L0 & L1 & L2 & B1 & B2). destruct (Z.leb_spec begin last) as [L|L].
  - cbv zeta. rewrite Z.quot_div_nonneg by lia. set (m := (begin + last) / 2).
    assert (begin <= m <= last) as Lm by (unfold m; split; [apply Z.div_le_lower_bound; lia|apply Z.div_le_upper_bound; lia]).
    destruct (at_ok l (Z.to_nat m)) as (x & Ex & Em); [unfold len in L1; lia|]. rewrite Z2Nat.id in Ex by lia. exists x.
    pose proof (take_drop_middle l (Z.to_nat m) x Em) as El. pose proof O as O'. rewrite <- El in O'. apply in_order_app in O' as (_ & O2 & O3).
    apply in_order_cons in O2 as [_ O2]. split_and!; [done|lia|lia| | |].
    + intros Lv. split_and!; [done|lia|lia|done|]. intros y I. replace (Z.to_nat (m - 1 + 1)) with (Z.to_nat m) in I by lia.
      rewrite (drop_S _ _ _ Em) in I. apply elem_of_cons in I as [->|I]; [done|]. apply (strict_trans (P := fun _ => True) v x y); auto.
    + intros Lv. split_and!; [lia|lia|lia| |done]. intros y I. replace (Z.to_nat (m + 1)) with (S (Z.to_nat m)) in I by lia.
      rewrite (take_S_r _ _ _ Em) in I. apply elem_of_app in I as [I|I]; [|by apply list_elem_of_singleton in I as ->].
      apply (strict_trans (P := fun _ => True) y x v); [done..| |done]. apply O3; [done|left].
    + intros Lv Lx. assert (x = v) as ->.
      { apply (lt_eq v x); done. }
      rewrite <- El. rewrite linear_scan_in by (by rewrite El). rewrite length_take. apply lookup_lt_Some in Em. lia.
  - assert (last = begin - 1) as -> by lia. replace (begin - 1 + 1) with begin in B2 by lia.
    rewrite <- (take_drop (Z.to_nat begin) l), (scan_between v) by done. rewrite length_take. unfold len in L1. lia.
Qed.

Lemma exists_loop_ok fuel : forall v l begin last, in_order lt l -> narrowed v l begin last -> last - begin + 1 < Z.of_nat fuel ->
  exists_loop lt fuel v l begin last = Ok (linear_scan v l).
Proof.
  induction fuel as [|fuel IH]; intros v l begin last O N L; [destruct N; lia|]. cbn [exists_loop]. pose proof (narrow_case v l begin last O N) as C.
  destruct (begin <=? last); [|by rewrite C]. cbv zeta in *. destruct C as (x & -> & Lm & C1 & C2 & C3). cbn [rbind].
  destruct (lt v x); [apply IH; [done|by apply C1|lia]|]. destruct (lt x v); [apply IH; [done|by apply C2|lia]|]. by rewrite C3.
Qed.

Lemma whole v l : narrowed v l 0 (len l - 1).
Proof.
  split_and!; [done|lia|unfold len; lia| |].
  - intros x I. by apply not_elem_of_nil in I.
  - rewrite drop_ge by (unfold len; lia). intros x I. by apply not_elem_of_nil in I.
Qed.

Lemma exists_ok v l : in_order lt l -> exists_at lt v l = Ok (linear_scan v l).
Proof. intros O. apply exists_loop_ok; [done|apply whole|unfold len; lia]. Qed.

(** With a comparator: the same answer, or none however long it runs. *)
Lemma exists_cmp_loop_ok fuel : forall v l begin last, in_order lt l -> narrowed v l begin last -> last - begin + 1 < Z.of_nat fuel ->
  exists_cmp_loop lt fuel v l begin last = Ok (linear_scan v l) \/
  (exists x, x ∈ l /\ lt v x = true) /\ forall fuel', exists_cmp_loop lt fuel' v l begin last = Crash nontermination.
Proof.
  induction fuel as [|fuel IH]; intros v l begin last O N L; [destruct N; lia|]. pose proof (narrow_case v l begin last O N) as C.
  cbn [exists_cmp_loop]. destruct (begin <=? last) eqn:Eb; [|left; by rewrite C]. cbv zeta in *. destruct C as (x & Ex & Lm & _ & C2 & C3).
  rewrite Ex. cbn [rbind]. destruct (lt v x) eqn:Lv.
  - right. split.
    + exists x. split; [|done]. unfold at_ in Ex. destruct (0 <=? _); [|done]. destruct (l !! _) as [y|] eqn:Ey; [|done].
      injection Ex as ->. by eapply list_elem_of_lookup_2.
    + intros fuel'. induction fuel' as [|fuel' IHf]; [done|]. cbn [exists_cmp_loop]. by rewrite Eb, Ex; cbn [rbind]; rewrite Lv.
  - destruct (lt x v) eqn:Lx; [|left; by rewrite C3].
    destruct (IH v l (Z.quot (begin + last) 2 + 1) last O (C2 eq_refl) ltac:(lia)) as [E|[W E]]; [by left|right]. split; [done|].
    intros [|fuel']; [done|]. cbn [exists_cmp_loop]. by rewrite Eb, Ex; cbn [rbind]; rewrite Lv, Lx.
Qed.

Lemma exists_cmp_ok v l : in_order lt l -> exists_cmp lt v l = Ok (linear_scan v l) \/
  (exists x, x ∈ l /\ lt v x = true) /\ forall fuel, exists_cmp_loop lt fuel v l 0 (len l - 1) = Crash nontermination.
Proof. intros O. apply exists_cmp_loop_ok; [done|apply whole|unfold len; lia]. Qed.

(** ** Insertion and removal *)

Lemma insert_ok v l search : in_order lt l -> search v l = Ok (linear_scan v l) ->
  (v ∈ l -> insert_found search v l = Ok (false, l)) /\
  (v ∉ l -> exists l', insert_found search v l = Ok (true, l') /\ in_order lt l' /\ l' ≡ₚ v :: l).
Proof.
  intros O E. unfold insert_found. rewrite E. cbn [rbind]. split.
  - intros I. apply list_elem_of_split in I as (l1 & l2 & ->). rewrite linear_scan_in by done. replace (0 <=? _) with true by lia.
    rewrite array_set_ok by (rewrite length_app; cbn; lia). cbn [rbind]. by rewrite insert_app_r_alt, Nat.sub_diag by done.
  - intros N. destruct (place (fun _ => True) lt v l) as (l1 & l2 & -> & El & O' & H); [done|done|done|].
    assert (linear_scan v (l1 ++ l2) = - Z.of_nat (length l1) - 1) as ->.
    { unfold linear_scan. rewrite El. destruct ((l1 ++ l2) !! length l1) as [b|]; [by rewrite H|done]. }
    replace (0 <=? _) with false by lia. rewrite insert_at_ok. exists (l1 ++ v :: l2). split_and!; [done|done|]. by rewrite Permutation_middle.
Qed.
End array.

(** * The theorem *)

(** in an array in order, [exists] finds by halving what a linear scan finds and ends;
    [insert] overwrites an element that is there and puts a new one where the order stays,
    [erase] of what [exists] found removes it and nothing else. The forms with a comparator
    give the same or run for ever, and these only when a greater element is there. Of any
    array, [sort] makes one in order when the elements differ, and [isSorted] ends and says
    whether it is. *)
Theorem Array_set {T : Type} `{EqDecision T} (lt : T -> T -> bool) (LT : StrictOn (fun _ : T => True) lt) (l : list T) (v : T)
    (O : in_order lt l) :
  exists_at lt v l = Ok (linear_scan lt v l) /\
  (v ∈ l -> insert lt v l = Ok (false, l) /\
    exists l', rbind (exists_at lt v l) (fun i => erase i l) = Ok (true, l') /\ in_order lt l' /\ l ≡ₚ v :: l') /\
  (v ∉ l -> linear_scan lt v l < 0 /\ exists l', insert lt v l = Ok (true, l') /\ in_order lt l' /\ l' ≡ₚ v :: l) /\
  (insert_cmp lt v l = insert lt v l \/
    (exists x, x ∈ l /\ lt v x = true) /\ insert_cmp lt v l = Crash nontermination) /\
  (forall a, NoDup a -> in_order lt (sort_array lt a) /\ sort_array lt a ≡ₚ a /\
    exists b, isSorted lt a = Ok b /\ (b = true <-> in_order lt a)).
Proof.
  pose proof (exists_ok lt LT v l O) as E. split_and!.
  - done.
  - intros I. split; [by apply (insert_ok lt LT v l _ O E)|]. rewrite E. cbn [rbind]. apply list_elem_of_split in I as (l1 & l2 & ->).
    rewrite (linear_scan_in lt LT) by done. rewrite erase_ok. exists (l1 ++ l2). split_and!; [done| |by rewrite Permutation_middle].
    rewrite <- (delete_middle l1 l2 v). by apply in_order_delete.
  - intros N. destruct (insert_ok lt LT v l _ O E) as [_ C]. split; [|by apply C]. unfold insert, insert_found in C. rewrite E in C. cbn [rbind] in C.
    destruct (Z.leb_spec 0 (linear_scan lt v l)); [|done]. destruct (C N) as (l' & E' & _). by destruct (set _ _ _).
  - unfold insert_cmp, insert, insert_found. rewrite E. destruct (exists_cmp_ok lt LT v l O) as [->|[W F]]; [by left|right].
    split; [done|]. unfold exists_cmp. by rewrite F.
  - intros a N. split_and!; [by apply (sort_order lt (fun _ => True))|apply sort_perm|].
    destruct (isSorted_loop_ok lt (length a) 0 a eq_refl) as (b & Eb & B). exists b. split; [done|].
    rewrite B, (ascending_order lt LT). tauto.
Qed.

(** A smaller element than the middle is never found with a comparator. *)
Example exists_cmp_hangs fuel : exists_cmp_loop Z.ltb fuel 1 [1; 2; 3] 0 2 = Crash nontermination.
Proof. induction fuel as [|fuel IH]; [done|exact IH]. Qed.

(** ** The prime numbers *)

Section primes.
Import Primes.

Fixpoint increasing (l : list Z) : bool :=
  match l with
  | x :: (y :: _) as l' => (x <? y) && increasing l'
  | _ => true
  end.

Lemma increasing_order l : increasing l = true -> in_order Z.ltb l.
Proof.
  induction l as [|x l IH]; intros I; [constructor|]. destruct l as [|y l]; [repeat constructor|].
  change ((x <? y) && increasing (y :: l) = true) in I. apply andb_prop in I as [L I]. specialize (IH I).
  apply in_order_cons. split; [done|]. apply in_order_cons in IH as [_ B]. intros z Iz. apply elem_of_cons in Iz as [->|Iz]; [done|].
  apply B in Iz. lia.
Qed.

Lemma primes_order : in_order Z.ltb s_prime_list /\ len s_prime_list = s_prime_size.
Proof. split; [|reflexivity]. apply increasing_order. vm_compute. reflexivity. Qed.

(** [upperValue] gives the least number of the list above another one, or the last. *)
Lemma upperValue_least v : exists p i, upperValue v 0 = Ok (p, i) /\ p ∈ s_prime_list /\ hasNext i = true /\
  (v < p /\ (forall q, q ∈ s_prime_list -> v < q -> p <= q) \/ forall q, q ∈ s_prime_list -> q <= v).
Proof.
  destruct primes_order as [O Sz]. unfold upperValue. unfold len in Sz.
  assert (exists l1 l2, s_prime_list = l1 ++ l2 /\ (forall q, q ∈ l1 -> q <= v) /\ (forall q, q ∈ l2 -> v < q)) as (l1 & l2 & El & B1 & B2).
  { generalize dependent s_prime_list. intros l O _. induction l as [|x l IH]; [exists [], []; split_and!; [done|..]; by intros q ?%not_elem_of_nil|].
    apply in_order_cons in O as [O B]. destruct (IH O) as (l1 & l2 & -> & B1 & B2). destruct (Z.leb_spec x v).
    - exists (x :: l1), l2. split_and!; [done| |done]. intros q I. apply elem_of_cons in I as [->|I]; [done|by apply B1].
    - exists [], (x :: l1 ++ l2). split_and!; [done|by intros q ?%not_elem_of_nil|]. intros q I. apply elem_of_cons in I as [->|I]; [done|].
      apply B in I. lia. }
  assert (lower_bound (fun p => p <=? v) s_prime_list = length l1) as ->.
  { rewrite El. apply lower_bound_app; [intros q I; by apply Z.leb_le, B1|]. intros q Eq. apply Z.leb_gt, B2. destruct l2; [done|injection Eq as ->; left]. }
  unfold value_at. destruct (Z.eqb_spec (Z.of_nat (length l1)) s_prime_size) as [E|N].
  - assert (l2 = []) as -> by (rewrite El, length_app in Sz; destruct l2; [done|cbn in Sz; lia]). rewrite app_nil_r in El.
    destruct (at_ok s_prime_list 1249) as (x & Ex & Ei); [apply Nat2Z.inj_lt; by rewrite Sz|]. change (s_prime_size - 1) with (Z.of_nat 1249). rewrite Ex. cbn [rbind].
    exists x, (Z.of_nat 1249). split_and!; [done|by eapply list_elem_of_lookup_2|done|]. right. intros q I. apply B1. by rewrite <- El.
  - destruct l2 as [|x l2]; [rewrite El, app_nil_r in Sz; lia|]. rewrite Z.add_0_r.
    assert (Z.of_nat (length l1) < s_prime_size) as Ll by (rewrite <- Sz, El, length_app; cbn; lia).
    replace (s_prime_size <=? Z.of_nat (length l1)) with false by lia.
    destruct (at_ok s_prime_list (length l1)) as (x' & -> & Ei); [lia|]. rewrite El, list_lookup_middle in Ei by done. injection Ei as ->. cbn [rbind].
    exists x', (Z.of_nat (length l1)). split_and!; [done|rewrite El; apply elem_of_app; right; left|unfold hasNext; lia|]. left. split; [apply B2; left|].
    intros q I Lq. rewrite El in I, O. apply elem_of_app in I as [I|I]; [apply B1 in I; lia|]. apply elem_of_cons in I as [->|I]; [done|].
    apply in_order_app in O as (_ & O & _). apply in_order_cons in O as [_ O]. apply O in I. lia.
Qed.
End primes.

(** A random string has its size and letters and digits only. *)
Lemma Gen_ok size : forall rand, exists rt, Gen size rand = Ok rt /\ length rt = size /\ Forall (fun c => c ∈ TEXT) rt.
Proof.
  induction size as [|size IH]; intros rand; cbn [Gen]; [by exists []|].
  pose proof (Z.mod_pos_bound (u32 (rand 0%nat)) 62 ltac:(lia)) as B. change (len TEXT) with 62.
  destruct (at_ok TEXT (Z.to_nat (u32 (rand 0%nat) mod 62))) as (c & E & I); [change (length TEXT) with 62%nat; lia|].
  rewrite Z2Nat.id in E by lia. rewrite E. cbn [rbind]. destruct (IH (fun i => rand (S i))) as (rt & -> & L & F). cbn [rbind].
  exists (c :: rt). split_and!; [done|cbn; lia|]. constructor; [by eapply list_elem_of_lookup_2|done].
Qed.

(** ** Witness *)

Lemma Array_set_witness : exists_at Z.ltb 30 [10; 20; 30] = Ok 2 /\
  exists l', insert Z.ltb 15 [10; 20; 30] = Ok (true, l') /\ in_order Z.ltb l'.
Proof.
  assert (O : in_order Z.ltb [10; 20; 30]) by (apply increasing_order; reflexivity).
  destruct (Array_set Z.ltb Z_strict [10; 20; 30] 30 O) as (E & _). split; [exact E|].
  destruct (Array_set Z.ltb Z_strict [10; 20; 30] 15 O) as (_ & _ & C & _).
  destruct C as (_ & l' & I & O' & _); [rewrite list_elem_of_In; cbn; intros [|[|[|[]]]]; discriminate|].
  exists l'. split; [exact I|exact O'].
Defined.
