(* ===== verification/LoadBalance.v ===== *)
(** Load balancing (src/streams/load_balance.cpp, include/streams/load_balance.hpp): the
    statistics of a connection over the last seconds ([HolderStats], [HolderStatsSet]) and
    the choice of a connection ([LoadBalance], [RoundRobinLoadBalance],
    [WeightLoadBalance]).

    Items are values of a type of the client; whether one is connected and its weight,
    which [FairLoadBalanceItem] computes in floating point, are what they are when they
    are asked, so they are functions given to each operation, and so are the clock and
    [rand()]. *)
From stdpp Require Import gmap.
From S2P Require Import Prelude.

(** ** Statistics *)

Record HolderStats := mkHolderStats {
  hs_usedTime : Z; hs_total : Z; hs_doing : Z; hs_timeouts : Z; hs_oks : Z; hs_errs : Z;
}.

(** [HolderStats::clear], also its value when made. *)
Definition hs_clear : HolderStats := mkHolderStats 0 0 0 0 0 0.

Definition incUsedTime (v : Z) (s : HolderStats) : HolderStats :=
  mkHolderStats (u32 (hs_usedTime s + v)) (hs_total s) (hs_doing s) (hs_timeouts s) (hs_oks s) (hs_errs s).
Definition incTotal (v : Z) (s : HolderStats) : HolderStats :=
  mkHolderStats (hs_usedTime s) (u32 (hs_total s + v)) (hs_doing s) (hs_timeouts s) (hs_oks s) (hs_errs s).
Definition incDoing (v : Z) (s : HolderStats) : HolderStats :=
  mkHolderStats (hs_usedTime s) (hs_total s) (u32 (hs_doing s + v)) (hs_timeouts s) (hs_oks s) (hs_errs s).
Definition decDoing (v : Z) (s : HolderStats) : HolderStats :=
  mkHolderStats (hs_usedTime s) (hs_total s) (u32 (hs_doing s - v)) (hs_timeouts s) (hs_oks s) (hs_errs s).
Definition incTimeouts (v : Z) (s : HolderStats) : HolderStats :=
  mkHolderStats (hs_usedTime s) (hs_total s) (hs_doing s) (u32 (hs_timeouts s + v)) (hs_oks s) (hs_errs s).
Definition incOks (v : Z) (s : HolderStats) : HolderStats :=
  mkHolderStats (hs_usedTime s) (hs_total s) (hs_doing s) (hs_timeouts s) (u32 (hs_oks s + v)) (hs_errs s).
Definition incErrs (v : Z) (s : HolderStats) : HolderStats :=
  mkHolderStats (hs_usedTime s) (hs_total s) (hs_doing s) (hs_timeouts s) (hs_oks s) (u32 (hs_errs s + v)).

Record HolderStatsSet := mkHolderStatsSet { m_lastUpdateTime : Z; m_stats : list HolderStats }.

Definition new_HolderStatsSet (size : Z) : HolderStatsSet := mkHolderStatsSet 0 (replicate (Z.to_nat size) hs_clear).

(** The loop of [init] from [t], [i]; [n] is what is left of the slots. *)
Fixpoint stats_loop (n : nat) (t now : Z) (stats : list HolderStats) : list HolderStats :=
  match n with
  | O => stats
  | S n =>
      if t <=? now then
        stats_loop n (u32 (t + 1)) now (<[Z.to_nat (t mod len stats) := hs_clear]> stats)
      else stats
  end.

Definition stats_init (now : Z) (s : HolderStatsSet) : HolderStatsSet :=
  if m_lastUpdateTime s <? now then
    mkHolderStatsSet now (stats_loop (length (m_stats s)) (u32 (m_lastUpdateTime s + 1)) now (m_stats s))
  else s.

(** [get(now)] is a reference to a slot: the slot, and the set after the caller has
    changed it. *)
Definition stats_get (now : Z) (f : HolderStats -> HolderStats) (s : HolderStatsSet) : res (HolderStats * HolderStatsSet) :=
  let s := stats_init now s in
  if len (m_stats s) =? 0 then Crash division_by_zero
  else
    let i := Z.to_nat (now mod len (m_stats s)) in
    match m_stats s !! i with
    | Some h => Ok (h, mkHolderStatsSet (m_lastUpdateTime s) (<[i := f h]> (m_stats s)))
    | None => Crash out_of_bounds
    end.

Definition add_stats (a b : HolderStats) : HolderStats :=
  mkHolderStats (u32 (hs_usedTime a + hs_usedTime b)) (u32 (hs_total a + hs_total b)) (u32 (hs_doing a + hs_doing b))
    (u32 (hs_timeouts a + hs_timeouts b)) (u32 (hs_oks a + hs_oks b)) (u32 (hs_errs a + hs_errs b)).

Definition getTotal (s : HolderStatsSet) : HolderStats := foldl add_stats hs_clear (m_stats s).

(** ** Items *)

Section balance.
Context {I : Type} (getId : I -> Z).

Record LoadBalance := mkLoadBalance {
  lb_datas : gmap Z I;
  lb_items : list I;
  lb_weights : list Z;
  lb_lastInitTime : Z;
}.

Definition new_LoadBalance : LoadBalance := mkLoadBalance empty [] [] 0.

Definition set_datas (datas : gmap Z I) (b : LoadBalance) : LoadBalance :=
  mkLoadBalance datas (lb_items b) (lb_weights b) (lb_lastInitTime b).

(** The items that are connected, in the order of the map. *)
Definition valid_items (isValid : I -> bool) (b : LoadBalance) : list I :=
  filter (fun i => isValid i = true) (map snd (map_to_list (lb_datas b))).

(** [RoundRobinLoadBalance::initNolock] *)
Definition rr_init (isValid : I -> bool) (b : LoadBalance) : LoadBalance :=
  mkLoadBalance (lb_datas b) (valid_items isValid b) (lb_weights b) (lb_lastInitTime b).

(** The sums of the weights up to each item. *)
Fixpoint prefix_sums (total : Z) (ws : list Z) : list Z :=
  match ws with [] => [] | w :: ws => s64 (total + w) :: prefix_sums (s64 (total + w)) ws end.

(** [WeightLoadBalance::initNolock] *)
Definition weight_init (getWeight : I -> Z) (isValid : I -> bool) (b : LoadBalance) : LoadBalance :=
  let items := valid_items isValid b in
  mkLoadBalance (lb_datas b) items (prefix_sums 0 (map getWeight items)) (lb_lastInitTime b).

(** The operations of [LoadBalance], for either [initNolock]. *)
Section operations.
Context (initNolock : LoadBalance -> LoadBalance).

Definition getById (id : Z) (b : LoadBalance) : option I := lb_datas b !! id.
Definition lb_add (v : I) (b : LoadBalance) : LoadBalance := initNolock (set_datas (<[getId v := v]> (lb_datas b)) b).
Definition lb_del (v : I) (b : LoadBalance) : LoadBalance := initNolock (set_datas (delete (getId v) (lb_datas b)) b).

(** [update]: [dels] comes back with the items that were there. *)
Definition take_out (dels : gmap Z I) (b : LoadBalance) : gmap Z I :=
  map_imap (fun id old => Some (default old (lb_datas b !! id))) dels.
Definition lb_update (adds dels : gmap Z I) (b : LoadBalance) : gmap Z I * LoadBalance :=
  (take_out dels b, initNolock (set_datas (adds ∪ (lb_datas b ∖ dels)) b)).

Definition lb_set (vs : list I) (b : LoadBalance) : LoadBalance :=
  initNolock (set_datas (foldl (fun m v => <[getId v := v]> m) empty vs) b).

Definition checkInit (ts : Z) (b : LoadBalance) : LoadBalance :=
  if 500 <? u64 (ts - lb_lastInitTime b) then
    let b := initNolock b in mkLoadBalance (lb_datas b) (lb_items b) (lb_weights b) ts
  else b.
End operations.

(** [for (i < size) h = m_items[(r + i) % size]]: the first that is connected. *)
Fixpoint scan (n : nat) (i r : Z) (isValid : I -> bool) (items : list I) : res (option I) :=
  match n with
  | O => Ok None
  | S n =>
      match items !! Z.to_nat (u64 (r + i) mod len items) with
      | None => Crash out_of_bounds
      | Some h => if isValid h then Ok (Some h) else scan n (i + 1) r isValid items
      end
  end.

Definition pick (v rnd : Z) : Z := if v =? 2 ^ 64 - 1 then rnd else v.

(** [RoundRobinLoadBalance::get] at time [ts]. *)
Definition rr_get (isValid : I -> bool) (ts v rnd : Z) (b : LoadBalance) : res (option I * LoadBalance) :=
  let b := checkInit (rr_init isValid) ts b in
  match lb_items b with
  | [] => Ok (None, b)
  | _ =>
      let r := u32 (pick v rnd mod len (lb_items b)) in
      let! h := scan (length (lb_items b)) 0 r isValid (lb_items b) in
      Ok (h, b)
  end.

(** [std::upper_bound] on [m_weights], which are compared as unsigned. *)
Fixpoint upper_bound (dis : Z) (ws : list Z) : nat :=
  match ws with [] => 0 | w :: ws => if dis <? u64 w then 0 else S (upper_bound dis ws) end.

Definition getIdx (v rnd : Z) (b : LoadBalance) : res Z :=
  match list.last (lb_weights b) with
  | None => Ok (-1)
  | Some total =>
      if u64 total =? 0 then Crash division_by_zero
      else
        let dis := pick v rnd mod u64 total in
        let it := upper_bound dis (lb_weights b) in
        if (it =? length (lb_weights b))%nat then Crash assertion_failed else Ok (s32 (Z.of_nat it))
  end.

(** [WeightLoadBalance::get] at time [ts]. *)
Definition weight_get (getWeight : I -> Z) (isValid : I -> bool) (ts v rnd : Z) (b : LoadBalance) : res (option I * LoadBalance) :=
  let b := checkInit (weight_init getWeight isValid) ts b in
  let! idx := getIdx v rnd b in
  if idx =? -1 then Ok (None, b)
  else let! h := scan (length (lb_items b)) 0 idx isValid (lb_items b) in Ok (h, b).
End balance.
Arguments LoadBalance : clear implicits.
