(* ===== verification/LoadBalanceSpec.v ===== *)
(** Load balancing: the statistics are a window over the last seconds, and an item is
    chosen among those connected, in proportion to its weight. *)
From stdpp Require Import gmap.
From S2P Require Import Prelude LoadBalance.

(** ** Statistics *)

(** The slots hold the seconds of the window that ends at the last update; what a second
    saw is [H] of it, and no later second has seen anything. *)
Record window (s : HolderStatsSet) (H : Z -> HolderStats) : Prop := {
  window_some : (0 < length (m_stats s))%nat;
  window_last : 0 <= m_lastUpdateTime s < 2 ^ 32;
  window_slots : forall j, m_lastUpdateTime s - len (m_stats s) < j <= m_lastUpdateTime s ->
    m_stats s !! Z.to_nat (j mod len (m_stats s)) = Some (H j);
  window_future : forall j, m_lastUpdateTime s < j -> H j = hs_clear;
}.

Lemma mod_same a b n : 0 < n -> a mod n = b mod n -> Z.abs (a - b) < n -> a = b.
Proof.
  intros Hn E L. pose proof (Z.div_mod a n). pose proof (Z.div_mod b n). rewrite E in *.
  assert (a / n = b / n) by nia. nia.
Qed.

Lemma mod_slot {A} j (l : list A) : (0 < length l)%nat -> (Z.to_nat (j mod len l) < length l)%nat.
Proof. intros Hl. pose proof (Z.mod_pos_bound j (len l) ltac:(unfold len; lia)). unfold len in *. lia. Qed.

Lemma slot_inj {A} j k (l : list A) : (0 < length l)%nat -> Z.to_nat (j mod len l) = Z.to_nat (k mod len l) ->
  Z.abs (j - k) < len l -> j = k.
Proof.
  intros Hl E L. assert (0 < len l) by (unfold len; lia). apply (mod_same j k (len l)); [done| |done].
  pose proof (Z.mod_pos_bound j (len l) ltac:(done)). pose proof (Z.mod_pos_bound k (len l) ltac:(done)). lia.
Qed.

(** The loop clears the slots of the seconds [t .. t + k) up to [now]. *)
Lemma stats_loop_ok k : forall t now stats, 0 <= t -> now < 2 ^ 32 - 1 -> (k <= length stats)%nat -> (0 < length stats)%nat ->
  let r := stats_loop k t now stats in
  length r = length stats /\
  (forall j, t <= j < t + Z.of_nat k -> j <= now -> r !! Z.to_nat (j mod len stats) = Some hs_clear) /\
  (forall i, (forall j, t <= j < t + Z.of_nat k -> j <= now -> i <> Z.to_nat (j mod len stats)) -> r !! i = stats !! i).
Proof.
  induction k as [|k IH]; intros t now stats Ht Hn Lk Ls; cbv zeta; cbn [stats_loop]; [split_and!; [done|lia|done]|].
  destruct (Z.leb_spec t now) as [L|L]; [|split_and!; [done|lia|done]].
  pose proof (mod_slot t stats Ls) as Sl. rewrite (u32_small (t + 1)) by lia.
  assert (El : len (<[Z.to_nat (t mod len stats) := hs_clear]> stats) = len stats) by (unfold len; by rewrite length_insert).
  destruct (IH (t + 1) now (<[Z.to_nat (t mod len stats) := hs_clear]> stats)) as (E1 & E2 & E3); [lia|lia|rewrite length_insert; lia|rewrite length_insert; lia|].
  rewrite El in *. split_and!; [by rewrite E1, length_insert| |].
  - intros j Hj Hjn. destruct (Z.eq_dec j t) as [->|N]; [|apply E2; lia].
    rewrite E3; [by apply list_lookup_insert_eq|]. intros j' Hj' _ Ej.
    assert (t = j'); [|lia]. apply (slot_inj t j' stats); [done|done|unfold len; lia].
  - intros i Hi. rewrite E3 by (intros j Hj; apply Hi; lia). apply list_lookup_insert_ne. intros E. apply (Hi t); [lia|done|done].
Qed.

Lemma stats_init_ok s H now : window s H -> m_lastUpdateTime s <= now < 2 ^ 32 - 1 ->
  window (stats_init now s) H /\ m_lastUpdateTime (stats_init now s) = now /\ len (m_stats (stats_init now s)) = len (m_stats s).
Proof.
  intros [Ws Wl Wj Wf] L. unfold stats_init. destruct (Z.ltb_spec (m_lastUpdateTime s) now) as [Lt|Ge].
  - rewrite u32_small by lia. destruct (stats_loop_ok (length (m_stats s)) (m_lastUpdateTime s + 1) now (m_stats s)) as (E1 & E2 & E3); [lia|lia|done|done|].
    set (r := stats_loop _ _ _ _) in *. assert (El : len r = len (m_stats s)) by (unfold len; by rewrite E1).
    split; [|by split]. constructor; cbn [m_lastUpdateTime m_stats]; [lia|lia| |intros j Hj; apply Wf; lia].
    rewrite El. intros j Hj. destruct (Z.le_gt_cases j (m_lastUpdateTime s)) as [Lj|Gj].
    + rewrite <- Wj by lia. apply E3. intros j' Hj' Hn' Ej. assert (j = j'); [|lia].
      apply (slot_inj j j' (m_stats s)); [done|done|unfold len in *; lia].
    + rewrite Wf by lia. destruct (Z.lt_ge_cases j (m_lastUpdateTime s + 1 + len (m_stats s))) as [Lj|Gj'].
      * apply E2; unfold len in *; lia.
      * (* every slot was cleared *)
        assert (0 < len (m_stats s)) as Hn0 by (unfold len; lia). pose proof (Z.mod_pos_bound (j - (m_lastUpdateTime s + 1)) (len (m_stats s)) Hn0) as Mb.
        set (j' := m_lastUpdateTime s + 1 + (j - (m_lastUpdateTime s + 1)) mod len (m_stats s)).
        assert (j mod len (m_stats s) = j' mod len (m_stats s)) as ->.
        { unfold j'. rewrite Z.add_mod_idemp_r by lia. f_equal. lia. }
        assert (j - (m_lastUpdateTime s + 1) >= 0) as Nn by (unfold len in *; lia).
        pose proof (Z.mod_le (j - (m_lastUpdateTime s + 1)) (len (m_stats s)) ltac:(lia) Hn0). apply E2; unfold j', len in *; lia.
  - assert (m_lastUpdateTime s = now) as E by lia. split; [by constructor|by split].
Qed.

Lemma window_get s H now f : window s H -> m_lastUpdateTime s <= now < 2 ^ 32 - 1 ->
  exists s', stats_get now f s = Ok (H now, s') /\ m_lastUpdateTime s' = now /\ length (m_stats s') = length (m_stats s) /\
    window s' (fun j => if j =? now then f (H now) else H j).
Proof.
  intros W L. destruct (stats_init_ok s H now W L) as (W' & El & En). unfold stats_get. set (s1 := stats_init now s) in *.
  pose proof (window_some _ _ W') as Hs. replace (len (m_stats s1) =? 0) with false by (unfold len; lia). cbv zeta.
  pose proof (window_slots _ _ W' now ltac:(unfold len; lia)) as E. rewrite E. eexists. split; [done|]. split; [done|].
  split; [cbn [m_stats]; rewrite length_insert; unfold len in En; lia|].
  pose proof (mod_slot now (m_stats s1) Hs) as Sl.
  assert (Li : len (<[Z.to_nat (now mod len (m_stats s1)) := f (H now)]> (m_stats s1)) = len (m_stats s1)) by (unfold len; by rewrite length_insert).
  constructor; cbn [m_stats m_lastUpdateTime]; [rewrite length_insert; done|apply W'| |].
  - rewrite Li. intros j Hj. destruct (Z.eqb_spec j now) as [->|N].
    + by apply list_lookup_insert_eq.
    + rewrite list_lookup_insert_ne; [by apply W'|]. intros Ej. apply N. symmetry.
      apply (slot_inj now j (m_stats s1)); [done|done|unfold len in *; lia].
  - intros j Hj. replace (j =? now) with false by lia. by apply W'.
Qed.

Lemma window_new size : 0 < size -> window (new_HolderStatsSet size) (fun _ => hs_clear).
Proof.
  intros L. constructor; cbn; [rewrite length_replicate; lia|lia| |done]. intros j Hj. apply lookup_replicate_2. unfold len in *. rewrite length_replicate in *.
  pose proof (Z.mod_pos_bound j (Z.of_nat (Z.to_nat size)) ltac:(lia)). lia.
Qed.

Lemma omap_lookup_seq {A} (l : list A) : forall p, omap (fun i => (p ++ l) !! i) (seq (length p) (length l)) = l.
Proof.
  induction l as [|x l IH]; intros p; [done|]. cbn [length seq omap list_omap]. rewrite list_lookup_middle by done. f_equal.
  specialize (IH (p ++ [x])). rewrite <- app_assoc, length_app, Nat.add_comm in IH. apply IH.
Qed.

(** The slots are the seconds of the window in some order. *)
Lemma window_perm s H : window s H ->
  m_stats s ≡ₚ map H (seqZ (m_lastUpdateTime s - len (m_stats s) + 1) (len (m_stats s))).
Proof.
  intros [Ws _ Wj _]. set (ks := seqZ _ _). set (slot := fun j => Z.to_nat (j mod len (m_stats s))).
  assert (In : forall j, j ∈ ks -> m_lastUpdateTime s - len (m_stats s) < j <= m_lastUpdateTime s) by (intros j; unfold ks; rewrite elem_of_seqZ; lia).
  assert (P : slot <$> ks ≡ₚ seq 0 (length (m_stats s))).
  { apply submseteq_length_Permutation; [apply NoDup_submseteq|].
    - apply NoDup_fmap_2_strong; [|apply NoDup_seqZ]. intros j k Hj%In Hk%In E. apply (slot_inj j k (m_stats s)); [done|exact E|lia].
    - intros i (j & -> & Hj)%list_elem_of_fmap. apply elem_of_seq. unfold slot. pose proof (mod_slot j (m_stats s) Ws). lia.
    - rewrite length_fmap, length_seq. unfold ks. rewrite length_seqZ. unfold len. lia. }
  assert (E : map H ks = omap (fun i => m_stats s !! i) (slot <$> ks)).
  { clear P. induction ks as [|j ks IH]; [done|]. cbn. unfold slot at 1. rewrite Wj by (apply In; left). cbn. f_equal.
    apply IH. intros j' Hj'. apply In. by right. }
  rewrite E, P. by rewrite <- (omap_lookup_seq (m_stats s) []) at 1.
Qed.

Lemma add_stats_comm a b : add_stats a b = add_stats b a.
Proof. unfold add_stats. f_equal; f_equal; lia. Qed.
Lemma add_stats_assoc a b c : add_stats a (add_stats b c) = add_stats (add_stats a b) c.
Proof. unfold add_stats; cbn. unfold u32. f_equal; rewrite Zplus_mod_idemp_l, Zplus_mod_idemp_r; f_equal; lia. Qed.

Lemma fold_stats_perm l k a : l ≡ₚ k -> foldl add_stats a l = foldl add_stats a k.
Proof.
  intros P. revert a. induction P as [|x l k P IH|x y l|l k m P IH Q IH']; intros a; cbn; [done|done| |by rewrite IH].
  f_equal. rewrite <- !add_stats_assoc. f_equal. apply add_stats_comm.
Qed.

(** What the seconds have seen after the updates [us], each a change [f] made in the slot
    of the second [t]. *)
Definition history (us : list (Z * (HolderStats -> HolderStats))) (j : Z) : HolderStats :=
  foldl (fun h u => if j =? fst u then snd u h else h) hs_clear us.

Fixpoint run_stats (us : list (Z * (HolderStats -> HolderStats))) (s : HolderStatsSet) : res HolderStatsSet :=
  match us with
  | [] => Ok s
  | (t, f) :: us => let! hs := stats_get t f s in run_stats us (snd hs)
  end.

(** The times of the updates do not go back. *)
Fixpoint times_from (t : Z) (us : list (Z * (HolderStats -> HolderStats))) : Prop :=
  match us with
  | [] => True
  | u :: us => t <= fst u < 2 ^ 32 - 1 /\ times_from (fst u) us
  end.

Lemma window_ext s H H' : (forall j, H j = H' j) -> window s H -> window s H'.
Proof. intros E [W1 W2 W3 W4]. constructor; [done|done| |]; intros j Hj; rewrite <- E; auto. Qed.

Lemma run_stats_ok us : forall s H, window s H -> times_from (m_lastUpdateTime s) us ->
  exists s', run_stats us s = Ok s' /\ length (m_stats s') = length (m_stats s) /\
    m_lastUpdateTime s' = foldl (fun _ u => fst u) (m_lastUpdateTime s) us /\
    window s' (fun j => foldl (fun h u => if j =? fst u then snd u h else h) (H j) us).
Proof.
  induction us as [|[t f] us IH]; intros s H W T; cbn [run_stats foldl fst snd].
  - by exists s.
  - destruct T as [Lt T]. destruct (window_get s H t f W Lt) as (s1 & E & El & Ls & W1). rewrite E. cbn [rbind snd].
    rewrite <- El in T. destruct (IH s1 _ W1 T) as (s' & E' & En & El' & W'). exists s'.
    split; [done|]. split; [by rewrite En|split; [by rewrite El', El|]].
    eapply window_ext; [|exact W']. intros j. cbn. by destruct (Z.eqb_spec j t) as [->|].
Qed.

(** ** The choice of an item *)

(** The first connected item from the [r]th on, around the end of the list. *)
Definition first_from {I} (isValid : I -> bool) (r : nat) (items : list I) : option I :=
  head (filter (fun i => isValid i = true) (rotate r items)).

Lemma scan_ok {I} (isValid : I -> bool) r items : 0 <= r < 2 ^ 63 -> len items < 2 ^ 63 ->
  forall n i, (i + n = length items)%nat ->
  scan n (Z.of_nat i) r isValid items = Ok (head (filter (fun h => isValid h = true) (drop i (rotate (Z.to_nat r) items)))).
Proof.
  intros Hr Hl. unfold len in Hl. induction n as [|n IH]; intros i E; cbn [scan].
  - by rewrite drop_ge by (rewrite length_rotate; lia).
  - destruct (lookup_lt_is_Some_2 (rotate (Z.to_nat r) items) i) as [h Eh]; [rewrite length_rotate; lia|].
    pose proof (proj1 (lookup_rotate_r_Some _ _ _ _) Eh) as [Ei _]. unfold rotate_nat_add in Ei. unfold len.
    replace (Z.to_nat (u64 (r + Z.of_nat i) mod Z.of_nat (length items))) with (Z.to_nat ((Z.of_nat (Z.to_nat r) + Z.of_nat i) mod Z.of_nat (length items))).
    2:{ rewrite u64_small by lia. do 2 f_equal. lia. }
    rewrite Ei. rewrite (drop_S _ h i Eh), filter_cons. destruct (isValid h) eqn:V; [by rewrite decide_True by done|].
    rewrite decide_False by done. replace (Z.of_nat i + 1) with (Z.of_nat (S i)) by lia. apply IH. lia.
Qed.

Corollary scan_first {I} (isValid : I -> bool) r items : 0 <= r < 2 ^ 63 -> len items < 2 ^ 63 ->
  scan (length items) 0 r isValid items = Ok (first_from isValid (Z.to_nat r) items).
Proof. intros Hr Hl. exact (scan_ok isValid r items Hr Hl (length items) 0%nat eq_refl). Qed.

Lemma first_from_some {I} (isValid : I -> bool) r items h :
  first_from isValid r items = Some h -> h ∈ items /\ isValid h = true.
Proof.
  unfold first_from. intros E. destruct (filter _ _) as [|x l] eqn:F; [done|]. injection E as ->.
  assert (h ∈ filter (fun i => isValid i = true) (rotate r items)) as [V M]%list_elem_of_filter by (rewrite F; left).
  split; [|done]. unfold rotate in M. apply elem_of_app in M. rewrite <- (take_drop (r mod length items) items).
  apply elem_of_app. tauto.
Qed.

Lemma first_from_none {I} (isValid : I -> bool) r items :
  first_from isValid r items = None -> forall h, h ∈ items -> isValid h = false.
Proof.
  unfold first_from. intros E h M. destruct (filter _ _) as [|x l] eqn:F; [|done]. destruct (isValid h) eqn:V; [|done].
  assert (h ∈ filter (fun i => isValid i = true) (rotate r items)) as B; [|by rewrite F in B; apply elem_of_nil in B].
  apply list_elem_of_filter. split; [done|]. unfold rotate. rewrite <- (take_drop (r mod length items) items), elem_of_app in M.
  apply elem_of_app. tauto.
Qed.

Lemma sum_nonneg ws : Forall (fun w => 0 < w) ws -> 0 <= foldr Z.add 0 ws.
Proof. induction 1; cbn; lia. Qed.

(** [upper_bound] on sums finds the share that holds [d]. *)
Lemma upper_bound_ok ws : forall t d, Forall (fun w => 0 < w) ws -> 0 <= t <= d -> d < t + foldr Z.add 0 ws < 2 ^ 63 ->
  let i := upper_bound d (prefix_sums t ws) in
  (i < length ws)%nat /\ t + foldr Z.add 0 (take i ws) <= d < t + foldr Z.add 0 (take (S i) ws).
Proof.
  induction ws as [|w ws IH]; intros t d P Ht L; cbn [foldr] in L; [lia|]. apply list.Forall_cons in P as [Pw P].
  pose proof (sum_nonneg ws P) as Sn.
  cbn [prefix_sums upper_bound length]. rewrite s64_small, u64_small by lia. cbv zeta.
  destruct (Z.ltb_spec d (t + w)) as [Ld|Gd]; cbn [firstn foldr]; [rewrite take_0; cbn; lia|].
  destruct (IH (t + w) d) as (E & B); [done|lia|lia|]. cbn [firstn foldr] in B. lia.
Qed.

Lemma prefix_sums_last ws : forall t, Forall (fun w => 0 < w) ws -> 0 <= t -> t + foldr Z.add 0 ws < 2 ^ 63 ->
  list.last (prefix_sums t ws) = if decide (ws = []) then None else Some (t + foldr Z.add 0 ws).
Proof.
  induction ws as [|w ws IH]; intros t P Ht L; [done|]. apply list.Forall_cons in P as [Pw P]. cbn [foldr] in *.
  pose proof (sum_nonneg ws P) as Sn.
  cbn [prefix_sums]. rewrite s64_small by lia. rewrite decide_False by done. rewrite last_cons, IH by (done || lia).
  destruct (decide (ws = [])) as [->|]; cbn [foldr]; f_equal; lia.
Qed.

Lemma prefix_sums_length t ws : length (prefix_sums t ws) = length ws.
Proof. revert t. induction ws as [|w ws IH]; intros t; cbn; [done|]. by rewrite IH. Qed.

(** The weight of the connected items, which the sums must hold. *)
Definition weights {I} (getWeight : I -> Z) (isValid : I -> bool) (b : LoadBalance I) : list Z :=
  map getWeight (valid_items isValid b).

Lemma getIdx_ok {I} (getWeight : I -> Z) isValid (b : LoadBalance I) v rnd :
  let ws := weights getWeight isValid b in
  Forall (fun w => 0 < w) ws -> foldr Z.add 0 ws < 2 ^ 63 -> len ws < 2 ^ 31 -> 0 <= pick v rnd -> ws <> [] ->
  exists i, getIdx v rnd (weight_init getWeight isValid b) = Ok (Z.of_nat i) /\ (i < length ws)%nat /\
    foldr Z.add 0 (take i ws) <= pick v rnd mod foldr Z.add 0 ws < foldr Z.add 0 (take (S i) ws).
Proof.
  intros ws P L Ln Hp Hne. unfold getIdx. cbn [weight_init lb_weights]. fold (weights getWeight isValid b). fold ws.
  rewrite prefix_sums_last by (done || lia). rewrite decide_False by done.
  assert (0 < foldr Z.add 0 ws) as Lt.
  { destruct ws as [|w ws']; [done|]. apply list.Forall_cons in P as [Pw P]. cbn. pose proof (sum_nonneg ws' P). lia. }
  rewrite u64_small by lia. replace (0 + foldr Z.add 0 ws =? 0) with false by lia. change (0 + foldr Z.add 0 ws) with (foldr Z.add 0 ws).
  pose proof (Z.mod_pos_bound (pick v rnd) (foldr Z.add 0 ws) Lt) as Mb.
  destruct (upper_bound_ok ws 0 (pick v rnd mod foldr Z.add 0 ws) P) as [Li B]; [lia|lia|]. cbv zeta.
  rewrite prefix_sums_length. destruct (Nat.eqb_spec (upper_bound (pick v rnd mod foldr Z.add 0 ws) (prefix_sums 0 ws)) (length ws)); [lia|].
  eexists. split; [f_equal; apply s32_small; unfold len in Ln; lia|]. split; [done|]. lia.
Qed.

(** ** What a balance may return *)
Section registered.
Context {I : Type} (getId : I -> Z).

(** The items to choose from are registered, each under its own id. *)
Record registered (b : LoadBalance I) : Prop := {
  reg_keys : forall id i, lb_datas b !! id = Some i -> getId i = id;
  reg_items : forall i, i ∈ lb_items b -> lb_datas b !! getId i = Some i;
  reg_len : (length (lb_items b) <= size (lb_datas b))%nat;
}.

(** Either [initNolock], with what is connected and the weights at its time. *)
Inductive initialises : (LoadBalance I -> LoadBalance I) -> Prop :=
| init_rr isValid : initialises (rr_init isValid)
| init_weight getWeight isValid : initialises (weight_init getWeight isValid).

Lemma valid_items_in isValid (b : LoadBalance I) i :
  i ∈ valid_items isValid b <-> isValid i = true /\ exists id, lb_datas b !! id = Some i.
Proof.
  unfold valid_items. rewrite list_elem_of_filter. split; intros [V M]; (split; [done|]).
  - apply list_elem_of_fmap in M as ([id i'] & -> & M). exists id. by apply elem_of_map_to_list.
  - destruct M as [id M]. apply list_elem_of_fmap. exists (id, i). split; [done|]. by apply elem_of_map_to_list.
Qed.

Lemma valid_items_len isValid (b : LoadBalance I) : (length (valid_items isValid b) <= size (lb_datas b))%nat.
Proof. unfold valid_items. etrans; [apply length_filter|]. by rewrite length_map, length_map_to_list. Qed.

Definition keyed (m : gmap Z I) : Prop := forall id i, m !! id = Some i -> getId i = id.

Lemma init_registered f b : initialises f -> keyed (lb_datas b) -> registered (f b).
Proof.
  intros [isValid|getWeight isValid] K; constructor; cbn; try done; try apply valid_items_len;
    intros i [_ [id M]]%valid_items_in; by rewrite (K _ _ M).
Qed.

Lemma keyed_insert v m : keyed m -> keyed (<[getId v := v]> m).
Proof. intros K id i [[<- <-]|[_ M]]%lookup_insert_Some; [done|by apply K]. Qed.

(** The balances that the operations make, from a new one. *)
Inductive reachable : LoadBalance I -> Prop :=
| reach_new : reachable new_LoadBalance
| reach_add f v b : initialises f -> reachable b -> reachable (lb_add getId f v b)
| reach_del f v b : initialises f -> reachable b -> reachable (lb_del getId f v b)
| reach_update f adds dels b : initialises f -> keyed adds -> reachable b -> reachable (snd (lb_update f adds dels b))
| reach_set f vs b : initialises f -> reachable b -> reachable (lb_set getId f vs b)
| reach_check f ts b : initialises f -> reachable b -> reachable (checkInit f ts b).

Lemma check_registered f ts b : initialises f -> registered b -> registered (checkInit f ts b) /\ lb_datas (checkInit f ts b) = lb_datas b.
Proof.
  intros F R. unfold checkInit. destruct (_ <? _); [|done]. destruct (init_registered f b F (reg_keys _ R)) as [K M L].
  assert (E : lb_datas (f b) = lb_datas b) by (by destruct F). split; [|done]. by constructor.
Qed.

Lemma reachable_registered b : reachable b -> registered b.
Proof.
  induction 1 as [|f v b F _ IH|f v b F _ IH|f adds dels b F A _ IH|f vs b F _ IH|f ts b F _ IH].
  - constructor; cbn; [done|intros i B; by apply elem_of_nil in B|lia].
  - refine (init_registered f _ F _). apply keyed_insert. exact (reg_keys _ IH).
  - refine (init_registered f _ F _). cbn. intros id i [_ M]%lookup_delete_Some. exact (reg_keys _ IH _ _ M).
  - refine (init_registered f _ F _). cbn. intros id i [M|[_ [M _]%lookup_difference_Some]]%lookup_union_Some_raw; [by apply A|exact (reg_keys _ IH _ _ M)].
  - refine (init_registered f _ F _). cbn. assert (keyed (∅ : gmap Z I)) as E by done. revert E. generalize (∅ : gmap Z I).
    induction vs as [|v vs IHv]; intros m K; [done|]. by apply IHv, keyed_insert.
  - by apply check_registered.
Qed.
End registered.

Lemma first_from_nil {I} (isValid : I -> bool) r : first_from isValid r [] = None.
Proof. unfold first_from, rotate. by rewrite drop_nil, take_nil. Qed.

Lemma rr_get_ok {I} (getId : I -> Z) isValid ts v rnd b : registered getId b -> Z.of_nat (size (lb_datas b)) < 2 ^ 31 -> 0 <= pick v rnd ->
  let b' := checkInit (rr_init isValid) ts b in
  rr_get isValid ts v rnd b = Ok (first_from isValid (Z.to_nat (pick v rnd mod len (lb_items b'))) (lb_items b'), b').
Proof.
  intros R L Hp b'. destruct (check_registered getId (rr_init isValid) ts b (init_rr _) R) as [R' E]. fold b' in R', E.
  pose proof (reg_len _ _ R') as Ln. rewrite E in Ln. unfold rr_get. fold b'. destruct (lb_items b') as [|i l] eqn:El; [by rewrite first_from_nil|].
  assert (0 < len (i :: l) < 2 ^ 31) as Ll by (unfold len; cbn [length] in *; lia).
  pose proof (Z.mod_pos_bound (pick v rnd) (len (i :: l)) ltac:(lia)). rewrite u32_small by lia. rewrite scan_first by lia. done.
Qed.

(** ** Properties *)

(** Over updates whose times do not go back, the statistics of a connection are kept in
    a window of [size] seconds: nothing crashes, the total is that of what the last [size]
    seconds up to the last update saw, and the slot of a later second holds what that
    second saw and nothing of the second whose slot it takes. *)
Theorem HolderStats_window size us : 0 < size < 2 ^ 32 -> times_from 0 us ->
  exists s, run_stats us (new_HolderStatsSet size) = Ok s /\
    let last := foldl (fun _ u => fst u) 0 us in
    getTotal s = foldl add_stats hs_clear (map (history us) (seqZ (last - size + 1) size)) /\
    forall now f, last <= now < 2 ^ 32 - 1 -> exists s', stats_get now f s = Ok (history us now, s').
Proof.
  intros L T. destruct (run_stats_ok us (new_HolderStatsSet size) _ (window_new size ltac:(lia)) T) as (s & E & Ln & El & W).
  exists s. cbn [m_lastUpdateTime new_HolderStatsSet m_stats] in El, Ln. rewrite length_replicate in Ln. cbv zeta. rewrite <- El. split; [done|]. split.
  - unfold getTotal. rewrite (fold_stats_perm _ _ _ (window_perm s _ W)). unfold len. rewrite Ln, Z2Nat.id by lia. done.
  - intros now f Hn. destruct (window_get s _ now f W Hn) as (s' & E' & _). by exists s'.
Qed.

Lemma HolderStats_window_witness :
  getTotal <$> (match run_stats [(100, incTotal 1); (103, incTotal 2); (106, incOks 1)] (new_HolderStatsSet 5) with Ok s => Some s | _ => None end)
    = Some (mkHolderStats 0 2 0 0 1 0) /\
  exists s, run_stats [(100, incTotal 1); (103, incTotal 2); (106, incOks 1)] (new_HolderStatsSet 5) = Ok s /\
    getTotal s = foldl add_stats hs_clear (map (history [(100, incTotal 1); (103, incTotal 2); (106, incOks 1)]) (seqZ 102 5)).
Proof.
  split; [reflexivity|].
  destruct (HolderStats_window 5 [(100, incTotal 1); (103, incTotal 2); (106, incOks 1)]) as (s & E & T & _); [lia|cbn; lia|].
  exists s. split; [exact E|exact T].
Defined.

(** Whatever is added, removed, updated and rebuilt, in any order, an item that
    [get] returns is connected and registered under its id: a removed item is never
    returned.  When the items are due to be rebuilt, [get] returns nothing only if no
    registered item is connected. *)
Theorem RoundRobin_registered {I} (getId : I -> Z) isValid ts v rnd b :
  reachable getId b -> Z.of_nat (size (lb_datas b)) < 2 ^ 31 -> 0 <= pick v rnd ->
  exists h b', rr_get isValid ts v rnd b = Ok (h, b') /\ reachable getId b' /\ lb_datas b' = lb_datas b /\
    match h with
    | Some i => isValid i = true /\ lb_datas b !! getId i = Some i
    | None => 500 < u64 (ts - lb_lastInitTime b) -> forall id i, lb_datas b !! id = Some i -> isValid i = false
    end.
Proof.
  intros Rb L Hp. pose proof (reachable_registered getId b Rb) as R. rewrite (rr_get_ok getId) by done.
  set (b' := checkInit _ ts b). destruct (check_registered getId (rr_init isValid) ts b (init_rr _) R) as [R' E]. fold b' in R', E.
  eexists _, _. split; [done|]. split; [by apply reach_check; [constructor|]|]. split; [done|].
  destruct (first_from _ _ _) as [i|] eqn:F.
  - apply first_from_some in F as [M V]. split; [done|]. rewrite <- E. by apply R'.
  - intros Due id i M. destruct (isValid i) eqn:V; [|done]. rewrite <- V. apply (first_from_none _ _ _ F).
    unfold b', checkInit. replace (500 <? _) with true by lia. apply valid_items_in. split; [done|by exists id].
Qed.

Lemma RoundRobin_registered_witness :
  let b := lb_add (fun i => i) (rr_init Z.even) 4 (lb_add (fun i => i) (rr_init Z.even) 3 new_LoadBalance) in
  fst <$> (match rr_get Z.even 1000 7 0 b with Ok r => Some r | _ => None end) = Some (Some 4) /\
  exists h b', rr_get Z.even 1000 7 0 b = Ok (h, b') /\ lb_datas b' = lb_datas b.
Proof.
  intros b. split; [vm_compute; reflexivity|].
  destruct (RoundRobin_registered (fun i => i) Z.even 1000 7 0 b) as (h & b' & E & _ & D & _).
  - repeat (apply reach_add; [constructor|]). constructor.
  - reflexivity.
  - vm_compute. discriminate.
  - exists h, b'. split; [exact E|exact D].
Defined.

(** When the weights are positive, the weighted balance that has just been rebuilt
    chooses the item whose share of the line of weights holds the residue of the request's
    value, so that each item has as many residues as its weight, and no assertion fails. *)
Theorem WeightLoadBalance_share {I} (getWeight : I -> Z) isValid ts v rnd b :
  let ws := weights getWeight isValid b in
  500 < u64 (ts - lb_lastInitTime b) -> Forall (fun w => 0 < w) ws -> foldr Z.add 0 ws < 2 ^ 63 -> len ws < 2 ^ 31 -> 0 <= pick v rnd ->
  exists b', weight_get getWeight isValid ts v rnd b = Ok (None, b') /\ ws = [] \/
    exists i h, weight_get getWeight isValid ts v rnd b = Ok (Some h, b') /\ valid_items isValid b !! i = Some h /\
      foldr Z.add 0 (take i ws) <= pick v rnd mod foldr Z.add 0 ws < foldr Z.add 0 (take (S i) ws).
Proof.
  intros ws Due P L Ln Hp. unfold weight_get. set (b' := checkInit _ ts b). exists b'.
  assert (Eb : b' = mkLoadBalance (lb_datas b) (valid_items isValid b) (prefix_sums 0 ws) ts)
    by (unfold b', checkInit; by replace (500 <? _) with true by lia).
  destruct (decide (ws = [])) as [Ew|Ew]; [left|right].
  - split; [|done]. rewrite Eb. by rewrite Ew.
  - destruct (getIdx_ok getWeight isValid b v rnd P L Ln Hp Ew) as (i & E & Li & B).
    assert (Eg : getIdx v rnd b' = Ok (Z.of_nat i)) by (rewrite <- E, Eb; done).
    assert (Lv : (i < length (valid_items isValid b))%nat) by (unfold ws, weights in Li; by rewrite length_map in Li).
    destruct (lookup_lt_is_Some_2 _ _ Lv) as [h Eh]. exists i, h. rewrite Eg. cbn [rbind].
    replace (Z.of_nat i =? -1) with false by lia. rewrite Eb. cbn [lb_items].
    assert (len (valid_items isValid b) < 2 ^ 31) by (unfold len, ws, weights in *; by rewrite length_map in Ln).
    rewrite scan_first by (unfold len, ws, weights in *; rewrite length_map in *; lia). cbn [rbind]. split; [|done].
    unfold first_from. rewrite Nat2Z.id. unfold rotate. rewrite Nat.mod_small by done.
    rewrite (drop_S _ h i Eh). cbn [app]. rewrite filter_cons, decide_True; [done|].
    apply (valid_items_in isValid b h). by eapply list_elem_of_lookup_2.
Qed.

Lemma WeightLoadBalance_share_witness :
  let b := lb_add (fun i => i) (rr_init Z.odd) 5 (lb_add (fun i => i) (rr_init Z.odd) 3 (new_LoadBalance (I := Z))) in
  fst <$> (match weight_get (fun i => i) Z.odd 1000 6 0 b with Ok r => Some r | _ => None end) = Some (Some 3) /\
  exists b' h, weight_get (fun i => i) Z.odd 1000 6 0 b = Ok (Some h, b').
Proof.
  intros b. split; [vm_compute; reflexivity|].
  destruct (WeightLoadBalance_share (fun i => i) Z.odd 1000 6 0 b) as (b' & [[_ E]|(i & h & E & _)]).
  - reflexivity.
  - vm_compute. repeat constructor.
  - reflexivity.
  - reflexivity.
  - vm_compute. discriminate.
  - exfalso. revert E. vm_compute. discriminate.
  - exists b', h. exact E.
Defined.

(** An item's weight is 0 until it is set: with only such items the residue is taken by
    zero. *)
Example weight_zero_crash (b := lb_add (fun i => i) (rr_init Z.odd) 3 (new_LoadBalance (I := Z))) :
  weight_get (fun _ => 0) Z.odd 1000 6 0 b = Crash division_by_zero.
Proof. reflexivity. Qed.
