(* ===== verification/ServiceBalance.v ===== *)
(** [SDLoadBalance] (src/streams/load_balance.cpp): a balancer for each service of each
    domain, which follows what the discovery of services reports.

    A balancer is named by its place on a heap, as two threads may hold it; its items are
    pointers, null where the code makes none. A stream is a value of the client, and so is
    what is known of a service: [m_cb] makes a stream of it or not.

    Its threads, clients that ask a balancer and reports of the discovery, go on by the parts
    between which other threads may run ([get_part], [change_part]); what is connected
    changes under them.

    The theorems say that a balancer serves what is reported. *)
From stdpp Require Import gmap functions.
From S2P Require Import Prelude LoadBalance LoadBalanceSpec.

Inductive lb_type := ROUNDROBIN | WEIGHT | FAIR.

#[global] Instance lb_type_eq_dec : EqDecision lb_type.
Proof. solve_decision. Defined.

Section sd.
Context {Stream Info : Type}.

(** [LoadBalanceItem], or [FairLoadBalanceItem]. *)
Record LoadBalanceItem := mkItem {
  m_fair : bool;
  m_id : Z;
  m_stream : option Stream;
  m_weight : Z;
}.

Abbreviation item_ptr := (option LoadBalanceItem).

(** Whether a stream is connected, and the weight that a fair item computes of itself. *)
Context (isConnected : Stream -> bool) (fair_weight : LoadBalanceItem -> Z).

Definition isValid (p : item_ptr) : bool :=
  match p with Some i => match m_stream i with Some s => isConnected s | None => false end | None => false end.

Definition getWeight (p : item_ptr) : Z :=
  match p with Some i => if m_fair i then fair_weight i else m_weight i | None => 0 end.

(** [RoundRobinLoadBalance] or [WeightLoadBalance], with its [initNolock]. *)
Record balancer := mkBalancer { lb_round : bool; lb_state : LoadBalance item_ptr }.

Definition initNolock (round : bool) : LoadBalance item_ptr -> LoadBalance item_ptr :=
  if round then rr_init isValid else weight_init getWeight isValid.

Record SDLoadBalance := mkSD {
  sd_heap : list balancer;
  m_datas : gmap (list byte) (gmap (list byte) nat);
  m_types : gmap (list byte) (gmap (list byte) lb_type);
  m_defaultType : lb_type;
}.

Definition new_SDLoadBalance : SDLoadBalance := mkSD [] ∅ ∅ FAIR.

Definition getType (domain service : list byte) (s : SDLoadBalance) : lb_type :=
  match m_types s !! domain with
  | None => m_defaultType s
  | Some m => match m !! service with None => m_defaultType s | Some t => t end
  end.

Definition createLoadBalance (type : lb_type) : balancer :=
  match type with
  | ROUNDROBIN => mkBalancer true new_LoadBalance
  | WEIGHT => mkBalancer false new_LoadBalance
  | FAIR => mkBalancer false new_LoadBalance
  end.

Definition createLoadBalanceItem (type : lb_type) : LoadBalanceItem :=
  match type with
  | ROUNDROBIN => mkItem false 0 None 0
  | WEIGHT => mkItem false 0 None 0
  | FAIR => mkItem true 0 None 0
  end.

(** The two critical sections of [get]: the look-up under the read lock, and the new
    balancer, of the type that [getType] gave between them, under the write lock. *)
Definition sd_find (domain service : list byte) (s : SDLoadBalance) : option nat :=
  m ← m_datas s !! domain; m !! service.

Definition sd_create (type : lb_type) (domain service : list byte) (s : SDLoadBalance) : nat * SDLoadBalance :=
  let lb := length (sd_heap s) in
  (lb, mkSD (sd_heap s ++ [createLoadBalance type])
         (<[domain := <[service := lb]> (default ∅ (m_datas s !! domain))]> (m_datas s)) (m_types s) (m_defaultType s)).

Definition sd_get (domain service : list byte) (auto_create : bool) (s : SDLoadBalance) : option nat * SDLoadBalance :=
  match sd_find domain service s with
  | Some lb => (Some lb, s)
  | None =>
      if auto_create then let (lb, s) := sd_create (getType domain service s) domain service s in (Some lb, s)
      else (None, s)
  end.

(** What [onServiceChange] does with a service that is new: [None] when no stream is made. *)
Definition make_item (type : lb_type) (m_cb : Info -> option Stream) (id : Z) (info : Info) : option item_ptr :=
  match m_cb info with
  | None => None
  | Some stream => Some (Some (mkItem (m_fair (createLoadBalanceItem type)) id (Some stream) 10000))
  end.

(** The items it makes and the ids it takes out. *)
Definition add_infos (type : lb_type) (m_cb : Info -> option Stream) (old_value new_value : gmap Z Info) : gmap Z item_ptr :=
  map_imap (make_item type m_cb) (new_value ∖ old_value).
Definition del_infos (old_value new_value : gmap Z Info) : gmap Z item_ptr := (fun _ => None) <$> (old_value ∖ new_value).

(** The balancer that a pointer names. *)
Definition at_lb {A} (lb : nat) (s : SDLoadBalance) (f : balancer -> res A) : res A :=
  match sd_heap s !! lb with None => Crash use_after_free | Some b => f b end.
Definition put_lb (lb : nat) (round : bool) (st : LoadBalance item_ptr) (s : SDLoadBalance) : SDLoadBalance :=
  mkSD (<[lb := mkBalancer round st]> (sd_heap s)) (m_datas s) (m_types s) (m_defaultType s).

(** [lb->update(add_infos, del_infos)], with the items that come back, which are closed. *)
Definition sd_update (lb : nat) (adds dels : gmap Z item_ptr) (s : SDLoadBalance) : res (list LoadBalanceItem * SDLoadBalance) :=
  at_lb lb s (fun b =>
    let (dels, st) := lb_update (initNolock (lb_round b)) adds dels (lb_state b) in
    Ok (omap snd (map_to_list dels), put_lb lb (lb_round b) st s)).

(** [LoadBalanceItem::close]: the stream whose close is scheduled. *)
Definition close_item (i : LoadBalanceItem) : list Stream := option_list (m_stream i).

(** [onServiceChange] when nothing comes between, with the items that are closed. *)
Definition onServiceChange (m_cb : Info -> option Stream) (domain service : list byte) (old_value new_value : gmap Z Info)
    (s : SDLoadBalance) : res (list LoadBalanceItem * SDLoadBalance) :=
  let type := getType domain service s in
  let (lb, s) := sd_get domain service true s in
  let! lb := deref lb in
  sd_update lb (add_infos type m_cb old_value new_value) (del_infos old_value new_value) s.

(** What the balancer of a service answers a client, when nothing comes between. *)
Definition sd_pick (ts v rnd : Z) (b : balancer) : res (option item_ptr * LoadBalance item_ptr) :=
  if lb_round b then rr_get isValid ts v rnd (lb_state b) else weight_get getWeight isValid ts v rnd (lb_state b).

(** Where the search of [get] starts, on the items there are. *)
Definition start_index (round : bool) (v rnd : Z) (st : LoadBalance item_ptr) : res (option Z) :=
  if round then
    match lb_items st with [] => Ok None | _ => Ok (Some (u32 (pick v rnd mod len (lb_items st)))) end
  else let! idx := getIdx v rnd st in Ok (if idx =? -1 then None else Some idx).


End sd.
Arguments SDLoadBalance : clear implicits.
Arguments LoadBalanceItem : clear implicits.
Arguments balancer : clear implicits.

(** ** Threads

    Between two critical sections other threads run. [LoadBalance::get] has these parts: the
    look at the time in [checkInit], [init()] under the write lock, the new time, the start
    of the search under the read lock, and the search, which holds that lock from one item to
    the next. [onServiceChange] has these: the type, the look-up of [get], the type again and
    the new balancer, the update under the write lock of the balancer, and the closing of one
    item after the other. *)
Section threads.
Context {Stream Info : Type}.

Abbreviation key := (prod (list byte) (list byte)).
Abbreviation SD := (SDLoadBalance Stream).
Abbreviation item_ptr := (option (LoadBalanceItem Stream)).

Inductive get_pc :=
| Looking (v rnd : Z)
| Initing (v rnd ts : Z)
| Stamping (v rnd ts : Z)
| Starting (v rnd : Z)
| Scanning (i r : Z).

(** One part of [get], on its balancer, at the time [now]: the next one or the answer.
    [conn] says what is connected, [seen] and [fair_weight] what the items said of themselves
    while [initNolock] walked over them. *)
Definition get_part (conn seen : Stream -> bool) (fair_weight : LoadBalanceItem Stream -> Z) (now : Z) (g : get_pc)
    (b : balancer Stream) : res ((get_pc + option item_ptr) * balancer Stream) :=
  let st := lb_state b in
  match g with
  | Looking v rnd => Ok (inl (if 500 <? u64 (now - lb_lastInitTime st) then Initing v rnd now else Starting v rnd), b)
  | Initing v rnd ts => Ok (inl (Stamping v rnd ts), mkBalancer (lb_round b) (initNolock seen fair_weight (lb_round b) st))
  | Stamping v rnd ts =>
      Ok (inl (Starting v rnd), mkBalancer (lb_round b) (mkLoadBalance (lb_datas st) (lb_items st) (lb_weights st) ts))
  | Starting v rnd =>
      let! r := start_index (lb_round b) v rnd st in
      Ok (match r with None => inr None | Some r => inl (Scanning 0 r) end, b)
  | Scanning i r =>
      if i <? len (lb_items st) then
        let! h := scan 1 i r (isValid conn) (lb_items st) in
        Ok (match h with Some h => inr (Some h) | None => inl (Scanning (i + 1) r) end, b)
      else Ok (inr None, b)
  end.

Inductive change_pc :=
| Typing (m_cb : Info -> option Stream) (new_value : gmap Z Info)
| Finding (m_cb : Info -> option Stream) (new_value : gmap Z Info) (type : lb_type)
| Retyping (m_cb : Info -> option Stream) (new_value : gmap Z Info) (type : lb_type)
| Creating (m_cb : Info -> option Stream) (new_value : gmap Z Info) (type type' : lb_type)
| Updating (m_cb : Info -> option Stream) (new_value : gmap Z Info) (type : lb_type) (lb : nat)
| Closing (items : list (LoadBalanceItem Stream)).

(** One part of [onServiceChange], with the streams whose close it schedules. *)
Definition change_part (seen : Stream -> bool) (fair_weight : LoadBalanceItem Stream -> Z) (domain service : list byte)
    (old_value : gmap Z Info) (c : change_pc) (s : SD) : res (option change_pc * SD * list Stream) :=
  match c with
  | Typing m_cb new => Ok (Some (Finding m_cb new (getType domain service s)), s, [])
  | Finding m_cb new type =>
      Ok (Some match sd_find domain service s with Some lb => Updating m_cb new type lb | None => Retyping m_cb new type end, s, [])
  | Retyping m_cb new type => Ok (Some (Creating m_cb new type (getType domain service s)), s, [])
  | Creating m_cb new type type' =>
      let (lb, s) := sd_create type' domain service s in Ok (Some (Updating m_cb new type lb), s, [])
  | Updating m_cb new type lb =>
      let! (items, s) := sd_update seen fair_weight lb (add_infos type m_cb old_value new) (del_infos old_value new) s in
      Ok (Some (Closing items), s, [])
  | Closing [] => Ok (None, s, [])
  | Closing (i :: items) => Ok (Some (Closing items), s, close_item i)
  end.

(** A client that asks the balancer [lb] of a service, or a report of a service. *)
Inductive pc := Getting (k : key) (lb : nat) (g : get_pc) | Changing (k : key) (c : change_pc).

(** What a part does: where the thread goes on, the balancers, what a client is given, and
    the streams whose close is scheduled. *)
Record outcome := mkOutcome {
  o_pc : option pc;
  o_sd : SD;
  o_answer : option (option item_ptr);
  o_close : list Stream;
}.

Definition advance (conn seen : Stream -> bool) (fair_weight : LoadBalanceItem Stream -> Z) (now : Z) (old_value : gmap Z Info)
    (p : pc) (s : SD) : res outcome :=
  match p with
  | Getting k lb g =>
      at_lb lb s (fun b =>
        let! (next, b) := get_part conn seen fair_weight now g b in
        let s := put_lb lb (lb_round b) (lb_state b) s in
        Ok match next with
           | inl g => mkOutcome (Some (Getting k lb g)) s None []
           | inr h => mkOutcome None s (Some h) []
           end)
  | Changing k c =>
      let! (c, s, close) := change_part seen fair_weight k.1 k.2 old_value c s in
      Ok (mkOutcome (option_map (Changing k) c) s None close)
  end.


(** A thread that nothing comes between. *)
Fixpoint run_alone (fuel : nat) (conn : Stream -> bool) (fair_weight : LoadBalanceItem Stream -> Z) (now : Z) (old_value : gmap Z Info)
    (p : pc) (s : SD) (closed : list Stream) : res (option (option item_ptr) * SD * list Stream) :=
  match fuel with
  | O => Crash nontermination
  | S fuel =>
      let! out := advance conn conn fair_weight now old_value p s in
      match o_pc out with
      | None => Ok (o_answer out, o_sd out, closed ++ o_close out)
      | Some p => run_alone fuel conn fair_weight now old_value p (o_sd out) (closed ++ o_close out)
      end
  end.
End threads.
Arguments get_pc : clear implicits.
Arguments change_pc : clear implicits.
Arguments pc : clear implicits.
Arguments outcome : clear implicits.

(** * Theorems *)

Section sd.
Context {Stream Info : Type}.

Abbreviation SD := (SDLoadBalance Stream).
Abbreviation item_ptr St := (option (LoadBalanceItem St)).
Abbreviation key := (prod (list byte) (list byte)).
Abbreviation pc := (pc Stream Info).

Definition item_id (p : item_ptr Stream) : Z := match p with Some i => m_id i | None => 0 end.

Abbreviation find k s := (sd_find k.1 k.2 s).

(** ** What is proved of every reachable state *)

(** Items that are there, each under its own id, as [onServiceChange] makes them. *)
Definition owned (m : gmap Z (item_ptr Stream)) : Prop :=
  forall id p, m !! id = Some p -> exists i, p = Some i /\ m_id i = id /\ is_Some (m_stream i) /\ m_weight i = 10000.

(** The sums of positive weights of 32 bits, one for each item to choose from. *)
Definition weighed {I} (st : LoadBalance I) : Prop :=
  exists ws, lb_weights st = prefix_sums 0 ws /\ length ws = length (lb_items st) /\ Forall (fun w => 1 <= w < 2 ^ 31) ws.

Record balancer_inv (b : balancer Stream) (ids : gset Z) : Prop := {
  bal_registered : registered item_id (lb_state b);
  bal_dom : dom (lb_datas (lb_state b)) = ids;
  bal_owned : owned (lb_datas (lb_state b));
  bal_weights : lb_round b = false -> weighed (lb_state b);
}.

(** [R] is the last report of each service, [S] the ids that are served. *)
Record sd_inv (s : SD) (R : key -> gmap Z Info) (S : key -> gset Z) : Prop := {
  inv_slot k lb : find k s = Some lb -> exists b, sd_heap s !! lb = Some b /\ balancer_inv b (S k);
  inv_none k : find k s = None -> S k = ∅;
  inv_own k k' lb : find k s = Some lb -> find k' s = Some lb -> k = k';
  inv_sub k : S k ⊆ dom (R k);
  inv_size k : Z.of_nat (size (R k)) < 2 ^ 31;
}.


(** ** Finding and making *)





(** ** The balancers *)











(** ** A change of a service *)









(** ** The parts one after the other *)

Lemma put_lb_id lb b (s : SD) : sd_heap s !! lb = Some b -> put_lb lb (lb_round b) (lb_state b) s = s.
Proof. intros E. destruct s, b. unfold put_lb. cbn in *. by rewrite list_insert_id. Qed.

Lemma put_lb_lookup lb round st (s : SD) b : sd_heap s !! lb = Some b -> sd_heap (put_lb lb round st s) !! lb = Some (mkBalancer round st).
Proof. intros E. apply list_lookup_insert_eq. by eapply lookup_lt_Some. Qed.

Lemma put_lb_twice lb r1 st1 r2 st2 (s : SD) : put_lb lb r2 st2 (put_lb lb r1 st1 s) = put_lb lb r2 st2 s.
Proof. unfold put_lb. cbn. by rewrite list_insert_insert_eq. Qed.

Section alone.
Context (conn : Stream -> bool) (fw : LoadBalanceItem Stream -> Z) (now : Z) (old : gmap Z Info) (k : key).

Lemma run_step fuel (p p' : pc) (s s' : SD) closed a cl : advance conn conn fw now old p s = Ok (mkOutcome (Some p') s' a cl) ->
  run_alone (S fuel) conn fw now old p s closed = run_alone fuel conn fw now old p' s' (closed ++ cl).
Proof. intros E. cbn. by rewrite E. Qed.

Lemma run_end fuel (p : pc) (s s' : SD) closed a cl : advance conn conn fw now old p s = Ok (mkOutcome None s' a cl) ->
  run_alone (S fuel) conn fw now old p s closed = Ok (a, s', closed ++ cl).
Proof. intros E. cbn. by rewrite E. Qed.

(** A part of [get] on a balancer that is there. *)
Lemma advance_get seen lb b g next b' (s : SD) : sd_heap s !! lb = Some b -> get_part conn seen fw now g b = Ok (next, b') ->
  advance conn seen fw now old (Getting k lb g : pc) s =
  Ok (let s := put_lb lb (lb_round b') (lb_state b') s in
      match next with inl g => mkOutcome (Some (Getting k lb g)) s None [] | inr h => mkOutcome None s (Some h) [] end).
Proof. intros Eb E. cbn [advance]. unfold at_lb. rewrite Eb, E. done. Qed.

Lemma closing_alone items : forall fuel (s : SD) closed, (length items < fuel)%nat ->
  run_alone fuel conn fw now old (Changing k (Closing items) : pc) s closed = Ok (None, s, closed ++ concat (map close_item items)).
Proof.
  induction items as [|i items IH]; intros [|fuel] s closed L; cbn in L; try lia.
  - by erewrite run_end by done.
  - erewrite run_step by done. rewrite IH by lia. cbn. by rewrite <- app_assoc.
Qed.

(** A report that nothing comes between is [onServiceChange]. *)
Lemma change_alone m_cb new (s : SD) items s' : onServiceChange conn fw m_cb k.1 k.2 old new s = Ok (items, s') ->
  forall fuel, (6 + length items <= fuel)%nat ->
  run_alone fuel conn fw now old (Changing k (Typing m_cb new) : pc) s [] = Ok (None, s', concat (map close_item items)).
Proof.
  intros E fuel L. unfold onServiceChange, sd_get in E. destruct fuel as [|[|[|[|[|fuel]]]]]; try lia.
  erewrite run_step by done. cbn [app]. destruct (find k s) as [lb|] eqn:F; cbn [deref rbind] in E.
  - erewrite run_step by (cbn [advance change_part rbind option_map]; by rewrite F). cbn [app].
    erewrite run_step by (cbn [advance change_part]; by rewrite E). apply closing_alone. lia.
  - erewrite run_step by (cbn [advance change_part rbind option_map]; by rewrite F). cbn [app].
    erewrite run_step by done. cbn [app].
    destruct (sd_create (getType k.1 k.2 s) k.1 k.2 s) as [lb s1] eqn:Ec. cbn [deref rbind] in E.
    erewrite run_step by (cbn [advance change_part]; by rewrite Ec). cbn [app].
    erewrite run_step by (cbn [advance change_part]; by rewrite E). apply closing_alone. lia.
Qed.

Lemma scanning_alone lb b r n : forall i fuel (s : SD) h, sd_heap s !! lb = Some b ->
  Z.of_nat n = len (lb_items (lb_state b)) - i -> scan n i r (isValid conn) (lb_items (lb_state b)) = Ok h -> (n < fuel)%nat ->
  run_alone fuel conn fw now old (Getting k lb (Scanning i r) : pc) s [] = Ok (Some h, s, []).
Proof.
  induction n as [|n IH]; intros i [|fuel] s h Eb En E L; try lia.
  - injection E as <-. erewrite run_end; [done|]. erewrite advance_get; [|exact Eb|cbn [get_part]; by replace (i <? _) with false by lia].
    cbn. by rewrite put_lb_id.
  - cbn [scan] in E. destruct (lb_items _ !! _) as [p|] eqn:El; [|done].
    assert (G : get_part conn conn fw now (Scanning i r) b = Ok (if isValid conn p then inr (Some p) else inl (Scanning (i + 1) r), b)).
    { cbn [get_part scan]. replace (i <? _) with true by lia. rewrite El. by destruct (isValid conn p). }
    pose proof (advance_get conn lb b _ _ b s Eb G) as A. cbv zeta in A. rewrite put_lb_id in A by done. destruct (isValid conn p).
    + injection E as <-. by erewrite run_end by exact A.
    + erewrite run_step by exact A. by apply IH; [|lia| |lia].
Qed.

Lemma starting_alone fuel lb b v rnd (s : SD) h : sd_heap s !! lb = Some b -> (2 + length (lb_items (lb_state b)) <= fuel)%nat ->
  (let! r := start_index (lb_round b) v rnd (lb_state b) in
   match r with None => Ok None | Some r => scan (length (lb_items (lb_state b))) 0 r (isValid conn) (lb_items (lb_state b)) end) = Ok h ->
  run_alone fuel conn fw now old (Getting k lb (Starting v rnd) : pc) s [] = Ok (Some h, s, []).
Proof.
  intros Eb L E. destruct fuel as [|fuel]; [lia|]. apply rbind_ok in E as (r & Er & E).
  assert (G : get_part conn conn fw now (Starting v rnd) b = Ok (match r with None => inr None | Some r => inl (Scanning 0 r) end, b))
    by (cbn [get_part]; by rewrite Er).
  pose proof (advance_get conn lb b _ _ b s Eb G) as A. cbv zeta in A. rewrite put_lb_id in A by done. destruct r as [r|].
  - erewrite run_step by exact A. apply (scanning_alone lb b r (length (lb_items (lb_state b)))); [done|unfold len; lia|done|lia].
  - injection E as <-. by erewrite run_end by exact A.
Qed.

(** What [RoundRobinLoadBalance::get] and [WeightLoadBalance::get] give. *)
Lemma pick_parts v rnd b h st : sd_pick conn fw now v rnd b = Ok (h, st) -> st = checkInit (initNolock conn fw (lb_round b)) now (lb_state b) /\
  (let! r := start_index (lb_round b) v rnd st in
   match r with None => Ok None | Some r => scan (length (lb_items st)) 0 r (isValid conn) (lb_items st) end) = Ok h.
Proof.
  unfold sd_pick, rr_get, weight_get, start_index, initNolock. destruct (lb_round b); set (st1 := checkInit _ _ _).
  - destruct (lb_items st1) as [|x l] eqn:El; [intros [= <- <-]; by rewrite El|].
    intros (h' & E & [= <- <-])%rbind_ok. rewrite El. done.
  - intros (idx & E1 & E)%rbind_ok. destruct (idx =? -1) eqn:Ei.
    + injection E as <- <-. rewrite E1. cbn [rbind]. by rewrite Ei.
    + apply rbind_ok in E as (h' & E & [= <- <-]). rewrite E1. cbn [rbind]. by rewrite Ei.
Qed.

(** A client that nothing comes between gets that. *)
Lemma pick_alone lb b v rnd (s : SD) h st : sd_heap s !! lb = Some b ->
  sd_pick conn fw now v rnd b = Ok (h, st) -> forall fuel, (5 + length (lb_items st) <= fuel)%nat ->
  run_alone fuel conn fw now old (Getting k lb (Looking v rnd) : pc) s [] = Ok (Some h, put_lb lb (lb_round b) st s, []).
Proof.
  intros Eb E fuel L. apply pick_parts in E as [Est P]. destruct fuel as [|[|[|fuel]]]; try lia.
  erewrite run_step by (erewrite advance_get by done; done). rewrite put_lb_id by done. cbn [app].
  unfold checkInit in Est. destruct (500 <? _).
  - pose proof (put_lb_lookup lb (lb_round b) (initNolock conn fw (lb_round b) (lb_state b)) s b Eb) as E1.
    erewrite run_step by (erewrite advance_get by done; done). cbn [app lb_round lb_state].
    erewrite run_step by (erewrite advance_get by done; done). cbn [app lb_round lb_state]. rewrite put_lb_twice, <- Est.
    apply (starting_alone _ _ (mkBalancer (lb_round b) st)); [by apply (put_lb_lookup _ _ _ _ b)|cbn; lia|exact P].
  - subst st. rewrite put_lb_id by done. apply (starting_alone _ _ b); [done|lia|exact P].
Qed.
End alone.

(** ** Runs

    Streams connect and lose their connection at any time; one whose close has run stays
    closed. Only reports make balancers: clients ask without [auto_create], as
    [RockSDLoadBalance::request] does, and the reports of one service are taken one at a
    time, each with the one before as its old value. *)
















Lemma inv_pointwise (s : SD) R R' S S' : (forall k, R k = R' k) -> (forall k, S k = S' k) -> sd_inv s R S -> sd_inv s R' S'.
Proof.
  intros ER ES [I1 I2 I3 I4 I5]. constructor; [intros k; rewrite <- ES; apply I1|intros k; rewrite <- ES; apply I2|done| |];
    intros k; rewrite <- ?ES, <- ER; [apply I4|apply I5].
Qed.





(** * The theorem *)

End sd.

(** Two threads that ask for a service at the same time both find none and make one each:
    the second takes the place of the first, which the first thread goes on to fill. *)
Example two_balancers : let s := new_SDLoadBalance (Stream := Z) in
  let (lb1, s1) := sd_create FAIR [] [] s in let (lb2, s2) := sd_create FAIR [] [] s1 in
  sd_find [] [] s = None /\ lb1 = 0%nat /\ sd_find [] [] s2 = Some 1%nat.
Proof. vm_compute. done. Qed.

(** ** Witness *)

(** A run of one thread at a time: a report of two ids, of which one has a stream, and then a
    client that asks. *)
Abbreviation demo_key := (list byte * list byte)%type.








