(* ===== verification/ThreadPool.v ===== *)
(** The pool of threads (include/io/thread_pool.hpp).

    What a thread does under the mutex is one step; a thread that waits on a condition
    variable leaves it when it is notified, when its time is over, or for no reason. Tasks
    are values: what one does, and when it is done, is up to the client. The clock is a
    label: whether a thread has been idle for [THREAD_MAX_IDLE_TIME] when it looks.

    The number of a thread is its place in [threads]: [generateId_] counts the threads of
    the process from zero. [threads_] has the threads that are not [Gone]. What was
    accepted, taken and done is recorded beside the state of the code. *)
From S2P Require Import Prelude.

Definition TASK_QUE_MAX_SIZE_ : Z := 1024.
Definition THREAD_MAX_SIZE : Z := 1024.

Inductive PoolMode := MODE_FIXED | MODE_CACHED.

#[global] Instance PoolMode_eq_dec : EqDecision PoolMode.
Proof. solve_decision. Defined.

Section pool.
Context {Task : Type}.

(** Where a thread is in [threadFunc]: before it takes the mutex, at the top of the loop or
    woken; waiting; woken by the time; with a task before and after [idleThreadSize_--];
    before [idleThreadSize_++]; returned; made but never started. *)
Inductive tpc :=
  | Lock
  | Waiting
  | TimedOut
  | Got (t : Task)
  | Run (t : Task)
  | Ran
  | Gone
  | Stillborn.

(** The destructor: not called, before it takes the mutex, waiting for [exitCond_],
    notified, done. *)
Inductive dpc := NotCalled | Stopping | WaitExit | Woken | Destroyed.

#[global] Instance dpc_eq_dec : EqDecision dpc.
Proof. solve_decision. Defined.

Record ThreadPool := mkPool {
  threads : list tpc;
  initThreadSize_ : Z;
  threadMaxSize_ : Z;
  idleThreadSize_ : Z;
  currentThreadSize_ : Z;
  taskQue_ : list Task;
  taskQueMaxSize_ : Z;
  currentTaskSize_ : Z;
  poolMode_ : PoolMode;
  poolIsRunning_ : bool;
  dtor : dpc;
  accepted : list Task;
  taken : list Task;
  done_ : list Task;
}.

Definition new_ThreadPool : ThreadPool :=
  mkPool [] 0 THREAD_MAX_SIZE 0 0 [] TASK_QUE_MAX_SIZE_ 0 MODE_FIXED false NotCalled [] [] [].

(** ** Settings: only before [start] *)

Definition setMode (mode : PoolMode) (s : ThreadPool) : ThreadPool :=
  if poolIsRunning_ s then s
  else mkPool (threads s) (initThreadSize_ s) (threadMaxSize_ s) (idleThreadSize_ s) (currentThreadSize_ s) (taskQue_ s)
         (taskQueMaxSize_ s) (currentTaskSize_ s) mode (poolIsRunning_ s) (dtor s) (accepted s) (taken s) (done_ s).

Definition setTaskQueMaxSize (size : Z) (s : ThreadPool) : ThreadPool :=
  if poolIsRunning_ s then s
  else mkPool (threads s) (initThreadSize_ s) (threadMaxSize_ s) (idleThreadSize_ s) (currentThreadSize_ s) (taskQue_ s)
         size (currentTaskSize_ s) (poolMode_ s) (poolIsRunning_ s) (dtor s) (accepted s) (taken s) (done_ s).

Definition setThreadMaxSize (size : Z) (s : ThreadPool) : ThreadPool :=
  if poolIsRunning_ s then s
  else if decide (poolMode_ s = MODE_CACHED) then
    mkPool (threads s) (initThreadSize_ s) size (idleThreadSize_ s) (currentThreadSize_ s) (taskQue_ s)
      (taskQueMaxSize_ s) (currentTaskSize_ s) (poolMode_ s) (poolIsRunning_ s) (dtor s) (accepted s) (taken s) (done_ s)
  else s.

(** [start] of a pool in a process that has made [generateId_] threads before: the new
    threads get the numbers that follow, and then those from zero are started. *)
Definition start (generateId_ n : Z) (s : ThreadPool) : res ThreadPool :=
  if poolIsRunning_ s then Ok s
  else if (0 <? n) && negb (generateId_ =? 0) then Crash null_deref
  else Ok (mkPool (threads s ++ replicate (Z.to_nat n) Lock) n (threadMaxSize_ s) (u32 (idleThreadSize_ s + n)) (u32 n) (taskQue_ s)
             (taskQueMaxSize_ s) (currentTaskSize_ s) (poolMode_ s) true (dtor s) (accepted s) (taken s) (done_ s)).

(** ** Steps *)

(** [notify_all] of [taskQueNotEmpty_]. *)
Definition wake_worker (t : tpc) : tpc := match t with Waiting => Lock | t => t end.
Definition notify_workers (ts : list tpc) : list tpc := map wake_worker ts.

(** [exitCond_.notify_all()] *)
Definition notify_exit (d : dpc) : dpc := match d with WaitExit => Woken | d => d end.

(** A new thread in [submitTask]; when the system makes none, [std::system_error] is
    caught and the entry of [threads_] stays. *)
Definition grow (created : bool) (s : ThreadPool) : ThreadPool :=
  if decide (poolMode_ s = MODE_CACHED) then
    if (idleThreadSize_ s <? currentTaskSize_ s) && (currentThreadSize_ s <? threadMaxSize_ s) then
      if created then
        mkPool (threads s ++ [Lock]) (initThreadSize_ s) (threadMaxSize_ s) (u32 (idleThreadSize_ s + 1)) (u32 (currentThreadSize_ s + 1))
          (taskQue_ s) (taskQueMaxSize_ s) (currentTaskSize_ s) (poolMode_ s) (poolIsRunning_ s) (dtor s) (accepted s) (taken s) (done_ s)
      else
        mkPool (threads s ++ [Stillborn]) (initThreadSize_ s) (threadMaxSize_ s) (idleThreadSize_ s) (currentThreadSize_ s)
          (taskQue_ s) (taskQueMaxSize_ s) (currentTaskSize_ s) (poolMode_ s) (poolIsRunning_ s) (dtor s) (accepted s) (taken s) (done_ s)
    else s
  else s.

(** [submitTask] when there is room: the task is queued; when there is none for a second,
    the caller gets a future that is ready with a default value. *)
Definition submitTask (t : Task) (created : bool) (s : ThreadPool) : option (bool * ThreadPool) :=
  if len (taskQue_ s) <? taskQueMaxSize_ s then
    Some (true, grow created
      (mkPool (notify_workers (threads s)) (initThreadSize_ s) (threadMaxSize_ s) (idleThreadSize_ s) (currentThreadSize_ s)
        (taskQue_ s ++ [t]) (taskQueMaxSize_ s) (u32 (currentTaskSize_ s + 1)) (poolMode_ s) (poolIsRunning_ s) (dtor s)
        (accepted s ++ [t]) (taken s) (done_ s)))
  else Some (false, s).

Definition set_thread (i : nat) (t : tpc) (s : ThreadPool) : ThreadPool :=
  mkPool (<[i := t]> (threads s)) (initThreadSize_ s) (threadMaxSize_ s) (idleThreadSize_ s) (currentThreadSize_ s) (taskQue_ s)
    (taskQueMaxSize_ s) (currentTaskSize_ s) (poolMode_ s) (poolIsRunning_ s) (dtor s) (accepted s) (taken s) (done_ s).

(** The mutex is taken and the queue is empty: return when the pool stops, or wait. *)
Definition empty_queue (i : nat) (s : ThreadPool) : ThreadPool :=
  if poolIsRunning_ s then set_thread i Waiting s
  else
    mkPool (<[i := Gone]> (threads s)) (initThreadSize_ s) (threadMaxSize_ s) (idleThreadSize_ s) (currentThreadSize_ s) (taskQue_ s)
      (taskQueMaxSize_ s) (currentTaskSize_ s) (poolMode_ s) (poolIsRunning_ s) (notify_exit (dtor s)) (accepted s) (taken s) (done_ s).

(** The first task is taken. *)
Definition take_task (i : nat) (t : Task) (rest : list Task) (s : ThreadPool) : ThreadPool :=
  let ts := <[i := Got t]> (threads s) in
  mkPool (match rest with [] => ts | _ => notify_workers ts end) (initThreadSize_ s) (threadMaxSize_ s) (idleThreadSize_ s)
    (currentThreadSize_ s) rest (taskQueMaxSize_ s) (u32 (currentTaskSize_ s - 1)) (poolMode_ s) (poolIsRunning_ s) (dtor s)
    (accepted s) (taken s ++ [t]) (done_ s).

(** The loop [while (taskQue_.empty())] and what follows it. *)
Definition look (i : nat) (s : ThreadPool) : ThreadPool :=
  match taskQue_ s with [] => empty_queue i s | t :: rest => take_task i t rest s end.

(** A thread whose time is over returns when it has been idle for long and there are more
    threads than at the start, whatever is in the queue, and notifies nobody. *)
Definition timed_out (i : nat) (idle_long : bool) (s : ThreadPool) : ThreadPool :=
  if idle_long && (initThreadSize_ s <? currentThreadSize_ s) then
    mkPool (<[i := Gone]> (threads s)) (initThreadSize_ s) (threadMaxSize_ s) (u32 (idleThreadSize_ s - 1)) (u32 (currentThreadSize_ s - 1))
      (taskQue_ s) (taskQueMaxSize_ s) (currentTaskSize_ s) (poolMode_ s) (poolIsRunning_ s) (dtor s) (accepted s) (taken s) (done_ s)
  else look i s.

Definition set_idle (i : nat) (t : tpc) (idle : Z) (done : list Task) (s : ThreadPool) : ThreadPool :=
  mkPool (<[i := t]> (threads s)) (initThreadSize_ s) (threadMaxSize_ s) (u32 idle) (currentThreadSize_ s) (taskQue_ s)
    (taskQueMaxSize_ s) (currentTaskSize_ s) (poolMode_ s) (poolIsRunning_ s) (dtor s) (accepted s) (taken s) done.

(** [threadFunc], one step of thread [i]. *)
Definition threadFunc (i : nat) (s : ThreadPool) : option ThreadPool :=
  match threads s !! i with
  | Some Lock => Some (look i s)
  | Some (Got t) => Some (set_idle i (Run t) (idleThreadSize_ s - 1) (done_ s) s)
  | Some (Run t) => Some (set_idle i Ran (idleThreadSize_ s) (done_ s ++ [t]) s)
  | Some Ran => Some (set_idle i Lock (idleThreadSize_ s + 1) (done_ s) s)
  | _ => None
  end.

Definition threads_empty (ts : list tpc) : bool := forallb (fun t => match t with Gone => true | _ => false end) ts.

Definition set_dtor (d : dpc) (running : bool) (ts : list tpc) (s : ThreadPool) : ThreadPool :=
  mkPool ts (initThreadSize_ s) (threadMaxSize_ s) (idleThreadSize_ s) (currentThreadSize_ s) (taskQue_ s)
    (taskQueMaxSize_ s) (currentTaskSize_ s) (poolMode_ s) running d (accepted s) (taken s) (done_ s).

(** [exitCond_.wait(lock, threads_.empty())] *)
Definition wait_exit (s : ThreadPool) (ts : list tpc) : ThreadPool :=
  set_dtor (if threads_empty ts then Destroyed else WaitExit) (poolIsRunning_ s) ts s.

(** [~ThreadPool], one step. *)
Definition destroy_pool (s : ThreadPool) : option ThreadPool :=
  match dtor s with
  | NotCalled => Some (set_dtor Stopping false (threads s) s)
  | Stopping => Some (wait_exit s (notify_workers (threads s)))
  | Woken => Some (wait_exit s (threads s))
  | _ => None
  end.

(** What can happen next. A client that has called the destructor submits no more. *)
Inductive label :=
  | Submit (t : Task) (created : bool)
  | Work (i : nat)
  | Timeout (i : nat)
  | Retire (i : nat) (idle_long : bool)
  | Spurious (i : nat)
  | Destroy
  | SpuriousExit.

Definition step (l : label) (s : ThreadPool) : option ThreadPool :=
  match l with
  | Submit t created => match dtor s with NotCalled => option_map snd (submitTask t created s) | _ => None end
  | Work i => threadFunc i s
  | Timeout i =>
      match threads s !! i with
      | Some Waiting => if decide (poolMode_ s = MODE_CACHED) then Some (set_thread i TimedOut s) else None
      | _ => None
      end
  | Retire i idle_long => match threads s !! i with Some TimedOut => Some (timed_out i idle_long s) | _ => None end
  | Spurious i => match threads s !! i with Some Waiting => Some (set_thread i Lock s) | _ => None end
  | Destroy => destroy_pool s
  | SpuriousExit => match dtor s with WaitExit => Some (set_dtor Woken (poolIsRunning_ s) (threads s) s) | _ => None end
  end.

Fixpoint pool_run (ls : list label) (s : ThreadPool) : option ThreadPool :=
  match ls with
  | [] => Some s
  | l :: ls => match step l s with Some s => pool_run ls s | None => None end
  end.
End pool.

Arguments ThreadPool : clear implicits.
Arguments tpc : clear implicits.
Arguments label : clear implicits.
