(* ===== verification/ThreadPoolSpec.v ===== *)
(** The pool of threads does what it accepts, once and in order, and comes to rest. *)
From S2P Require Import Prelude ThreadPool.

(** ** Sums over the threads *)

Section sums.
Context {A : Type}.

Definition tsum (f : A -> Z) (l : list A) : Z := foldr (fun x n => f x + n) 0 l.

Lemma tsum_app f (l k : list A) : tsum f (l ++ k) = tsum f l + tsum f k.
Proof. unfold tsum. induction l as [|x l IH]; cbn; lia. Qed.

Lemma tsum_insert f (l : list A) i x y : l !! i = Some x -> tsum f (<[i := y]> l) = tsum f l - f x + f y.
Proof.
  intros E. rewrite <- (take_drop_middle l i x E) at 2. rewrite insert_take_drop by (by eapply lookup_lt_Some).
  rewrite !tsum_app. unfold tsum. cbn. lia.
Qed.

Lemma tsum_map f (g : A -> A) (l : list A) : (forall x, f (g x) = f x) -> tsum f (map g l) = tsum f l.
Proof. intros H. unfold tsum. induction l as [|x l IH]; [done|]. cbn. by rewrite H, IH. Qed.

Lemma tsum_bounds f n (l : list A) : (forall x, 0 <= f x <= n) -> 0 <= tsum f l <= n * len l.
Proof. intros H. unfold tsum, len. induction l as [|x l IH]; cbn [foldr length]; [lia|]. specialize (H x). lia. Qed.

Lemma tsum_in f (l : list A) i x : (forall x, 0 <= f x) -> l !! i = Some x -> f x <= tsum f l.
Proof.
  intros H E. rewrite <- (take_drop_middle l i x E), tsum_app. unfold tsum at 2. cbn.
  assert (forall k, 0 <= tsum f k) as P by (intros k; unfold tsum; induction k as [|y k IH]; cbn; [lia|specialize (H y); lia]).
  pose proof (P (take i l)). pose proof (P (drop (S i) l)) as Q. unfold tsum in *. lia.
Qed.
End sums.

Section pool.
Context {Task : Type}.
Implicit Types (s : ThreadPool Task) (ts : list (tpc Task)).

(** A thread that runs; one that [idleThreadSize_] counts; the task it has. *)
Definition alive (t : tpc Task) : Z := match t with Gone | Stillborn => 0 | _ => 1 end.
Definition idle (t : tpc Task) : Z := match t with Lock | Waiting | TimedOut | Got _ => 1 | _ => 0 end.
Definition task_of (t : tpc Task) : list Task := match t with Got t | Run t => [t] | _ => [] end.
Definition tasks_of ts : list Task := concat (map task_of ts).

Lemma alive_bounds t : 0 <= alive t <= 1.
Proof. destruct t; cbn; lia. Qed.
Lemma idle_bounds t : 0 <= idle t <= 1.
Proof. destruct t; cbn; lia. Qed.
Lemma idle_alive ts : tsum idle ts <= tsum alive ts.
Proof. unfold tsum. induction ts as [|t ts IH]; cbn; [lia|]. destruct t; cbn; lia. Qed.

Lemma tasks_insert ts i x y : ts !! i = Some x -> task_of x ++ tasks_of (<[i := y]> ts) ≡ₚ task_of y ++ tasks_of ts.
Proof.
  intros E. unfold tasks_of. rewrite <- (take_drop_middle ts i x E) at 2. rewrite insert_take_drop by (by eapply lookup_lt_Some).
  rewrite !map_app, !concat_app. cbn. set (a := concat _). set (b := concat _). solve_Permutation.
Qed.

Lemma tasks_wake ts : tasks_of (notify_workers ts) = tasks_of ts.
Proof. unfold tasks_of, notify_workers. induction ts as [|t ts IH]; [done|]. cbn. rewrite IH. by destruct t. Qed.

Lemma tsum_wake f ts : f Waiting = f Lock -> tsum f (notify_workers ts) = tsum f ts.
Proof. intros H. apply tsum_map. by intros []. Qed.

Lemma no_waiting ts i : notify_workers ts !! i <> Some Waiting.
Proof. unfold notify_workers. rewrite list_lookup_fmap. destruct (ts !! i) as [t|]; [|done]. by destruct t. Qed.

Lemma empty_gone ts : threads_empty ts = true -> tsum alive ts = 0 /\ tasks_of ts = [].
Proof.
  unfold threads_empty, tsum, tasks_of. induction ts as [|t ts IH]; [done|]. cbn. intros [Et E]%andb_prop. destruct t; try done.
  by apply IH.
Qed.

(** ** The invariant *)

(** The counters hold until the queue is empty and the pool stops. *)
Definition counted s : Prop := dtor s = NotCalled \/ taskQue_ s <> [].

Record pool_inv s : Prop := {
  p_tasks : currentTaskSize_ s = len (taskQue_ s);
  p_queue : len (taskQue_ s) <= Z.max 0 (taskQueMaxSize_ s);
  p_qmax : taskQueMaxSize_ s < 2 ^ 32;
  p_tmax : Z.max (initThreadSize_ s) (threadMaxSize_ s) < 2 ^ 32;
  p_first : 0 < initThreadSize_ s;
  p_count : counted s -> idleThreadSize_ s = tsum idle (threads s) /\ currentThreadSize_ s = tsum alive (threads s) /\
    initThreadSize_ s <= currentThreadSize_ s <= Z.max (initThreadSize_ s) (threadMaxSize_ s);
  p_wait i : taskQue_ s <> [] -> threads s !! i <> Some Waiting;
  p_run : poolIsRunning_ s = bool_decide (dtor s = NotCalled);
  p_stop i : dtor s <> NotCalled -> dtor s <> Stopping -> threads s !! i <> Some Waiting;
  p_end : dtor s = Destroyed -> threads_empty (threads s) = true;
  p_order : accepted s = taken s ++ taskQue_ s;
  p_done : taken s ≡ₚ done_ s ++ tasks_of (threads s);
}.

(** The fields of a state that a step has made. *)
Ltac fields := cbn [threads initThreadSize_ threadMaxSize_ idleThreadSize_ currentThreadSize_ taskQue_ taskQueMaxSize_ currentTaskSize_
  poolMode_ poolIsRunning_ dtor accepted taken done_ set_thread empty_queue take_task set_idle set_dtor].

Lemma pool_start_inv mode qmax tmax n s : 0 < n -> qmax < 2 ^ 32 -> Z.max n (Z.max THREAD_MAX_SIZE tmax) < 2 ^ 32 ->
  start 0 n (setThreadMaxSize tmax (setTaskQueMaxSize qmax (setMode mode (new_ThreadPool (Task := Task))))) = Ok s -> pool_inv s.
Proof.
  intros Ln Lq Lt E.
  assert (exists tm, s = mkPool (replicate (Z.to_nat n) Lock) n tm n n [] qmax 0 mode true NotCalled [] [] [] /\ Z.max n tm < 2 ^ 32) as (tm & -> & Lm).
  { revert E. unfold start. rewrite andb_false_r. unfold setThreadMaxSize, setTaskQueMaxSize, setMode, new_ThreadPool. cbn.
    destruct (decide (mode = MODE_CACHED)); cbn; intros [= <-]; rewrite !u32_small by (unfold THREAD_MAX_SIZE in *; lia); eexists; (split; [done|unfold THREAD_MAX_SIZE in *; lia]). }
  assert (forall k f, f (Lock (Task := Task)) = 1 -> tsum f (replicate k Lock) = Z.of_nat k) as T.
  { intros k f F. induction k as [|k IH]; [done|]. unfold tsum in *. cbn [replicate foldr]. lia. }
  assert (tasks_of (replicate (Z.to_nat n) (Lock (Task := Task))) = []) as B by (clear; induction (Z.to_nat n) as [|k IH]; [done|exact IH]).
  constructor; fields; try done; try lia; try (by rewrite B).
  - unfold len. cbn. lia.
  - intros _. rewrite !T by done. lia.
Qed.

(** A step that moves a thread between places that count the same, without a task. *)
Lemma move_thread_inv s i x y : pool_inv s -> threads s !! i = Some x -> alive x = alive y -> idle x = idle y -> task_of x = [] -> task_of y = [] ->
  (y = Waiting -> taskQue_ s = [] /\ dtor s = NotCalled) -> dtor s <> Destroyed -> pool_inv (set_thread i y s).
Proof.
  intros [] E Ea Ei Tx Ty W D. constructor; fields; try done.
  - intros C. destruct (p_count0 C) as (C1 & C2 & C3). rewrite !(tsum_insert _ _ i x y E). rewrite Ea, Ei. split_and!; lia.
  - intros j Nq Ej. apply list_lookup_insert_Some in Ej as [(_ & -> & _)|[_ Ej]]; [by destruct (W eq_refl)|by apply (p_wait0 j)].
  - intros j N1 N2 Ej. apply list_lookup_insert_Some in Ej as [(_ & -> & _)|[_ Ej]]; [by destruct (W eq_refl)|by apply (p_stop0 j)].
  - pose proof (tasks_insert (threads s) i x y E) as P. rewrite Tx, Ty in P. cbn in P. by rewrite P.
Qed.

Lemma not_destroyed s i t : pool_inv s -> threads s !! i = Some t -> t <> Gone -> dtor s <> Destroyed.
Proof.
  intros I E N D. apply (p_end _ I) in D. unfold threads_empty in D. rewrite forallb_forall in D.
  assert (In t (threads s)) as J by (apply list_elem_of_In; by eapply list_elem_of_lookup_2). apply D in J. by destruct t.
Qed.

Lemma take_inv s i t rest x : pool_inv s -> threads s !! i = Some x -> (x = Lock \/ x = TimedOut) -> taskQue_ s = t :: rest ->
  pool_inv (take_task i t rest s).
Proof.
  intros I E X Q. pose proof (not_destroyed s i x I E ltac:(by destruct X as [->| ->])) as Nd. destruct I.
  assert (X' : alive x = 1 /\ idle x = 1 /\ task_of x = []) by (by destruct X as [->| ->]). destruct X' as (X1 & X2 & X3).
  assert (Lr : len rest = len (taskQue_ s) - 1) by (rewrite Q; unfold len; cbn [length]; lia).
  assert (N0 : 0 <= len rest) by (unfold len; lia).
  assert (Ts : forall f, f Waiting = f Lock -> tsum f (match rest with [] => <[i := Got t]> (threads s) | _ => notify_workers (<[i := Got t]> (threads s)) end) = tsum f (threads s) - f x + f (Got t)).
  { intros f Hf. destruct rest; [|rewrite tsum_wake by done]; by rewrite (tsum_insert _ _ _ _ _ E). }
  constructor; fields; try done; try lia.
  - rewrite p_tasks0, u32_small; lia.
  - intros _. destruct p_count0 as (C1 & C2 & C3); [right; by rewrite Q|]. rewrite !Ts by done. cbn. lia.
  - intros j Nr. destruct rest; [done|]. apply no_waiting.
  - intros j N1 N2. destruct rest; [|apply no_waiting]. intros Ej. apply list_lookup_insert_Some in Ej as [(_ & [=] & _)|[_ Ej]]. by apply (p_stop0 j).
  - rewrite p_order0, Q, <- app_assoc. done.
  - assert (tasks_of (match rest with [] => <[i := Got t]> (threads s) | _ => notify_workers (<[i := Got t]> (threads s)) end) = tasks_of (<[i := Got t]> (threads s))) as ->
      by (destruct rest; [done|apply tasks_wake]).
    pose proof (tasks_insert (threads s) i x (Got t) E) as P. rewrite X3 in P. cbn in P. rewrite P, p_done0. solve_Permutation.
Qed.

Lemma exit_inv s i x : pool_inv s -> threads s !! i = Some x -> (x = Lock \/ x = TimedOut) -> taskQue_ s = [] -> pool_inv (empty_queue i s).
Proof.
  intros I E X Q. pose proof (not_destroyed s i x I E ltac:(by destruct X as [->| ->])) as Nd. pose proof (p_run _ I) as R. unfold empty_queue.
  destruct (poolIsRunning_ s) eqn:Er.
  - symmetry in R. apply bool_decide_eq_true in R. apply (move_thread_inv s i x Waiting); try done; by destruct X as [->| ->].
  - symmetry in R. apply bool_decide_eq_false in R. destruct I. constructor; fields; try done.
    + intros [C|C]; [|done]. cbn in C. exfalso. destruct (dtor s); by try congruence.
    + destruct (dtor s); [by destruct R|done..].
    + intros j N1 N2 Ej. apply list_lookup_insert_Some in Ej as [(_ & [=] & _)|[_ Ej]]. apply (p_stop0 j); [done| |done]. intros D. by rewrite D in N2.
    + intros D. exfalso. destruct (dtor s); by try congruence.
    + pose proof (tasks_insert (threads s) i x Gone E) as P. assert (task_of x = []) as Tx by (by destruct X as [->| ->]). rewrite Tx in P. cbn in P. by rewrite P.
Qed.

Lemma look_inv s i x : pool_inv s -> threads s !! i = Some x -> (x = Lock \/ x = TimedOut) -> pool_inv (look i s).
Proof. intros I E X. unfold look. destruct (taskQue_ s) eqn:Q; [by eapply exit_inv|by eapply take_inv]. Qed.

Lemma set_idle_inv s i x y n done : pool_inv s -> threads s !! i = Some x -> alive x = 1 -> alive y = 1 -> y <> Waiting ->
  n = idleThreadSize_ s - idle x + idle y -> done_ s ++ task_of x ≡ₚ done ++ task_of y -> pool_inv (set_idle i y n done s).
Proof.
  intros I E Ax Ay W En P. pose proof (not_destroyed s i x I E ltac:(by intros ->)) as Nd. destruct I. constructor; fields; try done.
  - intros C. destruct (p_count0 C) as (C1 & C2 & C3). rewrite !(tsum_insert _ _ i x y E).
    pose proof (tsum_in idle (threads s) i x (fun t => proj1 (idle_bounds t)) E). pose proof (idle_alive (threads s)).
    pose proof (idle_alive (<[i := y]> (threads s))) as L. rewrite !(tsum_insert _ _ i x y E) in L. pose proof (idle_bounds y).
    rewrite u32_small by lia. lia.
  - intros j Nq Ej. apply list_lookup_insert_Some in Ej as [(_ & -> & _)|[_ Ej]]; [done|by apply (p_wait0 j)].
  - intros j N1 N2 Ej. apply list_lookup_insert_Some in Ej as [(_ & -> & _)|[_ Ej]]; [done|by apply (p_stop0 j)].
  - pose proof (tasks_insert (threads s) i x y E) as T. apply (Permutation_app_inv_l (task_of x ++ task_of y)).
    transitivity (task_of y ++ (done_ s ++ task_of x) ++ tasks_of (threads s)); [rewrite p_done0; solve_Permutation|].
    rewrite P. transitivity (task_of y ++ done ++ (task_of y ++ tasks_of (threads s))); [solve_Permutation|]. rewrite <- T. solve_Permutation.
Qed.

Lemma timed_out_inv s i b : pool_inv s -> threads s !! i = Some TimedOut -> pool_inv (timed_out i b s).
Proof.
  intros I E. unfold timed_out. destruct (b && _) eqn:L; [|eapply look_inv; [done|done|by right]].
  apply andb_prop in L as [_ L]. pose proof (not_destroyed s i _ I E ltac:(done)) as Nd. destruct I. constructor; fields; try done.
  - intros C. destruct (p_count0 C) as (C1 & C2 & C3). rewrite !(tsum_insert _ _ i _ Gone E).
    pose proof (tsum_in idle (threads s) i _ (fun t => proj1 (idle_bounds t)) E) as L1. pose proof (idle_alive (threads s)).
    cbn [idle alive] in *. rewrite !u32_small by lia. lia.
  - intros j Nq Ej. apply list_lookup_insert_Some in Ej as [(_ & [=] & _)|[_ Ej]]. by apply (p_wait0 j).
  - intros j N1 N2 Ej. apply list_lookup_insert_Some in Ej as [(_ & [=] & _)|[_ Ej]]. by apply (p_stop0 j).
  - pose proof (tasks_insert (threads s) i _ Gone E) as P. cbn in P. by rewrite P.
Qed.

Lemma grow_inv s created : pool_inv s -> dtor s = NotCalled -> pool_inv (grow created s).
Proof.
  intros I D. unfold grow. destruct (decide _); [|done]. destruct (_ && _) eqn:L; [|done]. apply andb_prop in L as [_ L].
  assert (C : counted s) by by left. destruct I. destruct (p_count0 C) as (C1 & C2 & C3). pose proof (idle_alive (threads s)).
  pose proof (tsum_bounds idle 1 (threads s) idle_bounds) as [B _].
  assert (Ts : forall f (t : tpc Task), tsum f (threads s ++ [t]) = tsum f (threads s) + f t) by (intros f t; rewrite tsum_app; unfold tsum; cbn; lia).
  assert (W : forall j (t : tpc Task), (threads s ++ [t]) !! j = Some Waiting -> threads s !! j = Some Waiting \/ t = Waiting).
  { intros j t Ej. apply lookup_app_Some in Ej as [Ej|[_ Ej]]; [by left|right]. by apply list_lookup_singleton_Some in Ej as [_ ->]. }
  assert (Tk : forall t : tpc Task, task_of t = [] -> tasks_of (threads s ++ [t]) = tasks_of (threads s)).
  { intros t Et. unfold tasks_of. rewrite map_app, concat_app. cbn. by rewrite Et, !app_nil_r. }
  destruct created; (constructor; fields; try done).
  - intros _. rewrite !Ts. cbn [idle alive]. rewrite !u32_small by lia. lia.
  - intros j Nq Ej. apply W in Ej as [Ej|[=]]. by apply (p_wait0 j).
  - by rewrite D.
  - by rewrite Tk.
  - intros _. rewrite !Ts. cbn [idle alive]. lia.
  - intros j Nq Ej. apply W in Ej as [Ej|[=]]. by apply (p_wait0 j).
  - by rewrite D.
  - by rewrite Tk.
Qed.

Lemma submit_inv s t created r s' : pool_inv s -> dtor s = NotCalled -> submitTask t created s = Some (r, s') ->
  pool_inv s' /\ accepted s' = accepted s ++ (if r then [t] else []) /\ (r = true <-> len (taskQue_ s) < taskQueMaxSize_ s).
Proof.
  intros I D. unfold submitTask. destruct (Z.ltb_spec (len (taskQue_ s)) (taskQueMaxSize_ s)) as [L|L]; intros [= <- <-];
    [|split_and!; [done|by rewrite app_nil_r|split; [done|lia]]].
  split_and!; [| |done].
  - apply grow_inv; [|done]. destruct I. assert (Lq : len (taskQue_ s ++ [t]) = len (taskQue_ s) + 1) by (unfold len; rewrite length_app; cbn; lia).
    assert (0 <= len (taskQue_ s)) by (unfold len; lia). constructor; fields; try done; try lia.
    + rewrite p_tasks0, Lq, u32_small; lia.
    + intros _. rewrite !tsum_wake by done. apply p_count0. by left.
    + intros j _. apply no_waiting.
    + by rewrite D.
    + by rewrite p_order0, app_assoc.
    + by rewrite tasks_wake.
  - unfold grow. destruct (decide _); [|done]. destruct (_ && _); [|done]. by destruct created.
Qed.

Lemma destroy_inv s s' : pool_inv s -> destroy_pool s = Some s' -> pool_inv s'.
Proof.
  intros I. unfold destroy_pool. destruct (dtor s) eqn:D; intros [= <-]; destruct I.
  - constructor; fields; try done. intros [[=]|C]. apply p_count0. by right.
  - assert (C : forall d ts q, d <> NotCalled -> counted (set_dtor d (poolIsRunning_ s) ts s) -> q = taskQue_ s -> q <> []).
    { intros d ts q Nd [C|C] ->; done. }
    unfold wait_exit. set (d := if threads_empty _ then _ else _). assert (Nd : d <> NotCalled) by (unfold d; by case_match).
    constructor; fields; try done.
    + intros Cn. rewrite !tsum_wake by done. apply p_count0. right. by apply (C d _ (taskQue_ s) Nd Cn).
    + intros j _. apply no_waiting.
    + rewrite p_run0, D. by rewrite !bool_decide_eq_false_2.
    + intros j _ _. apply no_waiting.
    + unfold d. by case_match.
    + by rewrite tasks_wake.
  - unfold wait_exit. set (d := if threads_empty _ then _ else _). assert (Nd : d <> NotCalled) by (unfold d; by case_match).
    constructor; fields; try done.
    + intros [C|C]; [done|]. apply p_count0. by right.
    + rewrite p_run0, D. by rewrite !bool_decide_eq_false_2.
    + intros j _ _. by apply p_stop0; rewrite D.
    + unfold d. by case_match.
Qed.

Lemma thread_step_inv l s s' : pool_inv s -> step l s = Some s' -> pool_inv s'.
Proof.
  intros I E. destruct l as [t created|i|i|i b|i| |]; cbn [step] in E.
  - destruct (dtor s) eqn:D; try done. destruct (submitTask t created s) as [[r s1]|] eqn:Es; [|done]. injection E as <-.
    by destruct (submit_inv s t created r s1 I D Es).
  - unfold threadFunc in E. destruct (threads s !! i) as [[]|] eqn:Ei; try done; injection E as <-.
    + eapply look_inv; [done|done|by left].
    + eapply set_idle_inv; [done|done|done|done|done|cbn; lia|done].
    + eapply set_idle_inv; [done|done|done|done|done|cbn; lia|cbn; by rewrite app_nil_r].
    + eapply set_idle_inv; [done|done|done|done|done|cbn; lia|done].
  - destruct (threads s !! i) as [[]|] eqn:Ei; try done. destruct (decide _); [|done]. injection E as <-.
    eapply move_thread_inv; try done. by eapply not_destroyed.
  - destruct (threads s !! i) as [[]|] eqn:Ei; try done. injection E as <-. by apply timed_out_inv.
  - destruct (threads s !! i) as [[]|] eqn:Ei; try done. injection E as <-. eapply move_thread_inv; try done. by eapply not_destroyed.
  - by eapply destroy_inv.
  - destruct (dtor s) eqn:D; try done. injection E as <-. destruct I. constructor; fields; try done.
    + intros [[=]|C]. apply p_count0. by right.
    + rewrite p_run0, D. done.
    + intros j _ _. by apply p_stop0; rewrite D.
Qed.

Lemma pool_run_inv ls : forall s s', pool_inv s -> pool_run ls s = Some s' -> pool_inv s'.
Proof.
  induction ls as [|l ls IH]; intros s s' I E; cbn in E; [by injection E as <-|].
  destruct (step l s) as [s1|] eqn:E1; [|done]. eapply IH; [|done]. by eapply thread_step_inv.
Qed.

(** ** The steps of the threads come to an end *)

Definition cost (t : tpc Task) : Z :=
  match t with Lock | TimedOut => 1 | Ran => 2 | Run _ => 3 | Got _ => 4 | _ => 0 end.

(** What the threads have left to do: a task that is taken may wake all of them. *)
Definition work s : Z := (len (threads s) + 4) * len (taskQue_ s) + tsum cost (threads s).

Definition worker (l : label Task) : Prop := match l with Work _ | Retire _ _ => True | _ => False end.

Lemma cost_bounds t : 0 <= cost t <= 4.
Proof. destruct t; cbn; lia. Qed.

Lemma work_nonneg s : 0 <= work s.
Proof.
  unfold work. pose proof (tsum_bounds cost 4 (threads s) cost_bounds).
  pose proof (Z.mul_nonneg_nonneg (len (threads s) + 4) (len (taskQue_ s))). unfold len in *. lia.
Qed.

Lemma cost_wake ts : tsum cost (notify_workers ts) <= tsum cost ts + len ts.
Proof. unfold tsum, len, notify_workers. induction ts as [|t ts IH]; cbn [map foldr length]; [lia|]. destruct t; cbn [wake_worker cost]; lia. Qed.

Lemma look_work s i x : threads s !! i = Some x -> cost x = 1 -> work (look i s) < work s.
Proof.
  intros E C. unfold look, work. destruct (taskQue_ s) as [|t rest] eqn:Q.
  - unfold empty_queue. destruct (poolIsRunning_ s); fields; rewrite Q; unfold len; rewrite length_insert, (tsum_insert _ _ i x _ E); cbn [cost length]; lia.
  - unfold take_task; fields. set (ts := <[i := Got t]> (threads s)).
    assert (T : tsum cost ts = tsum cost (threads s) + 3) by (unfold ts; rewrite (tsum_insert _ _ i x _ E); cbn [cost]; lia).
    assert (Lt : len ts = len (threads s)) by (unfold ts, len; by rewrite length_insert).
    assert (len (match rest with [] => ts | _ => notify_workers ts end) = len ts) as -> by (destruct rest; [done|unfold notify_workers, len; by rewrite length_map]).
    assert (tsum cost (match rest with [] => ts | _ => notify_workers ts end) <= tsum cost ts + len ts) as Lc
      by (pose proof (cost_wake ts); destruct rest; [unfold len; lia|done]).
    assert (len (t :: rest) = len rest + 1) as -> by (unfold len; cbn [length]; lia). nia.
Qed.

Lemma worker_step l s s' : worker l -> step l s = Some s' -> work s' < work s.
Proof.
  intros W E. destruct l as [t created|i|i|i b|i| |]; try done; cbn [step] in E.
  - unfold threadFunc in E. destruct (threads s !! i) as [[]|] eqn:Ei; try done; injection E as <-; [by eapply look_work|..];
      unfold work; fields; unfold len; rewrite length_insert, (tsum_insert _ _ i _ _ Ei); cbn [cost]; lia.
  - destruct (threads s !! i) as [[]|] eqn:Ei; try done. injection E as <-. unfold timed_out. destruct (b && _); [|by eapply look_work].
    unfold work; fields. unfold len. rewrite length_insert, (tsum_insert _ _ i _ _ Ei). cbn [cost]. lia.
Qed.

Lemma workers_end ls : forall s s', Forall worker ls -> pool_run ls s = Some s' -> len ls <= work s.
Proof.
  induction ls as [|l ls IH]; intros s s' F E; [apply work_nonneg|]. apply list.Forall_cons in F as [W F]. cbn in E.
  destruct (step l s) as [s1|] eqn:E1; [|done]. specialize (IH s1 s' F E). apply worker_step in E1; [|done]. unfold len in *. cbn [length]. lia.
Qed.

Lemma all_still s : (forall l, worker l -> step l s = None) -> forall i t, threads s !! i = Some t -> t = Gone \/ t = Stillborn \/ t = Waiting.
Proof.
  intros N i t E. pose proof (N (Work i) Logic.I) as N1. pose proof (N (Retire i true) Logic.I) as N2. cbn in N1, N2. unfold threadFunc in N1.
  rewrite E in N1, N2. destruct t; try done; tauto.
Qed.

Lemma still_sum ts : (forall i t, ts !! i = Some t -> t = Gone \/ t = Stillborn \/ t = Waiting) -> tasks_of ts = [] /\
  ((forall i, ts !! i <> Some Waiting) -> tsum alive ts = 0).
Proof.
  induction ts as [|t ts IH]; intros N; [done|]. destruct IH as [IH1 IH2]; [intros i; apply (N (S i))|]. split.
  - unfold tasks_of in *. cbn. rewrite IH1. by destruct (N 0%nat t eq_refl) as [->|[->| ->]].
  - intros W. unfold tsum in *. cbn [foldr]. rewrite IH2 by (intros i; apply (W (S i))).
    destruct (N 0%nat t eq_refl) as [->|[->| ->]]; [done|done|]. by destruct (W 0%nat).
Qed.

(** A queue that is not empty has a thread. *)
Lemma queue_served s : pool_inv s -> (forall i t, threads s !! i = Some t -> t = Gone \/ t = Stillborn \/ t = Waiting) -> taskQue_ s = [].
Proof.
  intros I N. destruct (taskQue_ s) as [|t q] eqn:Q; [done|]. exfalso.
  assert (taskQue_ s <> []) as Nq by by rewrite Q. destruct (p_count _ I ltac:(by right)) as (_ & C & Ci).
  rewrite (proj2 (still_sum _ N)) in C by (intros i; by apply (p_wait _ I)). pose proof (p_first _ I). lia.
Qed.
End pool.

(** A pool with at least one thread, in the first process that makes one, and what can
    come of it. *)
Definition pool_reachable {Task} (mode : PoolMode) (qmax tmax n : Z) (s : ThreadPool Task) : Prop :=
  0 < n /\ qmax < 2 ^ 32 /\ Z.max n (Z.max THREAD_MAX_SIZE tmax) < 2 ^ 32 /\
  exists s0 ls, start 0 n (setThreadMaxSize tmax (setTaskQueMaxSize qmax (setMode mode new_ThreadPool))) = Ok s0 /\ pool_run ls s0 = Some s.

Lemma thread_reachable_inv {Task} mode qmax tmax n (s : ThreadPool Task) : pool_reachable mode qmax tmax n s -> pool_inv s.
Proof. intros (Ln & Lq & Lt & s0 & ls & E & R). apply (pool_run_inv ls s0 s); [|done]. by apply (pool_start_inv mode qmax tmax n). Qed.

(** * The theorems *)

(** C4: whatever is submitted, in whatever order the threads run, wake, time out and return,
    and whether or not the system makes the threads that are asked for: tasks are taken in
    the order in which they were accepted, each one once, and each is in the queue, with one
    thread or done; the queue keeps its bound and a task is refused only when it is full;
    until the pool is destroyed it has from as many threads as it began with to as many as
    it may have; and when the destructor returns every task that was accepted is done. *)
Theorem Pool_tasks {Task} mode qmax tmax n (s : ThreadPool Task) (R : pool_reachable mode qmax tmax n s) :
  accepted s = taken s ++ taskQue_ s /\ taken s ≡ₚ done_ s ++ tasks_of (threads s) /\
  len (taskQue_ s) <= Z.max 0 (taskQueMaxSize_ s) /\
  (forall t created r s', dtor s = NotCalled -> submitTask t created s = Some (r, s') ->
    pool_reachable mode qmax tmax n s' /\ accepted s' = accepted s ++ (if r then [t] else []) /\
    (r = true <-> len (taskQue_ s) < taskQueMaxSize_ s)) /\
  (dtor s = NotCalled -> initThreadSize_ s <= tsum alive (threads s) <= Z.max (initThreadSize_ s) (threadMaxSize_ s)) /\
  (dtor s = Destroyed -> done_ s ≡ₚ accepted s).
Proof.
  pose proof (thread_reachable_inv mode qmax tmax n s R) as I. split_and!; [apply I|apply I|apply I| | |].
  - intros t created r s' D E. destruct (submit_inv s t created r s' I D E) as (_ & A & B). split_and!; [|done|done].
    destruct R as (Ln & Lq & Lt & s0 & ls & E0 & R). split_and!; [done..|]. exists s0, (ls ++ [Submit t created]). split; [done|].
    clear E0. revert s0 R. induction ls as [|l ls IH]; intros s0 R; cbn in R |- *.
    + injection R as ->. by rewrite D, E.
    + destruct (step l s0) as [s1|]; [|done]. by apply IH.
  - intros D. destruct (p_count _ I ltac:(by left)) as (_ & <- & C). done.
  - intros D. apply (p_end _ I), empty_gone in D as [A T]. rewrite (p_order _ I), (p_done _ I), T, app_nil_r.
    destruct (taskQue_ s) as [|t q] eqn:Q; [by rewrite app_nil_r|]. exfalso. destruct (p_count _ I ltac:(right; by rewrite Q)) as (_ & C & Ci).
    pose proof (p_first _ I). lia.
Qed.

(** C5: from every state the threads come to rest after at most [work] steps, in whatever
    order they take them, and are at rest only when the queue is empty, every task that was
    accepted is done, and each thread waits or has returned; once the destructor has
    notified them none waits. *)
Theorem Pool_rests {Task} mode qmax tmax n (s : ThreadPool Task) (R : pool_reachable mode qmax tmax n s) :
  (forall ls s', Forall worker ls -> pool_run ls s = Some s' -> len ls <= work s) /\
  ((forall l, worker l -> step l s = None) -> taskQue_ s = [] /\ done_ s ≡ₚ accepted s /\
    forall i t, threads s !! i = Some t -> t = Gone \/ t = Stillborn \/ t = Waiting /\ (dtor s = NotCalled \/ dtor s = Stopping)).
Proof.
  pose proof (thread_reachable_inv mode qmax tmax n s R) as I. split; [intros ls s'; apply workers_end|]. intros N.
  pose proof (all_still s N) as W. pose proof (queue_served s I W) as Q. split_and!; [done| |].
  - by rewrite (p_order _ I), Q, app_nil_r, (p_done _ I), (proj1 (still_sum _ W)), app_nil_r.
  - intros i t E. destruct (W i t E) as [->|[->| ->]]; [by left|by right; left|]. right. right. split; [done|].
    destruct (decide (dtor s = NotCalled)); [by left|]. destruct (decide (dtor s = Stopping)); [by right|]. by destruct (p_stop _ I i).
Qed.

(** ** What the theorems leave out *)

(** The state after some steps of a pool that began with [n] threads and may make more. *)
Definition outcome (n : Z) (ls : list (label Z)) : option (ThreadPool Z) :=
  match start 0 n (setMode MODE_CACHED new_ThreadPool) with Ok s => pool_run ls s | _ => None end.

(** A pool that begins without threads makes one for a task. When its time is over while a
    task comes, it returns all the same: the task stays, and the destructor does not wait. *)
Example lost_task :
  match outcome 0 [Submit 1 true; Work 0; Work 0; Work 0; Work 0; Work 0; Timeout 0; Submit 2 true; Retire 0 true] with
  | Some s => taskQue_ s = [2] /\ threads s = [Gone] /\
      match pool_run [Destroy; Destroy] s with
      | Some s => dtor s = Destroyed /\ accepted s = [1; 2] /\ done_ s = [1]
      | None => False
      end
  | None => False
  end.
Proof. vm_compute. repeat split. Qed.

(** A thread whose time is over returns without notifying the destructor, which counts on
    [currentThreadSize_] not being lowered by the others: all have returned and it waits. *)
Definition both_idle : list (label Z) :=
  [Submit 1 true; Submit 2 true; Work 0; Work 1; Work 0; Work 1; Work 0; Work 1; Work 0; Work 1; Work 0; Work 1].

Example destructor_hangs :
  match outcome 1 (both_idle ++ [Timeout 1; Destroy; Destroy; Work 0; Destroy; Retire 1 true]) with
  | Some s => threads s = [Gone; Gone] /\ dtor s = WaitExit /\ step Destroy s = None
  | None => False
  end.
Proof. vm_compute. repeat split. Qed.

(** The entry of a thread that the system did not make is never removed. *)
Example stillborn_hangs :
  match outcome 1 [Submit 1 true; Submit 2 false; Destroy; Destroy; Work 0; Work 0; Work 0; Work 0; Work 0; Work 0; Work 0; Work 0; Work 0; Destroy] with
  | Some s => threads s = [Gone; Stillborn] /\ dtor s = WaitExit /\ step Destroy s = None
  | None => False
  end.
Proof. vm_compute. repeat split. Qed.

(** The second pool of a process starts the threads from number zero, which it has not. *)
Example second_pool : start 2 1 (new_ThreadPool (Task := Z)) = Crash null_deref.
Proof. reflexivity. Qed.

(** ** Witnesses *)

Definition two_done : ThreadPool Z :=
  mkPool [Waiting; Waiting] 1 1024 2 2 [] 1024 0 MODE_CACHED true NotCalled [1; 2] [1; 2] [1; 2].

Lemma two_tasks : pool_reachable MODE_CACHED 1024 1024 1 two_done.
Proof.
  split; [lia|]. split; [lia|]. split; [vm_compute; reflexivity|].
  exists (mkPool [Lock] 1 1024 1 1 [] 1024 0 MODE_CACHED true NotCalled [] [] []), both_idle. split; vm_compute; reflexivity.
Qed.

Lemma Pool_tasks_witness : done_ two_done = [1; 2] /\ accepted two_done = taken two_done ++ taskQue_ two_done.
Proof. destruct (Pool_tasks _ _ _ _ _ two_tasks) as (A & _). split; [reflexivity|exact A]. Defined.

Lemma Pool_rests_witness : done_ two_done = [1; 2] /\ work two_done = 0 /\
  forall ls s', Forall worker ls -> pool_run ls two_done = Some s' -> len ls <= work two_done.
Proof. destruct (Pool_rests _ _ _ _ _ two_tasks) as (A & _). split; [reflexivity|]. split; [reflexivity|exact A]. Defined.
