(* ===== verification/Scheduler.v ===== *)
(** The coroutine scheduler (src/io/scheduler.cpp, include/io/scheduler.hpp) and the state
    of its coroutines (src/io/coroutine.cpp).

    The worker threads of a scheduler run [Scheduler::run] side by side, each by the steps
    of [worker_step]: a step is a critical section under [m_mutex], or what lies between
    two accesses to a variable that other threads use. The saved machine contexts are not
    modelled but for one thing: a context is saved when its coroutine has left the
    processor, and to enter a coroutine whose context is not saved is a data race. The body
    of a coroutine is what its client makes of it, any sequence of the actions below.

    Threads are numbered from 0, and the thread of a task is such a number or -1. *)
From S2P Require Import Prelude.

(** ** Coroutines *)

Inductive State := INIT | HOLD | EXEC | TERM | READY | EXCEPT.

#[global] Instance State_eq_dec : EqDecision State.
Proof. solve_decision. Defined.

(** [m_cb] says whether there is a function to run. *)
Record Coroutine := mkCoroutine { m_state : State; m_cb : bool }.

(** ** Tasks and threads *)

Inductive Work := Co (c : nat) | Cb (f : nat).

Record Task := mkTask { t_work : Work; t_thread : Z }.

(** Why a worker runs a coroutine: it is the task, it runs the callback that is the task,
    or there is no task. *)
Inductive Kind := KTask | KCallback | KIdle.

#[global] Instance Work_eq_dec : EqDecision Work.
Proof. solve_decision. Defined.
#[global] Instance Kind_eq_dec : EqDecision Kind.
Proof. solve_decision. Defined.

(** Where a worker is in [run]: at the top of the loop; with what it took from the queue;
    before [swapIn]; in a coroutine; between the change of state and the end of [swapOut];
    after [swapOut]; after the counter was decremented; out of the loop. *)
Inductive Pc :=
  | Fetch
  | Take (w : option Work)
  | SwapIn (c : nat) (k : Kind)
  | On (c : nat) (k : Kind)
  | Leaving (c : nat) (k : Kind)
  | Back (c : nat) (k : Kind)
  | Settle (c : nat) (k : Kind)
  | Exited.

#[global] Instance Pc_eq_dec : EqDecision Pc.
Proof. solve_decision. Defined.

Record Worker := mkWorker { w_pc : Pc; w_cb : option nat; w_idle : nat }.

#[global] Instance Worker_eq_dec : EqDecision Worker.
Proof. solve_decision. Defined.

Record Scheduler := mkScheduler {
  m_taskQueue : list Task;
  m_activeThreadCount : Z;
  m_idleThreadCount : Z;
  m_isRunning : bool;
  m_autoStop : bool;
  s_cos : list Coroutine;
  s_workers : list Worker;
}.

Definition set_queue (q : list Task) (s : Scheduler) : Scheduler :=
  mkScheduler q (m_activeThreadCount s) (m_idleThreadCount s) (m_isRunning s) (m_autoStop s) (s_cos s) (s_workers s).
Definition add_active (n : Z) (s : Scheduler) : Scheduler :=
  mkScheduler (m_taskQueue s) (u64 (m_activeThreadCount s + n)) (m_idleThreadCount s) (m_isRunning s) (m_autoStop s) (s_cos s) (s_workers s).
Definition add_idle (n : Z) (s : Scheduler) : Scheduler :=
  mkScheduler (m_taskQueue s) (m_activeThreadCount s) (u64 (m_idleThreadCount s + n)) (m_isRunning s) (m_autoStop s) (s_cos s) (s_workers s).
Definition set_cos (cos : list Coroutine) (s : Scheduler) : Scheduler :=
  mkScheduler (m_taskQueue s) (m_activeThreadCount s) (m_idleThreadCount s) (m_isRunning s) (m_autoStop s) cos (s_workers s).
Definition put_worker (t : nat) (w : Worker) (s : Scheduler) : Scheduler :=
  mkScheduler (m_taskQueue s) (m_activeThreadCount s) (m_idleThreadCount s) (m_isRunning s) (m_autoStop s) (s_cos s) (<[t := w]> (s_workers s)).

Definition goto (pc : Pc) (w : Worker) : Worker := mkWorker pc (w_cb w) (w_idle w).
Definition set_cb (cb : option nat) (w : Worker) : Worker := mkWorker (w_pc w) cb (w_idle w).

Definition state_of (c : nat) (s : Scheduler) : option State := m_state <$> s_cos s !! c.
Definition setState (c : nat) (st : State) (s : Scheduler) : Scheduler :=
  set_cos (alter (fun co => mkCoroutine st (m_cb co)) c (s_cos s)) s.

(** A new coroutine, with its number. *)
Definition new_Coroutine (s : Scheduler) : nat * Scheduler :=
  (length (s_cos s), set_cos (s_cos s ++ [mkCoroutine INIT true]) s).

(** [Coroutine::reset] with a function or with none. *)
Definition reset_co (c : nat) (cb : bool) (s : Scheduler) : res Scheduler :=
  match state_of c s with
  | Some (TERM | INIT | EXCEPT) => Ok (set_cos (<[c := mkCoroutine INIT cb]> (s_cos s)) s)
  | Some _ => Crash assertion_failed
  | None => Crash null_deref
  end.

(** A scheduler after [start] with [n] workers, each with its idle coroutine, made at the
    top of [run]. *)
Definition new_Scheduler (n : nat) : Scheduler :=
  mkScheduler [] 0 0 true false (replicate n (mkCoroutine INIT true)) (imap (fun i _ => mkWorker Fetch None i) (replicate n tt)).

(** ** The queue *)

Inductive event := Scheduled (t : Task) | Taken (t : Task).

(** [schedule]: whether [tickle] is called, and the queue. *)
Definition schedule (t : Task) (s : Scheduler) : bool * Scheduler :=
  (match m_taskQueue s with [] => true | _ => false end, set_queue (m_taskQueue s ++ [t]) s).

(** [schedule(begin, end)] *)
Fixpoint schedule_all (ts : list Task) (need_tickle : bool) (s : Scheduler) : bool * Scheduler :=
  match ts with
  | [] => (need_tickle, s)
  | t :: ts => let (n, s) := schedule t s in schedule_all ts (n || need_tickle) s
  end.

Definition mine (t : nat) (task : Task) : bool := (t_thread task =? -1) || (t_thread task =? Z.of_nat t).

Definition running_co (s : Scheduler) (task : Task) : bool :=
  match t_work task with Co c => bool_decide (state_of c s = Some EXEC) | Cb _ => false end.

(** The loop over the queue: the first task that thread [t] may run, with the queue
    without it; whether a task of another thread was passed on the way. *)
Fixpoint fetch (t : nat) (s : Scheduler) (q : list Task) : option Task * list Task * bool :=
  match q with
  | [] => (None, [], false)
  | task :: q =>
      if negb (mine t task) then let '(r, q, _) := fetch t s q in (r, task :: q, true)
      else if running_co s task then let '(r, q, tickle_me) := fetch t s q in (r, task :: q, tickle_me)
      else (Some task, q, false)
  end.

(** [Scheduler::stopping] *)
Definition stopping (s : Scheduler) : bool :=
  m_autoStop s && match m_taskQueue s with [] => true | _ => false end && negb (m_isRunning s) && (m_activeThreadCount s =? 0).

(** Whether a worker has the context of [c] on its processor. *)
Definition on_cpu (c : nat) (w : Worker) : bool :=
  match w_pc w with On c' _ | Leaving c' _ => bool_decide (c = c') | _ => false end.

(** [Coroutine::swapIn], of a coroutine whose saved context must be its last. *)
Definition swapIn (c : nat) (s : Scheduler) : res Scheduler :=
  match state_of c s with
  | None => Crash null_deref
  | Some (EXEC | TERM | EXCEPT) => Crash assertion_failed
  | Some _ => if existsb (on_cpu c) (s_workers s) then Crash data_race else Ok (setState c EXEC s)
  end.

(** ** The steps of a worker *)

(** What a worker does next: its own next step in [run], or, in a coroutine, what the body
    does. [Idle quiet raw] is the body of the idle coroutine: [quiet] is what an override
    of [stopping] adds, and [raw] says that it leaves by [swapOut] alone, as
    [IOManager::idle] does. *)
Inductive Action :=
  | Step
  | Sched (w : Work) (thread : Z)
  | New
  | YieldToReady
  | YieldToHold
  | Finish
  | Throws
  | Idle (quiet raw : bool).

Definition at_pc (t : nat) (w : Worker) (pc : Pc) (s : Scheduler) : Scheduler := put_worker t (goto pc w) s.

(** [YieldToReady] and [YieldToHold] up to the [swapOut]. *)
Definition yield (st : State) (t : nat) (w : Worker) (c : nat) (k : Kind) (s : Scheduler) : res (list event * Scheduler) :=
  if decide (state_of c s = Some EXEC) then Ok ([], at_pc t w (Leaving c k) (setState c st s))
  else Crash assertion_failed.

(** The critical section that takes a task. *)
Definition fetch_step (t : nat) (w : Worker) (s : Scheduler) : list event * Scheduler :=
  let '(r, q, _) := fetch t s (m_taskQueue s) in
  match r with
  | Some task => ([Taken task], at_pc t w (Take (Some (t_work task))) (add_active 1 (set_queue q s)))
  | None => ([], at_pc t w (Take None) s)
  end.

(** The choice between the three parts of the loop, up to [swapIn]. *)
Definition take_step (t : nat) (w : Worker) (o : option Work) (s : Scheduler) : res Scheduler :=
  match o with
  | Some (Co c) =>
      match state_of c s with
      | None => Crash null_deref
      | Some (TERM | EXCEPT) => Ok (at_pc t w Fetch (add_active (-1) s))
      | Some _ => Ok (at_pc t w (SwapIn c KTask) s)
      end
  | Some (Cb _) =>
      match w_cb w with
      | Some c => let! s := reset_co c true s in Ok (at_pc t w (SwapIn c KCallback) s)
      | None => let (c, s) := new_Coroutine s in Ok (at_pc t (set_cb (Some c) w) (SwapIn c KCallback) s)
      end
  | None =>
      if decide (state_of (w_idle w) s = Some TERM) then Ok (at_pc t w Exited s)
      else Ok (at_pc t w (SwapIn (w_idle w) KIdle) (add_idle 1 s))
  end.

(** What [run] makes of the state in which the coroutine came back. *)
Definition settle_step (t : nat) (w : Worker) (c : nat) (k : Kind) (s : Scheduler) : res (list event * Scheduler) :=
  match state_of c s, k with
  | None, _ => Crash null_deref
  | Some READY, KTask => Ok ([Scheduled (mkTask (Co c) (-1))], at_pc t w Fetch (snd (schedule (mkTask (Co c) (-1)) s)))
  | Some READY, KCallback =>
      Ok ([Scheduled (mkTask (Co c) (-1))], at_pc t (set_cb None w) Fetch (snd (schedule (mkTask (Co c) (-1)) s)))
  | Some (TERM | EXCEPT), KCallback => let! s := reset_co c false s in Ok ([], at_pc t w Fetch s)
  | Some (TERM | EXCEPT), _ => Ok ([], at_pc t w Fetch s)
  | Some _, KCallback => Ok ([], at_pc t (set_cb None w) Fetch (setState c HOLD s))
  | Some _, _ => Ok ([], at_pc t w Fetch (setState c HOLD s))
  end.

Definition quiet_step (t : nat) (w : Worker) (c : nat) (k : Kind) (s : Scheduler) : Scheduler :=
  at_pc t w (Settle c k) (match k with KIdle => add_idle (-1) s | _ => add_active (-1) s end).

(** The end of the body in [MainFunc]. *)
Definition finish (t : nat) (w : Worker) (c : nat) (k : Kind) (s : Scheduler) : Scheduler :=
  at_pc t w (Leaving c k) (set_cos (<[c := mkCoroutine TERM false]> (s_cos s)) s).

(** A step of worker [t]; none when the action is not one it can take there. A coroutine
    without a function throws at once. *)
Definition worker_step (t : nat) (a : Action) (s : Scheduler) : option (res (list event * Scheduler)) :=
  match s_workers s !! t with
  | None => None
  | Some w =>
      match w_pc w, a with
      | Fetch, Step => Some (Ok (fetch_step t w s))
      | Take o, Step => Some (let! s := take_step t w o s in Ok ([], s))
      | SwapIn c k, Step => Some (let! s := swapIn c s in Ok ([], at_pc t w (On c k) s))
      | On c KIdle, Idle quiet raw =>
          Some (if quiet && stopping s then Ok ([], finish t w c KIdle s)
                else if raw then Ok ([], at_pc t w (Leaving c KIdle) s)
                else yield HOLD t w c KIdle s)
      | On c KIdle, Sched x thread => Some (Ok ([Scheduled (mkTask x thread)], snd (schedule (mkTask x thread) s)))
      | On c KIdle, _ => None
      | On c k, Throws => Some (Ok ([], at_pc t w (Leaving c k) (setState c EXCEPT s)))
      | On c k, _ =>
          match m_cb <$> s_cos s !! c, a with
          | Some true, Sched x thread => Some (Ok ([Scheduled (mkTask x thread)], snd (schedule (mkTask x thread) s)))
          | Some true, New => Some (Ok ([], snd (new_Coroutine s)))
          | Some true, YieldToReady => Some (yield READY t w c k s)
          | Some true, YieldToHold => Some (yield HOLD t w c k s)
          | Some true, Finish => Some (Ok ([], finish t w c k s))
          | _, _ => None
          end
      | Leaving c k, Step => Some (Ok ([], at_pc t w (Back c k) s))
      | Back c k, Step => Some (Ok ([], quiet_step t w c k s))
      | Settle c k, Step => Some (settle_step t w c k s)
      | _, _ => None
      end
  end.

(** Other threads: they schedule, make coroutines, and stop the scheduler by the two
    assignments of [stop]. *)
Inductive External := XSched (w : Work) (thread : Z) | XNew | XAutoStop | XNotRunning.

Definition external_step (x : External) (s : Scheduler) : list event * Scheduler :=
  match x with
  | XSched w thread => ([Scheduled (mkTask w thread)], snd (schedule (mkTask w thread) s))
  | XNew => ([], snd (new_Coroutine s))
  | XAutoStop => ([], mkScheduler (m_taskQueue s) (m_activeThreadCount s) (m_idleThreadCount s) (m_isRunning s) true (s_cos s) (s_workers s))
  | XNotRunning => ([], mkScheduler (m_taskQueue s) (m_activeThreadCount s) (m_idleThreadCount s) false (m_autoStop s) (s_cos s) (s_workers s))
  end.

(** ** Runs *)

Inductive label := Worker_does (t : nat) (a : Action) | Other_does (x : External).

Definition sched_step (l : label) (s : Scheduler) : option (res (list event * Scheduler)) :=
  match l with
  | Worker_does t a => worker_step t a s
  | Other_does x => Some (Ok (external_step x s))
  end.

Fixpoint run_steps (ls : list label) (s : Scheduler) : option (res (list event * Scheduler)) :=
  match ls with
  | [] => Some (Ok ([], s))
  | l :: ls =>
      match sched_step l s with
      | Some (Ok (es, s)) =>
          match run_steps ls s with
          | Some (Ok (es', s)) => Some (Ok (es ++ es', s))
          | r => r
          end
      | r => r
      end
  end.
