(* ===== verification/SchedulerSpec.v ===== *)
(** The scheduler: who may run a coroutine.

    A coroutine that is in the queue, or taken by a worker, or kept by one for the next
    callback, is held by that place: its tokens are the places that hold it. When clients
    schedule only coroutines that no place holds, every coroutine has one token at most,
    no assertion fails and no coroutine is on two processors. *)
From S2P Require Import Prelude Scheduler.

(** ** Tokens *)

Definition queue_tokens (q : list Task) : list nat :=
  omap (fun t => match t_work t with Co c => Some c | Cb _ => None end) q.

Definition pc_tokens (pc : Pc) : list nat :=
  match pc with
  | Take (Some (Co c)) | SwapIn c KTask | On c KTask | Leaving c KTask | Back c KTask | Settle c KTask => [c]
  | _ => []
  end.

Definition w_tokens (w : Worker) : list nat := w_idle w :: pc_tokens (w_pc w) ++ option_list (w_cb w).

Definition all_tokens (s : Scheduler) : list nat := queue_tokens (m_taskQueue s) ++ concat (map w_tokens (s_workers s)).

(** ** The invariant *)

(** The coroutine at a place of [run] is the one of its kind. *)
Definition right (c : nat) (k : Kind) (w : Worker) : Prop :=
  match k with KTask => True | KCallback => w_cb w = Some c | KIdle => c = w_idle w end.

Definition state_in (l : list State) (c : nat) (s : Scheduler) : Prop := exists st, state_of c s = Some st /\ In st l.

(** Finish by the cases of a state. *)
Ltac states := cbn in *; intuition (congruence || discriminate).

Definition pc_ok (s : Scheduler) (w : Worker) : Prop :=
  match w_pc w with
  | Fetch | Take None | Take (Some (Cb _)) => True
  | Take (Some (Co c)) => state_in [INIT; HOLD; READY; TERM; EXCEPT] c s
  | SwapIn c k => right c k w /\ state_in [INIT; HOLD; READY] c s
  | On c k => right c k w /\ state_of c s = Some EXEC
  | Leaving c k | Back c k | Settle c k =>
      right c k w /\ state_in (match k with KIdle => [HOLD; TERM; EXEC] | _ => [HOLD; READY; TERM; EXCEPT] end) c s
  | Exited => state_of (w_idle w) s = Some TERM
  end.

Definition idles (w : Worker) : bool :=
  match w_pc w with SwapIn _ KIdle | On _ KIdle | Leaving _ KIdle | Back _ KIdle | Settle _ KIdle => true | _ => false end.
Definition calls_back (w : Worker) : bool :=
  match w_pc w with SwapIn _ KCallback | On _ KCallback | Leaving _ KCallback | Back _ KCallback | Settle _ KCallback => true | _ => false end.

Record w_ok (s : Scheduler) (w : Worker) : Prop := {
  ok_pc : pc_ok s w;
  ok_idle : idles w = false -> state_in [INIT; HOLD; TERM] (w_idle w) s;
  ok_cb c : w_cb w = Some c -> calls_back w = false -> state_of c s = Some INIT;
}.

(** A coroutine whose state is [EXEC] is on its way through a worker. *)
Definition executes (c : nat) (w : Worker) : Prop :=
  match w_pc w with
  | On c' _ | Leaving c' KIdle | Back c' KIdle | Settle c' KIdle => c = c'
  | _ => False
  end.

Definition active (w : Worker) : Z :=
  match w_pc w with
  | Take (Some _) | SwapIn _ (KTask | KCallback) | On _ (KTask | KCallback) | Leaving _ (KTask | KCallback) | Back _ (KTask | KCallback) => 1
  | _ => 0
  end.
Definition idling (w : Worker) : Z :=
  match w_pc w with SwapIn _ KIdle | On _ KIdle | Leaving _ KIdle | Back _ KIdle => 1 | _ => 0 end.

Definition sum (f : Worker -> Z) (l : list Worker) : Z := foldr (fun w n => f w + n) 0 l.

Record inv (s : Scheduler) : Prop := {
  inv_tokens : NoDup (all_tokens s);
  inv_bound c : c ∈ all_tokens s -> (c < length (s_cos s))%nat;
  inv_workers w : w ∈ s_workers s -> w_ok s w;
  inv_exec c : state_of c s = Some EXEC -> exists w, w ∈ s_workers s /\ executes c w;
  inv_active : m_activeThreadCount s = sum active (s_workers s);
  inv_idle : m_idleThreadCount s = sum idling (s_workers s);
  inv_len : len (s_workers s) < 2 ^ 64;
}.

(** *** One worker and the others *)

Lemma sum_app f l k : sum f (l ++ k) = sum f l + sum f k.
Proof. unfold sum. induction l as [|w l IH]; cbn; lia. Qed.

Lemma sum_bound f l : (forall w, 0 <= f w <= 1) -> 0 <= sum f l <= len l.
Proof. intros B. unfold len. induction l as [|w l IH]; cbn [sum foldr length]; [lia|]. specialize (B w). unfold sum in IH. lia. Qed.

Lemma active_bound w : 0 <= active w <= 1.
Proof. unfold active. repeat case_match; lia. Qed.
Lemma idling_bound w : 0 <= idling w <= 1.
Proof. unfold idling. repeat case_match; lia. Qed.

Definition others (l1 l2 : list Worker) : list nat := concat (map w_tokens (l1 ++ l2)).

Lemma tokens_split l1 w l2 : concat (map w_tokens (l1 ++ w :: l2)) ≡ₚ w_tokens w ++ others l1 l2.
Proof.
  unfold others. rewrite !map_app, !concat_app. cbn [map concat]. rewrite (Permutation_app_comm (concat (map w_tokens l1))), <- app_assoc.
  by rewrite (Permutation_app_comm (concat (map w_tokens l2))).
Qed.

Lemma others_in l1 l2 w c : w ∈ l1 ++ l2 -> c ∈ w_tokens w -> c ∈ others l1 l2.
Proof. intros Hw Hc. unfold others. apply list_elem_of_In, in_concat. exists (w_tokens w). split; [apply in_map|]; by apply list_elem_of_In. Qed.

(** The coroutines a worker's [w_ok] speaks of are its tokens. *)
Lemma w_ok_frame s s' w : (forall c, c ∈ w_tokens w -> state_of c s' = state_of c s) -> w_ok s w -> w_ok s' w.
Proof.
  intros E [P I C]. assert (EI : state_of (w_idle w) s' = state_of (w_idle w) s) by (apply E; left).
  assert (EC : forall c, w_cb w = Some c -> state_of c s' = state_of c s).
  { intros c Hc. apply E. unfold w_tokens. rewrite Hc. right. apply elem_of_app. right. by left. }
  constructor.
  - unfold pc_ok, state_in, right in *. unfold w_tokens in E.
    destruct (w_pc w) as [|[[c|f]|]|c k|c k|c k|c k|c k|]; cbn [pc_tokens app] in E; try done;
      try (destruct k; destruct P as [R P]; split; try done; try (rewrite EC by done; done); try (rewrite R, EI, <- R; done));
      try (rewrite E; [done|right; left]); by rewrite EI.
  - intros Hi. unfold state_in. rewrite EI. by apply I.
  - intros c Hc Hb. rewrite EC by done. by apply C.
Qed.

(** What a step of one worker has to show. *)
Record step_of (s s' : Scheduler) (l1 : list Worker) (w w' : Worker) (l2 : list Worker) (t : nat) (gone new : list nat) : Prop := {
  so_workers : s_workers s = l1 ++ w :: l2;
  so_workers' : s_workers s' = l1 ++ w' :: l2;
  so_tokens : (queue_tokens (m_taskQueue s') ++ w_tokens w') ++ gone ≡ₚ (queue_tokens (m_taskQueue s) ++ w_tokens w) ++ new;
  so_new : NoDup new /\ forall c, c ∈ new -> (c ∉ all_tokens s) /\ (c < length (s_cos s'))%nat;
  so_len : (length (s_cos s) <= length (s_cos s'))%nat;
  so_touched : t ∈ w_tokens w \/ t = length (s_cos s);
  so_frame c : c <> t -> state_of c s' = state_of c s;
  so_exec c : state_of c s' = Some EXEC -> executes c w' \/ state_of c s = Some EXEC /\ ~ executes c w;
  so_ok : w_ok s' w';
  so_active : m_activeThreadCount s' = m_activeThreadCount s - active w + active w';
  so_idle : m_idleThreadCount s' = m_idleThreadCount s - idling w + idling w';
}.

Lemma inv_split s l1 w l2 : inv s -> s_workers s = l1 ++ w :: l2 ->
  NoDup ((queue_tokens (m_taskQueue s) ++ w_tokens w) ++ others l1 l2) /\
  forall c, c ∈ (queue_tokens (m_taskQueue s) ++ w_tokens w) ++ others l1 l2 <-> c ∈ all_tokens s.
Proof.
  intros I E. assert (P : all_tokens s ≡ₚ (queue_tokens (m_taskQueue s) ++ w_tokens w) ++ others l1 l2).
  { unfold all_tokens. by rewrite E, tokens_split, app_assoc. }
  split; [rewrite <- P; apply I|]. intros c. by rewrite P.
Qed.

Lemma place_inv s s' l1 w w' l2 t gone new : inv s -> step_of s s' l1 w w' l2 t gone new -> inv s'.
Proof.
  intros I [E E' T [Nn Fn] Ln Tt Fr Ex Ok A Id]. destruct (inv_split _ _ _ _ I E) as [N M].
  assert (Ne : forall c, c ∈ others l1 l2 -> c <> t).
  { intros c Hc ->. destruct Tt as [Ht| ->].
    - apply list.NoDup_app in N as (_ & D & _). apply (D t); [apply elem_of_app; by right|done].
    - assert (In : length (s_cos s) ∈ all_tokens s) by (apply M, elem_of_app; by right). pose proof (inv_bound _ I _ In). lia. }
  assert (N' : NoDup ((queue_tokens (m_taskQueue s') ++ w_tokens w') ++ others l1 l2)).
  { assert (N2 : NoDup (((queue_tokens (m_taskQueue s) ++ w_tokens w) ++ new) ++ others l1 l2)).
    { rewrite <- app_assoc, (Permutation_app_comm new), app_assoc. apply list.NoDup_app. split; [done|]. split; [|done].
      intros c Hc Hn. apply (Fn c Hn). by apply M. }
    rewrite <- T, <- app_assoc, (Permutation_app_comm gone), app_assoc in N2. by apply list.NoDup_app in N2 as [N2 _]. }
  assert (P' : all_tokens s' ≡ₚ (queue_tokens (m_taskQueue s') ++ w_tokens w') ++ others l1 l2).
  { unfold all_tokens. by rewrite E', tokens_split, app_assoc. }
  constructor.
  - by rewrite P'.
  - intros c. rewrite P', elem_of_app. intros [Hc|Hc].
    + assert (Hc' : c ∈ (queue_tokens (m_taskQueue s) ++ w_tokens w) ++ new) by (rewrite <- T; apply elem_of_app; by left).
      apply elem_of_app in Hc' as [Hc'|Hn]; [|by apply Fn]. eapply Nat.lt_le_trans; [|done]. apply (inv_bound _ I), M, elem_of_app. by left.
    + eapply Nat.lt_le_trans; [|done]. apply (inv_bound _ I), M, elem_of_app. by right.
  - intros v. rewrite E'. intros [Hv|[->|Hv]%elem_of_cons]%elem_of_app; [|done|].
    all: apply (w_ok_frame s); [intros c Hc; apply Fr, Ne, (others_in _ _ v); [apply elem_of_app; tauto|done]|].
    all: apply (inv_workers _ I); rewrite E; apply elem_of_app; rewrite elem_of_cons; tauto.
  - intros c Hc. rewrite E'. destruct (Ex c Hc) as [X|[X NX]]; [exists w'; split; [apply elem_of_app; right; left|done]|].
    destruct (inv_exec _ I c X) as (v & Hv & Xv). rewrite E in Hv. exists v. split; [|done].
    apply elem_of_app in Hv as [Hv|Hv]; [|apply elem_of_cons in Hv as [->|Hv]]; try done; apply elem_of_app; rewrite elem_of_cons; tauto.
  - rewrite A, (inv_active _ I), E, E', !sum_app. cbn. lia.
  - rewrite Id, (inv_idle _ I), E, E', !sum_app. cbn. lia.
  - pose proof (inv_len _ I) as L. rewrite E in L. rewrite E'. unfold len in *. rewrite length_app in *. cbn [length] in *. lia.
Qed.

(** *** Counters *)
Lemma add_active_ok s l1 w l2 n : inv s -> s_workers s = l1 ++ w :: l2 -> 0 <= active w + n <= 1 ->
  u64 (m_activeThreadCount s + n) = m_activeThreadCount s + n.
Proof.
  intros I E B. apply u64_small. rewrite (inv_active _ I), E, sum_app. cbn. fold (sum active l2).
  pose proof (sum_bound active l1 active_bound). pose proof (sum_bound active l2 active_bound). pose proof (inv_len _ I) as L.
  rewrite E in L. unfold len in *. rewrite length_app in L. cbn in L. lia.
Qed.

Lemma add_idle_ok s l1 w l2 n : inv s -> s_workers s = l1 ++ w :: l2 -> 0 <= idling w + n <= 1 ->
  u64 (m_idleThreadCount s + n) = m_idleThreadCount s + n.
Proof.
  intros I E B. apply u64_small. rewrite (inv_idle _ I), E, sum_app. cbn. fold (sum idling l2).
  pose proof (sum_bound idling l1 idling_bound). pose proof (sum_bound idling l2 idling_bound). pose proof (inv_len _ I) as L.
  rewrite E in L. unfold len in *. rewrite length_app in L. cbn in L. lia.
Qed.

(** *** States *)
Lemma state_set c st s c' : state_of c' (setState c st s) = if decide (c = c') then const st <$> s_cos s !! c else state_of c' s.
Proof.
  unfold state_of, setState, set_cos. cbn. destruct (decide (c = c')) as [->|N].
  - rewrite list_lookup_alter_eq. by destruct (s_cos s !! c').
  - by rewrite list_lookup_alter_ne.
Qed.

Lemma state_set_eq c st s st0 : state_of c s = Some st0 -> state_of c (setState c st s) = Some st.
Proof. intros E. rewrite state_set, decide_True by done. unfold state_of in E. by destruct (s_cos s !! c). Qed.

Lemma state_insert c co s c' : state_of c' (set_cos (<[c := co]> (s_cos s)) s) =
  if decide (c = c' /\ (c < length (s_cos s))%nat) then Some (m_state co) else state_of c' s.
Proof.
  unfold state_of. cbn. destruct (decide _) as [[-> L]|N].
  - by rewrite list_lookup_insert_eq.
  - destruct (decide (c = c')) as [->|Nc]; [|by rewrite list_lookup_insert_ne].
    rewrite list_insert_ge by lia. done.
Qed.

Lemma state_new s c : state_of c (snd (new_Coroutine s)) = if decide (c = length (s_cos s)) then Some INIT else state_of c s.
Proof.
  unfold state_of. cbn. destruct (decide _) as [->|N]; [by rewrite list_lookup_middle|].
  destruct (decide (c < length (s_cos s))%nat) as [L|L]; [by rewrite lookup_app_l|].
  rewrite !lookup_ge_None_2; [done|lia|rewrite length_app; cbn; lia].
Qed.

Lemma state_lt c s st : state_of c s = Some st -> (c < length (s_cos s))%nat.
Proof. unfold state_of. intros E. apply lookup_lt_is_Some. destruct (s_cos s !! c); [eauto|done]. Qed.

(** ** The steps *)

Lemma worker_at s t w : s_workers s !! t = Some w ->
  exists l1 l2, s_workers s = l1 ++ w :: l2 /\ forall w', <[t := w']> (s_workers s) = l1 ++ w' :: l2.
Proof.
  intros E. exists (take t (s_workers s)), (drop (S t) (s_workers s)). split; [by rewrite take_drop_middle|].
  intros w'. apply insert_take_drop. by eapply lookup_lt_Some.
Qed.

Lemma in_worker s l1 w l2 : s_workers s = l1 ++ w :: l2 -> w ∈ s_workers s.
Proof. intros ->. apply elem_of_app. right. left. Qed.

Lemma queue_tokens_app q1 q2 : queue_tokens (q1 ++ q2) = queue_tokens q1 ++ queue_tokens q2.
Proof. apply omap_app. Qed.

Lemma executes_dec c w : executes c w \/ ~ executes c w.
Proof.
  unfold executes. destruct (w_pc w) as [|o|c' k|c' k|c' k|c' k|c' k|]; try tauto; try (destruct k; try tauto);
    destruct (decide (c = c')); tauto.
Qed.

Definition fresh_tokens (new : list nat) (s : Scheduler) : Prop :=
  NoDup new /\ forall c, c ∈ new -> (c ∉ all_tokens s) /\ (c < length (s_cos s))%nat.

Lemma fresh_nil s : fresh_tokens [] s.
Proof. split; [constructor|]. intros c B. by apply elem_of_nil in B. Qed.

(** A worker that goes on without a change of a coroutine. *)
Lemma move_inv s s' l1 w w' l2 gone new : inv s -> s_workers s = l1 ++ w :: l2 -> s_workers s' = l1 ++ w' :: l2 -> s_cos s' = s_cos s ->
  (queue_tokens (m_taskQueue s') ++ w_tokens w') ++ gone ≡ₚ (queue_tokens (m_taskQueue s) ++ w_tokens w) ++ new -> fresh_tokens new s ->
  (forall c, executes c w -> executes c w') -> w_ok s w' ->
  m_activeThreadCount s' = m_activeThreadCount s - active w + active w' ->
  m_idleThreadCount s' = m_idleThreadCount s - idling w + idling w' -> inv s'.
Proof.
  intros I E E' Ec T N X Ok A Id. assert (St : forall c, state_of c s' = state_of c s) by (intros c; unfold state_of; by rewrite Ec).
  eapply (place_inv s s' l1 w w' l2 (w_idle w) gone new I). constructor; try done.
  - destruct N as [N1 N2]. split; [done|]. rewrite Ec. by apply N2.
  - by rewrite Ec.
  - left. left.
  - intros c Hc. rewrite St in Hc. destruct (executes_dec c w) as [Y|Y]; [left; by apply X|by right].
  - apply (w_ok_frame s); [done|done].
Qed.

(** A worker that changes the state of a coroutine it holds. *)
Lemma touch_inv s s' l1 w w' l2 c gone : inv s -> s_workers s = l1 ++ w :: l2 -> s_workers s' = l1 ++ w' :: l2 ->
  c ∈ w_tokens w -> length (s_cos s') = length (s_cos s) -> (forall c', c' <> c -> state_of c' s' = state_of c' s) ->
  (queue_tokens (m_taskQueue s') ++ w_tokens w') ++ gone ≡ₚ queue_tokens (m_taskQueue s) ++ w_tokens w ->
  (forall c', executes c' w -> c' = c) -> (state_of c s' = Some EXEC -> executes c w') -> w_ok s' w' ->
  m_activeThreadCount s' = m_activeThreadCount s - active w + active w' ->
  m_idleThreadCount s' = m_idleThreadCount s - idling w + idling w' -> inv s'.
Proof.
  intros I E E' Tc Lc Fr T X Ex Ok A Id. eapply (place_inv s s' l1 w w' l2 c gone [] I). constructor; try done.
  - by rewrite app_nil_r.
  - split; [constructor|]. intros c' B. by apply elem_of_nil in B.
  - lia.
  - by left.
  - intros c' Hc. destruct (decide (c' = c)) as [->|N]; [left; by apply Ex|]. right. rewrite Fr in Hc by done. split; [done|]. intros Y. by apply N, X.
Qed.

(** *** [fetch] takes one task out of the queue *)
Lemma fetch_ok t s q : match fetch t s q with
  | (Some task, q', _) => exists q1 q2, q = q1 ++ task :: q2 /\ q' = q1 ++ q2 /\ mine t task = true /\ running_co s task = false
  | (None, q', _) => q' = q /\ forall task, task ∈ q -> mine t task = true -> running_co s task = true
  end.
Proof.
  induction q as [|task q IH]; cbn [fetch]; [split; [done|intros task B; by apply elem_of_nil in B]|].
  destruct (mine t task) eqn:M; cbn [negb]; [destruct (running_co s task) eqn:R|].
  - destruct (fetch t s q) as [[[x|] q'] b].
    + destruct IH as (q1 & q2 & -> & -> & H). by exists (task :: q1), q2.
    + destruct IH as [-> H]. split; [done|]. intros y [->|Hy]%elem_of_cons; [done|by apply H].
  - by exists [], q.
  - destruct (fetch t s q) as [[[x|] q'] b].
    + destruct IH as (q1 & q2 & -> & -> & H). by exists (task :: q1), q2.
    + destruct IH as [-> H]. split; [done|]. intros y [->|Hy]%elem_of_cons; [by rewrite M|by apply H].
Qed.

(** A queued coroutine is not running. *)
Lemma queued_state s c : inv s -> c ∈ queue_tokens (m_taskQueue s) -> state_in [INIT; HOLD; READY; TERM; EXCEPT] c s.
Proof.
  intros I Hc. assert (B : (c < length (s_cos s))%nat) by (apply (inv_bound _ I), elem_of_app; by left).
  unfold state_in, state_of. destruct (lookup_lt_is_Some_2 _ _ B) as [co Ec]. rewrite Ec. cbn. exists (m_state co). split; [done|].
  destruct (decide (m_state co = EXEC)) as [X|X]; [exfalso|destruct (m_state co); states].
  destruct (inv_exec _ I c) as (w & Hw & Xw); [unfold state_of; rewrite Ec; cbn; by rewrite X|].
  pose proof (inv_tokens _ I) as N. unfold all_tokens in N. apply list.NoDup_app in N as (_ & D & _). apply (D c Hc).
  apply list_elem_of_In, in_concat. exists (w_tokens w). split; [apply in_map; by apply list_elem_of_In|]. apply list_elem_of_In.
  destruct (inv_workers _ I w Hw) as [P _ _]. unfold pc_ok, executes, w_tokens, right in *.
  destruct (w_pc w) as [|o|c' k|c' k|c' k|c' k|c' k|]; try done; destruct k; try done; subst c'; destruct P as [R _]; cbn; try (rewrite R); set_solver.
Qed.

(** The premises of a move that follow from the place of the worker. *)
Ltac at_place := unfold executes, active, idling, idles, calls_back, w_tokens in *;
  repeat match goal with P : w_pc _ = _ |- _ => rewrite P in * end; cbn; try tauto; try lia.

Lemma fetch_step_inv s t w l1 l2 : inv s -> s_workers s = l1 ++ w :: l2 -> (forall w', <[t := w']> (s_workers s) = l1 ++ w' :: l2) ->
  w_pc w = Fetch -> inv (snd (fetch_step t w s)).
Proof.
  intros I E U P. pose proof (inv_workers _ I w (in_worker _ _ _ _ E)) as [_ Wi Wc]. unfold fetch_step.
  pose proof (fetch_ok t s (m_taskQueue s)) as F. destruct (fetch t s (m_taskQueue s)) as [[[task|] q'] b]; cbn [snd].
  - destruct F as (q1 & q2 & Eq & -> & M & R).
    eapply (move_inv s _ l1 w (goto (Take (Some (t_work task))) w) l2 [] [] I E); [apply U|done| |apply fresh_nil|at_place| | |at_place].
    + cbn. rewrite !app_nil_r, Eq, !queue_tokens_app. at_place. destruct task as [[c|f] th]; cbn; solve_Permutation.
    + constructor; cbn.
      * unfold pc_ok. cbn. destruct task as [[c|f] th]; [|done]. apply queued_state; [done|]. rewrite Eq, queue_tokens_app. set_solver.
      * intros _. apply Wi. at_place.
      * intros c Hc _. apply (Wc c Hc). at_place.
    + cbn. rewrite (add_active_ok s l1 w l2) by (done || at_place). at_place.
  - destruct F as [-> _].
    eapply (move_inv s _ l1 w (goto (Take None) w) l2 [] [] I E); [apply U|done|at_place; done|apply fresh_nil|at_place| |at_place|at_place].
    constructor; cbn; [done| |].
    + intros _. apply Wi. at_place.
    + intros c Hc _. apply (Wc c Hc). at_place.
Qed.

Lemma w_ok_goto s w pc : w_ok s w -> idles w = false -> calls_back w = false -> pc_ok s (goto pc w) -> w_ok s (goto pc w).
Proof.
  intros [_ Wi Wc] Hi Hc Hp. constructor; [done|intros _; by apply Wi|]. intros c E _. by apply (Wc c E).
Qed.

Lemma state_in_weaken l l' c s : state_in l c s -> (forall st, In st l -> In st l') -> state_in l' c s.
Proof. intros (st & E & M) H. exists st. auto. Qed.

(** What [run] does with the callback coroutine of a worker changes no coroutine but that. *)
Lemma reset_co_ok s c cb : state_in [INIT; TERM; EXCEPT] c s ->
  reset_co c cb s = Ok (set_cos (<[c := mkCoroutine INIT cb]> (s_cos s)) s).
Proof. intros (st & E & M). unfold reset_co. rewrite E. destruct st; try done; states. Qed.

Lemma take_task_inv s t w c l1 l2 : inv s -> s_workers s = l1 ++ w :: l2 -> (forall w', <[t := w']> (s_workers s) = l1 ++ w' :: l2) ->
  w_pc w = Take (Some (Co c)) -> exists s', take_step t w (Some (Co c)) s = Ok s' /\ inv s'.
Proof.
  intros I E U P. pose proof (inv_workers _ I w (in_worker _ _ _ _ E)) as Wo. pose proof (ok_pc _ _ Wo) as Wp.
  unfold pc_ok in Wp. rewrite P in Wp. cbn [take_step]. destruct Wp as (st & Es & Ms). rewrite Es.
  assert (Go : In st [INIT; HOLD; READY] -> inv (at_pc t w (SwapIn c KTask) s)).
  { intros M. eapply (move_inv s _ l1 w (goto (SwapIn c KTask) w) l2 [] [] I E); [apply U|done|by at_place|apply fresh_nil|at_place| |at_place|at_place].
    apply w_ok_goto; [done|at_place|at_place|]. split; [done|]. by exists st. }
  assert (Sk : inv (at_pc t w Fetch (add_active (-1) s))).
  { eapply (move_inv s _ l1 w (goto Fetch w) l2 [c] [] I E); [apply U|done| |apply fresh_nil|at_place| | |at_place].
    - cbn. at_place. solve_Permutation.
    - by apply w_ok_goto; [|at_place|at_place|].
    - cbn. rewrite (add_active_ok s l1 w l2) by (done || at_place). at_place. }
  destruct st; try (eexists; split; [reflexivity|]); try done; try (apply Go; states).
Qed.

Lemma take_reset_inv s t w f c l1 l2 : inv s -> s_workers s = l1 ++ w :: l2 -> (forall w', <[t := w']> (s_workers s) = l1 ++ w' :: l2) ->
  w_pc w = Take (Some (Cb f)) -> w_cb w = Some c -> exists s', take_step t w (Some (Cb f)) s = Ok s' /\ inv s'.
Proof.
  intros I E U P Ec. pose proof (inv_workers _ I w (in_worker _ _ _ _ E)) as Wo. pose proof Wo as [_ Wi Wc]. cbn [take_step]. rewrite Ec.
  assert (Si : state_of c s = Some INIT) by (apply (Wc c Ec); at_place). rewrite reset_co_ok by (exists INIT; split; [done|states]). cbn [rbind].
  eexists. split; [reflexivity|]. pose proof (state_lt _ _ _ Si) as Lc. set (s1 := set_cos _ s).
  assert (St : forall c', state_of c' (at_pc t w (SwapIn c KCallback) s1) = state_of c' s).
  { intros c'. change (state_of c' s1 = state_of c' s). unfold s1. rewrite state_insert. destruct (decide _) as [[-> _]|]; [by rewrite Si|done]. }
  eapply (touch_inv s _ l1 w (goto (SwapIn c KCallback) w) l2 c [] I E); [apply U| | | | |at_place| | |at_place|at_place].
  - at_place. rewrite Ec. right. left.
  - cbn. by rewrite length_insert.
  - intros c' _. apply St.
  - cbn. rewrite app_nil_r. at_place. done.
  - rewrite St, Si. done.
  - constructor; [|intros _|done].
    + split; [done|]. exists INIT. split; [by rewrite St|states].
    + destruct (Wi ltac:(at_place)) as (st & Es & Ms). exists st. split; [by rewrite St|done].
Qed.

Lemma take_new_inv s t w f l1 l2 : inv s -> s_workers s = l1 ++ w :: l2 -> (forall w', <[t := w']> (s_workers s) = l1 ++ w' :: l2) ->
  w_pc w = Take (Some (Cb f)) -> w_cb w = None -> exists s', take_step t w (Some (Cb f)) s = Ok s' /\ inv s'.
Proof.
  intros I E U P Ec. pose proof (inv_workers _ I w (in_worker _ _ _ _ E)) as Wo. pose proof Wo as [_ Wi Wc]. cbn [take_step]. rewrite Ec.
  cbn [new_Coroutine]. eexists. split; [reflexivity|]. set (c := length (s_cos s)). set (s' := at_pc _ _ _ _).
  assert (Fr : forall c', state_of c' s' = if decide (c' = c) then Some INIT else state_of c' s) by (intros c'; exact (state_new s c')).
  eapply (place_inv s _ l1 w (goto (SwapIn c KCallback) (set_cb (Some c) w)) l2 c [] [c] I).
  constructor; [exact E|apply U| | | |by right| | | |at_place|at_place].
  - cbn. at_place. rewrite Ec. cbn. solve_Permutation.
  - split; [apply NoDup_singleton|]. intros c' ->%list_elem_of_singleton. split; [|cbn; rewrite length_app; cbn; unfold c; lia].
    intros B. apply (inv_bound _ I) in B. unfold c in B. lia.
  - cbn. rewrite length_app. lia.
  - intros c' N. rewrite Fr. by rewrite decide_False.
  - intros c' X. rewrite Fr in X. destruct (decide _); [done|]. right. split; [done|at_place].
  - constructor; [|intros _|done].
    + split; [done|]. exists INIT. split; [|states]. rewrite Fr. by rewrite decide_True.
    + destruct (Wi ltac:(at_place)) as (st & Es & Ms). exists st. split; [|done]. rewrite Fr. rewrite decide_False; [done|].
      apply state_lt in Es. cbn. unfold c. lia.
Qed.

Lemma take_none_inv s t w l1 l2 : inv s -> s_workers s = l1 ++ w :: l2 -> (forall w', <[t := w']> (s_workers s) = l1 ++ w' :: l2) ->
  w_pc w = Take None -> exists s', take_step t w None s = Ok s' /\ inv s'.
Proof.
  intros I E U P. pose proof (inv_workers _ I w (in_worker _ _ _ _ E)) as Wo. pose proof Wo as [_ Wi _]. cbn [take_step].
  destruct (Wi ltac:(at_place)) as (st & Es & Ms). destruct (decide _) as [D|D]; eexists; (split; [reflexivity|]).
  - eapply (move_inv s _ l1 w (goto Exited w) l2 [] [] I E); [apply U|done|by at_place|apply fresh_nil|at_place| |at_place|at_place].
    by apply w_ok_goto; [|at_place|at_place|].
  - eapply (move_inv s _ l1 w (goto (SwapIn (w_idle w) KIdle) w) l2 [] [] I E); [apply U|done|by at_place|apply fresh_nil|at_place| |at_place|].
    + constructor; [|done|intros c Hc _; apply (ok_cb _ _ Wo c Hc); at_place]. split; [done|]. exists st. split; [done|]. destruct st; states.
    + cbn. rewrite (add_idle_ok s l1 w l2) by (done || at_place). at_place.
Qed.

(** The coroutine at a worker's place is a token of it. *)
Definition pc_co (pc : Pc) : option (nat * Kind) :=
  match pc with SwapIn c k | On c k | Leaving c k | Back c k | Settle c k => Some (c, k) | _ => None end.

Lemma held s w c k : pc_ok s w -> pc_co (w_pc w) = Some (c, k) -> c ∈ w_tokens w /\ right c k w.
Proof.
  unfold pc_ok, w_tokens. intros P E.
  destruct (w_pc w) as [|o|c' k'|c' k'|c' k'|c' k'|c' k'|]; try done; injection E as -> ->; destruct P as [R _]; (split; [|done]);
    destruct k; cbn in *; try (right; left); try (rewrite R; right; left); rewrite R; left.
Qed.

Lemma not_busy s l1 w l2 c k : inv s -> s_workers s = l1 ++ w :: l2 -> w_pc w = SwapIn c k -> existsb (on_cpu c) (s_workers s) = false.
Proof.
  intros I E P. apply not_true_is_false. intros (v & Hv & X)%existsb_exists. destruct (inv_split _ _ _ _ I E) as [N _].
  apply list_elem_of_In in Hv. pose proof (ok_pc _ _ (inv_workers _ I v Hv)) as Pv.
  pose proof (ok_pc _ _ (inv_workers _ I w (in_worker _ _ _ _ E))) as Pw. destruct (held s w c k Pw) as [Tw _]; [by rewrite P|].
  assert (Tv : c ∈ w_tokens v).
  { unfold on_cpu in X. destruct (w_pc v) as [|o|c' k'|c' k'|c' k'|c' k'|c' k'|] eqn:Ev; try done;
      apply bool_decide_eq_true in X as ->; apply (held s v c' k' Pv); by rewrite Ev. }
  rewrite E in Hv. apply elem_of_app in Hv. rewrite elem_of_cons in Hv.
  assert (v ∈ l1 ++ l2 \/ v = w) as [Hv'| ->] by (rewrite elem_of_app; tauto).
  - apply list.NoDup_app in N as (_ & D & _). apply (D c); [apply elem_of_app; by right|]. by apply (others_in _ _ v).
  - unfold on_cpu in X. by rewrite P in X.
Qed.

Lemma setState_frame c st s c' : c' <> c -> state_of c' (setState c st s) = state_of c' s.
Proof. intros N. rewrite state_set. by rewrite decide_False. Qed.

(** A worker that goes on after it has set the state of its coroutine. *)
Lemma set_inv s s1 s' t w c k st st0 pc l1 l2 : inv s -> s_workers s = l1 ++ w :: l2 -> (forall w', <[t := w']> (s_workers s) = l1 ++ w' :: l2) ->
  pc_co (w_pc w) = Some (c, k) -> pc_co pc = Some (c, k) -> state_of c s = Some st0 ->
  m_taskQueue s1 = m_taskQueue s -> s_workers s1 = s_workers s -> length (s_cos s1) = length (s_cos s) ->
  m_activeThreadCount s1 = m_activeThreadCount s -> m_idleThreadCount s1 = m_idleThreadCount s ->
  (forall c', state_of c' s1 = if decide (c = c') then Some st else state_of c' s) ->
  s' = at_pc t w pc s1 -> (st = EXEC -> executes c (goto pc w)) -> (right c k w -> pc_ok s' (goto pc w)) ->
  active (goto pc w) = active w -> idling (goto pc w) = idling w -> inv s'.
Proof.
  intros I E U Pc Pc' Es Q1 W1 L1 A1 D1 St -> Ex Ok A Id. pose proof (inv_workers _ I w (in_worker _ _ _ _ E)) as Wo. pose proof Wo as [Wp Wi Wc].
  destruct (held s w c k Wp Pc) as [Tk R]. specialize (Ok R).
  assert (Kd : idles (goto pc w) = idles w /\ calls_back (goto pc w) = calls_back w /\ pc_tokens pc = pc_tokens (w_pc w) /\
     idles w = (match k with KIdle => true | _ => false end) /\ calls_back w = (match k with KCallback => true | _ => false end)).
  { unfold idles, calls_back. cbn. destruct pc as [|[?|]|c1 k1|c1 k1|c1 k1|c1 k1|c1 k1|]; try done; injection Pc' as -> ->;
      destruct (w_pc w) as [|[?|]|c2 k2|c2 k2|c2 k2|c2 k2|c2 k2|]; try done; injection Pc as -> ->; by destruct k. }
  destruct Kd as (K1 & K2 & K3 & K4 & K5).
  destruct (inv_split _ _ _ _ I E) as [N _]. apply list.NoDup_app in N as (N & _ & _). apply list.NoDup_app in N as (_ & _ & N). unfold w_tokens in N.
  eapply (touch_inv s _ l1 w (goto pc w) l2 c [] I E).
  - cbn. rewrite W1. apply U.
  - done.
  - cbn. done.
  - intros c' Nc. change (state_of c' s1 = state_of c' s). rewrite St. by rewrite decide_False.
  - cbn. rewrite app_nil_r, Q1. unfold w_tokens. cbn. by rewrite K3.
  - intros c' X. unfold executes in X. destruct (w_pc w) as [|o|c2 k2|c2 k2|c2 k2|c2 k2|c2 k2|]; try done; injection Pc as -> ->; destruct k; done.
  - intros X. apply Ex. change (state_of c s1 = Some EXEC) in X. rewrite St, decide_True in X by done. congruence.
  - constructor; [done| |].
    + rewrite K1. intros Hi. destruct (Wi Hi) as (sti & Ei & Mi). exists sti. split; [|done].
      change (state_of (w_idle w) s1 = Some sti). rewrite St. destruct (decide (c = w_idle w)) as [->|]; [exfalso|done].
      apply list.NoDup_cons in N as [N _]. apply N. destruct k; [|cbn in R; rewrite R; apply elem_of_app; right; left|by rewrite K4 in Hi].
      apply elem_of_app. left. destruct (w_pc w) as [|o|c2 k2|c2 k2|c2 k2|c2 k2|c2 k2|]; try done; injection Pc as -> ->; left.
    + intros c' Hc. rewrite K2. intros Hb. change (state_of c' s1 = Some INIT). rewrite St. destruct (decide (c = c')) as [->|]; [exfalso|by apply Wc].
      apply list.NoDup_cons in N as [N1 N]. destruct k; [|by rewrite K5 in Hb|].
      * apply list.NoDup_app in N as (_ & D & _). cbn in Hc. apply (D c'); [|rewrite Hc; left].
        destruct (w_pc w) as [|o|c2 k2|c2 k2|c2 k2|c2 k2|c2 k2|]; try done; injection Pc as -> ->; left.
      * cbn in R, Hc. subst c'. apply N1, elem_of_app. right. rewrite Hc. left.
  - cbn. rewrite A1, A. lia.
  - cbn. rewrite D1, Id. lia.
Qed.

Lemma swapIn_inv s t w c k l1 l2 : inv s -> s_workers s = l1 ++ w :: l2 -> (forall w', <[t := w']> (s_workers s) = l1 ++ w' :: l2) ->
  w_pc w = SwapIn c k -> exists s', swapIn c s = Ok s' /\ inv (at_pc t w (On c k) s').
Proof.
  intros I E U P. pose proof (not_busy s l1 w l2 c k I E P) as B.
  pose proof (ok_pc _ _ (inv_workers _ I w (in_worker _ _ _ _ E))) as Wp. unfold pc_ok in Wp. rewrite P in Wp. destruct Wp as [R (st & Es & Ms)].
  assert (swapIn c s = Ok (setState c EXEC s)) as -> by (unfold swapIn; rewrite Es, B; destruct st; states).
  eexists. split; [reflexivity|].
  assert (St : forall c', state_of c' (setState c EXEC s) = if decide (c = c') then Some EXEC else state_of c' s).
  { intros c'. rewrite state_set. destruct (decide _) as [->|]; [|done]. unfold state_of in Es. by destruct (s_cos s !! c'). }
  eapply (set_inv s (setState c EXEC s) _ t w c k EXEC st (On c k) l1 l2 I E U); try done; try (by rewrite P).
  - cbn. by rewrite length_alter.
  - intros R'. split; [done|]. change (state_of c (setState c EXEC s) = Some EXEC). rewrite St. by rewrite decide_True.
  - unfold active. rewrite P. cbn. done.
  - unfold idling. rewrite P. cbn. done.
Qed.

(** The states a coroutine may come back in. *)
Definition left_in (k : Kind) : list State := match k with KIdle => [HOLD; TERM; EXEC] | _ => [HOLD; READY; TERM; EXCEPT] end.

Lemma leave_inv s s1 t w c k st l1 l2 : inv s -> s_workers s = l1 ++ w :: l2 -> (forall w', <[t := w']> (s_workers s) = l1 ++ w' :: l2) ->
  w_pc w = On c k -> In st (left_in k) ->
  m_taskQueue s1 = m_taskQueue s -> s_workers s1 = s_workers s -> length (s_cos s1) = length (s_cos s) ->
  m_activeThreadCount s1 = m_activeThreadCount s -> m_idleThreadCount s1 = m_idleThreadCount s ->
  (forall c', state_of c' s1 = if decide (c = c') then Some st else state_of c' s) -> inv (at_pc t w (Leaving c k) s1).
Proof.
  intros I E U P M Q1 W1 L1 A1 D1 St. pose proof (ok_pc _ _ (inv_workers _ I w (in_worker _ _ _ _ E))) as Wp. unfold pc_ok in Wp. rewrite P in Wp.
  destruct Wp as [R Es].
  eapply (set_inv s s1 _ t w c k st EXEC (Leaving c k) l1 l2 I E U); try done; try (by rewrite P).
  - intros ->. destruct k; states.
  - intros R'. split; [done|]. exists st. split; [change (state_of c s1 = Some st); rewrite St; by rewrite decide_True|exact M].
  - unfold active. rewrite P. by destruct k.
  - unfold idling. rewrite P. by destruct k.
Qed.

Lemma set_states c st s st0 : state_of c s = Some st0 -> forall c', state_of c' (setState c st s) = if decide (c = c') then Some st else state_of c' s.
Proof. intros Es c'. rewrite state_set. destruct (decide _) as [->|]; [|done]. unfold state_of in Es. by destruct (s_cos s !! c'). Qed.

Lemma insert_states c co s st0 : state_of c s = Some st0 ->
  forall c', state_of c' (set_cos (<[c := co]> (s_cos s)) s) = if decide (c = c') then Some (m_state co) else state_of c' s.
Proof.
  intros Es c'. rewrite state_insert. pose proof (state_lt _ _ _ Es) as L.
  destruct (decide (c = c')) as [->|N]; [by rewrite decide_True|]. by rewrite decide_False by tauto.
Qed.

(** [YieldToReady], [YieldToHold], an exception, the end of the body. *)
Lemma set_leaves s t w c k st l1 l2 : inv s -> s_workers s = l1 ++ w :: l2 -> (forall w', <[t := w']> (s_workers s) = l1 ++ w' :: l2) ->
  w_pc w = On c k -> In st (left_in k) -> state_of c s = Some EXEC /\ inv (at_pc t w (Leaving c k) (setState c st s)).
Proof.
  intros I E U P M. pose proof (ok_pc _ _ (inv_workers _ I w (in_worker _ _ _ _ E))) as Wp. unfold pc_ok in Wp. rewrite P in Wp. destruct Wp as [R Es].
  split; [done|]. eapply (leave_inv s _ t w c k st l1 l2 I E U P M); try done; [cbn; by rewrite length_alter|]. exact (set_states _ _ _ _ Es).
Qed.

Lemma finish_inv s t w c k l1 l2 : inv s -> s_workers s = l1 ++ w :: l2 -> (forall w', <[t := w']> (s_workers s) = l1 ++ w' :: l2) ->
  w_pc w = On c k -> inv (finish t w c k s).
Proof.
  intros I E U P. pose proof (ok_pc _ _ (inv_workers _ I w (in_worker _ _ _ _ E))) as Wp. unfold pc_ok in Wp. rewrite P in Wp. destruct Wp as [R Es].
  eapply (leave_inv s _ t w c k TERM l1 l2 I E U P); try done; [destruct k; states|cbn; by rewrite length_insert|]. exact (insert_states c (mkCoroutine TERM false) s _ Es).
Qed.

Lemma raw_inv s t w c l1 l2 : inv s -> s_workers s = l1 ++ w :: l2 -> (forall w', <[t := w']> (s_workers s) = l1 ++ w' :: l2) ->
  w_pc w = On c KIdle -> inv (at_pc t w (Leaving c KIdle) s).
Proof.
  intros I E U P. pose proof (ok_pc _ _ (inv_workers _ I w (in_worker _ _ _ _ E))) as Wp. unfold pc_ok in Wp. rewrite P in Wp. destruct Wp as [R Es].
  eapply (leave_inv s _ t w c KIdle EXEC l1 l2 I E U P); try done; [states|]. intros c'. by destruct (decide _) as [->|].
Qed.

(** The end of [swapOut], and the counter. *)
Lemma back_inv s t w c k l1 l2 : inv s -> s_workers s = l1 ++ w :: l2 -> (forall w', <[t := w']> (s_workers s) = l1 ++ w' :: l2) ->
  w_pc w = Leaving c k -> inv (at_pc t w (Back c k) s).
Proof.
  intros I E U P. pose proof (inv_workers _ I w (in_worker _ _ _ _ E)) as [Wp Wi Wc]. unfold pc_ok in Wp. rewrite P in Wp.
  eapply (move_inv s _ l1 w (goto (Back c k) w) l2 [] [] I E); [apply U|done| |apply fresh_nil| | | |]; try (at_place; by destruct k).
Qed.

Lemma quiet_inv s t w c k l1 l2 : inv s -> s_workers s = l1 ++ w :: l2 -> (forall w', <[t := w']> (s_workers s) = l1 ++ w' :: l2) ->
  w_pc w = Back c k -> inv (quiet_step t w c k s).
Proof.
  intros I E U P. pose proof (inv_workers _ I w (in_worker _ _ _ _ E)) as [Wp Wi Wc]. unfold pc_ok in Wp. rewrite P in Wp. unfold quiet_step.
  eapply (move_inv s _ l1 w (goto (Settle c k) w) l2 [] [] I E); [by destruct k; apply U|by destruct k| |apply fresh_nil| | | |].
  - cbn. destruct k; at_place; done.
  - intros c'; at_place; by destruct k.
  - constructor; [exact Wp| |].
    + intros Hi. apply Wi. at_place.
    + intros c' Hc Hb. apply (Wc c' Hc). at_place.
  - destruct k; cbn; try (rewrite (add_active_ok s l1 w l2) by (done || (at_place; lia))); at_place.
  - destruct k; cbn; try (rewrite (add_idle_ok s l1 w l2) by (done || (at_place; lia))); at_place.
Qed.

(** *** What [run] does when the coroutine is back *)

Lemma settle_task_inv s t w c l1 l2 : inv s -> s_workers s = l1 ++ w :: l2 -> (forall w', <[t := w']> (s_workers s) = l1 ++ w' :: l2) ->
  w_pc w = Settle c KTask -> exists es s', settle_step t w c KTask s = Ok (es, s') /\ inv s'.
Proof.
  intros I E U P. pose proof (inv_workers _ I w (in_worker _ _ _ _ E)) as Wo. pose proof (ok_pc _ _ Wo) as Wp. unfold pc_ok in Wp. rewrite P in Wp.
  destruct Wp as [R (st & Es & Ms)]. unfold settle_step. rewrite Es.
  assert (Gone : inv (at_pc t w Fetch s)).
  { eapply (move_inv s _ l1 w (goto Fetch w) l2 [c] [] I E); [apply U|done| |apply fresh_nil|at_place| |at_place|at_place].
    - cbn. at_place. solve_Permutation.
    - apply w_ok_goto; [done|at_place|at_place|done]. }
  assert (Hold : inv (at_pc t w Fetch (setState c HOLD s))).
  { eapply (touch_inv s _ l1 w (goto Fetch w) l2 c [c] I E); [apply U| | | | |at_place| | |at_place|at_place].
    - at_place. right. left.
    - cbn. by rewrite length_alter.
    - intros c' N. by apply (setState_frame c HOLD s).
    - cbn. at_place. solve_Permutation.
    - change (state_of c (setState c HOLD s) = Some EXEC -> executes c (goto Fetch w)). by rewrite (state_set_eq _ _ _ _ Es).
    - apply (w_ok_frame (at_pc t w Fetch s)); [|apply (inv_workers _ Gone); cbn; rewrite U; apply elem_of_app; right; left].
      intros c' Hc. destruct (decide (c' = c)) as [->|N]; [exfalso|by apply (setState_frame c HOLD s)].
      destruct (inv_split _ _ _ _ I E) as [N _]. apply list.NoDup_app in N as (N & _ & _). apply list.NoDup_app in N as (_ & _ & N).
      unfold w_tokens in N, Hc. rewrite P in N. cbn in N, Hc. apply list.NoDup_cons in N as [N1 N]. apply list.NoDup_cons in N as [N2 _]. apply elem_of_cons in Hc as [->|Hc]; [apply N1; left|by apply N2]. }
  destruct st; try (by eexists _, _; split; [reflexivity|]); try states.
  eexists _, _. split; [reflexivity|].
  eapply (move_inv s _ l1 w (goto Fetch w) l2 [] [] I E); [apply U|done| |apply fresh_nil|at_place| |at_place|at_place].
  - cbn. rewrite queue_tokens_app. at_place. solve_Permutation.
  - apply w_ok_goto; [done|at_place|at_place|done].
Qed.

Lemma settle_callback_inv s t w c l1 l2 : inv s -> s_workers s = l1 ++ w :: l2 -> (forall w', <[t := w']> (s_workers s) = l1 ++ w' :: l2) ->
  w_pc w = Settle c KCallback -> exists es s', settle_step t w c KCallback s = Ok (es, s') /\ inv s'.
Proof.
  intros I E U P. pose proof (inv_workers _ I w (in_worker _ _ _ _ E)) as Wo. pose proof Wo as [Wp Wi Wc]. unfold pc_ok in Wp. rewrite P in Wp.
  destruct Wp as [R (st & Es & Ms)]. cbn [right] in R. unfold settle_step. rewrite Es.
  assert (Tk : c ∈ w_tokens w) by (at_place; rewrite R; right; left).
  assert (Ne : c <> w_idle w).
  { destruct (inv_split _ _ _ _ I E) as [N _]. apply list.NoDup_app in N as (N & _ & _). apply list.NoDup_app in N as (_ & _ & N).
    unfold w_tokens in N. rewrite P, R in N. cbn in N. apply list.NoDup_cons in N as [N _]. intros ->. apply N. left. }
  assert (Id : idles w = false) by (unfold idles; by rewrite P).
  assert (Reset : In st [TERM; EXCEPT] -> exists s1, reset_co c false s = Ok s1 /\ inv (at_pc t w Fetch s1)).
  { intros M. rewrite reset_co_ok by (exists st; split; [done|destruct st; states]). eexists. split; [reflexivity|].
    pose proof (insert_states c (mkCoroutine INIT false) s _ Es) as St. cbn [m_state] in St. set (s1 := set_cos _ s) in *.
    eapply (touch_inv s _ l1 w (goto Fetch w) l2 c [] I E); [apply U|done| | | |at_place| | |at_place|at_place].
    - cbn. by rewrite length_insert.
    - intros c' N. change (state_of c' s1 = state_of c' s). rewrite St. by rewrite decide_False.
    - cbn. rewrite app_nil_r. at_place. done.
    - change (state_of c s1 = Some EXEC -> executes c (goto Fetch w)). rewrite St. by rewrite decide_True.
    - constructor; [done|intros _|].
      + destruct (Wi Id) as (sti & Ei & Mi). exists sti. split; [|done]. change (state_of (w_idle w) s1 = Some sti). rewrite St. by rewrite decide_False.
      + intros c' Hc _. cbn in Hc. change (state_of c' s1 = Some INIT). rewrite St. rewrite decide_True by congruence. done. }
  assert (Hold : In st [HOLD; READY] -> inv (at_pc t (set_cb None w) Fetch (setState c HOLD s))).
  { intros M. pose proof (set_states c HOLD s _ Es) as St.
    eapply (touch_inv s _ l1 w (goto Fetch (set_cb None w)) l2 c [c] I E); [apply U|done| | | |at_place| | |at_place|at_place].
    - cbn. by rewrite length_alter.
    - intros c' N. by apply (setState_frame c HOLD s).
    - cbn. at_place. rewrite R. cbn. solve_Permutation.
    - change (state_of c (setState c HOLD s) = Some EXEC -> executes c (goto Fetch (set_cb None w))). rewrite St. by rewrite decide_True.
    - constructor; [done|intros _|done]. destruct (Wi Id) as (sti & Ei & Mi). exists sti. split; [|done].
      change (state_of (w_idle w) (setState c HOLD s) = Some sti). rewrite St. by rewrite decide_False. }
  destruct st; try states.
  - eexists _, _. split; [reflexivity|]. apply Hold. states.
  - destruct Reset as (s1 & -> & I1); [states|]. by eexists _, _.
  - eexists _, _. split; [reflexivity|].
    eapply (move_inv s _ l1 w (goto Fetch (set_cb None w)) l2 [] [] I E); [apply U|done| |apply fresh_nil|at_place| |at_place|at_place].
    + cbn. rewrite queue_tokens_app. at_place. rewrite R. cbn. solve_Permutation.
    + constructor; [done|intros _; by apply Wi|done].
  - destruct Reset as (s1 & -> & I1); [states|]. by eexists _, _.
Qed.

Lemma settle_idle_inv s t w c l1 l2 : inv s -> s_workers s = l1 ++ w :: l2 -> (forall w', <[t := w']> (s_workers s) = l1 ++ w' :: l2) ->
  w_pc w = Settle c KIdle -> exists es s', settle_step t w c KIdle s = Ok (es, s') /\ inv s'.
Proof.
  intros I E U P. pose proof (inv_workers _ I w (in_worker _ _ _ _ E)) as Wo. pose proof Wo as [Wp Wi Wc]. unfold pc_ok in Wp. rewrite P in Wp.
  destruct Wp as [R (st & Es & Ms)]. cbn [right] in R. unfold settle_step. rewrite Es.
  assert (Tk : c ∈ w_tokens w) by (at_place; rewrite R; left).
  assert (Ne : forall c', w_cb w = Some c' -> c' <> c).
  { intros c' Hc ->. destruct (inv_split _ _ _ _ I E) as [N _]. apply list.NoDup_app in N as (N & _ & _). apply list.NoDup_app in N as (_ & _ & N).
    unfold w_tokens in N. rewrite P, Hc in N. cbn in N. apply list.NoDup_cons in N as [N _]. apply N. rewrite R. left. }
  assert (Hold : inv (at_pc t w Fetch (setState c HOLD s))).
  { pose proof (set_states c HOLD s _ Es) as St.
    eapply (touch_inv s _ l1 w (goto Fetch w) l2 c [] I E); [apply U|done| | | |at_place| | |at_place|at_place].
    - cbn. by rewrite length_alter.
    - intros c' N. by apply (setState_frame c HOLD s).
    - cbn. rewrite app_nil_r. at_place. done.
    - change (state_of c (setState c HOLD s) = Some EXEC -> executes c (goto Fetch w)). rewrite St. by rewrite decide_True.
    - constructor; [done|intros _|].
      + exists HOLD. split; [|states]. change (state_of (w_idle w) (setState c HOLD s) = Some HOLD). rewrite St. by rewrite decide_True.
      + intros c' Hc _. change (state_of c' (setState c HOLD s) = Some INIT). rewrite St. rewrite decide_False by (intros <-; by apply (Ne c)).
        apply (Wc c' Hc). at_place. }
  destruct st; try states; eexists _, _; (split; [reflexivity|]); try exact Hold.
  eapply (touch_inv s _ l1 w (goto Fetch w) l2 c [] I E); [apply U|done|done|done| |at_place| | |at_place|at_place].
  - cbn. rewrite app_nil_r. at_place. done.
  - change (state_of c s = Some EXEC -> executes c (goto Fetch w)). congruence.
  - constructor; [done|intros _|].
    + exists TERM. split; [change (state_of (w_idle w) s = Some TERM); by rewrite <- R|states].
    + intros c' Hc _. apply (Wc c' Hc). at_place.
Qed.

(** *** Scheduling, new coroutines, other threads *)

Definition work_tokens (x : Work) : list nat := match x with Co c => [c] | Cb _ => [] end.

(** A client that keeps the discipline schedules a coroutine that no place holds. *)
Definition may_schedule (x : Work) (s : Scheduler) : Prop :=
  match x with Co c => (c < length (s_cos s))%nat /\ (c ∉ all_tokens s) | Cb _ => True end.

Definition disciplined (l : label) (s : Scheduler) : Prop :=
  match l with
  | Worker_does _ (Sched x _) | Other_does (XSched x _) => may_schedule x s
  | _ => True
  end.

Lemma push_inv s x thread : inv s -> may_schedule x s -> inv (snd (schedule (mkTask x thread) s)).
Proof.
  intros I M. assert (P : all_tokens (snd (schedule (mkTask x thread) s)) ≡ₚ work_tokens x ++ all_tokens s).
  { unfold all_tokens. cbn. rewrite queue_tokens_app. destruct x; cbn; solve_Permutation. }
  destruct I as [N B W X A Id L]. constructor; try done.
  - rewrite P. destruct x as [c|f]; cbn; [|done]. apply list.NoDup_cons. split; [apply M|done].
  - intros c. rewrite P. intros [Hc|Hc]%elem_of_app; [|by apply B]. destruct x as [c'|f]; [|by apply elem_of_nil in Hc].
    apply list_elem_of_singleton in Hc as ->. apply M.
  - intros w Hw. apply (w_ok_frame s); [done|by apply W].
Qed.

Lemma new_inv s : inv s -> inv (snd (new_Coroutine s)).
Proof.
  intros [N B W X A Id L]. assert (St := state_new s). constructor; try done.
  - intros c Hc. cbn. rewrite length_app. cbn. specialize (B c Hc). lia.
  - intros w Hw. apply (w_ok_frame s); [|by apply W]. intros c Hc. rewrite St. rewrite decide_False; [done|].
    assert (c ∈ all_tokens s) as D%B; [|lia]. apply elem_of_app. right. apply list_elem_of_In, in_concat. exists (w_tokens w).
    split; [apply in_map|]; by apply list_elem_of_In.
  - intros c Hc. rewrite St in Hc. destruct (decide _); [done|]. by apply X.
Qed.

Lemma external_inv x s : inv s -> disciplined (Other_does x) s -> inv (snd (external_step x s)).
Proof.
  intros I D. destruct x as [x thread| | |]; cbn [external_step snd]; [by apply push_inv|by apply new_inv| |]; destruct I as [N B W X A Id L]; constructor; try done;
    intros w Hw; (apply (w_ok_frame s); [done|by apply W]).
Qed.

Lemma on_inv s t w c k a r l1 l2 : inv s -> disciplined (Worker_does t a) s ->
  s_workers s = l1 ++ w :: l2 -> (forall w', <[t := w']> (s_workers s) = l1 ++ w' :: l2) ->
  s_workers s !! t = Some w -> w_pc w = On c k -> worker_step t a s = Some r -> exists es s', r = Ok (es, s') /\ inv s'.
Proof.
  intros I D E U Et P Er. unfold worker_step in Er. rewrite Et, P in Er.
  assert (Y : forall st, In st (left_in k) -> exists es s', yield st t w c k s = Ok (es, s') /\ inv s').
  { intros st M. destruct (set_leaves s t w c k st l1 l2 I E U P M) as [Es Is]. unfold yield. rewrite decide_True by done. by eexists _, _. }
  assert (G : forall es s', Some (Ok (es, s')) = Some r -> inv s' -> exists es s', r = Ok (es, s') /\ inv s') by (intros es s' [= <-] Is; by eexists _, _).
  assert (Th : inv (at_pc t w (Leaving c k) (setState c EXCEPT s)) \/ k = KIdle).
  { destruct k; [left|left|by right]; apply (set_leaves s t w c _ EXCEPT l1 l2 I E U P); states. }
  pose proof (finish_inv s t w c k l1 l2 I E U P) as Fi.
  assert (Sc : forall x th, a = Sched x th -> inv (snd (schedule (mkTask x th) s))) by (intros x th ->; by apply push_inv).
  pose proof (new_inv s I) as Nw.
  assert (Yo : forall o, Some o = Some r -> (exists es s', o = Ok (es, s') /\ inv s') -> exists es s', r = Ok (es, s') /\ inv s') by (intros o [= ->]; done).
  destruct k.
  3: { destruct a as [|x th| | | | | |quiet raw]; try done; [apply (G _ _ Er); by apply (Sc x th)|].
       destruct (quiet && stopping s); [by apply (G _ _ Er)|]. destruct raw; [by apply (G _ _ Er), (raw_inv s t w c l1 l2)|].
       apply (Yo _ Er), Y. states. }
  all: destruct Th as [Th|Th]; [|done]; destruct (m_cb <$> s_cos s !! c) as [[|]|]; destruct a as [|x th| | | | | |quiet raw]; try done;
    try (by apply (G _ _ Er)); try (apply (G _ _ Er); by apply (Sc x th)); apply (Yo _ Er), Y; states.
Qed.

(** No step of a disciplined system fails, and the invariant goes on. *)
Lemma worker_step_inv s t a r : inv s -> disciplined (Worker_does t a) s -> worker_step t a s = Some r ->
  exists es s', r = Ok (es, s') /\ inv s'.
Proof.
  intros I D Er. pose proof Er as Er0. unfold worker_step in Er. destruct (s_workers s !! t) as [w|] eqn:Et; [|done].
  destruct (worker_at s t w Et) as (l1 & l2 & E & U).
  destruct (w_pc w) as [|o|c k|c k|c k|c k|c k|] eqn:P.
  - destruct a; try done. injection Er as <-. eexists _, _. split; [by rewrite <- surjective_pairing|]. by eapply fetch_step_inv.
  - destruct a; try done. injection Er as <-.
    assert (exists s', take_step t w o s = Ok s' /\ inv s') as (s' & -> & Is); [|by eexists _, _].
    destruct o as [[c|f]|]; [by eapply take_task_inv| |by eapply take_none_inv].
    destruct (w_cb w) as [c|] eqn:Ec; [by eapply take_reset_inv|by eapply take_new_inv].
  - destruct a; try done. injection Er as <-. destruct (swapIn_inv s t w c k l1 l2 I E U P) as (s' & -> & Is). by eexists _, _.
  - by eapply (on_inv s t w c k a r l1 l2).
  - destruct a; try done. injection Er as <-. eexists _, _. split; [done|]. by eapply back_inv.
  - destruct a; try done. injection Er as <-. eexists _, _. split; [done|]. by eapply quiet_inv.
  - destruct a; try done. injection Er as <-. destruct k; [by eapply settle_task_inv|by eapply settle_callback_inv|by eapply settle_idle_inv].
  - destruct a; done.
Qed.

Lemma sched_step_inv s l r : inv s -> disciplined l s -> sched_step l s = Some r -> exists es s', r = Ok (es, s') /\ inv s'.
Proof.
  intros I D E. destruct l as [t a|x]; [by apply (worker_step_inv s t a)|]. cbn in E. injection E as <-.
  exists (fst (external_step x s)), (snd (external_step x s)). split; [by rewrite <- surjective_pairing|]. by apply external_inv.
Qed.

(** ** Reachable schedulers *)

(** The runs of [n] workers in which every step keeps the rule [ok]. *)
Inductive reach (ok : label -> Scheduler -> Prop) (n : nat) : list event -> Scheduler -> Prop :=
| reach_new : reach ok n [] (new_Scheduler n)
| reach_step es s l es' s' : reach ok n es s -> ok l s -> sched_step l s = Some (Ok (es', s')) -> reach ok n (es ++ es') s'.

Lemma reach_weaken (ok ok' : label -> Scheduler -> Prop) n es s : (forall l s, ok l s -> ok' l s) -> reach ok n es s -> reach ok' n es s.
Proof. intros H. induction 1 as [|es s l es' s' R IH D E]; [constructor|]. by eapply reach_step; [|apply H|]. Qed.

Lemma new_workers n w : w ∈ s_workers (new_Scheduler n) -> exists i, w = mkWorker Fetch None i /\ (i < n)%nat.
Proof.
  cbn. intros (i & Hi)%list_elem_of_lookup. rewrite list_lookup_imap in Hi. exists i.
  destruct (replicate n tt !! i) as [[]|] eqn:R; [|done]. apply lookup_replicate_1 in R as [_ L]. cbn in Hi. injection Hi as <-. done.
Qed.

Lemma new_inv_ok n : Z.of_nat n < 2 ^ 64 -> inv (new_Scheduler n).
Proof.
  intros L. assert (T : all_tokens (new_Scheduler n) = seq 0 n).
  { unfold all_tokens. cbn. rewrite imap_seq_0, length_replicate. generalize (seq 0 n). intros l. induction l as [|x l IH]; [done|]. cbn. f_equal. apply IH. }
  assert (S : forall c, (c < n)%nat -> state_of c (new_Scheduler n) = Some INIT).
  { intros c Hc. unfold state_of. cbn. by rewrite lookup_replicate_2. }
  assert (Z : forall f, (forall i, f (mkWorker Fetch None i) = 0) -> sum f (s_workers (new_Scheduler n)) = 0).
  { intros f F. cbn. rewrite imap_seq_0, length_replicate. generalize (seq 0 n). intros l. induction l as [|x l IH]; [done|]. cbn. rewrite F. apply IH. }
  constructor.
  - rewrite T. apply NoDup_seq.
  - intros c. rewrite T, elem_of_seq. cbn. rewrite length_replicate. lia.
  - intros w (i & -> & Hi)%new_workers. constructor; [done|intros _|done]. exists INIT. split; [by apply S|states].
  - intros c. unfold state_of. cbn. intros E. destruct (replicate n _ !! c) eqn:R; [|done]. apply lookup_replicate_1 in R as [-> _]. done.
  - by rewrite Z.
  - by rewrite Z.
  - unfold len. cbn. by rewrite imap_seq_0, length_fmap, length_seq, length_replicate.
Qed.

Lemma reach_inv n es s : Z.of_nat n < 2 ^ 64 -> reach disciplined n es s -> inv s.
Proof.
  intros L. induction 1 as [|es s l es' s' R IH D E]; [by apply new_inv_ok|].
  destruct (sched_step_inv s l _ IH D E) as (es1 & s1 & [= -> ->] & I). done.
Qed.

(** Two places that have a coroutine on the processor are one. *)
Lemma on_cpu_token s w c : w_ok s w -> on_cpu c w = true -> c ∈ w_tokens w.
Proof.
  intros [P _ _] X. unfold on_cpu in X. destruct (w_pc w) as [|o|c' k|c' k|c' k|c' k|c' k|] eqn:E; try done;
    apply bool_decide_eq_true in X as ->; apply (held s w c' k P); by rewrite E.
Qed.

Lemma token_unique s t1 t2 w1 w2 c : inv s -> s_workers s !! t1 = Some w1 -> s_workers s !! t2 = Some w2 ->
  c ∈ w_tokens w1 -> c ∈ w_tokens w2 -> t1 = t2.
Proof.
  intros I E1 E2 H1 H2. destruct (decide (t1 = t2)) as [->|N]; [done|exfalso].
  destruct (worker_at s t1 w1 E1) as (l1 & l2 & E & U). destruct (inv_split _ _ _ _ I E) as [D _].
  apply list.NoDup_app in D as (_ & D & _). apply (D c); [apply elem_of_app; by right|].
  apply (others_in _ _ w2); [|done]. pose proof (U (goto Exited w1)) as U1. pose proof (U (goto Fetch w1)) as U2.
  assert (M : forall pc, w2 ∈ l1 ++ goto pc w1 :: l2).
  { intros pc. rewrite <- U. apply list_elem_of_lookup. exists t2. by rewrite list_lookup_insert_ne. }
  pose proof (M Exited) as M1. pose proof (M Fetch) as M2. rewrite elem_of_app, elem_of_cons in M1, M2. rewrite elem_of_app.
  destruct M1 as [M1|[M1|M1]]; [by left| |by right]. destruct M2 as [M2|[M2|M2]]; [by left| |by right]. rewrite M1 in M2. discriminate M2.
Qed.


(** ** What a step does to the queue and to the workers *)

Definition scheds (es : list event) : list Task := omap (fun e => match e with Scheduled t => Some t | Taken _ => None end) es.
Definition takens (es : list event) : list Task := omap (fun e => match e with Taken t => Some t | Scheduled _ => None end) es.

(** A worker that is done: out of the loop, or about to leave it. *)
Definition leaving (s : Scheduler) (w : Worker) : Prop :=
  w_pc w = Exited \/ w_pc w = Take None /\ state_of (w_idle w) s = Some TERM.

Record effect (s s' : Scheduler) (t : nat) (w w' : Worker) (es : list event) : Prop := {
  ef_workers : s_workers s' = <[t := w']> (s_workers s);
  ef_idle : w_idle w' = w_idle w;
  ef_stop : m_autoStop s' = m_autoStop s;
  ef_queue : takens es ++ m_taskQueue s' ≡ₚ m_taskQueue s ++ scheds es;
  ef_frame c : c ∉ w_tokens w -> (c < length (s_cos s))%nat -> state_of c s' = state_of c s;
  ef_over : state_of (w_idle w) s' = Some TERM -> state_of (w_idle w) s = Some TERM \/ m_autoStop s = true;
  ef_place :
    (w_pc w = Fetch /\ w_pc w' = Take None /\ es = [] /\ forall task, task ∈ m_taskQueue s -> mine t task = true -> running_co s task = true) \/
    (w_pc w = Take None /\ w_pc w' = Exited /\ es = [] /\ state_of (w_idle w) s = Some TERM) \/
    w_pc w' <> Exited /\ w_pc w' <> Take None;
}.

Lemma eff_intro s s' t w w' es c : inv s -> w ∈ s_workers s -> s_workers s' = <[t := w']> (s_workers s) -> w_idle w' = w_idle w ->
  m_autoStop s' = m_autoStop s -> takens es ++ m_taskQueue s' ≡ₚ m_taskQueue s ++ scheds es -> c ∈ w_tokens w ->
  (forall c', c' <> c -> (c' < length (s_cos s))%nat -> state_of c' s' = state_of c' s) ->
  (c = w_idle w -> state_of c s' = Some TERM -> state_of c s = Some TERM \/ m_autoStop s = true) ->
  (w_pc w = Fetch /\ w_pc w' = Take None /\ es = [] /\ (forall task, task ∈ m_taskQueue s -> mine t task = true -> running_co s task = true)) \/
    (w_pc w = Take None /\ w_pc w' = Exited /\ es = [] /\ state_of (w_idle w) s = Some TERM) \/
    w_pc w' <> Exited /\ w_pc w' <> Take None -> effect s s' t w w' es.
Proof.
  intros I Hw W Wi S Q Tc Fr Ov Pl. constructor; try done.
  - intros c' Nc L. apply Fr; [|done]. by intros ->.
  - intros X. destruct (decide (w_idle w = c)) as [Ec|N]; [rewrite Ec in *; by apply Ov|]. left. rewrite Fr in X; [done|done|].
    apply (inv_bound _ I), elem_of_app. right. apply list_elem_of_In, in_concat. exists (w_tokens w).
    split; [apply in_map; by apply list_elem_of_In|apply list_elem_of_In; left].
Qed.

(** A step that changes no coroutine that there was. *)
Lemma eff_keep s s' t w w' es : inv s -> w ∈ s_workers s -> s_workers s' = <[t := w']> (s_workers s) -> w_idle w' = w_idle w ->
  m_autoStop s' = m_autoStop s -> takens es ++ m_taskQueue s' ≡ₚ m_taskQueue s ++ scheds es ->
  (forall c', (c' < length (s_cos s))%nat -> state_of c' s' = state_of c' s) ->
  (w_pc w = Fetch /\ w_pc w' = Take None /\ es = [] /\ (forall task, task ∈ m_taskQueue s -> mine t task = true -> running_co s task = true)) \/
    (w_pc w = Take None /\ w_pc w' = Exited /\ es = [] /\ state_of (w_idle w) s = Some TERM) \/
    w_pc w' <> Exited /\ w_pc w' <> Take None -> effect s s' t w w' es.
Proof.
  intros I Hw W Wi S Q Fr Pl. eapply (eff_intro s s' t w w' es (w_idle w)); try done; [left|by auto|].
  intros _ X. left. rewrite Fr in X; [done|]. apply (inv_bound _ I), elem_of_app. right. apply list_elem_of_In, in_concat. exists (w_tokens w).
  split; [apply in_map; by apply list_elem_of_In|apply list_elem_of_In; left].
Qed.

Lemma not_idle s w c k : inv s -> w ∈ s_workers s -> pc_co (w_pc w) = Some (c, k) -> k <> KIdle -> c <> w_idle w.
Proof.
  intros I Hw E K ->. apply list_elem_of_lookup in Hw as [t Et]. destruct (worker_at s t w Et) as (l1 & l2 & Ew & _).
  destruct (inv_split _ _ _ _ I Ew) as [N _]. apply list.NoDup_app in N as (N & _ & _). apply list.NoDup_app in N as (_ & _ & N).
  unfold w_tokens in N. apply list.NoDup_cons in N as [N _]. apply N.
  pose proof (ok_pc _ _ (inv_workers _ I w (in_worker _ _ _ _ Ew))) as P. destruct (held s w _ _ P E) as [_ R]. destruct k; [|cbn in R|done].
  - apply elem_of_app. left. destruct (w_pc w) as [|o|c' k'|c' k'|c' k'|c' k'|c' k'|]; try done; injection E as -> ->; left.
  - apply elem_of_app. right. rewrite R. left.
Qed.

Lemma take_effect s t w o s' : inv s -> s_workers s !! t = Some w -> w_pc w = Take o -> take_step t w o s = Ok s' ->
  exists w', effect s s' t w w' [].
Proof.
  intros I Et P. pose proof (list_elem_of_lookup_2 _ _ _ Et) as Hw. destruct o as [[c|f]|]; cbn [take_step].
  - destruct (state_of c s) as [st|] eqn:Es; [|done].
    assert (G : forall pc s1, Ok (at_pc t w pc s1) = Ok s' -> m_taskQueue s1 = m_taskQueue s -> s_workers s1 = s_workers s -> s_cos s1 = s_cos s ->
      m_autoStop s1 = m_autoStop s -> pc <> Exited -> pc <> Take None -> exists w', effect s s' t w w' []).
    { intros pc s1 [= <-] Q W C S N1 N2. exists (goto pc w). apply (eff_keep s _ t w _ [] I Hw); cbn; try done.
      - by rewrite W.
      - by rewrite Q, app_nil_r.
      - intros c' _. unfold state_of. cbn. by rewrite C.
      - by right; right. }
    destruct st; intros X; by eapply G.
  - destruct (w_cb w) as [c|] eqn:Ec.
    + destruct (reset_co c true s) as [s1| |] eqn:R; [|done|done]. cbn [rbind]. intros [= <-]. unfold reset_co in R.
      assert (s1 = set_cos (<[c := mkCoroutine INIT true]> (s_cos s)) s) as ->.
      { destruct (state_of c s) as [[]|]; try done; by injection R as <-. }
      exists (goto (SwapIn c KCallback) w). eapply (eff_intro s _ t w _ [] c I Hw); cbn; try done.
      * by rewrite app_nil_r.
      * unfold w_tokens. rewrite P, Ec. right. left.
      * intros c' N L. change (state_of c' (set_cos (<[c := mkCoroutine INIT true]> (s_cos s)) s) = state_of c' s). rewrite state_insert. by rewrite decide_False by (intros [-> _]; done).
      * intros -> X. change (state_of (w_idle w) (set_cos (<[w_idle w := mkCoroutine INIT true]> (s_cos s)) s) = Some TERM) in X.
        rewrite state_insert in X. destruct (decide _); [done|by left].
      * by right; right.
    + cbn [new_Coroutine]. intros [= <-]. exists (goto (SwapIn (length (s_cos s)) KCallback) (set_cb (Some (length (s_cos s))) w)).
      apply (eff_keep s _ t w _ [] I Hw); cbn; try done; [by rewrite app_nil_r| |by right; right].
      intros c' L. pose proof (state_new s c') as St. rewrite decide_False in St by lia. exact St.
  - destruct (decide _) as [D|D]; intros [= <-].
    + exists (goto Exited w). apply (eff_keep s _ t w _ [] I Hw); cbn; try done; [by rewrite app_nil_r|]. right. left. done.
    + exists (goto (SwapIn (w_idle w) KIdle) w). apply (eff_keep s _ t w _ [] I Hw); cbn; try done; [by rewrite app_nil_r|]. by right; right.
Qed.

Lemma settle_effect s t w c k es s' : inv s -> s_workers s !! t = Some w -> w_pc w = Settle c k -> settle_step t w c k s = Ok (es, s') ->
  exists w', effect s s' t w w' es.
Proof.
  intros I Et P. pose proof (list_elem_of_lookup_2 _ _ _ Et) as Hw. pose proof (ok_pc _ _ (inv_workers _ I w Hw)) as Wp.
  destruct (held s w c k Wp) as [Tk R]; [by rewrite P|]. unfold settle_step. destruct (state_of c s) as [st|] eqn:Es; [|done].
  assert (Push : forall w1 ev, w_idle w1 = w_idle w -> ev = [Scheduled (mkTask (Co c) (-1))] ->
    Ok (ev, at_pc t w1 Fetch (snd (schedule (mkTask (Co c) (-1)) s))) = Ok (es, s') -> exists w', effect s s' t w w' es).
  { intros w1 ev Ei Ev [= <- <-]. exists (goto Fetch w1). subst ev. apply (eff_keep s _ t w _ _ I Hw); cbn; try done. by right; right. }
  assert (Keep : Ok ([] : list event, at_pc t w Fetch s) = Ok (es, s') -> exists w', effect s s' t w w' es).
  { intros [= <- <-]. exists (goto Fetch w). apply (eff_keep s _ t w _ _ I Hw); cbn; try done; [by rewrite app_nil_r|]. by right; right. }
  assert (Hold : forall w1, w_idle w1 = w_idle w -> Ok ([] : list event, at_pc t w1 Fetch (setState c HOLD s)) = Ok (es, s') -> exists w', effect s s' t w w' es).
  { intros w1 Ei [= <- <-]. exists (goto Fetch w1). eapply (eff_intro s _ t w _ _ c I Hw); cbn; try done; [by rewrite app_nil_r| | |by right; right].
    - intros c' N _. by apply (setState_frame c HOLD s).
    - intros _ X. change (state_of c (setState c HOLD s) = Some TERM) in X. by rewrite (state_set_eq _ _ _ _ Es) in X. }
  assert (Reset : k = KCallback -> rbind (reset_co c false s) (fun s => Ok ([], at_pc t w Fetch s)) = Ok (es, s') -> exists w', effect s s' t w w' es).
  { intros K X. assert (Ne : c <> w_idle w) by (apply (not_idle s w c k I Hw); [by rewrite P|by rewrite K]). unfold reset_co in X. rewrite Es in X.
    assert (E : s' = at_pc t w Fetch (set_cos (<[c := mkCoroutine INIT false]> (s_cos s)) s) /\ es = []) by (destruct st; try done; by injection X as <- <-).
    destruct E as [-> ->]. exists (goto Fetch w). eapply (eff_intro s _ t w _ _ c I Hw); cbn; try done; [by rewrite app_nil_r| |by right; right].
    intros c' N _. change (state_of c' (set_cos (<[c := mkCoroutine INIT false]> (s_cos s)) s) = state_of c' s). rewrite state_insert. rewrite decide_False by (intros [-> _]; done). done. }
  destruct st, k; intros X; try (by apply (Hold _ eq_refl X)); try (by apply (Keep X)); try (by apply (Reset eq_refl X));
    try (by apply (Hold (set_cb None w) eq_refl X)); try (by apply (Push w _ eq_refl eq_refl X)); by apply (Push (set_cb None w) _ eq_refl eq_refl X).
Qed.

Lemma on_effect s t w c k a es s' : inv s -> s_workers s !! t = Some w -> w_pc w = On c k -> worker_step t a s = Some (Ok (es, s')) ->
  exists w', effect s s' t w w' es.
Proof.
  intros I Et P E. pose proof (list_elem_of_lookup_2 _ _ _ Et) as Hw. pose proof (ok_pc _ _ (inv_workers _ I w Hw)) as Wp.
  destruct (held s w c k Wp) as [Tk R]; [by rewrite P|]. unfold pc_ok in Wp. rewrite P in Wp. destruct Wp as [_ Es]. unfold worker_step in E. rewrite Et, P in E.
  assert (Push : forall x th, Some (Ok ([Scheduled (mkTask x th)], snd (schedule (mkTask x th) s))) = Some (Ok (es, s')) -> exists w', effect s s' t w w' es).
  { intros x th [= <- <-]. exists w. apply (eff_keep s _ t w _ _ I Hw); cbn; try done; [by rewrite list_insert_id|]. right. right. by rewrite P. }
  assert (New' : Some (Ok ([] : list event, snd (new_Coroutine s))) = Some (Ok (es, s')) -> exists w', effect s s' t w w' es).
  { intros [= <- <-]. exists w. apply (eff_keep s _ t w _ _ I Hw); cbn; try done; [by rewrite list_insert_id|by rewrite app_nil_r| |right; right; by rewrite P].
    intros c' L. pose proof (state_new s c') as St. rewrite decide_False in St by lia. exact St. }
  assert (Set' : forall st, st <> TERM -> Some (Ok ([] : list event, at_pc t w (Leaving c k) (setState c st s))) = Some (Ok (es, s')) -> exists w', effect s s' t w w' es).
  { intros st Ns [= <- <-]. exists (goto (Leaving c k) w). eapply (eff_intro s _ t w _ _ c I Hw); cbn; try done; [by rewrite app_nil_r| | |by right; right].
    - intros c' N _. by apply (setState_frame c st s).
    - intros _ X. change (state_of c (setState c st s) = Some TERM) in X. rewrite (state_set_eq _ _ _ _ Es) in X. congruence. }
  assert (Fin : (c = w_idle w -> m_autoStop s = true) -> Some (Ok ([] : list event, finish t w c k s)) = Some (Ok (es, s')) -> exists w', effect s s' t w w' es).
  { intros A [= <- <-]. exists (goto (Leaving c k) w). eapply (eff_intro s _ t w _ _ c I Hw); cbn; try done; [by rewrite app_nil_r| | |by right; right].
    - intros c' N _. change (state_of c' (set_cos (<[c := mkCoroutine TERM false]> (s_cos s)) s) = state_of c' s). rewrite state_insert. by rewrite decide_False by (intros [-> _]; done).
    - intros Ec _. right. by apply A. }
  assert (Raw : Some (Ok ([] : list event, at_pc t w (Leaving c k) s)) = Some (Ok (es, s')) -> exists w', effect s s' t w w' es).
  { intros [= <- <-]. exists (goto (Leaving c k) w). apply (eff_keep s _ t w _ _ I Hw); cbn; try done; [by rewrite app_nil_r|by right; right]. }
  assert (Y : forall st, yield st t w c k s = Ok ([], at_pc t w (Leaving c k) (setState c st s))) by (intros st; unfold yield; by rewrite decide_True).
  assert (Ni : k <> KIdle -> c = w_idle w -> m_autoStop s = true) by (intros K Ec; exfalso; by apply (not_idle s w c k I Hw); [rewrite P|..]).
  destruct k.
  3: { destruct a as [|x th| | | | | |quiet raw]; try done; [by eapply Push|]. destruct (quiet && stopping s) eqn:Q.
       - apply Fin; [|done]. intros _. apply andb_prop in Q as [_ Q]. unfold stopping in Q. by destruct (m_autoStop s).
       - destruct raw; [by apply Raw|]. rewrite Y in E. by apply (Set' HOLD). }
  all: destruct (m_cb <$> s_cos s !! c) as [[|]|]; destruct a as [|x th| | | | | |quiet raw]; try done; rewrite ?Y in E;
    solve [by eapply Push|by apply New'|by apply (Set' HOLD)|by apply (Set' READY)|by apply (Set' EXCEPT)|apply Fin; [by apply Ni|done]].
Qed.

Lemma worker_effect s t a es s' : inv s -> worker_step t a s = Some (Ok (es, s')) ->
  exists w w', s_workers s !! t = Some w /\ effect s s' t w w' es.
Proof.
  intros I E0. pose proof E0 as E. unfold worker_step in E. destruct (s_workers s !! t) as [w|] eqn:Et; [|done]. exists w.
  pose proof (list_elem_of_lookup_2 _ _ _ Et) as Hw. assert (G : (exists w', effect s s' t w w' es) -> exists w', Some w = Some w /\ effect s s' t w w' es) by (intros [w' X]; by exists w').
  apply G. clear G. destruct (w_pc w) as [|o|c k|c k|c k|c k|c k|] eqn:P.
  - destruct a; try done. unfold fetch_step in E. pose proof (fetch_ok t s (m_taskQueue s)) as F.
    destruct (fetch t s (m_taskQueue s)) as [[[task|] q'] b]; injection E as <- <-.
    + destruct F as (q1 & q2 & Eq & -> & _). exists (goto (Take (Some (t_work task))) w). apply (eff_keep s _ t w _ _ I Hw); cbn; try done; [|by right; right].
      rewrite Eq. solve_Permutation.
    + destruct F as [-> F]. exists (goto (Take None) w). apply (eff_keep s _ t w _ _ I Hw); cbn; try done; [by rewrite app_nil_r|]. by left.
  - destruct a; try done. injection E as E. destruct (take_step t w o s) as [s1| |] eqn:T; try done. injection E as <- <-. by eapply take_effect.
  - destruct a; try done. injection E as E. destruct (swapIn c s) as [s1| |] eqn:T; try done. injection E as <- <-.
    pose proof (ok_pc _ _ (inv_workers _ I w Hw)) as Wp. destruct (held s w c k Wp) as [Tk R]; [by rewrite P|].
    unfold pc_ok in Wp. rewrite P in Wp. destruct Wp as [_ (st & Es & _)]. unfold swapIn in T. rewrite Es in T.
    assert (s1 = setState c EXEC s) as -> by (destruct st; try done; destruct (existsb _ _); try done; by injection T as <-).
    exists (goto (On c k) w). eapply (eff_intro s _ t w _ _ c I Hw); cbn; try done; [by rewrite app_nil_r| | |by right; right].
    + intros c' N _. by apply (setState_frame c EXEC s).
    + intros _ X. change (state_of c (setState c EXEC s) = Some TERM) in X. by rewrite (state_set_eq _ _ _ _ Es) in X.
  - by eapply on_effect.
  - destruct a; try done. injection E as <- <-. exists (goto (Back c k) w). apply (eff_keep s _ t w _ _ I Hw); cbn; try done; [by rewrite app_nil_r|by right; right].
  - destruct a; try done. injection E as <- <-. exists (goto (Settle c k) w). apply (eff_keep s _ t w _ _ I Hw); try (by destruct k); [destruct k; cbn; by rewrite app_nil_r|by right; right].
  - destruct a; try done. injection E as E. by eapply settle_effect.
  - by destruct a.
Qed.

(** ** The end of the scheduler *)

(** Other threads schedule only until [stop] is called. *)
Definition before_stop (l : label) (s : Scheduler) : Prop :=
  match l with Other_does (XSched _ _) => m_autoStop s = false | _ => True end.

Record draining (s : Scheduler) : Prop := {
  dr_over w : w ∈ s_workers s -> state_of (w_idle w) s = Some TERM -> m_autoStop s = true;
  dr_some : s_workers s <> [];
  dr_queue : (exists w, w ∈ s_workers s /\ ~ leaving s w) \/ forall task, task ∈ m_taskQueue s -> t_thread task <> -1;
}.

Lemma leaving_dec s w : leaving s w \/ ~ leaving s w.
Proof.
  unfold leaving. destruct (w_pc w) as [|[x|]| | | | | |]; try (right; intros [?|[? _]]; done); [|by left; left].
  destruct (decide (state_of (w_idle w) s = Some TERM)); [left; by right|right; intros [?|[_ ?]]; done].
Qed.

Lemma executes_here s c w : executes c w -> ~ leaving s w.
Proof. unfold executes, leaving. intros X [P|[P _]]; by rewrite P in X. Qed.

(** The idle coroutine of another worker is as it was. *)
Lemma idle_frame s s' t w w' es v : inv s -> s_workers s !! t = Some w -> effect s s' t w w' es -> v ∈ s_workers s -> v <> w ->
  state_of (w_idle v) s' = state_of (w_idle v) s.
Proof.
  intros I Et Ef Hv N. apply (ef_frame _ _ _ _ _ _ Ef).
  - intros Hc. apply list_elem_of_lookup in Hv as [tv Ev]. apply N.
    assert (tv = t) as ->; [|congruence]. apply (token_unique s tv t v w (w_idle v) I Ev Et); [left|done].
  - apply (inv_bound _ I), elem_of_app. right. apply list_elem_of_In, in_concat. exists (w_tokens v). split; [apply in_map|left; done]; by apply list_elem_of_In.
Qed.

Lemma in_insert {A} (l : list A) t w w' v : l !! t = Some w -> v ∈ <[t := w']> l -> v = w' \/ exists t', t' <> t /\ l !! t' = Some v.
Proof.
  intros Et Hv. apply list_elem_of_lookup in Hv as [t' Ev]. destruct (decide (t = t')) as [->|N].
  - left. rewrite list_lookup_insert_eq in Ev by (by eapply lookup_lt_Some). congruence.
  - right. exists t'. rewrite list_lookup_insert_ne in Ev by done. done.
Qed.

Lemma insert_in {A} (l : list A) t w w' : l !! t = Some w -> w' ∈ <[t := w']> l /\ forall v, v ∈ l -> v <> w -> v ∈ <[t := w']> l.
Proof.
  intros Et. split.
  - apply list_elem_of_lookup. exists t. apply list_lookup_insert_eq. by eapply lookup_lt_Some.
  - intros v [t' Ev]%list_elem_of_lookup N. apply list_elem_of_lookup. exists t'. rewrite list_lookup_insert_ne; [done|]. congruence.
Qed.

Lemma worker_draining s t a es s' : inv s -> draining s -> worker_step t a s = Some (Ok (es, s')) -> draining s'.
Proof.
  intros I [Ov So Q] E. destruct (worker_effect s t a es s' I E) as (w & w' & Et & Ef).
  pose proof Ef as [Ew Ei Es Eq Ff Eo Pl]. destruct (insert_in (s_workers s) t w w' Et) as [In' Keep].
  assert (Hw : w ∈ s_workers s) by (by eapply list_elem_of_lookup_2).
  assert (Ne : forall t' v, t' <> t -> s_workers s !! t' = Some v -> v <> w).
  { intros t' v N Ev ->. apply N. apply (token_unique s t' t w w (w_idle w) I Ev Et); left. }
  assert (Other : forall v, v ∈ s_workers s -> v <> w -> ~ leaving s v -> exists u, u ∈ s_workers s' /\ ~ leaving s' u).
  { intros v Hv Nv Lv. exists v. rewrite Ew. split; [by apply Keep|]. unfold leaving. by rewrite (idle_frame s s' t w w' es v I Et Ef Hv Nv). }
  constructor.
  - rewrite Es, Ew. intros v [->|(t' & N & Ev)]%(in_insert _ _ _ _ _ Et) Tv.
    + rewrite Ei in Tv. destruct (Eo Tv) as [T|T]; [by apply (Ov w)|done].
    + assert (Hv : v ∈ s_workers s) by (by eapply list_elem_of_lookup_2).
      rewrite (idle_frame s s' t w w' es v I Et Ef Hv (Ne _ _ N Ev)) in Tv. by apply (Ov v).
  - rewrite Ew. intros B. rewrite B in In'. by apply elem_of_nil in In'.
  - destruct Pl as [(P & P' & -> & El)|[(P & P' & -> & T)|[N1 N2]]].
    + cbn in Eq. rewrite app_nil_r in Eq.
      destruct (decide (Exists (fun task => t_thread task = -1) (m_taskQueue s))) as [(task & Ht & Tt)%list.Exists_exists|Nt].
      * left. specialize (El task Ht). unfold mine in El. rewrite Tt in El. specialize (El eq_refl). unfold running_co in El.
        destruct (t_work task) as [c|f]; [|done]. apply bool_decide_eq_true in El. destruct (inv_exec _ I c El) as (u & Hu & Xu).
        apply (Other u Hu); [|by eapply executes_here]. intros ->. unfold executes in Xu. by rewrite P in Xu.
      * right. intros task Ht Tt. apply Nt, list.Exists_exists. exists task. by rewrite <- Eq.
    + cbn in Eq. rewrite app_nil_r in Eq. destruct Q as [(v & Hv & Lv)|Q].
      * left. apply (Other v Hv); [|done]. intros ->. apply Lv. by right.
      * right. intros task. rewrite Eq. apply Q.
    + left. exists w'. rewrite Ew. split; [done|intros [?|[? _]]; done].
Qed.

Lemma external_draining s x : inv s -> draining s -> before_stop (Other_does x) s -> draining (snd (external_step x s)).
Proof.
  intros I [Ov So Q] B. destruct x as [x thread| | |]; cbn [external_step snd].
  - assert (exists w, w ∈ s_workers s) as [w Hw].
    { clear -So. destruct (s_workers s) as [|w l]; [done|]. exists w. left. }
    cbn in B. constructor; [exact Ov|exact So|]. left. exists w. split; [exact Hw|].
    assert (Nt : state_of (w_idle w) s <> Some TERM) by (intros T; by rewrite (Ov w Hw T) in B).
    intros [P|[_ T]]; [|by apply Nt]. apply Nt. pose proof (ok_pc _ _ (inv_workers _ I w Hw)) as W. unfold pc_ok in W. by rewrite P in W.
  - assert (St : forall w, w ∈ s_workers s -> state_of (w_idle w) (snd (new_Coroutine s)) = state_of (w_idle w) s).
    { intros w Hw. rewrite state_new. rewrite decide_False; [done|]. assert (w_idle w ∈ all_tokens s) as D; [|apply (inv_bound _ I) in D; lia].
      apply elem_of_app. right. apply list_elem_of_In, in_concat. exists (w_tokens w). split; [apply in_map|left; done]; by apply list_elem_of_In. }
    constructor; [|exact So|].
    + intros w Hw T. change (w ∈ s_workers s) in Hw. rewrite St in T by done. by apply (Ov w).
    + destruct Q as [(w & Hw & L)|Q]; [left|by right]. exists w. split; [done|]. unfold leaving. by rewrite St.
  - by constructor.
  - by constructor.
Qed.

Lemma reach_draining n es s : (0 < n)%nat -> Z.of_nat n < 2 ^ 64 ->
  reach (fun l s => disciplined l s /\ before_stop l s) n es s -> inv s /\ draining s.
Proof.
  intros Hn L. induction 1 as [|es s l es' s' R [I Dr] [D B] E].
  - split; [by apply new_inv_ok|]. constructor.
    + intros w (i & -> & Hi)%new_workers. unfold state_of. cbn. by rewrite lookup_replicate_2.
    + destruct n; [lia|]. done.
    + by right; intros task B%elem_of_nil.
  - destruct (sched_step_inv s l _ I D E) as (es1 & s1 & [= <- <-] & I'). split; [done|].
    destruct l as [t a|x]; [exact (worker_draining s t a es' s' I Dr E)|]. cbn in E. injection E as E. pose proof (external_draining s x I Dr B) as X. by rewrite E in X.
Qed.

(** What was scheduled is what was taken and what is queued. *)
Lemma reach_conserves n es s : Z.of_nat n < 2 ^ 64 -> reach disciplined n es s -> takens es ++ m_taskQueue s ≡ₚ scheds es.
Proof.
  intros L. induction 1 as [|es s l es' s' R IH D E]; [done|]. pose proof (reach_inv n es s L R) as I.
  assert (P : takens es' ++ m_taskQueue s' ≡ₚ m_taskQueue s ++ scheds es').
  { destruct l as [t a|x]; [destruct (worker_effect s t a es' s' I E) as (w & w' & _ & Ef); apply Ef|].
    cbn in E. injection E as E. destruct x; injection E as <- <-; cbn; by rewrite ?app_nil_r. }
  unfold takens, scheds in *. rewrite !omap_app, <- app_assoc, P, app_assoc, IH. done.
Qed.
(** ** A run *)

(** A list of steps, each of which keeps the rule. *)
Fixpoint obeys (ok : label -> Scheduler -> Prop) (ls : list label) (s : Scheduler) : Prop :=
  match ls with
  | [] => True
  | l :: ls => ok l s /\ match sched_step l s with Some (Ok (_, s)) => obeys ok ls s | _ => False end
  end.

Lemma reach_run ok n ls : forall es s es' s', reach ok n es s -> obeys ok ls s -> run_steps ls s = Some (Ok (es', s')) -> reach ok n (es ++ es') s'.
Proof.
  induction ls as [|l ls IH]; intros es s es' s' R O E; cbn in O, E; [injection E as <- <-; by rewrite app_nil_r|].
  destruct O as [D O]. destruct (sched_step l s) as [[[e1 s1]|c|c]|] eqn:El; try done.
  destruct (run_steps ls s1) as [[[e2 s2]|c|c]|] eqn:Er; try done. injection E as <- <-. rewrite app_assoc.
  eapply IH; [|done|done]. by eapply reach_step.
Qed.

(** Two workers: one runs coroutine 2, which lets others go first; the other runs a
    callback that makes coroutine 4 and schedules it; the scheduler is stopped, the queue
    is emptied and the workers leave. *)
Definition a_day : list label :=
  let steps t n := replicate n (Worker_does t Step) in
  [Other_does XNew; Other_does (XSched (Co 2) (-1)); Other_does (XSched (Cb 9) (-1))] ++
  steps 0%nat 3%nat ++ steps 1%nat 3%nat ++
  [Worker_does 1 New; Worker_does 1 (Sched (Co 4) (-1)); Worker_does 0 YieldToReady] ++ steps 0%nat 3%nat ++
  [Worker_does 1 Finish] ++ steps 1%nat 3%nat ++
  [Other_does XAutoStop; Other_does XNotRunning] ++
  steps 1%nat 3%nat ++ [Worker_does 1 Finish] ++ steps 1%nat 3%nat ++
  steps 0%nat 3%nat ++ [Worker_does 0 Finish] ++ steps 0%nat 3%nat ++
  steps 0%nat 3%nat ++ [Worker_does 0 (Idle true false)] ++ steps 0%nat 5%nat ++
  steps 1%nat 3%nat ++ [Worker_does 1 (Idle true false)] ++ steps 1%nat 5%nat.

#[local] Instance may_schedule_dec x s : Decision (may_schedule x s).
Proof. destruct x; apply _. Defined.

#[local] Instance disciplined_dec l s : Decision (disciplined l s).
Proof. destruct l as [t []|[]]; apply _. Defined.

#[local] Instance before_stop_dec l s : Decision (before_stop l s).
Proof. destruct l as [t a|[]]; cbn; apply _. Defined.

#[local] Instance obeys_dec ok `{forall l s, Decision (ok l s)} ls s : Decision (obeys ok ls s).
Proof.
  revert s. induction ls as [|l ls IH]; intros s; cbn; [apply _|]. refine (and_dec _ _).
  destruct (sched_step l s) as [[[e s']|c|c]|]; apply _.
Defined.

Definition day_end : list event * Scheduler :=
  ([Scheduled (mkTask (Co 2) (-1)); Scheduled (mkTask (Cb 9) (-1)); Taken (mkTask (Co 2) (-1)); Taken (mkTask (Cb 9) (-1));
    Scheduled (mkTask (Co 4) (-1)); Scheduled (mkTask (Co 2) (-1)); Taken (mkTask (Co 4) (-1)); Taken (mkTask (Co 2) (-1))],
   mkScheduler [] 0 0 false true
     [mkCoroutine TERM false; mkCoroutine TERM false; mkCoroutine TERM false; mkCoroutine INIT false; mkCoroutine TERM false]
     [mkWorker Exited None 0; mkWorker Exited (Some 3%nat) 1]).

Lemma a_day_reach : reach (fun l s => disciplined l s /\ before_stop l s) 2 (fst day_end) (snd day_end).
Proof.
  apply (reach_run _ 2 a_day [] (new_Scheduler 2)); [constructor| |by vm_compute].
  apply (bool_decide_eq_true_1 _). vm_compute. reflexivity.
Qed.

(** ** Properties *)

(** C1: Whatever the number of workers, as long as clients schedule only coroutines that
    are neither queued nor with a worker: no assertion of the scheduler fails and no
    coroutine is entered before its context is saved; a coroutine has one token, so it is
    on at most one processor; the running ones are those whose state is [EXEC]; and the two
    counters count the workers that have a task and those that idle. *)
Theorem Scheduler_exclusive n es s : Z.of_nat n < 2 ^ 64 -> reach disciplined n es s ->
  (forall l r, disciplined l s -> sched_step l s = Some r -> exists es' s', r = Ok (es', s')) /\
  (forall c t1 t2 w1 w2, s_workers s !! t1 = Some w1 -> s_workers s !! t2 = Some w2 ->
     on_cpu c w1 = true -> on_cpu c w2 = true -> t1 = t2) /\
  (forall c t w k, s_workers s !! t = Some w -> w_pc w = On c k -> state_of c s = Some EXEC) /\
  NoDup (all_tokens s) /\
  m_activeThreadCount s = sum active (s_workers s) /\ m_idleThreadCount s = sum idling (s_workers s).
Proof.
  intros L R. pose proof (reach_inv n es s L R) as I. split; [|split; [|split; [|split; [apply I|split; apply I]]]].
  - intros l r D E. destruct (sched_step_inv s l r I D E) as (es' & s' & -> & _). by eexists _, _.
  - intros c t1 t2 w1 w2 E1 E2 X1 X2. apply (token_unique s t1 t2 w1 w2 c I E1 E2); (eapply on_cpu_token; [|done]);
      apply (inv_workers _ I); by eapply list_elem_of_lookup_2.
  - intros c t w k E P. pose proof (ok_pc _ _ (inv_workers _ I w (list_elem_of_lookup_2 _ _ _ E))) as W. unfold pc_ok in W. rewrite P in W. apply W.
Qed.

Lemma Scheduler_exclusive_witness : let s := snd day_end in
  (forall l r, disciplined l s -> sched_step l s = Some r -> exists es' s', r = Ok (es', s')) /\
  (forall c t1 t2 w1 w2, s_workers s !! t1 = Some w1 -> s_workers s !! t2 = Some w2 ->
     on_cpu c w1 = true -> on_cpu c w2 = true -> t1 = t2) /\
  (forall c t w k, s_workers s !! t = Some w -> w_pc w = On c k -> state_of c s = Some EXEC) /\
  NoDup (all_tokens s) /\
  m_activeThreadCount s = sum active (s_workers s) /\ m_idleThreadCount s = sum idling (s_workers s).
Proof. apply (Scheduler_exclusive 2 (fst day_end)); [reflexivity|]. exact (reach_weaken _ _ _ _ _ (fun l s H => proj1 H) a_day_reach). Defined.

(** C2: No task is lost. What was scheduled is at any time what the workers took and what
    is queued; and when other threads schedule only until [stop] is called, then once
    every worker has left the loop no task that any worker may run is in the queue. *)
Theorem Scheduler_drains n es s : (0 < n)%nat -> Z.of_nat n < 2 ^ 64 ->
  reach (fun l s => disciplined l s /\ before_stop l s) n es s ->
  takens es ++ m_taskQueue s ≡ₚ scheds es /\
  ((forall w, w ∈ s_workers s -> w_pc w = Exited) -> forall task, task ∈ m_taskQueue s -> t_thread task <> -1).
Proof.
  intros Hn L R. split.
  - apply (reach_conserves n es s L). by apply (reach_weaken _ _ _ _ _ (fun l s H => proj1 H) R).
  - intros X. destruct (reach_draining n es s Hn L R) as [_ [_ _ [(w & Hw & Lw)|Q]]]; [|done]. exfalso. apply Lw. left. by apply X.
Qed.

Lemma Scheduler_drains_witness : let es := fst day_end in let s := snd day_end in
  length (takens es) = 4%nat /\ takens es ++ m_taskQueue s ≡ₚ scheds es /\
  ((forall w, w ∈ s_workers s -> w_pc w = Exited) -> forall task, task ∈ m_taskQueue s -> t_thread task <> -1).
Proof. split; [reflexivity|]. apply (Scheduler_drains 2); [lia|reflexivity|exact a_day_reach]. Defined.
