(* ===== verification/Semaphore.v ===== *)
(** The semaphore of coroutines (src/io/lock.cpp, include/io/lock.hpp). Each operation is
    one section under its spin lock; after a section that queues, [wait] yields. The other
    locks of that file call the operating system's. The semaphore grants its permits in
    order; and there is a race between [wait] and the scheduler. *)
From S2P Require Import Prelude Scheduler.

Record CoroutineSemaphore := mkSemaphore { m_waiters : list (nat * nat); m_concurrency : Z }.

Definition new_Semaphore (initial_concurrency : Z) : CoroutineSemaphore := mkSemaphore [] initial_concurrency.

(** The destructor asserts that nobody waits. *)
Definition destroy (x : CoroutineSemaphore) : res unit :=
  match m_waiters x with [] => Ok tt | _ => Crash assertion_failed end.

Definition tryWait (x : CoroutineSemaphore) : bool * CoroutineSemaphore :=
  if 0 <? m_concurrency x then (true, mkSemaphore (m_waiters x) (m_concurrency x - 1)) else (false, x).

(** [wait] by coroutine [co] of scheduler [sch]: whether it goes on, or must yield. *)
Definition wait (sch co : nat) (x : CoroutineSemaphore) : bool * CoroutineSemaphore :=
  if 0 <? m_concurrency x then (true, mkSemaphore (m_waiters x) (m_concurrency x - 1))
  else (false, mkSemaphore (m_waiters x ++ [(sch, co)]) (m_concurrency x)).

(** [notify]: the coroutine that it schedules. *)
Definition notify (x : CoroutineSemaphore) : option (nat * nat) * CoroutineSemaphore :=
  match m_waiters x with
  | next :: ws => (Some next, mkSemaphore ws (m_concurrency x))
  | [] => (None, mkSemaphore [] (u64 (m_concurrency x + 1)))
  end.

Definition reset_sem (x : CoroutineSemaphore) : CoroutineSemaphore := mkSemaphore (m_waiters x) 0.

(** ** Sequences of operations *)

Inductive sem_op := TryWait | Wait (sch co : nat) | Notify.

Inductive sem_event := Passed | Refused | Queued (w : nat * nat) | Woken (w : nat * nat) | Kept.

Definition sem_step (o : sem_op) (x : CoroutineSemaphore) : sem_event * CoroutineSemaphore :=
  match o with
  | TryWait => let (b, x) := tryWait x in (if b then Passed else Refused, x)
  | Wait sch co => let (b, x) := wait sch co x in (if b then Passed else Queued (sch, co), x)
  | Notify => let (w, x) := notify x in (match w with Some w => Woken w | None => Kept end, x)
  end.

Fixpoint sem_run (ops : list sem_op) (x : CoroutineSemaphore) : list sem_event * CoroutineSemaphore :=
  match ops with
  | [] => ([], x)
  | o :: ops => let (e, x) := sem_step o x in let (es, x) := sem_run ops x in (e :: es, x)
  end.

(** ** What was granted *)

Definition granted (e : sem_event) : Z := match e with Passed | Woken _ => 1 | _ => 0 end.
Definition notified (o : sem_op) : Z := match o with Notify => 1 | _ => 0 end.
Definition queued (e : sem_event) : option (nat * nat) := match e with Queued w => Some w | _ => None end.
Definition woken_of (e : sem_event) : option (nat * nat) := match e with Woken w => Some w | _ => None end.
Definition zsum {A} (f : A -> Z) (l : list A) : Z := foldr (fun a n => f a + n) 0 l.

Definition sem_ok (x : CoroutineSemaphore) : Prop := 0 <= m_concurrency x /\ (m_waiters x = [] \/ m_concurrency x = 0).

Lemma sem_step_ok o x : sem_ok x -> m_concurrency x + notified o < 2 ^ 64 ->
  let '(e, x') := sem_step o x in
  sem_ok x' /\ granted e + m_concurrency x' = m_concurrency x + notified o /\
  option_list (woken_of e) ++ m_waiters x' = m_waiters x ++ option_list (queued e).
Proof.
  intros [Ge Or] L. destruct x as [ws n]. unfold sem_ok in *. destruct o as [|sch co|]; cbn in *; unfold tryWait, wait; cbn.
  - destruct (Z.ltb_spec 0 n); cbn; rewrite app_nil_r; [|intuition lia]. destruct Or; intuition lia.
  - destruct (Z.ltb_spec 0 n); cbn; rewrite ?app_nil_r; intuition lia.
  - unfold notify. destruct ws as [|w ws]; cbn; rewrite ?app_nil_r; [rewrite u64_small by lia|]; intuition (lia || done).
Qed.

Lemma zsum_nonneg {A} (f : A -> Z) l : (forall a, 0 <= f a) -> 0 <= zsum f l.
Proof. intros P. induction l as [|a l IH]; cbn; [done|]. specialize (P a). unfold zsum in IH. lia. Qed.

Lemma notified_nonneg o : 0 <= notified o.
Proof. by destruct o. Qed.

Lemma granted_range e : 0 <= granted e <= 1.
Proof. destruct e; cbn; lia. Qed.

Lemma omap_cons_option {A B} (f : A -> option B) a l : omap f (a :: l) = option_list (f a) ++ omap f l.
Proof. cbn. by destruct (f a). Qed.

Lemma sem_run_ok ops : forall x, sem_ok x -> m_concurrency x + zsum notified ops < 2 ^ 64 ->
  let '(es, x') := sem_run ops x in
  sem_ok x' /\ zsum granted es + m_concurrency x' = m_concurrency x + zsum notified ops /\
  omap woken_of es ++ m_waiters x' = m_waiters x ++ omap queued es.
Proof.
  induction ops as [|o ops IH]; intros x Ok L; [cbn; rewrite app_nil_r; intuition lia|]. cbn [sem_run].
  change (zsum notified (o :: ops)) with (notified o + zsum notified ops) in *. pose proof (zsum_nonneg notified ops notified_nonneg). pose proof (notified_nonneg o).
  pose proof (sem_step_ok o x Ok ltac:(lia)) as S. destruct (sem_step o x) as [e x1]. destruct S as (Ok1 & E1 & W1). pose proof (granted_range e).
  specialize (IH x1 Ok1 ltac:(lia)). destruct (sem_run ops x1) as [es x2]. destruct IH as (Ok2 & E2 & W2).
  split; [done|]. split; [change (zsum granted (e :: es)) with (granted e + zsum granted es); lia|].
  by rewrite !omap_cons_option, <- app_assoc, W2, app_assoc, W1, <- app_assoc.
Qed.

(** ** Properties *)

(** What a semaphore grants. After any operations on a semaphore of [n] permits: the
    grants and the permits that are left are the [n] and the notifications, so there are
    never more grants than that; a permit is left only if nobody waits; and coroutines are
    woken in the order in which they queued, each once. *)
Theorem Semaphore_permits n ops : 0 <= n -> n + zsum notified ops < 2 ^ 64 ->
  let '(es, x) := sem_run ops (new_Semaphore n) in
  zsum granted es + m_concurrency x = n + zsum notified ops /\ 0 <= m_concurrency x /\
  (m_waiters x = [] \/ m_concurrency x = 0) /\
  omap woken_of es ++ m_waiters x = omap queued es.
Proof.
  intros Ge L. pose proof (sem_run_ok ops (new_Semaphore n)) as R. unfold sem_ok in R at 1. cbn in R. specialize (R ltac:(auto) L).
  destruct (sem_run ops (new_Semaphore n)) as [es x]. destruct R as ([? ?] & ? & ?). done.
Qed.

Lemma Semaphore_permits_witness :
  let ops := [Wait 0 7; Wait 0 8; TryWait; Wait 0 9; Notify; Notify; Notify; TryWait] in
  sem_run ops (new_Semaphore 1) = ([Passed; Queued (0, 8); Refused; Queued (0, 9); Woken (0, 8); Woken (0, 9); Kept; Passed]%nat, mkSemaphore [] 0) /\
  let '(es, x) := sem_run ops (new_Semaphore 1) in
  zsum granted es + m_concurrency x = 1 + zsum notified ops /\ 0 <= m_concurrency x /\
  (m_waiters x = [] \/ m_concurrency x = 0) /\
  omap woken_of es ++ m_waiters x = omap queued es.
Proof. split; [reflexivity|]. apply (Semaphore_permits 1); cbn; lia. Defined.

(** What the two workers of a scheduler do when coroutine 2 waits and coroutine 3
    notifies, from the moment that both are in the queue. *)
Definition race (woken : nat * nat) : list label :=
  let runs t := [Worker_does t Step; Worker_does t Step; Worker_does t Step] in
  [Other_does XNew; Other_does XNew; Other_does (XSched (Co 2) (-1)); Other_does (XSched (Co 3) (-1))] ++
  runs 0%nat ++ runs 1%nat ++
  [Worker_does 1 (Sched (Co (snd woken)) (-1)); Worker_does 0 YieldToHold; Worker_does 1 Finish] ++ runs 1%nat ++ runs 1%nat.

(** [wait] queues the coroutine before it has left the processor. Another worker that
    notifies in between takes it from the queue as soon as its state is [HOLD], and enters
    the context that the first worker has not saved yet. *)
Theorem Semaphore_race :
  wait 0 2 (new_Semaphore 0) = (false, mkSemaphore [(0, 2)]%nat 0) /\
  notify (mkSemaphore [(0, 2)]%nat 0) = (Some (0, 2)%nat, new_Semaphore 0) /\
  run_steps (race (0, 2)%nat) (new_Scheduler 2) = Some (Crash data_race).
Proof. split; [reflexivity|]. split; [reflexivity|]. vm_compute. reflexivity. Qed.
