(* ===== verification/IOManager.v ===== *)
(** The event manager (src/io/iomanager.cpp, include/io/iomanager.hpp): the contexts of the
    file descriptors, the interest set of epoll, what [addEvent], [delEvent],
    [cancelEvent], [cancelAll] and the idle coroutine do to them, and the timeout of
    [epoll_wait].

    Each operation is one critical section on the context of its descriptor. [addEvent]
    and the others read the table of contexts in an earlier section of its own; the two
    sections are [find_context] or [grow_context], and the part that ends in [_ctx].

    The kernel side is the interest set, changed by [epoll_ctl] as its manual page says:
    adding a descriptor that is there and changing one that is not fail, and a call may
    fail for reasons of the kernel's own ([kernel_ok]). *)
From stdpp Require Import gmap.
From S2P Require Import Prelude Scheduler.

(** ** Events *)

Definition NONE : Z := 0.
Definition READ : Z := 1.
Definition WRITE : Z := 4.

Definition EPOLLIN : Z := 1.
Definition EPOLLOUT : Z := 4.
Definition EPOLLERR : Z := 8.
Definition EPOLLHUP : Z := 16.
Definition EPOLLET : Z := 2 ^ 31.

Definition has (events event : Z) : bool := negb (Z.land events event =? 0).

(** ** Contexts *)

Record EventContext := mkEventContext { ec_scheduler : option nat; ec_coroutine : option nat; ec_cb : option nat }.

Definition no_context : EventContext := mkEventContext None None None.

Record FdContext := mkFdContext { fd_fd : Z; fd_read : EventContext; fd_write : EventContext; fd_events : Z }.

(** [FdContext::getContext] for one of the two events, and its change. *)
Definition getContext (event : Z) (x : FdContext) : res EventContext :=
  if event =? READ then Ok (fd_read x) else if event =? WRITE then Ok (fd_write x) else Crash assertion_failed.
Definition set_context (event : Z) (e : EventContext) (x : FdContext) : FdContext :=
  if event =? READ then mkFdContext (fd_fd x) e (fd_write x) (fd_events x)
  else mkFdContext (fd_fd x) (fd_read x) e (fd_events x).
Definition set_events (events : Z) (x : FdContext) : FdContext := mkFdContext (fd_fd x) (fd_read x) (fd_write x) events.

Definition resetContext (event : Z) (x : FdContext) : FdContext := set_context event no_context x.

(** What a trigger hands to a scheduler. *)
Definition wake : Type := nat * Work.

(** [FdContext::triggerEvent]. A coroutine that is null makes no task. *)
Definition triggerEvent (event : Z) (x : FdContext) : res (list wake * FdContext) :=
  if negb (has (fd_events x) event) then Crash assertion_failed
  else
    let x := set_events (Z.land (fd_events x) (Z.lnot event)) x in
    let! e := getContext event x in
    let! sch := deref (ec_scheduler e) in
    let ws := match ec_cb e, ec_coroutine e with
              | Some f, _ => [(sch, Cb f)]
              | None, Some c => [(sch, Co c)]
              | None, None => []
              end in
    Ok (ws, resetContext event x).

(** ** The manager *)

(** [m_fdContexts] holds pointers; [io_heap] are the contexts that were made, each under
    the number that stands for its address. *)
Record IOManager := mkIOManager {
  m_fdContexts : list nat;
  io_heap : list FdContext;
  m_pendingEventCount : Z;
  io_epoll : gmap Z (Z * nat);
}.

Definition set_heap (heap : list FdContext) (io : IOManager) : IOManager :=
  mkIOManager (m_fdContexts io) heap (m_pendingEventCount io) (io_epoll io).
Definition set_epoll (e : gmap Z (Z * nat)) (io : IOManager) : IOManager :=
  mkIOManager (m_fdContexts io) (io_heap io) (m_pendingEventCount io) e.
Definition add_pending (n : Z) (io : IOManager) : IOManager :=
  mkIOManager (m_fdContexts io) (io_heap io) (u64 (m_pendingEventCount io + n)) (io_epoll io).
Definition put_ctx (p : nat) (x : FdContext) (io : IOManager) : IOManager := set_heap (<[p := x]> (io_heap io)) io.

(** [contextResize]: the new size, then a context for each null pointer. *)
Fixpoint fill_contexts (n : nat) (fds : list nat) (heap : list FdContext) : list nat * list FdContext :=
  match n with
  | O => (fds, heap)
  | S n => fill_contexts n (fds ++ [length heap]) (heap ++ [mkFdContext (len fds) no_context no_context NONE])
  end.

Definition contextResize (size : Z) (io : IOManager) : IOManager :=
  let kept := take (Z.to_nat size) (m_fdContexts io) in
  let (fds, heap) := fill_contexts (Z.to_nat size - length kept) kept (io_heap io) in
  mkIOManager fds heap (m_pendingEventCount io) (io_epoll io).

Definition new_IOManager : IOManager := contextResize 64 (mkIOManager [] [] 0 empty).

(** [epoll_ctl] *)
Inductive ctl := EPOLL_CTL_ADD | EPOLL_CTL_MOD | EPOLL_CTL_DEL.

Definition epoll_ctl (kernel_ok : bool) (op : ctl) (fd events : Z) (p : nat) (e : gmap Z (Z * nat)) : option (gmap Z (Z * nat)) :=
  if negb kernel_ok then None
  else match op, e !! fd with
       | EPOLL_CTL_ADD, None => Some (<[fd := (events, p)]> e)
       | EPOLL_CTL_MOD, Some _ => Some (<[fd := (events, p)]> e)
       | EPOLL_CTL_DEL, Some _ => Some (delete fd e)
       | _, _ => None
       end.

(** The section under the read lock: the context of [fd], if the table has it. *)
Definition find_context (fd : Z) (io : IOManager) : res (option nat) :=
  if len (m_fdContexts io) <=? fd then Ok None
  else match m_fdContexts io !! Z.to_nat fd with Some p => Ok (Some p) | None => Crash out_of_bounds end.

(** The section under the write lock of [addEvent]: [contextResize(fd * 1.5)]. *)
Definition grow_context (fd : Z) (io : IOManager) : res (nat * IOManager) :=
  let io := contextResize (fd * 3 / 2) io in
  match m_fdContexts io !! Z.to_nat fd with Some p => Ok (p, io) | None => Crash out_of_bounds end.

Section operations.
Context (kernel_ok : bool).

(** [CIM_ASSERT(event_ctx.coroutine->getState() == Coroutine::EXEC)], which is reached when
    there is no callback. *)
Definition may_register (st : State) (w : Work) : bool :=
  match w with Cb _ => true | Co _ => bool_decide (st = EXEC) end.

(** What [addEvent] does under the mutex of the context: [sch] is the scheduler of the
    thread, [st] the state of the coroutine that calls, and [w] the callback or that
    coroutine. *)
Definition addEvent_ctx (p : nat) (fd event : Z) (sch : option nat) (st : State) (w : Work) (io : IOManager) : res (bool * IOManager) :=
  let! x := deref (io_heap io !! p) in
  if has (fd_events x) event then Ok (true, io)
  else
    let op := if fd_events x =? NONE then EPOLL_CTL_ADD else EPOLL_CTL_MOD in
    match epoll_ctl kernel_ok op fd (Z.lor (Z.lor (fd_events x) event) EPOLLET) p (io_epoll io) with
    | None => Ok (false, io)
    | Some e =>
        let io := add_pending 1 (set_epoll e io) in
        let x := set_events (Z.lor (fd_events x) event) x in
        let! c := getContext event x in
        let c := match w with
                 | Cb f => mkEventContext sch (ec_coroutine c) (Some f)
                 | Co n => mkEventContext sch (Some n) (ec_cb c)
                 end in
        if may_register st w then Ok (true, put_ctx p (set_context event c x) io) else Crash assertion_failed
    end.

Definition addEvent (fd event : Z) (sch : option nat) (st : State) (w : Work) (io : IOManager) : res (bool * IOManager) :=
  if (fd <? 0) || negb ((event =? READ) || (event =? WRITE)) then Crash assertion_failed
  else
    let! found := find_context fd io in
    match found with
    | Some p => addEvent_ctx p fd event sch st w io
    | None => let! (p, io) := grow_context fd io in addEvent_ctx p fd event sch st w io
    end.

(** The [epoll_ctl] that takes [event] away. *)
Definition unwatch (p : nat) (fd event : Z) (x : FdContext) (io : IOManager) : option (gmap Z (Z * nat)) :=
  let new_events := Z.land (fd_events x) (Z.lnot event) in
  epoll_ctl kernel_ok (if new_events =? NONE then EPOLL_CTL_DEL else EPOLL_CTL_MOD) fd (Z.lor new_events EPOLLET) p (io_epoll io).

Definition delEvent_ctx (p : nat) (fd event : Z) (io : IOManager) : res (bool * IOManager) :=
  let! x := deref (io_heap io !! p) in
  if negb (has (fd_events x) event) then Ok (false, io)
  else match unwatch p fd event x io with
       | None => Ok (false, io)
       | Some e =>
           let io := add_pending (-1) (set_epoll e io) in
           let x := set_events (Z.land (fd_events x) (Z.lnot event)) x in
           let! _ := getContext event x in
           Ok (true, put_ctx p (resetContext event x) io)
       end.

Definition delEvent (fd event : Z) (io : IOManager) : res (bool * IOManager) :=
  if (fd <? 0) || negb ((event =? READ) || (event =? WRITE)) then Crash assertion_failed
  else let! found := find_context fd io in
       match found with Some p => delEvent_ctx p fd event io | None => Ok (false, io) end.

Definition cancelEvent_ctx (p : nat) (fd event : Z) (io : IOManager) : res (bool * list wake * IOManager) :=
  let! x := deref (io_heap io !! p) in
  if negb (has (fd_events x) event) then Ok (false, [], io)
  else match unwatch p fd event x io with
       | None => Ok (false, [], io)
       | Some e =>
           let! (ws, x) := triggerEvent event x in
           Ok (true, ws, add_pending (-1) (put_ctx p x (set_epoll e io)))
       end.

Definition cancelEvent (fd event : Z) (io : IOManager) : res (bool * list wake * IOManager) :=
  if (fd <? 0) || negb ((event =? READ) || (event =? WRITE)) then Crash assertion_failed
  else let! found := find_context fd io in
       match found with Some p => cancelEvent_ctx p fd event io | None => Ok (false, [], io) end.

(** [if (events & event) { triggerEvent(event); --m_pendingEventCount; }] *)
Definition trigger_if (event : Z) (p : nat) (b : bool) (io : IOManager) : res (list wake * IOManager) :=
  if b then
    let! x := deref (io_heap io !! p) in
    let! (ws, x) := triggerEvent event x in
    Ok (ws, add_pending (-1) (put_ctx p x io))
  else Ok ([], io).

Definition events_of (p : nat) (io : IOManager) : Z := match io_heap io !! p with Some x => fd_events x | None => 0 end.

Definition cancelAll_ctx (p : nat) (fd : Z) (io : IOManager) : res (bool * list wake * IOManager) :=
  let! x := deref (io_heap io !! p) in
  if fd_events x =? NONE then Ok (false, [], io)
  else match epoll_ctl kernel_ok EPOLL_CTL_DEL fd 0 p (io_epoll io) with
       | None => Ok (false, [], io)
       | Some e =>
           let io := set_epoll e io in
           let! (ws1, io) := trigger_if READ p (has (events_of p io) READ) io in
           let! (ws2, io) := trigger_if WRITE p (has (events_of p io) WRITE) io in
           if events_of p io =? 0 then Ok (true, ws1 ++ ws2, io) else Crash assertion_failed
       end.

Definition cancelAll (fd : Z) (io : IOManager) : res (bool * list wake * IOManager) :=
  if fd <? 0 then Crash assertion_failed
  else let! found := find_context fd io in
       match found with Some p => cancelAll_ctx p fd io | None => Ok (false, [], io) end.

(** What the idle coroutine does with one event of [epoll_wait] that is not the pipe's. *)
Definition dispatch (p : nat) (events : Z) (io : IOManager) : res (list wake * IOManager) :=
  let! x := deref (io_heap io !! p) in
  let events :=
    if has events (Z.lor EPOLLERR EPOLLHUP) then Z.lor events (Z.land (Z.lor EPOLLIN EPOLLOUT) (fd_events x)) else events in
  let real_events := Z.lor (if has events EPOLLIN then READ else NONE) (if has events EPOLLOUT then WRITE else NONE) in
  if Z.land (fd_events x) real_events =? NONE then Ok ([], io)
  else
    let left_events := Z.land (fd_events x) (Z.lnot real_events) in
    match epoll_ctl kernel_ok (if left_events =? NONE then EPOLL_CTL_DEL else EPOLL_CTL_MOD) (fd_fd x) (Z.lor left_events EPOLLET) p (io_epoll io) with
    | None => Ok ([], io)
    | Some e =>
        let! (ws1, io) := trigger_if READ p (has real_events READ) (set_epoll e io) in
        let! (ws2, io) := trigger_if WRITE p (has real_events WRITE) io in
        Ok (ws1 ++ ws2, io)
    end.
End operations.

(** ** Stopping and waiting *)

(** [IOManager::stopping], given what [getNextTimer] answered. *)
Definition io_stopping (next_timer : Z) (io : IOManager) (s : Scheduler) : bool :=
  (next_timer =? 2 ^ 64 - 1) && (m_pendingEventCount io =? 0) && stopping s.

(** The timeout that the idle coroutine gives [epoll_wait], an [int]. *)
Definition epoll_timeout (next_timeout : Z) : Z :=
  let MAX_TIMEOUT := 3000 in
  let next_timeout :=
    if negb (next_timeout =? 2 ^ 64 - 1) then (if MAX_TIMEOUT <? s32 next_timeout then MAX_TIMEOUT else next_timeout)
    else MAX_TIMEOUT in
  s32 next_timeout.

(** [IOManager::tickle]: whether a byte is written to the pipe. *)
Definition io_tickle (s : Scheduler) : bool := 0 <? m_idleThreadCount s.
