(* ===== verification/IOManagerSpec.v ===== *)
(** The event manager implements a table of waiters: for each descriptor who waits to read
    and who waits to write. *)
From stdpp Require Import gmap.
From S2P Require Import Prelude Scheduler IOManager.

(** ** The table of waiters *)

Abbreviation waiters := (option wake * option wake)%type.

Definition context_of (o : option wake) : EventContext :=
  match o with
  | None => no_context
  | Some (sch, Co c) => mkEventContext (Some sch) (Some c) None
  | Some (sch, Cb f) => mkEventContext (Some sch) None (Some f)
  end.

Definition bit (event : Z) (o : option wake) : Z := match o with Some _ => event | None => 0 end.
Definition bits (x : waiters) : Z := Z.lor (bit READ x.1) (bit WRITE x.2).

Definition fd_context (i : nat) (x : waiters) : FdContext :=
  mkFdContext (Z.of_nat i) (context_of x.1) (context_of x.2) (bits x).

Definition interest (i : nat) (x : waiters) : option (Z * nat) :=
  if bits x =? 0 then None else Some (Z.lor (bits x) EPOLLET, i).

Definition one (o : option wake) : Z := match o with Some _ => 1 | None => 0 end.
Definition total (l : list waiters) : Z := foldr (fun x n => one x.1 + one x.2 + n) 0 l.

Definition no_one : waiters := (None, None).
Definition at_fd (l : list waiters) (fd : Z) : waiters := default no_one (if fd <? 0 then None else l !! Z.to_nat fd).

(** The contexts of the manager are those of the table. *)
Record table (io : IOManager) (l : list waiters) : Prop := {
  tb_pointers : m_fdContexts io = seq 0 (length l);
  tb_heap : io_heap io = imap fd_context l;
  tb_epoll fd : io_epoll io !! fd = (if (0 <=? fd) && (fd <? len l) then interest (Z.to_nat fd) (at_fd l fd) else None);
  tb_pending : m_pendingEventCount io = total l;
  tb_size : 64 <= len l < 2 ^ 60;
}.

Lemma imap_put (l : list waiters) i x : imap fd_context (<[i := x]> l) = <[i := fd_context i x]> (imap fd_context l).
Proof.
  apply list_eq. intros j. rewrite list_lookup_imap. destruct (decide (i = j)) as [->|N].
  - destruct (decide (j < length l)%nat) as [L|L].
    + rewrite !list_lookup_insert_eq by (rewrite ?length_imap; done). done.
    + rewrite !list_insert_ge by (rewrite ?length_imap; lia). by rewrite list_lookup_imap.
  - by rewrite !list_lookup_insert_ne, list_lookup_imap.
Qed.

Lemma total_put l i x y : l !! i = Some x -> total (<[i := y]> l) = total l - one x.1 - one x.2 + one y.1 + one y.2.
Proof.
  revert i. induction l as [|z l IH]; intros [|i] E; try done; cbn in E.
  - injection E as ->. change (<[0%nat := y]> (x :: l)) with (y :: l). unfold total. cbn [foldr]. lia.
  - specialize (IH i E). change (<[S i := y]> (z :: l)) with (z :: <[i := y]> l). unfold total in *. cbn [foldr]. lia.
Qed.

Lemma one_range o : 0 <= one o <= 1.
Proof. destruct o; cbn; lia. Qed.

Lemma total_range l : 0 <= total l <= 2 * len l.
Proof.
  unfold len. induction l as [|x l IH]; cbn [total foldr length]; [lia|]. pose proof (one_range x.1). pose proof (one_range x.2). unfold total in IH. lia.
Qed.

Lemma at_fd_lookup l fd : 0 <= fd < len l -> l !! Z.to_nat fd = Some (at_fd l fd).
Proof.
  unfold len, at_fd. intros L. replace (fd <? 0) with false by lia. destruct (lookup_lt_is_Some_2 l (Z.to_nat fd)) as [x E]; [lia|]. by rewrite E.
Qed.

Lemma at_fd_out l fd : fd < 0 \/ len l <= fd -> at_fd l fd = no_one.
Proof.
  unfold len, at_fd. intros L. destruct (Z.ltb_spec fd 0); [done|]. by rewrite lookup_ge_None_2 by lia.
Qed.

Definition put_fd (fd : Z) (x : waiters) (l : list waiters) : list waiters := <[Z.to_nat fd := x]> l.

Lemma len_put_fd fd x l : len (put_fd fd x l) = len l.
Proof. unfold len, put_fd. by rewrite length_insert. Qed.

Lemma at_put_fd fd x l fd' : 0 <= fd < len l -> at_fd (put_fd fd x l) fd' = if fd' =? fd then x else at_fd l fd'.
Proof.
  unfold at_fd, put_fd, len. intros L. destruct (Z.eqb_spec fd' fd) as [->|N].
  - replace (fd <? 0) with false by lia. rewrite list_lookup_insert_eq by lia. done.
  - destruct (Z.ltb_spec fd' 0); [done|]. rewrite list_lookup_insert_ne by lia. done.
Qed.

(** The section under the read lock. *)
Lemma find_context_ok io l fd : table io l -> 0 <= fd ->
  find_context fd io = Ok (if fd <? len l then Some (Z.to_nat fd) else None).
Proof.
  intros T L. unfold find_context. rewrite (tb_pointers _ _ T). unfold len. rewrite length_seq.
  destruct (Z.ltb_spec fd (Z.of_nat (length l))); [replace (Z.of_nat (length l) <=? fd) with false by lia|by replace (Z.of_nat (length l) <=? fd) with true by lia].
  rewrite lookup_seq_lt by lia. done.
Qed.

Lemma heap_at io l fd : table io l -> 0 <= fd < len l -> io_heap io !! Z.to_nat fd = Some (fd_context (Z.to_nat fd) (at_fd l fd)).
Proof. intros T L. rewrite (tb_heap _ _ T), list_lookup_imap, (at_fd_lookup l fd L). done. Qed.

Lemma epoll_at io l fd : table io l -> 0 <= fd < len l -> io_epoll io !! fd = interest (Z.to_nat fd) (at_fd l fd).
Proof. intros T L. rewrite (tb_epoll _ _ T). by replace ((0 <=? fd) && (fd <? len l)) with true by lia. Qed.

(** A new context of a descriptor, with its interest and its count. *)
Lemma put_table io l fd y e n : table io l -> 0 <= fd < len l ->
  e !! fd = interest (Z.to_nat fd) y -> (forall fd', fd' <> fd -> e !! fd' = io_epoll io !! fd') ->
  n = total l - one (at_fd l fd).1 - one (at_fd l fd).2 + one y.1 + one y.2 ->
  table (mkIOManager (m_fdContexts io) (<[Z.to_nat fd := fd_context (Z.to_nat fd) y]> (io_heap io)) n e) (put_fd fd y l).
Proof.
  intros T L Ee Eo ->. constructor; cbn.
  - unfold put_fd. rewrite length_insert. apply T.
  - unfold put_fd. by rewrite imap_put, (tb_heap _ _ T).
  - intros fd'. rewrite len_put_fd, at_put_fd by done. destruct (Z.eqb_spec fd' fd) as [->|N].
    + by replace ((0 <=? fd) && (fd <? len l)) with true by lia.
    + rewrite Eo by done. apply T.
  - unfold put_fd. by rewrite (total_put _ _ _ _ (at_fd_lookup l fd L)).
  - rewrite len_put_fd. apply T.
Qed.

Lemma pending_range io l : table io l -> 0 <= m_pendingEventCount io < 2 ^ 62.
Proof. intros T. rewrite (tb_pending _ _ T). pose proof (total_range l). pose proof (tb_size _ _ T). lia. Qed.

(** *** Growing the table *)

Definition grown (l : list waiters) (fd : Z) : list waiters :=
  if fd <? len l then l else l ++ replicate (Z.to_nat (fd * 3 / 2) - length l) no_one.

Lemma fill_ok n : forall l, fill_contexts n (seq 0 (length l)) (imap fd_context l) =
  (seq 0 (length (l ++ replicate n no_one)), imap fd_context (l ++ replicate n no_one)).
Proof.
  induction n as [|n IH]; intros l; cbn [fill_contexts replicate]; [by rewrite app_nil_r|].
  rewrite length_imap. unfold len. rewrite length_seq.
  assert (imap fd_context l ++ [mkFdContext (Z.of_nat (length l)) no_context no_context NONE] = imap fd_context (l ++ [no_one])) as ->.
  { rewrite imap_app. f_equal. cbn. unfold fd_context. cbn. by rewrite Nat.add_0_r. }
  assert (seq 0 (length l) ++ [length l] = seq 0 (length (l ++ [no_one]))) as ->.
  { rewrite length_app. cbn. by rewrite seq_app. }
  rewrite IH. by rewrite <- app_assoc.
Qed.

Lemma at_fd_app l n fd : at_fd (l ++ replicate n no_one) fd = at_fd l fd.
Proof.
  unfold at_fd. destruct (Z.ltb_spec fd 0); [done|]. destruct (decide (Z.to_nat fd < length l)%nat) as [L|L].
  - by rewrite lookup_app_l.
  - rewrite lookup_app_r by lia. rewrite (lookup_ge_None_2 l) by lia. cbn.
    destruct (replicate n no_one !! (Z.to_nat fd - length l)%nat) eqn:E; [|done]. by apply lookup_replicate_1 in E as [-> _].
Qed.

Lemma total_app l n : total (l ++ replicate n no_one) = total l.
Proof.
  unfold total. rewrite foldr_app. f_equal. induction n as [|n IH]; [done|]. cbn [replicate foldr]. rewrite IH. cbn. lia.
Qed.

Lemma grow_ok io l fd : table io l -> len l <= fd < 2 ^ 31 ->
  exists io', grow_context fd io = Ok (Z.to_nat fd, io') /\ table io' (grown l fd) /\ fd < len (grown l fd).
Proof.
  intros T L. pose proof (tb_size _ _ T) as Sz. assert (Gt : fd < fd * 3 / 2) by (apply Z.lt_le_trans with (fd + 1); [lia|]; apply Z.div_le_lower_bound; lia).
  unfold grow_context, contextResize, grown. replace (fd <? len l) with false by lia. unfold len in *.
  rewrite (tb_pointers _ _ T), (tb_heap _ _ T). rewrite take_ge by (rewrite length_seq; lia). rewrite length_seq, fill_ok. cbn [m_fdContexts].
  set (n := (Z.to_nat (fd * 3 / 2) - length l)%nat). rewrite lookup_seq_lt by (rewrite length_app, length_replicate; lia).
  eexists. split; [reflexivity|]. split; [|rewrite length_app, length_replicate; lia]. constructor; cbn; [done|done| | |].
  - intros fd'. rewrite at_fd_app, (tb_epoll _ _ T). unfold len. rewrite length_app, length_replicate.
    destruct (Z.leb_spec 0 fd'); [|done]. cbn [andb]. destruct (Z.ltb_spec fd' (Z.of_nat (length l))) as [Lf|Lf].
    + by replace (fd' <? Z.of_nat (length l + n)) with true by lia.
    + rewrite at_fd_out by (unfold len; lia). by destruct (_ <? _).
  - rewrite total_app. apply T.
  - unfold len. rewrite length_app, length_replicate. assert (fd * 3 / 2 < 2 ^ 32) by (apply Z.div_lt_upper_bound; lia). lia.
Qed.

(** *** The operations on a context *)

Definition ev_get (event : Z) (x : waiters) : option wake := if event =? READ then x.1 else x.2.
Definition ev_set (event : Z) (o : option wake) (x : waiters) : waiters := if event =? READ then (o, x.2) else (x.1, o).

Definition is_event (event : Z) : Prop := event = READ \/ event = WRITE.

Lemma has_bits event x : is_event event -> has (bits x) event = match ev_get event x with Some _ => true | None => false end.
Proof. intros [-> | ->]; destruct x as [[?|] [?|]]; done. Qed.

(** Who asserts that the coroutine is not executing: one whose event is new, when the kernel
    accepts it. *)
Definition add_fails (ok : bool) (event : Z) (st : State) (w : Work) (x : waiters) : bool :=
  match ev_get event x with Some _ => false | None => ok && negb (may_register st w) end.

Lemma addEvent_ctx_ok io l ok fd event sch st w : table io l -> 0 <= fd < len l -> is_event event ->
  if add_fails ok event st w (at_fd l fd) then addEvent_ctx ok (Z.to_nat fd) fd event (Some sch) st w io = Crash assertion_failed
  else exists io', addEvent_ctx ok (Z.to_nat fd) fd event (Some sch) st w io =
    Ok (match ev_get event (at_fd l fd) with Some _ => true | None => ok end, io') /\
  table io' (match ev_get event (at_fd l fd) with
             | None => if ok then put_fd fd (ev_set event (Some (sch, w)) (at_fd l fd)) l else l
             | Some _ => l
             end).
Proof.
  intros T L Ev. unfold addEvent_ctx, add_fails. rewrite (heap_at io l fd T L). cbn [deref rbind fd_context fd_events].
  rewrite has_bits by done. pose proof (epoll_at io l fd T L) as Ep. destruct (ev_get event (at_fd l fd)) as [o|] eqn:Eg; [by exists io|].
  destruct ok; cbn [andb]; [|exists io; split; [by unfold epoll_ctl|done]]. pose proof (pending_range io l T) as Pr.
  set (x := at_fd l fd) in *.
  assert (exists e, epoll_ctl true (if bits x =? NONE then EPOLL_CTL_ADD else EPOLL_CTL_MOD) fd (Z.lor (Z.lor (bits x) event) EPOLLET) (Z.to_nat fd) (io_epoll io) = Some e /\
     e !! fd = interest (Z.to_nat fd) (ev_set event (Some (sch, w)) x) /\ forall fd', fd' <> fd -> e !! fd' = io_epoll io !! fd') as (e & -> & Ef & Eo).
  { exists (<[fd := (Z.lor (Z.lor (bits x) event) EPOLLET, Z.to_nat fd)]> (io_epoll io)). split; [|split].
    - unfold epoll_ctl. cbn [negb]. rewrite Ep. unfold interest, NONE. by destruct (bits x =? 0).
    - rewrite lookup_insert_eq. destruct Ev as [-> | ->], x as [[?|] [?|]]; try done.
    - intros fd' N. by rewrite lookup_insert_ne. }
  assert (En : u64 (m_pendingEventCount io + 1) = total l - one x.1 - one x.2 + one (ev_set event (Some (sch, w)) x).1 + one (ev_set event (Some (sch, w)) x).2).
  { rewrite u64_small by lia. rewrite (tb_pending _ _ T). destruct Ev as [-> | ->], x as [[?|] [?|]]; try done; cbn; lia. }
  pose proof (put_table io l fd (ev_set event (Some (sch, w)) x) e _ T L Ef Eo En) as Tb.
  cbn [rbind]. destruct (may_register st w); cbn [negb]; [|by destruct Ev as [-> | ->]; destruct w].
  destruct Ev as [-> | ->], x as [[?|] [?|]]; try done; destruct w; eexists; (split; [reflexivity|]); exact Tb.
Qed.

Lemma triggerEvent_ok event i x : is_event event ->
  triggerEvent event (fd_context i x) =
    match ev_get event x with
    | Some wk => Ok ([wk], fd_context i (ev_set event None x))
    | None => Crash assertion_failed
    end.
Proof. intros [-> | ->]; destruct x as [[[? [?|?]]|] [[? [?|?]]|]]; done. Qed.

Lemma trigger_if_ok io event p i x : is_event event -> io_heap io !! p = Some (fd_context i x) -> 0 < m_pendingEventCount io < 2 ^ 62 ->
  trigger_if event p true io =
    match ev_get event x with
    | Some wk => Ok ([wk], mkIOManager (m_fdContexts io) (<[p := fd_context i (ev_set event None x)]> (io_heap io)) (m_pendingEventCount io - 1) (io_epoll io))
    | None => Crash assertion_failed
    end.
Proof.
  intros Ev Hp Pr. unfold trigger_if. rewrite Hp. cbn [deref rbind]. rewrite triggerEvent_ok by done. destruct (ev_get event x); [|done].
  cbn [rbind]. unfold add_pending, put_ctx, set_heap. cbn. by rewrite u64_small by lia.
Qed.

(** The interest of a descriptor when some of its waiters go. *)
Lemma leave_epoll io l fd y : table io l -> 0 <= fd < len l -> bits (at_fd l fd) <> 0 ->
  exists e, epoll_ctl true (if bits y =? NONE then EPOLL_CTL_DEL else EPOLL_CTL_MOD) fd (Z.lor (bits y) EPOLLET) (Z.to_nat fd) (io_epoll io) = Some e /\
    e !! fd = interest (Z.to_nat fd) y /\ forall fd', fd' <> fd -> e !! fd' = io_epoll io !! fd'.
Proof.
  intros T L Nz. pose proof (epoll_at io l fd T L) as Ep. unfold interest in *. rewrite (proj2 (Z.eqb_neq _ _) Nz) in Ep.
  unfold epoll_ctl. cbn [negb]. rewrite Ep. unfold NONE. destruct (bits y =? 0).
  - eexists. split; [done|]. split; [apply lookup_delete_eq|]. intros fd' N. by rewrite lookup_delete_ne.
  - eexists. split; [done|]. split; [apply lookup_insert_eq|]. intros fd' N. by rewrite lookup_insert_ne.
Qed.

Lemma bits_without event x : is_event event -> Z.land (bits x) (Z.lnot event) = bits (ev_set event None x).
Proof. intros [-> | ->]; destruct x as [[?|] [?|]]; done. Qed.

Lemma bits_some event x wk : is_event event -> ev_get event x = Some wk -> bits x <> 0.
Proof. intros [-> | ->]; destruct x as [[?|] [?|]]; done. Qed.

Lemma total_pos l fd : 0 <= fd < len l -> one (at_fd l fd).1 + one (at_fd l fd).2 <= total l.
Proof.
  intros L. pose proof (total_put l (Z.to_nat fd) _ no_one (at_fd_lookup l fd L)) as E. cbn in E. pose proof (total_range (<[Z.to_nat fd := no_one]> l)). lia.
Qed.

Lemma one_without event x wk : is_event event -> ev_get event x = Some wk ->
  one (ev_set event None x).1 + one (ev_set event None x).2 = one x.1 + one x.2 - 1.
Proof. intros [-> | ->]; destruct x as [[?|] [?|]]; cbn; intros; try done; lia. Qed.

Lemma unwatch_ok io l ok fd event wk : table io l -> 0 <= fd < len l -> is_event event -> ev_get event (at_fd l fd) = Some wk ->
  match unwatch ok (Z.to_nat fd) fd event (fd_context (Z.to_nat fd) (at_fd l fd)) io with
  | None => ok = false
  | Some e => ok = true /\
      table (mkIOManager (m_fdContexts io) (<[Z.to_nat fd := fd_context (Z.to_nat fd) (ev_set event None (at_fd l fd))]> (io_heap io)) (u64 (m_pendingEventCount io + -1)) e)
        (put_fd fd (ev_set event None (at_fd l fd)) l)
  end.
Proof.
  intros T L Ev Eg. unfold unwatch. cbn [fd_context fd_events]. rewrite bits_without by done. destruct ok; [|by unfold epoll_ctl].
  destruct (leave_epoll io l fd (ev_set event None (at_fd l fd)) T L) as (e & -> & Ef & Eo); [by eapply bits_some|]. split; [done|].
  apply put_table; try done. pose proof (pending_range io l T). pose proof (total_pos l fd L). pose proof (one_without _ _ _ Ev Eg) as O.
  pose proof (one_range (ev_set event None (at_fd l fd)).1). pose proof (one_range (ev_set event None (at_fd l fd)).2).
  rewrite u64_small by (rewrite (tb_pending _ _ T) in *; lia). rewrite (tb_pending _ _ T). lia.
Qed.

Lemma delEvent_ctx_ok io l ok fd event : table io l -> 0 <= fd < len l -> is_event event ->
  exists io', delEvent_ctx ok (Z.to_nat fd) fd event io =
    Ok (match ev_get event (at_fd l fd) with Some _ => ok | None => false end, io') /\
  table io' (match ev_get event (at_fd l fd) with Some _ => if ok then put_fd fd (ev_set event None (at_fd l fd)) l else l | None => l end).
Proof.
  intros T L Ev. unfold delEvent_ctx. rewrite (heap_at io l fd T L). cbn [deref rbind]. change (fd_events (fd_context (Z.to_nat fd) (at_fd l fd))) with (bits (at_fd l fd)).
  rewrite has_bits by done. destruct (ev_get event (at_fd l fd)) as [wk|] eqn:Eg; cbn [negb]; [|by exists io].
  pose proof (unwatch_ok io l ok fd event wk T L Ev Eg) as U. destruct (unwatch _ _ _ _ _ _) as [e|]; [|rewrite U; by exists io].
  destruct U as [-> Tb]. rewrite bits_without by done. set (x := at_fd l fd) in *. clearbody x.
  destruct Ev as [-> | ->], x as [[?|] [?|]]; try done; eexists; (split; [reflexivity|]); exact Tb.
Qed.

Lemma cancelEvent_ctx_ok io l ok fd event : table io l -> 0 <= fd < len l -> is_event event ->
  exists io', cancelEvent_ctx ok (Z.to_nat fd) fd event io =
    Ok (match ev_get event (at_fd l fd) with Some wk => if ok then (true, [wk]) else (false, []) | None => (false, []) end, io') /\
  table io' (match ev_get event (at_fd l fd) with Some _ => if ok then put_fd fd (ev_set event None (at_fd l fd)) l else l | None => l end).
Proof.
  intros T L Ev. unfold cancelEvent_ctx. rewrite (heap_at io l fd T L). cbn [deref rbind]. change (fd_events (fd_context (Z.to_nat fd) (at_fd l fd))) with (bits (at_fd l fd)).
  rewrite has_bits by done. destruct (ev_get event (at_fd l fd)) as [wk|] eqn:Eg; cbn [negb]; [|by exists io].
  pose proof (unwatch_ok io l ok fd event wk T L Ev Eg) as U. destruct (unwatch _ _ _ _ _ _) as [e|]; [|rewrite U; by exists io].
  destruct U as [-> Tb]. rewrite triggerEvent_ok, Eg by done. cbn [rbind]. eexists. split; [reflexivity|]. exact Tb.
Qed.

(** Both triggers, as [cancelAll] and the idle coroutine make them: [r] and [w] say for
    which events. *)
Definition woken (r w : bool) (x : waiters) : list wake :=
  (if r then option_list x.1 else []) ++ (if w then option_list x.2 else []).
Definition left_over (r w : bool) (x : waiters) : waiters := (if r then None else x.1, if w then None else x.2).

Lemma two_triggers io p i x (r w : bool) : io_heap io !! p = Some (fd_context i x) -> one x.1 + one x.2 <= m_pendingEventCount io < 2 ^ 62 ->
  (let! (ws1, io) := trigger_if READ p r io in
   let! (ws2, io) := trigger_if WRITE p w io in Ok (ws1 ++ ws2, io)) =
  if (r && negb (has (bits x) READ)) || (w && negb (has (bits x) WRITE)) then Crash assertion_failed
  else Ok (woken r w x, mkIOManager (m_fdContexts io) (<[p := fd_context i (left_over r w x)]> (io_heap io))
             (m_pendingEventCount io - (one x.1 - one (left_over r w x).1) - (one x.2 - one (left_over r w x).2)) (io_epoll io)).
Proof.
  intros Hp Pr. destruct x as [x1 x2]. pose proof (one_range x1) as R1. pose proof (one_range x2) as R2. cbn [fst snd] in Pr.
  rewrite (has_bits READ) by (by left). rewrite (has_bits WRITE) by (by right). change (ev_get READ (x1, x2)) with x1. change (ev_get WRITE (x1, x2)) with x2.
  destruct r; cbn [andb orb].
  - destruct x1 as [wk|]; [|unfold trigger_if; rewrite Hp; cbn [deref rbind]; rewrite triggerEvent_ok by (by left); done].
    cbn in R1, Pr. rewrite (trigger_if_ok io READ p i (Some wk, x2)) by (first [by left | done | lia]).
    change (ev_get READ (Some wk, x2)) with (Some wk). change (ev_set READ None (Some wk, x2)) with (None : option wake, x2). cbn [rbind negb orb].
    destruct w; cbn [andb].
    + destruct x2 as [wk2|]; cbn [negb].
      * cbn in R2, Pr. rewrite (trigger_if_ok _ WRITE p i (None, Some wk2)) by (first [by right | (cbn; apply list_lookup_insert_eq; by eapply lookup_lt_Some) | cbn; lia]).
        cbn. rewrite list_insert_insert_eq. do 3 f_equal; lia.
      * unfold trigger_if. cbn. rewrite list_lookup_insert_eq by (by eapply lookup_lt_Some). done.
    + cbn. do 3 f_equal; lia.
  - cbn [trigger_if rbind app]. destruct w; cbn [andb].
    + destruct x2 as [wk2|]; [|unfold trigger_if; rewrite Hp; cbn [deref rbind]; rewrite triggerEvent_ok by (by right); done].
      cbn in R2, Pr. rewrite (trigger_if_ok io WRITE p i (x1, Some wk2)) by (first [by right | done | lia]). cbn. do 3 f_equal; lia.
    + cbn. unfold left_over. cbn. rewrite list_insert_id by done. destruct io. cbn. do 3 f_equal; lia.
Qed.

Lemma bits_zero x : bits x = 0 <-> x = no_one.
Proof. destruct x as [[?|] [?|]]; cbn; split; intros; congruence || done. Qed.

(** The manager after both triggers. *)
Definition after_triggers (p i : nat) (r w : bool) (x : waiters) (e : gmap Z (Z * nat)) (io : IOManager) : IOManager :=
  mkIOManager (m_fdContexts io) (<[p := fd_context i (left_over r w x)]> (io_heap io))
    (m_pendingEventCount io - (one x.1 - one (left_over r w x).1) - (one x.2 - one (left_over r w x).2)) e.

Lemma after_triggers_table io l fd r w e : table io l -> 0 <= fd < len l ->
  e !! fd = interest (Z.to_nat fd) (left_over r w (at_fd l fd)) -> (forall fd', fd' <> fd -> e !! fd' = io_epoll io !! fd') ->
  table (after_triggers (Z.to_nat fd) (Z.to_nat fd) r w (at_fd l fd) e io) (put_fd fd (left_over r w (at_fd l fd)) l).
Proof. intros T L Ee Eo. apply put_table; try done. rewrite (tb_pending _ _ T). lia. Qed.

(** A trigger for an event that is tested first: there is no assertion to fail. *)
Lemma trigger_tested io event p i x : is_event event -> io_heap io !! p = Some (fd_context i x) -> one (ev_get event x) <= m_pendingEventCount io < 2 ^ 62 ->
  trigger_if event p (has (events_of p io) event) io =
    Ok (option_list (ev_get event x),
        mkIOManager (m_fdContexts io) (<[p := fd_context i (ev_set event None x)]> (io_heap io)) (m_pendingEventCount io - one (ev_get event x)) (io_epoll io)).
Proof.
  intros Ev Hp Pr. unfold events_of. rewrite Hp. change (fd_events (fd_context i x)) with (bits x). rewrite has_bits by done.
  destruct (ev_get event x) as [wk|] eqn:Eg; cbn [one option_list] in *.
  - rewrite (trigger_if_ok io event p i x) by (done || lia). by rewrite Eg.
  - cbn. assert (ev_set event None x = x) as -> by (destruct Ev as [-> | ->], x; cbn in *; by subst).
    rewrite list_insert_id, Z.sub_0_r by done. by destruct io.
Qed.

Lemma cancelAll_ctx_ok io l ok fd : table io l -> 0 <= fd < len l ->
  exists io', cancelAll_ctx ok (Z.to_nat fd) fd io =
    (if bool_decide (at_fd l fd = no_one) || negb ok then Ok (false, [], io')
     else Ok (true, option_list (at_fd l fd).1 ++ option_list (at_fd l fd).2, io')) /\
  table io' (if ok then put_fd fd no_one l else l).
Proof.
  intros T L. unfold cancelAll_ctx. rewrite (heap_at io l fd T L). cbn [deref rbind]. change (fd_events (fd_context (Z.to_nat fd) (at_fd l fd))) with (bits (at_fd l fd)).
  unfold NONE. pose proof (total_pos l fd L) as Tp. pose proof (pending_range io l T) as Pr. pose proof (at_fd_lookup l fd L) as Lk. pose proof (heap_at io l fd T L) as Hp.
  destruct (Z.eqb_spec (bits (at_fd l fd)) 0) as [Ez|Nz].
  - apply bits_zero in Ez. exists io. split; [by rewrite bool_decide_true|]. destruct ok; [|done]. unfold put_fd. by rewrite list_insert_id by (by rewrite Lk, Ez).
  - rewrite bool_decide_false by (by intros B%bits_zero). destruct ok; cbn [orb negb]; [|exists io; split; [by unfold epoll_ctl|done]].
    destruct (leave_epoll io l fd no_one T L Nz) as (e & Ee & Ef & Eo). change (epoll_ctl true EPOLL_CTL_DEL fd (Z.lor (bits no_one) EPOLLET) (Z.to_nat fd) (io_epoll io) = Some e) in Ee.
    assert (epoll_ctl true EPOLL_CTL_DEL fd 0 (Z.to_nat fd) (io_epoll io) = Some e) as -> by (unfold epoll_ctl in *; done).
    destruct (at_fd l fd) as [x1 x2] eqn:Ex. cbn [fst snd] in *. pose proof (one_range x1). pose proof (one_range x2).
    assert (Pn : m_pendingEventCount io = total l) by apply T.
    rewrite (trigger_tested (set_epoll e io) READ (Z.to_nat fd) (Z.to_nat fd) (x1, x2)) by (first [by left | done | cbn; lia]).
    cbn [rbind]. erewrite (trigger_tested _ WRITE (Z.to_nat fd) (Z.to_nat fd) (None, x2))
      by (first [by right | (cbn; apply list_lookup_insert_eq; by eapply lookup_lt_Some) | cbn; lia]).
    cbn [rbind io_heap m_fdContexts m_pendingEventCount io_epoll set_epoll]. rewrite list_insert_insert_eq.
    unfold events_of. cbn [io_heap]. rewrite list_lookup_insert_eq by (by eapply lookup_lt_Some). cbn.
    eexists. split; [reflexivity|]. apply (put_table io l fd no_one); [done|done|exact Ef|exact Eo|]. rewrite Ex. cbn. lia.
Qed.

(** Which events a report of [epoll_wait] stands for. *)
Definition reports (events : Z) (x : waiters) : bool * bool :=
  let events := if has events (Z.lor EPOLLERR EPOLLHUP) then Z.lor events (Z.land (Z.lor EPOLLIN EPOLLOUT) (bits x)) else events in
  (has events EPOLLIN, has events EPOLLOUT).

Definition waits (o : option wake) : bool := match o with Some _ => true | None => false end.

(** The answer of the idle coroutine to a report, and the table then. *)
Definition answer (ok r w : bool) (x : waiters) : res (list wake) * waiters :=
  if negb (r && waits x.1 || w && waits x.2) || negb ok then (Ok [], x)
  else if (r && negb (waits x.1)) || (w && negb (waits x.2)) then (Crash assertion_failed, x)
  else (Ok (woken r w x), left_over r w x).

Definition real_events (r w : bool) : Z := Z.lor (if r then READ else NONE) (if w then WRITE else NONE).

Lemma real_bits r w x :
  (Z.land (bits x) (real_events r w) =? NONE) = negb (r && waits x.1 || w && waits x.2) /\
  Z.land (bits x) (Z.lnot (real_events r w)) = bits (left_over r w x) /\
  has (real_events r w) READ = r /\ has (real_events r w) WRITE = w.
Proof. destruct r, w, x as [[?|] [?|]]; done. Qed.

Lemma dispatch_ok io l ok fd events : table io l -> 0 <= fd < len l ->
  let x := at_fd l fd in let '(r, w) := reports events x in
  exists io', dispatch ok (Z.to_nat fd) events io = (let! ws := (answer ok r w x).1 in Ok (ws, io')) /\
    table io' (put_fd fd (answer ok r w x).2 l).
Proof.
  intros T L x. destruct (reports events x) as [r w] eqn:R. unfold reports in R. injection R as Er Ew.
  unfold dispatch. rewrite (heap_at io l fd T L). cbn [deref rbind]. change (fd_events (fd_context (Z.to_nat fd) (at_fd l fd))) with (bits x).
  rewrite Er, Ew. change (Z.lor (if r then READ else NONE) (if w then WRITE else NONE)) with (real_events r w).
  destruct (real_bits r w x) as (Rz & Rl & Rr & Rw). rewrite Rz, Rl, Rr, Rw. cbn [fd_context fd_fd].
  assert (Id : put_fd fd x l = l) by (apply list_insert_id, at_fd_lookup; done).
  unfold answer. destruct (r && waits x.1 || w && waits x.2) eqn:Ws; cbn [negb orb]; [|exists io; cbn; by rewrite Id].
  destruct ok; cbn [negb]; [|exists io; cbn; unfold epoll_ctl; cbn; by rewrite Id].
  assert (Nz : bits x <> 0) by (intros ->%bits_zero; by destruct r, w).
  destruct (leave_epoll io l fd (left_over r w x) T L Nz) as (e & Ee & Ef & Eo). rewrite Z2Nat.id by lia. rewrite Ee.
  pose proof (total_pos l fd L) as Tp. pose proof (pending_range io l T) as Pr. rewrite <- (tb_pending _ _ T) in Tp.
  rewrite (two_triggers (set_epoll e io) (Z.to_nat fd) (Z.to_nat fd) x r w) by (first [exact (heap_at io l fd T L) | cbn; fold x in Tp; lia]).
  rewrite (has_bits READ) by (by left). rewrite (has_bits WRITE) by (by right).
  change (match ev_get READ x with Some _ => true | None => false end) with (waits x.1).
  change (match ev_get WRITE x with Some _ => true | None => false end) with (waits x.2).
  destruct ((r && negb (waits x.1)) || (w && negb (waits x.2))); [exists io; cbn; by rewrite Id|].
  eexists. split; [reflexivity|]. exact (after_triggers_table io l fd r w e T L Ef Eo).
Qed.

(** ** The operations *)

Inductive op :=
  | Add (fd event : Z) (sch : nat) (st : State) (w : Work)
  | Del (fd event : Z)
  | Cancel (fd event : Z)
  | CancelAll (fd : Z)
  | Report (fd events : Z).

(** What an operation answers, and whom it wakes. *)
Definition outcome : Type := bool * list wake.

Definition io_op (ok : bool) (o : op) (io : IOManager) : res (outcome * IOManager) :=
  match o with
  | Add fd event sch st w => let! (b, io) := addEvent ok fd event (Some sch) st w io in Ok ((b, []), io)
  | Del fd event => let! (b, io) := delEvent ok fd event io in Ok ((b, []), io)
  | Cancel fd event => cancelEvent ok fd event io
  | CancelAll fd => cancelAll ok fd io
  | Report fd events => let! (ws, io) := dispatch ok (Z.to_nat fd) events io in Ok ((true, ws), io)
  end.

(** The specification: a table from descriptors to waiters. *)
Definition table_of : Type := Z -> waiters.
Definition put_row (fd : Z) (x : waiters) (m : table_of) : table_of := fun fd' => if fd' =? fd then x else m fd'.

Definition good (fd event : Z) : bool := (0 <=? fd) && ((event =? READ) || (event =? WRITE)).

Definition spec_op (ok : bool) (o : op) (m : table_of) : res outcome * table_of :=
  match o with
  | Add fd event sch st w =>
      if negb (good fd event) then (Crash assertion_failed, m)
      else match ev_get event (m fd) with
           | Some _ => (Ok (true, []), m)
           | None => if ok && negb (may_register st w) then (Crash assertion_failed, m) else (Ok (ok, []), if ok then put_row fd (ev_set event (Some (sch, w)) (m fd)) m else m)
           end
  | Del fd event =>
      if negb (good fd event) then (Crash assertion_failed, m)
      else match ev_get event (m fd) with
           | Some _ => (Ok (ok, []), if ok then put_row fd (ev_set event None (m fd)) m else m)
           | None => (Ok (false, []), m)
           end
  | Cancel fd event =>
      if negb (good fd event) then (Crash assertion_failed, m)
      else match ev_get event (m fd) with
           | Some wk => if ok then (Ok (true, [wk]), put_row fd (ev_set event None (m fd)) m) else (Ok (false, []), m)
           | None => (Ok (false, []), m)
           end
  | CancelAll fd =>
      if fd <? 0 then (Crash assertion_failed, m)
      else if bool_decide (m fd = no_one) || negb ok then (Ok (false, []), m)
      else (Ok (true, option_list (m fd).1 ++ option_list (m fd).2), put_row fd no_one m)
  | Report fd events =>
      let '(r, w) := reports events (m fd) in
      let '(a, x) := answer ok r w (m fd) in (let! ws := a in Ok (true, ws), put_row fd x m)
  end.

(** Descriptors are [int]s; [epoll_wait] reports those the table has a context for. *)
Definition valid (size : Z) (o : op) : Prop :=
  match o with
  | Add fd _ _ _ _ | Del fd _ | Cancel fd _ | CancelAll fd => fd < 2 ^ 31
  | Report fd _ => 0 <= fd < size
  end.
Definition sized (size : Z) (o : op) : Z := match o with Add fd _ _ _ _ => Z.max size (fd + 1) | _ => size end.

Definition represents (l : list waiters) (m : table_of) : Prop := forall fd, at_fd l fd = m fd.

Lemma good_spec fd event : good fd event = true -> 0 <= fd /\ is_event event /\ (fd <? 0) || negb ((event =? READ) || (event =? WRITE)) = false.
Proof.
  unfold good, is_event. intros [H1 H2]%andb_true_iff. rewrite H2. replace (fd <? 0) with false by lia.
  split; [lia|]. split; [|done]. apply orb_true_iff in H2 as [H|H]; lia.
Qed.

Lemma good_not fd event : good fd event = false -> (fd <? 0) || negb ((event =? READ) || (event =? WRITE)) = true.
Proof. unfold good. destruct (_ || _) ; rewrite ?andb_true_r, ?andb_false_r, ?orb_true_r, ?orb_false_r; [lia|done]. Qed.

Lemma represents_put l m fd x : represents l m -> 0 <= fd < len l -> represents (put_fd fd x l) (put_row fd x m).
Proof. intros R L fd'. rewrite at_put_fd by done. unfold put_row. by rewrite R. Qed.

Lemma represents_empty l m fd x : represents l m -> x = m fd -> represents l (put_row fd x m).
Proof. intros R -> fd'. unfold put_row. destruct (Z.eqb_spec fd' fd) as [->|]; apply R. Qed.

Lemma at_grown l fd fd' : at_fd (grown l fd) fd' = at_fd l fd'.
Proof. unfold grown. case_match; [done|]. apply at_fd_app. Qed.

(** *** Each operation *)

Definition implements (ok : bool) (o : op) (io : IOManager) (l : list waiters) (m : table_of) : Prop :=
  exists io' l', io_op ok o io = (let! a := (spec_op ok o m).1 in Ok (a, io')) /\
    table io' l' /\ represents l' (spec_op ok o m).2 /\ (len l <= len l') /\
    ((spec_op ok o m).1 <> Crash assertion_failed -> sized (len l) o <= len l').

Lemma io_add_ok ok fd event sch st w io l m : table io l -> represents l m -> fd < 2 ^ 31 -> implements ok (Add fd event sch st w) io l m.
Proof.
  intros T R L. unfold implements. cbn [io_op spec_op]. unfold addEvent. destruct (good fd event) eqn:G; cbn [negb].
  2:{ rewrite (good_not _ _ G). exists io, l. cbn. done. }
  destruct (good_spec _ _ G) as (L0 & Ev & ->). rewrite (find_context_ok io l fd T L0). cbn [rbind].
  assert (exists io1 l1, (match (if fd <? len l then Some (Z.to_nat fd) else None) with
      | Some p => addEvent_ctx ok p fd event (Some sch) st w io
      | None => let! (p, io) := grow_context fd io in addEvent_ctx ok p fd event (Some sch) st w io end) =
      addEvent_ctx ok (Z.to_nat fd) fd event (Some sch) st w io1 /\ table io1 l1 /\ represents l1 m /\ fd < len l1 /\ len l <= len l1) as (io1 & l1 & -> & T1 & R1 & L1 & Le).
  { destruct (Z.ltb_spec fd (len l)) as [Lf|Lf]; [exists io, l; split_and!; done || lia|].
    destruct (grow_ok io l fd T) as (io1 & E & T1 & L1); [lia|]. exists io1, (grown l fd). rewrite E. split; [done|]. split; [done|].
    split; [intros fd'; rewrite at_grown; apply R|]. split; [done|lia]. }
  pose proof (addEvent_ctx_ok io1 l1 ok fd event sch st w T1 ltac:(lia) Ev) as A. unfold add_fails in A. rewrite (R1 fd) in A.
  destruct (ev_get event (m fd)) as [o|].
  - destruct A as (io' & -> & T'). exists io', l1. cbn. split_and!; try done. lia.
  - destruct (ok && negb (may_register st w)); [rewrite A; by exists io1, l1|]. destruct A as (io' & -> & T'). cbn [rbind fst snd]. exists io'. eexists. split; [done|]. split; [exact T'|].
    destruct ok; [|split; [done|]; split; [done|intros _; cbn; lia]]. rewrite len_put_fd. split; [by apply represents_put|]. split; [done|intros _; cbn; lia].
Qed.

Lemma io_del_ok ok fd event io l m : table io l -> represents l m -> fd < 2 ^ 31 -> implements ok (Del fd event) io l m.
Proof.
  intros T R L. unfold implements. cbn [io_op spec_op]. unfold delEvent. destruct (good fd event) eqn:G; cbn [negb].
  2:{ rewrite (good_not _ _ G). exists io, l. cbn. done. }
  destruct (good_spec _ _ G) as (L0 & Ev & ->). rewrite (find_context_ok io l fd T L0). cbn [rbind]. destruct (Z.ltb_spec fd (len l)) as [Lf|Lf].
  - destruct (delEvent_ctx_ok io l ok fd event T ltac:(lia) Ev) as (io' & E & T'). rewrite E, (R fd) in *. cbn [rbind]. exists io'. eexists. split; [|split; [exact T'|]].
    + by destruct (ev_get event (m fd)).
    + destruct (ev_get event (m fd)); cbn; [|done]. destruct ok; [|done]. rewrite len_put_fd. split; [by apply represents_put|done].
  - rewrite <- (R fd), at_fd_out by (by right). exists io, l. by destruct Ev as [-> | ->].
Qed.

Lemma io_cancel_ok ok fd event io l m : table io l -> represents l m -> fd < 2 ^ 31 -> implements ok (Cancel fd event) io l m.
Proof.
  intros T R L. unfold implements. cbn [io_op spec_op]. unfold cancelEvent. destruct (good fd event) eqn:G; cbn [negb].
  2:{ rewrite (good_not _ _ G). exists io, l. cbn. done. }
  destruct (good_spec _ _ G) as (L0 & Ev & ->). rewrite (find_context_ok io l fd T L0). cbn [rbind]. destruct (Z.ltb_spec fd (len l)) as [Lf|Lf].
  - destruct (cancelEvent_ctx_ok io l ok fd event T ltac:(lia) Ev) as (io' & E & T'). rewrite E, (R fd) in *. exists io'. eexists. split; [|split; [exact T'|]].
    + destruct (ev_get event (m fd)); [by destruct ok|done].
    + destruct (ev_get event (m fd)); cbn; [|done]. destruct ok; [|done]. rewrite len_put_fd. split; [by apply represents_put|done].
  - rewrite <- (R fd), at_fd_out by (by right). exists io, l. by destruct Ev as [-> | ->].
Qed.

Lemma cancelAll_ok ok fd io l m : table io l -> represents l m -> fd < 2 ^ 31 -> implements ok (CancelAll fd) io l m.
Proof.
  intros T R L. unfold implements. cbn [io_op spec_op]. unfold cancelAll. destruct (Z.ltb_spec fd 0) as [Lz|Lz]; [exists io, l; done|].
  rewrite (find_context_ok io l fd T Lz). cbn [rbind]. destruct (Z.ltb_spec fd (len l)) as [Lf|Lf].
  - destruct (cancelAll_ctx_ok io l ok fd T ltac:(lia)) as (io' & E & T'). rewrite E, (R fd) in *. exists io'. eexists. split; [|split; [exact T'|]].
    + by destruct (_ || _).
    + destruct (bool_decide_reflect (m fd = no_one)) as [En|En]; cbn [orb snd fst]; [|destruct ok; cbn; [|done]].
      * split; [|destruct ok; rewrite ?len_put_fd; done]. destruct ok; [|done]. intros fd'. rewrite at_put_fd by done.
        destruct (Z.eqb_spec fd' fd) as [->|]; [done|apply R].
      * rewrite len_put_fd. split; [by apply represents_put|done].
  - rewrite <- (R fd), at_fd_out by (by right). exists io, l. done.
Qed.

Lemma io_report_ok ok fd events io l m : table io l -> represents l m -> 0 <= fd < len l -> implements ok (Report fd events) io l m.
Proof.
  intros T R L. unfold implements. cbn [io_op spec_op]. pose proof (dispatch_ok io l ok fd events T L) as D. cbn zeta in D. rewrite (R fd) in D.
  destruct (reports events (m fd)) as [r w]. destruct D as (io' & -> & T'). destruct (answer ok r w (m fd)) as [a x]. cbn in *.
  exists io'. eexists. split; [by destruct a|]. split; [exact T'|]. rewrite len_put_fd. split; [by apply represents_put|done].
Qed.

Lemma op_implements ok o io l m : table io l -> represents l m -> valid (len l) o -> implements ok o io l m.
Proof.
  intros T R V. destruct o; [apply io_add_ok|apply io_del_ok|apply io_cancel_ok|apply cancelAll_ok|apply io_report_ok]; done.
Qed.

(** ** Runs *)

Fixpoint io_run (ops : list (bool * op)) (io : IOManager) : res (list outcome * IOManager) :=
  match ops with
  | [] => Ok ([], io)
  | (ok, o) :: ops => let! (a, io) := io_op ok o io in let! (r, io) := io_run ops io in Ok (a :: r, io)
  end.

Fixpoint spec_run (ops : list (bool * op)) (m : table_of) : res (list outcome) * table_of :=
  match ops with
  | [] => (Ok [], m)
  | (ok, o) :: ops =>
      match spec_op ok o m with
      | (Ok a, m) => let '(r, m) := spec_run ops m in (let! r := r in Ok (a :: r), m)
      | (a, m) => (let! a := a in Ok [a], m)
      end
  end.

(** [size] is a number of descriptors for which there is a context. *)
Fixpoint valid_run (size : Z) (ops : list (bool * op)) : Prop :=
  match ops with
  | [] => True
  | (_, o) :: ops => valid size o /\ valid_run (sized size o) ops
  end.

Lemma new_IOManager_ok : table new_IOManager (replicate 64 no_one).
Proof.
  constructor; [by vm_compute|by vm_compute| |by vm_compute|by vm_compute].
  intros fd. cbn [new_IOManager]. change (io_epoll new_IOManager) with (∅ : gmap Z (Z * nat)). rewrite lookup_empty.
  rewrite <- (app_nil_l (replicate 64 no_one)), at_fd_app, (at_fd_out []) by (unfold len; cbn; lia). by case_match.
Qed.

Lemma valid_mono a b o : a <= b -> valid a o -> valid b o.
Proof. intros L. destruct o; cbn; lia. Qed.

Lemma sized_mono a b o : a <= b -> sized a o <= sized b o.
Proof. intros L. destruct o; cbn; lia. Qed.

Lemma run_ok ops : forall size io l m, table io l -> represents l m -> size <= len l -> valid_run size ops ->
  exists io', io_run ops io = (let! r := (spec_run ops m).1 in Ok (r, io')) /\
    forall r, (spec_run ops m).1 = Ok r -> exists l', table io' l' /\ represents l' (spec_run ops m).2.
Proof.
  induction ops as [|[ok o] ops IH]; intros size io l m T R Sz V; [exists io; cbn; eauto|].
  destruct V as [V Vs]. cbn [io_run spec_run].
  destruct (op_implements ok o io l m T R) as (io1 & l1 & E & T1 & R1 & _ & Sd); [by eapply valid_mono|]. rewrite E.
  destruct (spec_op ok o m) as [[a|c|c] m1]; cbn [fst snd rbind] in *; [|by exists io|by exists io].
  destruct (IH (sized size o) io1 l1 m1 T1 R1) as (io2 & E2 & F2); [|done|].
  { pose proof (sized_mono size (len l) o Sz). specialize (Sd ltac:(done)). lia. }
  rewrite E2. destruct (spec_run ops m1) as [[r|c|c] m2]; cbn [fst snd rbind] in *; exists io2; (split; [done|]); intros r0 [= <-]; by apply (F2 r).
Qed.

(** ** Properties *)

(** C3: The event manager is a table of waiters. Whatever sequence of operations and reports
    of epoll, with whatever refusals of the kernel: the contexts, the interest set of epoll
    and the growing of the vector together answer as a table with one reader and one
    writer per descriptor does, they wake whom the table names, and at the end the contexts
    and the interest set are those of the table and [m_pendingEventCount] is the number of
    its waiters. *)
Theorem IOManager_refines ops : valid_run 64 ops ->
  exists io, io_run ops new_IOManager = (let! r := (spec_run ops (fun _ => no_one)).1 in Ok (r, io)) /\
    forall r, (spec_run ops (fun _ => no_one)).1 = Ok r -> exists l, table io l /\ represents l (spec_run ops (fun _ => no_one)).2.
Proof.
  intros V. apply (run_ok ops 64 new_IOManager (replicate 64 no_one)); [apply new_IOManager_ok| |done|done].
  intros fd. rewrite <- (app_nil_l (replicate 64 no_one)), at_fd_app. apply at_fd_out. unfold len. cbn. lia.
Qed.

(** A descriptor past the table, both of its waiters, a second waiter for the same event
    (which is not even asked whether it executes), a hangup that wakes both, and a report
    that comes too late. *)
Definition a_session : list (bool * op) :=
  [(true, Add 70 READ 0 EXEC (Co 5)); (false, Add 70 WRITE 0 EXEC (Co 6)); (true, Add 70 WRITE 0 EXEC (Cb 7)); (true, Add 70 READ 0 READY (Co 8));
   (true, Cancel 71 READ); (true, Report 70 (Z.lor EPOLLHUP EPOLLIN)); (true, Report 70 EPOLLIN); (true, CancelAll 70)].

Lemma IOManager_refines_witness :
  io_run a_session new_IOManager =
    (let! io := (let! (_, io) := io_run a_session new_IOManager in Ok io) in
     Ok ([(true, []); (false, []); (true, []); (true, []); (false, []); (true, [(0%nat, Co 5); (0%nat, Cb 7)]); (true, []); (false, [])], io)) /\
  exists io, io_run a_session new_IOManager = (let! r := (spec_run a_session (fun _ => no_one)).1 in Ok (r, io)) /\
    forall r, (spec_run a_session (fun _ => no_one)).1 = Ok r -> exists l, table io l /\ represents l (spec_run a_session (fun _ => no_one)).2.
Proof. split; [vm_compute; reflexivity|]. apply IOManager_refines. cbn. unfold EPOLLHUP, EPOLLIN. lia. Defined.

(** The idle coroutine waits no longer than until the next timer, and no longer than
    three seconds, whenever the next timer is less than 2^31 ms away or there is none. *)
Theorem epoll_timeout_bound next : 0 <= next < 2 ^ 31 \/ next = 2 ^ 64 - 1 ->
  0 <= epoll_timeout next <= 3000 /\ epoll_timeout next <= next /\ (next <= 3000 -> epoll_timeout next = next).
Proof.
  intros [L| ->]; [|vm_compute; intuition discriminate]. unfold epoll_timeout. replace (next =? 2 ^ 64 - 1) with false by lia. cbn [negb].
  rewrite (s32_small next) by lia. destruct (Z.ltb_spec 3000 next); rewrite s32_small by lia; lia.
Qed.

Lemma epoll_timeout_bound_witness : epoll_timeout 250 = 250 /\ epoll_timeout 5000 = 3000 /\ 0 <= epoll_timeout 250 <= 3000.
Proof. split; [reflexivity|]. split; [reflexivity|]. apply (epoll_timeout_bound 250). lia. Defined.

(** A timer 2^31 ms away, or more, makes the timeout negative: [epoll_wait] blocks without
    one. *)
Lemma epoll_timeout_negative next : 2 ^ 31 <= next < 2 ^ 32 -> epoll_timeout next < 0.
Proof.
  intros L. unfold epoll_timeout. replace (next =? 2 ^ 64 - 1) with false by lia. cbn [negb].
  assert (E : s32 next = next - 2 ^ 32).
  { unfold s32, sint. change (32 - 1) with 31. rewrite <- (Z_mod_plus_full _ (-1)). rewrite Z.mod_small; lia. }
  rewrite E. destruct (Z.ltb_spec 3000 (next - 2 ^ 32)); [lia|]. rewrite E. lia.
Qed.

(** A report may be older than the cancellation of one of the events that it names: a
    thread cancels the writer after [epoll_wait] returned and before its report is taken
    up, while a reader still waits. *)
Example stale_report : io_run [(true, Add 5 READ 0 EXEC (Co 1)); (true, Add 5 WRITE 0 EXEC (Co 2)); (true, Cancel 5 WRITE); (true, Report 5 (Z.lor EPOLLIN EPOLLOUT))]
  new_IOManager = Crash assertion_failed.
Proof. vm_compute. reflexivity. Qed.

(** Two threads that grow the table at once: the second, whose descriptor is the smaller,
    cuts off the context of the first. The event stays in epoll, and [cancelEvent] says
    that there is none. *)
Example grow_race :
  (let! a := find_context 1000 new_IOManager in
   let! b := find_context 100 new_IOManager in
   let! (p, io) := grow_context 1000 new_IOManager in
   let! (q, io) := grow_context 100 io in
   let! (r1, io) := addEvent_ctx true p 1000 READ (Some 0%nat) EXEC (Co 1) io in
   let! (r2, io) := addEvent_ctx true q 100 READ (Some 0%nat) EXEC (Co 2) io in
   let! (c, ws, io) := cancelEvent true 1000 READ io in
   Ok (a, b, r1, r2, c, ws, bool_decide (is_Some (io_epoll io !! 1000)), m_pendingEventCount io)) =
  Ok (None, None, true, true, false, [], true, 2).
Proof. vm_compute. reflexivity. Qed.
