(* ===== verification/NameService.v ===== *)
(** The name service: the tables of nodes (src/ns/ns_protocol.cpp, include/ns/ns_protocol.hpp)
    and the handlers that keep them (src/ns/name_server_module.cpp).

    Node sets and domains are shared by pointer and each has a lock of its own, so they
    are kept in two heaps, a pointer being a place there, and each access under a lock is
    an operation of the monad; the operations that take several locks are sequences of
    those. Node objects never change. The protobuf messages are records whose optional
    fields are options; their parser is a parameter, as are [inet_addr] and the numbering
    of the sessions. A loop over a map visits it in the order of [map_to_list], which only
    numbers what it allocates; [std::map] lists by key. *)
From stdpp Require Import gmap sorting.
From S2P Require Import Prelude.

Abbreviation name := (list byte).

(** ** Nodes and node sets *)

Record NSNode := mkNSNode { m_id : Z; m_ip : name; m_port : Z; m_weight : Z }.

#[global] Instance NSNode_eq_dec : EqDecision NSNode.
Proof. solve_decision. Defined.

Definition GetID (inet_addr : name -> Z) (ip : name) (port : Z) : Z :=
  Z.lor (u64 (Z.shiftl (inet_addr ip) 32)) port.

Definition new_NSNode (inet_addr : name -> Z) (ip : name) (port weight : Z) : NSNode :=
  let port := u16 port in mkNSNode (GetID inet_addr ip port) ip port weight.

Record NSNodeSet := mkNSNodeSet { m_cmd : Z; set_datas : gmap Z NSNode }.

Definition NSNodeSet_add (info : NSNode) (x : NSNodeSet) : NSNodeSet :=
  mkNSNodeSet (m_cmd x) (<[m_id info := info]> (set_datas x)).

Definition NSNodeSet_del (id : Z) (x : NSNodeSet) : option NSNode * NSNodeSet :=
  (set_datas x !! id, mkNSNodeSet (m_cmd x) (delete id (set_datas x))).

Definition NSNodeSet_size (x : NSNodeSet) : Z := Z.of_nat (size (set_datas x)).

(** The values of a [std::map] with integer keys. *)
Definition key_le {A} (a b : Z * A) : Prop := fst a <= fst b.

#[global] Instance key_le_dec {A} : RelDecision (@key_le A).
Proof. intros a b. unfold key_le. apply _. Defined.

Definition in_key_order {A} (m : gmap Z A) : list (Z * A) := merge_sort key_le (map_to_list m).

Definition NSNodeSet_listAll (x : NSNodeSet) : list NSNode := map snd (in_key_order (set_datas x)).

(** ** The store *)

Record NSDomain := mkNSDomain { m_domain : name; dom_datas : gmap Z nat }.

Record NSClientInfo := mkClient { m_node : NSNode; m_domain2cmds : gmap name (gset Z) }.

(** [NameServerModule] with the heaps; [m_domains] is the map of its [NSDomainSet]. *)
Record NameServer := mkNameServer {
  ns_sets : list NSNodeSet;
  ns_domains : list NSDomain;
  m_domains : gmap name nat;
  m_sessions : gmap nat NSClientInfo;
}.

Definition new_NameServer : NameServer := mkNameServer [] [] ∅ ∅.

Definition set_sets (l : list NSNodeSet) (s : NameServer) : NameServer :=
  mkNameServer l (ns_domains s) (m_domains s) (m_sessions s).
Definition set_domains (l : list NSDomain) (s : NameServer) : NameServer :=
  mkNameServer (ns_sets s) l (m_domains s) (m_sessions s).
Definition set_m_domains (m : gmap name nat) (s : NameServer) : NameServer :=
  mkNameServer (ns_sets s) (ns_domains s) m (m_sessions s).
Definition set_sessions (m : gmap nat NSClientInfo) (s : NameServer) : NameServer :=
  mkNameServer (ns_sets s) (ns_domains s) (m_domains s) m.

(** An access to a node set or to a domain under its lock. *)
Definition on_set {A} (p : nat) (f : NSNodeSet -> A * NSNodeSet) : st NameServer A := fun s =>
  match ns_sets s !! p with
  | None => (Crash null_deref, s)
  | Some x => let (a, x) := f x in (Ok a, set_sets (<[p := x]> (ns_sets s)) s)
  end.
Definition on_domain {A} (d : nat) (f : NSDomain -> A * NSDomain) : st NameServer A := fun s =>
  match ns_domains s !! d with
  | None => (Crash null_deref, s)
  | Some x => let (a, x) := f x in (Ok a, set_domains (<[d := x]> (ns_domains s)) s)
  end.

Definition new_NSNodeSet (cmd : Z) : st NameServer nat := fun s =>
  (Ok (length (ns_sets s)), set_sets (ns_sets s ++ [mkNSNodeSet cmd ∅]) s).
Definition new_NSDomain (domain : name) : st NameServer nat := fun s =>
  (Ok (length (ns_domains s)), set_domains (ns_domains s ++ [mkNSDomain domain ∅]) s).

(** *** [NSDomain] *)

Definition NSDomain_get (d : nat) (cmd : Z) : st NameServer (option nat) :=
  on_domain d (fun x => (dom_datas x !! cmd, x)).

(** [add(NSNodeSet::ptr)] *)
Definition NSDomain_add_set (d p : nat) : st NameServer unit :=
  let* cmd := on_set p (fun x => (m_cmd x, x)) in
  on_domain d (fun x => (tt, mkNSDomain (m_domain x) (<[cmd := p]> (dom_datas x)))).

(** [add(cmd, info)] *)
Definition NSDomain_add (d : nat) (cmd : Z) (info : NSNode) : st NameServer unit :=
  let* ns := NSDomain_get d cmd in
  let* p := match ns with
            | Some p => sret p
            | None => let* p := new_NSNodeSet cmd in let* _ := NSDomain_add_set d p in sret p
            end in
  on_set p (fun x => (tt, NSNodeSet_add info x)).

(** [del(cmd)] *)
Definition NSDomain_del_set (d : nat) (cmd : Z) : st NameServer unit :=
  on_domain d (fun x => (tt, mkNSDomain (m_domain x) (delete cmd (dom_datas x)))).

(** [del(cmd, id)] *)
Definition NSDomain_del (d : nat) (cmd id : Z) : st NameServer (option NSNode) :=
  let* ns := NSDomain_get d cmd in
  match ns with
  | None => sret None
  | Some p =>
      let* info := on_set p (NSNodeSet_del id) in
      let* n := on_set p (fun x => (NSNodeSet_size x, x)) in
      let* _ := if n =? 0 then NSDomain_del_set d cmd else sret tt in
      sret info
  end.

Definition NSDomain_listAll (d : nat) : st NameServer (list nat) :=
  on_domain d (fun x => (map snd (in_key_order (dom_datas x)), x)).

(** *** [NSDomainSet] *)

(** [get(domain)] and [get(domain, true)] *)
Definition NSDomainSet_get (domain : name) : st NameServer (option nat) := fun s => (Ok (m_domains s !! domain), s).

Definition NSDomainSet_get_create (domain : name) : st NameServer nat := fun s =>
  match m_domains s !! domain with
  | Some d => (Ok d, s)
  | None => (let* d := new_NSDomain domain in fun s => (Ok d, set_m_domains (<[domain := d]> (m_domains s)) s)) s
  end.

Definition NSDomainSet_add (d : nat) : st NameServer unit :=
  let* domain := on_domain d (fun x => (m_domain x, x)) in
  fun s => (Ok tt, set_m_domains (<[domain := d]> (m_domains s)) s).

(** [del(domain)] and [del(domain, cmd, id)] *)
Definition NSDomainSet_del (domain : name) : st NameServer unit := fun s =>
  (Ok tt, set_m_domains (delete domain (m_domains s)) s).

Definition NSDomainSet_del_node (domain : name) (cmd id : Z) : st NameServer unit :=
  let* d := NSDomainSet_get domain in
  match d with
  | None => sret tt
  | Some d =>
      let* ns := NSDomain_get d cmd in
      match ns with None => sret tt | Some p => let* _ := on_set p (NSNodeSet_del id) in sret tt end
  end.

(** ** Sessions *)

(** What [diff] finds: the commands of a domain that only the first map has, that only the
    second has, and that both have. *)
Definition only_in (a b : gmap name (gset Z)) : gmap name (gset Z) :=
  map_imap (fun k x => match b !! k with
                       | None => Some x
                       | Some y => if decide (x ∖ y = ∅) then None else Some (x ∖ y)
                       end) a.
Definition in_both (a b : gmap name (gset Z)) : gmap name (gset Z) :=
  map_imap (fun k x => match b !! k with
                       | None => None
                       | Some y => if decide (x ∩ y = ∅) then None else Some (x ∩ y)
                       end) a.

Definition diff (old_value new_value : gmap name (gset Z)) : gmap name (gset Z) * gmap name (gset Z) * gmap name (gset Z) :=
  (only_in old_value new_value, only_in new_value old_value, in_both old_value new_value).

(** A loop over the commands of a domain, and one over the domains. *)
Fixpoint each {A} (f : A -> st NameServer unit) (l : list A) : st NameServer unit :=
  match l with [] => sret tt | a :: l => let* _ := f a in each f l end.

Definition each_domain (f : name -> gset Z -> st NameServer unit) (m : gmap name (gset Z)) : st NameServer unit :=
  each (fun i => f (fst i) (snd i)) (map_to_list m).

(** Of the nodes that go. *)
Definition remove_cmds (node : NSNode) (domain : name) (cmds : gset Z) : st NameServer unit :=
  let* d := NSDomainSet_get domain in
  match d with
  | None => sret tt
  | Some d => each (fun c => let* _ := NSDomain_del d c (m_id node) in sret tt) (elements cmds)
  end.

(** Of the nodes that come, or come back with another weight. *)
Definition insert_cmds (node : NSNode) (domain : name) (cmds : gset Z) : st NameServer unit :=
  let* d := NSDomainSet_get domain in
  let* d := match d with
            | Some d => sret d
            | None => let* d := new_NSDomain domain in let* _ := NSDomainSet_add d in sret d
            end in
  each (fun c => NSDomain_add d c node) (elements cmds).

Definition cmds_of (o : option NSClientInfo) : gmap name (gset Z) :=
  match o with Some x => m_domain2cmds x | None => ∅ end.

(** [o->m_node], for a pointer that may be null. *)
Definition node_of (o : option NSClientInfo) : st NameServer NSNode := fun s =>
  match o with Some x => (Ok (m_node x), s) | None => (Crash null_deref, s) end.

Definition get_session (rs : nat) : st NameServer (option NSClientInfo) := fun s => (Ok (m_sessions s !! rs), s).

Definition put_session (rs : nat) (o : option NSClientInfo) : st NameServer unit := fun s =>
  (Ok tt, set_sessions (match o with Some x => <[rs := x]> (m_sessions s) | None => delete rs (m_sessions s) end) s).

(** [if (!m.empty()) ..], where the loop reads the node of [o]. *)
Definition with_node (m : gmap name (gset Z)) (o : option NSClientInfo) (f : NSNode -> st NameServer unit) : st NameServer unit :=
  if decide (m = ∅) then sret tt else let* n := node_of o in f n.

(** [NameServerModule::set]; [connected] is what [rs->isConnected()] answers. *)
Definition set_session (connected : bool) (rs : nat) (new_value : option NSClientInfo) : st NameServer unit :=
  let new_value := if connected then new_value else None in
  let* old_value := get_session rs in
  let '(dels, news, comms) := diff (cmds_of old_value) (cmds_of new_value) in
  let* _ := with_node dels old_value (fun n => each_domain (remove_cmds n) dels) in
  let* _ := with_node news new_value (fun n => each_domain (insert_cmds n) news) in
  let* _ := with_node comms old_value (fun o =>
              with_node comms new_value (fun n =>
                if m_weight o =? m_weight n then sret tt else each_domain (insert_cmds n) comms)) in
  put_session rs new_value.

(** ** Requests *)

Record NodeMessage := mkNode { pb_ip : option name; pb_port : option Z; pb_weight : option Z }.
Record RegisterInfo := mkRegisterInfo { pb_domain : option name; pb_cmds : list Z; pb_node : option NodeMessage }.

(** What a handler leaves in the response: the result, its text and the body. *)
Record NodeInfo := mkNodeInfo { ni_domain : name; ni_cmd : Z; ni_nodes : list NSNode }.
Record Reply := mkReply { reply_result : Z; reply_str : name; reply_infos : option (list NodeInfo) }.

Definition no_reply : Reply := mkReply 404 (bstr "unhandle") None.

Section handlers.
Context (inet_addr : name -> Z).

(** The node of a [RegisterInfo], if nothing is missing and its address is none but zero. *)
Definition checked_node (info : RegisterInfo) : option (name * NSNode) :=
  match pb_node info, pb_domain info, pb_cmds info with
  | Some node, Some domain, _ :: _ =>
      match pb_ip node, pb_port node, pb_weight node with
      | Some ip, Some port, Some weight =>
          let n := new_NSNode inet_addr ip port weight in
          if Z.shiftr (m_id n) 32 =? 0 then None else Some (domain, n)
      | _, _, _ => None
      end
  | _, _, _ => None
  end.

Definition same_id (o : option NSClientInfo) (n : NSNode) : bool :=
  match o with Some x => m_id (m_node x) =? m_id n | None => true end.

(** [m_domain2cmds[domain].insert(cmd)] for each of the commands. *)
Definition add_cmds (domain : name) (cmds : list Z) (x : NSClientInfo) : NSClientInfo :=
  mkClient (m_node x) (<[domain := default ∅ (m_domain2cmds x !! domain) ∪ list_to_set cmds]> (m_domain2cmds x)).

(** The loop of [handleRegister]; no value when it returns [false]. *)
Fixpoint register_infos (old_value : option NSClientInfo) (infos : list RegisterInfo) (new_value : option NSClientInfo) : option (option NSClientInfo) :=
  match infos with
  | [] => Some new_value
  | info :: infos =>
      match checked_node info with
      | None => None
      | Some (domain, n) =>
          if same_id old_value n && same_id new_value n then
            let x := match new_value with Some x => x | None => mkClient n ∅ end in
            register_infos old_value infos (Some (add_cmds domain (pb_cmds info) x))
          else None
      end
  end.

Definition handleRegister (rr : option (list RegisterInfo)) (connected : bool) (rs : nat) : st NameServer (bool * Reply) :=
  match rr with
  | None => sret (false, no_reply)
  | Some infos =>
      let* old_value := get_session rs in
      match register_infos old_value infos None with
      | None => sret (false, no_reply)
      | Some new_value => let* _ := set_session connected rs new_value in sret (true, mkReply 0 (bstr "ok") None)
      end
  end.

(** The node sets of a domain, in the order of their commands. *)
Fixpoint list_sets (domain : name) (ps : list nat) : st NameServer (list NodeInfo) :=
  match ps with
  | [] => sret []
  | p :: ps =>
      let* info := on_set p (fun x => (mkNodeInfo domain (m_cmd x) (NSNodeSet_listAll x), x)) in
      let* infos := list_sets domain ps in
      sret (info :: infos)
  end.

Fixpoint list_domains (ds : list nat) : st NameServer (list NodeInfo) :=
  match ds with
  | [] => sret []
  | d :: ds =>
      let* ps := NSDomain_listAll d in
      let* domain := on_domain d (fun x => (m_domain x, x)) in
      let* infos := list_sets domain ps in
      let* rest := list_domains ds in
      sret (infos ++ rest)
  end.

(** The set of the domains that are there, in the order of their addresses. *)
Fixpoint find_domains (names : list name) (ds : gset nat) : st NameServer (gset nat) :=
  match names with
  | [] => sret ds
  | i :: names => let* d := NSDomainSet_get i in find_domains names (match d with Some d => {[d]} ∪ ds | None => ds end)
  end.

Definition handleQuery (qreq : option (list name)) : st NameServer (bool * Reply) :=
  match qreq with
  | None => sret (false, no_reply)
  | Some names =>
      let* ds := find_domains names ∅ in
      let* infos := list_domains (merge_sort Nat.le (elements ds)) in
      sret (true, mkReply 0 (bstr "ok") (Some infos))
  end.

Definition NS_REGISTER : Z := 0x10001.
Definition NS_QUERY : Z := 0x10002.
Definition NS_TICK : Z := 0x10005.

(** [handleRockRequest], with the parsers of the two messages. *)
Definition handleRockRequest (parse_register : name -> option (list RegisterInfo)) (parse_query : name -> option (list name))
    (cmd : Z) (body : name) (connected : bool) (rs : nat) : st NameServer (bool * Reply) :=
  if cmd =? NS_REGISTER then handleRegister (parse_register body) connected rs
  else if cmd =? NS_QUERY then handleQuery (parse_query body)
  else sret (true, no_reply).

(** The session goes: [set(rs, nullptr)]. *)
Definition onDisconnect (connected : bool) (rs : nat) : st NameServer unit := set_session connected rs None.
End handlers.
