(* ===== verification/NameServiceSpec.v ===== *)
(** The name service tells what the sessions have registered. *)
From stdpp Require Import gmap sorting.
From S2P Require Import Prelude NameService.

(** ** The tables as one *)

Definition view (s : NameServer) (k : name) (c i : Z) : option NSNode :=
  d ← m_domains s !! k; x ← ns_domains s !! d; p ← dom_datas x !! c; y ← ns_sets s !! p; set_datas y !! i.

(** The pointers lead where they should, no node set is in two places, none is empty. *)
Record store_ok (s : NameServer) : Prop := {
  so_domain k d : m_domains s !! k = Some d -> exists x, ns_domains s !! d = Some x /\ m_domain x = k;
  so_set d x c p : ns_domains s !! d = Some x -> dom_datas x !! c = Some p ->
    exists y, ns_sets s !! p = Some y /\ m_cmd y = c /\ set_datas y <> ∅;
  so_one d1 d2 x1 x2 c1 c2 p : ns_domains s !! d1 = Some x1 -> ns_domains s !! d2 = Some x2 ->
    dom_datas x1 !! c1 = Some p -> dom_datas x2 !! c2 = Some p -> d1 = d2;
  so_id p y i n : ns_sets s !! p = Some y -> set_datas y !! i = Some n -> m_id n = i;
}.

Lemma on_set_ok {A} p (f : NSNodeSet -> A * NSNodeSet) s y : ns_sets s !! p = Some y ->
  on_set p f s = (Ok (fst (f y)), set_sets (<[p := snd (f y)]> (ns_sets s)) s).
Proof. intros E. unfold on_set. rewrite E. by destruct (f y). Qed.

Lemma on_domain_ok {A} d (f : NSDomain -> A * NSDomain) s x : ns_domains s !! d = Some x ->
  on_domain d f s = (Ok (fst (f x)), set_domains (<[d := snd (f x)]> (ns_domains s)) s).
Proof. intros E. unfold on_domain. rewrite E. by destruct (f x). Qed.

Lemma set_domains_id s d x : ns_domains s !! d = Some x -> set_domains (<[d := x]> (ns_domains s)) s = s.
Proof. intros E. rewrite list_insert_id by done. by destruct s. Qed.

Lemma set_sets_id s p y : ns_sets s !! p = Some y -> set_sets (<[p := y]> (ns_sets s)) s = s.
Proof. intros E. rewrite list_insert_id by done. by destruct s. Qed.

Lemma NSDomain_get_ok d c s x : ns_domains s !! d = Some x -> NSDomain_get d c s = (Ok (dom_datas x !! c), s).
Proof. intros E. unfold NSDomain_get. rewrite (on_domain_ok _ _ _ _ E). cbn. by rewrite set_domains_id. Qed.

(** What an operation changes: the nodes [id] at the places that [t] tells. *)
Record effect (s s' : NameServer) (t : name -> Z -> bool) (id : Z) (v : option NSNode) : Prop := {
  ef_ok : store_ok s';
  ef_sessions : m_sessions s' = m_sessions s;
  ef_domains : m_domains s ⊆ m_domains s';
  ef_view k c i : view s' k c i = if t k c && (i =? id) then v else view s k c i;
}.

Lemma effect_refl s id v : store_ok s -> effect s s (fun _ _ => false) id v.
Proof. by intros O. Qed.

Lemma effect_trans s1 s2 s3 t1 t2 id v : effect s1 s2 t1 id v -> effect s2 s3 t2 id v -> effect s1 s3 (fun k c => t1 k c || t2 k c) id v.
Proof.
  intros [O1 S1 D1 V1] [O2 S2 D2 V2]. constructor; [done|congruence|by etrans|]. intros k c i. rewrite V2, V1.
  destruct (t1 k c), (t2 k c), (i =? id); done.
Qed.

Lemma effect_ext s s' t t' id v : (forall k c, t k c = t' k c) -> effect s s' t id v -> effect s s' t' id v.
Proof. intros E [O S D V]. constructor; try done. intros k c i. by rewrite V, E. Qed.

Lemma each_effect {A} (f : A -> st NameServer unit) (t : A -> name -> Z -> bool) id v (I : NameServer -> Prop) l :
  (forall s s' t, I s -> effect s s' t id v -> I s') ->
  (forall a s, a ∈ l -> store_ok s -> I s -> exists s', f a s = (Ok tt, s') /\ effect s s' (t a) id v) ->
  forall s, store_ok s -> I s -> exists s', each f l s = (Ok tt, s') /\ effect s s' (fun k c => existsb (fun a => t a k c) l) id v.
Proof.
  intros Keep. induction l as [|a l IH]; intros H s O Is; [exists s; split; [done|by apply effect_refl]|]. cbn [each existsb].
  destruct (H a s) as (s1 & E1 & F1); [left|done|done|]. rewrite (sbind_ok _ _ _ _ _ E1).
  destruct (IH (fun b s Hb => H b s (list_elem_of_further _ _ _ Hb)) s1) as (s2 & E2 & F2); [apply F1|by eapply Keep|].
  exists s2. split; [done|]. by eapply effect_trans.
Qed.

Lemma view_at s k d x c p y i : m_domains s !! k = Some d -> ns_domains s !! d = Some x -> dom_datas x !! c = Some p -> ns_sets s !! p = Some y ->
  view s k c i = set_datas y !! i.
Proof. intros E1 E2 E3 E4. unfold view. rewrite E1. cbn. rewrite E2. cbn. rewrite E3. cbn. by rewrite E4. Qed.

Lemma view_none s k d x c i : m_domains s !! k = Some d -> ns_domains s !! d = Some x -> dom_datas x !! c = None -> view s k c i = None.
Proof. intros E1 E2 E3. unfold view. rewrite E1. cbn. rewrite E2. cbn. by rewrite E3. Qed.

(** *** A node set is changed *)

Lemma put_set_effect s k d x c p y y' id v : store_ok s -> m_domains s !! k = Some d -> ns_domains s !! d = Some x -> dom_datas x !! c = Some p ->
  ns_sets s !! p = Some y -> m_cmd y' = m_cmd y -> set_datas y' <> ∅ ->
  (forall i n, set_datas y' !! i = Some n -> m_id n = i) ->
  (forall i, set_datas y' !! i = if i =? id then v else set_datas y !! i) ->
  effect s (set_sets (<[p := y']> (ns_sets s)) s) (fun k' c' => bool_decide (k' = k) && (c' =? c)) id v.
Proof.
  intros O Ek Ed Ec Ep Cm Ne Id Da.
  assert (Lk : forall q, (<[p := y']> (ns_sets s)) !! q = if decide (q = p) then Some y' else ns_sets s !! q).
  { intros q. destruct (decide (q = p)) as [->|N]; [|by rewrite list_lookup_insert_ne]. apply list_lookup_insert_eq. by eapply lookup_lt_Some. }
  constructor; [|done|done|].
  - constructor; cbn.
    + apply O.
    + intros d' x' c' q Ed' Ec'. rewrite Lk. destruct (decide (q = p)) as [->|N]; [|by apply (so_set _ O d' x' c' q)].
      destruct (so_set _ O d' x' c' p Ed' Ec') as (y0 & E0 & C0 & _). exists y'. split; [done|]. split; [congruence|done].
    + intros d1 d2 x1 x2 c1 c2 q. apply O.
    + intros q z i n. rewrite Lk. destruct (decide (q = p)) as [->|N]; [intros [= <-]; apply Id|apply O].
  - intros k' c' i. unfold view. cbn. destruct (m_domains s !! k') as [d'|] eqn:Ek'; cbn.
    2:{ destruct (bool_decide_reflect (k' = k)) as [->|]; [congruence|done]. }
    destruct (ns_domains s !! d') as [x'|] eqn:Ed'; cbn.
    2:{ destruct (bool_decide_reflect (k' = k)) as [->|]; [congruence|done]. }
    destruct (dom_datas x' !! c') as [q|] eqn:Ec'; cbn.
    2:{ destruct (bool_decide_reflect (k' = k)) as [->|]; [|done]. destruct (Z.eqb_spec c' c) as [->|]; [congruence|done]. }
    rewrite Lk. destruct (bool_decide_reflect (k' = k)) as [->|Nk]; cbn.
    + destruct (Z.eqb_spec c' c) as [->|Nc]; cbn.
      * assert (q = p) as -> by congruence. rewrite decide_True by done. cbn. rewrite Da. by rewrite Ep.
      * rewrite decide_False; [done|]. intros ->. apply Nc. assert (x' = x) as -> by congruence.
        destruct (so_set _ O d x c' p) as (y1 & E1 & C1 & _); [congruence|done|]. destruct (so_set _ O d x c p) as (y2 & E2 & C2 & _); [congruence|done|]. congruence.
    + rewrite decide_False; [done|]. intros ->. apply Nk. assert (d' = d) as -> by (by eapply (so_one _ O)).
      destruct (so_domain _ O k d Ek) as (z1 & Z1 & <-). destruct (so_domain _ O k' d Ek') as (z2 & Z2 & <-). congruence.
Qed.

(** *** A node set comes *)

Lemma new_set_effect s k d x c n : store_ok s -> m_domains s !! k = Some d -> ns_domains s !! d = Some x -> dom_datas x !! c = None ->
  effect s (set_domains (<[d := mkNSDomain (m_domain x) (<[c := length (ns_sets s)]> (dom_datas x))]> (ns_domains s))
             (set_sets (ns_sets s ++ [NSNodeSet_add n (mkNSNodeSet c ∅)]) s))
    (fun k' c' => bool_decide (k' = k) && (c' =? c)) (m_id n) (Some n).
Proof.
  intros O Ek Ed Ec. set (p := length (ns_sets s)). set (x' := mkNSDomain (m_domain x) (<[c := p]> (dom_datas x))).
  assert (Ld : forall d', (<[d := x']> (ns_domains s)) !! d' = if decide (d' = d) then Some x' else ns_domains s !! d').
  { intros d'. destruct (decide (d' = d)) as [->|N]; [|by rewrite list_lookup_insert_ne]. apply list_lookup_insert_eq. by eapply lookup_lt_Some. }
  assert (Ls : forall q y, ns_sets s !! q = Some y -> (ns_sets s ++ [NSNodeSet_add n (mkNSNodeSet c ∅)]) !! q = Some y /\ q <> p).
  { intros q y E. pose proof (lookup_lt_Some _ _ _ E). split; [by rewrite lookup_app_l|unfold p; lia]. }
  assert (Lp : (ns_sets s ++ [NSNodeSet_add n (mkNSNodeSet c ∅)]) !! p = Some (NSNodeSet_add n (mkNSNodeSet c ∅))).
  { unfold p. rewrite lookup_app_r, Nat.sub_diag by lia. done. }
  assert (Np : forall d0 x0 c0, ns_domains s !! d0 = Some x0 -> dom_datas x0 !! c0 = Some p -> False).
  { intros d0 x0 c0 E E'. destruct (so_set _ O d0 x0 c0 p E E') as (y & Ey & _). by destruct (Ls p y Ey). }
  constructor; [|done|done|].
  - constructor; cbn.
    + intros k' d' E. rewrite Ld. destruct (so_domain _ O k' d' E) as (x0 & E0 & N0). destruct (decide (d' = d)) as [->|]; [|by exists x0].
      exists x'. split; [done|]. cbn. congruence.
    + intros d' x0 c' q. rewrite Ld. destruct (decide (d' = d)) as [->|Nd].
      * intros [= <-]. cbn. destruct (decide (c' = c)) as [->|Nc].
        -- rewrite lookup_insert_eq. intros [= <-]. rewrite Lp. eexists. split; [done|]. cbn. split; [done|]. apply insert_non_empty.
        -- rewrite lookup_insert_ne by done. intros Eq. destruct (so_set _ O d x c' q Ed Eq) as (y & Ey & Cy & Ny). exists y. by destruct (Ls q y Ey) as [-> _].
      * intros E0 Eq. destruct (so_set _ O d' x0 c' q E0 Eq) as (y & Ey & Cy & Ny). exists y. by destruct (Ls q y Ey) as [-> _].
    + intros d1 d2 x1 x2 c1 c2 q. rewrite !Ld.
      assert (Old : forall d0 x0 c0, ns_domains s !! d0 = Some x0 -> dom_datas x0 !! c0 = Some q -> q <> p) by (intros d0 x0 c0 E E' ->; by eapply Np).
      destruct (decide (d1 = d)) as [->|N1], (decide (d2 = d)) as [->|N2]; intros E1 E2 Q1 Q2; try done.
      * injection E1 as <-. cbn in Q1. specialize (Old _ _ _ E2 Q2). destruct (decide (c1 = c)) as [->|Nc]; [rewrite lookup_insert_eq in Q1; congruence|].
        rewrite lookup_insert_ne in Q1 by done. by apply (so_one _ O d d2 x x2 c1 c2 q).
      * injection E2 as <-. cbn in Q2. specialize (Old _ _ _ E1 Q1). destruct (decide (c2 = c)) as [->|Nc]; [rewrite lookup_insert_eq in Q2; congruence|].
        rewrite lookup_insert_ne in Q2 by done. by apply (so_one _ O d1 d x1 x c1 c2 q).
      * by apply (so_one _ O d1 d2 x1 x2 c1 c2 q).
    + intros q y i m E. destruct (decide (q < length (ns_sets s))%nat) as [L|L].
      * rewrite lookup_app_l in E by done. by apply (so_id _ O q).
      * assert (q = p) as -> by (apply lookup_lt_Some in E; rewrite length_app in E; cbn in E; unfold p; lia).
        rewrite Lp in E. injection E as <-. cbn. intros [[<- <-]|[_ E]]%lookup_insert_Some; [done|by rewrite lookup_empty in E].
  - intros k' c' i. unfold view. cbn. destruct (m_domains s !! k') as [d'|] eqn:Ek'; cbn.
    2:{ destruct (bool_decide_reflect (k' = k)) as [->|]; [congruence|done]. }
    rewrite Ld. destruct (bool_decide_reflect (k' = k)) as [->|Nk]; cbn.
    + assert (d' = d) as -> by congruence. rewrite decide_True by done. cbn. destruct (Z.eqb_spec c' c) as [->|Nc]; cbn.
      * rewrite lookup_insert_eq. cbn. fold p. rewrite Lp. cbn. rewrite Ed. cbn. rewrite Ec. cbn.
        destruct (Z.eqb_spec i (m_id n)) as [->|Ni]; [by rewrite lookup_insert_eq|]. by rewrite lookup_insert_ne, lookup_empty.
      * rewrite lookup_insert_ne by done. rewrite Ed. cbn. destruct (dom_datas x !! c') as [q|] eqn:Eq; [|done]. cbn.
        destruct (so_set _ O d x c' q Ed Eq) as (y & Ey & _). destruct (Ls q y Ey) as [-> _]. by rewrite Ey.
    + rewrite decide_False.
      * destruct (ns_domains s !! d') as [x0|] eqn:E0; [|done]. cbn. destruct (dom_datas x0 !! c') as [q|] eqn:Eq; [|done]. cbn.
        destruct (so_set _ O d' x0 c' q E0 Eq) as (y & Ey & _). destruct (Ls q y Ey) as [-> _]. by rewrite Ey.
      * intros ->. apply Nk. destruct (so_domain _ O k d Ek) as (z1 & Z1 & <-). destruct (so_domain _ O k' d Ek') as (z2 & Z2 & <-). congruence.
Qed.

(** *** A node set goes *)

Lemma drop_set_effect s k d x c p y id : store_ok s -> m_domains s !! k = Some d -> ns_domains s !! d = Some x -> dom_datas x !! c = Some p ->
  ns_sets s !! p = Some y -> delete id (set_datas y) = ∅ ->
  effect s (set_domains (<[d := mkNSDomain (m_domain x) (delete c (dom_datas x))]> (ns_domains s))
             (set_sets (<[p := mkNSNodeSet (m_cmd y) (delete id (set_datas y))]> (ns_sets s)) s))
    (fun k' c' => bool_decide (k' = k) && (c' =? c)) id None.
Proof.
  intros O Ek Ed Ec Ep Em. set (x' := mkNSDomain (m_domain x) (delete c (dom_datas x))). set (y' := mkNSNodeSet (m_cmd y) (delete id (set_datas y))).
  assert (Ld : forall d', (<[d := x']> (ns_domains s)) !! d' = if decide (d' = d) then Some x' else ns_domains s !! d').
  { intros d'. destruct (decide (d' = d)) as [->|N]; [|by rewrite list_lookup_insert_ne]. apply list_lookup_insert_eq. by eapply lookup_lt_Some. }
  assert (Gone : forall d' x0 c' q, (<[d := x']> (ns_domains s)) !! d' = Some x0 -> dom_datas x0 !! c' = Some q ->
    exists x1, ns_domains s !! d' = Some x1 /\ dom_datas x1 !! c' = Some q /\ q <> p).
  { intros d' x0 c' q. rewrite Ld. destruct (decide (d' = d)) as [->|Nd].
    - intros [= <-]. cbn. intros [Nc E]%lookup_delete_Some. exists x. split; [done|]. split; [done|]. intros ->.
      destruct (so_set _ O d x c' p Ed E) as (y1 & E1 & C1 & _). destruct (so_set _ O d x c p Ed Ec) as (y2 & E2 & C2 & _). congruence.
    - intros E E'. exists x0. split; [done|]. split; [done|]. intros ->. apply Nd. by eapply (so_one _ O d' d x0 x c' c p). }
  constructor; [|done|done|].
  - constructor; cbn.
    + intros k' d' E. rewrite Ld. destruct (so_domain _ O k' d' E) as (x0 & E0 & N0). destruct (decide (d' = d)) as [->|]; [|by exists x0].
      exists x'. split; [done|]. cbn. congruence.
    + intros d' x0 c' q E E'. destruct (Gone _ _ _ _ E E') as (x1 & E1 & Q1 & N1). rewrite list_lookup_insert_ne by done. by apply (so_set _ O d' x1).
    + intros d1 d2 x1 x2 c1 c2 q E1 E2 Q1 Q2. destruct (Gone _ _ _ _ E1 Q1) as (z1 & F1 & G1 & _). destruct (Gone _ _ _ _ E2 Q2) as (z2 & F2 & G2 & _).
      by apply (so_one _ O d1 d2 z1 z2 c1 c2 q).
    + intros q z i m E. destruct (decide (q = p)) as [->|N]; [|rewrite list_lookup_insert_ne in E by done; by apply (so_id _ O q)].
      rewrite list_lookup_insert_eq in E by (by eapply lookup_lt_Some). injection E as <-. cbn. rewrite Em, lookup_empty. done.
  - intros k' c' i. unfold view. cbn. destruct (m_domains s !! k') as [d'|] eqn:Ek'; cbn.
    2:{ destruct (bool_decide_reflect (k' = k)) as [->|]; [congruence|done]. }
    destruct ((<[d := x']> (ns_domains s)) !! d') as [x0|] eqn:E0; cbn.
    2:{ rewrite Ld in E0. destruct (decide (d' = d)); [done|]. rewrite E0. cbn. by destruct (_ && _). }
    assert (Other : forall q x1, ns_domains s !! d' = Some x1 -> dom_datas x0 !! c' = Some q -> dom_datas x1 !! c' = Some q ->
      (y0 ← (<[p := y']> (ns_sets s)) !! q; set_datas y0 !! i) = (x2 ← ns_domains s !! d'; q0 ← dom_datas x2 !! c'; y0 ← ns_sets s !! q0; set_datas y0 !! i)).
    { intros q x1 F1 Q0 Q1. destruct (Gone d' x0 c' q E0 Q0) as (_ & _ & _ & N). rewrite list_lookup_insert_ne by done. rewrite F1. cbn. by rewrite Q1. }
    destruct (bool_decide_reflect (k' = k)) as [->|Nk]; cbn.
    + assert (d' = d) as -> by congruence. rewrite Ld, decide_True in E0 by done. injection E0 as <-. destruct (Z.eqb_spec c' c) as [->|Nc]; cbn.
      * rewrite lookup_delete_eq. cbn. destruct (Z.eqb_spec i id) as [->|Ni]; [done|]. rewrite Ed. cbn. rewrite Ec. cbn. rewrite Ep. cbn.
        assert (delete id (set_datas y) !! i = None) as D by (rewrite Em; apply lookup_empty). by rewrite lookup_delete_ne in D.
      * destruct (dom_datas x !! c') as [q|] eqn:Eq.
        -- rewrite lookup_delete_ne, Eq by done. cbn. apply (Other q x Ed); [|done]. cbn. by rewrite lookup_delete_ne.
        -- rewrite lookup_delete_ne, Eq by done. cbn. rewrite Ed. cbn. by rewrite Eq.
    + rewrite Ld in E0. rewrite decide_False in E0.
      * destruct (dom_datas x0 !! c') as [q|] eqn:Eq; cbn; [by apply (Other q x0 E0)|]. rewrite E0. cbn. by rewrite Eq.
      * intros ->. apply Nk. destruct (so_domain _ O k d Ek) as (z1 & Z1 & <-). destruct (so_domain _ O k' d Ek') as (z2 & Z2 & <-). congruence.
Qed.

(** ** The operations *)

Definition at_place (k : name) (c : Z) : name -> Z -> bool := fun k' c' => bool_decide (k' = k) && (c' =? c).

Lemma NSDomain_add_set_ok d p s x y : ns_domains s !! d = Some x -> ns_sets s !! p = Some y ->
  NSDomain_add_set d p s = (Ok tt, set_domains (<[d := mkNSDomain (m_domain x) (<[m_cmd y := p]> (dom_datas x))]> (ns_domains s)) s).
Proof.
  intros Ed Ep. unfold NSDomain_add_set. rewrite (sbind_ok _ _ _ _ _ (on_set_ok _ _ _ _ Ep)). cbn [fst snd].
  rewrite set_sets_id by done. by rewrite (on_domain_ok _ _ _ _ Ed).
Qed.

Lemma NSDomain_add_effect s k d c n : store_ok s -> m_domains s !! k = Some d ->
  exists s', NSDomain_add d c n s = (Ok tt, s') /\ effect s s' (at_place k c) (m_id n) (Some n).
Proof.
  intros O Ek. destruct (so_domain _ O k d Ek) as (x & Ed & _). unfold NSDomain_add. rewrite (sbind_ok _ _ _ _ _ (NSDomain_get_ok d c s x Ed)).
  destruct (dom_datas x !! c) as [p|] eqn:Ec.
  - destruct (so_set _ O d x c p Ed Ec) as (y & Ep & Cy & _). rewrite (sbind_ok (sret p) _ s p s eq_refl). rewrite (on_set_ok _ _ _ _ Ep).
    eexists. split; [reflexivity|]. cbn. apply (put_set_effect s k d x c p y); try done.
    + cbn. apply insert_non_empty.
    + intros i m. cbn. intros [[<- <-]|[_ E]]%lookup_insert_Some; [done|by apply (so_id _ O p y)].
    + intros i. cbn. destruct (Z.eqb_spec i (m_id n)) as [->|N]; [by rewrite lookup_insert_eq|by rewrite lookup_insert_ne].
  - eexists. split; [|by apply (new_set_effect s k d x c n)].
    set (p := length (ns_sets s)). set (s1 := set_sets (ns_sets s ++ [mkNSNodeSet c ∅]) s).
    assert (Lp : ns_sets s1 !! p = Some (mkNSNodeSet c ∅)) by (unfold p; cbn; rewrite lookup_app_r, Nat.sub_diag by lia; done).
    set (s2 := set_domains (<[d := mkNSDomain (m_domain x) (<[c := p]> (dom_datas x))]> (ns_domains s)) s1).
    rewrite (sbind_ok _ _ s p s2).
    2:{ rewrite (sbind_ok (new_NSNodeSet c) _ s p s1 eq_refl). rewrite (sbind_ok _ _ _ _ _ (NSDomain_add_set_ok d p s1 x _ Ed Lp)). done. }
    rewrite (on_set_ok p _ s2 _ Lp). unfold s2, s1, p. cbn. rewrite insert_app_r_alt, Nat.sub_diag by lia. done.
Qed.

Lemma NSDomain_del_effect s k d c id : store_ok s -> m_domains s !! k = Some d ->
  exists s' o, NSDomain_del d c id s = (Ok o, s') /\ effect s s' (at_place k c) id None.
Proof.
  intros O Ek. destruct (so_domain _ O k d Ek) as (x & Ed & _). unfold NSDomain_del. rewrite (sbind_ok _ _ _ _ _ (NSDomain_get_ok d c s x Ed)).
  destruct (dom_datas x !! c) as [p|] eqn:Ec.
  - destruct (so_set _ O d x c p Ed Ec) as (y & Ep & Cy & _). rewrite (sbind_ok _ _ _ _ _ (on_set_ok _ _ _ _ Ep)). cbn [fst snd NSNodeSet_del].
    set (y' := mkNSNodeSet (m_cmd y) (delete id (set_datas y))).
    assert (Lp : (<[p := y']> (ns_sets s)) !! p = Some y') by (apply list_lookup_insert_eq; by eapply lookup_lt_Some).
    rewrite (sbind_ok _ _ (set_sets (<[p := y']> (ns_sets s)) s) (NSNodeSet_size y') (set_sets (<[p := y']> (ns_sets s)) s)).
    2:{ rewrite (on_set_ok p _ (set_sets (<[p := y']> (ns_sets s)) s) y' Lp). cbn. by rewrite list_insert_insert_eq. }
    unfold NSNodeSet_size. destruct (Z.eqb_spec (Z.of_nat (size (set_datas y'))) 0) as [Ez|Nz].
    + assert (Em : delete id (set_datas y) = ∅) by (apply map_size_empty_iff; cbn in Ez; lia).
      eexists _, _. split; [|by apply (drop_set_effect s k d x c p y id)]. unfold sbind, NSDomain_del_set, on_domain, sret. cbn. by rewrite Ed.
    + eexists _, _. split; [reflexivity|]. apply (put_set_effect s k d x c p y y'); try done.
      * cbn. intros B. apply Nz. cbn. by rewrite B.
      * intros i m. cbn. intros [_ E]%lookup_delete_Some. by apply (so_id _ O p y).
      * intros i. cbn. destruct (Z.eqb_spec i id) as [->|N]; [by rewrite lookup_delete_eq|by rewrite lookup_delete_ne].
  - eexists _, _. split; [reflexivity|]. constructor; try done. intros k' c' i. unfold at_place.
    destruct (bool_decide_reflect (k' = k)) as [->|]; [|done]. destruct (Z.eqb_spec c' c) as [->|]; [|done]. destruct (i =? id); [|done].
    by apply (view_none s k d x).
Qed.

Lemma existsb_in {A} (f : A -> bool) l : existsb f l = true <-> exists a, a ∈ l /\ f a = true.
Proof. rewrite existsb_exists. split; intros (a & H & E); exists a; split; try done; by apply list_elem_of_In. Qed.

(** The places of a set of commands of a domain. *)
Definition in_cmds (k : name) (cs : gset Z) : name -> Z -> bool := fun k' c => bool_decide (k' = k) && bool_decide (c ∈ cs).

Lemma in_cmds_list k cs : forall k' c, existsb (fun a => at_place k a k' c) (elements cs) = in_cmds k cs k' c.
Proof.
  intros k' c. unfold in_cmds, at_place. destruct (bool_decide_reflect (k' = k)) as [->|N]; cbn.
  - apply eq_true_iff_eq. rewrite existsb_in, bool_decide_eq_true. split.
    + intros (a & Ha & E). replace c with a by lia. by apply elem_of_elements.
    + intros H. exists c. split; [by apply elem_of_elements|lia].
  - induction (elements cs); done.
Qed.

Lemma sbind_sret {S A} (m : st S A) s a s' : m s = (Ok a, s') -> (let* _ := m in sret tt) s = (Ok tt, s').
Proof. intros E. by rewrite (sbind_ok _ _ _ _ _ E). Qed.

Lemma NSDomainSet_get_ok k s : NSDomainSet_get k s = (Ok (m_domains s !! k), s).
Proof. done. Qed.

Lemma remove_cmds_effect s n k cs : store_ok s ->
  exists s', remove_cmds n k cs s = (Ok tt, s') /\ effect s s' (in_cmds k cs) (m_id n) None.
Proof.
  intros O. unfold remove_cmds. rewrite (sbind_ok _ _ _ _ _ (NSDomainSet_get_ok k s)). destruct (m_domains s !! k) as [d|] eqn:Ek.
  - destruct (each_effect (fun c => let* _ := NSDomain_del d c (m_id n) in sret tt) (fun a => at_place k a) (m_id n) None (fun s => m_domains s !! k = Some d) (elements cs)) with (s := s)
      as (s' & E & F); [| |done|done|].
    + intros s1 s2 t Es Fe. eapply lookup_weaken; [exact Es|apply Fe].
    + intros c s1 _ O1 E1. destruct (NSDomain_del_effect s1 k d c (m_id n) O1 E1) as (s2 & o & E & F). exists s2. split; [by eapply sbind_sret|done].
    + exists s'. split; [done|]. eapply effect_ext; [|exact F]. intros. apply in_cmds_list.
  - exists s. split; [done|]. constructor; try done. intros k' c i. unfold in_cmds. destruct (bool_decide_reflect (k' = k)) as [->|]; [|done].
    unfold view. rewrite Ek. cbn. by destruct (_ && _).
Qed.

(** A domain without node sets comes. *)
Lemma new_domain_effect s k id v : store_ok s -> m_domains s !! k = None ->
  effect s (set_m_domains (<[k := length (ns_domains s)]> (m_domains s)) (set_domains (ns_domains s ++ [mkNSDomain k ∅]) s)) (fun _ _ => false) id v.
Proof.
  intros O Ek. set (d := length (ns_domains s)).
  assert (Ls : forall q y, ns_domains s !! q = Some y -> (ns_domains s ++ [mkNSDomain k ∅]) !! q = Some y).
  { intros q y E. rewrite lookup_app_l; [done|]. by eapply lookup_lt_Some. }
  assert (Lp : (ns_domains s ++ [mkNSDomain k ∅]) !! d = Some (mkNSDomain k ∅)) by (unfold d; rewrite lookup_app_r, Nat.sub_diag by lia; done).
  assert (Old : forall q y c p, (ns_domains s ++ [mkNSDomain k ∅]) !! q = Some y -> dom_datas y !! c = Some p -> ns_domains s !! q = Some y).
  { intros q y c p E E'. destruct (decide (q < length (ns_domains s))%nat) as [L|L]; [by rewrite lookup_app_l in E|].
    assert (q = d) as -> by (apply lookup_lt_Some in E; rewrite length_app in E; cbn in E; unfold d; lia). rewrite Lp in E. injection E as <-. cbn in E'. by rewrite lookup_empty in E'. }
  constructor; [|done|by apply insert_subseteq|].
  - constructor; cbn.
    + intros k' d'. intros [[<- <-]|[N E]]%lookup_insert_Some; [by exists (mkNSDomain k ∅)|]. destruct (so_domain _ O k' d' E) as (x & Ex & Nx). exists x. by rewrite (Ls _ _ Ex).
    + intros d' x c p E E'. apply (so_set _ O d' x); [by eapply Old|done].
    + intros d1 d2 x1 x2 c1 c2 p E1 E2 Q1 Q2. apply (so_one _ O d1 d2 x1 x2 c1 c2 p); try done; by eapply Old.
    + apply O.
  - intros k' c i. unfold view. cbn. destruct (decide (k' = k)) as [->|N].
    + rewrite lookup_insert_eq, Ek. cbn. by rewrite Lp.
    + rewrite lookup_insert_ne by done. destruct (m_domains s !! k') as [d'|] eqn:E; [|done]. cbn.
      destruct (so_domain _ O k' d' E) as (x & Ex & Nx). by rewrite (Ls _ _ Ex), Ex.
Qed.

Lemma insert_cmds_effect s n k cs : store_ok s ->
  exists s', insert_cmds n k cs s = (Ok tt, s') /\ effect s s' (in_cmds k cs) (m_id n) (Some n).
Proof.
  intros O. unfold insert_cmds. rewrite (sbind_ok _ _ _ _ _ (NSDomainSet_get_ok k s)).
  assert (exists d s1, (match m_domains s !! k with
            | Some d => sret d
            | None => let* d := new_NSDomain k in let* _ := NSDomainSet_add d in sret d
            end) s = (Ok d, s1) /\ m_domains s1 !! k = Some d /\ effect s s1 (fun _ _ => false) (m_id n) (Some n)) as (d & s1 & E1 & Ed & F1).
  { destruct (m_domains s !! k) as [d|] eqn:Ek; [exists d, s; split; [done|]; split; [done|by apply effect_refl]|].
    eexists _, _. split; [|split; [|by apply (new_domain_effect s k)]]; [|apply lookup_insert_eq].
    set (s1 := set_domains (ns_domains s ++ [mkNSDomain k ∅]) s). rewrite (sbind_ok (new_NSDomain k) _ s (length (ns_domains s)) s1 eq_refl).
    assert (Lp : ns_domains s1 !! length (ns_domains s) = Some (mkNSDomain k ∅)) by (cbn; rewrite lookup_app_r, Nat.sub_diag by lia; done).
    unfold NSDomainSet_add. rewrite (sbind_ok _ _ s1 tt (set_m_domains (<[k := length (ns_domains s)]> (m_domains s)) s1)); [done|].
    rewrite (sbind_ok _ _ _ _ _ (on_domain_ok _ _ _ _ Lp)). cbn [fst snd]. by rewrite set_domains_id. }
  rewrite (sbind_ok _ _ _ _ _ E1).
  destruct (each_effect (fun c => NSDomain_add d c n) (fun a => at_place k a) (m_id n) (Some n) (fun s => m_domains s !! k = Some d) (elements cs)) with (s := s1)
      as (s' & E & F); [| |apply F1|done|].
  + intros s2 s3 t Es Fe. eapply lookup_weaken; [exact Es|apply Fe].
  + intros c s2 _ O2 E2. by apply NSDomain_add_effect.
  + exists s'. split; [done|]. eapply effect_ext; [|by eapply effect_trans]. intros. cbn. apply in_cmds_list.
Qed.

(** The places of a map. *)
Definition in_map (m : gmap name (gset Z)) : name -> Z -> bool := fun k c => bool_decide (c ∈ default ∅ (m !! k)).

Lemma each_domain_effect (f : name -> gset Z -> st NameServer unit) (m : gmap name (gset Z)) id v s :
  (forall k cs s, store_ok s -> exists s', f k cs s = (Ok tt, s') /\ effect s s' (in_cmds k cs) id v) ->
  store_ok s -> exists s', each_domain f m s = (Ok tt, s') /\ effect s s' (in_map m) id v.
Proof.
  intros H O. unfold each_domain.
  destruct (each_effect (fun i => f (fst i) (snd i)) (fun i => in_cmds (fst i) (snd i)) id v (fun _ => True) (map_to_list m)) with (s := s) as (s' & E & F); [done| |done|done|].
  - intros [k cs] s1 _ O1 _. by apply H.
  - exists s'. split; [done|]. eapply effect_ext; [|exact F]. intros k c. apply eq_true_iff_eq. unfold in_map. rewrite existsb_in, bool_decide_eq_true.
    split.
    + intros ([k' cs] & Hi & E'). apply elem_of_map_to_list in Hi. unfold in_cmds in E'. cbn in E'. apply andb_true_iff in E' as [->%bool_decide_eq_true Hc%bool_decide_eq_true].
      by rewrite Hi.
    + intros Hc. destruct (m !! k) as [cs|] eqn:Em; [|by apply elem_of_empty in Hc]. exists (k, cs). split; [by apply elem_of_map_to_list|].
      unfold in_cmds. cbn. by rewrite !bool_decide_true.
Qed.

Lemma with_node_effect m o f t id v s : store_ok s -> (m <> ∅ -> exists x, o = Some x /\ exists s', f (m_node x) s = (Ok tt, s') /\ effect s s' t id v) ->
  (m = ∅ -> forall k c, t k c = false) ->
  exists s', with_node m o f s = (Ok tt, s') /\ effect s s' t id v.
Proof.
  intros O H H0. unfold with_node. destruct (decide (m = ∅)) as [->|N].
  - exists s. split; [done|]. eapply effect_ext; [|by apply effect_refl]. intros. by rewrite H0.
  - destruct (H N) as (x & -> & s' & E & F). exists s'. split; [|done]. by rewrite (sbind_ok (node_of (Some x)) _ s (m_node x) s eq_refl).
Qed.

(** ** Sessions and tables *)

Lemma in_only a b k c : in_map (only_in a b) k c = in_map a k c && negb (in_map b k c).
Proof.
  unfold in_map, only_in. rewrite map_lookup_imap. destruct (a !! k) as [x|]; cbn; [|by rewrite bool_decide_false by set_solver].
  destruct (b !! k) as [y|]; cbn; [|rewrite (bool_decide_false (c ∈ ∅)) by set_solver; by rewrite andb_true_r].
  case_decide as D; cbn; apply eq_true_iff_eq; rewrite andb_true_iff, negb_true_iff, !bool_decide_eq_true, bool_decide_eq_false; set_solver.
Qed.

Lemma in_in_both a b k c : in_map (in_both a b) k c = in_map a k c && in_map b k c.
Proof.
  unfold in_map, in_both. rewrite map_lookup_imap. destruct (a !! k) as [x|]; cbn; [|by rewrite bool_decide_false by set_solver].
  destruct (b !! k) as [y|]; cbn; [|rewrite !(bool_decide_false (c ∈ ∅)) by set_solver; by rewrite andb_false_r].
  case_decide as D; cbn; apply eq_true_iff_eq; rewrite andb_true_iff, !bool_decide_eq_true; set_solver.
Qed.

Lemma in_map_empty k c : in_map ∅ k c = false.
Proof. unfold in_map. rewrite lookup_empty. apply bool_decide_false. set_solver. Qed.

Definition id_of (o : option NSClientInfo) : Z := match o with Some x => m_id (m_node x) | None => 0 end.

(** The pass over the domains of a map with the node of a session. *)
Lemma pass_effect (f : NSNode -> name -> gset Z -> st NameServer unit) (v : NSNode -> option NSNode) m o s :
  (forall n k cs s, store_ok s -> exists s', f n k cs s = (Ok tt, s') /\ effect s s' (in_cmds k cs) (m_id n) (v n)) ->
  (o = None -> m = ∅) -> store_ok s ->
  exists s', with_node m o (fun n => each_domain (f n) m) s = (Ok tt, s') /\
    effect s s' (in_map m) (id_of o) (x ← o; v (m_node x)).
Proof.
  intros H Hm O. apply with_node_effect; [done| |intros E k c; by rewrite E, in_map_empty]. intros N.
  destruct o as [x|]; [|by exfalso; apply N, Hm]. exists x. split; [done|]. cbn. apply (each_domain_effect (f (m_node x))); [|done]. intros. by apply H.
Qed.

Lemma only_none a o : o = None -> only_in (cmds_of o) a = ∅.
Proof. intros ->. done. Qed.

Lemma both_none a o : o = None -> in_both (cmds_of o) a = ∅.
Proof. intros ->. done. Qed.

Lemma both_none_r a o : o = None -> in_both a (cmds_of o) = ∅.
Proof.
  intros ->. apply map_eq. intros k. unfold in_both. rewrite map_lookup_imap, lookup_empty. destruct (a !! k); cbn; [|done]. by rewrite lookup_empty.
Qed.

(** Whether a command that both maps have gets the new node. *)
Definition reweighted (o n : option NSClientInfo) : bool :=
  match o, n with Some o, Some n => negb (m_weight (m_node o) =? m_weight (m_node n)) | _, _ => false end.

Definition session_after (rs : nat) (n : option NSClientInfo) (s : NameServer) : gmap nat NSClientInfo :=
  match n with Some x => <[rs := x]> (m_sessions s) | None => delete rs (m_sessions s) end.

Lemma set_session_view s (connected : bool) rs new_value : store_ok s ->
  let o := m_sessions s !! rs in let n := if connected then new_value else None in
  exists s', set_session connected rs new_value s = (Ok tt, s') /\ store_ok s' /\ m_sessions s' = session_after rs n s /\
    forall k c i, view s' k c i =
      if in_map (cmds_of n) k c && (negb (in_map (cmds_of o) k c) || reweighted o n) && (i =? id_of n) then m_node <$> n
      else if in_map (cmds_of o) k c && negb (in_map (cmds_of n) k c) && (i =? id_of o) then None
      else view s k c i.
Proof.
  intros O. cbn zeta. set (o := m_sessions s !! rs). set (n := if connected then new_value else None). unfold set_session, diff. fold n.
  rewrite (sbind_ok (get_session rs) _ s o s eq_refl).
  destruct (pass_effect remove_cmds (fun _ => None) (only_in (cmds_of o) (cmds_of n)) o s) as (s1 & E1 & [O1 S1 _ V1]);
    [intros; by apply remove_cmds_effect|apply only_none|done|]. rewrite (sbind_ok _ _ _ _ _ E1).
  destruct (pass_effect insert_cmds Some (only_in (cmds_of n) (cmds_of o)) n s1) as (s2 & E2 & [O2 S2 _ V2]);
    [intros; by apply insert_cmds_effect|apply only_none|done|]. rewrite (sbind_ok _ _ _ _ _ E2).
  set (t3 := fun k c => in_map (in_both (cmds_of o) (cmds_of n)) k c && reweighted o n).
  destruct (with_node_effect (in_both (cmds_of o) (cmds_of n)) o
     (fun o' => with_node (in_both (cmds_of o) (cmds_of n)) n
        (fun n' => if m_weight o' =? m_weight n' then sret tt else each_domain (insert_cmds n') (in_both (cmds_of o) (cmds_of n))))
     t3 (id_of n) (m_node <$> n) s2 O2) as (s3 & E3 & [O3 S3 _ V3]).
  { intros N. destruct o as [xo|] eqn:Eo; [|by exfalso; apply N, both_none]. exists xo. split; [done|].
    apply with_node_effect; [done| |intros Em k c; unfold t3; by rewrite Em, in_map_empty]. intros _.
    destruct n as [xn|] eqn:En; [|by exfalso; apply N, both_none_r]. exists xn. split; [done|].
    unfold t3, reweighted. destruct (m_weight (m_node xo) =? m_weight (m_node xn)).
    - exists s2. split; [done|]. eapply effect_ext; [|by apply effect_refl]. intros. cbn. by rewrite andb_false_r.
    - destruct (each_domain_effect (insert_cmds (m_node xn)) (in_both (cmds_of (Some xo)) (cmds_of (Some xn))) (m_id (m_node xn)) (Some (m_node xn)) s2) as (s3 & E & F);
        [intros; by apply insert_cmds_effect|done|]. exists s3. split; [done|]. eapply effect_ext; [|exact F]. intros. cbn. by rewrite andb_true_r. }
  { intros Em k c. unfold t3. fold o. by rewrite Em, in_map_empty. }
  rewrite (sbind_ok _ _ _ _ _ E3). eexists. split; [reflexivity|]. split; [|split].
  - by destruct O3; constructor.
  - cbn. unfold session_after. by rewrite S3, S2, S1.
  - intros k c i. change (view _ k c i) with (view s3 k c i) at 1. rewrite V3, V2, V1. unfold t3. rewrite !in_only, in_in_both.
    clearbody o n. clear. destruct (in_map (cmds_of o) k c), (in_map (cmds_of n) k c), (reweighted o n), (i =? id_of n), (i =? id_of o), o, n; done.
Qed.

(** ** What is registered *)

Definition registered (s : NameServer) (k : name) (c i w : Z) : Prop :=
  exists rs x, m_sessions s !! rs = Some x /\ in_map (m_domain2cmds x) k c = true /\ m_id (m_node x) = i /\ m_weight (m_node x) = w.

Record ns_inv (s : NameServer) : Prop := {
  ni_store : store_ok s;
  ni_agree k c i w : m_weight <$> view s k c i = Some w <-> registered s k c i w;
  ni_alone rs1 rs2 x1 x2 : m_sessions s !! rs1 = Some x1 -> m_sessions s !! rs2 = Some x2 ->
    m_id (m_node x1) = m_id (m_node x2) -> rs1 = rs2;
}.

(** No other session has the node of [n]. *)
Definition alone (s : NameServer) (rs : nat) (n : option NSClientInfo) : Prop :=
  forall rs' x y, n = Some y -> rs' <> rs -> m_sessions s !! rs' = Some x -> m_id (m_node x) <> m_id (m_node y).

Lemma session_after_at rs n s rs' : session_after rs n s !! rs' = if decide (rs' = rs) then n else m_sessions s !! rs'.
Proof.
  unfold session_after. destruct n as [x|], (decide (rs' = rs)) as [->|N]; by rewrite ?lookup_insert_eq, ?lookup_insert_ne, ?lookup_delete_eq, ?lookup_delete_ne.
Qed.

Lemma registered_after s s' rs n k c i w : m_sessions s' = session_after rs n s ->
  registered s' k c i w <->
    (in_map (cmds_of n) k c = true /\ exists y, n = Some y /\ m_id (m_node y) = i /\ m_weight (m_node y) = w) \/
    (exists rs' x, rs' <> rs /\ m_sessions s !! rs' = Some x /\ in_map (m_domain2cmds x) k c = true /\ m_id (m_node x) = i /\ m_weight (m_node x) = w).
Proof.
  intros E. unfold registered. rewrite E. split.
  - intros (rs' & x & Ex & H). rewrite session_after_at in Ex. destruct (decide (rs' = rs)) as [->|N]; [left|right; eauto].
    subst n. destruct H as (H1 & H2 & H3). cbn. eauto.
  - intros [(H & y & -> & H2)|(rs' & x & N & Ex & H)].
    + exists rs, y. rewrite session_after_at, decide_True by done. done.
    + exists rs', x. rewrite session_after_at, decide_False by done. done.
Qed.

Lemma registered_split s rs k c i w :
  registered s k c i w <->
    (in_map (cmds_of (m_sessions s !! rs)) k c = true /\ exists y, m_sessions s !! rs = Some y /\ m_id (m_node y) = i /\ m_weight (m_node y) = w) \/
    (exists rs' x, rs' <> rs /\ m_sessions s !! rs' = Some x /\ in_map (m_domain2cmds x) k c = true /\ m_id (m_node x) = i /\ m_weight (m_node x) = w).
Proof.
  apply registered_after. apply map_eq. intros rs'. rewrite session_after_at. by destruct (decide (rs' = rs)) as [->|].
Qed.

Lemma set_session_inv s connected rs new_value : ns_inv s -> alone s rs new_value ->
  (forall x y, m_sessions s !! rs = Some x -> new_value = Some y -> m_id (m_node x) = m_id (m_node y)) ->
  exists s', set_session connected rs new_value s = (Ok tt, s') /\ ns_inv s'.
Proof.
  intros [O Ag Al] An Same. destruct (set_session_view s connected rs new_value O) as (s' & E & O' & S' & V'). exists s'. split; [done|].
  set (n := if connected then new_value else None) in *. set (o := m_sessions s !! rs) in *.
  assert (Hn : forall y, n = Some y -> new_value = Some y) by (unfold n; by destruct connected).
  constructor; [done| |].
  - intros k c i w. rewrite V', (registered_after s s' rs n k c i w S'). pose proof (Ag k c i w) as A. rewrite (registered_split s rs) in A. fold o in A.
    assert (Others : forall rs' x y, rs' <> rs -> m_sessions s !! rs' = Some x -> (o = Some y \/ n = Some y) -> m_id (m_node x) <> m_id (m_node y)).
    { intros rs' x y N Ex [Ey|Ey] B; [|by apply (An rs' x y (Hn y Ey) N Ex)]. by apply N, (Al rs' rs x y). }
    assert (SameN : forall x y, o = Some x -> n = Some y -> m_id (m_node x) = m_id (m_node y)) by (intros x y Ex Ey; apply (Same x y Ex), Hn, Ey).
    clear E S' V' Same An Al Ag O O' Hn. clearbody o n. destruct n as [y|]; cbn [cmds_of id_of reweighted fmap option_fmap option_map] in *.
    + destruct (in_map (m_domain2cmds y) k c) eqn:In; cbn [andb].
      * destruct (Z.eqb_spec i (m_id (m_node y))) as [->|Ni]; cbn [andb].
        -- rewrite andb_true_r. destruct (negb (in_map (cmds_of o) k c) || reweighted o (Some y)) eqn:Ch; cbn [andb negb].
           ++ split; [intros [= <-]; left; eauto|]. intros [(_ & y' & [= <-] & _ & <-)|(rs' & x & N & Ex & _ & Ei & _)]; [done|].
              exfalso. by apply (Others rs' x y N Ex (or_intror eq_refl)).
           ++ apply orb_false_iff in Ch as [Io%negb_false_iff Rw]. rewrite Io. cbn [negb andb]. rewrite A. destruct o as [x|]; [|by rewrite in_map_empty in Io].
              cbn in Rw. apply negb_false_iff, Z.eqb_eq in Rw. pose proof (SameN x y eq_refl eq_refl) as Sm.
              split; (intros [(Hi & z & [= <-] & Ei & Ew)|R]; [left|by right]); split; try done; eexists; (split; [done|]); split; congruence.
        -- rewrite andb_false_r. cbn [andb negb]. rewrite andb_false_r. rewrite A. split; (intros [(Hi & z & Ez & Ei & Ew)|R]; [|by right]).
           ++ exfalso. apply Ni. rewrite <- Ei. by apply SameN.
           ++ exfalso. apply Ni. congruence.
      * cbn [negb]. rewrite andb_true_r. destruct (in_map (cmds_of o) k c) eqn:Io; cbn [andb].
        -- destruct o as [x|]; [|by rewrite in_map_empty in Io]. cbn [id_of]. destruct (Z.eqb_spec i (m_id (m_node x))) as [->|Ni].
           ++ split; [done|]. intros [[B _]|(rs' & x' & N & Ex & _ & Ei & _)]; [done|]. exfalso. by apply (Others rs' x' x N Ex (or_introl eq_refl)).
           ++ rewrite A. split; (intros [(Hi & z & Ez & Ei & Ew)|R]; [|by right]); [|done]. exfalso. apply Ni. congruence.
        -- rewrite A. split; (intros [[B _]|R]; [done|by right]).
    + rewrite in_map_empty. cbn [andb negb]. rewrite andb_true_r. destruct (in_map (cmds_of o) k c) eqn:Io; cbn [andb].
      * destruct o as [x|]; [|by rewrite in_map_empty in Io]. cbn [id_of]. destruct (Z.eqb_spec i (m_id (m_node x))) as [->|Ni].
        -- split; [done|]. intros [[B _]|(rs' & x' & N & Ex & _ & Ei & _)]; [done|]. exfalso. by apply (Others rs' x' x N Ex (or_introl eq_refl)).
        -- rewrite A. split; (intros [(Hi & z & Ez & Ei & Ew)|R]; [|by right]); [|done]. exfalso. apply Ni. congruence.
      * rewrite A. split; (intros [[B _]|R]; [done|by right]).
  - intros rs1 rs2 x1 x2. rewrite S', !session_after_at. destruct (decide (rs1 = rs)) as [->|N1], (decide (rs2 = rs)) as [->|N2]; intros E1 E2 Ei; try done.
    + exfalso. by apply (An rs2 x2 x1 (Hn _ E1) N2 E2).
    + exfalso. by apply (An rs1 x1 x2 (Hn _ E2) N1 E1).
    + by apply (Al rs1 rs2 x1 x2).
Qed.

(** ** Requests *)

Section requests.
Context (inet_addr : name -> Z).

(** What is registered has the node that the session had. *)
Lemma register_infos_id old infos : forall new y, register_infos inet_addr old infos new = Some (Some y) ->
  (new <> None -> same_id old (m_node (default y new)) = true) -> same_id old (m_node y) = true.
Proof.
  induction infos as [|info infos IH]; intros new y; cbn [register_infos].
  - intros [= ->] H. by apply H.
  - destruct (checked_node inet_addr info) as [[domain n]|]; [|done]. destruct (same_id old n && same_id new n) eqn:Sm; [|done].
    apply andb_true_iff in Sm as [So Sn]. intros E H. eapply IH; [exact E|]. intros _. cbn. destruct new as [x|]; [by apply H|done].
Qed.

Lemma handleRegister_inv rr connected rs s : ns_inv s ->
  (forall infos new, rr = Some infos -> register_infos inet_addr (m_sessions s !! rs) infos None = Some new -> alone s rs new) ->
  exists r s', handleRegister inet_addr rr connected rs s = (Ok r, s') /\ ns_inv s'.
Proof.
  intros I H. unfold handleRegister. destruct rr as [infos|]; [|by exists (false, no_reply), s].
  rewrite (sbind_ok (get_session rs) _ s (m_sessions s !! rs) s eq_refl).
  destruct (register_infos inet_addr (m_sessions s !! rs) infos None) as [new|] eqn:E; [|by exists (false, no_reply), s].
  destruct (set_session_inv s connected rs new I) as (s' & E' & I').
  - by eapply H.
  - intros x y Ex ->. pose proof (register_infos_id _ _ _ _ E) as Sm. rewrite Ex in Sm. cbn in Sm. apply Z.eqb_eq, Sm. done.
  - exists (true, mkReply 0 (bstr "ok") None), s'. split; [|done]. by rewrite (sbind_ok _ _ _ _ _ E').
Qed.

(** *** Queries *)

Lemma find_domains_ok names s : forall ds, exists ds', find_domains names ds s = (Ok ds', s) /\
  forall d, d ∈ ds' <-> d ∈ ds \/ exists k, k ∈ names /\ m_domains s !! k = Some d.
Proof.
  induction names as [|k names IH]; intros ds; cbn [find_domains].
  - exists ds. split; [done|]. intros d. split; [by left|]. intros [H|(k & B & _)]; [done|by apply elem_of_nil in B].
  - rewrite (sbind_ok _ _ _ _ _ (NSDomainSet_get_ok k s)). destruct (IH (match m_domains s !! k with Some d => {[d]} ∪ ds | None => ds end)) as (ds' & E & H).
    exists ds'. split; [done|]. intros d. rewrite H. setoid_rewrite elem_of_cons. destruct (m_domains s !! k) as [d0|] eqn:Ek.
    + rewrite elem_of_union, elem_of_singleton. split.
      * intros [[->|?]|(k' & ? & ?)]; [right; eauto|by left|right; eauto].
      * intros [?|(k' & [->|?] & ?)]; [by left; right|left; left; congruence|right; eauto].
    + split; [intros [?|(k' & ? & ?)]; [by left|right; eauto]|]. intros [?|(k' & [->|?] & ?)]; [by left|congruence|right; eauto].
Qed.

Lemma in_key_order_in {A} (m : gmap Z A) c a : (c, a) ∈ in_key_order m <-> m !! c = Some a.
Proof. unfold in_key_order. rewrite merge_sort_Permutation. apply elem_of_map_to_list. Qed.

Lemma in_key_order_nodup {A} (m : gmap Z A) : NoDup (map fst (in_key_order m)).
Proof. unfold in_key_order. rewrite merge_sort_Permutation. apply NoDup_fst_map_to_list. Qed.

(** The answer about a domain. *)
Definition answers (s : NameServer) (x : NSDomain) (infos : list NodeInfo) : Prop :=
  NoDup (map ni_cmd infos) /\
  (forall info, info ∈ infos -> ni_domain info = m_domain x) /\
  (forall c n, (exists info, info ∈ infos /\ ni_cmd info = c /\ n ∈ ni_nodes info) <->
     exists p y i, dom_datas x !! c = Some p /\ ns_sets s !! p = Some y /\ set_datas y !! i = Some n).

Lemma list_sets_ok s d x : store_ok s -> ns_domains s !! d = Some x ->
  exists infos, list_sets (m_domain x) (map snd (in_key_order (dom_datas x))) s = (Ok infos, s) /\ answers s x infos.
Proof.
  intros O Ed.
  assert (G : forall l, (forall c p, (c, p) ∈ l -> dom_datas x !! c = Some p) -> exists infos,
    list_sets (m_domain x) (map snd l) s = (Ok infos, s) /\ map ni_cmd infos = map fst l /\
    (forall info, info ∈ infos -> ni_domain info = m_domain x) /\
    (forall c n, (exists info, info ∈ infos /\ ni_cmd info = c /\ n ∈ ni_nodes info) <->
       exists p y i, (c, p) ∈ l /\ ns_sets s !! p = Some y /\ set_datas y !! i = Some n)).
  { induction l as [|[c p] l IH]; intros H; cbn [map list_sets fst snd].
    - exists []. repeat (split; [done|]). split; [by intros info B%elem_of_nil|]. intros c n. split; [by intros (info & B%elem_of_nil & _)|by intros (p & y & i & B%elem_of_nil & _)].
    - destruct IH as (infos & E & Em & Dm & Nm); [intros c' p' H'; apply H; by right|].
      destruct (so_set _ O d x c p Ed) as (y & Ep & Cy & _); [apply H; left|].
      rewrite (sbind_ok _ _ s (mkNodeInfo (m_domain x) (m_cmd y) (NSNodeSet_listAll y)) s) by (rewrite (on_set_ok _ _ _ _ Ep); cbn; by rewrite set_sets_id).
      rewrite (sbind_ok _ _ _ _ _ E). eexists. split; [reflexivity|]. split; [cbn; by rewrite Em, Cy|]. split; [by intros info [->|?]%elem_of_cons; [|apply Dm]|].
      intros c' n. setoid_rewrite elem_of_cons. split.
      + intros (info & [->|Hi] & Ec & Hn).
        * cbn in Ec, Hn. unfold NSNodeSet_listAll in Hn. apply list_elem_of_In, in_map_iff in Hn as ([i m] & <- & Hm%list_elem_of_In). apply in_key_order_in in Hm.
          exists p, y, i. split; [left; congruence|done].
        * destruct (proj1 (Nm c' n)) as (p' & y' & i & Hp & ? & ?); [eauto|]. exists p', y', i. split; [by right|done].
      + intros (p' & y' & i & [[= -> ->]|Hp] & Ey & Ei).
        * assert (y' = y) as -> by congruence. eexists. split; [by left|]. cbn. split; [done|]. apply list_elem_of_In, in_map_iff. exists (i, n). split; [done|].
          by apply list_elem_of_In, in_key_order_in.
        * destruct (proj2 (Nm c' n)) as (info & ? & ? & ?); [eauto 10|]. exists info. split; [by right|done]. }
  destruct (G (in_key_order (dom_datas x))) as (infos & E & Em & Dm & Nm); [intros c p; apply in_key_order_in|].
  exists infos. split; [done|]. split; [rewrite Em; apply in_key_order_nodup|]. split; [done|]. intros c n. rewrite Nm. by setoid_rewrite in_key_order_in.
Qed.

Definition place (info : NodeInfo) : name * Z := (ni_domain info, ni_cmd info).

Lemma list_domains_ok s l : store_ok s -> NoDup l -> (forall d, d ∈ l -> exists k, m_domains s !! k = Some d) ->
  exists infos, list_domains l s = (Ok infos, s) /\ NoDup (map place infos) /\
    (forall info, info ∈ infos -> exists d, d ∈ l /\ m_domains s !! ni_domain info = Some d) /\
    forall k c n, (exists info, info ∈ infos /\ place info = (k, c) /\ n ∈ ni_nodes info) <->
      exists d, d ∈ l /\ m_domains s !! k = Some d /\ view s k c (m_id n) = Some n.
Proof.
  intros O. induction l as [|d l IH]; intros Nd H; cbn [list_domains].
  - exists []. split; [done|]. split; [constructor|]. split; [by intros ? B%elem_of_nil|].
    intros k c n. split; [by intros (? & B%elem_of_nil & _)|by intros (? & B%elem_of_nil & _)].
  - apply list.NoDup_cons in Nd as [Nl Nd]. destruct IH as (rest & Er & Nr & Dr & Vr); [done|intros d' Hd; apply H; by right|].
    destruct (H d) as [k Ek]; [left|]. destruct (so_domain _ O k d Ek) as (x & Ed & <-).
    unfold NSDomain_listAll. rewrite (sbind_ok _ _ _ _ _ (on_domain_ok _ _ _ _ Ed)). cbn [fst snd]. rewrite set_domains_id by done.
    rewrite (sbind_ok _ _ _ _ _ (on_domain_ok _ _ _ _ Ed)). cbn [fst snd]. rewrite set_domains_id by done.
    destruct (list_sets_ok s d x O Ed) as (infos & E & Nm & Dm & Vm). rewrite (sbind_ok _ _ _ _ _ E), (sbind_ok _ _ _ _ _ Er).
    eexists. split; [reflexivity|]. split; [|split].
    + rewrite map_app. apply list.NoDup_app. split; [|split; [|done]].
      * apply (NoDup_fmap_1 snd). change (snd <$> map place infos) with (map snd (map place infos)). by rewrite map_map.
      * intros q (i1 & -> & H1)%list_elem_of_fmap (i2 & E2 & H2)%list_elem_of_fmap. injection E2 as E2 _. rewrite (Dm _ H1) in E2.
        destruct (Dr _ H2) as (d' & Hd & Ed'). apply Nl. rewrite <- E2 in Ed'. congruence.
    + intros info [Hi|Hi]%elem_of_app; [exists d; rewrite (Dm _ Hi); split; [left|done]|]. destruct (Dr _ Hi) as (d' & ? & ?). exists d'. split; [by right|done].
    + intros k c n. specialize (Vr k c n). specialize (Vm c n). split.
      * intros (info & [Hi|Hi]%elem_of_app & Pl & Hn).
        -- injection Pl as <- <-. rewrite (Dm _ Hi). exists d. split; [left|]. split; [done|].
           destruct (proj1 Vm) as (p & y & i & Ep & Ey & Ei); [eauto|]. rewrite (view_at s _ d x _ p y _ Ek Ed Ep Ey). by rewrite (so_id _ O p y i n).
        -- destruct (proj1 Vr) as (d' & ? & ?); [eauto|]. exists d'. split; [by right|done].
      * intros (d' & [->|Hd]%elem_of_cons & Ek' & V).
        -- assert (k = m_domain x) as ->.
           { destruct (so_domain _ O k d Ek') as (z & Ez & <-). congruence. }
           destruct (proj2 Vm) as (info & Hi & Ec & Hn).
           { unfold view in V. rewrite Ek in V. cbn in V. rewrite Ed in V. cbn in V. destruct (dom_datas x !! c) as [p|]; [|done]. cbn in V.
             destruct (ns_sets s !! p) as [y|] eqn:Ey; [|done]. exists p, y, (m_id n). done. }
           exists info. split; [apply elem_of_app; by left|]. split; [|done]. unfold place. rewrite (Dm _ Hi). congruence.
        -- destruct (proj2 Vr) as (info & ? & ? & ?); [eauto|]. exists info. split; [apply elem_of_app; by right|done].
Qed.

Lemma handleQuery_ok names s : store_ok s ->
  exists infos, handleQuery (Some names) s = (Ok (true, mkReply 0 (bstr "ok") (Some infos)), s) /\ NoDup (map place infos) /\
    forall k c n, (exists info, info ∈ infos /\ place info = (k, c) /\ n ∈ ni_nodes info) <-> k ∈ names /\ view s k c (m_id n) = Some n.
Proof.
  intros O. unfold handleQuery. destruct (find_domains_ok names s ∅) as (ds & E & H). rewrite (sbind_ok _ _ _ _ _ E).
  destruct (list_domains_ok s (merge_sort Nat.le (elements ds)) O) as (infos & E' & Nd & _ & V).
  - rewrite merge_sort_Permutation. apply NoDup_elements.
  - intros d Hd. rewrite merge_sort_Permutation in Hd. apply elem_of_elements, H in Hd as [B|(k & _ & Ek)]; [by apply elem_of_empty in B|eauto].
  - exists infos. rewrite (sbind_ok _ _ _ _ _ E'). split; [done|]. split; [done|]. intros k c n. rewrite V. split.
    + intros (d & Hd & Ek & Vw). rewrite merge_sort_Permutation in Hd. apply elem_of_elements, H in Hd as [B|(k' & Hk & Ek')]; [by apply elem_of_empty in B|].
      assert (k' = k) as ->; [|done]. destruct (so_domain _ O k d Ek) as (z1 & Z1 & <-). destruct (so_domain _ O k' d Ek') as (z2 & Z2 & <-). congruence.
    + intros (Hk & Vw). destruct (m_domains s !! k) as [d|] eqn:Ek; [|by unfold view in Vw; rewrite Ek in Vw].
      exists d. split; [|done]. rewrite merge_sort_Permutation. apply elem_of_elements, H. right. eauto.
Qed.
End requests.

(** ** Properties *)

Section runs.
Context (inet_addr : name -> Z) (parse_register : name -> option (list RegisterInfo)) (parse_query : name -> option (list name)).

Abbreviation handle := (handleRockRequest inet_addr parse_register parse_query).

(** A registration names a node that no other session has. *)
Definition lone (s : NameServer) (cmd : Z) (body : name) (rs : nat) : Prop :=
  forall infos new, cmd = NS_REGISTER -> parse_register body = Some infos ->
    register_infos inet_addr (m_sessions s !! rs) infos None = Some new -> alone s rs new.

Inductive ns_reach : NameServer -> Prop :=
| ns_new : ns_reach new_NameServer
| ns_request s cmd body connected rs r s' : ns_reach s -> lone s cmd body rs -> handle cmd body connected rs s = (r, s') -> ns_reach s'
| ns_disconnect s connected rs r s' : ns_reach s -> onDisconnect connected rs s = (r, s') -> ns_reach s'.

Lemma ns_new_inv : ns_inv new_NameServer.
Proof.
  constructor; [constructor; cbn| |].
  - intros k d. by rewrite lookup_empty.
  - intros d x c p. by rewrite lookup_nil.
  - intros d1 d2 x1 x2 c1 c2 p. by rewrite lookup_nil.
  - intros p y i n. by rewrite lookup_nil.
  - intros k c i w. unfold view, registered. cbn. rewrite lookup_empty. cbn. split; [done|]. intros (rs & x & B & _). by rewrite lookup_empty in B.
  - intros rs1 rs2 x1 x2. cbn. by rewrite lookup_empty.
Qed.

Lemma request_inv s cmd body connected rs : ns_inv s -> lone s cmd body rs ->
  exists r s', handle cmd body connected rs s = (Ok r, s') /\ ns_inv s'.
Proof.
  intros I L. unfold handleRockRequest. destruct (Z.eqb_spec cmd NS_REGISTER) as [->|N].
  - apply handleRegister_inv; [done|]. intros infos new E1 E2. by apply (L infos).
  - destruct (cmd =? NS_QUERY); [|by eexists _, s]. destruct (parse_query body) as [names|]; [|by exists (false, no_reply), s].
    destruct (handleQuery_ok names s (ni_store _ I)) as (infos & -> & _). by eexists _, s.
Qed.

Lemma disconnect_inv s connected rs : ns_inv s -> exists s', onDisconnect connected rs s = (Ok tt, s') /\ ns_inv s'.
Proof. intros I. apply set_session_inv; [done| |]; by intros. Qed.

Lemma reach_ns_inv s : ns_reach s -> ns_inv s.
Proof.
  induction 1 as [|s cmd body connected rs r s' R IH L E|s connected rs r s' R IH E]; [apply ns_new_inv| |].
  - destruct (request_inv s cmd body connected rs IH L) as (r1 & s1 & E1 & I1). congruence.
  - destruct (disconnect_inv s connected rs IH) as (s1 & E1 & I1). congruence.
Qed.

(** What a registration asks for. *)
Definition asks (infos : list RegisterInfo) (k : name) (c : Z) : Prop :=
  exists info, info ∈ infos /\ pb_domain info = Some k /\ c ∈ pb_cmds info.

Lemma add_cmds_map domain cmds x k c :
  in_map (m_domain2cmds (add_cmds domain cmds x)) k c = true <-> in_map (m_domain2cmds x) k c = true \/ (k = domain /\ c ∈ cmds).
Proof.
  unfold in_map, add_cmds. cbn. rewrite !bool_decide_eq_true. destruct (decide (k = domain)) as [->|N].
  - rewrite lookup_insert_eq. cbn. rewrite elem_of_union, elem_of_list_to_set. intuition done.
  - rewrite lookup_insert_ne by done. intuition done.
Qed.

Lemma register_infos_cmds old infos : forall new x, register_infos inet_addr old infos new = Some x ->
  forall k c, in_map (cmds_of x) k c = true <-> in_map (cmds_of new) k c = true \/ asks infos k c.
Proof.
  induction infos as [|info infos IH]; intros new x; cbn [register_infos].
  - intros [= ->] k c. split; [by left|]. intros [?|(i & B%elem_of_nil & _)]; done.
  - destruct (checked_node inet_addr info) as [[domain n]|] eqn:Ec; [|done].
    assert (Ed : pb_domain info = Some domain).
    { unfold checked_node in Ec. repeat case_match; try done. congruence. }
    destruct (_ && _); [|done]. intros E k c. rewrite (IH _ _ E). cbn [cmds_of]. rewrite add_cmds_map.
    assert (Em : in_map (m_domain2cmds (match new with Some x => x | None => mkClient n ∅ end)) k c = in_map (cmds_of new) k c) by (by destruct new).
    rewrite Em. unfold asks. setoid_rewrite elem_of_cons. split.
    + intros [[?|[-> Hc]]|(i & ? & ? & ?)]; [by left|right; exists info; auto|right; exists i; auto].
    + intros [?|(i & [->|?] & Hk & ?)]; [by left; left|left; right; split; congruence|right; exists i; auto].
Qed.

(** C13: The name server. As long as no two sessions register the same node: whatever
    requests and disconnections came, in whatever order, no handler fails, and a query
    names for each domain it asks about exactly the commands, nodes and weights that the
    sessions have registered, each command once. What a session has registered is what
    its last registration said. *)
Theorem NameServer_answers s : ns_reach s ->
  (forall cmd body connected rs, lone s cmd body rs -> exists r s', handle cmd body connected rs s = (Ok r, s')) /\
  (forall body names connected rs, parse_query body = Some names ->
     exists infos, handle NS_QUERY body connected rs s = (Ok (true, mkReply 0 (bstr "ok") (Some infos)), s) /\ NoDup (map place infos) /\
       forall k c i w, (exists info n, info ∈ infos /\ place info = (k, c) /\ n ∈ ni_nodes info /\ m_id n = i /\ m_weight n = w) <->
         k ∈ names /\ registered s k c i w) /\
  (forall body infos rs reply s', parse_register body = Some infos -> lone s NS_REGISTER body rs ->
     handle NS_REGISTER body true rs s = (Ok (true, reply), s') ->
     forall k c, in_map (cmds_of (m_sessions s' !! rs)) k c = true <-> asks infos k c).
Proof.
  intros R. pose proof (reach_ns_inv s R) as I. split; [|split].
  - intros cmd body connected rs L. destruct (request_inv s cmd body connected rs I L) as (r & s' & E & _). eauto.
  - intros body names connected rs E. unfold handleRockRequest. cbn [Z.eqb]. change (NS_QUERY =? NS_REGISTER) with false. change (NS_QUERY =? NS_QUERY) with true. cbn iota.
    rewrite E. destruct (handleQuery_ok names s (ni_store _ I)) as (infos & -> & Nd & V). exists infos. split; [done|]. split; [done|].
    intros k c i w. rewrite <- (ni_agree _ I). split.
    + intros (info & n & Hi & Pl & Hn & <- & <-). destruct (proj1 (V k c n)) as (Hk & ->); [eauto|]. done.
    + intros (Hk & Ew). destruct (view s k c i) as [n|] eqn:Ev; [|done]. injection Ew as Ew.
      assert (Ei : m_id n = i).
      { unfold view in Ev. destruct (m_domains s !! k) as [d|]; [|done]. cbn in Ev. destruct (ns_domains s !! d) as [x|]; [|done]. cbn in Ev.
        destruct (dom_datas x !! c) as [p|]; [|done]. cbn in Ev. destruct (ns_sets s !! p) as [y|] eqn:Ey; [|done]. by apply (so_id _ (ni_store _ I) p y). }
      destruct (proj2 (V k c n)) as (info & ? & ? & ?); [by rewrite Ei|]. eauto 10.
  - intros body infos rs reply s' E L Eh k c. unfold handleRockRequest in Eh. change (NS_REGISTER =? NS_REGISTER) with true in Eh. cbn iota in Eh.
    rewrite E in Eh. unfold handleRegister in Eh. rewrite (sbind_ok (get_session rs) _ s (m_sessions s !! rs) s eq_refl) in Eh.
    destruct (register_infos inet_addr (m_sessions s !! rs) infos None) as [new|] eqn:Er; [|done].
    destruct (set_session_view s true rs new (ni_store _ I)) as (s1 & E1 & _ & S1 & _). rewrite (sbind_ok _ _ _ _ _ E1) in Eh. injection Eh as _ <-.
    rewrite S1, session_after_at, decide_True by done. rewrite (register_infos_cmds _ _ _ _ Er). cbn. rewrite in_map_empty. intuition done.
Qed.
End runs.

(** ** A day of a name server *)

Definition an_inet_addr (ip : name) : Z :=
  if decide (ip = bstr "10.0.0.1") then 0x0100000A else if decide (ip = bstr "10.0.0.2") then 0x0200000A else 2 ^ 32 - 1.

Definition info_of (ip : string) (weight : Z) (domain : string) (cmds : list Z) : RegisterInfo :=
  mkRegisterInfo (Some (bstr domain)) cmds (Some (mkNode (Some (bstr ip)) (Some 8080) (Some weight))).

(** A parser of four messages. *)
Definition a_parser (body : name) : option (list RegisterInfo) :=
  if decide (body = bstr "1") then Some [info_of "10.0.0.1" 5 "chat" [1; 2]]
  else if decide (body = bstr "2") then Some [info_of "10.0.0.2" 5 "chat" [2]; info_of "10.0.0.2" 5 "mail" [7]]
  else if decide (body = bstr "3") then Some [info_of "10.0.0.1" 9 "chat" [2; 3]]
  else None.

Definition alone_b (s : NameServer) (rs : nat) (n : option NSClientInfo) : bool :=
  match n with
  | Some y => bool_decide (map_Forall (fun rs' x => rs' = rs \/ m_id (m_node x) <> m_id (m_node y)) (m_sessions s))
  | None => true
  end.

Lemma alone_check s rs n : alone_b s rs n = true -> alone s rs n.
Proof. intros H rs' x y -> N Ex. cbn in H. apply bool_decide_eq_true in H. by destruct (H rs' x Ex). Qed.

Definition one_day : NameServer :=
  let request body rs s := snd (handleRockRequest an_inet_addr a_parser (fun body => Some [body]) NS_REGISTER (bstr body) true rs s) in
  snd (onDisconnect false 3 (request "3" 1%nat (request "2" 2%nat (request "1" 1%nat new_NameServer)))).

Lemma one_day_reach : ns_reach an_inet_addr a_parser (fun body => Some [body]) one_day.
Proof.
  eapply ns_disconnect; [|apply surjective_pairing].
  do 3 (eapply ns_request; [| |apply surjective_pairing]; [|intros infos new _ E1 E2; vm_compute in E1; injection E1 as <-; vm_compute in E2; injection E2 as <-; apply alone_check; vm_compute; reflexivity]).
  apply ns_new.
Qed.

Lemma NameServer_answers_witness :
  fst (handleRockRequest an_inet_addr a_parser (fun body => Some [body]) NS_QUERY (bstr "chat") true 4 one_day) =
    (let n1 := new_NSNode an_inet_addr (bstr "10.0.0.1") 8080 9 in let n2 := new_NSNode an_inet_addr (bstr "10.0.0.2") 8080 5 in
     Ok (true, mkReply 0 (bstr "ok") (Some [mkNodeInfo (bstr "chat") 2 [n1; n2]; mkNodeInfo (bstr "chat") 3 [n1]]))) /\
  exists infos, handleRockRequest an_inet_addr a_parser (fun body => Some [body]) NS_QUERY (bstr "chat") true 4 one_day = (Ok (true, mkReply 0 (bstr "ok") (Some infos)), one_day) /\
    NoDup (map place infos) /\
    forall k c i w, (exists info n, info ∈ infos /\ place info = (k, c) /\ n ∈ ni_nodes info /\ m_id n = i /\ m_weight n = w) <->
      k ∈ [bstr "chat"] /\ registered one_day k c i w.
Proof. split; [vm_compute; reflexivity|]. apply (NameServer_answers an_inet_addr a_parser (fun body => Some [body]) one_day one_day_reach). reflexivity. Defined.

(** ** What the handlers do not see *)

(** [inet_addr] answers 2^32 - 1 for what is no address, and the test is for zero. *)
Lemma malformed_accepted inet_addr ip domain c port weight : inet_addr ip = 2 ^ 32 - 1 ->
  exists n, checked_node inet_addr (mkRegisterInfo (Some domain) [c] (Some (mkNode (Some ip) (Some port) (Some weight)))) = Some (domain, n).
Proof.
  intros E. unfold checked_node. cbn [pb_node pb_domain pb_cmds pb_ip pb_port pb_weight]. cbn zeta. unfold new_NSNode, GetID. cbn [m_id]. rewrite E.
  change (u64 (Z.shiftl (2 ^ 32 - 1) 32)) with (Z.shiftl (2 ^ 32 - 1) 32). rewrite Z.shiftr_lor, Z.shiftr_shiftl_l by lia. change (Z.shiftl (2 ^ 32 - 1) (32 - 32)) with (2 ^ 32 - 1).
  assert (Z.shiftr (u16 port) 32 = 0) as ->.
  { apply Z.shiftr_eq_0_iff. pose proof (u16_range port). destruct (decide (u16 port = 0)); [by left|right]. split; [lia|]. apply Z.log2_lt_pow2; [lia|]. lia. }
  eauto.
Qed.

(** Two sessions with one node: when one of them goes, the node is gone though the other
    still has it. *)
Example shared_node_lost :
  let request rs s := snd (handleRockRequest an_inet_addr a_parser (fun body => Some [body]) NS_REGISTER (bstr "1") true rs s) in
  let s := snd (onDisconnect false 1 (request 2%nat (request 1%nat new_NameServer))) in
  fst (handleRockRequest an_inet_addr a_parser (fun body => Some [body]) NS_QUERY (bstr "chat") true 2 s) = Ok (true, mkReply 0 (bstr "ok") (Some [])) /\
  bool_decide (is_Some (m_sessions s !! 2%nat)) = true.
Proof. vm_compute. done. Qed.

(** A node is added to a set between the moment that another thread empties it and the
    moment that it takes it out of the domain. *)
Example add_del_race :
  let n1 := new_NSNode an_inet_addr (bstr "10.0.0.1") 1 1 in let n2 := new_NSNode an_inet_addr (bstr "10.0.0.2") 1 1 in
  fst ((let* d := NSDomainSet_get_create (bstr "chat") in
        let* _ := NSDomain_add d 1 n1 in
        let* p := NSDomain_get d 1 in
        let* q := NSDomain_get d 1 in
        let p := default 0%nat p in let q := default 0%nat q in
        let* info := on_set p (NSNodeSet_del (m_id n1)) in
        let* n := on_set p (fun x => (NSNodeSet_size x, x)) in
        let* _ := on_set q (fun x => (tt, NSNodeSet_add n2 x)) in
        let* _ := if n =? 0 then NSDomain_del_set d 1 else sret tt in
        NSDomain_get d 1) new_NameServer) = Ok None.
Proof. vm_compute. reflexivity. Qed.
