(* ===== verification/RequestStream.v ===== *)
(** Requests over one connection (src/streams/async_socket_stream.cpp,
    include/streams/async_socket_stream.hpp, src/rock/rock_stream.cpp).

    A coroutine that calls [request] leaves a context under its number and holds; the
    coroutine that reads takes the context of a response out of the table, the timer of
    the request and [innerClose] do as much, and whoever exchanges the scheduler of the
    context for null wakes the coroutine. All of them run side by side: each is a process
    whose place is a [Pc], and a step is an access to what the others see, a critical
    section or one of the fields of a context.

    [m_sem] is its count of permits, of which [wait] takes one when there is one
    ([Semaphore]). The clock is any: a timer that is armed may fire. A context lives at an
    address, its place in [a_ctxs]; the map of [innerClose] is visited in the order of
    [map_to_list]. *)
From stdpp Require Import gmap.
From S2P Require Import Prelude.

(** ** Contexts *)

Definition ERR_TIMEOUT : Z := -1.
Definition ERR_IO_ERROR : Z := -2.

(** A response: its number and its result. *)
Definition Rsp : Type := Z * Z.

(** [AsyncSocketStream::Ctx] with the [response] of [RockCtx]. [cx_scheduler] says whether
    the pointer is there; [cx_armed] whether the timer is in the timer set, and
    [cx_timer] whether the context points to it; [cx_woken] counts the calls of
    [schedule(&fiber)]. *)
Record Ctx := mkCtx {
  cx_sn : Z;
  cx_result : Z;
  cx_timed : bool;
  cx_scheduler : bool;
  cx_fiber : option nat;
  cx_timer : bool;
  cx_armed : bool;
  cx_response : option Rsp;
  cx_woken : nat;
}.

Definition new_Ctx (sn : Z) (fiber : nat) : Ctx := mkCtx sn 0 false true (Some fiber) false false None 0.

Definition set_result (r : Z) (x : Ctx) : Ctx :=
  mkCtx (cx_sn x) (u32 r) (cx_timed x) (cx_scheduler x) (cx_fiber x) (cx_timer x) (cx_armed x) (cx_response x) (cx_woken x).
Definition set_timed (x : Ctx) : Ctx :=
  mkCtx (cx_sn x) (cx_result x) true (cx_scheduler x) (cx_fiber x) (cx_timer x) (cx_armed x) (cx_response x) (cx_woken x).
Definition clear_scheduler (x : Ctx) : Ctx :=
  mkCtx (cx_sn x) (cx_result x) (cx_timed x) false (cx_fiber x) (cx_timer x) (cx_armed x) (cx_response x) (cx_woken x).
Definition set_timer (timer armed : bool) (x : Ctx) : Ctx :=
  mkCtx (cx_sn x) (cx_result x) (cx_timed x) (cx_scheduler x) (cx_fiber x) timer armed (cx_response x) (cx_woken x).
Definition set_response (r : Rsp) (x : Ctx) : Ctx :=
  mkCtx (cx_sn x) (cx_result x) (cx_timed x) (cx_scheduler x) (cx_fiber x) (cx_timer x) (cx_armed x) (Some r) (cx_woken x).

(** [scd->schedule(&fiber)], which takes the pointer away. *)
Definition schedule_fiber (x : Ctx) : Ctx :=
  mkCtx (cx_sn x) (cx_result x) (cx_timed x) (cx_scheduler x) None (cx_timer x) (cx_armed x) (cx_response x) (S (cx_woken x)).

(** [if (timer) { timer->cancel(); timer = nullptr; }] *)
Definition cancel_timer (x : Ctx) : Ctx := if cx_timer x then set_timer false false x else x.

(** ** Processes *)

(** What waits to be sent: the request of a context, or a message. *)
Inductive SendCtx := SendRequest (i : nat) | SendMessage (m : nat).

(** What follows [innerClose]: the end, or the loop of the writer. *)
Inductive Cont := Stop | WriterLoop.

Inductive Pc :=
  (* request *)
  | ReqAdd (i : nat) | ReqArm (i : nat) | ReqTimer (i : nat) | ReqPush (i : nat) | ReqNotify (i : nat) | Held (i : nat)
  | Returned (i : nat) (result : Z) (response : option Rsp)
  (* sendMessage *)
  | SendPush (m : nat) | SendNotify
  (* onTimeOut *)
  | OutErase (i : nat) | OutMark (i : nat)
  (* doRecv, of a response *)
  | RecvTake (r : Rsp) | RecvResult (i : nat) (r : Rsp) | RecvResponse (i : nat) (r : Rsp)
  (* innerClose *)
  | CloseSocket (k : Cont) | CloseNotify (k : Cont) | CloseSwap (k : Cont) | CloseClear (l : list nat) (k : Cont) | CloseNext (l : list nat) (k : Cont)
  (* doRsp, and the contexts that innerClose has left *)
  | RspLoad (i : nat) (l : list nat) (k : Cont)
  | RspCas (scd : bool) (i : nat) (l : list nat) (k : Cont)
  | RspTimer (i : nat) (l : list nat) (k : Cont)
  | RspTimed (i : nat) (l : list nat) (k : Cont)
  | RspWake (i : nat) (l : list nat) (k : Cont)
  (* doWrite *)
  | WrTest | WrWait | WrSwap | WrSend (l : list SendCtx) | WrClear
  | Done.

Record Async := mkAsync {
  a_connected : bool;
  m_ctxs : gmap Z nat;
  a_ctxs : list Ctx;
  a_queue : list SendCtx;
  a_sem : Z;
  a_procs : list Pc;
  a_sent : list SendCtx;
}.

Definition new_Async : Async := mkAsync true ∅ [] [] 0 [] [].

Definition set_connected (b : bool) (s : Async) : Async := mkAsync b (m_ctxs s) (a_ctxs s) (a_queue s) (a_sem s) (a_procs s) (a_sent s).
Definition set_table (m : gmap Z nat) (s : Async) : Async := mkAsync (a_connected s) m (a_ctxs s) (a_queue s) (a_sem s) (a_procs s) (a_sent s).
Definition on_ctx (i : nat) (f : Ctx -> Ctx) (s : Async) : Async :=
  mkAsync (a_connected s) (m_ctxs s) (alter f i (a_ctxs s)) (a_queue s) (a_sem s) (a_procs s) (a_sent s).
Definition set_queue (q : list SendCtx) (s : Async) : Async := mkAsync (a_connected s) (m_ctxs s) (a_ctxs s) q (a_sem s) (a_procs s) (a_sent s).
Definition add_sem (n : Z) (s : Async) : Async := mkAsync (a_connected s) (m_ctxs s) (a_ctxs s) (a_queue s) (a_sem s + n) (a_procs s) (a_sent s).
Definition add_sent (x : SendCtx) (s : Async) : Async := mkAsync (a_connected s) (m_ctxs s) (a_ctxs s) (a_queue s) (a_sem s) (a_procs s) (a_sent s ++ [x]).
Definition at_pc (p : nat) (pc : Pc) (s : Async) : Async :=
  mkAsync (a_connected s) (m_ctxs s) (a_ctxs s) (a_queue s) (a_sem s) (<[p := pc]> (a_procs s)) (a_sent s).
Definition add_ctx (x : Ctx) (s : Async) : Async :=
  mkAsync (a_connected s) (m_ctxs s) (a_ctxs s ++ [x]) (a_queue s) (a_sem s) (a_procs s) (a_sent s).
Definition spawn (pc : Pc) (s : Async) : Async :=
  mkAsync (a_connected s) (m_ctxs s) (a_ctxs s) (a_queue s) (a_sem s) (a_procs s ++ [pc]) (a_sent s).

(** ** The operations *)

(** [addCtx]: [insert] leaves an entry of the same number as it is. *)
Definition addCtx (i : nat) (sn : Z) (s : Async) : Async :=
  match m_ctxs s !! sn with Some _ => s | None => set_table (<[sn := i]> (m_ctxs s)) s end.

Definition getAndDelCtx (sn : Z) (s : Async) : option nat * Async :=
  (m_ctxs s !! sn, set_table (delete sn (m_ctxs s)) s).

(** [enqueue] up to the notification; the place after it when the queue was empty, and
    when it was not. *)
Definition enqueue (x : SendCtx) (empty other : Pc) (s : Async) : Pc * Async :=
  (match a_queue s with [] => empty | _ => other end, set_queue (a_queue s ++ [x]) s).

Definition after_close (k : Cont) : Pc := match k with Stop => Done | WriterLoop => WrTest end.

(** Each function, from one access to what others see to the next: what it does at a
    place, and where it is then; None when it has to wait or is over. *)
Definition request_step (pc : Pc) (s : Async) : option (Pc * Async) :=
  match pc with
  | ReqAdd i => match a_ctxs s !! i with Some x => Some (ReqArm i, addCtx i (cx_sn x) s) | None => None end
  | ReqArm i => Some (ReqTimer i, on_ctx i (fun x => set_timer (cx_timer x) true x) s)
  | ReqTimer i => Some (ReqPush i, on_ctx i (fun x => set_timer true (cx_armed x) x) s)
  | ReqPush i => Some (enqueue (SendRequest i) (ReqNotify i) (Held i) s)
  | ReqNotify i => Some (Held i, add_sem 1 s)
  | Held i =>
      match a_ctxs s !! i with
      | Some x => if (0 <? cx_woken x)%nat then Some (Returned i (s32 (cx_result x)) (cx_response x), s) else None
      | None => None
      end
  | _ => None
  end.

Definition sendMessage_step (pc : Pc) (s : Async) : option (Pc * Async) :=
  match pc with
  | SendPush m => Some (enqueue (SendMessage m) SendNotify Done s)
  | SendNotify => Some (Done, add_sem 1 s)
  | _ => None
  end.

Definition onTimeOut_step (pc : Pc) (s : Async) : option (Pc * Async) :=
  match pc with
  | OutErase i => match a_ctxs s !! i with Some x => Some (OutMark i, set_table (delete (cx_sn x) (m_ctxs s)) s) | None => None end
  | OutMark i => Some (RspLoad i [] Stop, on_ctx i set_timed s)
  | _ => None
  end.

(** [doRecv] of a response, with the [doRsp] that [doRead] calls after it. *)
Definition doRecv_step (pc : Pc) (s : Async) : option (Pc * Async) :=
  match pc with
  | RecvTake r => let (o, s) := getAndDelCtx (fst r) s in Some (match o with Some i => RecvResult i r | None => Done end, s)
  | RecvResult i r => Some (RecvResponse i r, on_ctx i (set_result (snd r)) s)
  | RecvResponse i r => Some (RspLoad i [] Stop, on_ctx i (set_response r) s)
  | _ => None
  end.

Definition innerClose_step (pc : Pc) (s : Async) : option (Pc * Async) :=
  match pc with
  | CloseSocket k => Some (CloseNotify k, set_connected false s)
  | CloseNotify k => Some (CloseSwap k, add_sem 1 s)
  | CloseSwap k => Some (CloseClear (map snd (map_to_list (m_ctxs s))) k, set_table ∅ s)
  | CloseClear l k => Some (CloseNext l k, set_queue [] s)
  | CloseNext [] k => Some (after_close k, s)
  | CloseNext (i :: l) k => Some (RspLoad i l k, on_ctx i (set_result ERR_IO_ERROR) s)
  | _ => None
  end.

Definition doRsp_step (pc : Pc) (s : Async) : option (Pc * Async) :=
  match pc with
  | RspLoad i l k => match a_ctxs s !! i with Some x => Some (RspCas (cx_scheduler x) i l k, s) | None => None end
  | RspCas scd i l k =>
      match a_ctxs s !! i with
      | None => None
      | Some x =>
          if negb (eqb (cx_scheduler x) scd) then Some (CloseNext l k, s)
          else Some (if scd && bool_decide (is_Some (cx_fiber x)) then RspTimer i l k else CloseNext l k, on_ctx i clear_scheduler s)
      end
  | RspTimer i l k => Some (RspTimed i l k, on_ctx i cancel_timer s)
  | RspTimed i l k => Some (RspWake i l k, on_ctx i (fun x => if cx_timed x then set_result ERR_TIMEOUT x else x) s)
  | RspWake i l k => Some (CloseNext l k, on_ctx i schedule_fiber s)
  | _ => None
  end.

(** [ok] is the answer of [doSend]. *)
Definition doWrite_step (pc : Pc) (ok : bool) (s : Async) : option (Pc * Async) :=
  match pc with
  | WrTest => Some (if a_connected s then WrWait else WrClear, s)
  | WrWait => if 0 <? a_sem s then Some (WrSwap, add_sem (-1) s) else None
  | WrSwap => Some (WrSend (a_queue s), set_queue [] s)
  | WrSend [] => Some (WrTest, s)
  | WrSend (x :: l) => if ok then Some (WrSend l, add_sent x s) else Some (CloseSocket WriterLoop, s)
  | WrClear => Some (Done, set_queue [] s)
  | _ => None
  end.

Definition pc_step (pc : Pc) (ok : bool) (s : Async) : option (Pc * Async) :=
  match pc with
  | ReqAdd _ | ReqArm _ | ReqTimer _ | ReqPush _ | ReqNotify _ | Held _ => request_step pc s
  | SendPush _ | SendNotify => sendMessage_step pc s
  | OutErase _ | OutMark _ => onTimeOut_step pc s
  | RecvTake _ | RecvResult _ _ | RecvResponse _ _ => doRecv_step pc s
  | CloseSocket _ | CloseNotify _ | CloseSwap _ | CloseClear _ _ | CloseNext _ _ => innerClose_step pc s
  | RspLoad _ _ _ | RspCas _ _ _ _ | RspTimer _ _ _ | RspTimed _ _ _ | RspWake _ _ _ => doRsp_step pc s
  | WrTest | WrWait | WrSwap | WrSend _ | WrClear => doWrite_step pc ok s
  | Returned _ _ _ | Done => None
  end.

Definition proc_step (p : nat) (ok : bool) (s : Async) : option Async :=
  pc ← a_procs s !! p; '(pc, s) ← pc_step pc ok s; Some (at_pc p pc s).

(** What starts a process: a coroutine calls [request] or [sendMessage] while the stream
    is connected, a timer fires, the reader parses a response or closes, [start] connects
    and starts the writer; and the connection may break. *)
Inductive label :=
  | LStep (p : nat) (ok : bool)
  | LRequest (fiber : nat) (sn : Z)
  | LSend (m : nat)
  | LFire (i : nat)
  | LRecv (r : Rsp)
  | LClose
  | LStart
  | LBroken.

Definition async_step (l : label) (s : Async) : option Async :=
  match l with
  | LStep p ok => proc_step p ok s
  | LRequest fiber sn =>
      if a_connected s then
        Some (spawn (ReqAdd (length (a_ctxs s))) (add_ctx (new_Ctx sn fiber) s))
      else None
  | LSend m => if a_connected s then Some (spawn (SendPush m) s) else None
  | LFire i =>
      match a_ctxs s !! i with
      | Some x => if cx_armed x then Some (spawn (OutErase i) (on_ctx i (set_timer (cx_timer x) false) s)) else None
      | None => None
      end
  | LRecv r => Some (spawn (RecvTake r) s)
  | LClose => Some (spawn (CloseSocket Stop) s)
  | LStart => Some (spawn WrTest (set_connected true s))
  | LBroken => Some (set_connected false s)
  end.

Fixpoint async_run (ls : list label) (s : Async) : option Async :=
  match ls with
  | [] => Some s
  | l :: ls => match async_step l s with Some s => async_run ls s | None => None end
  end.
