(* ===== verification/RequestStreamSpec.v ===== *)
(** Requests over one connection: each is answered once, with its own response, and none
    is forgotten. *)
From stdpp Require Import gmap.
From S2P Require Import Prelude RequestStream.

(** ** Counting processes *)

Definition count {A} (f : A -> bool) (l : list A) : Z := foldr (fun a n => Z.b2z (f a) + n) 0 l.

Lemma count_nonneg {A} (f : A -> bool) l : 0 <= count f l.
Proof. induction l as [|a l IH]; cbn; [done|]. unfold count in IH. destruct (f a); cbn; lia. Qed.

Lemma count_app {A} (f : A -> bool) l k : count f (l ++ k) = count f l + count f k.
Proof. unfold count. induction l as [|a l IH]; cbn; lia. Qed.

Lemma count_put {A} (f : A -> bool) l p a b : l !! p = Some a -> count f (<[p := b]> l) = count f l - Z.b2z (f a) + Z.b2z (f b).
Proof.
  revert p. induction l as [|c l IH]; intros [|p] E; try done; cbn in E.
  - injection E as ->. change (<[0%nat := b]> (a :: l)) with (b :: l). unfold count. cbn [foldr]. lia.
  - change (<[S p := b]> (c :: l)) with (c :: <[p := b]> l). specialize (IH p E). unfold count in *. cbn [foldr]. lia.
Qed.

Lemma count_le {A} (f g : A -> bool) l : (forall a, f a = true -> g a = true) -> count f l <= count g l.
Proof.
  intros H. induction l as [|a l IH]; cbn; [done|]. unfold count in IH. specialize (H a). destruct (f a); [rewrite H by done|]; cbn; [lia|]. destruct (g a); cbn; lia.
Qed.

Lemma count_in {A} (f : A -> bool) l p a : l !! p = Some a -> f a = true -> 1 <= count f l.
Proof.
  intros E%list_elem_of_lookup_2 F. apply list_elem_of_split in E as (l1 & l2 & ->). rewrite count_app.
  pose proof (count_nonneg f l1). pose proof (count_nonneg f l2). unfold count in *. cbn. rewrite F. cbn. lia.
Qed.

Lemma count_pos {A} (f : A -> bool) l : 1 <= count f l -> exists p a, l !! p = Some a /\ f a = true.
Proof.
  induction l as [|a l IH]; cbn; [lia|]. destruct (f a) eqn:E; [by exists 0%nat, a|]. intros L. destruct IH as (p & b & ? & ?); [unfold count; cbn in L; lia|]. by exists (S p), b.
Qed.

Lemma count_zero {A} (f : A -> bool) l : (forall p a, l !! p = Some a -> f a = false) -> count f l = 0.
Proof.
  induction l as [|a l IH]; intros H; [done|]. pose proof (H 0%nat a eq_refl) as F. change (count f (a :: l)) with (Z.b2z (f a) + count f l).
  rewrite F, IH; [done|]. intros p b E. by apply (H (S p)).
Qed.

#[local] Arguments count : simpl never.

Lemma count_one {A} (f : A -> bool) a : count f [a] = Z.b2z (f a).
Proof. unfold count. cbn. lia. Qed.

(** ** Places *)

Definition same (i j : nat) : bool := bool_decide (i = j).
Definition among (i : nat) (l : list nat) : bool := bool_decide (i ∈ l).

(** The process has exchanged the scheduler of [i] for null. *)
Definition owns (i : nat) (pc : Pc) : bool :=
  match pc with RspTimer j _ _ | RspTimed j _ _ | RspWake j _ _ => same i j | _ => false end.

(** The process will come to exchange the scheduler of [i], or has done so; or it has yet
    to set the timer of [i]. *)
Definition pends (i : nat) (pc : Pc) : bool :=
  match pc with
  | ReqAdd j | ReqArm j | OutErase j | OutMark j | RecvResult j _ | RecvResponse j _ => same i j
  | CloseClear l _ | CloseNext l _ => among i l
  | RspLoad j l _ | RspTimer j l _ | RspTimed j l _ | RspWake j l _ => same i j || among i l
  | RspCas scd j l _ => scd && same i j || among i l
  | _ => false
  end.

(** The process is about to take a permit back or to notify. *)
Definition notifies (pc : Pc) : bool := match pc with ReqNotify _ | SendNotify | WrSwap => true | _ => false end.

Definition owners (i : nat) (s : Async) : Z := count (owns i) (a_procs s).

Lemma owns_pends i pc : owns i pc = true -> pends i pc = true.
Proof. destruct pc; cbn; try done; intros ->; done. Qed.

Lemma pc_step_procs pc ok s pc' s' : pc_step pc ok s = Some (pc', s') -> a_procs s' = a_procs s.
Proof.
  destruct pc; cbn; unfold addCtx, enqueue; repeat case_match; intros; simplify_eq; done.
Qed.

(** ** The contexts *)

Record ctx_ok (s : Async) (i : nat) (x : Ctx) : Prop := {
  ck_once : owners i s + Z.of_nat (cx_woken x) = (if cx_scheduler x then 0 else 1);
  ck_fiber : is_Some (cx_fiber x) <-> cx_woken x = 0%nat;
  ck_wait : cx_woken x = 0%nat -> cx_armed x = true \/ 1 <= count (pends i) (a_procs s);
}.

(** What a step from [pc] to [pc'] does to the context [i]. *)
Record moves (i : nat) (pc pc' : Pc) (x x' : Ctx) : Prop := {
  mv_once : Z.b2z (owns i pc') + Z.of_nat (cx_woken x') - (if cx_scheduler x' then 0 else 1) =
            Z.b2z (owns i pc) + Z.of_nat (cx_woken x) - (if cx_scheduler x then 0 else 1);
  mv_fiber : is_Some (cx_fiber x') <-> cx_woken x' = 0%nat;
  mv_more : (cx_woken x <= cx_woken x')%nat;
  mv_pends : pends i pc = true ->
    pends i pc' = true \/ cx_woken x' <> 0%nat \/ (pc = ReqArm i /\ cx_armed x' = true) \/ (cx_scheduler x = false /\ owns i pc = false);
  mv_armed : cx_armed x = true -> cx_armed x' = true \/ owns i pc' = true;
  mv_sn : cx_sn x' = cx_sn x;
  mv_gone : cx_scheduler x = false -> cx_scheduler x' = false;
}.

Lemma same_true i j : same i j = true <-> i = j.
Proof. unfold same. apply bool_decide_eq_true. Qed.

Lemma among_cons i j l : among i (j :: l) = same i j || among i l.
Proof.
  unfold among, same. apply eq_true_iff_eq. rewrite orb_true_iff, !bool_decide_eq_true. apply elem_of_cons.
Qed.

(** The scheduler is there as long as nobody has woken the coroutine. *)
Lemma once_fiber s i x : ctx_ok s i x -> cx_scheduler x = true -> is_Some (cx_fiber x).
Proof. intros [O F _] S. apply F. rewrite S in O. pose proof (count_nonneg (owns i) (a_procs s)). unfold owners in O. lia. Qed.

Lemma moves_same i pc pc' x : (is_Some (cx_fiber x) <-> cx_woken x = 0%nat) -> owns i pc' = owns i pc ->
  (pends i pc = true -> pends i pc' = true) -> moves i pc pc' x x.
Proof. intros F O P. constructor; try done; [rewrite O; lia|by left; apply P|by left]. Qed.

(** A change of the result, the response or the mark only. *)
Lemma moves_fields i pc pc' x x' : (is_Some (cx_fiber x) <-> cx_woken x = 0%nat) -> owns i pc' = owns i pc ->
  (pends i pc = true -> pends i pc' = true) ->
  cx_woken x' = cx_woken x -> cx_scheduler x' = cx_scheduler x -> cx_fiber x' = cx_fiber x -> cx_armed x' = cx_armed x -> cx_sn x' = cx_sn x ->
  moves i pc pc' x x'.
Proof. intros F O P W S Fb A N. constructor; rewrite ?W, ?S, ?Fb, ?A, ?N, ?O; try done; [by left; apply P|by left]. Qed.

Lemma alter_lookup {A} (f : A -> A) (i j : nat) (l : list A) x' : alter f i l !! j = Some x' -> exists x, l !! j = Some x /\ x' = (if decide (i = j) then f x else x).
Proof.
  rewrite list_lookup_alter. intros E. destruct (decide (i = j)) as [->|N]; [|by exists x'].
  destruct (l !! j) as [x|]; [|done]. injection E as <-. by exists x.
Qed.

Ltac flags := cbn; rewrite ?among_cons; unfold same; repeat case_bool_decide; subst; cbn; try done; try lia; try congruence; auto.

Lemma pc_step_moves s pc ok pc' s' : pc_step pc ok s = Some (pc', s') ->
  (forall i x, a_ctxs s !! i = Some x -> ctx_ok s i x) ->
  forall i x', a_ctxs s' !! i = Some x' -> exists x, a_ctxs s !! i = Some x /\ moves i pc pc' x x'.
Proof.
  intros E Ok i x' Ex.
  assert (Same : a_ctxs s' = a_ctxs s -> (forall i, owns i pc' = owns i pc) -> (forall x, a_ctxs s !! i = Some x -> pends i pc = true -> pends i pc' = true) ->
    exists x, a_ctxs s !! i = Some x /\ moves i pc pc' x x').
  { intros Es O P. rewrite Es in Ex. exists x'. split; [done|]. apply moves_same; [apply (Ok i x' Ex)|done|by apply (P x')]. }
  assert (Fields : forall j f, a_ctxs s' = alter f j (a_ctxs s) ->
    (forall x, cx_woken (f x) = cx_woken x /\ cx_scheduler (f x) = cx_scheduler x /\ cx_fiber (f x) = cx_fiber x /\ cx_armed (f x) = cx_armed x /\ cx_sn (f x) = cx_sn x) ->
    owns i pc' = owns i pc -> (pends i pc = true -> pends i pc' = true) ->
    exists x, a_ctxs s !! i = Some x /\ moves i pc pc' x x').
  { intros j f Es Hf O P. rewrite Es in Ex. apply alter_lookup in Ex as (x & Ex & ->). exists x. split; [done|]. destruct (Hf x) as (? & ? & ? & ? & ?).
    pose proof (ck_fiber _ _ _ (Ok i x Ex)). destruct (decide (j = i)); apply moves_fields; done. }
  destruct pc; cbn in E; unfold addCtx, enqueue in E; repeat case_match; simplify_eq; try (by apply Same); try (by eapply Fields; [reflexivity|intros x; done|flags|flags]).
  - apply alter_lookup in Ex as (x & Ex & ->). exists x. split; [done|]. pose proof (ck_fiber _ _ _ (Ok i x Ex)) as F.
    destruct (decide (i0 = i)) as [->|N]; [|apply moves_same; [done|flags|flags]]. constructor; cbn; try done; try lia; tauto.
  - apply Same; [done|by destruct k|by destruct k].
  - exists x'. split; [done|]. pose proof (ck_fiber _ _ _ (Ok i x' Ex)) as F. destruct (decide (i0 = i)) as [->|N].
    + assert (c = x') as -> by congruence. constructor; cbn; try done; try tauto; unfold same; rewrite ?bool_decide_true by done; destruct (cx_scheduler x'); cbn; try lia; tauto.
    + apply moves_same; [done|done|]. cbn. unfold same. rewrite bool_decide_false by congruence. by rewrite andb_false_r.
  - exists x'. split; [done|]. pose proof (ck_fiber _ _ _ (Ok i x' Ex)) as F. destruct (decide (i0 = i)) as [->|N].
    + assert (c = x') as -> by congruence. destruct scd, (cx_scheduler x') eqn:Es; try done; constructor; cbn; unfold same; rewrite ?bool_decide_true by done; rewrite ?Es; cbn; try done; try lia; tauto.
    + apply moves_same; [done|done|]. cbn. unfold same. rewrite bool_decide_false by congruence. by rewrite andb_false_r.
  - apply alter_lookup in Ex as (x & Ex & ->). exists x. split; [done|]. pose proof (ck_fiber _ _ _ (Ok i x Ex)) as F.
    destruct (decide (i0 = i)) as [->|N]; [|apply moves_same; [done|flags|cbn; unfold same; by rewrite bool_decide_false by congruence; rewrite andb_false_r]].
    assert (c = x) as -> by congruence. destruct scd, (cx_scheduler x) eqn:Es; try done. constructor; cbn; unfold same; rewrite ?bool_decide_true by done; cbn; rewrite ?Es; try done; try lia; tauto.
  - apply alter_lookup in Ex as (x & Ex & ->). exists x. split; [done|]. pose proof (ck_fiber _ _ _ (Ok i x Ex)) as F.
    destruct (decide (i0 = i)) as [->|N]; [|apply moves_same; [done|flags|cbn; unfold same; by rewrite bool_decide_false by congruence; rewrite andb_false_r]].
    assert (c = x) as -> by congruence. destruct scd, (cx_scheduler x) eqn:Es; try done.
    + pose proof (once_fiber s i x (Ok i x Ex) Es). exfalso. by rewrite bool_decide_true in *.
    + constructor; cbn; rewrite ?Es; try done; tauto.
  - apply alter_lookup in Ex as (x & Ex & ->). exists x. split; [done|]. pose proof (ck_fiber _ _ _ (Ok i x Ex)) as F.
    destruct (decide (i0 = i)) as [->|N]; [|apply moves_same; [done|flags|flags]].
    unfold cancel_timer. destruct (cx_timer x); constructor; cbn; unfold same; rewrite ?bool_decide_true by done; try done; tauto.
  - apply (Fields i0 (fun x => if cx_timed x then set_result ERR_TIMEOUT x else x)); [done|intros x; by destruct (cx_timed x)|done|done].
  - apply alter_lookup in Ex as (x & Ex & ->). exists x. split; [done|]. pose proof (ck_fiber _ _ _ (Ok i x Ex)) as F.
    destruct (decide (i0 = i)) as [->|N]; [|apply moves_same; [done|flags|flags]].
    constructor; cbn; unfold same; rewrite ?bool_decide_true by done; cbn; try done; try lia; auto.
Qed.

Lemma pc_step_ctxs_len s pc ok pc' s' : pc_step pc ok s = Some (pc', s') -> length (a_ctxs s') = length (a_ctxs s).
Proof. destruct pc; cbn; unfold addCtx, enqueue; repeat case_match; intros; simplify_eq; cbn; rewrite ?length_alter; done. Qed.

Record ctxs_ok (s : Async) : Prop := {
  cs_ok i x : a_ctxs s !! i = Some x -> ctx_ok s i x;
  cs_owner p pc i : a_procs s !! p = Some pc -> owns i pc = true -> (i < length (a_ctxs s))%nat;
}.

Lemma proc_step_ctxs s p ok s' : ctxs_ok s -> proc_step p ok s = Some s' -> ctxs_ok s'.
Proof.
  intros [Ok Ow] E. unfold proc_step in E. destruct (a_procs s !! p) as [pc|] eqn:Ep; [|done]. cbn in E.
  destruct (pc_step pc ok s) as [[pc' s1]|] eqn:Es; [|done]. injection E as <-. pose proof (pc_step_procs _ _ _ _ _ Es) as Pr.
  pose proof (pc_step_ctxs_len _ _ _ _ _ Es) as Ln.
  assert (Cnt : forall f, count f (a_procs (at_pc p pc' s1)) = count f (a_procs s) - Z.b2z (f pc) + Z.b2z (f pc')) by (intros f; cbn; rewrite Pr; by apply count_put).
  constructor.
  - intros i x' Ex. destruct (pc_step_moves s pc ok pc' s1 Es Ok i x' Ex) as (x & Ex0 & [M1 M2 M3 M4 M5 _ _]).
    destruct (Ok i x Ex0) as [O1 O2 O3]. constructor; [|done|].
    + unfold owners in *. rewrite Cnt. lia.
    + intros W'. assert (W : cx_woken x = 0%nat) by lia. pose proof (count_le (owns i) (pends i) (a_procs (at_pc p pc' s1)) (owns_pends i)) as Le.
      rewrite Cnt. pose proof (Cnt (owns i)) as Co. rewrite !Cnt in Le. unfold owners in O1.
      pose proof (count_nonneg (owns i) (a_procs (at_pc p pc' s1))) as Nn. rewrite Cnt in Nn.
      destruct (O3 W) as [A|P].
      * destruct (M5 A) as [?|Q]; [by left|right]. rewrite Q in *. pose proof (owns_pends i pc' Q) as Q'. rewrite Q' in *. cbn in *.
        pose proof (count_in (pends i) (a_procs (at_pc p pc' s1)) p pc') as Ci. rewrite Cnt, Q' in Ci. cbn in Ci. apply Ci; [|done].
        rewrite Pr. apply list_lookup_insert_eq. by eapply lookup_lt_Some.
      * destruct (pends i pc) eqn:Pp; cbn in *; [|right; destruct (pends i pc'); cbn; lia].
        destruct (M4 eq_refl) as [->|[?|[[_ ?]|[Sc No]]]]; [right; cbn; lia|done|by left|right]. rewrite Sc, W, No in *. cbn in *. lia.
  - intros q pc0 i Eq O. cbn in Eq. cbn [a_ctxs at_pc]. rewrite Ln. rewrite Pr in Eq. destruct (decide (p = q)) as [->|N].
    + rewrite list_lookup_insert_eq in Eq by (by eapply lookup_lt_Some). injection Eq as <-.
      destruct (owns i pc) eqn:Op; [by eapply Ow|]. destruct pc; cbn in *; unfold enqueue in *; repeat case_match; simplify_eq; cbn in O; try done;
        try (by destruct k); apply same_true in O as ->; try (by eapply lookup_lt_Some); by rewrite (proj2 (same_true _ _) eq_refl) in Op.
    + rewrite list_lookup_insert_ne in Eq by done. by eapply Ow.
Qed.

(** A process comes that owns nothing. *)
Lemma spawn_ctxs s pc : ctxs_ok s -> (forall i, owns i pc = false) -> ctxs_ok (spawn pc s).
Proof.
  intros [Ok Ow] No. constructor.
  - intros i x E. destruct (Ok i x E) as [O1 O2 O3]. unfold owners in *. constructor; cbn; [|done|].
    + unfold owners. cbn. rewrite count_app, count_one, No. cbn. lia.
    + intros W. destruct (O3 W) as [?|?]; [by left|right]. rewrite count_app, count_one. destruct (pends i pc); cbn; lia.
  - intros p q i E O. cbn in *. apply lookup_app_Some in E as [E|[_ E]]; [by eapply Ow|].
    apply list_lookup_singleton_Some in E as [_ <-]. by rewrite No in O.
Qed.

Lemma procs_ctxs s s' : a_procs s' = a_procs s -> a_ctxs s' = a_ctxs s -> ctxs_ok s -> ctxs_ok s'.
Proof.
  intros P C [Ok Ow]. constructor; [|by rewrite P, C]. intros i x. rewrite C. intros E. destruct (Ok i x E) as [O1 O2 O3].
  constructor; unfold owners in *; by rewrite ?P.
Qed.

(** A request comes, with its context. *)
Lemma request_ctxs s fiber sn : ctxs_ok s ->
  ctxs_ok (spawn (ReqAdd (length (a_ctxs s))) (add_ctx (new_Ctx sn fiber) s)).
Proof.
  intros [Ok Ow]. constructor.
  - intros i x Ex. cbn in Ex. apply lookup_app_Some in Ex as [Ex|[L Ex]].
    + destruct (Ok i x Ex) as [O1 O2 O3]. unfold owners in O1. constructor; unfold owners; cbn; rewrite ?count_app, ?count_one; cbn; [lia|done|].
      intros W. destruct (O3 W) as [?|?]; [by left|right]. destruct (same i _); cbn; lia.
    + apply list_lookup_singleton_Some in Ex as [Li <-]. assert (i = length (a_ctxs s)) as -> by lia.
      constructor; unfold owners; cbn; rewrite ?count_app, ?count_one; cbn; [|split; eauto|].
      * rewrite count_zero; [done|]. intros p pc Ep. destruct (owns _ pc) eqn:O; [|done]. specialize (Ow p pc _ Ep O). lia.
      * intros _. right. rewrite (proj2 (same_true _ _) eq_refl). pose proof (count_nonneg (pends (length (a_ctxs s))) (a_procs s)). cbn. lia.
  - intros p pc i Ep O. cbn in *. rewrite length_app. cbn. apply lookup_app_Some in Ep as [Ep|[_ Ep]]; [specialize (Ow p pc i Ep O); lia|].
    apply list_lookup_singleton_Some in Ep as [_ <-]. done.
Qed.

(** A timer fires. *)
Lemma fire_ctxs s i x : ctxs_ok s -> a_ctxs s !! i = Some x -> ctxs_ok (spawn (OutErase i) (on_ctx i (set_timer (cx_timer x) false) s)).
Proof.
  intros [Ok Ow] Ex. constructor.
  - intros j y Ey. apply alter_lookup in Ey as (z & Ez & ->). destruct (Ok j z Ez) as [O1 O2 O3]. unfold owners in O1.
    assert (C : count (owns j) (a_procs s ++ [OutErase i]) = count (owns j) (a_procs s)) by (rewrite count_app, count_one; cbn; lia).
    assert (P : count (pends j) (a_procs s ++ [OutErase i]) = count (pends j) (a_procs s) + Z.b2z (same j i)) by (by rewrite count_app, count_one).
    pose proof (count_nonneg (pends j) (a_procs s)). destruct (decide (i = j)) as [->|N].
    + constructor; unfold owners; cbn; rewrite ?C, ?P; try done. intros _. right. rewrite (proj2 (same_true _ _) eq_refl). cbn. lia.
    + constructor; unfold owners; cbn; rewrite ?C, ?P; try done. intros W. destruct (O3 W) as [?|?]; [by left|right]. destruct (same j i); cbn; lia.
  - intros p pc j Ep O. cbn in *. rewrite length_alter. apply lookup_app_Some in Ep as [Ep|[_ Ep]]; [by apply (Ow p pc)|].
    apply list_lookup_singleton_Some in Ep as [_ <-]. done.
Qed.

Lemma async_step_ctxs s l s' : ctxs_ok s -> async_step l s = Some s' -> ctxs_ok s'.
Proof.
  intros I E. destruct l as [p ok|fiber sn|m|i|r| | |]; cbn in E.
  - by eapply proc_step_ctxs.
  - destruct (a_connected s); [|done]. injection E as <-. by apply request_ctxs.
  - destruct (a_connected s); [|done]. injection E as <-. by apply spawn_ctxs.
  - destruct (a_ctxs s !! i) as [x|] eqn:Ex; [|done]. destruct (cx_armed x) eqn:A; [|done]. injection E as <-. by apply (fire_ctxs s i x).
  - injection E as <-. by apply spawn_ctxs.
  - injection E as <-. by apply spawn_ctxs.
  - injection E as <-. apply spawn_ctxs; [|done]. by apply (procs_ctxs s).
  - injection E as <-. by apply (procs_ctxs s).
Qed.

(** ** Numbers, responses and results *)

Definition good_result (rs : list Rsp) (sn r : Z) : Prop :=
  r = u32 ERR_TIMEOUT \/ r = u32 ERR_IO_ERROR \/ exists q, q ∈ rs /\ fst q = sn /\ r = u32 (snd q).

Definition good_response (rs : list Rsp) (sn : Z) (o : option Rsp) : Prop := forall q, o = Some q -> q ∈ rs /\ fst q = sn.

Definition good (rs : list Rsp) (x : Ctx) : Prop := good_result rs (cx_sn x) (cx_result x).

Definition at_ctx (s : Async) (i : nat) (P : Ctx -> Prop) : Prop := exists x, a_ctxs s !! i = Some x /\ P x.
Definition there (s : Async) (l : list nat) : Prop := forall i, i ∈ l -> at_ctx s i (fun _ => True).

Definition returned_ok (rs : list Rsp) (r : Z) (o : option Rsp) (x : Ctx) : Prop :=
  (exists r', good_result rs (cx_sn x) r' /\ r = s32 r') /\ good_response rs (cx_sn x) o /\ cx_woken x <> 0%nat.

(** What a process at [pc] knows, when the responses [rs] have been received. *)
Definition knows (rs : list Rsp) (s : Async) (pc : Pc) : Prop :=
  match pc with
  | Returned i r o => at_ctx s i (returned_ok rs r o)
  | OutMark i => at_ctx s i (fun _ => True)
  | RecvTake q => q ∈ rs
  | RecvResult i q => q ∈ rs /\ at_ctx s i (fun x => fst q = cx_sn x)
  | RecvResponse i q => q ∈ rs /\ at_ctx s i (fun x => fst q = cx_sn x /\ good rs x)
  | CloseClear l _ | CloseNext l _ => there s l
  | RspLoad i l _ | RspCas _ i l _ | RspTimer i l _ | RspTimed i l _ => at_ctx s i (fun x => cx_timed x = true \/ good rs x) /\ there s l
  | RspWake i l _ => at_ctx s i (good rs) /\ there s l
  | _ => True
  end.

Record told (rs : list Rsp) (s : Async) : Prop := {
  td_table sn i : m_ctxs s !! sn = Some i -> at_ctx s i (fun x => cx_sn x = sn);
  td_ctx i x : a_ctxs s !! i = Some x -> good_response rs (cx_sn x) (cx_response x) /\ (cx_woken x <> 0%nat -> good rs x);
  td_procs p pc : a_procs s !! p = Some pc -> knows rs s pc;
}.

(** How a context may change under the others. *)
Definition grows (rs : list Rsp) (x x' : Ctx) : Prop :=
  cx_sn x' = cx_sn x /\ (good rs x -> good rs x') /\ (cx_timed x = true -> cx_timed x' = true) /\ (cx_woken x <= cx_woken x')%nat.

Definition later (rs : list Rsp) (s s' : Async) : Prop := forall i x, a_ctxs s !! i = Some x -> at_ctx s' i (grows rs x).

Lemma at_later rs s s' i (P Q : Ctx -> Prop) : later rs s s' -> (forall x x', grows rs x x' -> P x -> Q x') -> at_ctx s i P -> at_ctx s' i Q.
Proof. intros L H (x & Ex & Px). destruct (L i x Ex) as (x' & Ex' & G). exists x'. split; [done|by eapply H]. Qed.

Lemma there_later rs s s' l : later rs s s' -> there s l -> there s' l.
Proof. intros L H i Hi. by apply (at_later rs s s' i (fun _ => True)); [| |apply H]. Qed.

Lemma knows_later rs s s' pc : later rs s s' -> knows rs s pc -> knows rs s' pc.
Proof.
  intros L. pose proof (there_later rs s s') as T.
  destruct pc; cbn; try done; try (by apply T);
    try (intros [H1 H2]; split; [|by auto]; revert H1); try (intros [H1 H2]; split; [done|]; revert H2); apply (at_later rs s s'); try done;
    intros x x' (Sn & G & Tm & W); rewrite ?Sn; unfold returned_ok; rewrite ?Sn; intuition (try lia).
Qed.

Lemma grows_refl rs x : grows rs x x.
Proof. by repeat split. Qed.

Lemma later_ctxs rs s s' : a_ctxs s' = a_ctxs s -> later rs s s'.
Proof. intros E i x Ex. exists x. rewrite E. split; [done|apply grows_refl]. Qed.

Lemma later_on rs s i f : (forall x, a_ctxs s !! i = Some x -> grows rs x (f x)) -> later rs s (on_ctx i f s).
Proof.
  intros H j x Ex. destruct (decide (i = j)) as [->|N].
  - exists (f x). cbn. rewrite list_lookup_alter_eq, Ex. split; [done|by apply H].
  - exists x. cbn. rewrite list_lookup_alter_ne by done. split; [done|apply grows_refl].
Qed.

(** The tables and the contexts, without the processes. *)
Record ctxs_told (rs : list Rsp) (s : Async) : Prop := {
  ct_table sn i : m_ctxs s !! sn = Some i -> at_ctx s i (fun x => cx_sn x = sn);
  ct_ctx i x : a_ctxs s !! i = Some x -> good_response rs (cx_sn x) (cx_response x) /\ (cx_woken x <> 0%nat -> good rs x);
}.

Lemma told_on rs s i f : ctxs_told rs s ->
  (forall x, a_ctxs s !! i = Some x -> grows rs x (f x) /\ good_response rs (cx_sn x) (cx_response (f x)) /\ (cx_woken (f x) <> 0%nat -> good rs (f x))) ->
  ctxs_told rs (on_ctx i f s).
Proof.
  intros [T C] H. pose proof (later_on rs s i f (fun x Ex => proj1 (H x Ex))) as L. constructor.
  - intros sn j E. apply (at_later rs s _ j (fun x => cx_sn x = sn)); [done|intros x x' (-> & _); done|by apply T].
  - intros j x' Ex'. cbn in Ex'. apply alter_lookup in Ex' as (x & Ex & ->). destruct (decide (i = j)) as [->|]; [|by apply (C j)].
    destruct (H x Ex) as ((Sn & _) & R & W). rewrite Sn. done.
Qed.

Lemma told_ctxs rs s s' : a_ctxs s' = a_ctxs s -> (forall sn i, m_ctxs s' !! sn = Some i -> at_ctx s i (fun x => cx_sn x = sn)) -> ctxs_told rs s -> ctxs_told rs s'.
Proof. intros E H [T C]. constructor; [|by rewrite E]. intros sn i Ei. unfold at_ctx. rewrite E. by apply H. Qed.

Lemma put_at s i f P : at_ctx s i (fun x => P (f x)) -> at_ctx (on_ctx i f s) i P.
Proof. intros (x & Ex & Px). exists (f x). cbn. by rewrite list_lookup_alter_eq, Ex. Qed.

Lemma good_written rs x r : good_result rs (cx_sn x) (u32 r) -> good rs (set_result r x).
Proof. done. Qed.

Lemma written_grows rs x r : good_result rs (cx_sn x) (u32 r) -> grows rs x (set_result r x).
Proof. intros G. repeat split; [intros _; done|done|done]. Qed.

(** A step that writes a good result. *)
Lemma write_told rs s i r : ctxs_told rs s -> (forall x, a_ctxs s !! i = Some x -> good_result rs (cx_sn x) (u32 r)) ->
  later rs s (on_ctx i (set_result r) s) /\ ctxs_told rs (on_ctx i (set_result r) s).
Proof.
  intros Td H. split; [apply later_on; intros x Ex; by apply written_grows, H|]. apply told_on; [done|]. intros x Ex.
  split; [by apply written_grows, H|]. split; [apply (ct_ctx _ _ Td i x Ex)|]. intros _. by apply good_written, H.
Qed.

(** A step that changes neither the result nor the number of wake-ups. *)
Lemma quiet_told rs s i f : ctxs_told rs s ->
  (forall x, cx_sn (f x) = cx_sn x /\ cx_result (f x) = cx_result x /\ (cx_timed x = true -> cx_timed (f x) = true) /\ cx_woken (f x) = cx_woken x /\
     (a_ctxs s !! i = Some x -> good_response rs (cx_sn x) (cx_response x) -> good_response rs (cx_sn x) (cx_response (f x)))) ->
  later rs s (on_ctx i f s) /\ ctxs_told rs (on_ctx i f s).
Proof.
  intros Td H. assert (G : forall x, a_ctxs s !! i = Some x -> grows rs x (f x)).
  { intros x _. destruct (H x) as (Sn & R & T & W & _). unfold grows, good. rewrite Sn, R, W. done. }
  split; [by apply later_on|]. apply told_on; [done|]. intros x Ex. destruct (H x) as (Sn & R & T & W & Q). destruct (ct_ctx _ _ Td i x Ex) as [Rs Wk].
  split; [by apply G|]. split; [by apply Q|]. unfold good. by rewrite W, Sn, R.
Qed.

Lemma pc_step_told rs s pc ok pc' s' : ctxs_told rs s -> knows rs s pc -> pc_step pc ok s = Some (pc', s') ->
  later rs s s' /\ ctxs_told rs s' /\ knows rs s' pc'.
Proof.
  intros Td K E.
  assert (Same : a_ctxs s' = a_ctxs s -> (forall sn i, m_ctxs s' !! sn = Some i -> at_ctx s i (fun x => cx_sn x = sn)) -> knows rs s pc' ->
    later rs s s' /\ ctxs_told rs s' /\ knows rs s' pc').
  { intros Es Tb K'. pose proof (later_ctxs rs s s' Es) as L. split; [done|]. split; [by apply (told_ctxs rs s)|by apply (knows_later rs s)]. }
  assert (Tb : forall sn i, m_ctxs s !! sn = Some i -> at_ctx s i (fun x => cx_sn x = sn)) by apply Td.
  destruct pc; cbn in E; unfold addCtx, enqueue in E; repeat case_match; simplify_eq; try (apply Same; done).
  - apply Same; [done| |done]. intros sn j. cbn. intros [[<- <-]|[_ Ej]]%lookup_insert_Some; [by exists c|by apply Tb].
  - destruct (quiet_told rs s i (fun x => set_timer (cx_timer x) true x) Td) as [L C]; [by intros|]. done.
  - destruct (quiet_told rs s i (fun x => set_timer true (cx_armed x) x) Td) as [L C]; [by intros|]. done.
  - apply Same; [done|done|]. exists c. split; [done|]. destruct (ct_ctx _ _ Td i c) as [R W]; [done|]. assert (Wk : cx_woken c <> 0%nat) by lia.
    split; [|done]. exists (cx_result c). split; [by apply W|done].
  - apply Same; [done| |by exists c]. intros sn j. cbn. intros [_ Ej]%lookup_delete_Some. by apply Tb.
  - destruct (quiet_told rs s i set_timed Td) as [L C]; [by intros|]. split; [done|]. split; [done|]. split; [|by intros j B%elem_of_nil].
    destruct K as (x & Ex & _). apply put_at. exists x. split; [done|by left].
  - apply Same; [done| |]; [intros sn j; cbn; intros [_ Ej]%lookup_delete_Some; by apply Tb|]. split; [done|].
    destruct (Tb (fst r) n) as (x & Ex & Sn); [done|]. by exists x.
  - apply Same; [done| |done]. intros sn j. cbn. intros [_ Ej]%lookup_delete_Some. by apply Tb.
  - destruct K as [Hr (x & Ex & Sn)]. assert (G : forall x, a_ctxs s !! i = Some x -> good_result rs (cx_sn x) (u32 (snd r))).
    { intros y Ey. right. right. exists r. split; [done|]. split; [congruence|done]. }
    destruct (write_told rs s i (snd r) Td G) as [L C]. split; [done|]. split; [done|]. split; [done|]. apply put_at. exists x. split; [done|]. split; [done|by apply good_written, G].
  - destruct K as [Hr (x & Ex & Sn & G)]. destruct (quiet_told rs s i (set_response r) Td) as [L C].
    { intros y. repeat (split; [done|]). intros Ey _ q [= <-]. split; [done|congruence]. }
    split; [done|]. split; [done|]. split; [|by intros j B%elem_of_nil]. apply put_at. exists x. split; [done|by right].
  - apply Same; [done| |]; [intros sn j; cbn; by rewrite lookup_empty|]. intros j Hj. apply list_elem_of_In, in_map_iff in Hj as ([sn j'] & <- & Hj%list_elem_of_In).
    apply elem_of_map_to_list in Hj. destruct (Tb sn j' Hj) as (x & Ex & _). by exists x.
  - apply Same; [done|done|by destruct k].
  - destruct (write_told rs s n ERR_IO_ERROR Td) as [L C]; [by right; left|]. split; [done|]. split; [done|]. split.
    + destruct (K n) as (x & Ex & _); [left|]. apply put_at. exists x. split; [done|]. right. by right; left.
    + apply (there_later rs s); [done|]. intros j Hj. apply K. by right.
  - apply Same; [done|done|]. apply K.
  - destruct (quiet_told rs s i clear_scheduler Td) as [L C]; [by intros|]. split; [done|]. split; [done|]. by apply (knows_later rs s _ (RspTimer i l k)).
  - destruct (quiet_told rs s i clear_scheduler Td) as [L C]; [by intros|]. split; [done|]. split; [done|]. apply (knows_later rs s _ (CloseNext l k)); [done|apply K].
  - destruct (quiet_told rs s i cancel_timer Td) as [L C]; [intros x; unfold cancel_timer; by destruct (cx_timer x)|]. split; [done|]. split; [done|].
    by apply (knows_later rs s _ (RspTimed i l k)).
  - destruct K as [(x & Ex & G) Th]. set (f := fun x => if cx_timed x then set_result ERR_TIMEOUT x else x).
    assert (Gf : forall y, a_ctxs s !! i = Some y -> grows rs y (f y) /\ good rs (f y)).
    { intros y Ey. assert (y = x) as -> by congruence. unfold f. destruct (cx_timed x) eqn:Tm.
      - split; [apply written_grows|apply good_written]; by left.
      - split; [apply grows_refl|]. by destruct G. }
    assert (L : later rs s (on_ctx i f s)) by (apply later_on; intros y Ey; by apply Gf).
    split; [done|]. split; [|split; [|by apply (there_later rs s)]].
    + apply told_on; [done|]. intros y Ey. destruct (Gf y Ey) as [G1 G2]. split; [done|]. split; [|by intros _].
      destruct (ct_ctx _ _ Td i y Ey) as [R _]. unfold f. by destruct (cx_timed y).
    + apply put_at. exists x. split; [done|]. by apply Gf.
  - destruct K as [(x & Ex & G) Th].
    assert (L : later rs s (on_ctx i schedule_fiber s)) by (apply later_on; intros y _; repeat split; [done|done|cbn; lia]).
    split; [done|]. split; [|by apply (there_later rs s)]. apply told_on; [done|]. intros y Ey. assert (y = x) as -> by congruence.
    split; [repeat split; [done|done|cbn; lia]|]. split; [apply (ct_ctx _ _ Td i x Ex)|done].
Qed.

(** ** Runs *)

Definition received (ls : list label) : list Rsp := omap (fun l => match l with LRecv r => Some r | _ => None end) ls.

Lemma good_result_more rs k sn r : good_result rs sn r -> good_result (rs ++ k) sn r.
Proof. intros [?|[?|(q & ? & ?)]]; [by left|by right; left|right; right]. exists q. split; [apply elem_of_app; by left|done]. Qed.

Lemma good_response_more rs k sn o : good_response rs sn o -> good_response (rs ++ k) sn o.
Proof. intros H q E. destruct (H q E). split; [apply elem_of_app; by left|done]. Qed.

Lemma at_ctx_mono s i (P Q : Ctx -> Prop) : (forall x, P x -> Q x) -> at_ctx s i P -> at_ctx s i Q.
Proof. intros H (x & Ex & Px). exists x. auto. Qed.

Lemma knows_more rs k s pc : knows rs s pc -> knows (rs ++ k) s pc.
Proof.
  pose proof (fun x => good_result_more rs k (cx_sn x)) as G. pose proof (fun x => good_response_more rs k (cx_sn x)) as R.
  assert (M : forall q : Rsp, q ∈ rs -> q ∈ rs ++ k) by (intros q; rewrite elem_of_app; by left).
  destruct pc; cbn; try done; try apply M; unfold returned_ok, good.
  all: try (intros [H1 H2]; split; [by auto|]; revert H2); try (intros [H1 H2]; split; [|by auto]; revert H1); apply at_ctx_mono; intros x; try solve [intuition auto].
  intros ((r' & Gr & ->) & Gp & W). split; [exists r'; auto|auto].
Qed.

Lemma told_more rs k s : told rs s -> told (rs ++ k) s.
Proof.
  intros [T C P]. constructor; [done| |intros p pc E; by eapply knows_more, P]. intros i x E. destruct (C i x E) as [R W].
  split; [by apply good_response_more|]. intros Wk. by apply good_result_more, W.
Qed.

Lemma told_tables rs s : told rs s <-> ctxs_told rs s /\ (forall p pc, a_procs s !! p = Some pc -> knows rs s pc).
Proof. split; [intros [T C P]; split; [by constructor|done]|intros [[T C] P]; by constructor]. Qed.

(** Contexts and tables move on, and one process comes or moves. *)
Lemma told_later rs s s' (l : list Pc) : later rs s s' -> ctxs_told rs s' -> told rs s ->
  (forall p pc, a_procs s' !! p = Some pc -> a_procs s !! p = Some pc \/ pc ∈ l) -> (forall pc, pc ∈ l -> knows rs s' pc) -> told rs s'.
Proof.
  intros L C [_ _ P] Pr K. apply told_tables. split; [done|]. intros p pc E. destruct (Pr p pc E) as [E'|E']; [|by apply K].
  by apply (knows_later rs s), (P p).
Qed.

Lemma proc_step_told rs s p ok s' : told rs s -> proc_step p ok s = Some s' -> told rs s'.
Proof.
  intros T E. unfold proc_step in E. destruct (a_procs s !! p) as [pc|] eqn:Ep; [|done]. cbn in E.
  destruct (pc_step pc ok s) as [[pc' s1]|] eqn:Es; [|done]. injection E as <-. pose proof (pc_step_procs _ _ _ _ _ Es) as Pr.
  destruct (proj1 (told_tables rs s) T) as [C K]. destruct (pc_step_told rs s pc ok pc' s1 C (K p pc Ep) Es) as (L & C1 & K1).
  apply (told_later rs s _ [pc']); [done|by destruct C1|done| |].
  - intros q pc0 Eq. cbn in Eq. rewrite Pr in Eq. apply list_lookup_insert_Some in Eq as [(_ & <- & _)|[_ ?]]; [right; by left|by left].
  - intros pc0 ->%list_elem_of_singleton. done.
Qed.

Lemma spawn_told rs s pc : told rs s -> knows rs s pc -> told rs (spawn pc s).
Proof.
  intros T K. apply (told_later rs s _ [pc]); [by apply later_ctxs| |done| |].
  - destruct T as [T C _]. by constructor.
  - intros p pc' E. cbn in E. apply lookup_app_Some in E as [?|[_ E]]; [by left|right]. apply list_lookup_singleton_Some in E as [_ <-]. by left.
  - intros pc' ->%list_elem_of_singleton. done.
Qed.

Lemma request_told rs s fiber sn : told rs s -> told rs (add_ctx (new_Ctx sn fiber) s).
Proof.
  intros T. assert (L : later rs s (add_ctx (new_Ctx sn fiber) s)).
  { intros i x Ex. exists x. split; [cbn; by apply lookup_app_l_Some|apply grows_refl]. }
  destruct T as [T C P]. constructor.
  - intros n i E. apply (at_later rs s _ i (fun x => cx_sn x = n)); [done|intros x x' (-> & _); done|by apply T].
  - intros i x E. cbn in E. apply lookup_app_Some in E as [E|[_ E]]; [by apply (C i)|]. apply list_lookup_singleton_Some in E as [_ <-]. done.
  - intros p pc E. by apply (knows_later rs s), (P p).
Qed.

Lemma async_step_told rs s l s' : told rs s -> async_step l s = Some s' -> told (rs ++ received [l]) s'.
Proof.
  intros T E. destruct l as [p ok|fiber sn|m|i|r| | |]; cbn in E; cbn [received omap list_omap]; rewrite ?app_nil_r.
  - by eapply proc_step_told.
  - destruct (a_connected s); [|done]. injection E as <-. apply spawn_told; [|done]. by apply request_told.
  - destruct (a_connected s); [|done]. injection E as <-. by apply spawn_told.
  - destruct (a_ctxs s !! i) as [x|] eqn:Ex; [|done]. destruct (cx_armed x) eqn:A; [|done]. injection E as <-. apply spawn_told; [|done].
    destruct (proj1 (told_tables rs s) T) as [C K]. destruct (quiet_told rs s i (set_timer (cx_timer x) false) C) as [L C']; [by intros|].
    by apply (told_later rs s _ []); [| | |intros p pc Ep; left|intros pc B%elem_of_nil].
  - injection E as <-. apply spawn_told; [by apply told_more|]. cbn. apply elem_of_app. right. by left.
  - injection E as <-. by apply spawn_told.
  - injection E as <-. apply spawn_told; [|done]. by destruct T.
  - injection E as <-. by destruct T.
Qed.

Record valid (rs : list Rsp) (s : Async) : Prop := { va_ctxs : ctxs_ok s; va_told : told rs s }.

Lemma new_valid : valid [] new_Async.
Proof. constructor; constructor; by intros. Qed.

Lemma async_step_valid rs s l s' : valid rs s -> async_step l s = Some s' -> valid (rs ++ received [l]) s'.
Proof. intros [C T] E. constructor; [by eapply async_step_ctxs|by eapply async_step_told]. Qed.

Lemma async_run_valid ls rs s s' : valid rs s -> async_run ls s = Some s' -> valid (rs ++ received ls) s'.
Proof.
  revert rs s. induction ls as [|l ls IH]; intros rs s V E; cbn [async_run] in E.
  - injection E as <-. cbn. by rewrite app_nil_r.
  - destruct (async_step l s) as [s1|] eqn:Es; [|done]. pose proof (IH _ _ (async_step_valid _ _ _ _ V Es) E) as H. rewrite <- app_assoc in H.
    by replace (received (l :: ls)) with (received [l] ++ received ls) by (destruct l; reflexivity).
Qed.

Lemma reached ls s : async_run ls new_Async = Some s -> valid (received ls) s.
Proof. apply (async_run_valid ls [] new_Async s new_valid). Qed.

(** ** Progress *)

(** Steps of the processes that are there and the timers, and nothing from outside. *)
Definition inside (l : label) : bool := match l with LStep _ _ | LFire _ => true | _ => false end.

Definition woken (i : nat) (s : Async) : Prop := at_ctx s i (fun x => cx_woken x = 1%nat).

Definition comes (i : nat) (s : Async) : Prop := exists ls s', Forall (fun l => inside l = true) ls /\ async_run ls s = Some s' /\ woken i s'.

Lemma comes_step i s l s' : async_step l s = Some s' -> inside l = true -> comes i s' -> comes i s.
Proof. intros E In (ls & s2 & F & R & W). exists (l :: ls), s2. split; [by constructor|]. split; [cbn; by rewrite E|done]. Qed.

Lemma woken_once s i x : ctx_ok s i x -> cx_woken x <> 0%nat -> cx_woken x = 1%nat.
Proof. intros [O _ _] W. pose proof (count_nonneg (owns i) (a_procs s)). unfold owners in O. destruct (cx_scheduler x); lia. Qed.

Lemma comes_now i s x : ctxs_ok s -> a_ctxs s !! i = Some x -> cx_woken x <> 0%nat -> comes i s.
Proof. intros C E W. exists [], s. split; [done|]. split; [done|]. exists x. split; [done|]. eapply woken_once; [by apply C|done]. Qed.

Lemma among_elem i l : among i l = true <-> i ∈ l.
Proof. unfold among. apply bool_decide_eq_true. Qed.

(** A process that is to answer [i] never waits. *)
Lemma pends_steps rs s i x pc : a_ctxs s !! i = Some x -> knows rs s pc -> pends i pc = true ->
  exists pc' s', pc_step pc true s = Some (pc', s').
Proof.
  intros Ex K P. destruct pc; cbn in P |- *; try done; eauto.
  - apply same_true in P as <-. rewrite Ex. eauto.
  - apply same_true in P as <-. rewrite Ex. eauto.
  - destruct l; eauto.
  - destruct K as [(y & Ey & _) _]. rewrite Ey. eauto.
  - destruct K as [(y & Ey & _) _]. rewrite Ey. repeat case_match; eauto.
Qed.

(** How many steps a process has at most until it has exchanged the schedulers that are
    left to it. *)
Definition rank (pc : Pc) : nat :=
  match pc with
  | OutErase _ | RecvResult _ _ => 9
  | OutMark _ | RecvResponse _ _ => 8
  | CloseClear l _ => 10 * length l + 1
  | CloseNext l _ => 10 * length l
  | RspLoad _ l _ => 10 * length l + 6
  | RspCas _ _ l _ => 10 * length l + 5
  | RspTimer _ l _ => 10 * length l + 4
  | RspTimed _ l _ => 10 * length l + 3
  | RspWake _ l _ => 10 * length l + 2
  | _ => 0
  end.

(** The request has yet to set its timer. *)
Definition arming (pc : Pc) : bool := match pc with ReqAdd _ | ReqArm _ => true | _ => false end.

Lemma rank_step pc ok s pc' s' i : arming pc = false -> pends i pc = true -> pends i pc' = true -> pc_step pc ok s = Some (pc', s') ->
  (rank pc' < rank pc)%nat /\ arming pc' = false.
Proof. destruct pc; cbn; try done; repeat case_match; intros; simplify_eq; cbn; try done; try lia. all: by destruct k. Qed.

Section Moving.
Context (rs : list Rsp) (i : nat).

(** What a process at [pc] of a state where [i] has not been answered comes to. *)
Lemma process_moves s p pc x : valid rs s -> a_procs s !! p = Some pc -> a_ctxs s !! i = Some x -> cx_woken x = 0%nat -> pends i pc = true ->
  exists pc' s' x', async_step (LStep p true) s = Some s' /\ a_procs s' !! p = Some pc' /\ (exists s1, pc_step pc true s = Some (pc', s1)) /\
    valid rs s' /\ a_ctxs s' !! i = Some x' /\ moves i pc pc' x x'.
Proof.
  intros [C T] Ep Ex W P. destruct (pends_steps rs s i x pc Ex (td_procs _ _ T p pc Ep) P) as (pc' & s1 & Es).
  assert (E : async_step (LStep p true) s = Some (at_pc p pc' s1)) by (cbn; unfold proc_step; rewrite Ep; cbn; by rewrite Es).
  pose proof (async_step_valid rs s _ _ (Build_valid rs s C T) E) as V. cbn [received omap list_omap] in V. rewrite app_nil_r in V.
  pose proof (pc_step_ctxs_len _ _ _ _ _ Es) as Ln. destruct (lookup_lt_is_Some_2 (a_ctxs s1) i) as [x' Ex']; [rewrite Ln; by eapply lookup_lt_Some|].
  destruct (pc_step_moves s pc true pc' s1 Es (cs_ok _ C) i x' Ex') as (x0 & Ex0 & M). assert (x0 = x) as -> by congruence.
  exists pc', (at_pc p pc' s1), x'. split; [done|]. split; [cbn; rewrite (pc_step_procs _ _ _ _ _ Es); apply list_lookup_insert_eq; by eapply lookup_lt_Some|]. eauto.
Qed.

(** The process that has exchanged the scheduler wakes the coroutine. *)
Lemma owner_comes n s p pc x : (rank pc <= n)%nat -> valid rs s -> a_procs s !! p = Some pc -> a_ctxs s !! i = Some x -> owns i pc = true -> comes i s.
Proof.
  revert s pc x. induction n as [|n IH]; intros s pc x Le V Ep Ex O.
  - exfalso. destruct pc; cbn in O, Le; try done; lia.
  - destruct (decide (cx_woken x = 0%nat)) as [W|W]; [|by eapply comes_now; [apply V| |]].
    destruct (process_moves s p pc x V Ep Ex W (owns_pends i pc O)) as (pc' & s' & x' & E & Ep' & (s1 & Es) & V' & Ex' & M).
    apply (comes_step i s _ s' E eq_refl). destruct (owns i pc') eqn:O'.
    + apply (IH s' pc' x'); try done. destruct (rank_step pc true s pc' s1 i ltac:(by destruct pc) (owns_pends i pc O) (owns_pends i pc' O') Es). lia.
    + apply (comes_now i s' x'); [apply V'|done|]. pose proof (mv_gone _ _ _ _ _ M) as Mg. destruct M as [M _ _ _ _ _ _]. rewrite O, O', W in M. cbn in M.
      pose proof (ck_once _ _ _ (cs_ok _ (va_ctxs _ _ V) i x Ex)) as Oc. pose proof (count_in (owns i) (a_procs s) p pc Ep O).
      unfold owners in *. destruct (cx_scheduler x); [lia|]. rewrite Mg in M by done. lia.
Qed.

(** A scheduler that is gone has been taken by a process. *)
Lemma taken_comes s x : valid rs s -> a_ctxs s !! i = Some x -> cx_scheduler x = false -> comes i s.
Proof.
  intros V Ex Sc. destruct (decide (cx_woken x = 0%nat)) as [W|W]; [|by eapply comes_now; [apply V| |]].
  pose proof (ck_once _ _ _ (cs_ok _ (va_ctxs _ _ V) i x Ex)) as O. rewrite Sc, W in O.
  destruct (count_pos (owns i) (a_procs s)) as (p & pc & Ep & Op); [unfold owners in O; lia|]. by apply (owner_comes (rank pc) s p pc x).
Qed.

Lemma pending_comes n s p pc x : (rank pc <= n)%nat -> arming pc = false -> valid rs s -> a_procs s !! p = Some pc -> a_ctxs s !! i = Some x ->
  pends i pc = true -> comes i s.
Proof.
  revert s pc x. induction n as [|n IH]; intros s pc x Le A V Ep Ex P.
  - exfalso. destruct pc; cbn in P, Le, A; try done; try lia. destruct l; cbn in *; [done|lia].
  - destruct (decide (cx_woken x = 0%nat)) as [W|W]; [|by eapply comes_now; [apply V| |]].
    destruct (process_moves s p pc x V Ep Ex W P) as (pc' & s' & x' & E & Ep' & (s1 & Es) & V' & Ex' & M).
    destruct (mv_pends _ _ _ _ _ M P) as [P'|[W'|[[-> _]|[Sc _]]]]; [|..|by apply (taken_comes s x)]; apply (comes_step i s _ s' E eq_refl).
    + destruct (rank_step pc true s pc' s1 i A P P' Es) as [Lt A']. apply (IH s' pc' x'); try done. lia.
    + apply (comes_now i s' x'); [apply V'|done|done].
    + done.
Qed.

Lemma armed_comes s x : valid rs s -> a_ctxs s !! i = Some x -> cx_armed x = true -> comes i s.
Proof.
  intros V Ex A. set (s' := spawn (OutErase i) (on_ctx i (set_timer (cx_timer x) false) s)).
  assert (E : async_step (LFire i) s = Some s') by (cbn; by rewrite Ex, A).
  pose proof (async_step_valid rs s _ _ V E) as V'. cbn [received omap list_omap] in V'. rewrite app_nil_r in V'.
  apply (comes_step i s _ s' E eq_refl).
  apply (pending_comes 9 s' (length (a_procs s)) (OutErase i) (set_timer (cx_timer x) false x)); try done; [| |by apply same_true].
  - cbn. by rewrite lookup_app_r, Nat.sub_diag.
  - cbn. by rewrite list_lookup_alter_eq, Ex.
Qed.

Lemma unanswered_comes s x : valid rs s -> a_ctxs s !! i = Some x -> comes i s.
Proof.
  intros V Ex. destruct (decide (cx_woken x = 0%nat)) as [W|W]; [|by eapply comes_now; [apply V| |]].
  destruct (ck_wait _ _ _ (cs_ok _ (va_ctxs _ _ V) i x Ex) W) as [A|P]; [by apply (armed_comes s x)|].
  destruct (count_pos _ _ P) as (p & pc & Ep & Pp). destruct (arming pc) eqn:A; [|by apply (pending_comes (rank pc) s p pc x)].
  assert (Arm : forall s, valid rs s -> a_procs s !! p = Some (ReqArm i) -> forall x, a_ctxs s !! i = Some x -> comes i s).
  { clear. intros s V Ep x Ex. pose proof (proj2 (same_true i i) eq_refl) as P.
    destruct (decide (cx_woken x = 0%nat)) as [W|W]; [|by eapply comes_now; [apply V| |]].
    destruct (process_moves s p _ x V Ep Ex W P) as (pc' & s' & x' & E & Ep' & (s1 & Es) & V' & Ex' & M).
    apply (comes_step i s _ s' E eq_refl). cbn in Es. injection Es as <- <-.
    destruct (mv_pends _ _ _ _ _ M P) as [P'|[W'|[[_ A]|[Sc _]]]]; [done|by apply (comes_now i s' x'); [apply V'| |]|by apply (armed_comes s' x')|].
    apply (taken_comes s' x'); try done. by apply (mv_gone _ _ _ _ _ M). }
  destruct pc; try done; apply same_true in Pp as <-; [|by apply (Arm s V Ep x)].
  destruct (process_moves s p _ x V Ep Ex W) as (pc' & s' & x' & E & Ep' & (s1 & Es) & V' & Ex' & M); [by apply same_true|].
  apply (comes_step i s _ s' E eq_refl). cbn in Es. rewrite Ex in Es. injection Es as <- _. by apply (Arm s' V' Ep' x').
Qed.
End Moving.

(** ** The writer *)

(** What is queued has a permit, or a process that is about to give one or to take the
    queue. *)
Record queue_ok (s : Async) : Prop := {
  qo_sem : 0 <= a_sem s;
  qo_wakes : a_queue s <> [] -> 1 <= a_sem s + count notifies (a_procs s);
}.

Lemma proc_step_queue s p ok s' : queue_ok s -> proc_step p ok s = Some s' -> queue_ok s'.
Proof.
  intros [Sm Q] E. unfold proc_step in E. destruct (a_procs s !! p) as [pc|] eqn:Ep; [|done]. cbn in E.
  destruct (pc_step pc ok s) as [[pc' s1]|] eqn:Es; [|done]. injection E as <-. pose proof (pc_step_procs _ _ _ _ _ Es) as Pr.
  pose proof (count_put notifies (a_procs s) p pc pc' Ep) as C. pose proof (count_nonneg notifies (<[p:=pc']> (a_procs s))) as N.
  pose proof (count_nonneg notifies (a_procs s)) as N0.
  destruct pc; cbn in Es; unfold addCtx, getAndDelCtx, enqueue in Es; repeat case_match; simplify_eq; constructor; cbn in *; rewrite ?C; try done; try lia;
    try (intros Hne; specialize (Q Hne); try destruct k; cbn in *; lia); try (intros _; specialize (Q ltac:(congruence)); lia).
Qed.

Lemma spawn_queue s pc : queue_ok s -> queue_ok (spawn pc s).
Proof.
  intros [Sm Q]. constructor; [done|]. cbn. intros H. specialize (Q H). rewrite count_app, count_one. destruct (notifies pc); cbn; lia.
Qed.

Lemma same_queue s s' : a_sem s' = a_sem s -> a_queue s' = a_queue s -> a_procs s' = a_procs s -> queue_ok s -> queue_ok s'.
Proof. intros E1 E2 E3 [Sm Q]. constructor; by rewrite ?E1, ?E2, ?E3. Qed.

Lemma async_step_queue s l s' : queue_ok s -> async_step l s = Some s' -> queue_ok s'.
Proof.
  intros Q E. destruct l as [p ok|fiber sn|m|i|r| | |]; cbn in E; [by eapply proc_step_queue|..]; repeat case_match; simplify_eq;
    try apply spawn_queue; by apply (same_queue s).
Qed.

Lemma async_run_queue ls s s' : queue_ok s -> async_run ls s = Some s' -> queue_ok s'.
Proof.
  revert s. induction ls as [|l ls IH]; cbn [async_run]; intros s Q E; [by injection E as <-|].
  destruct (async_step l s) as [s1|] eqn:Es; [|done]. by eapply IH, E; eapply async_step_queue.
Qed.

(** ** The properties *)

(** C14: the coroutine of a request is woken at most once, whatever comes together; a
    request that returns has been woken, and it returns the timeout, the error of the
    connection or the result of a response with its own number that has been received;
    and a response it returns is such a one. *)
Theorem Request_answered (ls : list label) (s : Async) : async_run ls new_Async = Some s ->
  (forall i x, a_ctxs s !! i = Some x -> (cx_woken x <= 1)%nat) /\
  (forall p i r o, a_procs s !! p = Some (Returned i r o) ->
     exists x, a_ctxs s !! i = Some x /\ cx_woken x = 1%nat /\
       (r = ERR_TIMEOUT \/ r = ERR_IO_ERROR \/ exists q, q ∈ received ls /\ fst q = cx_sn x /\ r = s32 (snd q)) /\
       (forall q, o = Some q -> q ∈ received ls /\ fst q = cx_sn x)).
Proof.
  intros [C T]%reached. assert (One : forall i x, a_ctxs s !! i = Some x -> cx_woken x <> 0%nat -> cx_woken x = 1%nat).
  { intros i x Ex. eapply woken_once. by apply C. }
  split.
  - intros i x Ex. specialize (One i x Ex). lia.
  - intros p i r o Ep. destruct (td_procs _ _ T p _ Ep) as (x & Ex & (r' & G & ->) & R & W). exists x. split; [done|]. split; [by apply (One i)|].
    split; [|done]. destruct G as [->|[->|(q & Hq & Sn & ->)]]; [by left|by right; left|right; right]. exists q. split; [done|]. split; [done|]. apply (sint_mod 32). done.
Qed.

(** C15: no request is forgotten: from every state, the processes that are there and the
    timers wake its coroutine, with no response and nobody else. *)
Theorem Request_progress (ls : list label) (s : Async) (i : nat) : async_run ls new_Async = Some s -> (i < length (a_ctxs s))%nat ->
  exists ls' s', forallb inside ls' = true /\ async_run ls' s = Some s' /\ exists x, a_ctxs s' !! i = Some x /\ cx_woken x = 1%nat.
Proof.
  intros V%reached Lt. apply lookup_lt_is_Some_2 in Lt as [x Ex]. destruct (unanswered_comes _ i s x V Ex) as (ls' & s' & In & R & W).
  exists ls', s'. split; [|done]. apply forallb_forall. intros l Hl. rewrite List.Forall_forall in In. by apply In.
Qed.

(** C16: the notification of the first item of an empty queue is enough: while something
    is queued, the semaphore of the writer has a permit, or a process is about to give
    one or to take the whole queue; and it never counts below zero. *)
Theorem Writer_wakes (ls : list label) (s : Async) : async_run ls new_Async = Some s ->
  0 <= a_sem s /\ (a_queue s <> [] -> 0 < a_sem s \/ exists p pc, a_procs s !! p = Some pc /\ notifies pc = true).
Proof.
  intros R. destruct (async_run_queue ls new_Async s) as [Sm Q]; [constructor; done|done|]. split; [done|]. intros N. specialize (Q N).
  destruct (decide (0 < a_sem s)) as [?|?]; [by left|right]. apply count_pos. lia.
Qed.

(** ** Runs of two requests *)

Definition steps (p n : nat) : list label := repeat (LStep p true) n.

(** A request that is answered by its response. *)
Definition answered_run : list label :=
  [LRequest 10 7] ++ steps 0 5 ++ [LRecv (7, 4294967291)] ++ steps 1 8 ++ steps 0 1.

Definition state_after (ls : list label) : Async := default new_Async (async_run ls new_Async).

Definition view (s : Async) : list Pc * list Z * list (Z * nat) := (a_procs s, map (fun x => Z.of_nat (cx_woken x)) (a_ctxs s), map_to_list (m_ctxs s)).

Example answered_view : view (state_after answered_run) = ([Returned 0 (-5) (Some (7, 4294967291)); CloseNext [] Stop], [1], []).
Proof. vm_compute. reflexivity. Qed.

(** The timer fires while the response is written into the context: the request returns a
    result of zero, which is that of the response, and no response. *)
Definition torn_run : list label :=
  [LRequest 10 7] ++ steps 0 5 ++ [LRecv (7, 0)] ++ steps 1 1 ++ [LFire 0] ++ steps 2 6 ++ steps 1 1 ++ steps 2 1 ++ steps 0 1.

Example torn_view : view (state_after torn_run) = ([Returned 0 0 None; RecvResponse 0 (7, 0); CloseNext [] Stop], [1], []).
Proof. vm_compute. reflexivity. Qed.

(** Two requests with one number: the second leaves no entry, its timeout takes the entry
    of the first, and the response that comes finds nobody. *)
Definition twice_run : list label :=
  [LRequest 10 7] ++ steps 0 5 ++ [LRequest 11 7] ++ steps 1 4 ++ [LFire 1] ++ steps 2 1 ++ [LRecv (7, 0)] ++ steps 3 1.

Example twice_view : view (state_after twice_run) = ([Held 0; Held 1; OutMark 1; Done], [0; 0], []).
Proof. vm_compute. reflexivity. Qed.

(** ** Witnesses *)

Lemma Request_answered_witness : async_run answered_run new_Async = Some (state_after answered_run) /\
  (forall i x, a_ctxs (state_after answered_run) !! i = Some x -> (cx_woken x <= 1)%nat) /\
  exists x, a_ctxs (state_after answered_run) !! 0%nat = Some x /\ cx_woken x = 1%nat.
Proof.
  assert (E : async_run answered_run new_Async = Some (state_after answered_run)) by (vm_compute; reflexivity).
  destruct (Request_answered answered_run _ E) as [One Ret]. split; [done|]. split; [done|].
  destruct (Ret 0%nat 0%nat (-5) (Some (7, 4294967291))) as (x & Ex & W & _); [vm_compute; reflexivity|by exists x].
Defined.

Lemma Request_progress_witness : async_run twice_run new_Async = Some (state_after twice_run) /\
  exists ls' s', forallb inside ls' = true /\ async_run ls' (state_after twice_run) = Some s' /\ exists x, a_ctxs s' !! 0%nat = Some x /\ cx_woken x = 1%nat.
Proof.
  assert (E : async_run twice_run new_Async = Some (state_after twice_run)) by (vm_compute; reflexivity).
  split; [done|]. apply (Request_progress twice_run _ 0 E). vm_compute. lia.
Defined.

(** Two messages are queued and the first has not yet notified. *)
Definition queued_run : list label := [LSend 1; LSend 2] ++ steps 0 1 ++ steps 1 1.

Lemma Writer_wakes_witness : async_run queued_run new_Async = Some (state_after queued_run) /\
  a_queue (state_after queued_run) = [SendMessage 1; SendMessage 2] /\ exists p pc, a_procs (state_after queued_run) !! p = Some pc /\ notifies pc = true.
Proof.
  assert (E : async_run queued_run new_Async = Some (state_after queued_run)) by (vm_compute; reflexivity).
  split; [done|]. split; [vm_compute; reflexivity|]. destruct (Writer_wakes queued_run _ E) as [_ H].
  destruct H as [H|H]; [vm_compute; discriminate|vm_compute in H; discriminate|done].
Defined.
