(* ===== verification/MemPool.v ===== *)
(** The memory pool (src/other/memory_pool.cpp, include/other/memory_pool.hpp).

    A chain of blocks of one size, out of which small requests are cut in order, and a list
    of large ones that have a block of their own. Addresses are numbers. The nodes that the
    pool keeps for large requests and for clean-ups lie in its own memory: each is a record
    with its address.

    The heap of the process is what is live in it, by address and size, with the answers
    that [malloc] is to give: an answer is taken when it is a fresh aligned region, and is
    the null pointer otherwise. [free] of what is not live is a crash. *)
From S2P Require Import Prelude.

(** ** Layout *)

Definition sizeof_NgxPoolCleanup : Z := 24.
Definition sizeof_NgxPoolLarge : Z := 16.
Definition sizeof_NgxPoolData : Z := 32.
Definition sizeof_NgxPool : Z := 64.

(** [ngx_align] and [ngx_align_ptr] *)
Definition ngx_align (d a : Z) : Z := Z.land (u64 (d + (a - 1))) (u64 (Z.lnot (a - 1))).

Definition NGX_MAX_ALLOC_FROM_POOL : Z := 4096 - 1.
Definition NGX_POOL_ALIGNMENT : Z := 16.
Definition NGX_MIN_POOL_SIZE : Z := ngx_align (sizeof_NgxPool + 2 * sizeof_NgxPoolLarge) NGX_POOL_ALIGNMENT.
Definition NGX_ALIGNMENT : Z := 8.

(** ** State *)

(** [NgxPool_t] with its [NgxPoolData_t]; [next] is the place in the list. *)
Record Block := mkBlock { b_base : Z; b_last : Z; b_end : Z; b_failed : Z }.

Record Large := mkLarge { l_node : Z; l_alloc : option Z }.

(** A handler is a number. *)
Record Cleanup := mkCleanup { c_node : Z; c_handler : option nat; c_data : option Z }.

(** No blocks: the null pointer. *)
Record NgxMemPool := mkPool {
  p_blocks : list Block;
  p_max : Z;
  p_current : nat;
  p_large : list Large;
  p_cleanup : list Cleanup;
  p_live : gmap Z Z;
  p_answers : list (option Z);
  p_bytes : Z -> byte;
}.

Definition set_blocks (bs : list Block) (p : NgxMemPool) : NgxMemPool :=
  mkPool bs (p_max p) (p_current p) (p_large p) (p_cleanup p) (p_live p) (p_answers p) (p_bytes p).
Definition set_max (n : Z) (p : NgxMemPool) : NgxMemPool :=
  mkPool (p_blocks p) n (p_current p) (p_large p) (p_cleanup p) (p_live p) (p_answers p) (p_bytes p).
Definition set_current (i : nat) (p : NgxMemPool) : NgxMemPool :=
  mkPool (p_blocks p) (p_max p) i (p_large p) (p_cleanup p) (p_live p) (p_answers p) (p_bytes p).
Definition set_large (l : list Large) (p : NgxMemPool) : NgxMemPool :=
  mkPool (p_blocks p) (p_max p) (p_current p) l (p_cleanup p) (p_live p) (p_answers p) (p_bytes p).
Definition set_cleanup (c : list Cleanup) (p : NgxMemPool) : NgxMemPool :=
  mkPool (p_blocks p) (p_max p) (p_current p) (p_large p) c (p_live p) (p_answers p) (p_bytes p).
Definition set_heap (m : gmap Z Z) (a : list (option Z)) (p : NgxMemPool) : NgxMemPool :=
  mkPool (p_blocks p) (p_max p) (p_current p) (p_large p) (p_cleanup p) m a (p_bytes p).
Definition set_bytes (f : Z -> byte) (p : NgxMemPool) : NgxMemPool :=
  mkPool (p_blocks p) (p_max p) (p_current p) (p_large p) (p_cleanup p) (p_live p) (p_answers p) f.

Definition sget : st NgxMemPool NgxMemPool := fun p => (Ok p, p).
Definition smod (f : NgxMemPool -> NgxMemPool) : st NgxMemPool unit := fun p => (Ok tt, f p).

(** ** The heap *)

Definition region : Type := Z * Z.
Definition disjoint (r s : region) : Prop := fst r + snd r <= fst s \/ fst s + snd s <= fst r.

#[global] Instance disjoint_dec r s : Decision (disjoint r s).
Proof. unfold disjoint. apply _. Defined.

(** A fresh region of [n] bytes at [a]. *)
Definition fresh (live : gmap Z Z) (a n : Z) : bool :=
  (0 <? a) && (a mod 16 =? 0) && (a + n <? 2 ^ 64) && bool_decide (live !! a = None) &&
  bool_decide (map_Forall (fun b k => disjoint (a, n) (b, k)) live).

Definition malloc (n : Z) : st NgxMemPool (option Z) := fun p =>
  match p_answers p with
  | Some a :: l =>
      if fresh (p_live p) a n then (Ok (Some a), set_heap (<[a := n]> (p_live p)) l p)
      else (Ok None, set_heap (p_live p) l p)
  | None :: l => (Ok None, set_heap (p_live p) l p)
  | [] => (Ok None, p)
  end.

Definition free (a : Z) : st NgxMemPool unit := fun p =>
  match p_live p !! a with
  | Some _ => (Ok tt, set_heap (delete a (p_live p)) (p_answers p) p)
  | None => (Crash bad_free, p)
  end.

Definition memset (a n : Z) (x : byte) : st NgxMemPool unit :=
  smod (fun p => set_bytes (fun b => if (a <=? b) && (b <? a + n) then x else p_bytes p b) p).

(** ** Operations *)

(** The constructor, on a heap. *)
Definition new_NgxMemPool (size : Z) : st NgxMemPool unit :=
  let* a := malloc (if NGX_MIN_POOL_SIZE <? size then size else NGX_MIN_POOL_SIZE) in
  match a with
  | None => sret tt
  | Some a =>
      let n := u64 (size - sizeof_NgxPool) in
      let* _ := smod (set_blocks [mkBlock a (a + sizeof_NgxPool) (a + size) 0]) in
      let* _ := smod (set_max (if n <? NGX_MAX_ALLOC_FROM_POOL then n else NGX_MAX_ALLOC_FROM_POOL)) in
      let* _ := smod (set_current 0) in
      let* _ := smod (set_large []) in
      smod (set_cleanup [])
  end.

(** The walk of [pallocBlock] that counts a failure of every block but the last. *)
Fixpoint count_failures (l : list Block) (i current : nat) : list Block * nat :=
  match l with
  | [] => ([], current)
  | b :: l' =>
      match l' with
      | [] => (l, current)
      | _ =>
          let current := if 4 <? b_failed b then S i else current in
          let (l', current) := count_failures l' (S i) current in
          (mkBlock (b_base b) (b_last b) (b_end b) (u32 (b_failed b + 1)) :: l', current)
      end
  end.

Definition pallocBlock (size : Z) : st NgxMemPool (option Z) :=
  let* p := sget in
  match p_blocks p with
  | [] => scrash null_deref
  | b :: _ =>
      let psize := u64 (b_end b - b_base b) in
      let* m := malloc psize in
      match m with
      | None => sret None
      | Some a =>
          let m := ngx_align (a + sizeof_NgxPoolData) NGX_ALIGNMENT in
          let* p := sget in
          let (l, current) := count_failures (drop (p_current p) (p_blocks p)) (p_current p) (p_current p) in
          let* _ := smod (set_blocks (take (p_current p) (p_blocks p) ++ l ++ [mkBlock a (m + size) (a + psize) 0])) in
          let* _ := smod (set_current current) in
          sret (Some m)
      end
  end.

(** The first block from [i] on that has room, and where. *)
Fixpoint find_room (l : list Block) (i : nat) (size : Z) (align : bool) : option (nat * Z) :=
  match l with
  | [] => None
  | b :: l =>
      let m := if align then ngx_align (b_last b) NGX_ALIGNMENT else b_last b in
      if size <=? u64 (b_end b - m) then Some (i, m) else find_room l (S i) size align
  end.

Definition set_last (m : Z) (b : Block) : Block := mkBlock (b_base b) m (b_end b) (b_failed b).

Definition pallocSmall (size : Z) (align : bool) : st NgxMemPool (option Z) :=
  let* p := sget in
  match find_room (drop (p_current p) (p_blocks p)) (p_current p) size align with
  | Some (i, m) =>
      let* _ := smod (set_blocks (alter (set_last (m + size)) i (p_blocks p))) in
      sret (Some m)
  | None => pallocBlock size
  end.

(** The search for a node that is free, which looks at five at most. *)
Fixpoint reuse (l : list Large) (n : Z) (a : Z) : option (list Large) :=
  match l with
  | [] => None
  | x :: l =>
      match l_alloc x with
      | None => Some (mkLarge (l_node x) (Some a) :: l)
      | Some _ => if 3 <? n then None else option_map (cons x) (reuse l (n + 1) a)
      end
  end.

Definition pallocLarge (size : Z) : st NgxMemPool (option Z) :=
  let* a := malloc size in
  match a with
  | None => sret None
  | Some a =>
      let* p := sget in
      match reuse (p_large p) 0 a with
      | Some l => let* _ := smod (set_large l) in sret (Some a)
      | None =>
          let* node := pallocSmall sizeof_NgxPoolLarge true in
          match node with
          | None => let* _ := free a in sret None
          | Some node =>
              let* p := sget in
              let* _ := smod (set_large (mkLarge node (Some a) :: p_large p)) in
              sret (Some a)
          end
      end
  end.

Definition palloc (size : Z) : st NgxMemPool (option Z) :=
  let* p := sget in
  match p_blocks p with
  | [] => scrash null_deref
  | _ => if size <=? p_max p then pallocSmall size true else pallocLarge size
  end.

Definition pnalloc (size : Z) : st NgxMemPool (option Z) :=
  let* p := sget in
  match p_blocks p with
  | [] => scrash null_deref
  | _ => if size <=? p_max p then pallocSmall size false else pallocLarge size
  end.

Definition pcalloc (size : Z) : st NgxMemPool (option Z) :=
  let* a := palloc size in
  match a with
  | Some a => let* _ := memset a size x00 in sret (Some a)
  | None => sret None
  end.

Definition cleanupAdd (size : Z) : st NgxMemPool (option Z) :=
  let* c := palloc sizeof_NgxPoolCleanup in
  match c with
  | None => sret None
  | Some c =>
      let* data := if size =? 0 then sret None else palloc size in
      if negb (size =? 0) && bool_decide (data = None) then sret None
      else
        let* p := sget in
        let* _ := smod (set_cleanup (mkCleanup c None data :: p_cleanup p)) in
        sret (Some c)
  end.

(** What a caller of [cleanupAdd] does with the node: [c->handler = h]. *)
Definition set_handler (c : Z) (h : nat) : st NgxMemPool unit :=
  smod (fun p => set_cleanup (map (fun x => if c_node x =? c then mkCleanup (c_node x) (Some h) (c_data x) else x) (p_cleanup p)) p).

(** The first node with the pointer [a], with those before and after it. *)
Fixpoint find_large (a : option Z) (before l : list Large) : option (list Large * Large * list Large) :=
  match l with
  | [] => None
  | x :: l => if bool_decide (a = l_alloc x) then Some (rev before, x, l) else find_large a (x :: before) l
  end.

Definition free_alloc (x : Large) : st NgxMemPool unit :=
  match l_alloc x with Some a => free a | None => sret tt end.

Definition pfree (a : option Z) : st NgxMemPool unit :=
  let* p := sget in
  match p_blocks p with
  | [] => scrash null_deref
  | _ =>
      match find_large a [] (p_large p) with
      | None => sret tt
      | Some (before, x, after) =>
          let* _ := free_alloc x in
          smod (set_large (mkLarge (l_node x) None :: before ++ after))
      end
  end.

Fixpoint each_large (f : Large -> st NgxMemPool unit) (l : list Large) : st NgxMemPool unit :=
  match l with [] => sret tt | x :: l => let* _ := f x in each_large f l end.

Definition reset_block (header : Z) (b : Block) : Block := mkBlock (b_base b) (b_base b + header) (b_end b) 0.

Definition resetPool : st NgxMemPool unit :=
  let* p := sget in
  match p_blocks p with
  | [] => scrash null_deref
  | b :: bs =>
      let* _ := each_large free_alloc (p_large p) in
      let* _ := smod (set_blocks (reset_block sizeof_NgxPool b :: map (reset_block sizeof_NgxPoolData) bs)) in
      let* _ := smod (set_current 0) in
      smod (set_large [])
  end.

Fixpoint free_blocks (l : list Block) : st NgxMemPool unit :=
  match l with [] => sret tt | b :: l => let* _ := free (b_base b) in free_blocks l end.

(** The destructor: the handlers it calls, in order, with their data. *)
Definition destroy_NgxMemPool : st NgxMemPool (list (nat * option Z)) :=
  let* p := sget in
  match p_blocks p with
  | [] => scrash null_deref
  | _ =>
      let* _ := each_large free_alloc (p_large p) in
      let* _ := free_blocks (p_blocks p) in
      sret (omap (fun c => option_map (fun h => (h, c_data c)) (c_handler c)) (p_cleanup p))
  end.
