(* ===== verification/MemPoolSpec.v ===== *)
(** The memory pool: what it hands out never overlaps, and nothing of it is left behind. *)
From S2P Require Import Prelude MemPool.

(** ** Alignment *)

Lemma land_not7 x : 0 <= x < 2 ^ 64 -> Z.land x (u64 (Z.lnot 7)) = x / 8 * 8.
Proof.
  intros Hx. change 8 with (2 ^ 3) at 1 2. rewrite <- Z.shiftr_div_pow2, <- Z.shiftl_mul_pow2 by lia. rewrite <- Z.ldiff_ones_r by lia.
  apply Z.bits_inj'. intros n Hn. rewrite Z.ldiff_spec, Z.land_spec. destruct (Z.lt_ge_cases n 64) as [L|G].
  - unfold u64. rewrite Z.mod_pow2_bits_low by lia. rewrite Z.lnot_spec by done. done.
  - assert (Z.testbit x n = false) as ->; [|done]. destruct (decide (x = 0)) as [->|]; [apply Z.bits_0|].
    apply Z.bits_above_log2; [lia|]. apply Z.log2_lt_pow2; [lia|]. eapply Z.lt_le_trans; [apply Hx|]. apply Z.pow_le_mono_r; lia.
Qed.

Lemma ngx_align_8 d : 0 <= d -> d + 7 < 2 ^ 64 -> ngx_align d NGX_ALIGNMENT = (d + 7) / 8 * 8.
Proof. intros H L. unfold ngx_align. change (NGX_ALIGNMENT - 1) with 7. rewrite u64_small by lia. apply land_not7. lia. Qed.

Lemma NGX_MIN_POOL_SIZE_96 : NGX_MIN_POOL_SIZE = 96.
Proof. reflexivity. Qed.

(** ** Regions that lie apart *)

Fixpoint apart (l : list region) : Prop := match l with [] => True | r :: l => Forall (disjoint r) l /\ apart l end.

Lemma disjoint_sym r s : disjoint r s -> disjoint s r.
Proof. unfold disjoint. tauto. Qed.

#[global] Instance apart_proper : Proper (Permutation ==> iff) apart.
Proof.
  assert (H : forall l k : list region, l ≡ₚ k -> apart l -> apart k).
  { induction 1 as [|r l k P IH|r s l|l k h _ IH1 _ IH2]; cbn; [done| | |auto].
    - intros [F A]. split; [by rewrite <- P|auto].
    - intros [F1 [F2 A]]. apply list.Forall_cons in F1 as [D F1]. split; [constructor; [by apply disjoint_sym|done]|done]. }
  intros l k P. split; by apply H.
Qed.

Lemma apart_sublist l k : sublist l k -> apart k -> apart l.
Proof.
  induction 1 as [|r l k S IH|r l k S IH]; cbn; [done| |tauto]. intros [F A]. split; [|auto].
  apply list.Forall_forall. intros s Hs. rewrite list.Forall_forall in F. apply F. by eapply elem_of_sublist.
Qed.

(** ** The invariant *)

Definition live_ok (live : gmap Z Z) : Prop :=
  forall a n b k, live !! a = Some n -> live !! b = Some k -> a <> b -> disjoint (a, n) (b, k).

(** The header of the first block is that of the pool. *)
Definition header (i : nat) : Z := match i with O => sizeof_NgxPool | S _ => sizeof_NgxPoolData end.

Definition in_block (p : NgxMemPool) (r : region) : Prop :=
  exists i b, p_blocks p !! i = Some b /\ b_base b + header i <= fst r /\ fst r + snd r <= b_last b.

Definition allocs (p : NgxMemPool) : list Z := omap l_alloc (p_large p).

Definition in_large (p : NgxMemPool) (r : region) : Prop := fst r ∈ allocs p /\ p_live p !! fst r = Some (snd r).

Definition nodes (p : NgxMemPool) : list region := map (fun x => (l_node x, sizeof_NgxPoolLarge)) (p_large p).

Definition owned (p : NgxMemPool) (a : Z) : Prop :=
  (exists i b, p_blocks p !! i = Some b /\ b_base b = a) \/ a ∈ allocs p.

Section Wf.
Context (psize : Z).

Record block_ok (live : gmap Z Z) (i : nat) (b : Block) : Prop := {
  bk_live : exists k, live !! b_base b = Some k /\ psize <= k;
  bk_end : b_end b = b_base b + psize;
  bk_range : 0 < b_base b /\ b_base b + psize < 2 ^ 64;
  bk_align : b_base b mod 16 = 0;
  bk_last : b_base b + header i <= b_last b <= b_end b;
}.

(** [L] is what is live beside the pool, [g] what the pool has handed out. *)
Record wf (L : gmap Z Z) (g : list region) (p : NgxMemPool) : Prop := {
  wf_live : live_ok (p_live p);
  wf_block i b : p_blocks p !! i = Some b -> block_ok (p_live p) i b;
  wf_base i j b c : p_blocks p !! i = Some b -> p_blocks p !! j = Some c -> b_base b = b_base c -> i = j;
  wf_alloc a : a ∈ allocs p -> is_Some (p_live p !! a) /\ (forall j b, p_blocks p !! j = Some b -> b_base b <> a);
  wf_allocs : NoDup (allocs p);
  wf_current : (p_current p < length (p_blocks p))%nat;
  wf_max : 0 <= p_max p <= psize - 64;
  wf_apart : apart (g ++ nodes p);
  wf_given : Forall (fun r => 0 <= snd r /\ (in_block p r \/ in_large p r)) g;
  wf_nodes : Forall (in_block p) (nodes p);
  wf_frame a n : L !! a = Some n -> p_live p !! a = Some n /\ ~ owned p a;
  wf_owned a n : p_live p !! a = Some n -> L !! a = Some n \/ owned p a;
}.

Definition same (p p' : NgxMemPool) : Prop :=
  p_blocks p' = p_blocks p /\ p_max p' = p_max p /\ p_current p' = p_current p /\ p_large p' = p_large p /\ p_cleanup p' = p_cleanup p.

Lemma in_block_same p p' r : p_blocks p' = p_blocks p -> in_block p r -> in_block p' r.
Proof. unfold in_block. by intros ->. Qed.

Lemma nodes_same p p' : p_large p' = p_large p -> nodes p' = nodes p.
Proof. unfold nodes. by intros ->. Qed.

Lemma owned_same p p' a : same p p' -> owned p' a <-> owned p a.
Proof. unfold owned, allocs. by intros (-> & _ & _ & -> & _). Qed.

(** What holds a region that is in use. *)
Lemma holder L g p r : wf L g p -> r ∈ g ++ nodes p -> exists a k, owned p a /\ p_live p !! a = Some k /\ a <= fst r /\ fst r + snd r <= a + k.
Proof.
  intros W Hr. assert (B : in_block p r -> exists a k, owned p a /\ p_live p !! a = Some k /\ a <= fst r /\ fst r + snd r <= a + k).
  { intros (i & b & Eb & L1 & L2). destruct (wf_block _ _ _ W i b Eb) as [(k & Ek & Lk) E _ _ La].
    exists (b_base b), k. split; [left; eauto|]. split; [done|]. assert (32 <= header i) by (destruct i; cbn; unfold sizeof_NgxPool, sizeof_NgxPoolData; lia). lia. }
  apply elem_of_app in Hr as [Hr|Hr].
  - pose proof (wf_given _ _ _ W) as G. rewrite list.Forall_forall in G. destruct (G r Hr) as [_ [I|[Hx El]]]; [by apply B|].
    exists (fst r), (snd r). split; [by right|]. split; [done|lia].
  - apply B. pose proof (wf_nodes _ _ _ W) as N. rewrite list.Forall_forall in N. by apply N.
Qed.

(** What is live beside the pool lies apart from what is in use. *)
Lemma outside_apart L g p a n r : wf L g p -> L !! a = Some n -> r ∈ g ++ nodes p -> disjoint (a, n) r.
Proof.
  intros W Ea Hr. destruct (holder L g p r W Hr) as (b & k & O & Eb & L1 & L2). destruct (wf_frame _ _ _ W a n Ea) as [El No].
  assert (a <> b) as N by congruence. pose proof (wf_live _ _ _ W a n b k El Eb N) as D. unfold disjoint in *. cbn in *. lia.
Qed.

(** ** The heap *)

Lemma live_heap L g p m ans : wf L g p -> live_ok m -> (forall a n, p_live p !! a = Some n -> owned p a -> m !! a = Some n) ->
  forall L', (forall a n, L' !! a = Some n <-> m !! a = Some n /\ ~ owned p a) -> wf L' g (set_heap m ans p).
Proof.
  intros W Lm Keep L' HL. destruct W as [W1 W2 W3 W4 W4' W5 W6 W7 W8 W9 W10 W11]. constructor; try done.
  - intros i b Eb. destruct (W2 i b Eb) as [(k & Ek & Lk) E R A La]. constructor; try done. exists k. split; [|done]. apply Keep; [done|left; eauto].
  - intros a Ha. destruct (W4 a Ha) as ([k Ek] & ?). split; [|done]. exists k. apply Keep; [done|by right].
  - eapply list.Forall_impl; [exact W8|]; cbn beta. intros r [N [I|[Hx El]]]; (split; [done|]); [by left|right].
    split; [done|]. apply Keep; [done|by right].
  - intros a n Ea. by apply HL.
  - intros a n Ea. cbn in Ea. destruct (decide (is_Some (L' !! a))) as [[k Ek]|N].
    + left. apply HL in Ek as Ek'. destruct Ek' as [Ek' _]. congruence.
    + right. destruct (p_live p !! a) as [k|] eqn:Ep.
      * destruct (W11 a k Ep) as [El|O]; [|done]. exfalso. apply N. destruct (W10 a k El) as [_ No]. exists n. by apply HL.
      * exfalso. apply N. exists n. apply HL. split; [done|]. intros [(i & b & Eb & <-)|Ha].
        -- destruct (W2 i b Eb) as [(k & Ek & _) _ _ _ _]. congruence.
        -- destruct (W4 a Ha) as ([k Ek] & _). congruence.
Qed.

Lemma wf_answers L g p ans : wf L g p -> wf L g (set_heap (p_live p) ans p).
Proof.
  intros W. apply (live_heap L g p); [done|apply W|done|]. intros a n. split; [apply W|]. intros [E No]. by destruct (wf_owned _ _ _ W a n E).
Qed.

Lemma fresh_spec live a n : fresh live a n = true <->
  0 < a /\ a mod 16 = 0 /\ a + n < 2 ^ 64 /\ live !! a = None /\ forall b k, live !! b = Some k -> disjoint (a, n) (b, k).
Proof.
  unfold fresh. rewrite !andb_true_iff, !bool_decide_eq_true, Z.ltb_lt, Z.eqb_eq, Z.ltb_lt. unfold map_Forall. tauto.
Qed.

Lemma live_insert live a n : live_ok live -> fresh live a n = true -> live_ok (<[a := n]> live).
Proof.
  intros Lo (_ & _ & _ & _ & D)%fresh_spec b k c m Hb Hc N.
  apply lookup_insert_Some in Hb as [[<- <-]|[Nb Hb]]; apply lookup_insert_Some in Hc as [[<- <-]|[Nc Hc]]; [done|by apply D|apply disjoint_sym; by apply D|by apply Lo].
Qed.

Lemma not_owned L g p a : wf L g p -> p_live p !! a = None -> ~ owned p a.
Proof.
  intros W E [(i & b & Eb & <-)|Ha].
  - destruct (bk_live _ _ _ (wf_block _ _ _ W i b Eb)) as (k & Ek & _). congruence.
  - destruct (wf_alloc _ _ _ W a Ha) as ([k Ek] & _). congruence.
Qed.

Lemma malloc_wf L g p n : wf L g p -> exists r p', malloc n p = (Ok r, p') /\ same p p' /\
  match r with
  | None => wf L g p'
  | Some a => wf (<[a := n]> L) g p' /\ L !! a = None /\ p_live p' !! a = Some n /\ ~ owned p a /\ 0 < a /\ a mod 16 = 0 /\ a + n < 2 ^ 64
  end.
Proof.
  intros W. unfold malloc. destruct (p_answers p) as [|[a|] ans] eqn:Ea; [by exists None, p| |exists None; eexists; split; [done|]; split; [done|by apply wf_answers]].
  destruct (fresh (p_live p) a n) eqn:F; [|exists None; eexists; split; [done|]; split; [done|by apply wf_answers]].
  exists (Some a), (set_heap (<[a := n]> (p_live p)) ans p). split; [done|]. split; [done|].
  pose proof F as (Pa & Al & R & Fr & D)%fresh_spec. pose proof (not_owned L g p a W Fr) as No. split; [|split; [|split; [cbn; apply lookup_insert_eq|done]]].
  - apply (live_heap L g p); [done|by apply live_insert; [apply W|]| |].
    + intros b k Eb _. rewrite lookup_insert_ne; [done|congruence].
    + intros b k. split.
      * intros [[<- <-]|[N E]]%lookup_insert_Some; [by rewrite lookup_insert_eq|]. rewrite lookup_insert_ne by done. by apply W.
      * intros [[[<- <-]|[N E]]%lookup_insert_Some O]; [by rewrite lookup_insert_eq|]. rewrite lookup_insert_ne by done. by destruct (wf_owned _ _ _ W b k E).
  - destruct (L !! a) as [k|] eqn:E; [|done]. destruct (wf_frame _ _ _ W a k E). congruence.
Qed.

Lemma free_wf L g p a n : wf (<[a := n]> L) g p -> L !! a = None -> exists p', free a p = (Ok tt, p') /\ same p p' /\ wf L g p'.
Proof.
  intros W Ea. destruct (wf_frame _ _ _ W a n) as [El No]; [apply lookup_insert_eq|]. unfold free. rewrite El.
  eexists. split; [done|]. split; [done|]. apply (live_heap (<[a := n]> L) g p); [done| | |].
  - intros b k c m [_ Hb]%lookup_delete_Some [_ Hc]%lookup_delete_Some N. by apply (wf_live _ _ _ W).
  - intros b k Eb O. rewrite lookup_delete_ne; [done|congruence].
  - intros b k. split.
    + intros E. assert (a <> b) by congruence. rewrite lookup_delete_ne by done. apply W. by rewrite lookup_insert_ne.
    + intros [[N E]%lookup_delete_Some O]. destruct (wf_owned _ _ _ W b k E) as [H|?]; [|done]. by rewrite lookup_insert_ne in H.
Qed.

(** ** Cutting out of a block *)

Lemma in_use_apart L g p i b m n r : wf L g p -> p_blocks p !! i = Some b -> b_last b <= m -> 0 <= n -> m + n <= b_end b ->
  r ∈ g ++ nodes p -> disjoint (m, n) r.
Proof.
  intros W Eb Lm Pn Le Hr. pose proof (wf_block _ _ _ W i b Eb) as [(k & Ek & Lk) E R A La].
  assert (B : in_block p r -> disjoint (m, n) r).
  { intros (j & c & Ec & L1 & L2). destruct (decide (j = i)) as [->|N].
    - assert (c = b) as -> by congruence. right. cbn. lia.
    - pose proof (wf_block _ _ _ W j c Ec) as [(k' & Ek' & Lk') E' R' A' La'].
      assert (Nb : b_base b <> b_base c) by (intros Eq; apply N; symmetry; by apply (wf_base _ _ _ W i j b c)).
      pose proof (wf_live _ _ _ W _ _ _ _ Ek Ek' Nb) as D. unfold disjoint in *. cbn in *.
      assert (0 <= header i /\ 0 <= header j) as [? ?] by (split; [destruct i|destruct j]; cbn; done). lia. }
  apply elem_of_app in Hr as [Hr|Hr].
  - pose proof (wf_given _ _ _ W) as G. rewrite list.Forall_forall in G. destruct (G r Hr) as [Pr [I|[Hx El]]]; [by apply B|].
    destruct (wf_alloc _ _ _ W _ Hx) as (_ & Nb). specialize (Nb i b Eb).
    pose proof (wf_live _ _ _ W _ _ _ _ Ek El Nb) as D. unfold disjoint in *. cbn in *. assert (0 <= header i) by (by destruct i). lia.
  - apply B. pose proof (wf_nodes _ _ _ W) as N. rewrite list.Forall_forall in N. by apply N.
Qed.

Lemma set_last_lookup (bs : list Block) (i : nat) m (j : nat) c : alter (set_last m) i bs !! j = Some c ->
  exists b, bs !! j = Some b /\ b_base c = b_base b /\ b_end c = b_end b /\ b_last c = (if decide (i = j) then m else b_last b).
Proof.
  intros E. rewrite list_lookup_alter in E. destruct (decide (i = j)) as [->|N].
  - destruct (bs !! j) as [b|]; [|done]. injection E as <-. by exists b.
  - by exists c.
Qed.

Lemma put_small L g p i b m n : wf L g p -> p_blocks p !! i = Some b -> b_last b <= m -> 0 <= n -> m + n <= b_end b ->
  let p' := set_blocks (alter (set_last (m + n)) i (p_blocks p)) p in wf L ((m, n) :: g) p' /\ in_block p' (m, n).
Proof.
  intros W Eb Lm Pn Le p'. assert (In : in_block p' (m, n)).
  { exists i, (set_last (m + n) b). cbn. rewrite list_lookup_alter_eq, Eb. split; [done|].
    pose proof (bk_last _ _ _ (wf_block _ _ _ W i b Eb)). cbn. lia. }
  assert (Mono : forall r, in_block p r -> in_block p' r).
  { intros r (j & c & Ec & L1 & L2). destruct (decide (i = j)) as [<-|N].
    - assert (c = b) as -> by congruence. exists i, (set_last (m + n) b). cbn. rewrite list_lookup_alter_eq, Eb. split; [done|]. cbn. lia.
    - exists j, c. cbn. by rewrite list_lookup_alter_ne. }
  assert (Own : forall a, owned p' a <-> owned p a).
  { intros a. unfold owned. cbn. split; (intros [(j & c & Ec & Ea)|?]; [left|by right]).
    - apply set_last_lookup in Ec as (b' & Eb' & Eq & _). exists j, b'. split; congruence.
    - exists j. rewrite list_lookup_alter. destruct (decide (i = j)) as [->|]; [|by exists c]. rewrite Ec. by eexists. }
  split; [|done]. pose proof (in_use_apart L g p i b m n) as Ap. destruct W as [W1 W2 W3 W4 W4' W5 W6 W7 W8 W9 W10 W11]. constructor; try done.
  - intros j c Ec. cbn in Ec. apply set_last_lookup in Ec as (b' & Eb' & E1 & E2 & E3). destruct (W2 j b' Eb') as [K E R A La].
    constructor; rewrite ?E1, ?E2, ?E3; try done. destruct (decide (i = j)) as [->|]; [|done]. assert (b' = b) as -> by congruence. lia.
  - intros j j' c c' Ec Ec' Eq. cbn in Ec, Ec'. apply set_last_lookup in Ec as (b1 & Eb1 & E1 & _). apply set_last_lookup in Ec' as (b2 & Eb2 & E2 & _).
    apply (W3 j j' b1 b2); congruence.
  - intros a Ha. destruct (W4 a Ha) as (? & Nb). split; [done|]. intros j' c Ec. cbn in Ec.
    apply set_last_lookup in Ec as (b1 & Eb1 & E1 & _). rewrite E1. by apply (Nb j').
  - cbn. by rewrite length_alter.
  - cbn [app apart]. split; [|done]. apply list.Forall_forall. intros r Hr. by apply Ap.
  - constructor; [split; [done|by left]|]. eapply list.Forall_impl; [exact W8|]. cbn beta. intros r [? [?|?]]; (split; [done|]); [left; by apply Mono|by right].
  - eapply list.Forall_impl; [exact W9|exact Mono].
  - intros a k E. destruct (W10 a k E). split; [done|by rewrite Own].
  - intros a k E. rewrite Own. by apply W11.
Qed.

(** ** A new block *)

Definition same_block (b c : Block) : Prop := b_base c = b_base b /\ b_last c = b_last b /\ b_end c = b_end b.

Lemma count_failures_shape l i c : Forall2 same_block l (fst (count_failures l i c)) /\
  (c < i + length l -> snd (count_failures l i c) < i + length l)%nat.
Proof.
  revert i c. induction l as [|b l IH]; intros i c; cbn [count_failures]; [by split|]. destruct l as [|b' l]; [by repeat constructor|].
  specialize (IH (S i) (if 4 <? b_failed b then S i else c)). destruct (count_failures (b' :: l) (S i) _) as [l' c']. cbn [fst snd] in *.
  destruct IH as [F H]. split; [by constructor|]. cbn [length] in *. intros L. assert (H' : (c' < S i + S (length l))%nat); [|lia].
  apply H. destruct (4 <? b_failed b); lia.
Qed.

Lemma wf_shape L g p bs c : wf L g p -> Forall2 same_block (p_blocks p) bs -> (c < length bs)%nat -> wf L g (set_current c (set_blocks bs p)).
Proof.
  intros W F Lc. set (p' := set_current c (set_blocks bs p)).
  assert (To : forall i b, bs !! i = Some b -> exists b0, p_blocks p !! i = Some b0 /\ same_block b0 b) by (intros i b Eb; by apply (Forall2_lookup_r _ _ _ _ _ F)).
  assert (Of : forall i b, p_blocks p !! i = Some b -> exists b0, bs !! i = Some b0 /\ same_block b b0) by (intros i b Eb; by apply (Forall2_lookup_l _ _ _ _ _ F)).
  assert (Own : forall a, owned p' a <-> owned p a).
  { intros a. unfold owned. cbn. split; (intros [(j & b & Eb & Ea)|?]; [left|by right]).
    - destruct (To j b Eb) as (b0 & E0 & S1 & _). exists j, b0. split; congruence.
    - destruct (Of j b Eb) as (b0 & E0 & S1 & _). exists j, b0. split; congruence. }
  assert (Mono : forall r, in_block p r -> in_block p' r).
  { intros r (j & b & Eb & L1 & L2). destruct (Of j b Eb) as (b0 & E0 & S1 & S2 & S3). exists j, b0. split; [done|]. lia. }
  destruct W as [W1 W2 W3 W4 W4' W5 W6 W7 W8 W9 W10 W11]. constructor; try done.
  - intros i b Eb. destruct (To i b Eb) as (b0 & E0 & S1 & S2 & S3). destruct (W2 i b0 E0). by constructor; rewrite ?S1, ?S2, ?S3.
  - intros i j b b' Eb Eb' Eq. destruct (To i b Eb) as (b0 & E0 & S1 & _). destruct (To j b' Eb') as (b1 & E1 & S1' & _). apply (W3 i j b0 b1); congruence.
  - intros a Ha. destruct (W4 a Ha) as (? & Nb). split; [done|]. intros j b Eb. destruct (To j b Eb) as (b0 & E0 & -> & _). by apply (Nb j).
  - eapply list.Forall_impl; [exact W8|]. cbn beta. intros r [? [?|?]]; (split; [done|]); [left; by apply Mono|by right].
  - eapply list.Forall_impl; [exact W9|exact Mono].
  - intros a k E. destruct (W10 a k E). split; [done|by rewrite Own].
  - intros a k E. rewrite Own. by apply W11.
Qed.

Lemma wf_append L g p a : wf (<[a := psize]> L) g p -> L !! a = None -> 0 < a -> a mod 16 = 0 -> a + psize < 2 ^ 64 -> 64 <= psize -> p_blocks p <> [] ->
  wf L g (set_blocks (p_blocks p ++ [mkBlock a (a + sizeof_NgxPoolData) (a + psize) 0]) p).
Proof.
  intros W Ea Pa Al R P64 Nn. set (nb := mkBlock a (a + sizeof_NgxPoolData) (a + psize) 0). set (p' := set_blocks (p_blocks p ++ [nb]) p).
  destruct (wf_frame _ _ _ W a psize) as [El No]; [apply lookup_insert_eq|].
  assert (Own : forall b, owned p' b <-> owned p b \/ b = a).
  { intros b. unfold owned. cbn. split.
    - intros [(j & c & Ec & Eb)|?]; [|by left; right]. apply lookup_app_Some in Ec as [Ec|[_ Ec]]; [left; left; eauto|]. apply list_lookup_singleton_Some in Ec as [_ <-]. by right.
    - intros [[(j & c & Ec & Eb)|?]| ->]; [left; exists j, c; split; [by apply lookup_app_l_Some|done]|by right|left].
      exists (length (p_blocks p)), nb. split; [by rewrite lookup_app_r, Nat.sub_diag|done]. }
  assert (Mono : forall r, in_block p r -> in_block p' r).
  { intros r (j & b & Eb & Lr). exists j, b. split; [by apply lookup_app_l_Some|done]. }
  destruct W as [W1 W2 W3 W4 W4' W5 W6 W7 W8 W9 W10 W11]. constructor; try done.
  - intros i b Eb. cbn in Eb. apply lookup_app_Some in Eb as [Eb|[Li Eb]]; [by apply W2|]. apply list_lookup_singleton_Some in Eb as [_ <-].
    constructor; cbn; try done; [by exists psize|]. destruct i as [|i]; [destruct (p_blocks p); [done|cbn in Li; lia]|]. cbn. unfold sizeof_NgxPoolData. lia.
  - intros i j b c Eb Ec Eq. cbn in Eb, Ec. assert (Old : forall k d, p_blocks p !! k = Some d -> b_base d <> a) by (intros k d Ed E; apply No; left; eauto).
    apply lookup_app_Some in Eb as [Eb|[Li Eb]]; apply lookup_app_Some in Ec as [Ec|[Lj Ec]].
    + by apply (W3 i j b c).
    + apply list_lookup_singleton_Some in Ec as [_ <-]. by destruct (Old i b Eb).
    + apply list_lookup_singleton_Some in Eb as [_ <-]. by destruct (Old j c Ec).
    + apply list_lookup_singleton_Some in Eb as [? _]. apply list_lookup_singleton_Some in Ec as [? _]. lia.
  - intros b Hb. destruct (W4 b Hb) as (? & Nb). split; [done|]. intros j c Ec. cbn in Ec.
    apply lookup_app_Some in Ec as [Ec|[_ Ec]]; [by apply (Nb j)|]. apply list_lookup_singleton_Some in Ec as [_ <-]. cbn. intros ->. apply No. by right.
  - cbn. rewrite length_app. lia.
  - eapply list.Forall_impl; [exact W8|]. cbn beta. intros r [? [?|?]]; (split; [done|]); [left; by apply Mono|by right].
  - eapply list.Forall_impl; [exact W9|exact Mono].
  - intros b k E. rewrite Own. assert (a <> b) by congruence. destruct (W10 b k) as [? ?]; [by rewrite lookup_insert_ne|]. split; [done|]. by intros [?|?].
  - intros b k E. rewrite Own. destruct (W11 b k E) as [H|?]; [|by right; left]. apply lookup_insert_Some in H as [[-> _]|[_ ?]]; [by right; right|by left].
Qed.

Context (P8 : psize mod 8 = 0) (P64 : 64 <= psize).

(** A pointer that was returned is that of a new region; the null pointer changes
    nothing that is in use. *)
Definition grown (L : gmap Z Z) (g : list region) (n : Z) (r : option Z) (p' : NgxMemPool) : Prop :=
  match r with None => wf L g p' | Some m => wf L ((m, n) :: g) p' end.

Definition kept (p p' : NgxMemPool) : Prop :=
  p_max p' = p_max p /\ p_large p' = p_large p /\ p_cleanup p' = p_cleanup p.

Lemma align_in d e : 0 <= d -> d <= e -> e < 2 ^ 64 -> e mod 8 = 0 -> d <= ngx_align d NGX_ALIGNMENT <= e /\ ngx_align d NGX_ALIGNMENT mod 8 = 0.
Proof.
  intros Pd Le Lt E8. pose proof (Z.div_mod e 8 ltac:(lia)). rewrite ngx_align_8 by lia.
  pose proof (Z.div_mod (d + 7) 8 ltac:(lia)). pose proof (Z.mod_pos_bound (d + 7) 8 ltac:(lia)).
  split; [lia|by apply Z.mod_mul].
Qed.

Lemma block_end live i b : block_ok live i b -> b_end b mod 8 = 0 /\ b_end b < 2 ^ 64 /\ 0 <= b_last b <= b_end b.
Proof.
  intros [_ -> [R1 R2] A La]. split; [|assert (0 <= header i) by (by destruct i); lia].
  rewrite Z.add_mod by done. rewrite P8. assert (b_base b mod 8 = 0) as ->; [|done].
  pose proof (Z.div_mod (b_base b) 16 ltac:(lia)). rewrite A in *. replace (b_base b) with (b_base b / 16 * 2 * 8) by lia. by apply Z.mod_mul.
Qed.

Lemma find_room_spec l i size align j m : find_room l i size align = Some (j, m) ->
  (i <= j)%nat /\ exists b, l !! (j - i)%nat = Some b /\ m = (if align : bool then ngx_align (b_last b) NGX_ALIGNMENT else b_last b) /\ size <= u64 (b_end b - m).
Proof.
  revert i. induction l as [|b l IH]; intros i E; cbn [find_room] in E; [done|]. destruct (Z.leb_spec size (u64 (b_end b - (if align then ngx_align (b_last b) NGX_ALIGNMENT else b_last b)))).
  - injection E as <- <-. split; [lia|]. exists b. by rewrite Nat.sub_diag.
  - destruct (IH (S i) E) as (Le & c & Ec & ?). split; [lia|]. exists c. replace (j - i)%nat with (S (j - S i)) by lia. done.
Qed.

Lemma pallocBlock_wf L g p n : wf L g p -> 0 <= n <= psize - 32 -> exists r p', pallocBlock n p = (Ok r, p') /\ kept p p' /\ grown L g n r p' /\
  forall m, r = Some m -> in_block p' (m, n) /\ m mod 8 = 0.
Proof.
  intros W Hn. unfold pallocBlock. rewrite (sbind_ok sget _ p p p eq_refl). destruct (p_blocks p) as [|b bs] eqn:Eb.
  { exfalso. pose proof (wf_current _ _ _ W) as C. rewrite Eb in C. cbn in C. lia. }
  pose proof (wf_block _ _ _ W 0%nat b) as B0. rewrite Eb in B0. specialize (B0 eq_refl). destruct B0 as [_ E [R1 R2] _ _].
  replace (u64 (b_end b - b_base b)) with psize by (rewrite u64_small; lia).
  destruct (malloc_wf L g p psize W) as (r & p1 & M & S & H). rewrite (sbind_ok _ _ _ _ _ M). destruct S as (S1 & S2 & S3 & S4 & S5).
  destruct r as [a|]; [|by exists None, p1]. destruct H as (W1 & Ea & _ & _ & Pa & Al & R).
  rewrite (sbind_ok sget _ p1 p1 p1 eq_refl). cbn beta. rewrite S1, S3, Eb.
  replace (ngx_align (a + sizeof_NgxPoolData) NGX_ALIGNMENT) with (a + 32).
  2:{ rewrite ngx_align_8 by (unfold sizeof_NgxPoolData; lia). unfold sizeof_NgxPoolData. pose proof (Z.div_mod a 16 ltac:(lia)). rewrite Al in *.
      replace (a + 32 + 7) with (7 + (a / 16 * 2 + 4) * 8) by lia. rewrite Z.div_add by done. change (7 / 8) with 0. lia. }
  destruct (count_failures_shape (drop (p_current p) (b :: bs)) (p_current p) (p_current p)) as [F C].
  destruct (count_failures _ _ _) as [l c]. cbn [fst snd] in F, C.
  eexists (Some (a + 32)), _. split; [reflexivity|]. cbn [snd fst].
  assert (Sh : Forall2 same_block (p_blocks p1) (take (p_current p) (b :: bs) ++ l)).
  { rewrite S1, Eb, <- (take_drop (p_current p) (b :: bs)) at 1. apply Forall2_app; [|done]. apply Forall_Forall2_diag, list.Forall_true. intros b'. by repeat split. }
  assert (Cl : (c < length (take (p_current p) (b :: bs) ++ l))%nat).
  { pose proof (wf_current _ _ _ W) as Cu. rewrite Eb in Cu. pose proof (Forall2_length F) as Ln. rewrite length_app, length_take. rewrite length_drop in *. lia. }
  set (bs2 := take (p_current p) (b :: bs) ++ l) in *.
  pose proof (wf_append L g _ a (wf_shape _ g p1 bs2 c W1 Sh Cl) Ea Pa Al R P64) as W2. cbn [p_blocks set_current set_blocks] in W2.
  assert (Nn : bs2 <> []) by (intros Q; rewrite Q in Cl; cbn in Cl; lia). specialize (W2 Nn).
  destruct (put_small L g _ (length bs2) (mkBlock a (a + 32) (a + psize) 0) (a + 32) n W2) as [W3 In]; cbn [p_blocks set_blocks b_last b_end];
    [by rewrite lookup_app_r, Nat.sub_diag|lia|lia|lia|].
  cbn [p_blocks set_blocks] in W3, In. rewrite <- (Nat.add_0_r (length bs2)), alter_app_r in W3, In. rewrite app_assoc. fold bs2.
  split; [done|]. split; [exact W3|]. intros m [= <-]. split; [exact In|].
  rewrite Z.add_mod, (Z.div_mod a 16) by done. rewrite Al. replace (16 * (a / 16) + 0) with (a / 16 * 2 * 8) by lia. by rewrite Z.mod_mul.
Qed.

(** ** Small requests *)

Lemma pallocSmall_wf L g p n align : wf L g p -> 0 <= n <= psize - 32 -> exists r p', pallocSmall n align p = (Ok r, p') /\ kept p p' /\ grown L g n r p' /\
  forall m, r = Some m -> in_block p' (m, n) /\ (align = true -> m mod 8 = 0).
Proof.
  intros W Hn. unfold pallocSmall. rewrite (sbind_ok sget _ p p p eq_refl). destruct (find_room _ _ _ _) as [[i m]|] eqn:E.
  - apply find_room_spec in E as (Le & b & Eb & Em & Fit). rewrite lookup_drop in Eb. replace (p_current p + (i - p_current p))%nat with i in Eb by lia.
    destruct (block_end _ i b (wf_block _ _ _ W i b Eb)) as (E8 & Lt & La).
    assert (M : b_last b <= m <= b_end b /\ (align = true -> m mod 8 = 0)).
    { rewrite Em. destruct align; [|split; [lia|done]]. destruct (align_in (b_last b) (b_end b)); [lia|lia|done|done|by split]. }
    destruct M as [M1 M2]. rewrite u64_small in Fit by lia.
    destruct (put_small L g p i b m n W Eb) as [W' In]; [lia..|]. exists (Some m). eexists. split; [reflexivity|]. split; [done|]. split; [exact W'|]. by intros m' [= <-].
  - destruct (pallocBlock_wf L g p n W Hn) as (r & p' & E' & K & G & I). exists r, p'. rewrite E'. split; [done|]. split; [done|]. split; [done|].
    intros m Em. destruct (I m Em). by split.
Qed.

(** ** Large requests *)

Lemma wf_adopt L g g' p a n l : wf (<[a := n]> L) g p -> L !! a = None -> 0 <= n ->
  omap l_alloc l ≡ₚ a :: allocs p -> g' ++ nodes (set_large l p) ≡ₚ g ++ nodes p -> (forall r, r ∈ g' -> r ∈ g) ->
  Forall (in_block p) (nodes (set_large l p)) -> wf L ((a, n) :: g') (set_large l p).
Proof.
  intros W Ea Pn Al Us Gs Nb. destruct (wf_frame _ _ _ W a n) as [El No]; [apply lookup_insert_eq|].
  assert (Own : forall b, owned (set_large l p) b <-> owned p b \/ b = a).
  { intros b. unfold owned. unfold allocs at 1. cbn. rewrite Al, elem_of_cons. tauto. }
  pose proof (fun r => outside_apart (<[a := n]> L) g p a n r W (lookup_insert_eq _ _ _)) as Out.
  destruct W as [W1 W2 W3 W4 W4' W5 W6 W7 W8 W9 W10 W11]. constructor; try done.
  - intros b Hb. unfold allocs in Hb. cbn in Hb. rewrite Al in Hb. apply elem_of_cons in Hb as [->|Hb]; [|by apply W4].
    split; [by exists n|]. intros j c Ec Eq. apply No. left. eauto.
  - unfold allocs. cbn. rewrite Al. apply list.NoDup_cons. split; [|done]. intros Hb. apply No. by right.
  - cbn [app apart]. rewrite Us. split; [|done]. apply list.Forall_forall. intros r Hr. by apply Out.
  - constructor.
    + split; [done|right]. split; [|done]. unfold allocs. cbn. rewrite Al. by left.
    + rewrite list.Forall_forall in W8 |- *. intros r Hr. destruct (W8 r (Gs r Hr)) as [? [?|[Hx E]]]; (split; [done|]); [by left|right].
      split; [|done]. unfold allocs. cbn. rewrite Al. by right.
  - intros b k E. rewrite Own. assert (a <> b) by congruence. destruct (W10 b k) as [? ?]; [by rewrite lookup_insert_ne|]. split; [done|]. by intros [?|?].
  - intros b k E. rewrite Own. destruct (W11 b k E) as [H|?]; [|by right; left]. apply lookup_insert_Some in H as [[-> _]|[_ ?]]; [by right; right|by left].
Qed.

Lemma reuse_spec l k a l' : reuse l k a = Some l' -> omap l_alloc l' ≡ₚ a :: omap l_alloc l /\ map l_node l' = map l_node l.
Proof.
  revert k l'. induction l as [|x l IH]; intros k l' E; cbn [reuse] in E; [done|]. destruct (l_alloc x) as [b|] eqn:Ex.
  - destruct (3 <? k); [done|]. destruct (reuse l (k + 1) a) as [l1|] eqn:E1; [|done]. injection E as <-. destruct (IH _ _ E1) as [P N].
    cbn. rewrite Ex, N. split; [|done]. rewrite P. apply Permutation_swap.
  - injection E as <-. cbn. by rewrite Ex.
Qed.

Lemma nodes_map p p' : map l_node (p_large p') = map l_node (p_large p) -> nodes p' = nodes p.
Proof. intros E. unfold nodes. rewrite <- !(map_map l_node (fun a => (a, sizeof_NgxPoolLarge))). by rewrite E. Qed.

Lemma pallocLarge_wf L g p n : wf L g p -> 0 <= n -> exists r p', pallocLarge n p = (Ok r, p') /\ p_max p' = p_max p /\ p_cleanup p' = p_cleanup p /\ grown L g n r p' /\
  forall m, r = Some m -> m mod 8 = 0.
Proof.
  intros W Hn. unfold pallocLarge. destruct (malloc_wf L g p n W) as (r & p1 & M & S & H). rewrite (sbind_ok _ _ _ _ _ M). destruct S as (S1 & S2 & S3 & S4 & S5).
  destruct r as [a|]; [|by exists None, p1]. destruct H as (W1 & Ea & El & _ & Pa & Al & R).
  assert (A8 : a mod 8 = 0) by (rewrite (Z.div_mod a 16), Al by done; replace (16 * (a / 16) + 0) with (a / 16 * 2 * 8) by lia; by apply Z.mod_mul).
  rewrite (sbind_ok sget _ p1 p1 p1 eq_refl). cbn beta. destruct (reuse (p_large p1) 0 a) as [l|] eqn:Er.
  - destruct (reuse_spec _ _ _ _ Er) as [Pm Nd]. exists (Some a). eexists. split; [reflexivity|]. cbn [snd]. split; [done|]. split; [done|]. split; [|by intros m [= <-]].
    assert (En : nodes (set_large l p1) = nodes p1) by (by apply nodes_map). apply (wf_adopt L g g p1 a n l W1 Ea Hn Pm); [by rewrite En|done|]. rewrite En. apply W1.
  - destruct (pallocSmall_wf _ g p1 sizeof_NgxPoolLarge true W1) as (r & p2 & E2 & (K1 & K2 & K3) & G & I); [unfold sizeof_NgxPoolLarge; lia|].
    rewrite (sbind_ok _ _ _ _ _ E2). destruct r as [node|].
    + rewrite (sbind_ok sget _ p2 p2 p2 eq_refl). exists (Some a). eexists. split; [reflexivity|]. cbn [snd p_max p_cleanup set_large].
      split; [congruence|]. split; [congruence|]. split; [|by intros m [= <-]].
      apply (wf_adopt L _ g p2 a n _ G Ea Hn); [done| |by right|].
      * cbn. apply Permutation_sym, Permutation_middle.
      * unfold nodes. cbn. constructor; [by apply I|]. apply G.
    + destruct (free_wf L g p2 a n G Ea) as (p3 & F & (_ & T2 & _ & _ & T5) & W3). rewrite (sbind_ok _ _ _ _ _ F). exists None, p3.
      split; [done|]. split; [congruence|]. split; [congruence|]. by split.
Qed.

Lemma blocks_there L g p : wf L g p -> exists b bs, p_blocks p = b :: bs.
Proof. intros W. pose proof (wf_current _ _ _ W). destruct (p_blocks p); [cbn in *; lia|eauto]. Qed.

Lemma palloc_wf L g p n : wf L g p -> 0 <= n -> exists r p', palloc n p = (Ok r, p') /\ p_max p' = p_max p /\ p_cleanup p' = p_cleanup p /\ grown L g n r p' /\
  forall m, r = Some m -> m mod 8 = 0.
Proof.
  intros W Hn. unfold palloc. rewrite (sbind_ok sget _ p p p eq_refl). destruct (blocks_there _ _ _ W) as (b & bs & ->).
  destruct (Z.leb_spec n (p_max p)); [|by apply pallocLarge_wf]. pose proof (wf_max _ _ _ W).
  destruct (pallocSmall_wf L g p n true W) as (r & p' & E & (K1 & K2 & K3) & G & I); [lia|]. exists r, p'.
  split; [done|]. split; [done|]. split; [done|]. split; [done|]. intros m Em. by apply I.
Qed.

Lemma pnalloc_wf L g p n : wf L g p -> 0 <= n -> exists r p', pnalloc n p = (Ok r, p') /\ p_max p' = p_max p /\ p_cleanup p' = p_cleanup p /\ grown L g n r p'.
Proof.
  intros W Hn. unfold pnalloc. rewrite (sbind_ok sget _ p p p eq_refl). destruct (blocks_there _ _ _ W) as (b & bs & ->).
  destruct (Z.leb_spec n (p_max p)).
  - pose proof (wf_max _ _ _ W). destruct (pallocSmall_wf L g p n false W) as (r & p' & E & (K1 & K2 & K3) & G & I); [lia|]. by exists r, p'.
  - destruct (pallocLarge_wf L g p n W Hn) as (r & p' & E & ? & ? & G & _). by exists r, p'.
Qed.

(** ** What does not touch what is in use *)

Lemma wf_bytes L g f p : wf L g p -> wf L g (set_bytes f p).
Proof. intros []. by constructor. Qed.

Lemma wf_cleanup L g c p : wf L g p -> wf L g (set_cleanup c p).
Proof. intros []. by constructor. Qed.

Lemma wf_sublist L g g' p : wf L g p -> sublist g' g -> wf L g' p.
Proof.
  intros [W1 W2 W3 W4 W4' W5 W6 W7 W8 W9 W10 W11] S. constructor; try done.
  - eapply apart_sublist, W7. by apply sublist_app.
  - rewrite list.Forall_forall in W8 |- *. intros r Hr. apply W8. by eapply elem_of_sublist.
Qed.

Lemma cleanupAdd_wf L g p n : wf L g p -> 0 <= n -> exists r p', cleanupAdd n p = (Ok r, p') /\
  match r with
  | None => wf L g p'
  | Some c => exists d, p_cleanup p' = mkCleanup c None d :: p_cleanup p /\
      match d with
      | None => n = 0 /\ wf L ((c, sizeof_NgxPoolCleanup) :: g) p'
      | Some d => wf L ((d, n) :: (c, sizeof_NgxPoolCleanup) :: g) p'
      end
  end.
Proof.
  intros W Hn. unfold cleanupAdd. destruct (palloc_wf L g p sizeof_NgxPoolCleanup W) as (r & p1 & E & _ & C1 & G & _); [done|].
  rewrite (sbind_ok _ _ _ _ _ E). destruct r as [c|]; [|by exists None, p1]. cbn [grown] in G. destruct (Z.eqb_spec n 0) as [->|N].
  - rewrite (sbind_ok (sret None) _ p1 None p1 eq_refl). cbn [negb andb]. rewrite (sbind_ok sget _ p1 p1 p1 eq_refl).
    exists (Some c). eexists. split; [reflexivity|]. exists None. cbn. rewrite C1. split; [done|]. split; [done|]. by apply (wf_cleanup _ _ (_ :: _)).
  - destruct (palloc_wf L _ p1 n G Hn) as (d & p2 & E2 & _ & C2 & G2 & _). rewrite (sbind_ok _ _ _ _ _ E2). destruct d as [d|].
    + cbn [negb andb]. rewrite bool_decide_false by done. rewrite (sbind_ok sget _ p2 p2 p2 eq_refl). exists (Some c). eexists. split; [reflexivity|].
      exists (Some d). cbn. rewrite C2, C1. split; [done|]. by apply (wf_cleanup _ _ (_ :: _)).
    + cbn [negb andb]. rewrite bool_decide_true by done. exists None, p2. split; [done|]. eapply wf_sublist; [exact G2|]. by apply sublist_cons.
Qed.

(** ** Giving back *)

Lemma wf_drop L g p a l ans : wf L g p -> allocs p ≡ₚ a :: omap l_alloc l -> map l_node l ≡ₚ map l_node (p_large p) ->
  wf L (filter (fun r => fst r <> a) g) (set_large l (set_heap (delete a (p_live p)) ans p)).
Proof.
  intros W Al Nd. set (p' := set_large l (set_heap (delete a (p_live p)) ans p)).
  assert (Ha : a ∈ allocs p) by (rewrite Al; by left). assert (Own : forall b, owned p b <-> owned p' b \/ b = a).
  { intros b. unfold owned. rewrite Al, elem_of_cons. unfold allocs. cbn. tauto. }
  assert (Na : ~ owned p' a).
  { intros [(j & c & Ec & Eq)|Hb].
    - destruct (wf_alloc _ _ _ W a Ha) as [_ Nb]. by apply (Nb j c).
    - pose proof (wf_allocs _ _ _ W) as Nd'. rewrite Al in Nd'. by apply list.NoDup_cons in Nd' as [? _]. }
  assert (Ns : nodes p' ≡ₚ nodes p).
  { unfold nodes. rewrite <- !(map_map l_node (fun b => (b, sizeof_NgxPoolLarge))). cbn. by rewrite Nd. }
  destruct W as [W1 W2 W3 W4 W4' W5 W6 W7 W8 W9 W10 W11]. constructor; try done.
  - intros b n c k Eb Ec N. cbn in Eb, Ec. apply lookup_delete_Some in Eb as [_ Eb], Ec as [_ Ec]. by apply W1.
  - intros i b Eb. destruct (W2 i b Eb) as [(k & Ek & Lk) E R A La]. constructor; try done. exists k. split; [|done]. cbn.
    rewrite lookup_delete_ne; [done|]. intros ->. apply Na. left. eauto.
  - intros b Hb. destruct (W4 b) as [[k Ek] Nb]; [rewrite Al; by right|]. split; [|done]. exists k. cbn. rewrite lookup_delete_ne; [done|]. intros ->. apply Na. by right.
  - rewrite Al in W4'. by apply list.NoDup_cons in W4' as [_ ?].
  - rewrite Ns. eapply apart_sublist, W7. apply sublist_app; [apply sublist_filter|done].
  - rewrite list.Forall_forall in W8 |- *. intros r [Nr Hr]%list_elem_of_filter. destruct (W8 r Hr) as [? [?|[Hx E]]]; (split; [done|]); [by left|right].
    split; [|cbn; by rewrite lookup_delete_ne]. rewrite Al in Hx. by apply elem_of_cons in Hx as [?|?].
  - rewrite Ns. done.
  - intros b k E. destruct (W10 b k E) as [El No]. rewrite Own in No. cbn. split; [|tauto]. rewrite lookup_delete_ne; [done|]. intros ->. tauto.
  - intros b k E. cbn in E. apply lookup_delete_Some in E as [N E]. destruct (W11 b k E) as [?|O]; [by left|]. rewrite Own in O. destruct O as [?| ->]; [by right|done].
Qed.

Lemma find_large_spec o before l bf x af : find_large o before l = Some (bf, x, af) -> rev before ++ l = bf ++ x :: af /\ l_alloc x = o.
Proof.
  revert before. induction l as [|y l IH]; intros before E; cbn [find_large] in E; [done|]. case_bool_decide as C.
  - injection E as <- <- <-. by split.
  - destruct (IH _ E) as [Eq ?]. split; [|done]. cbn in Eq. by rewrite <- app_assoc in Eq.
Qed.

Lemma pfree_wf L g p o : wf L g p -> exists p', pfree o p = (Ok tt, p') /\ p_cleanup p' = p_cleanup p /\
  wf L (match o with Some a => filter (fun r => fst r <> a) g | None => g end) p'.
Proof.
  intros W. unfold pfree. rewrite (sbind_ok sget _ p p p eq_refl). destruct (blocks_there _ _ _ W) as (b & bs & ->).
  destruct (find_large o [] (p_large p)) as [[[bf x] af]|] eqn:E.
  - apply find_large_spec in E as [Ep Ex]. cbn [rev app] in Ep. unfold free_alloc. rewrite Ex.
    assert (Nd : map l_node (mkLarge (l_node x) None :: bf ++ af) ≡ₚ map l_node (p_large p)) by (rewrite Ep, !map_app; cbn; rewrite map_app; apply Permutation_middle).
    destruct o as [a|].
    + assert (Al : allocs p ≡ₚ a :: omap l_alloc (mkLarge (l_node x) None :: bf ++ af)).
      { unfold allocs. rewrite Ep. cbn. rewrite !omap_app. cbn. rewrite Ex. symmetry. apply Permutation_middle. }
      destruct (wf_alloc _ _ _ W a) as [[k Ek] _]; [rewrite Al; by left|]. unfold free, sbind. rewrite Ek. eexists. split; [reflexivity|]. split; [done|].
      by apply (wf_drop L g p a).
    + eexists. split; [reflexivity|]. split; [done|]. cbn [snd sret].
      set (l := mkLarge (l_node x) None :: bf ++ af) in *. assert (Al : omap l_alloc l ≡ₚ allocs p).
      { unfold allocs, l. rewrite Ep. cbn. rewrite !omap_app. cbn. by rewrite Ex. }
      assert (Ns : nodes (set_large l p) ≡ₚ nodes p).
      { unfold nodes. rewrite <- !(map_map l_node (fun b => (b, sizeof_NgxPoolLarge))). cbn [p_large set_large]. by rewrite Nd. }
      destruct W as [W1 W2 W3 W4 W4' W5 W6 W7 W8 W9 W10 W11]. constructor; try done.
      * intros c Hc. apply W4. unfold allocs in Hc. cbn [p_large set_large] in Hc. by rewrite Al in Hc.
      * unfold allocs. cbn [p_large set_large]. by rewrite Al.
      * by rewrite Ns.
      * eapply list.Forall_impl; [exact W8|]. cbn beta. intros r [? [?|[Hx El]]]; (split; [done|]); [by left|right]. split; [|done].
        unfold allocs. cbn [p_large set_large]. by rewrite Al.
      * by rewrite Ns.
      * intros c k Ec. destruct (W10 c k Ec) as [? No]. split; [done|]. intros [?|Hc]; apply No; [by left|right]. unfold allocs in Hc. cbn [p_large set_large] in Hc. by rewrite Al in Hc.
      * intros c k Ec. destruct (W11 c k Ec) as [?|[?|Hc]]; [by left|right; by left|right; right]. unfold allocs. cbn [p_large set_large]. by rewrite Al.
  - exists p. split; [done|]. split; [done|]. eapply wf_sublist; [done|]. destruct o; [apply sublist_filter|done].
Qed.

Fixpoint frees (l : list Z) : st NgxMemPool unit := match l with [] => sret tt | a :: l => let* _ := free a in frees l end.

Lemma each_large_frees l p : each_large free_alloc l p = frees (omap l_alloc l) p.
Proof.
  revert p. induction l as [|x l IH]; intros p; cbn; [done|]. unfold free_alloc at 1, sbind. destruct (l_alloc x) as [a|]; cbn; [|apply IH].
  unfold sbind. destruct (free a p) as [[]]; [apply IH|done|done].
Qed.

Lemma free_blocks_frees l p : free_blocks l p = frees (map b_base l) p.
Proof. revert p. induction l as [|x l IH]; intros p; cbn; [done|]. unfold sbind. destruct (free _ p) as [[]]; [apply IH|done|done]. Qed.

Lemma frees_spec l p : NoDup l -> (forall a, a ∈ l -> is_Some (p_live p !! a)) ->
  exists m, frees l p = (Ok tt, set_heap m (p_answers p) p) /\ (forall a, m !! a = if decide (a ∈ l) then None else p_live p !! a).
Proof.
  revert p. induction l as [|a l IH]; intros p Nd Lv; cbn [frees].
  - exists (p_live p). split; [by destruct p|]. done.
  - apply list.NoDup_cons in Nd as [Na Nd]. destruct (Lv a) as [n En]; [by left|].
    set (p1 := set_heap (delete a (p_live p)) (p_answers p) p). assert (F : free a p = (Ok tt, p1)) by (unfold free; by rewrite En).
    rewrite (sbind_ok _ _ _ _ _ F). destruct (IH p1 Nd) as (m & E & H).
    { intros b Hb. cbn. rewrite lookup_delete_ne by (by intros ->). apply Lv. by right. }
    exists m. rewrite E. split; [done|]. intros b. rewrite H. cbn. destruct (decide (b ∈ l)) as [I|N].
    + rewrite decide_True; [done|by right].
    + destruct (decide (a = b)) as [->|Nb]; [rewrite lookup_delete_eq, decide_True; [done|by left]|].
      rewrite lookup_delete_ne by done. rewrite decide_False; [done|]. by intros [?|?]%elem_of_cons.
Qed.

Lemma resetPool_wf L g p : wf L g p -> exists p', resetPool p = (Ok tt, p') /\ p_cleanup p' = p_cleanup p /\ wf L [] p'.
Proof.
  intros W. unfold resetPool. rewrite (sbind_ok sget _ p p p eq_refl). destruct (p_blocks p) as [|b bs] eqn:Eb.
  { destruct (blocks_there _ _ _ W) as (? & ? & ?). congruence. }
  destruct (frees_spec (allocs p) p (wf_allocs _ _ _ W)) as (m & F & H); [intros a Ha; by apply (wf_alloc _ _ _ W)|].
  rewrite (sbind_ok (each_large free_alloc (p_large p)) _ p tt (set_heap m (p_answers p) p)) by (by rewrite each_large_frees).
  eexists. split; [reflexivity|]. split; [done|]. cbn [snd].
  set (bs' := reset_block sizeof_NgxPool b :: map (reset_block sizeof_NgxPoolData) bs).
  assert (Of : forall i c', bs' !! i = Some c' -> exists c, p_blocks p !! i = Some c /\ b_base c' = b_base c /\ b_last c' = b_base c + header i /\ b_end c' = b_end c).
  { intros i c' Ec. rewrite Eb. destruct i as [|i]; cbn in Ec |- *; [injection Ec as <-; by exists b|].
    apply list_lookup_fmap_Some in Ec as (c & -> & Ec). by exists c. }
  assert (Keep : forall c, m !! c = None \/ m !! c = p_live p !! c) by (intros c; rewrite H; destruct (decide _); auto).
  assert (Blk : forall i c, p_blocks p !! i = Some c -> m !! b_base c = p_live p !! b_base c).
  { intros i c Ec. rewrite H. destruct (decide _) as [I|]; [|done]. destruct (wf_alloc _ _ _ W _ I) as [_ N]. by destruct (N i c Ec). }
  destruct W as [W1 W2 W3 W4 W4' W5 W6 W7 W8 W9 W10 W11]. constructor; try done.
  - intros a n c k Ea Ec N. cbn in Ea, Ec. destruct (Keep a), (Keep c); try congruence. apply W1; congruence.
  - intros i c' Ec'. destruct (Of i c' Ec') as (c & Ec & E1 & E2 & E3). destruct (W2 i c Ec) as [(k & Ek & Lk) E R A La].
    constructor; rewrite ?E1, ?E2, ?E3; try done; [exists k; cbn; by rewrite (Blk i c Ec)|lia].
  - intros i j c1 c2 E1 E2 Eq. destruct (Of i c1 E1) as (d1 & F1 & G1 & _). destruct (Of j c2 E2) as (d2 & F2 & G2 & _). apply (W3 i j d1 d2); congruence.
  - intros a Ha. by apply elem_of_nil in Ha.
  - constructor.
  - cbn. lia.
  - intros a n Ea. destruct (W10 a n Ea) as [El No]. split.
    + cbn. rewrite H. rewrite decide_False; [done|]. intros I. apply No. by right.
    + intros [(i & c & Ec & Eq)|Ha]; [|by apply elem_of_nil in Ha]. destruct (Of i c Ec) as (d & F1 & G1 & _). apply No. left. exists i, d. split; congruence.
  - intros a n Ea. cbn in Ea. rewrite H in Ea. destruct (decide (a ∈ allocs p)) as [|Na]; [done|]. destruct (W11 a n Ea) as [?|[(i & c & Ec & <-)|?]]; [by left|right; left|done].
    exists i. rewrite Eb in Ec. destruct i as [|i]; cbn in Ec |- *; [injection Ec as <-; by eexists|].
    exists (reset_block sizeof_NgxPoolData c). split; [|done]. apply list_lookup_fmap_Some. by exists c.
Qed.

Lemma bases_nodup L g p : wf L g p -> NoDup (map b_base (p_blocks p)).
Proof.
  intros W. apply NoDup_alt. intros i j a Ei Ej. apply list_lookup_fmap_Some in Ei as (b & -> & Eb). apply list_lookup_fmap_Some in Ej as (c & Eq & Ec).
  by apply (wf_base _ _ _ W i j b c).
Qed.

Lemma destroy_wf L g p : wf L g p -> exists calls p', destroy_NgxMemPool p = (Ok calls, p') /\ p_live p' = L /\
  calls = omap (fun c => option_map (fun h => (h, c_data c)) (c_handler c)) (p_cleanup p).
Proof.
  intros W. unfold destroy_NgxMemPool. rewrite (sbind_ok sget _ p p p eq_refl). destruct (blocks_there _ _ _ W) as (b & bs & Eb). rewrite Eb, <- Eb.
  destruct (frees_spec (allocs p) p (wf_allocs _ _ _ W)) as (m & F & H); [intros a Ha; by apply (wf_alloc _ _ _ W)|].
  rewrite (sbind_ok (each_large free_alloc (p_large p)) _ p tt (set_heap m (p_answers p) p)) by (by rewrite each_large_frees).
  assert (Na : forall a, a ∈ map b_base (p_blocks p) -> a ∉ allocs p).
  { intros a Ha I. apply list_elem_of_In, in_map_iff in Ha as (c & <- & Hc%list_elem_of_In). apply list_elem_of_lookup in Hc as (i & Ec).
    destruct (wf_alloc _ _ _ W _ I) as [_ N]. by apply (N i c). }
  destruct (frees_spec (map b_base (p_blocks p)) (set_heap m (p_answers p) p) (bases_nodup _ _ _ W)) as (m2 & F2 & H2).
  { intros a Ha. cbn. rewrite H, decide_False by (by apply Na). apply list_elem_of_In, in_map_iff in Ha as (c & <- & Hc%list_elem_of_In).
    apply list_elem_of_lookup in Hc as (i & Ec). destruct (bk_live _ _ _ (wf_block _ _ _ W i c Ec)) as (k & Ek & _). by exists k. }
  rewrite (sbind_ok (free_blocks (p_blocks p)) _ _ tt _) by (rewrite free_blocks_frees; exact F2).
  eexists _, _. split; [reflexivity|]. split; [|done]. cbn. apply map_eq. intros a. rewrite H2. cbn. rewrite H.
  destruct (L !! a) as [n|] eqn:Ea.
  - destruct (wf_frame _ _ _ W a n Ea) as [El No]. rewrite !decide_False; [done| |].
    + intros I. apply No. by right.
    + intros I%list_elem_of_In. apply in_map_iff in I as (c & <- & Hc%list_elem_of_In). apply list_elem_of_lookup in Hc as (i & Ec). apply No. left. eauto.
  - destruct (decide _) as [|Nb]; [done|]. destruct (decide _) as [|Nl]; [done|]. destruct (p_live p !! a) as [n|] eqn:El; [|done]. destruct (wf_owned _ _ _ W a n El) as [?|[(i & c & Ec & Eq)|?]]; [congruence| |done].
    exfalso. apply Nb. apply list_elem_of_In, in_map_iff. exists c. split; [done|]. apply list_elem_of_In. by eapply list_elem_of_lookup_2.
Qed.
End Wf.

(** ** Clients *)

Inductive op :=
  | Palloc (n : Z) | Pnalloc (n : Z) | Pcalloc (n : Z) | Pfree (a : option Z)
  | CleanupAdd (n : Z) | SetHandler (c : Z) (h : nat) | Reset.

Definition op_ok (o : op) : bool := match o with Palloc n | Pnalloc n | Pcalloc n | CleanupAdd n => 0 <=? n | _ => true end.

(** What an operation returns: a pointer, or the null pointer. *)
Definition pool_op (o : op) : st NgxMemPool (option Z) :=
  match o with
  | Palloc n => palloc n
  | Pnalloc n => pnalloc n
  | Pcalloc n => pcalloc n
  | Pfree a => let* _ := pfree a in sret None
  | CleanupAdd n => cleanupAdd n
  | SetHandler c h => let* _ := set_handler c h in sret None
  | Reset => let* _ := resetPool in sret None
  end.

(** The regions that the client may use after it: what it was given, with the nodes of
    its clean-ups and their data, until it gives them back or resets the pool. *)
Definition given_after (o : op) (r : option Z) (p : NgxMemPool) (g : list region) : list region :=
  match o, r with
  | (Palloc n | Pnalloc n | Pcalloc n), Some a => (a, n) :: g
  | CleanupAdd n, Some c =>
      match p_cleanup p with
      | mkCleanup _ _ (Some d) :: _ => (d, n) :: (c, sizeof_NgxPoolCleanup) :: g
      | _ => (c, sizeof_NgxPoolCleanup) :: g
      end
  | Pfree (Some a), _ => filter (fun r => fst r <> a) g
  | Reset, _ => []
  | _, _ => g
  end.

Fixpoint pool_run (os : list op) (g : list region) : st NgxMemPool (list region) :=
  match os with
  | [] => sret g
  | o :: os => let* r := pool_op o in let* p := sget in pool_run os (given_after o r p g)
  end.

(** A process before the pool: what is live, and what [malloc] will answer. *)
Definition heap (live : gmap Z Z) (answers : list (option Z)) : NgxMemPool := mkPool [] 0 0 [] [] live answers (fun _ => x00).

Section Clients.
Context (psize : Z) (P8 : psize mod 8 = 0) (P64 : 64 <= psize).

Lemma new_wf live answers : live_ok live -> exists p, new_NgxMemPool psize (heap live answers) = (Ok tt, p) /\
  (p_blocks p <> [] -> wf psize live [] p).
Proof using P8 P64.
  intros Lo. unfold new_NgxMemPool. rewrite NGX_MIN_POOL_SIZE_96. set (k := if 96 <? psize then psize else 96).
  assert (Lk : psize <= k) by (unfold k; destruct (Z.ltb_spec 96 psize); lia).
  assert (M : exists r p1, malloc k (heap live answers) = (Ok r, p1) /\ p_blocks p1 = [] /\
    match r with Some a => fresh live a k = true /\ p_live p1 = <[a := k]> live | None => True end).
  { unfold malloc. cbn. destruct answers as [|[a|] ans]; [by exists None; eexists| |by exists None; eexists].
    destruct (fresh live a k) eqn:F; [exists (Some a)|exists None]; by eexists. }
  destruct M as (r & p1 & M & Nb & H). rewrite (sbind_ok _ _ _ _ _ M). destruct r as [a|]; [|exists p1; by split].
  destruct H as [F El]. eexists. split; [reflexivity|]. intros _. cbn [snd].
  pose proof F as (Pa & Al & R & Fr & D)%fresh_spec. constructor; cbn; rewrite ?El; try done.
  - by apply live_insert.
  - intros i b Eb. apply list_lookup_singleton_Some in Eb as [-> <-]. constructor; cbn; try done; unfold sizeof_NgxPool; try lia.
    exists k. by rewrite lookup_insert_eq.
  - intros i j b c Eb Ec _. apply list_lookup_singleton_Some in Eb as [-> _]. by apply list_lookup_singleton_Some in Ec as [-> _].
  - intros b Hb. by apply elem_of_nil in Hb.
  - constructor.
  - lia.
  - unfold NGX_MAX_ALLOC_FROM_POOL, sizeof_NgxPool. rewrite u64_small by lia. destruct (Z.ltb_spec (psize - 64) (4096 - 1)); lia.
  - intros b n Eb. assert (a <> b) by congruence. rewrite lookup_insert_ne by done. split; [done|].
    intros [(i & c & Ec & Eq)|Hb]; [|by apply elem_of_nil in Hb]. cbn in Ec. apply list_lookup_singleton_Some in Ec as [_ <-]. by cbn in Eq.
  - intros b n [[<- _]|[_ ?]]%lookup_insert_Some; [right|by left]. left. by exists 0%nat; eexists.
Qed.

Lemma pool_op_wf L g p o : wf psize L g p -> op_ok o = true -> exists r p', pool_op o p = (Ok r, p') /\ wf psize L (given_after o r p' g) p' /\
  forall m n, o = Palloc n \/ o = Pcalloc n -> r = Some m -> m mod 8 = 0.
Proof using P8 P64.
  intros W Ho. destruct o as [n|n|n|a|n|c h|]; cbn in Ho |- *.
  - destruct (palloc_wf psize P8 P64 L g p n W) as (r & p' & E & _ & _ & G & A); [lia|]. exists r, p'. split; [done|]. split; [by destruct r|]. intros m k _. apply A.
  - destruct (pnalloc_wf psize P8 P64 L g p n W) as (r & p' & E & _ & _ & G); [lia|]. exists r, p'. split; [done|]. split; [by destruct r|]. by intros m k [?|?].
  - destruct (palloc_wf psize P8 P64 L g p n W) as (r & p' & E & _ & _ & G & A); [lia|]. unfold pcalloc. rewrite (sbind_ok _ _ _ _ _ E). destruct r as [m|].
    + eexists _, _. split; [reflexivity|]. split; [by apply (wf_bytes _ _ (_ :: _))|]. intros m' k _ [= <-]. by apply A.
    + by exists None, p'.
  - destruct (pfree_wf psize L g p a W) as (p' & E & _ & G). rewrite (sbind_ok _ _ _ _ _ E). exists None, p'. split; [done|]. split; [by destruct a|done].
  - destruct (cleanupAdd_wf psize P8 P64 L g p n W) as (r & p' & E & H); [lia|]. exists r, p'. split; [done|]. split; [|by intros m k [?|?]].
    destruct r as [c|]; [|done]. destruct H as (d & -> & H). destruct d as [d|]; [done|by destruct H].
  - eexists None, _. split; [reflexivity|]. split; [|done]. by apply wf_cleanup.
  - destruct (resetPool_wf psize L g p W) as (p' & E & _ & G). rewrite (sbind_ok _ _ _ _ _ E). by exists None, p'.
Qed.

Lemma pool_run_wf L os g p : wf psize L g p -> forallb op_ok os = true -> exists g' p', pool_run os g p = (Ok g', p') /\ wf psize L g' p'.
Proof using P8 P64.
  revert g p. induction os as [|o os IH]; intros g p W Ho; cbn [pool_run]; [by exists g, p|]. cbn in Ho. apply andb_true_iff in Ho as [Ho Hs].
  destruct (pool_op_wf L g p o W Ho) as (r & p1 & E & W1 & _). rewrite (sbind_ok _ _ _ _ _ E), (sbind_ok sget _ p1 p1 p1 eq_refl). by apply IH.
Qed.
End Clients.

(** ** The properties *)

(** C24: for a pool whose size is a multiple of eight and holds its header, whatever is
    asked of it and whatever [malloc] answers: no operation fails, the regions the client
    has are inside live memory, apart from one another, from the pool's own nodes and
    headers and from everything else that is live, and [palloc] answers aligned pointers. *)
Theorem Pool_regions (size : Z) (live : gmap Z Z) (answers : list (option Z)) (os : list op) (p0 : NgxMemPool) :
  size mod 8 = 0 -> 64 <= size -> live_ok live -> new_NgxMemPool size (heap live answers) = (Ok tt, p0) -> p_blocks p0 <> [] ->
  forallb op_ok os = true ->
  exists g p, pool_run os [] p0 = (Ok g, p) /\
    apart (g ++ nodes p) /\
    (forall r, r ∈ g ++ nodes p ->
       (exists i b, p_blocks p !! i = Some b /\ b_base b + header i <= fst r /\ fst r + snd r <= b_base b + size /\ exists k, p_live p !! b_base b = Some k /\ size <= k) \/
       p_live p !! fst r = Some (snd r)) /\
    (forall a n r, live !! a = Some n -> r ∈ g ++ nodes p -> p_live p !! a = Some n /\ disjoint (a, n) r) /\
    (forall n r p', 0 <= n -> palloc n p = (Ok (Some r), p') -> r mod 8 = 0).
Proof.
  intros P8 P64 Lo En Nb Ho. destruct (new_wf size P8 P64 live answers Lo) as (p1 & E1 & W1). rewrite E1 in En. injection En as ->.
  destruct (pool_run_wf size P8 P64 live os [] p0 (W1 Nb) Ho) as (g & p & E & W). exists g, p. split; [done|]. split; [apply W|]. split; [|split].
  - assert (B : forall r, in_block p r -> exists i b, p_blocks p !! i = Some b /\ b_base b + header i <= fst r /\ fst r + snd r <= b_base b + size /\ exists k, p_live p !! b_base b = Some k /\ size <= k).
    { intros r (i & b & Eb & L1 & L2). destruct (wf_block _ _ _ _ W i b Eb) as [K En R A La]. exists i, b. split; [done|]. split; [done|]. split; [lia|done]. }
    intros r [Hr|Hr]%elem_of_app.
    + destruct (Forall_elem _ _ _ (wf_given _ _ _ _ W) Hr) as [_ [I|[_ El]]]; [left; by apply B|by right].
    + left. apply B. apply (Forall_elem _ _ _ (wf_nodes _ _ _ _ W) Hr).
  - intros a n r Ea Hr. split; [by apply (wf_frame _ _ _ _ W)|by apply (outside_apart size live g p a n r W)].
  - intros n r p' Hn Ep. destruct (palloc_wf size P8 P64 live g p n W Hn) as (r' & p2 & E2 & _ & _ & _ & A). rewrite E2 in Ep. injection Ep as -> ->. by apply A.
Qed.

(** the destructor frees each block and each large region that is left exactly once:
    what is live after it is what was live before the pool; and it calls the handlers of
    the clean-ups from the last that was added to the first. *)
Theorem Pool_destroyed (size : Z) (live : gmap Z Z) (answers : list (option Z)) (os : list op) (p0 : NgxMemPool) :
  size mod 8 = 0 -> 64 <= size -> live_ok live -> new_NgxMemPool size (heap live answers) = (Ok tt, p0) -> p_blocks p0 <> [] ->
  forallb op_ok os = true ->
  exists g p calls p', pool_run os [] p0 = (Ok g, p) /\ destroy_NgxMemPool p = (Ok calls, p') /\ p_live p' = live /\
    calls = omap (fun c => option_map (fun h => (h, c_data c)) (c_handler c)) (p_cleanup p).
Proof.
  intros P8 P64 Lo En Nb Ho. destruct (new_wf size P8 P64 live answers Lo) as (p1 & E1 & W1). rewrite E1 in En. injection En as ->.
  destruct (pool_run_wf size P8 P64 live os [] p0 (W1 Nb) Ho) as (g & p & E & W). destruct (destroy_wf size live g p W) as (calls & p' & D & El & C).
  by exists g, p, calls, p'.
Qed.

(** ** Runs *)

(** A pool of 104 bytes in a process with one live region: small requests that fill two
    blocks, a large one, a clean-up, and a large region that is given back. *)
Definition demo_live : gmap Z Z := {[ 16 := 100 ]}.
Definition demo_answers : list (option Z) := [Some 4096; Some 8192; Some 12288; Some 16384; Some 20480].
Definition demo_ops : list op := [Palloc 5; Pnalloc 3; Palloc 32; Palloc 200; Pfree (Some 8192); CleanupAdd 8; SetHandler 12336 7; Pcalloc 40].
Definition demo_pool : NgxMemPool := snd (new_NgxMemPool 104 (heap demo_live demo_answers)).


Example demo_given : fst (pool_run demo_ops [] demo_pool) = Ok [(16416, 40); (12360, 8); (12336, 24); (4168, 32); (4165, 3); (4160, 5)].
Proof. vm_compute. reflexivity. Qed.

Example demo_destroyed : let p := snd (pool_run demo_ops [] demo_pool) in
  fst (destroy_NgxMemPool p) = Ok [(7%nat, Some 12360)] /\ p_live (snd (destroy_NgxMemPool p)) = demo_live.
Proof. vm_compute. split; reflexivity. Qed.

(** A pool whose size is no multiple of eight: aligning the pointer goes past the end, the
    room that is left wraps around, and the region lies outside the block. *)
Example unaligned_overflow : let p := snd (new_NgxMemPool 100 (heap ∅ [Some 4096])) in
  p_live p = {[ 4096 := 100 ]} /\ fst (pool_run [Pnalloc 33; Palloc 3] [] p) = Ok [(4200, 3); (4160, 33)].
Proof. vm_compute. split; reflexivity. Qed.

(** A pool that is smaller than its header: the greatest small request wraps around. *)
Example small_overflow : let p := snd (new_NgxMemPool 32 (heap ∅ [Some 4096])) in
  p_live p = {[ 4096 := 96 ]} /\ fst (pool_run [Palloc 4000] [] p) = Ok [(4160, 4000)].
Proof. vm_compute. split; reflexivity. Qed.

(** [resetPool] keeps the list of clean-ups: its nodes are handed out again while the
    destructor still calls them. *)
Example reset_cleanup : let p := snd (pool_run [CleanupAdd 0; SetHandler 4160 7; Reset; Palloc 24] [] demo_pool) in
  fst (pool_run [CleanupAdd 0; SetHandler 4160 7; Reset; Palloc 24] [] demo_pool) = Ok [(4160, 24)] /\
  fst (destroy_NgxMemPool p) = Ok [(7%nat, None)].
Proof. vm_compute. split; reflexivity. Qed.

(** ** Witnesses *)

Lemma demo_live_ok : live_ok demo_live.
Proof. unfold demo_live. intros a n b k [<- <-]%lookup_singleton_Some [<- <-]%lookup_singleton_Some N. done. Qed.

Lemma Pool_regions_witness : exists g p, pool_run demo_ops [] demo_pool = (Ok g, p) /\ apart (g ++ nodes p) /\ length g = 6%nat /\ p_live p !! 16 = Some 100.
Proof.
  destruct (Pool_regions 104 demo_live demo_answers demo_ops demo_pool) as (g & p & E & A & _ & O & _);
    [reflexivity|lia|apply demo_live_ok|vm_compute; reflexivity|vm_compute; discriminate|reflexivity|].
  exists g, p. split; [done|]. split; [done|]. pose proof demo_given as G. rewrite E in G. injection G as ->.
  split; [done|]. by apply (O 16 100 (4160, 5)); [vm_compute|do 5 right; left].
Defined.

Lemma Pool_destroyed_witness : exists g p calls p', pool_run demo_ops [] demo_pool = (Ok g, p) /\ destroy_NgxMemPool p = (Ok calls, p') /\ p_live p' = demo_live.
Proof.
  destruct (Pool_destroyed 104 demo_live demo_answers demo_ops demo_pool) as (g & p & calls & p' & E & D & L & _);
    [reflexivity|lia|apply demo_live_ok|vm_compute; reflexivity|vm_compute; discriminate|reflexivity|].
  exists g, p, calls, p'. exact (conj E (conj D L)).
Defined.
