(* ===== verification/Http.v ===== *)
(** HTTP messages (src/http/http.cpp, include/http/http.hpp): methods and status codes,
    headers whose names differ in more than case, requests and responses and the text that
    they are sent as; and the dispatch of requests to servlets (src/http/http_servlet.cpp).

    A string is its bytes. A [std::map] with [CaseInsensitiveLess] is the list of its items
    in the order of the comparator. *)
From S2P Require Import Prelude CppString Number.

(** ** Methods and status codes *)

(** [HTTP_METHOD_MAP]: the strings in the order of the numbers, as [#string] spells them. *)
Definition HTTP_METHOD_MAP : list (list byte) :=
  map bstr ["DELETE"; "GET"; "HEAD"; "POST"; "PUT"; "CONNECT"; "OPTIONS"; "TRACE"; "COPY"; "LOCK"; "MKCOL"; "MOVE"; "PROPFIND"; "PROPPATCH"; "SEARCH"; "UNLOCK"; "BIND"; "REBIND"; "UNBIND"; "ACL"; "REPORT"; "MKACTIVITY"; "CHECKOUT"; "MERGE"; "M - SEARCH"; "NOTIFY"; "SUBSCRIBE"; "UNSUBSCRIBE"; "PATCH"; "PURGE"; "MKCALENDAR"; "LINK"; "UNLINK"; "SOURCE"].

Definition INVALID_METHOD : Z := 34.
Definition METHOD_GET : Z := 1.

Definition HTTP_STATUS_MAP : list (Z * list byte) := map (prod_map id bstr)
   [(100, "Continue"); (101, "Switching Protocols"); (102, "Processing"); (200, "OK"); (201, "Created"); (202, "Accepted");
    (203, "Non - Authoritative Information"); (204, "No Content"); (205, "Reset Content"); (206, "Partial Content"); (207, "Multi - Status");
    (208, "Already Reported"); (226, "IM Used"); (300, "Multiple Choices"); (301, "Moved Permanently"); (302, "Found"); (303, "See Other");
    (304, "Not Modified"); (305, "Use Proxy"); (307, "Temporary Redirect"); (308, "Permanent Redirect"); (400, "Bad Request"); (401, "Unauthorized");
    (402, "Payment Required"); (403, "Forbidden"); (404, "Not Found"); (405, "Method Not Allowed"); (406, "Not Acceptable");
    (407, "Proxy Authentication Required"); (408, "Request Timeout"); (409, "Conflict"); (410, "Gone"); (411, "Length Required");
    (412, "Precondition Failed"); (413, "Payload Too Large"); (414, "URI Too Long"); (415, "Unsupported Media Type"); (416, "Range Not Satisfiable");
    (417, "Expectation Failed"); (421, "Misdirected Request"); (422, "Unprocessable Entity"); (423, "Locked"); (424, "Failed Dependency");
    (426, "Upgrade Required"); (428, "Precondition Required"); (429, "Too Many Requests"); (431, "Request Header Fields Too Large");
    (451, "Unavailable For Legal Reasons"); (500, "Internal Server Error"); (501, "Not Implemented"); (502, "Bad Gateway");
    (503, "Service Unavailable"); (504, "Gateway Timeout"); (505, "HTTP Version Not Supported"); (506, "Variant Also Negotiates");
    (507, "Insufficient Storage"); (508, "Loop Detected"); (510, "Not Extended"); (511, "Network Authentication Required")].

Definition STATUS_OK : Z := 200.
Definition STATUS_NOT_FOUND : Z := 404.

(** The number of the first name that passes the test. *)
Fixpoint method_of (test : list byte -> bool) (names : list (list byte)) (i : Z) : Z :=
  match names with [] => INVALID_METHOD | n :: names => if test n then i else method_of test names (i + 1) end.

Definition StringToHttpMethod (m : list byte) : Z := method_of (fun n => bool_decide (n = c_str m)) HTTP_METHOD_MAP 0.

(** [at] is the buffer from the pointer on. *)
Definition CharsToHttpMethod (at_ : list byte) : Z := method_of (fun n => has_prefix n at_) HTTP_METHOD_MAP 0.

Definition HttpMethodToString (m : Z) : list byte :=
  let idx := u32 m in
  if len HTTP_METHOD_MAP <=? idx then bstr "<unknown>" else nth (Z.to_nat idx) HTTP_METHOD_MAP [].

Fixpoint status_of (s : Z) (l : list (Z * list byte)) : list byte :=
  match l with [] => bstr "<unknown>" | (code, msg) :: l => if s =? code then msg else status_of s l end.

Definition HttpStatusToString (s : Z) : list byte := status_of s HTTP_STATUS_MAP.

(** ** Headers *)

(** [tolower] in the C locale. *)
Definition tolower (c : byte) : byte := if (65 <=? b2z c) && (b2z c <=? 90) then z2b (b2z c + 32) else c.

(** [strcasecmp], on the characters before the terminators. *)
Fixpoint casecmp (a b : list byte) : Z :=
  match a, b with
  | [], [] => 0
  | [], y :: _ => - b2z (tolower y)
  | x :: _, [] => b2z (tolower x)
  | x :: a, y :: b => if b2z (tolower x) =? b2z (tolower y) then casecmp a b else b2z (tolower x) - b2z (tolower y)
  end.

Definition strcasecmp (a b : list byte) : Z := casecmp (c_str a) (c_str b).

(** [CaseInsensitiveLess] *)
Definition case_less (a b : list byte) : bool := strcasecmp a b <? 0.

Definition MapType : Type := list (list byte * list byte).

(** [find(key)] *)
Fixpoint map_find (k : list byte) (m : MapType) : option (list byte) :=
  match m with
  | [] => None
  | (k', v) :: m => if case_less k' k then map_find k m else if case_less k k' then None else Some v
  end.

(** [map[key] = val]: a key that is there stays as it is spelt. *)
Fixpoint map_put (k v : list byte) (m : MapType) : MapType :=
  match m with
  | [] => [(k, v)]
  | (k', v') :: m => if case_less k' k then (k', v') :: map_put k v m else if case_less k k' then (k, v) :: (k', v') :: m else (k', v) :: m
  end.

(** [erase(find(key))] *)
Fixpoint map_erase (k : list byte) (m : MapType) : MapType :=
  match m with
  | [] => []
  | (k', v) :: m => if case_less k' k then (k', v) :: map_erase k m else if case_less k k' then (k', v) :: m else m
  end.

(** ** Requests *)

Record HttpRequest := mkRequest {
  rq_method : Z;
  rq_path : list byte;
  rq_query : list byte;
  rq_fragment : list byte;
  rq_version : Z;
  rq_headers : MapType;
  rq_cookies : MapType;
  rq_params : MapType;
  rq_body : list byte;
  rq_close : bool;
  rq_websocket : bool;
}.

Definition setMethod (v : Z) (r : HttpRequest) : HttpRequest :=
  mkRequest v (rq_path r) (rq_query r) (rq_fragment r) (rq_version r) (rq_headers r) (rq_cookies r) (rq_params r) (rq_body r) (rq_close r) (rq_websocket r).
Definition setPath (v : list byte) (r : HttpRequest) : HttpRequest :=
  mkRequest (rq_method r) v (rq_query r) (rq_fragment r) (rq_version r) (rq_headers r) (rq_cookies r) (rq_params r) (rq_body r) (rq_close r) (rq_websocket r).
Definition setQuery (v : list byte) (r : HttpRequest) : HttpRequest :=
  mkRequest (rq_method r) (rq_path r) v (rq_fragment r) (rq_version r) (rq_headers r) (rq_cookies r) (rq_params r) (rq_body r) (rq_close r) (rq_websocket r).
Definition setFragment (v : list byte) (r : HttpRequest) : HttpRequest :=
  mkRequest (rq_method r) (rq_path r) (rq_query r) v (rq_version r) (rq_headers r) (rq_cookies r) (rq_params r) (rq_body r) (rq_close r) (rq_websocket r).
Definition setVersion (v : Z) (r : HttpRequest) : HttpRequest :=
  mkRequest (rq_method r) (rq_path r) (rq_query r) (rq_fragment r) v (rq_headers r) (rq_cookies r) (rq_params r) (rq_body r) (rq_close r) (rq_websocket r).
Definition setHeaders (v : MapType) (r : HttpRequest) : HttpRequest :=
  mkRequest (rq_method r) (rq_path r) (rq_query r) (rq_fragment r) (rq_version r) v (rq_cookies r) (rq_params r) (rq_body r) (rq_close r) (rq_websocket r).
Definition setCookies (v : MapType) (r : HttpRequest) : HttpRequest :=
  mkRequest (rq_method r) (rq_path r) (rq_query r) (rq_fragment r) (rq_version r) (rq_headers r) v (rq_params r) (rq_body r) (rq_close r) (rq_websocket r).
Definition setParams (v : MapType) (r : HttpRequest) : HttpRequest :=
  mkRequest (rq_method r) (rq_path r) (rq_query r) (rq_fragment r) (rq_version r) (rq_headers r) (rq_cookies r) v (rq_body r) (rq_close r) (rq_websocket r).
Definition setBody (v : list byte) (r : HttpRequest) : HttpRequest :=
  mkRequest (rq_method r) (rq_path r) (rq_query r) (rq_fragment r) (rq_version r) (rq_headers r) (rq_cookies r) (rq_params r) v (rq_close r) (rq_websocket r).
Definition setClose (v : bool) (r : HttpRequest) : HttpRequest :=
  mkRequest (rq_method r) (rq_path r) (rq_query r) (rq_fragment r) (rq_version r) (rq_headers r) (rq_cookies r) (rq_params r) (rq_body r) v (rq_websocket r).
Definition setWebsocket (v : bool) (r : HttpRequest) : HttpRequest :=
  mkRequest (rq_method r) (rq_path r) (rq_query r) (rq_fragment r) (rq_version r) (rq_headers r) (rq_cookies r) (rq_params r) (rq_body r) (rq_close r) v.

(** The constructor: a version and whether the connection is to be closed. *)
Definition new_HttpRequest (version : Z) (close : bool) : HttpRequest :=
  mkRequest METHOD_GET (bstr "/") [] [] version [] [] [] [] close false.

Definition getHeader (key def : list byte) (r : HttpRequest) : list byte := default def (map_find key (rq_headers r)).
Definition getParam (key def : list byte) (r : HttpRequest) : list byte := default def (map_find key (rq_params r)).
Definition getCookie (key def : list byte) (r : HttpRequest) : list byte := default def (map_find key (rq_cookies r)).
Definition setHeader (key val : list byte) (r : HttpRequest) : HttpRequest := setHeaders (map_put key val (rq_headers r)) r.
Definition setParam (key val : list byte) (r : HttpRequest) : HttpRequest := setParams (map_put key val (rq_params r)) r.
Definition setCookie (key val : list byte) (r : HttpRequest) : HttpRequest := setCookies (map_put key val (rq_cookies r)) r.
Definition delHeader (key : list byte) (r : HttpRequest) : HttpRequest := setHeaders (map_erase key (rq_headers r)) r.
Definition delParam (key : list byte) (r : HttpRequest) : HttpRequest := setParams (map_erase key (rq_params r)) r.
Definition delCookie (key : list byte) (r : HttpRequest) : HttpRequest := setCookies (map_erase key (rq_cookies r)) r.

(** [hasHeader(key, &val)]: the value where there is one. *)
Definition hasHeader (key : list byte) (r : HttpRequest) : option (list byte) := map_find key (rq_headers r).
Definition hasParam (key : list byte) (r : HttpRequest) : option (list byte) := map_find key (rq_params r).
Definition hasCookie (key : list byte) (r : HttpRequest) : option (list byte) := map_find key (rq_cookies r).

(** ** Text *)

Definition CRLF : list byte := [x0d; x0a].
Definition colon : list byte := bstr ": ".

(** One header line. *)
Definition header_line (h : list byte * list byte) : list byte := fst h ++ colon ++ snd h ++ CRLF.

Definition connection_line (close : bool) : list byte :=
  bstr "connection: " ++ bstr (if close then "close" else "keep-alive") ++ CRLF.

(** The header lines: that of the connection is left out, unless it is a websocket. *)
Definition header_lines (websocket : bool) (m : MapType) : list byte :=
  concat (map (fun h => if negb websocket && (strcasecmp (fst h) (bstr "connection") =? 0) then [] else header_line h) m).

(** The end of the header and the body. *)
Definition body_text (body : list byte) : list byte :=
  if is_empty body then CRLF else bstr "content-length: " ++ dec (len body) ++ CRLF ++ CRLF ++ body.

Definition version_text (version : Z) : list byte :=
  bstr "HTTP/" ++ dec (Z.shiftr version 4) ++ bstr "." ++ dec (Z.land version 0x0F).

(** [HttpRequest::dump] *)
Definition dump_request (r : HttpRequest) : list byte :=
  HttpMethodToString (rq_method r) ++ bstr " " ++ rq_path r ++
  (if is_empty (rq_query r) then [] else bstr "?") ++ rq_query r ++
  (if is_empty (rq_fragment r) then [] else bstr "#") ++ rq_fragment r ++
  bstr " " ++ version_text (rq_version r) ++ CRLF ++
  (if rq_websocket r then [] else connection_line (rq_close r)) ++
  header_lines (rq_websocket r) (rq_headers r) ++
  body_text (rq_body r).

(** ** Responses *)

Record HttpResponse := mkResponse {
  rs_status : Z;
  rs_version : Z;
  rs_close : bool;
  rs_websocket : bool;
  rs_body : list byte;
  rs_reason : list byte;
  rs_headers : MapType;
  rs_cookies : list (list byte);
}.

Definition setStatus (v : Z) (r : HttpResponse) : HttpResponse :=
  mkResponse v (rs_version r) (rs_close r) (rs_websocket r) (rs_body r) (rs_reason r) (rs_headers r) (rs_cookies r).
Definition rsp_setVersion (v : Z) (r : HttpResponse) : HttpResponse :=
  mkResponse (rs_status r) v (rs_close r) (rs_websocket r) (rs_body r) (rs_reason r) (rs_headers r) (rs_cookies r).
Definition rsp_setClose (v : bool) (r : HttpResponse) : HttpResponse :=
  mkResponse (rs_status r) (rs_version r) v (rs_websocket r) (rs_body r) (rs_reason r) (rs_headers r) (rs_cookies r).
Definition rsp_setWebsocket (v : bool) (r : HttpResponse) : HttpResponse :=
  mkResponse (rs_status r) (rs_version r) (rs_close r) v (rs_body r) (rs_reason r) (rs_headers r) (rs_cookies r).
Definition rsp_setBody (v : list byte) (r : HttpResponse) : HttpResponse :=
  mkResponse (rs_status r) (rs_version r) (rs_close r) (rs_websocket r) v (rs_reason r) (rs_headers r) (rs_cookies r).
Definition setReason (v : list byte) (r : HttpResponse) : HttpResponse :=
  mkResponse (rs_status r) (rs_version r) (rs_close r) (rs_websocket r) (rs_body r) v (rs_headers r) (rs_cookies r).
Definition rsp_setHeaders (v : MapType) (r : HttpResponse) : HttpResponse :=
  mkResponse (rs_status r) (rs_version r) (rs_close r) (rs_websocket r) (rs_body r) (rs_reason r) v (rs_cookies r).

Definition new_HttpResponse (version : Z) (close : bool) : HttpResponse := mkResponse STATUS_OK version close false [] [] [] [].

Definition request_createResponse (r : HttpRequest) : HttpResponse := new_HttpResponse (rq_version r) (rq_close r).

Definition rsp_getHeader (key def : list byte) (r : HttpResponse) : list byte := default def (map_find key (rs_headers r)).
Definition rsp_setHeader (key val : list byte) (r : HttpResponse) : HttpResponse := rsp_setHeaders (map_put key val (rs_headers r)) r.
Definition rsp_delHeader (key : list byte) (r : HttpResponse) : HttpResponse := rsp_setHeaders (map_erase key (rs_headers r)) r.

(** [HttpResponse::dump] *)
Definition dump_response (r : HttpResponse) : list byte :=
  version_text (rs_version r) ++ bstr " " ++ dec (u32 (rs_status r)) ++ bstr " " ++
  (if is_empty (rs_reason r) then HttpStatusToString (rs_status r) else rs_reason r) ++ CRLF ++
  header_lines (rs_websocket r) (rs_headers r) ++
  concat (map (fun c => bstr "Set-Cookie: " ++ c ++ CRLF) (rs_cookies r)) ++
  (if rs_websocket r then [] else connection_line (rs_close r)) ++
  body_text (rs_body r).

(** ** Servlets *)

(** [NotFoundServlet::handle] *)
Definition not_found_content (name : list byte) : list byte :=
  bstr "<html><head><title>404 Not Found</title></head><body><center><h1>404 Not Found</h1></center><hr><center>" ++ name ++ bstr "</center></body></html>".

Definition quote : list byte := [x22].
Definition quoted (s : string) : list byte := quote ++ bstr s ++ quote.

Definition not_found_json : list byte :=
  bstr "{" ++ quoted "code" ++ bstr ":404," ++ quoted "message" ++ bstr ":" ++ quoted "not found" ++ bstr "}".

Definition NotFoundServlet_handle (name : list byte) (request : HttpRequest) (response : HttpResponse) : Z * HttpResponse :=
  let response := rsp_setHeader (bstr "Server") (bstr "CIM/1.0.0") (setStatus STATUS_NOT_FOUND response) in
  let path := rq_path request in
  let accept := getHeader (bstr "Accept") [] request in
  if (5 <=? len path) && has_prefix (bstr "/api/") path || bool_decide (is_Some (find_sub (bstr "application/json") accept)) then
    (0, rsp_setBody not_found_json (rsp_setHeader (bstr "Content-Type") (bstr "application/json; charset=utf-8") response))
  else (0, rsp_setBody (not_found_content name) (rsp_setHeader (bstr "Content-Type") (bstr "text/html") response)).

(** The dispatcher, over what [fnmatch] of the C library answers. A creator is what gives
    the servlet when it is asked. *)
Section dispatch.
Context {Servlet : Type} (fnmatch : list byte -> list byte -> bool).

Record ServletDispatch := mkDispatch {
  sd_datas : gmap (list byte) (unit -> Servlet);
  sd_globs : list (list byte * (unit -> Servlet));
  sd_default : Servlet;
}.

Definition addServletCreator (uri : list byte) (c : unit -> Servlet) (d : ServletDispatch) : ServletDispatch :=
  mkDispatch (<[uri := c]> (sd_datas d)) (sd_globs d) (sd_default d).
Definition addServlet (uri : list byte) (s : Servlet) : ServletDispatch -> ServletDispatch := addServletCreator uri (fun _ => s).

(** The loop that erases the first entry of a pattern. *)
Fixpoint erase_glob (uri : list byte) (l : list (list byte * (unit -> Servlet))) : list (list byte * (unit -> Servlet)) :=
  match l with [] => [] | g :: l => if bool_decide (fst g = uri) then l else g :: erase_glob uri l end.

Definition addGlobServletCreator (uri : list byte) (c : unit -> Servlet) (d : ServletDispatch) : ServletDispatch :=
  mkDispatch (sd_datas d) (erase_glob uri (sd_globs d) ++ [(uri, c)]) (sd_default d).
Definition addGlobServlet (uri : list byte) (s : Servlet) : ServletDispatch -> ServletDispatch := addGlobServletCreator uri (fun _ => s).

Definition delServlet (uri : list byte) (d : ServletDispatch) : ServletDispatch :=
  mkDispatch (delete uri (sd_datas d)) (sd_globs d) (sd_default d).
Definition delGlobServlet (uri : list byte) (d : ServletDispatch) : ServletDispatch :=
  mkDispatch (sd_datas d) (erase_glob uri (sd_globs d)) (sd_default d).
Definition setDefault (s : Servlet) (d : ServletDispatch) : ServletDispatch := mkDispatch (sd_datas d) (sd_globs d) s.

Definition getServlet (uri : list byte) (d : ServletDispatch) : option Servlet :=
  match sd_datas d !! uri with Some c => Some (c tt) | None => None end.

Fixpoint find_glob (test : list byte -> bool) (l : list (list byte * (unit -> Servlet))) : option Servlet :=
  match l with [] => None | g :: l => if test (fst g) then Some (snd g tt) else find_glob test l end.

Definition getGlobServlet (uri : list byte) (d : ServletDispatch) : option Servlet := find_glob (fun p => bool_decide (p = uri)) (sd_globs d).

Definition getMatchedServlet (uri : list byte) (d : ServletDispatch) : Servlet :=
  match getServlet uri d with
  | Some s => s
  | None => match find_glob (fun p => fnmatch p uri) (sd_globs d) with Some s => s | None => sd_default d end
  end.
End dispatch.
