(* ===== verification/HttpSpec.v ===== *)
(** HTTP messages: names and maps that do not look at case, and the text of a message,
    which a reader of the format takes apart again. *)
From stdpp Require Import sorting.
From S2P Require Import Prelude CppString Number Http.

(** ** Names *)

(** A name as the comparator sees it. *)
Definition fold (k : list byte) : list byte := map tolower (c_str k).

Lemma tolower_pos c : 0 < b2z c -> 0 < b2z (tolower c).
Proof.
  intros P. unfold tolower. destruct (Z.leb_spec 65 (b2z c)), (Z.leb_spec (b2z c) 90); cbn; try done. rewrite b2z_z2b_small; lia.
Qed.

Lemma casecmp_eq a b : no_nul a -> no_nul b -> casecmp a b = 0 <-> map tolower a = map tolower b.
Proof.
  revert b. induction a as [|x a IH]; intros [|y b] Na Nb; cbn; [done| | |].
  - apply list.Forall_cons in Nb as [Py _]. apply tolower_pos in Py. split; [lia|done].
  - apply list.Forall_cons in Na as [Px _]. apply tolower_pos in Px. split; [lia|done].
  - apply list.Forall_cons in Na as [_ Na], Nb as [_ Nb]. destruct (Z.eqb_spec (b2z (tolower x)) (b2z (tolower y))) as [E|N].
    + rewrite (IH b Na Nb). apply b2z_inj in E as ->. split; [by intros ->|by intros [=]].
    + split; [lia|]. intros [= E _]. congruence.
Qed.

Lemma casecmp_flip a b : casecmp b a = - casecmp a b.
Proof.
  revert b. induction a as [|x a IH]; intros [|y b]; cbn; [done|lia|lia|]. rewrite (Z.eqb_sym (b2z (tolower y))).
  destruct (Z.eqb_spec (b2z (tolower x)) (b2z (tolower y))); [apply IH|lia].
Qed.

Lemma casecmp_trans a b c : no_nul a -> no_nul b -> no_nul c -> casecmp a b < 0 -> casecmp b c < 0 -> casecmp a c < 0.
Proof.
  revert b c. induction a as [|x a IH]; intros [|y b] [|z c] Na Nb Nc; cbn; try lia; repeat match goal with H : no_nul (_ :: _) |- _ => apply list.Forall_cons in H as [?%tolower_pos ?] end; try lia.
  destruct (Z.eqb_spec (b2z (tolower x)) (b2z (tolower y))), (Z.eqb_spec (b2z (tolower y)) (b2z (tolower z))), (Z.eqb_spec (b2z (tolower x)) (b2z (tolower z))); try lia.
  by apply IH.
Qed.

(** Equal strings compare alike. *)
Lemma casecmp_same a a' b : map tolower a = map tolower a' -> casecmp a b = casecmp a' b.
Proof.
  revert a' b. induction a as [|x a IH]; intros [|x' a'] [|y b] E; cbn in E; try done; injection E as E1 E2; cbn; rewrite E1; [done|].
  by rewrite (IH a' b E2).
Qed.

Lemma strcasecmp_eq a b : strcasecmp a b = 0 <-> fold a = fold b.
Proof. apply casecmp_eq; apply c_str_no_nul. Qed.

Lemma case_less_trans a b c : case_less a b = true -> case_less b c = true -> case_less a c = true.
Proof. unfold case_less. rewrite !Z.ltb_lt. apply casecmp_trans; apply c_str_no_nul. Qed.

(** Of two names one is less, or they are the same but for case. *)
Lemma case_less_total a b : (case_less a b = true /\ case_less b a = false /\ fold a <> fold b) \/
  (case_less a b = false /\ case_less b a = true /\ fold a <> fold b) \/ (case_less a b = false /\ case_less b a = false /\ fold a = fold b).
Proof.
  unfold case_less. rewrite <- strcasecmp_eq. pose proof (casecmp_flip (c_str a) (c_str b)) as F. unfold strcasecmp in *. rewrite F.
  destruct (Z.lt_total (casecmp (c_str a) (c_str b)) 0) as [?|[?|?]]; [left|right; right|right; left]; rewrite ?Z.ltb_lt, ?Z.ltb_ge; lia.
Qed.

Lemma case_less_fold a a' b : fold a = fold a' -> case_less a b = case_less a' b.
Proof. intros E. unfold case_less, strcasecmp. by rewrite (casecmp_same _ _ _ E). Qed.

Lemma case_less_fold_r a b b' : fold b = fold b' -> case_less a b = case_less a b'.
Proof. intros E. unfold case_less, strcasecmp. rewrite (casecmp_flip (c_str b)), (casecmp_flip (c_str b')). by rewrite (casecmp_same _ _ _ E). Qed.

(** ** Maps *)

Definition ordered (m : MapType) : Prop := StronglySorted (fun a b => case_less (fst a) (fst b) = true) m.

Lemma ordered_cons h m : ordered (h :: m) <-> ordered m /\ Forall (fun b => case_less (fst h) (fst b) = true) m.
Proof. split; [intros S; by inversion S|intros [S F]; by constructor]. Qed.

Lemma map_find_less k m : Forall (fun b => case_less k (fst b) = true) m -> map_find k m = None.
Proof.
  intros F. destruct m as [|[k' v] m]; [done|]. apply list.Forall_cons in F as [L _]. cbn in *. rewrite L.
  destruct (case_less_total k k') as [(_ & -> & _)|[(? & _)|(? & _)]]; [done|congruence|congruence].
Qed.

Lemma less_all k k' m : case_less k k' = true -> Forall (fun b : list byte * list byte => case_less k' (fst b) = true) m ->
  Forall (fun b => case_less k (fst b) = true) m.
Proof. intros L F. eapply list.Forall_impl; [exact F|]. intros b. by apply case_less_trans. Qed.

Lemma map_put_keys k v m (P : list byte -> Prop) : (P k) -> Forall (fun h => P (fst h)) m -> Forall (fun h => P (fst h)) (map_put k v m).
Proof.
  intros Pk. induction m as [|[k' v'] m IH]; intros F; cbn; [by constructor|]. apply list.Forall_cons in F as [Pk' F].
  destruct (case_less k' k); [by constructor; [|apply IH]|]. destruct (case_less k k'); repeat constructor; done.
Qed.

Lemma map_erase_keys k m (P : list byte -> Prop) : Forall (fun h => P (fst h)) m -> Forall (fun h => P (fst h)) (map_erase k m).
Proof.
  induction m as [|[k' v'] m IH]; intros F; cbn; [done|]. apply list.Forall_cons in F as [Pk' F].
  destruct (case_less k' k); [by constructor; [|apply IH]|]. destruct (case_less k k'); [by constructor|done].
Qed.

Lemma map_put_ordered k v m : ordered m -> ordered (map_put k v m).
Proof.
  induction m as [|[k' v'] m IH]; intros O; cbn; [repeat constructor|]. apply ordered_cons in O as [O F]. cbn in F.
  destruct (case_less_total k k') as [(L & -> & _)|[(L & L' & _)|(L & -> & E)]]; rewrite ?L; [|rewrite L'|].
  - apply ordered_cons. split; [by apply ordered_cons|]. constructor; [done|]. by eapply less_all.
  - apply ordered_cons. split; [by apply IH|]. cbn. by apply (map_put_keys _ _ _ (fun b => case_less k' b = true)).
  - by apply ordered_cons.
Qed.

Lemma map_erase_ordered k m : ordered m -> ordered (map_erase k m).
Proof.
  induction m as [|[k' v'] m IH]; intros O; cbn; [done|]. apply ordered_cons in O as O'. destruct O' as [Om F].
  destruct (case_less k' k); [|by destruct (case_less k k')]. apply ordered_cons. split; [by apply IH|]. by apply (map_erase_keys _ _ (fun b => case_less k' b = true)).
Qed.

(** Compare two names, and reduce the tests of the code. *)
Ltac compare a b :=
  let L := fresh "L" in let L' := fresh "L" in let N := fresh "N" in
  destruct (case_less_total a b) as [(L & L' & N)|[(L & L' & N)|(L & L' & N)]]; rewrite ?L, ?L'.

Lemma map_find_put k v m k' : ordered m -> map_find k' (map_put k v m) = (if decide (fold k' = fold k) then Some v else map_find k' m).
Proof.
  induction m as [|[a w] m IH]; intros O; cbn [map_put map_find fst].
  - compare k k'; destruct (decide (fold k' = fold k)); congruence.
  - apply ordered_cons in O as [O F]. specialize (IH O). compare a k; cbn [map_find].
    + rewrite IH. compare a k'; destruct (decide (fold k' = fold k)) as [E|]; try done.
      * pose proof (case_less_fold_r a k' k E); congruence.
      * congruence.
    + compare k k'.
      * destruct (decide (fold k' = fold k)); congruence.
      * rewrite decide_False by congruence. pose proof (case_less_trans k' k a L2 L0) as T. compare a k'; congruence.
      * by rewrite decide_True.
    + compare a k'; destruct (decide (fold k' = fold k)); congruence.
Qed.

Lemma map_find_erase k m k' : ordered m -> map_find k' (map_erase k m) = (if decide (fold k' = fold k) then None else map_find k' m).
Proof.
  induction m as [|[a w] m IH]; intros O; cbn [map_erase map_find fst]; [by destruct (decide _)|].
  apply ordered_cons in O as O'. destruct O' as [Om F]. specialize (IH Om). cbn in F. compare a k; cbn [map_find].
  - rewrite IH. compare a k'; destruct (decide (fold k' = fold k)) as [E|]; try done; try (pose proof (case_less_fold_r a k' k E)); congruence.
  - destruct (decide (fold k' = fold k)) as [E|]; [|done]. rewrite (case_less_fold_r a k' k E), (case_less_fold k' k a E), L, L0. done.
  - destruct (decide (fold k' = fold k)) as [E|N'].
    + apply map_find_less. eapply list.Forall_impl; [exact F|]. cbn. intros b. by rewrite (case_less_fold a k' (fst b)) by congruence.
    + compare a k'; [done| |congruence]. apply map_find_less. by eapply less_all.
Qed.

(** ** A reader of the format *)

(** The first line and what follows it. *)
Fixpoint take_line (s : list byte) : option (list byte * list byte) :=
  match s with
  | c :: s' =>
      match s' with
      | d :: r => if bool_decide (c = x0d /\ d = x0a) then Some ([], r) else prod_map (cons c) id <$> take_line s'
      | [] => None
      end
  | [] => None
  end.

Definition split_header (l : list byte) : option (list byte * list byte) :=
  match find_sub colon l with Some i => Some (take i l, drop (i + 2) l) | None => None end.

(** The header lines up to the empty one. *)
Fixpoint read_headers (fuel : nat) (s : list byte) : option (list (list byte * list byte) * list byte) :=
  match fuel with
  | O => None
  | S fuel =>
      '(l, r) ← take_line s;
      if is_empty l then Some ([], r)
      else h ← split_header l; '(hs, r) ← read_headers fuel r; Some (h :: hs, r)
  end.


Definition read_dec (s : list byte) : option Z :=
  if negb (is_empty s) && forallb is_digit s then Some (fold_left (fun n c => 10 * n + (b2z c - 48)) s 0) else None.

Fixpoint content_length (hs : list (list byte * list byte)) : option Z :=
  match hs with
  | [] => Some 0
  | (k, v) :: hs => if strcasecmp k (bstr "content-length") =? 0 then read_dec v else content_length hs
  end.

(** The first line, the headers, the body and what follows the message. *)
Definition read_message (s : list byte) : option (list byte * list (list byte * list byte) * list byte * list byte) :=
  '(start, r) ← take_line s; '(hs, r) ← read_headers (length s) r; n ← content_length hs;
  if n <=? len r then Some (start, hs, take (Z.to_nat n) r, drop (Z.to_nat n) r) else None.

(** ** Digits *)

Lemma read_dec_dec n : 0 <= n < 2 ^ 64 -> read_dec (dec n) = Some n.
Proof. intros H. unfold read_dec. by rewrite dec_nonempty, dec_is_digits, dec_value. Qed.

(** ** Lines *)

Definition clean (l : list byte) : Prop := Forall (fun c => c <> x0d /\ c <> x0a) l.

Lemma take_line_clean l r : clean l -> take_line (l ++ CRLF ++ r) = Some (l, r).
Proof.
  induction l as [|c l IH]; intros C; [done|]. apply list.Forall_cons in C as [[Nc _] C].
  change ((c :: l) ++ CRLF ++ r) with (c :: (l ++ CRLF ++ r)). cbn [take_line]. rewrite (IH C).
  destruct (l ++ CRLF ++ r) as [|d s] eqn:E; [by destruct l|]. rewrite bool_decide_false by (intros [? _]; done). done.
Qed.

Record header_ok (h : list byte * list byte) : Prop := {
  hd_key : fst h <> [];
  hd_clean : clean (fst h) /\ clean (snd h);
  hd_colon : Forall (fun c => c <> x3a) (fst h);
}.

Lemma find_colon k v : Forall (fun c => c <> x3a) k -> find_sub colon (k ++ colon ++ v) = Some (length k).
Proof.
  induction k as [|c k IH]; intros F; [done|]. apply list.Forall_cons in F as [Nc F]. cbn [app find_sub length].
  assert (P : has_prefix colon (c :: k ++ colon ++ v) = false).
  { apply bool_decide_eq_false. intros E. cbn in E. injection E as E _. done. }
  rewrite P. change (bstr ": ") with colon in *. by rewrite IH.
Qed.

Lemma split_header_line h : header_ok h -> split_header (fst h ++ colon ++ snd h) = Some h.
Proof.
  intros [_ _ C]. unfold split_header. rewrite find_colon by done. rewrite take_app_length. rewrite app_assoc.
  change 2%nat with (length colon). rewrite <- length_app, drop_app_length. by destruct h.
Qed.

Lemma clean_app l k : clean l -> clean k -> clean (l ++ k).
Proof. intros A B. by apply list.Forall_app. Qed.

Lemma header_clean h : header_ok h -> clean (fst h ++ colon ++ snd h).
Proof. intros [_ [A B] _]. apply clean_app; [done|]. apply clean_app; [|done]. by repeat constructor. Qed.

Lemma read_headers_lines hs r fuel : Forall header_ok hs -> (length hs < fuel)%nat ->
  read_headers fuel (concat (map header_line hs) ++ CRLF ++ r) = Some (hs, r).
Proof.
  revert fuel. induction hs as [|h hs IH]; intros [|fuel] F L; cbn in L; try lia; [done|]. apply list.Forall_cons in F as [O F].
  cbn [map concat]. unfold header_line at 1. rewrite <- !app_assoc. rewrite (app_assoc colon), (app_assoc (fst h)). cbn [read_headers].
  rewrite take_line_clean by (by apply header_clean). cbn [mbind option_bind]. assert (E : is_empty (fst h ++ colon ++ snd h) = false).
  { destruct O as [K _ _]. by destruct (fst h). }
  rewrite E, split_header_line by done. cbn [mbind option_bind]. rewrite IH; [done|done|lia].
Qed.

Lemma header_lines_length hs : (length hs <= length (concat (map header_line hs)))%nat.
Proof. induction hs as [|h hs IH]; cbn; [lia|]. unfold header_line at 1. rewrite !length_app. cbn. lia. Qed.

(** What is written line by line is read back. *)
Lemma read_written start hs body rest n : clean start -> Forall header_ok hs -> content_length hs = Some n -> n = len body ->
  read_message (start ++ CRLF ++ concat (map header_line hs) ++ CRLF ++ body ++ rest) = Some (start, hs, body, rest).
Proof.
  intros C F Cl En. unfold read_message. rewrite take_line_clean by done. cbn [mbind option_bind].
  rewrite read_headers_lines; [|done|].
  2:{ rewrite !length_app. pose proof (header_lines_length hs). cbn. lia. }
  cbn [mbind option_bind]. rewrite Cl. cbn [mbind option_bind]. subst n. unfold len. rewrite length_app, Nat2Z.id.
  replace (Z.of_nat (length body) <=? Z.of_nat (length body + length rest)) with true by lia. by rewrite take_app_length, drop_app_length.
Qed.

(** ** What is sent *)

Definition start_of_request (r : HttpRequest) : list byte :=
  HttpMethodToString (rq_method r) ++ bstr " " ++ rq_path r ++
  (if is_empty (rq_query r) then [] else bstr "?") ++ rq_query r ++
  (if is_empty (rq_fragment r) then [] else bstr "#") ++ rq_fragment r ++
  bstr " " ++ version_text (rq_version r).

Definition start_of_response (r : HttpResponse) : list byte :=
  version_text (rs_version r) ++ bstr " " ++ dec (u32 (rs_status r)) ++ bstr " " ++
  (if is_empty (rs_reason r) then HttpStatusToString (rs_status r) else rs_reason r).

Definition is_connection (h : list byte * list byte) : bool := strcasecmp (fst h) (bstr "connection") =? 0.

Definition connection_header (websocket close : bool) : MapType :=
  if websocket then [] else [(bstr "connection", bstr (if close then "close" else "keep-alive"))].

(** The headers of a message but the one of the connection. *)
Definition own_headers (websocket : bool) (m : MapType) : MapType := List.filter (fun h => negb (negb websocket && is_connection h)) m.

Definition length_header (body : list byte) : MapType := if is_empty body then [] else [(bstr "content-length", dec (len body))].

Lemma header_lines_own w m : header_lines w m = concat (map header_line (own_headers w m)).
Proof.
  unfold header_lines, own_headers, is_connection. induction m as [|h m IH]; cbn [map concat]; [done|].
  cbn [List.filter]. destruct (negb w && (strcasecmp (fst h) (bstr "connection") =? 0)); cbn [negb map concat]; [exact IH|]. by rewrite <- IH.
Qed.

Lemma connection_line_header (w c : bool) : (if w then [] else connection_line c) = concat (map header_line (connection_header w c)).
Proof. destruct w; [done|]. cbn [map concat connection_header]. rewrite app_nil_r. done. Qed.

Lemma body_text_header body : body_text body = concat (map header_line (length_header body)) ++ CRLF ++ body.
Proof.
  unfold body_text, length_header. destruct body as [|b body]; cbn [is_empty]; [done|]. cbn [map concat]. unfold header_line. cbn [fst snd].
  rewrite app_nil_r, <- !app_assoc. done.
Qed.

Lemma dump_request_lines r : dump_request r = start_of_request r ++ CRLF ++
  concat (map header_line (connection_header (rq_websocket r) (rq_close r) ++ own_headers (rq_websocket r) (rq_headers r) ++ length_header (rq_body r))) ++ CRLF ++ rq_body r.
Proof.
  unfold dump_request, start_of_request. rewrite connection_line_header, header_lines_own, body_text_header, !map_app, !concat_app, <- !app_assoc. done.
Qed.

Lemma dump_response_lines r : dump_response r = start_of_response r ++ CRLF ++
  concat (map header_line (own_headers (rs_websocket r) (rs_headers r) ++ map (fun c => (bstr "Set-Cookie", c)) (rs_cookies r) ++
    connection_header (rs_websocket r) (rs_close r) ++ length_header (rs_body r))) ++ CRLF ++ rs_body r.
Proof.
  unfold dump_response, start_of_response. rewrite connection_line_header, header_lines_own, body_text_header, !map_app, !concat_app, <- !app_assoc, map_map. done.
Qed.

(** ** The properties *)

(** A map of headers holds lines that can be told apart, and no length of its own. *)
Definition headers_ok (m : MapType) : Prop := Forall (fun h => header_ok h /\ strcasecmp (fst h) (bstr "content-length") <> 0) m.

Lemma connection_ok w c : headers_ok (connection_header w c).
Proof. destruct w; [constructor|]. repeat constructor; try done; by destruct c; repeat constructor. Qed.

Lemma own_ok w m : headers_ok m -> headers_ok (own_headers w m).
Proof.
  intros H. apply list.Forall_forall. intros h Hh%list_elem_of_In. apply filter_In in Hh as [Hh _].
  apply (Forall_elem _ _ _ H). by apply list_elem_of_In.
Qed.

Lemma dec_clean n : 0 <= n < 2 ^ 64 -> Forall (fun c => is_digit c = true) (dec n).
Proof. intros H. apply list.Forall_forall. intros c Hc. pose proof (dec_is_digits n H) as F. rewrite forallb_forall in F. by apply F, list_elem_of_In. Qed.

Lemma digit_clean l : Forall (fun c => is_digit c = true) l -> clean l.
Proof. intros F. eapply list.Forall_impl; [exact F|]. intros c D. split; intros ->; done. Qed.

Lemma length_ok body : len body < 2 ^ 64 -> Forall header_ok (length_header body) /\ content_length (length_header body) = Some (len body).
Proof.
  intros L. unfold length_header. destruct (is_empty body) eqn:E; [split; [constructor|by destruct body]|].
  assert (R : 0 <= len body < 2 ^ 64) by (unfold len in *; lia). split; [|by cbn -[dec]; rewrite read_dec_dec].
  constructor; [|constructor]. split; [done| |by repeat constructor]. split; [by repeat constructor|]. by apply digit_clean, dec_clean.
Qed.

Lemma headers_ok_all m : headers_ok m -> Forall header_ok m.
Proof. intros H. eapply list.Forall_impl; [exact H|]. by intros h [? _]. Qed.

Lemma content_length_skip m k : headers_ok m -> content_length (m ++ k) = content_length k.
Proof.
  induction m as [|[a v] m IH]; intros H; [done|]. apply list.Forall_cons in H as [[_ N] H].
  change (content_length (((a, v) :: m) ++ k)) with (if strcasecmp a (bstr "content-length") =? 0 then read_dec v else content_length (m ++ k)).
  rewrite (proj2 (Z.eqb_neq _ _)) by exact N. by apply IH.
Qed.

(** what a request or a response is sent as is one message of the format, whatever
    follows it: a reader finds its first line, exactly its headers, that of the connection
    and the length of the body among them, exactly its body, and leaves the rest; when no
    part holds the end of a line, no name a colon, and no header is a length of its own. *)
Theorem Http_framing (rest : list byte) :
  (forall r : HttpRequest, clean (start_of_request r) -> headers_ok (rq_headers r) -> len (rq_body r) < 2 ^ 64 ->
     read_message (dump_request r ++ rest) =
       Some (start_of_request r,
             connection_header (rq_websocket r) (rq_close r) ++ own_headers (rq_websocket r) (rq_headers r) ++ length_header (rq_body r),
             rq_body r, rest)) /\
  (forall r : HttpResponse, clean (start_of_response r) -> headers_ok (rs_headers r) -> Forall clean (rs_cookies r) -> len (rs_body r) < 2 ^ 64 ->
     read_message (dump_response r ++ rest) =
       Some (start_of_response r,
             own_headers (rs_websocket r) (rs_headers r) ++ map (fun c => (bstr "Set-Cookie", c)) (rs_cookies r) ++
             connection_header (rs_websocket r) (rs_close r) ++ length_header (rs_body r),
             rs_body r, rest)).
Proof.
  split.
  - intros r C H L. destruct (length_ok (rq_body r) L) as [Lo Lc]. rewrite dump_request_lines, <- !app_assoc. apply (read_written _ _ _ _ (len (rq_body r))); [done| | |done].
    + apply list.Forall_app. split; [apply headers_ok_all, connection_ok|]. apply list.Forall_app. split; [by apply headers_ok_all, own_ok|done].
    + by rewrite content_length_skip, content_length_skip by (apply connection_ok || by apply own_ok).
  - intros r C H K L. destruct (length_ok (rs_body r) L) as [Lo Lc]. rewrite dump_response_lines, <- !app_assoc.
    assert (Ck : headers_ok (map (fun c => (bstr "Set-Cookie", c)) (rs_cookies r))).
    { unfold headers_ok. rewrite Forall_map. eapply list.Forall_impl; [exact K|]. intros c Cc. split; [|done]. constructor; [done| |by repeat constructor]. split; [by repeat constructor|done]. }
    apply (read_written _ _ _ _ (len (rs_body r))); [done| | |done].
    + apply list.Forall_app. split; [by apply headers_ok_all, own_ok|]. apply list.Forall_app. split; [by apply headers_ok_all|]. apply list.Forall_app. split; [apply headers_ok_all, connection_ok|done].
    + by rewrite !content_length_skip by (apply connection_ok || (by apply own_ok) || done).
Qed.

(** a map of headers acts as a map whose names do not look at case: what was put is
    found under every spelling, what was erased under none, other names are untouched, and
    the map stays in order. *)
Theorem Header_map (m : MapType) (k v k' : list byte) : ordered m ->
  ordered (map_put k v m) /\ ordered (map_erase k m) /\
  (fold k' = fold k -> map_find k' (map_put k v m) = Some v /\ map_find k' (map_erase k m) = None) /\
  (fold k' <> fold k -> map_find k' (map_put k v m) = map_find k' m /\ map_find k' (map_erase k m) = map_find k' m).
Proof.
  intros O. split; [by apply map_put_ordered|]. split; [by apply map_erase_ordered|]. rewrite map_find_put, map_find_erase by done.
  split; intros E; by case_decide.
Qed.

(** Methods: every number has its name. *)
Definition methods : list Z := map Z.of_nat (seq 0 34).

Lemma method_names : forallb (fun m => StringToHttpMethod (HttpMethodToString m) =? m) methods = true.
Proof. vm_compute. reflexivity. Qed.

(** ** Runs *)

Definition demo_request : HttpRequest :=
  setBody (bstr "hello") (setHeader (bstr "HOST") (bstr "b") (setHeader (bstr "accept") (bstr "*") (setHeader (bstr "Host") (bstr "a") (new_HttpRequest 0x11 true)))).

(** A value with the end of a line in it sends a header that nobody has set. *)
Example header_injection :
  option_map (fun x => snd (fst (fst x))) (read_message (dump_request (setHeader (bstr "X") (bstr "a" ++ CRLF ++ bstr "Admin: yes") (new_HttpRequest 0x11 true)))) =
  Some [(bstr "connection", bstr "close"); (bstr "X", bstr "a"); (bstr "Admin", bstr "yes")].
Proof. vm_compute. reflexivity. Qed.

(** A request that was received with a length is sent on with two. *)
Example two_lengths :
  option_map (fun x => snd (fst (fst x))) (read_message (dump_request (setBody (bstr "ab") (setHeader (bstr "Content-Length") (bstr "1") (new_HttpRequest 0x11 true))))) =
  Some [(bstr "connection", bstr "close"); (bstr "Content-Length", bstr "1"); (bstr "content-length", bstr "2")].
Proof. vm_compute. reflexivity. Qed.

(** The method of the table is not the one of the protocol; and the name is looked for at
    the beginning of the buffer, whatever follows it. *)
Example msearch : HttpMethodToString 24 = bstr "M - SEARCH" /\ StringToHttpMethod (bstr "M-SEARCH") = INVALID_METHOD /\ CharsToHttpMethod (bstr "GETAWAY / HTTP/1.1") = METHOD_GET.
Proof. vm_compute. repeat split. Qed.

Lemma Http_framing_witness : read_message (dump_request demo_request ++ bstr "GET") =
  Some (bstr "GET / HTTP/1.1", [(bstr "connection", bstr "close"); (bstr "accept", bstr "*"); (bstr "Host", bstr "b"); (bstr "content-length", bstr "5")], bstr "hello", bstr "GET").
Proof.
  apply (proj1 (Http_framing (bstr "GET")) demo_request); [by repeat constructor| |done].
  repeat constructor; done.
Defined.

Lemma Header_map_witness : map_find (bstr "host") (map_put (bstr "HOST") (bstr "b") [(bstr "Host", bstr "a")]) = Some (bstr "b").
Proof. apply (Header_map [(bstr "Host", bstr "a")] (bstr "HOST") (bstr "b") (bstr "host")); [repeat constructor|reflexivity]. Defined.
