(* ===== verification/HttpStream.v ===== *)
(** HTTP over a stream: the callbacks of the parsers (src/http/http_parser.cpp), the
    session of a server (src/http/http_session.cpp) and the connection of a client
    (src/http/http_connection.cpp).

    What the sessions ask of the state machines are the classes [RequestMachine] and
    [ResponseMachine]: [execute] takes the buffer, and gives the next state, the number of
    bytes it has read and the callbacks it makes, in their order. A pointer that a callback
    gets is the buffer from there on. The machine of requests, [http11_parser.rl.cpp], is
    the instance [http11] of HttpParser.v; that of responses stays a parameter, and so does
    [boost::lexical_cast]. *)
From S2P Require Import Prelude Endian CppString Number ByteArray Codec Stream ZlibStream Http.

(** ** Callbacks *)

Inductive RequestEvent :=
  | on_method (at_ : list byte) (length : Z)
  | on_uri (at_ : list byte) (length : Z)
  | on_fragment (at_ : list byte) (length : Z)
  | on_path (at_ : list byte) (length : Z)
  | on_query (at_ : list byte) (length : Z)
  | on_version (at_ : list byte) (length : Z)
  | on_header_done
  | on_field (field : list byte) (flen : Z) (value : list byte) (vlen : Z).

Inductive ResponseEvent :=
  | on_reason (at_ : list byte) (length : Z)
  | on_status (at_ : list byte) (length : Z)
  | on_chunk (at_ : list byte) (length : Z)
  | on_rsp_version (at_ : list byte) (length : Z)
  | on_rsp_header_done
  | on_last_chunk
  | on_rsp_field (field : list byte) (flen : Z) (value : list byte) (vlen : Z).

Class RequestMachine := {
  http_parser : Type;
  http_parser_init : http_parser;
  http_parser_execute : http_parser -> list byte -> res (http_parser * Z * list RequestEvent);
  http_parser_finish : http_parser -> Z;
  http_parser_has_error : http_parser -> bool;
}.

(** [content_len], [chunked] and [chunks_done] are fields of the state. *)
Class ResponseMachine := {
  httpclient_parser : Type;
  httpclient_parser_init : httpclient_parser -> httpclient_parser;
  httpclient_parser_new : httpclient_parser;
  httpclient_parser_execute : httpclient_parser -> list byte -> httpclient_parser * Z * list ResponseEvent;
  httpclient_parser_finish : httpclient_parser -> Z;
  httpclient_parser_has_error : httpclient_parser -> bool;
  content_len : httpclient_parser -> Z;
  chunked : httpclient_parser -> bool;
  chunks_done : httpclient_parser -> bool;
}.

(** [boost::lexical_cast<uint64_t>], None where it throws. *)
Class LexicalCast := lexical_cast_u64 : list byte -> option Z.

(** [std::string(at, length)] *)
Definition text (at_ : list byte) (length : Z) : list byte := take (Z.to_nat length) at_.

(** [strncmp(at, s, length) == 0]: the first [length] characters agree, or all of them. *)
Definition strncmp_eq (at_ s : list byte) (length : Z) : bool :=
  bool_decide (take (Z.to_nat length) (c_str at_) = take (Z.to_nat length) (c_str s)).

(** [getHeaderAs<uint64_t>(key, 0)] *)
Definition get_u64 `{LexicalCast} (key : list byte) (m : MapType) : Z :=
  match map_find key m with Some v => default 0 (lexical_cast_u64 v) | None => 0 end.

(** ** [HttpRequestParser] *)

Section request_parser.
Context `{RequestMachine, LexicalCast}.

Record HttpRequestParser := mkRequestParser { rp_parser : http_parser; rp_data : HttpRequest; rp_error : Z }.

Definition new_HttpRequestParser : HttpRequestParser := mkRequestParser http_parser_init (new_HttpRequest 0x11 true) 0.

Definition set_data (r : HttpRequest) (p : HttpRequestParser) : HttpRequestParser := mkRequestParser (rp_parser p) r (rp_error p).
Definition setError (e : Z) (p : HttpRequestParser) : HttpRequestParser := mkRequestParser (rp_parser p) (rp_data p) e.

Definition on_request_method (at_ : list byte) (p : HttpRequestParser) : HttpRequestParser :=
  let m := CharsToHttpMethod at_ in
  if m =? INVALID_METHOD then setError 1000 p else set_data (setMethod m (rp_data p)) p.

Definition on_request_version (at_ : list byte) (length : Z) (p : HttpRequestParser) : HttpRequestParser :=
  if strncmp_eq at_ (bstr "HTTP/1.1") length then set_data (setVersion 0x11 (rp_data p)) p
  else if strncmp_eq at_ (bstr "HTTP/1.0") length then set_data (setVersion 0x10 (rp_data p)) p
  else setError 1001 p.

Definition on_request_http_field (field : list byte) (flen : Z) (value : list byte) (vlen : Z) (p : HttpRequestParser) : HttpRequestParser :=
  if flen =? 0 then p else set_data (setHeader (text field flen) (text value vlen) (rp_data p)) p.

Definition request_callback (e : RequestEvent) (p : HttpRequestParser) : HttpRequestParser :=
  match e with
  | on_method at_ _ => on_request_method at_ p
  | on_fragment at_ n => set_data (setFragment (text at_ n) (rp_data p)) p
  | on_path at_ n => set_data (setPath (text at_ n) (rp_data p)) p
  | on_query at_ n => set_data (setQuery (text at_ n) (rp_data p)) p
  | on_version at_ n => on_request_version at_ n p
  | on_field f fn v vn => on_request_http_field f fn v vn p
  | on_uri _ _ | on_header_done => p
  end.

(** [execute] on a buffer: the parser, what it has read, and the buffer without it. *)
Definition execute (data : list byte) (p : HttpRequestParser) : res (HttpRequestParser * Z * list byte) :=
  let! (m, n, es) := http_parser_execute (rp_parser p) data in
  let p := foldl (fun p e => request_callback e p) (mkRequestParser m (rp_data p) (rp_error p)) es in
  if (0 <=? n) && (n <=? len data) then Ok (p, n, drop (Z.to_nat n) data) else Crash out_of_bounds.

Definition isFinished (p : HttpRequestParser) : bool := negb (http_parser_finish (rp_parser p) =? 0).
Definition hasError (p : HttpRequestParser) : bool := negb (rp_error p =? 0) || http_parser_has_error (rp_parser p).
Definition getContentLength (p : HttpRequestParser) : Z := get_u64 (bstr "content-length") (rq_headers (rp_data p)).
End request_parser.

(** ** [HttpResponseParser] *)

Section response_parser.
Context `{ResponseMachine, LexicalCast}.

Record HttpResponseParser := mkResponseParser { sp_parser : httpclient_parser; sp_data : HttpResponse; sp_error : Z }.

Definition new_HttpResponseParser : HttpResponseParser := mkResponseParser (httpclient_parser_init httpclient_parser_new) (new_HttpResponse 0x11 true) 0.

Definition set_rsp (r : HttpResponse) (p : HttpResponseParser) : HttpResponseParser := mkResponseParser (sp_parser p) r (sp_error p).

Definition on_response_version (at_ : list byte) (length : Z) (p : HttpResponseParser) : HttpResponseParser :=
  if strncmp_eq at_ (bstr "HTTP/1.1") length then set_rsp (rsp_setVersion 0x11 (sp_data p)) p
  else if strncmp_eq at_ (bstr "HTTP/1.0") length then set_rsp (rsp_setVersion 0x10 (sp_data p)) p
  else mkResponseParser (sp_parser p) (sp_data p) 1001.

Definition on_response_http_field (field : list byte) (flen : Z) (value : list byte) (vlen : Z) (p : HttpResponseParser) : HttpResponseParser :=
  if flen =? 0 then p else set_rsp (rsp_setHeader (text field flen) (text value vlen) (sp_data p)) p.

Definition response_callback (e : ResponseEvent) (p : HttpResponseParser) : HttpResponseParser :=
  match e with
  | on_reason at_ n => set_rsp (setReason (text at_ n) (sp_data p)) p
  | on_status at_ _ => set_rsp (setStatus (atoi at_) (sp_data p)) p
  | on_rsp_version at_ n => on_response_version at_ n p
  | on_rsp_field f fn v vn => on_response_http_field f fn v vn p
  | on_chunk _ _ | on_rsp_header_done | on_last_chunk => p
  end.

(** [execute]: for a chunk the state machine starts anew. *)
Definition rsp_execute (data : list byte) (chunk : bool) (p : HttpResponseParser) : res (HttpResponseParser * list byte) :=
  let m := if chunk then httpclient_parser_init (sp_parser p) else sp_parser p in
  let '(m, n, es) := httpclient_parser_execute m data in
  let p := foldl (fun p e => response_callback e p) (mkResponseParser m (sp_data p) (sp_error p)) es in
  if (0 <=? n) && (n <=? len data) then Ok (p, drop (Z.to_nat n) data) else Crash out_of_bounds.

Definition rsp_isFinished (p : HttpResponseParser) : bool := negb (httpclient_parser_finish (sp_parser p) =? 0).
Definition rsp_hasError (p : HttpResponseParser) : bool := negb (sp_error p =? 0) || httpclient_parser_has_error (sp_parser p).
Definition rsp_getContentLength (p : HttpResponseParser) : Z := get_u64 (bstr "content-length") (rs_headers (sp_data p)).
End response_parser.

(** ** Receiving

    [buff_size] is that of the buffer; the bytes in it that have not been read by the
    parser are [data]. *)
Section receiving.
Context {S : Type} `{Stream S, RequestMachine, ResponseMachine, LexicalCast} (buff_size : Z).

Definition lift {A} (r : res A) : st S A := fun s => (r, s).

Definition close_null {A} : st S (option A) := let* _ := stream_close in sret None.

(** The loop of [HttpSession::recvRequest]; [fuel] bounds the reads, each of which takes
    a byte at least. *)
Fixpoint recv_head (fuel : nat) (p : HttpRequestParser) (data : list byte) : st S (option (HttpRequestParser * list byte)) :=
  match fuel with
  | O => scrash nontermination
  | Datatypes.S fuel =>
      let* (n, x) := stream_read (u64 (buff_size - len data)) in
      if n <=? 0 then close_null
      else
        let* (p, _, data) := lift (execute (data ++ x) p) in
        if hasError p then close_null
        else if len data =? s32 buff_size then close_null
        else if isFinished p then sret (Some (p, data))
        else recv_head fuel p data
  end.

(** The body of [length] bytes, of which [data] has been read ahead. *)
Definition recv_body (length : Z) (data : list byte) : st S (option (list byte)) :=
  if string_max_size <? length then sthrow length_error
  else if length <=? len data then sret (Some (take (Z.to_nat length) data))
  else
    let left := length - len data in
    let* (rt, x) := readFixSize left in
    if rt <=? 0 then close_null else sret (Some (data ++ x)).

(** [HttpSession::recvRequest] *)
Definition recvRequest (fuel : nat) : st S (option HttpRequest) :=
  let* head := recv_head fuel new_HttpRequestParser [] in
  match head with
  | None => sret None
  | Some (p, data) =>
      let length := s64 (getContentLength p) in
      if 0 <? length then
        let* body := recv_body length data in
        match body with
        | None => sret None
        | Some body => sret (Some (setBody body (rp_data p)))
        end
      else sret (Some (rp_data p))
  end.

(** [HttpSession::sendResponse] and [HttpConnection::sendRequest] *)
Definition sendResponse (rsp : HttpResponse) : st S Z := writeFixSize (dump_response rsp).
Definition sendRequest (req : HttpRequest) : st S Z := writeFixSize (dump_request req).

(** The first loop of [HttpConnection::recvResponse]. *)
Fixpoint recv_rsp_head (fuel : nat) (p : HttpResponseParser) (data : list byte) : st S (option (HttpResponseParser * list byte)) :=
  match fuel with
  | O => scrash nontermination
  | Datatypes.S fuel =>
      let* (n, x) := stream_read (u64 (buff_size - len data)) in
      if n <=? 0 then close_null
      else
        let* (p, data) := lift (rsp_execute (data ++ x) false p) in
        if rsp_hasError p then close_null
        else if len data =? s32 buff_size then close_null
        else if rsp_isFinished p then sret (Some (p, data))
        else recv_rsp_head fuel p data
  end.

(** The head of a chunk. *)
Fixpoint chunk_head (fuel : nat) (begin : bool) (p : HttpResponseParser) (data : list byte) : st S (option (HttpResponseParser * list byte)) :=
  match fuel with
  | O => scrash nontermination
  | Datatypes.S fuel =>
      let* more :=
        if negb begin || is_empty data then
          let* (n, x) := stream_read (u64 (buff_size - len data)) in
          if n <=? 0 then close_null else sret (Some (data ++ x))
        else sret (Some data) in
      match more with
      | None => sret None
      | Some data =>
          let* (p, data) := lift (rsp_execute data true p) in
          if rsp_hasError p then close_null
          else if len data =? s32 buff_size then close_null
          else if rsp_isFinished p then sret (Some (p, data))
          else chunk_head fuel false p data
      end
  end.

(** The bytes of a chunk that the buffer does not hold. *)
Fixpoint chunk_left (fuel : nat) (left : Z) (body : list byte) : st S (option (list byte)) :=
  if negb (0 <? left) then sret (Some body)
  else
    match fuel with
    | O => scrash nontermination
    | Datatypes.S fuel =>
        let* (n, x) := stream_read (if s32 buff_size <? left then s32 buff_size else left) in
        if n <=? 0 then close_null else chunk_left fuel (left - n) (body ++ x)
    end.

(** The data of a chunk of [n] bytes: the body with them, and the buffer after them. *)
Definition chunk_data (fuel : nat) (n : Z) (body data : list byte) : st S (option (list byte * list byte)) :=
  if 2 ^ 31 <=? n + 2 then scrash signed_overflow
  else if n + 2 <=? len data then
    if n <? 0 then sthrow length_error
    else sret (Some (body ++ take (Z.to_nat n) data, drop (Z.to_nat (n + 2)) data))
  else
    let* body := chunk_left fuel (n - len data + 2) (body ++ data) in
    match body with
    | None => sret None
    | Some body => if len body <? 2 then sthrow length_error else sret (Some (take (length body - 2) body, []))
    end.

Fixpoint recv_chunks (fuel : nat) (p : HttpResponseParser) (body data : list byte) : st S (option (HttpResponseParser * list byte)) :=
  match fuel with
  | O => scrash nontermination
  | Datatypes.S fuel =>
      let* head := chunk_head fuel true p data in
      match head with
      | None => sret None
      | Some (p, data) =>
          let* r := chunk_data fuel (content_len (sp_parser p)) body data in
          match r with
          | None => sret None
          | Some (body, data) =>
              if chunks_done (sp_parser p) then sret (Some (p, body)) else recv_chunks fuel p body data
          end
      end
  end.

Context {Zs : Type} `{Zlib Zs}.

(** A decompressing stream that is written, flushed and read out. *)
Definition inflate_body (fuel : nat) (create : res (option (ZlibStream Zs))) (body : list byte) : res (list byte) :=
  let! zs := create in
  match zs with
  | None => Crash null_deref
  | Some zs =>
      match ZlibStream_write fuel body zs with
      | (Ok _, zs) => match ZlibStream_flush fuel zs with (Ok _, zs) => Ok (getResult zs) | (Throw e, _) => Throw e | (Crash u, _) => Crash u end
      | (Throw e, _) => Throw e
      | (Crash u, _) => Crash u
      end
  end.

Definition decode_content (fuel : nat) (encoding body : list byte) : res (list byte) :=
  if strcasecmp encoding (bstr "gzip") =? 0 then inflate_body fuel (CreateGzip false 4096) body
  else if strcasecmp encoding (bstr "deflate") =? 0 then inflate_body fuel (CreateDeflate false 4096) body
  else Ok body.

(** [HttpConnection::recvResponse] *)
Definition recvResponse (fuel : nat) : st S (option HttpResponse) :=
  let* head := recv_rsp_head fuel new_HttpResponseParser [] in
  match head with
  | None => sret None
  | Some (p, data) =>
      let* r :=
        if chunked (sp_parser p) then recv_chunks fuel p [] data
        else
          let length := s64 (rsp_getContentLength p) in
          if 0 <? length then
            let* body := recv_body length data in
            sret (match body with Some body => Some (p, body) | None => None end)
          else sret (Some (p, [])) in
      match r with
      | None => sret None
      | Some (p, body) =>
          if is_empty body then sret (Some (sp_data p))
          else
            let* body := lift (decode_content fuel (rsp_getHeader (bstr "content-encoding") [] (sp_data p)) body) in
            sret (Some (rsp_setBody body (sp_data p)))
      end
  end.
End receiving.
