(* ===== verification/HttpParser.v ===== *)
(** The state machine that reads requests (src/http/http11_parser.rl.cpp, which is
    generated from src/http/http11_parser.rl).

    The [switch] of [http_parser_execute] is a table: for each of the states 1 to 349 the
    ranges of characters with the label they go to, [St n] for [st<n>] and [Tr n] for
    [tr<n>]; other characters go to [st0], the error. The labels [tr<n>] perform actions
    and go to a state. *)
From S2P Require Import Prelude CppString Number Codec Http HttpStream.

(** ** The table *)

Inductive edge := St (n : Z) | Tr (n : Z).

(** The request line, the headers and the empty line: the states 1 to 18. *)
Definition head_case (cs : Z) : list (Z * Z * edge) :=
  match cs with
  | 1 => [(48, 57, Tr 0); (60, 60, Tr 2); (64, 64, Tr 3); (65, 90, Tr 0)]
  | 2 => [(32, 32, Tr 4); (48, 57, St 175); (65, 90, St 175)]
    | 3 => [(32, 32, Tr 6); (33, 33, Tr 7); (35, 35, Tr 8); (36, 36, Tr 7); (37, 37, Tr 9); (38, 46, Tr 7); (47, 47, Tr 10); (48, 57, Tr 7); (59, 59,
      Tr 7); (61, 61, Tr 7); (63, 63, Tr 11); (64, 64, Tr 7); (65, 90, Tr 12); (95, 95, Tr 7); (97, 122, Tr 12); (126, 126, Tr 7); (606, 606, Tr 7);
      (635, 635, Tr 7); (637, 637, Tr 7)]
  | 4 => [(72, 72, Tr 13)]
  | 5 => [(84, 84, St 6)]
  | 6 => [(84, 84, St 7)]
  | 7 => [(80, 80, St 8)]
  | 8 => [(47, 47, St 9)]
  | 9 => [(49, 49, St 10)]
  | 10 => [(46, 46, St 11)]
  | 11 => [(48, 49, St 12)]
  | 12 => [(10, 10, Tr 21); (13, 13, Tr 22)]
    | 13 => [(1, 8, Tr 23); (10, 10, Tr 24); (11, 12, Tr 23); (13, 13, Tr 25); (14, 31, Tr 23); (33, 33, Tr 23); (35, 39, Tr 23); (42, 43, Tr 23);
      (45, 46, Tr 23); (48, 57, Tr 23); (65, 90, Tr 23); (94, 122, Tr 23); (124, 124, Tr 23); (126, 126, Tr 23)]
    | 14 => [(1, 8, St 14); (10, 31, St 14); (33, 33, St 14); (35, 39, St 14); (42, 43, St 14); (45, 46, St 14); (48, 57, St 14); (58, 58, Tr 27);
      (65, 90, St 14); (94, 122, St 14); (124, 124, St 14); (126, 126, St 14)]
    | 15 => [((-128), (-1), Tr 28); (1, 8, Tr 28); (9, 9, Tr 29); (10, 10, Tr 30); (11, 12, Tr 28); (13, 13, Tr 31); (14, 31, Tr 28); (32, 32, Tr 29);
      (33, 126, Tr 28)]
  | 16 => [((-128), (-1), St 16); (1, 9, St 16); (10, 10, Tr 33); (11, 12, St 16); (13, 13, Tr 34); (14, 126, St 16)]
  | 17 => [(10, 10, St 13)]
    | 18 => [(1, 8, St 14); (10, 10, Tr 36); (11, 31, St 14); (33, 33, St 14); (35, 39, St 14); (42, 43, St 14); (45, 46, St 14); (48, 57, St 14);
      (58, 58, Tr 27); (65, 90, St 14); (94, 122, St 14); (124, 124, St 14); (126, 126, St 14)]
  | _ => []
  end.

(** Paths, queries and fragments: 19 to 33. *)
Definition target_case (cs : Z) : list (Z * Z * edge) :=
  match cs with
    | 19 => [(32, 32, Tr 37); (33, 33, St 19); (35, 35, Tr 39); (36, 36, St 19); (37, 37, St 24); (38, 46, St 19); (47, 47, St 26); (48, 57, St 19);
      (59, 59, St 19); (61, 61, St 19); (63, 63, Tr 42); (64, 90, St 19); (95, 95, St 19); (97, 122, St 19); (126, 126, St 19); (606, 606, St 19);
      (635, 635, St 19); (637, 637, St 19)]
    | 20 => [((-128), (-1), Tr 43); (32, 32, Tr 44); (33, 33, Tr 43); (36, 36, Tr 43); (37, 37, Tr 45); (38, 59, Tr 43); (61, 61, Tr 43); (63, 90, Tr
      43); (95, 95, Tr 43); (97, 122, Tr 43); (126, 126, Tr 43); (606, 606, Tr 43); (635, 635, Tr 43); (637, 637, Tr 43)]
    | 21 => [((-128), (-1), St 21); (32, 32, Tr 47); (33, 33, St 21); (36, 36, St 21); (37, 37, St 22); (38, 59, St 21); (61, 61, St 21); (63, 90, St
      21); (95, 95, St 21); (97, 122, St 21); (126, 126, St 21); (606, 606, St 21); (635, 635, St 21); (637, 637, St 21)]
  | 22 => [(48, 57, St 23); (65, 70, St 23); (97, 102, St 23)]
  | 23 => [(48, 57, St 21); (65, 70, St 21); (97, 102, St 21)]
  | 24 => [(48, 57, St 25); (65, 70, St 25); (97, 102, St 25)]
  | 25 => [(48, 57, St 19); (65, 70, St 19); (97, 102, St 19)]
    | 26 => [((-128), (-1), St 26); (32, 32, Tr 37); (33, 33, St 26); (35, 35, Tr 39); (36, 36, St 26); (37, 37, St 27); (38, 59, St 26); (61, 61, St
      26); (63, 63, Tr 42); (64, 90, St 26); (95, 95, St 26); (97, 122, St 26); (126, 126, St 26); (606, 606, St 26); (635, 635, St 26); (637, 637, St
      26)]
  | 27 => [(48, 57, St 28); (65, 70, St 28); (97, 102, St 28)]
  | 28 => [(48, 57, St 26); (65, 70, St 26); (97, 102, St 26)]
    | 29 => [((-128), (-1), Tr 53); (32, 32, Tr 54); (33, 33, Tr 53); (35, 35, Tr 55); (36, 36, Tr 53); (37, 37, Tr 56); (38, 59, Tr 53); (61, 61, Tr
      53); (63, 90, Tr 53); (95, 95, Tr 53); (97, 122, Tr 53); (126, 126, Tr 53); (606, 606, Tr 53); (635, 635, Tr 53); (637, 637, Tr 53)]
    | 30 => [((-128), (-1), St 30); (32, 32, Tr 58); (33, 33, St 30); (35, 35, Tr 59); (36, 36, St 30); (37, 37, St 31); (38, 59, St 30); (61, 61, St
      30); (63, 90, St 30); (95, 95, St 30); (97, 122, St 30); (126, 126, St 30); (606, 606, St 30); (635, 635, St 30); (637, 637, St 30)]
  | 31 => [(48, 57, St 32); (65, 70, St 32); (97, 102, St 32)]
  | 32 => [(48, 57, St 30); (65, 70, St 30); (97, 102, St 30)]
    | 33 => [((-128), (-1), St 26); (32, 32, Tr 37); (33, 33, St 26); (35, 35, Tr 39); (36, 36, St 26); (37, 37, St 27); (38, 46, St 26); (47, 47, St
      34); (48, 59, St 26); (61, 61, St 26); (63, 63, Tr 42); (64, 90, St 26); (95, 95, St 26); (97, 122, St 26); (126, 126, St 26); (606, 606, St
      26); (635, 635, St 26); (637, 637, St 26)]
  | _ => []
  end.

(** An authority after two slashes, with the addresses of IPv6: 34 to 172. *)
Definition authority_case (cs : Z) : list (Z * Z * edge) :=
  match cs with
    | 34 => [(32, 32, Tr 37); (33, 33, St 35); (35, 35, Tr 39); (36, 36, St 35); (37, 37, St 36); (38, 46, St 35); (47, 47, St 26); (48, 57, St 35);
      (58, 58, St 38); (59, 59, St 35); (61, 61, St 35); (63, 63, Tr 42); (64, 64, St 42); (65, 90, St 35); (91, 91, St 47); (95, 95, St 35); (97,
      122, St 35); (126, 126, St 35); (606, 606, St 35); (635, 635, St 35); (637, 637, St 35)]
    | 35 => [(32, 32, Tr 37); (33, 33, St 35); (35, 35, Tr 39); (36, 36, St 35); (37, 37, St 36); (38, 46, St 35); (47, 47, St 26); (48, 57, St 35);
      (58, 58, St 38); (59, 59, St 35); (61, 61, St 35); (63, 63, Tr 42); (64, 64, St 42); (65, 90, St 35); (95, 95, St 35); (97, 122, St 35); (126,
      126, St 35); (606, 606, St 35); (635, 635, St 35); (637, 637, St 35)]
  | 36 => [(48, 57, St 37); (65, 70, St 37); (97, 102, St 37)]
  | 37 => [(48, 57, St 35); (65, 70, St 35); (97, 102, St 35)]
    | 38 => [(32, 32, Tr 37); (33, 33, St 39); (35, 35, Tr 39); (36, 36, St 39); (37, 37, St 40); (38, 46, St 39); (47, 47, St 26); (48, 57, St 38);
      (58, 59, St 39); (61, 61, St 39); (63, 63, Tr 42); (64, 64, St 42); (65, 90, St 39); (95, 95, St 39); (97, 122, St 39); (126, 126, St 39); (606,
      606, St 39); (635, 635, St 39); (637, 637, St 39)]
    | 39 => [(33, 33, St 39); (36, 36, St 39); (37, 37, St 40); (38, 46, St 39); (48, 59, St 39); (61, 61, St 39); (64, 64, St 42); (65, 90, St 39);
      (95, 95, St 39); (97, 122, St 39); (126, 126, St 39); (606, 606, St 39); (635, 635, St 39); (637, 637, St 39)]
  | 40 => [(48, 57, St 41); (65, 70, St 41); (97, 102, St 41)]
  | 41 => [(48, 57, St 39); (65, 70, St 39); (97, 102, St 39)]
    | 42 => [(32, 32, Tr 37); (33, 33, St 43); (35, 35, Tr 39); (36, 36, St 43); (37, 37, St 44); (38, 46, St 43); (47, 47, St 26); (48, 57, St 43);
      (58, 58, St 46); (59, 59, St 43); (61, 61, St 43); (63, 63, Tr 42); (65, 90, St 43); (91, 91, St 47); (95, 95, St 43); (97, 122, St 43); (126,
      126, St 43); (606, 606, St 43); (635, 635, St 43); (637, 637, St 43)]
    | 43 => [(32, 32, Tr 37); (33, 33, St 43); (35, 35, Tr 39); (36, 36, St 43); (37, 37, St 44); (38, 46, St 43); (47, 47, St 26); (48, 57, St 43);
      (58, 58, St 46); (59, 59, St 43); (61, 61, St 43); (63, 63, Tr 42); (65, 90, St 43); (95, 95, St 43); (97, 122, St 43); (126, 126, St 43); (606,
      606, St 43); (635, 635, St 43); (637, 637, St 43)]
  | 44 => [(48, 57, St 45); (65, 70, St 45); (97, 102, St 45)]
  | 45 => [(48, 57, St 43); (65, 70, St 43); (97, 102, St 43)]
  | 46 => [(32, 32, Tr 37); (35, 35, Tr 39); (47, 47, St 26); (48, 57, St 46); (63, 63, Tr 42)]
  | 47 => [(6, 6, St 48); (48, 57, St 91); (58, 58, St 167); (65, 70, St 91); (97, 102, St 91); (118, 118, St 169)]
  | 48 => [(48, 57, St 49); (65, 70, St 49); (97, 102, St 49)]
  | 49 => [(48, 57, St 50); (58, 58, St 53); (65, 70, St 50); (97, 102, St 50)]
  | 50 => [(48, 57, St 51); (58, 58, St 53); (65, 70, St 51); (97, 102, St 51)]
  | 51 => [(48, 57, St 52); (58, 58, St 53); (65, 70, St 52); (97, 102, St 52)]
  | 52 => [(58, 58, St 53)]
  | 53 => [(48, 48, St 54); (49, 49, St 84); (50, 50, St 87); (51, 57, St 54); (65, 70, St 90); (97, 102, St 90)]
  | 54 => [(46, 46, St 55); (48, 57, St 77); (58, 58, St 80); (65, 70, St 77); (97, 102, St 77)]
  | 55 => [(48, 48, St 56); (49, 49, St 72); (50, 50, St 74); (51, 57, St 56)]
  | 56 => [(46, 46, St 57)]
  | 57 => [(48, 48, St 58); (49, 49, St 67); (50, 50, St 69); (51, 57, St 58)]
  | 58 => [(46, 46, St 59)]
  | 59 => [(48, 48, St 60); (49, 49, St 62); (50, 50, St 64); (51, 57, St 60)]
  | 60 => [(93, 93, St 61)]
  | 61 => [(32, 32, Tr 37); (35, 35, Tr 39); (47, 47, St 26); (58, 58, St 46); (63, 63, Tr 42)]
  | 62 => [(48, 57, St 63); (93, 93, St 61)]
  | 63 => [(48, 57, St 60); (93, 93, St 61)]
  | 64 => [(48, 48, St 65); (53, 53, St 66); (93, 93, St 61)]
  | 65 => [(48, 57, St 60)]
  | 66 => [(48, 48, St 60)]
  | 67 => [(46, 46, St 59); (48, 57, St 68)]
  | 68 => [(46, 46, St 59); (48, 57, St 58)]
  | 69 => [(46, 46, St 59); (48, 48, St 70); (53, 53, St 71)]
  | 70 => [(48, 57, St 58)]
  | 71 => [(48, 48, St 58)]
  | 72 => [(46, 46, St 57); (48, 57, St 73)]
  | 73 => [(46, 46, St 57); (48, 57, St 56)]
  | 74 => [(46, 46, St 57); (48, 48, St 75); (53, 53, St 76)]
  | 75 => [(48, 57, St 56)]
  | 76 => [(48, 48, St 56)]
  | 77 => [(48, 57, St 78); (58, 58, St 80); (65, 70, St 78); (97, 102, St 78)]
  | 78 => [(48, 57, St 79); (58, 58, St 80); (65, 70, St 79); (97, 102, St 79)]
  | 79 => [(58, 58, St 80)]
  | 80 => [(48, 57, St 81); (65, 70, St 81); (97, 102, St 81)]
  | 81 => [(48, 57, St 82); (65, 70, St 82); (93, 93, St 61); (97, 102, St 82)]
  | 82 => [(48, 57, St 83); (65, 70, St 83); (93, 93, St 61); (97, 102, St 83)]
  | 83 => [(48, 57, St 60); (65, 70, St 60); (93, 93, St 61); (97, 102, St 60)]
  | 84 => [(46, 46, St 55); (48, 57, St 85); (58, 58, St 80); (65, 70, St 77); (97, 102, St 77)]
  | 85 => [(46, 46, St 55); (48, 57, St 86); (58, 58, St 80); (65, 70, St 78); (97, 102, St 78)]
  | 86 => [(46, 46, St 55); (48, 57, St 79); (58, 58, St 80); (65, 70, St 79); (97, 102, St 79)]
  | 87 => [(46, 46, St 55); (48, 48, St 88); (49, 52, St 77); (53, 53, St 89); (54, 57, St 77); (58, 58, St 80); (65, 70, St 77); (97, 102, St 77)]
  | 88 => [(48, 57, St 86); (58, 58, St 80); (65, 70, St 78); (97, 102, St 78)]
  | 89 => [(48, 48, St 86); (49, 57, St 78); (58, 58, St 80); (65, 70, St 78); (97, 102, St 78)]
  | 90 => [(48, 57, St 77); (58, 58, St 80); (65, 70, St 77); (97, 102, St 77)]
  | 91 => [(48, 57, St 92); (58, 58, St 95); (65, 70, St 92); (97, 102, St 92)]
  | 92 => [(48, 57, St 93); (58, 58, St 95); (65, 70, St 93); (97, 102, St 93)]
  | 93 => [(48, 57, St 94); (58, 58, St 95); (65, 70, St 94); (97, 102, St 94)]
  | 94 => [(58, 58, St 95)]
  | 95 => [(48, 57, St 96); (58, 58, St 166); (65, 70, St 96); (97, 102, St 96)]
  | 96 => [(48, 57, St 97); (58, 58, St 100); (65, 70, St 97); (97, 102, St 97)]
  | 97 => [(48, 57, St 98); (58, 58, St 100); (65, 70, St 98); (97, 102, St 98)]
  | 98 => [(48, 57, St 99); (58, 58, St 100); (65, 70, St 99); (97, 102, St 99)]
  | 99 => [(58, 58, St 100)]
  | 100 => [(48, 57, St 101); (58, 58, St 165); (65, 70, St 101); (97, 102, St 101)]
  | 101 => [(48, 57, St 102); (58, 58, St 105); (65, 70, St 102); (97, 102, St 102)]
  | 102 => [(48, 57, St 103); (58, 58, St 105); (65, 70, St 103); (97, 102, St 103)]
  | 103 => [(48, 57, St 104); (58, 58, St 105); (65, 70, St 104); (97, 102, St 104)]
  | 104 => [(58, 58, St 105)]
  | 105 => [(48, 57, St 106); (58, 58, St 164); (65, 70, St 106); (97, 102, St 106)]
  | 106 => [(48, 57, St 107); (58, 58, St 110); (65, 70, St 107); (97, 102, St 107)]
  | 107 => [(48, 57, St 108); (58, 58, St 110); (65, 70, St 108); (97, 102, St 108)]
  | 108 => [(48, 57, St 109); (58, 58, St 110); (65, 70, St 109); (97, 102, St 109)]
  | 109 => [(58, 58, St 110)]
  | 110 => [(48, 57, St 111); (58, 58, St 163); (65, 70, St 111); (97, 102, St 111)]
  | 111 => [(48, 57, St 112); (58, 58, St 115); (65, 70, St 112); (97, 102, St 112)]
  | 112 => [(48, 57, St 113); (58, 58, St 115); (65, 70, St 113); (97, 102, St 113)]
  | 113 => [(48, 57, St 114); (58, 58, St 115); (65, 70, St 114); (97, 102, St 114)]
  | 114 => [(58, 58, St 115)]
  | 115 => [(48, 57, St 116); (58, 58, St 151); (65, 70, St 116); (97, 102, St 116)]
  | 116 => [(48, 57, St 117); (58, 58, St 120); (65, 70, St 117); (97, 102, St 117)]
  | 117 => [(48, 57, St 118); (58, 58, St 120); (65, 70, St 118); (97, 102, St 118)]
  | 118 => [(48, 57, St 119); (58, 58, St 120); (65, 70, St 119); (97, 102, St 119)]
  | 119 => [(58, 58, St 120)]
  | 120 => [(48, 57, St 121); (58, 58, St 150); (65, 70, St 121); (97, 102, St 121)]
  | 121 => [(48, 57, St 122); (58, 58, St 125); (65, 70, St 122); (97, 102, St 122)]
  | 122 => [(48, 57, St 123); (58, 58, St 125); (65, 70, St 123); (97, 102, St 123)]
  | 123 => [(48, 57, St 124); (58, 58, St 125); (65, 70, St 124); (97, 102, St 124)]
  | 124 => [(58, 58, St 125)]
  | 125 => [(48, 57, St 121); (58, 58, St 126); (65, 70, St 121); (97, 102, St 121)]
    | 126 => [(2, 3, St 48); (48, 48, St 127); (49, 49, St 143); (50, 50, St 146); (51, 57, St 127); (65, 70, St 149); (93, 93, St 61); (97, 102, St
      149)]
  | 127 => [(46, 46, St 55); (48, 57, St 128); (58, 58, St 131); (65, 70, St 128); (93, 93, St 61); (97, 102, St 128)]
  | 128 => [(48, 57, St 129); (58, 58, St 131); (65, 70, St 129); (93, 93, St 61); (97, 102, St 129)]
  | 129 => [(48, 57, St 130); (58, 58, St 131); (65, 70, St 130); (93, 93, St 61); (97, 102, St 130)]
  | 130 => [(58, 58, St 131); (93, 93, St 61)]
  | 131 => [(48, 48, St 132); (49, 49, St 136); (50, 50, St 139); (51, 57, St 132); (65, 70, St 142); (97, 102, St 142)]
  | 132 => [(46, 46, St 55); (48, 57, St 133); (58, 58, St 80); (65, 70, St 133); (93, 93, St 61); (97, 102, St 133)]
  | 133 => [(48, 57, St 134); (58, 58, St 80); (65, 70, St 134); (93, 93, St 61); (97, 102, St 134)]
  | 134 => [(48, 57, St 135); (58, 58, St 80); (65, 70, St 135); (93, 93, St 61); (97, 102, St 135)]
  | 135 => [(58, 58, St 80); (93, 93, St 61)]
  | 136 => [(46, 46, St 55); (48, 57, St 137); (58, 58, St 80); (65, 70, St 133); (93, 93, St 61); (97, 102, St 133)]
  | 137 => [(46, 46, St 55); (48, 57, St 138); (58, 58, St 80); (65, 70, St 134); (93, 93, St 61); (97, 102, St 134)]
  | 138 => [(46, 46, St 55); (48, 57, St 135); (58, 58, St 80); (65, 70, St 135); (93, 93, St 61); (97, 102, St 135)]
    | 139 => [(46, 46, St 55); (48, 48, St 140); (49, 52, St 133); (53, 53, St 141); (54, 57, St 133); (58, 58, St 80); (65, 70, St 133); (93, 93, St
      61); (97, 102, St 133)]
  | 140 => [(48, 57, St 138); (58, 58, St 80); (65, 70, St 134); (93, 93, St 61); (97, 102, St 134)]
  | 141 => [(48, 48, St 138); (49, 57, St 134); (58, 58, St 80); (65, 70, St 134); (93, 93, St 61); (97, 102, St 134)]
  | 142 => [(48, 57, St 133); (58, 58, St 80); (65, 70, St 133); (93, 93, St 61); (97, 102, St 133)]
  | 143 => [(46, 46, St 55); (48, 57, St 144); (58, 58, St 131); (65, 70, St 128); (93, 93, St 61); (97, 102, St 128)]
  | 144 => [(46, 46, St 55); (48, 57, St 145); (58, 58, St 131); (65, 70, St 129); (93, 93, St 61); (97, 102, St 129)]
  | 145 => [(46, 46, St 55); (48, 57, St 130); (58, 58, St 131); (65, 70, St 130); (93, 93, St 61); (97, 102, St 130)]
    | 146 => [(46, 46, St 55); (48, 48, St 147); (49, 52, St 128); (53, 53, St 148); (54, 57, St 128); (58, 58, St 131); (65, 70, St 128); (93, 93, St
      61); (97, 102, St 128)]
  | 147 => [(48, 57, St 145); (58, 58, St 131); (65, 70, St 129); (93, 93, St 61); (97, 102, St 129)]
  | 148 => [(48, 48, St 145); (49, 57, St 129); (58, 58, St 131); (65, 70, St 129); (93, 93, St 61); (97, 102, St 129)]
  | 149 => [(48, 57, St 128); (58, 58, St 131); (65, 70, St 128); (93, 93, St 61); (97, 102, St 128)]
  | 150 => [(2, 3, St 48); (48, 48, St 127); (49, 49, St 143); (50, 50, St 146); (51, 57, St 127); (65, 70, St 149); (97, 102, St 149)]
  | 151 => [(2, 3, St 48); (48, 48, St 152); (49, 49, St 156); (50, 50, St 159); (51, 57, St 152); (65, 70, St 162); (97, 102, St 162)]
  | 152 => [(46, 46, St 55); (48, 57, St 153); (58, 58, St 131); (65, 70, St 153); (97, 102, St 153)]
  | 153 => [(48, 57, St 154); (58, 58, St 131); (65, 70, St 154); (97, 102, St 154)]
  | 154 => [(48, 57, St 155); (58, 58, St 131); (65, 70, St 155); (97, 102, St 155)]
  | 155 => [(58, 58, St 131)]
  | 156 => [(46, 46, St 55); (48, 57, St 157); (58, 58, St 131); (65, 70, St 153); (97, 102, St 153)]
  | 157 => [(46, 46, St 55); (48, 57, St 158); (58, 58, St 131); (65, 70, St 154); (97, 102, St 154)]
  | 158 => [(46, 46, St 55); (48, 57, St 155); (58, 58, St 131); (65, 70, St 155); (97, 102, St 155)]
    | 159 => [(46, 46, St 55); (48, 48, St 160); (49, 52, St 153); (53, 53, St 161); (54, 57, St 153); (58, 58, St 131); (65, 70, St 153); (97, 102,
      St 153)]
  | 160 => [(48, 57, St 158); (58, 58, St 131); (65, 70, St 154); (97, 102, St 154)]
  | 161 => [(48, 48, St 158); (49, 57, St 154); (58, 58, St 131); (65, 70, St 154); (97, 102, St 154)]
  | 162 => [(48, 57, St 153); (58, 58, St 131); (65, 70, St 153); (97, 102, St 153)]
  | 163 => [(2, 3, St 48); (48, 57, St 49); (65, 70, St 49); (97, 102, St 49)]
  | 164 => [(2, 3, St 48)]
  | 165 => [(3, 3, St 48)]
  | 166 => [(4, 4, St 48)]
  | 167 => [(58, 58, St 168)]
    | 168 => [(2, 5, St 48); (48, 48, St 127); (49, 49, St 143); (50, 50, St 146); (51, 57, St 127); (65, 70, St 149); (93, 93, St 61); (97, 102, St
      149)]
  | 169 => [(48, 57, St 170); (65, 70, St 170); (97, 102, St 170)]
  | 170 => [(46, 46, St 171); (48, 57, St 170); (65, 70, St 170); (97, 102, St 170)]
    | 171 => [(33, 33, St 172); (36, 36, St 172); (38, 46, St 172); (48, 59, St 172); (61, 61, St 172); (65, 90, St 172); (95, 95, St 172); (97, 122,
      St 172); (126, 126, St 172); (606, 606, St 172); (635, 635, St 172); (637, 637, St 172)]
    | 172 => [(33, 33, St 172); (36, 36, St 172); (38, 46, St 172); (48, 59, St 172); (61, 61, St 172); (65, 90, St 172); (93, 93, St 61); (95, 95, St
      172); (97, 122, St 172); (126, 126, St 172); (606, 606, St 172); (635, 635, St 172); (637, 637, St 172)]
  | _ => []
  end.

(** What may be a scheme, and what follows one: 173 and 174. *)
Definition scheme_case (cs : Z) : list (Z * Z * edge) :=
  match cs with
    | 173 => [(32, 32, Tr 37); (33, 33, St 19); (35, 35, Tr 39); (36, 36, St 19); (37, 37, St 24); (38, 42, St 19); (43, 43, St 173); (44, 44, St 19);
      (45, 46, St 173); (47, 47, St 26); (48, 57, St 173); (58, 58, St 174); (59, 59, St 19); (61, 61, St 19); (63, 63, Tr 42); (64, 64, St 19); (65,
      90, St 173); (95, 95, St 19); (97, 122, St 173); (126, 126, St 19); (606, 606, St 19); (635, 635, St 19); (637, 637, St 19)]
    | 174 => [((-128), (-1), Tr 203); (32, 32, Tr 6); (33, 33, Tr 203); (35, 35, Tr 8); (36, 36, Tr 203); (37, 37, Tr 204); (38, 46, Tr 203); (47, 47,
      Tr 10); (48, 59, Tr 203); (61, 61, Tr 203); (63, 63, Tr 11); (64, 90, Tr 203); (95, 95, Tr 203); (97, 122, Tr 203); (126, 126, Tr 203); (606,
      606, Tr 203); (635, 635, Tr 203); (637, 637, Tr 203)]
  | _ => []
  end.

(** The characters of a method after the first two: 175 to 193. *)
Definition method_case (cs : Z) : list (Z * Z * edge) :=
  match cs with
  | 175 => [(32, 32, Tr 4); (48, 57, St 176); (65, 90, St 176)]
  | 176 => [(32, 32, Tr 4); (48, 57, St 177); (65, 90, St 177)]
  | 177 => [(32, 32, Tr 4); (48, 57, St 178); (65, 90, St 178)]
  | 178 => [(32, 32, Tr 4); (48, 57, St 179); (65, 90, St 179)]
  | 179 => [(32, 32, Tr 4); (48, 57, St 180); (65, 90, St 180)]
  | 180 => [(32, 32, Tr 4); (48, 57, St 181); (65, 90, St 181)]
  | 181 => [(32, 32, Tr 4); (48, 57, St 182); (65, 90, St 182)]
  | 182 => [(32, 32, Tr 4); (48, 57, St 183); (65, 90, St 183)]
  | 183 => [(32, 32, Tr 4); (48, 57, St 184); (65, 90, St 184)]
  | 184 => [(32, 32, Tr 4); (48, 57, St 185); (65, 90, St 185)]
  | 185 => [(32, 32, Tr 4); (48, 57, St 186); (65, 90, St 186)]
  | 186 => [(32, 32, Tr 4); (48, 57, St 187); (65, 90, St 187)]
  | 187 => [(32, 32, Tr 4); (48, 57, St 188); (65, 90, St 188)]
  | 188 => [(32, 32, Tr 4); (48, 57, St 189); (65, 90, St 189)]
  | 189 => [(32, 32, Tr 4); (48, 57, St 190); (65, 90, St 190)]
  | 190 => [(32, 32, Tr 4); (48, 57, St 191); (65, 90, St 191)]
  | 191 => [(32, 32, Tr 4); (48, 57, St 192); (65, 90, St 192)]
  | 192 => [(32, 32, Tr 4); (48, 57, St 193); (65, 90, St 193)]
  | 193 => [(32, 32, Tr 4)]
  | _ => []
  end.

(** A socket request in XML: 194 to 197. *)
Definition xml_case (cs : Z) : list (Z * Z * edge) :=
  match cs with
  | 194 => [(45, 46, St 195); (48, 57, St 195); (65, 90, St 195); (97, 122, St 195)]
    | 195 => [(9, 13, Tr 224); (32, 32, Tr 224); (45, 46, St 195); (47, 47, Tr 224); (48, 57, St 195); (62, 62, Tr 224); (65, 90, St 195); (97, 122,
      St 195)]
  | 196 => [((-128), 61, St 196); (62, 62, St 197); (63, 127, St 196)]
  | 197 => [((-128), (-1), St 196); (0, 0, Tr 227); (1, 61, St 196); (62, 62, St 197); (63, 127, St 196)]
  | _ => []
  end.

(** A socket request in JSON, with its path: 198 to 347. *)
Definition json_case (cs : Z) : list (Z * Z * edge) :=
  match cs with
    | 198 => [(32, 32, Tr 228); (33, 33, St 202); (36, 36, St 202); (37, 37, St 203); (38, 46, St 202); (47, 47, St 208); (48, 57, St 202); (59, 59,
      St 202); (61, 61, St 202); (64, 90, St 202); (95, 95, St 202); (97, 122, St 202); (126, 126, St 202); (606, 606, St 202); (635, 635, St 202);
      (637, 637, St 202)]
  | 199 => [(123, 123, Tr 232)]
  | 200 => [((-128), 124, St 200); (125, 125, St 201); (126, 127, St 200)]
  | 201 => [((-128), (-1), St 200); (0, 0, Tr 235); (1, 124, St 200); (125, 125, St 201); (126, 127, St 200)]
    | 202 => [(32, 32, Tr 228); (33, 33, St 202); (36, 36, St 202); (37, 37, St 203); (38, 46, St 202); (47, 47, St 205); (48, 57, St 202); (59, 59,
      St 202); (61, 61, St 202); (64, 90, St 202); (95, 95, St 202); (97, 122, St 202); (126, 126, St 202); (606, 606, St 202); (635, 635, St 202);
      (637, 637, St 202)]
  | 203 => [(48, 57, St 204); (65, 70, St 204); (97, 102, St 204)]
  | 204 => [(48, 57, St 202); (65, 70, St 202); (97, 102, St 202)]
    | 205 => [((-128), (-1), St 205); (32, 32, Tr 228); (33, 33, St 205); (36, 36, St 205); (37, 37, St 206); (38, 59, St 205); (61, 61, St 205); (64,
      90, St 205); (95, 95, St 205); (97, 122, St 205); (126, 126, St 205); (606, 606, St 205); (635, 635, St 205); (637, 637, St 205)]
  | 206 => [(48, 57, St 207); (65, 70, St 207); (97, 102, St 207)]
  | 207 => [(48, 57, St 205); (65, 70, St 205); (97, 102, St 205)]
    | 208 => [((-128), (-1), St 205); (32, 32, Tr 228); (33, 33, St 205); (36, 36, St 205); (37, 37, St 206); (38, 46, St 205); (47, 47, St 209); (48,
      59, St 205); (61, 61, St 205); (64, 90, St 205); (95, 95, St 205); (97, 122, St 205); (126, 126, St 205); (606, 606, St 205); (635, 635, St
      205); (637, 637, St 205)]
    | 209 => [(32, 32, Tr 228); (33, 33, St 210); (36, 36, St 210); (37, 37, St 211); (38, 46, St 210); (47, 47, St 205); (48, 57, St 210); (58, 58,
      St 213); (59, 59, St 210); (61, 61, St 210); (64, 64, St 217); (65, 90, St 210); (91, 91, St 222); (95, 95, St 210); (97, 122, St 210); (126,
      126, St 210); (606, 606, St 210); (635, 635, St 210); (637, 637, St 210)]
    | 210 => [(32, 32, Tr 228); (33, 33, St 210); (36, 36, St 210); (37, 37, St 211); (38, 46, St 210); (47, 47, St 205); (48, 57, St 210); (58, 58,
      St 213); (59, 59, St 210); (61, 61, St 210); (64, 64, St 217); (65, 90, St 210); (95, 95, St 210); (97, 122, St 210); (126, 126, St 210); (606,
      606, St 210); (635, 635, St 210); (637, 637, St 210)]
  | 211 => [(48, 57, St 212); (65, 70, St 212); (97, 102, St 212)]
  | 212 => [(48, 57, St 210); (65, 70, St 210); (97, 102, St 210)]
    | 213 => [(32, 32, Tr 228); (33, 33, St 214); (36, 36, St 214); (37, 37, St 215); (38, 46, St 214); (47, 47, St 205); (48, 57, St 213); (58, 59,
      St 214); (61, 61, St 214); (64, 64, St 217); (65, 90, St 214); (95, 95, St 214); (97, 122, St 214); (126, 126, St 214); (606, 606, St 214);
      (635, 635, St 214); (637, 637, St 214)]
    | 214 => [(33, 33, St 214); (36, 36, St 214); (37, 37, St 215); (38, 46, St 214); (48, 59, St 214); (61, 61, St 214); (64, 64, St 217); (65, 90,
      St 214); (95, 95, St 214); (97, 122, St 214); (126, 126, St 214); (606, 606, St 214); (635, 635, St 214); (637, 637, St 214)]
  | 215 => [(48, 57, St 216); (65, 70, St 216); (97, 102, St 216)]
  | 216 => [(48, 57, St 214); (65, 70, St 214); (97, 102, St 214)]
    | 217 => [(32, 32, Tr 228); (33, 33, St 218); (36, 36, St 218); (37, 37, St 219); (38, 46, St 218); (47, 47, St 205); (48, 57, St 218); (58, 58,
      St 221); (59, 59, St 218); (61, 61, St 218); (65, 90, St 218); (91, 91, St 222); (95, 95, St 218); (97, 122, St 218); (126, 126, St 218); (606,
      606, St 218); (635, 635, St 218); (637, 637, St 218)]
    | 218 => [(32, 32, Tr 228); (33, 33, St 218); (36, 36, St 218); (37, 37, St 219); (38, 46, St 218); (47, 47, St 205); (48, 57, St 218); (58, 58,
      St 221); (59, 59, St 218); (61, 61, St 218); (65, 90, St 218); (95, 95, St 218); (97, 122, St 218); (126, 126, St 218); (606, 606, St 218);
      (635, 635, St 218); (637, 637, St 218)]
  | 219 => [(48, 57, St 220); (65, 70, St 220); (97, 102, St 220)]
  | 220 => [(48, 57, St 218); (65, 70, St 218); (97, 102, St 218)]
  | 221 => [(32, 32, Tr 228); (47, 47, St 205); (48, 57, St 221)]
  | 222 => [(6, 6, St 223); (48, 57, St 266); (58, 58, St 342); (65, 70, St 266); (97, 102, St 266); (118, 118, St 344)]
  | 223 => [(48, 57, St 224); (65, 70, St 224); (97, 102, St 224)]
  | 224 => [(48, 57, St 225); (58, 58, St 228); (65, 70, St 225); (97, 102, St 225)]
  | 225 => [(48, 57, St 226); (58, 58, St 228); (65, 70, St 226); (97, 102, St 226)]
  | 226 => [(48, 57, St 227); (58, 58, St 228); (65, 70, St 227); (97, 102, St 227)]
  | 227 => [(58, 58, St 228)]
  | 228 => [(48, 48, St 229); (49, 49, St 259); (50, 50, St 262); (51, 57, St 229); (65, 70, St 265); (97, 102, St 265)]
  | 229 => [(46, 46, St 230); (48, 57, St 252); (58, 58, St 255); (65, 70, St 252); (97, 102, St 252)]
  | 230 => [(48, 48, St 231); (49, 49, St 247); (50, 50, St 249); (51, 57, St 231)]
  | 231 => [(46, 46, St 232)]
  | 232 => [(48, 48, St 233); (49, 49, St 242); (50, 50, St 244); (51, 57, St 233)]
  | 233 => [(46, 46, St 234)]
  | 234 => [(48, 48, St 235); (49, 49, St 237); (50, 50, St 239); (51, 57, St 235)]
  | 235 => [(93, 93, St 236)]
  | 236 => [(32, 32, Tr 228); (47, 47, St 205); (58, 58, St 221)]
  | 237 => [(48, 57, St 238); (93, 93, St 236)]
  | 238 => [(48, 57, St 235); (93, 93, St 236)]
  | 239 => [(48, 48, St 240); (53, 53, St 241); (93, 93, St 236)]
  | 240 => [(48, 57, St 235)]
  | 241 => [(48, 48, St 235)]
  | 242 => [(46, 46, St 234); (48, 57, St 243)]
  | 243 => [(46, 46, St 234); (48, 57, St 233)]
  | 244 => [(46, 46, St 234); (48, 48, St 245); (53, 53, St 246)]
  | 245 => [(48, 57, St 233)]
  | 246 => [(48, 48, St 233)]
  | 247 => [(46, 46, St 232); (48, 57, St 248)]
  | 248 => [(46, 46, St 232); (48, 57, St 231)]
  | 249 => [(46, 46, St 232); (48, 48, St 250); (53, 53, St 251)]
  | 250 => [(48, 57, St 231)]
  | 251 => [(48, 48, St 231)]
  | 252 => [(48, 57, St 253); (58, 58, St 255); (65, 70, St 253); (97, 102, St 253)]
  | 253 => [(48, 57, St 254); (58, 58, St 255); (65, 70, St 254); (97, 102, St 254)]
  | 254 => [(58, 58, St 255)]
  | 255 => [(48, 57, St 256); (65, 70, St 256); (97, 102, St 256)]
  | 256 => [(48, 57, St 257); (65, 70, St 257); (93, 93, St 236); (97, 102, St 257)]
  | 257 => [(48, 57, St 258); (65, 70, St 258); (93, 93, St 236); (97, 102, St 258)]
  | 258 => [(48, 57, St 235); (65, 70, St 235); (93, 93, St 236); (97, 102, St 235)]
  | 259 => [(46, 46, St 230); (48, 57, St 260); (58, 58, St 255); (65, 70, St 252); (97, 102, St 252)]
  | 260 => [(46, 46, St 230); (48, 57, St 261); (58, 58, St 255); (65, 70, St 253); (97, 102, St 253)]
  | 261 => [(46, 46, St 230); (48, 57, St 254); (58, 58, St 255); (65, 70, St 254); (97, 102, St 254)]
    | 262 => [(46, 46, St 230); (48, 48, St 263); (49, 52, St 252); (53, 53, St 264); (54, 57, St 252); (58, 58, St 255); (65, 70, St 252); (97, 102,
      St 252)]
  | 263 => [(48, 57, St 261); (58, 58, St 255); (65, 70, St 253); (97, 102, St 253)]
  | 264 => [(48, 48, St 261); (49, 57, St 253); (58, 58, St 255); (65, 70, St 253); (97, 102, St 253)]
  | 265 => [(48, 57, St 252); (58, 58, St 255); (65, 70, St 252); (97, 102, St 252)]
  | 266 => [(48, 57, St 267); (58, 58, St 270); (65, 70, St 267); (97, 102, St 267)]
  | 267 => [(48, 57, St 268); (58, 58, St 270); (65, 70, St 268); (97, 102, St 268)]
  | 268 => [(48, 57, St 269); (58, 58, St 270); (65, 70, St 269); (97, 102, St 269)]
  | 269 => [(58, 58, St 270)]
  | 270 => [(48, 57, St 271); (58, 58, St 341); (65, 70, St 271); (97, 102, St 271)]
  | 271 => [(48, 57, St 272); (58, 58, St 275); (65, 70, St 272); (97, 102, St 272)]
  | 272 => [(48, 57, St 273); (58, 58, St 275); (65, 70, St 273); (97, 102, St 273)]
  | 273 => [(48, 57, St 274); (58, 58, St 275); (65, 70, St 274); (97, 102, St 274)]
  | 274 => [(58, 58, St 275)]
  | 275 => [(48, 57, St 276); (58, 58, St 340); (65, 70, St 276); (97, 102, St 276)]
  | 276 => [(48, 57, St 277); (58, 58, St 280); (65, 70, St 277); (97, 102, St 277)]
  | 277 => [(48, 57, St 278); (58, 58, St 280); (65, 70, St 278); (97, 102, St 278)]
  | 278 => [(48, 57, St 279); (58, 58, St 280); (65, 70, St 279); (97, 102, St 279)]
  | 279 => [(58, 58, St 280)]
  | 280 => [(48, 57, St 281); (58, 58, St 339); (65, 70, St 281); (97, 102, St 281)]
  | 281 => [(48, 57, St 282); (58, 58, St 285); (65, 70, St 282); (97, 102, St 282)]
  | 282 => [(48, 57, St 283); (58, 58, St 285); (65, 70, St 283); (97, 102, St 283)]
  | 283 => [(48, 57, St 284); (58, 58, St 285); (65, 70, St 284); (97, 102, St 284)]
  | 284 => [(58, 58, St 285)]
  | 285 => [(48, 57, St 286); (58, 58, St 338); (65, 70, St 286); (97, 102, St 286)]
  | 286 => [(48, 57, St 287); (58, 58, St 290); (65, 70, St 287); (97, 102, St 287)]
  | 287 => [(48, 57, St 288); (58, 58, St 290); (65, 70, St 288); (97, 102, St 288)]
  | 288 => [(48, 57, St 289); (58, 58, St 290); (65, 70, St 289); (97, 102, St 289)]
  | 289 => [(58, 58, St 290)]
  | 290 => [(48, 57, St 291); (58, 58, St 326); (65, 70, St 291); (97, 102, St 291)]
  | 291 => [(48, 57, St 292); (58, 58, St 295); (65, 70, St 292); (97, 102, St 292)]
  | 292 => [(48, 57, St 293); (58, 58, St 295); (65, 70, St 293); (97, 102, St 293)]
  | 293 => [(48, 57, St 294); (58, 58, St 295); (65, 70, St 294); (97, 102, St 294)]
  | 294 => [(58, 58, St 295)]
  | 295 => [(48, 57, St 296); (58, 58, St 325); (65, 70, St 296); (97, 102, St 296)]
  | 296 => [(48, 57, St 297); (58, 58, St 300); (65, 70, St 297); (97, 102, St 297)]
  | 297 => [(48, 57, St 298); (58, 58, St 300); (65, 70, St 298); (97, 102, St 298)]
  | 298 => [(48, 57, St 299); (58, 58, St 300); (65, 70, St 299); (97, 102, St 299)]
  | 299 => [(58, 58, St 300)]
  | 300 => [(48, 57, St 296); (58, 58, St 301); (65, 70, St 296); (97, 102, St 296)]
    | 301 => [(2, 3, St 223); (48, 48, St 302); (49, 49, St 318); (50, 50, St 321); (51, 57, St 302); (65, 70, St 324); (93, 93, St 236); (97, 102, St
      324)]
  | 302 => [(46, 46, St 230); (48, 57, St 303); (58, 58, St 306); (65, 70, St 303); (93, 93, St 236); (97, 102, St 303)]
  | 303 => [(48, 57, St 304); (58, 58, St 306); (65, 70, St 304); (93, 93, St 236); (97, 102, St 304)]
  | 304 => [(48, 57, St 305); (58, 58, St 306); (65, 70, St 305); (93, 93, St 236); (97, 102, St 305)]
  | 305 => [(58, 58, St 306); (93, 93, St 236)]
  | 306 => [(48, 48, St 307); (49, 49, St 311); (50, 50, St 314); (51, 57, St 307); (65, 70, St 317); (97, 102, St 317)]
  | 307 => [(46, 46, St 230); (48, 57, St 308); (58, 58, St 255); (65, 70, St 308); (93, 93, St 236); (97, 102, St 308)]
  | 308 => [(48, 57, St 309); (58, 58, St 255); (65, 70, St 309); (93, 93, St 236); (97, 102, St 309)]
  | 309 => [(48, 57, St 310); (58, 58, St 255); (65, 70, St 310); (93, 93, St 236); (97, 102, St 310)]
  | 310 => [(58, 58, St 255); (93, 93, St 236)]
  | 311 => [(46, 46, St 230); (48, 57, St 312); (58, 58, St 255); (65, 70, St 308); (93, 93, St 236); (97, 102, St 308)]
  | 312 => [(46, 46, St 230); (48, 57, St 313); (58, 58, St 255); (65, 70, St 309); (93, 93, St 236); (97, 102, St 309)]
  | 313 => [(46, 46, St 230); (48, 57, St 310); (58, 58, St 255); (65, 70, St 310); (93, 93, St 236); (97, 102, St 310)]
    | 314 => [(46, 46, St 230); (48, 48, St 315); (49, 52, St 308); (53, 53, St 316); (54, 57, St 308); (58, 58, St 255); (65, 70, St 308); (93, 93,
      St 236); (97, 102, St 308)]
  | 315 => [(48, 57, St 313); (58, 58, St 255); (65, 70, St 309); (93, 93, St 236); (97, 102, St 309)]
  | 316 => [(48, 48, St 313); (49, 57, St 309); (58, 58, St 255); (65, 70, St 309); (93, 93, St 236); (97, 102, St 309)]
  | 317 => [(48, 57, St 308); (58, 58, St 255); (65, 70, St 308); (93, 93, St 236); (97, 102, St 308)]
  | 318 => [(46, 46, St 230); (48, 57, St 319); (58, 58, St 306); (65, 70, St 303); (93, 93, St 236); (97, 102, St 303)]
  | 319 => [(46, 46, St 230); (48, 57, St 320); (58, 58, St 306); (65, 70, St 304); (93, 93, St 236); (97, 102, St 304)]
  | 320 => [(46, 46, St 230); (48, 57, St 305); (58, 58, St 306); (65, 70, St 305); (93, 93, St 236); (97, 102, St 305)]
    | 321 => [(46, 46, St 230); (48, 48, St 322); (49, 52, St 303); (53, 53, St 323); (54, 57, St 303); (58, 58, St 306); (65, 70, St 303); (93, 93,
      St 236); (97, 102, St 303)]
  | 322 => [(48, 57, St 320); (58, 58, St 306); (65, 70, St 304); (93, 93, St 236); (97, 102, St 304)]
  | 323 => [(48, 48, St 320); (49, 57, St 304); (58, 58, St 306); (65, 70, St 304); (93, 93, St 236); (97, 102, St 304)]
  | 324 => [(48, 57, St 303); (58, 58, St 306); (65, 70, St 303); (93, 93, St 236); (97, 102, St 303)]
  | 325 => [(2, 3, St 223); (48, 48, St 302); (49, 49, St 318); (50, 50, St 321); (51, 57, St 302); (65, 70, St 324); (97, 102, St 324)]
  | 326 => [(2, 3, St 223); (48, 48, St 327); (49, 49, St 331); (50, 50, St 334); (51, 57, St 327); (65, 70, St 337); (97, 102, St 337)]
  | 327 => [(46, 46, St 230); (48, 57, St 328); (58, 58, St 306); (65, 70, St 328); (97, 102, St 328)]
  | 328 => [(48, 57, St 329); (58, 58, St 306); (65, 70, St 329); (97, 102, St 329)]
  | 329 => [(48, 57, St 330); (58, 58, St 306); (65, 70, St 330); (97, 102, St 330)]
  | 330 => [(58, 58, St 306)]
  | 331 => [(46, 46, St 230); (48, 57, St 332); (58, 58, St 306); (65, 70, St 328); (97, 102, St 328)]
  | 332 => [(46, 46, St 230); (48, 57, St 333); (58, 58, St 306); (65, 70, St 329); (97, 102, St 329)]
  | 333 => [(46, 46, St 230); (48, 57, St 330); (58, 58, St 306); (65, 70, St 330); (97, 102, St 330)]
    | 334 => [(46, 46, St 230); (48, 48, St 335); (49, 52, St 328); (53, 53, St 336); (54, 57, St 328); (58, 58, St 306); (65, 70, St 328); (97, 102,
      St 328)]
  | 335 => [(48, 57, St 333); (58, 58, St 306); (65, 70, St 329); (97, 102, St 329)]
  | 336 => [(48, 48, St 333); (49, 57, St 329); (58, 58, St 306); (65, 70, St 329); (97, 102, St 329)]
  | 337 => [(48, 57, St 328); (58, 58, St 306); (65, 70, St 328); (97, 102, St 328)]
  | 338 => [(2, 3, St 223); (48, 57, St 224); (65, 70, St 224); (97, 102, St 224)]
  | 339 => [(2, 3, St 223)]
  | 340 => [(3, 3, St 223)]
  | 341 => [(4, 4, St 223)]
  | 342 => [(58, 58, St 343)]
    | 343 => [(2, 5, St 223); (48, 48, St 302); (49, 49, St 318); (50, 50, St 321); (51, 57, St 302); (65, 70, St 324); (93, 93, St 236); (97, 102, St
      324)]
  | 344 => [(48, 57, St 345); (65, 70, St 345); (97, 102, St 345)]
  | 345 => [(46, 46, St 346); (48, 57, St 345); (65, 70, St 345); (97, 102, St 345)]
    | 346 => [(33, 33, St 347); (36, 36, St 347); (38, 46, St 347); (48, 59, St 347); (61, 61, St 347); (65, 90, St 347); (95, 95, St 347); (97, 122,
      St 347); (126, 126, St 347); (606, 606, St 347); (635, 635, St 347); (637, 637, St 347)]
    | 347 => [(33, 33, St 347); (36, 36, St 347); (38, 46, St 347); (48, 59, St 347); (61, 61, St 347); (65, 90, St 347); (93, 93, St 236); (95, 95,
      St 347); (97, 122, St 347); (126, 126, St 347); (606, 606, St 347); (635, 635, St 347); (637, 637, St 347)]
  | _ => []
  end.

(** The final states 348 and 349. *)
Definition final_case (cs : Z) : list (Z * Z * edge) :=
  match cs with
    | 348 => [(1, 8, St 14); (10, 31, St 14); (33, 33, St 14); (35, 39, St 14); (42, 43, St 14); (45, 46, St 14); (48, 57, St 14); (58, 58, Tr 27);
      (65, 90, St 14); (94, 122, St 14); (124, 124, St 14); (126, 126, St 14)]
  | 349 => []
  | _ => []
  end.

Definition http11_case (cs : Z) : list (Z * Z * edge) :=
  if cs <=? 18 then head_case cs
  else if cs <=? 33 then target_case cs
  else if cs <=? 172 then authority_case cs
  else if cs <=? 174 then scheme_case cs
  else if cs <=? 193 then method_case cs
  else if cs <=? 197 then xml_case cs
  else if cs <=? 347 then json_case cs
  else final_case cs.

(** The actions of the grammar. Those of a value start it with [MARK(mark)], as [mark]
    does. *)
Inductive action :=
  | mark | start_field | write_field | write_value | request_method | request_uri | fragment | start_query | query_string
  | http_version | request_path | done_ | xml | json.

#[global] Instance action_eq_dec : EqDecision action.
Proof. solve_decision. Defined.

(** The labels [tr<n>]: what they perform, and the state they go to. *)
Definition transition (tr : Z) : list action * Z :=
  match tr with
  | 0 => ([mark], 2) | 2 => ([mark], 194) | 3 => ([mark], 198) | 4 => ([request_method], 3) | 6 => ([mark; request_path; request_uri], 4)
  | 7 => ([mark], 19) | 8 => ([mark; request_path; request_uri], 20) | 9 => ([mark], 24) | 10 => ([mark], 33)
  | 11 => ([mark; request_path], 29) | 12 => ([mark], 173) | 13 => ([mark], 5) | 21 => ([http_version], 13) | 22 => ([http_version], 17)
  | 23 => ([start_field], 14) | 24 => ([start_field; done_], 348) | 25 => ([start_field], 18) | 27 => ([write_field], 15) | 28 => ([mark], 16)
  | 29 => ([mark], 15) | 30 => ([mark; write_value], 13) | 31 => ([mark; write_value], 17) | 33 => ([write_value], 13)
  | 34 => ([write_value], 17) | 36 => ([done_], 348) | 37 => ([request_path; request_uri], 4) | 39 => ([request_path; request_uri], 20)
  | 42 => ([request_path], 29) | 43 => ([mark], 21) | 44 => ([mark; fragment], 4) | 45 => ([mark], 22) | 47 => ([fragment], 4)
  | 53 => ([start_query], 30) | 54 => ([start_query; query_string; request_uri], 4) | 55 => ([start_query; query_string; request_uri], 20)
  | 56 => ([start_query], 31) | 58 => ([query_string; request_uri], 4) | 59 => ([query_string; request_uri], 20) | 203 => ([mark], 26)
  | 204 => ([mark], 27) | 224 => ([request_path], 196) | 227 => ([xml; done_], 349) | 228 => ([request_path], 199) | 232 => ([mark], 200)
  | 235 => ([json; done_], 349)
  | _ => ([], 0)
  end.

(** The states whose [switch] is on [_widec]: the characters of [more_delims] are other
    codes there, and others again when [uri_relaxed] is set. *)
Definition widens (cs : Z) : bool :=
  existsb (Z.eqb cs) [3; 19; 20; 21; 26; 29; 30; 33; 34; 35; 38; 39; 42; 43; 171; 172; 173; 174; 198; 202; 205; 208; 209; 210; 213; 214; 217; 218; 346; 347].

Definition widec (uri_relaxed : bool) (cs c : Z) : Z :=
  if widens cs && ((c =? 94) || (c =? 123) || (c =? 125)) then (128 + (c - -128)) + (if uri_relaxed then 256 else 0) else c.

(** [char] is signed. *)
Definition char_of (c : byte) : Z := if b2z c <? 128 then b2z c else b2z c - 256.

Fixpoint find_edge (w : Z) (l : list (Z * Z * edge)) : option edge :=
  match l with
  | [] => None
  | (lo, hi, e) :: l => if (lo <=? w) && (w <=? hi) then Some e else find_edge w l
  end.

Definition edge_of (uri_relaxed : bool) (cs : Z) (c : byte) : option edge :=
  find_edge (widec uri_relaxed cs (char_of c)) (http11_case cs).

(** ** The parser *)

(** [struct http_parser] without the callbacks and [nread], which each call starts anew. *)
Record Http11 := mkHttp11 {
  hp_cs : Z;
  hp_body_start : Z;
  hp_content_len : Z;
  hp_mark : Z;
  hp_field_start : Z;
  hp_field_len : Z;
  hp_query_start : Z;
  hp_xml_sent : bool;
  hp_json_sent : bool;
}.

Definition http11_init : Http11 := mkHttp11 1 0 0 0 0 0 0 false false.

Definition set_cs (v : Z) (m : Http11) : Http11 :=
  mkHttp11 v (hp_body_start m) (hp_content_len m) (hp_mark m) (hp_field_start m) (hp_field_len m) (hp_query_start m) (hp_xml_sent m) (hp_json_sent m).
Definition set_mark (v : Z) (m : Http11) : Http11 :=
  mkHttp11 (hp_cs m) (hp_body_start m) (hp_content_len m) v (hp_field_start m) (hp_field_len m) (hp_query_start m) (hp_xml_sent m) (hp_json_sent m).
Definition set_field_start (v : Z) (m : Http11) : Http11 :=
  mkHttp11 (hp_cs m) (hp_body_start m) (hp_content_len m) (hp_mark m) v (hp_field_len m) (hp_query_start m) (hp_xml_sent m) (hp_json_sent m).
Definition set_field_len (v : Z) (m : Http11) : Http11 :=
  mkHttp11 (hp_cs m) (hp_body_start m) (hp_content_len m) (hp_mark m) (hp_field_start m) v (hp_query_start m) (hp_xml_sent m) (hp_json_sent m).
Definition set_query_start (v : Z) (m : Http11) : Http11 :=
  mkHttp11 (hp_cs m) (hp_body_start m) (hp_content_len m) (hp_mark m) (hp_field_start m) (hp_field_len m) v (hp_xml_sent m) (hp_json_sent m).
Definition set_sent (x j : bool) (m : Http11) : Http11 :=
  mkHttp11 (hp_cs m) (hp_body_start m) (hp_content_len m) (hp_mark m) (hp_field_start m) (hp_field_len m) (hp_query_start m) x j.
Definition set_body (start length : Z) (m : Http11) : Http11 :=
  mkHttp11 (hp_cs m) start length (hp_mark m) (hp_field_start m) (hp_field_len m) (hp_query_start m) (hp_xml_sent m) (hp_json_sent m).

(** What each call of [http_parser_execute] starts with. *)
Definition restart (m : Http11) : Http11 := set_mark 0 (set_field_len 0 (set_field_start 0 m)).

(** [LEN] and [PTR_TO]; a length is a [size_t]. *)
Definition LEN (at_ fpc : Z) : Z := u64 (fpc - at_).
Definition PTR_TO (buffer : list byte) (f : Z) : list byte := drop (Z.to_nat f) buffer.

(** An action at [fpc]. [query_start] may be that of an earlier buffer, and the length then
    is none: [std::string(at, length)] throws in the callback. *)
Definition perform (buffer : list byte) (fpc : Z) (a : action) (m : Http11) : res (Http11 * list RequestEvent) :=
  let at_mark := PTR_TO buffer (hp_mark m) in
  let from_mark := LEN (hp_mark m) fpc in
  match a with
  | mark => Ok (set_mark fpc m, [])
  | start_field => Ok (set_field_start fpc m, [])
  | write_field => Ok (set_field_len (LEN (hp_field_start m) fpc) m, [])
  | write_value => Ok (m, [on_field (PTR_TO buffer (hp_field_start m)) (hp_field_len m) at_mark from_mark])
  | request_method => Ok (m, [on_method at_mark from_mark])
  | request_uri => Ok (m, [on_uri at_mark from_mark])
  | fragment => Ok (m, [on_fragment at_mark from_mark])
  | start_query => Ok (set_query_start fpc m, [])
  | query_string =>
      let n := LEN (hp_query_start m) fpc in
      if string_max_size <? n then Throw length_error else Ok (m, [on_query (PTR_TO buffer (hp_query_start m)) n])
  | http_version => Ok (m, [on_version at_mark from_mark])
  | request_path => Ok (m, [on_path at_mark from_mark])
  | done_ =>
      if hp_xml_sent m || hp_json_sent m then Ok (set_body (hp_mark m) (s32 (fpc - hp_mark m + 1)) m, [])
      else Ok (set_body (fpc + 1) (hp_content_len m) m, [on_header_done])
  | xml => Ok (set_sent true (hp_json_sent m) m, [])
  | json => Ok (set_sent (hp_xml_sent m) true m, [])
  end.

Fixpoint perform_all (buffer : list byte) (fpc : Z) (l : list action) (m : Http11) : res (Http11 * list RequestEvent) :=
  match l with
  | [] => Ok (m, [])
  | a :: l =>
      let! (m, e) := perform buffer fpc a m in
      let! (m, es) := perform_all buffer fpc l m in
      Ok (m, e ++ es)
  end.

Section machine.
Context (uri_relaxed : bool).

(** From the state [cs] at [p], where [rest] is left of the buffer: the parser, the state,
    where it stops, and the callbacks. [done_] breaks off behind its character. *)
Fixpoint exec_loop (buffer : list byte) (cs p : Z) (rest : list byte) (m : Http11) : res (Http11 * Z * Z * list RequestEvent) :=
  match rest with
  | [] => Ok (m, cs, p, [])
  | c :: rest =>
      match edge_of uri_relaxed cs c with
      | None => Ok (m, 0, p, [])
      | Some (St n) => exec_loop buffer n (p + 1) rest m
      | Some (Tr k) =>
          let (l, n) := transition k in
          let! (m, e) := perform_all buffer p l m in
          if bool_decide (done_ ∈ l) then Ok (m, n, p + 1, e)
          else
            let! (m, cs, p, es) := exec_loop buffer n (p + 1) rest m in
            Ok (m, cs, p, e ++ es)
      end
  end.

(** [http_parser_execute], with the offset 0 of its caller. *)
Definition http11_execute (m : Http11) (buffer : list byte) : res (Http11 * Z * list RequestEvent) :=
  if len buffer =? 0 then Ok (m, 0, [])
  else
    let! (m', cs, p, es) := exec_loop buffer (hp_cs m) 0 buffer (restart m) in
    let m' := if hp_cs m =? 0 then m' else set_cs cs m' in
    if (p <=? len buffer) && (hp_body_start m' <=? len buffer) && (hp_mark m' <? len buffer) && (hp_field_len m' <=? len buffer) && (hp_field_start m' <? len buffer)
    then Ok (m', p, es)
    else Crash assertion_failed.

Definition http11_has_error (m : Http11) : bool := hp_cs m =? 0.
Definition http11_finish (m : Http11) : Z := if http11_has_error m then -1 else if 348 <=? hp_cs m then 1 else 0.

(** The interface of the sessions is met by this machine. [uri_relaxed] is never set: it is
    what is in the memory of the parser. *)
Definition http11 : RequestMachine := {|
  http_parser := Http11;
  http_parser_init := http11_init;
  http_parser_execute := http11_execute;
  http_parser_finish := http11_finish;
  http_parser_has_error := http11_has_error;
|}.
End machine.
