(* ===== verification/HttpParserSpec.v ===== *)
(** The state machine of requests reads a request that is written as RFC 9112 says, when no
    read ends inside of a line. *)
From S2P Require Import Prelude CppString Number Codec Stream StreamSpec Http HttpSpec HttpStream HttpParser.

(** ** What a session needs of a parser *)

Section accepts.
Context `{RequestMachine}.

(** The parser takes the pieces [gs], one in each call, for a head, and has then read the
    request [r]: every piece but the last is read to its end and is not the whole head; of
    the last, with whatever follows it, all is read that belongs to the head. *)
Inductive accepts : HttpRequestParser -> list (list byte) -> HttpRequest -> Prop :=
  | accepts_last p g r : g <> [] ->
      (forall x, exists p', execute (g ++ x) p = Ok (p', len g, x) /\ hasError p' = false /\ isFinished p' = true /\ rp_data p' = r) -> accepts p [g] r
  | accepts_more p g gs p1 r : g <> [] -> execute g p = Ok (p1, len g, []) -> hasError p1 = false -> isFinished p1 = false -> accepts p1 gs r ->
      accepts p (g :: gs) r.
End accepts.

(** ** Texts of requests *)

Definition xdigit (c : byte) : bool := let c := b2z c in (48 <=? c) && (c <=? 57) || (65 <=? c) && (c <=? 70) || (97 <=? c) && (c <=? 102).

(** What a path is made of, but for the question mark: letters, digits, marks, delimiters
    and characters that are not ASCII. *)
Definition uri_char (c : byte) : bool :=
  let c := b2z c in
  (c =? 33) || (c =? 36) || (38 <=? c) && (c <=? 59) || (c =? 61) || (64 <=? c) && (c <=? 90) || (c =? 95) || (97 <=? c) && (c <=? 122) || (c =? 126) || (128 <=? c).

Definition query_char (c : byte) : bool := uri_char c || bool_decide (c = x3f).

(** With percent signs before two hexadecimal digits. *)
Fixpoint uri_text (ok : byte -> bool) (s : list byte) : bool :=
  match s with
  | [] => true
  | x25 :: s => match s with a :: b :: s => xdigit a && xdigit b && uri_text ok s | _ => false end
  | c :: s => ok c && uri_text ok s
  end.

Definition upper_digit (c : byte) : bool := let c := b2z c in (48 <=? c) && (c <=? 57) || (65 <=? c) && (c <=? 90).

Definition token_char (c : byte) : bool :=
  let c := b2z c in
  (c =? 33) || (35 <=? c) && (c <=? 39) || (c =? 42) || (c =? 43) || (c =? 45) || (c =? 46) || (48 <=? c) && (c <=? 57) || (65 <=? c) && (c <=? 90) ||
  (94 <=? c) && (c <=? 122) || (c =? 124) || (c =? 126).

Definition visible_char (c : byte) : bool := let c := b2z c in (33 <=? c) && (c <=? 126) || (128 <=? c).
Definition value_char (c : byte) : bool := visible_char c || bool_decide (c = x20) || bool_decide (c = x09).

(** A request: method, path, query, whether it is of HTTP/1.1 and not 1.0, and the
    headers. *)
Record request_text := mkText {
  t_method : list byte;
  t_path : list byte;
  t_query : option (list byte);
  t_recent : bool;
  t_fields : list (list byte * list byte);
}.

Definition method_ok (m : list byte) : bool := bool_decide (m ∈ HTTP_METHOD_MAP) && forallb upper_digit m.

Definition path_ok (s : list byte) : bool :=
  match s with
  | x2f :: s => match s with x2f :: _ => false | _ => uri_text uri_char s end
  | _ => false
  end.

Definition value_ok (v : list byte) : bool := match v with [] => true | c :: _ => visible_char c && forallb value_char v end.

Definition field_ok (f : list byte * list byte) : bool := negb (bool_decide (f.1 = [])) && forallb token_char f.1 && value_ok f.2.

Definition text_ok (t : request_text) : bool :=
  method_ok (t_method t) && path_ok (t_path t) && match t_query t with Some q => uri_text query_char q | None => true end && forallb field_ok (t_fields t).

(** Its lines. *)
Definition target (t : request_text) : list byte := t_path t ++ match t_query t with Some q => x3f :: q | None => [] end.
Definition http_version_text (t : request_text) : list byte := bstr "HTTP/1." ++ [if t_recent t then x31 else x30].
Definition first_line (t : request_text) : list byte := t_method t ++ [x20] ++ target t ++ [x20] ++ http_version_text t ++ CRLF.
Definition field_line (f : list byte * list byte) : list byte := f.1 ++ [x3a; x20] ++ f.2 ++ CRLF.
Definition lines (t : request_text) : list (list byte) := first_line t :: map field_line (t_fields t) ++ [CRLF].

(** The request that it is. *)
Definition put_field (r : HttpRequest) (f : list byte * list byte) : HttpRequest := setHeader f.1 f.2 r.
Definition without_fields (t : request_text) : HttpRequest :=
  setVersion (if t_recent t then 0x11 else 0x10)
    (match t_query t with Some q => setQuery q | None => id end (setPath (t_path t) (setMethod (CharsToHttpMethod (t_method t)) (new_HttpRequest 0x11 true)))).
Definition meaning (t : request_text) : HttpRequest := foldl put_field (without_fields t) (t_fields t).

(** ** Runs of the machine *)

Section runs.
Context (relaxed : bool).
#[local] Instance the_machine : RequestMachine := http11 relaxed.

Definition after (e : list RequestEvent) (r : res (Http11 * Z * Z * list RequestEvent)) : res (Http11 * Z * Z * list RequestEvent) :=
  let! (m, cs, p, es) := r in Ok (m, cs, p, e ++ es).

Lemma after_nil r : after [] r = r.
Proof. by destruct r as [[[[m cs] p] es]| |]. Qed.

Lemma after_after e e' r : after e (after e' r) = after (e ++ e') r.
Proof. destruct r as [[[[m cs] p] es]| |]; cbn; [|done|done]. by rewrite app_assoc. Qed.

Lemma loop_goto buf cs p c rest m n : edge_of relaxed cs c = Some (St n) -> exec_loop relaxed buf cs p (c :: rest) m = exec_loop relaxed buf n (p + 1) rest m.
Proof. intros E. cbn [exec_loop]. by rewrite E. Qed.

Lemma loop_label buf cs p c rest m k l n m' e : edge_of relaxed cs c = Some (Tr k) -> transition k = (l, n) -> bool_decide (done_ ∈ l) = false ->
  perform_all buf p l m = Ok (m', e) -> exec_loop relaxed buf cs p (c :: rest) m = after e (exec_loop relaxed buf n (p + 1) rest m').
Proof. intros E T D P. cbn [exec_loop]. by rewrite E, T, P, D. Qed.

(** A state that characters keep. *)
Lemma loop_stay buf cs a : forall p rest m, Forall (fun c => edge_of relaxed cs c = Some (St cs)) a ->
  exec_loop relaxed buf cs p (a ++ rest) m = exec_loop relaxed buf cs (p + len a) rest m.
Proof.
  induction a as [|c a IH]; intros p rest m F; cbn [app]; [unfold len; cbn; by rewrite Z.add_0_r|]. apply list.Forall_cons in F as [E F].
  rewrite (loop_goto _ _ _ _ _ _ cs E), IH by done. f_equal. unfold len. cbn [length]. lia.
Qed.

(** *** What characters do *)

#[local] Ltac by_char c := destruct c; try discriminate; intros _; vm_compute; reflexivity.

Lemma token_starts c : token_char c = true -> edge_of relaxed 13 c = Some (Tr 23).
Proof. by_char c. Qed.
Lemma token_stays c : token_char c = true -> edge_of relaxed 14 c = Some (St 14).
Proof. by_char c. Qed.
Lemma value_starts c : visible_char c = true -> edge_of relaxed 15 c = Some (Tr 28).
Proof. by_char c. Qed.
Lemma value_stays c : value_char c = true -> edge_of relaxed 16 c = Some (St 16).
Proof. by_char c. Qed.
Lemma path_stays c : uri_char c = true -> edge_of relaxed 26 c = Some (St 26).
Proof. by_char c. Qed.
Lemma path_second c : uri_char c = true -> bool_decide (c = x2f) = false -> edge_of relaxed 33 c = Some (St 26).
Proof. destruct c; try discriminate; intros _; vm_compute; intros; by (reflexivity || discriminate). Qed.
Lemma path_digit1 c : xdigit c = true -> edge_of relaxed 27 c = Some (St 28).
Proof. by_char c. Qed.
Lemma path_digit2 c : xdigit c = true -> edge_of relaxed 28 c = Some (St 26).
Proof. by_char c. Qed.
Lemma query_starts c : query_char c = true -> edge_of relaxed 29 c = Some (Tr 53).
Proof. by_char c. Qed.
Lemma query_stays c : query_char c = true -> edge_of relaxed 30 c = Some (St 30).
Proof. by_char c. Qed.
Lemma query_digit1 c : xdigit c = true -> edge_of relaxed 31 c = Some (St 32).
Proof. by_char c. Qed.
Lemma query_digit2 c : xdigit c = true -> edge_of relaxed 32 c = Some (St 30).
Proof. by_char c. Qed.

(** *** Segments *)

Definition plain (m : Http11) : Prop := hp_xml_sent m = false /\ hp_json_sent m = false.
Definition within (n : Z) (m : Http11) : Prop := hp_mark m <= n /\ hp_field_len m <= n /\ hp_field_start m <= n.

Definition calls (q : HttpRequestParser) (es : list RequestEvent) : HttpRequestParser := foldl (fun p e => request_callback e p) q es.

(** Reading [s] takes the machine from the state [cs] to [cs'], and its callbacks make of
    the request [r] the request [r']. *)
Definition moves (cs cs' : Z) (s : list byte) (r r' : HttpRequest) : Prop :=
  forall pre rest m, plain m -> within (len pre) m -> len (pre ++ s) < 2 ^ 62 ->
  exists m' es, exec_loop relaxed (pre ++ s ++ rest) cs (len pre) (s ++ rest) m = after es (exec_loop relaxed (pre ++ s ++ rest) cs' (len (pre ++ s)) rest m') /\
    plain m' /\ hp_body_start m' = hp_body_start m /\ within (len (pre ++ s) - 1) m' /\
    forall q, rp_error q = 0 -> rp_data q = r -> calls q es = mkRequestParser (rp_parser q) r' 0.

Lemma moves_app cs1 cs2 cs3 s1 s2 r1 r2 r3 : moves cs1 cs2 s1 r1 r2 -> moves cs2 cs3 s2 r2 r3 -> moves cs1 cs3 (s1 ++ s2) r1 r3.
Proof.
  intros M1 M2 pre rest m P W L. pose proof (len_nonneg s2) as L2. rewrite app_assoc, len_app in L.
  destruct (M1 pre (s2 ++ rest) m P W) as (m1 & e1 & E1 & P1 & B1 & W1 & C1); [lia|].
  destruct (M2 (pre ++ s1) rest m1 P1) as (m2 & e2 & E2 & P2 & B2 & W2 & C2).
  { unfold within in *. lia. } { rewrite len_app. lia. }
  exists m2, (e1 ++ e2). rewrite <- !app_assoc in E2 |- *. rewrite E1, E2, after_after. split; [by rewrite (app_assoc pre s1 s2)|]. split; [done|]. split; [congruence|].
  split; [by rewrite (app_assoc pre s1 s2)|]. intros q Eq Dq. unfold calls in *. rewrite foldl_app, (C1 q Eq Dq). by rewrite C2.
Qed.

Lemma text_at pre a b : text (PTR_TO (pre ++ a ++ b) (len pre)) (len a) = a.
Proof. unfold text, PTR_TO, len. by rewrite !Nat2Z.id, drop_app_length, take_app_length. Qed.

Lemma LEN_at a b : 0 <= b < 2 ^ 62 -> LEN a (a + b) = b.
Proof. intros L. unfold LEN. rewrite u64_small; lia. Qed.

Lemma len_cons {A} (c : A) l : len (c :: l) = 1 + len l.
Proof. unfold len. cbn [length]. lia. Qed.

Lemma len_snoc {A} (l : list A) c : len (l ++ [c]) = len l + 1.
Proof. rewrite len_app. unfold len. cbn. lia. Qed.

Lemma CRLF_two : CRLF = [x0d; x0a].
Proof. reflexivity. Qed.

Lemma forallb_moves (ok : byte -> bool) cs l : (forall c, ok c = true -> edge_of relaxed cs c = Some (St cs)) -> forallb ok l = true ->
  Forall (fun c => edge_of relaxed cs c = Some (St cs)) l.
Proof. intros H F. induction l as [|c l IH]; [constructor|]. cbn in F. apply andb_prop in F as [Fc F]. constructor; [by apply H|by apply IH]. Qed.

(** A line of a header. *)
Lemma moves_field f r : field_ok f = true -> moves 13 13 (field_line f) r (put_field r f).
Proof.
  destruct f as [name v]. unfold field_ok. cbn [fst snd]. intros [[Nn Tn]%andb_prop Vv]%andb_prop pre rest m Pm W L.
  destruct name as [|c n]; [done|]. cbn [forallb] in Tn. apply andb_prop in Tn as [Tc Tn].
  set (buf := pre ++ field_line (c :: n, v) ++ rest). set (p := len pre). pose proof (len_nonneg pre) as Lp. pose proof (len_nonneg n) as Ln. pose proof (len_nonneg v) as Lv.
  assert (Lf : len (pre ++ field_line (c :: n, v)) = p + (1 + len n) + 2 + len v + 2).
  { unfold field_line. rewrite !len_app. cbn [fst snd]. rewrite len_cons. change (len [x3a; x20]) with 2. change (len CRLF) with 2. lia. }
  rewrite Lf in L |- *. set (m1 := set_field_start p m). set (m2 := set_field_len (1 + len n) m1). set (m3 := set_mark (p + (1 + len n) + 2) m2).
  set (e := on_field (PTR_TO buf p) (1 + len n) (PTR_TO buf (p + (1 + len n) + 2)) (len v)).
  exists m3, [e]. split; [|split; [done|]; split; [done|]; split].
  - unfold field_line at 1. cbn [fst snd]. rewrite <- !app_assoc, CRLF_two. cbn [app].
    rewrite (loop_label buf 13 p c _ m 23 [start_field] 14 m1 []) by (first [by apply token_starts|done]). rewrite after_nil.
    rewrite loop_stay by (by apply (forallb_moves token_char); [apply token_stays|]).
    rewrite (loop_label buf 14 (p + 1 + len n) x3a _ m1 27 [write_field] 15 m2 []).
    2-3: done. 2: done. 2:{ cbn [perform_all perform rbind app]. do 2 f_equal. unfold m2. f_equal. unfold LEN. cbn [hp_field_start set_field_start m1]. rewrite u64_small; lia. }
    rewrite after_nil. rewrite (loop_label buf 15 (p + 1 + len n + 1) x20 _ m2 29 [mark] 15 (set_mark (p + 1 + len n + 1) m2) []) by done. rewrite after_nil.
    destruct v as [|d v]; cbn [app].
    + rewrite (loop_label buf 15 (p + 1 + len n + 1 + 1) x0d _ _ 31 [mark; write_value] 17 m3 [e]); [|done|done|done|].
      2:{ replace (p + 1 + len n + 1 + 1) with (p + (1 + len n) + 2) by lia. unfold e, m3, m2, m1.
          cbn [perform_all perform rbind app hp_mark hp_field_start hp_field_len set_mark set_field_len set_field_start]. unfold LEN. by rewrite Z.sub_diag. }
      rewrite (loop_goto buf 17 _ x0a rest m3 13) by done. do 2 f_equal. unfold len. cbn. lia.
    + cbn [value_ok] in Vv. apply andb_prop in Vv as [Vd Vv]. cbn [forallb] in Vv. apply andb_prop in Vv as [_ Vv].
      rewrite (loop_label buf 15 (p + 1 + len n + 1 + 1) d _ _ 28 [mark] 16 m3 []); [|by apply value_starts|done|done|].
      2:{ cbn [perform_all perform rbind app]. unfold m3, set_mark. cbn. do 3 f_equal. lia. }
      rewrite after_nil. rewrite loop_stay by (by apply (forallb_moves value_char); [apply value_stays|]).
      rewrite (loop_label buf 16 _ x0d _ m3 34 [write_value] 17 m3 [e]); [|done|done|done|].
      2:{ cbn [perform_all perform rbind app]. unfold e. rewrite len_cons in *. cbn [hp_mark hp_field_start hp_field_len m3 m2 m1 set_mark set_field_len set_field_start].
          do 3 f_equal. f_equal. unfold LEN. rewrite u64_small; lia. }
      rewrite (loop_goto buf 17 _ x0a rest m3 13) by done. do 2 f_equal. rewrite len_cons. lia.
  - unfold within in *. cbn. lia.
  - intros q Eq Dq. unfold calls, e. cbn [foldl request_callback]. unfold on_request_http_field. replace (1 + len n =? 0) with false by lia.
    unfold set_data. rewrite Dq, Eq. unfold put_field. cbn [fst snd]. f_equal.
    assert (T1 : text (PTR_TO buf p) (1 + len n) = c :: n).
    { rewrite <- (len_cons c n). unfold buf, field_line. cbn [fst snd]. rewrite <- !app_assoc. apply text_at. }
    assert (T2 : text (PTR_TO buf (p + (1 + len n) + 2)) (len v) = v).
    { replace (p + (1 + len n) + 2) with (len (pre ++ (c :: n) ++ [x3a; x20])) by (rewrite !len_app, len_cons; change (len [x3a; x20]) with 2; lia).
      unfold buf, field_line. cbn [fst snd]. rewrite <- !app_assoc. rewrite (app_assoc pre (c :: n)), (app_assoc (pre ++ (c :: n))), <- (app_assoc pre (c :: n)). apply text_at. }
    by rewrite T1, T2.
Qed.

(** *** The first line *)

(** The state after [k] characters of a method. *)
Definition method_state (k : nat) : Z := match k with 0%nat => 1 | 1%nat => 2 | _ => 173 + Z.of_nat k end.

Lemma method_starts c : upper_digit c = true -> edge_of relaxed 1 c = Some (Tr 0).
Proof. by_char c. Qed.

Lemma method_stays k c : (1 <= k < 20)%nat -> upper_digit c = true -> edge_of relaxed (method_state k) c = Some (St (method_state (S k))).
Proof. intros L. destruct k as [|k]; [lia|]. do 19 (destruct k as [|k]; [by_char c|]). lia. Qed.

Lemma method_ends k : (1 <= k <= 20)%nat -> edge_of relaxed (method_state k) x20 = Some (Tr 4).
Proof. intros L. destruct k as [|k]; [lia|]. do 20 (destruct k as [|k]; [vm_compute; reflexivity|]). lia. Qed.

Lemma loop_method buf a : forall k p rest m, (1 <= k)%nat -> (k + length a <= 20)%nat -> forallb upper_digit a = true ->
  exec_loop relaxed buf (method_state k) p (a ++ rest) m = exec_loop relaxed buf (method_state (k + length a)) (p + len a) rest m.
Proof.
  induction a as [|c a IH]; intros k p rest m L1 L2 F; cbn [app length] in *; [unfold len; cbn; by rewrite Nat.add_0_r, Z.add_0_r|].
  cbn in F. apply andb_prop in F as [Fc F]. rewrite (loop_goto buf _ p c _ m (method_state (S k))) by (apply method_stays; [lia|done]).
  rewrite IH by (done || lia). rewrite len_cons. f_equal; [f_equal; lia|lia].
Qed.

(** The names of methods that a parser can read. No name is another one with a space behind
    it. *)
Definition no_space_after (n : list byte) : bool :=
  forallb (fun i => negb (bool_decide (n !! i = Some x20) && bool_decide (take i n ∈ HTTP_METHOD_MAP))) (seq 0 (length n)).

Lemma names_apart n m x : n ∈ HTTP_METHOD_MAP -> m ∈ HTTP_METHOD_MAP -> has_prefix n (m ++ x20 :: x) = has_prefix n m.
Proof.
  intros Hn Hm. assert (All : forallb no_space_after HTTP_METHOD_MAP = true) by (vm_compute; reflexivity).
  unfold has_prefix. destruct (Nat.le_gt_cases (length n) (length m)) as [Le|Gt]; [by rewrite take_app_le|].
  rewrite (bool_decide_eq_false_2 (take (length n) m = n)) by (intros E; apply (f_equal length) in E; rewrite length_take in E; lia).
  apply bool_decide_eq_false_2. intros E. apply forallb_forall with (x := n) in All; [|by apply list_elem_of_In]. unfold no_space_after in All.
  apply forallb_forall with (x := length m) in All; [|apply in_seq; lia]. apply negb_true_iff, andb_false_iff in All as [A|A]; apply bool_decide_eq_false in A; apply A.
  - rewrite <- E. rewrite lookup_take_lt by lia. by rewrite lookup_app_r, Nat.sub_diag by lia.
  - rewrite <- E, take_take, Nat.min_l by lia. by rewrite take_app_length.
Qed.

Lemma method_of_ext f g l i : (forall n, n ∈ l -> f n = g n) -> method_of f l i = method_of g l i.
Proof.
  revert i. induction l as [|n l IH]; intros i H; [done|]. cbn. rewrite (H n) by (by left). rewrite IH; [done|]. intros k Hk. apply H. by right.
Qed.

Lemma known_method n x : method_ok n = true ->
  (1 <= length n <= 20)%nat /\ CharsToHttpMethod (n ++ x20 :: x) = CharsToHttpMethod n /\ (CharsToHttpMethod n =? INVALID_METHOD) = false.
Proof.
  unfold method_ok. intros [K%bool_decide_eq_true _]%andb_prop. split; [|split].
  - assert (All : forallb (fun n => (1 <=? length n)%nat && (length n <=? 20)%nat) HTTP_METHOD_MAP = true) by (vm_compute; reflexivity).
    apply forallb_forall with (x := n) in All; [|by apply list_elem_of_In]. apply andb_prop in All as [A B]. apply Nat.leb_le in A. by apply Nat.leb_le in B.
  - apply method_of_ext. intros k Hk. by apply names_apart.
  - assert (All : forallb (fun n => negb (CharsToHttpMethod n =? INVALID_METHOD)) HTTP_METHOD_MAP = true) by (vm_compute; reflexivity).
    apply forallb_forall with (x := n) in All; [|by apply list_elem_of_In]. by apply negb_true_iff in All.
Qed.

Lemma moves_method n r : method_ok n = true -> moves 1 3 (n ++ [x20]) r (setMethod (CharsToHttpMethod n) r).
Proof.
  intros K pre rest m Pm W L. destruct (known_method n rest K) as (Ln & Em & Ev). unfold method_ok in K. apply andb_prop in K as [_ U].
  set (buf := pre ++ (n ++ [x20]) ++ rest). set (p := len pre). pose proof (len_nonneg pre).
  assert (Ls : len (pre ++ n ++ [x20]) = p + len n + 1) by (rewrite !len_app; change (len [x20]) with 1; lia). rewrite Ls in L |- *.
  destruct n as [|c n]; [cbn in Ln; lia|]. cbn [forallb] in U. apply andb_prop in U as [Uc U]. pose proof (len_nonneg n). rewrite len_cons in *. cbn [length] in Ln.
  set (m1 := set_mark p m). set (e := on_method (PTR_TO buf p) (1 + len n)). exists m1, [e]. split; [|split; [done|]; split; [done|]; split].
  - rewrite <- app_assoc. cbn [app]. rewrite (loop_label buf 1 p c _ m 0 [mark] 2 m1 []) by (first [by apply method_starts|done]). rewrite after_nil.
    rewrite (loop_method buf n 1 (p + 1) (x20 :: rest) m1 ltac:(lia) ltac:(lia) U : exec_loop relaxed buf 2 _ _ _ = _).
    rewrite (loop_label buf _ (p + 1 + len n) x20 rest m1 4 [request_method] 3 m1 [e]).
    + do 2 f_equal. lia.
    + apply method_ends. lia.
    + done.
    + done.
    + cbn [perform_all perform rbind app]. unfold e. cbn [hp_mark set_mark m1]. do 3 f_equal. f_equal. unfold LEN. rewrite u64_small; lia.
  - unfold within in *. cbn. lia.
  - intros q Eq Dq. unfold calls, e. cbn [foldl request_callback]. unfold on_request_method, PTR_TO, buf, p, len.
    rewrite Nat2Z.id, drop_app_length, <- app_assoc. change ([x20] ++ rest) with (x20 :: rest). rewrite Em, Ev. unfold set_data. by rewrite Dq, Eq.
Qed.

(** Text with percent signs, in the states of a loop. *)
Lemma uri_text_cons ok c s : uri_text ok (c :: s) =
  if bool_decide (c = x25) then match s with a :: b :: s => xdigit a && xdigit b && uri_text ok s | _ => false end else ok c && uri_text ok s.
Proof. by destruct c. Qed.

Lemma loop_text buf ok st st1 st2 : edge_of relaxed st x25 = Some (St st1) -> (forall c, xdigit c = true -> edge_of relaxed st1 c = Some (St st2)) ->
  (forall c, xdigit c = true -> edge_of relaxed st2 c = Some (St st)) -> (forall c, ok c = true -> edge_of relaxed st c = Some (St st)) ->
  forall s p rest m, uri_text ok s = true -> exec_loop relaxed buf st p (s ++ rest) m = exec_loop relaxed buf st (p + len s) rest m.
Proof.
  intros E E1 E2 Es s. remember (length s) as n eqn:En. revert s En. induction n as [n IH] using lt_wf_ind. intros s En p rest m F.
  destruct s as [|c s]; [unfold len; cbn; by rewrite Z.add_0_r|]. rewrite uri_text_cons in F. cbn [app]. rewrite len_cons. destruct (bool_decide_reflect (c = x25)) as [->|N].
  - destruct s as [|a [|b s]]; try done. apply andb_prop in F as [[Fa Fb]%andb_prop F]. cbn [app]. rewrite (loop_goto _ _ _ _ _ _ _ E), (loop_goto _ _ _ _ _ _ _ (E1 a Fa)), (loop_goto _ _ _ _ _ _ _ (E2 b Fb)).
    rewrite (IH (length s)); [|cbn in En; lia|done|done]. rewrite !len_cons. f_equal. lia.
  - apply andb_prop in F as [Fc F]. rewrite (loop_goto _ _ _ _ _ _ _ (Es c Fc)). rewrite (IH (length s)); [|cbn in En; lia|done|done]. f_equal. lia.
Qed.

(** A path, with the character behind it. *)
Lemma loop_path buf s p rest m : path_ok (x2f :: s) = true ->
  exists st, exec_loop relaxed buf 33 p (s ++ rest) m = exec_loop relaxed buf st (p + len s) rest m /\
    edge_of relaxed st x20 = Some (Tr 37) /\ edge_of relaxed st x3f = Some (Tr 42).
Proof.
  assert (K : forall t q, uri_text uri_char t = true -> exec_loop relaxed buf 26 q (t ++ rest) m = exec_loop relaxed buf 26 (q + len t) rest m).
  { intros t q. apply (loop_text buf uri_char 26 27 28); [done|apply path_digit1|apply path_digit2|apply path_stays]. }
  destruct s as [|c s].
  - intros _. exists 33. unfold len. cbn. by rewrite Z.add_0_r.
  - assert (E : path_ok (x2f :: c :: s) = negb (bool_decide (c = x2f)) && uri_text uri_char (c :: s)) by (by destruct c). rewrite E. clear E.
    intros [N F]%andb_prop. apply negb_true_iff in N. rewrite uri_text_cons in F. exists 26. split; [|done]. cbn [app]. rewrite len_cons.
    destruct (bool_decide_reflect (c = x25)) as [->|Nc].
    + destruct s as [|a [|b s]]; try done. apply andb_prop in F as [[Fa Fb]%andb_prop F]. cbn [app]. rewrite (loop_goto buf 33 p x25 _ m 27) by done.
      rewrite (loop_goto _ _ _ _ _ _ _ (path_digit1 a Fa)), (loop_goto _ _ _ _ _ _ _ (path_digit2 b Fb)), K by done. rewrite !len_cons. f_equal. lia.
    + apply andb_prop in F as [Fc F]. rewrite (loop_goto _ _ _ _ _ _ _ (path_second c Fc N)), K by done. f_equal. lia.
Qed.

Lemma moves_path s d n r : path_ok s = true ->
  (d = x20 /\ n = 4) \/ (d = x3f /\ n = 29) -> moves 3 n (s ++ [d]) r (setPath s r).
Proof.
  intros K Hd pre rest m Pm W L. destruct s as [|c s]; [done|]. assert (c = x2f) as -> by (by destruct c).
  set (buf := pre ++ ((x2f :: s) ++ [d]) ++ rest). set (p := len pre). pose proof (len_nonneg pre). pose proof (len_nonneg s).
  assert (Ls : len (pre ++ (x2f :: s) ++ [d]) = p + len s + 2) by (rewrite !len_app, len_cons; change (len [d]) with 1; lia). rewrite Ls in L |- *.
  set (m1 := set_mark p m). set (e := on_path (PTR_TO buf p) (1 + len s)).
  assert (Len : LEN p (p + 1 + len s) = 1 + len s) by (unfold LEN; rewrite u64_small; lia).
  assert (T : text (PTR_TO buf p) (1 + len s) = x2f :: s) by (rewrite <- (len_cons x2f s); unfold buf; rewrite <- !app_assoc; apply text_at).
  assert (Run : exists st, exec_loop relaxed buf 3 p (((x2f :: s) ++ [d]) ++ rest) m = exec_loop relaxed buf st (p + 1 + len s) (d :: rest) m1 /\
    edge_of relaxed st x20 = Some (Tr 37) /\ edge_of relaxed st x3f = Some (Tr 42)).
  { rewrite <- app_assoc. cbn [app]. rewrite (loop_label buf 3 p x2f _ m 10 [mark] 33 m1 []) by done. rewrite after_nil. by apply loop_path. }
  destruct Run as (st & Run & Sp & Qm).
  assert (Call : forall es, es = [e] \/ es = [e; on_uri (PTR_TO buf p) (1 + len s)] -> forall q, rp_error q = 0 -> rp_data q = r -> calls q es = mkRequestParser (rp_parser q) (setPath (x2f :: s) r) 0).
  { intros es [-> | ->] q Eq Dq; unfold calls, e; cbn [foldl request_callback]; rewrite T; unfold set_data; by rewrite Dq, Eq. }
  exists m1, (if bool_decide (d = x20) then [e; on_uri (PTR_TO buf p) (1 + len s)] else [e]). split; [|split; [done|]; split; [done|]; split].
  - rewrite Run. destruct Hd as [[-> ->]|[-> ->]]; cbn [bool_decide decide_rel].
    + rewrite (loop_label buf st (p + 1 + len s) x20 rest m1 37 [request_path; request_uri] 4 m1 [e; on_uri (PTR_TO buf p) (1 + len s)]).
      * rewrite bool_decide_eq_true_2 by done. do 2 f_equal. lia.
      * done.
      * done.
      * done.
      * cbn [perform_all perform rbind app]. cbn [hp_mark set_mark m1]. by rewrite Len.
    + rewrite (loop_label buf st (p + 1 + len s) x3f rest m1 42 [request_path] 29 m1 [e]).
      * rewrite bool_decide_eq_false_2 by done. do 2 f_equal. lia.
      * done.
      * done.
      * done.
      * cbn [perform_all perform rbind app]. cbn [hp_mark set_mark m1]. by rewrite Len.
  - unfold within in *. cbn. lia.
  - apply Call. case_bool_decide; [by right|by left].
Qed.

(** A query, with the space behind it. *)
Lemma moves_query q r : uri_text query_char q = true -> moves 29 4 (q ++ [x20]) r (setQuery q r).
Proof.
  intros F pre rest m Pm W L. set (buf := pre ++ (q ++ [x20]) ++ rest). set (p := len pre). pose proof (len_nonneg pre). pose proof (len_nonneg q).
  assert (Ls : len (pre ++ q ++ [x20]) = p + len q + 1) by (rewrite !len_app; change (len [x20]) with 1; lia). rewrite Ls in L |- *.
  set (m1 := set_query_start p m). set (es := [on_query (PTR_TO buf p) (len q); on_uri (PTR_TO buf (hp_mark m)) (LEN (hp_mark m) (p + len q))]).
  assert (K : forall t k, uri_text query_char t = true -> exec_loop relaxed buf 30 k (t ++ x20 :: rest) m1 = exec_loop relaxed buf 30 (k + len t) (x20 :: rest) m1).
  { intros t k. apply (loop_text buf query_char 30 31 32); [done|apply query_digit1|apply query_digit2|apply query_stays]. }
  assert (Perf : perform_all buf (p + len q) [query_string; request_uri] m1 = Ok (m1, es)).
  { cbn [perform_all perform rbind]. cbn [hp_query_start hp_mark set_query_start m1]. rewrite LEN_at by lia. replace (string_max_size <? len q) with false by (unfold string_max_size; lia). done. }
  assert (End_ : exec_loop relaxed buf 30 (p + len q) (x20 :: rest) m1 = after es (exec_loop relaxed buf 4 (p + len q + 1) rest m1)) by (by apply (loop_label buf 30 _ x20 rest m1 58 [query_string; request_uri] 4 m1 es)).
  exists m1, es. split; [|split; [done|]; split; [done|]; split].
  - rewrite <- app_assoc. change ([x20] ++ rest) with (x20 :: rest). destruct q as [|c q]; cbn [app].
    + change (len []) with 0 in *. rewrite Z.add_0_r in *. apply (loop_label buf 29 p x20 rest m 54 [start_query; query_string; request_uri] 4 m1 es); [done|done|done|].
      change (perform_all buf p [start_query; query_string; request_uri] m) with (let! (m, l) := perform_all buf p [query_string; request_uri] m1 in Ok (m, [] ++ l)). by rewrite Perf.
    + rewrite uri_text_cons in F. rewrite len_cons in *. rewrite <- End_. destruct (bool_decide_reflect (c = x25)) as [->|Nc].
      * destruct q as [|a [|b q]]; try done. apply andb_prop in F as [[Fa Fb]%andb_prop F]. cbn [app]. rewrite (loop_label buf 29 p x25 _ m 56 [start_query] 31 m1 []) by done.
        rewrite after_nil, (loop_goto _ _ _ _ _ _ _ (query_digit1 a Fa)), (loop_goto _ _ _ _ _ _ _ (query_digit2 b Fb)), K by done. rewrite !len_cons. f_equal. lia.
      * apply andb_prop in F as [Fc F]. rewrite (loop_label buf 29 p c _ m 53 [start_query] 30 m1 []) by (first [by apply query_starts|done]). rewrite after_nil, K by done. f_equal. lia.
  - unfold within in *. cbn. lia.
  - intros k Eq Dq. unfold calls, es. cbn [foldl request_callback]. unfold set_data. rewrite Dq, Eq. do 2 f_equal. unfold buf. rewrite <- !app_assoc. apply text_at.
Qed.

(** The version. *)
Lemma moves_version t r : moves 4 13 (http_version_text t ++ CRLF) r (setVersion (if t_recent t then 0x11 else 0x10) r).
Proof.
  intros pre rest m Pm W L. set (buf := pre ++ (http_version_text t ++ CRLF) ++ rest). set (p := len pre). pose proof (len_nonneg pre).
  assert (Ls : len (pre ++ http_version_text t ++ CRLF) = p + 10) by (rewrite len_app; destruct (t_recent t); done). rewrite Ls in L |- *.
  set (m1 := set_mark p m). set (e := on_version (PTR_TO buf p) 8). exists m1, [e]. split; [|split; [done|]; split; [done|]; split].
  - assert (Et : http_version_text t ++ CRLF = [x48; x54; x54; x50; x2f; x31; x2e; if t_recent t then x31 else x30; x0d; x0a]) by (by unfold http_version_text; destruct (t_recent t)).
    rewrite Et. cbn [app]. rewrite (loop_label buf 4 p x48 _ m 13 [mark] 5 m1 []) by done. rewrite after_nil.
    rewrite (loop_goto buf 5 _ x54 _ m1 6), (loop_goto buf 6 _ x54 _ m1 7), (loop_goto buf 7 _ x50 _ m1 8), (loop_goto buf 8 _ x2f _ m1 9), (loop_goto buf 9 _ x31 _ m1 10), (loop_goto buf 10 _ x2e _ m1 11) by done.
    rewrite (loop_goto buf 11 _ _ _ m1 12) by (by destruct (t_recent t)).
    rewrite (loop_label buf 12 _ x0d _ m1 22 [http_version] 17 m1 [e]); [|done|done|done|].
    + rewrite (loop_goto buf 17 _ x0a rest m1 13) by done. do 2 f_equal. lia.
    + cbn [perform_all perform rbind app]. unfold e. cbn [hp_mark set_mark m1]. do 3 f_equal. f_equal. unfold LEN. rewrite u64_small; lia.
  - unfold within in *. cbn. lia.
  - intros q Eq Dq. unfold calls, e. cbn [foldl request_callback]. unfold on_request_version, PTR_TO, buf, p, len.
    rewrite Nat2Z.id, drop_app_length, <- app_assoc. unfold http_version_text, strncmp_eq.
    destruct (t_recent t); cbn; unfold set_data; by rewrite Dq, Eq.
Qed.

Lemma moves_first t : text_ok t = true -> moves 1 13 (first_line t) (new_HttpRequest 0x11 true) (without_fields t).
Proof.
  intros [[[M P]%andb_prop Q]%andb_prop _]%andb_prop. unfold first_line, target, without_fields. pose proof (moves_version t) as V.
  destruct (t_query t) as [q|]; rewrite ?app_nil_r, <- ?app_assoc.
  - replace (t_method t ++ [x20] ++ t_path t ++ (x3f :: q) ++ [x20] ++ http_version_text t ++ CRLF)
      with ((t_method t ++ [x20]) ++ (t_path t ++ [x3f]) ++ (q ++ [x20]) ++ http_version_text t ++ CRLF) by (by rewrite <- !app_assoc).
    eapply moves_app; [by apply moves_method|]. eapply moves_app; [by apply (moves_path _ x3f 29); [|right]|]. eapply moves_app; [by apply moves_query|apply V].
  - replace (t_method t ++ [x20] ++ t_path t ++ [x20] ++ http_version_text t ++ CRLF)
      with ((t_method t ++ [x20]) ++ (t_path t ++ [x20]) ++ http_version_text t ++ CRLF) by (by rewrite <- !app_assoc).
    eapply moves_app; [by apply moves_method|]. eapply moves_app; [by apply (moves_path _ x20 4); [|left]|apply V].
Qed.

(** The empty line ends the head. *)
Lemma loop_end pre x m : plain m -> exec_loop relaxed (pre ++ CRLF ++ x) 13 (len pre) (CRLF ++ x) m =
  Ok (set_body (len pre + 2) (hp_content_len m) (set_field_start (len pre) m), 348, len pre + 2, [on_header_done]).
Proof.
  intros [Px Pj]. rewrite CRLF_two. cbn [app]. rewrite (loop_label _ 13 (len pre) x0d _ m 25 [start_field] 18 (set_field_start (len pre) m) []) by done. rewrite after_nil.
  assert (Perf : forall buf, perform_all buf (len pre + 1) [done_] (set_field_start (len pre) m) = Ok (set_body (len pre + 2) (hp_content_len m) (set_field_start (len pre) m), [on_header_done])).
  { intros buf. unfold perform_all, perform. cbn [hp_xml_sent hp_json_sent hp_content_len set_field_start]. rewrite Px, Pj. cbn [orb rbind app]. by replace (len pre + 1 + 1) with (len pre + 2) by lia. }
  cbn [exec_loop]. change (edge_of relaxed 18 x0a) with (Some (Tr 36)). cbv beta iota. change (transition 36) with ([done_], 348). cbv beta iota. rewrite Perf. cbn [rbind].
  rewrite bool_decide_eq_true_2 by (by left). by replace (len pre + 1 + 1) with (len pre + 2) by lia.
Qed.

(** *** Calls *)

(** A parser between two calls. *)
Record ready (cs : Z) (r : HttpRequest) (p : HttpRequestParser) : Prop := {
  rd_cs : hp_cs (rp_parser p) = cs;
  rd_plain : plain (rp_parser p);
  rd_body : hp_body_start (rp_parser p) = 0;
  rd_error : rp_error p = 0;
  rd_data : rp_data p = r;
}.

Lemma new_ready : ready 1 (new_HttpRequest 0x11 true) new_HttpRequestParser.
Proof. by split. Qed.

Lemma execute_is x p : execute x p =
  let! (m, n, es) := http11_execute relaxed (rp_parser p) x in
  let p := calls (mkRequestParser m (rp_data p) (rp_error p)) es in
  if (0 <=? n) && (n <=? len x) then Ok (p, n, drop (Z.to_nat n) x) else Crash out_of_bounds.
Proof. reflexivity. Qed.

Lemma execute_lines cs s r r' p : moves cs 13 s r r' -> ready cs r p -> 0 < cs < 348 -> s <> [] -> len s < 2 ^ 62 ->
  exists p1, execute s p = Ok (p1, len s, []) /\ ready 13 r' p1.
Proof.
  intros M [Rc Rp Rb Re Rd] Hc Ns L. assert (Ls : 0 < len s) by (destruct s; [done|rewrite len_cons; pose proof (len_nonneg s); lia]).
  destruct (M [] [] (restart (rp_parser p)) Rp) as (m & es & E & Pm & B & W & C); [unfold within, len; cbn; lia|done|]. cbn [app] in E. rewrite app_nil_r in E. change (len []) with 0 in E.
  rewrite execute_is. unfold http11_execute. replace (len s =? 0) with false by lia. rewrite Rc, E. cbn [exec_loop after rbind].
  replace (cs =? 0) with false by lia. unfold within in W. cbn [app] in W. change (len ([] ++ s)) with (len s). cbn [hp_body_start hp_mark hp_field_len hp_field_start set_cs].
  assert (B0 : hp_body_start m = 0) by (by rewrite B). rewrite B0.
  replace ((len s <=? len s) && (0 <=? len s) && (hp_mark m <? len s) && (hp_field_len m <=? len s) && (hp_field_start m <? len s)) with true by lia.
  cbn [rbind]. replace ((0 <=? len s) && (len s <=? len s)) with true by lia. unfold len at 2. rewrite Nat2Z.id, drop_all. rewrite app_nil_r.
  eexists. split; [reflexivity|]. rewrite (C (mkRequestParser (H := the_machine) (set_cs 13 m) (rp_data p) (rp_error p)) Re Rd). by split.
Qed.

Lemma execute_end cs s r r' p : (moves cs 13 s r r' \/ (s = [] /\ cs = 13 /\ r = r')) -> ready cs r p -> 0 < cs < 348 -> len s < 2 ^ 61 ->
  forall x, exists p', execute ((s ++ CRLF) ++ x) p = Ok (p', len (s ++ CRLF), x) /\ hasError p' = false /\ isFinished p' = true /\ rp_data p' = r'.
Proof.
  intros M [Rc Rp Rb Re Rd] Hc L x. pose proof (len_nonneg s) as Ls. pose proof (len_nonneg x) as Lx.
  assert (Run : exists m es, exec_loop relaxed (s ++ CRLF ++ x) cs 0 (s ++ CRLF ++ x) (restart (rp_parser p)) = after es (exec_loop relaxed (s ++ CRLF ++ x) 13 (len s) (CRLF ++ x) m) /\
    plain m /\ within (len s) m /\ forall q, rp_error q = 0 -> rp_data q = r -> calls q es = mkRequestParser (H := the_machine) (rp_parser q) r' 0).
  { destruct M as [M|(-> & -> & ->)].
    - destruct (M [] (CRLF ++ x) (restart (rp_parser p)) Rp) as (m & es & E & Pm & _ & W & C); [unfold within, len; cbn; lia|cbn [app]; lia|]. exists m, es. split; [exact E|]. split; [done|].
      split; [unfold within in *; cbn [app] in W; lia|done].
    - exists (restart (rp_parser p)), []. rewrite after_nil. split; [done|]. split; [done|]. split; [unfold within; cbn; lia|]. intros [? ? ?] Eq Dq. cbn in *. by subst. }
  destruct Run as (m & es & E & Pm & W & C). rewrite loop_end in E by done. cbn [after rbind] in E.
  assert (Lc : len (s ++ CRLF) = len s + 2) by (by rewrite len_app). assert (Lw : len ((s ++ CRLF) ++ x) = len s + 2 + len x) by (by rewrite len_app, Lc).
  rewrite execute_is. unfold http11_execute. rewrite Lw. replace (len s + 2 + len x =? 0) with false by lia.
  rewrite <- (app_assoc s CRLF x), Rc, E. cbn [rbind]. replace (cs =? 0) with false by lia. unfold within in W.
  cbn [hp_body_start hp_mark hp_field_len hp_field_start set_cs set_body set_field_start].
  replace ((len s + 2 <=? len s + 2 + len x) && (len s + 2 <=? len s + 2 + len x) && (hp_mark m <? len s + 2 + len x) && (hp_field_len m <=? len s + 2 + len x) && (len s <? len s + 2 + len x)) with true by lia.
  cbn [rbind]. replace (len (s ++ CRLF ++ x)) with (len s + 2 + len x) by (by rewrite app_assoc, Lw). replace ((0 <=? len s + 2) && (len s + 2 <=? len s + 2 + len x)) with true by lia.
  unfold calls. rewrite foldl_app. cbn [foldl request_callback]. set (q := mkRequestParser _ _ _). change (foldl (fun p e => request_callback e p) q es) with (calls q es). rewrite (C q Re Rd).
  eexists. split; [|split; [|split]].
  - rewrite Lc. do 2 f_equal. rewrite app_assoc. replace (Z.to_nat (len s + 2)) with (length (s ++ CRLF)) by (rewrite length_app; unfold len; change (length CRLF) with 2%nat; lia). apply drop_app_length.
  - done.
  - done.
  - done.
Qed.

(** *** Heads *)

(** Lines that make a request of what was read before. *)
Inductive script : Z -> HttpRequest -> list (list byte) -> HttpRequest -> Prop :=
  | script_end r : script 13 r [CRLF] r
  | script_line cs r l ls r1 r' : l <> [] -> 0 < cs < 348 -> moves cs 13 l r r1 -> script 13 r1 ls r' -> script cs r (l :: ls) r'.

Lemma script_fields fs : forall r, forallb field_ok fs = true -> script 13 r (map field_line fs ++ [CRLF]) (foldl put_field r fs).
Proof.
  induction fs as [|f fs IH]; intros r F; [constructor|]. cbn in F. apply andb_prop in F as [Ff F]. cbn [map app foldl].
  apply (script_line _ _ _ _ (put_field r f)); [by destruct f as [[|? ?] ?]|lia|by apply moves_field|by apply IH].
Qed.

Lemma script_text t : text_ok t = true -> script 1 (new_HttpRequest 0x11 true) (lines t) (meaning t).
Proof.
  intros K. apply (script_line _ _ _ _ (without_fields t)); [|lia|by apply moves_first|].
  - unfold first_line. by destruct (t_method t).
  - apply script_fields. unfold text_ok in K. by apply andb_prop in K as [_ K].
Qed.

(** Some of the lines, not all. *)
Lemma script_split ls1 : forall cs r ls2 r', ls1 <> [] -> ls2 <> [] -> script cs r (ls1 ++ ls2) r' ->
  exists r1, moves cs 13 (concat ls1) r r1 /\ script 13 r1 ls2 r' /\ 0 < cs < 348 /\ concat ls1 <> [].
Proof.
  induction ls1 as [|l ls1 IH]; intros cs r ls2 r' N1 N2 Sc; [done|]. cbn [app] in Sc. inversion Sc as [|? ? ? ? r1 ? Nl Hc M Sc']; subst; [by destruct ls1, ls2|].
  destruct ls1 as [|l' ls1]; [exists r1; cbn; rewrite app_nil_r; done|]. destruct (IH 13 r1 ls2 r' ltac:(done) N2 Sc') as (r2 & M2 & S2 & _). exists r2. cbn [concat].
  split; [by eapply moves_app|]. split; [done|]. split; [done|]. by destruct l.
Qed.

(** All of them. *)
Lemma script_all ls cs r r' : script cs r ls r' ->
  exists ls1, ls = ls1 ++ [CRLF] /\ 0 < cs < 348 /\ (moves cs 13 (concat ls1) r r' \/ (concat ls1 = [] /\ cs = 13 /\ r = r')).
Proof.
  induction 1 as [r|cs r l ls r1 r' Nl Hc M Sc (ls1 & -> & _ & IH)]; [exists []; split; [done|]; split; [lia|by right]|]. exists (l :: ls1). split; [done|]. split; [done|]. left. cbn [concat].
  destruct IH as [IH|(E & _ & ->)]; [by eapply moves_app|by rewrite E, app_nil_r].
Qed.

Lemma script_accepts gs : forall cs r p r', script cs r (concat gs) r' -> ready cs r p -> gs <> [] -> Forall (fun g => g <> [] /\ len (concat g) < 2 ^ 61) gs ->
  accepts p (map (@concat byte) gs) r'.
Proof.
  induction gs as [|g gs IH]; intros cs r p r' Sc R N F; [done|]. apply list.Forall_cons in F as [[Ng Lg] F]. cbn [concat map] in *. destruct gs as [|g' gs].
  - cbn [concat map] in *. rewrite app_nil_r in Sc. destruct (script_all g cs r r' Sc) as (ls & -> & Hc & M). rewrite concat_app. cbn [concat]. rewrite app_nil_r.
    rewrite concat_app, len_app in Lg. pose proof (len_nonneg (concat [CRLF])). apply accepts_last; [by destruct (concat ls)|]. apply (execute_end cs _ r); [done|done|done|lia].
  - assert (Ng' : concat (g' :: gs) <> []) by (apply list.Forall_cons in F as [[Ng' _] _]; by destruct g').
    destruct (script_split g cs r _ r' Ng Ng' Sc) as (r1 & M & Sc' & Hc & Nc). destruct (execute_lines cs _ r r1 p M R Hc Nc) as (p1 & E & R1); [lia|].
    apply (accepts_more _ _ _ p1); [done|done| | |by apply (IH 13 r1)].
    + unfold hasError. rewrite (rd_error _ _ _ R1). cbn. unfold http11_has_error. by rewrite (rd_cs _ _ _ R1).
    + unfold isFinished. cbn. unfold http11_finish, http11_has_error. by rewrite (rd_cs _ _ _ R1).
Qed.

(** The parser of requests accepts the lines of a request, in any groups of whole lines,
    and reads the request that they are. *)
Lemma http11_accepts t gs : text_ok t = true -> concat gs = lines t -> Forall (fun g => g <> [] /\ len (concat g) < 2 ^ 61) gs ->
  accepts new_HttpRequestParser (map (@concat byte) gs) (meaning t).
Proof.
  intros K E F. apply (script_accepts gs 1 (new_HttpRequest 0x11 true)); [rewrite E; by apply script_text|apply new_ready|by intros ->|done].
Qed.
End runs.

(** ** Lines in two reads

    What the machine has marked is forgotten between two calls ([restart]). A line that
    comes in two reads loses what was read of the element at the cut. *)
Definition in_two_reads (a b : list byte) : res (HttpRequest * bool) :=
  let! (p, _, _) := execute (H := http11 false) a (new_HttpRequestParser (H := http11 false)) in
  let! (p, _, _) := execute (H := http11 false) b p in
  Ok (rp_data (H := http11 false) p, hasError (H := http11 false) p).

(** The method is not known any more; the path is its second part; a header gets a part of
    its name; a header whose value comes in the second read is dropped; a query is cut at
    where it began in the first buffer, or the callback throws. *)
Example split_lines :
  (let! (_, e) := in_two_reads (bstr "GE") (bstr "T /user HTTP/1.1" ++ CRLF ++ CRLF) in Ok e) = Ok true /\
  (let! (r, e) := in_two_reads (bstr "GET /us") (bstr "er HTTP/1.1" ++ CRLF ++ CRLF) in Ok (rq_path r, e)) = Ok (bstr "er", false) /\
  (let! (r, e) := in_two_reads (bstr "GET / HTTP/1.1" ++ CRLF ++ bstr "Content-Len") (bstr "gth: 5" ++ CRLF ++ CRLF) in Ok (rq_headers r, e)) = Ok ([(bstr "gth", bstr "5")], false) /\
  (let! (r, e) := in_two_reads (bstr "GET / HTTP/1.1" ++ CRLF ++ bstr "Content-Length:") (bstr " 5" ++ CRLF ++ CRLF) in Ok (rq_headers r, e)) = Ok ([], false) /\
  (let! (r, e) := in_two_reads (bstr "GET /?token=abc") (bstr "defghij HTTP/1.1" ++ CRLF ++ CRLF) in Ok (rq_query r, e)) = Ok (bstr "j", false) /\
  in_two_reads (bstr "GET /?token=abc") (bstr "d HTTP/1.1" ++ CRLF ++ CRLF) = Throw length_error.
Proof. vm_compute. split_and!; reflexivity. Qed.

(** [HTTP_CTL] is the character 0 less the character 31 and 127, and not the characters 0
    to 31: the name of a header may contain line breaks, and a line without a colon takes
    the next one with it. *)
Example name_of_two_lines :
  (let! (p, _, _) := execute (H := http11 false) (bstr "GET / HTTP/1.1" ++ CRLF ++ bstr "oops" ++ CRLF ++ bstr "Host: a" ++ CRLF ++ CRLF) (new_HttpRequestParser (H := http11 false)) in
   Ok (rq_headers (rp_data (H := http11 false) p), hasError (H := http11 false) p)) = Ok ([(bstr "oops" ++ CRLF ++ bstr "Host", bstr "a")], false).
Proof. vm_compute. reflexivity. Qed.
