(* ===== verification/HttpStreamSpec.v ===== *)
(** HTTP over a stream: a request is framed however its bytes arrive; the data of a chunk
    are; and the head of a chunk is not. *)
From S2P Require Import Prelude Endian CppString Number ByteArray ByteArraySpec Codec Stream StreamSpec ZlibStream Http HttpSpec HttpStream HttpParser HttpParserSpec.

(** ** Heads of requests *)

Section request.
Context {S : Type} `{StreamLaws S, RequestMachine, LexicalCast} (buff_size : Z) (B : 0 < buff_size < 2 ^ 31).

(** The reads of the session deliver these pieces, one after the other. *)
Fixpoint delivers (s : S) (ps : list (list byte)) (s' : S) : Prop :=
  match ps with
  | [] => s' = s
  | p :: ps => exists s1, stream_read buff_size s = (Ok (len p, p), s1) /\ delivers s1 ps s'
  end.

Lemma close_null_ok {A} s v : stream_view s v -> exists s', close_null (A := A) s = (Ok None, s') /\ stream_view s' (mkSview [] (sv_out v) 0).
Proof. intros V. destruct (law_close s v V) as (s' & E & V'). exists s'. unfold close_null. by rewrite (sbind_ok _ _ _ _ _ E). Qed.

Lemma sv_recv_recv m k v : 0 <= m -> 0 <= k -> sv_recv k (sv_recv m v) = sv_recv (m + k) v.
Proof. intros Hm Hk. unfold sv_recv. cbn. rewrite drop_drop. do 2 f_equal. lia. Qed.

Lemma drop_len {A} (x r : list A) : drop (Z.to_nat (len x)) (x ++ r) = r.
Proof. unfold len. by rewrite Nat2Z.id, drop_app_length. Qed.

Lemma len_pos {A} (l : list A) : l <> [] -> 0 < len l.
Proof. destruct l; [done|]. unfold len. cbn. lia. Qed.

(** A piece is what comes next on the connection, and fits the buffer. *)
Lemma read_piece s v p s1 : stream_view s v -> p <> [] -> stream_read buff_size s = (Ok (len p, p), s1) ->
  len p <= buff_size /\ (exists more, sv_in v = p ++ more) /\ stream_view s1 (sv_recv (len p) v).
Proof.
  intros V Np E. pose proof (len_pos p Np) as Lp. destruct (decide (sv_in v = [])) as [Em|Ne].
  - destruct (law_eof buff_size s v V) as (r & s2 & F & E2 & _); [lia|done|]. rewrite E in E2. injection E2 as E2 -> _. unfold failed in F. lia.
  - destruct (law_read buff_size s v V) as (m & s2 & (M1 & M2 & _) & Hm & E2 & V2); [lia|done|]. rewrite E in E2. injection E2 as <- Ep <-.
    split; [done|]. split; [|done]. exists (drop (Z.to_nat (len p)) (sv_in v)). rewrite Ep at 1. by rewrite take_drop.
Qed.

Lemma delivers_view ps : forall s v s', stream_view s v -> Forall (fun p => p <> []) ps -> delivers s ps s' ->
  (exists more, sv_in v = concat ps ++ more) /\ stream_view s' (sv_recv (len (concat ps)) v).
Proof.
  induction ps as [|p ps IH]; intros s v s' V F D; cbn [delivers concat] in *.
  - subst. split; [by eexists|]. change (len []) with 0. by destruct v.
  - apply list.Forall_cons in F as [Np F]. destruct D as (s1 & E & D). destruct (read_piece s v p s1 V Np E) as (_ & (more & Em) & V1).
    destruct (IH s1 _ s' V1 F D) as [(more' & Em') V']. pose proof (len_nonneg p). pose proof (len_nonneg (concat ps)). split.
    + exists more'. cbn in Em'. rewrite Em, drop_len in Em'. by rewrite Em, Em', <- app_assoc.
    + rewrite sv_recv_recv in V' by done. by rewrite len_app.
Qed.

(** The loop of a head that the parser accepts: what the last read has brought beyond it
    stays in the buffer. *)
Lemma recv_head_ok ps : forall fuel p g x r s v s', stream_view s v -> accepts p (ps ++ [g]) r -> delivers s (ps ++ [g ++ x]) s' -> (length ps < fuel)%nat ->
  exists p', recv_head buff_size fuel p [] s = (Ok (Some (p', x)), s') /\ rp_data p' = r /\
    (exists more, sv_in v = concat ps ++ g ++ x ++ more) /\ len x < buff_size /\ stream_view s' (sv_recv (len (concat ps ++ g) + len x) v).
Proof.
  assert (S32 : s32 buff_size = buff_size) by (apply s32_small; lia).
  induction ps as [|a ps IH]; intros fuel p g x r s v s' V Ac D Lf; (destruct fuel as [|fuel]; [lia|]); cbn [app] in *; cbn [recv_head];
    replace (u64 (buff_size - len (@nil byte))) with buff_size by (unfold len; cbn; rewrite u64_small; lia).
  - destruct D as (s1 & E & ->). inversion Ac as [p0 g0 r0 Ng Fin|p0 g0 gs0 p1 r0 Ng Ex He Hf Ac']; subst; [|inversion Ac'].
    assert (Ngx : g ++ x <> []) by (by destruct g). destruct (read_piece s v _ s1 V Ngx E) as (L & (more & Em) & V1). pose proof (len_pos _ Ngx) as Lp. pose proof (len_pos g Ng) as Lg.
    rewrite (sbind_ok _ _ _ _ _ E). replace (len (g ++ x) <=? 0) with false by lia. cbn [app]. unfold lift at 1.
    destruct (Fin x) as (p' & Ep & He & Hf & Hd). rewrite (sbind_ok _ _ s1 _ s1 (f_equal2 pair Ep eq_refl)). rewrite len_app in *. rewrite He, Hf, S32.
    replace (len x =? buff_size) with false by lia. exists p'. split; [done|]. split; [done|]. split; [exists more; cbn; by rewrite app_assoc|]. split; [lia|]. cbn [concat app]. done.
  - destruct D as (s1 & E & D). inversion Ac as [p0 g0 r0 Ng Fin|p0 g0 gs0 p1 r0 Na Ex He Hf Ac']; subst; [by destruct ps|].
    destruct (read_piece s v a s1 V Na E) as (L & (more & Em) & V1). pose proof (len_pos a Na) as La.
    rewrite (sbind_ok _ _ _ _ _ E). replace (len a <=? 0) with false by lia. unfold lift at 1. rewrite (sbind_ok _ _ s1 _ s1 (f_equal2 pair Ex eq_refl)).
    rewrite He, Hf, S32. replace (len (@nil byte) =? buff_size) with false by (unfold len; cbn; lia).
    destruct (IH fuel p1 g x r s1 _ s' V1 Ac' D) as (p' & E' & Hd & (more' & Em') & Lx & V'); [cbn in Lf; lia|]. exists p'. split; [done|]. split; [done|].
    pose proof (len_nonneg x). pose proof (len_nonneg (concat ps ++ g)). split; [|split; [done|]].
    + exists more'. cbn in Em'. rewrite Em, drop_len in Em'. cbn [concat]. by rewrite Em, Em', <- app_assoc.
    + rewrite sv_recv_recv in V' by lia. cbn [concat]. rewrite <- app_assoc, len_app. by replace (len a + len (concat ps ++ g) + len x) with (len a + (len (concat ps ++ g) + len x)) by lia.
Qed.

(** The connection ends before the head does. *)
Lemma recv_head_eof ps : forall fuel p gs r s v s', stream_view s v -> gs <> [] -> accepts p (ps ++ gs) r -> delivers s ps s' -> sv_in v = concat ps -> (length ps < fuel)%nat ->
  exists s2, recv_head buff_size fuel p [] s = (Ok None, s2) /\ stream_view s2 (mkSview [] (sv_out v) 0).
Proof.
  assert (S32 : s32 buff_size = buff_size) by (apply s32_small; lia).
  induction ps as [|a ps IH]; intros fuel p gs r s v s' V Ngs Ac D Ein Lf; (destruct fuel as [|fuel]; [lia|]); cbn [app] in *; cbn [recv_head];
    replace (u64 (buff_size - len (@nil byte))) with buff_size by (unfold len; cbn; rewrite u64_small; lia).
  - cbn in Ein. destruct (law_eof buff_size s v V) as (n & s1 & F & E & V1); [lia|done|]. rewrite (sbind_ok _ _ _ _ _ E).
    replace (n <=? 0) with true by (unfold failed in F; lia). by apply close_null_ok.
  - destruct D as (s1 & E & D). inversion Ac as [p0 g0 r0 Ng Fin|p0 g0 gs0 p1 r0 Na Ex He Hf Ac']; subst; [by destruct ps, gs|].
    destruct (read_piece s v a s1 V Na E) as (L & (more & Em) & V1). pose proof (len_pos a Na) as La.
    rewrite (sbind_ok _ _ _ _ _ E). replace (len a <=? 0) with false by lia. unfold lift at 1. rewrite (sbind_ok _ _ s1 _ s1 (f_equal2 pair Ex eq_refl)).
    rewrite He, Hf, S32. replace (len (@nil byte) =? buff_size) with false by (unfold len; cbn; lia).
    destruct (IH fuel p1 gs r s1 _ s' V1 Ngs Ac' D) as (s2 & E2 & V2); [|cbn in Lf; lia|by exists s2]. cbn. rewrite Ein. cbn [concat]. by rewrite drop_len.
Qed.

(** ** Bodies *)

Lemma recv_body_ok n k s v0 rest : stream_view s (sv_recv k v0) -> sv_in v0 = rest -> 0 <= k <= len rest -> 0 < n <= len rest -> n - k < 2 ^ 31 -> n <= string_max_size ->
  exists s', recv_body n (take (Z.to_nat k) rest) s = (Ok (Some (take (Z.to_nat n) rest)), s') /\ stream_view s' (sv_recv (Z.max n k) v0).
Proof.
  intros V Ein Hk Hn Hb Hs. unfold recv_body. replace (string_max_size <? n) with false by lia.
  assert (Lk : len (take (Z.to_nat k) rest) = k) by (apply len_take; lia). rewrite Lk. destruct (Z.leb_spec n k).
  - exists s. rewrite take_take. replace (Z.to_nat n `min` Z.to_nat k)%nat with (Z.to_nat n) by lia. split; [done|]. by replace (Z.max n k) with k by lia.
  - destruct (readFixSize_ok (n - k) s _ V) as (s' & E & V'); [cbn; rewrite Ein, len_drop; lia|done|].
    rewrite (sbind_ok _ _ _ _ _ E). replace (n - k <=? 0) with false by lia. exists s'. split.
    + cbn. rewrite Ein. by rewrite take_take_drop' by lia.
    + rewrite sv_recv_recv in V' by lia. by replace (Z.max n k) with (k + (n - k)) by lia.
Qed.

Lemma recv_body_short n k s v0 rest : stream_view s (sv_recv k v0) -> sv_in v0 = rest -> 0 <= k <= len rest -> len rest < n < 2 ^ 31 ->
  exists s', recv_body n (take (Z.to_nat k) rest) s = (Ok None, s') /\ stream_view s' (mkSview [] (sv_out v0) 0).
Proof.
  intros V Ein Hk Hn. unfold recv_body. replace (string_max_size <? n) with false by (unfold string_max_size; lia).
  assert (Lk : len (take (Z.to_nat k) rest) = k) by (apply len_take; lia). rewrite Lk. replace (n <=? k) with false by lia.
  destruct (readFixSize_short (n - k) s _ V) as (r & s' & F & E & V'); [cbn; rewrite Ein, len_drop; lia|].
  rewrite (sbind_ok _ _ _ _ _ E). replace (r <=? 0) with true by (unfold failed in F; lia).
  destruct (close_null_ok (A := list byte) s' _ V') as (s2 & E2 & V2). exists s2. by split.
Qed.

(** ** Requests *)

(** The length that a request announces, and the request with the body when there is one. *)
Definition content_length (r : HttpRequest) : Z := s64 (get_u64 (bstr "content-length") (rq_headers r)).
Definition request_of (r : HttpRequest) (rest : list byte) : HttpRequest :=
  let n := content_length r in if 0 <? n then setBody (take (Z.to_nat n) rest) r else r.

Lemma recvRequest_ok ps g x r rest s v s1 fuel : stream_view s v -> accepts new_HttpRequestParser (ps ++ [g]) r -> delivers s (ps ++ [g ++ x]) s1 -> (length ps < fuel)%nat ->
  sv_in v = concat ps ++ g ++ rest ->
  let n := content_length r in let h := len (concat ps ++ g) in len x <= len rest /\
  (n <= 0 -> exists s', recvRequest buff_size fuel s = (Ok (Some r), s') /\ stream_view s' (sv_recv (h + len x) v)) /\
  (0 < n <= len rest -> n < 2 ^ 31 ->
     exists s', recvRequest buff_size fuel s = (Ok (Some (setBody (take (Z.to_nat n) rest) r)), s') /\ stream_view s' (sv_recv (h + Z.max n (len x)) v)) /\
  (len rest < n < 2 ^ 31 -> exists s', recvRequest buff_size fuel s = (Ok None, s') /\ stream_view s' (mkSview [] (sv_out v) 0)).
Proof.
  intros V Ac D Lf Ein n h. destruct (recv_head_ok ps fuel _ g x r s v s1 V Ac D Lf) as (p & E & Hd & (more & Em) & Lx & V1).
  assert (Er : rest = x ++ more) by (rewrite Ein in Em; by apply app_inv_head, app_inv_head in Em). pose proof (len_nonneg x) as Lx0.
  assert (Lr : len rest = len x + len more) by (by rewrite Er, len_app). pose proof (len_nonneg more). split; [lia|].
  unfold recvRequest. rewrite (sbind_ok _ _ _ _ _ E). change (s64 (getContentLength p)) with (content_length (rp_data p)). rewrite Hd. fold n. pose proof (len_nonneg (concat ps ++ g)) as Lh. fold h in Lh, V1.
  assert (V2 : stream_view s1 (sv_recv (len x) (sv_recv h v))) by (by rewrite sv_recv_recv by lia).
  assert (Ein2 : sv_in (sv_recv h v) = rest) by (cbn; unfold h; rewrite Ein, app_assoc, drop_len; done).
  assert (Ex : x = take (Z.to_nat (len x)) rest) by (rewrite Er; unfold len; by rewrite Nat2Z.id, take_app_length).
  split; [|split].
  - intros Hn. replace (0 <? n) with false by lia. by exists s1.
  - intros Hn Hb. replace (0 <? n) with true by lia.
    destruct (recv_body_ok n (len x) s1 _ rest V2 Ein2) as (s2 & E2 & V3); [lia|lia|lia|unfold string_max_size; lia|].
    rewrite <- Ex in E2. rewrite (sbind_ok _ _ _ _ _ E2). exists s2. split; [done|]. by rewrite sv_recv_recv in V3 by lia.
  - intros Hn. replace (0 <? n) with true by lia.
    destruct (recv_body_short n (len x) s1 _ rest V2 Ein2) as (s2 & E2 & V3); [lia|lia|]. rewrite <- Ex in E2. rewrite (sbind_ok _ _ _ _ _ E2). by exists s2.
Qed.

Lemma recvRequest_eof ps gs r s v s1 fuel : stream_view s v -> gs <> [] -> accepts new_HttpRequestParser (ps ++ gs) r -> delivers s ps s1 -> sv_in v = concat ps -> (length ps < fuel)%nat ->
  exists s', recvRequest buff_size fuel s = (Ok None, s') /\ stream_view s' (mkSview [] (sv_out v) 0).
Proof.
  intros V N Ac D Ein Lf. destruct (recv_head_eof ps fuel _ gs r s v s1 V N Ac D Ein Lf) as (s2 & E & V2).
  unfold recvRequest. rewrite (sbind_ok _ _ _ _ _ E). by exists s2.
Qed.

(** The whole request is there. *)
Lemma recvRequest_whole ps g x r rest s v s1 fuel : stream_view s v -> accepts new_HttpRequestParser (ps ++ [g]) r -> delivers s (ps ++ [g ++ x]) s1 -> (length ps < fuel)%nat ->
  sv_in v = concat ps ++ g ++ rest -> content_length r <= len rest -> content_length r < 2 ^ 31 ->
  exists k s', recvRequest buff_size fuel s = (Ok (Some (request_of r rest)), s') /\ stream_view s' (sv_recv k v).
Proof.
  intros V Ac D Lf Ein F1 F2. destruct (recvRequest_ok ps g x r rest s v s1 fuel V Ac D Lf Ein) as (_ & None_ & Some_ & _).
  unfold request_of. destruct (Z.ltb_spec 0 (content_length r)) as [P|N]; [destruct Some_ as (s' & E & V'); [lia|lia|]|destruct None_ as (s' & E & V'); [lia|]].
  all: eexists _, s'; split; [exact E|exact V'].
Qed.
End request.

(** ** Chunks *)

Section chunks.
Context {S : Type} `{StreamLaws S, ResponseMachine, LexicalCast} (buff_size : Z) (B : 0 < buff_size < 2 ^ 31).

Lemma chunk_left_ok fuel : forall left body s v, stream_view s v -> 0 <= left <= len (sv_in v) -> (Z.to_nat left <= fuel)%nat ->
  exists s', chunk_left buff_size fuel left body s = (Ok (Some (body ++ take (Z.to_nat left) (sv_in v))), s') /\ stream_view s' (sv_recv left v).
Proof.
  assert (S32 : s32 buff_size = buff_size) by (apply s32_small; lia).
  induction fuel as [|fuel IH]; intros left body s v V Hl Lf; cbn [chunk_left].
  - replace left with 0 by lia. exists s. cbn. rewrite app_nil_r. split; [done|]. by destruct v.
  - destruct (Z.ltb_spec 0 left) as [P|N]; cbn [negb].
    2:{ replace left with 0 by lia. exists s. cbn. rewrite app_nil_r. split; [done|]. by destruct v. }
    rewrite S32. set (k := if buff_size <? left then buff_size else left).
    assert (Hk : 0 < k <= left) by (unfold k; destruct (Z.ltb_spec buff_size left); lia).
    destruct (law_read k s v V) as (m & s1 & (M1 & M2 & M3) & Hm & E & V1); [lia|apply len_nonempty; lia|].
    rewrite (sbind_ok _ _ _ _ _ E). replace (m <=? 0) with false by lia.
    destruct (IH (left - m) (body ++ take (Z.to_nat m) (sv_in v)) s1 _ V1) as (s' & E' & V'); [cbn; rewrite len_drop; lia|lia|].
    exists s'. rewrite E'. cbn. rewrite <- app_assoc, take_take_drop' by lia. split; [done|].
    rewrite sv_recv_recv in V' by lia. by replace (m + (left - m)) with left in V' by lia.
Qed.

(** The data of a chunk are those between its head and the two bytes after them,
    wherever the reads have cut. *)
Lemma chunk_data_ok fuel d e rest body data s v : stream_view s v -> data ++ sv_in v = d ++ e ++ rest -> len e = 2 -> len d + 2 < 2 ^ 31 -> (length d + 2 <= fuel)%nat ->
  exists data' s' v', chunk_data buff_size fuel (len d) body data s = (Ok (Some (body ++ d, data')), s') /\ stream_view s' v' /\
    data' ++ sv_in v' = rest /\ sv_out v' = sv_out v /\ (len d + 2 <= len data -> data' = drop (Z.to_nat (len d + 2)) data /\ s' = s).
Proof.
  intros V Eq Le Ld Lf. unfold chunk_data. pose proof (len_nonneg d). replace (2 ^ 31 <=? len d + 2) with false by lia.
  assert (Tot : len data + len (sv_in v) = len d + 2 + len rest) by (rewrite <- Le, <- len_app, Eq, !len_app; lia).
  pose proof (len_nonneg rest). destruct (Z.leb_spec (len d + 2) (len data)) as [In|Out].
  - replace (len d <? 0) with false by lia. exists (drop (Z.to_nat (len d + 2)) data), s, v.
    assert (Td : take (Z.to_nat (len d)) data = d).
    { assert (T : take (length d) (data ++ sv_in v) = d) by (by rewrite Eq, take_app_length). rewrite take_app_le in T by (unfold len in *; lia).
      unfold len. by rewrite Nat2Z.id. }
    rewrite Td. split; [done|]. split; [done|]. split; [|done].
    assert (T : drop (length d + length e) (data ++ sv_in v) = rest) by (rewrite Eq, app_assoc, <- length_app, drop_app_length; done).
    rewrite drop_app_le in T by (unfold len in *; lia). rewrite <- T. do 2 f_equal. unfold len in *. lia.
  - destruct (chunk_left_ok fuel (len d - len data + 2) (body ++ data) s v V) as (s' & E & V'); [lia|unfold len in *; lia|].
    rewrite (sbind_ok _ _ _ _ _ E). set (x := take (Z.to_nat (len d - len data + 2)) (sv_in v)) in *.
    assert (Ex : data ++ x = d ++ e).
    { assert (T : take (length d + length e) (data ++ sv_in v) = d ++ e) by (rewrite Eq, app_assoc, <- length_app, take_app_length; done).
      rewrite take_app_ge in T by (unfold len in *; lia). rewrite <- T. unfold x. do 2 f_equal. unfold len in *. lia. }
    assert (Lb : len ((body ++ data) ++ x) = len body + len d + 2) by (rewrite <- app_assoc, Ex, !len_app; lia). pose proof (len_nonneg body).
    replace (len ((body ++ data) ++ x) <? 2) with false by lia. exists [], s', (sv_recv (len d - len data + 2) v). split.
    + assert (Tb : take (length ((body ++ data) ++ x) - 2) ((body ++ data) ++ x) = body ++ d); [|by rewrite Tb].
      rewrite <- app_assoc, Ex, app_assoc. rewrite take_app_le by (rewrite !length_app; unfold len in *; lia).
      apply take_ge. rewrite !length_app. unfold len in *. lia.
    + split; [done|]. split; [|split; [done|lia]]. cbn.
      assert (T : drop (length d + length e) (data ++ sv_in v) = rest) by (rewrite Eq, app_assoc, <- length_app, drop_app_length; done).
      rewrite drop_app_ge in T by (unfold len in *; lia). rewrite <- T. f_equal. unfold len in *. lia.
Qed.

(** A chunk: its head, its data, and whether it is the last. *)
Record chunk := mkChunk { c_head : list byte; c_data : list byte; c_last : bool }.

(** The parser reads the head of the chunk when it is all in the buffer. *)
Definition chunk_ok (c : chunk) : Prop :=
  c_head c <> [] /\ len (c_data c) + 2 < 2 ^ 31 /\
  forall p r, sp_error p = 0 -> exists p', rsp_execute (c_head c ++ r) true p = Ok (p', r) /\ sp_error p' = 0 /\ rsp_hasError p' = false /\ rsp_isFinished p' = true /\
    content_len (sp_parser p') = len (c_data c) /\ chunks_done (sp_parser p') = c_last c.

Definition written (cs : list chunk) : list byte := concat (map (fun c => c_head c ++ c_data c ++ CRLF) cs).

Lemma chunk_head_ok c fuel p r s : (0 < fuel)%nat -> chunk_ok c -> len r < buff_size -> sp_error p = 0 ->
  exists p', chunk_head buff_size fuel true p (c_head c ++ r) s = (Ok (Some (p', r)), s) /\ sp_error p' = 0 /\
    content_len (sp_parser p') = len (c_data c) /\ chunks_done (sp_parser p') = c_last c.
Proof.
  intros Lf (Nh & _ & Ex) Lr E0. destruct fuel as [|fuel]; [lia|]. destruct (Ex p r E0) as (p' & E & E0' & He & Hf & Hn & Hd). exists p'. split; [|done].
  assert (S32 : s32 buff_size = buff_size) by (apply s32_small; lia). cbn [chunk_head negb orb].
  assert (Ne : is_empty (c_head c ++ r) = false) by (by destruct (c_head c)). rewrite Ne.
  rewrite (sbind_ok (sret (Some (c_head c ++ r))) _ s _ s eq_refl). unfold lift, sbind. rewrite E, He, Hf, S32.
  by replace (len r =? buff_size) with false by lia.
Qed.

(** Chunks that have all been read into the buffer. *)
Lemma recv_chunks_ok cs : forall fuel p body rest s v, stream_view s v -> Forall chunk_ok cs ->
  match rev cs with [] => False | c :: l => c_last c = true /\ Forall (fun c => c_last c = false) l end ->
  len (written cs ++ rest) <= buff_size -> (length (written cs) + 2 <= fuel)%nat -> sp_error p = 0 ->
  exists p', recv_chunks buff_size fuel p body (written cs ++ rest) s = (Ok (Some (p', body ++ concat (map c_data cs))), s).
Proof.
  induction cs as [|c cs IH]; intros fuel p body rest s v V Ok_ La Lb Lf E0; [done|]. apply list.Forall_cons in Ok_ as [Oc Ok_].
  pose proof Oc as (Nh & Ld & _). destruct fuel as [|fuel]; [lia|]. cbn [recv_chunks].
  assert (Ew : written (c :: cs) ++ rest = c_head c ++ (c_data c ++ CRLF ++ written cs ++ rest)) by (unfold written; cbn; by rewrite <- !app_assoc).
  assert (Lw : length (written (c :: cs)) = (length (c_head c) + length (c_data c) + 2 + length (written cs))%nat) by (unfold written; cbn; rewrite !length_app; cbn; lia).
  pose proof (len_pos _ Nh) as Lh. rewrite Ew in Lb |- *. rewrite len_app in Lb.
  destruct (chunk_head_ok c fuel p (c_data c ++ CRLF ++ written cs ++ rest) s ltac:(lia) Oc) as (p' & E & E0' & Hn & Hd); [lia|done|].
  rewrite (sbind_ok _ _ _ _ _ E), Hn.
  destruct (chunk_data_ok fuel (c_data c) CRLF (written cs ++ rest ++ sv_in v) body (c_data c ++ CRLF ++ written cs ++ rest) s v V) as (data' & s' & v' & E2 & _ & _ & _ & In).
  { by rewrite <- !app_assoc. } { done. } { done. } { lia. }
  destruct In as [-> ->]; [pose proof (len_nonneg (written cs)); pose proof (len_nonneg rest); rewrite !len_app; change (len CRLF) with 2; lia|].
  rewrite (sbind_ok _ _ _ _ _ E2), Hd.
  replace (drop (Z.to_nat (len (c_data c) + 2)) (c_data c ++ CRLF ++ written cs ++ rest)) with (written cs ++ rest).
  2:{ rewrite app_assoc. rewrite drop_app_ge by (rewrite length_app; unfold len; cbn; lia).
      replace (Z.to_nat _ - _)%nat with 0%nat by (rewrite length_app; unfold len; cbn; lia). done. }
  cbn [map concat]. destruct cs as [|c' cs].
  - cbn in La. destruct La as [-> _]. exists p'. cbn. by rewrite app_nil_r.
  - assert (Lc : c_last c = false /\ match rev (c' :: cs) with [] => False | c :: l => c_last c = true /\ Forall (fun c => c_last c = false) l end).
    { cbn [rev] in La |- *. destruct (rev cs ++ [c']) as [|z l] eqn:Er; [by destruct (rev cs)|]. cbn in La. destruct La as [? F]. apply list.Forall_app in F as [F Fc].
      apply list.Forall_cons in Fc as [? _]. done. }
    destruct Lc as [-> La']. destruct (IH fuel p' (body ++ c_data c) rest s v V Ok_ La') as (p2 & E3); [rewrite !len_app in Lb; rewrite len_app; unfold len in *; cbn in *; lia|lia|done|].
    exists p2. rewrite E3. by rewrite <- app_assoc.
Qed.
End chunks.

(** ** The properties *)

(** Pieces that are whole lines of a head are accepted. *)
Lemma head_accepts relaxed t gs g : text_ok t = true -> len (concat (lines t)) < 2 ^ 61 -> Forall (fun g => g <> []) gs -> g <> [] -> concat gs ++ g = lines t ->
  accepts (H := http11 relaxed) (new_HttpRequestParser (H := http11 relaxed)) (map (@concat byte) gs ++ [concat g]) (meaning t).
Proof.
  intros K L F Ng E. replace (map (@concat byte) gs ++ [concat g]) with (map (@concat byte) (gs ++ [g])) by (by rewrite map_app). apply http11_accepts; [done| |].
  - rewrite concat_app, <- E. cbn [concat]. by rewrite app_nil_r.
  - apply list.Forall_app. split; [|constructor; [|constructor]].
    + apply list.Forall_forall. intros k Hk. split; [by apply (Forall_elem _ _ _ F)|].
      apply list_elem_of_split in Hk as (l1 & l2 & ->). rewrite <- E, !concat_app in L. cbn [concat] in L. rewrite !concat_app in L. rewrite !len_app in L.
      pose proof (len_nonneg (concat (concat l1))). pose proof (len_nonneg (concat (concat l2))). pose proof (len_nonneg (concat g)). lia.
    + split; [done|]. rewrite <- E, concat_app, len_app in L. pose proof (len_nonneg (concat (concat gs))). lia.
Qed.

Lemma concat_concat (gs : list (list (list byte))) : concat (map (@concat byte) gs) = concat (concat gs).
Proof. induction gs as [|g gs IH]; [done|]. cbn. by rewrite IH, concat_app. Qed.

Section requests.
Context {S : Type} `{StreamLaws S, LexicalCast} (relaxed : bool) (buff_size : Z).
#[local] Instance parser : RequestMachine := http11 relaxed.

(** C18: a request is received. When a connection brings a request that is written as it
    should ([text_ok]: a known method, a path, a query, headers), and no read of its head
    ends inside of a line, the session returns that request: its method, path, query,
    version and headers, and for a body exactly the bytes after the head, as many as it
    announces, however these arrive; what was read ahead and is no part of the body is
    dropped. When the connection ends before the body is complete, or behind some of the
    lines of the head, nothing is returned and it is closed. (A read that ends inside of a
    line spoils the request: the parser loses what it has marked,
    [HttpParserSpec.split_lines].) *)
Theorem Http_recvRequest (t : request_text) (gs : list (list (list byte))) (s s1 : S) (v : sview) (fuel : nat) :
  0 < buff_size < 2 ^ 31 -> stream_view s v -> text_ok t = true -> len (concat (lines t)) < 2 ^ 61 -> Forall (fun g => g <> []) gs -> (length gs < fuel)%nat ->
  (forall g x rest, g <> [] -> concat gs ++ g = lines t -> delivers buff_size s (map (@concat byte) gs ++ [concat g ++ x]) s1 -> sv_in v = concat (lines t) ++ rest ->
     let r := meaning t in let n := content_length r in let h := len (concat (lines t)) in
     (n <= 0 -> exists s', recvRequest buff_size fuel s = (Ok (Some r), s') /\ stream_view s' (sv_recv (h + len x) v)) /\
     (0 < n <= len rest -> n < 2 ^ 31 ->
        exists s', recvRequest buff_size fuel s = (Ok (Some (setBody (take (Z.to_nat n) rest) r)), s') /\ stream_view s' (sv_recv (h + Z.max n (len x)) v)) /\
     (len rest < n < 2 ^ 31 -> exists s', recvRequest buff_size fuel s = (Ok None, s') /\ stream_view s' (mkSview [] (sv_out v) 0))) /\
  (forall ls, ls <> [] -> concat gs ++ ls = lines t -> delivers buff_size s (map (@concat byte) gs) s1 -> sv_in v = concat (concat gs) ->
     exists s', recvRequest buff_size fuel s = (Ok None, s') /\ stream_view s' (mkSview [] (sv_out v) 0)).
Proof.
  intros B V K L F Lf. split.
  - intros g x rest Ng E D Ein. pose proof (head_accepts relaxed t gs g K L F Ng E) as Ac. rewrite <- E, concat_app, <- concat_concat in Ein |- *.
    rewrite <- app_assoc in Ein. by destruct (recvRequest_ok buff_size B _ _ x _ rest s v s1 fuel V Ac D) as (_ & R); [by rewrite length_map|done|].
  - intros ls Nl E D Ein. pose proof (head_accepts relaxed t gs ls K L F Nl E) as Ac.
    apply (recvRequest_eof buff_size B _ _ _ s v s1 fuel V) with (3 := D) in Ac; [done|done|by rewrite concat_concat|by rewrite length_map].
Qed.
End requests.

(** a chunked body. The data of a chunk are the bytes between its head and the two
    after them, wherever the reads have cut, and the buffer and the stream go on behind
    them; chunks that are all in the buffer give their data in order. *)
Theorem Http_chunks {S : Type} `{StreamLaws S, ResponseMachine, LexicalCast} (buff_size : Z) (s : S) (v : sview) (body : list byte) :
  0 < buff_size < 2 ^ 31 -> stream_view s v ->
  (forall d data rest fuel, data ++ sv_in v = d ++ CRLF ++ rest -> len d + 2 < 2 ^ 31 -> (length d + 2 <= fuel)%nat ->
     exists data' s' v', chunk_data buff_size fuel (len d) body data s = (Ok (Some (body ++ d, data')), s') /\ stream_view s' v' /\ data' ++ sv_in v' = rest) /\
  (forall cs c p rest fuel, Forall chunk_ok (cs ++ [c]) -> Forall (fun c => c_last c = false) cs -> c_last c = true ->
     len (written (cs ++ [c]) ++ rest) <= buff_size -> (length (written (cs ++ [c])) + 2 <= fuel)%nat -> sp_error p = 0 ->
     exists p', recv_chunks buff_size fuel p body (written (cs ++ [c]) ++ rest) s = (Ok (Some (p', body ++ concat (map c_data (cs ++ [c])))), s)).
Proof.
  intros B V. split.
  - intros d data rest fuel Eq Ld Lf. destruct (chunk_data_ok buff_size B fuel d CRLF rest body data s v V Eq eq_refl Ld Lf) as (data' & s' & v' & E & V' & Er & _).
    by exists data', s', v'.
  - intros cs c p rest fuel Ok_ Nl La Lb Lf E0. apply (recv_chunks_ok buff_size B (cs ++ [c]) fuel p body rest s v V Ok_); [|done|done|done].
    rewrite rev_app_distr. cbn. split; [done|]. apply list.Forall_forall. intros x Hx%list_elem_of_In%in_rev%list_elem_of_In. by apply (Forall_elem _ _ _ Nl).
Qed.

(** ** Runs *)

Section witnesses.
#[local] Existing Instance x86_host.
#[local] Instance no_heap : Heap := zero_heap.
#[local] Instance read_lexical : LexicalCast := read_dec.

(** A request in two reads, of which the second brings one byte of the body. *)
Definition demo_text : request_text := mkText (bstr "POST") (bstr "/users") None true [(bstr "Content-Length", bstr "5")].
Definition demo_in : sview := mkSview (concat (lines demo_text) ++ bstr "helloPOST") [] 200.

Lemma Http_recvRequest_witness : exists s', recvRequest (H0 := http11 false) (S := SocketStream MemKernel) 64 2 (mem_stream demo_in 22) =
  (Ok (Some (setBody (bstr "hello") (meaning demo_text))), s') /\ stream_view s' (sv_recv 48 demo_in).
Proof.
  destruct (Http_recvRequest (S := SocketStream MemKernel) false 64 demo_text [[first_line demo_text]] (mem_stream demo_in 22)
    (mem_stream (sv_recv 44 demo_in) 22) demo_in 2) as [R _]; [lia|apply mem_stream_view|reflexivity|reflexivity|by repeat constructor|cbn; lia|].
  destruct (R [field_line (bstr "Content-Length", bstr "5"); CRLF] (bstr "h") (bstr "helloPOST")) as (_ & Whole & _); [done|reflexivity|by repeat eexists|reflexivity|].
  destruct Whole as (s' & E & V); [vm_compute; split; [reflexivity|discriminate]|reflexivity|]. exists s'. split; [exact E|exact V].
Defined.

(** A chunk has its size in hexadecimal digits before a semicolon. *)
Fixpoint find_mark (c : byte) (s : list byte) : option nat :=
  match s with [] => None | d :: s => if bool_decide (d = c) then Some 0%nat else option_map S (find_mark c s) end.

Lemma find_mark_app c a r : find_mark c a = None -> find_mark c (a ++ c :: r) = Some (length a).
Proof.
induction a as [|d a IH]; cbn; [by rewrite bool_decide_true|]. case_bool_decide; [done|]. intros E. destruct (find_mark c a); [done|]. by rewrite IH.
Qed.

#[local] Instance mark_chunks : ResponseMachine := {
httpclient_parser := Z * bool;
httpclient_parser_init _ := (0, false);
httpclient_parser_new := (0, false);
httpclient_parser_execute m s :=
  match find_mark x3b s with
  | Some i => (fold_left (fun n c => 16 * n + (b2z c - 48)) (take i s) (fst m), true, Z.of_nat i + 1, [])
  | None => (fold_left (fun n c => 16 * n + (b2z c - 48)) s (fst m), false, len s, [])
  end;
httpclient_parser_finish m := if snd m : bool then 1 else 0;
httpclient_parser_has_error _ := false;
content_len := fst;
chunked _ := true;
chunks_done m := fst m =? 0;
}.

(** Anything without a semicolon, and a semicolon, is the head of a chunk. *)
Lemma mark_chunk_ok a d : find_mark x3b a = None -> fold_left (fun n c => 16 * n + (b2z c - 48)) a 0 = len d -> len d + 2 < 2 ^ 31 ->
chunk_ok (mkChunk (a ++ [x3b]) d (len d =? 0)).
Proof.
intros Na Ed Ld. split; [by destruct a|]. split; [done|]. intros p r E0. eexists. unfold rsp_execute. cbn [c_head c_data c_last httpclient_parser_execute mark_chunks].
rewrite <- app_assoc. cbn [app]. rewrite (find_mark_app _ _ _ Na), take_app_length. cbn [fst httpclient_parser_init foldl sp_parser sp_data sp_error].
assert (L : Z.of_nat (length a) + 1 = len (a ++ [x3b])) by (unfold len; rewrite length_app; cbn; lia). rewrite L. match goal with |- context [fold_left ?f a ?z] => change z with 0; change f with (fun n c => 16 * n + (b2z c - 48)) end. rewrite Ed.
replace (a ++ x3b :: r) with ((a ++ [x3b]) ++ r) by (by rewrite <- app_assoc).
replace ((0 <=? len (a ++ [x3b])) && (len (a ++ [x3b]) <=? len ((a ++ [x3b]) ++ r))) with true by (rewrite (len_app (a ++ [x3b])); unfold len; lia).
rewrite drop_len. split; [reflexivity|]. split; [done|]. unfold rsp_hasError. cbn. by rewrite E0.
Qed.

Lemma Http_chunks_witness : exists p', recv_chunks (S := SocketStream MemKernel) 64 40 new_HttpResponseParser [] (bstr "5;hello" ++ CRLF ++ bstr "2;ab" ++ CRLF ++ bstr "0;" ++ CRLF) (mem_stream demo_in 4) =
(Ok (Some (p', bstr "helloab")), mem_stream demo_in 4).
Proof.
destruct (Http_chunks (S := SocketStream MemKernel) 64 (mem_stream demo_in 4) demo_in []) as [_ C]; [lia|apply mem_stream_view|].
apply (C [mkChunk (bstr "5;") (bstr "hello") false; mkChunk (bstr "2;") (bstr "ab") false] (mkChunk (bstr "0;") [] true) new_HttpResponseParser [] 40%nat);
  [|repeat constructor|reflexivity|vm_compute; discriminate|vm_compute; lia|reflexivity].
constructor; [apply (mark_chunk_ok (bstr "5")); done|]. constructor; [apply (mark_chunk_ok (bstr "2")); done|]. constructor; [apply (mark_chunk_ok (bstr "0")); done|constructor].
Defined.

(** The head of a chunk that comes in two reads is misread: the state machine starts anew
  for the second, the size of which the client takes. *)
Example split_chunk_head :
match chunk_head (S := SocketStream MemKernel) 64 10 true new_HttpResponseParser [] (mem_stream (mkSview (bstr "12;") [] 100) 1),
      chunk_head (S := SocketStream MemKernel) 64 10 true new_HttpResponseParser [] (mem_stream (mkSview (bstr "12;") [] 100) 4) with
| (Ok (Some (p, _)), _), (Ok (Some (q, _)), _) => (content_len (sp_parser p), content_len (sp_parser q)) = (0, 18)
| _, _ => False
end.
Proof. vm_compute. reflexivity. Qed.
End witnesses.
