(* ===== verification/HttpServer.v ===== *)
(** Servers and clients over HTTP sessions: the loop of the HTTP server
    (src/http/http_server.cpp), the handshake and the loop of the websocket server
    (src/http/ws_session.cpp, ws_server.cpp), and the requests of a client
    (src/http/http_connection.cpp, ws_connection.cpp).

    A servlet is a parameter: it works on the stream and on a state [A] of its own, and may
    change the request and the response. [sha1sum] is OpenSSL's. What the host does when a
    client asks for an address, a socket and a connection is an argument of the client's
    operations, the stream that is there when all goes well. The texts that go with an error
    code are left out. *)
From S2P Require Import Prelude Endian CppString Number HashUtil ByteArray Codec Stream ZlibStream Http HttpStream WebSocket.

(** [boost::lexical_cast<int>], None where it throws. *)
Class LexicalCastInt := lexical_cast_int : list byte -> option Z.

(** ** The HTTP server *)

Section http_server.
Context {S : Type} `{Stream S, RequestMachine, LexicalCast} (buff_size : Z).
Context {A T : Type} (fnmatch : list byte -> list byte -> bool)
  (servlet_handle : T -> A -> HttpRequest -> HttpResponse -> st S (A * Z * HttpRequest * HttpResponse)).

(** [ServletDispatch::handle]; a servlet may be null. *)
Definition dispatch_handle (d : ServletDispatch (Servlet := option T)) (a : A) (request : HttpRequest) (response : HttpResponse) : st S (A * Z * HttpRequest * HttpResponse) :=
  match getMatchedServlet fnmatch (rq_path request) d with
  | Some slt =>
      let* (a, _, request, response) := servlet_handle slt a request response in
      sret (a, 0, request, response)
  | None => sret (a, 0, request, response)
  end.

(** The loop of [HttpServer::handleClient]; [fuel] bounds the requests, and the reads of
    each. *)
Fixpoint serve (fuel : nat) (keepalive : bool) (name : list byte) (d : ServletDispatch (Servlet := option T)) (a : A) : st S A :=
  match fuel with
  | O => scrash nontermination
  | Datatypes.S fuel =>
      let* req := recvRequest buff_size fuel in
      match req with
      | None => sret a
      | Some req =>
          let rsp := rsp_setHeader (bstr "Server") name (new_HttpResponse (rq_version req) (rq_close req || negb keepalive)) in
          let* (a, _, req, rsp) := dispatch_handle d a req rsp in
          let* _ := sendResponse rsp in
          if negb keepalive || rq_close req then sret a else serve fuel keepalive name d a
      end
  end.

(** [HttpServer::handleClient] *)
Definition handleClient (fuel : nat) (keepalive : bool) (name : list byte) (d : ServletDispatch (Servlet := option T)) (a : A) : st S A :=
  let* a := serve fuel keepalive name d a in
  let* _ := stream_close in
  sret a.
End http_server.

(** ** The websocket server *)

Definition SWITCHING_PROTOCOLS : Z := 101.
Definition handshake_guid : list byte := bstr "258EAFA5-E914-47DA-95CA-C5AB0DC85B11".

(** The answer to a handshake. *)
Definition handshake_response (req : HttpRequest) (v : list byte) : HttpResponse :=
  let rsp := request_createResponse req in
  let rsp := setStatus SWITCHING_PROTOCOLS rsp in
  let rsp := rsp_setWebsocket true rsp in
  let rsp := setReason (bstr "Web Socket Protocol Handshake") rsp in
  let rsp := rsp_setHeader (bstr "Upgrade") (bstr "websocket") rsp in
  let rsp := rsp_setHeader (bstr "Connection") (bstr "Upgrade") rsp in
  rsp_setHeader (bstr "Sec-WebSocket-Accept") v rsp.

Section ws_server.
Context {S : Type} `{Stream S, RequestMachine, LexicalCast, LexicalCastInt} {host : Host} (buff_size : Z)
  (sha1sum : list byte -> list byte).

(** [getHeaderAs<int>(key)] *)
Definition get_int (key : list byte) (m : MapType) : Z :=
  match map_find key m with Some v => default 0 (lexical_cast_int v) | None => 0 end.

(** [WSSession::handleShake] *)
Definition handleShake (fuel : nat) : st S (option HttpRequest) :=
  let* req := recvRequest buff_size fuel in
  match req with
  | None => sret None
  | Some req =>
      if negb (strcasecmp (getHeader (bstr "Upgrade") [] req) (bstr "websocket") =? 0) then sret None
      else if negb (strcasecmp (getHeader (bstr "Connection") [] req) (bstr "Upgrade") =? 0) then sret None
      else if negb (get_int (bstr "Sec-webSocket-Version") (rq_headers req) =? 13) then sret None
      else
        let key := getHeader (bstr "Sec-WebSocket-Key") [] req in
        if is_empty key then sret None
        else
          let* v := lift (base64encode (sha1sum (key ++ handshake_guid))) in
          let req := setWebsocket true req in
          let* _ := sendResponse (handshake_response req v) in
          sret (Some req)
  end.

Context {A T W : Type} (fnmatch : list byte -> list byte -> bool) (as_WSServlet : T -> option W)
  (onConnect : W -> A -> HttpRequest -> st S (A * Z))
  (ws_handle : W -> A -> HttpRequest -> WSFrameMessage -> st S (A * Z))
  (onClose : W -> A -> HttpRequest -> st S (A * Z)).

(** [WSServletDispatch::getWSServlet] *)
Definition getWSServlet (uri : list byte) (d : ServletDispatch (Servlet := option T)) : option W :=
  match getMatchedServlet fnmatch uri d with Some slt => as_WSServlet slt | None => None end.

(** The loop over the messages; [fuel] bounds them, and the frames of each. *)
Fixpoint ws_messages (fuel : nat) (max_size : Z) (w : W) (header : HttpRequest) (a : A) : st S A :=
  match fuel with
  | O => scrash nontermination
  | Datatypes.S fuel' =>
      let* msg := WSRecvMessage fuel max_size false in
      match msg with
      | None => sret a
      | Some msg =>
          let* (a, rt) := ws_handle w a header msg in
          if negb (rt =? 0) then sret a else ws_messages fuel' max_size w header a
      end
  end.

(** [WSServer::handleClient] *)
Definition ws_handleClient (fuel : nat) (max_size : Z) (d : ServletDispatch (Servlet := option T)) (a : A) : st S A :=
  let* a :=
    let* header := handleShake fuel in
    match header with
    | None => sret a
    | Some header =>
        match getWSServlet (rq_path header) d with
        | None => sret a
        | Some w =>
            let* (a, rt) := onConnect w a header in
            if negb (rt =? 0) then sret a
            else
              let* a := ws_messages fuel max_size w header a in
              let* (a, _) := onClose w a header in
              sret a
        end
    end in
  let* _ := stream_close in
  sret a.
End ws_server.

(** ** Clients *)

(** What is read of a [Uri]. *)
Record Uri := mkUri { u_scheme : list byte; u_host : list byte; u_path : list byte; u_query : list byte; u_fragment : list byte; u_port : Z }.

Definition Uri_getPath (u : Uri) : list byte := if is_empty (u_path u) then bstr "/" else u_path u.

Definition Uri_getPort (u : Uri) : Z :=
  if negb (u_port u =? 0) then u_port u
  else if bool_decide (u_scheme u = bstr "http") || bool_decide (u_scheme u = bstr "ws") then 80
  else if bool_decide (u_scheme u = bstr "https") || bool_decide (u_scheme u = bstr "wss") then 443
  else u_port u.

Inductive Error :=
  | OK | INVALID_URL | INVALID_HOST | CONNECT_FAIL | SEND_CLOSE_BY_PEER | SEND_SOCKET_ERROR
  | TIMEOUT | CREATE_SOCKET_ERROR | POOL_GET_CONNECTION | POOL_INVALID_CONNECTION | NOT_WEBSOCKET.

Definition error_code (e : Error) : Z :=
  match e with
  | OK => 0 | INVALID_URL => 1 | INVALID_HOST => 2 | CONNECT_FAIL => 3 | SEND_CLOSE_BY_PEER => 4 | SEND_SOCKET_ERROR => 5
  | TIMEOUT => 6 | CREATE_SOCKET_ERROR => 7 | POOL_GET_CONNECTION => 8 | POOL_INVALID_CONNECTION => 9 | NOT_WEBSOCKET => 50
  end.

Record HttpResult := mkResult { result : Z; response : option HttpResponse }.
Definition fails (e : Error) : HttpResult := mkResult (error_code e) None.

(** The loop over the headers of a request: the request and [has_host]. *)
Fixpoint put_headers (headers : list (list byte * list byte)) (has_host : bool) (req : HttpRequest) : HttpRequest * bool :=
  match headers with
  | [] => (req, has_host)
  | (k, v) :: headers =>
      if strcasecmp k (bstr "connection") =? 0 then
        put_headers headers has_host (if strcasecmp v (bstr "keep-alive") =? 0 then setClose false req else req)
      else
        put_headers headers (if negb has_host && (strcasecmp k (bstr "host") =? 0) then negb (is_empty v) else has_host) (setHeader k v req)
  end.

(** The request that [HttpConnection::DoRequest] makes. *)
Definition make_request (method : Z) (uri : Uri) (headers : list (list byte * list byte)) (body : list byte) : HttpRequest :=
  let req := setMethod method (setFragment (u_fragment uri) (setQuery (u_query uri) (setPath (Uri_getPath uri) (new_HttpRequest 0x11 true)))) in
  let (req, has_host) := put_headers headers false req in
  let req := if has_host then req else setHeader (bstr "Host") (u_host uri) req in
  setBody body req.

(** The request that [HttpConnectionPool::doRequest] makes. *)
Definition make_pool_request (m_host m_vhost : list byte) (method : Z) (url : list byte) (headers : list (list byte * list byte)) (body : list byte) : HttpRequest :=
  let req := setClose false (setMethod method (setPath url (new_HttpRequest 0x11 true))) in
  let (req, has_host) := put_headers headers false req in
  let req := if has_host then req else setHeader (bstr "Host") (if is_empty m_vhost then m_host else m_vhost) req in
  setBody body req.

(** The path, the query and the fragment of a URI as [doGet(uri)] puts them together. *)
Definition uri_text (u : Uri) : list byte :=
  Uri_getPath u ++ (if is_empty (u_query u) then [] else bstr "?") ++ u_query u ++ (if is_empty (u_fragment u) then [] else bstr "#") ++ u_fragment u.

Section client.
Context {S : Type} `{Stream S, ResponseMachine, LexicalCast} {Zs : Type} `{Zlib Zs} (buff_size : Z).

(** Sending a request and receiving its response. *)
Definition exchange (fuel : nat) (req : HttpRequest) : st S HttpResult :=
  let* rt := sendRequest req in
  if rt =? 0 then sret (fails SEND_CLOSE_BY_PEER)
  else if rt <? 0 then sret (fails SEND_SOCKET_ERROR)
  else
    let* rsp := recvResponse buff_size fuel in
    match rsp with
    | None => sret (fails TIMEOUT)
    | Some rsp => sret (mkResult (error_code OK) (Some rsp))
    end.

(** What the host answers on the way to a connection. *)
Inductive Dial := no_address | no_socket | no_connection | dialled (s : S).

(** [HttpConnection::DoRequest]: the result, and the connection that was used. *)
Definition DoRequest (fuel : nat) (dial : Dial) (req : HttpRequest) : res HttpResult * option S :=
  match dial with
  | no_address => (Ok (fails INVALID_HOST), None)
  | no_socket => (Ok (fails CREATE_SOCKET_ERROR), None)
  | no_connection => (Ok (fails CONNECT_FAIL), None)
  | dialled s => let '(r, s) := exchange fuel req s in (r, Some s)
  end.

(** The headers of the request of a websocket client: the request, [has_host], [has_conn]. *)
Fixpoint put_ws_headers (headers : list (list byte * list byte)) (has_host has_conn : bool) (req : HttpRequest) : HttpRequest * bool * bool :=
  match headers with
  | [] => (req, has_host, has_conn)
  | (k, v) :: headers =>
      let conn := strcasecmp k (bstr "connection") =? 0 in
      put_ws_headers headers
        (if negb conn && negb has_host && (strcasecmp k (bstr "host") =? 0) then negb (is_empty v) else has_host)
        (conn || has_conn) (setHeader k v req)
  end.

(** The request of [WSConnection::Create], with sixteen random bytes for a key. *)
Definition ws_request (uri : Uri) (headers : list (list byte * list byte)) (random : list byte) : res HttpRequest :=
  let req := setMethod METHOD_GET (setFragment (u_fragment uri) (setQuery (u_query uri) (setPath (Uri_getPath uri) (new_HttpRequest 0x11 true)))) in
  let '(req, has_host, has_conn) := put_ws_headers headers false false req in
  let req := setWebsocket true req in
  let req := if has_conn then req else setHeader (bstr "connection") (bstr "Upgrade") req in
  let req := setHeader (bstr "Upgrade") (bstr "websocket") req in
  let req := setHeader (bstr "Sec-webSocket-Version") (bstr "13") req in
  let! key := base64encode random in
  let req := setHeader (bstr "Sec-webSocket-Key") key req in
  Ok (if has_host then req else setHeader (bstr "Host") (u_host uri) req).

(** [WSConnection::Create]: the result, and whether a websocket is returned. *)
Definition ws_exchange (fuel : nat) (uri : Uri) (headers : list (list byte * list byte)) (random : list byte) : st S (HttpResult * bool) :=
  let* req := lift (ws_request uri headers random) in
  let* r := exchange fuel req in
  match response r with
  | None => sret (r, false)
  | Some rsp => if rs_status rsp =? SWITCHING_PROTOCOLS then sret (r, true) else sret (mkResult (error_code NOT_WEBSOCKET) (Some rsp), false)
  end.

Definition WSConnection_Create (fuel : nat) (dial : Dial) (uri : Uri) (headers : list (list byte * list byte)) (random : list byte) : res (HttpResult * bool) * option S :=
  match dial with
  | no_address => (Ok (fails INVALID_HOST, false), None)
  | no_socket => (Ok (fails CREATE_SOCKET_ERROR, false), None)
  | no_connection => (Ok (fails CONNECT_FAIL, false), None)
  | dialled s => let '(r, s) := ws_exchange fuel uri headers random s in (r, Some s)
  end.
End client.
