(* ===== verification/HttpServerSpec.v ===== *)
(** Servers over HTTP sessions: a connection serves one request; the handshake of a
    websocket; the messages of a websocket are handled in their order; and the requests a
    client makes. *)
From S2P Require Import Prelude Endian CppString Number HashUtil HashUtilSpec ByteArray Codec Stream StreamSpec ZlibStream Http HttpSpec HttpStream HttpParser HttpParserSpec HttpStreamSpec WebSocket WebSocketSpec HttpServer.

(** ** The HTTP server *)

Section http_server.
Context {S : Type} `{StreamLaws S, RequestMachine, LexicalCast} (buff_size : Z) (B : 0 < buff_size < 2 ^ 31).
Context {A T : Type} (fnmatch : list byte -> list byte -> bool) (f : T -> A -> HttpRequest -> HttpResponse -> A * Z * HttpRequest * HttpResponse).

(** Servlets that work on the request, the response and their state only. *)
Definition pure_handle (t : T) (a : A) (req : HttpRequest) (rsp : HttpResponse) : st S (A * Z * HttpRequest * HttpResponse) := sret (f t a req rsp).

(** No header of a request says that the connection stays. *)
Lemma fields_close fs : forall r, rq_close (foldl put_field r fs) = rq_close r.
Proof. induction fs as [|y fs IH]; intros r; [done|]. cbn. by rewrite IH. Qed.

Lemma meaning_close x : rq_close (meaning x) = true.
Proof. unfold meaning, without_fields. rewrite fields_close. by destruct (t_query x). Qed.

Lemma request_of_close r rest : rq_close (request_of r rest) = rq_close r.
Proof. unfold request_of. by destruct (0 <? _). Qed.

(** What the server makes of a request: the state of the servlets and the response. *)
Definition answer (keepalive : bool) (name : list byte) (d : ServletDispatch (Servlet := option T)) (a : A) (req : HttpRequest) : A * HttpResponse :=
  let rsp := rsp_setHeader (bstr "Server") name (new_HttpResponse (rq_version req) (rq_close req || negb keepalive)) in
  match getMatchedServlet fnmatch (rq_path req) d with
  | Some slt => let '(a, _, _, rsp) := f slt a req rsp in (a, rsp)
  | None => (a, rsp)
  end.

Lemma dispatch_answer keepalive name d a req (s : S) : (forall t a req rsp, rq_close (snd (fst (f t a req rsp))) = rq_close req) ->
  exists z req', dispatch_handle fnmatch pure_handle d a req (rsp_setHeader (bstr "Server") name (new_HttpResponse (rq_version req) (rq_close req || negb keepalive))) s =
    (Ok (fst (answer keepalive name d a req), z, req', snd (answer keepalive name d a req)), s) /\ rq_close req' = rq_close req.
Proof.
  intros L. unfold dispatch_handle, answer. destruct (getMatchedServlet fnmatch (rq_path req) d) as [t|]; [|by eexists _, _].
  set (rsp := rsp_setHeader _ _ _). specialize (L t a req rsp). unfold pure_handle, sbind, sret. destruct (f t a req rsp) as [[[a' z] req'] rsp']. by exists 0, req'.
Qed.

Lemma close_ok {C} (c : C) (s : S) v : stream_view s v -> exists s', (let* _ := stream_close in sret c) s = (Ok c, s') /\ stream_view s' (mkSview [] (sv_out v) 0).
Proof. intros V. destruct (law_close s v V) as (s' & E & V'). exists s'. by rewrite (sbind_ok _ _ _ _ _ E). Qed.

(** A connection whose request is received, and one that ends before. *)
Lemma serves fuel keepalive name d a r k (s s1 : S) v :
  (forall t a req rsp, rq_close (snd (fst (f t a req rsp))) = rq_close req) -> rq_close r = true ->
  recvRequest buff_size fuel s = (Ok (Some r), s1) -> stream_view s1 (sv_recv k v) -> let out := answer keepalive name d a r in
  len (dump_response (snd out)) <= sv_room v -> len (dump_response (snd out)) < 2 ^ 31 ->
  exists s', handleClient buff_size fnmatch pure_handle (1 + fuel) keepalive name d a s = (Ok (fst out), s') /\ stream_view s' (mkSview [] (sv_out v ++ dump_response (snd out)) 0).
Proof.
  intros Keep C E V1 out Lr Lm. destruct (dispatch_answer keepalive name d a r s1 Keep) as (z & req' & E2 & C'). fold out in E2.
  destruct (writeFixSize_ok (dump_response (snd out)) s1 _ V1) as (s2 & E3 & V3); [done|done|]. unfold handleClient. cbn [Nat.add serve].
  destruct (close_ok (fst out) s2 _ V3) as (s3 & E4 & V4). exists s3. split; [|done].
  rewrite (sbind_ok _ _ s (fst out) s2); [exact E4|]. rewrite (sbind_ok _ _ _ _ _ E), (sbind_ok _ _ _ _ _ E2). unfold sendResponse.
  rewrite (sbind_ok _ _ _ _ _ E3). by rewrite C', C, orb_true_r.
Qed.

Lemma serves_nothing fuel keepalive name d a (s s1 : S) v : recvRequest buff_size fuel s = (Ok None, s1) -> stream_view s1 v ->
  exists s', handleClient buff_size fnmatch pure_handle (1 + fuel) keepalive name d a s = (Ok a, s') /\ stream_view s' (mkSview [] (sv_out v) 0).
Proof.
  intros E V1. unfold handleClient. cbn [Nat.add serve]. destruct (close_ok a s1 _ V1) as (s2 & E2 & V2). exists s2. split; [|done].
  rewrite (sbind_ok _ _ s a s1); [exact E2|]. by rewrite (sbind_ok _ _ _ _ _ E).
Qed.
End http_server.

Section http_requests.
Context {S : Type} `{StreamLaws S, LexicalCast} (relaxed : bool) (buff_size : Z).
#[local] Instance parser : RequestMachine := http11 relaxed.

(** C19: a connection to the HTTP server serves one request, whether the server keeps
    connections alive or not. A request that is written as it should, and whose head is
    not cut inside of a line (see C18), goes with its body, however that arrives, to the
    servlet of its path; what the servlet makes of the response is sent, and the connection
    is closed, because no header of a request ever says that it stays. When the connection
    ends before the body is complete, or behind some of the lines of the head, no servlet
    is asked and nothing is sent. *)
Theorem Http_server {A T : Type} (fnmatch : list byte -> list byte -> bool)
    (f : T -> A -> HttpRequest -> HttpResponse -> A * Z * HttpRequest * HttpResponse) (t : request_text) (gs : list (list (list byte))) (s s1 : S) (v : sview) (fuel : nat)
    (keepalive : bool) (name : list byte) (d : ServletDispatch (Servlet := option T)) (a : A) :
  0 < buff_size < 2 ^ 31 -> stream_view s v -> text_ok t = true -> len (concat (lines t)) < 2 ^ 61 -> Forall (fun g => g <> []) gs -> (length gs < fuel)%nat ->
  (forall t a req rsp, rq_close (snd (fst (f t a req rsp))) = rq_close req) ->
  let run := handleClient buff_size fnmatch (pure_handle f) (1 + fuel) keepalive name d a s in
  (forall g x rest, g <> [] -> concat gs ++ g = lines t -> delivers buff_size s (map (@concat byte) gs ++ [concat g ++ x]) s1 -> sv_in v = concat (lines t) ++ rest -> content_length (meaning t) < 2 ^ 31 ->
     let out := answer fnmatch f keepalive name d a (request_of (meaning t) rest) in
     (content_length (meaning t) <= len rest -> len (dump_response (snd out)) <= sv_room v -> len (dump_response (snd out)) < 2 ^ 31 ->
        exists s', run = (Ok (fst out), s') /\ stream_view s' (mkSview [] (sv_out v ++ dump_response (snd out)) 0)) /\
     (len rest < content_length (meaning t) -> exists s', run = (Ok a, s') /\ stream_view s' (mkSview [] (sv_out v) 0))) /\
  (forall ls, ls <> [] -> concat gs ++ ls = lines t -> delivers buff_size s (map (@concat byte) gs) s1 -> sv_in v = concat (concat gs) ->
     exists s', run = (Ok a, s') /\ stream_view s' (mkSview [] (sv_out v) 0)).
Proof.
  intros B V K L F Lf Keep run. split.
  - intros g x rest Ng E D Ein L31 out. pose proof (head_accepts relaxed t gs g K L F Ng E) as Ac. rewrite <- E, concat_app, <- concat_concat, <- app_assoc in Ein.
    assert (Lf' : (length (map (@concat byte) gs) < fuel)%nat) by (by rewrite length_map). split.
    + intros Fit Lr Lm. destruct (recvRequest_whole buff_size B _ _ x _ rest s v s1 fuel V Ac D Lf' Ein Fit L31) as (k & s2 & E2 & V2).
      by apply (serves buff_size fnmatch f fuel keepalive name d a (request_of (meaning t) rest) k s s2 v); try done; rewrite request_of_close, meaning_close.
    + intros Short. destruct (recvRequest_ok buff_size B _ _ x _ rest s v s1 fuel V Ac D Lf' Ein) as (_ & _ & _ & Cut). destruct Cut as (s2 & E2 & V2); [lia|].
      by apply (serves_nothing buff_size fnmatch f fuel keepalive name d a s s2 _ E2 V2).
  - intros ls Nl E D Ein. pose proof (head_accepts relaxed t gs ls K L F Nl E) as Ac.
    destruct (recvRequest_eof buff_size B _ [concat ls] _ s v s1 fuel V ltac:(done) Ac D) as (s2 & E2 & V2); [by rewrite concat_concat|by rewrite length_map|].
    by apply (serves_nothing buff_size fnmatch f fuel keepalive name d a s s2 _ E2 V2).
Qed.
End http_requests.

(** ** The websocket server *)

Section ws_server.
Context {S : Type} `{StreamLaws S, RequestMachine, LexicalCast, LexicalCastInt} {host : Host} (buff_size : Z) (B : 0 < buff_size < 2 ^ 31) (sha1sum : list byte -> list byte).

(** What the request of a handshake has to say. *)
Definition asks_websocket (req : HttpRequest) : Prop :=
  fold (getHeader (bstr "Upgrade") [] req) = fold (bstr "websocket") /\ fold (getHeader (bstr "Connection") [] req) = fold (bstr "Upgrade") /\
  get_int (bstr "Sec-webSocket-Version") (rq_headers req) = 13 /\ getHeader (bstr "Sec-WebSocket-Key") [] req <> [].

(** The text of the answer. *)
Definition handshake_text (req : HttpRequest) : list byte :=
  version_text (rq_version req) ++ bstr " 101 Web Socket Protocol Handshake" ++ CRLF ++
  bstr "Connection: Upgrade" ++ CRLF ++
  bstr "Sec-WebSocket-Accept: " ++ b64 (sha1sum (getHeader (bstr "Sec-WebSocket-Key") [] req ++ handshake_guid)) ++ CRLF ++
  bstr "Upgrade: websocket" ++ CRLF ++ CRLF.

Lemma dump_handshake req v : dump_response (handshake_response req v) =
  version_text (rq_version req) ++ bstr " 101 Web Socket Protocol Handshake" ++ CRLF ++ bstr "Connection: Upgrade" ++ CRLF ++
  bstr "Sec-WebSocket-Accept: " ++ v ++ CRLF ++ bstr "Upgrade: websocket" ++ CRLF ++ CRLF.
Proof.
  unfold dump_response, header_lines, header_line, handshake_response, request_createResponse.
  replace (rs_headers _) with [(bstr "Connection", bstr "Upgrade"); (bstr "Sec-WebSocket-Accept", v); (bstr "Upgrade", bstr "websocket")] by reflexivity.
  cbn [rs_version rs_status rs_reason rs_websocket rs_cookies rs_body rs_close rsp_setHeader rsp_setHeaders setReason rsp_setWebsocket setStatus new_HttpResponse map concat fst snd negb andb app].
  rewrite <- !app_assoc. reflexivity.
Qed.

Lemma asks_tests req : asks_websocket req <->
  negb (strcasecmp (getHeader (bstr "Upgrade") [] req) (bstr "websocket") =? 0) = false /\
  negb (strcasecmp (getHeader (bstr "Connection") [] req) (bstr "Upgrade") =? 0) = false /\
  negb (get_int (bstr "Sec-webSocket-Version") (rq_headers req) =? 13) = false /\ is_empty (getHeader (bstr "Sec-WebSocket-Key") [] req) = false.
Proof.
  unfold asks_websocket. rewrite !negb_false_iff, !Z.eqb_eq, !strcasecmp_eq.
  assert (E : forall k : list byte, is_empty k = false <-> k <> []) by (by intros []). by rewrite E.
Qed.

Lemma handleShake_ok req fuel s s1 v k : recvRequest buff_size fuel s = (Ok (Some req), s1) -> stream_view s1 (sv_recv k v) ->
  (asks_websocket req -> len (handshake_text req) <= sv_room v -> len (handshake_text req) < 2 ^ 31 ->
     exists s', handleShake buff_size sha1sum fuel s = (Ok (Some (setWebsocket true req)), s') /\ stream_view s' (sv_send (handshake_text req) (sv_recv k v))) /\
  (~ asks_websocket req -> exists s', handleShake buff_size sha1sum fuel s = (Ok None, s') /\ stream_view s' (sv_recv k v)).
Proof.
  intros E V1. unfold handleShake. rewrite (sbind_ok _ _ _ _ _ E). split.
  - intros (-> & -> & -> & ->)%asks_tests Lr Lm. rewrite base64encode_spec. set (x := b64 _).
    rewrite (sbind_ok (lift (Ok x)) _ s1 x s1 eq_refl). unfold sendResponse.
    assert (T : dump_response (handshake_response (setWebsocket true req) x) = handshake_text req) by apply dump_handshake.
    rewrite T. destruct (writeFixSize_ok (handshake_text req) s1 _ V1) as (s2 & E2 & V2); [done|done|]. rewrite (sbind_ok _ _ _ _ _ E2). by exists s2.
  - intros N. exists s1. split; [|done]. rewrite asks_tests in N. repeat case_match; try done. destruct N. by destruct (is_empty _).
Qed.

Context {A W : Type} (g : W -> A -> HttpRequest -> WSFrameMessage -> A * Z).

Definition pure_messages (w : W) (a : A) (req : HttpRequest) (m : WSFrameMessage) : st S (A * Z) := sret (g w a req m).

(** A message: its opcode and its fragments with their masks. *)
Definition message_of (m : Z * list (Z * list byte)) : WSFrameMessage := mkWSFrameMessage (fst m) (ws_payload (snd m)).
Definition sent_by_client (ms : list (Z * list (Z * list byte))) : list byte := concat (map (fun m => ws_fragments true (fst m) (snd m)) ms).

Definition message_ok (max : Z) (m : Z * list (Z * list byte)) : Prop :=
  (fst m = TEXT_FRAME \/ fst m = BIN_FRAME) /\ snd m <> [] /\ Forall (fun p => 0 < len (snd p)) (snd m) /\ len (ws_payload (snd m)) < max.

(** Messages in their order, until one is refused: the state, and what is later. *)
Fixpoint handled (w : W) (header : HttpRequest) (a : A) (ms : list (Z * list (Z * list byte))) : A * list (Z * list (Z * list byte)) * bool :=
  match ms with
  | [] => (a, [], false)
  | m :: ms => let (a, rt) := g w a header (message_of m) in if rt =? 0 then handled w header a ms else (a, ms, true)
  end.

Lemma recv_message fuel max m s v rest : stream_view s v -> sv_in v = ws_fragments true (fst m) (snd m) ++ rest -> message_ok max m -> max <= 2 ^ 31 ->
  (length (snd m) <= fuel)%nat ->
  exists s', WSRecvMessage fuel max false s = (Ok (Some (message_of m)), s') /\ stream_view s' (mkSview rest (sv_out v) (sv_room v)).
Proof.
  intros V Ein (O & N & D & L) M F. destruct (recv_fragments max true (snd m) fuel 0 (fst m) [] s v rest V N Ein) as (s' & E & V'); [by destruct O as [-> | ->]|done|exact L|done|done|].
  exists s'. split; [|exact V']. change (len []) with 0 in E. unfold WSRecvMessage. change (negb true) with false in E. rewrite (sbind_ok _ _ _ _ _ E).
  unfold message_of. by destruct O as [-> | ->].
Qed.

Lemma recv_end fuel max s v : stream_view s v -> len (sv_in v) < 2 -> exists s', WSRecvMessage (Datatypes.S fuel) max false s = (Ok None, s') /\ stream_view s' (mkSview [] (sv_out v) 0).
Proof.
  intros V L. destruct (recv_dry fuel max false 0 [] 0 s v V L) as (s1 & E & V1). destruct (law_close s1 _ V1) as (s2 & E2 & V2).
  exists s2. unfold WSRecvMessage. by rewrite (sbind_ok _ _ _ _ _ E), (sbind_ok _ _ _ _ _ E2).
Qed.

Lemma ws_messages_ok max w header rest ms : forall fuel a s v, stream_view s v -> sv_in v = sent_by_client ms ++ rest -> Forall (message_ok max) ms -> max <= 2 ^ 31 ->
  (length ms + length (concat (map snd ms)) < fuel)%nat -> len rest < 2 ->
  let '(a', later, stopped) := handled w header a ms in
  exists s', ws_messages pure_messages fuel max w header a s = (Ok a', s') /\
    stream_view s' (if stopped then mkSview (sent_by_client later ++ rest) (sv_out v) (sv_room v) else mkSview [] (sv_out v) 0).
Proof.
  induction ms as [|m ms IH]; intros fuel a s v V Ein F M L R; (destruct fuel as [|fuel]; [cbn in L; lia|]); cbn [handled ws_messages].
  - destruct (recv_end fuel max s v V) as (s' & E & V'); [by rewrite Ein|]. exists s'. by rewrite (sbind_ok _ _ _ _ _ E).
  - apply list.Forall_cons in F as [Om F]. cbn [map concat length] in L. rewrite length_app in L.
    assert (E1 : sv_in v = ws_fragments true (fst m) (snd m) ++ (sent_by_client ms ++ rest)) by (by rewrite Ein; unfold sent_by_client; cbn; rewrite <- app_assoc).
    destruct (recv_message (Datatypes.S fuel) max m s v _ V E1 Om M) as (s1 & E & V1); [lia|]. destruct (g w a header (message_of m)) as [a1 rt] eqn:Eg.
    assert (Eh : pure_messages w a header (message_of m) s1 = (Ok (a1, rt), s1)) by (unfold pure_messages, sret; by rewrite Eg).
    destruct (Z.eqb_spec rt 0) as [->|N].
    + pose proof (IH fuel a1 s1 _ V1 eq_refl F M ltac:(lia) R) as H'. destruct (handled w header a1 ms) as [[a' later] stopped]. destruct H' as (s' & E' & V').
      exists s'. split; [|by destruct stopped]. rewrite (sbind_ok _ _ _ _ _ E), (sbind_ok _ _ _ _ _ Eh). exact E'.
    + exists s1. split; [|done]. rewrite (sbind_ok _ _ _ _ _ E), (sbind_ok _ _ _ _ _ Eh). by rewrite (proj2 (Z.eqb_neq rt 0) N).
Qed.
End ws_server.

(** ** Clients *)

Definition named (k : list byte) (h : list byte * list byte) : bool := bool_decide (fold (fst h) = fold k).
Definition host_given (h : list byte * list byte) : bool := named (bstr "host") h && negb (is_empty (snd h)).
Definition stays_open (h : list byte * list byte) : bool := named (bstr "connection") h && (strcasecmp (snd h) (bstr "keep-alive") =? 0).

(** The last value of a name. *)
Fixpoint last_value (k : list byte) (hs : list (list byte * list byte)) : option (list byte) :=
  match hs with
  | [] => None
  | h :: hs => match last_value k hs with Some v => Some v | None => if named k h then Some (snd h) else None end
  end.

Lemma strcasecmp_named k h : (strcasecmp (fst h) k =? 0) = named k h.
Proof. unfold named. destruct (Z.eqb_spec (strcasecmp (fst h) k) 0) as [E|N]; symmetry; [apply bool_decide_eq_true|apply bool_decide_eq_false]; by rewrite <- strcasecmp_eq. Qed.

(** What the loop over the headers leaves as it is. *)
Definition same_message (r r' : HttpRequest) : Prop :=
  rq_method r' = rq_method r /\ rq_path r' = rq_path r /\ rq_query r' = rq_query r /\ rq_fragment r' = rq_fragment r /\ rq_version r' = rq_version r /\
  rq_websocket r' = rq_websocket r.

Record put_spec (hs : list (list byte * list byte)) (b : bool) (req : HttpRequest) (out : HttpRequest * bool) : Prop := {
  put_ordered : ordered (rq_headers (fst out));
  put_host : snd out = b || existsb host_given hs;
  put_close : rq_close (fst out) = rq_close req && negb (existsb stays_open hs);
  put_connection k : fold k = fold (bstr "connection") -> map_find k (rq_headers (fst out)) = map_find k (rq_headers req);
  put_find k : fold k <> fold (bstr "connection") ->
    map_find k (rq_headers (fst out)) = match last_value k hs with Some v => Some v | None => map_find k (rq_headers req) end;
  put_same : same_message req (fst out);
}.

Lemma put_headers_spec hs : forall b req, ordered (rq_headers req) -> put_spec hs b req (put_headers hs b req).
Proof.
  induction hs as [|[k v] hs IH]; intros b req O.
  - split; cbn; rewrite ?orb_false_r, ?andb_true_r; done.
  - cbn [put_headers]. pose proof (strcasecmp_named (bstr "connection") (k, v)) as Nc. pose proof (strcasecmp_named (bstr "host") (k, v)) as Nh. cbn [fst] in Nc, Nh. rewrite Nc, Nh.
    destruct (named (bstr "connection") (k, v)) eqn:Ec.
    + apply bool_decide_eq_true in Ec. cbn [fst] in Ec.
      assert (Eh : named (bstr "host") (k, v) = false) by (apply bool_decide_eq_false; cbn [fst]; rewrite Ec; done).
      set (req1 := if strcasecmp v (bstr "keep-alive") =? 0 then setClose false req else req).
      assert (Hs : rq_headers req1 = rq_headers req) by (unfold req1; by case_match).
      destruct (IH b req1) as [P1 P2 P3 P4 P5 P6]; [by rewrite Hs|]. rewrite Hs in P4, P5. split; [done| | |done| |].
      * rewrite P2. cbn [existsb]. unfold host_given at 2. by rewrite Eh.
      * rewrite P3. cbn [existsb]. unfold stays_open at 2. unfold named. cbn [fst snd]. rewrite bool_decide_true by done. unfold req1.
        case_match; cbn; by rewrite ?andb_false_r.
      * intros k' N. rewrite P5 by done. cbn [last_value]. unfold named. cbn [fst]. rewrite bool_decide_false by congruence. by destruct (last_value k' hs).
      * unfold same_message, req1 in *. by case_match.
    + apply bool_decide_eq_false in Ec as Nk. cbn [fst] in Nk.
      destruct (IH (if negb b && named (bstr "host") (k, v) then negb (is_empty v) else b) (setHeader k v req)) as [P1 P2 P3 P4 P5 P6]; [by apply map_put_ordered|].
      split; [done| | | | |done].
      * rewrite P2. cbn [existsb]. unfold host_given at 2. cbn [snd]. destruct b, (named (bstr "host") (k, v)); done.
      * rewrite P3. cbn [existsb]. unfold stays_open at 2. by rewrite Ec.
      * intros k' E. rewrite P4 by done. cbn [setHeader rq_headers setHeaders]. rewrite map_find_put by done. by rewrite decide_False by congruence.
      * intros k' N. rewrite P5 by done. cbn [last_value]. destruct (last_value k' hs); [done|]. cbn [setHeader rq_headers setHeaders]. rewrite map_find_put by done.
        unfold named. cbn [fst snd]. destruct (decide (fold k' = fold k)); [rewrite bool_decide_true by congruence|rewrite bool_decide_false by congruence]; done.
Qed.

(** The headers of a request that a client makes: [given], with a host when none is given. *)
Lemma host_added (has_host : bool) (host : list byte) (req : HttpRequest) (k : list byte) : ordered (rq_headers req) ->
  map_find k (rq_headers (if has_host then req else setHeader (bstr "Host") host req)) =
  (if negb has_host && bool_decide (fold k = fold (bstr "host")) then Some host else map_find k (rq_headers req)).
Proof.
  intros O. destruct has_host; [done|]. cbn [setHeader rq_headers setHeaders negb andb]. rewrite map_find_put by done.
  change (fold (bstr "Host")) with (fold (bstr "host")). case_decide; [by rewrite bool_decide_true|by rewrite bool_decide_false].
Qed.

Definition expected_header (hs : list (list byte * list byte)) (host k : list byte) : option (list byte) :=
  if bool_decide (fold k = fold (bstr "connection")) then None
  else if negb (existsb host_given hs) && bool_decide (fold k = fold (bstr "host")) then Some host else last_value k hs.

Lemma made_request hs host body k req0 : rq_headers req0 = [] ->
  let req := (let (req, has_host) := put_headers hs false req0 in setBody body (if has_host then req else setHeader (bstr "Host") host req)) in
  map_find k (rq_headers req) = expected_header hs host k /\ rq_close req = rq_close req0 && negb (existsb stays_open hs) /\ ordered (rq_headers req) /\
  same_message req0 req /\ rq_body req = body.
Proof.
  intros E0. destruct (put_headers_spec hs false req0) as [P1 P2 P3 P4 P5 P6]; [rewrite E0; constructor|].
  destruct (put_headers hs false req0) as [req b]. cbn [fst snd] in *. rewrite orb_false_l in P2. subst b. cbn [setBody rq_headers].
  rewrite host_added by done. split; [|split; [by destruct (existsb host_given hs)|split; [|by destruct (existsb host_given hs)]]].
  - unfold expected_header. rewrite E0 in P4, P5. destruct (bool_decide_reflect (fold k = fold (bstr "connection"))) as [E|N].
    + rewrite (bool_decide_false (fold k = fold (bstr "host"))) by (rewrite E; done). rewrite andb_false_r. by rewrite P4.
    + rewrite P5 by done. by destruct (last_value k hs).
  - destruct (existsb host_given hs); [done|by apply map_put_ordered].
Qed.

(** ** The properties *)

Section ws_requests.
Context {S : Type} `{StreamLaws S, LexicalCast, LexicalCastInt} (relaxed : bool) (buff_size : Z).
#[local] Instance ws_parser : RequestMachine := http11 relaxed.

(** the handshake of a websocket. A request that asks for one is answered with the
    text of the protocol, whose key is the base64 of the digest of the request's, and is
    returned as that of a websocket; every other request is refused without an answer. *)
Theorem WS_handshake (sha1sum : list byte -> list byte) (t : request_text) (gs : list (list (list byte))) (g : list (list byte)) (x rest : list byte) (s s1 : S) (v : sview) (fuel : nat) :
  0 < buff_size < 2 ^ 31 -> stream_view s v -> text_ok t = true -> len (concat (lines t)) < 2 ^ 61 -> Forall (fun g => g <> []) gs -> (length gs < fuel)%nat ->
  g <> [] -> concat gs ++ g = lines t -> delivers buff_size s (map (@concat byte) gs ++ [concat g ++ x]) s1 -> sv_in v = concat (lines t) ++ rest ->
  content_length (meaning t) <= len rest -> content_length (meaning t) < 2 ^ 31 ->
  exists k, let req := request_of (meaning t) rest in
    (asks_websocket req -> len (handshake_text sha1sum req) <= sv_room v -> len (handshake_text sha1sum req) < 2 ^ 31 ->
       exists s', handleShake buff_size sha1sum fuel s = (Ok (Some (setWebsocket true req)), s') /\ stream_view s' (sv_send (handshake_text sha1sum req) (sv_recv k v))) /\
    (~ asks_websocket req -> exists s', handleShake buff_size sha1sum fuel s = (Ok None, s') /\ stream_view s' (sv_recv k v)).
Proof.
  intros B V K L F Lf Ng E D Ein Fit L31. pose proof (head_accepts relaxed t gs g K L F Ng E) as Ac. rewrite <- E, concat_app, <- concat_concat, <- app_assoc in Ein.
  destruct (recvRequest_whole buff_size B _ _ x _ rest s v s1 fuel V Ac D) as (k & s2 & E2 & V2); [by rewrite length_map|done|done|done|].
  exists k. by apply (handleShake_ok buff_size sha1sum _ fuel s s2 v k).
Qed.
End ws_requests.

(** C20: the messages of a websocket, each sent in any fragments under any masks, are given
    to the servlet whole, once and in their order, until it refuses one, when the others
    stay in the stream, or until the connection ends, when it is closed. *)
Theorem WS_messages {S A W : Type} `{StreamLaws S} (host : Host) (g : W -> A -> HttpRequest -> WSFrameMessage -> A * Z)
    (max : Z) (w : W) (header : HttpRequest) (a : A) (ms : list (Z * list (Z * list byte))) (rest : list byte) (s : S) (v : sview) (fuel : nat) :
  stream_view s v -> sv_in v = sent_by_client ms ++ rest -> Forall (message_ok max) ms -> max <= 2 ^ 31 ->
  (length ms + length (concat (map snd ms)) < fuel)%nat -> len rest < 2 ->
  let '(a', later, stopped) := handled g w header a ms in
  exists s', ws_messages (pure_messages g) fuel max w header a s = (Ok a', s') /\
    stream_view s' (if stopped then mkSview (sent_by_client later ++ rest) (sv_out v) (sv_room v) else mkSview [] (sv_out v) 0).
Proof. apply ws_messages_ok. Qed.

(** the request of a client has the parts of the URI, the body, and the last value of
    every header that was given, whatever the case of its name, but the one of the
    connection, which only tells whether it stays open; and a host: the one that was given,
    when one is given that is not empty, or that of the URI or of the pool. *)
Theorem Client_request (method : Z) (uri : Uri) (m_host m_vhost url body : list byte) (hs : list (list byte * list byte)) (k : list byte) :
  (let req := make_request method uri hs body in
   map_find k (rq_headers req) = expected_header hs (u_host uri) k /\ rq_close req = negb (existsb stays_open hs) /\ ordered (rq_headers req) /\
   (rq_method req, rq_path req, rq_query req, rq_fragment req, rq_body req) = (method, Uri_getPath uri, u_query uri, u_fragment uri, body)) /\
  (let req := make_pool_request m_host m_vhost method url hs body in
   map_find k (rq_headers req) = expected_header hs (if is_empty m_vhost then m_host else m_vhost) k /\ rq_close req = false /\ ordered (rq_headers req) /\
   (rq_method req, rq_path req, rq_body req) = (method, url, body)).
Proof.
  split; cbv zeta; [unfold make_request|unfold make_pool_request]; match goal with |- context [put_headers hs false ?r] => set (req0 := r) end.
  - destruct (made_request hs (u_host uri) body k req0 eq_refl) as (F & C & O & (M & Pa & Q & Fr & _) & Bo). split; [exact F|]. split; [exact C|]. split; [exact O|].
    by rewrite M, Pa, Q, Fr, Bo.
  - destruct (made_request hs (if is_empty m_vhost then m_host else m_vhost) body k req0 eq_refl) as (F & C & O & (M & Pa & _) & Bo).
    split; [exact F|]. split; [exact C|]. split; [exact O|]. by rewrite M, Pa, Bo.
Qed.

(** ** Runs *)

Section witnesses.
#[local] Existing Instance x86_host.
#[local] Instance no_heap : Heap := zero_heap.
#[local] Instance read_lexical : LexicalCast := read_dec.
#[local] Instance read_lexical_int : LexicalCastInt := read_dec.

(** A servlet that counts its requests and sends their bodies back. *)
Definition echo (_ : unit) (n : nat) (req : HttpRequest) (rsp : HttpResponse) : nat * Z * HttpRequest * HttpResponse := (S n, 0, req, rsp_setBody (rq_body req) rsp).
Definition echo_dispatch : ServletDispatch (Servlet := option unit) := mkDispatch ∅ [] (Some tt).

Lemma Http_server_witness : exists s', handleClient (H0 := http11 false) (S := SocketStream MemKernel) 64 (fun _ _ => false) (pure_handle echo) 3 true (bstr "cim") echo_dispatch 0%nat (mem_stream demo_in 22) = (Ok 1%nat, s') /\
  stream_view s' (mkSview [] (bstr "HTTP/1.1 200 OK" ++ CRLF ++ bstr "Server: cim" ++ CRLF ++ bstr "connection: close" ++ CRLF ++ bstr "content-length: 5" ++ CRLF ++ CRLF ++ bstr "hello") 0).
Proof.
  destruct (Http_server (S := SocketStream MemKernel) false 64 (fun _ _ => false) echo demo_text [[first_line demo_text]] (mem_stream demo_in 22)
    (mem_stream (sv_recv 44 demo_in) 22) demo_in 2 true (bstr "cim") echo_dispatch 0%nat) as [R _]; [lia|apply mem_stream_view|reflexivity|reflexivity|by repeat constructor|cbn; lia|done|].
  destruct (R [field_line (bstr "Content-Length", bstr "5"); CRLF] (bstr "h") (bstr "helloPOST")) as [W _]; [done|reflexivity|by repeat eexists|reflexivity|reflexivity|].
  destruct W as (s' & E & V); [vm_compute; discriminate|vm_compute; discriminate|reflexivity|]. exists s'. exact (conj E V).
Defined.

Definition ws_text : request_text := mkText (bstr "GET") (bstr "/ws") (Some (bstr "token=a.b%3D")) true
  [(bstr "Upgrade", bstr "WebSocket"); (bstr "connection", bstr "upgrade"); (bstr "Sec-WebSocket-Version", bstr "13"); (bstr "Sec-WebSocket-Key", bstr "abc")].
Definition ws_in : sview := mkSview (concat (lines ws_text)) [] 300.

Lemma WS_handshake_witness : exists s' v,
  handleShake (H0 := http11 false) (S := SocketStream MemKernel) 4096 (take 3) 1 (mem_stream ws_in 1000) = (Ok (Some (setWebsocket true (meaning ws_text))), s') /\
  stream_view s' v /\ sv_out v = bstr "HTTP/1.1 101 Web Socket Protocol Handshake" ++ CRLF ++ bstr "Connection: Upgrade" ++ CRLF ++ bstr "Sec-WebSocket-Accept: YWJj" ++ CRLF ++ bstr "Upgrade: websocket" ++ CRLF ++ CRLF.
Proof.
  destruct (WS_handshake (S := SocketStream MemKernel) false 4096 (take 3) ws_text [] (lines ws_text) [] [] (mem_stream ws_in 1000) (mem_stream (sv_recv 134 ws_in) 1000) ws_in 1) as (k & Yes & _);
    [lia|apply mem_stream_view|reflexivity|reflexivity|constructor|cbn; lia|done|reflexivity|by repeat eexists|reflexivity|vm_compute; discriminate|reflexivity|].
  replace (request_of (meaning ws_text) []) with (meaning ws_text) in Yes by (vm_compute; reflexivity).
  destruct Yes as (s' & E & V); [repeat split; vm_compute; (reflexivity || discriminate)|vm_compute; discriminate|vm_compute; reflexivity|].
  eexists s', _. split; [exact E|]. split; [exact V|]. vm_compute. reflexivity.
Defined.

(** Two messages, the first in two fragments. *)
Definition demo_messages : list (Z * list (Z * list byte)) := [(TEXT_FRAME, [(7, bstr "hi"); (9, bstr "!")]); (BIN_FRAME, [(3, bstr "x")])].
Definition collect (_ : unit) (a : list (list byte)) (_ : HttpRequest) (m : WSFrameMessage) : list (list byte) * Z := (a ++ [m_data m], 0).

Lemma WS_messages_witness : exists s', ws_messages (S := SocketStream MemKernel) (pure_messages collect) 6 100 tt (new_HttpRequest 0x11 true) [] (stream_of (sent_by_client demo_messages)) = (Ok [bstr "hi!"; bstr "x"], s').
Proof.
  destruct (WS_messages (S := SocketStream MemKernel) x86_host collect 100 tt (new_HttpRequest 0x11 true) [] demo_messages [] (stream_of (sent_by_client demo_messages)) (mkSview (sent_by_client demo_messages) [] 1000) 6) as (s' & E & _);
    [apply stream_of_view|by rewrite app_nil_r| |lia|cbn; lia|done|by exists s'].
  repeat constructor; try discriminate; cbn; lia.
Defined.
End witnesses.
