(* ===== verification/HttpPool.v ===== *)
(** The pool of HTTP connections (src/http/http_connection.cpp): [HttpConnectionPool] and
    the threads that take connections from it and give them back.

    Connections are the keys of a heap. What a thread does between two accesses to what the
    threads share is one step of [pool_step]; a thread that has called [getConnection] is in
    one of the states of [Pc] until the connection that it holds is given back. What the
    host answers in a step, the time and whether a connection could be made, is an [Env].
    The peer may close a connection at any time. *)
From S2P Require Import Prelude Number Stream ZlibStream Http HttpStream HttpServer.

(** ** Connections *)

Record Conn := mkConn { c_connected : bool; c_createTime : Z; c_request : Z }.

Record HttpConnectionPool := mkPool {
  m_maxSize : Z;
  m_maxAliveTime : Z;
  m_maxRequest : Z;
  m_conns : list Z;
  m_total : Z;
  m_heap : gmap Z Conn;
}.

Definition new_HttpConnectionPool (max_size max_alive_time max_request : Z) : HttpConnectionPool :=
  mkPool max_size max_alive_time max_request [] 0 ∅.

Definition set_conns (l : list Z) (p : HttpConnectionPool) : HttpConnectionPool :=
  mkPool (m_maxSize p) (m_maxAliveTime p) (m_maxRequest p) l (m_total p) (m_heap p).
Definition add_total (n : Z) (p : HttpConnectionPool) : HttpConnectionPool :=
  mkPool (m_maxSize p) (m_maxAliveTime p) (m_maxRequest p) (m_conns p) (s32 (m_total p + n)) (m_heap p).
Definition set_conn_heap (h : gmap Z Conn) (p : HttpConnectionPool) : HttpConnectionPool :=
  mkPool (m_maxSize p) (m_maxAliveTime p) (m_maxRequest p) (m_conns p) (m_total p) h.

(** A connection that has lived too long. *)
Definition expired (p : HttpConnectionPool) (now : Z) (c : Conn) : bool := u64 (c_createTime c + m_maxAliveTime p) <? now.

(** ** Operations *)

(** The loop of [getConnection]: the connections that are not valid, those that are left,
    and the one that was found. *)
Fixpoint take_valid (p : HttpConnectionPool) (now : Z) (conns invalid_conns : list Z) : res (list Z * list Z * option Z) :=
  match conns with
  | [] => Ok (invalid_conns, [], None)
  | i :: conns =>
      match m_heap p !! i with
      | None => Crash use_after_free
      | Some c =>
          if negb (c_connected c) || expired p now c then take_valid p now conns (invalid_conns ++ [i])
          else Ok (invalid_conns, conns, Some i)
      end
  end.

(** [delete] of each. *)
Fixpoint delete_all (l : list Z) (h : gmap Z Conn) : res (gmap Z Conn) :=
  match l with
  | [] => Ok h
  | i :: l => match h !! i with Some _ => delete_all l (delete i h) | None => Crash bad_free end
  end.

(** Where a thread is. *)
Inductive Pc :=
  | Idle
  | Deleting (invalid_conns : list Z) (ptr : option Z)
  | Subtracting (n : Z) (ptr : option Z)
  | Connecting
  | Counting (i : Z)
  | Holding (i : Z)
  | Destroying (i : Z)
  | Uncounting
  | Returning (i : Z).

(** What the host answers: the time; and a connection that was made, or none. *)
Record Env := mkEnv { e_now : Z; e_made : option Z }.

(** [HttpConnectionPool::getConnection] *)
Definition getConnection (e : Env) (pc : Pc) (p : HttpConnectionPool) : res (Pc * HttpConnectionPool) :=
  match pc with
  | Idle =>
      let! (invalid_conns, conns, ptr) := take_valid p (e_now e) (m_conns p) [] in
      Ok (Deleting invalid_conns ptr, set_conns conns p)
  | Deleting invalid_conns ptr =>
      let! h := delete_all invalid_conns (m_heap p) in
      Ok (Subtracting (len invalid_conns) ptr, set_conn_heap h p)
  | Subtracting n ptr => Ok (match ptr with Some i => Holding i | None => Connecting end, add_total (- n) p)
  | Connecting =>
      match e_made e with
      | None => Ok (Idle, p)
      | Some i => Ok (Counting i, set_conn_heap (<[i := mkConn true (e_now e) 0]> (m_heap p)) p)
      end
  | Counting i => Ok (Holding i, add_total 1 p)
  | _ => Ok (pc, p)
  end.

(** [HttpConnectionPool::ReleasePtr] *)
Definition ReleasePtr (e : Env) (pc : Pc) (p : HttpConnectionPool) : res (Pc * HttpConnectionPool) :=
  match pc with
  | Holding i =>
      match m_heap p !! i with
      | None => Crash use_after_free
      | Some c =>
          let c := mkConn (c_connected c) (c_createTime c) (u64 (c_request c + 1)) in
          let p := set_conn_heap (<[i := c]> (m_heap p)) p in
          Ok (if negb (c_connected c) || expired p (e_now e) c || (m_maxRequest p <=? c_request c) then Destroying i else Returning i, p)
      end
  | Destroying i => let! h := delete_all [i] (m_heap p) in Ok (Uncounting, set_conn_heap h p)
  | Uncounting => Ok (Idle, add_total (-1) p)
  | Returning i => Ok (Idle, set_conns (m_conns p ++ [i]) p)
  | _ => Ok (pc, p)
  end.

Definition pool_step (e : Env) (pc : Pc) (p : HttpConnectionPool) : res (Pc * HttpConnectionPool) :=
  match pc with
  | Holding _ | Destroying _ | Uncounting | Returning _ => ReleasePtr e pc p
  | _ => getConnection e pc p
  end.

(** ** Threads *)

Record Threads := mkThreads { t_pool : HttpConnectionPool; t_procs : list Pc }.

(** A new connection is at no address that is in use. *)
Inductive thread_step (s : Threads) : Threads -> Prop :=
  | step_thread k e pc pc' p' :
      t_procs s !! k = Some pc -> (forall i, e_made e = Some i -> m_heap (t_pool s) !! i = None) ->
      pool_step e pc (t_pool s) = Ok (pc', p') -> thread_step s (mkThreads p' (<[k := pc']> (t_procs s)))
  | step_peer i c :
      m_heap (t_pool s) !! i = Some c ->
      thread_step s (mkThreads (set_conn_heap (<[i := mkConn false (c_createTime c) (c_request c)]> (m_heap (t_pool s))) (t_pool s)) (t_procs s)).

Definition start (n : nat) (p : HttpConnectionPool) : Threads := mkThreads p (replicate n Idle).

Inductive reachable (s0 : Threads) : Threads -> Prop :=
  | reach_start : reachable s0 s0
  | reach_step s s' : reachable s0 s -> thread_step s s' -> reachable s0 s'.

(** ** Requests *)

(** [HttpConnectionPool::doRequest], with the connection that [getConnection] gave. *)
Section pool_request.
Context {S : Type} `{Stream S, ResponseMachine, LexicalCast} {Zs : Type} `{Zlib Zs} (buff_size : Z) (has_socket : S -> bool).

Definition pool_doRequest (fuel : nat) (conn : option S) (req : HttpRequest) : res HttpResult * option S :=
  match conn with
  | None => (Ok (fails POOL_GET_CONNECTION), None)
  | Some s =>
      if negb (has_socket s) then (Ok (fails POOL_INVALID_CONNECTION), Some s)
      else let '(r, s) := exchange buff_size fuel req s in (r, Some s)
  end.
End pool_request.
