(* ===== verification/HttpPoolSpec.v ===== *)
(** The pool of connections: whatever threads do, each connection is in the pool or in the
    hands of one thread, none is used or deleted after it was deleted, the counter counts
    them, and the limit on the requests of a connection holds; the limit on connections
    does not. *)
From S2P Require Import Prelude Number Stream ZlibStream Http HttpStream HttpServer HttpPool.
#[local] Set Warnings "-clear-no-such-hyp".

(** ** Wrap-around *)

Lemma s32_cong a b : a mod 2 ^ 32 = b mod 2 ^ 32 -> s32 a = s32 b.
Proof. intros E. unfold s32. rewrite <- (sint_mod 32 a), <- (sint_mod 32 b) by lia. by rewrite E. Qed.

Lemma s32_mod a : s32 a mod 2 ^ 32 = a mod 2 ^ 32.
Proof.
  unfold s32, sint. change (2 ^ (32 - 1)) with 2147483648. change (2 ^ 32) with 4294967296.
  rewrite Zminus_mod_idemp_l. f_equal. lia.
Qed.

Lemma s32_add a b : s32 (s32 a + b) = s32 (a + b).
Proof. apply s32_cong. rewrite <- Zplus_mod_idemp_l, s32_mod. by rewrite Zplus_mod_idemp_l. Qed.

(** ** What a thread has *)

Definition owned (pc : Pc) : list Z :=
  match pc with
  | Deleting l ptr => l ++ option_list ptr
  | Subtracting _ ptr => option_list ptr
  | Counting i | Holding i | Destroying i | Returning i => [i]
  | _ => []
  end.

(** What the counter has that the heap has not. *)
Definition delta (pc : Pc) : Z :=
  match pc with Subtracting n _ => n | Counting _ => -1 | Uncounting => 1 | _ => 0 end.

Definition sum (l : list Z) : Z := foldr Z.add 0 l.

(** The limit that a connection keeps in the hands of a thread. *)
Definition limit (p : HttpConnectionPool) (pc : Pc) (i : Z) (c : Conn) : Prop :=
  0 <= c_request c /\
  match pc with
  | Destroying _ => True
  | Returning _ => c_request c < m_maxRequest p
  | _ => c_request c < Z.max 1 (m_maxRequest p)
  end.

Record pool_inv (p : HttpConnectionPool) (procs : list Pc) : Prop := {
  inv_nodup : NoDup (m_conns p ++ concat (map owned procs));
  inv_live i : i ∈ m_conns p ++ concat (map owned procs) <-> is_Some (m_heap p !! i);
  inv_total : m_total p = s32 (Z.of_nat (size (m_heap p)) + sum (map delta procs));
  inv_idle i c : i ∈ m_conns p -> m_heap p !! i = Some c -> 0 <= c_request c < m_maxRequest p;
  inv_held pc i c : pc ∈ procs -> i ∈ owned pc -> m_heap p !! i = Some c -> limit p pc i c;
  inv_max : 0 <= m_maxRequest p < 2 ^ 32;
}.

Lemma sum_perm l k : l ≡ₚ k -> sum l = sum k.
Proof. unfold sum. induction 1; cbn in *; lia. Qed.

#[export] Instance concat_owned_perm : Proper ((≡ₚ) ==> (≡ₚ)) (fun l => concat (map owned l)).
Proof. induction 1; cbn; [done|by f_equiv| |by etrans]. by rewrite !app_assoc, (Permutation_app_comm (owned y)). Qed.

Lemma inv_perm p l k : l ≡ₚ k -> pool_inv p l -> pool_inv p k.
Proof.
  intros P [I1 I2 I3 I4 I5 I6]. pose proof (concat_owned_perm _ _ P) as Pc. cbn in Pc. split.
  - by rewrite <- Pc.
  - intros i. rewrite <- (I2 i). by rewrite Pc.
  - rewrite I3. do 2 f_equal. apply sum_perm. by rewrite P.
  - done.
  - intros pc i c Hpc. apply I5. by rewrite P.
  - done.
Qed.

(** One thread and the others. *)
Lemma split_thread (procs : list Pc) k pc : procs !! k = Some pc -> exists rest, procs ≡ₚ pc :: rest /\ forall pc', <[k := pc']> procs ≡ₚ pc' :: rest.
Proof.
  intros E. destruct (list_elem_of_split_length _ _ _ E) as (l1 & l2 & -> & ->). exists (l1 ++ l2). split; [by rewrite Permutation_middle|].
  intros pc'. rewrite insert_app_r_alt, Nat.sub_diag by done. cbn. by rewrite Permutation_middle.
Qed.

(** ** Operations *)

Definition valid (p : HttpConnectionPool) (now i : Z) : Prop := exists c, m_heap p !! i = Some c /\ c_connected c = true /\ expired p now c = false.
Definition invalid (p : HttpConnectionPool) (now i : Z) : Prop := exists c, m_heap p !! i = Some c /\ (c_connected c = false \/ expired p now c = true).

(** The first that is valid is taken, those before it are dropped. *)
Lemma take_valid_spec p now conns : forall acc, (forall i, i ∈ conns -> is_Some (m_heap p !! i)) ->
  exists bad rest ptr, take_valid p now conns acc = Ok (acc ++ bad, rest, ptr) /\ conns = bad ++ option_list ptr ++ rest /\
    Forall (invalid p now) bad /\ match ptr with Some i => valid p now i | None => rest = [] end.
Proof.
  induction conns as [|i conns IH]; intros acc L; cbn [take_valid].
  - exists [], [], None. by rewrite app_nil_r.
  - destruct (L i) as [c Ec]; [left|]. rewrite Ec. destruct (negb (c_connected c) || expired p now c) eqn:Bad.
    + destruct (IH (acc ++ [i])) as (bad & rest & ptr & E & -> & F & V); [intros j Hj; apply L; by right|].
      exists (i :: bad), rest, ptr. rewrite E, <- app_assoc. split; [done|]. split; [done|]. split; [|done].
      constructor; [|done]. exists c. split; [done|]. apply orb_prop in Bad as [N|X]; [left; by apply negb_true_iff|by right].
    + apply orb_false_iff in Bad as [N X]. exists [], conns, (Some i). rewrite app_nil_r. split; [done|]. split; [done|]. split; [constructor|].
      exists c. split; [done|]. split; [by apply negb_false_iff|done].
Qed.

Lemma delete_all_spec l : forall h : gmap Z Conn, NoDup l -> (forall i, i ∈ l -> is_Some (h !! i)) ->
  exists h', delete_all l h = Ok h' /\ (forall i, h' !! i = if decide (i ∈ l) then None else h !! i) /\ Z.of_nat (size h') = Z.of_nat (size h) - len l.
Proof.
  induction l as [|i l IH]; intros h Nd L; cbn [delete_all]; [exists h; unfold len; cbn; split_and!; [done|done|lia]|].
  apply list.NoDup_cons in Nd as [Ni Nd]. destruct (L i) as [c Ec]; [left|]. rewrite Ec.
  destruct (IH (delete i h) Nd) as (h' & E & Look & Sz).
  { intros j Hj. rewrite lookup_delete_ne by (intros ->; done). apply L. by right. }
  exists h'. split; [done|]. split.
  - intros j. rewrite Look. destruct (decide (j ∈ l)) as [Hj|Nj]; [by rewrite decide_True by (by right)|].
    destruct (decide (i = j)) as [->|Ne]; [rewrite lookup_delete_eq, decide_True by (by left); done|].
    rewrite lookup_delete_ne by done. by rewrite decide_False by (rewrite elem_of_cons; intros [?|?]; congruence).
  - rewrite Sz. rewrite (map_size_delete_Some _ _ (mk_is_Some _ _ Ec)). assert (size h <> 0%nat) by (apply map_size_non_empty_iff; intros ->; done). unfold len. cbn. lia.
Qed.

(** ** One step *)

Definition fresh_answer (e : Env) (p : HttpConnectionPool) : Prop := forall i, e_made e = Some i -> m_heap p !! i = None.

(** The connections of the pool and of the other threads are none of this thread's. *)
Lemma others p pc rest : pool_inv p (pc :: rest) ->
  NoDup (owned pc) /\ (forall i, i ∈ owned pc -> is_Some (m_heap p !! i) /\ (i ∉ m_conns p) /\ (i ∉ concat (map owned rest))) /\
  (forall i, i ∈ m_conns p -> is_Some (m_heap p !! i)).
Proof.
  intros [I1 I2 _ _ _ _]. cbn in I1, I2. apply list.NoDup_app in I1 as (Nc & D1 & I1). apply list.NoDup_app in I1 as (No & D2 & Nr).
  split; [done|]. split.
  - intros i Hi. split; [apply I2; set_solver|]. split; [intros Hc; apply (D1 i Hc); set_solver|by apply D2].
  - intros i Hi. apply I2. set_solver.
Qed.

(** Reading a connection. *)
Lemma held_live p pc rest i : pool_inv p (pc :: rest) -> i ∈ owned pc -> exists c, m_heap p !! i = Some c /\ limit p pc i c.
Proof.
  intros I Hi. destruct (others p pc rest I) as (_ & L & _). destruct (L i Hi) as [[c Ec] _]. exists c. split; [done|].
  apply (inv_held _ _ I pc i c); [by left|done|done].
Qed.

(** No step fails. *)
Lemma pool_step_total e pc p rest : pool_inv p (pc :: rest) -> exists r, pool_step e pc p = Ok r.
Proof.
  intros I. destruct (others p pc rest I) as (Nd & Lo & Lc). destruct pc; cbn [pool_step getConnection ReleasePtr]; try by eexists.
  - destruct (take_valid_spec p (e_now e) (m_conns p) [] Lc) as (bad & r & ptr & E & _). rewrite E. by eexists.
  - destruct (delete_all_spec invalid_conns (m_heap p)) as (h' & E & _); [by apply list.NoDup_app in Nd as (? & _)|intros i Hi; apply Lo; set_solver|]. rewrite E. by eexists.
  - by destruct (e_made e); eexists.
  - destruct (Lo i) as [[c Ec] _]; [set_solver|]. rewrite Ec. by eexists.
  - destruct (delete_all_spec [i] (m_heap p)) as (h' & E & _); [apply NoDup_singleton|intros j Hj; apply Lo; set_solver|]. rewrite E. by eexists.
Qed.

(** The connections stay, wherever they are: the pool and this thread exchange theirs. *)
Lemma inv_exchange p pc pc' rest conns : pool_inv p (pc :: rest) -> m_conns p ++ owned pc ≡ₚ conns ++ owned pc' -> delta pc' = delta pc ->
  (forall i c, i ∈ conns -> m_heap p !! i = Some c -> 0 <= c_request c < m_maxRequest p) ->
  (forall i c, i ∈ owned pc' -> m_heap p !! i = Some c -> limit p pc' i c) ->
  pool_inv (set_conns conns p) (pc' :: rest).
Proof.
  intros [I1 I2 I3 I4 I5 I6] P D Hi Hh. cbn [map concat] in I1, I2.
  assert (Q : m_conns p ++ owned pc ++ concat (map owned rest) ≡ₚ conns ++ owned pc' ++ concat (map owned rest)) by (by rewrite !app_assoc, P).
  split; cbn [set_conns m_conns m_heap m_total m_maxRequest map concat]; try done.
  - by rewrite <- Q.
  - intros i. rewrite <- Q. apply I2.
  - rewrite I3. cbn [map sum foldr]. by rewrite D.
  - intros q i c Hq Ho Ec. apply elem_of_cons in Hq as [->|Hq]; [exact (Hh i c Ho Ec)|]. refine (I5 q i c _ Ho Ec). by right.
Qed.

(** Connections of this thread go. *)
Lemma inv_delete p pc pc' rest l h : pool_inv p (pc :: rest) -> owned pc ≡ₚ l ++ owned pc' -> delta pc' = delta pc + len l ->
  delete_all l (m_heap p) = Ok h -> (forall i c, i ∈ owned pc' -> m_heap p !! i = Some c -> limit p pc' i c) ->
  pool_inv (set_conn_heap h p) (pc' :: rest).
Proof.
  intros I P D E Hh. destruct (others _ _ _ I) as (Nd & Lo & Lc). rewrite P in Nd. apply list.NoDup_app in Nd as (Nl & Dis & No').
  destruct (delete_all_spec l (m_heap p) Nl) as (h' & E' & Look & Sz); [intros i Hi; apply Lo; rewrite P; set_solver|]. rewrite E' in E. injection E as ->.
  destruct I as [I1 I2 I3 I4 I5 I6]. cbn [map concat] in I1, I2.
  assert (Q : m_conns p ++ owned pc ++ concat (map owned rest) ≡ₚ l ++ m_conns p ++ owned pc' ++ concat (map owned rest)).
  { rewrite P, <- app_assoc. rewrite (app_assoc (m_conns p)), (Permutation_app_comm (m_conns p) l). by rewrite <- app_assoc. }
  assert (I1' := I1). rewrite Q in I1'. apply list.NoDup_app in I1' as (_ & Dl & N').
  split; cbn [set_conn_heap m_conns m_heap m_total m_maxRequest map concat]; try done.
  - intros i. rewrite Look. destruct (decide (i ∈ l)) as [Hl|Nl'].
    + split; [|by intros [? [=]]]. intros Hi. by destruct (Dl i Hl).
    + rewrite <- (I2 i), Q, !elem_of_app. set_solver.
  - rewrite I3. cbn [map sum foldr]. f_equal. unfold len in *. lia.
  - intros i c Hi. rewrite Look. case_decide; [done|]. by apply I4.
  - intros q i c Hq Ho. rewrite Look. case_decide; [done|]. intros Ec. apply elem_of_cons in Hq as [->|Hq]; [exact (Hh i c Ho Ec)|]. refine (I5 q i c _ Ho Ec). by right.
Qed.

(** A connection is written, or made. *)
Lemma inv_write p pc pc' rest i c' : pool_inv p (pc :: rest) -> (i ∈ owned pc \/ m_heap p !! i = None) -> owned pc' = [i] -> (owned pc = [i] \/ owned pc = []) ->
  delta pc' = delta pc + Z.of_nat (size (m_heap p)) - Z.of_nat (size (<[i := c']> (m_heap p))) -> limit p pc' i c' ->
  pool_inv (set_conn_heap (<[i := c']> (m_heap p)) p) (pc' :: rest).
Proof.
  intros I Hi O' O D L. destruct (others _ _ _ I) as (Nd & Lo & Lc). destruct I as [I1 I2 I3 I4 I5 I6]. cbn [map concat] in I1, I2.
  assert (Ni : (i ∉ m_conns p) /\ i ∉ concat (map owned rest)).
  { destruct Hi as [Hi|Hn]; [by destruct (Lo i Hi)|]. split; intros Hc; assert (is_Some (m_heap p !! i)) as [? ?] by (apply I2; set_solver); congruence. }
  destruct Ni as [Nc Nr]. split; cbn [set_conn_heap m_conns m_heap m_total m_maxRequest map concat]; rewrite ?O'; try done.
  - apply list.NoDup_app in I1 as (N1 & D1 & I1). apply list.NoDup_app in I1 as (_ & _ & I1). apply list.NoDup_app. split; [done|]. split.
    + intros j Hj. specialize (D1 j Hj). set_solver.
    + apply list.NoDup_app. split; [apply NoDup_singleton|]. split; [set_solver|done].
  - intros j. destruct (decide (i = j)) as [->|Ne]; [rewrite lookup_insert_eq; split; [by eexists|set_solver]|].
    rewrite lookup_insert_ne by done. rewrite <- (I2 j). destruct O as [-> | ->]; set_solver.
  - rewrite I3. cbn [map sum foldr]. f_equal. lia.
  - intros j c Hj. rewrite lookup_insert_ne by (intros ->; done). by apply I4.
  - intros q j c Hq Ho. apply elem_of_cons in Hq as [->|Hq].
    + rewrite O' in Ho. apply list_elem_of_singleton in Ho as ->. rewrite lookup_insert_eq. by intros [= <-].
    + rewrite lookup_insert_ne; [intros Ec; refine (I5 q j c _ Ho Ec); by right|]. intros ->. apply Nr. apply list_elem_of_In, in_concat. exists (owned q).
      split; [apply in_map|]; by apply list_elem_of_In.
Qed.

Lemma inv_count p pc pc' rest n : pool_inv p (pc :: rest) -> owned pc' = owned pc -> delta pc' = delta pc + n ->
  (forall i c, i ∈ owned pc' -> m_heap p !! i = Some c -> limit p pc' i c) -> pool_inv (add_total n p) (pc' :: rest).
Proof.
  intros [I1 I2 I3 I4 I5 I6] O D Hh. split; cbn [add_total m_conns m_heap m_total m_maxRequest map concat] in *; rewrite ?O in *; try done.
  - rewrite I3, s32_add. f_equal. cbn [sum foldr]. lia.
  - intros q i c Hq Ho Ec. apply elem_of_cons in Hq as [->|Hq]; [rewrite O in Ho; exact (Hh i c Ho Ec)|]. refine (I5 q i c _ Ho Ec). by right.
Qed.

(** Every step keeps the invariant. *)
Lemma pool_step_inv e pc p pc' p' rest : pool_inv p (pc :: rest) -> fresh_answer e p -> pool_step e pc p = Ok (pc', p') -> pool_inv p' (pc' :: rest).
Proof.
  intros I Fr E. destruct (others p pc rest I) as (Nd & Lo & Lc). pose proof (inv_max _ _ I) as Mx.
  destruct pc; cbn [pool_step getConnection ReleasePtr] in E.
  - destruct (take_valid_spec p (e_now e) (m_conns p) [] Lc) as (bad & r & ptr & Et & Ec & _). rewrite Et in E. injection E as <- <-.
    assert (Sub : forall i, i ∈ r -> i ∈ m_conns p) by (intros i Hi; rewrite Ec; set_solver).
    apply (inv_exchange p Idle); [done| |done| |].
    + rewrite Ec, app_nil_r. cbn. rewrite (app_assoc bad), (Permutation_app_comm _ r). done.
    + intros i c Hi. apply (inv_idle _ _ I). by apply Sub.
    + intros i c Hi Hc. destruct (inv_idle _ _ I i c) as [? ?]; [cbn in Hi; rewrite Ec; set_solver|done|]. split; [done|]. cbn. lia.
  - destruct (delete_all invalid_conns (m_heap p)) as [h| |] eqn:Ed; try done. injection E as <- <-.
    apply (inv_delete p (Deleting invalid_conns ptr) _ rest invalid_conns h I); [done|done|done|].
    intros i c Hi Hc. exact (inv_held _ _ I (Deleting invalid_conns ptr) i c ltac:(by left) ltac:(cbn in *; set_solver) Hc).
  - injection E as <- <-. apply (inv_count p (Subtracting n ptr)); [done|by destruct ptr|destruct ptr; cbn; lia|].
    intros i c Hi Hc. destruct ptr as [j|]; [|by apply elem_of_nil in Hi].
    exact (inv_held _ _ I (Subtracting n (Some j)) i c ltac:(by left) Hi Hc).
  - destruct (e_made e) as [i|] eqn:Em; injection E as <- <-.
    + apply (inv_write p Connecting (Counting i) rest i _ I); [right; by apply Fr|done|by right| |].
      * rewrite map_size_insert_None by (by apply Fr). cbn. lia.
      * split; cbn; lia.
    + replace p with (set_conns (m_conns p) p) by (by destruct p). apply (inv_exchange p Connecting); [done|done|done|by apply (inv_idle _ _ I)|by intros i c Hi%elem_of_nil].
  - injection E as <- <-. apply (inv_count p (Counting i)); [done|done|done|].
    intros j c Hj Hc. exact (inv_held _ _ I (Counting i) j c ltac:(by left) Hj Hc).
  - destruct (held_live p (Holding i) rest i I) as (c & Ec & L1 & L2); [by left|]. rewrite Ec in E. injection E as <- <-.
    assert (Hu : u64 (c_request c + 1) = c_request c + 1) by (apply u64_small; lia). rewrite Hu.
    set (c' := mkConn _ _ _). set (bad := _ || _ || _).
    apply (inv_write p (Holding i) _ rest i c' I); [left; by left|by destruct bad|by left| |].
    + rewrite map_size_insert_Some by done. destruct bad; cbn; lia.
    + destruct bad eqn:Eb; [split; cbn; lia|]. subst bad. apply orb_false_iff in Eb as [_ Eb]. cbn in Eb. split; cbn; lia.
  - destruct (delete_all [i] (m_heap p)) as [h| |] eqn:Ed; try done. injection E as <- <-.
    apply (inv_delete p (Destroying i) Uncounting rest [i] h I); [done|done|done|by intros j c Hj%elem_of_nil].
  - injection E as <- <-. apply (inv_count p Uncounting); [done|done|done|by intros i c Hi%elem_of_nil].
  - injection E as <- <-. apply (inv_exchange p (Returning i)); [done| |done| |by intros j c Hj%elem_of_nil].
    + cbn. by rewrite app_nil_r.
    + intros j c Hj Hc. apply elem_of_app in Hj as [Hj|Hj]; [by apply (inv_idle _ _ I j)|].
      destruct (inv_held _ _ I (Returning i) j c ltac:(by left) Hj Hc) as [? ?]. done.
Qed.

Lemma peer_inv p procs i c : pool_inv p procs -> m_heap p !! i = Some c ->
  pool_inv (set_conn_heap (<[i := mkConn false (c_createTime c) (c_request c)]> (m_heap p)) p) procs.
Proof.
  intros [I1 I2 I3 I4 I5 I6] Ec.
  assert (Look : forall j d, <[i := mkConn false (c_createTime c) (c_request c)]> (m_heap p) !! j = Some d -> exists d', m_heap p !! j = Some d' /\ c_request d = c_request d').
  { intros j d. destruct (decide (i = j)) as [->|Ne]; [rewrite lookup_insert_eq; intros [= <-]; by exists c|rewrite lookup_insert_ne by done; by exists d]. }
  split; cbn [set_conn_heap m_conns m_heap m_total m_maxRequest]; try done.
  - intros j. rewrite I2. destruct (decide (i = j)) as [->|Ne]; [rewrite lookup_insert_eq, Ec; split; by eexists|by rewrite lookup_insert_ne].
  - by rewrite map_size_insert_Some.
  - intros j d Hj (d' & Ed & ->)%Look. by apply (I4 j d').
  - intros q j d Hq Ho (d' & Ed & Er)%Look. specialize (I5 q j d' Hq Ho Ed). unfold limit in *. by rewrite Er.
Qed.

Lemma start_inv n a b r : 0 <= r < 2 ^ 32 -> pool_inv (t_pool (start n (new_HttpConnectionPool a b r))) (t_procs (start n (new_HttpConnectionPool a b r))).
Proof.
  intros R. assert (Ec : concat (map owned (replicate n Idle)) = []) by (induction n; done). assert (Ed : sum (map delta (replicate n Idle)) = 0) by (clear Ec; induction n; done).
  split; cbn [start new_HttpConnectionPool t_pool t_procs m_conns m_total m_heap m_maxRequest app]; rewrite ?Ec, ?Ed; try done.
  - constructor.
  - intros i. rewrite lookup_empty. split; [by intros ?%elem_of_nil|by intros [? ?]].
Qed.

Lemma pool_reachable_inv s0 s : pool_inv (t_pool s0) (t_procs s0) -> reachable s0 s -> pool_inv (t_pool s) (t_procs s).
Proof.
  intros I R. induction R as [|s s' R IH St]; [done|]. destruct St as [k e pc pc' p' Ek Fr E|i c Ec]; cbn [t_pool t_procs].
  - destruct (split_thread _ _ _ Ek) as (rest & P & P'). apply (inv_perm _ _ _ (symmetry (P' pc'))). apply (pool_step_inv e pc (t_pool s)); [by apply (inv_perm _ _ _ P)|done|done].
  - by apply peer_inv.
Qed.

(** ** The properties *)

Definition settled (pc : Pc) : bool := match pc with Idle | Connecting | Holding _ => true | _ => false end.
Definition held (procs : list Pc) : list Z := concat (map owned procs).

(** C17: threads that take connections from a pool and give them back, in any interleaving,
    with any peer: no step uses or deletes a connection that was deleted; a connection that
    is not deleted is in the pool or in the hands of one thread, never of two; one that a
    thread holds has served fewer requests than the limit, or none; and when no thread is
    in the middle of an operation the counter is the number of the connections, those of
    the pool and those that are held. *)
Theorem Pool_connections (n : nat) (max_size max_alive max_request : Z) (s : Threads) : 0 <= max_request < 2 ^ 32 ->
  reachable (start n (new_HttpConnectionPool max_size max_alive max_request)) s ->
  (forall k e pc, t_procs s !! k = Some pc -> exists r, pool_step e pc (t_pool s) = Ok r) /\
  NoDup (m_conns (t_pool s) ++ held (t_procs s)) /\
  (forall i, i ∈ m_conns (t_pool s) ++ held (t_procs s) <-> is_Some (m_heap (t_pool s) !! i)) /\
  (forall k i c, t_procs s !! k = Some (Holding i) -> m_heap (t_pool s) !! i = Some c -> 0 <= c_request c < Z.max 1 (m_maxRequest (t_pool s))) /\
  (forallb settled (t_procs s) = true -> m_total (t_pool s) = s32 (len (m_conns (t_pool s)) + len (held (t_procs s)))).
Proof.
  intros R Re. pose proof (pool_reachable_inv _ _ (start_inv n max_size max_alive max_request R) Re) as I. destruct I as [I1 I2 I3 I4 I5 I6] eqn:EI. clear EI.
  split; [|split; [done|split; [done|split]]].
  - intros k e pc Ek. destruct (split_thread _ _ _ Ek) as (rest & P & _). apply (pool_step_total e pc _ rest). apply (inv_perm _ _ _ P). by constructor.
  - intros k i c Ek Ec. destruct (I5 (Holding i) i c) as [? ?]; [by eapply list_elem_of_lookup_2|by left|done|]. done.
  - intros F. rewrite I3. f_equal. unfold held, len.
    assert (D : sum (map delta (t_procs s)) = 0).
    { clear -F. induction (t_procs s) as [|pc l IH]; [done|]. cbn in F. apply andb_prop in F as [Fp F]. change (delta pc + sum (map delta l) = 0). rewrite IH by done. by destruct pc. }
    rewrite D. assert (Sz : size (m_heap (t_pool s)) = length (m_conns (t_pool s) ++ concat (map owned (t_procs s)))).
    { rewrite <- (size_dom (D := gset Z)). rewrite <- (size_list_to_set (C := gset Z)) by done. f_equal. apply set_eq. intros i. by rewrite elem_of_dom, elem_of_list_to_set, I2. }
    rewrite Sz, length_app. lia.
Qed.

(** Steps of one thread, one after the other. *)
Fixpoint steps (l : list Env) (pc : Pc) (p : HttpConnectionPool) : res (Pc * HttpConnectionPool) :=
  match l with [] => Ok (pc, p) | e :: l => let! (pc, p) := pool_step e pc p in steps l pc p end.

(** what [getConnection] takes: the first connection of the pool that is connected and
    has not lived too long, those before it, and no other, are deleted and no longer
    counted; without such a connection all are, and one is made. *)
Theorem Pool_takes (p : HttpConnectionPool) (rest : list Pc) (e e1 e2 : Env) : pool_inv p (Idle :: rest) ->
  exists bad later ptr p', m_conns p = bad ++ option_list ptr ++ later /\ Forall (invalid p (e_now e)) bad /\
    match ptr with Some i => valid p (e_now e) i | None => later = [] end /\
    steps [e; e1; e2] Idle p = Ok (match ptr with Some i => Holding i | None => Connecting end, p') /\
    m_conns p' = later /\ m_total p' = s32 (m_total p - len bad) /\ (forall i, m_heap p' !! i = if decide (i ∈ bad) then None else m_heap p !! i).
Proof.
  intros I. destruct (others _ _ _ I) as (_ & _ & Lc). destruct (take_valid_spec p (e_now e) (m_conns p) [] Lc) as (bad & later & ptr & E & Ec & F & V).
  pose proof (inv_nodup _ _ I) as N. cbn in N. apply list.NoDup_app in N as (N & _ & _). rewrite Ec in N. apply list.NoDup_app in N as (Nb & _ & _).
  destruct (delete_all_spec bad (m_heap p) Nb) as (h & Ed & Look & _); [intros i Hi; apply Lc; rewrite Ec; set_solver|].
  exists bad, later, ptr. eexists. split; [done|]. split; [done|]. split; [done|]. split.
  - cbn [steps pool_step getConnection]. rewrite E. cbn [rbind pool_step getConnection app set_conns m_heap]. rewrite Ed. cbn [rbind pool_step getConnection]. by destruct ptr.
  - split; [done|]. split; [cbn; f_equal; lia|done].
Qed.

(** ** Runs *)

Definition fresh_env (e : Env) (s : Threads) : bool := match e_made e with Some i => bool_decide (m_heap (t_pool s) !! i = None) | None => true end.

Fixpoint run (l : list (nat * Env)) (s : Threads) : option Threads :=
  match l with
  | [] => Some s
  | (k, e) :: l =>
      match t_procs s !! k with
      | Some pc => if fresh_env e s then match pool_step e pc (t_pool s) with Ok (pc', p') => run l (mkThreads p' (<[k := pc']> (t_procs s))) | _ => None end else None
      | None => None
      end
  end.

Lemma run_reachable s0 l : forall s s', reachable s0 s -> run l s = Some s' -> reachable s0 s'.
Proof.
  induction l as [|[k e] l IH]; intros s s' R E; cbn in E; [by injection E as <-|]. destruct (t_procs s !! k) as [pc|] eqn:Ek; [|done].
  destruct (fresh_env e s) eqn:Fr; [|done]. destruct (pool_step e pc (t_pool s)) as [[pc' p']| |] eqn:Ep; [|done|done].
  apply (IH _ _ (reach_step _ _ _ R (step_thread s k e pc pc' p' Ek ltac:(unfold fresh_env in Fr; intros i Ei; rewrite Ei in Fr; by apply bool_decide_eq_true in Fr) Ep)) E).
Qed.

Definition made (t i : Z) : Env := mkEnv t (Some i).
Definition at_time (t : Z) : Env := mkEnv t None.

(** Two threads take a connection each from a pool of one. *)
Definition both_take : list (nat * Env) :=
  [(0%nat, at_time 0); (1%nat, at_time 0); (0%nat, at_time 0); (1%nat, at_time 0); (0%nat, at_time 0); (1%nat, at_time 0);
   (0%nat, made 0 7); (1%nat, made 0 8); (0%nat, at_time 0); (1%nat, at_time 0)].

Example more_than_max_size :
  option_map (fun s => (m_maxSize (t_pool s), m_total (t_pool s), t_procs s)) (run both_take (start 2 (new_HttpConnectionPool 1 1000 5))) = Some (1, 2, [Holding 7; Holding 8]).
Proof. vm_compute. reflexivity. Qed.

Lemma Pool_connections_witness : exists s, run both_take (start 2 (new_HttpConnectionPool 1 1000 5)) = Some s /\ m_total (t_pool s) = s32 (len (m_conns (t_pool s)) + len (held (t_procs s))).
Proof.
  destruct (run both_take (start 2 (new_HttpConnectionPool 1 1000 5))) as [s|] eqn:E; [|exfalso; vm_compute in E; discriminate]. exists s. split; [reflexivity|].
  destruct (Pool_connections 2 1 1000 5 s) as (_ & _ & _ & _ & H); [lia|exact (run_reachable _ _ _ _ (reach_start _) E)|]. apply H.
  vm_compute in E. injection E as <-. reflexivity.
Defined.

(** A thread gives its connection back; it is taken again, after it has expired it is not. *)
Definition given_back : HttpConnectionPool := set_conn_heap {[7 := mkConn true 0 1]} (set_conns [7] (add_total 1 (new_HttpConnectionPool 1 1000 5))).

Lemma given_back_inv : pool_inv given_back [Idle].
Proof.
  split; cbn [given_back set_conn_heap set_conns add_total new_HttpConnectionPool m_conns m_heap m_total m_maxRequest map concat owned app].
  - apply NoDup_singleton.
  - intros i. destruct (decide (i = 7)) as [->|N]; [split; [by eexists|intros _; by left]|]. rewrite lookup_singleton_ne by done. split; [by intros ?%list_elem_of_singleton|by intros [? ?]].
  - vm_compute. reflexivity.
  - intros i c ->%list_elem_of_singleton. rewrite lookup_singleton_eq. intros [= <-]. cbn. lia.
  - intros pc i c ->%list_elem_of_singleton ?%elem_of_nil. done.
  - lia.
Qed.

Lemma Pool_takes_witness : exists p', steps [at_time 500; at_time 500; at_time 500] Idle given_back = Ok (Holding 7, p').
Proof.
  destruct (Pool_takes given_back [] (at_time 500) (at_time 500) (at_time 500) given_back_inv) as (bad & later & ptr & p' & Ec & F & V & E & _).
  destruct bad as [|b bad].
  - destruct ptr as [i|]; [|cbn in Ec; rewrite V in Ec; discriminate Ec]. cbn in Ec. injection Ec as <- _. exists p'. exact E.
  - exfalso. cbn in Ec. injection Ec as <- _. inversion F as [|? ? [c [Hc B]] _]; subst. vm_compute in Hc. injection Hc as <-. destruct B as [B|B]; vm_compute in B; discriminate B.
Defined.
