(* ===== verification/Hook.v ===== *)
(** Hooked system calls (src/net/hook.cpp) and the descriptors that they know
    (src/net/fd_manager.cpp): a call that would block makes its coroutine wait for the
    event manager instead, with a timer for the timeout of the socket.

    The kernel is a parameter: what a call returns, with [errno], is an argument of the step
    that makes it; of a descriptor the kernel keeps whether it is a socket, and its flags.
    The functions of the event manager are those of [IOManager]; of a condition timer the
    model keeps whether it is armed and, once it has fired, its callback. A coroutine that
    calls is a process, its steps are those between two accesses to what others share. *)
From stdpp Require Import gmap.
From S2P Require Import Prelude Scheduler IOManager.

(** ** Descriptors *)

Record FdCtx := mkFdCtx {
  m_isInit : bool;
  m_isSocket : bool;
  m_sysNonBlock : bool;
  m_userNonBlock : bool;
  m_isClosed : bool;
  m_recvTimeout : Z;
  m_sendTimeout : Z;
}.

Definition set_user (v : bool) (x : FdCtx) : FdCtx :=
  mkFdCtx (m_isInit x) (m_isSocket x) (m_sysNonBlock x) v (m_isClosed x) (m_recvTimeout x) (m_sendTimeout x).
Definition set_sys (v : bool) (x : FdCtx) : FdCtx :=
  mkFdCtx (m_isInit x) (m_isSocket x) v (m_userNonBlock x) (m_isClosed x) (m_recvTimeout x) (m_sendTimeout x).

Definition O_NONBLOCK : Z := 0x800.
Definition SO_RCVTIMEO : Z := 20.
Definition SO_SNDTIMEO : Z := 21.
Definition no_timeout : Z := 2 ^ 64 - 1.

(** What the kernel knows of an open descriptor. *)
Record KernelFd := mkKernelFd { k_socket : bool; k_flags : Z }.
Definition KernelFds : Type := gmap Z KernelFd.

Definition k_setfl (fd flags : Z) (k : KernelFds) : KernelFds := alter (fun x => mkKernelFd (k_socket x) flags) fd k.

(** [FdCtx::FdCtx] and its [init]. *)
Definition new_FdCtx (fd : Z) (k : KernelFds) : FdCtx * KernelFds :=
  match k !! fd with
  | None => (mkFdCtx false false false false false no_timeout no_timeout, k)
  | Some x =>
      if k_socket x then
        (mkFdCtx true true true false false no_timeout no_timeout,
         if Z.land (k_flags x) O_NONBLOCK =? 0 then k_setfl fd (Z.lor (k_flags x) O_NONBLOCK) k else k)
      else (mkFdCtx true false false false false no_timeout no_timeout, k)
  end.

Definition setTimeout (type v : Z) (x : FdCtx) : FdCtx :=
  if type =? SO_RCVTIMEO then mkFdCtx (m_isInit x) (m_isSocket x) (m_sysNonBlock x) (m_userNonBlock x) (m_isClosed x) v (m_sendTimeout x)
  else if type =? SO_SNDTIMEO then mkFdCtx (m_isInit x) (m_isSocket x) (m_sysNonBlock x) (m_userNonBlock x) (m_isClosed x) (m_recvTimeout x) v
  else x.

Definition getTimeout (type : Z) (x : FdCtx) : Z :=
  if type =? SO_RCVTIMEO then m_recvTimeout x else if type =? SO_SNDTIMEO then m_sendTimeout x else no_timeout.

(** [FdManager]: the contexts by descriptor. *)
Definition FdManager : Type := list (option FdCtx).

Definition new_FdManager : FdManager := replicate 64 None.

Definition grow_to (n : nat) (m : FdManager) : FdManager := m ++ replicate (n - length m) None.

(** [FdManager::get] *)
Definition FdManager_get (fd : Z) (auto_create : bool) (k : KernelFds) (m : FdManager) : option FdCtx * KernelFds * FdManager :=
  if fd <? 0 then (None, k, m)
  else
    let create m := let (x, k) := new_FdCtx fd k in (Some x, k, <[Z.to_nat fd := Some x]> m) in
    if len m <=? fd then
      if negb auto_create then (None, k, m) else create (grow_to (Z.to_nat (fd * 3 / 2 + 1)) m)
    else match m !! Z.to_nat fd with
         | Some (Some x) => (Some x, k, m)
         | _ => if negb auto_create then (None, k, m) else create m
         end.

(** [FdManager::del] *)
Definition FdManager_del (fd : Z) (m : FdManager) : FdManager :=
  if (fd <? 0) || (len m <=? fd) then m else <[Z.to_nat fd := None]> m.

(** A member of the context of [fd] is changed. *)
Definition put_ctx_of (fd : Z) (x : FdCtx) (m : FdManager) : FdManager := <[Z.to_nat fd := Some x]> m.

(** What [fcntl] and [ioctl] look at. *)
Definition socket_ctx (fd : Z) (m : FdManager) : option FdCtx :=
  match FdManager_get fd false ∅ m with
  | (Some x, _, _) => if m_isSocket x && negb (m_isClosed x) then Some x else None
  | _ => None
  end.

(** [fcntl(fd, F_SETFL, arg)], and what it answers when the descriptor is open. *)
Definition fcntl_setfl (fd arg : Z) (k : KernelFds) (m : FdManager) : Z * KernelFds * FdManager :=
  let call arg k := match k !! fd with Some _ => (0, k_setfl fd arg k) | None => (-1, k) end in
  match socket_ctx fd m with
  | None => (call arg k, m)
  | Some x =>
      let x := set_user (negb (Z.land arg O_NONBLOCK =? 0)) x in
      let arg := if m_sysNonBlock x then Z.lor arg O_NONBLOCK else Z.land arg (Z.lnot O_NONBLOCK) in
      (call arg k, put_ctx_of fd x m)
  end.

(** [fcntl(fd, F_GETFL)] *)
Definition fcntl_getfl (fd : Z) (k : KernelFds) (m : FdManager) : Z :=
  let arg := match k !! fd with Some x => k_flags x | None => -1 end in
  match socket_ctx fd m with
  | None => arg
  | Some x => if m_userNonBlock x then Z.lor arg O_NONBLOCK else Z.land arg (Z.lnot O_NONBLOCK)
  end.

(** [ioctl(fd, FIONBIO, &v)] *)
Definition ioctl_fionbio (fd : Z) (v : bool) (k : KernelFds) (m : FdManager) : Z * KernelFds * FdManager :=
  let call k :=
    match k !! fd with
    | Some x => (0, k_setfl fd (if v then Z.lor (k_flags x) O_NONBLOCK else Z.land (k_flags x) (Z.lnot O_NONBLOCK)) k)
    | None => (-1, k)
    end in
  match socket_ctx fd m with
  | None => (call k, m)
  | Some x => (call k, put_ctx_of fd (set_sys v x) m)
  end.

(** What the hooked [setsockopt] does for [SO_RCVTIMEO] and [SO_SNDTIMEO] before it calls
    the kernel's. *)
Definition setsockopt_timeout (fd optname tv_sec tv_usec : Z) (m : FdManager) : res FdManager :=
  match FdManager_get fd false ∅ m with
  | (Some x, _, _) =>
      let ms := tv_sec * 1000 + Z.quot tv_usec 1000 in
      if (- 2 ^ 63 <=? tv_sec * 1000) && (tv_sec * 1000 <? 2 ^ 63) && (- 2 ^ 63 <=? ms) && (ms <? 2 ^ 63)
      then Ok (put_ctx_of fd (setTimeout optname (u64 ms) x) m)
      else Crash signed_overflow
  | _ => Ok m
  end.

(** ** Calls *)

Definition EINTR : Z := 4.
Definition EBADF : Z := 9.
Definition EAGAIN : Z := 11.
Definition EINPROGRESS : Z := 115.
Definition ETIMEDOUT : Z := 110.

(** Where a coroutine is in [do_io] or in [connect_with_timeout]; at the end, the result
    and [errno]. *)
Inductive IoPc :=
  | IoStart
  | IoDirect
  | IoCall
  | IoTimer
  | IoAdd
  | IoWait
  | IoResume
  | IoError
  | IoDone (n errno : Z).

(** A call, which may be one of [connect_with_timeout]: [tinfo->cancelled] is that of the call with the number [io_gen] of the
    coroutine; [io_timer] is the timer that the last wait has made. *)
Record Io := mkIo {
  io_connect : bool;
  io_pc : IoPc;
  io_fd : Z;
  io_event : Z;
  io_so : Z;
  io_timeout : Z;
  io_timer : option nat;
  io_cancelled : Z;
  io_gen : nat;
}.

Definition set_pc (pc : IoPc) (x : Io) : Io := mkIo (io_connect x) pc (io_fd x) (io_event x) (io_so x) (io_timeout x) (io_timer x) (io_cancelled x) (io_gen x).
Definition set_timeout (v : Z) (x : Io) : Io := mkIo (io_connect x) (io_pc x) (io_fd x) (io_event x) (io_so x) v (io_timer x) (io_cancelled x) (io_gen x).
Definition set_timer (t : option nat) (x : Io) : Io := mkIo (io_connect x) (io_pc x) (io_fd x) (io_event x) (io_so x) (io_timeout x) t (io_cancelled x) (io_gen x).
Definition set_cancelled (v : Z) (x : Io) : Io := mkIo (io_connect x) (io_pc x) (io_fd x) (io_event x) (io_so x) (io_timeout x) (io_timer x) v (io_gen x).

Definition no_call : Io := mkIo false (IoDone 0 0) 0 READ 0 no_timeout None 0 0.
Definition is_done (x : Io) : bool := match io_pc x with IoDone _ _ => true | _ => false end.

(** A condition timer: the call that it is for, what it cancels. *)
Record CondTimer := mkCondTimer { ct_co : nat; ct_gen : nat; ct_fd : Z; ct_event : Z; ct_armed : bool }.

Definition disarm (t : CondTimer) : CondTimer := mkCondTimer (ct_co t) (ct_gen t) (ct_fd t) (ct_event t) false.

(** A callback that is run: it locks the call that it is for, then cancels. *)
Inductive IoCallback :=
  | CbLock (co gen : nat) (fd event : Z)
  | CbCancel (fd event : Z).

Record Hooks := mkHooks {
  h_enable : bool;
  h_io : IOManager;
  h_fds : FdManager;
  h_calls : list Io;
  h_timers : list CondTimer;
  h_cbs : list IoCallback;
  h_ready : list wake;
}.

Definition with_io (io : IOManager) (ws : list wake) (s : Hooks) : Hooks :=
  mkHooks (h_enable s) io (h_fds s) (h_calls s) (h_timers s) (h_cbs s) (h_ready s ++ ws).
Definition with_fds (m : FdManager) (s : Hooks) : Hooks :=
  mkHooks (h_enable s) (h_io s) m (h_calls s) (h_timers s) (h_cbs s) (h_ready s).
Definition with_call (c : nat) (x : Io) (s : Hooks) : Hooks :=
  mkHooks (h_enable s) (h_io s) (h_fds s) (<[c := x]> (h_calls s)) (h_timers s) (h_cbs s) (h_ready s).
Definition with_timers (l : list CondTimer) (s : Hooks) : Hooks :=
  mkHooks (h_enable s) (h_io s) (h_fds s) (h_calls s) l (h_cbs s) (h_ready s).
Definition with_cbs (l : list IoCallback) (s : Hooks) : Hooks :=
  mkHooks (h_enable s) (h_io s) (h_fds s) (h_calls s) (h_timers s) l (h_ready s).
Definition with_ready (l : list wake) (s : Hooks) : Hooks :=
  mkHooks (h_enable s) (h_io s) (h_fds s) (h_calls s) (h_timers s) (h_cbs s) l.

Definition cancel_timer (t : option nat) (s : Hooks) : Hooks :=
  match t with Some t => with_timers (alter disarm t (h_timers s)) s | None => s end.

(** What [do_io] does before its loop. *)
Definition do_io_start (x : Io) (s : Hooks) : Io :=
  if negb (h_enable s) then set_pc IoDirect x
  else match FdManager_get (io_fd x) false ∅ (h_fds s) with
       | (Some ctx, _, _) =>
           if m_isClosed ctx then set_pc (IoDone (-1) EBADF) x
           else if negb (m_isSocket ctx) || m_userNonBlock ctx then set_pc IoDirect x
           else set_pc IoCall (set_timeout (getTimeout (io_so x) ctx) x)
       | _ => set_pc IoDirect x
       end.

(** What [connect_with_timeout] does before it connects. *)
Definition connect_start (x : Io) (s : Hooks) : Io :=
  if negb (h_enable s) then set_pc IoDirect x
  else match FdManager_get (io_fd x) false ∅ (h_fds s) with
       | (Some ctx, _, _) =>
           if m_isClosed ctx then set_pc (IoDone (-1) EBADF) x
           else if negb (m_isSocket ctx) then set_pc IoDirect x
           else if m_userNonBlock ctx then set_pc IoDirect x
           else set_pc IoCall x
       | _ => set_pc (IoDone (-1) EBADF) x
       end.

(** What the kernel answers to the step of a call: the result of the system call and its
    [errno]; whether [epoll_ctl] works; the error of the socket. *)
Record Answer := mkAnswer { a_n : Z; a_errno : Z; a_epoll : bool; a_error : Z }.

(** The timer of a wait. *)
Definition add_timer_step (c : nat) (x : Io) (s : Hooks) : Hooks :=
  if io_timeout x =? no_timeout then with_call c (set_pc IoAdd (set_timer None x)) s
  else
    let t := length (h_timers s) in
    with_timers (h_timers s ++ [mkCondTimer c (io_gen x) (io_fd x) (io_event x) true]) (with_call c (set_pc IoAdd (set_timer (Some t) x)) s).

(** The coroutine waits, or, if the event manager refuses, goes on at [refused]. The
    coroutine that takes a step is the one that its thread executes. *)
Definition add_event_step (sch c : nat) (epoll : bool) (refused : IoPc) (x : Io) (s : Hooks) : res Hooks :=
  let! (rt, io) := addEvent epoll (io_fd x) (io_event x) (Some sch) EXEC (Co c) (h_io s) in
  if rt then Ok (with_call c (set_pc IoWait x) (with_io io [] s))
  else Ok (with_call c (set_pc refused x) (cancel_timer (io_timer x) (with_io io [] s))).

(** After the wait: the call was cancelled, or goes on at [next]. *)
Definition resume_step (c : nat) (next : IoPc) (x : Io) (s : Hooks) : Hooks :=
  let s := cancel_timer (io_timer x) s in
  if negb (io_cancelled x =? 0) then with_call c (set_pc (IoDone (-1) (io_cancelled x)) x) s
  else with_call c (set_pc next x) s.

(** One step of [do_io] by the coroutine [c], on the scheduler [sch]. *)
Definition do_io_step (sch c : nat) (a : Answer) (x : Io) (s : Hooks) : res Hooks :=
  match io_pc x with
  | IoStart => Ok (with_call c (do_io_start x s) s)
  | IoDirect => Ok (with_call c (set_pc (IoDone (a_n a) (a_errno a)) x) s)
  | IoCall =>
      if (a_n a =? -1) && (a_errno a =? EINTR) then Ok s
      else if (a_n a =? -1) && (a_errno a =? EAGAIN) then Ok (with_call c (set_pc IoTimer x) s)
      else Ok (with_call c (set_pc (IoDone (a_n a) (a_errno a)) x) s)
  | IoTimer => Ok (add_timer_step c x s)
  | IoAdd => add_event_step sch c (a_epoll a) (IoDone (-1) (a_errno a)) x s
  | IoResume => Ok (resume_step c IoCall x s)
  | IoWait | IoError | IoDone _ _ => Ok s
  end.

(** One step of [connect_with_timeout]. *)
Definition connect_step (sch c : nat) (a : Answer) (x : Io) (s : Hooks) : res Hooks :=
  match io_pc x with
  | IoStart => Ok (with_call c (connect_start x s) s)
  | IoDirect => Ok (with_call c (set_pc (IoDone (a_n a) (a_errno a)) x) s)
  | IoCall =>
      if a_n a =? 0 then Ok (with_call c (set_pc (IoDone 0 (a_errno a)) x) s)
      else if negb (a_n a =? -1) || negb (a_errno a =? EINPROGRESS) then Ok (with_call c (set_pc (IoDone (a_n a) (a_errno a)) x) s)
      else Ok (with_call c (set_pc IoTimer x) s)
  | IoTimer => Ok (add_timer_step c x s)
  | IoAdd => add_event_step sch c (a_epoll a) IoError x s
  | IoResume => Ok (resume_step c IoError x s)
  | IoError =>
      if a_n a =? -1 then Ok (with_call c (set_pc (IoDone (-1) (a_errno a)) x) s)
      else if a_error a =? 0 then Ok (with_call c (set_pc (IoDone 0 (a_errno a)) x) s)
      else Ok (with_call c (set_pc (IoDone (-1) (a_error a)) x) s)
  | IoWait | IoDone _ _ => Ok s
  end.

(** One step of the callback of a timer. *)
Definition callback_step (epoll : bool) (j : nat) (s : Hooks) : res Hooks :=
  match h_cbs s !! j with
  | None => Ok s
  | Some (CbLock co gen fd event) =>
      let dropped := with_cbs (delete j (h_cbs s)) s in
      match h_calls s !! co with
      | Some x =>
          if bool_decide (io_gen x = gen) && negb (is_done x) && (io_cancelled x =? 0)
          then Ok (with_cbs (<[j := CbCancel fd event]> (h_cbs s)) (with_call co (set_cancelled ETIMEDOUT x) s))
          else Ok dropped
      | None => Ok dropped
      end
  | Some (CbCancel fd event) =>
      let! (_, ws, io) := cancelEvent epoll fd event (h_io s) in
      Ok (with_cbs (delete j (h_cbs s)) (with_io io ws s))
  end.

(** The hooked [close]. *)
Definition hook_close (epoll : bool) (fd : Z) (s : Hooks) : res Hooks :=
  if negb (h_enable s) then Ok s
  else match FdManager_get fd false ∅ (h_fds s) with
       | (Some _, _, _) =>
           let! (_, ws, io) := cancelAll epoll fd (h_io s) in
           Ok (with_fds (FdManager_del fd (h_fds s)) (with_io io ws s))
       | _ => Ok s
       end.

(** What happens: a coroutine calls, connects, or goes on; a timer fires; a callback goes on; a
    report of [epoll_wait] is taken up; a coroutine that was scheduled is resumed; a
    descriptor is closed. *)
Inductive hook_label :=
  | LCall (c : nat) (fd event so : Z)
  | LConnect (c : nat) (fd timeout_ms : Z)
  | LGo (c : nat) (a : Answer)
  | LFire (t : nat)
  | LCallback (j : nat) (epoll : bool)
  | LReport (fd events : Z) (epoll : bool)
  | LResume (j : nat)
  | LClose (fd : Z) (epoll : bool).

Definition hook_step (sch : nat) (l : hook_label) (s : Hooks) : res Hooks :=
  match l with
  | LCall c fd event so =>
      match h_calls s !! c with
      | Some x => if is_done x then Ok (with_call c (mkIo false IoStart fd event so no_timeout None 0 (S (io_gen x))) s) else Ok s
      | None => Ok s
      end
  | LConnect c fd timeout_ms =>
      match h_calls s !! c with
      | Some x => if is_done x then Ok (with_call c (mkIo true IoStart fd WRITE SO_SNDTIMEO timeout_ms None 0 (S (io_gen x))) s) else Ok s
      | None => Ok s
      end
  | LGo c a =>
      match h_calls s !! c with
      | Some x => if io_connect x then connect_step sch c a x s else do_io_step sch c a x s
      | None => Ok s
      end
  | LFire t =>
      match h_timers s !! t with
      | Some x =>
          if ct_armed x then Ok (with_cbs (h_cbs s ++ [CbLock (ct_co x) (ct_gen x) (ct_fd x) (ct_event x)]) (with_timers (alter disarm t (h_timers s)) s))
          else Ok s
      | None => Ok s
      end
  | LCallback j epoll => callback_step epoll j s
  | LReport fd events epoll => let! (ws, io) := dispatch epoll (Z.to_nat fd) events (h_io s) in Ok (with_io io ws s)
  | LResume j =>
      match h_ready s !! j with
      | Some (_, Co c) =>
          match h_calls s !! c with
          | Some x =>
              (* a coroutine that is resumed is one that has yielded *)
              match io_pc x with IoWait => Ok (with_ready (delete j (h_ready s)) (with_call c (set_pc IoResume x) s)) | _ => Crash assertion_failed end
          | None => Crash assertion_failed
          end
      | Some (_, Cb _) => Ok (with_ready (delete j (h_ready s)) s)
      | None => Ok s
      end
  | LClose fd epoll => hook_close epoll fd s
  end.

Fixpoint hook_run (sch : nat) (ls : list hook_label) (s : Hooks) : res Hooks :=
  match ls with [] => Ok s | l :: ls => let! s := hook_step sch l s in hook_run sch ls s end.

(** [sleep], [usleep] and [nanosleep]: the milliseconds of the timer that wakes the
    coroutine. *)
Definition sleep_ms (seconds : Z) : Z := u32 (seconds * 1000).
Definition usleep_ms (usec : Z) : Z := usec / 1000.
Definition nanosleep_ms (tv_sec tv_nsec : Z) : res Z :=
  let s := tv_sec * 1000 in
  let ms := s + Z.quot (Z.quot tv_nsec 1000) 1000 in
  if (- 2 ^ 63 <=? s) && (s <? 2 ^ 63) && (- 2 ^ 63 <=? ms) && (ms <? 2 ^ 63) then Ok (u64 ms) else Crash signed_overflow.

(** The hooked [socket]; the descriptor is that of the kernel. *)
Definition hook_socket (enable : bool) (fd : Z) (k : KernelFds) (m : FdManager) : KernelFds * FdManager :=
  if negb enable || (fd =? -1) then (k, m) else let '(_, k, m) := FdManager_get fd true k m in (k, m).

(** What the hooked [accept] does with the descriptor that [do_io] returned. *)
Definition accept_register (fd : Z) (k : KernelFds) (m : FdManager) : KernelFds * FdManager :=
  if 0 <=? fd then let '(_, k, m) := FdManager_get fd true k m in (k, m) else (k, m).

(** Coroutines that have called nothing. *)
Definition new_Hooks (n : nat) (fds : FdManager) : Hooks := mkHooks true new_IOManager fds (replicate n no_call) [] [] [].
