(* ===== verification/HookSpec.v ===== *)
(** Hooked calls: what the descriptors show, what a call returns, and that a coroutine
    which waits is woken exactly once, by an event, a timer or a close. *)
From stdpp Require Import gmap.
From S2P Require Import Prelude Scheduler IOManager IOManagerSpec Hook.
#[local] Set Warnings "-clear-no-such-hyp".

(** ** Waking *)

(** An operation takes the waiters of the rows that [sel] names, and wakes them. *)
Definition wakes (m : table_of) (ws : list wake) (m' : table_of) : Prop :=
  exists sel : Z -> Z -> bool,
    (forall fd ev, is_event ev -> ev_get ev (m' fd) = if sel fd ev then None else ev_get ev (m fd)) /\
    (forall wk, wk ∈ ws <-> exists fd ev, is_event ev /\ sel fd ev = true /\ ev_get ev (m fd) = Some wk) /\
    ((forall fd x, m fd = x -> x.1 <> x.2 \/ x.1 = None) -> NoDup ws).

Lemma ev_get_set ev ev' o x : is_event ev -> is_event ev' -> ev_get ev (ev_set ev' o x) = if ev =? ev' then o else ev_get ev x.
Proof. by intros [-> | ->] [-> | ->]. Qed.

Lemma wakes_nothing m : wakes m [] m.
Proof. exists (fun _ _ => false). split; [done|]. split; [intros wk; split; [by intros ?%elem_of_nil|by intros (? & ? & ? & ? & ?)]|constructor]. Qed.

(** Those of one descriptor. *)
Lemma wakes_fd m fd r w ws x : ws = woken r w (m fd) -> x = left_over r w (m fd) -> wakes m ws (put_row fd x m).
Proof.
  intros -> ->. exists (fun fd' ev => (fd' =? fd) && (if ev =? READ then r else w)). split; [|split].
  - intros fd' ev Ev. unfold put_row. destruct (Z.eqb_spec fd' fd) as [->|]; [|done]. by destruct Ev as [-> | ->]; destruct r, w.
  - intros wk. unfold woken. split.
    + intros [H|H]%elem_of_app.
      * exists fd, READ. destruct r; [|by apply elem_of_nil in H]. rewrite Z.eqb_refl. split; [by left|]. split; [done|]. cbn. by destruct (m fd).1; [apply list_elem_of_singleton in H as ->|apply elem_of_nil in H].
      * exists fd, WRITE. destruct w; [|by apply elem_of_nil in H]. rewrite Z.eqb_refl. split; [by right|]. split; [done|]. cbn. by destruct (m fd).2; [apply list_elem_of_singleton in H as ->|apply elem_of_nil in H].
    + intros (fd' & ev & Ev & S & E). apply andb_prop in S as [->%Z.eqb_eq S]. apply elem_of_app. destruct Ev as [-> | ->]; cbn in S, E; subst.
      * left. rewrite E. by left.
      * right. rewrite E. by left.
  - intros D. unfold woken. specialize (D fd _ eq_refl). destruct (m fd) as [[a|] [b|]]; destruct r, w; cbn in *; try apply NoDup_singleton; try apply NoDup_nil_2.
    apply list.NoDup_cons. split; [|apply NoDup_singleton]. intros ->%list_elem_of_singleton. by destruct D.
Qed.

(** What [cancelEvent], [cancelAll] and a report do to the table. *)
Lemma cancel_wakes ok fd ev m b ws : good fd ev = true -> (spec_op ok (Cancel fd ev) m).1 = Ok (b, ws) -> wakes m ws (spec_op ok (Cancel fd ev) m).2.
Proof.
  intros G. cbn [spec_op]. rewrite G. cbn [negb]. destruct (good_spec _ _ G) as (_ & Ev & _). destruct (ev_get ev (m fd)) as [wk|] eqn:E.
  - destruct ok; cbn; intros [= <- <-]; [|apply wakes_nothing].
    apply (wakes_fd m fd (ev =? READ) (ev =? WRITE)); destruct Ev as [-> | ->]; cbn in *; rewrite ?E; try done; by destruct (m fd).
  - cbn. intros [= <- <-]. apply wakes_nothing.
Qed.

Lemma cancelAll_wakes ok fd m b ws : (spec_op ok (CancelAll fd) m).1 = Ok (b, ws) -> wakes m ws (spec_op ok (CancelAll fd) m).2.
Proof.
  cbn [spec_op]. destruct (fd <? 0); [done|]. destruct (_ || _); cbn; intros [= <- <-]; [apply wakes_nothing|]. by apply (wakes_fd m fd true true).
Qed.

Lemma put_same fd (m : table_of) fd' : put_row fd (m fd) m fd' = m fd'.
Proof. unfold put_row. by destruct (Z.eqb_spec fd' fd) as [->|]. Qed.

Lemma report_wakes ok fd evs m b ws : (spec_op ok (Report fd evs) m).1 = Ok (b, ws) -> wakes m ws (spec_op ok (Report fd evs) m).2.
Proof.
  cbn [spec_op]. destruct (reports evs (m fd)) as [r w]. unfold answer. destruct (_ || negb ok).
  - cbn. intros [= <- <-]. destruct (wakes_nothing m) as (sel & P1 & P2 & P3). exists sel. split; [|done]. intros fd' ev Ev. rewrite put_same. by apply P1.
  - destruct (_ || _); cbn; [done|]. intros [= <- <-]. by apply (wakes_fd m fd r w).
Qed.

(** ** The invariant *)

Section hooks.
Context (sch : nat).

Definition busy (x : Io) : bool := match io_pc x with IoStart | IoDirect | IoDone _ _ => false | _ => true end.
Definition waiting (x : Io) : Prop := io_pc x = IoWait.

Definition cb_ok (cb : IoCallback) : Prop :=
  match cb with CbLock _ _ fd ev | CbCancel fd ev => good fd ev = true /\ fd < 2 ^ 31 end.

Record hook_inv (m : table_of) (s : Hooks) : Prop := {
  hi_row fd ev wk : is_event ev -> ev_get ev (m fd) = Some wk ->
    (wk ∉ h_ready s) /\ exists c x, wk = (sch, Co c) /\ h_calls s !! c = Some x /\ waiting x /\ io_fd x = fd /\ io_event x = ev;
  hi_ready wk : wk ∈ h_ready s -> exists c x, wk = (sch, Co c) /\ h_calls s !! c = Some x /\ waiting x;
  hi_nodup : NoDup (h_ready s);
  hi_wait c x : h_calls s !! c = Some x -> waiting x -> (sch, Co c) ∈ h_ready s \/ ev_get (io_event x) (m (io_fd x)) = Some (sch, Co c);
  hi_call c x : h_calls s !! c = Some x -> is_event (io_event x) /\ io_fd x < 2 ^ 31 /\ (busy x = true -> 0 <= io_fd x);
  hi_excl c c' x x' : h_calls s !! c = Some x -> h_calls s !! c' = Some x' -> is_done x = false -> is_done x' = false ->
    io_fd x = io_fd x' -> io_event x = io_event x' -> c = c';
  hi_timer t : t ∈ h_timers s -> good (ct_fd t) (ct_event t) = true /\ ct_fd t < 2 ^ 31;
  hi_cb cb : cb ∈ h_cbs s -> cb_ok cb;
}.

Definition hinv (s : Hooks) : Prop := exists l m, table (h_io s) l /\ represents l m /\ hook_inv m s.

Lemma waiting_busy x : waiting x -> busy x = true /\ is_done x = false.
Proof. unfold waiting, busy, is_done. by intros ->. Qed.

Lemma rows_differ m s fd x : hook_inv m s -> m fd = x -> x.1 <> x.2 \/ x.1 = None.
Proof.
  intros I <-. destruct (m fd) as [[a|] [b|]] eqn:E; cbn; try (by right); left; try done. intros [= ->].
  destruct (hi_row _ _ I fd READ b) as (_ & c & x & -> & Ec & _ & _ & E1); [by left|by rewrite E|].
  destruct (hi_row _ _ I fd WRITE (sch, Co c)) as (_ & c' & x' & [= <-] & Ec' & _ & _ & E2); [by right|by rewrite E|].
  assert (x' = x) as -> by congruence. rewrite E1 in E2. discriminate E2.
Qed.

(** Waking keeps the invariant. *)
Lemma inv_wakes m ws m' io s : hook_inv m s -> wakes m ws m' -> hook_inv m' (with_io io ws s).
Proof.
  intros I (sel & Row & Wk & Nd). specialize (Nd (fun fd x => rows_differ m s fd x I)). split; cbn [with_io h_ready h_calls h_timers h_cbs].
  - intros fd ev wk Ev. rewrite Row by done. destruct (sel fd ev) eqn:Es; [done|]. intros E.
    destruct (hi_row _ _ I fd ev wk Ev E) as (Nr & c & x & -> & Ec & W & E1 & E2). split; [|by exists c, x].
    intros [?|H]%elem_of_app; [done|]. apply Wk in H as (fd' & ev' & Ev' & Es' & E').
    destruct (hi_row _ _ I fd' ev' _ Ev' E') as (_ & c' & x' & [= <-] & Ec' & _ & E1' & E2'). congruence.
  - intros wk [H|H]%elem_of_app; [by apply (hi_ready _ _ I)|]. apply Wk in H as (fd & ev & Ev & _ & E).
    destruct (hi_row _ _ I fd ev wk Ev E) as (_ & c & x & -> & Ec & W & _). by exists c, x.
  - apply list.NoDup_app. split; [apply (hi_nodup _ _ I)|]. split; [|done]. intros wk H Hw. apply Wk in Hw as (fd & ev & Ev & _ & E).
    by destruct (hi_row _ _ I fd ev wk Ev E) as (Nr & _).
  - intros c x Ec W. destruct (hi_wait _ _ I c x Ec W) as [H|E]; [left; set_solver|]. destruct (hi_call _ _ I c x Ec) as (Ev & _).
    rewrite Row by done. destruct (sel (io_fd x) (io_event x)) eqn:Es; [|by right]. left. apply elem_of_app. right. apply Wk. by exists (io_fd x), (io_event x).
  - apply (hi_call _ _ I).
  - apply (hi_excl _ _ I).
  - apply (hi_timer _ _ I).
  - apply (hi_cb _ _ I).
Qed.

(** A call goes on, and does not begin or end to wait. *)
Lemma inv_call m s c x x' : hook_inv m s -> h_calls s !! c = Some x -> (waiting x' <-> waiting x) ->
  io_fd x' = io_fd x -> io_event x' = io_event x -> (is_done x' = false -> is_done x = false) -> (busy x' = true -> 0 <= io_fd x) ->
  hook_inv m (with_call c x' s).
Proof.
  intros I Ec W Ef Ee Dn Bz.
  assert (Look : forall d y, <[c := x']> (h_calls s) !! d = Some y -> exists y0, h_calls s !! d = Some y0 /\ (waiting y <-> waiting y0) /\ io_fd y = io_fd y0 /\ io_event y = io_event y0 /\
    (is_done y = false -> is_done y0 = false) /\ (busy y = true -> 0 <= io_fd y0)).
  { intros d y. destruct (decide (c = d)) as [<-|N].
    - rewrite list_lookup_insert_eq by (by eapply lookup_lt_Some). intros [= <-]. by exists x.
    - rewrite list_lookup_insert_ne by done. intros Ed. exists y. split_and!; try done. intros B. by destruct (hi_call _ _ I d y Ed) as (_ & _ & H); apply H. }
  assert (Back : forall d y, h_calls s !! d = Some y -> exists y', <[c := x']> (h_calls s) !! d = Some y' /\ (waiting y -> waiting y') /\ io_fd y' = io_fd y /\ io_event y' = io_event y).
  { intros d y Ed. destruct (decide (c = d)) as [<-|N].
    - rewrite list_lookup_insert_eq by (by eapply lookup_lt_Some). exists x'. assert (y = x) as -> by congruence. split_and!; try done. by apply W.
    - rewrite list_lookup_insert_ne by done. by exists y. }
  split; cbn [with_call h_ready h_calls h_timers h_cbs].
  - intros fd ev wk Ev E. destruct (hi_row _ _ I fd ev wk Ev E) as (Nr & d & y & -> & Ed & Wy & <- & <-). split; [done|].
    destruct (Back d y Ed) as (y' & Ed' & Wy' & ? & ?). exists d, y'. split_and!; try done. by apply Wy'.
  - intros wk H. destruct (hi_ready _ _ I wk H) as (d & y & -> & Ed & Wy). destruct (Back d y Ed) as (y' & Ed' & Wy' & _). exists d, y'. split_and!; try done. by apply Wy'.
  - apply (hi_nodup _ _ I).
  - intros d y (y0 & Ed & Wy & -> & -> & _)%Look H. apply (hi_wait _ _ I d y0 Ed). by apply Wy.
  - intros d y (y0 & Ed & Wy & -> & -> & _ & B)%Look. by destruct (hi_call _ _ I d y0 Ed) as (? & ? & _).
  - intros d d' y y' (y0 & Ed & _ & -> & -> & D & _)%Look (y0' & Ed' & _ & -> & -> & D' & _)%Look H H' E1 E2. apply (hi_excl _ _ I d d' y0 y0'); auto.
  - apply (hi_timer _ _ I).
  - apply (hi_cb _ _ I).
Qed.


(** Timers and callbacks that come and go. *)
Lemma inv_timers m s l : hook_inv m s -> (forall t, t ∈ l -> good (ct_fd t) (ct_event t) = true /\ ct_fd t < 2 ^ 31) -> hook_inv m (with_timers l s).
Proof. intros [I1 I2 I3 I4 I5 I6 I7 I8] L. by split. Qed.

Lemma inv_cbs m s l : hook_inv m s -> (forall cb, cb ∈ l -> cb_ok cb) -> hook_inv m (with_cbs l s).
Proof. intros [I1 I2 I3 I4 I5 I6 I7 I8] L. by split. Qed.

Lemma inv_fds m s l : hook_inv m s -> hook_inv m (with_fds l s).
Proof. intros [I1 I2 I3 I4 I5 I6 I7 I8]. by split. Qed.

Lemma disarm_ok (l : list CondTimer) (t : nat) : (forall x, x ∈ l -> good (ct_fd x) (ct_event x) = true /\ ct_fd x < 2 ^ 31) ->
  forall x, x ∈ alter disarm t l -> good (ct_fd x) (ct_event x) = true /\ ct_fd x < 2 ^ 31.
Proof.
  intros H x Hx. apply list_elem_of_lookup in Hx as [i Ei]. rewrite list_lookup_alter in Ei.
  case_decide as Et; [subst t|].
  - destruct (l !! i) as [y|] eqn:Ey; [|done]. injection Ei as <-. apply (H y). by eapply list_elem_of_lookup_2.
  - apply H. by eapply list_elem_of_lookup_2.
Qed.

Lemma inv_cancel_timer m s t : hook_inv m s -> hook_inv m (cancel_timer t s).
Proof. intros I. destruct t as [t|]; [|done]. apply inv_timers; [done|]. apply disarm_ok, (hi_timer _ _ I). Qed.

(** The call of one coroutine is replaced. *)
Lemma call_at (calls : list Io) c x x' d y : calls !! c = Some x -> <[c := x']> calls !! d = Some y -> (d = c /\ y = x') \/ (d <> c /\ calls !! d = Some y).
Proof.
  intros Ec. destruct (decide (c = d)) as [<-|N]; [rewrite list_lookup_insert_eq by (by eapply lookup_lt_Some); intros [= <-]; by left|].
  rewrite list_lookup_insert_ne by done. by right.
Qed.

Lemma same_excl m s c x x' d d' y y' : hook_inv m s -> h_calls s !! c = Some x -> is_done x' = is_done x -> io_fd x' = io_fd x -> io_event x' = io_event x ->
  <[c := x']> (h_calls s) !! d = Some y -> <[c := x']> (h_calls s) !! d' = Some y' -> is_done y = false -> is_done y' = false ->
  io_fd y = io_fd y' -> io_event y = io_event y' -> d = d'.
Proof.
  intros I Ec E1 E2 E3 H H'.
  assert (T : forall d y, <[c := x']> (h_calls s) !! d = Some y -> exists y0, h_calls s !! d = Some y0 /\ is_done y0 = is_done y /\ io_fd y0 = io_fd y /\ io_event y0 = io_event y).
  { intros e z Hz. destruct (call_at _ _ _ _ _ _ Ec Hz) as [[-> ->]|[N Ed]]; [by exists x|by exists z]. }
  destruct (T d y H) as (y0 & Ed & <- & <- & <-), (T d' y' H') as (y0' & Ed' & <- & <- & <-). by apply (hi_excl _ _ I d d' y0 y0').
Qed.

(** A coroutine that was woken is resumed. *)
Lemma inv_resume m s j c x : hook_inv m s -> h_ready s !! j = Some (sch, Co c) -> h_calls s !! c = Some x -> waiting x ->
  hook_inv m (with_ready (delete j (h_ready s)) (with_call c (set_pc IoResume x) s)).
Proof.
  intros I Ej Ec W. destruct (waiting_busy x W) as [Bx Dx].
  assert (P : h_ready s ≡ₚ (sch, Co c) :: delete j (h_ready s)) by (by apply delete_Permutation).
  pose proof (hi_nodup _ _ I) as Nd. rewrite P in Nd. apply list.NoDup_cons in Nd as [Nj Nd].
  pose proof (fun d y => call_at (h_calls s) c x (set_pc IoResume x) d y Ec) as Look.
  split; cbn [with_ready with_call h_ready h_calls h_timers h_cbs].
  - intros fd ev wk Ev E. destruct (hi_row _ _ I fd ev wk Ev E) as (Nr & d & y & -> & Ed & Wy & E1 & E2).
    assert (Nd' : d <> c) by (intros ->; apply Nr; by eapply list_elem_of_lookup_2).
    split; [intros H; apply Nr; rewrite P; by right|]. exists d, y. by rewrite list_lookup_insert_ne.
  - intros wk H. destruct (hi_ready _ _ I wk) as (d & y & -> & Ed & Wy); [rewrite P; by right|].
    assert (d <> c) by (intros ->; done). exists d, y. by rewrite list_lookup_insert_ne.
  - done.
  - intros d y [[-> ->]|[N Ed]]%Look Wy; [done|]. destruct (hi_wait _ _ I d y Ed Wy) as [H|H]; [|by right]. left. rewrite P in H. apply elem_of_cons in H as [[= ->]|H]; done.
  - intros d y [[-> ->]|[N Ed]]%Look; [|by apply (hi_call _ _ I d)]. destruct (hi_call _ _ I c x Ec) as (? & ? & B). split_and!; [done|done|]. intros _. by apply B.
  - intros d d' y y'. by apply (same_excl m s c x).
  - apply (hi_timer _ _ I).
  - apply (hi_cb _ _ I).
Qed.

(** A coroutine begins to wait. *)
Lemma inv_wait m s c x io : hook_inv m s -> h_calls s !! c = Some x -> busy x = true -> ~ waiting x ->
  hook_inv (put_row (io_fd x) (ev_set (io_event x) (Some (sch, Co c)) (m (io_fd x))) m) (with_call c (set_pc IoWait x) (with_io io [] s)).
Proof.
  intros I Ec B Nw. destruct (hi_call _ _ I c x Ec) as (Ev & Lf & _). assert (Dx : is_done x = false) by (unfold busy, is_done in *; by destruct (io_pc x)).
  set (m' := put_row _ _ m).
  assert (Row : forall fd ev, is_event ev -> ev_get ev (m' fd) = if (fd =? io_fd x) && (ev =? io_event x) then Some (sch, Co c) else ev_get ev (m fd)).
  { intros fd ev Ev'. unfold m', put_row. destruct (Z.eqb_spec fd (io_fd x)) as [->|]; [|done]. rewrite ev_get_set by done. rewrite Z.eqb_sym. by destruct (ev =? io_event x). }
  pose proof (fun d y => call_at (h_calls s) c x (set_pc IoWait x) d y Ec) as Look.
  assert (Nr : (sch, Co c) ∉ h_ready s) by (intros H; destruct (hi_ready _ _ I _ H) as (d & y & [= <-] & Ed & Wy); congruence).
  split; cbn [with_call with_io h_ready h_calls h_timers h_cbs]; rewrite ?app_nil_r.
  - intros fd ev wk Ev'. rewrite Row by done. destruct (Z.eqb_spec fd (io_fd x)) as [->|N1]; [destruct (Z.eqb_spec ev (io_event x)) as [->|N2]|]; cbn [andb].
    + intros [= <-]. split; [done|]. exists c, (set_pc IoWait x). split; [done|]. rewrite list_lookup_insert_eq by (by eapply lookup_lt_Some). done.
    + intros E. destruct (hi_row _ _ I _ ev wk Ev' E) as (Nr' & d & y & -> & Ed & Wy & E1 & E2). split; [done|]. exists d, y.
      rewrite list_lookup_insert_ne; [done|]. intros ->. congruence.
    + intros E. destruct (hi_row _ _ I _ ev wk Ev' E) as (Nr' & d & y & -> & Ed & Wy & E1 & E2). split; [done|]. exists d, y.
      rewrite list_lookup_insert_ne; [done|]. intros ->. congruence.
  - intros wk H. destruct (hi_ready _ _ I wk H) as (d & y & -> & Ed & Wy). exists d, y. rewrite list_lookup_insert_ne; [done|]. intros ->. congruence.
  - apply (hi_nodup _ _ I).
  - intros d y [[-> ->]|[N Ed]]%Look Wy.
    + right. cbn. rewrite Row by done. by rewrite !Z.eqb_refl.
    + destruct (hi_wait _ _ I d y Ed Wy) as [H|H]; [by left|right]. destruct (hi_call _ _ I d y Ed) as (Ev' & _). rewrite Row by done.
      destruct (Z.eqb_spec (io_fd y) (io_fd x)) as [E1|]; [destruct (Z.eqb_spec (io_event y) (io_event x)) as [E2|]|]; cbn [andb]; try done.
      destruct N. apply (hi_excl _ _ I d c y x); try done. by apply waiting_busy.
  - intros d y [[-> ->]|[N Ed]]%Look; [|by apply (hi_call _ _ I d)]. destruct (hi_call _ _ I c x Ec) as (? & ? & Bx). split_and!; [done|done|]. intros _. by apply Bx.
  - intros d d' y y'. by apply (same_excl m s c x).
  - apply (hi_timer _ _ I).
  - apply (hi_cb _ _ I).
Qed.

(** A coroutine calls. *)
Lemma inv_new m s c x x' : hook_inv m s -> h_calls s !! c = Some x -> is_done x = true -> io_pc x' = IoStart -> is_event (io_event x') -> io_fd x' < 2 ^ 31 ->
  (forall d y, h_calls s !! d = Some y -> is_done y = false -> ~ (io_fd y = io_fd x' /\ io_event y = io_event x')) ->
  hook_inv m (with_call c x' s).
Proof.
  intros I Ec Dx Ps Ev Lf Ex.
  pose proof (fun d y => call_at (h_calls s) c x x' d y Ec) as Look.
  assert (Ne : forall d y, h_calls s !! d = Some y -> waiting y -> d <> c) by (intros d y Ed [_ D]%waiting_busy ->; congruence).
  split; cbn [with_call h_ready h_calls h_timers h_cbs].
  - intros fd ev wk Ev' E. destruct (hi_row _ _ I fd ev wk Ev' E) as (Nr & d & y & -> & Ed & Wy & E1 & E2). split; [done|]. exists d, y. pose proof (Ne d y Ed Wy). by rewrite list_lookup_insert_ne.
  - intros wk H. destruct (hi_ready _ _ I wk H) as (d & y & -> & Ed & Wy). exists d, y. pose proof (Ne d y Ed Wy). by rewrite list_lookup_insert_ne.
  - apply (hi_nodup _ _ I).
  - intros d y [[-> ->]|[N Ed]]%Look Wy; [unfold waiting in Wy; congruence|by apply (hi_wait _ _ I d y)].
  - intros d y [[-> ->]|[N Ed]]%Look; [|by apply (hi_call _ _ I d)]. split_and!; [done|done|]. unfold busy. by rewrite Ps.
  - intros d d' y y' [[-> ->]|[N Ed]]%Look [[-> ->]|[N' Ed']]%Look D D' E1 E2; [done| | |by apply (hi_excl _ _ I d d' y y')].
    + by destruct (Ex d' y' Ed' D').
    + by destruct (Ex d y Ed D).
  - apply (hi_timer _ _ I).
  - apply (hi_cb _ _ I).
Qed.


(** ** Steps *)

(** What the callers and the kernel keep to: no two calls at once for one event of one
    descriptor; a report of [epoll_wait] is about a descriptor that has a context. *)
Definition label_ok (l : hook_label) (s : Hooks) : Prop :=
  match l with
  | LCall c fd event so => is_event event /\ fd < 2 ^ 31 /\
      forall d y, h_calls s !! d = Some y -> is_done y = false -> ~ (io_fd y = fd /\ io_event y = event)
  | LConnect c fd timeout => fd < 2 ^ 31 /\
      forall d y, h_calls s !! d = Some y -> is_done y = false -> ~ (io_fd y = fd /\ io_event y = WRITE)
  | LReport fd events epoll => 0 <= fd < len (m_fdContexts (h_io s))
  | LClose fd epoll => fd < 2 ^ 31
  | _ => True
  end.

(** A report is torn when the context has some of the events that it names and not all of
    them: one was taken away after [epoll_wait] had returned. *)
Definition torn (fd events : Z) (io : IOManager) : bool :=
  match io_heap io !! Z.to_nat fd with
  | Some x =>
      let events := if has events (Z.lor EPOLLERR EPOLLHUP) then Z.lor events (Z.land (Z.lor EPOLLIN EPOLLOUT) (fd_events x)) else events in
      let named := real_events (has events EPOLLIN) (has events EPOLLOUT) in
      negb (Z.land (fd_events x) named =? NONE) && negb (Z.land (fd_events x) named =? named)
  | None => false
  end.

(** The one step that fails: a torn report, when epoll lets the events be taken. *)
Definition fails (l : hook_label) (s : Hooks) : bool :=
  match l with LReport fd events true => torn fd events (h_io s) | _ => false end.

Lemma torn_answer io l fd events : table io l -> 0 <= fd < len l ->
  let x := at_fd l fd in let '(r, w) := reports events x in
  torn fd events io = (r && waits x.1 || w && waits x.2) && ((r && negb (waits x.1)) || (w && negb (waits x.2))).
Proof.
  intros T L x. unfold torn, reports. rewrite (heap_at io l fd T L). change (fd_events (fd_context (Z.to_nat fd) (at_fd l fd))) with (bits x).
  set (e := if has events _ then _ else events). by destruct (has e EPOLLIN), (has e EPOLLOUT), x as [[?|] [?|]].
Qed.


Lemma good_of ev fd : is_event ev -> 0 <= fd -> good fd ev = true.
Proof. intros [-> | ->] L; unfold good; replace (0 <=? fd) with true by lia; done. Qed.

(** An operation of the event manager that wakes. *)
Lemma op_wakes ok o s l m b ws io' : table (h_io s) l -> represents l m -> hook_inv m s -> valid (len l) o -> (exists fd ev, o = Cancel fd ev /\ good fd ev = true) \/ (exists fd, o = CancelAll fd) \/ (exists fd ev, o = Report fd ev) ->
  io_op ok o (h_io s) = Ok ((b, ws), io') -> hinv (with_io io' ws s).
Proof.
  intros T R I V K E. destruct (op_implements ok o (h_io s) l m T R V) as (io1 & l1 & E1 & T1 & R1 & _). rewrite E in E1.
  destruct (spec_op ok o m).1 as [[b' ws']| |] eqn:Es; try done. injection E1 as <- <- <-. exists l1, (spec_op ok o m).2. split; [done|]. split; [done|].
  apply (inv_wakes m _ _ _ _ I). destruct K as [(fd & ev & -> & G)|[(fd & ->)|(fd & ev & ->)]];
    [by apply (cancel_wakes ok fd ev m b)|by apply (cancelAll_wakes ok fd m b)|by apply (report_wakes ok fd ev m b)].
Qed.

Lemma op_answers ok o s l m : table (h_io s) l -> represents l m -> valid (len l) o -> (spec_op ok o m).1 <> Crash assertion_failed ->
  (match o with Report _ _ => False | _ => True end) -> exists b ws io', io_op ok o (h_io s) = Ok ((b, ws), io').
Proof.
  intros T R V N K. destruct (op_implements ok o (h_io s) l m T R V) as (io1 & l1 & E1 & _). destruct (spec_op ok o m).1 as [[b ws]|e|u] eqn:Es; cbn in E1; [by exists b, ws, io1| |].
  - exfalso. destruct o; cbn in Es; try done; repeat (case_match; try done).
  - exfalso. destruct o; cbn in Es; try done; repeat (case_match; try done); congruence.
Qed.

Lemma inv_io m s io : hook_inv m s -> hook_inv m (with_io io [] s).
Proof. intros I. apply (inv_wakes m [] m); [done|apply wakes_nothing]. Qed.

Lemma start_ok x s : io_fd (do_io_start x s) = io_fd x /\ io_event (do_io_start x s) = io_event x /\ ~ waiting (do_io_start x s) /\ (busy (do_io_start x s) = true -> 0 <= io_fd x).
Proof.
  unfold do_io_start. destruct (h_enable s); cbn [negb]; [|done]. unfold FdManager_get. destruct (Z.ltb_spec (io_fd x) 0); [done|]. repeat case_match; split_and!; done.
Qed.

Lemma connect_start_ok x s : io_fd (connect_start x s) = io_fd x /\ io_event (connect_start x s) = io_event x /\ ~ waiting (connect_start x s) /\ (busy (connect_start x s) = true -> 0 <= io_fd x).
Proof.
  unfold connect_start. destruct (h_enable s); cbn [negb]; [|done]. unfold FdManager_get. destruct (Z.ltb_spec (io_fd x) 0); [done|]. repeat case_match; split_and!; done.
Qed.

(** A call that neither waits nor is at its end goes on. *)
Lemma hinv_call s c x x' : hinv s -> h_calls s !! c = Some x -> ~ waiting x -> ~ waiting x' -> io_fd x' = io_fd x -> io_event x' = io_event x ->
  is_done x = false -> (busy x' = true -> 0 <= io_fd x) -> hinv (with_call c x' s).
Proof. intros (l & m & T & R & I) Ec W W' Ef Ee D B. exists l, m. split; [done|]. split; [done|]. by apply (inv_call m s c x). Qed.

Lemma hinv_pc s c x pc : hinv s -> h_calls s !! c = Some x -> io_pc x <> IoWait -> is_done x = false -> pc <> IoWait ->
  (busy x = true \/ busy (set_pc pc x) = false) -> hinv (with_call c (set_pc pc x) s).
Proof.
  intros H Ec W D W' B. apply (hinv_call s c x); try done. intros B'. destruct B as [B|B]; [|congruence].
  destruct H as (l & m & T & R & I). by apply (hi_call _ _ I c x Ec).
Qed.

Lemma hinv_cancel_timer s t : hinv s -> hinv (cancel_timer t s).
Proof. intros (l & m & T & R & I). exists l, m. split; [by destruct t|]. split; [done|]. by apply inv_cancel_timer. Qed.

Lemma cancel_calls t s : h_calls (cancel_timer t s) = h_calls s.
Proof. by destruct t. Qed.

Lemma busy_pc x : busy x = match io_pc x with IoStart | IoDirect | IoDone _ _ => false | _ => true end.
Proof. done. Qed.

Lemma busy_fd s c x : hinv s -> h_calls s !! c = Some x -> busy x = true -> 0 <= io_fd x /\ is_event (io_event x) /\ io_fd x < 2 ^ 31 /\ is_done x = false.
Proof. intros (l & m & T & R & I) Ec B. destruct (hi_call _ _ I c x Ec) as (Ev & Lf & Bz). split_and!; try done; [by apply Bz|]. unfold busy, is_done in *. by destruct (io_pc x). Qed.

Lemma add_timer_ok s c x : hinv s -> h_calls s !! c = Some x -> io_pc x = IoTimer -> hinv (add_timer_step c x s).
Proof.
  intros H Ec P. destruct (busy_fd s c x H Ec) as (L0 & Ev & Lf & D); [by rewrite busy_pc, P|]. unfold add_timer_step. destruct (io_timeout x =? no_timeout).
  - apply (hinv_call s c x); try done; unfold waiting; by rewrite P.
  - assert (Hc : hinv (with_call c (set_pc IoAdd (set_timer (Some (length (h_timers s))) x)) s)) by (apply (hinv_call s c x); try done; unfold waiting; by rewrite P).
    destruct Hc as (l & m & T & R & I). exists l, m. split; [done|]. split; [done|]. apply inv_timers; [done|].
    intros t [Ht| ->%list_elem_of_singleton]%elem_of_app; [by apply (hi_timer _ _ I)|]. cbn. split; [by apply good_of|done].
Qed.

Lemma resume_ok s c next x : hinv s -> h_calls s !! c = Some x -> io_pc x = IoResume -> next <> IoWait -> hinv (resume_step c next x s).
Proof.
  intros H Ec P N. destruct (busy_fd s c x H Ec) as (L0 & Ev & Lf & D); [by rewrite busy_pc, P|]. unfold resume_step.
  destruct (negb _); (apply hinv_pc; [by apply hinv_cancel_timer|by rewrite cancel_calls|by rewrite P|done|done|left; by rewrite busy_pc, P]).
Qed.

Lemma add_event_answers s c epoll refused x : hinv s -> h_calls s !! c = Some x -> io_pc x = IoAdd -> refused <> IoWait ->
  exists s', add_event_step sch c epoll refused x s = Ok s' /\ hinv s' /\ h_calls s' = <[c := set_pc (if epoll then IoWait else refused) x]> (h_calls s).
Proof.
  intros H Ec P N. destruct (busy_fd s c x H Ec) as (L0 & Ev & Lf & D); [by rewrite busy_pc, P|]. destruct H as (l & m & T & R & I). pose proof (good_of _ _ Ev L0) as G.
  assert (Free : ev_get (io_event x) (m (io_fd x)) = None).
  { destruct (ev_get (io_event x) (m (io_fd x))) as [wk|] eqn:E; [|done]. destruct (hi_row _ _ I _ _ wk Ev E) as (_ & d & y & -> & Ed & Wy & E1 & E2).
    assert (d = c) as -> by (apply (hi_excl _ _ I d c y x); try done; by apply waiting_busy). unfold waiting in Wy. congruence. }
  destruct (op_implements epoll (Add (io_fd x) (io_event x) sch EXEC (Co c)) (h_io s) l m T R Lf) as (io1 & l1 & E1 & T1 & R1 & _).
  cbn [io_op spec_op] in E1, R1. change (may_register EXEC (Co c)) with true in E1, R1. rewrite G, Free, andb_false_r in E1, R1. cbn [negb fst snd rbind] in E1, R1. unfold add_event_step.
  destruct (addEvent _ _ _ _ _ _ _) as [[b io]| |] eqn:Ea; try done. injection E1 as -> ->. cbn [rbind]. destruct epoll; eexists; (split; [done|]); (split; [|cbn; by rewrite ?cancel_calls]).
  - exists l1. eexists. split; [exact T1|]. split; [exact R1|]. apply inv_wait; [done|done|by rewrite busy_pc, P|unfold waiting; by rewrite P].
  - apply hinv_pc; [|by rewrite cancel_calls|by rewrite P|done|done|left; by rewrite busy_pc, P].
    apply hinv_cancel_timer. exists l1, m. split; [done|]. split; [done|]. by apply inv_io.
Qed.

Lemma add_event_ok s c epoll refused x : hinv s -> h_calls s !! c = Some x -> io_pc x = IoAdd -> refused <> IoWait ->
  exists s', add_event_step sch c epoll refused x s = Ok s' /\ hinv s'.
Proof. intros H Ec P N. destruct (add_event_answers s c epoll refused x H Ec P N) as (s' & E & I & _). by exists s'. Qed.

#[local] Ltac moved P := apply hinv_pc; [done|done|by rewrite P|unfold is_done; by rewrite P|done|first [by left; rewrite busy_pc, P|by right]].

Lemma do_io_ok c a x s : hinv s -> h_calls s !! c = Some x -> exists s', do_io_step sch c a x s = Ok s' /\ hinv s'.
Proof.
  intros H Ec. unfold do_io_step. destruct (io_pc x) eqn:P.
  - destruct (start_ok x s) as (E1 & E2 & E3 & E4). eexists. split; [done|]. apply (hinv_call s c x); try done; unfold waiting, is_done; by rewrite P.
  - eexists. split; [done|]. moved P.
  - destruct (_ && _); [by exists s|]. destruct (_ && _); (eexists; split; [done|]; moved P).
  - eexists. split; [done|]. by apply add_timer_ok.
  - by apply add_event_ok.
  - by exists s.
  - eexists. split; [done|]. by apply resume_ok.
  - by exists s.
  - by exists s.
Qed.

Lemma connect_ok c a x s : hinv s -> h_calls s !! c = Some x -> exists s', connect_step sch c a x s = Ok s' /\ hinv s'.
Proof.
  intros H Ec. unfold connect_step. destruct (io_pc x) eqn:P.
  - destruct (connect_start_ok x s) as (E1 & E2 & E3 & E4). eexists. split; [done|]. apply (hinv_call s c x); try done; unfold waiting, is_done; by rewrite P.
  - eexists. split; [done|]. moved P.
  - destruct (_ =? 0); [eexists; split; [done|]; moved P|]. destruct (_ || _); (eexists; split; [done|]; moved P).
  - eexists. split; [done|]. by apply add_timer_ok.
  - by apply add_event_ok.
  - by exists s.
  - eexists. split; [done|]. by apply resume_ok.
  - destruct (_ =? -1); [eexists; split; [done|]; moved P|]. destruct (_ =? 0); (eexists; split; [done|]; moved P).
  - by exists s.
Qed.

Lemma table_len io l : table io l -> len (m_fdContexts io) = len l.
Proof. intros T. rewrite (tb_pointers _ _ T). unfold len. by rewrite length_seq. Qed.

Lemma callback_ok epoll j s : hinv s -> exists s', callback_step epoll j s = Ok s' /\ hinv s'.
Proof.
  intros (t & m & T & R & I). assert (H : hinv s) by (by exists t, m). unfold callback_step. destruct (h_cbs s !! j) as [cb|] eqn:Ej; [|by exists s].
  pose proof (hi_cb _ _ I cb ltac:(by eapply list_elem_of_lookup_2)) as Ok_.
  assert (Rest : forall b, b ∈ delete j (h_cbs s) -> cb_ok b).
  { intros b Hb. apply (hi_cb _ _ I). rewrite (delete_Permutation _ _ _ Ej). by right. }
  destruct cb as [co gen fd ev|fd ev]; destruct Ok_ as [G L].
  - assert (D : hinv (with_cbs (delete j (h_cbs s)) s)) by (exists t, m; split; [done|]; split; [done|]; by apply inv_cbs).
    destruct (h_calls s !! co) as [x|] eqn:Ec; [|by eexists]. destruct (_ && _ && _) eqn:Tst; [|by eexists]. apply andb_prop in Tst as [Tst _]. apply andb_prop in Tst as [_ Dx]. apply negb_true_iff in Dx.
    eexists. split; [done|]. exists t, m. split; [done|]. split; [done|]. apply inv_cbs.
    + apply (inv_call m s co x); try done. unfold busy. cbn. intros B. by apply (hi_call _ _ I co x Ec).
    + intros b Hb. apply list_elem_of_lookup in Hb as [i Ei]. destruct (decide (j = i)) as [->|N].
      * rewrite list_lookup_insert_eq in Ei by (by eapply lookup_lt_Some). by injection Ei as <-.
      * rewrite list_lookup_insert_ne in Ei by done. apply (hi_cb _ _ I). by eapply list_elem_of_lookup_2.
  - destruct (op_answers epoll (Cancel fd ev) s t m T R L) as (b & ws & io' & E); [cbn; rewrite G; cbn; by repeat case_match|done|].
    change (cancelEvent epoll fd ev (h_io s) = Ok (b, ws, io')) in E. rewrite E. cbn [rbind]. eexists. split; [done|].
    destruct (op_wakes epoll (Cancel fd ev) s t m b ws io' T R I L) as (t' & m' & T' & R' & I'); [left; by exists fd, ev|exact E|].
    exists t', m'. split; [done|]. split; [done|]. by apply inv_cbs.
Qed.

(** A report that is not torn is answered. *)
Lemma report_ok s fd events epoll : hinv s -> label_ok (LReport fd events epoll) s ->
  if fails (LReport fd events epoll) s then hook_step sch (LReport fd events epoll) s = Crash assertion_failed
  else exists s', hook_step sch (LReport fd events epoll) s = Ok s' /\ hinv s'.
Proof.
  intros (t & m & T & R & I) L. cbn [label_ok] in L. rewrite (table_len _ _ T) in L.
  pose proof (dispatch_ok (h_io s) t epoll fd events T L) as D. pose proof (torn_answer (h_io s) t fd events T L) as A. cbv zeta in A, D.
  destruct (reports events (at_fd t fd)) as [r w]. destruct D as (io' & E & _). cbn [hook_step].
  assert (Ans : dispatch epoll (Z.to_nat fd) events (h_io s) = Crash assertion_failed /\ fails (LReport fd events epoll) s = true \/
    exists ws io2, dispatch epoll (Z.to_nat fd) events (h_io s) = Ok (ws, io2) /\ fails (LReport fd events epoll) s = false).
  { rewrite E. cbn [fails]. unfold answer. rewrite A. destruct epoll; cbn [negb].
    - destruct (r && waits (at_fd t fd).1 || w && waits (at_fd t fd).2); cbn [negb orb andb]; [|by right; eexists _, _].
      destruct (_ || _); [by left|by right; eexists _, _].
    - rewrite orb_true_r. by right; eexists _, _. }
  destruct Ans as [[-> ->]|(ws & io2 & Ed & ->)]; [done|]. rewrite Ed. cbn [rbind]. eexists. split; [done|].
  apply (op_wakes epoll (Report fd events) s t m true ws io2 T R I L); [right; right; by exists fd, events|]. cbn [io_op]. by rewrite Ed.
Qed.

(** No step fails but that of a torn report, and each keeps the invariant. *)
Lemma hook_step_answers l s : hinv s -> label_ok l s ->
  if fails l s then hook_step sch l s = Crash assertion_failed else exists s', hook_step sch l s = Ok s' /\ hinv s'.
Proof.
  intros H K. destruct l as [c fd ev so|c fd tmo|c a|t0|j epoll|fd events epoll|j|fd epoll]; [| | | | |by apply report_ok| |]; cbn [fails].
  all: destruct H as (t & m & T & R & I); assert (H : hinv s) by (by exists t, m); cbn [hook_step].
  - destruct (h_calls s !! c) as [x|] eqn:Ec; [|by exists s]. destruct (is_done x) eqn:Dx; [|by exists s]. eexists. split; [done|]. exists t, m. split; [done|]. split; [done|].
    destruct K as (Ev & Lf & Ex). by apply (inv_new m s c x).
  - destruct (h_calls s !! c) as [x|] eqn:Ec; [|by exists s]. destruct (is_done x) eqn:Dx; [|by exists s]. eexists. split; [done|]. exists t, m. split; [done|]. split; [done|].
    destruct K as (Lf & Ex). apply (inv_new m s c x); try done. by right.
  - destruct (h_calls s !! c) as [x|] eqn:Ec; [|by exists s]. destruct (io_connect x); [by apply connect_ok|by apply do_io_ok].
  - destruct (h_timers s !! t0) as [x|] eqn:Et; [|by exists s]. destruct (ct_armed x); [|by exists s]. eexists. split; [done|]. exists t, m. split; [done|]. split; [done|].
    pose proof (hi_timer _ _ I x ltac:(by eapply list_elem_of_lookup_2)) as [G L]. apply inv_cbs; [apply inv_timers; [done|apply disarm_ok, (hi_timer _ _ I)]|].
    intros cb [Hc| ->%list_elem_of_singleton]%elem_of_app; [by apply (hi_cb _ _ I)|done].
  - by apply callback_ok.
  - destruct (h_ready s !! j) as [wk|] eqn:Ej; [|by exists s]. destruct (hi_ready _ _ I wk ltac:(by eapply list_elem_of_lookup_2)) as (c & x & -> & Ec & W).
    rewrite Ec. unfold waiting in W. rewrite W. eexists. split; [done|]. exists t, m. split; [done|]. split; [done|]. by apply inv_resume.
  - unfold hook_close. destruct (negb (h_enable s)); [by exists s|]. destruct (FdManager_get fd false ∅ (h_fds s)) as [[[ctx|] k] fds] eqn:Eg; [|by exists s].
    assert (L0 : 0 <= fd) by (unfold FdManager_get in Eg; destruct (Z.ltb_spec fd 0); [done|lia]).
    destruct (op_answers epoll (CancelAll fd) s t m T R K) as (b & ws & io' & E); [cbn; replace (fd <? 0) with false by lia; by repeat case_match|done|].
    change (cancelAll epoll fd (h_io s) = Ok (b, ws, io')) in E. rewrite E. cbn [rbind]. eexists. split; [done|].
    destruct (op_wakes epoll (CancelAll fd) s t m b ws io' T R I K) as (t' & m' & T' & R' & I'); [right; left; by exists fd|exact E|].
    exists t', m'. split; [done|]. split; [done|]. by apply inv_fds.
Qed.

Lemma hook_step_ok l s : hinv s -> label_ok l s -> fails l s = false -> exists s', hook_step sch l s = Ok s' /\ hinv s'.
Proof. intros H K F. pose proof (hook_step_answers l s H K) as A. by rewrite F in A.
Qed.


(** ** Timers and results *)

(** Timers and callbacks belong to the calls that made them; a call is cancelled only when
    a timer of its own has fired. *)
Definition fired (s : Hooks) (c gen : nat) : Prop := exists t, t ∈ h_timers s /\ ct_co t = c /\ ct_gen t = gen /\ ct_armed t = false.

Record time_inv (s : Hooks) : Prop := {
  ti_cancelled c x : h_calls s !! c = Some x -> io_cancelled x = 0 \/ (io_cancelled x = ETIMEDOUT /\ fired s c (io_gen x));
  ti_callback c gen fd ev : CbLock c gen fd ev ∈ h_cbs s -> fired s c gen;
  ti_timer t : t ∈ h_timers s -> exists x, h_calls s !! ct_co t = Some x /\ (ct_gen t <= io_gen x)%nat /\ (ct_gen t = io_gen x -> io_timeout x <> no_timeout);
  ti_wait c x t : h_calls s !! c = Some x -> waiting x -> io_timer x = Some t ->
    exists y, h_timers s !! t = Some y /\ ct_co y = c /\ ct_gen y = io_gen x /\ ct_fd y = io_fd x /\ ct_event y = io_event x;
  ti_add c x t : h_calls s !! c = Some x -> io_pc x = IoAdd -> io_timer x = Some t ->
    exists y, h_timers s !! t = Some y /\ ct_co y = c /\ ct_gen y = io_gen x /\ ct_fd y = io_fd x /\ ct_event y = io_event x;
  ti_start c x : h_calls s !! c = Some x -> io_pc x = IoStart -> forall t, t ∈ h_timers s -> ct_co t = c -> (ct_gen t < io_gen x)%nat;
}.

(** Timers only fire and are added. *)
Definition later_timers (l l' : list CondTimer) : Prop :=
  forall i t, l !! i = Some t -> exists t', l' !! i = Some t' /\ ct_co t' = ct_co t /\ ct_gen t' = ct_gen t /\ ct_fd t' = ct_fd t /\ ct_event t' = ct_event t /\ (ct_armed t = false -> ct_armed t' = false).

Lemma later_refl l : later_timers l l.
Proof. intros i t E. by exists t. Qed.

Lemma later_disarm l t : later_timers l (alter disarm t l).
Proof.
  intros i x E. rewrite list_lookup_alter. case_decide as D; [subst|by exists x]. rewrite E. by exists (disarm x).
Qed.

Lemma later_app l k : later_timers l (l ++ k).
Proof. intros i t E. exists t. rewrite lookup_app_l; [done|]. by eapply lookup_lt_Some. Qed.

Lemma fired_later s s' c gen : later_timers (h_timers s) (h_timers s') -> fired s c gen -> fired s' c gen.
Proof.
  intros L (t & Ht & E1 & E2 & E3). apply list_elem_of_lookup in Ht as [i Ei]. destruct (L i t Ei) as (t' & Ei' & F1 & F2 & _ & _ & F3).
  exists t'. split; [by eapply list_elem_of_lookup_2|]. rewrite F1, F2. auto.
Qed.

(** Timers that were there, and did nothing but fire. *)
Definition same_timers (l l' : list CondTimer) : Prop :=
  later_timers l l' /\ (forall t', t' ∈ l' -> exists t, t ∈ l /\ ct_co t = ct_co t' /\ ct_gen t = ct_gen t').

Lemma same_refl l : same_timers l l.
Proof. split; [apply later_refl|]. intros t H. by exists t. Qed.

Lemma same_disarm l t : same_timers l (alter disarm t l).
Proof.
  split; [apply later_disarm|]. intros t' H. apply list_elem_of_lookup in H as [i Ei]. rewrite list_lookup_alter in Ei.
  case_decide as D; [subst|by exists t'; split; [by eapply list_elem_of_lookup_2|]]. destruct (l !! i) as [x|] eqn:Ex; [|done]. injection Ei as <-.
  exists x. split; [by eapply list_elem_of_lookup_2|done].
Qed.

Lemma same_cancel t s : same_timers (h_timers s) (h_timers (cancel_timer t s)).
Proof. destruct t as [t|]; [apply same_disarm|apply same_refl]. Qed.

(** A call goes on, timers may fire, callbacks may be added for those that have. *)
Lemma time_call s s' c x x' : time_inv s -> h_calls s !! c = Some x -> h_calls s' = <[c := x']> (h_calls s) -> same_timers (h_timers s) (h_timers s') ->
  (forall d gen fd ev, CbLock d gen fd ev ∈ h_cbs s' -> CbLock d gen fd ev ∈ h_cbs s) ->
  io_gen x' = io_gen x -> (io_pc x <> IoStart -> io_timeout x' = io_timeout x) -> (io_cancelled x' = io_cancelled x \/ (io_cancelled x' = ETIMEDOUT /\ fired s c (io_gen x))) ->
  (waiting x' \/ io_pc x' = IoAdd -> (waiting x \/ io_pc x = IoAdd) /\ io_timer x' = io_timer x /\ io_fd x' = io_fd x /\ io_event x' = io_event x) ->
  (io_pc x' = IoStart -> io_pc x = IoStart) -> time_inv s'.
Proof.
  intros [T1 T2 T3 T4 T5 T6] Ec Es [La Sm] Cb G To Ca Wt St.
  assert (Lc : (c < length (h_calls s))%nat) by (by eapply lookup_lt_Some).
  assert (Mv : forall d y, h_calls s' !! d = Some y -> (d = c /\ y = x') \/ (d <> c /\ h_calls s !! d = Some y)) by (intros d y; rewrite Es; by apply (call_at _ c x)).
  assert (Tm : forall d y t, (h_calls s !! d = Some y /\ (waiting y \/ io_pc y = IoAdd)) -> io_timer y = Some t ->
    exists z, h_timers s' !! t = Some z /\ ct_co z = d /\ ct_gen z = io_gen y /\ ct_fd z = io_fd y /\ ct_event z = io_event y).
  { intros d y t [Ed W] Et. assert (exists z, h_timers s !! t = Some z /\ ct_co z = d /\ ct_gen z = io_gen y /\ ct_fd z = io_fd y /\ ct_event z = io_event y) as (z & Ez & <- & <- & <- & <-)
      by (destruct W as [W|W]; [by apply (T4 d y t)|by apply (T5 d y t)]).
    destruct (La t z Ez) as (z' & ? & ? & ? & ? & ? & _). by exists z'. }
  assert (Tx : forall t, (waiting x' \/ io_pc x' = IoAdd) -> io_timer x' = Some t ->
    exists z, h_timers s' !! t = Some z /\ ct_co z = c /\ ct_gen z = io_gen x' /\ ct_fd z = io_fd x' /\ ct_event z = io_event x').
  { intros t W Et. destruct (Wt W) as (W0 & Ei & -> & ->). rewrite G. apply (Tm c x t); [done|congruence]. }
  split.
  - intros d y [[-> ->]|[N Ed]]%Mv.
    + rewrite G. destruct Ca as [-> |[-> F]]; [destruct (T1 c x Ec) as [?|[? F]]; [by left|right]|right]; (split; [done|]); by apply (fired_later s).
    + destruct (T1 d y Ed) as [?|[? F]]; [by left|right]. split; [done|]. by apply (fired_later s).
  - intros d gen fd ev H%Cb%T2. by apply (fired_later s).
  - intros t (t0 & H0 & <- & <-)%Sm. destruct (T3 t0 H0) as (y & Ey & Ly & Ny). destruct (decide (c = ct_co t0)) as [->|N].
    + exists x'. rewrite Es, list_lookup_insert_eq by done. assert (y = x) as -> by congruence. split; [done|]. rewrite G. split; [done|]. intros E.
      rewrite To; [by apply Ny|]. intros P. pose proof (T6 _ x Ec P t0 H0 eq_refl). lia.
    + exists y. rewrite Es, list_lookup_insert_ne by done. done.
  - intros d y t [[-> ->]|[N Ed]]%Mv W Et; [by apply Tx; [left|]|]. apply (Tm d y t); [|done]. split; [done|by left].
  - intros d y t [[-> ->]|[N Ed]]%Mv W Et; [by apply Tx; [right|]|]. apply (Tm d y t); [|done]. split; [done|by right].
  - intros d y [[-> ->]|[N Ed]]%Mv P t (t0 & H0 & <- & <-)%Sm Et.
    + rewrite G. apply (T6 c x Ec (St P) t0 H0 Et).
    + by apply (T6 d y Ed P t0 H0).
Qed.

(** No call moves. *)
Lemma time_rest s s' : time_inv s -> h_calls s' = h_calls s -> same_timers (h_timers s) (h_timers s') ->
  (forall d gen fd ev, CbLock d gen fd ev ∈ h_cbs s' -> CbLock d gen fd ev ∈ h_cbs s \/ fired s' d gen) -> time_inv s'.
Proof.
  intros [T1 T2 T3 T4 T5 T6] Es [La Sm] Cb.
  assert (Tm : forall d y t, (exists z, h_timers s !! t = Some z /\ ct_co z = d /\ ct_gen z = io_gen y /\ ct_fd z = io_fd y /\ ct_event z = io_event y) ->
    exists z, h_timers s' !! t = Some z /\ ct_co z = d /\ ct_gen z = io_gen y /\ ct_fd z = io_fd y /\ ct_event z = io_event y).
  { intros d y t (z & Ez & <- & <- & <- & <-). destruct (La t z Ez) as (z' & ? & ? & ? & ? & ? & _). by exists z'. }
  split; rewrite ?Es.
  - intros d y Ed. destruct (T1 d y Ed) as [?|[? F]]; [by left|right]. split; [done|]. by apply (fired_later s).
  - intros d gen fd ev [H%T2|H]%Cb; [by apply (fired_later s)|done].
  - intros t (t0 & H0 & <- & <-)%Sm. by apply T3.
  - intros d y t Ed W Et. apply Tm. by apply (T4 d y t).
  - intros d y t Ed W Et. apply Tm. by apply (T5 d y t).
  - intros d y Ed P t (t0 & H0 & <- & <-)%Sm Et. by apply (T6 d y Ed P t0 H0).
Qed.


Lemma cancel_frame t s : h_calls (cancel_timer t s) = h_calls s /\ h_cbs (cancel_timer t s) = h_cbs s.
Proof. by destruct t. Qed.

(** The place of a call changes, and it is not at a wait or before one. *)
Lemma time_pc s s' c x pc : time_inv s -> h_calls s !! c = Some x -> h_calls s' = <[c := set_pc pc x]> (h_calls s) ->
  same_timers (h_timers s) (h_timers s') -> h_cbs s' = h_cbs s -> pc <> IoWait -> pc <> IoAdd -> pc <> IoStart -> time_inv s'.
Proof.
  intros T Ec Es St Cb N1 N2 N3. apply (time_call s s' c x (set_pc pc x)); try done; [by rewrite Cb|by left|]. by intros [?|?].
Qed.

Lemma time_start s c x x' : time_inv s -> h_calls s !! c = Some x -> io_pc x = IoStart -> io_gen x' = io_gen x -> io_cancelled x' = io_cancelled x ->
  ~ (waiting x' \/ io_pc x' = IoAdd) -> io_pc x' <> IoStart -> time_inv (with_call c x' s).
Proof. intros T Ec P E1 E2 E3 E4. apply (time_call s _ c x x'); [done|done|done|apply same_refl|done|done|done|by left|done|done]. Qed.

Lemma start_frame x s : io_gen (do_io_start x s) = io_gen x /\ io_cancelled (do_io_start x s) = io_cancelled x /\
  ~ (waiting (do_io_start x s) \/ io_pc (do_io_start x s) = IoAdd) /\ io_pc (do_io_start x s) <> IoStart.
Proof. unfold do_io_start. repeat case_match; split_and!; try done; by intros [?|?]. Qed.

Lemma connect_start_frame x s : io_gen (connect_start x s) = io_gen x /\ io_cancelled (connect_start x s) = io_cancelled x /\
  ~ (waiting (connect_start x s) \/ io_pc (connect_start x s) = IoAdd) /\ io_pc (connect_start x s) <> IoStart.
Proof. unfold connect_start. repeat case_match; split_and!; try done; by intros [?|?]. Qed.

Lemma time_add_timer s c x : time_inv s -> h_calls s !! c = Some x -> io_pc x = IoTimer -> time_inv (add_timer_step c x s).
Proof.
  intros [T1 T2 T3 T4 T5 T6] Ec P. unfold add_timer_step. destruct (Z.eqb_spec (io_timeout x) no_timeout) as [E|N].
  - assert (Lc : (c < length (h_calls s))%nat) by (by eapply lookup_lt_Some). split; cbn [with_call h_calls h_timers h_cbs].
    + intros d y [[-> ->]|[Nd Ed]]%(call_at _ c x); [|by apply (T1 d y)|done]. destruct (T1 c x Ec) as [?|[? F]]; [by left|by right].
    + done.
    + intros t H. destruct (T3 t H) as (y & Ey & Ly & Ny). destruct (decide (c = ct_co t)) as [->|Nc].
      * assert (y = x) as -> by congruence. eexists. rewrite list_lookup_insert_eq by done. split; [done|]. done.
      * exists y. by rewrite list_lookup_insert_ne.
    + intros d y t [[-> ->]|[Nd Ed]]%(call_at _ c x) W Et; [done|by apply (T4 d y t)|done].
    + intros d y t [[-> ->]|[Nd Ed]]%(call_at _ c x) W Et; [done|by apply (T5 d y t)|done].
    + intros d y [[-> ->]|[Nd Ed]]%(call_at _ c x) W; [done|by apply (T6 d y)|done].
  - assert (Lc : (c < length (h_calls s))%nat) by (by eapply lookup_lt_Some). set (tm := mkCondTimer _ _ _ _ _).
    assert (Old : forall d y t, h_calls s !! d = Some y -> (waiting y \/ io_pc y = IoAdd) -> io_timer y = Some t ->
      exists z, (h_timers s ++ [tm]) !! t = Some z /\ ct_co z = d /\ ct_gen z = io_gen y /\ ct_fd z = io_fd y /\ ct_event z = io_event y).
    { intros d y t Ed W Et. assert (exists z, h_timers s !! t = Some z /\ ct_co z = d /\ ct_gen z = io_gen y /\ ct_fd z = io_fd y /\ ct_event z = io_event y) as (z & Ez & ?)
        by (destruct W as [W|W]; [by apply (T4 d y t)|by apply (T5 d y t)]).
      exists z. by rewrite lookup_app_l by (by eapply lookup_lt_Some). }
    split; cbn [with_call with_timers h_calls h_timers h_cbs].
    + intros d y [[-> ->]|[Nd Ed]]%(call_at _ c x); [| |done].
      * destruct (T1 c x Ec) as [?|[? F]]; [by left|right]. split; [done|]. apply (fired_later s); [apply later_app|done].
      * destruct (T1 d y Ed) as [?|[? F]]; [by left|right]. split; [done|]. apply (fired_later s); [apply later_app|done].
    + intros d gen fd ev H%T2. apply (fired_later s); [apply later_app|done].
    + intros t [H| ->%list_elem_of_singleton]%elem_of_app.
      * destruct (T3 t H) as (y & Ey & Ly & Ny). destruct (decide (c = ct_co t)) as [->|Nc].
         -- assert (y = x) as -> by congruence. eexists. rewrite list_lookup_insert_eq by done. split; [done|]. done.
         -- exists y. by rewrite list_lookup_insert_ne.
      * eexists. cbn [ct_co tm]. rewrite list_lookup_insert_eq by done. split; [done|]. cbn. split; [lia|done].
    + intros d y t [[-> ->]|[Nd Ed]]%(call_at _ c x) W Et; [done| |done]. apply (Old d y t); [done|by left|done].
    + intros d y t [[-> ->]|[Nd Ed]]%(call_at _ c x) W Et; [| |done]; [|apply (Old d y t); [done|by right|done]].
      cbn in Et. injection Et as <-. exists tm. rewrite lookup_app_r, Nat.sub_diag by done. done.
    + intros d y [[-> ->]|[Nd Ed]]%(call_at _ c x) W; [done| |done]. intros t [H| ->%list_elem_of_singleton]%elem_of_app; [by apply (T6 d y)|]. cbn. congruence.
Qed.

Lemma time_add_event s s' c epoll refused x : time_inv s -> h_calls s !! c = Some x -> io_pc x = IoAdd ->
  refused <> IoWait -> refused <> IoAdd -> refused <> IoStart -> add_event_step sch c epoll refused x s = Ok s' -> time_inv s'.
Proof.
  intros T Ec P N1 N2 N3. unfold add_event_step. destruct (addEvent _ _ _ _ _ _ _) as [[b io]| |]; try done. cbn [rbind]. destruct b; intros [= <-].
  - apply (time_call s _ c x (set_pc IoWait x)); try done; [apply same_refl|by left|]. intros _. split; [by right|done].
  - destruct (cancel_frame (io_timer x) (with_io io [] s)) as [F1 F2]. eapply (time_pc s _ c x); [done|done|cbn; by rewrite F1|apply (same_cancel _ (with_io io [] s))|cbn; by rewrite F2|done..].
Qed.

Lemma time_resume s c next x : time_inv s -> h_calls s !! c = Some x -> next <> IoWait -> next <> IoAdd -> next <> IoStart -> time_inv (resume_step c next x s).
Proof.
  intros T Ec N1 N2 N3. unfold resume_step. destruct (cancel_frame (io_timer x) s) as [F1 F2].
  destruct (negb _); (eapply (time_pc s _ c x); [done|done|cbn; by rewrite F1|apply same_cancel|cbn; by rewrite F2|done..]).
Qed.

#[local] Ltac time_moved c x := eapply (time_pc _ _ c x); [done|done|reflexivity|apply same_refl|done..].

Lemma time_do_io c a x s s' : time_inv s -> h_calls s !! c = Some x -> do_io_step sch c a x s = Ok s' -> time_inv s'.
Proof.
  intros T Ec. unfold do_io_step. destruct (io_pc x) eqn:P; [| | | |by apply time_add_event| | | |].
  - intros [= <-]. destruct (start_frame x s) as (E1 & E2 & E3 & E4). by apply (time_start s c x).
  - intros [= <-]. time_moved c x.
  - destruct (_ && _); [by intros [= <-]|]. destruct (_ && _); intros [= <-]; time_moved c x.
  - intros [= <-]. by apply time_add_timer.
  - by intros [= <-].
  - intros [= <-]. by apply time_resume.
  - by intros [= <-].
  - by intros [= <-].
Qed.

Lemma time_connect c a x s s' : time_inv s -> h_calls s !! c = Some x -> connect_step sch c a x s = Ok s' -> time_inv s'.
Proof.
  intros T Ec. unfold connect_step. destruct (io_pc x) eqn:P; [| | | |by apply time_add_event| | | |].
  - intros [= <-]. destruct (connect_start_frame x s) as (E1 & E2 & E3 & E4). by apply (time_start s c x).
  - intros [= <-]. time_moved c x.
  - destruct (_ =? 0); [intros [= <-]; time_moved c x|]. destruct (_ || _); intros [= <-]; time_moved c x.
  - intros [= <-]. by apply time_add_timer.
  - by intros [= <-].
  - intros [= <-]. by apply time_resume.
  - destruct (_ =? -1); [intros [= <-]; time_moved c x|]. destruct (_ =? 0); intros [= <-]; time_moved c x.
  - by intros [= <-].
Qed.

(** A call begins. *)
Lemma time_new s c x x' : time_inv s -> h_calls s !! c = Some x -> io_pc x' = IoStart -> io_cancelled x' = 0 -> io_gen x' = S (io_gen x) ->
  time_inv (with_call c x' s).
Proof.
  intros [T1 T2 T3 T4 T5 T6] Ec P C G. assert (Lc : (c < length (h_calls s))%nat) by (by eapply lookup_lt_Some). split; cbn [with_call h_calls h_timers h_cbs].
  - intros d y [[-> ->]|[Nd Ed]]%(call_at _ c x); [by left|by apply T1|done].
  - done.
  - intros t H. destruct (T3 t H) as (y & Ey & Ly & Ny). destruct (decide (c = ct_co t)) as [->|Nc].
    + assert (y = x) as -> by congruence. exists x'. rewrite list_lookup_insert_eq by done. split; [done|]. split; lia.
    + exists y. by rewrite list_lookup_insert_ne.
  - intros d y t [[-> ->]|[Nd Ed]]%(call_at _ c x) W Et; [unfold waiting in W; congruence|by apply (T4 d y t)|done].
  - intros d y t [[-> ->]|[Nd Ed]]%(call_at _ c x) W Et; [congruence|by apply (T5 d y t)|done].
  - intros d y [[-> ->]|[Nd Ed]]%(call_at _ c x) W; [|by apply (T6 d y)|done]. intros t H E. destruct (T3 t H) as (y & Ey & Ly & _). assert (y = x) as -> by congruence. lia.
Qed.

Lemma time_step l s s' : time_inv s -> hook_step sch l s = Ok s' -> time_inv s'.
Proof.
  intros T. destruct l; cbn [hook_step].
  - destruct (h_calls s !! c) as [x|] eqn:Ec; [|by intros [= <-]]. destruct (is_done x) eqn:Dx; intros [= <-]; [|done]. by apply (time_new s c x).
  - destruct (h_calls s !! c) as [x|] eqn:Ec; [|by intros [= <-]]. destruct (is_done x) eqn:Dx; intros [= <-]; [|done]. by apply (time_new s c x).
  - destruct (h_calls s !! c) as [x|] eqn:Ec; [|by intros [= <-]]. destruct (io_connect x); [by apply time_connect|by apply time_do_io].
  - destruct (h_timers s !! t) as [x|] eqn:Et; [|by intros [= <-]]. destruct (ct_armed x); intros [= <-]; [|done].
    apply (time_rest s); [done|done|apply same_disarm|]. intros d gen fd ev [H|H%list_elem_of_singleton]%elem_of_app; [by left|right]. injection H as -> -> -> ->.
    exists (disarm x). split; [|done]. apply (list_elem_of_lookup_2 _ t). cbn. rewrite list_lookup_alter. by rewrite decide_True, Et by done.
  - unfold callback_step. destruct (h_cbs s !! j) as [cb|] eqn:Ej; [|by intros [= <-]]. destruct cb as [co gen fd ev|fd ev].
    + assert (D : time_inv (with_cbs (delete j (h_cbs s)) s)).
      { apply (time_rest s); [done|done|apply same_refl|]. intros d g f e H. left. exact (list_elem_of_delete_inv _ _ _ H). }
      destruct (h_calls s !! co) as [x|] eqn:Ec; [|by intros [= <-]]. destruct (_ && _ && _) eqn:Tst; intros [= <-]; [|done].
      apply andb_prop in Tst as [Tst _]. apply andb_prop in Tst as [Tst _]. apply bool_decide_eq_true in Tst.
      apply (time_call s _ co x (set_cancelled ETIMEDOUT x)); [done|done|done|apply same_refl| |done|done| | |by intros P].
      * intros d g f e H. apply list_elem_of_lookup in H as [i Ei]. cbn in Ei. destruct (decide (j = i)) as [->|N].
        -- rewrite list_lookup_insert_eq in Ei by (by eapply lookup_lt_Some). done.
        -- rewrite list_lookup_insert_ne in Ei by done. by eapply list_elem_of_lookup_2.
      * right. split; [done|]. rewrite Tst. apply (ti_callback _ T co gen fd ev). by eapply list_elem_of_lookup_2.
      * intros W. by split.
    + destruct (cancelEvent epoll fd ev (h_io s)) as [[[b ws] io]| |]; try done. intros [= <-]. apply (time_rest s); [done|done|apply same_refl|].
      intros d g f e H. left. exact (list_elem_of_delete_inv _ _ _ H).
  - destruct (dispatch epoll (Z.to_nat fd) events (h_io s)) as [[ws io]| |]; try done. intros [= <-]. apply (time_rest s); [done|done|apply same_refl|]. by left.
  - destruct (h_ready s !! j) as [[sc [c|f]]|] eqn:Ej; [| |by intros [= <-]].
    + destruct (h_calls s !! c) as [x|] eqn:Ec; [|done]. destruct (io_pc x) eqn:P; try done. intros [= <-].
      apply (time_call s _ c x (set_pc IoResume x)); try done; [apply same_refl|by left|by (intros [?|?])].
    + intros [= <-]. apply (time_rest s); [done|done|apply same_refl|]. by left.
  - unfold hook_close. destruct (negb (h_enable s)); [by intros [= <-]|]. destruct (FdManager_get fd false ∅ (h_fds s)) as [[[ctx|] k] fds]; [|by intros [= <-]].
    destruct (cancelAll epoll fd (h_io s)) as [[[b ws] io]| |]; try done. intros [= <-]. apply (time_rest s); [done|done|apply same_refl|]. by left.
Qed.

(** ** Reachable states *)

(** From coroutines that have called nothing. *)
Inductive hook_reach (n : nat) (fds : FdManager) : Hooks -> Prop :=
  | reach_new : hook_reach n fds (new_Hooks n fds)
  | reach_step s l s' : hook_reach n fds s -> label_ok l s -> hook_step sch l s = Ok s' -> hook_reach n fds s'.

Lemma new_hinv n fds : hinv (new_Hooks n fds).
Proof.
  exists (replicate 64 no_one), (fun _ => no_one). split; [apply new_IOManager_ok|]. split.
  { intros fd. rewrite <- (app_nil_l (replicate 64 no_one)), at_fd_app. apply at_fd_out. unfold len. cbn. lia. }
  split; cbn [new_Hooks h_ready h_calls h_timers h_cbs].
  - intros fd ev wk [-> | ->]; done.
  - by intros wk ?%elem_of_nil.
  - constructor.
  - intros c x [-> _]%lookup_replicate_1. done.
  - intros c x [-> _]%lookup_replicate_1. split_and!; [by left|done|done].
  - intros c c' x x' [-> _]%lookup_replicate_1. done.
  - by intros t ?%elem_of_nil.
  - by intros cb ?%elem_of_nil.
Qed.

Lemma new_time n fds : time_inv (new_Hooks n fds).
Proof.
  split; cbn [new_Hooks h_ready h_calls h_timers h_cbs].
  - intros c x [-> _]%lookup_replicate_1. by left.
  - by intros c gen fd ev ?%elem_of_nil.
  - by intros t ?%elem_of_nil.
  - by intros c x t [-> _]%lookup_replicate_1.
  - by intros c x t [-> _]%lookup_replicate_1.
  - by intros c x [-> _]%lookup_replicate_1.
Qed.

Lemma hook_reach_inv n fds s : hook_reach n fds s -> hinv s /\ time_inv s.
Proof.
  induction 1 as [|s l s' H [I T] K E]; [split; [apply new_hinv|apply new_time]|].
  pose proof (hook_step_answers l s I K) as A. destruct (fails l s); [by rewrite E in A|]. destruct A as (s1 & E1 & I1). rewrite E in E1. injection E1 as <-.
  split; [done|by apply (time_step l s)].
Qed.

(** ** Results *)

(** The step with which a call ends. *)
Definition ended (s s' : Hooks) (c : nat) (x : Io) (n e : Z) : Prop :=
  h_calls s !! c = Some x /\ is_done x = false /\ exists x', h_calls s' !! c = Some x' /\ io_pc x' = IoDone n e.

(** Why a call goes straight to the kernel: the thread has no hooks, the descriptor is not
    known (which [connect] refuses), it is not a socket, or the program asked for
    non-blocking calls. *)
Definition goes_direct (x : Io) (s : Hooks) : Prop :=
  h_enable s = false \/
  match (FdManager_get (io_fd x) false ∅ (h_fds s)).1.1 with
  | Some ctx => m_isClosed ctx = false /\ (m_isSocket ctx = false \/ m_userNonBlock ctx = true)
  | None => io_connect x = false
  end.

(** What can be the result of a call at [x], of the step with the answer [a]. *)
Definition result_of (s : Hooks) (c : nat) (x : Io) (a : Answer) (n e : Z) : Prop :=
  match io_pc x with
  | IoStart => n = -1 /\ e = EBADF
  | IoDirect => n = a_n a /\ e = a_errno a
  | IoCall =>
      if io_connect x then (n = 0 /\ a_n a = 0) \/ (n = a_n a /\ e = a_errno a /\ ~ (n = -1 /\ e = EINPROGRESS))
      else n = a_n a /\ e = a_errno a /\ ~ (n = -1 /\ (e = EINTR \/ e = EAGAIN))
  | IoAdd => io_connect x = false /\ n = -1 /\ e = a_errno a /\ a_epoll a = false
  | IoResume => n = -1 /\ e = ETIMEDOUT /\ io_timeout x <> no_timeout /\ fired s c (io_gen x)
  | IoError => io_connect x = true /\
      ((n = -1 /\ a_n a = -1 /\ e = a_errno a) \/ (n = 0 /\ a_error a = 0) \/ (n = -1 /\ a_error a <> 0 /\ e = a_error a))
  | _ => False
  end.


Lemma insert_same (l : list Io) c x : l !! c = Some x -> l = <[c := x]> l.
Proof. intros E. by rewrite list_insert_id. Qed.

(** A coroutine moves no call but its own. *)
Lemma go_calls c a x s s' : h_calls s !! c = Some x -> hook_step sch (LGo c a) s = Ok s' -> exists x', h_calls s' = <[c := x']> (h_calls s).
Proof.
  intros Ec. cbn [hook_step]. rewrite Ec.
  assert (Add : forall ok pc, add_event_step sch c ok pc x s = Ok s' -> exists x', h_calls s' = <[c := x']> (h_calls s)).
  { intros ok pc. unfold add_event_step. destruct (addEvent _ _ _ _ _ _ _) as [[b io]| |]; try done. cbn [rbind]. destruct b; intros [= <-]; eexists; [done|]. cbn. by rewrite cancel_calls. }
  assert (Res : forall pc, exists x', h_calls (resume_step c pc x s) = <[c := x']> (h_calls s)).
  { intros pc. unfold resume_step. destruct (negb _); eexists; cbn; by rewrite cancel_calls. }
  assert (Tim : exists x', h_calls (add_timer_step c x s) = <[c := x']> (h_calls s)) by (unfold add_timer_step; case_match; by eexists).
  pose proof (insert_same _ _ _ Ec). unfold connect_step, do_io_step.
  destruct (io_connect x), (io_pc x); repeat (case_match; try done); try (by apply Add); intros [= <-]; try done; by eexists.
Qed.

(** A step that is not its own leaves a call where it is, begins it or ends its wait. *)
Lemma only_moves l s s' c x : hook_step sch l s = Ok s' -> h_calls s !! c = Some x -> (forall a, l <> LGo c a) ->
  exists x', h_calls s' !! c = Some x' /\ (io_pc x' = io_pc x \/ io_pc x' = IoStart \/ io_pc x' = IoResume).
Proof.
  intros E Ec N.
  assert (Other : forall d y, <[d := y]> (h_calls s) = h_calls s' -> d <> c \/ (io_pc y = io_pc x \/ io_pc y = IoStart \/ io_pc y = IoResume) ->
    exists x', h_calls s' !! c = Some x' /\ (io_pc x' = io_pc x \/ io_pc x' = IoStart \/ io_pc x' = IoResume)).
  { intros d y <- H. destruct (decide (d = c)) as [->|Ne]; [|rewrite list_lookup_insert_ne by done; exists x; auto].
    exists y. rewrite list_lookup_insert_eq by (by eapply lookup_lt_Some). destruct H; done. }
  assert (Same : h_calls s' = h_calls s -> exists x', h_calls s' !! c = Some x' /\ (io_pc x' = io_pc x \/ io_pc x' = IoStart \/ io_pc x' = IoResume)) by (intros ->; exists x; auto).
  destruct l as [d fd ev so|d fd tm|d a|t|j epoll|fd evs epoll|j|fd epoll].
  - cbn [hook_step] in E. destruct (h_calls s !! d) as [y|]; [|injection E as <-; by apply Same]. destruct (is_done y); injection E as <-; [|by apply Same]. eapply Other; [done|right; cbn; auto].
  - cbn [hook_step] in E. destruct (h_calls s !! d) as [y|]; [|injection E as <-; by apply Same]. destruct (is_done y); injection E as <-; [|by apply Same]. eapply Other; [done|right; cbn; auto].
  - destruct (h_calls s !! d) as [y|] eqn:Ed; [|cbn [hook_step] in E; rewrite Ed in E; injection E as <-; by apply Same].
    destruct (go_calls d a y s s' Ed E) as [y' Ey]. apply (Other d y'); [done|left]. intros ->. by apply (N a).
  - cbn [hook_step] in E. apply Same. by repeat case_match; injection E as <-.
  - cbn [hook_step] in E. unfold callback_step in E. destruct (h_cbs s !! j) as [[co gen fd ev|fd ev]|]; [| |injection E as <-; by apply Same].
    + destruct (h_calls s !! co) as [y|] eqn:Ey; [|injection E as <-; by apply Same]. destruct (_ && _ && _) eqn:Tst; injection E as <-; [|by apply Same].
      destruct (decide (co = c)) as [->|Nc]; [|eapply Other; [done|by left]]. assert (y = x) as -> by congruence. eapply Other; [done|right; cbn; auto].
    + destruct (cancelEvent epoll fd ev (h_io s)) as [[[b ws] io]| |]; try done. injection E as <-. by apply Same.
  - cbn [hook_step] in E. destruct (dispatch _ _ _ _) as [[ws io]| |]; try done. injection E as <-. by apply Same.
  - cbn [hook_step] in E. destruct (h_ready s !! j) as [[sc [d|f]]|]; [|injection E as <-; by apply Same|injection E as <-; by apply Same].
    destruct (h_calls s !! d) as [y|]; [|done]. destruct (io_pc y); try done. injection E as <-. eapply Other; [done|right; cbn; auto].
  - cbn [hook_step] in E. unfold hook_close in E. destruct (negb (h_enable s)); [injection E as <-; by apply Same|].
    destruct (FdManager_get fd false ∅ (h_fds s)) as [[[ctx|] k] fds]; [|injection E as <-; by apply Same].
    destruct (cancelAll epoll fd (h_io s)) as [[[b ws] io]| |]; try done. injection E as <-. by apply Same.
Qed.

(** Only a step of its own ends a call. *)
Lemma only_go l s s' c x : hook_step sch l s = Ok s' -> h_calls s !! c = Some x -> is_done x = false -> (forall a, l <> LGo c a) ->
  exists x', h_calls s' !! c = Some x' /\ is_done x' = false.
Proof.
  intros E Ec D N. destruct (only_moves l s s' c x E Ec N) as (x' & Ex & P). exists x'. split; [done|].
  unfold is_done in *. by destruct P as [-> |[-> | ->]].
Qed.

Lemma go_or_other l c : (exists a, l = LGo c a) \/ (forall a, l <> LGo c a).
Proof. destruct l as [| |d a| | | | |]; try (by right). destruct (decide (d = c)) as [->|N]; [left; by exists a|right; congruence]. Qed.

Lemma here s s' c x x' : h_calls s !! c = Some x -> h_calls s' = <[c := x']> (h_calls s) -> h_calls s' !! c = Some x'.
Proof. intros Ec ->. rewrite list_lookup_insert_eq; [done|by eapply lookup_lt_Some]. Qed.

Lemma start_results x s n e : (io_pc (do_io_start x s) = IoDone n e \/ io_pc (connect_start x s) = IoDone n e) -> n = -1 /\ e = EBADF.
Proof. unfold do_io_start, connect_start. intros [H|H]; repeat (case_match; try done); cbn in H; by injection H as <- <-. Qed.

Lemma resume_result s c x next n e y : time_inv s -> h_calls s !! c = Some x -> io_pc x = IoResume -> (forall n e, next <> IoDone n e) ->
  h_calls (resume_step c next x s) !! c = Some y -> io_pc y = IoDone n e -> n = -1 /\ e = ETIMEDOUT /\ io_timeout x <> no_timeout /\ fired s c (io_gen x).
Proof.
  intros T Ec P N. unfold resume_step. destruct (Z.eqb_spec (io_cancelled x) 0) as [E|E]; cbn [negb];
    (rewrite (here s _ c x _ Ec) by (cbn; by rewrite cancel_calls)); intros [= <-] H; cbn in H; [by destruct (N n e)|].
  injection H as <- <-. destruct (ti_cancelled _ T c x Ec) as [?|[-> F]]; [done|]. destruct F as (t & Ht & <- & Eg & Ea).
  split_and!; try done; [|by exists t]. destruct (ti_timer _ T t Ht) as (y & Ey & _ & Ny). assert (y = x) as -> by congruence. by apply Ny.
Qed.

Lemma go_result a s s' c x y n e : hinv s -> time_inv s -> h_calls s !! c = Some x -> is_done x = false ->
  hook_step sch (LGo c a) s = Ok s' -> h_calls s' !! c = Some y -> io_pc y = IoDone n e -> result_of s c x a n e.
Proof.
  intros H T Ec D. cbn [hook_step]. rewrite Ec. unfold result_of.
  assert (Put : forall x', h_calls (with_call c x' s) !! c = Some x') by (intros x'; by apply (here s _ c x)).
  assert (Add : forall refused, io_pc x = IoAdd -> refused <> IoWait -> add_event_step sch c (a_epoll a) refused x s = Ok s' -> h_calls s' !! c = Some y -> io_pc y = IoDone n e ->
    refused = IoDone n e /\ a_epoll a = false).
  { intros refused P N E Ey Py. destruct (add_event_answers s c (a_epoll a) refused x H Ec P N) as (s1 & E1 & _ & C). rewrite E in E1. injection E1 as <-.
    rewrite (here s s' c x _ Ec C) in Ey. injection Ey as <-. cbn in Py. by destruct (a_epoll a). }
  unfold connect_step, do_io_step. destruct (io_pc x) eqn:P.
  - destruct (io_connect x); intros [= <-]; rewrite Put; intros [= <-] E; apply (start_results x s); auto.
  - destruct (io_connect x); intros [= <-]; rewrite Put; by intros [= <-] [= <- <-].
  - destruct (io_connect x).
    + destruct (Z.eqb_spec (a_n a) 0) as [E0|N0]; [intros [= <-]; rewrite Put; intros [= <-] [= <- <-]; by left|].
      destruct (Z.eqb_spec (a_n a) (-1)) as [E1|N1]; destruct (Z.eqb_spec (a_errno a) EINPROGRESS) as [E2|N2]; cbn [negb orb]; intros [= <-]; rewrite Put; intros [= <-] [= <- <-]; right; (split_and!; [done|done|tauto]).
    + destruct (Z.eqb_spec (a_n a) (-1)) as [E1|N1]; cbn [andb].
      * destruct (Z.eqb_spec (a_errno a) EINTR) as [E2|N2]; [intros [= <-]; rewrite Ec; intros [= <-]; congruence|].
        destruct (Z.eqb_spec (a_errno a) EAGAIN) as [E3|N3]; intros [= <-]; rewrite Put; intros [= <-] [= <- <-]; split_and!; tauto.
      * intros [= <-]; rewrite Put; intros [= <-] [= <- <-]; split_and!; tauto.
  - assert (E : forall y', h_calls (add_timer_step c x s) !! c = Some y' -> io_pc y' = IoAdd) by (intros y'; unfold add_timer_step; destruct (_ =? _); cbn [with_timers h_calls]; rewrite Put; by intros [= <-]).
    destruct (io_connect x); intros [= <-] ->%E; done.
  - destruct (io_connect x); intros E Ey Py.
    + by destruct (Add IoError eq_refl ltac:(done) E Ey Py).
    + destruct (Add (IoDone (-1) (a_errno a)) eq_refl ltac:(done) E Ey Py) as [R Ea]. by injection R as <- <-.
  - destruct (io_connect x); intros [= <-]; rewrite Ec; intros [= <-]; congruence.
  - destruct (io_connect x); intros [= <-] Ey Py; [by apply (resume_result s c x IoError n e y)|by apply (resume_result s c x IoCall n e y)].
  - destruct (io_connect x); [|intros [= <-]; rewrite Ec; intros [= <-]; congruence]. intros E Ey Py. split; [done|]. revert E Ey Py.
    destruct (Z.eqb_spec (a_n a) (-1)) as [E1|N1]; [intros [= <-]; rewrite Put; intros [= <-] [= <- <-]; tauto|].
    destruct (Z.eqb_spec (a_error a) 0) as [E2|N2]; intros [= <-]; rewrite Put; intros [= <-] [= <- <-]; tauto.
  - unfold is_done in D. by rewrite P in D.
Qed.

(** What sends a call straight to the kernel. *)
Lemma start_direct x s : (io_pc (do_io_start x s) = IoDirect /\ io_connect x = false) \/ (io_pc (connect_start x s) = IoDirect /\ io_connect x = true) ->
  goes_direct x s.
Proof.
  unfold do_io_start, connect_start, goes_direct. destruct (h_enable s); cbn [negb]; [|by left]. intros H. right. revert H.
  destruct (FdManager_get (io_fd x) false ∅ (h_fds s)) as [[[ctx|] k] m]; cbn [fst]; [|by intros [[_ ?]|[? _]]].
  destruct (m_isClosed ctx), (m_isSocket ctx), (m_userNonBlock ctx); cbn; intros [[? ?]|[? ?]]; try done; split; auto.
Qed.

Lemma moves_direct c a x s s' y : h_calls s !! c = Some x -> io_pc x <> IoDirect -> hook_step sch (LGo c a) s = Ok s' ->
  h_calls s' !! c = Some y -> io_pc y = IoDirect -> io_pc x = IoStart /\ goes_direct x s.
Proof.
  intros Ec N. cbn [hook_step]. rewrite Ec.
  assert (Put : forall x' s0, h_calls s0 = h_calls s -> h_calls (with_call c x' s0) !! c = Some x').
  { intros x' s0 E0. apply (here s _ c x); [done|]. cbn. by rewrite E0. }
  assert (Add : forall ok refused, refused <> IoDirect -> add_event_step sch c ok refused x s = Ok s' -> h_calls s' !! c = Some y -> io_pc y <> IoDirect).
  { intros ok refused Nr. unfold add_event_step. destruct (addEvent _ _ _ _ _ _ _) as [[b io]| |]; try done. cbn [rbind]. destruct b; intros [= <-];
      (rewrite Put by (by rewrite ?cancel_calls)); by intros [= <-]. }
  assert (Res : forall next, next <> IoDirect -> h_calls (resume_step c next x s) !! c = Some y -> io_pc y <> IoDirect).
  { intros next Nn. unfold resume_step. destruct (negb _); (rewrite Put by (by rewrite cancel_calls)); by intros [= <-]. }
  assert (Tim : h_calls (add_timer_step c x s) !! c = Some y -> io_pc y <> IoDirect).
  { unfold add_timer_step. destruct (_ =? _); cbn [with_timers h_calls]; (rewrite Put by done); by intros [= <-]. }
  assert (Pc : forall pc, pc <> IoDirect -> h_calls (with_call c (set_pc pc x) s) !! c = Some y -> io_pc y <> IoDirect) by (intros pc Np; rewrite Put by done; by intros [= <-]).
  assert (Stay : h_calls s !! c = Some y -> io_pc y <> IoDirect) by (rewrite Ec; by intros [= <-]).
  unfold connect_step, do_io_step. destruct (io_connect x) eqn:C, (io_pc x) eqn:P; try done.
  all: repeat match goal with |- context [if ?b then _ else _] => destruct b end.
  all: try (intros [= <-] Ey Py; exfalso; revert Ey Py; first [apply Stay|apply Tim|(apply Pc; done)|(apply Res; done)]).
  1, 3: intros [= <-]; rewrite Put by done; intros [= <-] E; (split; [done|]); apply start_direct; by auto.
  all: intros E Ey Py; exfalso; revert E Ey Py; apply Add; done.
Qed.

Lemma to_direct l s s' c x y : hook_step sch l s = Ok s' -> h_calls s !! c = Some x -> io_pc x <> IoDirect -> h_calls s' !! c = Some y -> io_pc y = IoDirect ->
  io_pc x = IoStart /\ goes_direct x s.
Proof.
  intros E Ec N Ey Py. destruct (go_or_other l c) as [[a ->]|G]; [by apply (moves_direct c a x s s' y)|]. exfalso.
  destruct (only_moves l s s' c x E Ec G) as (z & Ez & Pz). assert (z = y) as -> by congruence. destruct Pz as [Pz|[Pz|Pz]]; congruence.
Qed.

(** ** The timeout *)

(** A callback that cancels, when the kernel lets it, leaves nobody waiting for the event
    who is not scheduled. *)
Lemma cancelled_is_ready s j c x : hinv s -> h_calls s !! c = Some x -> waiting x -> h_cbs s !! j = Some (CbCancel (io_fd x) (io_event x)) ->
  exists s', callback_step true j s = Ok s' /\ hinv s' /\ h_calls s' = h_calls s /\ h_timers s' = h_timers s /\ (sch, Co c) ∈ h_ready s'.
Proof.
  intros H Ec W Ej. destruct (callback_ok true j s H) as (s' & E & H'). exists s'. split; [done|]. split; [done|].
  destruct H as (l & m & T & R & I). destruct (hi_call _ _ I c x Ec) as (Ev & Lf & Bz). pose proof (good_of _ _ Ev (Bz (proj1 (waiting_busy x W)))) as G.
  destruct (op_implements true (Cancel (io_fd x) (io_event x)) (h_io s) l m T R Lf) as (io1 & l1 & E1 & _).
  unfold callback_step in E. rewrite Ej in E. cbn [io_op spec_op] in E1. rewrite G in E1. cbn [negb] in E1.
  destruct (ev_get (io_event x) (m (io_fd x))) as [wk|] eqn:Er; cbn [fst snd rbind] in E1.
  - rewrite E1 in E. cbn [rbind] in E. injection E as <-. split_and!; [done|done|]. cbn. apply elem_of_app.
    destruct (hi_wait _ _ I c x Ec W) as [?|E2]; [by left|right]. rewrite Er in E2. injection E2 as ->. by left.
  - rewrite E1 in E. cbn [rbind] in E. injection E as <-. split_and!; [done|done|]. cbn. apply elem_of_app.
    destruct (hi_wait _ _ I c x Ec W) as [?|E2]; [by left|congruence].
Qed.

Lemma hook_run_app ls ls' s : hook_run sch (ls ++ ls') s = (let! s := hook_run sch ls s in hook_run sch ls' s).
Proof. revert s. induction ls as [|l ls IH]; intros s; [done|]. cbn [hook_run app]. destruct (hook_step sch l s); cbn [rbind]; [apply IH|done|done]. Qed.

Definition armed (s : Hooks) (t : nat) : Prop := exists y, h_timers s !! t = Some y /\ ct_armed y = true.

(** The callback of a waiting call's timer: it marks the call, and is about to cancel. *)
Lemma fire_marks s c x t : hinv s -> time_inv s -> h_calls s !! c = Some x -> waiting x -> io_timer x = Some t -> io_cancelled x = 0 -> armed s t ->
  exists s', hook_run sch [LFire t; LCallback (length (h_cbs s)) true] s = Ok s' /\ hinv s' /\
    h_calls s' !! c = Some (set_cancelled ETIMEDOUT x) /\ h_cbs s' !! length (h_cbs s) = Some (CbCancel (io_fd x) (io_event x)).
Proof.
  intros H T Ec W Et Ca (y & Ey & Ar). destruct (ti_wait _ T c x t Ec W Et) as (y' & Ey' & E1 & E2 & E3 & E4). assert (y' = y) as -> by congruence.
  destruct (hook_step_ok (LFire t) s H I eq_refl) as (s1 & F1 & H1). cbn [hook_run]. rewrite F1. cbn [rbind]. cbn [hook_step] in F1. rewrite Ey, Ar in F1. injection F1 as <-.
  set (s1 := with_cbs _ _) in *. destruct (callback_ok true (length (h_cbs s)) s1 H1) as (s2 & F2 & H2). cbn [hook_step]. rewrite F2. cbn [rbind].
  exists s2. split; [done|]. split; [done|]. unfold callback_step in F2. replace (h_cbs s1 !! length (h_cbs s)) with (Some (CbLock c (io_gen x) (io_fd x) (io_event x))) in F2
    by (cbn; rewrite lookup_app_r, Nat.sub_diag by done; cbn; congruence).
  assert (Dx : is_done x = false) by (by apply waiting_busy).
  change (h_calls s1) with (h_calls s) in F2. rewrite Ec, bool_decide_eq_true_2, Dx, Ca in F2 by done. cbn in F2. injection F2 as <-. cbn. split.
  - rewrite list_lookup_insert_eq; [done|]. by eapply lookup_lt_Some.
  - rewrite list_lookup_insert_eq; [done|]. rewrite length_app. cbn. lia.
Qed.

(** A marked call that is scheduled returns. *)
Lemma marked_returns s c x j a : hinv s -> h_calls s !! c = Some x -> waiting x -> io_cancelled x = ETIMEDOUT -> h_ready s !! j = Some (sch, Co c) ->
  exists s' y, hook_run sch [LResume j; LGo c a] s = Ok s' /\ h_calls s' !! c = Some y /\ io_pc y = IoDone (-1) ETIMEDOUT.
Proof.
  intros H Ec W Ca Ej. unfold waiting in W. cbn [hook_run hook_step]. rewrite Ej, Ec, W. cbn [rbind].
  cbn [with_ready with_call h_calls]. rewrite list_lookup_insert_eq by (by eapply lookup_lt_Some).
  assert (R : forall next s', h_calls s' = <[c := set_pc IoResume x]> (h_calls s) ->
    h_calls (resume_step c next (set_pc IoResume x) s') !! c = Some (set_pc (IoDone (-1) ETIMEDOUT) (set_pc IoResume x))).
  { intros next s' Es. unfold resume_step. cbn [io_cancelled set_pc]. rewrite Ca. cbn [negb Z.eqb ETIMEDOUT with_call h_calls].
    rewrite list_lookup_insert_eq; [done|]. rewrite cancel_calls, Es, length_insert. by eapply lookup_lt_Some. }
  change (io_connect (set_pc IoResume x)) with (io_connect x). unfold connect_step, do_io_step. cbn [io_pc set_pc].
  destruct (io_connect x); (eexists; eexists; split; [done|]; split; [by apply R|done]).
Qed.
End hooks.

(** ** Properties *)

Section properties.
Context (sch n : nat) (fds : FdManager).


(** C7: What a hooked call returns. A call ends in a step of its own coroutine, with one
    of: [EBADF] for a closed or unknown descriptor; for a call that goes straight to the
    kernel, the kernel's answer as it is, interruption and "would block" included, and a
    call goes there only when the thread has no hooks, the descriptor is unknown or no
    socket, or the program made it non-blocking; for a hooked read or write, an answer of
    the kernel that is neither "interrupted" nor "would block"; for a hooked [connect], an
    answer other than "in progress" (an interruption is one), and after the wait the error
    of the socket; the refusal of the event manager when epoll refused; or [ETIMEDOUT], and
    then the descriptor has a timeout and a timer of this very call has fired. *)
Theorem Hook_result s l s' c x r e : hook_reach sch n fds s -> hook_step sch l s = Ok s' ->
  (ended s s' c x r e -> exists a, l = LGo c a /\ result_of s c x a r e) /\
  (h_calls s !! c = Some x -> io_pc x <> IoDirect -> forall y, h_calls s' !! c = Some y -> io_pc y = IoDirect -> io_pc x = IoStart /\ goes_direct x s).
Proof.
  intros [H T]%hook_reach_inv E. split; [|intros Ec N y; by apply (to_direct sch l s s' c x y)]. intros (Ec & D & y & Ey & Py).
  destruct (go_or_other l c) as [[a ->]|N]; [exists a; split; [done|by apply (go_result sch a s s' c x y)]|].
  destruct (only_go sch l s s' c x E Ec D N) as (y' & Ey' & Dy). assert (y' = y) as -> by congruence. unfold is_done in Dy. by rewrite Py in Dy.
Qed.

(** C8: A timeout ends its call. From any reachable state in which a coroutine waits with
    its timer armed and not yet marked: the timer fires, its callback marks the call and
    cancels the event, and then the coroutine is scheduled, wherever it was before; resumed,
    it returns -1 with [ETIMEDOUT]. *)
Theorem Hook_timeout s c x t a : hook_reach sch n fds s -> h_calls s !! c = Some x -> io_pc x = IoWait -> io_timer x = Some t -> io_cancelled x = 0 -> armed s t ->
  exists j s' y, hook_run sch [LFire t; LCallback (length (h_cbs s)) true; LCallback (length (h_cbs s)) true; LResume j; LGo c a] s = Ok s' /\
    h_calls s' !! c = Some y /\ io_pc y = IoDone (-1) ETIMEDOUT.
Proof.
  intros [H T]%hook_reach_inv Ec W Et Ca Ar.
  destruct (fire_marks sch s c x t H T Ec W Et Ca Ar) as (s1 & E1 & H1 & Ec1 & Ej1).
  destruct (cancelled_is_ready sch s1 _ c (set_cancelled ETIMEDOUT x) H1 Ec1 W Ej1) as (s2 & E2 & H2 & Es2 & _ & [j Ej]%list_elem_of_lookup).
  destruct (marked_returns sch s2 c (set_cancelled ETIMEDOUT x) j a H2) as (s3 & y & E3 & Ey & Py); [by rewrite Es2|done|done|done|].
  exists j, s3, y. split; [|done].
  change (hook_run sch ([LFire t; LCallback (length (h_cbs s)) true] ++ [LCallback (length (h_cbs s)) true] ++ [LResume j; LGo c a]) s = Ok s3).
  rewrite hook_run_app, E1. cbn [rbind]. rewrite hook_run_app. cbn [hook_run hook_step]. rewrite E2. cbn [rbind]. exact E3.
Qed.

End properties.

(** ** Descriptor flags *)

Lemma get_lookup fd k (m : FdManager) : 0 <= fd < len m -> FdManager_get fd false k m = (match m !! Z.to_nat fd with Some o => o | None => None end, k, m).
Proof.
  intros L. unfold FdManager_get. replace (fd <? 0) with false by lia. replace (len m <=? fd) with false by lia. by destruct (m !! Z.to_nat fd) as [[x|]|].
Qed.

Lemma len_put_ctx fd x (m : FdManager) : len (put_ctx_of fd x m) = len m.
Proof. unfold len, put_ctx_of. f_equal. apply length_insert. Qed.

Lemma lookup_put_ctx fd x (m : FdManager) : 0 <= fd < len m -> put_ctx_of fd x m !! Z.to_nat fd = Some (Some x).
Proof. intros L. apply list_lookup_insert_eq. unfold len in L. lia. Qed.

Lemma lookup_put_other fd fd' x (m : FdManager) : 0 <= fd -> 0 <= fd' -> fd' <> fd -> put_ctx_of fd x m !! Z.to_nat fd' = m !! Z.to_nat fd'.
Proof. intros L L' N. apply list_lookup_insert_ne. lia. Qed.

Lemma get_put_ctx fd x k (m : FdManager) : 0 <= fd < len m -> FdManager_get fd false k (put_ctx_of fd x m) = (Some x, k, put_ctx_of fd x m).
Proof. intros L. by rewrite get_lookup, lookup_put_ctx by (rewrite ?len_put_ctx; lia). Qed.

Lemma put_get_ctx fd x (m : FdManager) : 0 <= fd < len m -> m_isSocket x && negb (m_isClosed x) = true -> socket_ctx fd (put_ctx_of fd x m) = Some x.
Proof. intros L S. unfold socket_ctx. by rewrite get_put_ctx, S. Qed.

Lemma get_out fd k (m : FdManager) : fd < 0 \/ len m <= fd -> FdManager_get fd false k m = (None, k, m).
Proof. intros L. unfold FdManager_get. destruct (Z.ltb_spec fd 0); [done|]. by replace (len m <=? fd) with true by lia. Qed.

Lemma put_other_ctx fd fd' x (m : FdManager) : fd' <> fd -> 0 <= fd -> socket_ctx fd' (put_ctx_of fd x m) = socket_ctx fd' m.
Proof.
  intros N L. unfold socket_ctx. destruct (decide (0 <= fd' < len m)) as [L'|L']; [|by rewrite !get_out by (rewrite ?len_put_ctx; lia)].
  rewrite !get_lookup by (rewrite ?len_put_ctx; lia). by rewrite lookup_put_other by lia.
Qed.

Lemma socket_ctx_range fd (m : FdManager) x : socket_ctx fd m = Some x -> 0 <= fd < len m /\ m_isSocket x && negb (m_isClosed x) = true.
Proof.
  unfold socket_ctx. destruct (decide (0 <= fd < len m)) as [L|L]; [|by rewrite get_out by lia]. rewrite get_lookup by done.
  destruct (m !! Z.to_nat fd) as [[y|]|]; [|done|done]. destruct (_ && _) eqn:E; [|done]. by intros [= <-].
Qed.

Lemma setfl_same fd flags (k : KernelFds) y : k !! fd = Some y -> k_setfl fd flags k !! fd = Some (mkKernelFd (k_socket y) flags).
Proof. intros E. transitivity ((fun x => mkKernelFd (k_socket x) flags) <$> k !! fd); [apply (lookup_alter_eq (M := gmap Z))|by rewrite E]. Qed.

Lemma setfl_other fd fd' flags (k : KernelFds) : fd' <> fd -> k_setfl fd flags k !! fd' = k !! fd'.
Proof. intros N. by apply (lookup_alter_ne (M := gmap Z)). Qed.

Lemma nonblock_bit a : (Z.land a O_NONBLOCK =? 0) = negb (Z.testbit a 11).
Proof.
  change O_NONBLOCK with (2 ^ 11). destruct (Z.testbit a 11) eqn:E; cbn [negb].
  - apply Z.eqb_neq. intros H. assert (F : Z.testbit (Z.land a (2 ^ 11)) 11 = true) by (by rewrite Z.land_spec, E, Z.pow2_bits_true). rewrite H in F. done.
  - apply Z.eqb_eq. apply Z.bits_inj'. intros i Hi. rewrite Z.land_spec, Z.bits_0. destruct (decide (i = 11)) as [->|N]; [by rewrite E|].
    rewrite Z.pow2_bits_false by lia. apply andb_false_r.
Qed.

Lemma or_nonblock a : Z.testbit a 11 = true -> Z.lor (Z.lor a O_NONBLOCK) O_NONBLOCK = a.
Proof.
  intros E. change O_NONBLOCK with (2 ^ 11). apply Z.bits_inj'. intros i Hi. rewrite !Z.lor_spec.
  destruct (decide (i = 11)) as [->|N]; [by rewrite E|]. rewrite Z.pow2_bits_false by lia. by rewrite !orb_false_r.
Qed.

Lemma without_nonblock a : Z.testbit a 11 = false -> Z.land (Z.lor a O_NONBLOCK) (Z.lnot O_NONBLOCK) = a.
Proof.
  intros E. change O_NONBLOCK with (2 ^ 11). apply Z.bits_inj'. intros i Hi. rewrite Z.land_spec, Z.lor_spec, Z.lnot_spec by done.
  destruct (decide (i = 11)) as [->|N]; [by rewrite E|]. rewrite Z.pow2_bits_false by lia. by rewrite orb_false_r, andb_true_r.
Qed.

(** What a program sets with [fcntl] is what it reads back. On a socket that the hooks
    keep non-blocking, after [F_SETFL] with any flags [F_GETFL] gives these flags, whether
    they ask for non-blocking or not; the kernel's descriptor stays non-blocking; a hooked
    call then goes straight to the kernel if and only if the program asked for that; and no
    other descriptor shows other flags than before. *)
Theorem Fcntl_view fd arg k m x y r k' m' : socket_ctx fd m = Some x -> m_sysNonBlock x = true -> k !! fd = Some y ->
  fcntl_setfl fd arg k m = (r, k', m') ->
  r = 0 /\ fcntl_getfl fd k' m' = arg /\
  (exists z, k' !! fd = Some z /\ Z.land (k_flags z) O_NONBLOCK <> 0) /\
  (forall s c, h_enable s = true -> h_fds s = m' -> io_fd c = fd -> (io_pc (do_io_start c s) = IoDirect <-> Z.land arg O_NONBLOCK <> 0)) /\
  (forall fd', fd' <> fd -> fcntl_getfl fd' k' m' = fcntl_getfl fd' k m).
Proof.
  intros Ex Sy Ek. destruct (socket_ctx_range _ _ _ Ex) as [L So]. unfold fcntl_setfl. rewrite Ex, Ek. cbn [m_sysNonBlock set_user]. rewrite Sy. intros [= <- <- <-].
  set (u := negb (Z.land arg O_NONBLOCK =? 0)). pose proof (put_get_ctx fd (set_user u x) m L So) as G.
  assert (K : k_setfl fd (Z.lor arg O_NONBLOCK) k !! fd = Some (mkKernelFd (k_socket y) (Z.lor arg O_NONBLOCK))) by (by apply setfl_same).
  split; [done|]. split; [|split; [|split]].
  - unfold fcntl_getfl. rewrite G, K. cbn [k_flags m_userNonBlock set_user]. unfold u. rewrite nonblock_bit, negb_involutive.
    destruct (Z.testbit arg 11) eqn:B; [by apply or_nonblock|by apply without_nonblock].
  - eexists. split; [done|]. cbn. apply Z.eqb_neq. rewrite nonblock_bit, Z.lor_spec. change (Z.testbit O_NONBLOCK 11) with true. by rewrite orb_true_r.
  - intros s c En Ef Ei. unfold do_io_start. rewrite En, Ef, Ei. cbn [negb]. rewrite get_put_ctx by done.
    cbn [m_isClosed m_isSocket m_userNonBlock set_user]. apply andb_prop in So as [-> ->%negb_true_iff]. cbn [negb orb]. unfold u.
    destruct (Z.eqb_spec (Z.land arg O_NONBLOCK) 0) as [E|E]; cbn [negb]; by split.
  - intros fd' N. unfold fcntl_getfl. rewrite (put_other_ctx fd fd') by lia. by rewrite setfl_other.
Qed.

(** ** Examples *)

(** Steps that ask nothing of the callers or of the kernel. *)
Definition free_label (l : hook_label) : bool :=
  match l with LGo _ _ | LFire _ | LCallback _ _ | LResume _ => true | _ => false end.

Lemma reach_free sch n fds ls s s' : hook_reach sch n fds s -> forallb free_label ls = true -> hook_run sch ls s = Ok s' -> hook_reach sch n fds s'.
Proof.
  revert s. induction ls as [|l ls IH]; intros s H F E; [by injection E as <-|]. cbn in F, E. apply andb_prop in F as [Fl F].
  destruct (hook_step sch l s) as [s1| |] eqn:E1; try done. cbn [rbind] in E. apply (IH s1); [|done|done]. apply (reach_step _ _ _ s l); [done|by destruct l|done].
Qed.

Lemma reach_first n fds sch fd ev so ls s' : (0 < n)%nat -> is_event ev -> fd < 2 ^ 31 -> forallb free_label ls = true ->
  hook_run sch (LCall 0 fd ev so :: ls) (new_Hooks n fds) = Ok s' -> hook_reach sch n fds s'.
Proof.
  intros Ln Ev Lf F E. cbn [hook_run] in E. destruct (hook_step sch (LCall 0 fd ev so) (new_Hooks n fds)) as [s1| |] eqn:E1; try done. cbn [rbind] in E.
  apply (reach_free sch n fds ls s1); [|done|done]. apply (reach_step _ _ _ (new_Hooks n fds) (LCall 0 fd ev so)); [apply reach_new| |done].
  split_and!; [done|done|]. by intros d y [-> _]%lookup_replicate_1.
Qed.

(** Descriptor 5 is a socket, with one second to receive. *)
Definition a_kernel : KernelFds := {[5 := mkKernelFd true 2]}.
Definition a_ctxs : FdManager :=
  match setsockopt_timeout 5 SO_RCVTIMEO 1 0 (FdManager_get 5 true a_kernel new_FdManager).2 with Ok m => m | _ => [] end.

Definition go (n e : Z) : hook_label := LGo 0 (mkAnswer n e true 0).
Definition again : hook_label := go (-1) EAGAIN.

(** It reads, would block, and waits. *)
Definition to_wait : list hook_label := [go 0 0; again; go 0 0; go 0 0].
Definition a_wait : Hooks := match hook_run 3 (LCall 0 5 READ SO_RCVTIMEO :: to_wait) (new_Hooks 1 a_ctxs) with Ok s => s | _ => new_Hooks 1 a_ctxs end.

Lemma a_wait_reach : hook_reach 3 1 a_ctxs a_wait.
Proof. apply (reach_first 1 a_ctxs 3 5 READ SO_RCVTIMEO to_wait); [lia|by left|lia|done|by vm_compute]. Qed.

Definition the_call (s : Hooks) : Io := match h_calls s with x :: _ => x | [] => no_call end.


Lemma Hook_timeout_witness : exists j s' y,
  hook_run 3 [LFire 0; LCallback 0 true; LCallback 0 true; LResume j; again] a_wait = Ok s' /\ h_calls s' !! 0%nat = Some y /\ io_pc y = IoDone (-1) ETIMEDOUT.
Proof.
  apply (Hook_timeout 3 1 a_ctxs a_wait 0 (the_call a_wait) 0 (mkAnswer (-1) EAGAIN true 0) a_wait_reach); try (by vm_compute).
  eexists. split; by vm_compute.
Defined.

(** The state after the timer has fired, and before the coroutine returns. *)
Definition fires : list hook_label := [LFire 0; LCallback 0 true; LCallback 0 true; LResume 0].
Definition a_timeout : Hooks := match hook_run 3 fires a_wait with Ok s => s | _ => a_wait end.
Definition a_return : Hooks := match hook_step 3 again a_timeout with Ok s => s | _ => a_wait end.

Lemma Hook_result_witness : exists a, again = LGo 0 a /\ result_of a_timeout 0 (the_call a_timeout) a (-1) ETIMEDOUT.
Proof.
  apply (Hook_result 3 1 a_ctxs a_timeout again a_return 0 (the_call a_timeout) (-1) ETIMEDOUT).
  - apply (reach_free 3 1 a_ctxs fires a_wait); [apply a_wait_reach|done|by vm_compute].
  - by vm_compute.
  - split; [by vm_compute|]. split; [by vm_compute|]. eexists. split; by vm_compute.
Defined.

Definition a_socket : FdCtx := mkFdCtx true true true false false no_timeout no_timeout.
Definition some_fds : FdManager := [None; Some a_socket].
Definition some_kernel : KernelFds := {[1 := mkKernelFd true (2 + O_NONBLOCK)]}.

Lemma Fcntl_view_witness : let '(r, k, m) := fcntl_setfl 1 (2 + O_NONBLOCK) some_kernel some_fds in fcntl_getfl 1 k m = 2 + O_NONBLOCK.
Proof.
  destruct (fcntl_setfl 1 (2 + O_NONBLOCK) some_kernel some_fds) as [[r k] m] eqn:E.
  by destruct (Fcntl_view 1 (2 + O_NONBLOCK) some_kernel some_fds a_socket (mkKernelFd true (2 + O_NONBLOCK)) r k m) as (_ & V & _).
Defined.

(** The timer that is added before the event is registered can fire before it: nothing is
    there to cancel, and the coroutine then waits with no timer. Data that come later wake
    it, and it returns [ETIMEDOUT] all the same. *)
Example lost_timeout :
  exists s, hook_run 3 (LCall 0 5 READ SO_RCVTIMEO :: [go 0 0; again; go 0 0; LFire 0; LCallback 0 true; LCallback 0 true; go 0 0]) (new_Hooks 1 a_ctxs) = Ok s /\
    io_pc (the_call s) = IoWait /\ map ct_armed (h_timers s) = [false] /\ h_cbs s = [] /\ h_ready s = [] /\
    exists s', hook_run 3 [LReport 5 EPOLLIN true; LResume 0; again] s = Ok s' /\ io_pc (the_call s') = IoDone (-1) ETIMEDOUT.
Proof. eexists. split; [by vm_compute|]. split_and!; try (by vm_compute). eexists. split; by vm_compute. Qed.

(** A torn report: one coroutine reads and another writes, epoll finds both possible, and
    before its report is taken up the reader's time is over. *)
Example torn_report :
  let writes n e := LGo 1 (mkAnswer n e true 0) in
  let waits := [LCall 0 5 READ SO_RCVTIMEO] ++ to_wait ++ [LCall 1 5 WRITE SO_SNDTIMEO; writes 0 0; writes (-1) EAGAIN; writes 0 0; writes 0 0] in
  let both := LReport 5 (Z.lor EPOLLIN EPOLLOUT) true in
  let times_out := [LFire 0; LCallback 0 true; LCallback 0 true] in
  (let! s := hook_run 3 waits (new_Hooks 2 a_ctxs) in let! s' := hook_run 3 times_out s in Ok (fails both s, fails both s')) = Ok (false, true) /\
  hook_run 3 (waits ++ times_out ++ [both]) (new_Hooks 2 a_ctxs) = Crash assertion_failed.
Proof. split; vm_compute; reflexivity. Qed.

(** Nothing marks a context closed: a coroutine that a close has woken makes its system
    call again, on a number that may be another file by now. *)
Example reads_after_close :
  exists s, hook_run 3 [LClose 5 true; LResume 0; again; go 7 0] a_wait = Ok s /\ io_pc (the_call s) = IoDone 7 0.
Proof. eexists. split; by vm_compute. Qed.

(** When epoll refuses the descriptor, a connect that has only begun reports success. *)
Example refused_connect :
  exists s, hook_run 3 [LConnect 0 5 no_timeout; go 0 0; go (-1) EINPROGRESS; go 0 0; LGo 0 (mkAnswer 0 0 false 0); go 0 0] (new_Hooks 1 a_ctxs) = Ok s /\
    io_pc (the_call s) = IoDone 0 0.
Proof. eexists. split; by vm_compute. Qed.

(** A timeout of zero, which for the kernel is none, ends a call at once. *)
Example zero_timeout : exists m, setsockopt_timeout 5 SO_RCVTIMEO 0 0 a_ctxs = Ok m /\ io_timeout (do_io_start (mkIo false IoStart 5 READ SO_RCVTIMEO no_timeout None 0 0) (new_Hooks 1 m)) = 0.
Proof. eexists. split; by vm_compute. Qed.

(** [ioctl] sets what the hooks keep for themselves: the program's wish for non-blocking
    calls is neither seen nor obeyed, and without it the kernel's descriptor blocks. *)
Example ioctl_forgets :
  let '(_, k, m) := ioctl_fionbio 1 true some_kernel some_fds in
  fcntl_getfl 1 k m = 2 /\ io_pc (do_io_start (mkIo false IoStart 1 READ SO_RCVTIMEO no_timeout None 0 0) (new_Hooks 1 m)) = IoCall /\
  let '(_, k, m) := ioctl_fionbio 1 false k m in (k : KernelFds) !! 1 = Some (mkKernelFd true 2) /\
  io_pc (do_io_start (mkIo false IoStart 1 READ SO_RCVTIMEO no_timeout None 0 0) (new_Hooks 1 m)) = IoCall.
Proof. by vm_compute. Qed.

(** Fifty days of sleep are over in 0.7 seconds. *)
Example short_sleep : sleep_ms 4294968 = 704. Proof. done. Qed.
