(* ===== verification/Password.v ===== *)
(** Password hashes (src/util/password.cpp): the text that is stored for a password, and
    its verification.

    PBKDF2 of OpenSSL is a parameter: [pbkdf2 password n salt m iterations keylen], with the
    lengths that the code passes, which are [int]s. So is [RAND_bytes]: its bytes, or that
    it failed, are an argument. *)
From S2P Require Import Prelude CppString Number HashUtil.

(** [to_hex]: [os << std::hex << std::setw(2)] of each byte, filled with zeros. *)
Definition hex2 (b : byte) : list byte := [hex_char (b2z b / 16); hex_char (b2z b mod 16)].
Definition to_hex (data : list byte) : list byte := concat (map hex2 data).

(** [from_hex]: the loop over the pairs from [i] on; a pair is scanned in what follows it. *)
Fixpoint from_hex_loop (n i : nat) (hex out : list byte) : option (list byte) :=
  match n with
  | O => Some out
  | S n =>
      match scan_02x (drop (i * 2) hex) with
      | Some v => from_hex_loop n (S i) hex (out ++ [z2b v])
      | None => None
      end
  end.

Definition from_hex (hex : list byte) : option (list byte) :=
  if negb (length hex mod 2 =? 0)%nat then None else from_hex_loop (length hex / 2) 0 hex [].

Definition dollar : byte := x24.
Definition hash_prefix : list byte := bstr "pbkdf2_sha256$".

(** [diff |= a[i] ^ b[i]] *)
Fixpoint differences (diff : Z) (a b : list byte) : Z :=
  match a, b with
  | x :: a, y :: b => differences (u8 (Z.lor diff (Z.lxor (b2z x) (b2z y)))) a b
  | _, _ => diff
  end.

Section password.
Context (pbkdf2 : list byte -> Z -> list byte -> Z -> Z -> Z -> option (list byte)).

Definition salt_len : Z := 16.
Definition dk_len : Z := 32.

(** [Password::Hash] *)
Definition Hash (rand : option (list byte)) (password : list byte) (iterations : Z) : list byte :=
  match rand with
  | None => []
  | Some salt =>
      match pbkdf2 password (s32 (len password)) salt salt_len (s32 iterations) dk_len with
      | None => []
      | Some dk => hash_prefix ++ dec iterations ++ [dollar] ++ to_hex salt ++ [dollar] ++ to_hex dk
      end
  end.

(** [catch (...)] *)
Definition or_false (r : res bool) : res bool := match r with Throw _ => Ok false | r => r end.

(** [Password::Verify] *)
Definition Verify (password stored_hash : list byte) : res bool :=
  if negb (has_prefix hash_prefix stored_hash) then Ok false
  else
    match from (find_char dollar) stored_hash (length hash_prefix) with
    | None => Ok false
    | Some p1 =>
        let! iter_str := substr stored_hash (length hash_prefix) (p1 - length hash_prefix) in
        match from (find_char dollar) stored_hash (p1 + 1) with
        | None => Ok false
        | Some p2 =>
            let! salt_hex := substr stored_hash (p1 + 1) (p2 - (p1 + 1)) in
            let! dk_hex := substr_from stored_hash (p2 + 1) in
            or_false
              (let! n := stoul iter_str in
               let iterations := u32 n in
               match from_hex salt_hex with
               | None => Ok false
               | Some salt =>
                   match from_hex dk_hex with
                   | None => Ok false
                   | Some dk_ref =>
                       match pbkdf2 password (s32 (len password)) salt (s32 (len salt)) (s32 iterations) (s32 (len dk_ref)) with
                       | None => Ok false
                       | Some dk =>
                           if negb (len dk =? len dk_ref) then Ok false
                           else Ok (differences 0 dk dk_ref =? 0)
                       end
                   end
               end)
        end
    end.
End password.

(** The iterations of a call that names none. *)
Definition default_iterations : Z := 120000.
