(* ===== verification/PasswordSpec.v ===== *)
(** Passwords: a stored hash verifies exactly the passwords that derive its key, and any
    text that is stored is taken apart safely. *)
From S2P Require Import Prelude CppString Number HashUtil Password.

(** ** Hexadecimal *)

Lemma hex_digit_char n : 0 <= n < 16 -> hex_digit (hex_char n) = Some n.
Proof.
  intros H. assert (A : forall i : nat, (i < 16)%nat -> hex_digit (hex_char (Z.of_nat i)) = Some (Z.of_nat i)).
  { intros i L. do 16 (destruct i as [|i]; [done|]). lia. }
  specialize (A (Z.to_nat n)). rewrite Z2Nat.id in A by lia. apply A. lia.
Qed.

Lemma scan_hex2 b r : scan_02x (hex2 b ++ r) = Some (b2z b).
Proof.
  pose proof (b2z_range b) as B. pose proof (Z.div_mod (b2z b) 16 ltac:(lia)) as E. unfold hex2. cbn [app].
  rewrite (scan_02x_digits _ _ (b2z b / 16) (b2z b mod 16)); [f_equal; lia| |]; apply hex_digit_char.
  - split; [apply Z.div_pos; lia|apply Z.div_lt_upper_bound; lia].
  - by apply Z.mod_pos_bound.
Qed.

Lemma length_to_hex l : length (to_hex l) = (2 * length l)%nat.
Proof. induction l as [|b l IH]; [done|]. unfold to_hex in *. cbn [map concat]. rewrite length_app, IH. cbn. lia. Qed.

Lemma drop_to_hex a l : drop (length a * 2) (to_hex (a ++ l)) = to_hex l.
Proof.
  unfold to_hex. rewrite map_app, concat_app. assert (E : length (concat (map hex2 a)) = (length a * 2)%nat) by (pose proof (length_to_hex a) as L; unfold to_hex in L; lia).
  by rewrite <- E, drop_app_length.
Qed.

Lemma from_hex_loop_to_hex l : forall a out, from_hex_loop (length l) (length a) (to_hex (a ++ l)) out = Some (out ++ l).
Proof.
  induction l as [|b l IH]; intros a out; [cbn; by rewrite app_nil_r|]. cbn [length from_hex_loop]. rewrite drop_to_hex.
  change (to_hex (b :: l)) with (hex2 b ++ to_hex l). rewrite scan_hex2. replace (S (length a)) with (length (a ++ [b])) by (rewrite length_app; cbn; lia).
  replace (a ++ b :: l) with ((a ++ [b]) ++ l) by (by rewrite <- app_assoc). by rewrite IH, z2b_b2z, <- app_assoc.
Qed.

Lemma from_hex_to_hex l : from_hex (to_hex l) = Some l.
Proof.
  unfold from_hex. rewrite length_to_hex. rewrite (Nat.mul_comm 2), Nat.Div0.mod_mul, Nat.div_mul by lia. cbn. apply (from_hex_loop_to_hex l []).
Qed.

(** ** Fields *)

Definition no_dollar (s : list byte) : Prop := Forall (fun c => is_char dollar c = false) s.

Lemma find_dollar s r : no_dollar s -> find_char dollar (s ++ dollar :: r) = Some (length s).
Proof.
  unfold find_char. induction s as [|c s IH]; intros F; [done|]. apply list.Forall_cons in F as [Fc F]. cbn [app find_if length]. by rewrite Fc, (IH F).
Qed.

Lemma digits_no_dollar s : forallb is_digit s = true -> no_dollar s.
Proof.
  intros F. apply list.Forall_forall. intros c Hc. rewrite forallb_forall in F. specialize (F c). rewrite <- list_elem_of_In in F. specialize (F Hc).
  apply bool_decide_eq_false. intros ->. done.
Qed.

Lemma hex_no_dollar l : no_dollar (to_hex l).
Proof.
  assert (H : forall n, 0 <= n < 16 -> is_char dollar (hex_char n) = false).
  { intros n L. apply bool_decide_eq_false. intros E. pose proof (hex_digit_char n L) as D. by rewrite E in D. }
  induction l as [|b l IH]; [constructor|]. change (to_hex (b :: l)) with (hex2 b ++ to_hex l). apply list.Forall_app. split; [|done].
  pose proof (b2z_range b). repeat constructor; apply H; [split; [apply Z.div_pos; lia|apply Z.div_lt_upper_bound; lia]|by apply Z.mod_pos_bound].
Qed.

(** ** Comparison *)

Lemma lor_zero a b : Z.lor a b = 0 <-> a = 0 /\ b = 0.
Proof. apply Z.lor_eq_0_iff. Qed.

Lemma differences_zero a : forall b diff, length a = length b -> 0 <= diff < 256 -> (differences diff a b = 0 <-> diff = 0 /\ a = b).
Proof.
  induction a as [|x a IH]; intros [|y b] diff L D; try done; cbn [differences]; [naive_solver|]. injection L as L.
  pose proof (b2z_range x). pose proof (b2z_range y). assert (X : 0 <= Z.lxor (b2z x) (b2z y) < 2 ^ 8) by (apply lxor_range; lia).
  assert (R : 0 <= Z.lor diff (Z.lxor (b2z x) (b2z y)) < 2 ^ 8).
  { split; [apply Z.lor_nonneg; lia|]. destruct (Z.eq_dec (Z.lor diff (Z.lxor (b2z x) (b2z y))) 0) as [->|N]; [lia|].
    apply Z.log2_lt_pow2; [pose proof (proj2 (Z.lor_nonneg diff (Z.lxor (b2z x) (b2z y))) ltac:(lia)); lia|].
    rewrite Z.log2_lor by lia. apply Z.max_lub_lt; [destruct (Z.eq_dec diff 0) as [->|]; [done|apply Z.log2_lt_pow2; lia]|].
    destruct (Z.eq_dec (Z.lxor (b2z x) (b2z y)) 0) as [->|]; [done|apply Z.log2_lt_pow2; lia]. }
  rewrite u8_small by lia. rewrite IH by lia. rewrite lor_zero, Z.lxor_eq_0_iff. split.
  - intros [[-> E] ->]. apply b2z_inj in E. by subst.
  - intros [-> [= -> ->]]. done.
Qed.

(** ** Properties *)

Section password.
Context (pbkdf2 : list byte -> Z -> list byte -> Z -> Z -> Z -> option (list byte)).

(** [PKCS5_PBKDF2_HMAC] fills the buffer that it is given. *)
Definition fills : Prop := forall p n salt m i k dk, pbkdf2 p n salt m i k = Some dk -> len dk = k.

(** What [Verify] makes of three fields. *)
Lemma verify_fields password iter salt dk_hex : no_dollar iter -> no_dollar salt ->
  Verify pbkdf2 password (hash_prefix ++ iter ++ [dollar] ++ salt ++ [dollar] ++ dk_hex) =
  or_false (let! n := stoul iter in
    match from_hex salt with
    | None => Ok false
    | Some s =>
        match from_hex dk_hex with
        | None => Ok false
        | Some dk_ref =>
            match pbkdf2 password (s32 (len password)) s (s32 (len s)) (s32 (u32 n)) (s32 (len dk_ref)) with
            | None => Ok false
            | Some dk => if negb (len dk =? len dk_ref) then Ok false else Ok (differences 0 dk dk_ref =? 0)
            end
        end
    end).
Proof.
  intros Fi Fs. unfold Verify. rewrite has_prefix_app. cbn [negb].
  set (s := hash_prefix ++ _). assert (E1 : s = hash_prefix ++ iter ++ dollar :: salt ++ dollar :: dk_hex) by done.
  assert (L : length s = (length hash_prefix + (length iter + S (length salt + S (length dk_hex))))%nat) by (rewrite E1, !length_app; cbn [length]; rewrite length_app; done).
  rewrite from_ok by lia. rewrite E1 at 1. rewrite drop_app_length, find_dollar by done. cbn [fmap option_fmap option_map].
  rewrite substr_ok by lia. cbn [rbind]. replace (slice (length hash_prefix) (length hash_prefix + length iter - length hash_prefix) s) with iter
    by (unfold slice; rewrite E1, drop_app_length; replace (length hash_prefix + length iter - length hash_prefix)%nat with (length iter) by lia; by rewrite take_app_length).
  assert (D1 : drop (length hash_prefix + length iter + 1) s = salt ++ dollar :: dk_hex).
  { rewrite E1. replace (hash_prefix ++ iter ++ dollar :: salt ++ dollar :: dk_hex) with ((hash_prefix ++ iter ++ [dollar]) ++ salt ++ dollar :: dk_hex) by (by rewrite <- !app_assoc).
    replace (length hash_prefix + length iter + 1)%nat with (length (hash_prefix ++ iter ++ [dollar])) by (rewrite !length_app; cbn; lia). by rewrite drop_app_length. }
  rewrite from_ok by lia. rewrite D1, find_dollar by done. cbn [fmap option_fmap option_map]. rewrite substr_ok by lia. cbn [rbind].
  unfold slice. rewrite D1. replace (length hash_prefix + length iter + 1 + length salt - (length hash_prefix + length iter + 1))%nat with (length salt) by lia.
  rewrite take_app_length, substr_from_ok by lia. cbn [rbind].
  replace (drop (length hash_prefix + length iter + 1 + length salt + 1) s) with dk_hex; [done|].
  replace (length hash_prefix + length iter + 1 + length salt + 1)%nat with (length hash_prefix + length iter + 1 + (length salt + 1))%nat by lia.
  rewrite <- drop_drop, D1. replace (salt ++ dollar :: dk_hex) with ((salt ++ [dollar]) ++ dk_hex) by (by rewrite <- app_assoc).
  replace (length salt + 1)%nat with (length (salt ++ [dollar])) by (rewrite length_app; cbn; lia). by rewrite drop_app_length.
Qed.

Lemma compare_keys dk dk_ref : (if negb (len dk =? len dk_ref) then Ok false else Ok (differences 0 dk dk_ref =? 0)) = Ok (bool_decide (dk = dk_ref)).
Proof.
  destruct (Z.eqb_spec (len dk) (len dk_ref)) as [E|N]; cbn [negb].
  - f_equal. unfold len in E. pose proof (differences_zero dk dk_ref 0 ltac:(lia) ltac:(lia)) as D.
    destruct (Z.eqb_spec (differences 0 dk dk_ref) 0), (bool_decide_reflect (dk = dk_ref)); naive_solver.
  - rewrite bool_decide_false; [done|]. by intros ->.
Qed.

(** What [Verify] says of a hash that was made. *)
Lemma verify_hash salt password iterations dk q : fills -> len salt = 16 -> 0 <= iterations < 2 ^ 32 ->
  pbkdf2 password (s32 (len password)) salt 16 (s32 iterations) 32 = Some dk ->
  Verify pbkdf2 q (Hash pbkdf2 (Some salt) password iterations) = Ok (bool_decide (pbkdf2 q (s32 (len q)) salt 16 (s32 iterations) 32 = Some dk)).
Proof.
  intros Fl Ls Li Ek. pose proof (Fl _ _ _ _ _ _ _ Ek) as Lk.
  unfold Hash, salt_len, dk_len. rewrite Ek, verify_fields by (try apply hex_no_dollar; apply digits_no_dollar, dec_is_digits; lia).
  rewrite stoul_dec, !from_hex_to_hex by lia. cbn [rbind]. rewrite (u32_small iterations) by done. replace (s32 (len salt)) with 16 by (by rewrite Ls). replace (s32 (len dk)) with 32 by (by rewrite Lk).
  destruct (pbkdf2 q _ salt 16 _ 32) as [dk'|]; [|done]. rewrite compare_keys. cbn [or_false]. f_equal. by apply bool_decide_ext; naive_solver.
Qed.

(** A stored hash verifies exactly the passwords that derive its key. What [Hash] makes of
    a password with a salt of sixteen bytes and any 32-bit number of iterations is a text of at
    most 122 characters; [Verify] says yes to it for a password if and only if that password
    derives the same key from the same salt, so it does for the password itself. *)
Theorem Password_roundtrip salt password iterations dk q : fills -> len salt = 16 -> 0 <= iterations < 2 ^ 32 ->
  pbkdf2 password (s32 (len password)) salt 16 (s32 iterations) 32 = Some dk ->
  let h := Hash pbkdf2 (Some salt) password iterations in
  len h <= 122 /\
  Verify pbkdf2 q h = Ok (bool_decide (pbkdf2 q (s32 (len q)) salt 16 (s32 iterations) 32 = Some dk)) /\
  Verify pbkdf2 password h = Ok true.
Proof.
  intros Fl Ls Li Ek. pose proof (Fl _ _ _ _ _ _ _ Ek) as Lk. split; [|split; [by apply verify_hash|by rewrite (verify_hash _ _ _ dk), bool_decide_true]].
  unfold Hash, salt_len, dk_len. rewrite Ek. unfold len in *. rewrite !length_app, !length_to_hex. change (length hash_prefix) with 14%nat. cbn [length].
  pose proof (length_dec iterations 10 ltac:(change (10 ^ Z.of_nat 10) with 10000000000; lia) ltac:(lia)). lia.
Qed.

(** Verification of any text. Whatever text is stored, [Verify] ends with an answer and
    without an exception; and it says yes only when the text has the prefix, a number, a
    salt and a key that can be scanned, and the password derives exactly this key. *)
Theorem Password_verify_any password stored : fills ->
  (exists b, Verify pbkdf2 password stored = Ok b) /\
  (Verify pbkdf2 password stored = Ok true -> exists iter salt_hex dk_hex n salt dk,
     stored = hash_prefix ++ iter ++ [dollar] ++ salt_hex ++ [dollar] ++ dk_hex /\
     stoul iter = Ok n /\ from_hex salt_hex = Some salt /\ from_hex dk_hex = Some dk /\
     pbkdf2 password (s32 (len password)) salt (s32 (len salt)) (s32 (u32 n)) (s32 (len dk)) = Some dk).
Proof.
  intros Fl. destruct (has_prefix hash_prefix stored) eqn:P; [|unfold Verify; rewrite P; by split; [exists false|]].
  apply has_prefix_true in P. set (t := drop (length hash_prefix) stored) in P.
  destruct (find_char dollar t) as [p1|] eqn:E1.
  2:{ assert (V : Verify pbkdf2 password stored = Ok false); [|rewrite V; by split; [exists false|]].
      unfold Verify. rewrite P, has_prefix_app, from_ok, drop_app_length, E1 by (rewrite length_app; lia). done. }
  apply find_if_some in E1 as (iter & c & t2 & Et & <- & Hc%bool_decide_eq_true & Fi). subst c.
  destruct (find_char dollar t2) as [p2|] eqn:E2.
  2:{ assert (V : Verify pbkdf2 password stored = Ok false); [|rewrite V; by split; [exists false|]].
      unfold Verify. rewrite P, Et, has_prefix_app, from_ok, drop_app_length by (rewrite length_app; lia). cbn [negb]. rewrite find_dollar by done. cbn [fmap option_fmap option_map].
      rewrite substr_ok by (rewrite length_app; lia). cbn [rbind]. rewrite from_ok by (rewrite !length_app; cbn; lia).
      replace (drop (length hash_prefix + length iter + 1) (hash_prefix ++ iter ++ dollar :: t2)) with t2; [by rewrite E2|].
      replace (hash_prefix ++ iter ++ dollar :: t2) with ((hash_prefix ++ iter ++ [dollar]) ++ t2) by (by rewrite <- !app_assoc).
      replace (length hash_prefix + length iter + 1)%nat with (length (hash_prefix ++ iter ++ [dollar])) by (rewrite !length_app; cbn; lia). by rewrite drop_app_length. }
  apply find_if_some in E2 as (salt_hex & c & dk_hex & Et2 & <- & Hc%bool_decide_eq_true & Fs). subst c.
  assert (St : stored = hash_prefix ++ iter ++ [dollar] ++ salt_hex ++ [dollar] ++ dk_hex) by (rewrite P, Et, Et2; done).
  rewrite St, verify_fields by done. destruct (stoul iter) as [n|e|u] eqn:En; cbn [rbind or_false]; [|by split; [exists false|]|].
  2:{ exfalso. revert En. unfold stoul. repeat case_match; done. }
  destruct (from_hex salt_hex) as [salt|] eqn:Es; [|by split; [exists false|]]. destruct (from_hex dk_hex) as [dk|] eqn:Ed; [|by split; [exists false|]].
  destruct (pbkdf2 password _ salt _ _ _) as [dk'|] eqn:Ek; [|by split; [exists false|]]. rewrite compare_keys. cbn [or_false]. split; [by eexists|].
  intros [= ->%bool_decide_eq_true]. by exists iter, salt_hex, dk_hex, n, salt, dk.
Qed.
End password.

(** A stand-in for the derivation: the key is the beginning of the password and the salt. *)
Definition toy_kdf (p : list byte) (n : Z) (salt : list byte) (m i k : Z) : option (list byte) :=
  if k <? 0 then None else Some (take (Z.to_nat k) (p ++ salt ++ replicate (Z.to_nat k) x00)).

Lemma toy_fills : fills toy_kdf.
Proof.
  intros p n salt m i k dk. unfold toy_kdf. destruct (Z.ltb_spec k 0); [done|]. intros [= <-]. unfold len. rewrite length_take, !length_app, length_replicate. lia.
Qed.

Definition some_salt : list byte := bstr "0123456789abcdef".
Definition some_password : list byte := bstr "secret$1".

Lemma Password_roundtrip_witness : Verify toy_kdf some_password (Hash toy_kdf (Some some_salt) some_password default_iterations) = Ok true /\
  Verify toy_kdf (bstr "guess") (Hash toy_kdf (Some some_salt) some_password default_iterations) = Ok false.
Proof.
  destruct (Password_roundtrip toy_kdf some_salt some_password default_iterations (take 32 (some_password ++ some_salt ++ replicate 32 x00)) (bstr "guess")) as (_ & V1 & V2);
    [apply toy_fills|done|done|done|]. split; [exact V2|rewrite V1; f_equal; by vm_compute].
Defined.

Lemma Password_verify_any_witness : exists b, Verify toy_kdf some_password (bstr "pbkdf2_sha256$x$+1 f$") = Ok b.
Proof. apply (Password_verify_any toy_kdf some_password (bstr "pbkdf2_sha256$x$+1 f$") toy_fills). Defined.

(** The pairs are scanned and not looked at: a sign or a space is part of a salt. *)
Example lenient_salt : from_hex (bstr "+f 1") = Some [x0f; x01]. Proof. by vm_compute. Qed.
