(* ===== verification/Json.v ===== *)
(** JSON values and what the program does with them (src/util/json_util.cpp,
    src/common/common.cpp). The values, their order of keys and their accessors are those of
    jsoncpp; its reader and its writer are parameters. *)
From S2P Require Import Prelude CppString Number.

#[local] Set Warnings "-register-all".

(** A [Json::Value]: a real is its word, an object its members in the order of the keys. *)
Inductive Value :=
  | JNull
  | JBool (b : bool)
  | JInt (z : Z)
  | JUInt (z : Z)
  | JReal (w : Z)
  | JString (s : list byte)
  | JArray (l : list Value)
  | JObject (m : list (list byte * Value)).

Fixpoint put_member (k : list byte) (v : Value) (m : list (list byte * Value)) : list (list byte * Value) :=
  match m with
  | [] => [(k, v)]
  | (k', v') :: m' => match key_compare k k' with Lt => (k, v) :: m | Eq => (k, v) :: m' | Gt => (k', v') :: put_member k v m' end
  end.

Fixpoint get_member (k : list byte) (m : list (list byte * Value)) : option Value :=
  match m with [] => None | (k', v) :: m => if bool_decide (k = k') then Some v else get_member k m end.

(** [root[k] = v] of a value that is null or an object. *)
Definition set_at (k : string) (v : Value) (root : Value) : Value :=
  match root with JObject m => JObject (put_member (bstr k) v m) | _ => JObject [(bstr k, v)] end.

Definition isObject (v : Value) : bool := match v with JObject _ => true | _ => false end.
Definition isNull (v : Value) : bool := match v with JNull => true | _ => false end.
Definition empty_object : Value := JObject [].

(** [json.isMember(name)] with [json[name]]. *)
Definition member (name : string) (json : Value) : option Value :=
  match json with JObject m => get_member (bstr name) m | _ => None end.

(** ** [JsonUtil] *)

Definition escaped (c : byte) : option byte :=
  let z := b2z c in
  if z =? 12 then Some x66 else if z =? 9 then Some x74 else if z =? 13 then Some x72 else if z =? 10 then Some x6e
  else if z =? 8 then Some x62 else if z =? 34 then Some x22 else if z =? 92 then Some x5c else None.

Definition NeedEscape (v : list byte) : bool := existsb (fun c => bool_decide (is_Some (escaped c))) v.

Definition escape_size (v : list byte) : Z := fold_left (fun size c => size + match escaped c with Some _ => 2 | None => 1 end) v 0.

(** [JsonUtil::Escape]: what is appended is appended to a string that was resized. *)
Definition Escape (v : list byte) : list byte :=
  let size := escape_size v in
  if size =? len v then v
  else fold_left (fun rt c => match escaped c with Some e => rt ++ [x5c; e] | None => rt ++ [c] end) v (replicate (Z.to_nat size) x00).

Definition GetString (json : Value) (name : string) (default_value : list byte) : list byte :=
  match member name json with Some (JString s) => s | _ => default_value end.

(** [TypeUtil::Atoi] *)
Definition TypeUtil_Atoi (str : list byte) : Z := if is_empty str then 0 else s64 (strtoull str).

Section numbers.
(** The integral value of a real, if it has one. *)
Context (integral : Z -> option Z).

Definition int_value (lo hi : Z) (v : Value) : option Z :=
  match v with
  | JInt z | JUInt z => if (lo <=? z) && (z <=? hi) then Some z else None
  | JReal w => z ← integral w; if (lo <=? z) && (z <=? hi) then Some z else None
  | _ => None
  end.

Definition get_number (lo hi : Z) (cast : Z -> Z) (json : Value) (name : string) (default_value : Z) : Z :=
  match member name json with
  | None => default_value
  | Some v =>
      match int_value lo hi v with
      | Some z => z
      | None => match v with JString s => cast (TypeUtil_Atoi s) | _ => default_value end
      end
  end.

Definition GetInt32 := get_number (- 2 ^ 31) (2 ^ 31 - 1) s32.
Definition GetUint32 := get_number 0 (2 ^ 32 - 1) u32.
Definition GetInt64 := get_number (- 2 ^ 63) (2 ^ 63 - 1) s64.
Definition GetUint64 := get_number 0 (2 ^ 64 - 1) u64.
End numbers.

(** ** Bodies *)

(** The reader and the writer. *)
Class JsonText := {
  json_read : list byte -> option Value;
  json_write : Value -> list byte;
}.

Section bodies.
Context `{JsonText}.

Definition FromString (v : list byte) : option Value := json_read v.
Definition ToString (json : Value) : list byte := json_write json.

(** [Ok] of src/common/common.cpp. *)
Definition ok_body (data : Value) : list byte := ToString data.

(** [Error] of src/common/common.cpp. *)
Definition error_body (code : Z) (msg : list byte) : list byte :=
  ToString (set_at "message" (JString msg) (set_at "code" (JInt code) JNull)).

(** The body when it is an object. *)
Definition ParseBody (body : list byte) : option Value :=
  if is_empty body then None
  else match FromString body with
       | None => None
       | Some out => if isObject out then Some out else None
       end.
End bodies.
