(* ===== verification/Crypto.v ===== *)
(** RSA (the class [RSACipher] of src/util/crypto_util.cpp and src/other/crypto_module.cpp).

    The four functions of OpenSSL are parameters: on a key, a padding and the bytes they give
    the result, or fail with -1; so is the size of a key. What one side encrypts the other
    side decrypts; the lengths that are refused; and the escapes of JSON strings. *)
From S2P Require Import Prelude CppString Number Json.

Class RsaLib := {
  rsa_key : Type;
  RSA_size : rsa_key -> Z;
  RSA_public_encrypt : rsa_key -> Z -> list byte -> option (list byte);
  RSA_private_encrypt : rsa_key -> Z -> list byte -> option (list byte);
  RSA_public_decrypt : rsa_key -> Z -> list byte -> option (list byte);
  RSA_private_decrypt : rsa_key -> Z -> list byte -> option (list byte);
}.

Definition RSA_PKCS1_PADDING : Z := 1.
Definition RSA_NO_PADDING : Z := 3.
Definition RSA_PKCS1_OAEP_PADDING : Z := 4.

Section crypto.
Context `{RsaLib}.

(** ** [RSACipher] *)

Record RSACipher := mkRSACipher { m_pubkey : option rsa_key; m_prikey : option rsa_key }.

Definition size_of_key (key : option rsa_key) : Z := match key with Some k => RSA_size k | None => -1 end.
Definition getPubRSASize (r : RSACipher) : Z := size_of_key (m_pubkey r).
Definition getPriRSASize (r : RSACipher) : Z := size_of_key (m_prikey r).

(** What the four functions have in common: the result, which is negative on failure, and the
    string that is left. *)
Definition cipher (f : rsa_key -> Z -> list byte -> option (list byte)) (key : option rsa_key) (padding : Z) (from : list byte) : Z * list byte :=
  if size_of_key key <=? 0 then (-1, [])
  else match key with
       | Some k => match f k padding from with Some to => (len to, to) | None => (-1, []) end
       | None => (-1, [])
       end.

Definition publicEncrypt (from : list byte) (padding : Z) (r : RSACipher) := cipher RSA_public_encrypt (m_pubkey r) padding from.
Definition privateEncrypt (from : list byte) (padding : Z) (r : RSACipher) := cipher RSA_private_encrypt (m_prikey r) padding from.
Definition publicDecrypt (from : list byte) (padding : Z) (r : RSACipher) := cipher RSA_public_decrypt (m_pubkey r) padding from.
Definition privateDecrypt (from : list byte) (padding : Z) (r : RSACipher) := cipher RSA_private_decrypt (m_prikey r) padding from.

(** ** [CryptoModule] *)

Record CryptoModule := mkCryptoModule { m_rsa : option RSACipher; m_padding : Z }.

(** [toupper] in the C locale. *)
Definition toupper (c : byte) : byte := if (97 <=? b2z c) && (b2z c <=? 122) then z2b (b2z c - 32) else c.

Definition ParsePadding (name : list byte) : Z :=
  let up := map toupper name in
  if bool_decide (up = bstr "OAEP") then RSA_PKCS1_OAEP_PADDING
  else if bool_decide (up = bstr "PKCS1") || bool_decide (up = bstr "PKCS1_V15") then RSA_PKCS1_PADDING
  else if bool_decide (up = bstr "NOPAD") || bool_decide (up = bstr "NO_PADDING") then RSA_NO_PADDING
  else RSA_PKCS1_OAEP_PADDING.

Definition isReady (m : CryptoModule) : bool := bool_decide (is_Some (m_rsa m)).

(** [onLoad], from the paths and what [RSACipher::Create] loads from them. *)
Definition onLoad (priv_path pub_path pad_cfg : list byte) (created : option RSACipher) (m : CryptoModule) : bool * CryptoModule :=
  let m := mkCryptoModule (m_rsa m) (ParsePadding pad_cfg) in
  if is_empty priv_path || is_empty pub_path then (false, m)
  else
    let m := mkCryptoModule created (m_padding m) in
    match created with
    | None => (false, m)
    | Some r => if (getPubRSASize r <=? 0) || (getPriRSASize r <=? 0) then (false, mkCryptoModule None (m_padding m)) else (true, m)
    end.

(** The longest text that a key of [k] bytes takes. *)
Definition max_len (padding k : Z) : Z :=
  if padding =? RSA_PKCS1_OAEP_PADDING then k - 42 else if padding =? RSA_PKCS1_PADDING then k - 11
  else if padding =? RSA_NO_PADDING then k else k - 11.

Definition maxPlaintextLen (m : CryptoModule) : Z :=
  match m_rsa m with
  | None => -1
  | Some r => let k := getPubRSASize r in if k <=? 0 then -1 else max_len (m_padding m) k
  end.

(** The test of the length of a text that is to be encrypted. *)
Definition fits_key (padding k : Z) (text : list byte) : bool :=
  if padding =? RSA_NO_PADDING then s32 (len text) =? k
  else s32 (len text) <=? (if padding =? RSA_PKCS1_OAEP_PADDING then k - 42 else k - 11).

(** The four operations: the text, when they return true. *)
Definition guarded (k : RSACipher -> Z) (fits : Z -> bool) (op : RSACipher -> Z * list byte) (m : CryptoModule) : option (list byte) :=
  match m_rsa m with
  | None => None
  | Some r =>
      if k r <=? 0 then None
      else if negb (fits (k r)) then None
      else let (ret, to) := op r in if 0 <=? ret then Some to else None
  end.

Definition PublicEncrypt (plaintext : list byte) (m : CryptoModule) : option (list byte) :=
  guarded getPubRSASize (fun k => fits_key (m_padding m) k plaintext) (publicEncrypt plaintext (m_padding m)) m.
Definition PrivateDecrypt (ciphertext : list byte) (m : CryptoModule) : option (list byte) :=
  guarded getPriRSASize (fun k => s32 (len ciphertext) =? k) (privateDecrypt ciphertext (m_padding m)) m.
Definition PrivateEncrypt (input : list byte) (m : CryptoModule) : option (list byte) :=
  guarded getPriRSASize (fun k => fits_key (m_padding m) k input) (privateEncrypt input (m_padding m)) m.
Definition PublicDecrypt (input : list byte) (m : CryptoModule) : option (list byte) :=
  guarded getPubRSASize (fun k => s32 (len input) =? k) (publicDecrypt input (m_padding m)) m.

End crypto.

Arguments RSACipher _ : assert.
Arguments CryptoModule _ : assert.

(** ** Keys *)

(** OpenSSL: a public and a private key of one pair have one size, what the one has
    encrypted has the length of the key and the other decrypts it. *)
Record one_pair `{RsaLib} (pub pri : rsa_key) : Prop := {
  op_size : RSA_size pri = RSA_size pub;
  op_range : 0 < RSA_size pub < 2 ^ 31;
  op_public padding p c : RSA_public_encrypt pub padding p = Some c -> len c = RSA_size pub /\ RSA_private_decrypt pri padding c = Some p;
  op_private padding p c : RSA_private_encrypt pri padding p = Some c -> len c = RSA_size pub /\ RSA_public_decrypt pub padding c = Some p;
}.

Section crypto.
Context `{RsaLib}.

Lemma cipher_some f k padding from : 0 < RSA_size k ->
  cipher f (Some k) padding from = match f k padding from with Some to => (len to, to) | None => (-1, []) end.
Proof. intros L. unfold cipher, size_of_key. by replace (RSA_size k <=? 0) with false by lia. Qed.

Lemma guarded_ok k fits op m r : m_rsa m = Some r -> 0 < k r ->
  guarded k fits op m = if negb (fits (k r)) then None else let (ret, to) := op r in if 0 <=? ret then Some to else None.
Proof. intros E L. unfold guarded. rewrite E. by replace (k r <=? 0) with false by lia. Qed.

Lemma fits_max padding k text : len text < 2 ^ 31 -> fits_key padding k text = true -> len text <= max_len padding k.
Proof.
  intros L F. assert (E : s32 (len text) = len text) by (apply s32_small; unfold len in *; lia). unfold fits_key in F. unfold max_len. rewrite E in F.
  unfold RSA_NO_PADDING, RSA_PKCS1_OAEP_PADDING, RSA_PKCS1_PADDING in *. repeat case_match; lia.
Qed.

(** What one key encrypts the other decrypts. With the two keys of one pair and any
    padding: a text that [PublicEncrypt] accepts is at most [maxPlaintextLen] long, and
    [PrivateDecrypt] gives it back from what was made of it; [PrivateEncrypt] and
    [PublicDecrypt] the same. *)
Theorem Crypto_roundtrip m pub pri p : m_rsa m = Some (mkRSACipher (Some pub) (Some pri)) -> one_pair pub pri -> len p < 2 ^ 31 ->
  (forall c, PublicEncrypt p m = Some c -> len p <= maxPlaintextLen m /\ PrivateDecrypt c m = Some p) /\
  (forall c, PrivateEncrypt p m = Some c -> len p <= maxPlaintextLen m /\ PublicDecrypt c m = Some p).
Proof.
  intros E [Sz Rg Pub Pri] L. unfold maxPlaintextLen, PublicEncrypt, PrivateDecrypt, PrivateEncrypt, PublicDecrypt.
  rewrite E. cbn [getPubRSASize m_pubkey size_of_key]. unfold getPubRSASize, size_of_key. cbn [m_pubkey]. replace (RSA_size pub <=? 0) with false by lia.
  split; intros c.
  - rewrite (guarded_ok _ _ _ _ _ E) by (cbn; lia). cbn [m_pubkey]. destruct (fits_key (m_padding m) (RSA_size pub) p) eqn:F; [|done]. cbn [negb].
    unfold publicEncrypt. cbn [m_pubkey]. rewrite cipher_some by lia. destruct (RSA_public_encrypt pub (m_padding m) p) as [to|] eqn:Ee; [|done].
    replace (0 <=? len to) with true by (unfold len; lia). intros [= ->]. destruct (Pub _ _ _ Ee) as [Lc D]. split; [by apply fits_max|].
    rewrite (guarded_ok _ _ _ _ _ E) by (cbn; lia). unfold getPriRSASize, size_of_key. cbn [m_prikey]. rewrite Sz, Lc, s32_small by lia. rewrite Z.eqb_refl. cbn [negb].
    unfold privateDecrypt. cbn [m_prikey]. rewrite cipher_some by lia. rewrite D. by replace (0 <=? len p) with true by (unfold len; lia).
  - rewrite (guarded_ok _ _ _ _ _ E) by (cbn; lia). unfold getPriRSASize, size_of_key. cbn [m_prikey]. rewrite Sz. destruct (fits_key (m_padding m) (RSA_size pub) p) eqn:F; [|done]. cbn [negb].
    unfold privateEncrypt. cbn [m_prikey]. rewrite cipher_some by lia. destruct (RSA_private_encrypt pri (m_padding m) p) as [to|] eqn:Ee; [|done].
    replace (0 <=? len to) with true by (unfold len; lia). intros [= ->]. destruct (Pri _ _ _ Ee) as [Lc D]. split; [by apply fits_max|].
    rewrite (guarded_ok _ _ _ _ _ E) by (cbn; lia). cbn [m_pubkey]. rewrite Lc, s32_small by lia. rewrite Z.eqb_refl. cbn [negb].
    unfold publicDecrypt. cbn [m_pubkey]. rewrite cipher_some by lia. rewrite D. by replace (0 <=? len p) with true by (unfold len; lia).
Qed.
End crypto.

(** A pair of keys of sixteen bytes, which reverse a text of that length. *)
#[local] Instance toy_rsa_16 : RsaLib :=
  {| rsa_key := unit; RSA_size _ := 16; RSA_public_encrypt _ _ x := if len x =? 16 then Some (rev x) else None;
     RSA_private_encrypt _ _ x := if len x =? 16 then Some (rev x) else None;
     RSA_public_decrypt _ _ x := Some (rev x); RSA_private_decrypt _ _ x := Some (rev x) |}.

Lemma Crypto_roundtrip_witness :
  PrivateDecrypt (bstr "fedcba9876543210") (mkCryptoModule (Some (mkRSACipher (Some tt) (Some tt))) RSA_NO_PADDING) = Some (bstr "0123456789abcdef").
Proof.
  refine (proj2 (proj1 (Crypto_roundtrip (mkCryptoModule (Some (mkRSACipher (Some tt) (Some tt))) RSA_NO_PADDING) tt tt (bstr "0123456789abcdef") eq_refl _ _) _ _)); [|done|by vm_compute].
  split; [done|done|..]; intros padding p c; cbn; (destruct (len p =? 16) eqn:E; [|done]); intros [= <-]; rewrite rev_involutive; (split; [unfold len in *; rewrite length_rev; lia|done]).
Defined.

(** ** Escapes *)

(** A string without escapes stays as it is. *)
Lemma Escape_plain v : NeedEscape v = false -> Escape v = v.
Proof.
  intros N. unfold Escape. assert (E : escape_size v = len v); [|by rewrite E, Z.eqb_refl].
  unfold escape_size. assert (G : forall n, fold_left (fun size c => size + match escaped c with Some _ => 2 | None => 1 end) v n = n + len v); [|apply (G 0)].
  induction v as [|c v IH]; intros n; cbn [fold_left]; [unfold len; cbn; lia|]. cbn [NeedEscape existsb] in N. apply orb_false_elim in N as [Nc N].
  destruct (escaped c); [done|]. rewrite IH by done. unfold len. cbn [length]. lia.
Qed.

(** One that has escapes is appended to as many null characters as it will have. *)
Example escape_nulls : Escape (bstr "a" ++ [x0a]) = [x00; x00; x00; x61; x5c; x6e]. Proof. by vm_compute. Qed.

(** A number in a string is read in 64 bits and then cut. *)
Example string_number : GetInt32 (fun _ => None) (set_at "n" (JString (bstr "4294967297")) JNull) "n" 0 = 1. Proof. by vm_compute. Qed.
