(* ===== verification/Auth.v ===== *)
(** Accounts: the rows of the users and their statements (src/dao/user_dao.cpp), the
    service that registers and authenticates (src/app/auth_service.cpp), tokens
    (src/common/common.cpp) and the handlers of the requests (src/api/auth_api_module.cpp).

    The database is a parameter, [UserTable]: what it answers to the statements that the
    code prepares. So are OpenSSL ([RsaLib], the derivation of keys, the random bytes, which
    are an argument), jwt-cpp ([Jwt]) and jsoncpp ([JsonText]). *)
From S2P Require Import Prelude CppString Number HashUtil Http Json Password Crypto.

(** ** Rows *)

Record User := mkUser {
  u_id : Z;
  u_mobile : list byte;
  u_email : list byte;
  u_nickname : list byte;
  u_password_hash : list byte;
  u_avatar : list byte;
  u_motto : list byte;
  u_gender : Z;
  u_is_robot : Z;
  u_is_qiye : Z;
  u_status : Z;
  u_last_login_at : Z;
  u_created_at : Z;
  u_updated_at : Z;
}.

Definition new_User : User := mkUser 0 [] [] [] [] [] [] 0 0 0 1 0 0 0.

(** A row of the table [users]; a null is [None]. *)
Record Row := mkRow {
  r_mobile : list byte;
  r_email : option (list byte);
  r_nickname : list byte;
  r_password_hash : list byte;
  r_avatar : list byte;
  r_motto : list byte;
  r_gender : Z;
  r_is_robot : Z;
  r_is_qiye : Z;
  r_status : Z;
  r_last_login_at : option Z;
  r_created_at : Z;
  r_updated_at : Z;
}.

(** The statements, with what is bound to them. *)
Inductive Statement :=
  | INSERT (mobile : list byte) (email : option (list byte)) (password_hash nickname avatar : list byte) (gender : Z)
      (motto : list byte) (is_robot is_qiye status : Z)
  | UPDATE_password_hash (hash : list byte) (id : Z)
  | UPDATE_last_login_at (t id : Z)
  | UPDATE_status (status id : Z)
  | UPDATE_profile (nickname avatar motto : list byte) (id : Z).

Inductive Query := WHERE_mobile (mobile : list byte) | WHERE_id (id : Z).

(** What becomes of a statement: there is no connection, it cannot be prepared, it fails with
    a message, or it is done, with the last id that was inserted. *)
Inductive Executed :=
  | NoConnection
  | NotPrepared
  | Failed (err : list byte)
  | Done (last_insert_id : Z).

(** What becomes of a query: it fails in one of these ways, or gives the first row, if any. *)
Inductive Queried := QueryFailed | NoRow | ARow (id : Z) (r : Row).

Class UserTable (D : Type) := {
  execute : Statement -> D -> Executed * D;
  query : Query -> D -> Queried;
}.

Section dao.
Context `{UserTable D}.

(** The columns of a row, as the two SELECTs read them. *)
Definition read_row (id : Z) (r : Row) : User :=
  mkUser (u64 id) (r_mobile r) (default [] (r_email r)) (r_nickname r) (r_password_hash r) (r_avatar r) (r_motto r)
    (s32 (r_gender r)) (s32 (r_is_robot r)) (s32 (r_is_qiye r)) (s32 (r_status r)) (default 0 (r_last_login_at r)) (r_created_at r) (r_updated_at r).

Definition found (q : Queried) : option User := match q with ARow id r => Some (read_row id r) | _ => None end.

(** [UserDAO::GetByMobile], [UserDAO::GetById] *)
Definition GetByMobile (mobile : list byte) (d : D) : option User := found (query (WHERE_mobile mobile) d).
Definition GetById (id : Z) (d : D) : option User := found (query (WHERE_id id) d).

(** What a statement comes to: the message of an error. *)
Definition error_of (e : Executed) : option (list byte) :=
  match e with
  | NoConnection => Some (bstr "no mysql connection")
  | NotPrepared => Some (bstr "prepare failed")
  | Failed err => Some err
  | Done _ => None
  end.

(** [UserDAO::Create]: the new id, or the message. *)
Definition Create (u : User) (d : D) : (Z + list byte) * D :=
  let '(e, d) := execute (INSERT (u_mobile u) (if negb (is_empty (u_email u)) then Some (u_email u) else None) (u_password_hash u) (u_nickname u)
                                 (u_avatar u) (u_gender u) (u_motto u) (u_is_robot u) (u_is_qiye u) (u_status u)) d in
  (match e with Done id => inl (u64 id) | _ => inr (default [] (error_of e)) end, d).

(** The updates: the message, if they fail. *)
Definition update (s : Statement) (d : D) : option (list byte) * D := let '(e, d) := execute s d in (error_of e, d).
Definition UpdatePassword (id : Z) (new_password_hash : list byte) := update (UPDATE_password_hash new_password_hash id).
Definition UpdateLastLoginAt (id last_login_at : Z) := update (UPDATE_last_login_at last_login_at id).
Definition UpdateStatus (id status : Z) := update (UPDATE_status status id).
Definition UpdateProfile (id : Z) (nickname avatar motto : list byte) := update (UPDATE_profile nickname avatar motto id).
End dao.

(** ** [AuthService] *)

Inductive AuthError :=
  | mobile_taken | decode_failed | no_key_module | decrypt_failed | hash_failed | create_failed (err : list byte)
  | wrong_account_or_password | account_disabled | no_such_mobile | update_failed (err : list byte)
  | too_short | user_not_found | old_mismatch | not_hashed | not_updated (err : list byte).

(** [AuthResult::err] *)
Definition or_else (err other : list byte) : list byte := if is_empty err then other else err.

Definition message (e : AuthError) : list byte :=
  match e with
  | mobile_taken => bstr "手机号已被注册！"
  | decode_failed => bstr "密码解码失败！"
  | no_key_module => bstr "密钥模块未加载！"
  | decrypt_failed => bstr "密码解密失败！"
  | hash_failed => bstr "密码哈希生成失败！"
  | create_failed err => or_else err (bstr "创建用户失败！")
  | wrong_account_or_password => bstr "账号或密码错误！"
  | account_disabled => bstr "账户被禁用!"
  | no_such_mobile => bstr "手机号不存在！"
  | update_failed err => or_else err (bstr "更新密码失败！")
  | too_short => bstr "new_password too short"
  | user_not_found => bstr "user not found"
  | old_mismatch => bstr "old_password mismatch"
  | not_hashed => bstr "hash failed"
  | not_updated err => or_else err (bstr "update failed")
  end.

(** [AuthResult]: the user, or why not. *)
Definition AuthResult : Type := User + AuthError.

Section service.
Context `{UserTable D, RsaLib} (pbkdf2 : list byte -> Z -> list byte -> Z -> Z -> Z -> option (list byte)) (cm : option CryptoModule).

(** The password that was sent: base64 of a text that the module decrypts. *)
Definition open_password (password : list byte) : res (list byte + AuthError) :=
  let! cipher_bin := base64decode password in
  if is_empty cipher_bin then Ok (inr decode_failed)
  else match cm with
       | Some m =>
           if negb (isReady m) then Ok (inr no_key_module)
           else match PrivateDecrypt cipher_bin m with Some p => Ok (inl p) | None => Ok (inr decrypt_failed) end
       | None => Ok (inr no_key_module)
       end.

(** [AuthService::Register]; [rand] are the random bytes of the salt. *)
Definition Register (rand : option (list byte)) (mobile password email nickname : list byte) (d : D) : res (AuthResult * D) :=
  match GetByMobile mobile d with
  | Some _ => Ok (inr mobile_taken, d)
  | None =>
      let! p := open_password password in
      match p with
      | inr e => Ok (inr e, d)
      | inl decrypted_pwd =>
          let ph := Hash pbkdf2 rand decrypted_pwd default_iterations in
          if is_empty ph then Ok (inr hash_failed, d)
          else
            let u := mkUser 0 mobile email nickname ph [] [] 0 0 0 1 0 0 0 in
            match Create u d with
            | (inr err, d) => Ok (inr (create_failed err), d)
            | (inl new_id, d) => Ok (inl (mkUser new_id mobile email nickname ph [] [] 0 0 0 1 0 0 0), d)
            end
      end
  end.

(** [AuthService::Authenticate] *)
Definition Authenticate (mobile password : list byte) (d : D) : res AuthResult :=
  let! p := open_password password in
  match p with
  | inr e => Ok (inr e)
  | inl decrypted_pwd =>
      match GetByMobile mobile d with
      | None => Ok (inr wrong_account_or_password)
      | Some u =>
          let! v := Verify pbkdf2 decrypted_pwd (u_password_hash u) in
          if negb v then Ok (inr wrong_account_or_password)
          else if negb (u_status u =? 1) then Ok (inr account_disabled)
          else Ok (inl u)
      end
  end.

(** [AuthService::Forget] *)
Definition Forget (rand : option (list byte)) (mobile new_password : list byte) (d : D) : res (AuthResult * D) :=
  let! p := open_password new_password in
  match p with
  | inr e => Ok (inr e, d)
  | inl decrypted_pwd =>
      match GetByMobile mobile d with
      | None => Ok (inr no_such_mobile, d)
      | Some u =>
          let ph := Hash pbkdf2 rand decrypted_pwd default_iterations in
          if is_empty ph then Ok (inr hash_failed, d)
          else match UpdatePassword (u_id u) ph d with
               | (Some err, d) => Ok (inr (update_failed err), d)
               | (None, d) => Ok (inl u, d)
               end
      end
  end.

(** [AuthService::ChangePassword] *)
Definition ChangePassword (rand : option (list byte)) (uid : Z) (old_password new_password : list byte) (d : D) : res (AuthResult * D) :=
  if len new_password <? 6 then Ok (inr too_short, d)
  else match GetById uid d with
       | None => Ok (inr user_not_found, d)
       | Some u =>
           let! v := Verify pbkdf2 old_password (u_password_hash u) in
           if negb v then Ok (inr old_mismatch, d)
           else
             let ph := Hash pbkdf2 rand new_password default_iterations in
             if is_empty ph then Ok (inr not_hashed, d)
             else match UpdatePassword uid ph d with
                  | (Some err, d) => Ok (inr (not_updated err), d)
                  | (None, d) => Ok (inl u, d)
                  end
       end.
End service.

(** ** Tokens *)

(** jwt-cpp: a token is signed with a secret; when it is verified, at a time, the claim of
    the user is read, which may be missing. Either may throw. *)
Class Jwt := {
  jwt_sign : forall (secret issuer uid : list byte) (issued_at expires_at : Z), option (list byte);
  jwt_verify : forall (secret issuer : list byte) (now : Z) (token : list byte), option (option (list byte));
}.

(** What [Config] holds for the tokens. *)
Record JwtConfig := mkJwtConfig { g_jwt_secret : list byte; g_jwt_issuer : list byte; g_jwt_expires_in : Z }.

Section tokens.
Context `{Jwt, JsonText} (cfg : JwtConfig).

Definition SignJwt (now : Z) (uid : list byte) (expires_in : Z) : option (list byte) :=
  jwt_sign (g_jwt_secret cfg) (g_jwt_issuer cfg) uid now (now + expires_in).

(** [VerifyJwt]: the uid, when it returns true. *)
Definition VerifyJwt (now : Z) (token : list byte) : option (list byte) :=
  default [] <$> jwt_verify (g_jwt_secret cfg) (g_jwt_issuer cfg) now token.

(** ** Handlers *)

Context `{UserTable D, RsaLib} (pbkdf2 : list byte -> Z -> list byte -> Z -> Z -> Z -> option (list byte)) (cm : option CryptoModule).

Definition json_response (response : HttpResponse) : HttpResponse := rsp_setHeader (bstr "Content-Type") (bstr "application/json") response.
Definition answer_error (status code : Z) (msg : list byte) (response : HttpResponse) : HttpResponse := rsp_setBody (error_body code msg) (setStatus status response).

(** A member of the body; without a body, the string is empty. *)
Definition field (body : option Value) (name : string) (default_value : list byte) : list byte :=
  match body with Some b => GetString b name default_value | None => [] end.

Definition STATUS_BAD_REQUEST : Z := 400.
Definition STATUS_UNAUTHORIZED : Z := 401.
Definition STATUS_INTERNAL_SERVER_ERROR : Z := 500.

(** The token of a user, in the answer. *)
Definition answer_token (now : Z) (u : User) (failed : list byte) (response : HttpResponse) : HttpResponse :=
  match SignJwt now (dec (u_id u)) (g_jwt_expires_in cfg) with
  | None => answer_error STATUS_INTERNAL_SERVER_ERROR 500 failed response
  | Some token =>
      rsp_setBody (ok_body (set_at "expires_in" (JUInt (g_jwt_expires_in cfg)) (set_at "access_token" (JString token)
        (set_at "type" (JString (bstr "Bearer")) JNull)))) response
  end.

(** [/api/v1/auth/login] *)
Definition login_handler (now : Z) (request : HttpRequest) (response : HttpResponse) (d : D) : res HttpResponse :=
  let response := json_response response in
  let body := ParseBody (rq_body request) in
  let! r := Authenticate pbkdf2 cm (field body "mobile" []) (field body "password" []) d in
  match r with
  | inr e => Ok (answer_error STATUS_UNAUTHORIZED 401 (message e) response)
  | inl u => Ok (answer_token now u (bstr "令牌签名失败！") response)
  end.

(** [/api/v1/auth/register] *)
Definition register_handler (rand : option (list byte)) (now : Z) (request : HttpRequest) (response : HttpResponse) (d : D) : res (HttpResponse * D) :=
  let response := json_response response in
  let body := ParseBody (rq_body request) in
  let! (r, d) := Register pbkdf2 cm rand (field body "mobile" []) (field body "password" []) (field body "email" []) (field body "nickname" (bstr "user")) d in
  match r with
  | inr e => Ok (answer_error STATUS_BAD_REQUEST 400 (message e) response, d)
  | inl u => Ok (answer_token now u (bstr "token sign failed") response, d)
  end.

(** [/api/v1/auth/forget] *)
Definition forget_handler (rand : option (list byte)) (request : HttpRequest) (response : HttpResponse) (d : D) : res (HttpResponse * D) :=
  let response := json_response response in
  let body := ParseBody (rq_body request) in
  let! (r, d) := Forget pbkdf2 cm rand (field body "mobile" []) (field body "password" []) d in
  match r with
  | inr e => Ok (answer_error STATUS_BAD_REQUEST 400 (message e) response, d)
  | inl _ => Ok (rsp_setBody (ok_body empty_object) response, d)
  end.
End tokens.
