(* ===== verification/AuthSpec.v ===== *)
(** Accounts: over any database that answers as SQL says, the service is a table of accounts
    with their passwords; who can log in, and who can change whose password. *)
From stdpp Require Import gmap.
From S2P Require Import Prelude CppString Number HashUtil HashUtilSpec Http Json Password PasswordSpec Crypto Auth.

(** ** What the database promises *)

(** The rows that a database holds; [same] is how it compares mobile numbers, which is the
    collation of the column. A statement that is not done changes nothing. *)
Class UserTableLaws (D : Type) `{UserTable D} := {
  rows : D -> gmap Z Row;
  same : list byte -> list byte -> bool;
  same_refl m : same m m = true;
  same_sym m n : same m n = same n m;
  same_trans m n o : same m n = true -> same n o = true -> same m o = true;
  rows_keys d id r : rows d !! id = Some r -> 0 < id < 2 ^ 64;
  rows_unique d i j r r' : rows d !! i = Some r -> rows d !! j = Some r' -> same (r_mobile r) (r_mobile r') = true -> i = j;
  execute_insert d d' id m e h n a g mo rb q st : execute (INSERT m e h n a g mo rb q st) d = (Done id, d') ->
    rows d !! id = None /\ exists t1 t2, rows d' = <[id := mkRow m e n h a mo g rb q st None t1 t2]> (rows d);
  execute_password d d' i id h : execute (UPDATE_password_hash h id) d = (Done i, d') ->
    exists t, rows d' = alter (fun r => mkRow (r_mobile r) (r_email r) (r_nickname r) h (r_avatar r) (r_motto r) (r_gender r) (r_is_robot r)
                                     (r_is_qiye r) (r_status r) (r_last_login_at r) (r_created_at r) t) id (rows d);
  execute_status d d' i id st : execute (UPDATE_status st id) d = (Done i, d') ->
    exists t, rows d' = alter (fun r => mkRow (r_mobile r) (r_email r) (r_nickname r) (r_password_hash r) (r_avatar r) (r_motto r) (r_gender r)
                                     (r_is_robot r) (r_is_qiye r) st (r_last_login_at r) (r_created_at r) t) id (rows d);
  execute_not_done d d' s e : execute s d = (e, d') -> (forall id, e <> Done id) -> rows d' = rows d;
  query_mobile d m id r : query (WHERE_mobile m) d = ARow id r -> rows d !! id = Some r /\ same (r_mobile r) m = true;
  query_id d i id r : query (WHERE_id i) d = ARow id r -> id = i /\ rows d !! i = Some r;
  query_no_mobile d m id r : query (WHERE_mobile m) d = NoRow -> rows d !! id = Some r -> same (r_mobile r) m = false;
  query_no_id d i : query (WHERE_id i) d = NoRow -> rows d !! i = None;
}.

(** ** Accounts *)

Record Account := mkAccount { a_mobile : list byte; a_password : list byte; a_salt : list byte; a_status : Z }.

Definition set_password (p salt : list byte) (a : Account) : Account := mkAccount (a_mobile a) p salt (a_status a).
Definition set_status (st : Z) (a : Account) : Account := mkAccount (a_mobile a) (a_password a) (a_salt a) st.

Lemma base64decode_total s : exists x, base64decode s = Ok x.
Proof.
  destruct (base64decode_loop_total (length s) (length s * 3 / 4) s []) as (d & E & _); [done| |by exists d].
  simpl length. apply Nat.div_le_lower_bound; [done|]. pose proof (Nat.Div0.mul_div_le (length s) 4). lia.
Qed.

Section accounts.
Context `{UserTableLaws D, RsaLib} (pbkdf2 : list byte -> Z -> list byte -> Z -> Z -> Z -> option (list byte)) (cm : option CryptoModule).
Hypothesis (pbkdf2_fills : fills pbkdf2).

(** The key of a password with a salt. *)
Definition derived (p salt : list byte) : option (list byte) := pbkdf2 p (s32 (len p)) salt 16 (s32 default_iterations) 32.

(** A password opens an account when it derives the key of its password. *)
Definition accepts (a : Account) (p : list byte) : bool := bool_decide (derived p (a_salt a) = derived (a_password a) (a_salt a)).

(** A row holds an account. *)
Definition holds (r : Row) (a : Account) : Prop :=
  r_mobile r = a_mobile a /\ s32 (r_status r) = a_status a /\ len (a_salt a) = 16 /\
  is_Some (derived (a_password a) (a_salt a)) /\ r_password_hash r = Hash pbkdf2 (Some (a_salt a)) (a_password a) default_iterations.

Definition table_holds (d : D) (A : gmap Z Account) : Prop := map_relation (fun _ => holds) (fun _ _ => False) (fun _ _ => False) (rows d) A.

Lemma holds_row d A id r : table_holds d A -> rows d !! id = Some r -> exists a, A !! id = Some a /\ holds r a.
Proof. intros T E. specialize (T id). rewrite E in T. destruct (A !! id) as [a|]; [|done]. by exists a. Qed.

Lemma holds_account d A id a : table_holds d A -> A !! id = Some a -> exists r, rows d !! id = Some r /\ holds r a.
Proof. intros T E. specialize (T id). rewrite E in T. destruct (rows d !! id) as [r|]; [|done]. by exists r. Qed.

Lemma holds_none d A id : table_holds d A -> rows d !! id = None <-> A !! id = None.
Proof. intros T. specialize (T id). by destruct (rows d !! id), (A !! id). Qed.

Lemma holds_insert d d' A id r a : table_holds d A -> rows d' = <[id := r]> (rows d) -> holds r a -> table_holds d' (<[id := a]> A).
Proof.
  intros T E Hr i. rewrite E. destruct (decide (id = i)) as [->|N]; [by rewrite !lookup_insert_eq|]. rewrite !lookup_insert_ne by done. apply T.
Qed.

Lemma holds_alter d d' A id f g : table_holds d A -> rows d' = alter f id (rows d) -> (forall r a, holds r a -> holds (f r) (g a)) -> table_holds d' (alter g id A).
Proof.
  intros T E Hf i. rewrite E. specialize (T i). destruct (decide (id = i)) as [->|N]; [|by rewrite !lookup_alter_ne].
  rewrite !lookup_alter_eq. destruct (rows d !! i), (A !! i); try done. by apply Hf.
Qed.

Lemma holds_same d d' A : table_holds d A -> rows d' = rows d -> table_holds d' A.
Proof. intros T E i. rewrite E. apply T. Qed.

(** Whether a stored hash accepts a password. *)
Lemma verify_account r a p : holds r a -> Verify pbkdf2 p (r_password_hash r) = Ok (accepts a p).
Proof.
  intros (_ & _ & Ls & [dk Ed] & ->). unfold derived in Ed.
  rewrite (verify_hash pbkdf2 (a_salt a) (a_password a) default_iterations dk p pbkdf2_fills Ls ltac:(by vm_compute) Ed).
  f_equal. unfold accepts, derived. by rewrite Ed.
Qed.

Lemma open_total pw : exists p, open_password cm pw = Ok p.
Proof. unfold open_password. destruct (base64decode_total pw) as [x ->]. cbn [rbind]. repeat case_match; by eexists. Qed.

(** A hash that is not empty is that of a password and a salt. *)
Lemma hash_holds rand p : is_empty (Hash pbkdf2 rand p default_iterations) = false ->
  exists salt, rand = Some salt /\ is_Some (derived p salt).
Proof. unfold Hash, derived, salt_len, dk_len. destruct rand as [salt|]; [|done]. destruct (pbkdf2 p _ salt 16 _ 32) eqn:E; [|done]. intros _. by exists salt. Qed.

(** ** The service as a table of accounts *)

Inductive auth_op :=
  | OpRegister (rand : option (list byte)) (mobile password email nickname : list byte)
  | OpLogin (mobile password : list byte)
  | OpForget (rand : option (list byte)) (mobile password : list byte)
  | OpChange (rand : option (list byte)) (uid : Z) (old_password new_password : list byte)
  | OpStatus (uid status : Z).

Definition run_op (o : auth_op) (d : D) : res (AuthResult * D) :=
  match o with
  | OpRegister rand m p e n => Register pbkdf2 cm rand m p e n d
  | OpLogin m p => let! r := Authenticate pbkdf2 cm m p d in Ok (r, d)
  | OpForget rand m p => Forget pbkdf2 cm rand m p d
  | OpChange rand uid old new => ChangePassword pbkdf2 rand uid old new d
  | OpStatus uid st => let (e, d) := UpdateStatus uid st d in Ok (match e with Some err => inr (update_failed err) | None => inl new_User end, d)
  end.

(** The random salts that are drawn have sixteen bytes, a status is an [int32_t]. *)
Definition op_fits (o : auth_op) : Prop :=
  match o with
  | OpRegister rand _ _ _ _ | OpForget rand _ _ | OpChange rand _ _ _ => forall salt, rand = Some salt -> len salt = 16
  | OpStatus _ st => - 2 ^ 31 <= st < 2 ^ 31
  | OpLogin _ _ => True
  end.

Definition opens (password p : list byte) : Prop := open_password cm password = Ok (inl p).

(** Who is the user of a mobile number. *)
Definition user_of (A : gmap Z Account) (m : list byte) (id : Z) (a : Account) : Prop := A !! id = Some a /\ same (a_mobile a) m = true.

(** What an operation may answer and do to the accounts. *)
Inductive auth_spec (d : D) (A : gmap Z Account) : auth_op -> AuthResult -> gmap Z Account -> Prop :=
  | registered salt m pw e n p u : opens pw p -> (forall id a, ~ user_of A m id a) -> A !! u_id u = None ->
      auth_spec d A (OpRegister (Some salt) m pw e n) (inl u) (<[u_id u := mkAccount m p salt 1]> A)
  | taken rand m pw e n id a : user_of A m id a -> auth_spec d A (OpRegister rand m pw e n) (inr mobile_taken) A
  | logged_in m pw p u a : opens pw p -> user_of A m (u_id u) a -> accepts a p = true -> a_status a = 1 ->
      auth_spec d A (OpLogin m pw) (inl u) A
  | refused m pw p : opens pw p -> (query (WHERE_mobile m) d = QueryFailed \/ forall id a, user_of A m id a -> accepts a p = false) ->
      auth_spec d A (OpLogin m pw) (inr wrong_account_or_password) A
  | disabled m pw p id a : opens pw p -> user_of A m id a -> accepts a p = true -> a_status a <> 1 ->
      auth_spec d A (OpLogin m pw) (inr account_disabled) A
  | forgotten salt m pw p u a : opens pw p -> user_of A m (u_id u) a ->
      auth_spec d A (OpForget (Some salt) m pw) (inl u) (<[u_id u := set_password p salt a]> A)
  | nobody rand m pw : (query (WHERE_mobile m) d = QueryFailed \/ forall id a, ~ user_of A m id a) ->
      auth_spec d A (OpForget rand m pw) (inr no_such_mobile) A
  | changed salt uid old new u a : u_id u = uid -> A !! uid = Some a -> accepts a old = true -> 6 <= len new ->
      auth_spec d A (OpChange (Some salt) uid old new) (inl u) (<[uid := set_password new salt a]> A)
  | mismatch rand uid old new a : A !! uid = Some a -> accepts a old = false -> auth_spec d A (OpChange rand uid old new) (inr old_mismatch) A
  | unknown rand uid old new : (query (WHERE_id uid) d = QueryFailed \/ A !! uid = None) -> auth_spec d A (OpChange rand uid old new) (inr user_not_found) A
  | status_set uid st : auth_spec d A (OpStatus uid st) (inl new_User) (alter (set_status st) uid A)
  | failed o e : e <> mobile_taken -> e <> wrong_account_or_password -> e <> account_disabled -> e <> no_such_mobile -> e <> old_mismatch -> e <> user_not_found ->
      auth_spec d A o (inr e) A.

(** ** Every operation *)

Lemma read_id d id r : rows d !! id = Some r -> u_id (read_row id r) = id.
Proof. intros E. cbn. apply u64_small. pose proof (rows_keys d id r E). lia. Qed.

(** What a look-up by mobile number says of the accounts. *)
Lemma by_mobile d A m : table_holds d A ->
  match GetByMobile m d with
  | Some u => exists a r, user_of A m (u_id u) a /\ rows d !! u_id u = Some r /\ u = read_row (u_id u) r /\ holds r a
  | None => query (WHERE_mobile m) d = QueryFailed \/ forall id a, ~ user_of A m id a
  end.
Proof.
  intros T. unfold GetByMobile. destruct (query (WHERE_mobile m) d) as [| |id r] eqn:Q; cbn [found]; [by left| |].
  - right. intros id a [Ea S]. destruct (holds_account d A id a T Ea) as (r & Er & Hr). pose proof (query_no_mobile d m id r Q Er) as N.
    destruct Hr as (Em & _). rewrite Em in N. congruence.
  - destruct (query_mobile d m id r Q) as [Er S]. destruct (holds_row d A id r T Er) as (a & Ea & Hr). rewrite (read_id d id r Er). exists a, r.
    split; [|done]. split; [done|]. destruct Hr as (<- & _). done.
Qed.

Lemma by_id d A i : table_holds d A -> 
  match GetById i d with
  | Some u => exists a r, u_id u = i /\ A !! i = Some a /\ u = read_row i r /\ holds r a
  | None => query (WHERE_id i) d = QueryFailed \/ A !! i = None
  end.
Proof.
  intros T. unfold GetById. destruct (query (WHERE_id i) d) as [| |id r] eqn:Q; cbn [found]; [by left| |].
  - right. apply (holds_none d A i T). by apply query_no_id.
  - destruct (query_id d i id r Q) as [-> Er]. destruct (holds_row d A i r T Er) as (a & Ea & Hr). exists a, r. by rewrite (read_id d i r Er).
Qed.

(** A number has one user. *)
Lemma user_unique d A m i j a b : table_holds d A -> user_of A m i a -> user_of A m j b -> i = j /\ a = b.
Proof.
  intros T [Ea Sa] [Eb Sb]. destruct (holds_account d A i a T Ea) as (r & Er & Hr & _), (holds_account d A j b T Eb) as (r' & Er' & Hr' & _).
  assert (i = j) as ->; [|split; [done|congruence]]. apply (rows_unique d i j r r' Er Er'). rewrite Hr, Hr'. apply (same_trans (a_mobile a) m (a_mobile b)); [done|by rewrite same_sym].
Qed.

(** The new hash of an account. *)
Lemma password_holds r a p salt h t : holds r a -> len salt = 16 -> is_Some (derived p salt) -> h = Hash pbkdf2 (Some salt) p default_iterations ->
  holds (mkRow (r_mobile r) (r_email r) (r_nickname r) h (r_avatar r) (r_motto r) (r_gender r) (r_is_robot r)
           (r_is_qiye r) (r_status r) (r_last_login_at r) (r_created_at r) t) (set_password p salt a).
Proof. intros (E1 & E2 & _) Ls Ks ->. by split_and!. Qed.

Lemma update_password d A id a p salt : table_holds d A -> A !! id = Some a -> len salt = 16 -> is_Some (derived p salt) ->
  match UpdatePassword id (Hash pbkdf2 (Some salt) p default_iterations) d with
  | (None, d') => table_holds d' (<[id := set_password p salt a]> A)
  | (Some _, d') => table_holds d' A
  end.
Proof.
  intros T Ea Ls Ks. unfold UpdatePassword, update. destruct (execute _ d) as [e d'] eqn:E. destruct e as [| |err|i]; cbn [error_of];
    [apply (holds_same d); [done|]; by eapply execute_not_done..|].
  destruct (execute_password d d' i id _ E) as [t R]. replace (<[id := set_password p salt a]> A) with (alter (set_password p salt) id A)
    by (apply map_eq; intros j; destruct (decide (id = j)) as [->|N]; [by rewrite lookup_insert_eq, lookup_alter_eq, Ea|by rewrite lookup_insert_ne, lookup_alter_ne]).
  apply (holds_alter d _ _ _ _ _ T R). intros r b Hr. by apply password_holds.
Qed.

Lemma register_ok d A rand m pw e n : table_holds d A -> op_fits (OpRegister rand m pw e n) ->
  exists r d' A', Register pbkdf2 cm rand m pw e n d = Ok (r, d') /\ auth_spec d A (OpRegister rand m pw e n) r A' /\ table_holds d' A'.
Proof.
  intros T F. unfold Register. pose proof (by_mobile d A m T) as B. destruct (GetByMobile m d) as [u|] eqn:G.
  { destruct B as (a & r & Hu & _). exists (inr mobile_taken), d, A. split; [done|]. split; [by eapply taken|done]. }
  destruct (open_total pw) as [p Ep]. rewrite Ep. cbn [rbind]. destruct p as [p|er].
  2:{ exists (inr er), d, A. split; [done|]. split; [|done]. revert Ep. unfold open_password. destruct (base64decode pw); try done. cbn. repeat case_match; intros [= <-]; by apply failed. }
  destruct (is_empty (Hash pbkdf2 rand p default_iterations)) eqn:Eh; [exists (inr hash_failed), d, A; split; [done|]; split; [by apply failed|done]|].
  destruct (hash_holds rand p Eh) as (salt & -> & Ks). unfold Create. cbn [u_mobile u_email u_password_hash u_nickname u_avatar u_gender u_motto u_is_robot u_is_qiye u_status].
  destruct (execute _ d) as [ex d'] eqn:Ex. destruct ex as [| |err|i];
    [(eexists (inr (create_failed _)), d', A; split; [done|]; split; [by apply failed|apply (holds_same d); [done|]; by eapply execute_not_done])..|].
  apply execute_insert in Ex as (New & t1 & t2 & R). assert (Li : u64 i = i).
  { apply u64_small. pose proof (rows_keys d' i) as K. rewrite R, lookup_insert_eq in K. specialize (K _ eq_refl). lia. }
  rewrite Li. eexists (inl _), d', (<[i := mkAccount m p salt 1]> A). split; [done|]. split.
  - apply (registered d A salt m pw e n p (mkUser i _ _ _ _ _ _ _ _ _ _ _ _ _)); [done| |by apply (holds_none d A i T)].
    destruct B as [Q|B]; [|done]. intros id a [Ea Sm]. (* the key on the mobile numbers *)
    destruct (holds_account d A id a T Ea) as (r & Er & Hr & _). cbn in *.
    assert (id = i) as ->; [|congruence]. apply (rows_unique d' id i r (mkRow m (if negb (is_empty e) then Some e else None) n (Hash pbkdf2 (Some salt) p default_iterations) [] [] 0 0 0 1 None t1 t2)).
    + rewrite R, lookup_insert_ne; [done|]. intros ->. congruence.
    + by rewrite R, lookup_insert_eq.
    + cbn. by rewrite Hr.
  - apply (holds_insert d _ _ _ _ _ T R). split_and!; [done|done|by apply F|done|done].
Qed.

Lemma login_ok d A m pw : table_holds d A -> exists r, Authenticate pbkdf2 cm m pw d = Ok r /\ auth_spec d A (OpLogin m pw) r A.
Proof.
  intros T. unfold Authenticate. destruct (open_total pw) as [p Ep]. rewrite Ep. cbn [rbind]. destruct p as [p|er].
  2:{ exists (inr er). split; [done|]. revert Ep. unfold open_password. destruct (base64decode pw); try done. cbn. repeat case_match; intros [= <-]; by apply failed. }
  pose proof (by_mobile d A m T) as B. destruct (GetByMobile m d) as [u|] eqn:G.
  2:{ exists (inr wrong_account_or_password). split; [done|]. apply (refused d A m pw p Ep). destruct B as [?|B]; [by left|right]. intros id a Hu. by destruct (B id a). }
  destruct B as (a & r & Hu & Er & Eu & Hr). replace (u_password_hash u) with (r_password_hash r) by (by rewrite Eu). rewrite (verify_account r a p Hr). cbn [rbind].
  destruct (accepts a p) eqn:Acc; cbn [negb].
  - assert (Es : u_status u = a_status a) by (rewrite Eu; apply Hr). rewrite Es. destruct (Z.eqb_spec (a_status a) 1) as [E1|N1]; cbn [negb].
    + eexists. split; [done|]. by apply (logged_in d A m pw p u a Ep).
    + eexists. split; [done|]. by apply (disabled d A m pw p (u_id u) a Ep Hu).
  - eexists. split; [done|]. apply (refused d A m pw p Ep). right. intros id b Hb. by destruct (user_unique d A m id (u_id u) b a T Hb Hu) as [_ ->].
Qed.

Lemma forget_ok d A rand m pw : table_holds d A -> op_fits (OpForget rand m pw) ->
  exists r d' A', Forget pbkdf2 cm rand m pw d = Ok (r, d') /\ auth_spec d A (OpForget rand m pw) r A' /\ table_holds d' A'.
Proof.
  intros T F. unfold Forget. destruct (open_total pw) as [p Ep]. rewrite Ep. cbn [rbind]. destruct p as [p|er].
  2:{ exists (inr er), d, A. split; [done|]. split; [|done]. revert Ep. unfold open_password. destruct (base64decode pw); try done. cbn. repeat case_match; intros [= <-]; by apply failed. }
  pose proof (by_mobile d A m T) as B. destruct (GetByMobile m d) as [u|] eqn:G.
  2:{ exists (inr no_such_mobile), d, A. split; [done|]. split; [by apply nobody|done]. }
  destruct B as (a & r & Hu & Er & _ & Hr).
  destruct (is_empty (Hash pbkdf2 rand p default_iterations)) eqn:Eh; [exists (inr hash_failed), d, A; split; [done|]; split; [by apply failed|done]|].
  destruct (hash_holds rand p Eh) as (salt & -> & Ks). pose proof (update_password d A (u_id u) a p salt T (proj1 Hu) (F salt eq_refl) Ks) as P.
  destruct (UpdatePassword (u_id u) _ d) as [[err|] d'].
  - eexists (inr _), d', A. split; [done|]. split; [by apply failed|done].
  - eexists (inl u), d', _. split; [done|]. split; [by apply forgotten with (p := p)|done].
Qed.

Lemma change_ok d A rand uid old new : table_holds d A -> op_fits (OpChange rand uid old new) ->
  exists r d' A', ChangePassword pbkdf2 rand uid old new d = Ok (r, d') /\ auth_spec d A (OpChange rand uid old new) r A' /\ table_holds d' A'.
Proof.
  intros T F. unfold ChangePassword. destruct (Z.ltb_spec (len new) 6) as [L|L]; [exists (inr too_short), d, A; split; [done|]; split; [by apply failed|done]|].
  pose proof (by_id d A uid T) as B. destruct (GetById uid d) as [u|] eqn:G.
  2:{ exists (inr user_not_found), d, A. split; [done|]. split; [by apply unknown|done]. }
  destruct B as (a & r & Ei & Ea & Eu & Hr). replace (u_password_hash u) with (r_password_hash r) by (by rewrite Eu). rewrite (verify_account r a old Hr). cbn [rbind].
  destruct (accepts a old) eqn:Acc; cbn [negb]; [|exists (inr old_mismatch), d, A; split; [done|]; split; [by eapply mismatch|done]].
  destruct (is_empty (Hash pbkdf2 rand new default_iterations)) eqn:Eh; [exists (inr not_hashed), d, A; split; [done|]; split; [by apply failed|done]|].
  destruct (hash_holds rand new Eh) as (salt & -> & Ks). pose proof (update_password d A uid a new salt T Ea (F salt eq_refl) Ks) as P.
  destruct (UpdatePassword uid _ d) as [[err|] d'].
  - eexists (inr _), d', A. split; [done|]. split; [by apply failed|done].
  - eexists (inl u), d', _. split; [done|]. split; [by apply changed|done].
Qed.

Lemma op_ok d A o : table_holds d A -> op_fits o ->
  exists r d' A', run_op o d = Ok (r, d') /\ auth_spec d A o r A' /\ table_holds d' A'.
Proof.
  intros T F. destruct o as [rand m pw e n|m pw|rand m pw|rand uid old new|uid st]; cbn [run_op].
  - by apply register_ok.
  - destruct (login_ok d A m pw T) as (r & E & S). rewrite E. cbn [rbind]. by exists r, d, A.
  - by apply forget_ok.
  - by apply change_ok.
  - unfold UpdateStatus, update. destruct (execute (UPDATE_status st uid) d) as [e d'] eqn:E. destruct e as [| |err|i]; cbn [error_of];
      [(eexists (inr _), d', A; split; [done|]; split; [by apply failed|apply (holds_same d); [done|]; by eapply execute_not_done])..|].
    destruct (execute_status d d' i uid st E) as [t R]. eexists (inl new_User), d', (alter (set_status st) uid A). split; [done|]. split; [by apply status_set|].
    apply (holds_alter d _ _ _ _ _ T R). intros r a (E1 & _ & E3). split_and!; [done|cbn; by apply s32_small|by apply E3..].
Qed.

(** ** Runs *)

Fixpoint run_ops (ops : list auth_op) (d : D) : res (list AuthResult * D) :=
  match ops with
  | [] => Ok ([], d)
  | o :: ops => let! (r, d) := run_op o d in let! (rs, d) := run_ops ops d in Ok (r :: rs, d)
  end.

(** What a run may answer; the database, which the failures of queries are seen in, is at
    each operation the one that the service has made. *)
Inductive spec_ops : list auth_op -> list AuthResult -> D -> gmap Z Account -> gmap Z Account -> Prop :=
  | spec_nil d A : spec_ops [] [] d A A
  | spec_cons o ops r rs d d' A A' A'' : run_op o d = Ok (r, d') -> auth_spec d A o r A' -> spec_ops ops rs d' A' A'' ->
      spec_ops (o :: ops) (r :: rs) d A A''.

(** C9: The service is a table of accounts. Over any database that keeps the rules of SQL,
    whatever is asked, in whatever order, whatever fails: nothing crashes or throws, and the
    answers are those of a table of accounts with plain passwords. A registration makes an
    account with a new id when nobody has the mobile number; a login succeeds only for the
    user of the number, with a password that derives the key of the account's password, and
    an account that is not disabled; it is refused as wrong only when there is no such
    account or the query failed; a password changes only by the number's own [Forget] and
    by [ChangePassword] with the old one; what fails changes nothing. *)
Theorem Auth_refines ops : forall d A, table_holds d A -> Forall op_fits ops ->
  exists rs d' A', run_ops ops d = Ok (rs, d') /\ spec_ops ops rs d A A' /\ table_holds d' A'.
Proof.
  induction ops as [|o ops IH]; intros d A T F; [by exists [], d, A; split; [|split; [constructor|]]|].
  apply list.Forall_cons in F as [Fo F]. destruct (op_ok d A o T Fo) as (r & d1 & A1 & E & S & T1). destruct (IH d1 A1 T1 F) as (rs & d2 & A2 & E2 & S2 & T2).
  exists (r :: rs), d2, A2. cbn [run_ops]. rewrite E. cbn [rbind]. rewrite E2. split; [done|]. split; [by eapply spec_cons|done].
Qed.

(** C10: Who registers can log in, and so can who resets. After a registration, or after a
    [Forget], that has succeeded: the mobile number with any text that opens to the same
    password, when its query does not fail, is answered with this very user, unless the
    account was disabled before the reset. [Forget] asks for nothing but the number: its
    caller sets the password of any account. *)
Theorem Auth_login d A o m pw pw' p u d' : table_holds d A -> op_fits o ->
  (exists rand e n, o = OpRegister rand m pw e n) \/ (exists rand a, o = OpForget rand m pw /\ user_of A m (u_id u) a /\ a_status a = 1) ->
  run_op o d = Ok (inl u, d') -> opens pw p -> opens pw' p -> query (WHERE_mobile m) d' <> QueryFailed ->
  exists u', Authenticate pbkdf2 cm m pw' d' = Ok (inl u') /\ u_id u' = u_id u.
Proof.
  intros T F K E Op Op' Q. destruct (op_ok d A o T F) as (r & d1 & A1 & E1 & S & T1). rewrite E in E1. injection E1 as <- <-.
  assert (Own : exists a, user_of A1 m (u_id u) a /\ accepts a p = true /\ a_status a = 1).
  { destruct K as [(rand & e & n & ->)|(rand & b & -> & Hb & Sb)]; inversion S; subst; unfold opens in *.
    - match goal with H : open_password cm pw = Ok (inl ?q) |- _ => assert (q = p) as -> by congruence end.
      eexists. split; [split; [apply lookup_insert_eq|apply same_refl]|]. split; [by apply bool_decide_eq_true|done].
    - match goal with H : open_password cm pw = Ok (inl ?q) |- _ => assert (q = p) as -> by congruence end.
      match goal with H : user_of A m (u_id u) ?c |- _ => destruct Hb as [Eb Sm]; destruct H as [Ea' _]; assert (c = b) as -> by congruence end.
      eexists. split; [split; [apply lookup_insert_eq|done]|]. split; [by apply bool_decide_eq_true|done]. }
  destruct Own as (a & Hu & Acc & St). unfold Authenticate. unfold opens in Op'. rewrite Op'. cbn [rbind].
  pose proof (by_mobile d' A1 m T1) as B. destruct (GetByMobile m d') as [u1|]; [|by destruct B as [?|B]; [|destruct (B (u_id u) a)]].
  destruct B as (b & r & Hb & Er & Eu & Hr). destruct (user_unique d' A1 m (u_id u1) (u_id u) b a T1 Hb Hu) as [Ei ->]. exists u1. split; [|done].
  replace (u_password_hash u1) with (r_password_hash r) by (by rewrite Eu). rewrite (verify_account r a p Hr), Acc. cbn [rbind negb].
  assert (Es : u_status u1 = a_status a) by (rewrite Eu; apply Hr). by rewrite Es, St.
Qed.
End accounts.

(** ** A database in memory *)

(** The ids are below the next one, and no two rows have one mobile number. *)
Definition mem_valid (m : gmap Z Row) (next : Z) : Prop :=
  0 < next <= 2 ^ 64 /\ map_Forall (fun i r => 0 < i < next /\ map_Forall (fun j r' => r_mobile r = r_mobile r' -> i = j) m) m.

#[global] Instance mem_valid_dec m next : Decision (mem_valid m next).
Proof. apply _. Defined.

Record Mem := mkMem { mem_rows : gmap Z Row; mem_next : Z; mem_ok : bool_decide (mem_valid mem_rows mem_next) = true }.

Definition mem_valid_of (d : Mem) : mem_valid (mem_rows d) (mem_next d) := proj1 (bool_decide_eq_true _) (mem_ok d).

(** A statement is done when its result is a valid table. *)
Definition mem_step (id : Z) (m : gmap Z Row) (next : Z) (d : Mem) : Executed * Mem :=
  match bool_decide (mem_valid m next) as b return bool_decide (mem_valid m next) = b -> Executed * Mem with
  | true => fun H => (Done id, mkMem m next H)
  | false => fun _ => (Failed (bstr "refused"), d)
  end eq_refl.

Lemma mem_step_done id m next d i d' : mem_step id m next d = (Done i, d') -> i = id /\ mem_rows d' = m.
Proof. unfold mem_step. generalize (eq_refl (bool_decide (mem_valid m next))). destruct (bool_decide (mem_valid m next)) at 2 3; intros e; [by intros [= <- <-]|done]. Qed.

Lemma mem_step_not_done id m next d e d' : mem_step id m next d = (e, d') -> (forall i, e <> Done i) -> d' = d.
Proof. unfold mem_step. generalize (eq_refl (bool_decide (mem_valid m next))). destruct (bool_decide (mem_valid m next)) at 2 3; intros h; [intros [= <- <-] N; by destruct (N id)|by intros [= <- <-]]. Qed.

Definition mem_update (f : Row -> Row) (id : Z) (d : Mem) : Executed * Mem := mem_step 0 (alter f id (mem_rows d)) (mem_next d) d.

Definition mem_execute (s : Statement) (d : Mem) : Executed * Mem :=
  match s with
  | INSERT m e h n a g mo rb q st => mem_step (mem_next d) (<[mem_next d := mkRow m e n h a mo g rb q st None 0 0]> (mem_rows d)) (mem_next d + 1) d
  | UPDATE_password_hash h id => mem_update (fun r => mkRow (r_mobile r) (r_email r) (r_nickname r) h (r_avatar r) (r_motto r) (r_gender r) (r_is_robot r) (r_is_qiye r) (r_status r) (r_last_login_at r) (r_created_at r) 0) id d
  | UPDATE_last_login_at t id => mem_update (fun r => mkRow (r_mobile r) (r_email r) (r_nickname r) (r_password_hash r) (r_avatar r) (r_motto r) (r_gender r) (r_is_robot r) (r_is_qiye r) (r_status r) (Some t) (r_created_at r) 0) id d
  | UPDATE_status st id => mem_update (fun r => mkRow (r_mobile r) (r_email r) (r_nickname r) (r_password_hash r) (r_avatar r) (r_motto r) (r_gender r) (r_is_robot r) (r_is_qiye r) st (r_last_login_at r) (r_created_at r) 0) id d
  | UPDATE_profile n a mo id => mem_update (fun r => mkRow (r_mobile r) (r_email r) n (r_password_hash r) a mo (r_gender r) (r_is_robot r) (r_is_qiye r) (r_status r) (r_last_login_at r) (r_created_at r) 0) id d
  end.

Definition mem_find (m : list byte) (l : list (Z * Row)) : option (Z * Row) := find (fun x => bool_decide (r_mobile (snd x) = m)) l.

Definition mem_query (q : Query) (d : Mem) : Queried :=
  match q with
  | WHERE_mobile m => match mem_find m (map_to_list (mem_rows d)) with Some (id, r) => ARow id r | None => NoRow end
  | WHERE_id id => match mem_rows d !! id with Some r => ARow id r | None => NoRow end
  end.

#[global] Instance mem_table : UserTable Mem := {| execute := mem_execute; query := mem_query |}.

Lemma mem_update_done f id d i d' : mem_update f id d = (Done i, d') -> mem_rows d' = alter f id (mem_rows d).
Proof. by intros [_ ->]%mem_step_done. Qed.

#[global] Program Instance mem_laws : UserTableLaws Mem := {| rows := mem_rows; same m n := bool_decide (m = n) |}.
Next Obligation. intros m. by apply bool_decide_eq_true. Qed.
Next Obligation. intros m n. by apply bool_decide_ext. Qed.
Next Obligation. intros m n o ->%bool_decide_eq_true ->%bool_decide_eq_true. by apply bool_decide_eq_true. Qed.
Next Obligation. intros d id r E. destruct (mem_valid_of d) as [L F]. destruct (F id r E) as [? _]. lia. Qed.
Next Obligation. intros d i j r r' E E' S%bool_decide_eq_true. destruct (mem_valid_of d) as [_ F]. destruct (F i r E) as [_ G]. by apply (G j r' E'). Qed.
Next Obligation.
  intros d d' id m e h n a g mo rb q st [-> R]%mem_step_done. split; [|by exists 0, 0]. destruct (mem_rows d !! mem_next d) eqn:E; [|done].
  destruct (mem_valid_of d) as [_ F]. destruct (F _ _ E) as [? _]. lia.
Qed.
Next Obligation. intros d d' i id h E. exists 0. by apply mem_update_done in E. Qed.
Next Obligation. intros d d' i id st E. exists 0. by apply mem_update_done in E. Qed.
Next Obligation. intros d d' s e E N. by destruct s; apply mem_step_not_done in E as ->. Qed.
Next Obligation.
  intros d m id r. cbn. unfold mem_find. destruct (find _ _) as [[i x]|] eqn:E; [|done]. intros [= <- <-]. apply find_some in E as [Hin S]. split; [|exact S].
  by apply elem_of_map_to_list, list_elem_of_In.
Qed.
Next Obligation. intros d i id r. cbn. destruct (mem_rows d !! i) eqn:E; [|done]. by intros [= <- <-]. Qed.
Next Obligation.
  intros d m id r. cbn. unfold mem_find. destruct (find _ _) as [[i x]|] eqn:E; [done|]. intros _ Er.
  apply (find_none _ _ E (id, r)). apply list_elem_of_In. by apply elem_of_map_to_list.
Qed.
Next Obligation. intros d i. cbn. by destruct (mem_rows d !! i). Qed.

Lemma mem_empty_valid : bool_decide (mem_valid ∅ 1) = true.
Proof. by vm_compute. Qed.
Definition mem_empty : Mem := mkMem ∅ 1 mem_empty_valid.

(** ** Witnesses *)

(** A cipher that leaves its text as it is, with a key of eight bytes. *)
#[global] Instance toy_rsa : RsaLib :=
  {| rsa_key := unit; RSA_size _ := 8; RSA_public_encrypt _ _ x := Some x; RSA_private_encrypt _ _ x := Some x;
     RSA_public_decrypt _ _ x := Some x; RSA_private_decrypt _ _ x := Some x |}.

Definition toy_module : option CryptoModule := Some (mkCryptoModule (Some (mkRSACipher (Some tt) (Some tt))) RSA_NO_PADDING).

Definition a_mobile_number : list byte := bstr "13800000000".
Definition secret12 : list byte := bstr "c2VjcmV0MTI=".
Definition attacker : list byte := bstr "YXR0YWNrZXI=".

(** A registration, a login and a wrong one, a second registration of the number, a reset
    by somebody else and the logins after it, a change of the password, a disabled account. *)
Definition a_history : list auth_op :=
  [OpRegister (Some some_salt) a_mobile_number secret12 [] (bstr "user"); OpLogin a_mobile_number secret12; OpLogin a_mobile_number attacker;
   OpRegister (Some some_salt) a_mobile_number attacker [] []; OpForget (Some some_salt) a_mobile_number attacker; OpLogin a_mobile_number secret12;
   OpLogin a_mobile_number attacker; OpChange (Some some_salt) 1 (bstr "attacker") (bstr "secret12"); OpStatus 1 2; OpLogin a_mobile_number secret12].

Definition outcome_of (r : AuthResult) : option AuthError := match r with inl _ => None | inr e => Some e end.

Lemma a_history_fits : Forall op_fits a_history.
Proof. unfold a_history. repeat (apply list.Forall_cons; split; [first [done | by intros ? [= <-] | by cbn; lia]|]). constructor. Qed.

Lemma empty_holds : table_holds toy_kdf mem_empty ∅.
Proof. intros i. by rewrite !lookup_empty. Qed.

Lemma Auth_refines_witness : exists rs d' A',
  run_ops toy_kdf toy_module a_history mem_empty = Ok (rs, d') /\ spec_ops toy_kdf toy_module a_history rs mem_empty ∅ A' /\ table_holds toy_kdf d' A' /\
  map outcome_of rs = [None; None; Some wrong_account_or_password; Some mobile_taken; None; Some wrong_account_or_password; None; None; None; Some account_disabled].
Proof.
  destruct (Auth_refines toy_kdf toy_module toy_fills a_history mem_empty ∅ empty_holds a_history_fits) as (rs & d' & A' & E & S & T).
  exists rs, d', A'. split; [exact E|]. split; [exact S|]. split; [exact T|].
  assert (R : (let! (rs, _) := run_ops toy_kdf toy_module a_history mem_empty in Ok (map outcome_of rs)) =
    Ok [None; None; Some wrong_account_or_password; Some mobile_taken; None; Some wrong_account_or_password; None; None; None; Some account_disabled]) by (by vm_compute).
  rewrite E in R. by injection R.
Defined.

(** The user and the database after the first registration. *)
Definition a_registration : AuthResult * Mem :=
  match run_op toy_kdf toy_module (OpRegister (Some some_salt) a_mobile_number secret12 [] (bstr "user")) mem_empty with Ok x => x | _ => (inr hash_failed, mem_empty) end.
Definition a_user : User := match fst a_registration with inl u => u | _ => new_User end.

Lemma Auth_login_witness : exists u', Authenticate toy_kdf toy_module a_mobile_number secret12 (snd a_registration) = Ok (inl u') /\ u_id u' = u_id a_user.
Proof.
  apply (Auth_login toy_kdf toy_module toy_fills mem_empty ∅ (OpRegister (Some some_salt) a_mobile_number secret12 [] (bstr "user")) a_mobile_number secret12 secret12 (bstr "secret12") a_user (snd a_registration) empty_holds).
  - by intros ? [= <-].
  - left. by eexists _, _, _.
  - by vm_compute.
  - by vm_compute.
  - by vm_compute.
  - by vm_compute.
Defined.
