(* ===== verification/Gateway.v ===== *)
(** The websocket gateway (src/api/ws_gateway_module.cpp): the query of a connection, its
    token, the table of sessions, and what a session answers to messages.

    A [WSSession*] is a number; the three callbacks have the shape in which [ws_handleClient]
    calls them, the state that they share is the sequence number and the table. The time is
    an argument. *)
From S2P Require Import Prelude CppString Number Endian ByteArray Codec Stream ZlibStream WebSocket Http HttpStream Json Auth.

(** ** The query *)

Abbreviation query_map := (gmap (list byte) (list byte)).

(** The loop of [ParseQueryKV] from [start] on. *)
Fixpoint query_loop (fuel : nat) (q : list byte) (start : nat) (kv : query_map) : res query_map :=
  match fuel with
  | O => Crash nontermination
  | S fuel =>
      if (start <? length q)%nat then
        let amp := default (length q) (from (find_char x26) q start) in
        let single :=
          let! k := substr q start (amp - start) in
          Ok (if negb (is_empty k) then <[k := []]> kv else kv) in
        let! kv :=
          match from (find_char x3d) q start with
          | Some eq =>
              if (eq <? amp)%nat then
                let! k := substr q start (eq - start) in
                let! v := substr q (eq + 1) (amp - (eq + 1)) in
                Ok (<[k := v]> kv)
              else single
          | None => single
          end in
        query_loop fuel q (amp + 1) kv
      else Ok kv
  end.

Definition ParseQueryKV (q : list byte) : res query_map := if is_empty q then Ok ∅ else query_loop (S (length q)) q 0 ∅.

(** [GetParamValue<std::string>]: the conversion of a string to a string does not fail. *)
Definition GetParamValue (m : query_map) (k def : list byte) : list byte := default def (m !! k).

(** ** Sessions *)

Record ConnCtx := mkConnCtx { cc_uid : Z; cc_platform : list byte; cc_conn_id : list byte }.

Record Gateway := mkGateway { s_conn_seq : Z; s_ws_conns : gmap nat ConnCtx }.

Definition new_Gateway : Gateway := mkGateway 1 ∅.

Section gateway.
Context `{JsonText, Jwt} (cfg : JwtConfig).

(** What the callback of a connection checks: the user and the platform, or why not. *)
Definition authenticate (now : Z) (query : list byte) : res ((Z * list byte) + list byte) :=
  let! kv := ParseQueryKV query in
  let token := GetParamValue kv (bstr "token") [] in
  let platform := GetParamValue kv (bstr "platform") (bstr "web") in
  let suid := if is_empty token then None else VerifyJwt cfg now token in
  match suid with
  | Some suid =>
      if is_empty suid then Ok (inr (bstr "unauthorized"))
      else
        (* catch (...) *)
        let uid := match stoul suid with Ok uid => uid | _ => 0 end in
        if uid =? 0 then Ok (inr (bstr "invalid uid"))
        else Ok (inl (uid, if is_empty platform then bstr "web" else platform))
  | None => Ok (inr (bstr "unauthorized"))
  end.

(** The session is entered in the table. *)
Definition enter (self : nat) (uid : Z) (platform : list byte) (g : Gateway) : Gateway :=
  mkGateway (u64 (s_conn_seq g + 1)) (<[self := mkConnCtx uid platform (dec (s_conn_seq g))]> (s_ws_conns g)).

Definition leave (self : nat) (g : Gateway) : Gateway := mkGateway (s_conn_seq g) (delete self (s_ws_conns g)).

(** The text of [SendEvent]. *)
Definition event_text (event : list byte) (payload : Value) (ackid : list byte) : list byte :=
  let root := set_at "payload" (if isNull payload then empty_object else payload) (set_at "event" (JString event) JNull) in
  ToString (if negb (is_empty ackid) then set_at "ackid" (JString ackid) root else root).

Context {S : Type} `{Stream S} {host : Host}.

Definition SendEvent (event : string) (payload : Value) (ackid : list byte) : st S unit :=
  let* _ := WSSendMessage 0 (mkWSFrameMessage TEXT_FRAME (event_text (bstr event) payload ackid)) false true in sret tt.

Definition unauthorized (msg : list byte) : Value := set_at "error_message" (JString msg) (set_at "error_code" (JInt 401) JNull).

Definition welcome (now uid : Z) (platform : list byte) : Value :=
  set_at "ts" (JUInt now) (set_at "platform" (JString platform) (set_at "uid" (JUInt uid) JNull)).

(** [on_connect] *)
Definition on_connect (self : nat) (now : Z) (g : Gateway) (header : HttpRequest) : st S (Gateway * Z) :=
  let* a := lift (authenticate now (rq_query header)) in
  match a with
  | inr msg => let* _ := SendEvent "event_error" (unauthorized msg) [] in sret (g, -1)
  | inl (uid, platform) =>
      let g := enter self uid platform g in
      let* _ := SendEvent "connect" (welcome now uid platform) [] in
      sret (g, 0)
  end.

(** [on_close] *)
Definition on_close (self : nat) (g : Gateway) (header : HttpRequest) : st S (Gateway * Z) := sret (leave self g, 0).

(** What a message asks for: an event to send back. *)
Definition reply (now : Z) (msg : WSFrameMessage) : option (string * Value) :=
  if negb (m_opcode msg =? TEXT_FRAME) then None
  else match FromString (m_data msg) with
       | None => None
       | Some root =>
           if negb (isObject root) then None
           else
             let event := GetString root "event" [] in
             let payload := default empty_object (member "payload" root) in
             if bool_decide (event = bstr "ping") then Some ("pong"%string, set_at "ts" (JUInt now) JNull)
             else if bool_decide (event = bstr "ack") then None
             else if bool_decide (event = bstr "echo") then Some ("echo"%string, payload)
             else None
       end.

(** [on_message] *)
Definition on_message (now : Z) (g : Gateway) (header : HttpRequest) (msg : WSFrameMessage) : st S (Gateway * Z) :=
  match reply now msg with
  | Some (event, payload) => let* _ := SendEvent event payload [] in sret (g, 0)
  | None => sret (g, 0)
  end.
End gateway.
