(* ===== verification/GatewaySpec.v ===== *)
(** The gateway: queries are read as their pairs, the table holds exactly the sessions that
    are connected with a verified token, and the token of a login opens the gateway as the
    user who has logged in. *)
From stdpp Require Import gmap.
From S2P Require Import Prelude CppString Number Endian HashUtil ByteArray ByteArraySpec Codec Stream StreamSpec ZlibStream WebSocket WebSocketSpec Http HttpStream HttpStreamSpec Json Password PasswordSpec Crypto Auth AuthSpec Gateway.

(** ** Queries *)

(** What one piece between ampersands says. *)
Definition add_pair (kv : query_map) (s : list byte) : query_map :=
  match find_char x3d s with
  | Some e => <[take e s := drop (S e) s]> kv
  | None => if is_empty s then kv else <[s := []]> kv
  end.

Definition amp_sep : sep := char_sep (is_char x26).

Lemma find_before p c a s : Forall (fun x => p x = false) a -> p c = true -> find_if p (a ++ c :: s) = Some (length a).
Proof. induction a as [|x a IH]; intros F P; cbn [app find_if length]; [by rewrite P|]. apply list.Forall_cons in F as [-> F]. by rewrite IH. Qed.

Lemma find_app_none p a s : Forall (fun x => p x = false) a -> find_if p (a ++ s) = (fun i => length a + i)%nat <$> find_if p s.
Proof.
  induction a as [|x a IH]; intros F; cbn [app find_if length]; [by destruct (find_if p s)|]. apply list.Forall_cons in F as [-> F]. rewrite IH by done. by destruct (find_if p s).
Qed.

(** Where the first equals sign is, of a piece and what follows it. *)
Lemma find_eq_piece a s : find_char x3d (a ++ s) = match find_char x3d a with Some e => Some e | None => (fun i => length a + i)%nat <$> find_char x3d s end.
Proof.
  unfold find_char. destruct (find_if (is_char x3d) a) as [e|] eqn:E; [|by apply find_app_none, find_if_none].
  apply find_if_some in E as (b & c & t & -> & <- & P & F). rewrite <- app_assoc. cbn [app]. by apply find_before.
Qed.

(** One turn of the loop reads one piece. *)
Lemma query_turn fuel b a r kv : a ++ r <> [] -> Forall (fun x => is_char x26 x = false) a -> (r = [] \/ exists r', r = x26 :: r') ->
  query_loop (S fuel) (b ++ a ++ r) (length b) kv = query_loop fuel (b ++ a ++ r) (length b + length a + 1) (add_pair kv a).
Proof.
  intros Ne Fa Hr. cbn [query_loop]. assert (L : (length b < length (b ++ a ++ r))%nat) by (rewrite length_app; destruct (a ++ r); [done|cbn; lia]).
  rewrite (proj2 (Nat.ltb_lt _ _) L). rewrite !from_ok by lia. rewrite drop_app_length.
  assert (Amp : default (length (b ++ a ++ r)) ((fun i => length b + i)%nat <$> find_char x26 (a ++ r)) = (length b + length a)%nat).
  { unfold find_char. rewrite find_app_none by done. destruct Hr as [-> |[r' ->]]; [cbn; rewrite app_nil_r, length_app; done|]. change (find_if (is_char x26) (x26 :: r')) with (Some 0%nat). cbn [fmap option_fmap option_map default from_option id]. lia. }
  rewrite Amp. rewrite find_eq_piece. unfold add_pair.
  assert (Sub : forall i n, (i + n <= length a)%nat -> substr (b ++ a ++ r) (length b + i) n = Ok (slice i n a)).
  { intros i n Li. rewrite substr_ok by (rewrite !length_app; lia). by rewrite slice_app_r, slice_app_l. }
  assert (Single : (let! k := substr (b ++ a ++ r) (length b) (length b + length a - length b) in Ok (if negb (is_empty k) then <[k := []]> kv else kv)) =
    Ok (if is_empty a then kv else <[a := []]> kv)).
  { pose proof (Sub 0%nat (length a) ltac:(lia)) as E0. rewrite Nat.add_0_r in E0. replace (length b + length a - length b)%nat with (length a) by lia. rewrite E0. cbn [rbind].
    unfold slice. rewrite drop_0, firstn_all. by destruct (is_empty a). }
  destruct (find_char x3d a) as [e|] eqn:Ee.
  - assert (Le : (e < length a)%nat) by (apply find_if_some in Ee as (p & c & t & -> & <- & _); rewrite length_app; cbn; lia).
    cbn [fmap option_fmap option_map]. rewrite (proj2 (Nat.ltb_lt _ _)) by lia.
    pose proof (Sub 0%nat e ltac:(lia)) as E0. rewrite Nat.add_0_r in E0. replace (length b + e - length b)%nat with e by lia. rewrite E0. cbn [rbind].
    replace (length b + e + 1)%nat with (length b + S e)%nat by lia. replace (length b + length a - (length b + S e))%nat with (length a - S e)%nat by lia.
    rewrite Sub by lia. cbn [rbind]. unfold slice. rewrite drop_0, (take_ge (drop (S e) a)) by (rewrite length_drop; lia). done.
  - destruct (find_char x3d r) as [i|] eqn:Er; cbn [fmap option_fmap option_map].
    + rewrite (proj2 (Nat.ltb_ge _ _)) by lia. rewrite Single. cbn [rbind]. done.
    + rewrite Single. cbn [rbind]. done.
Qed.

Lemma query_loop_pieces s l : segments amp_sep s l -> forall fuel b kv, (length s < fuel)%nat ->
  query_loop fuel (b ++ s) (length b) kv = Ok (fold_left add_pair l kv).
Proof.
  induction 1 as [s F|s i l F G IH]; intros fuel b kv Lf; (destruct fuel as [|fuel]; [lia|]).
  - apply find_if_none in F. destruct s as [|c s].
    + cbn [query_loop]. rewrite app_nil_r, (proj2 (Nat.ltb_ge _ _)) by lia. done.
    + pose proof (query_turn fuel b (c :: s) [] kv) as T. rewrite app_nil_r in T. rewrite T by (try done; by left).
      destruct fuel as [|fuel]; [cbn in Lf; lia|]. cbn [query_loop]. rewrite (proj2 (Nat.ltb_ge _ _)) by (rewrite length_app; lia). done.
  - apply find_if_some in F as (a & c & t & -> & <- & P & Fa). apply bool_decide_eq_true in P as ->. rewrite take_app_length in *. cbn [fold_left].
    rewrite query_turn; [|by destruct a|done|right; by eexists].
    replace (length b + length a + 1)%nat with (length (b ++ a ++ [x26])) by (rewrite !length_app; cbn; lia).
    replace (b ++ a ++ x26 :: t) with ((b ++ a ++ [x26]) ++ t) by (by rewrite <- !app_assoc).
    cbn [sep_width amp_sep char_sep] in *. replace (drop (length a + 1) (a ++ x26 :: t)) with t in *
      by (rewrite drop_app_ge by lia; by replace (length a + 1 - length a)%nat with 1%nat by lia).
    apply IH. rewrite length_app in Lf. cbn in Lf. lia.
Qed.

(** A query is read as its pairs: the pieces between ampersands, each up to its first
    equals sign the key and after it the value, a piece without one a key with an empty
    value, an empty piece nothing; of two values of a key the last one counts. The loop ends
    on every query. *)
Theorem ParseQueryKV_pairs q : exists l, segments amp_sep q l /\ ParseQueryKV q = Ok (fold_left add_pair l ∅).
Proof.
  destruct (segments_total amp_sep q) as [l Hl]. exists l. split; [done|]. unfold ParseQueryKV. destruct (is_empty q) eqn:E.
  - destruct q; [|done]. by inversion Hl; subst.
  - by apply (query_loop_pieces q l Hl (S (length q)) []); lia.
Qed.

(** ** Sessions *)

Section sessions.
Context `{JsonText, Jwt} (cfg : JwtConfig) {S : Type} `{Stream S} {host : Host}.

(** What happens to the gateway: a session that is not connected connects, one that is
    sends a message or is closed, each over its own stream and at its own time. Kept beside
    the gateway: the number of sessions that have connected, and of each that is connected
    the time and the query of its connection. *)
Inductive gw_reach : Z -> Gateway -> gmap nat (Z * list byte) -> Prop :=
  | gw_new : gw_reach 0 new_Gateway ∅
  | gw_accepts n g live self now header s g' s' : gw_reach n g live -> live !! self = None ->
      on_connect cfg self now g header s = (Ok (g', 0), s') -> gw_reach (n + 1) g' (<[self := (now, rq_query header)]> live)
  | gw_refuses n g live self now header s g' rt s' : gw_reach n g live -> live !! self = None ->
      on_connect cfg self now g header s = (Ok (g', rt), s') -> rt <> 0 -> gw_reach n g' live
  | gw_message n g live self x now header msg s g' rt s' : gw_reach n g live -> live !! self = Some x ->
      on_message now g header msg s = (Ok (g', rt), s') -> gw_reach n g' live
  | gw_close n g live self x header s g' rt s' : gw_reach n g live -> live !! self = Some x ->
      on_close (S := S) self g header s = (Ok (g', rt), s') -> gw_reach n g' (delete self live).

(** The user that a query names at a time. *)
Definition verified (now : Z) (query : list byte) (uid : Z) : Prop :=
  exists kv token suid, ParseQueryKV query = Ok kv /\ kv !! bstr "token" = Some token /\ VerifyJwt cfg now token = Some suid /\
    stoul suid = Ok uid /\ uid <> 0.

Lemma authenticate_verified now query uid platform : authenticate cfg now query = Ok (inl (uid, platform)) -> verified now query uid /\ platform <> [].
Proof.
  unfold authenticate. destruct (ParseQueryKV query) as [kv| |] eqn:Ek; try done. cbn [rbind]. unfold GetParamValue at 1 2.
  destruct (kv !! bstr "token") as [token|] eqn:Et; [|done]. cbn [default from_option id]. destruct (is_empty token) eqn:Em; [done|].
  destruct (VerifyJwt cfg now token) as [suid|] eqn:Ev; [|done]. destruct (is_empty suid) eqn:Es; [done|].
  destruct (stoul suid) as [n|e|u] eqn:En; [|done|done]. destruct (Z.eqb_spec n 0) as [|N]; [done|]. intros [= <- <-].
  split; [by exists kv, token, suid|]. by destruct (GetParamValue kv (bstr "platform") (bstr "web")).
Qed.

Lemma on_connect_cases self now g header s g' rt s' : on_connect cfg self now g header s = (Ok (g', rt), s') ->
  (rt = -1 /\ g' = g) \/ (exists uid platform, rt = 0 /\ g' = enter self uid platform g /\ verified now (rq_query header) uid /\ platform <> []).
Proof.
  unfold on_connect, sbind, lift. destruct (authenticate cfg now (rq_query header)) as [[[uid p]|msg]| |] eqn:Ea; try done.
  - destruct (authenticate_verified _ _ _ _ Ea). destruct (SendEvent _ _ _ s) as [[[]| |] s1]; try done. intros [= <- <- _]. right. by exists uid, p.
  - destruct (SendEvent _ _ _ s) as [[[]| |] s1]; try done. intros [= <- <- _]. by left.
Qed.

Lemma on_message_same now g header msg s g' rt s' : on_message now g header msg s = (Ok (g', rt), s') -> g' = g.
Proof.
  unfold on_message, sbind. destruct (reply now msg) as [[ev p]|]; [|by intros [= <- _ _]]. destruct (SendEvent _ _ _ s) as [[[]| |] s1]; try done. by intros [= <- _ _].
Qed.

(** The invariant: the numbers that were given out are below the next one. *)
Record gw_inv (n : Z) (g : Gateway) (live : gmap nat (Z * list byte)) : Prop := {
  gi_count : 0 <= n;
  gi_seq : n < 2 ^ 64 - 1 -> s_conn_seq g = n + 1;
  gi_live self : is_Some (s_ws_conns g !! self) <-> is_Some (live !! self);
  gi_user self ctx now query : s_ws_conns g !! self = Some ctx -> live !! self = Some (now, query) -> verified now query (cc_uid ctx) /\ cc_platform ctx <> [];
  gi_id self ctx : s_ws_conns g !! self = Some ctx -> n < 2 ^ 64 - 1 -> exists i, 0 < i <= n /\ cc_conn_id ctx = dec i;
  gi_distinct a b ctx ctx' : s_ws_conns g !! a = Some ctx -> s_ws_conns g !! b = Some ctx' -> n < 2 ^ 64 - 1 -> cc_conn_id ctx = cc_conn_id ctx' -> a = b;
}.

Lemma dec_inj i j : 0 <= i < 2 ^ 64 -> 0 <= j < 2 ^ 64 -> dec i = dec j -> i = j.
Proof. intros Li Lj E. pose proof (stoul_dec i Li) as A. rewrite E, stoul_dec in A by done. by injection A. Qed.

Lemma enter_inv n g live self now query uid platform : gw_inv n g live -> live !! self = None -> verified now query uid -> platform <> [] ->
  gw_inv (n + 1) (enter self uid platform g) (<[self := (now, query)]> live).
Proof.
  intros [I0 I1 I2 I3 I4 I5] L V P. assert (New : s_ws_conns g !! self = None) by (apply eq_None_not_Some; intros K; apply I2 in K; rewrite L in K; by destruct K).
  split; cbn [enter s_conn_seq s_ws_conns].
  - lia.
  - intros Ln. rewrite I1 by lia. apply u64_small. lia.
  - intros a. destruct (decide (self = a)) as [<-|N]; [rewrite !lookup_insert_eq; by split|]. rewrite !lookup_insert_ne by done. apply I2.
  - intros a ctx now' q. destruct (decide (self = a)) as [<-|N]; [rewrite !lookup_insert_eq; by intros [= <-] [= <- <-]|]. rewrite !lookup_insert_ne by done. apply I3.
  - intros a ctx. destruct (decide (self = a)) as [<-|N].
    + rewrite lookup_insert_eq. intros [= <-] Ln. exists (n + 1). cbn. rewrite I1 by lia. split; [lia|done].
    + rewrite lookup_insert_ne by done. intros E Ln. destruct (I4 a ctx E) as (i & Li & Ei); [lia|]. exists i. split; [lia|done].
  - assert (Fresh : forall a ctx, s_ws_conns g !! a = Some ctx -> n + 1 < 2 ^ 64 - 1 -> cc_conn_id ctx <> dec (s_conn_seq g)).
    { intros a ctx E Ln. destruct (I4 a ctx E) as (i & Li & ->); [lia|]. rewrite I1 by lia. intros K%dec_inj; lia. }
    intros a b ctx ctx'. destruct (decide (self = a)) as [<-|Na], (decide (self = b)) as [<-|Nb]; rewrite ?lookup_insert_eq, ?lookup_insert_ne by done; [done| | |].
    + intros [= <-] E Ln K. by destruct (Fresh b ctx' E Ln).
    + intros E [= <-] Ln K. by destruct (Fresh a ctx E Ln).
    + intros E E' Ln. apply I5; [done|done|lia].
Qed.

Lemma gw_reach_inv n g live : gw_reach n g live -> gw_inv n g live.
Proof.
  induction 1 as [|n g live self now header s g' s' R IH L E|n g live self now header s g' rt s' R IH L E N|n g live self x now header msg s g' rt s' R IH L E|n g live self x header s g' rt s' R IH L E].
  - split; cbn; try done; try (by intros a; rewrite !lookup_empty; split; intros [? ?]); by intros a **; rewrite lookup_empty in *.
  - destruct (on_connect_cases _ _ _ _ _ _ _ _ E) as [[? _]|(uid & p & _ & -> & V & P)]; [done|]. by apply enter_inv.
  - destruct (on_connect_cases _ _ _ _ _ _ _ _ E) as [[_ ->]|(uid & p & -> & _)]; done.
  - by apply on_message_same in E as ->.
  - injection E as <- <- <-. destruct IH as [I0 I1 I2 I3 I4 I5]. split; cbn [leave s_conn_seq s_ws_conns]; [done|done| | | |].
    + intros a. rewrite !lookup_delete_is_Some. by rewrite I2.
    + intros a ctx now q [Na Ea]%lookup_delete_Some [_ El]%lookup_delete_Some. by apply (I3 a).
    + intros a ctx [Na Ea]%lookup_delete_Some. by apply (I4 a).
    + intros a b ctx ctx' [Na Ea]%lookup_delete_Some [Nb Eb]%lookup_delete_Some. by apply I5.
Qed.

(** C11: The table of the gateway holds exactly the sessions that are connected. Whatever
    sessions connect, send and close, in any order and over any streams: a session is in the
    table if and only if it has connected and not closed; its user is the one that its token
    named when it was verified, at the time of the connection, and is not zero; its platform
    is not empty; and until 2^64 - 2 sessions have connected no two of them have one
    connection id. *)
Theorem Gateway_sessions n g live : gw_reach n g live ->
  (forall self, is_Some (s_ws_conns g !! self) <-> is_Some (live !! self)) /\
  (forall self ctx now query, s_ws_conns g !! self = Some ctx -> live !! self = Some (now, query) -> verified now query (cc_uid ctx) /\ cc_platform ctx <> []) /\
  (n < 2 ^ 64 - 1 -> forall a b ctx ctx', s_ws_conns g !! a = Some ctx -> s_ws_conns g !! b = Some ctx' -> cc_conn_id ctx = cc_conn_id ctx' -> a = b).
Proof.
  intros I%gw_reach_inv. split; [apply (gi_live _ _ _ I)|]. split; [apply (gi_user _ _ _ I)|]. intros Ln a b ctx ctx' Ea Eb. by apply (gi_distinct _ _ _ I a b ctx ctx').
Qed.
End sessions.

(** ** From a login to a session *)

(** jwt-cpp: a token is a text that needs no escapes, and it verifies, with the secret and
    the issuer that it was signed with, from its issue until it expires. *)
Class JwtLaws `{Jwt} := {
  jwt_text secret issuer uid iat exp t : jwt_sign secret issuer uid iat exp = Some t -> t <> [] /\ Forall (fun c => is_char x26 c = false) t;
  jwt_verifies secret issuer uid iat exp t now : jwt_sign secret issuer uid iat exp = Some t -> iat <= now < exp ->
    jwt_verify secret issuer now t = Some (Some uid);
}.

Lemma two_pieces a b : Forall (fun c => is_char x26 c = false) a -> Forall (fun c => is_char x26 c = false) b ->
  ParseQueryKV (a ++ x26 :: b) = Ok (add_pair (add_pair ∅ a) b).
Proof.
  intros Fa Fb. assert (G : segments amp_sep (a ++ x26 :: b) [a; b]).
  { replace [a; b] with (take (length a) (a ++ x26 :: b) :: [b]) by (by rewrite take_app_length). apply seg_next; [by apply find_before|].
    cbn [sep_width amp_sep char_sep]. rewrite drop_app_ge by lia. replace (length a + 1 - length a)%nat with 1%nat by lia. apply seg_last. by apply find_if_none. }
  unfold ParseQueryKV. destruct (is_empty (a ++ x26 :: b)) eqn:E; [by destruct a|].
  by apply (query_loop_pieces _ _ G (S (length (a ++ x26 :: b))) []); lia.
Qed.

Lemma pair_of k v kv : find_char x3d (bstr k) = None -> add_pair kv (bstr k ++ x3d :: v) = <[bstr k := v]> kv.
Proof.
  intros F. unfold add_pair. unfold find_char in *. rewrite find_before by (try done; by apply find_if_none).
  rewrite take_app_length. replace (S (length (bstr k))) with (length (bstr k) + 1)%nat by lia. rewrite drop_app_add'; done.
Qed.

Lemma member_set_same (k : string) v root : member k (set_at k v root) = Some v.
Proof.
  assert (G : forall m, get_member (bstr k) (put_member (bstr k) v m) = Some v).
  { induction m as [|[k' v'] m IH]; cbn [put_member get_member]; [by rewrite bool_decide_true|].
    destruct (key_compare (bstr k) k') eqn:E; cbn [get_member]; [by rewrite bool_decide_true|by rewrite bool_decide_true|].
    rewrite bool_decide_false; [done|]. intros <-. by rewrite key_compare_refl in E. }
  unfold set_at, member. destruct root; cbn; rewrite ?bool_decide_true by done; try done; apply G.
Qed.

Section login.
Context `{JsonText, JwtLaws, UserTableLaws D, RsaLib} (pbkdf2 : list byte -> Z -> list byte -> Z -> Z -> Z -> option (list byte)) (cm : option CryptoModule) (cfg : JwtConfig).

Lemma token_query token platform : token <> [] -> platform <> [] -> Forall (fun c => is_char x26 c = false) token -> Forall (fun c => is_char x26 c = false) platform ->
  exists kv, ParseQueryKV (bstr "token=" ++ token ++ bstr "&platform=" ++ platform) = Ok kv /\
    kv !! bstr "token" = Some token /\ kv !! bstr "platform" = Some platform.
Proof.
  intros Nt Np Ft Fp. replace (bstr "token=" ++ token ++ bstr "&platform=" ++ platform) with ((bstr "token" ++ x3d :: token) ++ x26 :: (bstr "platform" ++ x3d :: platform)) by (by rewrite <- app_assoc).
  assert (Fk : forall k v, Forall (fun c => is_char x26 c = false) (bstr k) -> Forall (fun c => is_char x26 c = false) v -> Forall (fun c => is_char x26 c = false) (bstr k ++ x3d :: v))
    by (intros k v Fk Fv; apply list.Forall_app; split; [done|]; by apply list.Forall_cons).
  rewrite two_pieces by (apply Fk; [by repeat constructor|done]). eexists. split; [done|]. rewrite !pair_of by done.
  split; [by rewrite lookup_insert_ne, lookup_insert_eq|by rewrite lookup_insert_eq].
Qed.

(** C12: A login opens the gateway. When the service authenticates the number and the password
    of a request and a token can be signed, the handler of the login answers with the status
    it was given and an object whose access token is that token; and a websocket that brings
    this token in its query, at any time before it expires, is let in as the very user who
    has logged in, with the platform that it names. *)
Theorem Login_opens_gateway d A request response body u now token platform : fills pbkdf2 -> table_holds pbkdf2 d A ->
  ParseBody (rq_body request) = Some body ->
  Authenticate pbkdf2 cm (GetString body "mobile" []) (GetString body "password" []) d = Ok (inl u) ->
  SignJwt cfg now (dec (u_id u)) (g_jwt_expires_in cfg) = Some token ->
  platform <> [] -> Forall (fun c => is_char x26 c = false) platform ->
  exists resp v, login_handler cfg pbkdf2 cm now request response d = Ok resp /\ rs_status resp = rs_status response /\
    rs_body resp = ToString v /\ member "access_token" v = Some (JString token) /\
    forall later, now <= later < now + g_jwt_expires_in cfg ->
      authenticate cfg later (bstr "token=" ++ token ++ bstr "&platform=" ++ platform) = Ok (inl (u_id u, platform)).
Proof.
  intros Fl T Eb Eu Et Np Fp. unfold login_handler. rewrite Eb. cbn [field]. rewrite Eu. cbn [rbind]. unfold answer_token. rewrite Et.
  eexists _, _. split; [done|]. split; [done|]. split; [done|]. split; [done|]. intros later Ll.
  assert (Key : 0 < u_id u < 2 ^ 64).
  { destruct (login_ok pbkdf2 cm Fl d A (GetString body "mobile" []) (GetString body "password" []) T) as (r & E & Sp). rewrite Eu in E. injection E as <-.
    inversion Sp; subst. match goal with K : user_of A _ _ _ |- _ => destruct K as [Ea _] end. destruct (holds_account pbkdf2 d A (u_id u) _ T Ea) as (row & Er & _). by apply (rows_keys d _ row). }
  unfold SignJwt in Et. destruct (jwt_text _ _ _ _ _ _ Et) as [Nt Ft]. destruct (token_query token platform Nt Np Ft Fp) as (kv & Ek & K1 & K2).
  unfold authenticate. rewrite Ek. cbn [rbind]. unfold GetParamValue. rewrite K1, K2. cbn [default from_option id].
  destruct token as [|c token]; [done|]. cbn [is_empty]. unfold VerifyJwt. rewrite (jwt_verifies _ _ _ _ _ _ later Et Ll). cbn [fmap option_fmap option_map default from_option id].
  rewrite dec_nonempty, stoul_dec by lia. replace (u_id u =? 0) with false by lia. by destruct platform.
Qed.
End login.

(** ** Witnesses *)

#[local] Existing Instance zero_heap.
#[local] Existing Instance x86_host.

(** One body, which is that of a login, and no text for values. *)
#[local] Instance toy_json : JsonText :=
  {| json_read s := if bool_decide (s = bstr "login") then Some (JObject [(bstr "mobile", JString a_mobile_number); (bstr "password", JString secret12)]) else None;
     json_write _ := bstr "{}" |}.

(** A token that is the user in hexadecimal. *)
#[local] Instance toy_jwt : Jwt :=
  {| jwt_sign _ _ uid _ _ := Some (x74 :: to_hex uid);
     jwt_verify _ _ _ t := match t with _ :: h => (fun uid => Some uid) <$> from_hex h | [] => None end |}.

Lemma hex_no_amp l : Forall (fun c => is_char x26 c = false) (to_hex l).
Proof.
  assert (G : forall n, 0 <= n < 16 -> is_char x26 (hex_char n) = false).
  { intros n L. apply bool_decide_eq_false. intros E. pose proof (hex_digit_char n L) as D. by rewrite E in D. }
  induction l as [|b l IH]; [constructor|]. change (to_hex (b :: l)) with (hex2 b ++ to_hex l). apply list.Forall_app. split; [|done].
  pose proof (b2z_range b). repeat constructor; apply G; [split; [apply Z.div_pos; lia|apply Z.div_lt_upper_bound; lia]|by apply Z.mod_pos_bound].
Qed.

#[local] Instance toy_jwt_laws : JwtLaws.
Proof.
  split.
  - intros secret issuer uid iat exp t [= <-]. split; [done|]. apply list.Forall_cons. split; [done|apply hex_no_amp].
  - intros secret issuer uid iat exp t now [= <-] _. cbn. by rewrite from_hex_to_hex.
Qed.

Definition a_config : JwtConfig := mkJwtConfig (bstr "dev-secret") (bstr "auth-service") 3600.

Definition request_with (query body : list byte) : HttpRequest :=
  mkRequest 1 (bstr "/") query [] 0x11 [] [] [] body true false.

Lemma ParseQueryKV_example : ParseQueryKV (bstr "a=1&&b&a=x=2&=v") = Ok (<[[] := bstr "v"]> (<[bstr "a" := bstr "x=2"]> (<[bstr "b" := []]> ∅))).
Proof. by vm_compute. Qed.

(** The database after the registration holds an account. *)
Lemma registered_holds : exists A, table_holds toy_kdf (snd a_registration) A.
Proof.
  destruct (op_ok toy_kdf toy_module toy_fills mem_empty ∅ (OpRegister (Some some_salt) a_mobile_number secret12 [] (bstr "user")) empty_holds ltac:(by intros ? [= <-]))
    as (r & d' & A' & E & _ & T). exists A'. unfold a_registration. by rewrite E.
Qed.

Lemma Login_opens_gateway_witness : exists resp v token, login_handler a_config toy_kdf toy_module 1000 (request_with [] (bstr "login")) (new_HttpResponse 0x11 true) (snd a_registration) = Ok resp /\
  rs_body resp = ToString v /\ member "access_token" v = Some (JString token) /\
  authenticate a_config 2000 (bstr "token=" ++ token ++ bstr "&platform=" ++ bstr "pc") = Ok (inl (1, bstr "pc")).
Proof.
  destruct registered_holds as [A T].
  destruct (Login_opens_gateway toy_kdf toy_module a_config (snd a_registration) A (request_with [] (bstr "login")) (new_HttpResponse 0x11 true)
    (JObject [(bstr "mobile", JString a_mobile_number); (bstr "password", JString secret12)]) a_user 1000 (x74 :: to_hex (bstr "1")) (bstr "pc") toy_fills T)
    as (resp & v & E & _ & B & M & L); [by vm_compute|by vm_compute|by vm_compute|done|by repeat constructor|].
  exists resp, v, (x74 :: to_hex (bstr "1")). split; [exact E|]. split; [exact B|]. split; [exact M|]. apply (L 2000). cbn. lia.
Defined.

Definition a_query : list byte := bstr "token=t31&platform=".

Lemma Gateway_sessions_witness : exists g s', on_connect (host := x86_host) a_config 7 1000 new_Gateway (request_with a_query []) (stream_of []) = (Ok (g, 0), s') /\
  is_Some (s_ws_conns g !! 7%nat) /\ (cc_uid <$> s_ws_conns g !! 7%nat) = Some 1 /\ (cc_platform <$> s_ws_conns g !! 7%nat) = Some (bstr "web").
Proof.
  destruct (on_connect (host := x86_host) a_config 7 1000 new_Gateway (request_with a_query []) (stream_of [])) as [[[g rt]| |] s'] eqn:E; [|vm_compute in E; discriminate E..].
  assert (rt = 0) as -> by (vm_compute in E; by injection E as <- <- _). exists g, s'. split; [done|]. split.
  - apply (Gateway_sessions a_config 1 g {[7%nat := (1000, a_query)]}); [|by eexists].
    change {[7%nat := (1000, a_query)]} with (<[7%nat := (1000, a_query)]> (∅ : gmap nat (Z * list byte))).
    apply (gw_accepts a_config 0 new_Gateway ∅ 7 1000 (request_with a_query []) (stream_of []) g s' (gw_new a_config) eq_refl E).
  - vm_compute in E. injection E as <- _. by split.
Defined.
