(* ===== verification/Address.v ===== *)
(** Network addresses (src/net/address.cpp, include/net/address.hpp): the addresses of IPv4,
    IPv6 and Unix sockets as the structures of the kernel, their order, their text, the
    arithmetic of prefixes, and what is asked of the resolver and of the interfaces.
    [getaddrinfo], [inet_pton] and [getifaddrs] are parameters. *)
From S2P Require Import Prelude CppString Number Endian.

Definition AF_UNSPEC : Z := 0.
Definition AF_UNIX : Z := 1.
Definition AF_INET : Z := 2.
Definition AF_INET6 : Z := 10.

(** ** Masks *)

(** [CreateMask<T>(bits)] for a [T] of [size] bytes: the 1 that is shifted is an [int], the
    distance a [size_t]. *)
Definition CreateMask (size bits : Z) : res Z :=
  let distance := u64 (size * 8 - bits) in
  if 32 <=? distance then Crash bad_shift
  else if distance =? 31 then Crash signed_overflow
  else Ok ((Z.shiftl 1 distance - 1) mod 2 ^ (8 * size)).

(** [CountBytes]: the lowest bit that is set is cleared until none is. *)
Fixpoint CountBytes_loop (fuel : nat) (value result : Z) : res Z :=
  if value =? 0 then Ok result
  else match fuel with O => Crash nontermination | S fuel => CountBytes_loop fuel (Z.land value (value - 1)) (u32 (result + 1)) end.

(** At most 32 bits can be set. *)
Definition CountBytes (value : Z) : res Z := CountBytes_loop 32 value 0.

(** ** The structures of the kernel

    A number is the value of the field, so that a port is in network order. *)
Record sockaddr_in := mk_sockaddr_in { sin_family : Z; sin_port : Z; s_addr : Z; sin_zero : list byte }.

Record sockaddr_in6 :=
  mk_sockaddr_in6 { sin6_family : Z; sin6_port : Z; sin6_flowinfo : Z; s6_addr : list byte; sin6_scope_id : Z }.

Record sockaddr_un := mk_sockaddr_un { sun_family : Z; sun_path : list byte }.

Record sockaddr := mk_sockaddr { sa_family : Z; sa_data : list byte }.

(** [sizeof(sun_path)] and [offsetof(sockaddr_un, sun_path)]. *)
Definition sun_path_size : Z := 108.
Definition sun_path_offset : Z := 2.
Definition MAX_PATH_LEN : Z := sun_path_size - 1.

Inductive Address :=
  | IPv4Address (m_addr : sockaddr_in)
  | IPv6Address (m_addr : sockaddr_in6)
  | UnixAddress (m_addr : sockaddr_un) (m_length : Z)
  | UnknownAddress (m_addr : sockaddr).

Definition zeros (n : nat) : list byte := replicate n x00.

Section address.
Context `{Host}.

(** The memory of a structure. *)
Definition in_bytes (a : sockaddr_in) : list byte := to_mem 2 (sin_family a) ++ to_mem 2 (sin_port a) ++ to_mem 4 (s_addr a) ++ sin_zero a.

Definition in6_bytes (a : sockaddr_in6) : list byte :=
  to_mem 2 (sin6_family a) ++ to_mem 2 (sin6_port a) ++ to_mem 4 (sin6_flowinfo a) ++ s6_addr a ++ to_mem 4 (sin6_scope_id a).

Definition read_in (m : list byte) : sockaddr_in :=
  mk_sockaddr_in (of_mem (slice 0 2 m)) (of_mem (slice 2 2 m)) (of_mem (slice 4 4 m)) (slice 8 8 m).

Definition read_in6 (m : list byte) : sockaddr_in6 :=
  mk_sockaddr_in6 (of_mem (slice 0 2 m)) (of_mem (slice 2 2 m)) (of_mem (slice 4 4 m)) (slice 8 16 m) (of_mem (slice 24 4 m)).

Definition read_sockaddr (m : list byte) : sockaddr := mk_sockaddr (of_mem (slice 0 2 m)) (slice 2 14 m).

(** The bytes at [getAddr()]. *)
Definition getAddr (a : Address) : list byte :=
  match a with
  | IPv4Address m => in_bytes m
  | IPv6Address m => in6_bytes m
  | UnixAddress m _ => to_mem 2 (sun_family m) ++ sun_path m
  | UnknownAddress m => to_mem 2 (sa_family m) ++ sa_data m
  end.

Definition getAddrLen (a : Address) : Z :=
  match a with IPv4Address _ => 16 | IPv6Address _ => 28 | UnixAddress _ m_length => m_length | UnknownAddress _ => 16 end.

Definition getFamily (a : Address) : Z := of_mem (slice 0 2 (getAddr a)).

(** [Address::Create] of a pointer into the memory [addr]: the family says how many bytes
    are copied, the length that is passed does not. *)
Definition Create (addr : option (list byte)) (addrlen : Z) : res Address :=
  match addr with
  | None => Crash assertion_failed
  | Some m =>
      if negb (0 <? addrlen) then Crash assertion_failed
      else
        let copy n a := if n <=? len m then Ok a else Crash out_of_bounds in
        if len m <? 2 then Crash out_of_bounds
        else if of_mem (slice 0 2 m) =? AF_INET then copy 16 (IPv4Address (read_in m))
        else if of_mem (slice 0 2 m) =? AF_INET6 then copy 28 (IPv6Address (read_in6 m))
        else copy 16 (UnknownAddress (read_sockaddr m))
  end.

(** ** Comparison *)

(** [memcmp] of [n] bytes. *)
Definition memcmp (a b : list byte) (n : Z) : res comparison :=
  if (n <=? len a) && (n <=? len b) then Ok (key_compare (take (Z.to_nat n) a) (take (Z.to_nat n) b)) else Crash out_of_bounds.

Definition less (a b : Address) : res bool :=
  let min_len := Z.min (getAddrLen a) (getAddrLen b) in
  let! result := memcmp (getAddr a) (getAddr b) min_len in
  Ok match result with Lt => true | Gt => false | Eq => getAddrLen a <? getAddrLen b end.

Definition equal (a b : Address) : res bool :=
  if getAddrLen a =? getAddrLen b then
    let! result := memcmp (getAddr a) (getAddr b) (getAddrLen a) in Ok match result with Eq => true | _ => false end
  else Ok false.

Definition differ (a b : Address) : res bool := let! e := equal a b in Ok (negb e).

(** ** IPv4 *)

Definition new_IPv4 (address port : Z) : sockaddr_in := mk_sockaddr_in AF_INET (hton 2 port) (hton 4 address) (zeros 8).

Definition with_addr (a : sockaddr_in) (v : Z) : sockaddr_in := mk_sockaddr_in (sin_family a) (sin_port a) v (sin_zero a).

Definition IPv4_broadcastAddress (a : sockaddr_in) (prefix_len : Z) : res sockaddr_in :=
  if 32 <? prefix_len then Crash assertion_failed
  else let! mask := CreateMask 4 prefix_len in Ok (with_addr a (Z.lor (s_addr a) (hton 4 mask))).

Definition IPv4_networkAddress (a : sockaddr_in) (prefix_len : Z) : res sockaddr_in :=
  if 32 <? prefix_len then Crash assertion_failed
  else let! mask := CreateMask 4 prefix_len in Ok (with_addr a (Z.land (s_addr a) (hton 4 (u32 (Z.lnot mask))))).

Definition IPv4_subnetMask (prefix_len : Z) : res sockaddr_in :=
  if 32 <? prefix_len then Crash assertion_failed
  else let! mask := CreateMask 4 prefix_len in Ok (mk_sockaddr_in AF_INET 0 (u32 (Z.lnot (hton 4 mask))) (zeros 8)).

Definition IPv4_getPort (a : sockaddr_in) : Z := ntoh 2 (sin_port a).
Definition IPv4_setPort (port : Z) (a : sockaddr_in) : sockaddr_in := mk_sockaddr_in (sin_family a) (hton 2 port) (s_addr a) (sin_zero a).

Definition IPv4_insert (a : sockaddr_in) : list byte :=
  let address := ntoh 4 (s_addr a) in
  let part i := dec (Z.land (Z.shiftr address i) 0xff) in
  part 24 ++ bstr "." ++ part 16 ++ bstr "." ++ part 8 ++ bstr "." ++ part 0 ++ bstr ":" ++ dec (ntoh 2 (sin_port a)).

(** ** IPv6 *)

Definition new_IPv6 : sockaddr_in6 := mk_sockaddr_in6 AF_INET6 0 0 (zeros 16) 0.

(** The constructor from 16 bytes. *)
Definition IPv6_of (address : list byte) (port : Z) : sockaddr_in6 := mk_sockaddr_in6 AF_INET6 (hton 2 port) 0 (take 16 address) 0.

Definition with_addr6 (a : sockaddr_in6) (v : list byte) : sockaddr_in6 :=
  mk_sockaddr_in6 (sin6_family a) (sin6_port a) (sin6_flowinfo a) v (sin6_scope_id a).

(** [s6_addr[i] = f(s6_addr[i])]. *)
Definition update_byte (i : Z) (f : Z -> Z) (l : list byte) : res (list byte) :=
  match l !! Z.to_nat i with Some b => Ok (<[Z.to_nat i := z2b (f (b2z b))]> l) | None => Crash out_of_bounds end.

Definition IPv6_broadcastAddress (a : sockaddr_in6) (prefix_len : Z) : res sockaddr_in6 :=
  if negb (prefix_len <=? 128) then Crash assertion_failed
  else
    let! mask := CreateMask 1 (prefix_len mod 8) in
    let! l := update_byte (prefix_len / 8) (fun b => Z.lor b mask) (s6_addr a) in
    let i := Z.to_nat (prefix_len / 8 + 1) in
    Ok (with_addr6 a (take i l ++ replicate (16 - i) xff)).

Definition IPv6_networkAddress (a : sockaddr_in6) (prefix_len : Z) : res sockaddr_in6 :=
  if negb (prefix_len <=? 128) then Crash assertion_failed
  else
    let! mask := CreateMask 1 (prefix_len mod 8) in
    let! l := update_byte (prefix_len / 8) (fun b => Z.land b mask) (s6_addr a) in
    Ok (with_addr6 a l).

Definition IPv6_subnetMask (prefix_len : Z) : res sockaddr_in6 :=
  if negb (128 <=? prefix_len) then Crash assertion_failed
  else
    let! mask := CreateMask 1 (prefix_len mod 8) in
    let! l := update_byte (prefix_len / 8) (fun _ => Z.lnot mask) (zeros 16) in
    let i := Z.to_nat (prefix_len / 8) in
    Ok (with_addr6 new_IPv6 (replicate i xff ++ drop i l)).

Definition IPv6_getPort (a : sockaddr_in6) : Z := ntoh 2 (sin6_port a).

Definition IPv6_setPort (port : Z) (a : sockaddr_in6) : sockaddr_in6 :=
  mk_sockaddr_in6 (sin6_family a) (hton 2 port) (sin6_flowinfo a) (s6_addr a) (sin6_scope_id a).

(** The eight groups, as they lie in memory. *)
Definition groups (l : list byte) : list Z := map (fun i => of_mem (slice (2 * i) 2 l)) (seq 0 8).

(** The loop over the groups at index [i], the group before it being [prev], and the colon
    that it may leave to be put. *)
Fixpoint insert_loop (i : nat) (prev : Z) (used_zeros : bool) (addr : list Z) : list byte :=
  match addr with
  | [] => if negb used_zeros && (prev =? 0) then bstr ":" else []
  | g :: addr =>
      if (g =? 0) && negb used_zeros then insert_loop (S i) g used_zeros addr
      else
        let after := (0 <? i)%nat && (prev =? 0) && negb used_zeros in
        (if after then bstr ":" else []) ++ (if (0 <? i)%nat then bstr ":" else []) ++ hex (ntoh 2 g)
          ++ insert_loop (S i) g (used_zeros || after) addr
  end.

Definition IPv6_insert (a : sockaddr_in6) : list byte :=
  bstr "[" ++ insert_loop 0 0 false (groups (s6_addr a)) ++ bstr "]:" ++ dec (ntoh 2 (sin6_port a)).

(** ** Unix sockets *)

Definition new_Unix : Address := UnixAddress (mk_sockaddr_un AF_UNIX (zeros 108)) (sun_path_offset + MAX_PATH_LEN).

Definition is_nul (s : list byte) : bool := match s with c :: _ => b2z c =? 0 | [] => false end.

(** The constructor from a path; a name that begins with NUL is abstract. *)
Definition Unix_of (path : list byte) : res Address :=
  if is_empty path then Crash assertion_failed
  else
    let m_length := u32 (len path + 1) in
    let m_length := if is_nul path then m_length - 1 else m_length in
    if sun_path_size <? m_length then Throw logic_error
    else
      let name := take (Z.to_nat m_length) (path ++ [x00]) in
      Ok (UnixAddress (mk_sockaddr_un AF_UNIX (name ++ zeros (108 - length name))) (m_length + sun_path_offset)).

Definition setAddrLen (length : Z) (a : Address) : res Address :=
  if negb (0 <? length) then Crash assertion_failed
  else match a with UnixAddress m _ => Ok (UnixAddress m length) | a => Ok a end.

(** [std::string(sun_path + 1, n)], where [n] is the length less the offset and 1. *)
Definition abstract_name (m : sockaddr_un) (m_length : Z) : res (list byte) :=
  let n := u64 (m_length - sun_path_offset - 1) in
  if 2 ^ 63 <=? n then Throw length_error
  else if 107 <? n then Crash out_of_bounds
  else Ok (bstr "\0" ++ slice 1 (Z.to_nat n) (sun_path m)).

(** [os << sun_path]. *)
Definition path_name (m : sockaddr_un) : res (list byte) :=
  if existsb (fun c => b2z c =? 0) (sun_path m) then Ok (c_str (sun_path m)) else Crash out_of_bounds.

Definition Unix_getPath (m : sockaddr_un) (m_length : Z) : res (list byte) :=
  if (sun_path_offset <? m_length) && is_nul (sun_path m) then abstract_name m m_length else path_name m.

Definition Unix_insert (m : sockaddr_un) (m_length : Z) : res (list byte) :=
  if (sun_path_offset <=? m_length) && is_nul (sun_path m) then abstract_name m m_length else path_name m.

(** ** Any address *)

Definition Unknown_of (family : Z) : Address := UnknownAddress (mk_sockaddr (u16 family) (zeros 14)).

Definition Unknown_insert (m : sockaddr) : list byte := bstr "[UnknownAddress family=" ++ dec (sa_family m) ++ bstr "]".

Definition toString (a : Address) : res (list byte) :=
  match a with
  | IPv4Address m => Ok (IPv4_insert m)
  | IPv6Address m => Ok (IPv6_insert m)
  | UnixAddress m m_length => Unix_insert m m_length
  | UnknownAddress m => Ok (Unknown_insert m)
  end.

(** [dynamic_pointer_cast<IPAddress>]. *)
Definition is_ip (a : Address) : bool := match a with IPv4Address _ | IPv6Address _ => true | _ => false end.

Definition setPort (port : Z) (a : Address) : Address :=
  match a with IPv4Address m => IPv4Address (IPv4_setPort port m) | IPv6Address m => IPv6Address (IPv6_setPort port m) | a => a end.

Definition getPort (a : Address) : option Z :=
  match a with IPv4Address m => Some (IPv4_getPort m) | IPv6Address m => Some (IPv6_getPort m) | _ => None end.

(** ** Text to addresses *)

Section text.
(** [inet_pton(AF_INET, ..)] and [inet_pton(AF_INET6, ..)]: the bytes of the address in
    network order, when the text is one. *)
Context (inet_pton : list byte -> option (list byte)) (inet_pton6 : list byte -> option (list byte)).

Definition IPv4_Create (address : list byte) (port : Z) : option sockaddr_in :=
  match inet_pton address with Some b => Some (with_addr (IPv4_setPort port (new_IPv4 0 0)) (of_mem b)) | None => None end.

Definition IPv6_Create (address : list byte) (port : Z) : option sockaddr_in6 :=
  match inet_pton6 address with Some b => Some (with_addr6 (IPv6_setPort port new_IPv6) b) | None => None end.
End text.

(** What [Lookup] passes on of a host: the node, and the service, both to their first NUL. *)
Definition colon_char : byte := x3a.

Definition bracketed (host : list byte) : list byte * option (list byte) :=
  match host with
  | c :: rest =>
      if negb (is_char x5b c) then
        match find_char x5d rest with
        | Some k => (slice 1 k host, match host !! (k + 2)%nat with Some d => if is_char colon_char d then Some (drop (k + 3) host) else None | None => None end)
        | None => ([], None)
        end
      else ([], None)
  | [] => ([], None)
  end.

Definition node_of (host : list byte) : list byte * option (list byte) :=
  let (node, service) := bracketed host in
  let (node, service) :=
    if is_empty node then
      match find_char colon_char host with
      | Some i => match find_char colon_char (drop (i + 1) host) with None => (take i host, Some (drop (i + 1) host)) | Some _ => (node, Some (drop i host)) end
      | None => (node, None)
      end
    else (node, service) in
  (c_str (if is_empty node then host else node), c_str <$> service).

Section resolver.
(** [getaddrinfo(node, service, {family, type, protocol})]: the memory of the addresses it
    finds, or an error. *)
Context (getaddrinfo : list byte -> option (list byte) -> Z * Z * Z -> option (list (list byte))).

(** The loop over the results. *)
Fixpoint create_all (results : list (list byte)) : res (list Address) :=
  match results with [] => Ok [] | m :: results => let! a := Create (Some m) (len m) in let! l := create_all results in Ok (a :: l) end.

Definition Lookup (host : list byte) (family type protocol : Z) : res (option (list Address)) :=
  if is_empty host then Crash assertion_failed
  else
    let (node, service) := node_of host in
    match getaddrinfo node service (family, type, protocol) with None => Ok None | Some results => let! l := create_all results in Ok (Some l) end.

Definition LookupAny (host : list byte) (family type protocol : Z) : res (option Address) :=
  let! found := Lookup host family type protocol in
  match found with Some (a :: _) => Ok (Some a) | Some [] => Crash out_of_bounds | None => Ok None end.

Definition LookupAnyIpAddress (host : list byte) (family type protocol : Z) : res (option Address) :=
  let! found := Lookup host family type protocol in
  Ok match found with Some l => List.find is_ip l | None => None end.

(** [IPAddress::Create]: the first result, with the port. *)
Definition IP_Create (address : list byte) (port : Z) : res (option Address) :=
  match getaddrinfo (c_str address) None (0, 0, 0) with
  | None => Ok None
  | Some [] => Crash null_deref
  | Some (m :: _) => let! a := Create (Some m) (len m) in Ok (if is_ip a then Some (setPort port a) else None)
  end.
End resolver.

(** ** Interfaces *)

(** An element of the list of [getifaddrs]; its pointers may be null. *)
Record ifaddrs := mk_ifaddrs { ifa_name : list byte; ifa_addr : option (list byte); ifa_netmask : option (list byte) }.

(** [std::multimap::insert]: after the elements of the same key. *)
Fixpoint multimap_insert {A} (k : list byte) (v : A) (m : list (list byte * A)) : list (list byte * A) :=
  match m with
  | [] => [(k, v)]
  | (k', v') :: m' => match key_compare k k' with Lt => (k, v) :: m | _ => (k', v') :: multimap_insert k v m' end
  end.

(** The bits of the sixteen bytes of a mask. *)
Fixpoint count_all (l : list byte) (n : Z) : res Z :=
  match l with [] => Ok n | b :: l => let! c := CountBytes (b2z b) in count_all l (u32 (n + c)) end.

(** The address of an interface and the length of its prefix; other families are passed over. *)
Definition interface_of (i : ifaddrs) : res (option (Address * Z)) :=
  let! m := deref (ifa_addr i) in
  if of_mem (slice 0 2 m) =? AF_INET then
    let! a := Create (Some m) 16 in
    let! mask := deref (ifa_netmask i) in
    let! prefix_len := CountBytes (of_mem (slice 4 4 mask)) in Ok (Some (a, prefix_len))
  else if of_mem (slice 0 2 m) =? AF_INET6 then
    let! a := Create (Some m) 28 in
    let! mask := deref (ifa_netmask i) in
    let! prefix_len := count_all (slice 8 16 mask) 0 in Ok (Some (a, prefix_len))
  else Ok None.

Fixpoint interfaces_loop (family : Z) (l : list ifaddrs) (result : list (list byte * (Address * Z))) : res (list (list byte * (Address * Z))) :=
  match l with
  | [] => Ok result
  | i :: l =>
      let! m := deref (ifa_addr i) in
      if negb (family =? AF_UNSPEC) && negb (family =? of_mem (slice 0 2 m)) then interfaces_loop family l result
      else
        let! found := interface_of i in
        interfaces_loop family l match found with Some v => multimap_insert (ifa_name i) v result | None => result end
  end.

(** [GetInterfaceAddresses] into a multimap, where [getifaddrs] gives a list or fails. *)
Definition GetInterfaceAddresses (interfaces : option (list ifaddrs)) (family : Z) : res (bool * list (list byte * (Address * Z))) :=
  match interfaces with
  | None => Ok (false, [])
  | Some l => let! result := interfaces_loop family l [] in Ok (match result with [] => false | _ => true end, result)
  end.

(** The other one, into a vector, for one interface or any. *)
Definition GetInterfaceAddresses_of (interfaces : option (list ifaddrs)) (iface : list byte) (family : Z) : res (bool * list (Address * Z)) :=
  if is_empty iface || bool_decide (iface = bstr "*") then
    Ok (true, (if (family =? AF_INET) || (family =? AF_UNSPEC) then [(IPv4Address (new_IPv4 0 0), 0)] else [])
                ++ (if (family =? AF_INET6) || (family =? AF_UNSPEC) then [(IPv6Address new_IPv6, 0)] else []))
  else
    let! r := GetInterfaceAddresses interfaces family in
    if fst r then let result := map snd (filter (fun e => e.1 = iface) (snd r)) in Ok (match result with [] => false | _ => true end, result)
    else Ok (false, []).
End address.
