(* ===== verification/AddressSpec.v ===== *)
(** What the addresses promise (Address.v): counting is the number of bits, a prefix of IPv4
    divides the addresses into blocks, the order is that of the bytes, texts are read back. *)
From S2P Require Import Prelude CppString Number Endian Address.

(** ** Bits *)

(** The bits that are set among the lowest [n]. *)
Fixpoint ones (n : nat) (v : Z) : Z :=
  match n with O => 0 | S n => v mod 2 + ones n (v / 2) end.

Lemma ones_range n v : 0 <= ones n v <= Z.of_nat n.
Proof. revert v. induction n as [|n IH]; intros v; cbn [ones]; [lia|]. specialize (IH (v / 2)). pose proof (Z.mod_pos_bound v 2 ltac:(lia)). lia. Qed.

Lemma ones_pos n v : 0 < v < 2 ^ Z.of_nat n -> 0 < ones n v.
Proof.
  revert v. induction n as [|n IH]; intros v H; cbn [ones]; [cbn in H; lia|]. pose proof (Z.mod_pos_bound v 2 ltac:(lia)).
  pose proof (Z.div_mod v 2 ltac:(lia)). destruct (Z.eq_dec (v / 2) 0) as [E|N]; [rewrite E in *; pose proof (ones_range n 0); lia|].
  assert (0 < ones n (v / 2)); [|lia]. apply IH. rewrite Nat2Z.inj_succ, Z.pow_succ_r in H by lia. lia.
Qed.

(** Clearing the lowest bit that is set. *)
Lemma land_double a b x y : 0 <= x < 2 -> 0 <= y < 2 -> Z.land (2 * a + x) (2 * b + y) = 2 * Z.land a b + x * y.
Proof.
  intros Hx Hy. assert (Ex : x = 0 \/ x = 1) by lia. assert (Ey : y = 0 \/ y = 1) by lia. apply Z.bits_inj'. intros i Hi. rewrite Z.land_spec.
  destruct (Z.eq_dec i 0) as [->|N].
  - rewrite !Z.bit0_odd. destruct Ex as [-> | ->], Ey as [-> | ->]; rewrite ?Z.odd_add, ?Z.odd_mul; cbn; done.
  - replace i with (Z.succ (i - 1)) by lia. destruct Ex as [-> | ->], Ey as [-> | ->];
      rewrite ?Z.mul_0_l, ?Z.mul_0_r, ?Z.mul_1_l, ?Z.add_0_r, ?Z.testbit_odd_succ, ?Z.testbit_even_succ, ?Z.land_spec by lia; done.
Qed.

Lemma ones_double n k x : 0 <= x < 2 -> ones (S n) (2 * k + x) = x + ones n k.
Proof. intros H. cbn [ones]. replace (2 * k + x) with (x + k * 2) by lia. rewrite Z.mod_add, Z.div_add, (Z.mod_small x), (Z.div_small x) by lia. done. Qed.

Lemma land_pred n v : 0 < v < 2 ^ Z.of_nat n -> 0 <= Z.land v (v - 1) < v /\ ones n (Z.land v (v - 1)) = ones n v - 1.
Proof.
  revert v. induction n as [|n IH]; intros v H; [cbn in H; lia|]. rewrite Nat2Z.inj_succ, Z.pow_succ_r in H by lia.
  pose proof (Z.div_mod v 2 ltac:(lia)) as D. pose proof (Z.mod_pos_bound v 2 ltac:(lia)) as M.
  destruct (Z.eq_dec (v mod 2) 1) as [O|E].
  - assert (E : v = 2 * (v / 2) + 1) by lia. generalize dependent (v / 2). intros k D E. subst v.
    replace (2 * k + 1 - 1) with (2 * k + 0) by lia. rewrite land_double, Z.land_diag, !ones_double by lia.
    lia.
  - assert (E' : v = 2 * (v / 2) + 0) by lia. generalize dependent (v / 2). intros k D E'. subst v. destruct (IH k) as [R S]; [lia|].
    replace (2 * k + 0 - 1) with (2 * (k - 1) + 1) by lia. rewrite land_double, !ones_double by lia. lia.
Qed.

Lemma CountBytes_loop_ones n fuel v r : (n <= 32)%nat -> 0 <= v < 2 ^ Z.of_nat n -> ones n v <= Z.of_nat fuel -> 0 <= r -> r + ones n v < 2 ^ 32 ->
  CountBytes_loop fuel v r = Ok (r + ones n v).
Proof.
  intros N. revert v r. induction fuel as [|fuel IH]; intros v r H F R S; cbn [CountBytes_loop]; destruct (Z.eqb_spec v 0) as [->|V].
  - f_equal. pose proof (ones_range n 0). lia.
  - pose proof (ones_pos n v ltac:(lia)). lia.
  - f_equal. assert (ones n 0 = 0) as ->; [|lia]. clear. induction n as [|n IH]; [done|]. cbn [ones]. by rewrite Z.mod_0_l, Z.div_0_l, IH by lia.
  - destruct (land_pred n v ltac:(lia)) as [L O]. pose proof (ones_pos n v ltac:(lia)). rewrite u32_small by lia. rewrite IH by lia. f_equal. lia.
Qed.

(** Counting is the number of bits. *)
Lemma CountBytes_ones v : 0 <= v < 2 ^ 32 -> CountBytes v = Ok (ones 32 v).
Proof. intros H. unfold CountBytes. pose proof (ones_range 32 v). rewrite (CountBytes_loop_ones 32) by lia. done. Qed.

(** The bits of a number are those of its bytes, and a swap moves whole bytes. *)
Lemma bits_high w v i : 0 <= w -> 0 <= v < 2 ^ w -> w <= i -> Z.testbit v i = false.
Proof. intros W V I. rewrite <- (Z.mod_small v (2 ^ w)) by done. apply Z.mod_pow2_bits_high. lia. Qed.

Lemma of_le_testbit l i : 0 <= i -> Z.testbit (of_le l) i = Z.testbit (b2z (nth (Z.to_nat (i / 8)) l x00)) (i mod 8).
Proof.
  revert i. induction l as [|b l IH]; intros i Hi; cbn [of_le].
  - rewrite Z.bits_0. destruct (Z.to_nat (i / 8)); cbn [nth]; by rewrite Z.bits_0.
  - pose proof (b2z_range b) as R. replace (b2z b + 256 * of_le l) with (Z.lor (b2z b) (Z.shiftl (of_le l) 8)) by (rewrite lor_shiftl_add by lia; lia).
    rewrite Z.lor_spec, Z.shiftl_spec by lia. destruct (Z.lt_ge_cases i 8) as [L|G].
    + rewrite (Z.testbit_neg_r _ (i - 8)) by lia. rewrite orb_false_r, Z.div_small, Z.mod_small by lia. done.
    + rewrite (bits_high 8) by lia. rewrite orb_false_l, IH by lia.
      assert (E : i = i - 8 + 1 * 8) by lia. rewrite E at 3 4. rewrite Z.div_add, Z.mod_add by lia.
      pose proof (Z.div_pos (i - 8) 8 ltac:(lia) ltac:(lia)). by replace (Z.to_nat ((i - 8) / 8 + 1)) with (S (Z.to_nat ((i - 8) / 8))) by lia.
Qed.

Lemma nth_le_bytes n v k : (k < n)%nat -> nth k (le_bytes n v) x00 = z2b (v / 256 ^ Z.of_nat k).
Proof.
  revert v k. induction n as [|n IH]; intros v k H; [lia|]. destruct k as [|k]; cbn [le_bytes nth]; [by rewrite Z.div_1_r|].
  rewrite IH by lia. rewrite Nat2Z.inj_succ, Z.pow_succ_r by lia. rewrite Z.div_div by lia. done.
Qed.

Lemma byteswap_testbit n v i : 0 <= i < 8 * Z.of_nat n ->
  Z.testbit (byteswap n v) i = Z.testbit v (8 * (Z.of_nat n - 1 - i / 8) + i mod 8).
Proof.
  intros H. unfold byteswap. rewrite of_le_testbit by lia. pose proof (Z.mod_pos_bound i 8 ltac:(lia)) as M.
  assert (D : 0 <= i / 8 < Z.of_nat n) by (split; [apply Z.div_pos; lia|apply Z.div_lt_upper_bound; lia]).
  rewrite List.rev_nth by (rewrite length_le_bytes; lia). rewrite length_le_bytes, nth_le_bytes by lia.
  rewrite b2z_z2b. change 256 with (2 ^ 8). rewrite Z.mod_pow2_bits_low, <- Z.pow_mul_r, Z.div_pow2_bits by lia. f_equal. lia.
Qed.

Section prefix.
Context `{Host}.

(** Networks compute on the swapped value as on the value. *)
Lemma ntoh_bits n f u v w : (forall i, 0 <= i -> Z.testbit w i = f (Z.testbit u i) (Z.testbit v i)) ->
  0 <= u < 2 ^ (8 * Z.of_nat n) -> 0 <= v < 2 ^ (8 * Z.of_nat n) -> f false false = false ->
  forall i, 0 <= i -> Z.testbit (ntoh n w) i = f (Z.testbit (ntoh n u) i) (Z.testbit (ntoh n v) i).
Proof.
  intros W U V F i Hi. unfold ntoh. destruct CIM_BYTE_ORDER; [|by apply W].
  destruct (Z.lt_ge_cases i (8 * Z.of_nat n)) as [L|G]; [|rewrite !(bits_high (8 * Z.of_nat n)) by (try apply byteswap_range; lia); done].
  rewrite !byteswap_testbit by lia. apply W. pose proof (Z.mod_pos_bound i 8 ltac:(lia)).
  assert (i / 8 < Z.of_nat n) by (apply Z.div_lt_upper_bound; lia). lia.
Qed.

Lemma ntoh_lor n u v : 0 <= u < 2 ^ (8 * Z.of_nat n) -> 0 <= v < 2 ^ (8 * Z.of_nat n) -> ntoh n (Z.lor u v) = Z.lor (ntoh n u) (ntoh n v).
Proof. intros U V. apply Z.bits_inj'. intros i Hi. rewrite Z.lor_spec. apply (ntoh_bits n orb); try done. intros. apply Z.lor_spec. Qed.

Lemma ntoh_land n u v : 0 <= u < 2 ^ (8 * Z.of_nat n) -> 0 <= v < 2 ^ (8 * Z.of_nat n) -> ntoh n (Z.land u v) = Z.land (ntoh n u) (ntoh n v).
Proof. intros U V. apply Z.bits_inj'. intros i Hi. rewrite Z.land_spec. apply (ntoh_bits n andb); try done. intros. apply Z.land_spec. Qed.

Lemma ntoh_range n v : 0 <= v < 2 ^ (8 * Z.of_nat n) -> 0 <= ntoh n v < 2 ^ (8 * Z.of_nat n).
Proof. unfold ntoh. destruct CIM_BYTE_ORDER; [intros _; apply byteswap_range|done]. Qed.

Lemma ntoh_hton n v : 0 <= v < 2 ^ (8 * Z.of_nat n) -> ntoh n (hton n v) = v.
Proof. unfold ntoh, hton. destruct CIM_BYTE_ORDER; [intros V; rewrite byteswap_involutive; by apply Z.mod_small|done]. Qed.

Lemma hton_ntoh n v : 0 <= v < 2 ^ (8 * Z.of_nat n) -> hton n (ntoh n v) = v.
Proof. apply ntoh_hton. Qed.

(** ** Prefixes of IPv4 *)

Lemma CreateMask_4 p : 2 <= p <= 32 -> CreateMask 4 p = Ok (2 ^ (32 - p) - 1).
Proof.
  intros P. unfold CreateMask. rewrite u64_small by lia. change (4 * 8) with 32. repeat case_match; try lia. f_equal.
  rewrite Z.shiftl_mul_pow2, Z.mul_1_l by lia. apply Z.mod_small. pose proof (Z.pow_pos_nonneg 2 (32 - p) ltac:(lia) ltac:(lia)).
  pose proof (Z.pow_le_mono_r 2 (32 - p) 32 ltac:(lia) ltac:(lia)). lia.
Qed.

Lemma land_high k w v : 0 <= k <= w -> 0 <= v < 2 ^ w -> Z.land v ((Z.lnot (2 ^ k - 1)) mod 2 ^ w) = v - v mod 2 ^ k.
Proof.
  intros K V. assert (E : Z.land v ((Z.lnot (2 ^ k - 1)) mod 2 ^ w) = Z.ldiff v (Z.ones k)).
  { apply Z.bits_inj'. intros i Hi. rewrite Z.land_spec, Z.ldiff_spec. rewrite Z.ones_equiv, <- Z.sub_1_r.
    destruct (Z.lt_ge_cases i w) as [L|G]; [rewrite Z.mod_pow2_bits_low, Z.lnot_spec by lia; done|]. by rewrite (bits_high w v) by lia. }
  rewrite E, Z.ldiff_ones_r, Z.shiftr_div_pow2, Z.shiftl_mul_pow2 by lia. pose proof (Z.div_mod v (2 ^ k)). pose proof (Z.pow_pos_nonneg 2 k). lia.
Qed.

Lemma lor_low k v : 0 <= k -> Z.lor v (2 ^ k - 1) = v - v mod 2 ^ k + 2 ^ k - 1.
Proof.
  intros K. assert (E : Z.lor v (2 ^ k - 1) = Z.lor (2 ^ k - 1) (Z.shiftl (v / 2 ^ k) k)).
  { apply Z.bits_inj'. intros i Hi. rewrite !Z.lor_spec, Z.shiftl_spec by lia. rewrite Z.sub_1_r, <- Z.ones_equiv.
    destruct (Z.lt_ge_cases i k) as [L|G]; [rewrite Z.ones_spec_low by lia; by rewrite orb_true_r|].
    rewrite Z.ones_spec_high by lia. rewrite orb_false_r, orb_false_l, Z.div_pow2_bits by lia. f_equal. lia. }
  pose proof (Z.pow_pos_nonneg 2 k ltac:(lia) K). rewrite E, lor_shiftl_add by lia. pose proof (Z.div_mod v (2 ^ k)). lia.
Qed.

(** The address as a number. *)
Definition value (a : sockaddr_in) : Z := ntoh 4 (s_addr a).

Lemma value_range a : 0 <= s_addr a < 2 ^ 32 -> 0 <= value a < 2 ^ 32.
Proof. apply (ntoh_range 4). Qed.

Lemma mask_range p : 2 <= p <= 32 -> 0 <= 2 ^ (32 - p) - 1 < 2 ^ 32.
Proof. intros P. pose proof (Z.pow_pos_nonneg 2 (32 - p) ltac:(lia) ltac:(lia)). pose proof (Z.pow_le_mono_r 2 (32 - p) 32 ltac:(lia) ltac:(lia)). lia. Qed.

Lemma narrow_range w v : 0 <= w -> (forall i, w <= i -> Z.testbit v i = false) -> 0 <= v < 2 ^ w.
Proof.
  intros W B. assert (v = v mod 2 ^ w) as ->; [|apply Z.mod_pos_bound; lia]. apply Z.bits_inj'. intros i Hi.
  destruct (Z.lt_ge_cases i w); [by rewrite Z.mod_pow2_bits_low|]. by rewrite Z.mod_pow2_bits_high, B by lia.
Qed.

Lemma network_value a p : 2 <= p <= 32 -> 0 <= s_addr a < 2 ^ 32 ->
  exists v, IPv4_networkAddress a p = Ok (with_addr a v) /\ 0 <= v < 2 ^ 32 /\ ntoh 4 v = value a - value a mod 2 ^ (32 - p).
Proof.
  intros P R. unfold IPv4_networkAddress. rewrite (proj2 (Z.ltb_ge _ _)), CreateMask_4 by lia. cbn [rbind]. eexists. split; [done|].
  pose proof (ntoh_range 4 (u32 (Z.lnot (2 ^ (32 - p) - 1))) (u32_range _)) as M. split.
  - apply narrow_range; [lia|]. intros i Hi. by rewrite Z.land_spec, (bits_high 32) by done.
  - rewrite ntoh_land by done. rewrite ntoh_hton by apply u32_range. apply land_high; [lia|]. by apply value_range.
Qed.

Lemma broadcast_value a p : 2 <= p <= 32 -> 0 <= s_addr a < 2 ^ 32 ->
  exists v, IPv4_broadcastAddress a p = Ok (with_addr a v) /\ 0 <= v < 2 ^ 32 /\ ntoh 4 v = value a - value a mod 2 ^ (32 - p) + 2 ^ (32 - p) - 1.
Proof.
  intros P R. unfold IPv4_broadcastAddress. rewrite (proj2 (Z.ltb_ge _ _)), CreateMask_4 by lia. cbn [rbind]. eexists. split; [done|].
  pose proof (ntoh_range 4 _ (mask_range p P)) as M. split.
  - apply narrow_range; [lia|]. intros i Hi. by rewrite Z.lor_spec, !(bits_high 32) by done.
  - rewrite ntoh_lor by done. rewrite ntoh_hton by by apply mask_range. apply lor_low. lia.
Qed.

Lemma subnet_value p : 2 <= p <= 32 ->
  exists v, IPv4_subnetMask p = Ok (mk_sockaddr_in AF_INET 0 v (zeros 8)) /\ 0 <= v < 2 ^ 32 /\ ntoh 4 v = 2 ^ 32 - 2 ^ (32 - p) /\ CountBytes v = Ok p.
Proof.
  intros P. unfold IPv4_subnetMask. rewrite (proj2 (Z.ltb_ge _ _)), CreateMask_4 by lia. cbn [rbind]. eexists. split; [done|]. split; [apply u32_range|].
  assert (C : forallb (fun n => let p := Z.of_nat n in let v := u32 (Z.lnot (hton 4 (2 ^ (32 - p) - 1))) in
    (ntoh 4 v =? 2 ^ 32 - 2 ^ (32 - p)) && match CountBytes v with Ok c => c =? p | _ => false end) (seq 2 31) = true).
  { unfold ntoh, hton. destruct CIM_BYTE_ORDER; vm_compute; reflexivity. }
  rewrite forallb_forall in C. specialize (C (Z.to_nat p)). cbn zeta in C. rewrite Z2Nat.id in C by lia.
  destruct (andb_prop _ _ (C ltac:(apply in_seq; lia))) as [V%Z.eqb_eq K].
  destruct (CountBytes _); try done. apply Z.eqb_eq in K as ->. done.
Qed.

(** The addresses in one block of a power of two. *)
Lemma same_block x y k : 0 <= k -> x - x mod 2 ^ k = y - y mod 2 ^ k <-> y - y mod 2 ^ k <= x <= y - y mod 2 ^ k + 2 ^ k - 1.
Proof.
  intros K. pose proof (Z.pow_pos_nonneg 2 k ltac:(lia) K) as S. pose proof (Z.mod_pos_bound x (2 ^ k) S). pose proof (Z.div_mod x (2 ^ k) ltac:(lia)).
  pose proof (Z.mod_pos_bound y (2 ^ k) S). pose proof (Z.div_mod y (2 ^ k) ltac:(lia)). split; [lia|]. intros B.
  assert (x / 2 ^ k = y / 2 ^ k); [|nia]. assert (2 ^ k * (x / 2 ^ k) < 2 ^ k * (y / 2 ^ k + 1)) by lia. assert (2 ^ k * (y / 2 ^ k) < 2 ^ k * (x / 2 ^ k + 1)) by lia. nia.
Qed.

(** C31: A prefix of at least two bits divides the addresses into blocks of a power of two: the
    network and the broadcast address are the first and the last of the block, the mask has
    the bits of the prefix, and the addresses of the block are those with the same network. *)
Theorem IPv4_prefix a p : 2 <= p <= 32 -> 0 <= s_addr a < 2 ^ 32 ->
  exists network broadcast mask,
    IPv4_networkAddress a p = Ok (with_addr a network) /\ ntoh 4 network = value a - value a mod 2 ^ (32 - p)
    /\ IPv4_broadcastAddress a p = Ok (with_addr a broadcast) /\ ntoh 4 broadcast = ntoh 4 network + 2 ^ (32 - p) - 1
    /\ IPv4_subnetMask p = Ok (mk_sockaddr_in AF_INET 0 mask (zeros 8)) /\ ntoh 4 mask = 2 ^ 32 - 2 ^ (32 - p) /\ CountBytes mask = Ok p
    /\ forall b, 0 <= s_addr b < 2 ^ 32 ->
         IPv4_networkAddress b p = Ok (with_addr b network) <-> ntoh 4 network <= value b <= ntoh 4 broadcast.
Proof.
  intros P R. destruct (network_value a p P R) as (n & En & Rn & Vn). destruct (broadcast_value a p P R) as (c & Ec & Rc & Vc).
  destruct (subnet_value p P) as (m & Em & Rm & Vm & Cm). exists n, c, m. split_and!; try done; [lia|]. intros b Rb.
  destruct (network_value b p P Rb) as (n' & En' & Rn' & Vn'). rewrite En'. rewrite Vn, Vc. rewrite <- same_block by lia. rewrite <- Vn, <- Vn'. split.
  - by intros [= ->].
  - intros E. do 2 f_equal. rewrite <- (hton_ntoh 4 n'), <- (hton_ntoh 4 n) by done. by f_equal.
Qed.

(** A prefix of 0 or 1 has no mask: the shift, or what follows it, leaves the range of [int]. *)
Lemma IPv4_short_prefix a p : 0 <= p < 2 ->
  (exists u, IPv4_networkAddress a p = Crash u) /\ (exists u, IPv4_broadcastAddress a p = Crash u) /\ exists u, IPv4_subnetMask p = Crash u.
Proof. intros P. assert (p = 0 \/ p = 1) as [-> | ->] by lia; split_and!; eexists; reflexivity. Qed.
End prefix.

(** ** Prefixes of IPv6 *)

Lemma CreateMask_1 r : 0 <= r < 8 -> CreateMask 1 r = Ok (2 ^ (8 - r) - 1).
Proof. intros R. assert (r = 0 \/ r = 1 \/ r = 2 \/ r = 3 \/ r = 4 \/ r = 5 \/ r = 6 \/ r = 7) as E by lia. by repeat destruct E as [-> |E]; subst. Qed.

(** The number that sixteen bytes in network order are. *)
Definition value6 (l : list byte) : Z := of_wire CIM_BIG_ENDIAN l.

Lemma of_le_app l k : of_le (l ++ k) = of_le l + 256 ^ len l * of_le k.
Proof.
  induction l as [|b l IH]; cbn [app of_le]; [unfold len; cbn; lia|]. rewrite IH. unfold len. cbn [length]. rewrite Nat2Z.inj_succ, Z.pow_succ_r by lia. lia.
Qed.

Lemma value6_app l k : value6 (l ++ k) = value6 l * 256 ^ len k + value6 k.
Proof. unfold value6. cbn. rewrite rev_app_distr, of_le_app. unfold len. rewrite length_rev. lia. Qed.

Lemma value6_range l : 0 <= value6 l < 256 ^ len l.
Proof. pose proof (of_wire_range CIM_BIG_ENDIAN l) as R. rewrite Z.pow_mul_r in R by (unfold len; lia). done. Qed.

Lemma value6_ff n : value6 (replicate n xff) = 256 ^ Z.of_nat n - 1.
Proof.
  unfold value6. cbn. assert (rev (replicate n xff) = replicate n xff) as ->.
  { induction n as [|n IH]; [done|]. cbn [replicate rev]. rewrite IH. by rewrite <- replicate_S_end. }
  induction n as [|n IH]; [done|]. cbn [replicate of_le]. rewrite IH, Nat2Z.inj_succ, Z.pow_succ_r by lia. cbn. lia.
Qed.

(** The address at a byte, what is before and what is after it. *)
Lemma split_at (l : list byte) k : (k < 16)%nat -> length l = 16%nat -> exists x b y, l = x ++ b :: y /\ length x = k /\ length y = (15 - k)%nat /\ l !! k = Some b.
Proof.
  intros K L. destruct (lookup_lt_is_Some_2 l k ltac:(lia)) as [b B]. exists (take k l), b, (drop (S k) l).
  rewrite length_take, length_drop. split_and!; [by rewrite take_drop_middle|lia|lia|done].
Qed.

Lemma update_byte_ok i f x b y : length x = Z.to_nat i -> update_byte i f (x ++ b :: y) = Ok (x ++ z2b (f (b2z b)) :: y).
Proof. intros E. unfold update_byte. rewrite <- E, list_lookup_middle by done. f_equal. by rewrite <- (Nat.add_0_r (length x)), insert_app_r. Qed.

Lemma octet_mask b s : 0 <= s <= 8 -> 0 <= b < 256 -> 0 <= Z.lor b (2 ^ s - 1) < 256.
Proof.
  intros S B. apply (narrow_range 8); [lia|]. intros i Hi. rewrite Z.lor_spec. pose proof (Z.pow_le_mono_r 2 s 8). pose proof (Z.pow_pos_nonneg 2 s).
  by rewrite !(bits_high 8) by lia.
Qed.

(** Setting the low bits of a number that is made of three parts. *)
Lemma block_parts x b y m s : 0 <= m -> 0 <= s <= 8 -> 0 <= b < 256 -> 0 <= y < 2 ^ m ->
  (x * 2 ^ (m + 8) + (b * 2 ^ m + y)) - (x * 2 ^ (m + 8) + (b * 2 ^ m + y)) mod 2 ^ (m + s) + 2 ^ (m + s) - 1
  = x * 2 ^ (m + 8) + (Z.lor b (2 ^ s - 1) * 2 ^ m + (2 ^ m - 1)).
Proof.
  intros M S B Y. pose proof (Z.pow_pos_nonneg 2 m ltac:(lia) M) as Pm. pose proof (Z.pow_pos_nonneg 2 s ltac:(lia) ltac:(lia)) as Ps.
  rewrite lor_low by lia. pose proof (Z.mod_pos_bound b (2 ^ s) Ps) as R. pose proof (Z.div_mod b (2 ^ s) ltac:(lia)) as D.
  assert (E : x * 2 ^ (m + 8) + (b * 2 ^ m + y) = (b mod 2 ^ s * 2 ^ m + y) + (x * 2 ^ (8 - s) + b / 2 ^ s) * 2 ^ (m + s)).
  { replace (m + 8) with ((8 - s) + (m + s)) by lia. rewrite (Z.pow_add_r 2 (8 - s)), (Z.pow_add_r 2 m s) by lia. rewrite D at 1. ring. }
  assert (Em : (x * 2 ^ (m + 8) + (b * 2 ^ m + y)) mod 2 ^ (m + s) = b mod 2 ^ s * 2 ^ m + y).
  { rewrite E, Z.mod_add by (rewrite Z.pow_add_r by lia; nia). apply Z.mod_small. rewrite Z.pow_add_r by lia. nia. }
  rewrite Em. rewrite (Z.pow_add_r 2 m s) by lia. ring.
Qed.

(** Below 128 bits the broadcast address is the last of the block of the prefix. *)
Theorem IPv6_broadcast a p : 0 <= p < 128 -> length (s6_addr a) = 16%nat ->
  exists l, IPv6_broadcastAddress a p = Ok (with_addr6 a l) /\ length l = 16%nat
    /\ value6 l = value6 (s6_addr a) - value6 (s6_addr a) mod 2 ^ (128 - p) + 2 ^ (128 - p) - 1.
Proof.
  intros P L. set (k := Z.to_nat (p / 8)). set (r := p mod 8).
  assert (K : (k < 16)%nat) by (unfold k; assert (p / 8 < 16) by (apply Z.div_lt_upper_bound; lia); pose proof (Z.div_pos p 8); lia).
  assert (R : 0 <= r < 8) by (apply Z.mod_pos_bound; lia). assert (E : p = 8 * Z.of_nat k + r) by (unfold k, r; rewrite Z2Nat.id by (apply Z.div_pos; lia); apply Z.div_mod; lia).
  destruct (split_at _ k K L) as (x & b & y & El & Lx & Ly & _). unfold IPv6_broadcastAddress. rewrite (proj2 (Z.leb_le p 128)) by lia. cbn [negb].
  fold r. rewrite CreateMask_1 by done. cbn [rbind]. rewrite El, update_byte_ok by done. cbn [rbind]. eexists. split; [done|].
  replace (Z.to_nat (p / 8 + 1)) with (S k) by (unfold k; pose proof (Z.div_pos p 8 ltac:(lia) ltac:(lia)); lia).
  rewrite (cons_middle _ x y), app_assoc, take_app_length' by (rewrite length_app; cbn; lia). split; [rewrite !length_app, length_replicate; cbn; lia|].
  pose proof (b2z_range b) as B. pose proof (octet_mask (b2z b) (8 - r) ltac:(lia) B) as O. pose proof (value6_range y) as Y.
  rewrite (cons_middle b x y), (app_assoc x [b] y), !value6_app, value6_ff. unfold len in *. rewrite ?length_replicate, ?Ly in *. cbn [length].
  replace (value6 [z2b (Z.lor (b2z b) (2 ^ (8 - r) - 1))]) with (Z.lor (b2z b) (2 ^ (8 - r) - 1)) by (cbn; rewrite b2z_z2b_small by done; lia).
  replace (value6 [b]) with (b2z b) by (cbn; lia). replace (16 - S k)%nat with (15 - k)%nat by lia.
  set (m := 8 * Z.of_nat (15 - k)). replace (256 ^ Z.of_nat (15 - k)) with (2 ^ m) in * by (unfold m; by rewrite Z.pow_mul_r by lia).
  replace (256 ^ Z.of_nat 1) with (2 ^ 8) by done. replace (128 - p) with (m + (8 - r)) by lia.
  assert (Ep : 2 ^ (m + 8) = 2 ^ 8 * 2 ^ m) by (rewrite Z.pow_add_r by lia; ring).
  replace ((value6 x * 2 ^ 8 + b2z b) * 2 ^ m + value6 y) with (value6 x * 2 ^ (m + 8) + (b2z b * 2 ^ m + value6 y)) by (rewrite Ep; ring).
  rewrite block_parts by lia. rewrite Ep. ring.
Qed.

(** The network address of IPv6 keeps the wrong bits: of the byte where the prefix ends it
    keeps those of the host, and the bytes after it stay. A prefix of whole bytes changes
    nothing at all. *)
Lemma IPv6_network_byte a p : 0 <= p < 128 -> length (s6_addr a) = 16%nat ->
  exists b, s6_addr a !! Z.to_nat (p / 8) = Some b
    /\ IPv6_networkAddress a p = Ok (with_addr6 a (<[Z.to_nat (p / 8) := z2b (b2z b mod 2 ^ (8 - p mod 8))]> (s6_addr a))).
Proof.
  intros P L. assert (K : (Z.to_nat (p / 8) < 16)%nat) by (assert (p / 8 < 16) by (apply Z.div_lt_upper_bound; lia); pose proof (Z.div_pos p 8); lia).
  destruct (split_at _ _ K L) as (x & b & y & El & Lx & _ & B). exists b. split; [done|]. unfold IPv6_networkAddress. rewrite (proj2 (Z.leb_le p 128)) by lia.
  pose proof (Z.mod_pos_bound p 8 ltac:(lia)). cbn [negb]. rewrite CreateMask_1 by done. cbn [rbind]. unfold update_byte. rewrite B. cbn [rbind].
  do 4 f_equal. rewrite Z.sub_1_r, <- Z.ones_equiv. apply Z.land_ones. lia.
Qed.

Lemma IPv6_network_octets a p : 0 <= p < 128 -> p mod 8 = 0 -> length (s6_addr a) = 16%nat -> IPv6_networkAddress a p = Ok a.
Proof.
  intros P M L. destruct (IPv6_network_byte a p P L) as (b & B & ->). rewrite M. change (2 ^ (8 - 0)) with 256.
  rewrite Z.mod_small by apply b2z_range. rewrite z2b_b2z, list_insert_id by done. by destruct a.
Qed.

(** No prefix has a subnet mask: below 128 the assertion fails, from 128 on the byte of the
    prefix is past the end. The broadcast and the network address of all 128 bits are too. *)
Lemma IPv6_subnetMask_never p : 0 <= p -> exists u, IPv6_subnetMask p = Crash u.
Proof.
  intros P. unfold IPv6_subnetMask. destruct (Z.leb_spec 128 p) as [G|]; [|by eexists]. cbn [negb].
  pose proof (Z.mod_pos_bound p 8 ltac:(lia)). rewrite CreateMask_1 by done. cbn [rbind]. unfold update_byte.
  assert (16 <= p / 8) by (apply Z.div_le_lower_bound; lia). rewrite (lookup_ge_None_2 (zeros 16)); [by eexists|cbn; lia].
Qed.

Lemma IPv6_whole_prefix a : length (s6_addr a) = 16%nat ->
  IPv6_broadcastAddress a 128 = Crash out_of_bounds /\ IPv6_networkAddress a 128 = Crash out_of_bounds.
Proof.
  intros L. assert (N : s6_addr a !! Z.to_nat (128 / 8) = None) by (apply lookup_ge_None_2; by rewrite L).
  unfold IPv6_broadcastAddress, IPv6_networkAddress, update_byte. by rewrite N.
Qed.

(** ** The order of addresses *)

Section order.
Context `{Host}.

(** The bytes that an address is compared by. *)
Definition key (a : Address) : list byte := take (Z.to_nat (getAddrLen a)) (getAddr a).

(** An address whose length stays within its structure. *)
Definition wf_address (a : Address) : Prop := 0 <= getAddrLen a <= len (getAddr a).

Lemma length_key a : wf_address a -> len (key a) = getAddrLen a.
Proof. unfold wf_address, key, len. rewrite length_take. lia. Qed.

Lemma compare_prefix a b n : (n <= length a)%nat -> (n <= length b)%nat ->
  key_compare a b = match key_compare (take n a) (take n b) with Eq => key_compare (drop n a) (drop n b) | c => c end.
Proof.
  revert a b. induction n as [|n IH]; intros [|x a] [|y b] La Lb; cbn in *; try lia; try done; destruct (b2z x ?= b2z y); try done; apply IH; lia.
Qed.

Lemma less_key a b : wf_address a -> wf_address b -> less a b = Ok match key_compare (key a) (key b) with Lt => true | _ => false end.
Proof.
  intros Wa Wb. pose proof (length_key a Wa) as La. pose proof (length_key b Wb) as Lb. unfold wf_address in *.
  unfold less, memcmp. rewrite !(proj2 (Z.leb_le _ _)) by lia. cbn [andb rbind]. f_equal. set (n := Z.to_nat (Z.min (getAddrLen a) (getAddrLen b))).
  assert (Ta : take n (key a) = take n (getAddr a)) by (unfold key; rewrite take_take; f_equal; lia).
  assert (Tb : take n (key b) = take n (getAddr b)) by (unfold key; rewrite take_take; f_equal; lia).
  unfold len in La, Lb. rewrite (compare_prefix (key a) (key b) n) by lia. rewrite Ta, Tb. destruct (key_compare (take n (getAddr a)) _); try done.
  destruct (Z.ltb_spec (getAddrLen a) (getAddrLen b)).
  - rewrite (drop_ge (key a)) by lia. pose proof (length_drop (key b) n) as D. destruct (drop n (key b)); [cbn in D; lia|done].
  - rewrite (drop_ge (key b)) by lia. by destruct (drop n (key a)).
Qed.

Lemma equal_key a b : wf_address a -> wf_address b -> equal a b = Ok (bool_decide (key a = key b)).
Proof.
  intros Wa Wb. pose proof (length_key a Wa) as La. pose proof (length_key b Wb) as Lb. unfold wf_address in *.
  unfold equal. destruct (Z.eqb_spec (getAddrLen a) (getAddrLen b)) as [E|N].
  - unfold memcmp. rewrite !(proj2 (Z.leb_le _ _)) by lia. cbn [andb rbind]. f_equal. rewrite E at 2. fold (key a) (key b).
    destruct (key_compare (key a) (key b)) eqn:C; symmetry; [apply bool_decide_true; by apply key_compare_eq|apply bool_decide_false..];
      intros Ek; by rewrite Ek, key_compare_refl in C.
  - f_equal. symmetry. apply bool_decide_false. intros Ek. apply N. by rewrite <- La, <- Lb, Ek.
Qed.

(** The comparisons are those of the bytes of the addresses as strings, so they are a strict
    total order, with [==] as its equality. *)
Theorem Address_order a b : wf_address a -> wf_address b ->
  less a b = Ok match key_compare (key a) (key b) with Lt => true | _ => false end /\ equal a b = Ok (bool_decide (key a = key b)).
Proof. intros Wa Wb. split; [by apply less_key|by apply equal_key]. Qed.

(** A strict total order on the bytes. *)
Lemma less_trans a b c : wf_address a -> wf_address b -> wf_address c -> less a b = Ok true -> less b c = Ok true -> less a c = Ok true.
Proof.
  intros Wa Wb Wc. rewrite !less_key by done. intros [= L1] [= L2]. do 2 f_equal. destruct (key_compare (key a) (key b)) eqn:E1; try done.
  destruct (key_compare (key b) (key c)) eqn:E2; try done. by rewrite (key_compare_trans _ _ _ E1 E2).
Qed.

Lemma less_total a b : wf_address a -> wf_address b -> equal a b = Ok false -> exists x, less a b = Ok x /\ less b a = Ok (negb x).
Proof.
  intros Wa Wb. rewrite equal_key by done. intros [= E%bool_decide_eq_false]. rewrite !less_key by done. rewrite (key_compare_antisym (key a) (key b)).
  destruct (key_compare (key a) (key b)) eqn:C; cbn; [by apply key_compare_eq in C|eauto..].
Qed.
End order.

(** ** The text of IPv6

    The reading of RFC 4291: groups of hexadecimal digits between colons, and one pair of
    colons that stands for the groups that are missing. *)
Definition finish (acc : list Z) (gap : option nat) : option (list Z) :=
  if negb (forallb (fun g => g <? 2 ^ 16) acc) then None
  else
    match gap with
    | None => if (length acc =? 8)%nat then Some acc else None
    | Some k => if (length acc <=? 7)%nat then Some (take k acc ++ replicate (8 - length acc) 0 ++ drop k acc) else None
    end.

Fixpoint read_loop (s : list byte) (cur : option Z) (acc : list Z) (gap : option nat) : option (list Z) :=
  match s with
  | [] => match cur with Some v => finish (acc ++ [v]) gap | None => if bool_decide (gap = Some (length acc)) then finish acc gap else None end
  | c :: s =>
      if is_char colon_char c then
        match cur with
        | Some v => read_loop s None (acc ++ [v]) gap
        | None => match gap with None => read_loop s None acc (Some (length acc)) | Some _ => None end
        end
      else match hex_digit c with Some d => read_loop s (Some (16 * default 0 cur + d)) acc gap | None => None end
  end.

Definition read_groups (s : list byte) : option (list Z) :=
  match s with
  | c :: d :: s' => if is_char colon_char c then if is_char colon_char d then read_loop s' None [] (Some 0%nat) else None else read_loop s None [] None
  | c :: [] => if is_char colon_char c then None else read_loop s None [] None
  | [] => None
  end.

Lemma colon_is : is_char colon_char colon_char = true.
Proof. done. Qed.

Lemma digit_not_colon c : is_Some (hex_digit c) -> is_char colon_char c = false.
Proof. intros D. apply bool_decide_eq_false. intros ->. by destruct D. Qed.

Lemma read_digits ds s cur acc gap : Forall (fun c => is_Some (hex_digit c)) ds ->
  read_loop (ds ++ s) cur acc gap = read_loop s (match ds with [] => cur | _ => Some (fold_left (fun n c => 16 * n + default 0 (hex_digit c)) ds (default 0 cur)) end) acc gap.
Proof.
  intros F. revert cur. induction F as [|c ds D _ IH]; intros cur; [done|]. cbn [app read_loop fold_left]. rewrite digit_not_colon by done.
  destruct D as [d ->]. rewrite IH. by destruct ds.
Qed.

Lemma read_hex g s acc gap : 0 <= g < 2 ^ 16 -> read_loop (hex g ++ s) None acc gap = read_loop s (Some g) acc gap.
Proof.
  intros G. rewrite read_digits by (apply hex_is_digits; lia). pose proof (hex_nonempty g). pose proof (hex_value g ltac:(lia)) as V.
  destruct (hex g); [done|]. cbn [default]. by rewrite V.
Qed.

Definition colon_hex (g : Z) : list byte := bstr ":" ++ hex g.

Lemma read_rest gs v acc gap s : Forall (fun g => 0 <= g < 2 ^ 16) gs ->
  read_loop (concat (map colon_hex gs) ++ colon_char :: s) (Some v) acc gap = read_loop s None (acc ++ v :: gs) gap.
Proof.
  intros F. revert v acc. induction F as [|g gs G _ IH]; intros v acc; [done|]. cbn [map concat]. unfold colon_hex at 1. rewrite <- !app_assoc.
  change (bstr ":" ++ ?x) with (colon_char :: x). cbn [read_loop]. rewrite colon_is, read_hex, IH by done. by rewrite <- app_assoc.
Qed.

Lemma read_end gs v acc gap : Forall (fun g => 0 <= g < 2 ^ 16) gs ->
  read_loop (concat (map colon_hex gs)) (Some v) acc gap = finish (acc ++ v :: gs) gap.
Proof.
  intros F. revert v acc. induction F as [|g gs G _ IH]; intros v acc; [done|]. cbn [map concat]. unfold colon_hex at 1. rewrite <- !app_assoc.
  change (bstr ":" ++ ?x) with (colon_char :: x). cbn [read_loop]. rewrite colon_is, read_hex, IH by done. by rewrite <- app_assoc.
Qed.

Section text6.
Context `{Host}.

#[local] Abbreviation wire := (map (ntoh 2)).
#[local] Abbreviation colons ms := (concat (map colon_hex (wire ms))).

Lemma insert_used i prev ms : (0 < i)%nat -> insert_loop i prev true ms = colons ms.
Proof.
  revert i prev. induction ms as [|m ms IH]; intros i prev I; [done|]. cbn [insert_loop]. rewrite andb_false_r. cbn [negb andb orb].
  rewrite andb_false_r, (proj2 (Nat.ltb_lt 0 i)) by done. cbn [app orb]. by rewrite IH by lia.
Qed.

Lemma insert_zeros i prev n r : insert_loop i prev false (replicate (S n) 0 ++ r) = insert_loop (i + S n) 0 false r.
Proof.
  revert i prev. induction n as [|n IH]; intros i prev.
  - cbn. by rewrite Nat.add_1_r.
  - change (replicate (S (S n)) 0) with (0 :: replicate (S n) 0). cbn [app insert_loop]. rewrite Z.eqb_refl. cbn [negb andb]. rewrite IH. f_equal. lia.
Qed.

Lemma insert_nonzeros i prev xs r : (0 < i)%nat -> prev <> 0 -> Forall (fun m => m <> 0) xs ->
  exists prev', prev' <> 0 /\ insert_loop i prev false (xs ++ r) = colons xs ++ insert_loop (i + length xs) prev' false r.
Proof.
  intros I P F. revert i prev I P. induction F as [|x xs X _ IH]; intros i prev I P.
  - exists prev. split; [done|]. cbn. by rewrite Nat.add_0_r.
  - destruct (IH (S i) x ltac:(lia) X) as (p & Np & E). exists p. split; [done|]. cbn [app insert_loop]. rewrite (proj2 (Z.eqb_neq x 0)), (proj2 (Z.eqb_neq prev 0)) by done.
    cbn [andb]. rewrite andb_false_r, (proj2 (Nat.ltb_lt 0 i)) by done. cbn [andb orb app length]. rewrite E. cbn [map concat]. unfold colon_hex at 2. rewrite <- !app_assoc. do 4 f_equal. lia.
Qed.

(** After a run of zeros. *)
Lemma insert_after_zeros i prev n y ys : y <> 0 ->
  insert_loop i prev false (replicate (S n) 0 ++ y :: ys) = bstr "::" ++ hex (ntoh 2 y) ++ colons ys.
Proof.
  intros Y. rewrite insert_zeros. cbn [insert_loop]. rewrite (proj2 (Z.eqb_neq y 0)) by done. cbn [andb negb]. rewrite (proj2 (Nat.ltb_lt 0 (i + S n))) by lia.
  cbn [andb orb Z.eqb]. by rewrite insert_used by lia.
Qed.

Lemma insert_only_zeros i prev n : insert_loop i prev false (replicate (S n) 0) = bstr ":".
Proof. rewrite <- (app_nil_r (replicate _ _)), insert_zeros. done. Qed.

(** The first group, then the others after a colon each. *)
Lemma insert_front x xs r : x <> 0 -> Forall (fun m => m <> 0) xs ->
  exists prev, prev <> 0 /\ insert_loop 0 0 false ((x :: xs) ++ r) = hex (ntoh 2 x) ++ colons xs ++ insert_loop (1 + length xs) prev false r.
Proof.
  intros X F. destruct (insert_nonzeros 1 x xs r ltac:(lia) X F) as (p & Np & E). exists p. split; [done|]. cbn [app insert_loop].
  rewrite (proj2 (Z.eqb_neq x 0)) by done. cbn [andb orb negb Nat.ltb Nat.leb app]. by rewrite E.
Qed.

(** A list has no zero, or a first run of them. *)
Lemma first_zeros (ms : list Z) : Forall (fun m => m <> 0) ms
  \/ exists xs n r, ms = xs ++ replicate (S n) 0 ++ r /\ Forall (fun m => m <> 0) xs /\ (r = [] \/ exists y ys, r = y :: ys /\ y <> 0).
Proof.
  induction ms as [|m ms IH]; [by left|]. destruct (Z.eq_dec m 0) as [->|M].
  - right. destruct IH as [F|(xs & n & r & -> & F & R)].
    + exists [], 0%nat, ms. split_and!; [done|constructor|]. destruct F as [|y ys Y _]; [by left|right; eauto].
    + destruct xs as [|x xs]; [exists [], (S n), r; split_and!; try done; constructor|].
      exists [], 0%nat, ((x :: xs) ++ replicate (S n) 0 ++ r). split_and!; [done|constructor|]. inversion F; subst. right. eauto.
  - destruct IH as [F|(xs & n & r & -> & F & R)]; [left; by constructor|]. right. exists (m :: xs), n, r. split_and!; [done|by constructor|done].
Qed.

(** Whether the groups end in zeros and have no other zero. *)
Fixpoint zeros_last (gs : list Z) : bool :=
  match gs with [] => false | g :: gs => if g =? 0 then forallb (fun g => g =? 0) gs else zeros_last gs end.

Lemma zeros_last_app xs gs : Forall (fun g => g <> 0) xs -> zeros_last (xs ++ gs) = zeros_last gs.
Proof. induction 1 as [|x xs X _ IH]; cbn; [done|]. by rewrite (proj2 (Z.eqb_neq x 0)). Qed.

Lemma zeros_last_none xs : Forall (fun g => g <> 0) xs -> zeros_last xs = false.
Proof. intros F. rewrite <- (app_nil_r xs), zeros_last_app by done. done. Qed.

Lemma read_front g s : 0 <= g < 2 ^ 16 -> read_groups (hex g ++ s) = read_loop s (Some g) [] None.
Proof.
  intros G. rewrite <- read_hex by done. pose proof (hex_is_digits g ltac:(lia)) as F. destruct (hex g) as [|c ds] eqn:E; [by apply hex_nonempty in E|].
  inversion F as [|? ? D F']; subst. cbn [app read_groups]. rewrite digit_not_colon by done. by destruct (ds ++ s).
Qed.

Lemma finish_ok acc gap : Forall (fun g => 0 <= g < 2 ^ 16) acc -> finish acc gap =
  match gap with
  | None => if (length acc =? 8)%nat then Some acc else None
  | Some k => if (length acc <=? 7)%nat then Some (take k acc ++ replicate (8 - length acc) 0 ++ drop k acc) else None
  end.
Proof.
  intros F. unfold finish. assert (forallb (fun g => g <? 2 ^ 16) acc = true) as ->; [|done].
  apply forallb_forall. intros g G. apply Z.ltb_lt. rewrite List.Forall_forall in F. by apply F.
Qed.

Lemma wire_zeros n : wire (replicate n 0) = replicate n 0.
Proof. induction n as [|n IH]; [done|]. cbn [replicate map]. rewrite IH. f_equal. unfold ntoh. by destruct CIM_BYTE_ORDER. Qed.

Lemma wire_range ms : Forall (fun m => 0 <= m < 2 ^ 16) ms -> Forall (fun g => 0 <= g < 2 ^ 16) (wire ms).
Proof. intros F. apply List.Forall_map. eapply List.Forall_impl; [|done]. intros m. apply (ntoh_range 2). Qed.

Lemma ntoh_nonzero m : 0 <= m < 2 ^ 16 -> m <> 0 -> ntoh 2 m <> 0.
Proof. intros R N E. apply N. rewrite <- (ntoh_hton 2 m), <- (hton_ntoh 2 m), E by done. unfold ntoh, hton. by destruct CIM_BYTE_ORDER. Qed.

Lemma wire_nonzero ms : Forall (fun m => 0 <= m < 2 ^ 16) ms -> Forall (fun m => m <> 0) ms -> Forall (fun g => g <> 0) (wire ms).
Proof. induction 1 as [|m ms R _ IH]; intros N; [constructor|]. inversion N; subst. constructor; [by apply ntoh_nonzero|by apply IH]. Qed.

(** What is left to read after the groups in front of the run and the run itself. *)
Lemma read_run gx n y ys : Forall (fun g => 0 <= g < 2 ^ 16) (gx ++ y :: ys) -> (length gx + S n + S (length ys) = 8)%nat ->
  read_loop (hex y ++ concat (map colon_hex ys)) None gx (Some (length gx)) = Some (gx ++ replicate (S n) 0 ++ y :: ys).
Proof.
  intros F L. apply list.Forall_app in F as [Fx Fr]. inversion Fr as [|? ? Fy Fys]; subst. rewrite read_hex, read_end, finish_ok by (try done; by apply list.Forall_app).
  rewrite length_app. cbn [length]. rewrite (proj2 (Nat.leb_le _ _)) by lia. rewrite take_app_length, drop_app_length. repeat f_equal. lia.
Qed.

Lemma text_read ms : length ms = 8%nat -> Forall (fun m => 0 <= m < 2 ^ 16) ms ->
  read_groups (insert_loop 0 0 false ms) = if zeros_last (wire ms) then None else Some (wire ms).
Proof.
  intros L R. destruct (first_zeros ms) as [N|(xs & n & r & -> & N & Y)].
  - rewrite zeros_last_none by by apply wire_nonzero. destruct ms as [|x xs]; [done|]. inversion N; inversion R; subst.
    destruct (insert_front x xs []) as (p & Np & E); [done..|]. rewrite app_nil_r in E. rewrite E. cbn [insert_loop negb andb]. rewrite (proj2 (Z.eqb_neq p 0)), app_nil_r by done.
    rewrite read_front, read_end, finish_ok by first [by apply wire_range|by apply (ntoh_range 2)|by apply (wire_range (x :: xs)); constructor]. cbn [app map length]. rewrite length_map, (proj2 (Nat.eqb_eq _ _)) by done. done.
  - apply list.Forall_app in R as [Rx R]. apply list.Forall_app in R as [_ Rr]. rewrite !map_app, wire_zeros, zeros_last_app by by apply wire_nonzero.
    rewrite !length_app, length_replicate in L. pose proof (wire_range xs Rx) as Wx. pose proof (wire_range r Rr) as Wr.
    assert (Zl : zeros_last (replicate (S n) 0 ++ wire r) = match r with [] => true | _ => false end).
    { cbn. destruct Y as [-> |(y & ys & -> & Ny)]; cbn.
      - rewrite app_nil_r. clear. by induction n.
      - inversion Rr; subst. rewrite forallb_app. cbn [map forallb]. rewrite (proj2 (Z.eqb_neq (ntoh 2 y) 0)) by by apply ntoh_nonzero.
        by rewrite andb_false_r. }
    rewrite Zl. clear Zl. destruct xs as [|x xs].
    + cbn [app map]. destruct Y as [-> |(y & ys & -> & Ny)].
      * rewrite app_nil_r, insert_only_zeros. done.
      * rewrite insert_after_zeros by done. inversion Wr; subst. change (bstr "::" ++ ?t) with (colon_char :: colon_char :: t).
        cbn [read_groups]. rewrite colon_is. apply (read_run [] n); [done|]. cbn in *. rewrite length_map. lia.
    + inversion N; inversion Wx; subst. destruct (insert_front x xs (replicate (S n) 0 ++ r)) as (p & Np & ->); [done..|]. rewrite read_front by done.
      destruct Y as [-> |(y & ys & -> & Ny)].
      * rewrite app_nil_r, insert_only_zeros. change (bstr ":") with (colon_char :: []). rewrite read_rest by done. done.
      * rewrite insert_after_zeros by done. change (bstr "::" ++ ?t) with (colon_char :: colon_char :: t). rewrite read_rest by done. cbn [read_loop app].
        rewrite colon_is. apply (read_run (wire (x :: xs)) n); [by apply list.Forall_app|]. cbn in *. rewrite !length_map. lia.
Qed.

(** The groups of an address, whatever the order of the host. *)
Definition group_values (l : list byte) : list Z := map (fun i => of_wire CIM_BIG_ENDIAN (slice (2 * i) 2 l)) (seq 0 8).

Lemma wire_groups l : length l = 16%nat -> wire (groups l) = group_values l.
Proof.
  intros L. unfold groups, group_values. rewrite map_map. apply map_ext_in. intros i [_ I]%in_seq.
  pose proof (ntoh_of_mem (slice (2 * i) 2 l)) as E. by rewrite length_slice in E by lia.
Qed.

Lemma groups_range l : length l = 16%nat -> Forall (fun m => 0 <= m < 2 ^ 16) (groups l).
Proof.
  intros L. unfold groups. apply List.Forall_map, List.Forall_forall. intros i [_ I]%in_seq. pose proof (of_wire_range CIM_BYTE_ORDER (slice (2 * i) 2 l)) as R.
  unfold len in R. by rewrite length_slice in R by lia.
Qed.

(** C32: The text of an address is read back as its groups, with its port after it; an address
    whose only zeros are its last groups is printed with one colon for them, which is no
    address. *)
Theorem IPv6_text a : length (s6_addr a) = 16%nat ->
  exists t, IPv6_insert a = bstr "[" ++ t ++ bstr "]:" ++ dec (IPv6_getPort a)
    /\ read_groups t = if zeros_last (group_values (s6_addr a)) then None else Some (group_values (s6_addr a)).
Proof.
  intros L. eexists. split; [done|]. rewrite <- wire_groups by done. apply text_read; [|by apply groups_range]. unfold groups. by rewrite length_map.
Qed.
End text6.

(** ** Texts of IPv4 *)

Section text4.
Context `{Host}.

Definition dotted (n : Z) : list byte :=
  dec (n / 2 ^ 24) ++ bstr "." ++ dec (n / 2 ^ 16 mod 256) ++ bstr "." ++ dec (n / 2 ^ 8 mod 256) ++ bstr "." ++ dec (n mod 256).

Lemma insert_dotted a : 0 <= s_addr a < 2 ^ 32 -> IPv4_insert a = dotted (value a) ++ bstr ":" ++ dec (IPv4_getPort a).
Proof.
  intros R. unfold IPv4_insert, dotted. fold (value a). apply value_range in R. change 0xff with (Z.ones 8). rewrite !Z.land_ones, !Z.shiftr_div_pow2 by lia.
  rewrite (Z.mod_small (value a / 2 ^ 24)), Z.div_1_r; [|split; [apply Z.div_pos; lia|apply Z.div_lt_upper_bound; lia]]. by rewrite <- !app_assoc.
Qed.

(** Where [inet_pton] reads the dotted form, the address that is created prints it, with the
    port after it. *)
Lemma IPv4_text inet_pton n port : 0 <= n < 2 ^ 32 -> 0 <= port < 2 ^ 16 -> inet_pton (dotted n) = Some (wire_bytes CIM_BIG_ENDIAN 4 n) ->
  exists a, IPv4_Create inet_pton (dotted n) port = Some a /\ value a = n /\ IPv4_getPort a = port /\ IPv4_insert a = dotted n ++ bstr ":" ++ dec port.
Proof.
  intros N P I. unfold IPv4_Create. rewrite I. eexists. split; [done|].
  match goal with |- value ?x = n /\ _ => set (a := x) end.
  assert (V : value a = n).
  { unfold value. change (s_addr a) with (of_mem (wire_bytes CIM_BIG_ENDIAN 4 n)).
    pose proof (ntoh_of_mem (wire_bytes CIM_BIG_ENDIAN 4 n)) as E. rewrite length_wire_bytes in E. rewrite E, of_wire_wire_bytes. by apply Z.mod_small. }
  assert (Q : IPv4_getPort a = port) by (apply (ntoh_hton 2); done). split_and!; try done. rewrite insert_dotted, V, Q; [done|].
  pose proof (of_wire_range CIM_BYTE_ORDER (wire_bytes CIM_BIG_ENDIAN 4 n)) as R. unfold len in R. by rewrite length_wire_bytes in R.
Qed.

(** ** The structures *)

Lemma field_value n v : 0 <= v < 2 ^ (8 * Z.of_nat n) -> of_mem (to_mem n v) = v.
Proof. intros V. unfold of_mem, to_mem. rewrite of_wire_wire_bytes. by apply Z.mod_small. Qed.

Lemma slice_field {A} (x y z : list A) p n : length x = p -> length y = n -> slice p n (x ++ y ++ z) = y.
Proof. intros <- <-. unfold slice. by rewrite drop_app_length, take_app_length. Qed.

Lemma slice_first {A} (x z : list A) n : length x = n -> slice 0 n (x ++ z) = x.
Proof. intros E. by apply (slice_field [] x z). Qed.

Lemma length_to_mem n v : length (to_mem n v) = n.
Proof. apply length_wire_bytes. Qed.

#[local] Ltac fields := rewrite ?length_app, ?length_to_mem; done.

(** An address of IPv4 or IPv6 that is copied from its memory is the same one. *)
Lemma read_in_bytes a r : sin_family a = AF_INET -> 0 <= sin_port a < 2 ^ 16 -> 0 <= s_addr a < 2 ^ 32 -> length (sin_zero a) = 8%nat ->
  read_in (in_bytes a ++ r) = a.
Proof.
  intros F P S L. destruct a as [f p s z]. cbn in *. subst f. unfold in_bytes, read_in. cbn [sin_family sin_port s_addr sin_zero]. rewrite <- !app_assoc.
  rewrite (slice_first (to_mem 2 AF_INET)), (field_value 2) by (done || fields).
  rewrite (slice_field (to_mem 2 AF_INET) (to_mem 2 p)), field_value by (done || fields).
  rewrite (app_assoc (to_mem 2 AF_INET)), (slice_field (_ ++ _) (to_mem 4 s)), field_value by (done || fields).
  by rewrite (app_assoc (to_mem 2 AF_INET ++ _)), (slice_field (_ ++ _) z) by (done || fields).
Qed.

Lemma read_in6_bytes a r : sin6_family a = AF_INET6 -> 0 <= sin6_port a < 2 ^ 16 -> 0 <= sin6_flowinfo a < 2 ^ 32 -> 0 <= sin6_scope_id a < 2 ^ 32 ->
  length (s6_addr a) = 16%nat -> read_in6 (in6_bytes a ++ r) = a.
Proof.
  intros F P W S L. destruct a as [f p w l s]. cbn in *. subst f. unfold in6_bytes, read_in6. cbn [sin6_family sin6_port sin6_flowinfo s6_addr sin6_scope_id]. rewrite <- !app_assoc.
  rewrite (slice_first (to_mem 2 AF_INET6)), (field_value 2) by (done || fields).
  rewrite (slice_field (to_mem 2 AF_INET6) (to_mem 2 p)), field_value by (done || fields).
  rewrite (app_assoc (to_mem 2 AF_INET6)), (slice_field (_ ++ _) (to_mem 4 w)), field_value by (done || fields).
  rewrite (app_assoc (to_mem 2 AF_INET6 ++ _)), (slice_field (_ ++ _) l) by (done || fields).
  rewrite (app_assoc ((to_mem 2 AF_INET6 ++ _) ++ _)), (slice_field (_ ++ _) (to_mem 4 s)), field_value by (done || (rewrite ?length_app, ?length_to_mem, ?L; done)). done.
Qed.

Definition wf_ip (a : Address) : Prop :=
  match a with
  | IPv4Address m => sin_family m = AF_INET /\ 0 <= sin_port m < 2 ^ 16 /\ 0 <= s_addr m < 2 ^ 32 /\ length (sin_zero m) = 8%nat
  | IPv6Address m => sin6_family m = AF_INET6 /\ 0 <= sin6_port m < 2 ^ 16 /\ 0 <= sin6_flowinfo m < 2 ^ 32 /\ 0 <= sin6_scope_id m < 2 ^ 32 /\ length (s6_addr m) = 16%nat
  | _ => False
  end.

Lemma Create_ip a r n : wf_ip a -> 0 < n -> Create (Some (getAddr a ++ r)) n = Ok a.
Proof.
  intros W N. unfold Create. rewrite (proj2 (Z.ltb_lt 0 n)) by done. destruct a as [m|m|m l|m]; try done; cbn [negb getAddr].
  - destruct W as (F & P & S & L). assert (E : len (in_bytes m ++ r) = 16 + len r) by (unfold len, in_bytes; rewrite !length_app, !length_to_mem, L; lia).
    rewrite E, (proj2 (Z.ltb_ge _ _)), (proj2 (Z.leb_le 16 _)) by (unfold len; lia). rewrite read_in_bytes by done.
    unfold in_bytes. rewrite <- !app_assoc, F, slice_first, (field_value 2) by (done || fields). done.
  - destruct W as (F & P & S & Sc & L). assert (E : len (in6_bytes m ++ r) = 28 + len r) by (unfold len, in6_bytes; rewrite !length_app, !length_to_mem, L; lia).
    rewrite E, (proj2 (Z.ltb_ge _ _)), (proj2 (Z.leb_le 28 _)) by (unfold len; lia). rewrite read_in6_bytes by done.
    unfold in6_bytes. rewrite <- !app_assoc, F, slice_first, (field_value 2) by (done || fields). done.
Qed.

(** What [Create] copies from the memory of an address is that address. *)
Theorem Address_Create a r n : wf_ip a -> 0 < n -> Create (Some (getAddr a ++ r)) n = Ok a.
Proof. apply Create_ip. Qed.

(** ** Unix sockets *)

Lemma Unix_of_name path n : path <> [] -> len path < 2 ^ 32 - 1 -> n = len path + (if is_nul path then 0 else 1) -> n <= sun_path_size ->
  Unix_of path = Ok (UnixAddress (mk_sockaddr_un AF_UNIX (take (Z.to_nat n) (path ++ [x00]) ++ zeros (108 - Z.to_nat n))) (n + sun_path_offset)).
Proof.
  intros N L E F. unfold Unix_of. destruct path as [|c s] eqn:Ep; [done|]. cbn [is_empty]. rewrite <- Ep in *. rewrite u32_small by (unfold len in *; lia).
  assert (En : (if is_nul path then len path + 1 - 1 else len path + 1) = n) by (destruct (is_nul path); lia). rewrite En, (proj2 (Z.ltb_ge _ _)) by done.
  do 5 f_equal. rewrite length_take, length_app. cbn [length]. unfold len in E. destruct (is_nul path); lia.
Qed.

(** A path that fits is the path, and the text, of its address; one that does not throws. *)
Theorem Unix_path path : path <> [] -> no_nul path -> len path < 2 ^ 32 - 1 ->
  if len path <=? MAX_PATH_LEN
  then exists m n, Unix_of path = Ok (UnixAddress m n) /\ wf_address (UnixAddress m n) /\ Unix_getPath m n = Ok path /\ toString (UnixAddress m n) = Ok path
  else Unix_of path = Throw logic_error.
Proof.
  intros N F L. assert (Nn : is_nul path = false) by (destruct F as [|c s P F]; [done|]; cbn; lia). destruct (Z.leb_spec (len path) MAX_PATH_LEN) as [B|B].
  - pose proof (Unix_of_name path (len path + 1) N L) as E. rewrite Nn in E. specialize (E eq_refl). unfold MAX_PATH_LEN, sun_path_size, sun_path_offset in *.
    rewrite E by lia. eexists _, _. split; [done|]. replace (Z.to_nat (len path + 1)) with (length (path ++ [x00])) by (rewrite length_app; cbn; unfold len; lia).
    rewrite firstn_all. set (z := zeros _). rewrite <- app_assoc. cbn [app].
    assert (Nl : is_nul (path ++ x00 :: z) = false) by (by destruct path).
    assert (P : path_name (mk_sockaddr_un AF_UNIX (path ++ x00 :: z)) = Ok path).
    { unfold path_name. cbn [sun_path]. rewrite c_str_app by done. by rewrite existsb_app, orb_true_r. }
    unfold Unix_getPath, toString, Unix_insert. cbn [sun_path]. rewrite Nl, !andb_false_r, P. split_and!; try done.
    unfold wf_address. cbn [getAddr getAddrLen sun_path sun_family]. unfold len in *. rewrite !length_app, length_to_mem. unfold z, zeros. cbn [length].
    rewrite length_replicate, length_app. cbn. lia.
  - unfold Unix_of. destruct path as [|c s] eqn:Ep; [done|]. cbn [is_empty]. rewrite <- Ep in *. rewrite Nn, u32_small by (unfold len in *; lia).
    unfold MAX_PATH_LEN in B. by rewrite (proj2 (Z.ltb_lt _ _)) by lia.
Qed.

(** A name that begins with NUL has no NUL at its end, and is printed after a backslash and 0. *)
Lemma Unix_abstract name : len name <= MAX_PATH_LEN ->
  exists m n, Unix_of (x00 :: name) = Ok (UnixAddress m n) /\ n = 3 + len name /\ (name <> [] -> Unix_getPath m n = Ok (bstr "\0" ++ name)).
Proof.
  intros L. unfold MAX_PATH_LEN, sun_path_size in L. assert (Lc : len (x00 :: name) = len name + 1) by (unfold len; cbn; lia).
  rewrite (Unix_of_name _ (len name + 1)) by (try done; unfold sun_path_size; lia). eexists _, _. split; [done|]. unfold sun_path_offset. split; [lia|]. intros N.
  assert (0 < len name) by (destruct name; [done|]; unfold len; cbn; lia). unfold Unix_getPath, abstract_name, sun_path_offset. cbn [sun_path].
  rewrite take_app_length' by (cbn; unfold len; lia). rewrite (proj2 (Z.ltb_lt 2 _)) by lia. cbn [is_nul app]. cbn [andb]. replace (b2z x00 =? 0) with true by done.
  replace (len name + 1 + 2 - 2 - 1) with (len name) by lia. rewrite u64_small, (proj2 (Z.leb_gt _ _)), (proj2 (Z.ltb_ge _ _)) by lia.
  do 2 f_equal. unfold slice, len. cbn [app drop]. by rewrite drop_0, Nat2Z.id, take_app_length.
Qed.

(** What the kernel says of a socket without a name has length 2: the text throws, though the
    path does not. *)
Lemma Unix_unnamed m : sun_path m = zeros 108 -> Unix_getPath m 2 = Ok [] /\ toString (UnixAddress m 2) = Throw length_error.
Proof. intros E. unfold toString, Unix_getPath, Unix_insert, abstract_name, path_name. rewrite E. done. Qed.

(** ** Hosts *)

Lemma find_char_app c s t : Forall (fun b => b <> c) s -> find_char c (s ++ c :: t) = Some (length s).
Proof.
  induction 1 as [|b s B _ IH]; cbn; [unfold is_char; by rewrite bool_decide_true|]. unfold is_char at 1. rewrite bool_decide_false by done. fold (find_char c (s ++ c :: t)). by rewrite IH.
Qed.

Lemma find_char_none c s : Forall (fun b => b <> c) s -> find_char c s = None.
Proof. intros F. apply find_if_none. eapply List.Forall_impl; [|done]. intros b B. by apply bool_decide_eq_false. Qed.

Definition plain_host (s : list byte) : Prop := no_nul s /\ Forall (fun b => b <> colon_char) s /\ Forall (fun b => b <> x5d) s.

Lemma bracketed_plain s : Forall (fun b => b <> x5d) s -> bracketed s = ([], None).
Proof. destruct 1 as [|c s C F]; [done|]. cbn. rewrite find_char_none by done. by destruct (negb _). Qed.

(** A name alone is the node; a name and a service are parted at their colon. *)
Lemma node_of_plain name : name <> [] -> plain_host name -> node_of name = (name, None).
Proof.
  intros N (Z & C & B). unfold node_of. rewrite bracketed_plain by done. cbn [is_empty]. rewrite find_char_none by done. cbn. by rewrite c_str_id.
Qed.

Lemma node_of_service name port : name <> [] -> plain_host name -> plain_host port -> node_of (name ++ colon_char :: port) = (name, Some port).
Proof.
  intros N (Z & C & B) (Zp & Cp & Bp). unfold node_of. rewrite bracketed_plain by (apply list.Forall_app; split; [done|]; constructor; done). cbn [is_empty].
  rewrite find_char_app by done. rewrite cons_middle, app_assoc, (drop_app_length' (name ++ [colon_char])) by (rewrite length_app; cbn; lia).
  rewrite find_char_none by done. rewrite <- app_assoc, take_app_length. destruct name as [|c s] eqn:E; [done|]. cbn [is_empty]. rewrite <- E in *. cbn [fmap option_fmap option_map].
  by rewrite !c_str_id.
Qed.

(** With two colons the whole is the node, and the service is what begins at the first: an
    address of IPv6, in brackets or not, is looked up with a service that is none. *)
Lemma node_of_colons a b c : Forall (fun b => b <> x5d) (a ++ b ++ c) -> Forall (fun b => b <> colon_char) a -> Forall (fun b => b <> colon_char) b ->
  no_nul (a ++ b ++ c) ->
  node_of (a ++ colon_char :: b ++ colon_char :: c) = (a ++ colon_char :: b ++ colon_char :: c, Some (colon_char :: b ++ colon_char :: c)).
Proof.
  intros B Ca Cb Z. apply list.Forall_app in B as [Ba B]. apply list.Forall_app in B as [Bb Bc]. apply list.Forall_app in Z as [Za Z]. apply list.Forall_app in Z as [Zb Zc].
  assert (Zs : no_nul (colon_char :: b ++ colon_char :: c)) by (constructor; [done|]; apply list.Forall_app; split; [done|]; by constructor).
  unfold node_of. rewrite bracketed_plain by (apply list.Forall_app; split; [done|]; constructor; [done|]; apply list.Forall_app; split; [done|]; by constructor).
  cbn [is_empty]. rewrite find_char_app by done. rewrite (cons_middle colon_char a), (app_assoc a [colon_char]), (drop_app_length' (a ++ [colon_char])) by (rewrite length_app; cbn; lia).
  rewrite find_char_app by done. rewrite <- app_assoc. cbn [app]. rewrite drop_app_length. cbn [is_empty fmap option_fmap option_map].
  rewrite !c_str_id; [done|done|]. by apply list.Forall_app.
Qed.

(** ** Interfaces *)

#[local] Abbreviation entry := (list byte * (Address * Z))%type.

(** The keys of a multimap do not decrease. *)
Fixpoint ordered (m : list entry) : Prop :=
  match m with [] => True | e :: m => Forall (fun f => key_compare e.1 f.1 <> Gt) m /\ ordered m end.

Lemma insert_keys k (v : Address * Z) m (e : entry) : e ∈ multimap_insert k v m <-> e = (k, v) \/ e ∈ m.
Proof.
  induction m as [|[k' v'] m IH]; cbn [multimap_insert]; [by rewrite elem_of_cons|].
  destruct (key_compare k k'); rewrite !elem_of_cons; [rewrite IH; tauto|tauto|rewrite IH; tauto].
Qed.

Lemma key_compare_le_trans a b c : key_compare a b = Lt -> key_compare b c <> Gt -> key_compare a c = Lt.
Proof.
  intros L G. destruct (key_compare b c) eqn:E; [apply key_compare_eq in E; by subst| |done]. by eapply key_compare_trans.
Qed.

Lemma ordered_insert k (v : Address * Z) (m : list entry) : ordered m -> ordered (multimap_insert k v m).
Proof.
  induction m as [|[k' v'] m IH]; cbn [multimap_insert ordered]; [intros _; split; [constructor|done]|]. intros [F O].
  assert (K : key_compare k k' <> Lt -> ordered ((k', v') :: multimap_insert k v m)).
  { intros N. cbn [ordered]. split; [|by apply IH]. apply list.Forall_forall. intros e [-> |E]%insert_keys; [|rewrite list.Forall_forall in F; by apply F].
    cbn [fst]. rewrite (key_compare_antisym k k'). by destruct (key_compare k k'). }
  destruct (key_compare k k') eqn:C; [by apply K|cbn [ordered fst]|by apply K]. split; [|done].
  apply list.Forall_cons. cbn. split; [by rewrite C|]. apply list.Forall_forall. intros e E. rewrite list.Forall_forall in F. by rewrite (key_compare_le_trans k k' e.1 C (F e E)).
Qed.

(** What is inserted comes after what has its key, and moves nothing. *)
Lemma filter_insert k (v : Address * Z) (m : list entry) name : ordered m ->
  filter (fun e : entry => e.1 = name) (multimap_insert k v m) = filter (fun e : entry => e.1 = name) m ++ (if bool_decide (k = name) then [(k, v)] else []).
Proof.
  induction m as [|[k' v'] m IH]; cbn [multimap_insert ordered]; [intros _; rewrite filter_cons; cbn; repeat case_decide; case_bool_decide; done|]. intros [F O]. specialize (IH O).
  assert (K : filter (fun e : entry => e.1 = name) ((k', v') :: multimap_insert k v m) = filter (fun e : entry => e.1 = name) ((k', v') :: m) ++ (if bool_decide (k = name) then [(k, v)] else []))
    by (rewrite !filter_cons, IH; by destruct (decide ((k', v').1 = name))).
  destruct (key_compare k k') eqn:C; [exact K| |exact K]. case_bool_decide as N; [subst name|by rewrite app_nil_r, filter_cons_False].
  rewrite filter_cons_True by done. assert (filter (fun e : entry => e.1 = k) ((k', v') :: m) = []) as ->; [|done].
  assert (A : forall e : entry, e ∈ (k', v') :: m -> e.1 <> k).
  { intros e [-> |E]%elem_of_cons Ek; [cbn in Ek; subst; by rewrite key_compare_refl in C|]. rewrite list.Forall_forall in F.
    pose proof (key_compare_le_trans k k' e.1 C (F e E)) as L. by rewrite Ek, key_compare_refl in L. }
  revert A. generalize ((k', v') :: m). intros l A. induction l as [|e l IHl]; [done|]. rewrite filter_cons_False by (apply A; left). apply IHl. intros f Hf. apply A. by right.
Qed.

(** What an interface contributes. *)
Definition asked (family : Z) (i : ifaddrs) : bool :=
  (family =? AF_UNSPEC) || match ifa_addr i with Some m => family =? of_mem (slice 0 2 m) | None => false end.

Definition found_of (family : Z) (i : ifaddrs) : option (Address * Z) :=
  if asked family i then match interface_of i with Ok o => o | _ => None end else None.

Definition readable (family : Z) (i : ifaddrs) : Prop := is_Some (ifa_addr i) /\ (asked family i = true -> exists o, interface_of i = Ok o).

Lemma interfaces_loop_filter family l r : Forall (readable family) l -> ordered r ->
  exists r', interfaces_loop family l r = Ok r' /\ forall name, map snd (filter (fun e : entry => e.1 = name) r')
    = map snd (filter (fun e : entry => e.1 = name) r) ++ omap (fun i => if bool_decide (ifa_name i = name) then found_of family i else None) l.
Proof.
  intros F. revert r. induction F as [|i l [[m A] U] _ IH]; intros r O; cbn [interfaces_loop omap list_omap]; [exists r; split; [done|]; intros; by rewrite app_nil_r|].
  rewrite A. cbn [deref rbind]. unfold found_of, asked in *. rewrite A in *.
  destruct (Z.eqb_spec family AF_UNSPEC) as [E|N], (Z.eqb_spec family (of_mem (slice 0 2 m))) as [E'|N']; cbn [negb andb orb] in *;
    try (destruct (IH r O) as (r' & E2 & P); exists r'; split; [done|]; intros name; rewrite P; by case_bool_decide);
    destruct (U eq_refl) as [o Eo]; rewrite Eo; cbn [rbind]; (destruct o as [v|];
      [destruct (IH (multimap_insert (ifa_name i) v r) (ordered_insert _ _ _ O)) as (r' & E2 & P); exists r'; split; [done|]; intros name; rewrite P, filter_insert, map_app, <- app_assoc by done;
        f_equal; by case_bool_decide
      |destruct (IH r O) as (r' & E2 & P); exists r'; split; [done|]; intros name; rewrite P; by case_bool_decide]).
Qed.

(** For one interface the answer is its addresses in the order of the kernel, each with the
    length of its prefix, and fails where it has none. *)
Theorem Interfaces_of l iface family : iface <> [] -> iface <> bstr "*" -> Forall (readable family) l ->
  let found := omap (fun i => if bool_decide (ifa_name i = iface) then found_of family i else None) l in
  GetInterfaceAddresses_of (Some l) iface family = Ok (match found with [] => false | _ => true end, found).
Proof.
  intros N S F. destruct (interfaces_loop_filter family l [] F I) as (r & E & P). cbn zeta. specialize (P iface). rewrite filter_nil in P. cbn [map app] in P. rewrite <- P.
  unfold GetInterfaceAddresses_of, GetInterfaceAddresses. assert (is_empty iface || bool_decide (iface = bstr "*") = false) as ->.
  { rewrite bool_decide_false by done. by destruct iface. }
  rewrite E. cbn [rbind]. destruct r as [|e r]; [by rewrite filter_nil|]. done.
Qed.

(** An address of the kernel counts with the bits of its mask. *)
Lemma interface_IPv4 name a mask r r' : wf_ip (IPv4Address a) -> 0 <= s_addr mask < 2 ^ 32 ->
  interface_of (mk_ifaddrs name (Some (in_bytes a ++ r)) (Some (in_bytes mask ++ r'))) = Ok (Some (IPv4Address a, ones 32 (s_addr mask))).
Proof.
  intros W M. unfold interface_of. cbn [ifa_addr ifa_netmask deref rbind]. pose proof (proj1 W) as F.
  assert (E : of_mem (slice 0 2 (in_bytes a ++ r)) = AF_INET) by (unfold in_bytes; rewrite F, <- !app_assoc, slice_first by fields; by apply (field_value 2)).
  rewrite E. cbn [Z.eqb Pos.eqb AF_INET]. rewrite (Create_ip (IPv4Address a)) by done. cbn [rbind].
  assert (Em : of_mem (slice 4 4 (in_bytes mask ++ r')) = s_addr mask).
  { unfold in_bytes. rewrite <- !app_assoc, (app_assoc (to_mem 2 (sin_family mask))), (slice_field (_ ++ _) (to_mem 4 _)) by fields. by apply (field_value 4). }
  rewrite Em, CountBytes_ones by done. done.
Qed.
End text4.

(** ** Instances *)

Definition host1 : sockaddr_in := @new_IPv4 x86_host 0xC0A80A7B 80.

Lemma IPv4_prefix_witness : exists network broadcast mask,
  @IPv4_networkAddress x86_host host1 20 = Ok (with_addr host1 network) /\ @ntoh x86_host 4 network = 0xC0A80000
  /\ @IPv4_broadcastAddress x86_host host1 20 = Ok (with_addr host1 broadcast) /\ @ntoh x86_host 4 broadcast = 0xC0A80FFF
  /\ @IPv4_subnetMask x86_host 20 = Ok (mk_sockaddr_in AF_INET 0 mask (zeros 8)) /\ CountBytes mask = Ok 20.
Proof.
  destruct (@IPv4_prefix x86_host host1 20 ltac:(lia) ltac:(vm_compute; split; congruence)) as (n & b & m & En & Vn & Eb & Vb & Em & Vm & C & _).
  exists n, b, m. split_and!; try done; rewrite ?Vb, Vn; vm_compute; reflexivity.
Defined.

Definition v6 (l : list Z) : list byte := concat (map (fun g => [z2b (g / 256); z2b g]) l).
Definition doc_addr : sockaddr_in6 := @IPv6_of x86_host (v6 [0x2001; 0xdb8; 0; 0; 1; 0; 0; 0x8a2e]) 8080.

Lemma IPv6_broadcast_witness : exists l, IPv6_broadcastAddress doc_addr 33 = Ok (with_addr6 doc_addr l)
  /\ value6 l = value6 (v6 [0x2001; 0xdb8; 0x7fff; 0xffff; 0xffff; 0xffff; 0xffff; 0xffff]).
Proof.
  destruct (IPv6_broadcast doc_addr 33 ltac:(lia) eq_refl) as (l & E & L & V). exists l. split; [done|]. rewrite V. vm_compute. reflexivity.
Defined.

Lemma IPv6_text_witness : length (s6_addr doc_addr) = 16%nat /\ exists t, @IPv6_insert x86_host doc_addr = bstr "[" ++ t ++ bstr "]:8080"
  /\ read_groups t = Some [0x2001; 0xdb8; 0; 0; 1; 0; 0; 0x8a2e].
Proof.
  split; [done|]. destruct (@IPv6_text x86_host doc_addr eq_refl) as (t & E & R). exists t. split; [rewrite E; do 2 f_equal|rewrite R]; vm_compute; reflexivity.
Defined.

(** The text of the address above, and of one whose zeros are last. *)
Example doc_text : @IPv6_insert x86_host doc_addr = bstr "[2001:db8::1:0:0:8a2e]:8080".
Proof. vm_compute. reflexivity. Qed.
Example zeros_text : @IPv6_insert x86_host (@IPv6_of x86_host (v6 [0xfe80; 0; 0; 0; 0; 0; 0; 0]) 1) = bstr "[fe80:]:1"
  /\ @IPv6_insert x86_host new_IPv6 = bstr "[:]:0" /\ read_groups (bstr "::") = Some [0; 0; 0; 0; 0; 0; 0; 0].
Proof. vm_compute. done. Qed.

Definition sock (a : sockaddr_in) := IPv4Address a.

Lemma Address_order_witness : wf_address (H := x86_host) (sock host1) /\ @less x86_host (sock host1) (sock (@new_IPv4 x86_host 0xC0A80A7C 80)) = Ok true.
Proof.
  assert (W : forall n, @wf_address x86_host (sock (@new_IPv4 x86_host n 80))) by (intros n; split; [done|]; unfold len; cbn; lia).
  split; [apply W|]. destruct (@Address_order x86_host (sock host1) (sock (@new_IPv4 x86_host 0xC0A80A7C 80)) (W _) (W _)) as [-> _]. vm_compute. reflexivity.
Defined.

Lemma Address_Create_witness : @wf_ip (sock host1) /\ @Create x86_host (Some (@getAddr x86_host (sock host1) ++ zeros 4)) 16 = Ok (sock host1).
Proof.
  assert (W : @wf_ip (sock host1)) by (split_and!; try done; vm_compute; congruence). split; [done|]. by apply (@Address_Create x86_host (sock host1) (zeros 4) 16).
Defined.

Lemma Unix_path_witness : exists m n, @Unix_of (bstr "/tmp/s") = Ok (UnixAddress m n) /\ @toString x86_host (UnixAddress m n) = Ok (bstr "/tmp/s").
Proof.
  destruct (@Unix_path x86_host (bstr "/tmp/s")) as (m & n & E & _ & _ & T); [done|by repeat constructor|done|]. eauto.
Defined.

Definition lo : ifaddrs := mk_ifaddrs (bstr "lo") (Some (@in_bytes x86_host (@new_IPv4 x86_host 0x7F000001 0))) (Some (@in_bytes x86_host (@new_IPv4 x86_host 0xFF000000 0))).
Definition eth : ifaddrs := mk_ifaddrs (bstr "eth0") (Some (@in_bytes x86_host host1)) (Some (@in_bytes x86_host (@new_IPv4 x86_host 0xFFFFF000 0))).

Lemma Interfaces_of_witness : Forall (@readable x86_host AF_INET) [lo; eth] /\
  @GetInterfaceAddresses_of x86_host (Some [lo; eth]) (bstr "eth0") AF_INET = Ok (true, [(IPv4Address host1, 20)]).
Proof.
  assert (F : Forall (@readable x86_host AF_INET) [lo; eth]) by (repeat constructor; try done; intros _; eexists; vm_compute; reflexivity).
  split; [done|]. rewrite (@Interfaces_of x86_host [lo; eth] (bstr "eth0") AF_INET) by done. vm_compute. reflexivity.
Defined.

(** In brackets the address is not taken out, and the service that is asked for begins with a
    colon of the address. *)
Example bracket_host : node_of (bstr "[::1]:80") = (bstr "[::1]:80", Some (bstr "::1]:80")) /\ node_of (bstr "::1") = (bstr "::1", Some (bstr "::1")).
Proof. vm_compute. done. Qed.

(** A prefix of four bytes leaves the address as it is. *)
Example network_same : IPv6_networkAddress doc_addr 32 = Ok doc_addr.
Proof. vm_compute. reflexivity. Qed.
