(* ===== verification/LogFile.v ===== *)
(** Log files and their rotation (src/log/log_file.cpp, src/log/log_file_manager.cpp, and the
    writing half of src/log/log_appender.cpp). The system calls on files are the class
    [FileSystem]; the local time and the clock are arguments. *)
From S2P Require Import Prelude CppString Number StringUtil.

(** [open] for appending, [close], [write], [rename] and the distance of [lseek] to the end. *)
Class FileSystem (F : Type) := {
  fs_open : list byte -> F -> option (Z * F);
  fs_close : Z -> F -> F;
  fs_write : Z -> list byte -> F -> Z * F;
  fs_rename : list byte -> list byte -> F -> bool * F;
  fs_size : Z -> F -> Z;
}.

Inductive RotateType := NONE | MINUTE | HOUR | DAY | SIZE.

#[global] Instance RotateType_eq_dec : EqDecision RotateType.
Proof. solve_decision. Defined.

Definition rotateTypeFromString (str : list byte) : res RotateType :=
  if is_empty str then Crash assertion_failed
  else
    let named s := bool_decide (str = bstr s) in
    Ok (if named "minute"%string || named "Minute"%string || named "MINUTE"%string then MINUTE
        else if named "hour"%string || named "Hour"%string || named "HOUR"%string then HOUR
        else if named "day"%string || named "Day"%string || named "DAY"%string then DAY
        else if named "size"%string || named "Size"%string || named "SIZE"%string then SIZE
        else NONE).

Definition rotateTypeToString (rotateType : RotateType) : list byte :=
  bstr match rotateType with MINUTE => "MINUTE" | HOUR => "HOUR" | DAY => "DAY" | SIZE => "SIZE" | NONE => "None" end.

(** ** One file *)

Record LogFile := mkLogFile { m_fd : Z; m_filePath : list byte; m_rotateType : RotateType; m_maxFileSize : Z }.

Definition set_fd (fd : Z) (l : LogFile) : LogFile := mkLogFile fd (m_filePath l) (m_rotateType l) (m_maxFileSize l).
Definition setRotateType (type : RotateType) (l : LogFile) : LogFile := mkLogFile (m_fd l) (m_filePath l) type (m_maxFileSize l).
Definition setMaxFileSize (size : Z) (l : LogFile) : LogFile := mkLogFile (m_fd l) (m_filePath l) (m_rotateType l) size.

Definition new_LogFile (filePath : list byte) : res LogFile :=
  if is_empty filePath then Crash assertion_failed else Ok (mkLogFile (-1) filePath NONE 0).

(** What a broken-down local time gives. *)
Record Now := mkNow { year : Z; month : Z; day : Z; hour : Z; minute : Z; second : Z }.

Section file.
Context `{FileSystem F}.

Definition openFile (l : LogFile) (f : F) : bool * LogFile * F :=
  match fs_open (m_filePath l) f with
  | None => (false, l, f)
  | Some (fd, f) => (true, set_fd fd l, if m_fd l =? -1 then f else fs_close (m_fd l) f)
  end.

(** What is written while no file is open goes to the standard output, descriptor 1. *)
Definition writeLog (logMsg : list byte) (l : LogFile) (f : F) : res (Z * F) :=
  if is_empty logMsg then Crash assertion_failed else Ok (fs_write (if m_fd l =? -1 then 1 else m_fd l) logMsg f).

(** [rotate], in the three steps that a writer without the lock could come between. *)
Definition rotate_close (l : LogFile) (f : F) : LogFile * F := if m_fd l =? -1 then (l, f) else (set_fd (-1) l, fs_close (m_fd l) f).
Definition rotate_rename (newFilePath : list byte) (l : LogFile) (f : F) : F := snd (fs_rename (m_filePath l) newFilePath f).

Definition rotate (newFilePath : list byte) (l : LogFile) (f : F) : res (LogFile * F) :=
  if is_empty newFilePath then Crash assertion_failed
  else if is_empty (m_filePath l) then Ok (l, f)
  else
    let (l, f) := rotate_close l f in
    let '(_, l, f) := openFile l (rotate_rename newFilePath l f) in Ok (l, f).

Definition getFileSize (l : LogFile) (f : F) : Z := if m_fd l =? -1 then 0 else fs_size (m_fd l) f.

(** ** Archives *)

(** [%0wd] *)
Definition pad (w : nat) (n : Z) : list byte :=
  let put w n := replicate (w - length (dec n)) x30 ++ dec n in
  if n <? 0 then bstr "-" ++ put (w - 1)%nat (- n) else put w n.

Definition day_suffix (t : Now) : list byte := bstr "_" ++ pad 4 (year t) ++ bstr "-" ++ pad 2 (month t) ++ bstr "-" ++ pad 2 (day t).
Definition hour_suffix (t : Now) : list byte := day_suffix t ++ bstr "T" ++ pad 2 (hour t).
Definition minute_suffix (t : Now) : list byte := hour_suffix t ++ pad 2 (minute t).
Definition micro_suffix (t : Now) (micro : Z) : list byte := minute_suffix t ++ pad 2 (second t) ++ bstr "." ++ pad 6 (micro mod 1000000).

(** The name of a file with a suffix before its extension. *)
Definition archive_name (file_path buf : list byte) : res (list byte) :=
  let! path := FilePath file_path in
  let! file_name := FileName file_path in
  let! file_ext := Extension file_path in Ok (path ++ file_name ++ buf ++ file_ext).

Definition rotate_to (buf : list byte) (l : LogFile) (f : F) : res (LogFile * F) :=
  let! name := archive_name (m_filePath l) buf in rotate name l f.

Definition file_size (l : LogFile) (f : F) : Z := u64 (Z.max 0 (getFileSize l f)).

(** [rotateBySize], which looks at the size again under the lock. *)
Definition rotateBySize (now : Now) (micro : Z) (l : LogFile) (f : F) : res (LogFile * F) :=
  let threshold := m_maxFileSize l in
  if threshold =? 0 then Ok (l, f)
  else if file_size l f <? threshold then Ok (l, f)
  else if file_size l f <? threshold then Ok (l, f)
  else rotate_to (micro_suffix now micro) l f.

(** [rotateMinute], [rotateHours] and [rotateDays] differ in their suffix. *)
Definition rotate_with (suffix : list byte) (l : LogFile) (f : F) : res (LogFile * F) :=
  if 0 <? getFileSize l f then rotate_to suffix l f else Ok (l, f).

(** [FileLogAppender::log] of a text that is formatted. *)
Definition append (formatted_msg : list byte) (now : Now) (micro : Z) (l : LogFile) (f : F) : res (Z * LogFile * F) :=
  let! (l, f) :=
    if bool_decide (m_rotateType l = SIZE) && (0 <? m_maxFileSize l) && (m_maxFileSize l <? u64 (file_size l f + len formatted_msg))
    then rotateBySize now micro l f else Ok (l, f) in
  let! (n, f) := writeLog formatted_msg l f in Ok (n, l, f).

(** ** The manager *)

(** The files by name, and the time of the last check, -1 before the first; nothing reads its
    second. *)
Record LogFileManager := mkLogFileManager { m_logs : list (list byte * LogFile); m_last : Now }.

Definition set_logs (logs : list (list byte * LogFile)) (m : LogFileManager) : LogFileManager := mkLogFileManager logs (m_last m).

Definition new_LogFileManager : LogFileManager := mkLogFileManager [] (mkNow (-1) (-1) (-1) (-1) (-1) (-1)).

(** Whether the constructor arms the timer of the checks: only where an event manager runs. *)
Definition init (iom : bool) : bool := iom.

Fixpoint logs_get (name : list byte) (logs : list (list byte * LogFile)) : option LogFile :=
  match logs with [] => None | (k, l) :: logs => if bool_decide (k = name) then Some l else logs_get name logs end.

(** [m_logs[name] = l], in the order of the names. *)
Fixpoint logs_put (name : list byte) (l : LogFile) (logs : list (list byte * LogFile)) : list (list byte * LogFile) :=
  match logs with
  | [] => [(name, l)]
  | (k, l') :: logs' => match key_compare name k with Lt => (name, l) :: logs | Eq => (name, l) :: logs' | Gt => (k, l') :: logs_put name l logs' end
  end.

Definition getLogFile (fileName : list byte) (m : LogFileManager) : res (LogFile * LogFileManager) :=
  if is_empty fileName then Crash assertion_failed
  else
    match logs_get fileName (m_logs m) with
    | Some l => Ok (l, m)
    | None => let! l := new_LogFile fileName in Ok (l, set_logs (logs_put fileName l (m_logs m)) m)
    end.

(** The body of the loop of [onCheck], for what has changed. *)
Definition check_file (minute_change hour_change day_change : bool) (last : Now) (l : LogFile) (f : F) : res (LogFile * F) :=
  let turns t := bool_decide (m_rotateType l = t) in
  if minute_change && turns MINUTE then rotate_with (minute_suffix last) l f
  else if hour_change && turns HOUR then rotate_with (hour_suffix last) l f
  else if day_change && turns DAY then rotate_with (day_suffix last) l f
  else Ok (l, f).

Fixpoint check_files (minute_change hour_change day_change : bool) (last : Now) (logs : list (list byte * LogFile)) (f : F)
  : res (list (list byte * LogFile) * F) :=
  match logs with
  | [] => Ok ([], f)
  | (k, l) :: logs =>
      let! (l, f) := check_file minute_change hour_change day_change last l f in
      let! (logs, f) := check_files minute_change hour_change day_change last logs f in Ok ((k, l) :: logs, f)
  end.

Definition onCheck (now : Now) (m : LogFileManager) (f : F) : res (LogFileManager * F) :=
  let last := m_last m in
  if (year last =? -1) && (month last =? -1) && (day last =? -1) && (hour last =? -1) && (minute last =? -1) then Ok (mkLogFileManager (m_logs m) now, f)
  else
    let minute_change := negb (minute last =? minute now) in
    let hour_change := negb (hour last =? hour now) in
    let day_change := negb (day last =? day now) in
    if negb day_change && negb hour_change && negb minute_change then Ok (m, f)
    else let! (logs, f) := check_files minute_change hour_change day_change last (m_logs m) f in Ok (mkLogFileManager logs now, f).

(** The constructor of [FileLogAppender]: the file of the manager, opened. *)
Definition open_log (fileName : list byte) (m : LogFileManager) (f : F) : res (LogFileManager * F) :=
  let! (l, m) := getLogFile fileName m in
  let '(_, l, f) := openFile l f in Ok (set_logs (logs_put fileName l (m_logs m)) m, f).

(** [FileLogAppender::log] through the manager. *)
Definition log_to (fileName formatted_msg : list byte) (now : Now) (micro : Z) (m : LogFileManager) (f : F) : res (LogFileManager * F) :=
  let! l := deref (logs_get fileName (m_logs m)) in
  let! (_, l, f) := append formatted_msg now micro l f in Ok (set_logs (logs_put fileName l (m_logs m)) m, f).
End file.
