(* ===== verification/LogFileSpec.v ===== *)
(** What rotation promises (LogFile.v): over any file system that keeps the rules below,
    nothing that was written is lost, in the order it was written, and archives have names
    of their own. *)
From S2P Require Import Prelude CppString Number StringUtil StringUtilSpec LogFile.

(** The rules of the file system: what is at a path, and the path a descriptor was opened at. *)
Class FileSystemLaws (F : Type) `{FileSystem F} := {
  text : F -> list byte -> list byte;
  target : F -> Z -> option (list byte);
  fd_law d f p : target f d = Some p -> 1 < d;
  open_law p f fd f' : fs_open p f = Some (fd, f') ->
    1 < fd /\ target f fd = None /\ (forall d, target f' d = if bool_decide (d = fd) then Some p else target f d) /\ forall q, text f' q = text f q;
  close_law d f : (forall e, target (fs_close d f) e = if bool_decide (e = d) then None else target f e) /\ forall q, text (fs_close d f) q = text f q;
  write_law d s f n f' : fs_write d s f = (n, f') ->
    (forall e, target f' e = target f e) /\
    match target f d with
    | Some p => n <= len s /\ forall q, text f' q = if bool_decide (q = p) then text f p ++ take (Z.to_nat n) s else text f q
    | None => forall q, text f' q = text f q
    end;
  rename_law a b f ok f' : a <> b -> (forall d, target f d <> Some a /\ target f d <> Some b) -> fs_rename a b f = (ok, f') ->
    (forall d, target f' d = target f d) /\
    forall q, text f' q = if ok : bool then (if bool_decide (q = b) then text f a else if bool_decide (q = a) then [] else text f q) else text f q;
  size_law d f p : target f d = Some p -> fs_size d f = len (text f p);
}.

Section history.
Context `{FileSystemLaws F}.

(** A file that is open, or is not, at its path, which nothing else has open. *)
Record held (l : LogFile) (f : F) : Prop := {
  held_fd : m_fd l = -1 \/ (1 < m_fd l /\ target f (m_fd l) = Some (m_filePath l));
  held_only d : target f d = Some (m_filePath l) -> d = m_fd l;
}.

(** What the archives hold and then the file. *)
Definition whole (archives : list (list byte)) (path : list byte) (f : F) : list byte := concat (map (text f) archives) ++ text f path.

Lemma open_held l f ok l' f' : openFile l f = (ok, l', f') -> held l f ->
  held l' f' /\ m_filePath l' = m_filePath l /\ (forall q, text f' q = text f q) /\ (forall q d, q <> m_filePath l -> target f' d = Some q -> target f d = Some q)
  /\ (ok = true -> 1 < m_fd l').
Proof.
  intros E [Hf Ho]. unfold openFile in E. destruct (fs_open (m_filePath l) f) as [[fd f1]|] eqn:Eo; [|injection E as <- <- <-; done].
  injection E as <- <- <-. destruct (open_law _ _ _ _ Eo) as (G & N & T & X). destruct (Z.eqb_spec (m_fd l) (-1)) as [E1|E1].
  - split; [constructor; cbn|split_and!; try done].
    + right. split; [done|]. by rewrite T, bool_decide_true.
    + intros d. rewrite T. case_bool_decide; [done|]. intros Ed. pose proof (fd_law _ _ _ Ed). apply Ho in Ed. lia.
    + intros q d Nq. rewrite T. case_bool_decide; [congruence|done].
  - destruct Hf as [|[Gl Tl]]; [done|]. destruct (close_law (m_fd l) f1) as [Tc Xc]. assert (fd <> m_fd l) by congruence.
    split; [constructor; cbn|split_and!; try done].
    + right. split; [done|]. by rewrite Tc, bool_decide_false, T, bool_decide_true by done.
    + intros d. rewrite Tc. case_bool_decide; [done|]. rewrite T. case_bool_decide; [done|]. intros Ed%Ho. done.
    + intros q. by rewrite Xc, X.
    + intros q d Nq. rewrite Tc. case_bool_decide; [done|]. rewrite T. case_bool_decide; [congruence|done].
Qed.

Lemma close_held l f l' f' : rotate_close l f = (l', f') -> held l f ->
  m_fd l' = -1 /\ m_filePath l' = m_filePath l /\ (forall q, text f' q = text f q) /\ (forall d, target f' d <> Some (m_filePath l))
  /\ forall q d, target f' d = Some q -> target f d = Some q.
Proof.
  intros E [Hf Ho]. unfold rotate_close in E. destruct (Z.eqb_spec (m_fd l) (-1)) as [E1|E1]; injection E as <- <-.
  - split_and!; try done. intros d Ed. pose proof (fd_law _ _ _ Ed). apply Ho in Ed. lia.
  - destruct (close_law (m_fd l) f) as [T X]. split_and!; try done.
    + intros d. rewrite T. case_bool_decide; [done|]. intros Ed%Ho. done.
    + intros q d. rewrite T. case_bool_decide; done.
Qed.

(** One rotation into a name that nothing has open. *)
Lemma rotate_any l f name l' f' : rotate name l f = Ok (l', f') -> held l f -> m_filePath l <> [] -> name <> m_filePath l ->
  (forall d, target f d <> Some name) ->
  held l' f' /\ m_filePath l' = m_filePath l /\ (text f name = [] -> text f' name ++ text f' (m_filePath l) = text f (m_filePath l))
  /\ (forall q, q <> name -> q <> m_filePath l -> text f' q = text f q)
  /\ (forall q d, q <> m_filePath l -> target f' d = Some q -> target f d = Some q).
Proof.
  intros E Hl Np Nn Tn. unfold rotate in E. destruct (is_empty name); [done|]. assert (is_empty (m_filePath l) = false) as Ep by (by destruct (m_filePath l)). rewrite Ep in E.
  destruct (rotate_close l f) as [l1 f1] eqn:Ec. destruct (close_held _ _ _ _ Ec Hl) as (F1 & P1 & X1 & O1 & T1). unfold rotate_rename in E.
  destruct (fs_rename (m_filePath l1) name f1) as [ok f2] eqn:Er. cbn [snd] in E. destruct (openFile l1 f2) as [[o l2] f3] eqn:Eo. injection E as <- <-. rewrite P1 in Er.
  destruct (rename_law _ _ _ _ _ (not_eq_sym Nn) ltac:(intros d; split; [apply O1|intros Ed%T1; by eapply Tn]) Er) as [T2 X2].
  assert (H2 : held l1 f2) by (constructor; [by left|]; intros d; rewrite T2, P1; intros Ed; by apply O1 in Ed).
  destruct (open_held _ _ _ _ _ Eo H2) as (H3 & P3 & X3 & T3 & _). rewrite P1 in *. split_and!; try done.
  - intros Xn. rewrite !X3, !X2. destruct ok; [rewrite bool_decide_true, bool_decide_false, bool_decide_true by done; rewrite !X1; by rewrite app_nil_r|rewrite !X1; by rewrite Xn].
  - intros q Q1 Q2. rewrite X3, X2. destruct ok; [rewrite !bool_decide_false by done|]; apply X1.
  - intros q d Q Ed. apply T3 in Ed; [|done]. rewrite T2 in Ed. by apply T1.
Qed.

(** Into a name that holds nothing. *)
Lemma rotate_held l f name l' f' : rotate name l f = Ok (l', f') -> held l f -> m_filePath l <> [] -> name <> m_filePath l ->
  (forall d, target f d <> Some name) -> text f name = [] ->
  held l' f' /\ m_filePath l' = m_filePath l /\ text f' name ++ text f' (m_filePath l) = text f (m_filePath l)
  /\ (forall q, q <> name -> q <> m_filePath l -> text f' q = text f q)
  /\ (forall q d, q <> m_filePath l -> target f' d = Some q -> target f d = Some q).
Proof. intros E Hl Np Nn Tn Xn. destruct (rotate_any _ _ _ _ _ E Hl Np Nn Tn) as (? & ? & ? & ? & ?). auto 6. Qed.

Lemma write_held l f s n f' : writeLog s l f = Ok (n, f') -> held l f ->
  held l f' /\ (forall d, target f' d = target f d)
  /\ (forall q, q <> m_filePath l -> text f' q = text f q)
  /\ text f' (m_filePath l) = text f (m_filePath l) ++ (if m_fd l =? -1 then [] else take (Z.to_nat n) s).
Proof.
  intros E Hl. pose proof (held_only _ _ Hl) as Ho. unfold writeLog in E. destruct (is_empty s); [done|]. injection E as E. destruct (write_law _ _ _ _ _ E) as [T X]. destruct Hl as [Hf _].
  assert (H' : held l f') by (constructor; [by rewrite T|intros d; rewrite T; apply Ho]). split; [done|]. split; [done|].
  destruct (Z.eqb_spec (m_fd l) (-1)) as [E1|E1].
  - destruct (target f 1) as [p|] eqn:E2; [by apply fd_law in E2|]. split; intros; rewrite X; [done|by rewrite app_nil_r].
  - destruct Hf as [|[_ Tl]]; [done|]. rewrite Tl in X. destruct X as [_ X]. split; [intros q Q; by rewrite X, bool_decide_false|by rewrite X, bool_decide_true].
Qed.

(** ** Histories *)

(** What is done with a file, and with a rotation the name of its archive. *)
Inductive file_op := Write (s : list byte) | Rotate (name : list byte).

(** The file after the operations, with the bytes that reached it. *)
Fixpoint run (ops : list file_op) (l : LogFile) (f : F) (written : list byte) : res (LogFile * F * list byte) :=
  match ops with
  | [] => Ok (l, f, written)
  | Write s :: ops =>
      let! (n, f) := writeLog s l f in run ops l f (written ++ (if m_fd l =? -1 then [] else take (Z.to_nat n) s))
  | Rotate name :: ops => let! (l, f) := rotate name l f in run ops l f written
  end.

Definition names (ops : list file_op) : list (list byte) := omap (fun o => match o with Rotate n => Some n | _ => None end) ops.

(** A name that an archive can take. *)
Definition fresh (f : F) (name : list byte) : Prop := (forall d, target f d <> Some name) /\ text f name = [].

Lemma run_whole ops l f w l' f' w' done_ : run ops l f w = Ok (l', f', w') -> held l f -> m_filePath l <> [] ->
  NoDup (names ops) -> Forall (fresh f) (names ops) -> m_filePath l ∉ names ops -> Forall (fun q => (q ∉ names ops) /\ q <> m_filePath l) done_ ->
  exists more, w' = w ++ more /\ held l' f' /\ m_filePath l' = m_filePath l
    /\ whole (done_ ++ names ops) (m_filePath l) f' = whole done_ (m_filePath l) f ++ more.
Proof.
  revert l f w done_. induction ops as [|o ops IH]; intros l f w done_ E Hl Np Nd Fr Ni D; cbn [run names omap list_omap] in *.
  - injection E as <- <- <-. exists []. rewrite !app_nil_r. done.
  - fold (names ops) in *. destruct o as [s|name].
    + apply rbind_ok in E as ([n f1] & E1 & E). destruct (write_held _ _ _ _ _ E1 Hl) as (H1 & T1 & X1 & Y1).
      destruct (IH _ _ _ done_ E H1 Np Nd) as (more & -> & H2 & P2 & W2); [|done|done|].
      { apply List.Forall_forall. intros q Hq. rewrite List.Forall_forall in Fr. destruct (Fr q Hq) as [Tq Xq]. split; [intros d; by rewrite T1|]. rewrite X1; [done|]. intros ->. by apply Ni, list_elem_of_In. }
      eexists. rewrite <- app_assoc. split_and!; [done|done|done|]. rewrite W2. unfold whole. rewrite Y1, <- !app_assoc. f_equal. f_equal. apply map_ext_in. intros q Hq%list_elem_of_In.
      apply X1. rewrite list.Forall_forall in D. by apply D.
    + apply list.NoDup_cons in Nd as [Nn Nd]. apply list.Forall_cons in Fr as [[Tn Xn] Fr]. apply not_elem_of_cons in Ni as [Nq Ni].
      apply rbind_ok in E as ([l1 f1] & E1 & E). destruct (rotate_held _ _ _ _ _ E1 Hl Np (not_eq_sym Nq) Tn Xn) as (H1 & P1 & X1 & Y1 & T1).
      destruct (IH _ _ _ (done_ ++ [name]) E H1) as (more & -> & H2 & P2 & W2); rewrite ?P1; try done.
      { apply List.Forall_forall. intros q Hq. rewrite List.Forall_forall in Fr. destruct (Fr q Hq) as [Tq Xq]. assert (q <> m_filePath l) by (intros ->; by apply Ni, list_elem_of_In).
        assert (q <> name) by (intros ->; by apply Nn, list_elem_of_In). split; [intros d Ed; eapply Tq; by apply (T1 q d)|by rewrite Y1]. }
      { apply list.Forall_app. split; [|by constructor]. eapply List.Forall_impl; [|done]. intros q [Q1 Q2]. by apply not_elem_of_cons in Q1 as [_ Q1]. }
      exists more. rewrite P1 in *. split_and!; [done|done|by rewrite P2|]. change (omap _ ops) with (names ops). replace (done_ ++ name :: names ops) with ((done_ ++ [name]) ++ names ops) by by rewrite <- app_assoc. rewrite W2. unfold whole. rewrite map_app, concat_app, <- !app_assoc. cbn [map concat app].
      rewrite app_nil_r, (app_assoc (text f1 name)), X1. f_equal. f_equal. apply map_ext_in. intros q Hq%list_elem_of_In. rewrite list.Forall_forall in D. destruct (D q Hq) as [Q1 Q2].
      apply not_elem_of_cons in Q1 as [Q1 _]. by apply Y1.
Qed.

(** Messages and names that are not empty. *)
Definition proper (o : file_op) : Prop := match o with Write s => s <> [] | Rotate name => name <> [] end.

Definition messages (ops : list file_op) : list byte := concat (map (fun o => match o with Write s => s | _ => [] end) ops).

(** A file system on which opening succeeds and writing is whole. *)
Definition reliable : Prop := (forall p f, is_Some (fs_open p f)) /\ forall d s f, is_Some (target f d) -> fst (fs_write d s f) = len s.

Lemma history_ok ops l f w : Forall proper ops -> exists l' f' w', run ops l f w = Ok (l', f', w').
Proof.
  intros P. revert l f w. induction P as [|o ops P _ IH]; intros l f w; [by do 3 eexists|]. destruct o as [s|name]; cbn [run].
  - unfold writeLog. assert (is_empty s = false) as -> by (by destruct s). destruct (fs_write _ s f) as [n f1]. cbn [rbind]. apply IH.
  - unfold rotate. assert (is_empty name = false) as -> by (by destruct name). destruct (is_empty (m_filePath l)); cbn [rbind]; [apply IH|].
    destruct (rotate_close l f) as [l1 f1]. destruct (openFile l1 _) as [[o l2] f2]. apply IH.
Qed.

Lemma rotate_reliable name l f l' f' : reliable -> rotate name l f = Ok (l', f') -> held l f -> m_filePath l <> [] -> 1 < m_fd l'.
Proof.
  intros [O _] E Hl Np. unfold rotate in E. destruct (is_empty name); [done|]. assert (is_empty (m_filePath l) = false) as Ep by (by destruct (m_filePath l)). rewrite Ep in E.
  destruct (rotate_close l f) as [l1 f1] eqn:Ec. unfold openFile in E. destruct (O (m_filePath l1) (rotate_rename name l1 f1)) as [[fd f2] Eo]. rewrite Eo in E.
  injection E as <- <-. by apply open_law in Eo as [G _].
Qed.

Lemma run_reliable ops l f w l' f' w' : reliable -> run ops l f w = Ok (l', f', w') -> held l f -> 1 < m_fd l -> m_filePath l <> [] ->
  NoDup (names ops) -> Forall (fresh f) (names ops) -> m_filePath l ∉ names ops -> w' = w ++ messages ops.
Proof.
  intros Re. revert l f w. induction ops as [|o ops IH]; intros l f w E Hl Nf Np Nd Fr Ni; cbn [run names omap list_omap] in *.
  - injection E as <- <- <-. by rewrite app_nil_r.
  - change (omap _ ops) with (names ops) in *. destruct o as [s|name]; unfold messages; cbn [map concat]; fold (messages ops).
    + apply rbind_ok in E as ([n f1] & E1 & E). destruct (write_held _ _ _ _ _ E1 Hl) as (H1 & T1 & X1 & _).
      assert (En : take (Z.to_nat n) s = s).
      { unfold writeLog in E1. destruct (is_empty s); [done|]. injection E1 as E1. rewrite (proj2 (Z.eqb_neq (m_fd l) (-1))) in E1 by lia.
        destruct (held_fd _ _ Hl) as [|[_ Tl]]; [lia|]. pose proof (proj2 Re (m_fd l) s f ltac:(by eexists)) as Ew. rewrite E1 in Ew. cbn in Ew. subst n.
        apply take_ge. unfold len. lia. }
      rewrite (proj2 (Z.eqb_neq (m_fd l) (-1))), En in E by lia. rewrite app_assoc. eapply IH; [exact E|done..| |done].
      apply List.Forall_forall. intros q Hq. rewrite List.Forall_forall in Fr. destruct (Fr q Hq) as [Tq Xq]. split; [intros d; by rewrite T1|]. rewrite X1; [done|].
      intros ->. by apply Ni, list_elem_of_In.
    + apply list.NoDup_cons in Nd as [Nn Nd]. apply list.Forall_cons in Fr as [[Tn Xn] Fr]. apply not_elem_of_cons in Ni as [Nq Ni].
      apply rbind_ok in E as ([l1 f1] & E1 & E). destruct (rotate_held _ _ _ _ _ E1 Hl Np (not_eq_sym Nq) Tn Xn) as (H1 & P1 & _ & Y1 & T1).
      eapply IH; [exact E|done|by eapply (rotate_reliable name l f)|by rewrite P1|done| |by rewrite P1].
      apply List.Forall_forall. intros q Hq. rewrite List.Forall_forall in Fr. destruct (Fr q Hq) as [Tq Xq]. assert (q <> m_filePath l) by (intros ->; by apply Ni, list_elem_of_In).
      assert (q <> name) by (intros ->; by apply Nn, list_elem_of_In). split; [intros d Ed; eapply Tq; by apply (T1 q d)|by rewrite Y1].
Qed.

(** Where renaming succeeds as well, a rotation moves the text. *)
Lemma rotate_moves name l f l' f' : (forall a b f, fst (fs_rename a b f) = true) -> rotate name l f = Ok (l', f') -> held l f -> m_filePath l <> [] ->
  name <> m_filePath l -> (forall d, target f d <> Some name) -> text f' name = text f (m_filePath l) /\ text f' (m_filePath l) = [].
Proof.
  intros Rn E Hl Np Nn Tn. unfold rotate in E. destruct (is_empty name); [done|]. assert (is_empty (m_filePath l) = false) as Ep by (by destruct (m_filePath l)). rewrite Ep in E.
  destruct (rotate_close l f) as [l1 f1] eqn:Ec. destruct (close_held _ _ _ _ Ec Hl) as (F1 & P1 & X1 & O1 & T1). unfold rotate_rename in E.
  destruct (fs_rename (m_filePath l1) name f1) as [ok f2] eqn:Er. pose proof (Rn (m_filePath l1) name f1) as Ok1. rewrite Er in Ok1. cbn in Ok1. subst ok. cbn [snd] in E.
  destruct (openFile l1 f2) as [[o l2] f3] eqn:Eo. injection E as <- <-. rewrite P1 in Er.
  destruct (rename_law _ _ _ _ _ (not_eq_sym Nn) ltac:(intros d; split; [apply O1|intros Ed%T1; by eapply Tn]) Er) as [T2 X2].
  assert (H2 : held l1 f2) by (constructor; [by left|]; intros d; rewrite T2, P1; intros Ed; by apply O1 in Ed).
  destruct (open_held _ _ _ _ _ Eo H2) as (_ & _ & X3 & _). rewrite !X3, !X2, bool_decide_true, (bool_decide_false (m_filePath l = name)), bool_decide_true by done. by rewrite X1.
Qed.

(** The texts of the file and of the other paths where nothing fails: a rotation puts the
    text of the file in the place of what its archive's name held. *)
Fixpoint kept (ops : list file_op) (cur : list byte) (others : list byte -> list byte) : list byte * (list byte -> list byte) :=
  match ops with
  | [] => (cur, others)
  | Write s :: ops => kept ops (cur ++ s) others
  | Rotate name :: ops => kept ops [] (fun q => if bool_decide (q = name) then cur else others q)
  end.

Definition renames : Prop := forall a b f, fst (fs_rename a b f) = true.

Definition unopened (f : F) (name : list byte) : Prop := forall d, target f d <> Some name.

Lemma run_kept ops : forall l f w l' f' w' others, reliable -> renames -> run ops l f w = Ok (l', f', w') -> held l f -> 1 < m_fd l ->
  m_filePath l <> [] -> m_filePath l ∉ names ops -> Forall (unopened f) (names ops) -> (forall q, q <> m_filePath l -> text f q = others q) ->
  held l' f' /\ text f' (m_filePath l) = fst (kept ops (text f (m_filePath l)) others)
  /\ forall q, q <> m_filePath l -> text f' q = snd (kept ops (text f (m_filePath l)) others) q.
Proof.
  induction ops as [|o ops IH]; intros l f w l' f' w' others Re Rn E Hl G Np Ni U Q; cbn [run kept names omap list_omap] in *.
  { injection E as <- <- <-. done. }
  change (omap _ ops) with (names ops) in *. destruct o as [s|name].
  - apply rbind_ok in E as ([n f1] & E1 & E). destruct (write_held _ _ _ _ _ E1 Hl) as (H1 & T1 & X1 & Y1).
    assert (En : take (Z.to_nat n) s = s).
    { unfold writeLog in E1. destruct (is_empty s); [done|]. injection E1 as E1. rewrite (proj2 (Z.eqb_neq (m_fd l) (-1))) in E1 by lia.
      destruct (held_fd _ _ Hl) as [|[_ Tl]]; [lia|]. pose proof (proj2 Re (m_fd l) s f ltac:(by eexists)) as Ew. rewrite E1 in Ew. cbn in Ew. subst n.
      apply take_ge. unfold len. lia. }
    rewrite (proj2 (Z.eqb_neq (m_fd l) (-1))), En in Y1 by lia. rewrite <- Y1. eapply IH; try done.
    + eapply List.Forall_impl; [|done]. intros q Uq d. rewrite T1. apply Uq.
    + intros q Nq. by rewrite X1, Q.
  - apply list.Forall_cons in U as [Un U]. apply not_elem_of_cons in Ni as [Nq Ni].
    apply rbind_ok in E as ([l1 f1] & E1 & E). destruct (rotate_any _ _ _ _ _ E1 Hl Np (not_eq_sym Nq) Un) as (H1 & P1 & _ & Y1 & T1).
    destruct (rotate_moves _ _ _ _ _ Rn E1 Hl Np (not_eq_sym Nq) Un) as [V1 V2].
    rewrite <- V2. rewrite <- P1. eapply IH; rewrite ?P1; try done.
    + by eapply (rotate_reliable name l f).
    + apply List.Forall_forall. intros q Hq. rewrite List.Forall_forall in U. intros d Ed. apply (U q Hq d), (T1 q d); [|done].
      intros ->. apply Ni. by apply list_elem_of_In.
    + intros q Hq. case_bool_decide; [by subst|]. rewrite Y1 by done. by apply Q.
Qed.

(** C33: A log file that is written and rotated, into archives of other names that nothing has
    open. Where nothing fails, the file and every other path hold what [kept] says: what is
    written is appended, and a rotation puts the text of the file in the place of whatever its
    archive's name held. And if the names of the archives are distinct and hold nothing before,
    nothing is lost, whatever fails: what the archives hold, in the order of the rotations, and
    then the file, is what was there and then every byte that reached it, which is all the
    messages where nothing fails. *)
Theorem Rotation_keeps ops l f : held l f -> m_filePath l <> [] -> Forall proper ops ->
  Forall (unopened f) (names ops) -> m_filePath l ∉ names ops ->
  exists l' f' written, run ops l f [] = Ok (l', f', written)
    /\ (reliable -> renames -> 1 < m_fd l ->
          held l' f' /\ text f' (m_filePath l) = fst (kept ops (text f (m_filePath l)) (text f))
          /\ forall q, q <> m_filePath l -> text f' q = snd (kept ops (text f (m_filePath l)) (text f)) q)
    /\ (NoDup (names ops) -> Forall (fun n => text f n = []) (names ops) ->
          held l' f' /\ whole (names ops) (m_filePath l) f' = text f (m_filePath l) ++ written
          /\ (reliable -> 1 < m_fd l -> written = messages ops)).
Proof.
  intros Hl Np P U Ni. destruct (history_ok ops l f [] P) as (l' & f' & w & E). exists l', f', w. split; [done|].
  split; [intros Re Rn G; by eapply run_kept|]. intros Nd Em.
  assert (Fr : Forall (fresh f) (names ops)) by (apply list.Forall_and; done).
  destruct (run_whole ops l f [] l' f' w [] E Hl Np Nd Fr Ni) as (more & -> & H' & _ & W); [constructor|]. split_and!; [done|done|].
  intros Re G. by eapply run_reliable in E.
Qed.

(** ** The names of archives *)

Lemma archive_form p : exists a b, a <> [] /\ (length p <= S (length a + length b))%nat /\ forall buf, archive_name p buf = Ok (a ++ buf ++ b).
Proof.
  destruct (Path_parts p) as (dir & name & stem & ext & E1 & _ & E3 & E4 & D & N). exists (dir ++ stem), ext.
  assert (Nd : dir <> []) by (destruct D as [(_ & -> & _)|(d & s & n & _ & _ & _ & -> & _)]; [done|by destruct d]).
  split_and!; [by destruct dir| |intros buf; unfold archive_name; rewrite E1, E3, E4; cbn [rbind]; by rewrite <- app_assoc].
  assert (L : (length name <= S (length stem + length ext))%nat).
  { destruct N as [(_ & -> & ->)|(a & b & -> & _ & _ & -> & ->)]; [cbn; lia|]. rewrite length_app. cbn [length].
    destruct b; cbn [is_empty andb]; [case_bool_decide; cbn; lia|cbn; lia]. }
  rewrite length_app. destruct D as [(_ & -> & ->)|(d & c & n & -> & _ & _ & -> & ->)]; [cbn; lia|].
  rewrite !length_app in *. cbn [length]. destruct n; cbn [is_empty length] in *; [|lia]. rewrite length_app in L. cbn in L. lia.
Qed.

Lemma archive_inj p b1 b2 n : archive_name p b1 = Ok n -> archive_name p b2 = Ok n -> b1 = b2.
Proof. destruct (archive_form p) as (a & b & _ & _ & E). rewrite !E. intros [= <-] [= X%app_inv_head%app_inv_tail]. done. Qed.

Lemma archive_other p buf n : (2 <= length buf)%nat -> archive_name p buf = Ok n -> n <> p /\ n <> [].
Proof.
  destruct (archive_form p) as (a & b & Na & L & E). intros Lb. rewrite E. intros [= <-]. split; [|by destruct a].
  intros X. rewrite <- X, !length_app in L. lia.
Qed.

Lemma length_pad w n : (1 <= w)%nat -> 0 <= n < 10 ^ Z.of_nat w -> length (pad w n) = w.
Proof.
  intros W R. unfold pad. rewrite (proj2 (Z.ltb_ge n 0)) by lia. rewrite length_app, length_replicate. pose proof (length_dec n w R W). lia.
Qed.

Lemma pad_inj w n m : 0 <= n < 2 ^ 64 -> 0 <= m < 2 ^ 64 -> pad w n = pad w m -> n = m.
Proof.
  intros N M. unfold pad. rewrite !(proj2 (Z.ltb_ge _ 0)) by lia. intros E. rewrite <- (dec_value n N), <- (dec_value m M).
  assert (Z : forall k s, fold_left (fun n c => 10 * n + (b2z c - 48)) (replicate k x30 ++ s) 0 = fold_left (fun n c => 10 * n + (b2z c - 48)) s 0).
  { induction k as [|k IH]; intros s; [done|]. cbn [replicate app fold_left]. apply (IH s). }
  by rewrite <- (Z (w - length (dec n))%nat), E, Z.
Qed.

(** The time of a calendar, where the years have four digits. *)
Record civil (t : Now) : Prop := {
  civil_year : 0 <= year t < 10 ^ 4; civil_month : 0 <= month t < 10 ^ 2; civil_day : 0 <= day t < 10 ^ 2;
  civil_hour : 0 <= hour t < 10 ^ 2; civil_minute : 0 <= minute t < 10 ^ 2; civil_second : 0 <= second t < 10 ^ 2;
}.

Lemma app_inj_length {A} (a b c d : list A) : length a = length c -> a ++ b = c ++ d -> a = c /\ b = d.
Proof. apply app_inj_1. Qed.

Lemma pads_inj w n m s t : (1 <= w)%nat -> Z.of_nat w <= 6 -> 0 <= n < 10 ^ Z.of_nat w -> 0 <= m < 10 ^ Z.of_nat w -> pad w n ++ s = pad w m ++ t -> n = m /\ s = t.
Proof.
  intros W W6 N M E. apply app_inj_length in E as [E ->]; [|by rewrite !length_pad]. pose proof (Z.pow_le_mono_r 10 (Z.of_nat w) 6 ltac:(lia) W6).
  apply pad_inj in E; [done|lia|lia].
Qed.

#[local] Ltac next_field E :=
  first [apply (pads_inj 4) in E as [? E]; [|lia|lia|by apply civil_year|by apply civil_year]
        |apply (pads_inj 2) in E as [? E]; [|lia|lia|(by apply civil_month) || (by apply civil_day) || (by apply civil_hour) || (by apply civil_minute)
           |(by apply civil_month) || (by apply civil_day) || (by apply civil_hour) || (by apply civil_minute)]].

Lemma day_suffix_inj t u s s' : civil t -> civil u -> day_suffix t ++ s = day_suffix u ++ s' ->
  year t = year u /\ month t = month u /\ day t = day u /\ s = s'.
Proof.
  intros T U E. unfold day_suffix in E. rewrite <- !app_assoc in E. apply app_inj_length in E as [_ E]; [|done].
  next_field E. apply app_inj_length in E as [_ E]; [|done]. next_field E. apply app_inj_length in E as [_ E]; [|done]. next_field E. done.
Qed.

Lemma hour_suffix_inj t u s s' : civil t -> civil u -> hour_suffix t ++ s = hour_suffix u ++ s' ->
  year t = year u /\ month t = month u /\ day t = day u /\ hour t = hour u /\ s = s'.
Proof.
  intros T U E. unfold hour_suffix in E. rewrite <- !app_assoc in E. apply day_suffix_inj in E as (Y & M & D & E); [|done..].
  apply app_inj_length in E as [_ E]; [|done]. next_field E. done.
Qed.

Lemma length_day_suffix t : civil t -> length (day_suffix t) = 11%nat.
Proof. intros [Y M D _ _ _]. unfold day_suffix. rewrite !length_app, !length_pad by (lia || done). done. Qed.

Lemma suffix_long t : civil t -> (2 <= length (day_suffix t) /\ 2 <= length (hour_suffix t) /\ 2 <= length (minute_suffix t))%nat.
Proof. intros T. unfold minute_suffix, hour_suffix. rewrite !length_app, (length_day_suffix t T). lia. Qed.

(** Two archives of a file that is rotated by the minute have the same name only in the same
    minute, and no archive takes the name of its file. *)
Theorem Archive_names p t u n : civil t -> civil u -> archive_name p (minute_suffix t) = Ok n ->
  n <> p /\ n <> [] /\ (archive_name p (minute_suffix u) = Ok n ->
    year t = year u /\ month t = month u /\ day t = day u /\ hour t = hour u /\ minute t = minute u).
Proof.
  intros T U E. destruct (archive_other p _ n (proj2 (proj2 (suffix_long t T))) E) as [Np Nn]. split_and!; [done|done|]. intros E'.
  pose proof (archive_inj _ _ _ _ E E') as X. unfold minute_suffix in X. apply hour_suffix_inj in X as (Y & M & D & Hr & X); [|done..].
  rewrite <- (app_nil_r (pad 2 (minute t))), <- (app_nil_r (pad 2 (minute u))) in X. next_field X. done.
Qed.
(** ** What the appender and the checks do is such a history *)

Lemma archive_total p buf : exists n, archive_name p buf = Ok n /\ n <> [].
Proof. destruct (archive_form p) as (a & b & Na & _ & E). exists (a ++ buf ++ b). split; [done|by destruct a]. Qed.

Lemma rotate_to_run buf l f : exists name l' f', archive_name (m_filePath l) buf = Ok name /\ rotate_to buf l f = Ok (l', f') /\ rotate name l f = Ok (l', f').
Proof.
  destruct (archive_total (m_filePath l) buf) as (n & E & N). unfold rotate_to. rewrite E. cbn [rbind].
  destruct (history_ok [Rotate n] l f []) as (l' & f' & w & R); [by repeat constructor|]. cbn [run] in R. apply rbind_ok in R as ([l1 f1] & R & [= <- <- <-]). eauto 10.
Qed.

(** An append is a write, after a rotation or without; it never fails. *)
Lemma append_run s now micro l f : s <> [] ->
  exists ops n l' f' w, append s now micro l f = Ok (n, l', f') /\ run ops l f [] = Ok (l', f', w)
    /\ (ops = [Write s] \/ exists name, ops = [Rotate name; Write s] /\ archive_name (m_filePath l) (micro_suffix now micro) = Ok name).
Proof.
  intros N. destruct (history_ok [Write s] l f []) as (lw & fw & ww & W); [by repeat constructor|].
  destruct (rotate_to_run (micro_suffix now micro) l f) as (name & l1 & f1 & En & E1 & R1). unfold append, rotateBySize.
  destruct (_ && _); [destruct (m_maxFileSize l =? 0); [|destruct (file_size l f <? m_maxFileSize l)]|]; cbn [rbind];
    try (exists [Write s]; cbn [run] in *; destruct (writeLog s l f) as [[n f2]| |]; [|done|done]; injection W as <- <- <-; do 4 eexists; split_and!; [done|done|by left]).
  rewrite E1. cbn [rbind]. exists [Rotate name; Write s]. destruct (history_ok [Write s] l1 f1 []) as (l2 & f2 & w2 & W2); [by repeat constructor|].
  cbn [run] in *. rewrite R1. cbn [rbind]. destruct (writeLog s l1 f1) as [[n f3]| |]; [|done|done]. injection W2 as <- <- <-. do 4 eexists. split_and!; [done|done|right; eauto].
Qed.

(** A check does nothing to a file, or moves it to the archive of the time that has passed. *)
Lemma check_file_run mc hc dc last l f : exists ops l' f' w, check_file mc hc dc last l f = Ok (l', f') /\ run ops l f [] = Ok (l', f', w)
  /\ (ops = [] \/ exists name suffix, ops = [Rotate name] /\ archive_name (m_filePath l) suffix = Ok name
       /\ ((suffix = minute_suffix last /\ m_rotateType l = MINUTE) \/ (suffix = hour_suffix last /\ m_rotateType l = HOUR) \/ (suffix = day_suffix last /\ m_rotateType l = DAY))).
Proof.
  assert (R : forall suffix, exists ops l' f' w, rotate_with suffix l f = Ok (l', f') /\ run ops l f [] = Ok (l', f', w)
    /\ (ops = [] \/ exists name, ops = [Rotate name] /\ archive_name (m_filePath l) suffix = Ok name)).
  { intros suffix. unfold rotate_with. destruct (0 <? getFileSize l f); [|exists []; do 3 eexists; split_and!; [done|done|by left]].
    destruct (rotate_to_run suffix l f) as (name & l1 & f1 & En & E1 & R1). exists [Rotate name]. cbn [run]. rewrite R1. do 3 eexists. split_and!; [done|done|right; eauto]. }
  unfold check_file. destruct (mc && bool_decide (m_rotateType l = MINUTE)) eqn:Em; [|destruct (hc && bool_decide (m_rotateType l = HOUR)) eqn:Eh; [|destruct (dc && bool_decide (m_rotateType l = DAY)) eqn:Ed]].
  - apply andb_prop in Em as [_ Ty%bool_decide_eq_true]. destruct (R (minute_suffix last)) as (ops & l' & f' & w & E1 & E2 & [O|(n & O & En)]); exists ops, l', f', w; (split_and!; [done|done|]); [by left|right; eauto 10].
  - apply andb_prop in Eh as [_ Ty%bool_decide_eq_true]. destruct (R (hour_suffix last)) as (ops & l' & f' & w & E1 & E2 & [O|(n & O & En)]); exists ops, l', f', w; (split_and!; [done|done|]); [by left|right; eauto 10].
  - apply andb_prop in Ed as [_ Ty%bool_decide_eq_true]. destruct (R (day_suffix last)) as (ops & l' & f' & w & E1 & E2 & [O|(n & O & En)]); exists ops, l', f', w; (split_and!; [done|done|]); [by left|right; eauto 10].
  - exists []. do 3 eexists. split_and!; [done|done|by left].
Qed.

(** ** The limit of size *)

Lemma file_size_text l f : held l f -> 1 < m_fd l -> len (text f (m_filePath l)) < 2 ^ 63 -> file_size l f = len (text f (m_filePath l)).
Proof.
  intros [Hf _] G B. destruct Hf as [|[_ T]]; [lia|]. unfold file_size, getFileSize. rewrite (proj2 (Z.eqb_neq (m_fd l) (-1))) by lia.
  rewrite (size_law _ _ _ T). unfold len in *. rewrite Z.max_r, u64_small by lia. done.
Qed.

Lemma write_reliable s l f p : reliable -> s <> [] -> held l f -> 1 < m_fd l -> m_filePath l = p ->
  exists n f', writeLog s l f = Ok (n, f') /\ held l f' /\ text f' p = text f p ++ s /\ forall q, q <> p -> text f' q = text f q.
Proof.
  intros Re Ns Hl G <-. destruct (history_ok [Write s] l f []) as (l' & f' & w & E); [by repeat constructor|]. cbn [run] in E.
  apply rbind_ok in E as ([n f1] & E & _). destruct (write_held _ _ _ _ _ E Hl) as (H1 & _ & X & Y). exists n, f1. split_and!; try done.
  rewrite Y, (proj2 (Z.eqb_neq (m_fd l) (-1))) by lia. f_equal. unfold writeLog in E. destruct (is_empty s); [done|]. injection E as E. rewrite (proj2 (Z.eqb_neq (m_fd l) (-1))) in E by lia.
  destruct (held_fd _ _ Hl) as [|[_ Tl]]; [lia|]. pose proof (proj2 Re (m_fd l) s f ltac:(by eexists)) as Ew. rewrite E in Ew. cbn in Ew. subst n. apply take_ge. unfold len. lia.
Qed.

(** A file with a limit is moved away once it has reached it, and holds the message alone
    then; so it is never larger than the limit less one and the last message. *)
Theorem Size_limit s now micro l f name : reliable -> (forall a b f, fst (fs_rename a b f) = true) ->
  held l f -> 1 < m_fd l -> m_filePath l <> [] -> s <> [] -> len s < 2 ^ 63 -> len (text f (m_filePath l)) < 2 ^ 63 ->
  m_rotateType l = SIZE -> 0 < m_maxFileSize l -> civil now -> archive_name (m_filePath l) (micro_suffix now micro) = Ok name -> fresh f name ->
  exists n l' f', append s now micro l f = Ok (n, l', f') /\ held l' f' /\ 1 < m_fd l'
    /\ (if m_maxFileSize l <=? len (text f (m_filePath l))
         then text f' name = text f (m_filePath l) /\ text f' (m_filePath l) = s
         else text f' name = [] /\ text f' (m_filePath l) = text f (m_filePath l) ++ s)
    /\ len (text f' (m_filePath l)) <= m_maxFileSize l - 1 + len s.
Proof.
  intros Re Rn Hl G Np Ns Ls Lt Ty Po Ci En [Tn Xn]. set (p := m_filePath l) in *. assert (Lm : (2 <= length (micro_suffix now micro))%nat) by (unfold micro_suffix; rewrite length_app; pose proof (suffix_long now Ci); lia).
  destruct (archive_other p _ name Lm En) as [Nn Nn'].
  unfold append, rotateBySize. rewrite Ty, (bool_decide_true (SIZE = SIZE)), (proj2 (Z.ltb_lt 0 _)), file_size_text by done. fold p. cbn [andb].
  rewrite u64_small by (unfold len in *; lia). rewrite (proj2 (Z.eqb_neq (m_maxFileSize l) 0)) by lia.
  pose proof (fun l f => write_reliable s l f p Re Ns) as K.
  destruct (Z.leb_spec (m_maxFileSize l) (len (text f p))) as [C|C].
  - rewrite (proj2 (Z.ltb_lt _ (_ + _))), (proj2 (Z.ltb_ge _ (m_maxFileSize l))) by (unfold len in *; destruct s; [done|cbn [length] in *; lia]).
    destruct (rotate_to_run (micro_suffix now micro) l f) as (nm & l1 & f1 & En' & E1 & R1). fold p in En'. rewrite En' in En. injection En as ->. rewrite E1. cbn [rbind].
    destruct (rotate_held _ _ _ _ _ R1 Hl Np Nn Tn Xn) as (H1 & P1 & W1 & X1 & _). fold p in P1, W1, X1.
    assert (V : text f1 name = text f p /\ text f1 p = []) by (by eapply rotate_moves). destruct V as [V1 V2].
    destruct (K l1 f1 H1 ltac:(by eapply (rotate_reliable name l f)) P1) as (n & f2 & Ew & H2 & Y & Z). rewrite Ew. cbn [rbind]. exists n, l1, f2. rewrite Y, V2, Z, V1 by done.
    split_and!; try done; [by eapply (rotate_reliable name l f)|cbn; lia].
  - destruct (_ <? len (text f p) + len s); [rewrite (proj2 (Z.ltb_lt (len (text f p)) _)) by lia|]; cbn [rbind];
      destruct (K l f Hl G eq_refl) as (n & f2 & Ew & H2 & Y & Z); rewrite Ew; cbn [rbind]; exists n, l, f2; rewrite Y, Z by done;
      (split_and!; try done; unfold len in *; rewrite length_app; lia).
Qed.
End history.

(** ** A file system in memory, and instances *)

(** The paths of the open descriptors, from 2 on, and the texts. *)
Record Disk := mkDisk { d_open : list (option (list byte)); d_text : gmap (list byte) (list byte) }.

Definition d_target (f : Disk) (d : Z) : option (list byte) := if d <? 2 then None else mjoin (d_open f !! Z.to_nat (d - 2)).
Definition d_at (f : Disk) (p : list byte) : list byte := default [] (d_text f !! p).

#[global] Instance Disk_system : FileSystem Disk := {
  fs_open p f := Some (2 + len (d_open f), mkDisk (d_open f ++ [Some p]) (d_text f));
  fs_close d f := if d <? 2 then f else mkDisk (<[Z.to_nat (d - 2) := None]> (d_open f)) (d_text f);
  fs_write d s f := (len s, match d_target f d with Some p => mkDisk (d_open f) (<[p := d_at f p ++ s]> (d_text f)) | None => f end);
  fs_rename a b f := (true, mkDisk (d_open f) (delete a (<[b := d_at f a]> (d_text f))));
  fs_size d f := match d_target f d with Some p => len (d_at f p) | None => 0 end;
}.

#[global] Program Instance Disk_laws : FileSystemLaws Disk := {| text := d_at; target := d_target |}.
Next Obligation. intros d f p. unfold d_target. destruct (Z.ltb_spec d 2); [done|]. lia. Qed.
Next Obligation.
  intros p f fd f' [= <- <-]. unfold d_target, len. cbn [d_open]. split_and!; [lia| | |done].
  - rewrite (proj2 (Z.ltb_ge _ 2)), lookup_ge_None_2 by lia. done.
  - intros d. destruct (Z.ltb_spec d 2); [rewrite bool_decide_false by lia; done|]. case_bool_decide as E.
    + subst d. replace (Z.to_nat (2 + Z.of_nat (length (d_open f)) - 2)) with (length (d_open f)) by lia. by rewrite list_lookup_middle.
    + destruct (decide (Z.to_nat (d - 2) < length (d_open f))%nat); [by rewrite lookup_app_l|]. rewrite !lookup_ge_None_2; [done|lia|rewrite length_app; cbn; lia].
Qed.
Next Obligation.
  intros d f. unfold d_target. cbn [fs_close Disk_system]. destruct (Z.ltb_spec d 2) as [L|L]; [split; [|done]; intros e; case_bool_decide; [subst; by rewrite (proj2 (Z.ltb_lt d 2))|done]|].
  cbn [d_open d_text]. split; [|done]. intros e. destruct (Z.ltb_spec e 2); [by case_bool_decide|]. case_bool_decide as E.
  - subst e. destruct (decide (Z.to_nat (d - 2) < length (d_open f))%nat); [by rewrite list_lookup_insert_eq|]. rewrite list_insert_ge, lookup_ge_None_2 by lia. done.
  - by rewrite list_lookup_insert_ne by lia.
Qed.
Next Obligation.
  intros d s f n f' [= <- <-]. split; [intros e; by destruct (d_target f d)|]. destruct (d_target f d) as [p|]; [|done]. split; [done|]. intros q. unfold d_at. cbn [d_text].
  case_bool_decide as E; [subst; rewrite lookup_insert_eq; cbn; unfold len; by rewrite Nat2Z.id, firstn_all|by rewrite lookup_insert_ne].
Qed.
Next Obligation.
  intros a b f ok f' N T [= <- <-]. split; [done|]. intros q. unfold d_at. cbn [d_text]. case_bool_decide as E1; [subst; by rewrite lookup_delete_ne, lookup_insert_eq by done|].
  case_bool_decide as E2; [subst; by rewrite lookup_delete_eq|by rewrite lookup_delete_ne, lookup_insert_ne by done].
Qed.
Next Obligation. intros d f p E. cbn [fs_size Disk_system]. by rewrite E. Qed.

Definition app_log : LogFile := mkLogFile 2 (bstr "log/app.log") SIZE 10.
Definition disk0 : Disk := mkDisk [Some (bstr "log/app.log")] (<[bstr "log/app.log" := bstr "nine byte"]> ∅).
Definition noon : Now := mkNow 2024 5 1 12 0 30.

Lemma disk0_held : held app_log disk0.
Proof.
  constructor; [right; split; done|]. intros d. cbn. unfold d_target. cbn [d_open disk0]. destruct (Z.ltb_spec d 2); [done|]. destruct (Z.to_nat (d - 2)) as [|k] eqn:E; [lia|done].
Qed.

Lemma disk0_fresh name : name <> bstr "log/app.log" -> fresh disk0 name.
Proof.
  intros N. split; [|cbn; unfold d_at; cbn [d_text disk0]; by rewrite lookup_insert_ne]. intros d. cbn. unfold d_target. cbn [d_open disk0].
  destruct (Z.ltb_spec d 2); [done|]. destruct (Z.to_nat (d - 2)) as [|k]; [|done]. intros [= E]. by apply N.
Qed.

Lemma disk_reliable : reliable (F := Disk).
Proof. split; [intros p f; by eexists|done]. Qed.

Definition day_log : list file_op := [Write (bstr " and more"); Rotate (bstr "a"); Write (bstr "x"); Rotate (bstr "b"); Write (bstr "yz")].

Lemma Rotation_keeps_witness : exists l' f' written, run day_log app_log disk0 [] = Ok (l', f', written)
  /\ whole [bstr "a"; bstr "b"] (bstr "log/app.log") f' = bstr "nine byte and morexyz".
Proof.
  destruct (Rotation_keeps day_log app_log disk0 disk0_held) as (l' & f' & w & E & _ & R0).
  - done.
  - by repeat constructor.
  - assert (K : forall n, n <> bstr "log/app.log" -> unopened disk0 n) by (intros n N; by destruct (disk0_fresh n N)).
    apply Forall_cons; [by apply K|apply Forall_cons; [by apply K|by apply Forall_nil]].
  - apply (bool_decide_unpack _). vm_compute. done.
  - destruct R0 as (_ & W & R); [apply (bool_decide_unpack _); vm_compute; done|by repeat constructor|]. exists l', f', w. split; [done|]. rewrite R in W by (try apply disk_reliable; done). exact W.
Defined.

Lemma Archive_names_witness : exists n, archive_name (bstr "log/app.log") (minute_suffix noon) = Ok n /\ n <> bstr "log/app.log".
Proof.
  exists (bstr "log/app_2024-05-01T1200.log"). split; [vm_compute; reflexivity|].
  assert (C : civil noon) by (constructor; cbn; lia). by destruct (Archive_names (bstr "log/app.log") noon noon (bstr "log/app_2024-05-01T1200.log") C C) as (N & _ & _).
Defined.

(** The file reaches its limit by a message that would have passed it, and only then is moved. *)
Lemma Size_limit_witness : exists n l' f', append (bstr "12345") noon 7 app_log disk0 = Ok (n, l', f') /\ text f' (bstr "log/app.log") = bstr "nine byte12345".
Proof.
  destruct (Size_limit (bstr "12345") noon 7 app_log disk0 (bstr "log/app_2024-05-01T120030.000007.log")) as (n & l' & f' & E & _ & _ & X & _);
    [apply disk_reliable|done|apply disk0_held|done..|constructor; cbn; lia|vm_compute; reflexivity|by apply disk0_fresh|].
  exists n, l', f'. split; [done|]. exact (proj2 X).
Defined.

(** What another thread writes while the file is between its names is on the standard output. *)
Example written_between : let (l, f) := rotate_close app_log disk0 in
  m_fd l = -1 /\ exists n f', writeLog (bstr "lost") l f = Ok (n, f') /\ whole [] (m_filePath l) f' = bstr "nine byte".
Proof. vm_compute. split; [done|]. by eexists _, _. Qed.

(** Two rotations of the same minute, as when the clock is set back between them: the second
    archive is put in the place of the first, whose messages are gone. *)
Definition twice_in_a_minute : res (list byte * list byte * list byte) :=
  let! n := archive_name (bstr "log/app.log") (minute_suffix noon) in
  let! (l1, f1) := rotate_with (minute_suffix noon) app_log disk0 in
  let! (_, f2) := writeLog (bstr "later") l1 f1 in
  let! (l3, f3) := rotate_with (minute_suffix noon) l1 f2 in
  Ok (d_at f1 n, d_at f3 n, d_at f3 (bstr "log/app.log")).

Example archive_replaced : twice_in_a_minute = Ok (bstr "nine byte", bstr "later", []).
Proof. vm_compute. reflexivity. Qed.
