(* ===== verification/Log.v ===== *)
(** Logging (src/log/log_level.cpp, log_event.cpp, log_formatter.cpp, log_appender.cpp,
    logger.cpp, logger_manager.cpp, log_config.cpp): patterns and what they print, loggers
    and their appenders, the manager, and what a new configuration does to it. Files are
    those of LogFile.v. *)
From S2P Require Import Prelude CppString Number LogFile.

(** ** Levels *)

Definition UNKNOWN : Z := 0.
Definition DEBUG : Z := 1.
Definition INFO : Z := 2.
Definition WARN : Z := 3.
Definition ERROR : Z := 4.
Definition FATAL : Z := 5.

Definition Level_ToString (level : Z) : list byte :=
  bstr (if level =? DEBUG then "DEBUG" else if level =? INFO then "INFO" else if level =? WARN then "WARN"
        else if level =? ERROR then "ERROR" else if level =? FATAL then "FATAL" else "UNKNOWN").

Definition Level_FromString (str : list byte) : res Z :=
  if is_empty str then Crash assertion_failed
  else
    let named l := existsb (fun s => bool_decide (str = bstr s)) l in
    Ok (if named ["debug"; "Debug"; "DEBUG"]%string then DEBUG
        else if named ["info"; "Info"; "INFO"]%string then INFO
        else if named ["warn"; "Warn"; "WARN"]%string then WARN
        else if named ["error"; "Error"; "ERROR"]%string then ERROR
        else if named ["fatal"; "Fatal"; "FATAL"]%string then FATAL
        else UNKNOWN).

(** ** Events *)

(** A logger is named, and its name does not change; a file name may be null. *)
Record LogEvent := mkLogEvent {
  m_fileName : option (list byte); m_line : Z; m_elapse : Z; m_threadId : Z; m_threadName : list byte;
  m_CoroutineId : Z; m_time : Z; m_level : Z; m_message : list byte; m_logger : list byte;
}.

Definition getRelativeFileName (e : LogEvent) : res (list byte) :=
  match m_fileName e with
  | None => Ok []
  | Some file_name =>
      match find_last_of (bstr "/") file_name with
      | Some pos =>
          match find_sub (bstr "CIM/") file_name with
          | Some CIM_pos => substr_from file_name (CIM_pos + 4)
          | None => substr_from file_name (pos + 1)
          end
      | None => Ok file_name
      end
  end.

(** ** Patterns *)

Inductive FormatItem :=
  | MessageFormatItem | LevelFormatItem | ElapseFormatItem | NameFormatItem | ThreadIdFormatItem | ThreadNameFormatItem
  | NewLineFormatItem | DateTimeFormatItem | FileNameFormatItem | LineFormatItem | TabFormatItem | FiberIdFormatItem
  | StringFormatItem (m_string : list byte).

#[global] Instance FormatItem_eq_dec : EqDecision FormatItem.
Proof. solve_decision. Defined.

Record LogFormatter := mkLogFormatter { m_pattern : list byte; m_items : list FormatItem; m_isError : bool }.

Definition percent : byte := x25.
Definition isalpha (c : byte) : bool := ((65 <=? b2z c) && (b2z c <=? 90)) || ((97 <=? b2z c) && (b2z c <=? 122)).

(** The letters in front of a text. *)
Fixpoint alphas (s : list byte) : list byte := match s with c :: s => if isalpha c then c :: alphas s else [] | [] => [] end.

(** [if (!nstr.empty()) vec.push_back({{nstr, 0}})]. *)
Definition flush (nstr : list byte) (vec : list (list byte * Z)) : list (list byte * Z) := if is_empty nstr then vec else vec ++ [(nstr, 0)].

(** The loop of [LogFormatter::init] over the pattern that is left: the pieces, and what is
    printed of errors, of which there is one where anything is. The first of two percent signs
    adds one, and the second is read next. *)
Fixpoint parse_loop (m_pattern : list byte) (fuel : nat) (pattern nstr : list byte) (vec : list (list byte * Z)) (printed : list byte)
  : res (list (list byte * Z) * list byte) :=
  match pattern with
  | [] => Ok (flush nstr vec, printed)
  | c :: rest =>
      match fuel with
      | O => Crash nontermination
      | S fuel =>
          if negb (is_char percent c) then parse_loop m_pattern fuel rest (nstr ++ [c]) vec printed
          else if match rest with d :: _ => is_char percent d | [] => false end then parse_loop m_pattern fuel rest (nstr ++ [percent]) vec printed
          else
            let str := alphas rest in
            if is_empty str then
              parse_loop m_pattern fuel rest nstr (vec ++ [(bstr "<<pattern_error>>", 0)])
                (printed ++ bstr "pattern parse error: " ++ m_pattern ++ bstr " - " ++ pattern ++ [x0a])
            else parse_loop m_pattern fuel (drop (length str) rest) [] (flush nstr vec ++ [(str, 1)]) printed
      end
  end.

Definition s_format_items : list (list byte * FormatItem) :=
  [(bstr "m", MessageFormatItem); (bstr "p", LevelFormatItem); (bstr "r", ElapseFormatItem); (bstr "c", NameFormatItem);
   (bstr "t", ThreadIdFormatItem); (bstr "N", ThreadNameFormatItem); (bstr "n", NewLineFormatItem); (bstr "d", DateTimeFormatItem);
   (bstr "f", FileNameFormatItem); (bstr "l", LineFormatItem); (bstr "T", TabFormatItem); (bstr "F", FiberIdFormatItem)].

Fixpoint find_item (content : list byte) (l : list (list byte * FormatItem)) : option FormatItem :=
  match l with (k, i) :: l => if bool_decide (k = content) then Some i else find_item content l | [] => None end.

(** The item of a piece, and whether its name is unknown. *)
Definition item_of (piece : list byte * Z) : FormatItem * bool :=
  let (content, type) := piece in
  if type =? 0 then (StringFormatItem content, false)
  else match find_item content s_format_items with Some i => (i, false) | None => (StringFormatItem (bstr "<<error_format %" ++ content ++ bstr ">>"), true) end.

(** The constructor, with what it prints. *)
Definition new_LogFormatter (pattern : list byte) : res (LogFormatter * list byte) :=
  if is_empty pattern then Crash assertion_failed
  else
    let! (vec, printed) := parse_loop pattern (length pattern) pattern [] [] [] in
    let items := map item_of vec in
    Ok (mkLogFormatter pattern (map fst items) (negb (is_empty printed) || existsb snd items), printed).

(** [os << n] of an [int32_t]. *)
Definition dec_int (n : Z) : list byte := if n <? 0 then bstr "-" ++ dec (- n) else dec n.

Section log.
(** [strftime] of the local time with the format of [DateTimeFormatItem]. *)
Context (local_time : Z -> list byte).
Context `{FileSystem F}.

Definition format_item (i : FormatItem) (e : LogEvent) : res (list byte) :=
  match i with
  | MessageFormatItem => Ok (m_message e)
  | LevelFormatItem => Ok (Level_ToString (m_level e))
  | ElapseFormatItem => Ok (dec (m_elapse e))
  | NameFormatItem => Ok (m_logger e)
  | ThreadIdFormatItem => Ok (dec (m_threadId e))
  | ThreadNameFormatItem => Ok (m_threadName e)
  | NewLineFormatItem => Ok [x0a]
  | DateTimeFormatItem => Ok (local_time (m_time e))
  | FileNameFormatItem => getRelativeFileName e
  | LineFormatItem => Ok (dec_int (m_line e))
  | TabFormatItem => Ok [x09]
  | FiberIdFormatItem => Ok (dec (m_CoroutineId e))
  | StringFormatItem s => Ok s
  end.

Fixpoint format_items (l : list FormatItem) (e : LogEvent) : res (list byte) :=
  match l with [] => Ok [] | i :: l => let! s := format_item i e in let! t := format_items l e in Ok (s ++ t) end.

Definition format (f : LogFormatter) (e : LogEvent) : res (list byte) := format_items (m_items f) e.

(** ** Appenders and loggers

    Appenders are shared: a logger holds their numbers. *)
Inductive output := StdoutLogAppender | FileLogAppender (fileName : list byte).

Record Appender := mkAppender { a_output : output; a_level : Z; a_formatter : option LogFormatter }.

Record Logger := mkLogger { l_level : Z; l_formatter : LogFormatter; m_appenders : list nat; m_root : option (list byte) }.

(** The loggers of the manager by name, the appenders there are, the files, the file system
    and what went to the standard output. *)
Record Logs := mkLogs { m_loggers : gmap (list byte) Logger; appenders : list Appender; files : LogFileManager; disk : F; out : list byte }.

Definition set_loggers (x : gmap (list byte) Logger) (w : Logs) : Logs := mkLogs x (appenders w) (files w) (disk w) (out w).
Definition set_appenders (x : list Appender) (w : Logs) : Logs := mkLogs (m_loggers w) x (files w) (disk w) (out w).
Definition set_files (x : LogFileManager) (d : F) (w : Logs) : Logs := mkLogs (m_loggers w) (appenders w) x d (out w).
Definition print (x : list byte) (w : Logs) : Logs := mkLogs (m_loggers w) (appenders w) (files w) (disk w) (out w ++ x).

Definition root_name : list byte := bstr "root".

(** The pattern of a new logger. *)
Definition default_pattern : list byte := bstr "%d%T%N%T%t%T%F%T[%p]%T[%c]%T<%f:%l>%T%m%n".

Definition new_Logger (name : list byte) (root : option (list byte)) : res (Logger * list byte) :=
  if is_empty name then Crash assertion_failed else let! (f, printed) := new_LogFormatter default_pattern in Ok (mkLogger DEBUG f [] root, printed).

(** A pointer to an appender, or to a logger. *)
Definition appender (i : nat) (w : Logs) : res Appender := deref (appenders w !! i).
Definition logger (name : list byte) (w : Logs) : res Logger := deref (m_loggers w !! name).
Definition put_appender (i : nat) (a : Appender) (w : Logs) : Logs := set_appenders (<[i := a]> (appenders w)) w.
Definition put_logger (name : list byte) (l : Logger) (w : Logs) : Logs := set_loggers (<[name := l]> (m_loggers w)) w.

(** [log] of an appender. *)
Definition appender_log (now : Now) (micro : Z) (i : nat) (e : LogEvent) (w : Logs) : res Logs :=
  let! a := appender i w in
  if a_level a <=? m_level e then
    let! f := deref (a_formatter a) in
    let! text := format f e in
    match a_output a with
    | StdoutLogAppender => Ok (print text w)
    | FileLogAppender fileName => let! (m, d) := log_to fileName text now micro (files w) (disk w) in Ok (set_files m d w)
    end
  else Ok w.

Fixpoint log_all (now : Now) (micro : Z) (l : list nat) (e : LogEvent) (w : Logs) : res Logs :=
  match l with [] => Ok w | i :: l => let! w := appender_log now micro i e w in log_all now micro l e w end.

(** [Logger::log]: to its appenders, or where it has none to the root. *)
Fixpoint Logger_log (depth : nat) (now : Now) (micro : Z) (name : list byte) (level : Z) (e : LogEvent) (w : Logs) : res Logs :=
  match depth with
  | O => Crash nontermination
  | S depth =>
      let! l := logger name w in
      if l_level l <=? level then
        match m_appenders l, m_root l with
        | [], Some root => Logger_log depth now micro root level e w
        | l, _ => log_all now micro l e w
        end
      else Ok w
  end.

(** The macro [CIM_LOG] with the destructor of [LogEventWrap]. The root has no root, so the
    depth is two. *)
Definition CIM_LOG (now : Now) (micro : Z) (name : list byte) (level : Z) (e : LogEvent) (w : Logs) : res Logs :=
  let! l := logger name w in
  if l_level l <=? level then Logger_log 2 now micro name (m_level e) e w else Ok w.

Definition setFormatter_of (i : nat) (f : LogFormatter) (w : Logs) : res Logs :=
  let! a := appender i w in Ok (put_appender i (mkAppender (a_output a) (a_level a) (Some f)) w).

Definition setLevel_of (i : nat) (level : Z) (w : Logs) : res Logs :=
  if level =? UNKNOWN then Crash assertion_failed
  else let! a := appender i w in Ok (put_appender i (mkAppender (a_output a) level (a_formatter a)) w).

(** [Logger::addAppender]: an appender without a formatter takes the one of the logger. *)
Definition addAppender (name : list byte) (i : nat) (w : Logs) : res Logs :=
  let! l := logger name w in
  let! a := appender i w in
  let! w := match a_formatter a with None => setFormatter_of i (l_formatter l) w | Some _ => Ok w end in
  Ok (put_logger name (mkLogger (l_level l) (l_formatter l) (m_appenders l ++ [i]) (m_root l)) w).

Fixpoint erase_first (i : nat) (l : list nat) : list nat := match l with j :: l => if (j =? i)%nat then l else j :: erase_first i l | [] => [] end.

Definition delAppender (name : list byte) (i : nat) (w : Logs) : res Logs :=
  let! l := logger name w in Ok (put_logger name (mkLogger (l_level l) (l_formatter l) (erase_first i (m_appenders l)) (m_root l)) w).

Definition clearAppender (name : list byte) (w : Logs) : res Logs :=
  let! l := logger name w in Ok (put_logger name (mkLogger (l_level l) (l_formatter l) [] (m_root l)) w).

Definition setLevel (name : list byte) (level : Z) (w : Logs) : res Logs :=
  if level =? UNKNOWN then Crash assertion_failed
  else let! l := logger name w in Ok (put_logger name (mkLogger level (l_formatter l) (m_appenders l) (m_root l)) w).

Definition setFormatter (name : list byte) (f : LogFormatter) (w : Logs) : res Logs :=
  let! l := logger name w in Ok (put_logger name (mkLogger (l_level l) f (m_appenders l) (m_root l)) w).

(** Of a pattern: one with an error is reported on the standard output and left. *)
Definition setFormatter_pattern (name val : list byte) (w : Logs) : res Logs :=
  let! (f, printed) := new_LogFormatter val in
  if m_isError f then Ok (print (printed ++ bstr "Logger setFormatter name=" ++ name ++ bstr " value=" ++ val ++ bstr " invalid formatter" ++ [x0a]) w)
  else setFormatter name f (print printed w).

(** ** The manager *)

(** A new appender and its number. *)
Definition new_appender (o : output) (w : Logs) : nat * Logs := (length (appenders w), set_appenders (appenders w ++ [mkAppender o DEBUG None]) w).

Definition new_LoggerManager (m : LogFileManager) (d : F) : res Logs :=
  let! (root, printed) := new_Logger root_name None in
  let (i, w) := new_appender StdoutLogAppender (mkLogs {[root_name := root]} [] m d printed) in addAppender root_name i w.

Definition getLogger (name : list byte) (w : Logs) : res Logs :=
  if is_empty name then Crash assertion_failed
  else match m_loggers w !! name with Some _ => Ok w | None => let! (l, printed) := new_Logger name (Some root_name) in Ok (put_logger name l (print printed w)) end.

(** ** Configuration *)

Record LogAppenderDefine := mkAppenderDefine { d_type : Z; d_level : Z; d_formatter : list byte; d_path : list byte; d_rotateType : RotateType; d_maxFileSize : Z }.
Record LogDefine := mkLogDefine { d_name : list byte; d_llevel : Z; d_lformatter : list byte; d_appenders : list LogAppenderDefine }.

Section config.
(** The time, and the event of a message at a level of the logger "system". *)
Context (now : Now) (micro : Z) (event : Z -> list byte -> LogEvent).

Definition system_log (level : Z) (message : list byte) (w : Logs) : res Logs := CIM_LOG now micro (bstr "system") level (event level message) w.

(** The appender of a type: null where the type is neither. *)
Definition create_appender (j : LogAppenderDefine) (w : Logs) : res (option nat * Logs) :=
  if d_type j =? 1 then
    let! (m, d) := open_log (d_path j) (files w) (disk w) in
    let (i, w) := new_appender (FileLogAppender (d_path j)) (set_files m d w) in Ok (Some i, w)
  else if d_type j =? 2 then let (i, w) := new_appender StdoutLogAppender w in Ok (Some i, w)
  else let! w := system_log ERROR (bstr "type not FileLogAppender or StdoutLogAppender") w in Ok (None, w).

(** [setRotateType] and [setMaxFileSize] on the file of an appender. *)
Definition set_rotation (j : LogAppenderDefine) (w : Logs) : res Logs :=
  if bool_decide (d_rotateType j = NONE) || negb (d_type j =? 1) then Ok w
  else
    let! l := deref (logs_get (d_path j) (m_logs (files w))) in
    Ok (set_files (set_logs (logs_put (d_path j) (setMaxFileSize (d_maxFileSize j) (setRotateType (d_rotateType j) l)) (m_logs (files w))) (files w)) (disk w) w).

Definition configure_appender (i : LogDefine) (j : LogAppenderDefine) (w : Logs) : res Logs :=
  let! (ap, w) := create_appender j w in
  let! a := deref ap in
  let! w := setLevel_of a (if negb (d_level j =? UNKNOWN) then d_level j else d_llevel i) w in
  let! w :=
    if is_empty (d_formatter j) then Ok w
    else let! (f, printed) := new_LogFormatter (d_formatter j) in if m_isError f then Ok (print printed w) else setFormatter_of a f (print printed w) in
  let! w := set_rotation j w in
  addAppender (d_name i) a w.

Fixpoint configure_appenders (i : LogDefine) (l : list LogAppenderDefine) (w : Logs) : res Logs :=
  match l with [] => Ok w | j :: l => let! w := configure_appender i j w in configure_appenders i l w end.

Definition configure_logger (i : LogDefine) (w : Logs) : res Logs :=
  let! w := getLogger (d_name i) w in
  let! w := setLevel (d_name i) (d_llevel i) w in
  let! w := if is_empty (d_lformatter i) then Ok w else setFormatter_pattern (d_name i) (d_lformatter i) w in
  let! w := clearAppender (d_name i) w in
  configure_appenders i (d_appenders i) w.

Fixpoint configure_loggers (l : list LogDefine) (w : Logs) : res Logs :=
  match l with [] => Ok w | i :: l => let! w := configure_logger i w in configure_loggers l w end.

(** Above every level. *)
Definition off : Z := 100.

Definition remove_logger (i : LogDefine) (w : Logs) : res Logs :=
  let! w := getLogger (d_name i) w in
  let! w := setLevel (d_name i) off w in clearAppender (d_name i) w.

Fixpoint remove_loggers (new_val old_val : list LogDefine) (w : Logs) : res Logs :=
  match old_val with
  | [] => Ok w
  | i :: old_val =>
      let! w := if existsb (fun n => bool_decide (d_name n = d_name i)) new_val then Ok w else remove_logger i w in
      remove_loggers new_val old_val w
  end.

(** The listener of [LogInit]; sets of definitions are lists in the order of the names. *)
Definition config_changed (old_val new_val : list LogDefine) (w : Logs) : res Logs :=
  let! w := system_log INFO (bstr "logger config changed") w in
  let! w := configure_loggers new_val w in
  remove_loggers new_val old_val w.
End config.
End log.
Arguments Logs F : clear implicits.
