(* ===== verification/LogSpec.v ===== *)
(** What logging promises (Log.v): a pattern is read as its items, an event reaches the
    appenders that it should and nothing else, a configuration is what loggers do after it. *)
From S2P Require Import Prelude CppString Number LogFile LogFileSpec Log.

(** ** Patterns *)

(** What a pattern is made of: texts, and items by their names. *)
Inductive token := Text (s : list byte) | Item (name : list byte).

Definition render_token (t : token) : list byte := match t with Text s => s | Item name => percent :: name end.
Definition render (ts : list token) : list byte := concat (map render_token ts).
Definition piece (t : token) : list byte * Z := match t with Text s => (s, 0) | Item name => (name, 1) end.

Definition no_percent (s : list byte) : Prop := Forall (fun c => c <> percent) s.

(** Texts are not empty, have no percent sign and are not next to each other; a text after an
    item does not go on with its letters. *)
Fixpoint well_formed (ts : list token) : Prop :=
  match ts with
  | [] => True
  | Text s :: ts => s <> [] /\ no_percent s /\ match ts with Text _ :: _ => False | _ => True end /\ well_formed ts
  | Item name :: ts =>
      name <> [] /\ Forall (fun c => isalpha c = true) name
      /\ match ts with Text (c :: _) :: _ => isalpha c = false | _ => True end /\ well_formed ts
  end.

Lemma parse_text p fuel s r nstr vec printed : no_percent s -> (length (s ++ r) <= fuel)%nat ->
  exists fuel', (length r <= fuel')%nat /\ parse_loop p fuel (s ++ r) nstr vec printed = parse_loop p fuel' r (nstr ++ s) vec printed.
Proof.
  intros F. revert fuel nstr. induction F as [|c s C _ IH]; intros fuel nstr L; [exists fuel; split; [done|]; by rewrite app_nil_r|].
  cbn [app length] in L. destruct fuel as [|fuel]; [lia|]. cbn [app parse_loop]. unfold is_char at 1. rewrite bool_decide_false by done. cbn [negb].
  destruct (IH fuel (nstr ++ [c]) ltac:(lia)) as (fuel' & L' & E). exists fuel'. split; [done|]. by rewrite E, <- app_assoc.
Qed.

Lemma alphas_app name r : Forall (fun c => isalpha c = true) name -> match r with c :: _ => isalpha c = false | [] => True end -> alphas (name ++ r) = name.
Proof. induction 1 as [|c name C _ IH]; intros R; cbn; [destruct r as [|c r]; [done|]; cbn; by rewrite R|]. by rewrite C, IH. Qed.

Lemma percent_not_alpha : isalpha percent = false.
Proof. done. Qed.

Lemma after_item ts : well_formed ts -> match ts with Text (c :: _) :: _ => isalpha c = false | _ => True end ->
  match render ts with c :: _ => isalpha c = false | [] => True end.
Proof. destruct ts as [|[[|c s]|name] ts]; cbn; [done| |done|done]. by intros []. Qed.

Lemma parse_render p ts fuel vec : well_formed ts -> (length (render ts) <= fuel)%nat ->
  parse_loop p fuel (render ts) [] vec [] = Ok (vec ++ map piece ts, []).
Proof.
  revert fuel vec. induction ts as [ts IH] using (induction_ltof1 _ (@length token)); unfold ltof in IH; intros fuel vec W L.
  assert (Item_step : forall name ts' fuel nstr vec, (length ts' < length ts)%nat -> well_formed (Item name :: ts') -> (length (render (Item name :: ts')) <= fuel)%nat ->
    parse_loop p fuel (render (Item name :: ts')) nstr vec [] = Ok (flush nstr vec ++ map piece (Item name :: ts'), [])).
  { clear W L. intros name ts' fuel' nstr vec' Ls (N & A & T & W) L. change (render (Item name :: ts')) with (percent :: name ++ render ts') in *. cbn [length] in L. destruct fuel' as [|fuel']; [lia|].
    cbn [parse_loop]. unfold is_char at 1. rewrite bool_decide_true by done. cbn [negb]. pose proof (after_item ts' W T) as X.
    assert ((match name ++ render ts' with d :: _ => is_char percent d | [] => false end) = false) as ->.
    { destruct name as [|d name]; [done|]. cbn. apply bool_decide_eq_false. intros ->. by inversion A. }
    rewrite alphas_app by done. assert (is_empty name = false) as -> by (by destruct name). rewrite drop_app_length. rewrite length_app in L. rewrite IH by (done || lia).
    by rewrite <- app_assoc. }
  destruct ts as [|[s|name] ts].
  - destruct fuel; cbn; by rewrite app_nil_r.
  - destruct W as (N & P & T & W). change (render (Text s :: ts)) with (s ++ render ts) in *.
    destruct (parse_text p fuel s (render ts) [] vec [] P L) as (fuel' & L' & ->). assert (Ef : flush ([] ++ s) vec = vec ++ [(s, 0)]) by (unfold flush; by destruct s).
    destruct ts as [|[s'|name] ts]; [|done|].
    + cbn [render map concat]. assert (E : forall n, parse_loop p n [] ([] ++ s) vec [] = Ok (flush ([] ++ s) vec, [])) by (by destruct n). by rewrite E, Ef.
    + rewrite Item_step by (try done; cbn [length]; lia). rewrite Ef, <- app_assoc. done.
  - rewrite Item_step by (try done; cbn [length]; lia). done.
Qed.

(** No pattern runs out of fuel. *)
Lemma parse_total p fuel pattern nstr vec printed : (length pattern <= fuel)%nat -> exists r, parse_loop p fuel pattern nstr vec printed = Ok r.
Proof.
  revert pattern nstr vec printed. induction fuel as [|fuel IH]; intros pattern nstr vec printed L; (destruct pattern as [|c rest]; [by eexists|]); cbn [length] in L; [lia|].
  cbn [parse_loop]. destruct (negb _); [apply IH; lia|]. destruct (match rest with d :: _ => _ | [] => _ end); [apply IH; lia|].
  destruct (is_empty (alphas rest)); apply IH; [lia|rewrite length_drop; lia].
Qed.

Lemma formatter_total pattern : pattern <> [] -> exists f printed, new_LogFormatter pattern = Ok (f, printed) /\ m_pattern f = pattern.
Proof.
  intros N. unfold new_LogFormatter. assert (is_empty pattern = false) as -> by (by destruct pattern).
  destruct (parse_total pattern (length pattern) pattern [] [] [] ltac:(lia)) as ([vec printed] & ->). cbn [rbind]. by do 2 eexists.
Qed.

Definition known (t : token) : bool := match t with Text _ => true | Item name => bool_decide (is_Some (find_item name s_format_items)) end.

(** C36: A pattern that is written from texts and items is read as them, in their order; it is an
    error exactly where a name is not one of the table. *)
Theorem Pattern_roundtrip ts : ts <> [] -> well_formed ts ->
  exists f, new_LogFormatter (render ts) = Ok (f, []) /\ m_pattern f = render ts
    /\ m_items f = map (fun t => fst (item_of (piece t))) ts /\ m_isError f = negb (forallb known ts).
Proof.
  intros N W. unfold new_LogFormatter. assert (is_empty (render ts) = false) as ->.
  { destruct ts as [|[s|name] ts]; [done| |done]. destruct W as [S _]. by destruct s. }
  rewrite parse_render by done. cbn [rbind app]. eexists. split; [done|]. cbn. rewrite !map_map. split_and!; [done|done|].
  clear. induction ts as [|t ts IH]; [done|]. cbn [map existsb forallb]. rewrite IH, negb_andb. f_equal. destruct t as [s|name]; [done|].
  unfold known, piece, item_of. change (1 =? 0) with false. cbv iota beta.
  destruct (find_item name s_format_items); cbn [snd]; [by rewrite bool_decide_true by eauto|by rewrite bool_decide_false by (intros [? X]; discriminate X)].
Qed.

(** ** Where an event goes *)

Section dispatch.
Context (local_time : Z -> list byte).
Context `{FileSystem F}.
#[local] Abbreviation format := (format local_time).

Lemma file_name_total e : exists s, getRelativeFileName e = Ok s.
Proof.
  unfold getRelativeFileName. destruct (m_fileName e) as [n|]; [|by eexists]. destruct (find_last_of (bstr "/") n) as [pos|] eqn:E; [|by eexists].
  destruct (find_sub (bstr "CIM/") n) as [c|] eqn:Ec.
  - apply find_sub_some in Ec as [Ec _]. rewrite substr_from_ok; [by eexists|]. apply (f_equal length) in Ec. rewrite !length_app, length_take in Ec. cbn in Ec. lia.
  - apply find_last_if_some in E as (a & x & b & -> & <- & _). rewrite substr_from_ok; [by eexists|]. rewrite length_app. cbn. lia.
Qed.

Lemma format_total f e : exists s, format f e = Ok s.
Proof.
  unfold Log.format. induction (m_items f) as [|i l [t IH]]; [by eexists|]. cbn [format_items]. assert (exists s, format_item local_time i e = Ok s) as [s ->] by (destruct i; cbn; eauto using file_name_total).
  rewrite IH. by eexists.
Qed.

Definition text_of (f : LogFormatter) (e : LogEvent) : list byte := match format f e with Ok s => s | _ => [] end.

Lemma format_text f e : format f e = Ok (text_of f e).
Proof. unfold text_of. by destruct (format_total f e) as [s ->]. Qed.

(** A manager as it is built and used: its root has no root, its other loggers have that one,
    and every appender has a formatter and the file it names. *)
Definition ok_output (o : output) (m : LogFileManager) : Prop := match o with FileLogAppender n => is_Some (logs_get n (m_logs m)) | StdoutLogAppender => True end.

Definition ok_appender (w : Logs F) (i : nat) : Prop :=
  exists a, appenders w !! i = Some a /\ is_Some (a_formatter a) /\ ok_output (a_output a) (files w).

Record wf_logs (w : Logs F) : Prop := {
  wf_root : is_Some (m_loggers w !! root_name);
  wf_logger name l : m_loggers w !! name = Some l ->
    (name = root_name -> Log.m_root l = None) /\ (Log.m_root l = None \/ Log.m_root l = Some root_name) /\ Forall (ok_appender w) (m_appenders l);
}.

(** The appenders of a logger, or of the root where it has none, as the levels let it. *)
Definition effective (w : Logs F) (name : list byte) (level : Z) : list nat :=
  match m_loggers w !! name with
  | Some l =>
      if l_level l <=? level then
        match m_appenders l, Log.m_root l with
        | [], Some root => match m_loggers w !! root with Some r => if l_level r <=? level then m_appenders r else [] | None => [] end
        | ids, _ => ids
        end
      else []
  | None => []
  end.

(** What an appender takes of an event, for the standard output or a file. *)
Definition taken (w : Logs F) (e : LogEvent) (i : nat) : option (output * list byte) :=
  match appenders w !! i with
  | Some a => if a_level a <=? m_level e then match a_formatter a with Some f => Some (a_output a, text_of f e) | None => None end else None
  | None => None
  end.

Definition to_stdout (w : Logs F) (e : LogEvent) (ids : list nat) : list byte :=
  concat (omap (fun i => match taken w e i with Some (StdoutLogAppender, t) => Some t | _ => None end) ids).

Definition to_files (w : Logs F) (e : LogEvent) (ids : list nat) : list (list byte * list byte) :=
  omap (fun i => match taken w e i with Some (FileLogAppender n, t) => Some (n, t) | _ => None end) ids.

Fixpoint write_all (now : Now) (micro : Z) (l : list (list byte * list byte)) (m : LogFileManager) (d : F) : res (LogFileManager * F) :=
  match l with [] => Ok (m, d) | (n, t) :: l => let! (m, d) := log_to n t now micro m d in write_all now micro l m d end.

(** The text of an event for a file is not empty: [writeLog] asserts it. *)
Definition printable (w : Logs F) (e : LogEvent) : Prop := forall i n t, taken w e i = Some (FileLogAppender n, t) -> t <> [].

Lemma logs_get_put n k (l : LogFile) logs : logs_get n (logs_put k l logs) = if bool_decide (n = k) then Some l else logs_get n logs.
Proof.
  induction logs as [|[k' l'] logs IH]; cbn [logs_put logs_get]; [case_bool_decide; case_bool_decide; congruence|].
  destruct (key_compare k k') eqn:C; cbn [logs_get].
  - apply key_compare_eq in C. subst k'. repeat case_bool_decide; congruence.
  - repeat case_bool_decide; congruence.
  - rewrite IH. repeat case_bool_decide; try congruence. subst. by rewrite key_compare_refl in C.
Qed.

Lemma log_to_ok n t now micro m (d : F) : is_Some (logs_get n (m_logs m)) -> t <> [] ->
  exists m' d', log_to n t now micro m d = Ok (m', d') /\ forall k, is_Some (logs_get k (m_logs m)) -> is_Some (logs_get k (m_logs m')).
Proof.
  intros [l E] T. unfold log_to. rewrite E. cbn [deref rbind]. assert (A : exists k l' d', append t now micro l d = Ok (k, l', d')).
  { destruct (append_run t now micro l d T) as (_ & k & l' & d' & _ & A & _). eauto. }
  destruct A as (k & l' & d' & ->). cbn [rbind]. do 2 eexists. split; [done|]. intros q Q. cbn. rewrite logs_get_put. by case_bool_decide.
Qed.

(** Two managers with the same loggers and appenders, the second with the files of the first. *)
Definition same_logs (w w' : Logs F) : Prop :=
  m_loggers w' = m_loggers w /\ appenders w' = appenders w /\ forall k, is_Some (logs_get k (m_logs (files w))) -> is_Some (logs_get k (m_logs (files w'))).

Lemma same_ok w w' i : same_logs w w' -> ok_appender w i -> ok_appender w' i.
Proof.
  intros (L & A & G) (a & E & Fm & O). exists a. rewrite A. split_and!; [done|done|]. destruct (a_output a); [done|]. by apply G.
Qed.

Lemma same_wf w w' : same_logs w w' -> wf_logs w -> wf_logs w'.
Proof.
  intros S [R L]. pose proof S as (E & _). constructor; rewrite E; [done|]. intros n l El. destruct (L n l El) as (L1 & L2 & L3). split_and!; [done|done|].
  eapply List.Forall_impl; [|done]. intros i. by apply same_ok.
Qed.

Lemma log_all_ok now micro e ids : forall w, Forall (ok_appender w) ids -> printable w e ->
  exists w', log_all local_time now micro ids e w = Ok w' /\ same_logs w w' /\ out w' = out w ++ to_stdout w e ids
    /\ write_all now micro (to_files w e ids) (files w) (disk w) = Ok (files w', disk w').
Proof.
  induction ids as [|i ids IH]; intros w O P; [exists w; split_and!; try done; [unfold to_stdout; cbn; by rewrite app_nil_r]|].
  apply list.Forall_cons in O as [(a & Ea & [f Ef] & Oa) O]. cbn [log_all]. unfold appender_log, appender. rewrite Ea. cbn [deref rbind].
  assert (Et : taken w e i = if a_level a <=? m_level e then Some (a_output a, text_of f e) else None) by (unfold taken; by rewrite Ea, Ef).
  unfold to_stdout, to_files. cbn [omap list_omap]. rewrite Et. destruct (a_level a <=? m_level e).
  2:{ cbn [rbind]. destruct (IH w O P) as (w' & E & S & X & Y). exists w'. done. }
  rewrite Ef. cbn [deref rbind]. rewrite format_text. cbn [rbind]. destruct (a_output a) as [|n] eqn:Eo.
  - destruct (IH (print (text_of f e) w)) as (w' & E & S & X & Y); [done|done|]. exists w'. split_and!; [done|done| |done]. rewrite X. cbn [out print concat]. by rewrite <- app_assoc.
  - destruct (log_to_ok n (text_of f e) now micro (files w) (disk w) Oa (P i n _ Et)) as (m & d & El & G). rewrite El. cbn [rbind].
    assert (S1 : same_logs w (set_files m d w)) by done. destruct (IH (set_files m d w)) as (w' & E & (S2 & S3 & S4) & X & Y); [|done|].
    { eapply List.Forall_impl; [|done]. intros k. by apply same_ok. }
    exists w'. split_and!; [done|split_and!; [done|done|auto]|done|]. cbn [write_all]. rewrite El. cbn [rbind]. exact Y.
Qed.

Lemma effective_ok w name level : wf_logs w -> Forall (ok_appender w) (effective w name level).
Proof.
  intros [R L]. unfold effective. destruct (m_loggers w !! name) as [l|] eqn:E; [|constructor]. destruct (L _ _ E) as (_ & _ & L3). destruct (l_level l <=? level); [|constructor].
  destruct (m_appenders l); [|done]. destruct (Log.m_root l) as [r|]; [|constructor]. destruct (m_loggers w !! r) as [lr|] eqn:Er; [|constructor].
  destruct (L _ _ Er) as (_ & _ & L4). by destruct (l_level lr <=? level).
Qed.

Lemma CIM_LOG_effective now micro name e w : wf_logs w -> is_Some (m_loggers w !! name) ->
  CIM_LOG local_time now micro name (m_level e) e w = log_all local_time now micro (effective w name (m_level e)) e w.
Proof.
  intros [[r R] L] [l E]. unfold CIM_LOG, logger, effective. rewrite E. cbn [deref rbind Logger_log]. unfold logger. rewrite E. cbn [deref rbind].
  destruct (l_level l <=? m_level e) eqn:El; [|done]. destruct (L _ _ E) as (_ & Lr & _). destruct (m_appenders l) as [|i ids]; [|by destruct (Log.m_root l)].
  destruct Lr as [-> | ->]; [done|]. rewrite R. cbn [deref rbind]. destruct (L _ _ R) as (Rr & _). rewrite (Rr eq_refl). destruct (l_level r <=? m_level e); [|done].
  by destruct (m_appenders r).
Qed.

(** C35: An event reaches each appender of its logger, or of the root where that has none, once and
    in their order, as the levels of the loggers and of the appender let it; the standard
    output grows by those texts, the files are written the others, and nothing else changes. *)
Theorem Log_dispatch now micro name e w : wf_logs w -> is_Some (m_loggers w !! name) -> printable w e ->
  let ids := effective w name (m_level e) in
  exists w', CIM_LOG local_time now micro name (m_level e) e w = Ok w' /\ wf_logs w' /\ m_loggers w' = m_loggers w /\ appenders w' = appenders w
    /\ out w' = out w ++ to_stdout w e ids /\ write_all now micro (to_files w e ids) (files w) (disk w) = Ok (files w', disk w').
Proof.
  intros W N P ids. rewrite CIM_LOG_effective by done. destruct (log_all_ok now micro e ids w) as (w' & E & S & X & Y); [by apply effective_ok|done|].
  exists w'. split_and!; [done|by eapply same_wf|apply S|apply S|done|done].
Qed.

(** ** Configuration *)

Section config.
Context (now : Now) (micro : Z) (event : Z -> list byte -> LogEvent).

(** The formatter that a pattern gives, where it is given and has no error. *)
Definition pattern_or (pattern : list byte) (f : LogFormatter) : LogFormatter :=
  if is_empty pattern then f else match new_LogFormatter pattern with Ok (g, _) => if m_isError g then f else g | _ => f end.

(** The appender that a definition asks for. *)
Definition configured (i : LogDefine) (f : LogFormatter) (j : LogAppenderDefine) : Appender :=
  mkAppender (if d_type j =? 1 then FileLogAppender (d_path j) else StdoutLogAppender) (if negb (d_level j =? UNKNOWN) then d_level j else d_llevel i)
    (Some (pattern_or (d_formatter j) f)).

Definition valid_appender (j : LogAppenderDefine) : Prop := (d_type j = 1 /\ d_path j <> []) \/ d_type j = 2.
Definition valid_define (i : LogDefine) : Prop := d_name i <> [] /\ d_llevel i <> UNKNOWN /\ Forall valid_appender (d_appenders i).

(** The second manager has the loggers given and more appenders and files. *)
Definition grown (w w' : Logs F) (loggers : gmap (list byte) Logger) (more : list Appender) : Prop :=
  m_loggers w' = loggers /\ appenders w' = appenders w ++ more /\ forall k, is_Some (logs_get k (m_logs (files w))) -> is_Some (logs_get k (m_logs (files w'))).

Lemma grown_ok w w' loggers more i : grown w w' loggers more -> ok_appender w i -> ok_appender w' i.
Proof.
  intros (L & A & G) (a & E & Fm & O). exists a. rewrite A. split_and!; [by apply lookup_app_l_Some|done|]. destruct (a_output a); [done|]. by apply G.
Qed.

Lemma open_log_ok n m (d : F) : n <> [] ->
  exists m' d', open_log n m d = Ok (m', d') /\ is_Some (logs_get n (m_logs m')) /\ forall k, is_Some (logs_get k (m_logs m)) -> is_Some (logs_get k (m_logs m')).
Proof.
  intros N. unfold open_log, getLogFile. assert (is_empty n = false) as E by (by destruct n). rewrite E. destruct (logs_get n (m_logs m)) as [l|] eqn:G.
  - cbn [rbind]. destruct (openFile l d) as [[o l'] d']. do 2 eexists. split; [done|]. cbn. split; [rewrite logs_get_put, bool_decide_true; eauto|]. intros k K. rewrite logs_get_put. case_bool_decide; eauto.
  - unfold new_LogFile. rewrite E. cbn [rbind]. destruct (openFile _ d) as [[o l'] d']. do 2 eexists. split; [done|]. cbn. split; [rewrite logs_get_put, bool_decide_true; eauto|].
    intros k K. rewrite !logs_get_put. repeat case_bool_decide; eauto.
Qed.

Lemma create_appender_ok j w : valid_appender j ->
  exists w', create_appender local_time now micro event j w = Ok (Some (length (appenders w)), w')
    /\ grown w w' (m_loggers w) [mkAppender (a_output (configured (mkLogDefine [] 0 [] []) (mkLogFormatter [] [] false) j)) DEBUG None]
    /\ (d_type j = 1 -> is_Some (logs_get (d_path j) (m_logs (files w')))).
Proof.
  intros [[T N]|T]; unfold create_appender, configured; rewrite T.
  - destruct (open_log_ok (d_path j) (files w) (disk w) N) as (m & d & E & P & G). cbn [Z.eqb Pos.eqb]. rewrite E. cbn [rbind new_appender]. eexists. split; [done|]. split; [|done].
    split_and!; [done|done|exact G].
  - cbn [Z.eqb Pos.eqb new_appender]. eexists. split; [done|]. split; [split_and!; done|done].
Qed.

Lemma set_rotation_ok j w : (d_type j = 1 -> is_Some (logs_get (d_path j) (m_logs (files w)))) -> exists w', set_rotation j w = Ok w' /\ same_logs w w'.
Proof.
  intros P. unfold set_rotation. destruct (Z.eqb_spec (d_type j) 1) as [T|T]; cbn [negb]; [|rewrite orb_true_r; eexists; split; [done|]; split_and!; done].
  rewrite orb_false_r. case_bool_decide; [eexists; split; [done|]; split_and!; done|]. destruct (P T) as [l E]. rewrite E. cbn [deref rbind]. eexists. split; [done|].
  split_and!; [done|done|]. intros k K. cbn. rewrite logs_get_put. case_bool_decide; eauto.
Qed.

Lemma last_appender (l : list Appender) a : (l ++ [a]) !! length l = Some a.
Proof. by rewrite list_lookup_middle. Qed.

Lemma replace_last (l : list Appender) a b : <[length l := b]> (l ++ [a]) = l ++ [b].
Proof. replace (length l) with (length l + 0)%nat by lia. by rewrite insert_app_r. Qed.

(** A definition adds the appender it asks for, and nothing that was there changes but the
    list of its logger. *)
Lemma configure_appender_ok i j w l : m_loggers w !! d_name i = Some l -> valid_appender j -> d_llevel i <> UNKNOWN ->
  exists w', configure_appender local_time now micro event i j w = Ok w'
    /\ grown w w' (<[d_name i := mkLogger (l_level l) (l_formatter l) (m_appenders l ++ [length (appenders w)]) (Log.m_root l)]> (m_loggers w)) [configured i (l_formatter l) j]
    /\ ok_output (a_output (configured i (l_formatter l) j)) (files w').
Proof.
  intros El V Nl. unfold configure_appender. destruct (create_appender_ok j w V) as (w1 & -> & (L1 & A1 & G1) & P1). cbn [rbind deref]. unfold configured in A1 at 1. cbn [a_output] in A1.
  set (o := if d_type j =? 1 then _ else _) in *. set (k := length (appenders w)) in *. set (lvl := if negb (d_level j =? UNKNOWN) then d_level j else d_llevel i).
  assert (Nv : (lvl =? UNKNOWN) = false) by (unfold lvl; destruct (Z.eqb_spec (d_level j) UNKNOWN); cbn [negb]; by apply Z.eqb_neq).
  unfold setLevel_of. rewrite Nv. unfold appender. rewrite A1. unfold k at 1. rewrite last_appender. cbn [deref rbind a_output a_formatter].
  set (w2 := put_appender k _ w1). assert (A2 : appenders w2 = appenders w ++ [mkAppender o lvl None]) by (unfold w2; cbn; rewrite A1; apply replace_last).
  assert (S3 : exists w3 fo, (if is_empty (d_formatter j) then Ok w2
      else let! (f, printed) := new_LogFormatter (d_formatter j) in if m_isError f then Ok (print printed w2) else setFormatter_of k f (print printed w2)) = Ok w3
    /\ m_loggers w3 = m_loggers w /\ files w3 = files w1 /\ appenders w3 = appenders w ++ [mkAppender o lvl fo] /\ default (l_formatter l) fo = pattern_or (d_formatter j) (l_formatter l)).
  { unfold pattern_or. destruct (is_empty (d_formatter j)) eqn:Ee; [exists w2, None; done|]. destruct (formatter_total (d_formatter j)) as (f & pr & Ef & _); [by destruct (d_formatter j)|].
    rewrite Ef. cbn [rbind]. destruct (m_isError f); [exists (print pr w2), None; done|]. unfold setFormatter_of, appender. change (appenders (print pr w2)) with (appenders w2). rewrite A2. unfold k at 1. rewrite last_appender. cbn [deref rbind].
    eexists _, (Some f). split_and!; [done|done|done| |done]. change (<[length (appenders w) := mkAppender o lvl (Some f)]> (appenders w2) = appenders w ++ [mkAppender o lvl (Some f)]). rewrite A2. apply replace_last. }
  destruct S3 as (w3 & fo & E3 & L3 & F3 & A3 & D3). rewrite E3. cbn [rbind]. destruct (set_rotation_ok j w3) as (w4 & E4 & L4 & A4 & G4); [by rewrite F3|]. rewrite E4. cbn [rbind].
  unfold addAppender, logger, appender. rewrite L4, L3, A4, A3, El. cbn [deref rbind]. unfold k at 1. rewrite last_appender. cbn [deref rbind a_formatter].
  assert (Ok4 : ok_output o (files w4)).
  { unfold o. destruct (Z.eqb_spec (d_type j) 1) as [T|T]; [|done]. apply G4. rewrite F3. by apply P1. }
  assert (Gr : forall q, is_Some (logs_get q (m_logs (files w))) -> is_Some (logs_get q (m_logs (files w4)))) by (intros q Q; apply G4; rewrite F3; by apply G1).
  unfold grown, configured. fold o lvl. rewrite <- D3. destruct fo as [f|]; cbn [default rbind].
  - eexists. split; [done|]. cbn. rewrite L4, L3, A4, A3. done.
  - unfold setFormatter_of, appender. rewrite A4, A3. unfold k at 1. rewrite last_appender. cbn [deref rbind]. eexists. split; [done|]. cbn. unfold k. rewrite L4, L3, A4, A3, replace_last. done.
Qed.

Lemma grown_trans w1 w2 w3 m2 m3 a2 a3 : grown w1 w2 m2 a2 -> grown w2 w3 m3 a3 -> grown w1 w3 m3 (a2 ++ a3).
Proof. intros (_ & A2 & G2) (L3 & A3 & G3). split_and!; [done|by rewrite A3, A2, app_assoc|auto]. Qed.

Lemma ok_output_grown w w' m a o : grown w w' m a -> ok_output o (files w) -> ok_output o (files w').
Proof. intros (_ & _ & G). destruct o; [done|]. apply G. Qed.

Lemma configure_appenders_ok i js : forall w l, m_loggers w !! d_name i = Some l -> Forall valid_appender js -> d_llevel i <> UNKNOWN ->
  exists w', configure_appenders local_time now micro event i js w = Ok w'
    /\ grown w w' (<[d_name i := mkLogger (l_level l) (l_formatter l) (m_appenders l ++ seq (length (appenders w)) (length js)) (Log.m_root l)]> (m_loggers w))
         (map (configured i (l_formatter l)) js)
    /\ Forall (fun a => ok_output (a_output a) (files w')) (map (configured i (l_formatter l)) js).
Proof.
  induction js as [|j js IH]; intros w l El V Nl.
  - exists w. split; [done|]. split; [|constructor]. cbn. rewrite app_nil_r. assert (mkLogger (l_level l) (l_formatter l) (m_appenders l) (Log.m_root l) = l) as -> by (by destruct l).
    unfold grown. rewrite insert_id, app_nil_r by done. done.
  - apply list.Forall_cons in V as [Vj V]. destruct (configure_appender_ok i j w l El Vj Nl) as (w1 & E1 & G1 & O1). cbn [configure_appenders]. rewrite E1. cbn [rbind].
    pose proof G1 as (L1 & A1 & _). destruct (IH w1 _ ltac:(rewrite L1; apply lookup_insert_eq) V Nl) as (w2 & E2 & G2 & O2). cbn [l_level l_formatter m_appenders Log.m_root] in *.
    exists w2. split; [done|]. rewrite L1, insert_insert_eq, A1, length_app, <- app_assoc in G2. cbn [length] in G2. rewrite Nat.add_1_r in G2. cbn [length seq map]. split.
    + exact (grown_trans _ _ _ _ _ _ _ G1 G2).
    + constructor; [by eapply ok_output_grown|done].
Qed.

(** The formatter of a logger, or of a new one. *)
Definition default_formatter : LogFormatter := match new_LogFormatter default_pattern with Ok (f, _) => f | _ => mkLogFormatter [] [] true end.
Definition formatter_of (w : Logs F) (name : list byte) : LogFormatter := match m_loggers w !! name with Some l => l_formatter l | None => default_formatter end.

Lemma grown_print x w w' m a : grown w w' m a -> grown w (print x w') m a.
Proof. done. Qed.

Lemma getLogger_ok name w : wf_logs w -> name <> [] ->
  exists w' l, getLogger name w = Ok w' /\ grown w w' (<[name := l]> (m_loggers w)) [] /\ files w' = files w /\ l_formatter l = formatter_of w name
    /\ (name = root_name -> Log.m_root l = None) /\ (Log.m_root l = None \/ Log.m_root l = Some root_name).
Proof.
  intros [R L] N. unfold getLogger, formatter_of. assert (is_empty name = false) as -> by (by destruct name). destruct (m_loggers w !! name) as [l|] eqn:E.
  - exists w, l. destruct (L _ _ E) as (L1 & L2 & _). unfold grown. rewrite insert_id, app_nil_r by done. done.
  - unfold new_Logger. assert (is_empty name = false) as -> by (by destruct name). destruct (formatter_total default_pattern) as (f & pr & Ef & _); [done|].
    unfold default_formatter. rewrite Ef. cbn [rbind]. do 2 eexists. split; [done|]. split; [split_and!; [done|cbn; by rewrite app_nil_r|done]|]. split_and!; [done|done| |by right].
    intros ->. rewrite E in R. by destruct R.
Qed.

Lemma configure_logger_ok i w : wf_logs w -> valid_define i ->
  exists w' l, configure_logger local_time now micro event i w = Ok w'
    /\ grown w w' (<[d_name i := l]> (m_loggers w)) (map (configured i (l_formatter l)) (d_appenders i))
    /\ l_level l = d_llevel i /\ l_formatter l = pattern_or (d_lformatter i) (formatter_of w (d_name i))
    /\ m_appenders l = seq (length (appenders w)) (length (d_appenders i)) /\ wf_logs w'.
Proof.
  intros W (N & Nl & V). unfold configure_logger. destruct (getLogger_ok (d_name i) w W N) as (w1 & l1 & -> & G1 & F1 & Fm & Rt & Ro). cbn [rbind].
  pose proof G1 as (L1 & A1 & _). rewrite app_nil_r in A1. unfold setLevel, logger. rewrite (proj2 (Z.eqb_neq _ _) Nl), L1, lookup_insert_eq. cbn [deref rbind].
  set (w2 := put_logger _ _ w1). assert (L2 : m_loggers w2 = <[d_name i := mkLogger (d_llevel i) (l_formatter l1) (m_appenders l1) (Log.m_root l1)]> (m_loggers w)) by (unfold w2; cbn; by rewrite L1, insert_insert_eq).
  assert (S3 : exists w3, (if is_empty (d_lformatter i) then Ok w2 else setFormatter_pattern (d_name i) (d_lformatter i) w2) = Ok w3
    /\ m_loggers w3 = <[d_name i := mkLogger (d_llevel i) (pattern_or (d_lformatter i) (l_formatter l1)) (m_appenders l1) (Log.m_root l1)]> (m_loggers w)
    /\ appenders w3 = appenders w /\ files w3 = files w).
  { unfold pattern_or. destruct (is_empty (d_lformatter i)) eqn:Ee; [by exists w2|]. destruct (formatter_total (d_lformatter i)) as (f & pr & Ef & _); [by destruct (d_lformatter i)|].
    unfold setFormatter_pattern. rewrite Ef. cbn [rbind]. destruct (m_isError f); [by eexists|]. unfold setFormatter, logger. change (m_loggers (print pr w2)) with (m_loggers w2).
    rewrite L2, lookup_insert_eq. cbn [deref rbind]. eexists. split; [done|]. split_and!; [|done|done].
    change (<[d_name i := mkLogger (d_llevel i) f (m_appenders l1) (Log.m_root l1)]> (m_loggers w2) = <[d_name i := mkLogger (d_llevel i) f (m_appenders l1) (Log.m_root l1)]> (m_loggers w)). by rewrite L2, insert_insert_eq. }
  destruct S3 as (w3 & E3 & L3 & A3 & F3). rewrite E3. cbn [rbind]. unfold clearAppender, logger. rewrite L3, lookup_insert_eq. cbn [deref rbind l_level l_formatter Log.m_root].
  set (w4 := put_logger _ _ w3). set (l4 := mkLogger (d_llevel i) (pattern_or (d_lformatter i) (l_formatter l1)) [] (Log.m_root l1)).
  assert (L4 : m_loggers w4 = <[d_name i := l4]> (m_loggers w)) by (unfold w4; cbn; by rewrite L3, insert_insert_eq).
  destruct (configure_appenders_ok i (d_appenders i) w4 l4 ltac:(by rewrite L4, lookup_insert_eq) V Nl) as (w5 & E5 & G5 & O5).
  rewrite E5. rewrite L4, insert_insert_eq in G5. change (appenders w4) with (appenders w3) in G5. rewrite A3 in G5. cbn [l4 l_level l_formatter m_appenders Log.m_root app] in G5, O5.
  assert (G : grown w w5 (<[d_name i := mkLogger (d_llevel i) (pattern_or (d_lformatter i) (l_formatter l1)) (seq (length (appenders w)) (length (d_appenders i))) (Log.m_root l1)]> (m_loggers w))
    (map (configured i (pattern_or (d_lformatter i) (l_formatter l1))) (d_appenders i))).
  { destruct G5 as (X & Y & Z). split_and!; [done| |]; [rewrite Y; change (appenders w4) with (appenders w3); by rewrite A3|intros k K; apply Z; change (files w4) with (files w3); by rewrite F3]. }
  eexists w5, _. split; [done|]. split; [exact G|]. split_and!; [done|by rewrite <- Fm|done|].
  destruct W as [R L]. pose proof G as (X & Y & _). constructor; rewrite X.
  - destruct (decide (d_name i = root_name)) as [->|Nr]; [rewrite lookup_insert_eq; eauto|by rewrite lookup_insert_ne].
  - intros n l. destruct (decide (d_name i = n)) as [<-|Nn].
    + rewrite lookup_insert_eq. intros [= <-]. split_and!; [done|done|]. apply List.Forall_forall. intros k [K1 K2]%in_seq. cbn.
      assert (B : exists a, map (configured i (pattern_or (d_lformatter i) (l_formatter l1))) (d_appenders i) !! (k - length (appenders w))%nat = Some a) by (apply lookup_lt_is_Some_2; rewrite length_map; lia).
      destruct B as [a B]. exists a. rewrite Y, lookup_app_r by lia. split_and!; [done| |].
      * apply list_lookup_fmap_Some in B as (j & -> & _). by eexists.
      * rewrite list.Forall_lookup in O5. by apply (O5 _ _ B).
    + rewrite lookup_insert_ne by done. intros E. destruct (L _ _ E) as (Y1 & Y2 & Y3). split_and!; [done|done|]. eapply List.Forall_impl; [|done]. intros k. by eapply grown_ok.
Qed.

(** A logger as a definition wants it, and one that is off. *)
Definition as_configured (w : Logs F) (i : LogDefine) : Prop :=
  exists l, m_loggers w !! d_name i = Some l /\ l_level l = d_llevel i
    /\ map (fun k => appenders w !! k) (m_appenders l) = map (fun j => Some (configured i (l_formatter l) j)) (d_appenders i).

Definition turned_off (w : Logs F) (name : list byte) : Prop := exists l, m_loggers w !! name = Some l /\ l_level l = off /\ m_appenders l = [].

Lemma map_seq_lookup {A} (l k : list A) : map (fun i => (l ++ k) !! i) (seq (length l) (length k)) = map Some k.
Proof.
  revert l. induction k as [|x k IH]; intros l; [done|]. cbn [length seq map]. rewrite list_lookup_middle by done. f_equal.
  specialize (IH (l ++ [x])). rewrite length_app, Nat.add_1_r in IH. rewrite <- app_assoc in IH. exact IH.
Qed.

Lemma as_configured_frame w w' n l more i : grown w w' (<[n := l]> (m_loggers w)) more -> n <> d_name i -> as_configured w i -> as_configured w' i.
Proof.
  intros (X & Y & _) N (li & E & Lv & M). exists li. rewrite X, lookup_insert_ne by done. split_and!; [done|done|]. rewrite <- M. apply map_ext_in. intros k K.
  assert (S : is_Some (appenders w !! k)).
  { assert (I : In (appenders w !! k) (map (fun j => Some (configured i (l_formatter li) j)) (d_appenders i))) by (rewrite <- M; by apply (in_map (fun k => appenders w !! k))).
    apply in_map_iff in I as (j & <- & _). by eexists. }
  destruct S as [a S]. rewrite Y, S. by apply lookup_app_l_Some.
Qed.

Lemma configure_loggers_ok l : forall w, wf_logs w -> Forall valid_define l -> NoDup (map d_name l) ->
  exists w', configure_loggers local_time now micro event l w = Ok w' /\ wf_logs w' /\ Forall (as_configured w') l
    /\ forall i, d_name i ∉ map d_name l -> as_configured w i -> as_configured w' i.
Proof.
  induction l as [|i l IH]; intros w W V N; [exists w; done|]. cbn [map] in N. apply list.NoDup_cons in N as [Ni N]. apply list.Forall_cons in V as [Vi V].
  destruct (configure_logger_ok i w W Vi) as (w1 & li & E1 & G1 & Lv & _ & Ap & W1). cbn [configure_loggers]. rewrite E1. cbn [rbind].
  destruct (IH w1 W1 V N) as (w2 & E2 & W2 & C2 & Fr). exists w2. split_and!; [done|done| |].
  - constructor; [|done]. apply Fr; [done|]. pose proof G1 as (X & Y & _). exists li. rewrite X, lookup_insert_eq. split_and!; [done|done|]. rewrite Ap, Y.
    rewrite <- (length_map (configured i (l_formatter li)) (d_appenders i)), map_seq_lookup, map_map. done.
  - cbn [map]. intros k [K1 K2]%not_elem_of_cons C. apply Fr; [done|]. eapply as_configured_frame; [exact G1|congruence|done].
Qed.

Lemma remove_logger_ok i w : wf_logs w -> d_name i <> [] -> exists w' l, remove_logger i w = Ok w' /\ grown w w' (<[d_name i := l]> (m_loggers w)) []
  /\ l_level l = off /\ m_appenders l = [] /\ wf_logs w'.
Proof.
  intros W N. unfold remove_logger. destruct (getLogger_ok (d_name i) w W N) as (w1 & l1 & -> & G1 & F1 & _ & Rt & Ro). cbn [rbind].
  pose proof G1 as (L1 & A1 & _). rewrite app_nil_r in A1. unfold setLevel, logger. cbn [Z.eqb off UNKNOWN]. rewrite L1, lookup_insert_eq. cbn [deref rbind].
  set (w2 := put_logger _ _ w1). assert (L2 : m_loggers w2 = <[d_name i := mkLogger off (l_formatter l1) (m_appenders l1) (Log.m_root l1)]> (m_loggers w)) by (unfold w2; cbn; by rewrite L1, insert_insert_eq).
  unfold clearAppender, logger. rewrite L2, lookup_insert_eq. cbn [deref rbind l_level l_formatter Log.m_root]. do 2 eexists. split; [done|].
  assert (G : grown w (put_logger (d_name i) (mkLogger off (l_formatter l1) [] (Log.m_root l1)) w2) (<[d_name i := mkLogger off (l_formatter l1) [] (Log.m_root l1)]> (m_loggers w)) []).
  { split_and!; [cbn [m_loggers put_logger set_loggers]; by rewrite L2, insert_insert_eq|rewrite app_nil_r; exact A1|intros k; change (files (put_logger _ _ w2)) with (files w1); by rewrite F1]. }
  split; [exact G|]. split_and!; [done|done|]. destruct W as [R L]. pose proof G as (X & _). constructor; rewrite X.
  - destruct (decide (d_name i = root_name)) as [->|Nr]; [rewrite lookup_insert_eq; eauto|by rewrite lookup_insert_ne].
  - intros n l. destruct (decide (d_name i = n)) as [<-|Nn]; [rewrite lookup_insert_eq; intros [= <-]; split_and!; try done; constructor|].
    rewrite lookup_insert_ne by done. intros E. destruct (L _ _ E) as (Y1 & Y2 & Y3). split_and!; [done|done|]. eapply List.Forall_impl; [|done]. intros k. by eapply grown_ok.
Qed.

Lemma turned_off_frame w w' n l more name : grown w w' (<[n := l]> (m_loggers w)) more -> l_level l = off -> m_appenders l = [] -> turned_off w name -> turned_off w' name.
Proof.
  intros (X & _) Lv Ap (k & E & Lk & Ak). destruct (decide (n = name)) as [->|N]; [exists l; by rewrite X, lookup_insert_eq|]. exists k. by rewrite X, lookup_insert_ne.
Qed.

Lemma remove_loggers_ok new_val old_val : forall w, wf_logs w -> Forall (fun i => d_name i <> []) old_val ->
  exists w', remove_loggers new_val old_val w = Ok w' /\ wf_logs w'
    /\ (forall i, i ∈ old_val -> d_name i ∉ map d_name new_val -> turned_off w' (d_name i))
    /\ (forall i, i ∈ new_val -> as_configured w i -> as_configured w' i) /\ (forall name, turned_off w name -> turned_off w' name).
Proof.
  induction old_val as [|o old_val IH]; intros w W N; cbn [remove_loggers]; [exists w; split_and!; try done; intros i I; by apply not_elem_of_nil in I|].
  apply list.Forall_cons in N as [No N]. destruct (existsb (fun n => bool_decide (d_name n = d_name o)) new_val) eqn:Ex; cbn [rbind].
  - destruct (IH w W N) as (w' & E & W' & R & C & O). exists w'. split_and!; try done. intros i [->|I]%elem_of_cons Ni; [|by apply R].
    exfalso. apply existsb_exists in Ex as (n & In & Q%bool_decide_eq_true). apply Ni. rewrite <- Q. apply list_elem_of_In, in_map. done.
  - destruct (remove_logger_ok o w W No) as (w1 & l & E1 & G1 & Lv & Ap & W1). rewrite E1. cbn [rbind]. destruct (IH w1 W1 N) as (w' & E & W' & R & C & O). exists w'. split_and!; try done.
    + intros i [->|I]%elem_of_cons Ni; [|by apply R]. apply O. pose proof G1 as (X & _). exists l. by rewrite X, lookup_insert_eq.
    + intros i I Ci. apply C; [done|]. eapply as_configured_frame; [exact G1| |done]. intros Q. assert (X : existsb (fun n => bool_decide (d_name n = d_name o)) new_val = true); [|by rewrite Ex in X].
      apply existsb_exists. exists i. split; [by apply list_elem_of_In|]. by apply bool_decide_eq_true.
    + intros name T. apply O. by eapply turned_off_frame.
Qed.

(** C34: After a change of the configuration every logger that is defined has its level and exactly
    the appenders that its definition asks for, every one that is not defined any more is off,
    and the manager is sound. *)
Theorem Config_applied old_val new_val w : wf_logs w -> is_Some (m_loggers w !! bstr "system") ->
  m_level (event INFO (bstr "logger config changed")) = INFO -> printable w (event INFO (bstr "logger config changed")) ->
  Forall valid_define new_val -> NoDup (map d_name new_val) -> Forall (fun i => d_name i <> []) old_val ->
  exists w', config_changed local_time now micro event old_val new_val w = Ok w' /\ wf_logs w' /\ Forall (as_configured w') new_val
    /\ forall i, i ∈ old_val -> d_name i ∉ map d_name new_val -> turned_off w' (d_name i).
Proof.
  intros W Sy Lv P V N O. unfold config_changed, system_log.
  assert (D : exists w0, CIM_LOG local_time now micro (bstr "system") INFO (event INFO (bstr "logger config changed")) w = Ok w0 /\ wf_logs w0).
  { pose proof (CIM_LOG_effective now micro (bstr "system") (event INFO (bstr "logger config changed")) w W Sy) as Ec. rewrite Lv in Ec. rewrite Ec. destruct (log_all_ok now micro (event INFO (bstr "logger config changed")) _ w (effective_ok w (bstr "system") INFO W) P) as (w0 & E & S & _).
    exists w0. split; [exact E|by eapply same_wf]. }
  destruct D as (w0 & -> & W0). cbn [rbind]. destruct (configure_loggers_ok new_val w0 W0 V N) as (w1 & -> & W1 & C1 & _). cbn [rbind].
  destruct (remove_loggers_ok new_val old_val w1 W1 O) as (w2 & -> & W2 & R & C2 & _). exists w2. split_and!; [done|done| |done].
  apply list.Forall_forall. intros i I. apply C2; [done|]. rewrite list.Forall_forall in C1. by apply C1.
Qed.

(** A logger that is off logs nothing at any level. *)
Lemma off_silent w name level : turned_off w name -> level < off -> effective w name level = [].
Proof. intros (l & E & Lv & Ap) B. unfold effective. rewrite E, Lv. by rewrite (proj2 (Z.leb_gt _ _)). Qed.
End config.

(** What the constructor builds is sound. *)
Lemma new_LoggerManager_ok m (d : F) : exists w, new_LoggerManager m d = Ok w /\ wf_logs w /\ m_loggers w = {[root_name := mkLogger DEBUG default_formatter [0%nat] None]}
  /\ appenders w = [mkAppender StdoutLogAppender DEBUG (Some default_formatter)].
Proof.
  unfold new_LoggerManager, new_Logger, default_formatter. destruct (formatter_total default_pattern) as (f & pr & E & _); [done|]. rewrite E.
  change (is_empty root_name) with false. cbn [rbind new_appender appenders set_appenders length app].
  unfold addAppender, logger. cbn [m_loggers set_appenders]. rewrite lookup_singleton_eq. cbn [deref rbind]. unfold appender at 1. cbn [appenders set_appenders lookup list_lookup deref rbind a_formatter].
  unfold setFormatter_of, appender. cbn [appenders set_appenders lookup list_lookup deref rbind]. eexists. split; [done|].
  set (r := mkLogger _ _ _ _). match goal with |- wf_logs ?w /\ _ => set (w0 := w) end.
  assert (L : m_loggers w0 = {[root_name := r]}) by (unfold w0; cbn [m_loggers put_logger set_loggers put_appender set_appenders]; by rewrite insert_singleton_eq).
  split_and!; [|done|done]. constructor; rewrite L; [rewrite lookup_singleton_eq; eauto|]. intros n l. rewrite lookup_singleton_Some. intros [<- <-].
  split_and!; [done|by left|]. constructor; [|constructor]. eexists. cbn. split_and!; [done|by eexists|done].
Qed.
End dispatch.

(** ** Instances *)

Definition clock (t : Z) : list byte := bstr "2024-05-01 12:00:30".
Definition an_event (level : Z) (message : list byte) : LogEvent :=
  mkLogEvent (Some (bstr "/src/CIM/net/socket.cpp")) 42 0 7 (bstr "io") 3 1714564830 level message (bstr "system").

Definition tokens : list token := [Text (bstr "["); Item (bstr "p"); Text (bstr "] "); Item (bstr "f"); Item (bstr "T"); Item (bstr "m"); Item (bstr "n")].

Lemma Pattern_roundtrip_witness : exists f, new_LogFormatter (bstr "[%p] %f%T%m%n") = Ok (f, []) /\ m_isError f = false /\ format clock f (an_event WARN (bstr "closed")) = Ok (bstr "[WARN] net/socket.cpp" ++ [x09] ++ bstr "closed" ++ [x0a]).
Proof.
  destruct (Pattern_roundtrip tokens) as (f & E & _ & I & Er); [done|by repeat constructor|]. exists f. change (bstr "[%p] %f%T%m%n") with (render tokens). split; [exact E|]. split.
  - rewrite Er. vm_compute. reflexivity.
  - unfold format. rewrite I. vm_compute. reflexivity.
Defined.

(** Two percent signs are not one: the second begins an item, or is an error. *)
Example two_percents : exists f pr, new_LogFormatter (bstr "100%%") = Ok (f, pr) /\ m_isError f = true /\ m_items f = [StringFormatItem (bstr "<<pattern_error>>"); StringFormatItem (bstr "100%")].
Proof. do 2 eexists. vm_compute. done. Qed.
Example percent_item : exists f, new_LogFormatter (bstr "%%m") = Ok (f, []) /\ m_items f = [StringFormatItem (bstr "%"); MessageFormatItem].
Proof. eexists. vm_compute. done. Qed.

(** A manager with the logger "system", which has no appender of its own. *)
Definition managed : Logs Disk :=
  mkLogs {[root_name := mkLogger DEBUG default_formatter [0%nat] None; bstr "system" := mkLogger DEBUG default_formatter [] (Some root_name)]}
    [mkAppender StdoutLogAppender DEBUG (Some default_formatter)] new_LogFileManager (mkDisk [] ∅) [].

Example managed_built : (let! w := new_LoggerManager new_LogFileManager (mkDisk [] ∅) in getLogger (bstr "system") w) = Ok managed.
Proof. vm_compute. reflexivity. Qed.

Lemma managed_ok : wf_logs managed /\ is_Some (m_loggers managed !! bstr "system") /\ forall e, printable clock managed e.
Proof.
  split; [constructor; [by eexists|]|split; [by eexists|]].
  - intros n l. cbn [m_loggers managed]. rewrite lookup_insert_Some. intros [[<- <-]|[N1 [<- <-]%lookup_singleton_Some]]; (split_and!; [done| |]); [by left| |by right|constructor].
    constructor; [|constructor]. eexists. cbn. split_and!; [done|by eexists|done].
  - intros e i n t. unfold taken. cbn [appenders managed]. destruct i as [|i]; [|done]. cbn. by destruct (DEBUG <=? m_level e).
Qed.

Lemma Log_dispatch_witness : exists w', CIM_LOG clock noon 0 (bstr "system") WARN (an_event WARN (bstr "closed")) managed = Ok w'
  /\ out w' = bstr "2024-05-01 12:00:30" ++ [x09] ++ bstr "io" ++ [x09] ++ bstr "7" ++ [x09] ++ bstr "3" ++ [x09] ++ bstr "[WARN]" ++ [x09]
       ++ bstr "[system]" ++ [x09] ++ bstr "<net/socket.cpp:42>" ++ [x09] ++ bstr "closed" ++ [x0a].
Proof.
  destruct managed_ok as (W & S & P). destruct (Log_dispatch clock noon 0 (bstr "system") (an_event WARN (bstr "closed")) managed W S (P _)) as (w' & E & _ & _ & _ & O & _).
  exists w'. split; [exact E|]. rewrite O. vm_compute. reflexivity.
Defined.

Definition old_config : list LogDefine := [mkLogDefine (bstr "http") INFO [] []].
Definition new_config : list LogDefine :=
  [mkLogDefine (bstr "system") WARN (bstr "%m%n") [mkAppenderDefine 1 UNKNOWN [] (bstr "log/app.log") MINUTE 0; mkAppenderDefine 2 ERROR (bstr "%p%n") [] NONE 0]].

Lemma Config_applied_witness : exists w', config_changed clock noon 0 an_event old_config new_config managed = Ok w' /\ Forall (as_configured w') new_config /\ turned_off w' (bstr "http").
Proof.
  destruct managed_ok as (W & S & P). destruct (Config_applied clock noon 0 an_event old_config new_config managed W S eq_refl (P _)) as (w' & E & _ & C & T).
  - constructor; [|constructor]. split_and!; [done|done|]. constructor; [by left|]. constructor; [by right|constructor].
  - apply NoDup_singleton.
  - by repeat constructor.
  - exists w'. split; [exact E|]. split; [exact C|]. apply (T (mkLogDefine (bstr "http") INFO [] [])); [left|]. apply (bool_decide_unpack _). vm_compute. done.
Defined.

(** An appender of a type that is neither ends the process. *)
Example unknown_type : config_changed clock noon 0 an_event [] [mkLogDefine (bstr "system") WARN [] [mkAppenderDefine 0 UNKNOWN [] [] NONE 0]] managed = Crash null_deref.
Proof. vm_compute. reflexivity. Qed.

(** An empty message in a pattern that adds nothing fails the assertion of the file. *)
Example empty_message : (let! w := config_changed clock noon 0 an_event [] [mkLogDefine (bstr "system") WARN (bstr "%m") [mkAppenderDefine 1 UNKNOWN [] (bstr "log/app.log") NONE 0]] managed in
  CIM_LOG clock noon 0 (bstr "system") ERROR (an_event ERROR []) w) = Crash assertion_failed.
Proof. vm_compute. reflexivity. Qed.
